(* ===== verification/_CoqProject ===== *)
-Q . S2P
Prelude.v
Blocks.v
F64.v
Floats.v
Utf8.v
Text.v
Bytelines.v
Hex.v
Paths.v
Decimal.v
KeyVal.v
Order.v
Version.v
Json.v
Sha256.v
Protocol.v
Tlv.v
Commands.v
Md5.v
Parser.v
Handshake.v
Gaze.v
Camera.v
Transport.v
Connection.v
IpcCodec.v
IpcServer.v
IpcPaths.v
HeadPose.v
Fusion.v
Output.v
Disk.v
Net.v
Release.v
Install.v
Folder.v
Swap.v
Xml.v
Gameconf.v
Userreg.v
Steam.v
Pcap.v
OutStream.v
Recap.v
CustomGames.v
Signature.v
Capture.v
Store.v
Autostart.v
Wineserver.v
Proton.v
RegQuery.v
Bridge.v
BridgeText.v
Registrar.v
Registered.v
BridgeStatus.v
BridgeSteam.v
BridgeRun.v
BridgeCommand.v
Setup.v
Profiles.v
ProfileEdit.v
ProfileStore.v
ModelStore.v
Games.v
Pipeline.v
CargoRecord.v
Uninstall.v
UninstallPlan.v
UninstallRun.v
SockAddr.v
Listener.v
HubDemand.v
HubLease.v
