(* ===== verification/Prelude.v ===== *)
(** * A verification of the Tobii Eye Tracker 5 driver

    This library models the core of the driver (the Rust crates under crates/) and proves
    what makes it correct. Definitions keep the names of the source and are executable;
    each file names the source it follows. Files in order of dependency:

    - [Prelude] (here): Rust results and the error-state monad for [&mut self] methods that
      use [?], machine integers, slices, byte order, the hint databases [tobii] and [zlen],
      and the tactics [len] and [cases].
    - [F64], [Floats]: [f64] and [f32] as the Standard Library's executable IEEE-754
      specification; when arithmetic is exact, the order of the numbers, clamping,
      rounding into a format, and the byte image of a float. A NaN carries no payload.
      [Libm] is the class of the functions whose precision Rust leaves to the platform.
    - [Utf8], [Text]: UTF-8 decoding, and [&str] as a list of scalar values with the methods
      the program uses: trimming, splitting, lines, decimal and hexadecimal numbers.
    - [Blocks], [Bytelines], [Hex], [Paths], [Order]: messages cut into blocks, bytes by lines,
      hexadecimal numbers, [Path] as text, and orders as comparisons that compose.
    - [Decimal]: [f64::from_str] and the shortest decimal of [Display], which reads back.
    - [KeyVal]: what the [key = value] files of several crates have in common.

    ** The wire (crates/tobii-protocol)
    - [Protocol], [Tlv]: the byte writer and the field codec. The class [Field] is the
      interface between a wire layout and its reader; everything that decodes a sequence
      of fields is proved against it. [safe]: no reader leaves its buffer.
    - [Commands]: outbound frames, request payloads, reply parsers, as round trips.
    - [Md5]: the incremental digest and HMAC: the padding and cutting of RFC 1321 and the
      keying of RFC 2104, around the code's compression, on which there are test vectors.
    - [Parser]: reassembly of inbound frames: a stream without envelopes may be cut anywhere,
      and a fragmented response comes out bit for bit.
    - [Handshake]: the connection state machine, over any interleaving of polls and replies.
    - [Gaze], [Camera]: the two notification decoders; round trips, truncation, consistency.

    ** The device (crates/tobii-usb)
    - [Transport]: chunking and the soak during sends, over a [Handle] class that stands
      for libusb; transfers come out once, in order, unmerged. [HandleLaws] and
      [HandleClock] are the laws of that class, with instances in the file. The class
      [Transport] is what [Connection] uses, and [UsbTransport] implements it.
    - [Connection]: handshake, requests, calibration, subscriptions and gaze over any
      [Transport]. The trace [io] says what was sent and read; requests match op and
      number, nothing queued is lost, every wait ends.
    - [Capture]: a session recorded to a text file, and a transport that replays it: the
      driver gets the data the device sent, in order.

    ** The daemon's socket (crates/tobii-ipc)
    - [IpcCodec]: messages, framing and the reader loop of both ends.
    - [IpcServer]: the server's threads as steps on shared state, in any order: bounded
      queues, every message accounted for, one client's trouble kept to itself; and the race
      in which a hello arrives before its client is registered.
    - [IpcPaths]: where the socket is, binding over a stale one, retry delays.

    ** Head pose and output (crates/tobii-headpose, crates/tobii-output)
    - [HeadPose]: geometry, the one-eye fallback refined to a specification over the
      history of frames, medians, the gated filter.
    - [Fusion]: gaze as a camera offset.
    - [Output]: the wire forms and the [Router]. A sink is a class: what [emit] makes of it.
    - [Games]: the settings file, key by key, and its round trip.
    - [Pipeline]: what composes one frame from one sample, over the settings of [Games];
      runs of it from the initial state.

    ** Configuration (crates/tobii-config)
    - [Disk]: a file system of directory entries and inodes, with what is in memory and what
      has reached the disk told apart. Every call may fail, and power may go at any point;
      [triple] is the logic in which [write_atomic] is proved never to tear a file.
    - [Store]: where the files are, calibration and its metadata, the one-value files, and
      the decision whether a calibration still fits.
    - [Setup]: the geometry of the screen and its file, EDID and setpm blobs.
    - [Profiles], [ProfileEdit], [ProfileStore]: game profiles: the grammar with its error
      messages and the writer; writing over a file without losing its comments; loading,
      listing and saving them.
    - [CustomGames], [Signature], [Autostart], [Userreg]: the list of games the user adds, the
      measurements of the signature check, the desktop entry that starts the program, and
      reading a value out of wine's registry file.

    ** The updater (crates/tobii-update) and the model (crates/tobii-headpose)
    - [Version], [Json], [Net], [Release]: version order, the JSON reader (total, and complete
      for RFC 8259 within its limits but for lone surrogates, which it refuses), fetching by curl or wget with its caps and trusted
      hosts, and picking a release.
    - [Sha256]: the streaming digest, proved to be FIPS 180-4, which is stated apart from it.
    - [Install], [Folder], [Swap]: who owns an installation, which download folders are safe,
      and putting new binaries in place with the way back when a step fails.
    - [ModelStore]: the downloaded head-pose model, over the file system of [Disk].

    ** Games, Steam and captures (crates/tobii-gameconf, tobii-steam, tobii-recap)
    - [Xml], [Gameconf]: a scanner for small XML documents with its grammar, and the key
      bindings a game keeps.
    - [Steam]: libraries, manifests, prefixes, and what a name picks out.
    - [Pcap], [OutStream], [Recap]: the container of a USB capture, the outbound reassembler,
      and the catalog: decoding a session shows what was sent and answered.

    ** The bridge into a game's prefix (crates/tobii-cli)
    - [Wineserver]: the lock of a prefix, found in two kernel tables.
    - [Proton]: a launch rearranged so that the provider starts first.
    - [RegQuery], [Bridge], [BridgeText]: reading a key from what wine prints, the gate of the
      command line, prefix, wine and client, the record of what was written, the decisions
      and all messages.
    - [Registrar], [Registered]: install and uninstall as programs over a prefix (two registry
      keys and a folder), every call of which may fail; and what any sequence of them and
      of other programs' writes leaves true, the one way a reading goes wrong included.
    - [BridgeStatus], [BridgeSteam], [BridgeRun], [BridgeCommand]: the report and its
      agreement with the commands, titles and the listing, the provider under watch, and
      the arguments.

    ** The uninstaller (crates/tobii-cli)
    - [CargoRecord]: Cargo's two records of what it installed, and what is left to Cargo.
    - [Uninstall]: what may be looked at and run, over the class [Os] of what the system
      answers: who can swap a program between the check and the run, which folder is no
      install, and which desktop entry goes with its program.
    - [UninstallPlan]: the plan as one function of those answers; what it deletes is this
      program's.
    - [UninstallRun]: its execution over the class [Machine], every call of which may fail,
      and the command around it: the log of changes keeps to the plan, nothing is deleted
      without consent, and the command returns.

    ** The hub (crates/tobii-gtk, crates/tobii-output)
    - [SockAddr], [Listener]: addresses, and whether some other program is bound where the
      output is sent, read from the kernel's tables.
    - [HubDemand]: who wants the tracker: the count of reasons under every interleaving of the
      windows, the socket thread and the device thread, never let go in between; the clients'
      holds, the port watch, and recentre requests.
    - [HubLease]: the whole device handed to a client: the device thread and the socket thread
      as step relations over what they share. A client told yes has the device to itself, a
      request waits for a bounded number of steps, no command is lost or overtaken, and a
      session outlives its last guard by three seconds.

    ** Time, fuel and panics
    An [Instant] or a [Duration] is a number of nanoseconds. A loop with a measure in the
    data takes that much fuel ([walk_enough], [poll_unfold], [soak_enough] show it is
    enough). The wait of a request depends on the clock: its fuel is an argument, [None] is
    running out, and [request_returns] shows that some fuel suffices under the clock's
    laws. A panic is [None] where one is possible ([shape], [median_and_spread],
    [new_router], [offer]); [pipeline_never_panics] rules it out for a pipeline.

    ** Not modelled, and why
    libusb itself, sockets and the system's files (third-party or the system: parameters, step
    labels, or the file system of [Disk], whose rename is atomic and whose inodes keep what
    was synced); claiming the interface and the vendor control transfers (calls only); relaxed
    atomics beyond sequential consistency; sinks' sockets; terminal, GTK, installer and
    service code, and the rest of the command line. Left out for want of logic of their own:
    the joystick's ioctls, the neural network and the resampling before it, the hub's widgets. Left out though it has some: the printed
    plan and summary of the uninstaller, the diagnostics report, the download and unpacking
    of an update. *)
From stdpp Require Export base numbers list.
From Stdlib Require Export ZArith Lia Sorted.
From Stdlib Require Export Strings.Byte.
From coqutil Require Export Byte Word.LittleEndianList.
From coqutil Require Export Datatypes.RecordSetters.
Export OCamlLikeNotations.
#[global] Arguments constant {E} newValue _ /.

Export Init.Byte.
#[export] Set Default Goal Selector "!".
Open Scope Z_scope.

(** ** Scope, notations *)
Declare Scope tobii_scope.
Delimit Scope tobii_scope with tobii.
Open Scope tobii_scope.

Abbreviation bytes := (list byte).
Abbreviation u8 := byte.unsigned (only parsing).
Abbreviation beq := Byte.eqb (only parsing).

(** ** Results: Rust's [Result<A, E>] *)
Inductive result (E A : Type) : Type :=
| Ok (a : A)
| Err (e : E).
Arguments Ok {E A} a.
Arguments Err {E A} e.

(** [r.ok()] *)
Definition ok {E A} (r : result E A) : option A :=
  match r with Ok a => Some a | Err _ => None end.

Definition is_ok {E A} (r : result E A) : bool :=
  match r with Ok _ => true | Err _ => false end.

#[export] Instance result_ret {E} : MRet (result E) := fun A a => Ok a.
#[export] Instance result_bind {E} : MBind (result E) :=
  fun A B k r => match r with Ok a => k a | Err e => Err e end.
#[export] Instance result_fmap {E} : FMap (result E) :=
  fun A B f r => match r with Ok a => Ok (f a) | Err e => Err e end.

(** [?] threaded through a mutable receiver: a state and error monad. An error
    keeps the state reached so far, as an early return from a [&mut self] method
    does. *)
Definition M (S E A : Type) : Type := S -> result E A * S.

#[export] Instance M_ret {S E} : MRet (M S E) := fun A a s => (Ok a, s).
#[export] Instance M_bind {S E} : MBind (M S E) :=
  fun A B k m s => match m s with
                   | (Ok a, s') => k a s'
                   | (Err e, s') => (Err e, s')
                   end.
#[export] Instance M_fmap {S E} : FMap (M S E) :=
  fun A B f m s => match m s with
                   | (Ok a, s') => (Ok (f a), s')
                   | (Err e, s') => (Err e, s')
                   end.
Definition throw {S E A} (e : E) : M S E A := fun s => (Err e, s).

Lemma M_bind_ok {S E A B} (m : M S E A) (k : A -> M S E B) s a s' :
  m s = (Ok a, s') -> (m ≫= k) s = k a s'.
Proof. intros H. unfold mbind, M_bind. by rewrite H. Qed.

Lemma M_bind_err {S E A B} (m : M S E A) (k : A -> M S E B) s e s' :
  m s = (Err e, s') -> (m ≫= k) s = (Err e, s').
Proof. intros H. unfold mbind, M_bind. by rewrite H. Qed.

Lemma M_bind_inv {S E A B} (m : M S E A) (k : A -> M S E B) s b s2 :
  (m ≫= k) s = (Ok b, s2) -> exists a s1, m s = (Ok a, s1) /\ k a s1 = (Ok b, s2).
Proof.
  unfold mbind, M_bind. destruct (m s) as [[a|e] s1]; intros H; [eauto|discriminate].
Qed.

(** The same for a plain [Result]. *)
Lemma result_bind_inv {E A B} (m : result E A) (k : A -> result E B) b :
  (m ≫= k) = Ok b -> exists a, m = Ok a /\ k a = Ok b.
Proof. destruct m as [a|e]; [eauto|discriminate]. Qed.

Lemma M_fmap_ok {S E A B} (f : A -> B) (m : M S E A) s a s' :
  m s = (Ok a, s') -> (f <$> m) s = (Ok (f a), s').
Proof. intros H. unfold fmap, M_fmap. by rewrite H. Qed.

(** ** Bytes *)
#[export] Instance byte_eq_dec : EqDecision byte := Byte.byte_eq_dec.

Lemma byte_eqb_spec (b c : byte) : Byte.eqb b c = bool_decide (b = c).
Proof.
  destruct (Byte.eqb b c) eqn:E; symmetry.
  - apply bool_decide_eq_true. by apply Byte.byte_dec_bl.
  - apply bool_decide_eq_false. intros ->.
    by rewrite (Byte.byte_dec_lb eq_refl) in E.
Qed.

Lemma byte_eqb_refl b : Byte.eqb b b = true.
Proof. rewrite byte_eqb_spec. by apply bool_decide_eq_true. Qed.

Lemma u8_range b : 0 <= u8 b < 256.
Proof. apply byte.unsigned_range. Qed.

Lemma u8_of_Z z : 0 <= z < 256 -> u8 (byte.of_Z z) = z.
Proof. intros. rewrite byte.unsigned_of_Z. unfold byte.wrap. apply Z.mod_small; lia. Qed.

(** ** Fixed-width integers *)

(** [z] seen as a [w]-bit unsigned integer: what [as uW] and the wrapping
    operations keep. *)
Definition wrap (w z : Z) : Z := z mod 2 ^ w.
(** Two's complement reading of [w] bits ([as iW] of a [uW]). *)
Definition sgn (w z : Z) : Z :=
  let u := wrap w z in if u <? 2 ^ (w - 1) then u else u - 2 ^ w.

(** The machine ranges. *)
Definition is_u (w z : Z) : Prop := 0 <= z < 2 ^ w.
Definition is_i (w z : Z) : Prop := - 2 ^ (w - 1) <= z < 2 ^ (w - 1).

Lemma wrap_range w z : 0 <= w -> is_u w (wrap w z).
Proof. intros. unfold is_u, wrap. apply Z.mod_pos_bound. lia. Qed.

Lemma wrap_id w z : is_u w z -> wrap w z = z.
Proof. unfold is_u, wrap. intros. by apply Z.mod_small. Qed.

Lemma sgn_wrap w z : 0 < w -> is_i w z -> sgn w (wrap w z) = z.
Proof.
  intros Hw Hz. unfold sgn, wrap, is_i in *.
  rewrite Z.mod_mod by lia.
  assert (Hp : 2 ^ w = 2 * 2 ^ (w - 1)) by (rewrite <- Z.pow_succ_r by lia; f_equal; lia).
  assert (0 < 2 ^ (w - 1)) by lia.
  destruct (Z_lt_le_dec z 0) as [Hneg|Hpos].
  - assert (Hm : z mod 2 ^ w = z + 2 ^ w).
    { symmetry. apply Z.mod_unique with (q := -1); lia. }
    rewrite Hm. destruct (Z.ltb_spec (z + 2 ^ w) (2 ^ (w - 1))); lia.
  - rewrite Z.mod_small by lia. destruct (Z.ltb_spec z (2 ^ (w - 1))); lia.
Qed.

Lemma sgn_range w z : 0 < w -> is_i w (sgn w z).
Proof.
  intros Hw. unfold sgn, is_i.
  pose proof (wrap_range w z ltac:(lia)) as Hr. unfold is_u in Hr.
  assert (Hp : 2 ^ w = 2 * 2 ^ (w - 1)) by (rewrite <- Z.pow_succ_r by lia; f_equal; lia).
  destruct (Z.ltb_spec (wrap w z) (2 ^ (w - 1))); lia.
Qed.

(** ** Lengths and slices. [len()] is a [usize]: a [Z] that is never negative. *)
Definition zlen {A} (l : list A) : Z := Z.of_nat (length l).

(** [&l[a..b]], for [a <= b <= l.len()]. *)
Definition slice {A} (l : list A) (a b : Z) : list A :=
  take (Z.to_nat (b - a)) (drop (Z.to_nat a) l).
(** [&l[a..]] *)
Definition from {A} (l : list A) (a : Z) : list A := drop (Z.to_nat a) l.

Lemma zlen_nil {A} : zlen (@nil A) = 0. Proof. done. Qed.
Lemma zlen_cons {A} (x : A) l : zlen (x :: l) = 1 + zlen l.
Proof. unfold zlen. simpl length. lia. Qed.
Lemma zlen_app {A} (l k : list A) : zlen (l ++ k) = zlen l + zlen k.
Proof. unfold zlen. rewrite length_app. lia. Qed.
Lemma zlen_nonneg {A} (l : list A) : 0 <= zlen l.
Proof. unfold zlen. lia. Qed.
Lemma zlen_replicate {A} n (x : A) : zlen (replicate n x) = Z.of_nat n.
Proof. unfold zlen. by rewrite length_replicate. Qed.
Lemma zlen_slice {A} (l : list A) a b :
  0 <= a <= b -> b <= zlen l -> zlen (slice l a b) = b - a.
Proof. unfold zlen, slice. intros. rewrite length_take, length_drop. lia. Qed.
Lemma zlen_from {A} (l : list A) a : 0 <= a <= zlen l -> zlen (from l a) = zlen l - a.
Proof. unfold zlen, from. intros. rewrite length_drop. lia. Qed.

Lemma slice_app_l {A} (l k : list A) a b :
  0 <= a <= b -> b <= zlen l -> slice (l ++ k) a b = slice l a b.
Proof.
  unfold zlen, slice. intros. rewrite drop_app_le by lia.
  rewrite take_app_le; [done|]. rewrite length_drop. lia.
Qed.
Lemma slice_app_r {A} (l k : list A) a b :
  zlen l <= a -> slice (l ++ k) a b = slice k (a - zlen l) (b - zlen l).
Proof.
  unfold zlen, slice. intros. rewrite drop_app_ge by lia.
  f_equal; [lia|]. f_equal. lia.
Qed.
Lemma slice_all {A} (l : list A) b : b = zlen l -> slice l 0 b = l.
Proof. unfold zlen, slice. intros ->. simpl. apply take_ge. lia. Qed.
Lemma from_app {A} (l k : list A) a : a = zlen l -> from (l ++ k) a = k.
Proof. unfold zlen, from. intros ->. rewrite Nat2Z.id. apply drop_app_length. Qed.
Lemma slice_app_exact {A} (l k : list A) b : b = zlen l -> slice (l ++ k) 0 b = l.
Proof.
  intros ->. pose proof (zlen_nonneg l). rewrite slice_app_l by lia. by apply slice_all.
Qed.
Lemma slice_mid {A} (p l k : list A) a b :
  a = zlen p -> b = a + zlen l -> slice (p ++ l ++ k) a b = l.
Proof.
  intros -> ->. pose proof (zlen_nonneg l).
  rewrite slice_app_r by lia. rewrite slice_app_l by lia. rewrite Z.sub_diag. apply slice_all. lia.
Qed.
Lemma slice_from {A} (l : list A) a b : 0 <= a <= b -> slice l 0 a ++ slice l a b = slice l 0 b.
Proof.
  unfold slice. intros. rewrite !Z.sub_0_r. change (Z.to_nat 0) with 0%nat. rewrite !drop_0.
  replace (Z.to_nat b) with (Z.to_nat a + Z.to_nat (b - a))%nat by lia.
  apply take_take_drop.
Qed.

(** ** Byte order *)
(** [v.to_le_bytes()], [v.to_be_bytes()] of an integer of [n] bytes. *)
Definition to_le (n : nat) (v : Z) : bytes := le_split n v.
Definition to_be (n : nat) (v : Z) : bytes := rev (le_split n v).
(** [uW::from_le_bytes], [uW::from_be_bytes]. *)
Definition of_le (l : bytes) : Z := le_combine l.
Definition of_be (l : bytes) : Z := le_combine (rev l).

#[global] Arguments to_le : simpl never.
#[global] Arguments to_be : simpl never.
#[global] Arguments of_le : simpl never.
#[global] Arguments of_be : simpl never.

Lemma zlen_to_le n v : zlen (to_le n v) = Z.of_nat n.
Proof. unfold zlen, to_le. by rewrite length_le_split. Qed.
Lemma zlen_to_be n v : zlen (to_be n v) = Z.of_nat n.
Proof. unfold zlen, to_be. by rewrite length_rev, length_le_split. Qed.

Lemma of_le_to_le_wrap n v : of_le (to_le n v) = wrap (Z.of_nat n * 8) v.
Proof. apply le_combine_split. Qed.
Lemma of_be_to_be_wrap n v : of_be (to_be n v) = wrap (Z.of_nat n * 8) v.
Proof. unfold of_be, to_be. rewrite rev_involutive. apply le_combine_split. Qed.
Lemma of_le_to_le n v : is_u (Z.of_nat n * 8) v -> of_le (to_le n v) = v.
Proof. intros. rewrite of_le_to_le_wrap. by apply wrap_id. Qed.
Lemma of_be_to_be n v : is_u (Z.of_nat n * 8) v -> of_be (to_be n v) = v.
Proof. intros. rewrite of_be_to_be_wrap. by apply wrap_id. Qed.
Lemma to_le_of_le l : to_le (length l) (of_le l) = l.
Proof. apply split_le_combine. Qed.
Lemma to_be_of_be l : to_be (length l) (of_be l) = l.
Proof.
  unfold to_be, of_be. rewrite <- (length_rev l), split_le_combine. apply rev_involutive.
Qed.
Lemma to_be_wrap n v : to_be n (wrap (Z.of_nat n * 8) v) = to_be n v.
Proof. unfold to_be, wrap. by rewrite <- le_split_mod. Qed.
Lemma to_le_wrap n v : to_le n (wrap (Z.of_nat n * 8) v) = to_le n v.
Proof. unfold to_le, wrap. by rewrite <- le_split_mod. Qed.
Lemma to_be4_wrap v : to_be 4 (wrap 32 v) = to_be 4 v. Proof. apply (to_be_wrap 4). Qed.
Lemma to_le4_wrap v : to_le 4 (wrap 32 v) = to_le 4 v. Proof. apply (to_le_wrap 4). Qed.
Lemma to_be8_wrap v : to_be 8 (wrap 64 v) = to_be 8 v. Proof. apply (to_be_wrap 8). Qed.
Lemma of_be4_inv v : is_u 32 v -> of_be (to_be 4 v) = v. Proof. apply (of_be_to_be 4). Qed.
Lemma of_le4_inv v : is_u 32 v -> of_le (to_le 4 v) = v. Proof. apply (of_le_to_le 4). Qed.
Lemma of_le2_inv v : is_u 16 v -> of_le (to_le 2 v) = v. Proof. apply (of_le_to_le 2). Qed.
(** A list of known length, opened up, so that slices at fixed offsets compute. *)
Lemma list2 {A} (l : list A) : zlen l = 2 -> exists a b, l = [a; b].
Proof. unfold zlen. destruct l as [|a [|b [|]]]; simpl; try lia. eauto. Qed.
Lemma list4 {A} (l : list A) : zlen l = 4 -> exists a b c d, l = [a; b; c; d].
Proof. unfold zlen. destruct l as [|a [|b [|c [|d [|]]]]]; simpl; try lia. eauto 6. Qed.
Lemma list8 {A} (l : list A) : zlen l = 8 -> exists a b c d e f g h, l = [a; b; c; d; e; f; g; h].
Proof.
  intros H. destruct (list4 (take 4 l)) as (a&b&c&d&E1).
  { unfold zlen in *. rewrite length_take. lia. }
  destruct (list4 (drop 4 l)) as (e&f&g&h&E2).
  { unfold zlen in *. rewrite length_drop. lia. }
  exists a, b, c, d, e, f, g, h. by rewrite <- (take_drop 4 l), E1, E2.
Qed.
Lemma of_le_range l : is_u (8 * zlen l) (of_le l).
Proof. unfold is_u, of_le, zlen. apply le_combine_bound. Qed.
Lemma of_be_range l : is_u (8 * zlen l) (of_be l).
Proof.
  unfold is_u, of_be, zlen. rewrite <- (length_rev l). apply le_combine_bound.
Qed.

(** ** Sorting: the stable [sort_by] of slices *)
Section Sort.
Context {A : Type} (le : A -> A -> bool).
Fixpoint insert_by (x : A) (l : list A) : list A :=
  match l with
  | [] => [x]
  | y :: l => if le x y then x :: y :: l else y :: insert_by x l
  end.
Definition sort_by (l : list A) : list A := foldr insert_by [] l.

Lemma insert_by_perm x l : insert_by x l ≡ₚ x :: l.
Proof.
  induction l as [|y l IH]; [done|]. cbn. destruct (le x y); [done|]. etrans; [apply perm_skip, IH|apply perm_swap].
Qed.
Lemma sort_by_perm l : sort_by l ≡ₚ l.
Proof. induction l as [|x l IH]; [done|]. cbn. etrans; [apply insert_by_perm|by apply perm_skip]. Qed.
Definition ordered (a b : A) : Prop := le a b = true.
Lemma insert_by_sorted x l :
  (forall a b, le a b = false -> le b a = true) -> Sorted ordered l -> Sorted ordered (insert_by x l).
Proof.
  intros total. induction 1 as [|y l Hs IH Hy]; [by repeat constructor|]. cbn. destruct (le x y) eqn:E.
  - constructor; [by constructor|]. by constructor.
  - constructor; [done|]. apply total in E. destruct l as [|z l]; cbn; [by constructor|].
    destruct (le x z); constructor; [done|by inversion Hy].
Qed.
Lemma sort_by_sorted l : (forall a b, le a b = false -> le b a = true) -> Sorted ordered (sort_by l).
Proof. intros total. induction l as [|x l IH]; [constructor|]. cbn. by apply insert_by_sorted. Qed.
End Sort.

(** ** Automation *)
Create HintDb tobii discriminated.
Create Rewrite HintDb zlen.
#[export] Hint Resolve zlen_nonneg u8_range of_le_range of_be_range wrap_range : tobii.
#[export] Hint Rewrite @zlen_nil @zlen_cons @zlen_app @zlen_replicate
  zlen_to_le zlen_to_be : zlen.

(** Normalise lengths, then decide. *)
Ltac len := autorewrite with zlen in *; try lia.
(** Case analysis on every [match] and [if] scrutinee of the goal, keeping the equation. *)
Ltac cases :=
  repeat match goal with
         | |- context [match ?x with _ => _ end] =>
             lazymatch x with
             | context [match _ with _ => _ end] => fail
             | _ => destruct x eqn:?
             end
         end.
