(* ===== verification/Blocks.v ===== *)
(** * Blocks: digests over blocks of 64 bytes

    What the two digests of the program share: folding a compression function over whole
    blocks, a buffer for what does not fill one, and the lemmas that a buffer with the digest
    of the blocks before it [holds] a message. [Md5] and [Sha256] are built on it. *)
From S2P Require Import Prelude.

#[export] Set Default Goal Selector "!".
#[global] Arguments Nat.div : simpl never.
#[global] Arguments Nat.modulo : simpl never.

(** [buf[off..off + data.len()].copy_from_slice(data)] *)
Definition write_at (off : nat) (data buf : bytes) : bytes :=
  take off buf ++ data ++ drop (off + length data) buf.

Lemma length_write_at off d b :
  (off + length d <= length b)%nat -> length (write_at off d b) = length b.
Proof. intros. unfold write_at. rewrite !length_app, length_take, length_drop. lia. Qed.
Lemma take_write_at off d b :
  (off <= length b)%nat -> take (off + length d) (write_at off d b) = take off b ++ d.
Proof.
  intros H. unfold write_at. rewrite app_assoc. apply take_app_length'.
  rewrite length_app, length_take. lia.
Qed.

Lemma div64_step n : (64 <= n)%nat -> (n / 64 = S ((n - 64) / 64))%nat.
Proof.
  intros H. rewrite <- (Nat.add_1_l (_ / _)), <- (Nat.div_add_l 1 64) by lia. f_equal. lia.
Qed.

(** Zeros from one byte after the message up to 56 modulo 64. *)
Definition pad_zeros (n : nat) : nat := ((119 - n mod 64) mod 64)%nat.

Section Blocks.
Context {W : Type} (f : W -> bytes -> W).

(** Fold the compression function over [n] blocks. *)
Fixpoint fold_blocks (n : nat) (st : W) (l : bytes) : W :=
  match n with
  | O => st
  | S n => fold_blocks n (f st (take 64 l)) (drop 64 l)
  end.

(** The loop over whole blocks, and what is left of the data; the fuel is never exhausted
    (see [while_blocks_spec]). *)
Fixpoint while_blocks (fuel : nat) (st : W) (data : bytes) : W * bytes :=
  match fuel with
  | O => (st, data)
  | S fuel =>
      if (64 <=? length data)%nat
      then while_blocks fuel (f st (take 64 data)) (drop 64 data)
      else (st, data)
  end.

Lemma fold_blocks_app n m st a b :
  length a = (64 * n)%nat -> fold_blocks (n + m) st (a ++ b) = fold_blocks m (fold_blocks n st a) b.
Proof.
  revert st a. induction n as [|n IH]; intros st a Ha.
  - destruct a; [done|simpl in Ha; lia].
  - cbn [fold_blocks Nat.add]. rewrite take_app_le, drop_app_le by lia.
    apply IH. rewrite length_drop. lia.
Qed.

(** Exactly one way to complete a block of 64 bytes. *)
Lemma fold_blocks_last n st blocks b :
  length blocks = (64 * n)%nat -> length b = 64%nat ->
  fold_blocks (n + 1) st (blocks ++ b) = f (fold_blocks n st blocks) b.
Proof. intros Hn Hb. rewrite fold_blocks_app by done. cbn [fold_blocks]. by rewrite take_ge by lia. Qed.

(** The loop consumes every whole block; [length] fuel is enough. *)
Lemma while_blocks_spec fuel st l :
  (length l <= fuel)%nat ->
  while_blocks fuel st l = (fold_blocks (length l / 64) st l, drop (64 * (length l / 64)) l).
Proof.
  revert st l. induction fuel as [|fuel IH]; intros st l Hf; cbn [while_blocks].
  - destruct l; [done|simpl in Hf; lia].
  - destruct (Nat.leb_spec 64 (length l)).
    + rewrite IH by (rewrite length_drop; lia). rewrite length_drop.
      rewrite (div64_step (length l)) by done. cbn [fold_blocks]. f_equal.
      rewrite drop_drop. f_equal. lia.
    + rewrite Nat.div_small by lia. done.
Qed.

(** ** A digest in progress *)
Variable init : W.

(** The digest of the whole blocks of [d], and the first [n] bytes of the buffer for the rest. *)
Definition holds (st : W) (buf : bytes) (n : nat) (d : bytes) : Prop :=
  exists k blocks rest,
    d = blocks ++ rest /\ length blocks = (64 * k)%nat /\ (length rest < 64)%nat /\
    st = fold_blocks k init blocks /\ length buf = 64%nat /\ n = length rest /\ take (length rest) buf = rest.

Lemma holds_nil buf : length buf = 64%nat -> holds init buf 0 [].
Proof. intros. exists 0%nat, [], []. split_and!; (done || simpl; lia). Qed.

(** Whole blocks out of [l], the remainder buffered. *)
Lemma holds_loop k blocks l b :
  length blocks = (64 * k)%nat -> length b = 64%nat ->
  let '(st, data) := while_blocks (length l) (fold_blocks k init blocks) l in
  holds st (write_at 0 data b) (length data) (blocks ++ l).
Proof.
  intros Hn Hb. rewrite while_blocks_spec by done.
  set (j := (length l / 64)%nat).
  pose proof (Nat.div_mod_eq (length l) 64) as Hm. fold j in Hm.
  pose proof (Nat.mod_upper_bound (length l) 64 ltac:(lia)) as Hu.
  exists (k + j)%nat, (blocks ++ take (64 * j) l), (drop (64 * j) l).
  assert (Hr : length (drop (64 * j) l) = (length l mod 64)%nat) by (rewrite length_drop; lia).
  rewrite <- app_assoc, take_drop, Hr.
  split_and!; try done.
  - rewrite length_app, length_take. lia.
  - rewrite fold_blocks_app by done. rewrite <- (Nat.add_0_r j) at 2.
    rewrite <- (take_drop (64 * j) l) at 1.
    rewrite <- (Nat.add_0_r j) at 1. rewrite fold_blocks_app by (rewrite length_take; lia).
    rewrite Nat.add_0_r. done.
  - rewrite length_write_at; [done|]. lia.
  - rewrite <- Hr at 1. apply (take_write_at 0). lia.
Qed.

(** Bytes that do not complete the block are kept; bytes that do, are compressed with it. *)
Lemma holds_more st buf n d l :
  holds st buf n d -> (n + length l < 64)%nat ->
  holds st (write_at n l buf) (n + length l) (d ++ l).
Proof.
  intros (k & blocks & rest & -> & Hk & Hr & Hst & Hb & -> & Ht) Hlt.
  exists k, blocks, (rest ++ l). rewrite length_app.
  split_and!; [by rewrite <- app_assoc|done|lia|done| |done|].
  - rewrite length_write_at; [done|lia].
  - rewrite take_write_at by lia. by rewrite Ht.
Qed.

Lemma holds_full st buf n d l :
  holds st buf n d -> length l = (64 - n)%nat ->
  write_at n l buf = drop (length d - n) d ++ l /\
  exists k, length (d ++ l) = (64 * k)%nat /\ f st (write_at n l buf) = fold_blocks k init (d ++ l).
Proof.
  intros (k & blocks & rest & -> & Hk & Hr & -> & Hb & -> & Ht) Hl.
  assert (Hw : write_at (length rest) l buf = rest ++ l).
  { unfold write_at. rewrite Ht, (drop_ge buf) by lia. by rewrite app_nil_r. }
  split.
  - rewrite Hw, length_app, drop_app_length' by lia. done.
  - exists (k + 1)%nat. rewrite Hw, <- app_assoc, fold_blocks_last; [|done|rewrite length_app; lia].
    split; [|done]. rewrite !length_app. lia.
Qed.

Lemma holds_buffered st buf n d : holds st buf n d -> n = (length d mod 64)%nat /\ (n < 64)%nat /\ length buf = 64%nat.
Proof.
  intros (k & blocks & rest & -> & Hk & Hr & _ & Hb & -> & _). split_and!; [|done|done].
  rewrite length_app, Hk, (Nat.mul_comm 64), Nat.add_comm, Nat.Div0.mod_add. by rewrite Nat.mod_small.
Qed.

(** With nothing buffered, the digest is that of the whole message. *)
Lemma holds_whole st buf d : holds st buf 0 d -> st = fold_blocks (length d / 64) init d.
Proof.
  intros (k & blocks & rest & -> & Hk & Hr & -> & _ & H0 & _).
  destruct rest; [|simpl in H0; lia]. rewrite app_nil_r, Hk, Nat.mul_comm, Nat.div_mul by lia. done.
Qed.
End Blocks.
#[global] Arguments fold_blocks {W} f n st l : assert.
