(* ===== verification/F64.v ===== *)
(** * F64: Rust's [f64] and the conversions the program uses

    An [f64] is a [spec_float] of the Standard Library: the IEEE-754 binary64
    datum (a NaN carries no payload). The arithmetic is the Standard Library's
    executable specification at precision 53 and exponent bound 1024, rounding
    to nearest even, so a decoder that works on floats can be evaluated.

    The lemmas establish when the arithmetic is exact: an integer of magnitude
    below [2^53] converts exactly, and scaling a number with a full 53-bit
    mantissa by a power of two changes its exponent only. They carry the Q42
    round trip of [Tlv]. *)
From S2P Require Import Prelude.
From Corelib Require Export SpecFloat.

Abbreviation prec := 53.
Abbreviation emax := 1024.

Definition f64 : Set := spec_float.

(** ** Operations *)
Definition f64_zero : f64 := S754_zero false.
Definition fadd : f64 -> f64 -> f64 := SFadd prec emax.
Definition fsub : f64 -> f64 -> f64 := SFsub prec emax.
Definition fmul : f64 -> f64 -> f64 := SFmul prec emax.
Definition fdiv : f64 -> f64 -> f64 := SFdiv prec emax.

(** [z as f64] for an integer [z]. *)
Definition of_int (z : Z) : f64 := binary_normalize prec emax z 0 false.

(** [x.round()]: to the nearest integer, halves away from zero. A number with a
    non-negative exponent is an integer already. *)
Definition fround (x : f64) : f64 :=
  match x with
  | S754_finite s m e =>
      if 0 <=? e then x
      else match (2 * Z.pos m + 2 ^ (- e)) / 2 ^ (1 - e) with
           | 0 => S754_zero s
           | n => binary_normalize prec emax (cond_Zopp s n) 0 s
           end
  | _ => x
  end.

(** [x as i64]: truncates, saturates, and sends NaN to zero. *)
Definition i64_min : Z := - 2 ^ 63.
Definition i64_max : Z := 2 ^ 63 - 1.
Definition as_i64 (x : f64) : Z :=
  match x with
  | S754_nan | S754_zero _ => 0
  | S754_infinity s => if s then i64_min else i64_max
  | S754_finite s m e =>
      let t := if 0 <=? e then Z.pos m * 2 ^ e else Z.pos m / 2 ^ (- e) in
      Z.max i64_min (Z.min i64_max (cond_Zopp s t))
  end.

(** [x.is_finite()], [x.is_nan()] and the comparisons. *)
Definition is_finite (x : f64) : bool :=
  match x with S754_zero _ | S754_finite _ _ _ => true | _ => false end.
Definition is_nan (x : f64) : bool := match x with S754_nan => true | _ => false end.
Definition flt (x y : f64) : bool := SFltb x y.
Definition fle (x y : f64) : bool := SFleb x y.

(** ** Digits *)
Lemma digits2_size p : digits2_pos p = Pos.size p.
Proof. induction p; simpl; congruence. Qed.

Lemma digits_spec p d :
  0 < d -> 2 ^ (d - 1) <= Z.pos p < 2 ^ d -> Zdigits2 (Z.pos p) = d.
Proof.
  intros Hd [Hl Hu]. simpl. rewrite digits2_size.
  pose proof (Pos.size_gt p) as Hgt. pose proof (Pos.size_le p) as Hle.
  apply Pos2Z.pos_lt_pos in Hgt. apply Pos2Z.pos_le_pos in Hle.
  rewrite Pos2Z.inj_pow in *. change (Z.pos p~0) with (2 * Z.pos p) in Hle.
  set (q := Z.pos (Pos.size p)) in *.
  assert (0 < q) by done.
  destruct (Z.lt_trichotomy q d) as [Hlt|[He|Hgt']]; [|done|].
  - assert (2 ^ q <= 2 ^ (d - 1)) by (apply Z.pow_le_mono_r; lia). lia.
  - assert (2 ^ d <= 2 ^ (q - 1)) by (apply Z.pow_le_mono_r; lia).
        assert (2 ^ q = 2 * 2 ^ (q - 1)) by (rewrite <- Z.pow_succ_r by lia; f_equal; lia). lia.
Qed.

Lemma digits_bounds p : 2 ^ (Zdigits2 (Z.pos p) - 1) <= Z.pos p < 2 ^ Zdigits2 (Z.pos p).
Proof.
  simpl. rewrite digits2_size.
  pose proof (Pos.size_gt p) as Hgt. pose proof (Pos.size_le p) as Hle.
  apply Pos2Z.pos_lt_pos in Hgt. apply Pos2Z.pos_le_pos in Hle.
  rewrite Pos2Z.inj_pow in *. change (Z.pos p~0) with (2 * Z.pos p) in Hle.
  assert (2 ^ Z.pos (Pos.size p) = 2 * 2 ^ (Z.pos (Pos.size p) - 1))
    by (rewrite <- Z.pow_succ_r by lia; f_equal; lia). lia.
Qed.

(** A 53-bit mantissa. *)
Definition full (m : positive) : Prop := 2 ^ 52 <= Z.pos m < 2 ^ 53.

Lemma digits_full_shift m k : full m -> 0 <= k -> Zdigits2 (Z.pos m * 2 ^ k) = 53 + k.
Proof.
  intros [Hl Hu] Hk. assert (0 < 2 ^ k) by lia.
  destruct (Z.pos m * 2 ^ k) as [|q|q] eqn:E; [lia| |lia].
  apply digits_spec; [lia|]. rewrite <- E.
  replace (53 + k - 1) with (52 + k) by lia. rewrite !Z.pow_add_r by lia. nia.
Qed.

(** ** Exact shifts *)
Lemma iter_pos_nat {A} (f : A -> A) p x : iter_pos f p x = Nat.iter (Pos.to_nat p) f x.
Proof.
  revert x. induction p; intros x; simpl iter_pos.
  - rewrite !IHp, <- Nat.iter_add, <- Nat.iter_succ_r. f_equal. lia.
  - rewrite !IHp, <- Nat.iter_add. f_equal. lia.
  - done.
Qed.

Lemma shr_1_double m : 0 < m ->
  shr_1 {| shr_m := 2 * m; shr_r := false; shr_s := false |}
  = {| shr_m := m; shr_r := false; shr_s := false |}.
Proof. by destruct m. Qed.

Lemma shr_iter_exact n m : 0 < m ->
  Nat.iter n shr_1 {| shr_m := m * 2 ^ Z.of_nat n; shr_r := false; shr_s := false |}
  = {| shr_m := m; shr_r := false; shr_s := false |}.
Proof.
  intros Hm. induction n as [|n IH].
  - by rewrite Z.mul_1_r.
  - rewrite Nat.iter_succ_r, Nat2Z.inj_succ, Z.pow_succ_r by lia.
    replace (m * (2 * 2 ^ Z.of_nat n)) with (2 * (m * 2 ^ Z.of_nat n)) by ring.
    rewrite shr_1_double by nia. apply IH.
Qed.

Lemma shr_exact m e k : 0 < m -> 0 <= k ->
  shr {| shr_m := m * 2 ^ k; shr_r := false; shr_s := false |} e k
  = ({| shr_m := m; shr_r := false; shr_s := false |}, e + k).
Proof.
  intros Hm Hk. destruct k as [|p|p]; [|simpl|lia].
  - simpl. by rewrite Z.mul_1_r, Z.add_0_r.
  - rewrite iter_pos_nat. f_equal. rewrite <- (positive_nat_Z p).
    by apply shr_iter_exact.
Qed.

(** ** Exact rounding: shifting out only zeros changes nothing. *)
Lemma round_aux_exact s m e k :
  full m -> 0 <= k -> -1074 <= e + k <= 971 ->
  binary_round_aux prec emax s (Z.pos m * 2 ^ k) e loc_Exact = S754_finite s m (e + k).
Proof.
  intros Hm Hk He. unfold binary_round_aux, shr_fexp.
  rewrite digits_full_shift by done.
  assert (Hf : forall x, -1074 <= x -> fexp prec emax (53 + x) = x).
  { intros x Hx. unfold fexp. change (SpecFloat.emin prec emax) with (-1074). lia. }
  replace (53 + k + e) with (53 + (e + k)) by lia. rewrite Hf by lia.
  replace (e + k - e) with k by lia.
  change (shr_record_of_loc (Z.pos m * 2 ^ k) loc_Exact)
    with {| shr_m := Z.pos m * 2 ^ k; shr_r := false; shr_s := false |}.
  rewrite shr_exact by done. cbv beta iota.
  change (round_nearest_even _ _) with (Z.pos m).
  assert (Hd : Zdigits2 (Z.pos m) = 53).
  { rewrite <- (Z.mul_1_r (Z.pos m)). apply (digits_full_shift m 0); [done|lia]. }
  rewrite Hd, Hf by lia. rewrite Z.sub_diag. simpl shr. cbv beta iota.
  change (shr_m _) with (Z.pos m).
  rewrite (proj2 (Z.leb_le (e + k) (emax - prec))) by lia. done.
Qed.

(** ** Exact integer conversion *)

Lemma pos_iter_xO p q : Z.pos (Pos.iter xO p q) = Z.pos p * 2 ^ Z.pos q.
Proof.
  revert q. apply (Pos.peano_ind (fun q => Z.pos (Pos.iter xO p q) = Z.pos p * 2 ^ Z.pos q)).
  - change (Z.pos p~0 = Z.pos p * 2 ^ 1). lia.
  - intros q IH. rewrite Pos.iter_succ, Pos2Z.inj_succ, Z.pow_succ_r by lia.
    change (Z.pos (Pos.iter xO p q)~0) with (2 * Z.pos (Pos.iter xO p q)). lia.
Qed.

(** The 53-bit mantissa and the exponent of a non-zero integer below [2^53]. *)
Lemma of_int_pos s p :
  Z.pos p < 2 ^ 53 ->
  exists m d, full m /\ 0 <= d <= 52 /\ Z.pos m = Z.pos p * 2 ^ d
              /\ binary_round prec emax s p 0 = S754_finite s m (- d).
Proof.
  intros Hp. pose proof (digits_bounds p) as [Hl Hu].
  set (n := Zdigits2 (Z.pos p)) in *.
  assert (Hn : 0 < n) by done.
  assert (n <= 53).
  { destruct (Z_le_gt_dec n 53); [done|].
    assert (2 ^ 53 <= 2 ^ (n - 1)) by (apply Z.pow_le_mono_r; lia). lia. }
  set (d := 53 - n).
  assert (Hfull : forall m, Z.pos m = Z.pos p * 2 ^ d -> full m).
  { intros m Em. unfold full. rewrite Em.
    assert (0 < 2 ^ d) by lia.
    replace (2 ^ 52) with (2 ^ (n - 1) * 2 ^ d) by (rewrite <- Z.pow_add_r by lia; f_equal; lia).
    replace (2 ^ 53) with (2 ^ n * 2 ^ d) by (rewrite <- Z.pow_add_r by lia; f_equal; lia).
    split; [apply Z.mul_le_mono_nonneg_r|apply Z.mul_lt_mono_pos_r]; lia. }
  assert (Ha : exists m, Z.pos m = Z.pos p * 2 ^ d /\
                shl_align p 0 (fexp prec emax (Z.pos (digits2_pos p) + 0)) = (m, - d)).
  { change (Z.pos (digits2_pos p)) with n.
    replace (fexp prec emax (n + 0)) with (- d)
      by (unfold fexp; change (SpecFloat.emin prec emax) with (-1074); lia).
    unfold shl_align. rewrite Z.sub_0_r.
    destruct (- d) as [|q|q] eqn:E; [|lia|].
    - exists p. replace d with 0 by lia. split; [ring|done].
    - exists (Pos.iter xO p q). replace d with (Z.pos q) by lia.
      split; [|done]. apply pos_iter_xO. }
  destruct Ha as (m & Em & Ha). exists m, d. specialize (Hfull m Em).
  split_and!; [done|lia|lia|done|].
  unfold binary_round. rewrite Ha.
  replace (Z.pos m) with (Z.pos m * 2 ^ 0) by ring.
  rewrite round_aux_exact by (done || lia). by rewrite Z.add_0_r.
Qed.

(** ** Scaling by a power of two *)

(** [2^k as f64] for the scale the protocol uses. *)
Definition two42 : f64 := S754_finite false (2 ^ 52) (-10).
Lemma two42_val : two42 = of_int (2 ^ 42). Proof. reflexivity. Qed.

Lemma full_two42 : full (2 ^ 52). Proof. done. Qed.

Lemma fmul_two42 s m e :
  full m -> -1074 <= e + 42 <= 971 ->
  fmul (S754_finite s m e) two42 = S754_finite s m (e + 42).
Proof.
  intros Hm He. unfold fmul, SFmul, two42. rewrite xorb_false_r.
  rewrite Pos2Z.inj_mul. change (Z.pos (2 ^ 52)) with (2 ^ 52).
  rewrite round_aux_exact by (done || lia). f_equal. lia.
Qed.

Lemma fdiv_two42 s m e :
  full m -> -1074 <= e - 43 -> e - 42 <= 971 ->
  fdiv (S754_finite s m e) two42 = S754_finite s m (e - 42).
Proof.
  intros Hm He He'. unfold fdiv, SFdiv, two42. rewrite xorb_false_r.
  assert (Hd : Zdigits2 (Z.pos m) = 53).
  { rewrite <- (Z.mul_1_r (Z.pos m)). apply (digits_full_shift m 0); [done|lia]. }
  unfold SFdiv_core_binary. rewrite Hd. change (Zdigits2 (Z.pos (2 ^ 52))) with 53.
  replace (fexp prec emax (53 + e - (53 + -10)) `min` (e - -10)) with (e - 43)
    by (unfold fexp; change (SpecFloat.emin prec emax) with (-1074); lia).
  replace (e - -10 - (e - 43)) with 53 by lia. cbv beta iota zeta.
  change (Z.pos (2 ^ 52)) with (2 ^ 52).
  assert (Hq : Z.div_eucl (Z.pos m ≪ 53) (2 ^ 52) = (2 * Z.pos m, 0)).
  { rewrite Z.shiftl_mul_pow2 by lia.
    replace (Z.pos m * 2 ^ 53) with (2 * Z.pos m * 2 ^ 52) by (change (2 ^ 53) with (2 * 2 ^ 52); ring).
    rewrite (surjective_pairing (Z.div_eucl _ _)).
    change (fst (Z.div_eucl ?a ?b)) with (a / b). change (snd (Z.div_eucl ?a ?b)) with (a mod b).
    by rewrite Z.div_mul, Z.mod_mul by done. }
  rewrite Hq. change (new_location (2 ^ 52) 0) with loc_Exact.
  replace (2 * Z.pos m) with (Z.pos m * 2 ^ 1) by ring.
  rewrite round_aux_exact by (done || lia). f_equal. lia.
Qed.

(** Rounding a number that is an integer, and reading it back. *)
Lemma as_i64_fround_exact s m d p :
  0 <= d <= 52 -> Z.pos m = Z.pos p * 2 ^ d -> Z.pos p < 2 ^ 53 ->
  as_i64 (fround (S754_finite s m (- d))) = cond_Zopp s (Z.pos p).
Proof.
  intros Hd Em Hp. assert (0 < 2 ^ d) by lia.
  assert (Hclamp : forall z, Z.abs z < 2 ^ 53 -> Z.max i64_min (Z.min i64_max z) = z)
    by (unfold i64_min, i64_max; intros; lia).
  destruct (Z.eq_dec d 0) as [->|Hd0].
  - simpl. rewrite Hclamp by (destruct s; simpl; lia). f_equal. rewrite Z.mul_1_r, Em. ring.
  - unfold fround. rewrite (proj2 (Z.leb_gt 0 (- d))) by lia. rewrite Z.opp_involutive.
    replace (1 - - d) with (1 + d) by lia. rewrite Em, Z.pow_add_r by lia.
    replace (2 * (Z.pos p * 2 ^ d) + 2 ^ d) with (2 ^ d + Z.pos p * (2 ^ 1 * 2 ^ d)) by ring.
    rewrite Z.div_add by lia. rewrite Z.div_small by lia. rewrite Z.add_0_l.
    destruct (of_int_pos s p Hp) as (m' & d' & Hm' & Hd' & Em' & Hr).
    replace (binary_normalize prec emax (cond_Zopp s (Z.pos p)) 0 s)
      with (S754_finite s m' (- d')) by (rewrite <- Hr; by destruct s).
    unfold as_i64. rewrite Z.opp_involutive. assert (0 < 2 ^ d') by lia.
    replace (if 0 <=? - d' then Z.pos m' * 2 ^ (- d') else Z.pos m' / 2 ^ d') with (Z.pos p).
    + apply Hclamp. destruct s; simpl; lia.
    + rewrite Em'. destruct (Z.leb_spec 0 (- d')); [|by rewrite Z.div_mul by lia].
      replace d' with 0 by lia. rewrite !Z.mul_1_r. done.
Qed.

(** The fixed-point bridge: an integer below [2^53] survives conversion to
    [f64], division by [2^42], multiplication by [2^42] and rounding. *)
Lemma q42_bridge z :
  Z.abs z < 2 ^ 53 -> as_i64 (fround (fmul (fdiv (of_int z) two42) two42)) = z.
Proof.
  intros Hz. destruct z as [|p|p]; [done| |].
  - destruct (of_int_pos false p) as (m & d & Hm & Hd & Em & Hr); [lia|].
    unfold of_int, binary_normalize. rewrite Hr, fdiv_two42, fmul_two42 by (done || lia).
    replace (- d - 42 + 42) with (- d) by lia. rewrite (as_i64_fround_exact _ m d p) by (done || lia).
    done.
  - destruct (of_int_pos true p) as (m & d & Hm & Hd & Em & Hr); [lia|].
    unfold of_int, binary_normalize. rewrite Hr, fdiv_two42, fmul_two42 by (done || lia).
    replace (- d - 42 + 42) with (- d) by lia. rewrite (as_i64_fround_exact _ m d p) by (done || lia).
    done.
Qed.

Lemma as_i64_range x : is_i 64 (as_i64 x).
Proof.
  unfold is_i, as_i64, i64_min, i64_max. destruct x as [|[]| |s m e]; lia.
Qed.
