(* ===== verification/Floats.v ===== *)
(** * Floats: order, clamping, narrowing and the byte image of floats

    What the head-pose and output code use of floats beyond [F64]: literals, degrees and
    radians, [clamp], [f32], and [to_le_bytes]. The lemmas give the order of the numbers
    (a total preorder), that [clamp] lands within its bounds, and that the byte image of
    every value a float can take reads back as that value. *)
From S2P Require Import Prelude F64.

(** ** Operations *)

(** The literal [n/d], correctly rounded for [n] and [d] exact. *)
Definition lit (n d : Z) : f64 := fdiv (of_int n) (of_int d).
Definition fopp (x : f64) : f64 := SFopp x.
Definition fabs (x : f64) : f64 := SFabs x.
Definition fsqrt (x : f64) : f64 := SFsqrt prec emax x.
Definition feq (x y : f64) : bool := SFeqb x y.
Definition PI : f64 := S754_finite false 7074237752028440 (-51).
Definition to_degrees (x : f64) : f64 := fmul x (fdiv (of_int 180) PI).
Definition to_radians (x : f64) : f64 := fmul x (fdiv PI (of_int 180)).

(** [x.max(y)]: a NaN operand gives the other. *)
Definition fmax (x y : f64) : f64 := if is_nan x then y else if flt x y then y else x.
(** [x.min(y)] *)
Definition fmin (x y : f64) : f64 := if is_nan x then y else if flt y x then y else x.
(** [x.total_cmp(&y)], of numbers. *)
Definition total_cmp (x y : f64) : comparison :=
  match SFcompare x y, x, y with
  | Some Eq, S754_zero s, S754_zero t => match s, t with true, false => Lt | false, true => Gt | _, _ => Eq end
  | Some c, _, _ => c
  | None, S754_nan, S754_nan => Eq
  | None, S754_nan, _ => Gt
  | None, _, _ => Lt
  end.
(** [x.signum()] of a number. *)
Definition signum (x : f64) : f64 :=
  match x with
  | S754_nan => S754_nan
  | S754_zero s | S754_infinity s | S754_finite s _ _ => of_int (if s then -1 else 1)
  end.

(** [x.clamp(lo, hi)], which panics unless [lo <= hi]. *)
Definition clamp_to (x lo hi : spec_float) : spec_float :=
  let x := if SFltb x lo then lo else x in if SFltb hi x then hi else x.
Definition fclamp (x lo hi : f64) : option f64 := if fle lo hi then Some (clamp_to x lo hi) else None.

(** The platform's mathematical library, whose precision Rust leaves unspecified. *)
Class Libm := {
  atan2 : f64 -> f64 -> f64; powf : f64 -> f64 -> f64; sin : f64 -> f64; cos : f64 -> f64; tan : f64 -> f64;
  asin : f64 -> f64; hypot : f64 -> f64 -> f64;
}.
(** One to evaluate examples with: right for small angles. *)
Definition small_angles : Libm :=
  {| atan2 := fun y x => fdiv y x; powf := fun u _ => u; sin := fun x => x; cos := fun _ => of_int 1; tan := fun x => x;
     asin := fun x => x; hypot := fun x y => fsqrt (fadd (fmul x x) (fmul y y)) |}.

(** ** [f32] *)
Definition f32 : Set := spec_float.
Definition mul32 : f32 -> f32 -> f32 := SFmul 24 128.
Definition div32 : f32 -> f32 -> f32 := SFdiv 24 128.
Definition of_int32 (z : Z) : f32 := binary_normalize 24 128 z 0 false.
Definition lit32 (n d : Z) : f32 := div32 (of_int32 n) (of_int32 d).
(** [v as f32] *)
Definition as_f32 (v : f64) : f32 :=
  match v with S754_finite s m e => binary_round 24 128 s m e | _ => v end.
(** [v as f64] *)
Definition as_f64 (v : f32) : f64 :=
  match v with S754_finite s m e => binary_round prec emax s m e | _ => v end.
(** 180/pi, correctly rounded to [f32]. *)
Definition DEG32 : f32 := S754_finite false 15019745 (-18).
Definition to_degrees32 (x : f32) : f32 := mul32 x DEG32.

(** ** Bytes: the IEEE interchange formats *)
Section Bits.
Variables p M : Z.

(** Bits below the exponent field; the exponent field's size. *)
Definition unit_ : Z := 2 ^ (p - 1).
Definition espan : Z := 2 * M.
Definition sign_bit (s : bool) : Z := if s then espan * unit_ else 0.

Definition to_bits (x : spec_float) : Z :=
  match x with
  | S754_zero s => sign_bit s
  | S754_infinity s => sign_bit s + (espan - 1) * unit_
  | S754_nan => (espan - 1) * unit_ + unit_ / 2
  | S754_finite s m e =>
      if Z.pos m <? unit_ then sign_bit s + Z.pos m
      else sign_bit s + (e - emin p M + 1) * unit_ + (Z.pos m - unit_)
  end.

Definition of_bits (b : Z) : spec_float :=
  let s := negb (b / (espan * unit_) =? 0) in
  let ex := (b / unit_) mod espan in
  let f := b mod unit_ in
  if ex =? espan - 1 then if f =? 0 then S754_infinity s else S754_nan
  else if ex =? 0 then match f with Z.pos m => S754_finite s m (emin p M) | _ => S754_zero s end
  else match unit_ + f with Z.pos m => S754_finite s m (ex + emin p M - 1) | _ => S754_nan end.
End Bits.

Definition f64_to_bits : f64 -> Z := to_bits 53 1024.
Definition f64_of_bits : Z -> f64 := of_bits 53 1024.
Definition f32_to_bits : f32 -> Z := to_bits 24 128.
Definition f32_of_bits : Z -> f32 := of_bits 24 128.
(** [to_le_bytes], [from_le_bytes] *)
Definition f64_to_le (x : f64) : bytes := to_le 8 (f64_to_bits x).
Definition f64_of_le (l : bytes) : f64 := f64_of_bits (of_le l).
Definition f32_to_le (x : f32) : bytes := to_le 4 (f32_to_bits x).
Definition f32_of_le (l : bytes) : f32 := f32_of_bits (of_le l).

(** What a double, and a single, can be. *)
Definition is_f64 (x : f64) : Prop := valid_binary 53 1024 x = true.
Definition is_f32 (x : f32) : Prop := valid_binary 24 128 x = true.

(** ** Order *)
Lemma SFcompare_refl x : is_nan x = false -> SFcompare x x = Some Eq.
Proof.
  destruct x as [s|s| |s m e]; [done|by destruct s|done|]. intros _. cbn [SFcompare].
  rewrite Z.compare_refl. rewrite Pos.compare_cont_refl. by destruct s.
Qed.

Lemma SFcompare_some x y : is_nan x = false -> is_nan y = false -> exists c, SFcompare x y = Some c.
Proof. destruct x, y; cbn; intros; try done; eauto. Qed.

Lemma SFcompare_antisym x y c : SFcompare x y = Some c -> SFcompare y x = Some (CompOpp c).
Proof.
  destruct x as [s|s| |s m e], y as [t|t| |t n f]; cbn [SFcompare]; try done; intros [= <-]; f_equal;
    try (by destruct s); try (by destruct t); try (by destruct s, t).
  destruct s, t; try done; rewrite (Z.compare_antisym e f);
    change (Pos.compare_cont Eq) with Pos.compare; rewrite (Pos.compare_antisym m n); destruct (e ?= f)%Z; cbn; try done;
    by destruct (m ?= n)%positive.
Qed.

Lemma fle_iff_not_lt x y : is_nan x = false -> is_nan y = false -> SFleb x y = negb (SFltb y x).
Proof.
  intros Hx Hy. destruct (SFcompare_some x y Hx Hy) as [c Hc]. unfold SFleb, SFltb.
  rewrite Hc, (SFcompare_antisym _ _ _ Hc). by destruct c.
Qed.

Lemma fle_refl x : is_nan x = false -> SFleb x x = true.
Proof. intros H. unfold SFleb. by rewrite SFcompare_refl. Qed.

Lemma flt_fle x y : SFltb x y = true -> SFleb x y = true.
Proof. unfold SFltb, SFleb. by destruct (SFcompare x y) as [[]|]. Qed.

Lemma fle_num x y : SFleb x y = true -> is_nan x = false /\ is_nan y = false.
Proof. unfold SFleb. by destruct x, y. Qed.

(** Two finite numbers of the same sign, by exponent and mantissa. *)
Definition lexle (m : positive) (e : Z) (n : positive) (f : Z) : Prop := e < f \/ (e = f /\ (m <= n)%positive).

Lemma fle_finite s m e t n f : SFleb (S754_finite s m e) (S754_finite t n f) = true <->
  match s, t with true, false => True | false, true => False | false, false => lexle m e n f | true, true => lexle n f m e end.
Proof.
  unfold SFleb, lexle. cbn [SFcompare]. change (Pos.compare_cont Eq) with Pos.compare.
  destruct s, t; try (split; done); destruct (Z.compare_spec e f); try (split; [lia|done]); try (split; [done|lia]);
    destruct (Pos.compare_spec m n); cbn; split; try done; try lia.
Qed.

Lemma fle_trans x y z : SFleb x y = true -> SFleb y z = true -> SFleb x z = true.
Proof.
  destruct x as [s|s| |s m e], y as [t|t| |t n f], z as [u|u| |u o g]; try done;
    try (repeat match goal with b : bool |- _ => destruct b end; done).
  rewrite !fle_finite. unfold lexle. destruct s, t, u; try done; lia.
Qed.

(** ** Clamping *)
Lemma clamp_bounds x lo hi : is_nan x = false -> SFleb lo hi = true ->
  SFleb lo (clamp_to x lo hi) = true /\ SFleb (clamp_to x lo hi) hi = true.
Proof.
  intros Hx Hb. destruct (fle_num _ _ Hb) as [Hl Hh]. unfold clamp_to.
  assert (H1 : SFleb lo (if SFltb x lo then lo else x) = true).
  { destruct (SFltb x lo) eqn:E; [by apply fle_refl|]. rewrite fle_iff_not_lt by done. by rewrite E. }
  set (y := if SFltb x lo then lo else x) in *. destruct (fle_num _ _ H1) as [_ Hy].
  destruct (SFltb hi y) eqn:E; [split; [done|by apply fle_refl]|]. split; [done|].
  rewrite fle_iff_not_lt by done. by rewrite E.
Qed.

Lemma clamp_inside x lo hi : SFleb lo x = true -> SFleb x hi = true -> clamp_to x lo hi = x.
Proof.
  intros H1 H2. unfold clamp_to. destruct (fle_num _ _ H1) as [? ?], (fle_num _ _ H2) as [? ?].
  rewrite fle_iff_not_lt in H1, H2 by done. destruct (SFltb x lo); [done|]. by destruct (SFltb hi x).
Qed.

(** ** Arithmetic on numbers gives numbers *)
Lemma iter_shr_nonneg q r : 0 <= shr_m r -> 0 <= shr_m (iter_pos shr_1 q r).
Proof.
  revert r. induction q as [q IH|q IH|]; intros r Hr; cbn [iter_pos];
    [apply IH, IH| apply IH, IH; exact Hr|]; destruct r as [[|[]|[]] ? ?]; cbn in *; try lia.
Qed.

Lemma shr_fexp_nonneg p M m e l : 0 <= m -> 0 <= shr_m (shr_fexp p M m e l).1.
Proof.
  intros Hm. unfold shr_fexp, shr. assert (Hr : 0 <= shr_m (shr_record_of_loc m l)) by (destruct l as [|[]]; done).
  destruct (_ - e); [exact Hr|by apply iter_shr_nonneg|exact Hr].
Qed.

Lemma round_aux_num p M s m e l : 0 <= m -> is_nan (binary_round_aux p M s m e l) = false.
Proof.
  intros Hm. unfold binary_round_aux. pose proof (shr_fexp_nonneg p M m e l Hm) as H1.
  destruct (shr_fexp p M m e l) as [r e'] eqn:E. cbn [fst] in H1.
  assert (H2 : 0 <= round_nearest_even (shr_m r) (loc_of_shr_record r)).
  { unfold round_nearest_even. destruct (loc_of_shr_record r) as [|[]]; try lia. destruct (Z.even _); lia. }
  pose proof (shr_fexp_nonneg p M _ e' loc_Exact H2) as H3.
  destruct (shr_fexp p M _ e' loc_Exact) as [r' e'']. cbn [fst] in H3.
  destruct (shr_m r'); [done| |lia]. by destruct (e'' <=? M - p).
Qed.

Lemma normalize_num p M m e s : is_nan (binary_normalize p M m e s) = false.
Proof.
  assert (H : forall t n, is_nan (binary_round p M t n e) = false).
  { intros t n. unfold binary_round. destruct (shl_align _ _ _). by apply round_aux_num. }
  destruct m; [done|apply H|apply H].
Qed.

Lemma mul_num p M x y : is_finite x = true -> is_finite y = true -> is_nan (SFmul p M x y) = false.
Proof. destruct x, y; try done. intros _ _. by apply round_aux_num. Qed.

Lemma sub_num x y : is_finite x = true -> is_finite y = true -> is_nan (fsub x y) = false.
Proof. destruct x as [[]| | |], y as [[]| | |]; try done. intros _ _. apply normalize_num. Qed.

Lemma is_finite_num x : is_finite x = true -> is_nan x = false.
Proof. by destruct x. Qed.

Lemma fsub_self x : is_finite x = true -> fsub x x = f64_zero.
Proof.
  destruct x as [[]| | |s m e]; try done. intros _. unfold fsub. cbn [SFsub]. by rewrite Z.sub_diag.
Qed.

Lemma fsub_self_finite x : is_finite (fsub x x) = true -> fsub x x = f64_zero.
Proof. intros Hx. apply fsub_self. by destruct x as [|[]| |]. Qed.

(** ** Rounding gives a value of the format *)
Lemma shr_1_half r : 0 <= shr_m r -> shr_m (shr_1 r) = shr_m r / 2.
Proof.
  destruct r as [m a b]. cbn [shr_m]. intros Hm. destruct m as [|[q|q|]|]; try lia; try done; cbn [shr_1 shr_m].
  - apply Z.div_unique with 1; lia.
  - apply Z.div_unique with 0; lia.
Qed.

Lemma iter_shr_half n r : 0 <= shr_m r -> shr_m (Nat.iter n shr_1 r) = shr_m r / 2 ^ Z.of_nat n.
Proof.
  intros Hr. induction n as [|n IH]; [cbn [Nat.iter]; by rewrite Z.div_1_r|].
  cbn [Nat.iter nat_rect]. change (nat_rect _ r _ n) with (Nat.iter n shr_1 r).
  assert (0 < 2 ^ Z.of_nat n) by (apply Z.pow_pos_nonneg; lia).
  rewrite shr_1_half, IH by (rewrite IH; apply Z.div_pos; lia). rewrite Z.div_div by lia. f_equal.
  rewrite Nat2Z.inj_succ, Z.pow_succ_r by lia. lia.
Qed.

Lemma shr_spec r e n : 0 <= shr_m r ->
  shr_m (shr r e n).1 = shr_m r / 2 ^ Z.max 0 n /\ (shr r e n).2 = e + Z.max 0 n.
Proof.
  intros Hr. destruct n as [|n|n]; cbn [shr fst snd]; try (rewrite Z.div_1_r; split; [done|lia]).
  rewrite iter_pos_nat, iter_shr_half, positive_nat_Z by done. done.
Qed.

(** [d] binary digits: what [Zdigits2] counts. *)
Definition has_digits (m d : Z) : Prop := (m = 0 /\ d = 0) \/ (0 < d /\ 2 ^ (d - 1) <= m < 2 ^ d).
Lemma digits_has m : 0 <= m -> has_digits m (Zdigits2 m).
Proof.
  intros Hm. destruct m as [|m|]; [by left| |lia]. right. split; [done|]. apply digits_bounds.
Qed.
Lemma digits_unique m d : has_digits m d -> Zdigits2 m = d.
Proof. intros [[-> ->]|[Hd Hm]]; [done|]. destruct m as [|m|m]; [lia|by apply digits_spec|lia]. Qed.
Lemma digits_shift m n : 0 <= m -> 0 <= n -> Zdigits2 (m / 2 ^ n) = Z.max 0 (Zdigits2 m - n).
Proof.
  intros Hm Hn. apply digits_unique. destruct (digits_has m Hm) as [[-> ->]|[Hd [Hl Hu]]].
  { left. rewrite Z.div_0_l by lia. lia. }
  assert (0 < 2 ^ n) by (apply Z.pow_pos_nonneg; lia). destruct (Z_lt_le_dec n (Zdigits2 m)) as [Hlt|Hle].
  - right. rewrite Z.max_r by lia. split; [lia|]. split.
    + apply Z.div_le_lower_bound; [lia|]. rewrite <- Z.pow_add_r by lia.
      replace (n + (Zdigits2 m - n - 1)) with (Zdigits2 m - 1) by lia. done.
    + apply Z.div_lt_upper_bound; [lia|]. rewrite <- Z.pow_add_r by lia.
      replace (n + (Zdigits2 m - n)) with (Zdigits2 m) by lia. done.
  - left. split; [|lia]. apply Z.div_small. split; [lia|].
    assert (2 ^ Zdigits2 m <= 2 ^ n) by (apply Z.pow_le_mono_r; lia). lia.
Qed.
Lemma digits_mono m n : 0 <= m <= n -> Zdigits2 m <= Zdigits2 n.
Proof.
  intros [Hm Hn]. destruct (digits_has m Hm) as [[-> ->]|[Hd [Hl Hu]]]; [destruct n; cbn; lia|].
  destruct (digits_has n ltac:(lia)) as [[-> ?]|[Hd' [Hl' Hu']]]; [lia|].
  destruct (Z_lt_le_dec (Zdigits2 n) (Zdigits2 m)) as [Hlt|]; [|done].
  assert (2 ^ Zdigits2 n <= 2 ^ (Zdigits2 m - 1)) by (apply Z.pow_le_mono_r; lia). lia.
Qed.

Section Rounding.
Variables p M : Z.
Hypothesis Hp : 1 <= p.

Lemma shr_fexp_spec m e l : 0 <= m ->
  let n := Z.max 0 (fexp p M (Zdigits2 m + e) - e) in
  shr_m (shr_fexp p M m e l).1 = m / 2 ^ n /\ (shr_fexp p M m e l).2 = e + n.
Proof.
  intros Hm n. unfold shr_fexp. assert (E : shr_m (shr_record_of_loc m l) = m) by (by destruct l as [|[]]).
  destruct (shr_spec (shr_record_of_loc m l) e (fexp p M (Zdigits2 m + e) - e)) as [H1 H2]; [by rewrite E|].
  by rewrite H1, H2, E.
Qed.

Lemma rounded_up r : 0 <= shr_m r -> shr_m r <= round_nearest_even (shr_m r) (loc_of_shr_record r) <= shr_m r + 1.
Proof. intros. unfold round_nearest_even. destruct (loc_of_shr_record r) as [|[]]; try lia. destruct (Z.even _); lia. Qed.

Lemma round_aux_valid s m e l : 0 <= m -> e <= fexp p M (Zdigits2 m + e) ->
  valid_binary p M (binary_round_aux p M s m e l) = true.
Proof.
  intros Hm He. unfold binary_round_aux.
  destruct (shr_fexp_spec m e l Hm) as [H1 H2]. destruct (shr_fexp p M m e l) as [r e1]. cbn [fst snd] in *.
  rewrite Z.max_r in H1, H2 by lia. set (n := fexp p M (Zdigits2 m + e) - e) in *.
  assert (Hr0 : 0 <= shr_m r) by (rewrite H1; apply Z.div_pos; lia).
  pose proof (rounded_up r Hr0) as Hr. set (m1 := round_nearest_even _ _) in *.
  assert (Hd : Z.max 0 (Zdigits2 m - n) <= Zdigits2 m1) by (rewrite <- digits_shift, <- H1 by lia; apply digits_mono; lia).
  destruct (shr_fexp_spec m1 e1 loc_Exact ltac:(lia)) as [H3 H4].
  destruct (shr_fexp p M m1 e1 loc_Exact) as [r' e2]. cbn [fst snd] in *.
  destruct (shr_m r') as [|q|q] eqn:Eq; try done. destruct (e2 <=? M - p) eqn:Ele; [|done].
  cbn [valid_binary]. unfold bounded, canonical_mantissa. rewrite Ele, andb_true_r. apply Z.eqb_eq.
  set (n1 := Z.max 0 (fexp p M (Zdigits2 m1 + e1) - e1)) in *. change (Z.pos (digits2_pos q)) with (Zdigits2 (Z.pos q)).
  rewrite H3, digits_shift by lia. assert (Hn1 : n1 < Zdigits2 m1).
  { pose proof (digits_shift m1 n1 ltac:(lia) ltac:(lia)) as E. rewrite <- H3 in E. cbn [Zdigits2] in E. lia. }
  rewrite Z.max_r, H4 by lia. replace (Zdigits2 m1 - n1 + (e1 + n1)) with (Zdigits2 m1 + e1) by lia.
  unfold n1. assert (e1 <= fexp p M (Zdigits2 m1 + e1)); [|lia]. rewrite H2. unfold n, fexp in *. lia.
Qed.

Lemma round_valid s m e : valid_binary p M (binary_round p M s m e) = true.
Proof.
  unfold binary_round, shl_align. set (x := fexp p M (Z.pos (digits2_pos m) + e)).
  destruct (x - e) as [|q|q] eqn:E.
  - apply round_aux_valid; [lia|]. cbn [Zdigits2]. unfold x in E. lia.
  - apply round_aux_valid; [lia|]. cbn [Zdigits2]. unfold x in E. lia.
  - apply round_aux_valid; [lia|]. rewrite pos_iter_xO.
    assert (Hdig : Zdigits2 (Z.pos m * 2 ^ Z.pos q) = Z.pos (digits2_pos m) + Z.pos q).
    { apply digits_unique. right. pose proof (digits_bounds m) as [Hl Hu]. cbn [Zdigits2] in *.
      assert (0 < 2 ^ Z.pos q) by lia. split; [lia|].
      replace (Z.pos (digits2_pos m) + Z.pos q - 1) with ((Z.pos (digits2_pos m) - 1) + Z.pos q) by lia.
      rewrite !Z.pow_add_r by lia. nia. }
    rewrite Hdig. unfold x in *. replace (Z.pos (digits2_pos m) + Z.pos q + fexp p M (Z.pos (digits2_pos m) + e))
      with (Z.pos (digits2_pos m) + e) by lia. lia.
Qed.
End Rounding.

Lemma as_f32_valid v : is_f32 (as_f32 v).
Proof. unfold is_f32. destruct v; try done. by apply round_valid. Qed.

(** ** Bytes *)
Section BitsLaws.
Variables p M : Z.
Hypothesis Hp : 2 <= p.
Hypothesis HM : 2 <= M.

Abbreviation U := (unit_ p).
Abbreviation E := (espan M).

Lemma unit_pos : 2 <= U.
Proof. unfold unit_. replace (p - 1) with (1 + (p - 2)) by lia. rewrite Z.pow_add_r by lia. lia. Qed.

Lemma fields s ex f : 0 <= ex < E -> 0 <= f < U ->
  let b := sign_bit p M s + ex * U + f in
  negb (b / (E * U) =? 0) = s /\ (b / U) mod E = ex /\ b mod U = f.
Proof.
  intros He Hf. pose proof unit_pos as HU. assert (HE : 0 < E) by (unfold espan; lia). cbv zeta.
  assert (Hb : sign_bit p M s = (if s then E else 0) * U) by (by destruct s). rewrite Hb.
  replace (_ + ex * U + f) with (((if s then E else 0) + ex) * U + f) by lia.
  rewrite (Z.mul_comm E U), <- Z.div_div, Z.div_add_l, (Z.div_small f U), Z.add_0_r by lia.
  split_and!.
  - destruct s; [|by rewrite Z.div_small by lia].
    replace (E + ex) with (1 * E + ex) by lia. rewrite Z.div_add_l, Z.div_small by lia. done.
  - destruct s; [|apply Z.mod_small; lia].
    replace (E + ex) with (ex + 1 * E) by lia. rewrite Z.mod_add by lia. apply Z.mod_small. lia.
  - rewrite Z.add_comm, Z.mod_add by lia. apply Z.mod_small. lia.
Qed.

Lemma of_bits_fields s ex f : 0 <= ex < E -> 0 <= f < U ->
  of_bits p M (sign_bit p M s + ex * U + f)
  = if ex =? E - 1 then if f =? 0 then S754_infinity s else S754_nan
    else if ex =? 0 then match f with Z.pos m => S754_finite s m (emin p M) | _ => S754_zero s end
    else match U + f with Z.pos m => S754_finite s m (ex + emin p M - 1) | _ => S754_nan end.
Proof. intros He Hf. unfold of_bits. destruct (fields s ex f He Hf) as (-> & -> & ->). done. Qed.

Lemma of_bits_to_bits x : valid_binary p M x = true -> of_bits p M (to_bits p M x) = x.
Proof.
  pose proof unit_pos as HU. assert (HE : 4 <= E) by (unfold espan; lia).
  destruct x as [s|s| |s m e]; cbn [to_bits valid_binary]; intros Hv.
  - rewrite <- (Z.add_0_r (sign_bit p M s)) at 1. replace (sign_bit p M s + 0) with (sign_bit p M s + 0 * U + 0) by lia.
    rewrite of_bits_fields by lia. by rewrite (proj2 (Z.eqb_neq _ _)) by lia.
  - rewrite <- (Z.add_0_r (_ + _)). rewrite of_bits_fields by lia. by rewrite Z.eqb_refl.
  - replace (_ + U / 2) with (sign_bit p M false + (E - 1) * U + U / 2) by (cbn [sign_bit]; lia).
    assert (0 < U / 2 < U) by (split; [apply Z.div_str_pos|apply Z.div_lt]; lia).
    rewrite of_bits_fields by lia. rewrite Z.eqb_refl. by rewrite (proj2 (Z.eqb_neq _ _)) by lia.
  - apply andb_prop in Hv as [Hc%Z.eqb_eq Hb%Z.leb_le]. pose proof (digits_bounds m) as Hd. cbn [Zdigits2] in Hd.
    set (d := Z.pos (digits2_pos m)) in *. unfold fexp in Hc.
    assert (Hup : Z.pos m < 2 * U).
    { assert (2 ^ d <= 2 ^ p) by (apply Z.pow_le_mono_r; lia). unfold unit_.
      replace p with (1 + (p - 1)) in H at 1 by lia. rewrite Z.pow_add_r in H by lia. lia. }
    destruct (Z.ltb_spec (Z.pos m) U) as [Hs|Hs].
    + assert (He : e = emin p M).
      { assert (d < p); [|lia]. destruct (Z_lt_le_dec d p); [done|].
        assert (2 ^ (p - 1) <= 2 ^ (d - 1)) by (apply Z.pow_le_mono_r; lia). unfold unit_ in Hs. lia. }
      replace (_ + Z.pos m) with (sign_bit p M s + 0 * U + Z.pos m) by lia.
      rewrite of_bits_fields by lia. rewrite (proj2 (Z.eqb_neq _ _)) by lia. cbn [Z.eqb]. by rewrite He.
    + assert (Hmin : emin p M <= e) by lia. unfold emin in *. rewrite of_bits_fields by (unfold espan in *; lia).
      rewrite !(proj2 (Z.eqb_neq _ _)) by (unfold espan in *; lia).
      replace (U + (Z.pos m - U)) with (Z.pos m) by lia. f_equal. unfold emin. lia.
Qed.

Lemma to_bits_range x : valid_binary p M x = true -> 0 <= to_bits p M x < 2 * (E * U).
Proof.
  pose proof unit_pos as HU. assert (HE : 4 <= E) by (unfold espan; lia).
  assert (Hs : forall s ex f, 0 <= ex < E -> 0 <= f < U -> 0 <= sign_bit p M s + ex * U + f < 2 * (E * U)).
  { intros s ex f He Hf. unfold sign_bit. destruct s; nia. }
  destruct x as [s|s| |s m e]; cbn [to_bits valid_binary]; intros Hv.
  - specialize (Hs s 0 0). lia.
  - specialize (Hs s (E - 1) 0). lia.
  - assert (0 <= U / 2 < U) by (split; [apply Z.div_pos|apply Z.div_lt]; lia).
    specialize (Hs false (E - 1) (U / 2)). cbn [sign_bit] in Hs. lia.
  - apply andb_prop in Hv as [Hc%Z.eqb_eq Hb%Z.leb_le]. pose proof (digits_bounds m) as Hd. cbn [Zdigits2] in Hd.
    set (d := Z.pos (digits2_pos m)) in *. unfold fexp in Hc.
    assert (Hup : Z.pos m < 2 * U).
    { assert (2 ^ d <= 2 ^ p) by (apply Z.pow_le_mono_r; lia). unfold unit_.
      replace p with (1 + (p - 1)) in H at 1 by lia. rewrite Z.pow_add_r in H by lia. lia. }
    destruct (Z.ltb_spec (Z.pos m) U) as [Hlt|Hle].
    + specialize (Hs s 0 (Z.pos m)). lia.
    + apply Hs; unfold espan, emin in *; lia.
Qed.
End BitsLaws.

(** A double written as eight bytes, a single as four, reads back as itself. *)
Lemma f64_of_le_to_le x : is_f64 x -> f64_of_le (f64_to_le x) = x.
Proof.
  intros Hx. unfold f64_of_le, f64_to_le. rewrite of_le_to_le.
  - by apply of_bits_to_bits.
  - pose proof (to_bits_range 53 1024 ltac:(lia) ltac:(lia) x Hx) as H. exact H.
Qed.
Lemma f32_of_le_to_le x : is_f32 x -> f32_of_le (f32_to_le x) = x.
Proof.
  intros Hx. unfold f32_of_le, f32_to_le. rewrite of_le_to_le.
  - by apply of_bits_to_bits.
  - pose proof (to_bits_range 24 128 ltac:(lia) ltac:(lia) x Hx) as H. exact H.
Qed.
