(* ===== verification/Utf8.v ===== *)
(** * Utf8: [String::from_utf8] and [String::from_utf8_lossy]

    A Rust [String] is a list of bytes that is well-formed UTF-8. Both
    conversions walk the input one scalar value at a time; [utf8_step] says what
    the head of the input is, following the ranges of Table 3-7 of the Unicode
    standard, and how much of it a replacement character stands for when it is
    ill-formed (the maximal subpart). *)
From S2P Require Import Prelude.

Inductive utf8_head :=
| Valid (n : nat)     (* a scalar value of [n] bytes *)
| Invalid (n : nat).  (* [n] bytes that one U+FFFD replaces *)

Definition in_range (lo hi : Z) (b : byte) : bool := (lo <=? u8 b) && (u8 b <=? hi).
Definition cont (b : byte) : bool := in_range 0x80 0xbf b.

(** The second byte's range depends on the first. *)
Definition second_ok (b0 b1 : byte) : bool :=
  if u8 b0 =? 0xe0 then in_range 0xa0 0xbf b1
  else if u8 b0 =? 0xed then in_range 0x80 0x9f b1
  else if u8 b0 =? 0xf0 then in_range 0x90 0xbf b1
  else if u8 b0 =? 0xf4 then in_range 0x80 0x8f b1
  else cont b1.

Definition utf8_step (b0 : byte) (l : bytes) : utf8_head :=
  if u8 b0 <? 0x80 then Valid 1
  else if in_range 0xc2 0xdf b0 then
    match l with b1 :: _ => if cont b1 then Valid 2 else Invalid 1 | _ => Invalid 1 end
  else if in_range 0xe0 0xef b0 then
    match l with
    | b1 :: l1 =>
        if second_ok b0 b1 then
          match l1 with b2 :: _ => if cont b2 then Valid 3 else Invalid 2 | _ => Invalid 2 end
        else Invalid 1
    | _ => Invalid 1
    end
  else if in_range 0xf0 0xf4 b0 then
    match l with
    | b1 :: l1 =>
        if second_ok b0 b1 then
          match l1 with
          | b2 :: l2 =>
              if cont b2 then
                match l2 with b3 :: _ => if cont b3 then Valid 4 else Invalid 3 | _ => Invalid 3 end
              else Invalid 2
          | _ => Invalid 2
          end
        else Invalid 1
    | _ => Invalid 1
    end
  else Invalid 1.

(** [String::from_utf8(l).is_ok()]; [skip] bytes belong to the scalar value
    whose first byte has been read. *)
Fixpoint valid_from (skip : nat) (l : bytes) : bool :=
  match l with
  | [] => true
  | b :: r =>
      match skip with
      | S k => valid_from k r
      | O => match utf8_step b r with
             | Valid n => valid_from (n - 1) r
             | Invalid _ => false
             end
      end
  end.
Definition utf8_valid (l : bytes) : bool := valid_from 0 l.

(** U+FFFD in UTF-8. *)
Definition replacement : bytes := [xef; xbf; xbd].

(** [String::from_utf8_lossy(l)]: [keep] bytes of a scalar value, then [dropped]
    bytes a replacement character stands for. *)
Fixpoint lossy_from (keep dropped : nat) (l : bytes) : bytes :=
  match l with
  | [] => []
  | b :: r =>
      match keep, dropped with
      | S k, _ => b :: lossy_from k dropped r
      | O, S d => lossy_from 0 d r
      | O, O => match utf8_step b r with
                | Valid n => b :: lossy_from (n - 1) 0 r
                | Invalid n => replacement ++ lossy_from 0 (n - 1) r
                end
      end
  end.
Definition from_utf8_lossy (l : bytes) : bytes := lossy_from 0 0 l.

(** ** Lemmas *)

(** A well-formed input is unchanged. *)
Lemma lossy_valid k l : valid_from k l = true -> lossy_from k 0 l = l.
Proof.
  revert k. induction l as [|b r IH]; intros k; [done|]. simpl.
  destruct k as [|k]; [|intros H; f_equal; by apply IH].
  destruct (utf8_step b r); [|done]. intros H. f_equal. by apply IH.
Qed.

Lemma from_utf8_lossy_valid l : utf8_valid l = true -> from_utf8_lossy l = l.
Proof. apply lossy_valid. Qed.

(** A scalar value is recognised whatever follows it. *)
Lemma utf8_step_ext b l n k :
  utf8_step b l = Valid (S n) -> (n <= length l)%nat /\ utf8_step b (take n l ++ k) = Valid (S n).
Proof.
  unfold utf8_step. intros H.
  repeat case_match; simplify_eq/=; auto with lia; split; auto with lia;
    repeat case_match; try congruence.
Qed.

Lemma utf8_step_pos b l : exists n, utf8_step b l = Valid (S n) \/ utf8_step b l = Invalid (S n).
Proof. unfold utf8_step. repeat case_match; eauto. Qed.

Lemma lossy_keep n l : (n <= length l)%nat -> lossy_from n 0 l = take n l ++ lossy_from 0 0 (drop n l).
Proof.
  revert l. induction n as [|n IH]; intros l Hn; [done|].
  destruct l as [|b r]; [simpl in Hn; lia|]. simpl. f_equal. apply IH. simpl in Hn. lia.
Qed.
Lemma lossy_drop n l : lossy_from 0 n l = lossy_from 0 0 (drop n l).
Proof.
  revert l. induction n as [|n IH]; intros l; [done|]. destruct l; [done|apply IH].
Qed.
Lemma valid_skip n l k : (n <= length l)%nat -> valid_from n (take n l ++ k) = valid_from 0 k.
Proof.
  revert l. induction n as [|n IH]; intros l Hn; [done|].
  destruct l as [|b r]; [simpl in Hn; lia|]. simpl. apply IH. simpl in Hn. lia.
Qed.

(** The lossy conversion always yields a well-formed string. *)
Lemma lossy_is_valid l : utf8_valid (from_utf8_lossy l) = true.
Proof.
  unfold utf8_valid, from_utf8_lossy.
  induction l as [l IH] using (induction_ltof1 _ (@length byte)). unfold ltof in IH.
  destruct l as [|b r]; [done|]. simpl.
  destruct (utf8_step_pos b r) as [n [H|H]]; rewrite H; simpl.
  - rewrite Nat.sub_0_r.
    destruct (utf8_step_ext b r n (lossy_from 0 0 (drop n r)) H) as [Hn He].
    rewrite lossy_keep, He by done. simpl. rewrite Nat.sub_0_r, valid_skip by done.
    apply IH. simpl. rewrite length_drop. lia.
  - rewrite Nat.sub_0_r, lossy_drop. apply IH. simpl. rewrite length_drop. lia.
Qed.
