(* ===== verification/Text.v ===== *)
(** * Text: [str] and [String] as sequences of characters

    Where the code walks a [str] by [char]s, a string is a list of Unicode
    scalar values. The methods of [str] the program uses are here, and the
    conversion to and from UTF-8 bytes ([as_bytes], [String::from_utf8]). *)
From stdpp Require Import list.
From Stdlib Require Strings.String.
From S2P Require Import Prelude Utf8.
Export (notations) Stdlib.Strings.String.

Abbreviation char := Z (only parsing).
Abbreviation text := (list Z).

(** ** Characters *)
(** What a Rust [char] may be. *)
Definition is_char (c : char) : bool :=
  ((0 <=? c) && (c <? 0xd800)) || ((0xe000 <=? c) && (c <? 0x110000)).
Definition char_from_u32 (v : Z) : option char := if is_char v then Some v else None.

Definition between (lo hi c : Z) : bool := (lo <=? c) && (c <=? hi).
Definition is_ascii (c : char) : bool := between 0 0x7f c.
Definition is_ascii_digit (c : char) : bool := between 48 57 c.
Definition is_ascii_uppercase (c : char) : bool := between 65 90 c.
Definition is_ascii_lowercase (c : char) : bool := between 97 122 c.
Definition is_ascii_alphabetic (c : char) : bool := is_ascii_uppercase c || is_ascii_lowercase c.
Definition is_ascii_alphanumeric (c : char) : bool := is_ascii_alphabetic c || is_ascii_digit c.
Definition is_ascii_hexdigit (c : char) : bool := is_ascii_digit c || between 65 70 c || between 97 102 c.
(** [is_ascii_whitespace]: space, tab, line feed, form feed, carriage return. *)
Definition is_ascii_whitespace (c : char) : bool :=
  (c =? 32) || (c =? 9) || (c =? 10) || (c =? 12) || (c =? 13).
(** [is_control]: the category Cc. *)
Definition is_control (c : char) : bool := between 0 0x1f c || between 0x7f 0x9f c.
(** [is_whitespace]: the property White_Space. *)
Definition is_whitespace (c : char) : bool :=
  between 9 13 c || (c =? 32) || (c =? 0x85) || (c =? 0xa0) || (c =? 0x1680) || between 0x2000 0x200a c
  || (c =? 0x2028) || (c =? 0x2029) || (c =? 0x202f) || (c =? 0x205f) || (c =? 0x3000).

Definition to_ascii_lowercase (c : char) : char := if is_ascii_uppercase c then c + 32 else c.

(** [to_digit(radix)], for a radix up to 16. *)
Definition to_digit (radix : Z) (c : char) : option Z :=
  let d := if is_ascii_digit c then Some (c - 48)
           else if between 97 102 c then Some (c - 87)
           else if between 65 70 c then Some (c - 55) else None in
  match d with Some v => if v <? radix then Some v else None | None => None end.

(** ** UTF-8 *)
Definition encode_char (c : char) : bytes :=
  byte.of_Z <$>
  (if c <? 0x80 then [c]
   else if c <? 0x800 then [0xc0 + c / 64; 0x80 + c mod 64]
   else if c <? 0x10000 then [0xe0 + c / 4096; 0x80 + c / 64 mod 64; 0x80 + c mod 64]
   else [0xf0 + c / 262144; 0x80 + c / 4096 mod 64; 0x80 + c / 64 mod 64; 0x80 + c mod 64]).
(** [s.as_bytes()] *)
Definition utf8_encode (s : text) : bytes := s ≫= encode_char.

Definition low6 (b : byte) : Z := u8 b mod 64.

(** [str::from_utf8(l)] *)
Fixpoint utf8_decode (l : bytes) : option text :=
  match l with
  | [] => Some []
  | b0 :: l1 =>
      if u8 b0 <? 0x80 then cons (u8 b0) <$> utf8_decode l1
      else match l1 with
      | [] => None
      | b1 :: l2 =>
          if in_range 0xc2 0xdf b0 then
            if cont b1 then cons ((u8 b0 - 0xc0) * 64 + low6 b1) <$> utf8_decode l2 else None
          else if negb (second_ok b0 b1) then None
          else match l2 with
          | [] => None
          | b2 :: l3 =>
              if negb (cont b2) then None
              else if in_range 0xe0 0xef b0 then
                cons ((u8 b0 - 0xe0) * 4096 + low6 b1 * 64 + low6 b2) <$> utf8_decode l3
              else if in_range 0xf0 0xf4 b0 then
                match l3 with
                | b3 :: l4 =>
                    if cont b3 then
                      cons ((u8 b0 - 0xf0) * 262144 + low6 b1 * 4096 + low6 b2 * 64 + low6 b3)
                        <$> utf8_decode l4
                    else None
                | [] => None
                end
              else None
          end
      end
  end.

(** A literal. *)
Definition txt (s : String.string) : text := default [] (utf8_decode (String.list_byte_of_string s)).
Arguments txt s%_string.
Abbreviation quote_char := 34 (only parsing).

(** ** Methods of [str] *)
Definition text_eqb (a b : text) : bool := bool_decide (a = b).

Fixpoint strip_prefix (p s : text) : option text :=
  match p, s with
  | [], _ => Some s
  | a :: p, b :: s => if a =? b then strip_prefix p s else None
  | _ :: _, [] => None
  end.
Definition starts_with (p s : text) : bool := match strip_prefix p s with Some _ => true | None => false end.
Definition strip_suffix (p s : text) : option text := @rev Z <$> strip_prefix (rev p) (rev s).

Definition ends_with (p s : text) : bool := match strip_suffix p s with Some _ => true | None => false end.

(** [trim_start_matches(p)], [trim_end_matches(p)] *)
Fixpoint trim_start_by (p : char -> bool) (s : text) : text :=
  match s with
  | c :: r => if p c then trim_start_by p r else s
  | [] => []
  end.
Definition trim_end_by (p : char -> bool) (s : text) : text := rev (trim_start_by p (rev s)).
Definition trim_by (p : char -> bool) (s : text) : text := trim_end_by p (trim_start_by p s).
Definition trim_start : text -> text := trim_start_by is_whitespace.
Definition trim_end : text -> text := trim_end_by is_whitespace.
Definition trim : text -> text := trim_by is_whitespace.

(** [split(p)]: always at least one piece. *)
Fixpoint split (p : char -> bool) (s : text) : list text :=
  match s with
  | [] => [[]]
  | c :: s =>
      if p c then [] :: split p s
      else match split p s with l :: ls => (c :: l) :: ls | [] => [[c]] end
  end.
Definition split_char (c : char) : text -> list text := split (Z.eqb c).
(** [split(p).next().unwrap_or_default()] *)
Definition first_piece (l : list text) : text := default [] (head l).

(** [split_once(c)] *)
Fixpoint split_once (p : char -> bool) (s : text) : option (text * text) :=
  match s with
  | [] => None
  | c :: s => if p c then Some ([], s)
              else '(a, b) ← split_once p s; Some (c :: a, b)
  end.
(** [split_once(pat)], for a string pattern: the text before and after it. *)
Fixpoint split_once_str (pat s : text) : option (text * text) :=
  match strip_prefix pat s with
  | Some r => Some ([], r)
  | None => match s with
            | [] => None
            | c :: s => '(a, b) ← split_once_str pat s; Some (c :: a, b)
            end
  end.

Definition contains (pat s : text) : bool := match split_once_str pat s with Some _ => true | None => false end.
(** [split_whitespace()] *)
Definition split_whitespace (s : text) : list text := base.filter (fun w => w <> []) (split is_whitespace s).

(** [lines()]: split at line feeds; a carriage return before one goes with it,
    and nothing after the last one is not a line. *)
Definition strip_cr (l : text) : text := default l (strip_suffix [13] l).
Definition lines (s : text) : list text :=
  let ps := split_char 10 s in
  (strip_cr <$> removelast ps) ++ match last ps with Some (c :: l) => [c :: l] | _ => [] end.

(** A line, ended. *)
Definition newline (l : text) : text := l ++ [10].

Definition eq_ignore_ascii_case (a b : text) : bool :=
  text_eqb (to_ascii_lowercase <$> a) (to_ascii_lowercase <$> b).

(** The order of [str], by bytes, which for UTF-8 is the order of the characters. *)
Fixpoint text_cmp (a b : text) : comparison :=
  match a, b with
  | [], [] => Eq
  | [], _ :: _ => Lt
  | _ :: _, [] => Gt
  | x :: a, y :: b => match x ?= y with Eq => text_cmp a b | o => o end
  end.

(** [join(sep)] *)
Fixpoint join (sep : text) (l : list text) : text :=
  match l with
  | [] => []
  | [s] => s
  | s :: l => s ++ sep ++ join sep l
  end.

(** ** Numbers *)
Definition digits_value (radix : Z) (ds : text) : option Z :=
  foldl (fun acc c => n ← acc; d ← to_digit radix c; Some (n * radix + d)) (Some 0) ds.

(** [uW::from_str_radix(s, radix)]: an optional plus, digits, no overflow. *)
Definition parse_uint (w radix : Z) (s : text) : option Z :=
  let s := match s with 43 :: ((_ :: _) as r) => r | _ => s end in
  match s with
  | [] => None
  | _ => v ← digits_value radix s; if v <? 2 ^ w then Some v else None
  end.
(** [s.parse::<iW>()] *)
Definition parse_int (w : Z) (s : text) : option Z :=
  let '(neg, ds) := match s with
                    | 43 :: ((_ :: _) as r) => (false, r)
                    | 45 :: ((_ :: _) as r) => (true, r)
                    | _ => (false, s)
                    end in
  match ds with
  | [] => None
  | _ => v ← digits_value 10 ds;
         let v := if neg : bool then - v else v in
         if (- 2 ^ (w - 1) <=? v) && (v <? 2 ^ (w - 1)) then Some v else None
  end.

(** [{}] of an integer. *)
Fixpoint dec_from (fuel : nat) (n : Z) (acc : text) : text :=
  let acc := (48 + n mod 10) :: acc in
  if n <? 10 then acc
  else match fuel with O => acc | S fuel => dec_from fuel (n / 10) acc end.
Definition show_uint (n : Z) : text := dec_from (Z.to_nat (Z.log2 n)) n [].
Definition show_int (n : Z) : text := if n <? 0 then 45 :: show_uint (- n) else show_uint n.

(** [{:x}], [{:X}] of a digit. *)
Definition hex_lower (d : Z) : char := if d <? 10 then 48 + d else 87 + d.
Definition hex_upper (d : Z) : char := if d <? 10 then 48 + d else 55 + d.
(** [{b:02x}] *)
Definition hex2 (b : byte) : text := [hex_lower (u8 b / 16); hex_lower (u8 b mod 16)].

(** ** Lemmas *)
Lemma strip_prefix_app p s : strip_prefix p (p ++ s) = Some s.
Proof. induction p as [|a p IH]; [done|]. simpl. by rewrite Z.eqb_refl. Qed.
Lemma strip_prefix_some p s r : strip_prefix p s = Some r -> s = p ++ r.
Proof.
  revert s. induction p as [|a p IH]; intros [|b s]; simpl; try congruence.
  destruct (Z.eqb_spec a b); [|done]. intros H. subst. f_equal. by apply IH.
Qed.
Lemma starts_with_app p s : starts_with p (p ++ s) = true.
Proof. unfold starts_with. by rewrite strip_prefix_app. Qed.
Lemma strip_suffix_app p s : strip_suffix p (s ++ p) = Some s.
Proof. unfold strip_suffix. rewrite rev_app_distr, strip_prefix_app. simpl. by rewrite rev_involutive. Qed.

(** Nothing to trim. *)
Definition front_ok (p : char -> bool) (s : text) : Prop :=
  match s with c :: _ => p c = false | [] => True end.
Definition back_ok (p : char -> bool) (s : text) : Prop := front_ok p (rev s).

Lemma trim_start_id p s : front_ok p s -> trim_start_by p s = s.
Proof. destruct s; [done|]. simpl. by intros ->. Qed.
Lemma trim_end_id p s : back_ok p s -> trim_end_by p s = s.
Proof. intros H. unfold trim_end_by. rewrite trim_start_id by done. apply rev_involutive. Qed.
Lemma trim_id p s : front_ok p s -> back_ok p s -> trim_by p s = s.
Proof. intros. unfold trim_by. by rewrite trim_start_id, trim_end_id. Qed.
Lemma back_ok_snoc p s c : p c = false -> back_ok p (s ++ [c]).
Proof. intros. unfold back_ok. by rewrite rev_app_distr. Qed.
Lemma back_ok_last c s : last s <> Some c -> back_ok (Z.eqb c) s.
Proof.
  intros H. destruct s as [|x s _] using rev_ind; [done|]. apply back_ok_snoc, Z.eqb_neq. rewrite last_snoc in H. congruence.
Qed.
Lemma back_ok_app p s t : t <> [] -> back_ok p t -> back_ok p (s ++ t).
Proof.
  intros Ht. unfold back_ok. rewrite rev_app_distr.
  destruct (rev t) eqn:E; [|done]. apply (f_equal (@rev Z)) in E. rewrite rev_involutive in E. done.
Qed.
Lemma front_ok_app p s t : s <> [] -> front_ok p s -> front_ok p (s ++ t).
Proof. by destruct s. Qed.
Lemma trim_start_front p s : front_ok p (trim_start_by p s).
Proof. induction s as [|c s IH]; [done|]. simpl. destruct (p c) eqn:E; [done|]. simpl. done. Qed.
Lemma trim_end_back p s : back_ok p (trim_end_by p s).
Proof. unfold back_ok, trim_end_by. rewrite rev_involutive. apply trim_start_front. Qed.
Lemma trim_start_suffix p s : exists w, s = w ++ trim_start_by p s /\ Forall (fun c => p c = true) w.
Proof.
  induction s as [|c s (w & IH & Hw)]; [by exists []|]. simpl. destruct (p c) eqn:E.
  - exists (c :: w). split; [simpl; by rewrite <- IH|by constructor].
  - by exists [].
Qed.
Lemma trim_end_prefix p s : exists w, s = trim_end_by p s ++ w /\ Forall (fun c => p c = true) w.
Proof.
  destruct (trim_start_suffix p (rev s)) as (w & E & Hw). exists (rev w). split.
  - unfold trim_end_by. rewrite <- rev_app_distr, <- E. by rewrite rev_involutive.
  - by apply Forall_rev.
Qed.
Lemma trim_start_all p w s : Forall (fun c => p c = true) w -> trim_start_by p (w ++ s) = trim_start_by p s.
Proof. induction 1 as [|c w Hc _ IH]; [done|]. simpl. by rewrite Hc. Qed.
Lemma trim_end_all p w s : Forall (fun c => p c = true) w -> trim_end_by p (s ++ w) = trim_end_by p s.
Proof.
  intros H. unfold trim_end_by. rewrite rev_app_distr, trim_start_all; [done|]. by apply Forall_rev.
Qed.

(** A trimmed text: nothing is left to trim, and nothing came in. *)
Lemma trim_ends s : front_ok is_whitespace (trim s) /\ back_ok is_whitespace (trim s).
Proof.
  split; [|apply trim_end_back]. unfold trim, trim_by.
  pose proof (trim_start_front is_whitespace s) as Hf.
  destruct (trim_end_prefix is_whitespace (trim_start_by is_whitespace s)) as (w & E & _).
  destruct (trim_end_by is_whitespace (trim_start_by is_whitespace s)) as [|c t]; [done|].
  rewrite E in Hf. exact Hf.
Qed.
Lemma trim_again s : trim (trim s) = trim s.
Proof. apply trim_id; apply trim_ends. Qed.
Lemma Forall_trim (P : Z -> Prop) s : Forall P s -> Forall P (trim s).
Proof.
  intros H. destruct (trim_start_suffix is_whitespace s) as (w1 & E1 & _).
  destruct (trim_end_prefix is_whitespace (trim_start_by is_whitespace s)) as (w2 & E2 & _).
  rewrite E1 in H. apply Forall_app in H as [_ H]. rewrite E2 in H. by apply Forall_app in H as [H _].
Qed.

(** Splitting at the first separator. *)
Lemma split_nonempty p s : split p s <> [].
Proof. destruct s as [|c s]; [done|]. simpl. destruct (p c); [done|]. by destruct (split p s). Qed.
Lemma split_app p l c s :
  Forall (fun x => p x = false) l -> p c = true -> split p (l ++ c :: s) = l :: split p s.
Proof.
  intros Hl Hc. induction Hl as [|x l Hx _ IH]; simpl; [by rewrite Hc|]. by rewrite Hx, IH.
Qed.
Lemma split_none p l : Forall (fun x => p x = false) l -> split p l = [l].
Proof. induction 1 as [|x l Hx _ IH]; [done|]. simpl. by rewrite Hx, IH. Qed.
Lemma split_once_app p l c s :
  Forall (fun x => p x = false) l -> p c = true -> split_once p (l ++ c :: s) = Some (l, s).
Proof.
  intros Hl Hc. induction Hl as [|x l Hx _ IH]; simpl; [by rewrite Hc|]. by rewrite Hx, IH.
Qed.
Lemma split_once_none p l : Forall (fun x => p x = false) l -> split_once p l = None.
Proof. induction 1 as [|x l Hx _ IH]; [done|]. simpl. by rewrite Hx, IH. Qed.
Lemma split_once_some p s a b : split_once p s = Some (a, b) ->
  Forall (fun x => p x = false) a /\ exists c, p c = true /\ s = a ++ c :: b.
Proof.
  revert a b. induction s as [|x s IH]; intros a b; simpl; [done|].
  destruct (p x) eqn:E; [intros; simplify_eq; split; [constructor|eauto]|].
  destruct (split_once p s) as [[a' b']|]; simpl; [|done]. intros. simplify_eq.
  destruct (IH a' b eq_refl) as (? & c & ? & ->). split; [by constructor|]. by exists c.
Qed.

(** Lines. *)
Definition one_line (l : text) : Prop := Forall (fun c => c <> 10) l.
Lemma one_line_sep l : one_line l -> Forall (fun c => (10 =? c) = false) l.
Proof. intros H. eapply Forall_impl; [exact H|]. intros c Hc. apply Z.eqb_neq. congruence. Qed.
Lemma lines_app l s : one_line l -> lines (l ++ 10 :: s) = strip_cr l :: lines s.
Proof.
  intros Hl. unfold lines, split_char. rewrite split_app by (done || by apply one_line_sep).
  pose proof (split_nonempty (Z.eqb 10) s) as Hn.
  destruct (split (Z.eqb 10) s) as [|x xs] eqn:E; [done|]. done.
Qed.
Lemma strip_cr_id l : back_ok (Z.eqb 13) l -> strip_cr l = l.
Proof.
  unfold back_ok, strip_cr, strip_suffix. simpl. destruct (rev l) as [|c r]; [done|].
  simpl. by intros ->.
Qed.
Lemma lines_cons l s : one_line l -> back_ok (Z.eqb 13) l -> lines (l ++ 10 :: s) = l :: lines s.
Proof. intros. by rewrite lines_app, strip_cr_id. Qed.

Lemma one_line_dec l : forallb (fun c => negb (c =? 10)) l = true -> one_line l.
Proof.
  intros H. apply List.Forall_forall. intros c Hc. rewrite forallb_forall in H. specialize (H c Hc).
  apply negb_true_iff, Z.eqb_neq in H. done.
Qed.
Lemma one_line_app a b : one_line (a ++ b) <-> one_line a /\ one_line b.
Proof. apply Forall_app. Qed.
Lemma lines_newlines ls : Forall one_line ls -> Forall (back_ok (Z.eqb 13)) ls -> lines (ls ≫= newline) = ls.
Proof.
  induction 1 as [|l ls Hl _ IH]; intros Hb; [done|]. inversion Hb as [|? ? Hl' Hb']. subst.
  change ((l :: ls) ≫= newline) with (newline l ++ (ls ≫= newline)). unfold newline at 1.
  rewrite <- app_assoc. cbn [app]. rewrite lines_cons by done. by rewrite IH.
Qed.

Lemma text_eqb_refl s : text_eqb s s = true.
Proof. by apply bool_decide_eq_true. Qed.

Lemma text_cmp_refl a : text_cmp a a = Eq.
Proof. induction a as [|x a IH]; [done|]. simpl. by rewrite Z.compare_refl. Qed.
Lemma text_cmp_eq a b : text_cmp a b = Eq -> a = b.
Proof.
  revert b. induction a as [|x a IH]; intros [|y b]; try done. simpl.
  destruct (Z.compare_spec x y); try done. subst. intros. f_equal. by apply IH.
Qed.
Lemma text_cmp_antisym a b : text_cmp b a = CompOpp (text_cmp a b).
Proof.
  revert b. induction a as [|x a IH]; intros [|y b]; try done. simpl.
  rewrite (Z.compare_antisym x y). destruct (x ?= y); [apply IH|done|done].
Qed.
Lemma text_cmp_trans a b c : text_cmp a b = Lt -> text_cmp b c = Lt -> text_cmp a c = Lt.
Proof.
  revert b c. induction a as [|x a IH]; intros [|y b] [|z c]; try done. simpl.
  destruct (Z.compare_spec x y), (Z.compare_spec y z), (Z.compare_spec x z); subst; try done; try lia.
  apply IH.
Qed.

(** Numbers read back. *)
Lemma digits_value_snoc r ds c n d :
  digits_value r ds = Some n -> to_digit r c = Some d -> digits_value r (ds ++ [c]) = Some (n * r + d).
Proof. intros H1 H2. unfold digits_value in *. rewrite foldl_snoc, H1. simpl. by rewrite H2. Qed.
Lemma to_digit_dec d : 0 <= d < 10 -> to_digit 10 (48 + d) = Some d.
Proof.
  intros. unfold to_digit, is_ascii_digit, between.
  rewrite (proj2 (Z.leb_le 48 (48 + d))), (proj2 (Z.leb_le (48 + d) 57)) by lia. simpl.
  replace (48 + d - 48) with d by lia. by rewrite (proj2 (Z.ltb_lt d 10)) by lia.
Qed.

Definition all_digits (s : text) : Prop := Forall (fun c => is_ascii_digit c = true) s.
Lemma digits_defined s : all_digits s -> exists v, digits_value 10 s = Some v.
Proof.
  induction s as [|c s IH] using rev_ind; [by exists 0|]. intros [H1 H2]%Forall_app. destruct (IH H1) as (v & Hv).
  inversion H2 as [|? ? Hc]. subst. exists (v * 10 + (c - 48)). apply digits_value_snoc; [done|].
  replace c with (48 + (c - 48)) by lia. rewrite to_digit_dec by (unfold is_ascii_digit, between in Hc; lia). f_equal. lia.
Qed.

Lemma dec_from_app fuel n acc : dec_from fuel n acc = dec_from fuel n [] ++ acc.
Proof.
  revert n acc. induction fuel as [|fuel IH]; intros n acc; simpl; [by destruct (n <? 10)|].
  destruct (n <? 10); [done|]. rewrite IH, (IH _ [_]). by rewrite <- app_assoc.
Qed.
Lemma is_digit_add d : 0 <= d < 10 -> is_ascii_digit (48 + d) = true.
Proof. intros. unfold is_ascii_digit, between. apply andb_true_iff. lia. Qed.

Lemma dec_from_spec fuel n : 0 <= n -> n < 2 ^ (Z.of_nat fuel + 1) ->
  digits_value 10 (dec_from fuel n []) = Some n /\ dec_from fuel n [] <> []
  /\ all_digits (dec_from fuel n []).
Proof.
  revert n. induction fuel as [|fuel IH]; intros n H0 Hn; simpl; destruct (Z.ltb_spec n 10).
  1,3: rewrite Z.mod_small by lia; unfold digits_value; cbn [foldl mbind option_bind];
       rewrite to_digit_dec by lia; (split_and!; [done|done|]);
       (constructor; [|constructor]); apply is_digit_add; lia.
  - exfalso. change (2 ^ (Z.of_nat 0 + 1)) with 2 in Hn. lia.
  - replace (Z.of_nat (S fuel) + 1) with (Z.succ (Z.of_nat fuel + 1)) in Hn by lia.
    rewrite Z.pow_succ_r in Hn by lia.
    assert (Hq : n / 10 < 2 ^ (Z.of_nat fuel + 1)) by (apply Z.div_lt_upper_bound; lia).
    destruct (IH (n / 10)) as (E & Hne & Hd); [apply Z.div_pos; lia|done|].
    pose proof (Z.mod_pos_bound n 10 ltac:(lia)) as Hm.
    rewrite dec_from_app. split_and!.
    + rewrite (digits_value_snoc _ _ _ _ _ E (to_digit_dec _ Hm)). f_equal.
      pose proof (Z.div_mod n 10). lia.
    + by destruct (dec_from fuel (n / 10) []).
    + apply Forall_app. split; [done|]. constructor; [by apply is_digit_add|constructor].
Qed.
Lemma show_uint_spec n : 0 <= n ->
  digits_value 10 (show_uint n) = Some n /\ show_uint n <> [] /\ all_digits (show_uint n).
Proof.
  intros H0. unfold show_uint. apply dec_from_spec; [done|].
  destruct (Z.eq_dec n 0) as [->|]; [done|]. rewrite Z2Nat.id by apply Z.log2_nonneg.
  replace (Z.log2 n + 1) with (Z.succ (Z.log2 n)) by lia. apply Z.log2_spec. lia.
Qed.

Lemma show_uint_front n : 0 <= n -> exists c r, show_uint n = c :: r /\ is_ascii_digit c = true.
Proof.
  intros H. destruct (show_uint_spec n H) as (_ & Hn & Hd).
  destruct (show_uint n) as [|c r]; [done|]. inversion Hd. eauto.
Qed.

Lemma parse_show_uint w n : is_u w n -> parse_uint w 10 (show_uint n) = Some n.
Proof.
  intros [H0 Hn]. destruct (show_uint_spec n H0) as (E & _ & _).
  destruct (show_uint_front n H0) as (c & r & Hs & Hc). rewrite Hs in *.
  unfold parse_uint.
  assert (Hne : c <> 43) by (intros ->; done).
  replace (match c :: r with 43 :: ((_ :: _) as r0) => r0 | _ => c :: r end) with (c :: r)
    by (repeat case_match; congruence).
  rewrite E. simpl. by rewrite (proj2 (Z.ltb_lt _ _) Hn).
Qed.

Lemma parse_show_int w n : 1 < w -> is_i w n -> parse_int w (show_int n) = Some n.
Proof.
  intros Hw [Hl Hu]. unfold show_int, parse_int. destruct (Z.ltb_spec n 0) as [Hneg|Hpos].
  - destruct (show_uint_spec (- n) ltac:(lia)) as (E & _ & _).
    destruct (show_uint_front (- n) ltac:(lia)) as (c & r & Hs & Hc). rewrite Hs in *.
    cbv iota beta. rewrite E. simpl. rewrite Z.opp_involutive.
    by rewrite (proj2 (Z.leb_le _ _) Hl), (proj2 (Z.ltb_lt _ _) Hu).
  - destruct (show_uint_spec n Hpos) as (E & _ & _).
    destruct (show_uint_front n Hpos) as (c & r & Hs & Hc). rewrite Hs in *.
    assert (Hne : c <> 43 /\ c <> 45) by (split; intros ->; done).
    replace (match c :: r with
             | 43 :: ((_ :: _) as r0) => (false, r0)
             | 45 :: ((_ :: _) as r0) => (true, r0)
             | _ => (false, c :: r) end) with (false, c :: r)
      by (destruct Hne; repeat case_match; congruence).
    rewrite E. simpl. by rewrite (proj2 (Z.leb_le _ _) Hl), (proj2 (Z.ltb_lt _ _) Hu).
Qed.

Example parse_uint_plus : parse_uint 32 10 (txt "+42") = Some 42. Proof. reflexivity. Qed.
Example parse_uint_over : parse_uint 8 10 (txt "256") = None. Proof. reflexivity. Qed.
Example parse_int_neg : parse_int 8 (txt "-128") = Some (-128). Proof. reflexivity. Qed.

(** ** Decoding undoes encoding *)
Ltac zlia := intros; Z.to_euclidean_division_equations; lia.
(** Decide every comparison of the goal by arithmetic. *)
Ltac zcompare :=
  repeat match goal with
  | |- context [?a <? ?b] => first [ rewrite (proj2 (Z.ltb_lt a b)) by zlia | rewrite (proj2 (Z.ltb_ge a b)) by zlia ]
  | |- context [?a <=? ?b] => first [ rewrite (proj2 (Z.leb_le a b)) by zlia | rewrite (proj2 (Z.leb_gt a b)) by zlia ]
  | |- context [?a =? ?b] => first [ rewrite (proj2 (Z.eqb_eq a b)) by zlia | rewrite (proj2 (Z.eqb_neq a b)) by zlia ]
  end.

Lemma decode_step1 c l : 0 <= c < 0x80 -> utf8_decode (byte.of_Z c :: l) = cons c <$> utf8_decode l.
Proof. intros H. cbn [utf8_decode]. rewrite u8_of_Z by lia. by zcompare. Qed.

Lemma decode_step2 x y l : 0xc2 <= x <= 0xdf -> 0 <= y < 64 ->
  utf8_decode (byte.of_Z x :: byte.of_Z (0x80 + y) :: l) = cons ((x - 0xc0) * 64 + y) <$> utf8_decode l.
Proof.
  intros Hx Hy. cbn [utf8_decode]. unfold in_range, cont, in_range, low6. rewrite !u8_of_Z by lia.
  zcompare. simpl. by replace ((0x80 + y) mod 64) with y by zlia.
Qed.

Lemma second_ok_spec x y : 0xe0 <= x <= 0xf4 -> 0 <= y < 64 ->
  (x = 0xe0 -> 32 <= y) -> (x = 0xed -> y < 32) -> (x = 0xf0 -> 16 <= y) -> (x = 0xf4 -> y < 16) ->
  second_ok (byte.of_Z x) (byte.of_Z (0x80 + y)) = true.
Proof.
  intros Hx Hy H1 H2 H3 H4. unfold second_ok, cont, in_range. rewrite !u8_of_Z by lia.
  repeat match goal with |- context [if ?b then _ else _] => destruct b eqn:? end;
    apply andb_true_iff; rewrite !Z.leb_le; lia.
Qed.

Lemma decode_step3 x y z l : 0xe0 <= x <= 0xef -> 0 <= y < 64 -> 0 <= z < 64 ->
  (x = 0xe0 -> 32 <= y) -> (x = 0xed -> y < 32) ->
  utf8_decode (byte.of_Z x :: byte.of_Z (0x80 + y) :: byte.of_Z (0x80 + z) :: l) =
  cons ((x - 0xe0) * 4096 + y * 64 + z) <$> utf8_decode l.
Proof.
  intros Hx Hy Hz H1 H2. cbn [utf8_decode]. rewrite (second_ok_spec x y) by (intros; lia).
  unfold in_range, cont, in_range, low6. rewrite !u8_of_Z by lia.
  zcompare. simpl. replace ((0x80 + y) mod 64) with y by zlia. by replace ((0x80 + z) mod 64) with z by zlia.
Qed.

Lemma decode_step4 x y z v l : 0xf0 <= x <= 0xf4 -> 0 <= y < 64 -> 0 <= z < 64 -> 0 <= v < 64 ->
  (x = 0xf0 -> 16 <= y) -> (x = 0xf4 -> y < 16) ->
  utf8_decode (byte.of_Z x :: byte.of_Z (0x80 + y) :: byte.of_Z (0x80 + z) :: byte.of_Z (0x80 + v) :: l) =
  cons ((x - 0xf0) * 262144 + y * 4096 + z * 64 + v) <$> utf8_decode l.
Proof.
  intros Hx Hy Hz Hv H1 H2. cbn [utf8_decode]. rewrite (second_ok_spec x y) by (intros; lia).
  unfold in_range, cont, in_range, low6. rewrite !u8_of_Z by lia.
  zcompare. simpl. replace ((0x80 + y) mod 64) with y by zlia.
  replace ((0x80 + z) mod 64) with z by zlia. by replace ((0x80 + v) mod 64) with v by zlia.
Qed.

Lemma decode_char c l : is_char c = true -> utf8_decode (encode_char c ++ l) = cons c <$> utf8_decode l.
Proof.
  intros Hc. unfold is_char in Hc. unfold encode_char.
  assert (Hr : 0 <= c < 0xd800 \/ 0xe000 <= c < 0x110000) by lia. clear Hc.
  destruct (Z.ltb_spec c 0x80); [apply decode_step1; lia|].
  destruct (Z.ltb_spec c 0x800); [|destruct (Z.ltb_spec c 0x10000)]; simpl app.
  - rewrite decode_step2 by zlia. do 3 f_equal. zlia.
  - rewrite decode_step3 by zlia. do 3 f_equal. zlia.
  - rewrite decode_step4 by zlia. do 3 f_equal. zlia.
Qed.

Definition scalars (s : text) : Prop := Forall (fun c => is_char c = true) s.

Lemma decode_encode_app s l : scalars s -> utf8_decode (utf8_encode s ++ l) = app s <$> utf8_decode l.
Proof.
  induction 1 as [|c s Hc _ IH]; [simpl; by destruct (utf8_decode l)|].
  change (utf8_encode (c :: s)) with (encode_char c ++ utf8_encode s).
  rewrite <- app_assoc, decode_char, IH by done. by destruct (utf8_decode l).
Qed.
Lemma decode_encode s : scalars s -> utf8_decode (utf8_encode s) = Some s.
Proof.
  intros. rewrite <- (app_nil_r (utf8_encode s)), decode_encode_app by done. simpl. by rewrite app_nil_r.
Qed.

(** Decoding gives scalar values. *)
Lemma decode_scalars l s : utf8_decode l = Some s -> scalars s.
Proof.
  remember (length l) as n eqn:Hn. revert l s Hn. induction n as [n IH] using lt_wf_ind. intros l s -> H.
  assert (IH' : forall k t, (length k < length l)%nat -> utf8_decode k = Some t -> scalars t).
  { intros k t Hk. by apply (IH (length k)). } clear IH.
  assert (Hc : forall c k, (length k < length l)%nat -> is_char c = true -> cons c <$> utf8_decode k = Some s -> scalars s).
  { intros c k Hk Hc. destruct (utf8_decode k) as [t|] eqn:E; [|done]. cbn. intros [= <-]. constructor; [done|by eapply IH']. }
  destruct l as [|b0 l1]; [injection H as <-; constructor|]. cbn [utf8_decode length] in *.
  pose proof (u8_range b0). unfold second_ok, cont, in_range, low6 in H.
  destruct (u8 b0 <? 0x80) eqn:E0; [refine (Hc _ l1 _ _ H); [lia|unfold is_char; lia]|].
  destruct l1 as [|b1 l2]; [done|]. cbn [length] in *. pose proof (u8_range b1).
  pose proof (Z.mod_pos_bound (u8 b1) 64 ltac:(lia)).
  destruct ((0xc2 <=? u8 b0) && (u8 b0 <=? 0xdf)) eqn:E1.
  { destruct (_ && _) eqn:E2 in H; [|done]. refine (Hc _ l2 _ _ H); [lia|]. unfold is_char. lia. }
  destruct (negb _) eqn:E2 in H; [done|]. destruct l2 as [|b2 l3]; [done|]. cbn [length] in *.
  pose proof (Z.mod_pos_bound (u8 b2) 64 ltac:(lia)).
  destruct (negb _) eqn:E3 in H; [done|].
  destruct ((0xe0 <=? u8 b0) && (u8 b0 <=? 0xef)) eqn:E4.
  { refine (Hc _ l3 _ _ H); [lia|]. unfold is_char. apply negb_false_iff in E2.
    destruct (Z.eqb_spec (u8 b0) 0xe0) as [e|]; [rewrite e in *|destruct (Z.eqb_spec (u8 b0) 0xed) as [e|]; [rewrite e in *|]].
    - assert (u8 b1 mod 64 = u8 b1 - 128) by zlia. lia.
    - assert (u8 b1 mod 64 = u8 b1 - 128) by zlia. lia.
    - lia. }
  destruct ((0xf0 <=? u8 b0) && (u8 b0 <=? 0xf4)) eqn:E5; [|done].
  destruct l3 as [|b3 l4]; [done|]. cbn [length] in *. pose proof (Z.mod_pos_bound (u8 b3) 64 ltac:(lia)).
  destruct (_ && _) eqn:E6 in H; [|done]. refine (Hc _ l4 _ _ H); [lia|]. unfold is_char. apply negb_false_iff in E2.
  destruct (Z.eqb_spec (u8 b0) 0xe0) as [e|]; [rewrite e in *; lia|]. destruct (Z.eqb_spec (u8 b0) 0xed) as [e|]; [rewrite e in *; lia|].
  destruct (Z.eqb_spec (u8 b0) 0xf0) as [e|]; [|destruct (Z.eqb_spec (u8 b0) 0xf4) as [e|]].
  - assert (u8 b1 mod 64 = u8 b1 - 128) by zlia. lia.
  - assert (u8 b1 mod 64 = u8 b1 - 128) by zlia. lia.
  - lia.
Qed.

(** ** What holds of a text holds of its pieces *)
Section Pieces.
Context (P : char -> Prop).
Lemma split_pieces p s : Forall P s -> Forall (Forall P) (split p s).
Proof.
  induction 1 as [|c s Hc _ IH]; [by repeat constructor|]. cbn. destruct (p c); [by constructor|].
  destruct (split p s); [by repeat constructor|]. inversion IH. by repeat constructor.
Qed.
Lemma strip_cr_piece l : Forall P l -> Forall P (strip_cr l).
Proof.
  intros H. unfold strip_cr, strip_suffix. destruct (strip_prefix (rev [13]) (rev l)) as [r|] eqn:E; simpl; [|done].
  apply strip_prefix_some in E. apply (f_equal (@rev Z)) in E. rewrite rev_involutive, rev_app_distr in E.
  rewrite E in H. by apply Forall_app in H as [H _].
Qed.
Lemma lines_pieces s : Forall P s -> Forall (Forall P) (lines s).
Proof.
  intros Hs. pose proof (split_pieces (Z.eqb 10) s Hs) as H. unfold lines, split_char.
  assert (Hr : Forall (Forall P) (removelast (split (Z.eqb 10) s))).
  { destruct (split (Z.eqb 10) s) as [|x l]; [done|]. rewrite (app_removelast_last x (l := x :: l)) in H by done.
    by apply Forall_app in H as [H _]. }
  apply Forall_app. split.
  - apply Forall_fmap. eapply Forall_impl; [exact Hr|apply strip_cr_piece].
  - destruct (last (split (Z.eqb 10) s)) as [[|c l]|] eqn:E; try by constructor.
    constructor; [|constructor]. rewrite list.Forall_forall in H. apply H. by apply last_Some_elem_of.
Qed.
Lemma trim_end_piece p s : Forall P s -> Forall P (trim_end_by p s).
Proof. intros H. destruct (trim_end_prefix p s) as (w & E & _). rewrite E in H. by apply Forall_app in H as [H _]. Qed.
End Pieces.

(** ** What a test of a name says *)
Lemma starts_with_iff p s : starts_with p s = true <-> exists r, s = p ++ r.
Proof.
  unfold starts_with. split; [|intros [r ->]; by rewrite strip_prefix_app].
  destruct (strip_prefix p s) as [r|] eqn:E; [|done]. apply strip_prefix_some in E. eauto.
Qed.
Lemma ends_with_iff p s : ends_with p s = true <-> exists r, s = r ++ p.
Proof.
  unfold ends_with. split; [|intros [r ->]; by rewrite strip_suffix_app]. unfold strip_suffix.
  destruct (strip_prefix (rev p) (rev s)) as [r|] eqn:E; [|done]. intros _. apply strip_prefix_some in E.
  exists (rev r). by rewrite <- (rev_involutive s), E, rev_app_distr, rev_involutive.
Qed.
Lemma split_once_str_app pat a b : is_Some (split_once_str pat (a ++ pat ++ b)).
Proof.
  induction a as [|c a IH]; cbn [app].
  - destruct (pat ++ b) as [|c l] eqn:E; cbn [split_once_str]; rewrite <- E, strip_prefix_app; by eexists.
  - cbn [split_once_str]. destruct (strip_prefix pat (c :: a ++ pat ++ b)); [by eexists|].
    destruct IH as [[x y] ->]. by eexists.
Qed.
Lemma split_once_str_some pat s a b : split_once_str pat s = Some (a, b) -> s = a ++ pat ++ b.
Proof.
  revert a b. induction s as [|c s IH]; intros a b.
  - cbn. destruct (strip_prefix pat []) as [r|] eqn:E; [|done]. intros [= <- <-]. by apply strip_prefix_some in E.
  - cbn [split_once_str]. destruct (strip_prefix pat (c :: s)) as [r|] eqn:E.
    + intros [= <- <-]. by apply strip_prefix_some in E.
    + destruct (split_once_str pat s) as [[x y]|] eqn:E'; [|done]. intros [= <- <-].
      by rewrite (IH x y).
Qed.
Lemma contains_iff pat s : contains pat s = true <-> exists a b, s = a ++ pat ++ b.
Proof.
  unfold contains. split.
  - destruct (split_once_str pat s) as [[a b]|] eqn:E; [|done]. apply split_once_str_some in E. eauto.
  - intros (a & b & ->). by destruct (split_once_str_app pat a b) as [x ->].
Qed.

(** Neither pieces nor lines hold what they were cut at. *)
Lemma split_separated p s : Forall (Forall (fun c => p c = false)) (split p s).
Proof.
  induction s as [|c s IH]; [by repeat constructor|]. cbn [split]. destruct (p c) eqn:E; [by constructor|].
  destruct (split p s) as [|l ls]; [by repeat constructor|]. apply Forall_cons in IH as [Hl IH]. by repeat constructor.
Qed.
Lemma lines_one_line s : Forall one_line (lines s).
Proof.
  assert (H : Forall one_line (split_char 10 s)).
  { eapply Forall_impl; [apply split_separated|]. intros l Hl. eapply Forall_impl; [exact Hl|]. by intros c Hc ->. }
  unfold lines. apply Forall_app. split.
  - apply Forall_fmap. assert (Hr : Forall one_line (removelast (split_char 10 s))).
    { destruct (split_char 10 s) as [|x l]; [done|]. rewrite (app_removelast_last x (l := x :: l)) in H by done. by apply Forall_app in H as [H _]. }
    eapply Forall_impl; [exact Hr|]. intros l Hl. by apply (strip_cr_piece (fun c => c <> 10)).
  - destruct (last (split_char 10 s)) as [[|c l]|] eqn:E; try by constructor.
    constructor; [|constructor]. rewrite list.Forall_forall in H. apply H. by apply last_Some_elem_of.
Qed.
