(* ===== verification/Bytelines.v ===== *)
(** * Bytelines: the lines of a file of bytes

    [split] at line feeds and the carriage return before one, as the readers use them that
    cannot expect their file to be text. *)
From S2P Require Import Prelude Utf8 Text.

Fixpoint split_lines (b : bytes) : list bytes :=
  match b with
  | [] => [[]]
  | x :: b => if u8 x =? 10 then [] :: split_lines b
              else match split_lines b with l :: ls => (x :: l) :: ls | [] => [[x]] end
  end.
Definition strip_return (l : bytes) : bytes :=
  match last l with Some x => if u8 x =? 13 then removelast l else l | None => l end.

Definition whole_line (l : bytes) : Prop := Forall (fun b => u8 b <> 10) l.
Lemma split_lines_nonempty b : split_lines b <> [].
Proof. destruct b as [|x b]; [done|]. cbn. destruct (_ =? 10); [done|]. by destruct (split_lines b). Qed.
Lemma split_lines_app l b : whole_line l -> split_lines (l ++ x0a :: b) = l :: split_lines b.
Proof.
  induction 1 as [|x l Hx _ IH]; [done|]. cbn. rewrite (proj2 (Z.eqb_neq _ _) Hx). by rewrite IH.
Qed.
Lemma split_lines_whole b : Forall whole_line (split_lines b).
Proof.
  induction b as [|x b IH]; [by repeat constructor|]. cbn. destruct (Z.eqb_spec (u8 x) 10) as [|Hx]; [constructor; [constructor|done]|].
  destruct (split_lines b) as [|l ls]; [by repeat constructor|]. apply Forall_cons in IH as [Hl IH]. by repeat constructor.
Qed.
Lemma strip_return_id l : (forall x, last l = Some x -> u8 x <> 13) -> strip_return l = l.
Proof.
  unfold strip_return. destruct (last l) as [x|]; [|done]. intros H. by rewrite (proj2 (Z.eqb_neq _ _) (H x eq_refl)).
Qed.
Lemma strip_return_piece (P : byte -> Prop) l : Forall P l -> Forall P (strip_return l).
Proof.
  intros H. unfold strip_return. destruct (last l) as [x|] eqn:E; [|done]. destruct (_ =? 13); [|done].
  apply last_Some in E as [l' ->]. rewrite removelast_last. by apply Forall_app in H as [H _].
Qed.

(** [String::from_utf8_lossy] *)
Definition lossy_text (l : bytes) : text := default [] (utf8_decode (from_utf8_lossy l)).

(** The encoding of a scalar value is one step of the reader, and a valid step decodes. *)
Lemma step_encoded c r : is_char c = true -> exists b t, encode_char c = b :: t /\ utf8_step b (t ++ r) = Valid (S (length t)).
Proof.
  intros Hc. unfold is_char in Hc. unfold encode_char.
  assert (Hr : 0 <= c < 0xd800 \/ 0xe000 <= c < 0x110000) by lia. clear Hc.
  destruct (Z.ltb_spec c 0x80); [|destruct (Z.ltb_spec c 0x800); [|destruct (Z.ltb_spec c 0x10000)]]; eexists _, _; (split; [reflexivity|]);
    cbn [length app]; unfold utf8_step, in_range, cont, in_range; rewrite !u8_of_Z by zlia.
  - by zcompare.
  - by zcompare.
  - zcompare. cbn [andb negb]. rewrite second_ok_spec by (intros; zlia). by zcompare.
  - zcompare. cbn [andb negb]. rewrite second_ok_spec by (intros; zlia). by zcompare.
Qed.
Lemma lossy_encoded s r : scalars s -> from_utf8_lossy (utf8_encode s ++ r) = utf8_encode s ++ from_utf8_lossy r.
Proof.
  unfold from_utf8_lossy. induction 1 as [|c s Hc _ IH]; [done|]. change (utf8_encode (c :: s)) with (encode_char c ++ utf8_encode s).
  rewrite <- !app_assoc. destruct (step_encoded c (utf8_encode s ++ r) Hc) as (b & t & -> & Hs). cbn [app lossy_from]. rewrite Hs.
  cbn [Nat.sub]. rewrite Nat.sub_0_r. f_equal. rewrite lossy_keep by (rewrite length_app; lia). by rewrite take_app_length, drop_app_length, IH.
Qed.
(** Below 128, the bytes of a string are its characters, lossy or not. *)
Definition high (l : bytes) : Prop := Forall (fun b => 128 <= u8 b) l.
Lemma step_low b r : match utf8_step b r with
  | Valid (S n) => (n = O /\ u8 b < 128) \/ (128 <= u8 b /\ high (take n r) /\ (n <= length r)%nat)
  | Invalid (S n) => 128 <= u8 b /\ high (take n r) /\ (n <= length r)%nat
  | _ => False
  end.
Proof.
  unfold utf8_step, second_ok, cont, in_range. repeat case_match; simplify_eq; cbn [take length];
    rewrite ?andb_true_iff, ?Z.ltb_ge, ?Z.ltb_lt, ?Z.leb_le in *;
    first [left; split; [done|lia]|right; split_and!; [lia|repeat constructor; lia|lia]|split_and!; [lia|repeat constructor; lia|lia]].
Qed.
Lemma step_decodes_low b r n : utf8_step b r = Valid (S n) ->
  exists c, utf8_decode (b :: r) = cons c <$> utf8_decode (drop n r) /\ (u8 b < 128 /\ c = u8 b \/ 128 <= c /\ 128 <= u8 b).
Proof.
  unfold utf8_step. intros H. cbn [utf8_decode]. pose proof (u8_range b).
  unfold second_ok, cont, in_range, low6 in *.
  repeat case_match; simplify_eq/=; try congruence; try (eexists; split; [reflexivity|]; left; split; [lia|done]);
    (eexists; split; [reflexivity|]); right; rewrite ?andb_true_iff, ?Z.ltb_ge, ?Z.ltb_lt, ?Z.leb_le, ?Z.eqb_eq, ?Z.eqb_neq in *; zlia.
Qed.

Lemma valid_decodes l : utf8_valid l = true -> is_Some (utf8_decode l).
Proof.
  unfold utf8_valid. induction l as [l IH] using (induction_ltof1 _ (@length byte)). unfold ltof in IH.
  destruct l as [|b r]; [by eexists|]. intros H. cbn [valid_from] in H. destruct (utf8_step_pos b r) as [n [E|E]]; rewrite E in H; [|done].
  cbn [Nat.sub] in H. rewrite Nat.sub_0_r in H. destruct (step_decodes_low b r n E) as (c & -> & _). destruct (utf8_step_ext b r n [] E) as [Hn _].
  rewrite <- (take_drop n r), valid_skip in H by done. destruct (IH (drop n r)) as [t ->]; [rewrite length_drop; cbn; lia|done|]. by eexists.
Qed.
Lemma lossy_text_encoded s r : scalars s -> lossy_text (utf8_encode s ++ r) = s ++ lossy_text r.
Proof.
  intros Hs. unfold lossy_text. rewrite lossy_encoded, decode_encode_app by done.
  destruct (valid_decodes (from_utf8_lossy r) (lossy_is_valid r)) as [t ->]. done.
Qed.
Lemma high_no_low c l : c < 128 -> high l -> c ∉ (u8 <$> l).
Proof.
  intros Hc Hl (b & -> & Hb)%list_elem_of_fmap. unfold high in Hl. rewrite Forall_forall in Hl. specialize (Hl b Hb). lia.
Qed.
Lemma lossy_low c l : c < 128 -> c ∈ lossy_text l <-> c ∈ (u8 <$> l).
Proof.
  intros Hc. induction l as [l IH] using (induction_ltof1 _ (@length byte)). unfold ltof in IH. destruct l as [|b r]; [done|].
  assert (IH' : forall n, c ∈ lossy_text (drop n r) <-> c ∈ (u8 <$> drop n r)) by (intros n; apply IH; rewrite length_drop; cbn; lia).
  assert (Hsplit : forall n, c ∈ (u8 <$> b :: r) <-> c = u8 b \/ c ∈ (u8 <$> take n r) \/ c ∈ (u8 <$> drop n r)).
  { intros n. rewrite fmap_cons, elem_of_cons. by rewrite <- (take_drop n r) at 1; rewrite fmap_app, elem_of_app. }
  pose proof (step_low b r) as Hl. unfold lossy_text, from_utf8_lossy in *. cbn [lossy_from].
  destruct (utf8_step_pos b r) as [n [E|E]]; rewrite E in Hl |- *; cbn [Nat.sub]; rewrite Nat.sub_0_r, (Hsplit n).
  - destruct (utf8_step_ext b r n (lossy_from 0 0 (drop n r)) E) as [Hn Ee]. rewrite lossy_keep by done.
    destruct (step_decodes_low _ _ _ Ee) as (d & -> & Hd). rewrite drop_app_le, drop_ge by (rewrite ?length_take; lia). cbn [app].
    destruct (valid_decodes (lossy_from 0 0 (drop n r)) (lossy_is_valid (drop n r))) as [t Et]. specialize (IH' n). rewrite Et in *. cbn in *. rewrite elem_of_cons, IH'.
    destruct Hd as [[Hb ->]|[Hd Hb]]; destruct Hl as [[-> Hb']|(Hb' & Hh & _)]; try lia; [by rewrite take_0; cbn; rewrite elem_of_nil; tauto|].
    pose proof (high_no_low c _ Hc Hh). split; [intros [->|H']; [lia|tauto]|intros [->|[?|?]]; [lia|done|tauto]].
  - rewrite lossy_drop. specialize (IH' n). change (utf8_decode (replacement ++ ?k)) with (cons 0xfffd <$> utf8_decode k).
    destruct (valid_decodes (lossy_from 0 0 (drop n r)) (lossy_is_valid (drop n r))) as [t Et]. rewrite Et in *. cbn in *. rewrite elem_of_cons, IH'.
    destruct Hl as (Hb & Hh & _). pose proof (high_no_low c _ Hc Hh). split; [intros [->|H']; [lia|tauto]|intros [->|[?|?]]; [lia|done|tauto]].
Qed.
