(* ===== verification/Hex.v ===== *)
(** * Hex: numbers in base sixteen, and words between blanks

    [{:x}] without padding, which [from_str_radix] with radix 16 reads back at any width the
    number fits, and [split_whitespace] of words joined by blanks. *)
From S2P Require Import Prelude Text.

Fixpoint hex_from (fuel : nat) (n : Z) (acc : text) : text :=
  let acc := hex_lower (n mod 16) :: acc in
  if n <? 16 then acc else match fuel with O => acc | S fuel => hex_from fuel (n / 16) acc end.
(** [{:x}] *)
Definition show_hex_digits (n : Z) : text := hex_from (Z.to_nat (Z.log2 n)) n [].
(** [{:#x}] *)
Definition show_hex (n : Z) : text := txt "0x" ++ show_hex_digits n.

Example hex_of_a_device : show_hex_digits 0x1a2b3c = txt "1a2b3c" /\ show_hex_digits 0 = txt "0".
Proof. vm_compute. done. Qed.

(** ** Reading back *)
Definition hex_digit_char (c : char) : bool := is_ascii_digit c || between 97 102 c.
Lemma hex_lower_read d : 0 <= d < 16 -> to_digit 16 (hex_lower d) = Some d /\ hex_digit_char (hex_lower d) = true.
Proof.
  intros H. assert (Hd : In d [0; 1; 2; 3; 4; 5; 6; 7; 8; 9; 10; 11; 12; 13; 14; 15]) by (cbn; lia).
  cbn in Hd. destruct_or!; subst; try done.
Qed.
Lemma hex_from_app fuel n acc : hex_from fuel n acc = hex_from fuel n [] ++ acc.
Proof.
  revert n acc. induction fuel as [|fuel IH]; intros n acc; simpl; [by destruct (n <? 16)|].
  destruct (n <? 16); [done|]. rewrite IH, (IH _ [_]). by rewrite <- app_assoc.
Qed.
Lemma hex_from_spec fuel n : 0 <= n -> n < 2 ^ (Z.of_nat fuel + 1) ->
  digits_value 16 (hex_from fuel n []) = Some n /\ hex_from fuel n [] <> [] /\
  Forall (fun c => hex_digit_char c = true) (hex_from fuel n []).
Proof.
  revert n. induction fuel as [|fuel IH]; intros n H0 Hn; simpl; destruct (Z.ltb_spec n 16) as [Hs|Hs].
  1,3: destruct (hex_lower_read n) as [E ?]; [lia|]; rewrite Z.mod_small by lia; unfold digits_value;
    cbn [foldl mbind option_bind]; rewrite E; (split_and!; [done|done|by constructor]).
  - exfalso. change (2 ^ (Z.of_nat 0 + 1)) with 2 in Hn. lia.
  - replace (Z.of_nat (S fuel) + 1) with (Z.succ (Z.of_nat fuel + 1)) in Hn by lia. rewrite Z.pow_succ_r in Hn by lia.
    destruct (IH (n / 16)) as (E & Hne & Hd); [apply Z.div_pos; lia|apply Z.div_lt_upper_bound; lia|].
    destruct (hex_lower_read (n mod 16)) as [Er Hr]; [apply Z.mod_pos_bound; lia|].
    rewrite hex_from_app. split_and!.
    + rewrite (digits_value_snoc _ _ _ _ _ E Er). f_equal. pose proof (Z.div_mod n 16). lia.
    + by destruct (hex_from fuel (n / 16) []).
    + apply Forall_app. split; [done|by constructor].
Qed.
Lemma show_hex_spec n : 0 <= n ->
  digits_value 16 (show_hex_digits n) = Some n /\ show_hex_digits n <> [] /\ Forall (fun c => hex_digit_char c = true) (show_hex_digits n).
Proof.
  intros H0. apply hex_from_spec; [done|]. destruct (Z.eq_dec n 0) as [->|]; [done|].
  rewrite Z2Nat.id by apply Z.log2_nonneg. replace (Z.log2 n + 1) with (Z.succ (Z.log2 n)) by lia. apply Z.log2_spec. lia.
Qed.
(** Digits that do not begin with a sign are read as their value. *)
Lemma digits_parsed w r ds v : ds <> [] -> head ds <> Some 43 -> digits_value r ds = Some v -> v < 2 ^ w -> parse_uint w r ds = Some v.
Proof.
  intros Hn Hh E Hw. unfold parse_uint. destruct ds as [|c ds]; [done|].
  assert (Hc : c <> 43) by (intros ->; by destruct Hh).
  replace (match c :: ds with 43 :: ((_ :: _) as r0) => r0 | _ => c :: ds end) with (c :: ds) by (repeat case_match; congruence).
  rewrite E. cbn. by rewrite (proj2 (Z.ltb_lt _ _) Hw).
Qed.
Lemma hex_no_sign s : Forall (fun c => hex_digit_char c = true) s -> head s <> Some 43.
Proof. intros H. destruct H as [|c s Hc]; [done|]. cbn. intros [= ->]. done. Qed.
Lemma parse_show_hex w n : is_u w n -> parse_uint w 16 (show_hex_digits n) = Some n.
Proof. intros [H0 Hn]. destruct (show_hex_spec n H0) as (E & Hne & Hd). apply digits_parsed; [done|by apply hex_no_sign|done|done]. Qed.
(** A zero in front changes nothing. *)
Lemma parse_padded_hex w n : is_u w n -> parse_uint w 16 (48 :: show_hex_digits n) = Some n.
Proof.
  intros [H0 Hn]. destruct (show_hex_spec n H0) as (E & _ & _). by apply digits_parsed.
Qed.
Lemma show_hex_inj m n : 0 <= m -> 0 <= n -> show_hex_digits m = show_hex_digits n -> m = n.
Proof.
  intros Hm Hn E. destruct (show_hex_spec m Hm) as (Em & _), (show_hex_spec n Hn) as (En & _). rewrite E in Em. congruence.
Qed.
Lemma show_uint_inj m n : 0 <= m -> 0 <= n -> show_uint m = show_uint n -> m = n.
Proof.
  intros Hm Hn E. destruct (show_uint_spec m Hm) as (Em & _), (show_uint_spec n Hn) as (En & _). rewrite E in Em. congruence.
Qed.

(** ** Words *)
Definition word (w : text) : Prop := w <> [] /\ Forall (fun c => is_whitespace c = false) w.
Lemma split_whitespace_word w c s : word w -> is_whitespace c = true -> split_whitespace (w ++ c :: s) = w :: split_whitespace s.
Proof. intros [Hn Hw] Hc. unfold split_whitespace. rewrite split_app by done. by rewrite filter_cons_True. Qed.
Lemma split_whitespace_blank c s : is_whitespace c = true -> split_whitespace (c :: s) = split_whitespace s.
Proof. intros Hc. unfold split_whitespace. cbn [split]. rewrite Hc. by rewrite filter_cons_False by naive_solver. Qed.
Lemma split_whitespace_last w : word w -> split_whitespace w = [w].
Proof. intros [Hn Hw]. unfold split_whitespace. rewrite split_none by done. by rewrite filter_cons_True. Qed.
Lemma hex_word n : 0 <= n -> word (show_hex_digits n).
Proof.
  intros H. destruct (show_hex_spec n H) as (_ & Hn & Hd). split; [done|]. eapply Forall_impl; [exact Hd|].
  intros c Hc. unfold hex_digit_char, is_ascii_digit, between in Hc. unfold is_whitespace, between. lia.
Qed.
