(* ===== verification/Paths.v ===== *)
(** * Paths: [std::path::Path] as the program uses it

    A path is a text. Its components, its file name and its parent; joining, where an
    absolute path replaces what it is joined to. *)
From S2P Require Import Prelude Text.

(** [path.parent()]: everything before the last component. *)
Definition path_parent (p : text) : option text :=
  match trim_end_by (Z.eqb 47) p with
  | [] => None
  | p => match split_once (Z.eqb 47) (rev p) with
         | None => Some []
         | Some (_, front) => match trim_end_by (Z.eqb 47) (rev front) with [] => Some [47] | d => Some d end
         end
  end.

Definition is_absolute (p : text) : bool := match p with c :: _ => c =? 47 | [] => false end.
(** [Path::join] *)
Definition path_join (a b : text) : text :=
  if is_absolute b then b
  else match last a with
       | None => b
       | Some c => if c =? 47 then a ++ b else a ++ 47 :: b
       end.

(** [Path::ancestors]: the path and every folder above it; every parent is shorter. *)
Fixpoint ancestors_from (fuel : nat) (p : text) : list text :=
  p :: match fuel, path_parent p with S fuel, Some d => ancestors_from fuel d | _, _ => [] end.
Definition ancestors (p : text) : list text := ancestors_from (S (length p)) p.

Inductive component := RootDir | CurDir | ParentDir | Normal (s : text).
#[export] Instance component_eq_dec : EqDecision component. Proof. solve_decision. Defined.
(** [components()]: repeated and trailing separators, and the dots after the first
    component, do not count. *)
Definition piece_component (s : text) : list component :=
  if text_eqb s [] || text_eqb s [46] then [] else if text_eqb s [46; 46] then [ParentDir] else [Normal s].
Definition components (p : text) : list component :=
  (if is_absolute p then [RootDir] else if text_eqb (first_piece (split_char 47 p)) [46] then [CurDir] else []) ++
  (split_char 47 p ≫= piece_component).

Definition file_name (p : text) : option text :=
  match last (components p) with Some (Normal s) => Some s | _ => None end.
(** [Path::extension]: what follows the last dot of the file name, unless the dot is its
    first character or there is none. *)
Definition path_extension (p : text) : option text :=
  n ← file_name p;
  '(after, before) ← split_once (Z.eqb 46) (rev n);
  if bool_decide (before = []) then None else Some (rev after).
(** [with_file_name]: the last component replaced, if it is a name. *)
Definition with_file_name (p name : text) : text :=
  match file_name p with
  | Some _ => path_join (default [] (path_parent p)) name
  | None => path_join p name
  end.

Example components_of_a_path :
  components (txt "./a//b/./..") = [CurDir; Normal (txt "a"); Normal (txt "b"); ParentDir] /\
  components (txt "/usr/bin/") = [RootDir; Normal (txt "usr"); Normal (txt "bin")].
Proof. vm_compute. done. Qed.
Example beside : with_file_name (txt "/usr/bin/tobii") (txt ".tobii.old-1") = txt "/usr/bin/.tobii.old-1".
Proof. vm_compute. reflexivity. Qed.

Example extensions : path_extension (txt "/games/a.b.EXE/") = Some (txt "EXE") /\ path_extension (txt "/games/.exe") = None /\
  path_extension (txt "/games/exe") = None /\ path_extension (txt "game.") = Some [] /\ path_extension (txt "..") = None.
Proof. vm_compute. done. Qed.

(** ** Joining *)
(** A name: nothing in it that leads elsewhere. *)
Definition bare (n : text) : Prop := n <> [] /\ n <> [46] /\ n <> [46; 46] /\ Forall (fun c => (47 =? c) = false) n.
Lemma bare_dec n :
  negb (text_eqb n [] || text_eqb n [46] || text_eqb n [46; 46]) && forallb (fun c => negb (47 =? c)) n = true -> bare n.
Proof.
  intros [H1 H2]%andb_true_iff. rewrite !negb_orb, !andb_true_iff, !negb_true_iff in H1. unfold text_eqb in H1.
  rewrite !bool_decide_eq_false in H1. destruct H1 as ((? & ?) & ?). split_and!; [done..|].
  apply List.Forall_forall. intros c Hc. rewrite forallb_forall in H2. by apply negb_true_iff, H2.
Qed.
Lemma bare_relative n : bare n -> is_absolute n = false.
Proof.
  intros (Hn & _ & _ & H). destruct n as [|c n]; [done|]. apply Forall_inv in H. cbn. by rewrite Z.eqb_sym.
Qed.
(** The directory with its separator. *)
Definition slashed (d : text) : text :=
  match last d with None => [] | Some c => if c =? 47 then d else d ++ [47] end.
Lemma join_bare d n : is_absolute n = false -> path_join d n = slashed d ++ n.
Proof.
  intros H. unfold path_join, slashed. rewrite H. destruct (last d) as [c|]; [|done].
  destruct (c =? 47); [done|by rewrite <- app_assoc].
Qed.
Lemma join_inj d m n : is_absolute m = false -> is_absolute n = false -> path_join d m = path_join d n -> m = n.
Proof. intros Hm Hn. rewrite !join_bare by done. apply app_inv_head. Qed.

Lemma piece_bare n : bare n -> piece_component n = [Normal n].
Proof.
  intros (H1 & H2 & H3 & _). unfold piece_component, text_eqb. by rewrite !bool_decide_eq_false_2.
Qed.
Lemma slashed_split d n : bare n -> slashed d = [] \/ exists d', slashed d = d' ++ [47].
Proof.
  intros _. unfold slashed. destruct (last d) as [c|] eqn:E; [|by left]. right.
  destruct (Z.eqb_spec c 47) as [->|]; [|by eexists]. apply last_Some in E. done.
Qed.
Lemma split_join p d n : Forall (fun c => p c = false) n -> forall c, p c = true ->
  split p (d ++ c :: n) = split p d ++ [n].
Proof.
  intros Hn c Hc. induction d as [|x d IH]; cbn [app split].
  - rewrite Hc. by rewrite split_none.
  - destruct (p x); [by rewrite IH|]. rewrite IH. by destruct (split p d) eqn:E; [apply split_nonempty in E|].
Qed.
Lemma file_name_join d n : bare n -> file_name (path_join d n) = Some n.
Proof.
  intros Hb. rewrite join_bare by (by apply bare_relative). unfold file_name, components.
  pose proof Hb as (_ & _ & _ & Hc).
  destruct (slashed_split d n Hb) as [->|[d' ->]].
  - cbn [app]. unfold split_char. rewrite split_none by done. cbn [mbind list_bind]. rewrite piece_bare by done.
    by rewrite app_nil_r, last_snoc.
  - rewrite <- app_assoc. unfold split_char. cbn [app]. rewrite split_join by done.
    rewrite bind_app. cbn [mbind list_bind]. rewrite piece_bare, app_nil_r by done. by rewrite app_assoc, last_snoc.
Qed.
Lemma bare_back n : bare n -> back_ok (Z.eqb 47) n /\ Forall (fun c => (47 =? c) = false) (rev n).
Proof.
  intros (Hn & _ & _ & H). apply Forall_rev in H. split; [|done]. unfold back_ok. by destruct H.
Qed.
Lemma parent_join d n : bare n -> d <> [] -> last d <> Some 47 -> path_parent (path_join d n) = Some d.
Proof.
  intros Hb Hd Hl. destruct (bare_back n Hb) as [Hk Hr]. rewrite join_bare by (by apply bare_relative).
  assert (slashed d = d ++ [47]) as ->.
  { unfold slashed. destruct (last d) as [c|] eqn:E; [|by apply last_None in E].
    destruct (Z.eqb_spec c 47); [by subst|done]. }
  unfold path_parent. rewrite trim_end_id by (by apply back_ok_app; [apply Hb|]).
  rewrite <- app_assoc. destruct (d ++ [47] ++ n) eqn:E; [by destruct d|]. rewrite <- E. cbn [app].
  rewrite rev_app_distr. cbn [rev]. rewrite <- app_assoc. cbn [app].
  rewrite split_once_app by done. rewrite rev_involutive, trim_end_id by (by apply back_ok_last). by destruct d.
Qed.
(** Beside a file of [d] is in [d]. *)
Lemma beside_join d n m : bare n -> bare m -> last d <> Some 47 -> with_file_name (path_join d n) m = path_join d m.
Proof.
  intros Hn Hm Hl. unfold with_file_name. rewrite file_name_join by done.
  destruct d as [|c d']; [|by rewrite parent_join].
  assert (path_parent (path_join [] n) = Some []) as ->; [|done].
  destruct (bare_back n Hn) as [Hk Hr]. rewrite join_bare by (by apply bare_relative). cbn [slashed last app].
  unfold path_parent. rewrite trim_end_id by done. destruct n as [|x n]; [by destruct Hn|].
  by rewrite split_once_none by done.
Qed.
