(* ===== verification/Decimal.v ===== *)
(** * Decimal: [str::parse::<f64>]

    The grammar of Rust's float parser and the correctly rounded value of what it
    accepts: the digits and the exponent give an exact rational number, which is
    rounded once, to nearest even. *)
From S2P Require Import Prelude F64 Floats Text.

(** The longest front of digits, and the rest. *)
Fixpoint span_digits (s : text) : text * text :=
  match s with
  | c :: r => if is_ascii_digit c then let '(d, k) := span_digits r in (c :: d, k) else ([], s)
  | [] => ([], [])
  end.

(** [m * 10^e], rounded. *)
Definition decimal_f64 (m e : Z) : f64 :=
  if m =? 0 then f64_zero
  else if 0 <=? e then binary_normalize prec emax (m * 10 ^ e) 0 false
  else let '(q, e', l) := SFdiv_core_binary prec emax m 0 (10 ^ (- e)) 0 in
       binary_round_aux prec emax false q e' l.

(** What follows the digits: nothing, or an exponent. *)
Definition parse_exponent (s : text) : option Z :=
  match s with
  | [] => Some 0
  | c :: r =>
      if (c =? 101) || (c =? 69) then
        let '(neg, ds) := match r with 45 :: k => (true, k) | 43 :: k => (false, k) | _ => (false, r) end in
        match span_digits ds with
        | ((_ :: _) as d, []) => v ← digits_value 10 d; Some (if neg : bool then - v else v)
        | _ => None
        end
      else None
  end.

Definition parse_magnitude (s : text) : option f64 :=
  if eq_ignore_ascii_case s (txt "inf") || eq_ignore_ascii_case s (txt "infinity") then Some (S754_infinity false)
  else if eq_ignore_ascii_case s (txt "nan") then Some S754_nan
  else
    let '(ip, r) := span_digits s in
    let '(fp, r) := match r with 46 :: k => span_digits k | _ => ([], r) end in
    match ip ++ fp with
    | [] => None
    | ds => e ← parse_exponent r; m ← digits_value 10 ds; Some (decimal_f64 m (e - zlen fp))
    end.

Definition parse_f64 (s : text) : option f64 :=
  match s with
  | 45 :: r => fopp <$> parse_magnitude r
  | 43 :: r => parse_magnitude r
  | _ => parse_magnitude s
  end.

Example parse_tenth : parse_f64 (txt "0.1") = Some (lit 1 10). Proof. vm_compute. reflexivity. Qed.
Example parse_milli : parse_f64 (txt "-25e-2") = Some (fopp (lit 1 4)). Proof. vm_compute. reflexivity. Qed.
Example parse_largest : parse_f64 (txt "1.7976931348623157e308") = Some (S754_finite false (2 ^ 53 - 1) 971).
Proof. vm_compute. reflexivity. Qed.
Example parse_overflow : parse_f64 (txt "1e309") = Some (S754_infinity false). Proof. vm_compute. reflexivity. Qed.
Example parse_dot : parse_f64 (txt ".") = None. Proof. reflexivity. Qed.

(** ** [f64]'s [Display]: the fewest digits that read back, without an exponent *)
(** [m * 2^e] as a whole number of digits and a power of ten. *)
Definition exact_decimal (m : positive) (e : Z) : Z * Z :=
  if 0 <=? e then (Z.pos m * 2 ^ e, 0) else (Z.pos m * 5 ^ (- e), e).
Definition reads_back (m : positive) (e : Z) (d : Z * Z) : bool :=
  (0 <? d.1) &&
  match decimal_f64 d.1 d.2 with
  | S754_finite false m' e' => (m' =? m)%positive && (e' =? e)
  | _ => false
  end.
(** The decimals of [n] digits on both sides of [x], the nearer one first. *)
Definition near (x ex len n : Z) : list (Z * Z) :=
  let p := 10 ^ (len - n) in
  let lo := x / p in
  let r := x mod p in
  let ex := ex + (len - n) in
  if r =? 0 then [(lo, ex)] else if 2 * r <=? p then [(lo, ex); (lo + 1, ex)] else [(lo + 1, ex); (lo, ex)].
Fixpoint search (m : positive) (e x ex len n : Z) (fuel : nat) : Z * Z :=
  match fuel with
  | O => (x, ex)
  | S fuel => match List.find (reads_back m e) (near x ex len n) with
              | Some d => d
              | None => search m e x ex len (n + 1) fuel
              end
  end.
Definition shortest (m : positive) (e : Z) : Z * Z :=
  let '(x, ex) := exact_decimal m e in
  let len := zlen (show_uint x) in
  search m e x ex len 1 (Z.to_nat len).
(** A digit string, with its decimal point placed. *)
Definition positional (d e : Z) : text :=
  let s := show_uint d in
  if 0 <=? e then s ++ replicate (Z.to_nat e) 48
  else let s := replicate (Z.to_nat (1 - e - zlen s)) 48 ++ s in
       let k := Z.to_nat (zlen s + e) in take k s ++ 46 :: drop k s.
Definition show_f64 (x : f64) : text :=
  match x with
  | S754_zero s => (if s then txt "-" else []) ++ txt "0"
  | S754_infinity s => (if s then txt "-" else []) ++ txt "inf"
  | S754_nan => txt "NaN"
  | S754_finite s m e => (if s then txt "-" else []) ++ let '(d, ex) := shortest m e in positional d ex
  end.

Example show_tenth : show_f64 (lit 1 10) = txt "0.1". Proof. vm_compute. reflexivity. Qed.
Example show_width : show_f64 (lit 1193 1) = txt "1193". Proof. vm_compute. reflexivity. Qed.
Example show_negative : show_f64 (fopp (lit 225 10)) = txt "-22.5". Proof. vm_compute. reflexivity. Qed.
Example show_third : show_f64 (lit 1 3) = txt "0.3333333333333333". Proof. vm_compute. reflexivity. Qed.
Example show_sum : show_f64 (fadd (lit 1 10) (lit 2 10)) = txt "0.30000000000000004". Proof. vm_compute. reflexivity. Qed.
Example show_big : show_f64 (lit (10 ^ 23) 1) = txt "100000000000000000000000". Proof. vm_compute. reflexivity. Qed.
Example show_tiny : length (show_f64 (S754_finite false 1 (-1074))) = 326%nat. Proof. vm_compute. reflexivity. Qed.

(** ** It reads back *)
Lemma canonical_exact s m e k :
  valid_binary prec emax (S754_finite s m e) = true -> 0 <= k ->
  binary_round_aux prec emax s (Z.pos m * 2 ^ k) (e - k) loc_Exact = S754_finite s m e.
Proof.
  intros Hv Hk. cbn [valid_binary] in Hv. unfold bounded, canonical_mantissa in Hv.
  apply andb_true_iff in Hv as [Hc%Z.eqb_eq He]. change (Z.pos (digits2_pos m)) with (Zdigits2 (Z.pos m)) in Hc.
  assert (Hd : Zdigits2 (Z.pos m * 2 ^ k) = Zdigits2 (Z.pos m) + k).
  { apply digits_unique. right. pose proof (digits_bounds m) as [Hl Hu]. cbn [Zdigits2] in *.
    assert (0 < 2 ^ k) by (apply Z.pow_pos_nonneg; lia). split; [lia|].
    replace (Z.pos (digits2_pos m) + k - 1) with ((Z.pos (digits2_pos m) - 1) + k) by lia.
    rewrite !Z.pow_add_r by lia. nia. }
  unfold binary_round_aux, shr_fexp. rewrite Hd.
  replace (Zdigits2 (Z.pos m) + k + (e - k)) with (Zdigits2 (Z.pos m) + e) by lia. rewrite Hc.
  replace (e - (e - k)) with k by lia.
  change (shr_record_of_loc (Z.pos m * 2 ^ k) loc_Exact)
    with {| shr_m := Z.pos m * 2 ^ k; shr_r := false; shr_s := false |}.
  rewrite shr_exact by done. replace (e - k + k) with e by lia. cbv beta iota.
  change (round_nearest_even _ _) with (Z.pos m). rewrite Hc, Z.sub_diag. cbn [shr]. cbv beta iota.
  change (shr_m (shr_record_of_loc (Z.pos m) loc_Exact)) with (Z.pos m). by rewrite He.
Qed.

Lemma digits_mul m n : 0 < m -> 0 < n -> Zdigits2 (m * n) <= Zdigits2 m + Zdigits2 n.
Proof.
  intros Hm Hn. destruct (digits_has m) as [?|[Hd1 [_ H1]]]; [lia..|].
  destruct (digits_has n) as [?|[Hd2 [_ H2]]]; [lia..|].
  destruct (digits_has (m * n)) as [?|[Hd [Hl _]]]; [lia..|].
  destruct (Z_le_gt_dec (Zdigits2 (m * n)) (Zdigits2 m + Zdigits2 n)); [done|].
  assert (2 ^ (Zdigits2 m + Zdigits2 n) <= 2 ^ (Zdigits2 (m * n) - 1)) by (apply Z.pow_le_mono_r; lia).
  rewrite Z.pow_add_r in * by lia. nia.
Qed.
Lemma digits_pow2 m k : 0 < m -> 0 <= k -> Zdigits2 (m * 2 ^ k) = Zdigits2 m + k.
Proof.
  intros Hm Hk. apply digits_unique. right. destruct (digits_has m) as [?|[Hd [Hl Hu]]]; [lia..|].
  assert (0 < 2 ^ k) by (apply Z.pow_pos_nonneg; lia). split; [lia|].
  replace (Zdigits2 m + k - 1) with ((Zdigits2 m - 1) + k) by lia.
  rewrite !Z.pow_add_r by lia. nia.
Qed.

Lemma exact_whole m e : valid_binary prec emax (S754_finite false m e) = true -> 0 <= e ->
  decimal_f64 (Z.pos m * 2 ^ e) 0 = S754_finite false m e.
Proof.
  intros Hv He. assert (Hp : 0 < 2 ^ e) by (apply Z.pow_pos_nonneg; lia).
  unfold decimal_f64. rewrite (proj2 (Z.eqb_neq _ _)) by nia. change (0 <=? 0) with true. cbv iota.
  rewrite Z.mul_1_r. destruct (Z.pos m * 2 ^ e) as [|x|x] eqn:Ex; [nia| |nia].
  cbn [binary_normalize]. unfold binary_round, shl_align. change (Z.pos (digits2_pos x)) with (Zdigits2 (Z.pos x)).
  pose proof Hv as Hc. cbn [valid_binary] in Hc. unfold bounded, canonical_mantissa in Hc.
  apply andb_true_iff in Hc as [Hc%Z.eqb_eq _]. change (Z.pos (digits2_pos m)) with (Zdigits2 (Z.pos m)) in Hc.
  rewrite <- Ex, digits_pow2, Z.add_0_r, Hc, Z.sub_0_r by lia.
  destruct e as [|e|e]; [| |lia]; rewrite <- Ex; pose proof (canonical_exact false m _ _ Hv He) as H;
    rewrite Z.sub_diag in H; exact H.
Qed.

Lemma exact_fraction m e : valid_binary prec emax (S754_finite false m e) = true -> e < 0 ->
  decimal_f64 (Z.pos m * 5 ^ (- e)) e = S754_finite false m e.
Proof.
  intros Hv He. set (k := - e). assert (Hp5 : 0 < 5 ^ k) by (apply Z.pow_pos_nonneg; lia).
  assert (Hp2 : 0 < 2 ^ k) by (apply Z.pow_pos_nonneg; lia).
  assert (H10 : 10 ^ k = 5 ^ k * 2 ^ k) by (rewrite <- Z.pow_mul_l; done).
  pose proof Hv as Hc. cbn [valid_binary] in Hc. unfold bounded, canonical_mantissa in Hc.
  apply andb_true_iff in Hc as [Hc%Z.eqb_eq _]. change (Z.pos (digits2_pos m)) with (Zdigits2 (Z.pos m)) in Hc.
  unfold decimal_f64. rewrite (proj2 (Z.eqb_neq _ _)) by nia. rewrite (proj2 (Z.leb_gt 0 e)) by lia.
  fold k. unfold SFdiv_core_binary. rewrite !Z.add_0_r, Z.sub_0_r.
  set (e' := Z.min _ _). assert (He' : e' <= e).
  { unfold e'. pose proof (digits_mul (Z.pos m) (5 ^ k) ltac:(lia) Hp5).
    rewrite H10, digits_pow2 by lia. rewrite <- Hc at 1. unfold fexp. lia. }
  rewrite Z.sub_0_l. set (s := - e'). assert (Hs : k <= s) by lia.
  replace (match s with 0 => Z.pos m * 5 ^ k | Z.pos _ => Z.shiftl (Z.pos m * 5 ^ k) s | Z.neg _ => 0 end)
    with ((Z.pos m * 2 ^ (s - k)) * 10 ^ k).
  2:{ destruct s as [|s'|s'] eqn:Es; [lia| |lia]. rewrite Z.shiftl_mul_pow2, H10 by lia.
      replace (Z.pos s') with ((Z.pos s' - k) + k) at 2 by lia. rewrite Z.pow_add_r by lia. ring. }
  assert (Hq : Z.div_eucl (Z.pos m * 2 ^ (s - k) * 10 ^ k) (10 ^ k) = (Z.pos m * 2 ^ (s - k), 0)).
  { pose proof (Z.div_mul (Z.pos m * 2 ^ (s - k)) (10 ^ k) ltac:(nia)) as H1.
    pose proof (Z.mod_mul (Z.pos m * 2 ^ (s - k)) (10 ^ k) ltac:(nia)) as H2.
    unfold Z.div, Z.modulo in H1, H2. destruct (Z.div_eucl _ _). congruence. }
  rewrite Hq. replace (new_location (10 ^ k) 0) with loc_Exact
    by (unfold new_location, new_location_even, new_location_odd; by destruct (Z.even _)).
  replace e' with (e - (s - k)) by lia. apply canonical_exact; [done|lia].
Qed.

Lemma exact_reads_back m e : valid_binary prec emax (S754_finite false m e) = true ->
  reads_back m e (exact_decimal m e) = true.
Proof.
  intros Hv. unfold reads_back, exact_decimal. destruct (Z.leb_spec 0 e) as [He|He]; cbn [fst snd].
  all: match goal with |- (0 <? _ * ?p) && _ = true => assert (0 < p) by (apply Z.pow_pos_nonneg; lia) end.
  all: rewrite (proj2 (Z.ltb_lt 0 _)) by lia.
  all: first [rewrite exact_whole by done | rewrite exact_fraction by done]; by rewrite Pos.eqb_refl, Z.eqb_refl.
Qed.
Lemma shortest_reads_back m e : valid_binary prec emax (S754_finite false m e) = true ->
  reads_back m e (shortest m e) = true.
Proof.
  intros Hv. pose proof (exact_reads_back m e Hv) as He. unfold shortest.
  destruct (exact_decimal m e) as [x ex]. generalize (zlen (show_uint x)) at 1 as len, 1 as n.
  intros len n. revert n. generalize (Z.to_nat (zlen (show_uint x))) as fuel.
  induction fuel as [|fuel IH]; intros n; [done|]. cbn [search].
  destruct (List.find _ _) as [d|] eqn:E; [|apply IH]. by apply find_some in E as [_ E].
Qed.

Lemma span_digits_app ds r : all_digits ds -> front_ok is_ascii_digit r -> span_digits (ds ++ r) = (ds, r).
Proof.
  intros H Hr. induction H as [|c ds Hc _ IH]; cbn [app span_digits].
  - destruct r as [|c r]; [done|]. cbn [span_digits]. cbn in Hr. by rewrite Hr.
  - by rewrite Hc, IH.
Qed.
Lemma digits_value_zeros n ds : digits_value 10 (replicate n 48 ++ ds) = digits_value 10 ds.
Proof. induction n as [|n IH]; [done|exact IH]. Qed.
Lemma digits_value_scaled ds v n :
  digits_value 10 ds = Some v -> digits_value 10 (ds ++ replicate n 48) = Some (v * 10 ^ Z.of_nat n).
Proof.
  intros H. induction n as [|n IH]; [rewrite app_nil_r, Z.mul_1_r; exact H|].
  rewrite replicate_S_end, app_assoc. rewrite (digits_value_snoc 10 _ 48 _ 0 IH eq_refl).
  f_equal. rewrite Nat2Z.inj_succ, Z.pow_succ_r by lia. lia.
Qed.
Lemma all_digits_zeros n : all_digits (replicate n 48).
Proof. induction n; by constructor. Qed.

(** A text that starts with a digit is neither of the words, and has no sign. *)
Lemma parse_digit c r : is_ascii_digit c = true -> parse_f64 (c :: r) = parse_magnitude (c :: r).
Proof.
  intros Hc. assert (Hr : 48 <= c <= 57) by (unfold is_ascii_digit, between in Hc; lia).
  unfold parse_f64. repeat case_match; first [done|lia].
Qed.
Lemma parse_digit_start c r : is_ascii_digit c = true -> parse_f64 (c :: r) =
  let '(ip, k) := span_digits (c :: r) in
  let '(fp, k) := match k with 46 :: k => span_digits k | _ => ([], k) end in
  match ip ++ fp with
  | [] => None
  | ds => e ← parse_exponent k; m ← digits_value 10 ds; Some (decimal_f64 m (e - zlen fp))
  end.
Proof.
  intros Hc. assert (Hr : 48 <= c <= 57) by (unfold is_ascii_digit, between in Hc; lia).
  rewrite parse_digit by done. unfold parse_magnitude.
  assert (Hw : forall w, match w with x :: _ => 97 <= x | [] => True end -> eq_ignore_ascii_case (c :: r) w = false).
  { intros w Hw. apply bool_decide_eq_false. intros E. destruct w as [|x w]; [done|]. cbn in E.
    injection E as E _. unfold to_ascii_lowercase, is_ascii_uppercase, between in E.
    rewrite (proj2 (Z.leb_gt 65 c)), (proj2 (Z.leb_gt x 90)), andb_false_r in E by lia. cbn in E. lia. }
  by rewrite !Hw by done.
Qed.

Lemma parse_positional d ex : 0 < d -> parse_f64 (positional d ex) = Some (decimal_f64 d ex).
Proof.
  intros Hd. destruct (show_uint_spec d ltac:(lia)) as (Hv & Hn & Ha). unfold positional.
  destruct (Z.leb_spec 0 ex) as [He|He].
  - assert (Hs : all_digits (show_uint d ++ replicate (Z.to_nat ex) 48))
      by (apply Forall_app; split; [done|apply all_digits_zeros]).
    pose proof (digits_value_scaled _ _ (Z.to_nat ex) Hv) as Hv'.
    destruct (show_uint d ++ replicate (Z.to_nat ex) 48) as [|c s] eqn:Es; [by destruct (show_uint d)|].
    rewrite parse_digit_start by (by inversion Hs). rewrite <- (app_nil_r (c :: s)), span_digits_app by done.
    cbn [app]. rewrite app_nil_r, Hv'. cbn. f_equal. rewrite Z2Nat.id by done. unfold decimal_f64.
    rewrite (proj2 (Z.eqb_neq d 0)), (proj2 (Z.eqb_neq (d * 10 ^ ex) 0)), (proj2 (Z.leb_le 0 ex)) by nia.
    by rewrite Z.mul_1_r.
  - set (s := replicate (Z.to_nat (1 - ex - zlen (show_uint d))) 48 ++ show_uint d).
    assert (Hl : 1 - ex <= zlen s) by (unfold s; len).
    set (k := Z.to_nat (zlen s + ex)). assert (Hk : (1 <= k <= length s)%nat) by (unfold k, zlen in *; lia).
    assert (Hs : all_digits s) by (apply Forall_app; split; [apply all_digits_zeros|done]).
    assert (Hv' : digits_value 10 s = Some d) by (unfold s; by rewrite digits_value_zeros).
    destruct (take k s) as [|c t] eqn:Et; [apply (f_equal length) in Et; rewrite length_take in Et; cbn in Et; lia|].
    assert (Ht : all_digits (c :: t)) by (rewrite <- Et; by apply Forall_take).
    cbn [app]. rewrite parse_digit_start by (by inversion Ht). change (c :: t ++ 46 :: drop k s) with ((c :: t) ++ 46 :: drop k s).
    rewrite span_digits_app by done. rewrite <- (app_nil_r (drop k s)).
    rewrite span_digits_app by (done || by apply Forall_drop). rewrite <- Et, take_drop.
    assert (Hz : 0 - zlen (drop k s) = ex) by (unfold zlen in *; rewrite length_drop; unfold k; lia).
    destruct s; [cbn in Hk; lia|]. cbn [parse_exponent mbind option_bind]. rewrite Hv'. cbn [mbind option_bind]. by rewrite Hz.
Qed.

Lemma positional_front d ex : 0 < d -> exists c r, positional d ex = c :: r /\ is_ascii_digit c = true.
Proof.
  intros Hd. destruct (show_uint_spec d ltac:(lia)) as (_ & Hn & Ha). unfold positional.
  destruct (Z.leb_spec 0 ex) as [He|He].
  - destruct Ha as [|c r Hc]; [done|]. cbn. eauto.
  - set (s := replicate (Z.to_nat (1 - ex - zlen (show_uint d))) 48 ++ show_uint d).
    assert (Hl : 1 - ex <= zlen s) by (unfold s; len).
    assert (Hs : all_digits s) by (apply Forall_app; split; [apply all_digits_zeros|done]).
    destruct (Z.to_nat (zlen s + ex)) as [|k] eqn:Ek; [lia|]. destruct Hs as [|c r Hc]; [unfold zlen in Hl; cbn in Hl; lia|].
    cbn. eauto.
Qed.
Lemma reads_back_spec m e d : reads_back m e d = true -> 0 < d.1 /\ decimal_f64 d.1 d.2 = S754_finite false m e.
Proof.
  unfold reads_back. intros [H%Z.ltb_lt Hd]%andb_true_iff. split; [done|]. revert Hd.
  destruct (decimal_f64 d.1 d.2) as [| | |[] m' e']; try done. by intros [->%Pos.eqb_eq ->%Z.eqb_eq]%andb_true_iff.
Qed.

(** What is printed is what is read: every [f64] that is not a NaN with a sign. *)
Lemma show_f64_reads_back x : is_f64 x -> parse_f64 (show_f64 x) = Some x.
Proof.
  intros Hv. destruct x as [s|s| |s m e]; [by destruct s|by destruct s|done|].
  assert (Hm : valid_binary prec emax (S754_finite false m e) = true) by exact Hv.
  pose proof (shortest_reads_back m e Hm) as Hr. cbn [show_f64]. destruct (shortest m e) as [d ex].
  apply reads_back_spec in Hr as [Hd Hr]. cbn [fst snd] in *.
  pose proof (parse_positional d ex Hd) as Hp. rewrite Hr in Hp. destruct s; [|exact Hp].
  destruct (positional_front d ex Hd) as (c & r & E & Hc). rewrite E in *.
  rewrite parse_digit in Hp by done. change (parse_f64 (txt "-" ++ c :: r)) with (fopp <$> parse_magnitude (c :: r)).
  by rewrite Hp.
Qed.
(** Its characters. *)
Definition number_char (c : char) : bool :=
  is_ascii_digit c || (c =? 45) || (c =? 46) || is_ascii_alphabetic c.
Lemma digits_number s : all_digits s -> Forall (fun c => number_char c = true) s.
Proof. intros H. eapply Forall_impl; [exact H|]. intros c Hc. unfold number_char. by rewrite Hc. Qed.
Lemma show_f64_chars x : is_f64 x -> show_f64 x <> [] /\ Forall (fun c => number_char c = true) (show_f64 x).
Proof.
  intros Hv. destruct x as [s|s| |s m e].
  1-3: try destruct s; (split; [done|by repeat constructor]).
  pose proof (shortest_reads_back m e Hv) as Hr. cbn [show_f64]. destruct (shortest m e) as [d ex].
  apply reads_back_spec in Hr as [Hd _]. cbn [fst] in Hd.
  destruct (positional_front d ex Hd) as (c & r & E & _). split; [rewrite E; by destruct s|].
  apply Forall_app. split; [destruct s; by repeat constructor|]. clear E.
  destruct (show_uint_spec d ltac:(lia)) as (_ & _ & Ha). unfold positional. destruct (0 <=? ex).
  - apply Forall_app; split; apply digits_number; [done|apply all_digits_zeros].
  - apply Forall_app; split; [|constructor; [done|]]; [apply Forall_take|apply Forall_drop];
      (apply Forall_app; split; apply digits_number; [apply all_digits_zeros|done]).
Qed.

(** ** What is read is an [f64] *)
Lemma fexp_mono a b : a <= b -> fexp prec emax a <= fexp prec emax b.
Proof. unfold fexp. lia. Qed.
Lemma div_digits a b n : 0 < b -> 0 < a -> n = Zdigits2 a - Zdigits2 b -> 0 < n -> n <= Zdigits2 (a / b).
Proof.
  intros Hb Ha -> Hn. destruct (digits_has a) as [?|[Hda [Hla _]]]; [lia..|].
  destruct (digits_has b) as [?|[Hdb [_ Hub]]]; [lia..|].
  set (n := Zdigits2 a - Zdigits2 b) in *.
  assert (Hq : 2 ^ (n - 1) <= a / b).
  { apply Z.div_le_lower_bound; [done|]. assert (0 < 2 ^ (n - 1)) by (apply Z.pow_pos_nonneg; lia).
    replace (Zdigits2 a - 1) with (Zdigits2 b + (n - 1)) in Hla by lia. rewrite Z.pow_add_r in Hla by lia. nia. }
  destruct (digits_has (a / b)) as [[E _]|[Hd [_ Hu]]]; [apply Z.div_pos; lia|exfalso|].
  - assert (0 < 2 ^ (n - 1)) by (apply Z.pow_pos_nonneg; lia). lia.
  - destruct (Z_le_gt_dec n (Zdigits2 (a / b))); [done|].
    assert (2 ^ Zdigits2 (a / b) <= 2 ^ (n - 1)) by (apply Z.pow_le_mono_r; lia). lia.
Qed.

Lemma decimal_f64_valid m e : 0 <= m -> is_f64 (decimal_f64 m e).
Proof.
  intros Hm. unfold decimal_f64. destruct (Z.eqb_spec m 0) as [|Hm0]; [done|].
  destruct (Z.leb_spec 0 e) as [He|He].
  - assert (0 < 10 ^ e) by (apply Z.pow_pos_nonneg; lia).
    destruct (m * 10 ^ e) as [|x|x] eqn:Ex; [done| |nia]. cbn [binary_normalize]. by apply round_valid.
  - assert (Hb : 0 < 10 ^ (- e)) by (apply Z.pow_pos_nonneg; lia). set (b := 10 ^ (- e)) in *.
    unfold SFdiv_core_binary. rewrite !Z.add_0_r, Z.sub_0_r. set (e' := Z.min _ _). rewrite Z.sub_0_l.
    assert (He' : e' <= fexp prec emax (Zdigits2 m - Zdigits2 b) /\ e' <= 0) by (unfold e'; lia).
    clearbody e'. set (s := - e').
    assert (Hs : match s with 0 => m | Z.pos _ => Z.shiftl m s | Z.neg _ => 0 end = m * 2 ^ s).
    { destruct s as [|s'|s'] eqn:Es; [by rewrite Z.mul_1_r|by rewrite Z.shiftl_mul_pow2|lia]. }
    rewrite Hs. assert (Hp : 0 < 2 ^ s) by (apply Z.pow_pos_nonneg; lia).
    pose proof (Z.div_pos (m * 2 ^ s) b ltac:(nia) Hb) as Hq.
    assert (Hd : Zdigits2 m + s - Zdigits2 b <= Zdigits2 (m * 2 ^ s / b)).
    { destruct (Z_lt_le_dec 0 (Zdigits2 m + s - Zdigits2 b)).
      - apply div_digits; [done|nia| |done]. rewrite digits_pow2 by lia. lia.
      - pose proof (digits_has _ Hq) as [[_ ->]|[? _]]; lia. }
    change (Z.div_eucl (m * 2 ^ s) b) with (Z.div_eucl (m * 2 ^ s) b). unfold Z.div in *.
    destruct (Z.div_eucl (m * 2 ^ s) b) as [q r]. apply round_aux_valid; [done|done|].
    pose proof (fexp_mono (Zdigits2 m - Zdigits2 b) (Zdigits2 q + e') ltac:(lia)). lia.
Qed.

Lemma digits_value_nonneg ds v : digits_value 10 ds = Some v -> 0 <= v.
Proof.
  revert v. induction ds as [|c ds IH] using rev_ind; intros v; [cbn; intros; simplify_eq; lia|].
  unfold digits_value in *. rewrite foldl_snoc. destruct (foldl _ _ ds) as [n|]; [|done]. cbn.
  specialize (IH n eq_refl). destruct (to_digit 10 c) as [d|] eqn:E; [|done]. cbn. intros. simplify_eq.
  unfold to_digit in E. assert (0 <= d); [|lia]. revert E.
  unfold is_ascii_digit, between. destruct (_ && _) eqn:E1; [case_match; [|done]; intros; simplify_eq; lia|].
  destruct ((97 <=? c) && (c <=? 102)) eqn:E2; [case_match; [|done]; intros; simplify_eq; lia|].
  destruct ((65 <=? c) && (c <=? 70)) eqn:E3; [case_match; [|done]; intros; simplify_eq; lia|done].
Qed.
Lemma parse_magnitude_valid s x : parse_magnitude s = Some x -> is_f64 x.
Proof.
  unfold parse_magnitude. destruct (_ || _); [by intros; simplify_eq|]. destruct (eq_ignore_ascii_case _ _); [by intros; simplify_eq|].
  destruct (span_digits s) as [ip r]. destruct (match r with 46 :: k => span_digits k | _ => ([], r) end) as [fp k].
  destruct (ip ++ fp) as [|c ds]; [done|]. destruct (parse_exponent k) as [e|]; [|done]. cbn [mbind option_bind].
  destruct (digits_value 10 (c :: ds)) as [m|] eqn:E; [|done]. cbn. intros. simplify_eq.
  apply decimal_f64_valid. by eapply digits_value_nonneg.
Qed.
Lemma parse_f64_valid s x : parse_f64 s = Some x -> is_f64 x.
Proof.
  assert (Hneg : forall r, fopp <$> parse_magnitude r = Some x -> is_f64 x).
  { intros r. destruct (parse_magnitude r) as [y|] eqn:E; [|done]. cbn. intros. simplify_eq.
    apply parse_magnitude_valid in E. by destruct y. }
  unfold parse_f64. repeat case_match; eauto using parse_magnitude_valid.
Qed.

(** The numbers a file can hold and keep. *)
Definition keeps (x : f64) : Prop := is_f64 x /\ is_finite x = true.
