(* ===== verification/KeyVal.v ===== *)
(** * KeyVal: lines of a key and a value

    The configuration files are lines [key = value], and each reader takes them apart in the
    same steps: trim, skip comments, split at the first equals sign. Here is what those steps
    make of a line a writer wrote: a plain key, and a quoted string or a token. *)
From S2P Require Import Prelude F64 Floats Utf8 Text Decimal.

(** ** Keys *)
Definition plain_char (c : char) : bool :=
  negb (is_whitespace c || (c =? 61) || (c =? 35) || (c =? 10) || (c =? 91)) && is_char c.
Definition plain_key (k : text) : bool := forallb plain_char k && negb (bool_decide (k = [])).

Lemma plain_key_chars k : plain_key k = true ->
  k <> [] /\ Forall (fun c => is_whitespace c = false /\ (61 =? c) = false /\ (c =? 35) = false /\ c <> 10 /\
                              (91 =? c) = false /\ is_char c = true) k.
Proof.
  intros [H Hn]%andb_true_iff. apply negb_true_iff, bool_decide_eq_false in Hn. split; [done|].
  apply List.Forall_forall. intros c Hc. rewrite forallb_forall in H. specialize (H c Hc). unfold plain_char in H.
  rewrite !negb_orb, !andb_true_iff, !negb_true_iff in H. rewrite (Z.eqb_sym 61), (Z.eqb_sym 91).
  destruct H as (((((? & ?) & ?) & ?) & ?) & ?). split_and!; [done..| |done|done]. by apply Z.eqb_neq.
Qed.
Lemma plain_key_line k : plain_key k = true -> one_line k.
Proof. intros [_ H]%plain_key_chars. eapply Forall_impl; [exact H|]. by intros c (_ & _ & _ & ? & _). Qed.

(** A line as the readers take it apart. *)
Lemma pair_line k v : plain_key k = true -> back_ok is_whitespace (k ++ 32 :: 61 :: v) ->
  let line := k ++ 32 :: 61 :: v in
  trim line = line /\ match line with [] => true | c :: _ => c =? 35 end = false /\ starts_with [91] line = false /\
  split_once (Z.eqb 61) line = Some (k ++ [32], v) /\ trim (k ++ [32]) = k.
Proof.
  intros [Hn H]%plain_key_chars Hb line. destruct H as [|c k (Hw & He & Hh & _ & Hs & _) H]; [done|].
  assert (Hkb : back_ok is_whitespace (c :: k)).
  { unfold back_ok. assert (H' : Forall (fun c => is_whitespace c = false) (c :: k)).
    { constructor; [done|]. eapply Forall_impl; [exact H|]. by intros x (? & _). }
    apply Forall_rev in H'. by destruct H'. }
  split_and!.
  - by apply trim_id.
  - exact Hh.
  - unfold starts_with. cbn [strip_prefix line app]. by rewrite Hs.
  - unfold line. replace ((c :: k) ++ 32 :: 61 :: v) with (((c :: k) ++ [32]) ++ 61 :: v) by (by rewrite <- app_assoc).
    apply split_once_app; [|done]. apply Forall_app. split; [|by constructor]. constructor; [done|].
    eapply Forall_impl; [exact H|]. by intros x (_ & ? & _).
  - unfold trim, trim_by. rewrite (trim_start_id _ ((c :: k) ++ [32])) by done.
    rewrite trim_end_all by (by constructor). by rewrite trim_end_id.
Qed.

(** ** Values *)
(** A quoted string. *)
Lemma trim_quotes v : trim (32 :: 34 :: v ++ [34]) = 34 :: v ++ [34].
Proof.
  unfold trim, trim_by. change (trim_start_by is_whitespace (32 :: 34 :: v ++ [34])) with (34 :: v ++ [34]).
  apply trim_end_id. apply (back_ok_snoc _ (34 :: v)). done.
Qed.
Lemma trim_quoted v : front_ok (Z.eqb 34) v -> back_ok (Z.eqb 34) v ->
  trim_by (Z.eqb 34) (trim (32 :: 34 :: v ++ [34])) = v.
Proof.
  intros Hf Hb. rewrite trim_quotes.
  unfold trim_by. change (trim_start_by (Z.eqb 34) (34 :: v ++ [34])) with (trim_start_by (Z.eqb 34) (v ++ [34])).
  destruct v as [|c v]; [done|]. cbn [app trim_start_by]. replace (34 =? c) with false by (by symmetry).
  change (c :: v ++ [34]) with ((c :: v) ++ [34]). rewrite trim_end_all by (by constructor). by apply trim_end_id.
Qed.

(** A token: nothing in it to trim. *)
Definition token (s : text) : Prop :=
  s <> [] /\ Forall (fun c => c <> 10 /\ is_whitespace c = false /\ (34 =? c) = false /\ (35 =? c) = false) s.
Lemma token_dec s :
  s <> [] -> forallb (fun c => negb (c =? 10) && negb (is_whitespace c) && negb (34 =? c) && negb (35 =? c)) s = true -> token s.
Proof.
  intros Hn H. split; [done|]. apply List.Forall_forall. intros c Hc. rewrite forallb_forall in H. specialize (H c Hc).
  rewrite !andb_true_iff, !negb_true_iff in H. destruct H as (((H1 & ?) & ?) & ?). apply Z.eqb_neq in H1. done.
Qed.
Lemma digits_token s : s <> [] -> all_digits s -> token s.
Proof.
  intros Hn H. split; [done|]. eapply Forall_impl; [exact H|]. intros c. unfold is_ascii_digit, between.
  intros [H1 H2]%andb_true_iff. apply Z.leb_le in H1, H2. split_and!; [lia| |lia..].
  unfold is_whitespace, between. repeat (apply orb_false_iff; split); try apply andb_false_iff; lia.
Qed.
Lemma show_uint_token n : 0 <= n -> token (show_uint n).
Proof. intros H0. destruct (show_uint_spec n H0) as (_ & Hn & Hd). by apply digits_token. Qed.
Lemma show_int_token n : token (show_int n).
Proof.
  unfold show_int. destruct (Z.ltb_spec n 0); [|by apply show_uint_token].
  destruct (show_uint_token (- n) ltac:(lia)) as [_ Hc]. split; [done|]. by constructor.
Qed.
Lemma token_ends (p : Z -> bool) s :
  (forall c, is_whitespace c = false -> (34 =? c) = false -> (35 =? c) = false -> p c = false) -> token s -> front_ok p s /\ back_ok p s.
Proof.
  intros Hp [_ H]. assert (H' : Forall (fun c => p c = false) s).
  { eapply Forall_impl; [exact H|]. intros c (_ & ? & ? & ?). auto. }
  split; [by destruct H'|]. unfold back_ok. apply Forall_rev in H'. by destruct H'.
Qed.
Lemma number_token s : s <> [] -> Forall (fun c => number_char c = true) s -> token s.
Proof.
  intros Hn H. split; [done|]. eapply Forall_impl; [exact H|]. intros c.
  unfold number_char, is_ascii_alphabetic, is_ascii_digit, is_ascii_uppercase, is_ascii_lowercase, between.
  intros Hc. assert (Hr : 45 <= c <= 46 \/ 48 <= c <= 57 \/ 65 <= c <= 90 \/ 97 <= c <= 122) by lia. clear Hc.
  split_and!; [lia| |lia..].
  unfold is_whitespace, between. repeat (apply orb_false_iff; split); try apply andb_false_iff; lia.
Qed.
Lemma show_f64_token x : is_f64 x -> token (show_f64 x).
Proof. intros [Hn H]%show_f64_chars. by apply number_token. Qed.
Lemma trim_space s : token s -> trim (32 :: s) = s.
Proof. intros H. change (trim (32 :: s)) with (trim s). apply trim_id; by apply token_ends. Qed.
Lemma trim_token s : token s -> trim_by (Z.eqb 34) (trim (32 :: s)) = s.
Proof. intros H. rewrite trim_space by done. apply trim_id; by apply token_ends. Qed.
Lemma token_no_hash s : token s -> head (split_char 35 s) = Some s.
Proof.
  intros [_ H]. unfold split_char. rewrite split_none; [done|].
  eapply Forall_impl; [exact H|]. by intros c (_ & _ & _ & ?).
Qed.

(** ** Lines *)
Lemma quoted_line k v : one_line k -> one_line v -> one_line (k ++ 32 :: 61 :: 32 :: 34 :: v ++ [34]).
Proof. intros Hk Hv. apply one_line_app. split; [done|]. do 4 (constructor; [done|]). apply one_line_app. split; [done|by constructor]. Qed.
Lemma token_line k v : one_line k -> token v -> one_line (k ++ 32 :: 61 :: 32 :: v).
Proof.
  intros Hk [_ Hv]. apply one_line_app. split; [done|]. do 3 (constructor; [done|]).
  eapply Forall_impl; [exact Hv|]. by intros c [].
Qed.
Lemma quoted_back p k v : p 34 = false -> back_ok p (k ++ 32 :: 61 :: 32 :: 34 :: v ++ [34]).
Proof. intros H. apply back_ok_app; [done|]. apply (back_ok_snoc p (32 :: 61 :: 32 :: 34 :: v)). done. Qed.
Lemma token_back p k v :
  (forall c, is_whitespace c = false -> (34 =? c) = false -> (35 =? c) = false -> p c = false) -> token v ->
  back_ok p (k ++ 32 :: 61 :: 32 :: v).
Proof.
  intros Hp Hv. apply back_ok_app; [done|]. apply (back_ok_app p [32; 61; 32]); [by destruct Hv|].
  by apply token_ends.
Qed.
Lemma not_cr c : is_whitespace c = false -> (34 =? c) = false -> (35 =? c) = false -> (13 =? c) = false.
Proof. intros H _ _. destruct (Z.eqb_spec 13 c) as [<-|]; done. Qed.


(** ** Scalar values *)
Lemma scalars_app a b : scalars (a ++ b) <-> scalars a /\ scalars b.
Proof. apply Forall_app. Qed.
Lemma digits_scalars s : all_digits s -> scalars s.
Proof.
  intros H. eapply Forall_impl; [exact H|]. intros c. unfold is_ascii_digit, between, is_char.
  intros [H1 H2]%andb_true_iff. apply Z.leb_le in H1, H2. zcompare. done.
Qed.
Lemma show_uint_scalars n : 0 <= n -> scalars (show_uint n).
Proof. intros H. by apply digits_scalars, show_uint_spec. Qed.
Lemma show_int_scalars n : scalars (show_int n).
Proof.
  unfold show_int. destruct (Z.ltb_spec n 0); [|by apply show_uint_scalars].
  constructor; [done|]. apply show_uint_scalars. lia.
Qed.

Lemma scalars_dec s : forallb is_char s = true -> scalars s.
Proof. intros Hs. apply List.Forall_forall. by rewrite forallb_forall in Hs. Qed.
Lemma scalars_lines ls : Forall scalars ls -> scalars (ls ≫= newline).
Proof.
  induction 1 as [|l ls Hl _ IH]; [constructor|]. change ((l :: ls) ≫= newline) with (newline l ++ (ls ≫= newline)).
  apply scalars_app. split; [|done]. apply scalars_app. split; [done|]. by apply scalars_dec.
Qed.
Lemma token_scalars_f64 x : is_f64 x -> scalars (show_f64 x).
Proof.
  intros [_ H]%show_f64_chars. eapply Forall_impl; [exact H|]. intros c.
  unfold number_char, is_ascii_alphabetic, is_ascii_digit, is_ascii_uppercase, is_ascii_lowercase, between, is_char.
  intros Hc. lia.
Qed.
