(* ===== verification/Order.v ===== *)
(** * Order: comparison functions

    What [Ord] promises of [cmp], as a class: a total preorder, whose equivalence need not be
    equality. Instances for numbers, text, options, pairs and lists, the last two in
    lexicographic order. *)
From stdpp Require Import sorting.
From S2P Require Import Prelude Text.

Class Comparison {A} (cmp : A -> A -> comparison) := {
  cmp_opp : forall a b, cmp b a = CompOpp (cmp a b);
  cmp_lt_trans : forall a b c, cmp a b = Lt -> cmp b c = Lt -> cmp a c = Lt;
  cmp_eq_left : forall a b c, cmp a b = Eq -> cmp a c = cmp b c;
}.

Section Laws.
Context {A} (cmp : A -> A -> comparison) `{!Comparison cmp}.

Lemma cmp_refl a : cmp a a = Eq.
Proof. pose proof (cmp_opp (cmp := cmp) a a) as H. by destruct (cmp a a). Qed.
Lemma cmp_eq_right a b c : cmp a b = Eq -> cmp c a = cmp c b.
Proof. intros H. rewrite (cmp_opp (cmp := cmp) a c), (cmp_opp (cmp := cmp) b c). f_equal. by apply cmp_eq_left. Qed.
Lemma cmp_gt_lt a b : cmp a b = Gt <-> cmp b a = Lt.
Proof. rewrite (cmp_opp (cmp := cmp) a b). by destruct (cmp a b). Qed.
Lemma cmp_gt_trans a b c : cmp a b = Gt -> cmp b c = Gt -> cmp a c = Gt.
Proof. rewrite !cmp_gt_lt. intros H1 H2. by eapply cmp_lt_trans. Qed.
(** "Not greater" is transitive. *)
Lemma cmp_le_trans a b c : cmp a b <> Gt -> cmp b c <> Gt -> cmp a c <> Gt.
Proof.
  intros H1 H2. destruct (cmp a b) eqn:E1; [by rewrite (cmp_eq_left (cmp := cmp) _ _ _ E1)| |done].
  destruct (cmp b c) eqn:E2; [by rewrite <- (cmp_eq_right _ _ _ E2), E1| |done].
  by rewrite (cmp_lt_trans (cmp := cmp) _ _ _ E1 E2).
Qed.
End Laws.

(** First by one, then by the other. *)
Definition then_cmp (c d : comparison) : comparison := match c with Eq => d | _ => c end.
Definition cmp_by {A B} (f : A -> B) (cmp : B -> B -> comparison) : A -> A -> comparison := fun a b => cmp (f a) (f b).
Definition cmp_both {A} (c1 c2 : A -> A -> comparison) : A -> A -> comparison := fun a b => then_cmp (c1 a b) (c2 a b).
Definition cmp_option {A} (cmp : A -> A -> comparison) (a b : option A) : comparison :=
  match a, b with
  | None, None => Eq
  | None, Some _ => Lt
  | Some _, None => Gt
  | Some a, Some b => cmp a b
  end.
Fixpoint cmp_list {A} (cmp : A -> A -> comparison) (a b : list A) : comparison :=
  match a, b with
  | [], [] => Eq
  | [], _ :: _ => Lt
  | _ :: _, [] => Gt
  | x :: a, y :: b => then_cmp (cmp x y) (cmp_list cmp a b)
  end.

#[export] Instance z_comparison : Comparison Z.compare.
Proof.
  split.
  - intros a b. apply Z.compare_antisym.
  - intros a b c. rewrite !Z.compare_lt_iff. lia.
  - intros a b c. by intros ->%Z.compare_eq_iff.
Qed.
#[export] Instance text_comparison : Comparison text_cmp.
Proof.
  split.
  - apply text_cmp_antisym.
  - apply text_cmp_trans.
  - intros a b c. by intros ->%text_cmp_eq.
Qed.
#[export] Instance by_comparison {A B} (f : A -> B) cmp `{!Comparison cmp} : Comparison (cmp_by f cmp).
Proof.
  split; unfold cmp_by; intros.
  - apply cmp_opp.
  - by eapply cmp_lt_trans.
  - by apply cmp_eq_left.
Qed.
#[export] Instance both_comparison {A} (c1 c2 : A -> A -> comparison) `{!Comparison c1, !Comparison c2} :
  Comparison (cmp_both c1 c2).
Proof.
  split; unfold cmp_both, then_cmp.
  - intros a b. rewrite (cmp_opp (cmp := c1) a b), (cmp_opp (cmp := c2) a b). by destruct (c1 a b).
  - intros a b c H1 H2. destruct (c1 a b) eqn:E1; [rewrite (cmp_eq_left (cmp := c1) _ _ _ E1)| |done].
    + destruct (c1 b c); [by eapply cmp_lt_trans|done|done].
    + destruct (c1 b c) eqn:E2; [by rewrite <- (cmp_eq_right c1 _ _ _ E2), E1| |done].
      by rewrite (cmp_lt_trans (cmp := c1) _ _ _ E1 E2).
  - intros a b c. destruct (c1 a b) eqn:E1; [|done|done]. intros E2.
    by rewrite (cmp_eq_left (cmp := c1) _ _ _ E1), (cmp_eq_left (cmp := c2) _ _ _ E2).
Qed.
#[export] Instance option_comparison {A} (cmp : A -> A -> comparison) `{!Comparison cmp} : Comparison (cmp_option cmp).
Proof.
  split.
  - intros [a|] [b|]; simpl; (done || apply cmp_opp).
  - intros [a|] [b|] [c|]; simpl; (done || apply cmp_lt_trans).
  - intros [a|] [b|] [c|]; simpl; (done || apply cmp_eq_left).
Qed.
#[export] Instance list_comparison {A} (cmp : A -> A -> comparison) `{!Comparison cmp} : Comparison (cmp_list cmp).
Proof.
  split.
  - induction a as [|x a IH]; intros [|y b]; simpl; [done..|].
    unfold then_cmp. rewrite (cmp_opp (cmp := cmp) x y), IH. by destruct (cmp x y).
  - induction a as [|x a IH]; intros [|y b] [|z c]; simpl; try done. unfold then_cmp. intros H1 H2.
    destruct (cmp x y) eqn:E1; [rewrite (cmp_eq_left (cmp := cmp) _ _ _ E1)| |done].
    + destruct (cmp y z); [by eapply IH|done|done].
    + destruct (cmp y z) eqn:E2; [by rewrite <- (cmp_eq_right cmp _ _ _ E2), E1| |done].
      by rewrite (cmp_lt_trans (cmp := cmp) _ _ _ E1 E2).
  - induction a as [|x a IH]; intros [|y b] [|z c]; simpl; try done; unfold then_cmp;
      destruct (cmp x y) eqn:E1; try done. intros E2. rewrite (cmp_eq_left (cmp := cmp) _ _ _ E1), (IH _ _ E2). done.
Qed.

(** ** The greatest, and the first of the greatest *)

(** Walk a list keeping the best so far; a later one must be greater to replace it. *)
Definition best_of {A} (better : A -> A -> bool) (l : list A) : option A :=
  foldl (fun best c => match best with
                       | None => Some c
                       | Some b => if better c b then Some c else Some b
                       end) None l.

Lemma best_of_spec {A} (cmp : A -> A -> comparison) `{!Comparison cmp} (better : A -> A -> bool) l :
  (forall a b, better a b = true <-> cmp a b = Gt) ->
  match best_of better l with
  | None => l = []
  | Some m => exists front back, l = front ++ m :: back /\
      (forall x, x ∈ front -> cmp x m = Lt) /\ (forall x, x ∈ back -> cmp x m <> Gt)
  end.
Proof.
  intros Hb. unfold best_of. induction l as [|c l IH] using rev_ind; [done|].
  rewrite foldl_snoc. destruct (foldl _ None l) as [m|].
  - destruct IH as (front & back & -> & Hf & Hk). destruct (better c m) eqn:E.
    + apply Hb in E. exists (front ++ m :: back), []. split; [done|]. split; [|by intros x ?%elem_of_nil].
      intros x Hx. apply (cmp_gt_lt cmp) in E. apply elem_of_app in Hx as [Hx|Hx].
      * by apply (cmp_lt_trans (cmp := cmp) _ m); [apply Hf|].
      * apply elem_of_cons in Hx as [->|Hx]; [done|]. specialize (Hk x Hx).
        destruct (cmp x m) eqn:Ex; [by rewrite (cmp_eq_left (cmp := cmp) _ _ _ Ex)|exact (cmp_lt_trans (cmp := cmp) _ _ _ Ex E)|done].
    + exists front, (back ++ [c]). split; [by rewrite <- app_assoc|]. split; [done|].
      intros x [Hx|Hx]%elem_of_app; [by apply Hk|]. apply elem_of_cons in Hx as [->|Hx]; [|by apply elem_of_nil in Hx].
      intros Hg. apply Hb in Hg. congruence.
  - subst. exists [], []. split; [done|]. split; [by intros x ?%elem_of_nil|by intros x ?%elem_of_nil].
Qed.

(** ** Sorting *)
Definition not_after {A} (cmp : A -> A -> comparison) (a b : A) : bool :=
  match cmp a b with Gt => false | _ => true end.
Lemma not_after_iff {A} (cmp : A -> A -> comparison) a b : not_after cmp a b = true <-> cmp a b <> Gt.
Proof. unfold not_after. by destruct (cmp a b). Qed.
(** The last of a sorted list is not smaller than any. *)
Lemma sort_last {A} (cmp : A -> A -> comparison) `{!Comparison cmp} (l : list A) (x : A) :
  last (sort_by (not_after cmp) l) = Some x ->
  sort_by (not_after cmp) l = removelast (sort_by (not_after cmp) l) ++ [x] /\
  Sorted (ordered (not_after cmp)) (removelast (sort_by (not_after cmp) l)) /\ forall y, y ∈ l -> cmp y x <> Gt.
Proof.
  intros H. assert (Ht : forall a b, not_after cmp a b = false -> not_after cmp b a = true).
  { intros a b. unfold not_after. rewrite (cmp_opp (cmp := cmp) a b). by destruct (cmp a b). }
  pose proof (sort_by_sorted (not_after cmp) l Ht) as Hs. pose proof (sort_by_perm (not_after cmp) l) as Hp.
  destruct (sort_by (not_after cmp) l) as [|z k _] using rev_ind; [done|]. rewrite last_snoc in H. injection H as ->.
  rewrite removelast_last. split; [done|].
  apply Sorted_StronglySorted in Hs.
  2: { intros a b c. unfold ordered. rewrite !not_after_iff. by apply cmp_le_trans. }
  apply StronglySorted_app in Hs as (Hx & Hk & _). split; [by apply StronglySorted_Sorted|].
  intros y Hy. rewrite <- Hp, elem_of_app in Hy. destruct Hy as [Hy| ->%list_elem_of_singleton].
  - apply not_after_iff. apply Hx; [done|apply list_elem_of_here].
  - by rewrite (cmp_refl cmp).
Qed.
