(* ===== verification/Version.v ===== *)
(** * Version: which release is newer (crates/tobii-update/src/version.rs)

    Parsing, printing and comparing versions. [newer_is_an_order]: [is_newer_than] is the
    strict part of a total preorder, so "the newest release" means something. *)
From S2P Require Import Prelude Text KeyVal Order.

Record Version := { major : Z; minor : Z; patch : Z; pre : text }.

(** ** Parsing and printing *)
(** [it.next().map_or(Some(0), |s| s.parse().ok())] *)
Definition number_or_zero (s : option text) : option Z :=
  match s with None => Some 0 | Some s => parse_uint 32 10 s end.

Definition parse (t : text) : option Version :=
  let t := trim t in
  let t := match strip_prefix [118] t with Some r => r | None => default t (strip_prefix [86] t) end in
  let t := match split_once (Z.eqb 43) t with Some (v, _) => v | None => t end in
  let '(nums, pre) := match split_once (Z.eqb 45) t with Some (n, p) => (n, p) | None => (t, []) end in
  match nums with
  | [] => None
  | _ =>
      let it := split_char 46 nums in
      s ← it !! 0%nat; major ← parse_uint 32 10 s;
      minor ← number_or_zero (it !! 1%nat);
      patch ← number_or_zero (it !! 2%nat);
      match it !! 3%nat with
      | Some _ => None
      | None => Some {| major := major; minor := minor; patch := patch; pre := pre |}
      end
  end.

(** [Display] *)
Definition show_version (v : Version) : text :=
  show_uint (major v) ++ 46 :: show_uint (minor v) ++ 46 :: show_uint (patch v) ++
  match pre v with [] => [] | p => 45 :: p end.

(** ** Comparing *)
(** The inner [split]: the stem, and the digits at the end as a number. *)
Definition split_number (s : text) : text * option Z :=
  let stem := trim_end_by is_ascii_digit s in
  (stem, parse_uint 64 10 (drop (length stem) s)).

Definition cmp_ident (a b : text) : comparison :=
  let '(a_stem, a_num) := split_number a in
  let '(b_stem, b_num) := split_number b in
  if negb (text_eqb a_stem b_stem) then
    match a_stem, b_stem with
    | [], _ :: _ => Lt
    | _ :: _, [] => Gt
    | _, _ => text_cmp a_stem b_stem
    end
  else match a_num, b_num with
       | Some x, Some y => x ?= y
       | None, Some _ => Lt
       | Some _, None => Gt
       | None, None => Eq
       end.

(** The loop over the identifiers of both tails. *)
Fixpoint cmp_idents (a b : list text) : comparison :=
  match a, b with
  | [], [] => Eq
  | [], _ :: _ => Lt
  | _ :: _, [] => Gt
  | x :: a, y :: b => match cmp_ident x y with Eq => cmp_idents a b | other => other end
  end.
Definition cmp_pre (a b : text) : comparison := cmp_idents (split_char 46 a) (split_char 46 b).

(** [mine > theirs], of tuples. *)
Definition triple_gt (a b : Version) : bool :=
  (major b <? major a) || (major a =? major b) &&
  ((minor b <? minor a) || (minor a =? minor b) && (patch b <? patch a)).
Definition same_numbers (a b : Version) : bool :=
  (major a =? major b) && (minor a =? minor b) && (patch a =? patch b).

Definition is_newer_than (self other : Version) : bool :=
  if negb (same_numbers self other) then triple_gt self other
  else match pre self, pre other with
       | [], _ :: _ => true
       | _ :: _, [] => false
       | p, q => match cmp_pre p q with Gt => true | _ => false end
       end.

Example rc10_beats_rc9 :
  (a ← parse (txt "v1.0.0-rc10"); b ← parse (txt "1.0.0-rc9"); Some (is_newer_than a b)) = Some true.
Proof. vm_compute. reflexivity. Qed.
Example release_beats_rc :
  (a ← parse (txt "1.2.0"); b ← parse (txt "1.2.0-rc1"); Some (is_newer_than a b, is_newer_than b a)) = Some (true, false).
Proof. vm_compute. reflexivity. Qed.
Example a_short_tag : parse (txt "v1") = parse (txt "1.0.0+build") /\ parse (txt "1.2.3.4") = None /\ parse (txt "-rc1") = None.
Proof. vm_compute. done. Qed.

(** ** The order behind [is_newer_than] *)
Definition numbers (v : Version) : list Z := [major v; minor v; patch v].
(** No tail at all is above every tail. *)
Definition tail_key (v : Version) : option unit * list text :=
  (match pre v with [] => Some tt | _ => None end, split_char 46 (pre v)).
Definition ident_order : text -> text -> comparison :=
  cmp_by split_number (cmp_both (cmp_by fst text_cmp) (cmp_by snd (cmp_option Z.compare))).
Definition version_order : Version -> Version -> comparison :=
  cmp_both (cmp_by numbers (cmp_list Z.compare))
    (cmp_by tail_key (cmp_both (cmp_by fst (cmp_option (fun _ _ => Eq))) (cmp_by snd (cmp_list ident_order)))).

#[export] Instance unit_comparison : Comparison (fun _ _ : unit => Eq).
Proof. split; done. Qed.
#[export] Instance ident_comparison : Comparison ident_order.
Proof. apply _. Qed.
#[export] Instance version_comparison : Comparison version_order.
Proof. apply _. Qed.

Lemma cmp_ident_order a b : cmp_ident a b = ident_order a b.
Proof.
  unfold cmp_ident, ident_order, cmp_by, cmp_both. destruct (split_number a) as [s m], (split_number b) as [t n].
  cbn [fst snd]. unfold text_eqb. case_bool_decide as E; cbn [negb].
  - subst. rewrite text_cmp_refl. by destruct m, n.
  - assert (text_cmp s t <> Eq) as Hn by (intros ?%text_cmp_eq; done).
    unfold then_cmp. destruct s as [|x s], t as [|y t]; [done|done|done|].
    by destruct (text_cmp (x :: s) (y :: t)).
Qed.
Lemma cmp_idents_order a b : cmp_idents a b = cmp_list ident_order a b.
Proof.
  revert b. induction a as [|x a IH]; intros [|y b]; cbn [cmp_idents cmp_list]; try done. unfold then_cmp.
  rewrite cmp_ident_order, IH. by destruct (ident_order x y).
Qed.

Lemma newer_order a b : is_newer_than a b = true <-> version_order a b = Gt.
Proof.
  unfold is_newer_than, version_order, same_numbers, triple_gt, cmp_by, cmp_both, numbers, tail_key.
  destruct a as [a1 a2 a3 p], b as [b1 b2 b3 q]. cbn [major minor patch pre cmp_list fst snd then_cmp].
  rewrite <- cmp_idents_order. fold (cmp_pre p q).
  destruct (Z.compare_spec a1 b1), (Z.compare_spec a2 b2), (Z.compare_spec a3 b3); cbn [then_cmp];
    try (rewrite (proj2 (Z.eqb_neq a1 b1)) by lia); try (rewrite (proj2 (Z.eqb_neq a2 b2)) by lia);
    try (rewrite (proj2 (Z.eqb_neq a3 b3)) by lia); subst; rewrite ?Z.eqb_refl; cbn [andb negb orb];
    rewrite ?andb_false_r; cbn [andb negb orb]; try (split; [lia|done]); try (split; [done|lia]).
  destruct p as [|c p], q as [|d q]; cbn [cmp_option then_cmp]; try done; by destruct (cmp_pre _ _).
Qed.

(** [is_newer_than] is the strict part of a total preorder on versions: first the three
    numbers, then no pre-release tail above any, then the tails identifier by identifier.
    So no version is newer than itself or than one newer than it, newer than newer is newer,
    and versions neither of which is newer can stand for each other. *)
Theorem newer_is_an_order :
  Comparison version_order /\
  (forall a b, is_newer_than a b = true <-> version_order a b = Gt) /\
  (forall a, is_newer_than a a = false) /\
  (forall a b, is_newer_than a b = true -> is_newer_than b a = false) /\
  (forall a b c, is_newer_than a b = true -> is_newer_than b c = true -> is_newer_than a c = true) /\
  (forall a b c, is_newer_than a b = false -> is_newer_than b a = false -> is_newer_than a c = is_newer_than b c).
Proof.
  assert (Hf : forall a b, is_newer_than a b = false <-> version_order a b <> Gt).
  { intros a b. rewrite <- newer_order. by destruct (is_newer_than a b). }
  split_and!.
  - apply _.
  - apply newer_order.
  - intros a. apply Hf. by rewrite (cmp_refl version_order).
  - intros a b. rewrite newer_order, Hf, (cmp_opp (cmp := version_order) a b). by intros ->.
  - intros a b c. rewrite !newer_order. apply cmp_gt_trans, _.
  - intros a b c. rewrite !Hf, (cmp_opp (cmp := version_order) a b). intros H1 H2.
    assert (version_order a b = Eq) as E by (by destruct (version_order a b)).
    pose proof (cmp_eq_left (cmp := version_order) a b c E) as Hc.
    destruct (is_newer_than a c) eqn:E1, (is_newer_than b c) eqn:E2; try done.
    + apply newer_order in E1. apply Hf in E2. congruence.
    + apply newer_order in E2. apply Hf in E1. congruence.
Qed.

(** ** Tags read back *)
Lemma digit_not c d : is_ascii_digit c = true -> is_ascii_digit d = false -> (d =? c) = false.
Proof. intros H1 H2. apply Z.eqb_neq. congruence. Qed.

Definition version_ok (v : Version) : Prop :=
  is_u 32 (major v) /\ is_u 32 (minor v) /\ is_u 32 (patch v) /\
  Forall (fun c => (43 =? c) = false) (pre v) /\ back_ok is_whitespace (pre v).

Lemma digits_apart (p : Z -> bool) s : all_digits s -> (forall c, is_ascii_digit c = true -> p c = false) ->
  Forall (fun c => p c = false) s.
Proof. intros H Hp. eapply Forall_impl; [exact H|]. exact Hp. Qed.

Lemma digit_range c : is_ascii_digit c = true -> 48 <= c <= 57.
Proof. unfold is_ascii_digit, between. lia. Qed.
Lemma digit_space c : is_ascii_digit c = true -> is_whitespace c = false.
Proof.
  intros H%digit_range. unfold is_whitespace, between. repeat (apply orb_false_iff; split); try apply andb_false_iff; lia.
Qed.
Lemma digit_other x c : ~ 48 <= x <= 57 -> is_ascii_digit c = true -> (x =? c) = false.
Proof. intros Hx H%digit_range. apply Z.eqb_neq. lia. Qed.

(** The three numbers, and the tail with its dash. *)
Definition shown_numbers (v : Version) : text := show_uint (major v) ++ 46 :: show_uint (minor v) ++ 46 :: show_uint (patch v).
Definition shown_tail (v : Version) : text := match pre v with [] => [] | p => 45 :: p end.
Lemma show_version_parts v : show_version v = shown_numbers v ++ shown_tail v.
Proof. unfold show_version, shown_numbers, shown_tail. by rewrite <- !app_assoc, <- app_comm_cons, <- app_assoc. Qed.

Section Shown.
Context (v : Version) (Hv : version_ok v).

Lemma shown_digits : all_digits (show_uint (major v)) /\ all_digits (show_uint (minor v)) /\ all_digits (show_uint (patch v)).
Proof. destruct Hv as ([? _] & [? _] & [? _] & _). by split_and!; apply show_uint_spec. Qed.
Lemma shown_numbers_chars (q : Z -> bool) :
  (forall c, is_ascii_digit c = true -> q c = false) -> q 46 = false -> Forall (fun c => q c = false) (shown_numbers v).
Proof.
  intros Hq H46. destruct shown_digits as (H1 & H2 & H3). apply Forall_app. split; [by apply digits_apart|].
  constructor; [done|]. apply Forall_app. split; [by apply digits_apart|]. constructor; [done|]. by apply digits_apart.
Qed.
Lemma shown_front : exists d r, shown_numbers v = d :: r /\ is_ascii_digit d = true.
Proof.
  destruct Hv as ([H _] & _). destruct (show_uint_front (major v) H) as (d & r & E & Hd).
  unfold shown_numbers. rewrite E. by eexists _, _.
Qed.
Lemma shown_back : back_ok is_whitespace (show_version v).
Proof.
  rewrite show_version_parts. unfold shown_tail. destruct Hv as (_ & _ & _ & _ & Hb). destruct (pre v) as [|x p].
  - rewrite app_nil_r. unfold back_ok.
    assert (Hr : Forall (fun c => is_whitespace c = false) (rev (shown_numbers v)))
      by (apply Forall_rev, shown_numbers_chars; [apply digit_space|done]).
    by destruct Hr.
  - apply back_ok_app; [done|]. by apply (back_ok_app _ [45]).
Qed.

(** The optional [v] is taken off. *)
Lemma strip_v t : t = show_version v \/ t = 118 :: show_version v ->
  match strip_prefix [118] (trim t) with Some r => r | None => default (trim t) (strip_prefix [86] (trim t)) end
  = show_version v.
Proof.
  intros Ht. pose proof shown_back as Hb. destruct shown_front as (d & r & Ed & Hd). apply digit_range in Hd as Hr.
  unfold trim. destruct Ht as [->| ->].
  - rewrite trim_id; [|rewrite show_version_parts, Ed; by apply digit_space|done].
    rewrite show_version_parts, Ed. cbn [strip_prefix app].
    rewrite (proj2 (Z.eqb_neq 118 d)), (proj2 (Z.eqb_neq 86 d)) by lia. done.
  - rewrite trim_id; [done|done|]. apply (back_ok_app _ [118]); [|done]. by rewrite show_version_parts, Ed.
Qed.

(** No build metadata, and the dash is where the tail starts. *)
Lemma split_shown :
  split_once (Z.eqb 43) (show_version v) = None /\
  match split_once (Z.eqb 45) (show_version v) with Some (n, p) => (n, p) | None => (show_version v, []) end
  = (shown_numbers v, pre v).
Proof.
  rewrite show_version_parts. unfold shown_tail. destruct Hv as (_ & _ & _ & Hp & _). split.
  - apply split_once_none, Forall_app. split; [apply shown_numbers_chars; [intros c; apply digit_other; lia|done]|].
    destruct (pre v); [done|by constructor].
  - assert (H : Forall (fun c => (45 =? c) = false) (shown_numbers v))
      by (apply shown_numbers_chars; [intros c; apply digit_other; lia|done]).
    destruct (pre v) as [|x p]; [by rewrite app_nil_r, split_once_none|by rewrite split_once_app].
Qed.

Lemma parse_shown t : t = show_version v \/ t = 118 :: show_version v -> parse t = Some v.
Proof.
  intros Ht. unfold parse. rewrite (strip_v t Ht). destruct split_shown as [-> ->].
  destruct shown_digits as (H1 & H2 & H3). destruct shown_front as (d & r & Ed & _). rewrite Ed, <- Ed.
  unfold shown_numbers, split_char.
  assert (Hd : forall s, all_digits s -> Forall (fun c => (46 =? c) = false) s)
    by (intros s Hs; apply digits_apart; [done|intros c; apply digit_other; lia]).
  rewrite !split_app, split_none by (done || by apply Hd).
  destruct Hv as (U1 & U2 & U3 & _). cbn [lookup list_lookup mbind option_bind number_or_zero].
  rewrite !parse_show_uint by done. by destruct v.
Qed.
End Shown.

(** A release's tag reads back: a version printed, with the [v] of a tag or without, is
    parsed as that version. *)
Theorem version_text_roundtrip (v : Version) :
  version_ok v -> parse (show_version v) = Some v /\ parse (118 :: show_version v) = Some v.
Proof. intros H. split; apply (parse_shown v H); auto. Qed.

Definition sample_version : Version := {| major := 1; minor := 20; patch := 2 ^ 32 - 1; pre := txt "rc10.a-b" |}.
Lemma version_text_roundtrip_witness :
  parse (txt "v1.20.4294967295-rc10.a-b") = Some sample_version /\ parse (118 :: show_version sample_version) = Some sample_version.
Proof.
  split; [vm_compute; reflexivity|]. apply (version_text_roundtrip sample_version).
  split_and!; try done. repeat constructor.
Defined.
