(* ===== verification/Json.v ===== *)
(** * Json: the reader of GitHub's replies (crates/tobii-update/src/json.rs)

    The parser as a state monad over the bytes not read yet, its errors with their byte
    offsets included. [json_parse_total]: on every text it answers, and never with a value
    nested deeper than the limit. [json_parse_complete]: every document of the RFC 8259
    grammar within the limits is read as the value it denotes. *)
From stdpp Require Import sorting.
From S2P Require Import Prelude F64 Floats Utf8 Text Decimal.

#[local] Set Warnings "-register-all".
Inductive Value :=
| Null
| Bool (b : bool)
| Number (x : f64)
| String (s : text)
| Array (l : list Value)
| Object (m : list (text * Value)).

(** ** Values *)
(** A [BTreeMap]: entries in the order of their keys. *)
Fixpoint btree_insert (k : text) (v : Value) (m : list (text * Value)) : list (text * Value) :=
  match m with
  | [] => [(k, v)]
  | (k', v') :: m' =>
      match text_cmp k k' with
      | Lt => (k, v) :: m
      | Eq => (k, v) :: m'
      | Gt => (k', v') :: btree_insert k v m'
      end
  end.
Definition get (v : Value) (key : text) : option Value :=
  match v with Object m => snd <$> find (fun kv => text_eqb kv.1 key) m | _ => None end.
(** [Value::str] *)
Definition get_str (v : Value) (key : text) : option text :=
  match get v key with Some (String s) => Some s | _ => None end.
Definition flag (v : Value) (key : text) : bool :=
  match get v key with Some (Bool true) => true | _ => false end.
Definition as_array (v : Value) : list Value := match v with Array l => l | _ => [] end.
Definition array (v : Value) (key : text) : list Value := match get v key with Some v => as_array v | None => [] end.

(** ** The parser *)
Record ParseError := { at_ : Z; what : text }.
Record Parser := { rest : bytes; i : Z; depth : Z }.
(** [None] is running out of fuel, which is not an answer. *)
Definition P (A : Type) : Type := M Parser (option ParseError) A.

Definition MAX_DEPTH : Z := 64.
Definition MAX_LEN : Z := 8 * 1024 * 1024.

Definition fail {A} (what : text) : P A := fun s => (Err (Some {| at_ := i s; what := what |}), s).
(** [self.b.get(self.i)] *)
Definition peek : P (option byte) := fun s => (Ok (head (rest s)), s).
(** [self.i += n] *)
Definition advance (n : nat) : P unit := fun s =>
  (Ok tt, {| rest := drop n (rest s); i := i s + Z.of_nat n; depth := depth s |}).
Definition get_depth : P Z := fun s => (Ok (depth s), s).
Definition set_depth (d : Z) : P unit := fun s => (Ok tt, {| rest := rest s; i := i s; depth := d |}).

Fixpoint span_bytes (p : byte -> bool) (l : bytes) : bytes :=
  match l with b :: l => if p b then b :: span_bytes p l else [] | [] => [] end.
(** [while self.b.get(self.i).is_some_and(p) { self.i += 1 }], and what it went over. *)
Definition take_while (p : byte -> bool) : P bytes := fun s =>
  let l := span_bytes p (rest s) in
  (Ok l, {| rest := drop (length l) (rest s); i := i s + zlen l; depth := depth s |}).

Definition is_ws (b : byte) : bool := (u8 b =? 32) || (u8 b =? 9) || (u8 b =? 10) || (u8 b =? 13).
Definition ws : P unit := _ ← take_while is_ws; mret tt.
Definition eat (c : Z) : P bool :=
  b ← peek;
  match b with
  | Some b => if u8 b =? c then _ ← advance 1; mret true else mret false
  | None => mret false
  end.
Definition lit (word : text) (v : Value) : P Value := fun s =>
  let w := utf8_encode word in
  if bool_decide (take (length w) (rest s) = w) then (_ ← advance (length w); mret v) s
  else fail (txt "unknown literal") s.

Definition push : P unit :=
  d ← get_depth; _ ← set_depth (d + 1);
  if MAX_DEPTH <? d + 1 then fail (txt "nested too deeply") else mret tt.
Definition pop : P unit := d ← get_depth; set_depth (d - 1).

(** [from_str_radix] accepts a leading plus. *)
Definition hex4 : P Z := fun s =>
  if zlen (rest s) <? 4 then fail (txt "short \u escape") s
  else match utf8_decode (take 4 (rest s)) with
       | None => fail (txt "bad \u") s
       | Some t => match parse_uint 32 16 t with
                   | None => fail (txt "bad \u") s
                   | Some v => (_ ← advance 4; mret v) s
                   end
       end.
Definition or_fail (c : option char) (what : text) : P char :=
  match c with Some c => mret c | None => fail what end.
Definition unicode_escape : P char :=
  hi ← hex4;
  if negb ((0xd800 <=? hi) && (hi <? 0xdc00)) then or_fail (char_from_u32 hi) (txt "invalid code point")
  else fun s =>
    if bool_decide (take 2 (rest s) = [x5c; x75]) then
      (_ ← advance 2;
       lo ← hex4;
       if negb ((0xdc00 <=? lo) && (lo <? 0xe000)) then fail (txt "bad surrogate pair")
       else or_fail (char_from_u32 (0x10000 + Z.shiftl (hi - 0xd800) 10 + (lo - 0xdc00))) (txt "invalid code point")) s
    else fail (txt "lone surrogate") s.

(** The escapes of one character. *)
Definition escapes : list (Z * Z) := [(34, 34); (92, 92); (47, 47); (98, 8); (102, 12); (110, 10); (114, 13); (116, 9)].
Definition read_escape : P char :=
  e ← peek;
  match e with
  | None => fail (txt "unterminated escape")
  | Some e =>
      _ ← advance 1;
      if u8 e =? 117 then unicode_escape
      else match find (fun ec => ec.1 =? u8 e) escapes with
           | Some ec => mret ec.2
           | None => fail (txt "unknown escape")
           end
  end.
Definition is_cont (b : byte) : bool := Z.land (u8 b) 0xc0 =? 0x80.
(** One turn's text, the closing quote aside. *)
Definition read_char (c : byte) : P text :=
  if u8 c =? 92 then (e ← read_escape; mret [e])
  else l ← take_while is_cont;
       match utf8_decode (c :: l) with
       | Some part => mret part
       | None => fail (txt "invalid utf-8")
       end.
Fixpoint string_loop (fuel : nat) (acc : text) : P text :=
  match fuel with
  | O => fun s => (Err None, s)
  | S fuel =>
      c ← peek;
      match c with
      | None => fail (txt "unterminated string")
      | Some c =>
          _ ← advance 1;
          if u8 c =? 34 then mret acc
          else part ← read_char c; string_loop fuel (acc ++ part)
      end
  end.
Definition string : P text :=
  _ ← advance 1; ((fun s => string_loop (S (length (rest s))) [] s) : P text).

Definition is_number_byte (b : byte) : bool :=
  is_ascii_digit (u8 b) || (u8 b =? 46) || (u8 b =? 101) || (u8 b =? 69) || (u8 b =? 43) || (u8 b =? 45).
Definition number : P Value := fun s =>
  (neg ← eat 45;
   l ← take_while is_number_byte;
   let l := (if neg : bool then [x2d] else []) ++ l in
   match l with
   | [] => fail (txt "expected a value")
   | _ => match parse_f64 (byte.unsigned <$> l) with
          | Some x => mret (Number x)
          | None => fun s' => (Err (Some {| at_ := i s; what := txt "malformed number" |}), s')
          end
   end) s.

(** [value] and the loops of [object] and [array], sharing their fuel. *)
Fixpoint value (fuel : nat) : P Value :=
  match fuel with
  | O => fun s => (Err None, s)
  | S fuel =>
      c ← peek;
      match c with
      | None => fail (txt "unexpected end")
      | Some c =>
          if u8 c =? 123 then
            _ ← push; _ ← advance 1; _ ← ws; e ← eat 125;
            if e : bool then _ ← pop; mret (Object []) else object_loop fuel []
          else if u8 c =? 91 then
            _ ← push; _ ← advance 1; _ ← ws; e ← eat 93;
            if e : bool then _ ← pop; mret (Array []) else array_loop fuel []
          else if u8 c =? 34 then (s ← string; mret (String s))
          else if u8 c =? 116 then lit (txt "true") (Bool true)
          else if u8 c =? 102 then lit (txt "false") (Bool false)
          else if u8 c =? 110 then lit (txt "null") Null
          else number
      end
  end
with object_loop (fuel : nat) (map : list (text * Value)) : P Value :=
  match fuel with
  | O => fun s => (Err None, s)
  | S fuel =>
      _ ← ws;
      q ← peek;
      if match q with Some q => u8 q =? 34 | None => false end then
        key ← string; _ ← ws; e ← eat 58;
        if e : bool then
          _ ← ws; v ← value fuel;
          let map := btree_insert key v map in
          _ ← ws; e ← eat 44;
          if e : bool then object_loop fuel map
          else e ← eat 125;
               if e : bool then _ ← pop; mret (Object map) else fail (txt "expected ',' or '}'")
        else fail (txt "expected ':'")
      else fail (txt "expected a key")
  end
with array_loop (fuel : nat) (out : list Value) : P Value :=
  match fuel with
  | O => fun s => (Err None, s)
  | S fuel =>
      _ ← ws; v ← value fuel;
      let out := out ++ [v] in
      _ ← ws; e ← eat 44;
      if e : bool then array_loop fuel out
      else e ← eat 93;
           if e : bool then _ ← pop; mret (Array out) else fail (txt "expected ',' or ']'")
  end.

(** Two units of fuel to a byte, and one over (see [json_parse_total]). *)
Definition parse (s : text) : result (option ParseError) Value :=
  let b := utf8_encode s in
  if MAX_LEN <? zlen b then Err (Some {| at_ := 0; what := txt "the document is too large to parse" |})
  else ((_ ← ws; v ← value (2 * length b + 1); _ ← ws; e ← peek;
         match e with None => mret v | Some _ => fail (txt "trailing data") end)
        {| rest := b; i := 0; depth := 0 |}).1.

(** Single quotes stand for double ones. *)
Definition quoted_txt (s : text) : text := (fun c => if c =? 39 then 34 else c) <$> s.
Example parse_reply :
  parse (quoted_txt (txt " {'a' : [1, -2.5e1, null], 'b': 'x\ud83d\ude80\n', 'a': true}"))
  = Ok (Object [(txt "a", Bool true); (txt "b", String (120 :: 0x1f680 :: [10]))]).
Proof. vm_compute. reflexivity. Qed.

(** ** Every document gets an answer *)
(** What holds of a step: it does not run out of fuel, and when it succeeds, [Q]. *)
Definition ok_with {A} (Q : A -> Parser -> Prop) (r : result (option ParseError) A * Parser) : Prop :=
  match r with (Ok a, s) => Q a s | (Err None, _) => False | (Err (Some _), _) => True end.

Lemma ok_with_bind {A B} (Q : A -> Parser -> Prop) (R : B -> Parser -> Prop) (m : P A) (k : A -> P B) s :
  ok_with Q (m s) -> (forall a s', Q a s' -> ok_with R (k a s')) -> ok_with R ((m ≫= k) s).
Proof.
  unfold mbind, P, M_bind. destruct (m s) as [[a|[e|]] s']; simpl; [|done|done]. intros H Hk. by apply Hk.
Qed.
Lemma ok_with_weaken {A} (Q R : A -> Parser -> Prop) r :
  ok_with Q r -> (forall a s, Q a s -> R a s) -> ok_with R r.
Proof. destruct r as [[a|[e|]] s]; simpl; auto. Qed.
Lemma ok_with_fail {A} (Q : A -> Parser -> Prop) w s : ok_with Q (fail w s).
Proof. done. Qed.

(** No more bytes left than before, the depth as it was. *)
Definition left_of (s : Parser) (n : nat) (s' : Parser) : Prop :=
  (length (rest s') + n <= length (rest s))%nat /\ depth s' = depth s.

Lemma peek_ok s : ok_with (fun c s' => s' = s /\ c = head (rest s)) (peek s).
Proof. done. Qed.
Lemma advance_ok n s : ok_with (fun _ s' => rest s' = drop n (rest s) /\ depth s' = depth s) (advance n s).
Proof. done. Qed.
Lemma advance1_ok b l s : rest s = b :: l -> ok_with (fun _ s' => rest s' = l /\ depth s' = depth s) (advance 1 s).
Proof. intros E. unfold advance, ok_with. cbn [rest depth]. by rewrite E. Qed.
Lemma span_length p l : (length (span_bytes p l) <= length l)%nat.
Proof. induction l as [|b l IH]; simpl; [lia|]. destruct (p b); simpl; lia. Qed.
Lemma take_while_ok p s : ok_with (fun _ s' => left_of s 0 s') (take_while p s).
Proof. unfold left_of. simpl. rewrite length_drop. split; [lia|done]. Qed.
Lemma ws_ok s : ok_with (fun _ s' => left_of s 0 s') (ws s).
Proof. apply take_while_ok. Qed.
Lemma eat_ok c s : ok_with (fun e s' => left_of s (if e : bool then 1 else 0) s') (eat c s).
Proof.
  unfold eat. eapply ok_with_bind; [apply peek_ok|]. intros b s' [-> ->]. unfold left_of.
  destruct (rest s) as [|b l] eqn:E; simpl; [rewrite E; simpl; split; [lia|done]|].
  destruct (u8 b =? c); simpl; rewrite E; simpl; rewrite ?drop_0; split; (lia || done).
Qed.
Lemma lit_ok w v s : utf8_encode w <> [] -> ok_with (fun v' s' => left_of s 1 s' /\ v' = v) (lit w v s).
Proof.
  intros Hw. unfold lit. case_bool_decide as E; [|done]. split; [|done]. split; [|done].
  cbn [rest]. rewrite length_drop. apply (f_equal length) in E. rewrite length_take in E.
  assert (length (utf8_encode w) <> 0%nat) by (by destruct (utf8_encode w)). lia.
Qed.

Lemma hex4_ok s : ok_with (fun _ s' => left_of s 4 s') (hex4 s).
Proof.
  unfold hex4. destruct (Z.ltb_spec (zlen (rest s)) 4); [done|]. destruct (utf8_decode _) as [t|]; [|done].
  destruct (parse_uint 32 16 t); [|done]. simpl. unfold left_of. simpl. rewrite length_drop. unfold zlen in *.
  split; [lia|done].
Qed.
Lemma or_fail_ok c w s : ok_with (fun _ s' => s' = s) (or_fail c w s).
Proof. by destruct c. Qed.
Lemma unicode_escape_ok s : ok_with (fun _ s' => left_of s 0 s') (unicode_escape s).
Proof.
  unfold unicode_escape. eapply ok_with_bind; [apply hex4_ok|]. intros hi s1 [H1 D1].
  destruct (negb _); [eapply ok_with_weaken; [apply or_fail_ok|]; intros ? ? ->; split; [lia|done]|].
  case_bool_decide; [|done].
  eapply ok_with_bind; [apply advance_ok|]. intros [] s2 [H2 D2].
  eapply ok_with_bind; [apply hex4_ok|]. intros lo s3 [H3 D3].
  destruct (negb _); [done|]. eapply ok_with_weaken; [apply or_fail_ok|]. intros ? ? ->. unfold left_of.
  rewrite H2, length_drop in H3. split; [lia|congruence].
Qed.
Lemma read_char_ok c s : ok_with (fun _ s' => left_of s 0 s') (read_char c s).
Proof.
  unfold read_char. destruct (u8 c =? 92).
  - eapply (ok_with_bind (fun _ s' => left_of s 0 s')); [|done].
    unfold read_escape. eapply ok_with_bind; [apply peek_ok|]. intros e s' [-> ->].
    destruct (rest s) as [|e l] eqn:E; [done|]. simpl head. cbv iota.
    eapply ok_with_bind; [apply (advance1_ok _ _ _ E)|]. intros [] s1 [H1 D1].
    assert (H : left_of s 1 s1) by (unfold left_of; rewrite H1, E; simpl; split; [lia|done]).
    destruct (u8 e =? 117).
    + eapply ok_with_weaken; [apply unicode_escape_ok|]. intros ? s2 [? ?]. destruct H. split; [lia|congruence].
    + destruct (find _ _); [|done]. destruct H. simpl. split; [lia|done].
  - eapply ok_with_bind; [apply take_while_ok|]. intros l s' H. by destruct (utf8_decode _).
Qed.
Lemma string_loop_ok fuel acc s : (length (rest s) < fuel)%nat ->
  ok_with (fun _ s' => left_of s 0 s') (string_loop fuel acc s).
Proof.
  revert acc s. induction fuel as [|fuel IH]; intros acc s Hf; [lia|]. cbn [string_loop].
  eapply ok_with_bind; [apply peek_ok|]. intros c s' [-> ->].
  destruct (rest s) as [|c l] eqn:E; [done|]. simpl head. cbv iota.
  eapply ok_with_bind; [apply (advance1_ok _ _ _ E)|]. intros [] s1 [H1 D1]. simpl in Hf.
  destruct (u8 c =? 34); [unfold left_of; simpl; rewrite H1, E; simpl; split; [lia|done]|].
  eapply ok_with_bind; [apply read_char_ok|]. intros part s2 [H2 D2]. rewrite H1 in H2.
  eapply ok_with_weaken; [apply IH; lia|]. intros ? s3 [H3 D3]. unfold left_of. rewrite E. simpl. split; [lia|congruence].
Qed.
Lemma string_ok s : head (rest s) <> None -> ok_with (fun _ s' => left_of s 1 s') (string s).
Proof.
  intros Hn. unfold string. eapply ok_with_bind; [apply advance_ok|]. intros [] s1 [H1 D1].
  eapply ok_with_weaken; [apply string_loop_ok; lia|]. intros ? s2 [H2 D2]. unfold left_of.
  rewrite H1, length_drop in H2. destruct (rest s); [done|]. simpl in *. split; [lia|congruence].
Qed.
Lemma number_ok s : ok_with (fun v s' => left_of s 1 s' /\ exists x, v = Number x) (number s).
Proof.
  unfold number. eapply ok_with_bind; [apply eat_ok|]. intros neg s1 [H1 D1].
  eapply (ok_with_bind (fun l s' => rest s' = drop (length l) (rest s1) /\ depth s' = depth s1 /\ (length l <= length (rest s1))%nat));
    [simpl; split_and!; [done|done|apply span_length]|].
  intros l s2 (H2 & D2 & L2).
  destruct (_ ++ l) as [|b r] eqn:E; [done|]. destruct (parse_f64 _) as [x|]; [|done]. simpl.
  split; [|by eexists]. unfold left_of. rewrite H2, length_drop. apply (f_equal length) in E.
  rewrite length_app in E. split; [destruct neg; cbn [length] in E; lia|congruence].
Qed.

(** How deep a value nests. *)
Fixpoint nesting (v : Value) : Z :=
  match v with
  | Array l => 1 + foldr (fun v n => Z.max (nesting v) n) 0 l
  | Object m => 1 + foldr (fun kv n => Z.max (nesting kv.2) n) 0 m
  | _ => 0
  end.
Definition fits (d : Z) (l : list Value) : Prop := Forall (fun v => d + nesting v <= MAX_DEPTH) l.

Lemma array_nesting d l : d <= MAX_DEPTH -> fits d l -> d - 1 + nesting (Array l) <= MAX_DEPTH.
Proof. intros Hd H. cbn [nesting]. induction H; cbn [foldr]; lia. Qed.
Lemma object_nesting d m : d <= MAX_DEPTH -> fits d (snd <$> m) -> d - 1 + nesting (Object m) <= MAX_DEPTH.
Proof. intros Hd. cbn [nesting]. induction m as [|kv m IH]; cbn [foldr]; [lia|]. inversion 1. subst. specialize (IH ltac:(done)). lia. Qed.
Lemma insert_fits d k v m : d + nesting v <= MAX_DEPTH -> fits d (snd <$> m) -> fits d (snd <$> btree_insert k v m).
Proof.
  intros Hv. induction m as [|[k' v'] m IH]; cbn; [by repeat constructor|].
  inversion 1. subst. destruct (text_cmp k k'); cbn; repeat constructor; try done. by apply IH.
Qed.

(** The end of a container. *)
Lemma pop_ok s : ok_with (fun _ s' => rest s' = rest s /\ depth s' = depth s - 1) (pop s).
Proof. done. Qed.
Lemma close_ok c (v : Value) w s : depth s - 1 + nesting v <= MAX_DEPTH ->
  ok_with (fun v s' => left_of s 1 {| rest := rest s'; i := 0; depth := depth s' + 1 |} /\ depth s' + nesting v <= MAX_DEPTH)
    ((e ← eat c; if e : bool then _ ← pop; mret v else fail w) s).
Proof.
  intros Hv. eapply ok_with_bind; [apply eat_ok|]. intros [] s1 [H1 D1]; [|done]. simpl. unfold left_of. cbn [rest depth].
  split; [split; [done|lia]|lia].
Qed.

Definition value_post (s : Parser) (v : Value) (s' : Parser) : Prop :=
  left_of s 1 s' /\ depth s + nesting v <= MAX_DEPTH.
(** A loop ends with its container closed. *)
Definition loop_post (s : Parser) (v : Value) (s' : Parser) : Prop :=
  (length (rest s') < length (rest s))%nat /\ depth s' = depth s - 1 /\ depth s' + nesting v <= MAX_DEPTH.

Lemma scalar_ok {A} (s : Parser) (m : P A) (f : A -> Value) :
  depth s <= MAX_DEPTH -> (forall a, nesting (f a) = 0) -> ok_with (fun _ s' => left_of s 1 s') (m s) ->
  ok_with (value_post s) ((a ← m; mret (f a)) s).
Proof.
  intros Hd Hn Hm. eapply ok_with_bind; [exact Hm|]. intros a s' H. simpl. split; [exact H|]. rewrite Hn. lia.
Qed.

(** Entering a container: closed at once, or its loop. *)
Lemma open_ok s b l c (v0 : Value) (loop : P Value) :
  rest s = b :: l -> depth s <= MAX_DEPTH -> nesting v0 = 1 ->
  (forall s1, (length (rest s1) <= length l)%nat -> depth s1 = depth s + 1 -> depth s1 <= MAX_DEPTH ->
     ok_with (loop_post s1) (loop s1)) ->
  ok_with (value_post s) ((_ ← push; _ ← advance 1; _ ← ws; e ← eat c; if e : bool then _ ← pop; mret v0 else loop) s).
Proof.
  intros E Hd H0 Hl.
  eapply (ok_with_bind (fun _ s' => rest s' = rest s /\ depth s' = depth s + 1 /\ depth s' <= MAX_DEPTH)).
  { unfold push. eapply (ok_with_bind (fun d s' => d = depth s /\ s' = s)); [done|]. intros d s' [-> ->].
    eapply (ok_with_bind (fun _ s' => rest s' = rest s /\ depth s' = depth s + 1)); [done|]. intros [] s' [H1 H2].
    destruct (Z.ltb_spec MAX_DEPTH (depth s + 1)); [done|]. split_and!; (done || lia). }
  intros [] s1 (R1 & D1 & M1). rewrite E in R1.
  eapply ok_with_bind; [apply (advance1_ok _ _ _ R1)|]. intros [] s2 [R2 D2].
  eapply ok_with_bind; [apply ws_ok|]. intros [] s3 [L3 D3]. rewrite R2 in L3.
  eapply ok_with_bind; [apply eat_ok|]. intros [] s4 [L4 D4].
  - simpl. unfold value_post, left_of. cbn [rest depth]. rewrite E. cbn [length]. split; [split; lia|lia].
  - eapply ok_with_weaken; [apply Hl; lia|]. intros v s5 (L5 & D5 & N5). unfold value_post, left_of. rewrite E. cbn [length].
    split; [split; lia|lia].
Qed.

Lemma enough_fuel fuel :
  (forall s, (2 * length (rest s) + 1 <= fuel)%nat -> depth s <= MAX_DEPTH -> ok_with (value_post s) (value fuel s)) /\
  (forall s m, (2 * length (rest s) + 2 <= fuel)%nat -> depth s <= MAX_DEPTH -> fits (depth s) (snd <$> m) ->
     ok_with (loop_post s) (object_loop fuel m s)) /\
  (forall s l, (2 * length (rest s) + 2 <= fuel)%nat -> depth s <= MAX_DEPTH -> fits (depth s) l ->
     ok_with (loop_post s) (array_loop fuel l s)).
Proof.
  induction fuel as [|fuel (IHv & IHo & IHa)]; [split_and!; intros; lia|]. split_and!.
  - intros s Hf Hd. cbn [value]. eapply ok_with_bind; [apply peek_ok|]. intros c s' [-> ->].
    destruct (rest s) as [|c l] eqn:E; [done|]. cbn [length head] in *.
    destruct (u8 c =? 123); [|destruct (u8 c =? 91); [|destruct (u8 c =? 34)]].
    + apply (open_ok s c l 125 (Object []) _ E Hd eq_refl). intros. apply IHo; [lia|done|constructor].
    + apply (open_ok s c l 93 (Array []) _ E Hd eq_refl). intros. apply IHa; [lia|done|constructor].
    + apply scalar_ok; [done|done|]. apply string_ok. by rewrite E.
    + assert (Hlit : forall w v, utf8_encode w <> [] -> nesting v = 0 -> ok_with (value_post s) (lit w v s)).
      { intros w v Hw Hv. eapply ok_with_weaken; [by apply lit_ok|]. intros ? s' [H ->]. split; [done|lia]. }
      destruct (u8 c =? 116), (u8 c =? 102), (u8 c =? 110); try (by apply Hlit).
      eapply ok_with_weaken; [apply number_ok|]. intros ? s' [H [x ->]]. split; [done|]. cbn [nesting]. lia.
  - intros s m Hf Hd Hm. cbn [object_loop].
    eapply ok_with_bind; [apply ws_ok|]. intros [] s1 [L1 D1].
    eapply ok_with_bind; [apply peek_ok|]. intros q s' [-> ->].
    destruct (head (rest s1)) as [q|] eqn:Eq; [|done]. destruct (u8 q =? 34); [|done].
    eapply ok_with_bind; [apply string_ok; by rewrite Eq|]. intros key s2 [L2 D2].
    eapply ok_with_bind; [apply ws_ok|]. intros [] s3 [L3 D3].
    eapply ok_with_bind; [apply eat_ok|]. intros [] s4 [L4 D4]; [|done].
    eapply ok_with_bind; [apply ws_ok|]. intros [] s5 [L5 D5].
    eapply ok_with_bind; [apply IHv; lia|]. intros v s6 [[L6 D6] N6].
    assert (Hv : fits (depth s) (snd <$> btree_insert key v m)) by (apply insert_fits; [lia|done]).
    eapply ok_with_bind; [apply ws_ok|]. intros [] s7 [L7 D7].
    eapply ok_with_bind; [apply eat_ok|]. intros [] s8 [L8 D8].
    + eapply ok_with_weaken; [apply IHo; [lia|lia|]|].
      * by replace (depth s8) with (depth s) by lia.
      * intros v' s9 (L9 & D9 & N9). unfold loop_post. lia.
    + eapply ok_with_weaken; [apply close_ok; replace (depth s8) with (depth s) by lia; by apply object_nesting|].
      intros v' s9 [[L9 D9] N9]. cbn [rest depth] in *. unfold loop_post. lia.
  - intros s l Hf Hd Hl. cbn [array_loop].
    eapply ok_with_bind; [apply ws_ok|]. intros [] s1 [L1 D1].
    eapply ok_with_bind; [apply IHv; lia|]. intros v s2 [[L2 D2] N2].
    assert (Hv : fits (depth s) (l ++ [v])) by (apply Forall_app; split; [done|]; constructor; [lia|constructor]).
    eapply ok_with_bind; [apply ws_ok|]. intros [] s3 [L3 D3].
    eapply ok_with_bind; [apply eat_ok|]. intros [] s4 [L4 D4].
    + eapply ok_with_weaken; [apply IHa; [lia|lia|]|].
      * by replace (depth s4) with (depth s) by lia.
      * intros v' s5 (L5 & D5 & N5). unfold loop_post. lia.
    + eapply ok_with_weaken; [apply close_ok; replace (depth s4) with (depth s) by lia; by apply array_nesting|].
      intros v' s5 [[L5 D5] N5]. cbn [rest depth] in *. unfold loop_post. lia.
Qed.

Lemma document_ok (b : bytes) :
  ok_with (fun v _ => nesting v <= MAX_DEPTH)
    ((_ ← ws; v ← value (2 * length b + 1); _ ← ws; e ← peek;
      match e with None => mret v | Some _ => fail (txt "trailing data") end) {| rest := b; i := 0; depth := 0 |}).
Proof.
  eapply ok_with_bind; [apply ws_ok|]. intros [] s1 [L1 D1]. cbn [rest depth] in L1, D1.
  eapply ok_with_bind; [apply enough_fuel; [lia|rewrite D1; done]|]. intros v s2 [_ N2]. rewrite D1 in N2.
  eapply ok_with_bind; [apply ws_ok|]. intros [] s3 _.
  eapply ok_with_bind; [apply peek_ok|]. intros e s4 _. by destruct e.
Qed.
Lemma parse_answers (s : text) : parse s <> Err None.
Proof.
  unfold parse. destruct (MAX_LEN <? _); [done|]. pose proof (document_ok (utf8_encode s)) as H.
  match type of H with ok_with _ ?r => by destruct r as [[v|[e|]] s'] end.
Qed.

(** The parser answers every document, with a value or with an error and where it is: its
    fuel never runs out. And it never returns a value nested deeper than the limit, so the
    recursion of the code is bounded whatever the reply holds. *)
Theorem json_parse_total (s : text) :
  match parse s with
  | Ok v => nesting v <= MAX_DEPTH
  | Err e => e <> None
  end.
Proof.
  pose proof (parse_answers s) as Ha. unfold parse in *. destruct (MAX_LEN <? _); [done|].
  pose proof (document_ok (utf8_encode s)) as H.
  match type of H with ok_with _ ?r => by destruct r as [[v|[e|]] s'] end.
Qed.

(** ** The grammar of RFC 8259
    From the tables of its ABNF, not the code's. *)
Definition spaces (w : bytes) : Prop := Forall (fun b => b = x20 \/ b = x09 \/ b = x0a \/ b = x0d) w.

(** Four hexadecimal digits, in either case. *)
Definition hexdig (b : byte) (v : Z) : Prop :=
  0x30 <= u8 b <= 0x39 /\ v = u8 b - 0x30 \/ 0x41 <= u8 b <= 0x46 /\ v = u8 b - 0x41 + 10 \/ 0x61 <= u8 b <= 0x66 /\ v = u8 b - 0x61 + 10.
Definition hexes (h : bytes) (v : Z) : Prop :=
  exists b1 b2 b3 b4 v1 v2 v3 v4, h = [b1; b2; b3; b4] /\ hexdig b1 v1 /\ hexdig b2 v2 /\ hexdig b3 v3 /\ hexdig b4 v4 /\
    v = v1 * 4096 + v2 * 256 + v3 * 16 + v4.

(** The ways to write one character of a string. *)
Inductive spell : bytes -> char -> Prop :=
| spell_raw c : is_char c = true -> c <> 34 -> c <> 92 -> spell (encode_char c) c
| spell_quote : spell [x5c; x22] 0x22
| spell_backslash : spell [x5c; x5c] 0x5c
| spell_slash : spell [x5c; x2f] 0x2f
| spell_backspace : spell [x5c; x62] 0x08
| spell_form_feed : spell [x5c; x66] 0x0c
| spell_line_feed : spell [x5c; x6e] 0x0a
| spell_return : spell [x5c; x72] 0x0d
| spell_tab : spell [x5c; x74] 0x09
| spell_unit h c : hexes h c -> is_char c = true -> spell (x5c :: x75 :: h) c
| spell_pair h l hi lo : hexes h hi -> hexes l lo -> 0xd800 <= hi < 0xdc00 -> 0xdc00 <= lo < 0xe000 ->
    spell (x5c :: x75 :: h ++ x5c :: x75 :: l) (0x10000 + (hi - 0xd800) * 1024 + (lo - 0xdc00)).
Inductive body : bytes -> text -> Prop :=
| body_nil : body [] []
| body_cons e c t s : spell e c -> body t s -> body (e ++ t) (c :: s).

(** A minus sign or none, digits, a fraction or none, an exponent or none. *)
Definition digits (l : text) : Prop := l <> [] /\ all_digits l.
Definition fraction (l : text) : Prop := l = [] \/ exists ds, l = 46 :: ds /\ digits ds.
Definition exponent (l : text) : Prop :=
  l = [] \/ exists e sg ds, l = e :: sg ++ ds /\ (e = 101 \/ e = 69) /\ (sg = [] \/ sg = [43] \/ sg = [45]) /\ digits ds.
Definition rfc_number (l : text) : Prop :=
  exists sg ip fp ex, l = sg ++ ip ++ fp ++ ex /\ (sg = [] \/ sg = [45]) /\ digits ip /\ fraction fp /\ exponent ex.

(** An object's entries, ordered by name; of those under one name, the last. *)
Definition by_name (a b : text * Value) : Prop := text_cmp a.1 b.1 = Lt.
Definition keeps_last (kvs m : list (text * Value)) : Prop :=
  StronglySorted by_name m /\ forall k v, (k, v) ∈ m <-> exists before after, kvs = before ++ (k, v) :: after /\ ~ k ∈ after.*1.

(** [json r t v]: the text [t] denotes [v] and opens no more than [r] containers at once. *)
Inductive json : nat -> bytes -> Value -> Prop :=
| j_null r : json r (utf8_encode (txt "null")) Null
| j_true r : json r (utf8_encode (txt "true")) (Bool true)
| j_false r : json r (utf8_encode (txt "false")) (Bool false)
| j_number r t x : rfc_number (byte.unsigned <$> t) -> parse_f64 (byte.unsigned <$> t) = Some x -> json r t (Number x)
| j_string r t s : body t s -> json r (x22 :: t ++ [x22]) (String s)
| j_empty_array r w : spaces w -> json (S r) (x5b :: w ++ [x5d]) (Array [])
| j_array r w t vs : spaces w -> elements r t vs -> json (S r) (x5b :: w ++ t ++ [x5d]) (Array vs)
| j_empty_object r w : spaces w -> json (S r) (x7b :: w ++ [x7d]) (Object [])
| j_object r w t kvs m : spaces w -> members r t kvs -> keeps_last kvs m -> json (S r) (x7b :: w ++ t ++ [x7d]) (Object m)
with elements : nat -> bytes -> list Value -> Prop :=
| e_one r t v w : json r t v -> spaces w -> elements r (t ++ w) [v]
| e_more r t v w w' ts vs : json r t v -> spaces w -> spaces w' -> elements r ts vs ->
    elements r (t ++ w ++ x2c :: w' ++ ts) (v :: vs)
with members : nat -> bytes -> list (text * Value) -> Prop :=
| m_one r kt k w1 w2 t v w : body kt k -> spaces w1 -> spaces w2 -> json r t v -> spaces w ->
    members r (x22 :: kt ++ x22 :: w1 ++ x3a :: w2 ++ t ++ w) [(k, v)]
| m_more r kt k w1 w2 t v w w' ts kvs : body kt k -> spaces w1 -> spaces w2 -> json r t v -> spaces w -> spaces w' ->
    members r ts kvs ->
    members r (x22 :: kt ++ x22 :: w1 ++ x3a :: w2 ++ t ++ w ++ x2c :: w' ++ ts) ((k, v) :: kvs).

Scheme json_mut := Minimality for json Sort Prop
with elements_mut := Minimality for elements Sort Prop
with members_mut := Minimality for members Sort Prop.
Combined Scheme json_grammar_ind from json_mut, elements_mut, members_mut.

(** The grammar also lets an escape stand for half of a surrogate pair, the other half not
    beside it: that is no character. [lone l]: [l] begins with one. *)
Definition lone (l : bytes) : Prop := exists h v k, l = x5c :: x75 :: h ++ k /\ hexes h v /\ 0xd800 <= v < 0xe000 /\
  (v < 0xdc00 -> ~ exists h' v' k', k = x5c :: x75 :: h' ++ k' /\ hexes h' v' /\ 0xdc00 <= v' < 0xe000).
(** A text of the grammar up to a lone surrogate in one of its strings, and anything after it. *)
Inductive lone_json : nat -> bytes -> Prop :=
| lone_string r t s l : body t s -> lone l -> lone_json r (x22 :: t ++ l)
| lone_array r w t : spaces w -> lone_elements r t -> lone_json (S r) (x5b :: w ++ t)
| lone_object r w t : spaces w -> lone_members r t -> lone_json (S r) (x7b :: w ++ t)
with lone_elements : nat -> bytes -> Prop :=
| lone_here r t : lone_json r t -> lone_elements r t
| lone_later r t v w w' ts : json r t v -> spaces w -> spaces w' -> lone_elements r ts -> lone_elements r (t ++ w ++ x2c :: w' ++ ts)
with lone_members : nat -> bytes -> Prop :=
| lone_key r kt k l : body kt k -> lone l -> lone_members r (x22 :: kt ++ l)
| lone_under r kt k w1 w2 t : body kt k -> spaces w1 -> spaces w2 -> lone_json r t -> lone_members r (x22 :: kt ++ x22 :: w1 ++ x3a :: w2 ++ t)
| lone_after r kt k w1 w2 t v w w' ts : body kt k -> spaces w1 -> spaces w2 -> json r t v -> spaces w -> spaces w' -> lone_members r ts ->
    lone_members r (x22 :: kt ++ x22 :: w1 ++ x3a :: w2 ++ t ++ w ++ x2c :: w' ++ ts).
Scheme lone_json_mut := Minimality for lone_json Sort Prop
with lone_elements_mut := Minimality for lone_elements Sort Prop
with lone_members_mut := Minimality for lone_members Sort Prop.
Combined Scheme lone_grammar_ind from lone_json_mut, lone_elements_mut, lone_members_mut.

(** ** Steps on a known front *)
Abbreviation st r n d := {| rest := r; i := n; depth := d |} (only parsing).
Definition apart (p : byte -> bool) (k : bytes) : Prop := match k with [] => True | b :: _ => p b = false end.

Lemma bind_ok {A B} (m : P A) (k : A -> P B) s a s' : m s = (Ok a, s') -> (m ≫= k) s = k a s'.
Proof. intros H. unfold mbind, P, M_bind. by rewrite H. Qed.
Lemma take_while_front p l k n d : Forall (fun b => p b = true) l -> apart p k ->
  take_while p (st (l ++ k) n d) = (Ok l, st k (n + zlen l) d).
Proof.
  intros Hl Hk. unfold take_while. cbn [rest].
  assert (span_bytes p (l ++ k) = l) as ->.
  { induction Hl as [|b l Hb _ IH]; cbn [app span_bytes]; [|by rewrite Hb, IH].
    destruct k as [|b k]; [done|]. cbn. by rewrite Hk. }
  by rewrite drop_app_length.
Qed.
Lemma spaces_ws w : spaces w -> Forall (fun b => is_ws b = true) w.
Proof. intros H. eapply Forall_impl; [exact H|]. by intros b [->|[->|[->| ->]]]. Qed.
Lemma ws_front w k n d : spaces w -> apart is_ws k -> ws (st (w ++ k) n d) = (Ok tt, st k (n + zlen w) d).
Proof. intros Hw%spaces_ws Hk. unfold ws. by rewrite (bind_ok _ _ _ _ _ (take_while_front _ _ _ _ _ Hw Hk)). Qed.
Lemma peek_front b k n d : peek (st (b :: k) n d) = (Ok (Some b), st (b :: k) n d).
Proof. done. Qed.
Lemma advance_front b k n d : advance 1 (st (b :: k) n d) = (Ok tt, st k (n + 1) d).
Proof. unfold advance. cbn [rest]. by rewrite skipn_cons. Qed.

Lemma eat_front b k n d : eat (u8 b) (st (b :: k) n d) = (Ok true, st k (n + 1) d).
Proof.
  unfold eat. rewrite (bind_ok _ _ _ _ _ (peek_front b k n d)), Z.eqb_refl.
  by rewrite (bind_ok _ _ _ _ _ (advance_front b k n d)).
Qed.
Lemma eat_other c k n d : apart (fun b => u8 b =? c) k -> eat c (st k n d) = (Ok false, st k n d).
Proof. unfold eat. destruct k as [|b k]; [done|]. rewrite (bind_ok _ _ _ _ _ (peek_front b k n d)). cbn [apart]. by intros ->. Qed.
Lemma lit_front w v k n d : lit w v (st (utf8_encode w ++ k) n d) = (Ok v, st k (n + zlen (utf8_encode w)) d).
Proof.
  unfold lit. cbn [rest]. rewrite take_app_length, bool_decide_eq_true_2 by done.
  unfold advance, mbind, P, M_bind. cbn [rest]. by rewrite drop_app_length.
Qed.

Lemma is_cont_spec b : is_cont b = (0x80 <=? u8 b) && (u8 b <? 0xc0).
Proof. by destruct b. Qed.
Lemma to_digit_16 c v : to_digit 16 c = Some v -> 0 <= v < 16 /\ c < 0x80 /\ c <> 43.
Proof.
  unfold to_digit, is_ascii_digit, between. intros H.
  destruct ((48 <=? c) && (c <=? 57)) eqn:E1; [|destruct ((97 <=? c) && (c <=? 102)) eqn:E2;
    [|destruct ((65 <=? c) && (c <=? 70)) eqn:E3; [|done]]];
    (destruct (_ <? 16); [|done]); simplify_eq; lia.
Qed.
Lemma hexdig_digit b v : hexdig b v <-> to_digit 16 (u8 b) = Some v.
Proof.
  unfold hexdig, to_digit, is_ascii_digit, between. split.
  - intros [[H ->]|[[H ->]|[H ->]]].
    + rewrite (proj2 (Z.leb_le 48 _)), (proj2 (Z.leb_le _ 57)) by lia. cbn [andb]. by rewrite (proj2 (Z.ltb_lt _ _)) by lia.
    + rewrite (proj2 (Z.leb_gt _ 57)), andb_false_r, (proj2 (Z.leb_gt 97 _)) by lia. cbn [andb].
      rewrite (proj2 (Z.leb_le 65 _)), (proj2 (Z.leb_le _ 70)) by lia. cbn [andb]. rewrite (proj2 (Z.ltb_lt _ _)) by lia. f_equal. lia.
    + rewrite (proj2 (Z.leb_gt _ 57)), andb_false_r, (proj2 (Z.leb_le 97 _)), (proj2 (Z.leb_le _ 102)) by lia. cbn [andb].
      rewrite (proj2 (Z.ltb_lt _ _)) by lia. f_equal. lia.
  - intros H. destruct ((48 <=? u8 b) && (u8 b <=? 57)) eqn:E1; [|destruct ((97 <=? u8 b) && (u8 b <=? 102)) eqn:E2;
      [|destruct ((65 <=? u8 b) && (u8 b <=? 70)) eqn:E3; [|done]]]; (destruct (_ <? 16); [|done]); simplify_eq; lia.
Qed.
Lemma hexes_value h v : hexes h v <-> length h = 4%nat /\ digits_value 16 (byte.unsigned <$> h) = Some v.
Proof.
  split.
  - intros (b1 & b2 & b3 & b4 & v1 & v2 & v3 & v4 & -> & E1%hexdig_digit & E2%hexdig_digit & E3%hexdig_digit & E4%hexdig_digit & ->). split; [done|].
    unfold digits_value. cbn [fmap list_fmap foldl]. rewrite E1, E2, E3, E4. cbn. f_equal. lia.
  - intros [Hl Hv]. destruct h as [|b1 [|b2 [|b3 [|b4 [|]]]]]; try done. unfold digits_value in Hv. cbn [fmap list_fmap foldl] in Hv.
    destruct (to_digit 16 (u8 b1)) as [v1|] eqn:E1; [|done]. destruct (to_digit 16 (u8 b2)) as [v2|] eqn:E2; [|done].
    destruct (to_digit 16 (u8 b3)) as [v3|] eqn:E3; [|done]. destruct (to_digit 16 (u8 b4)) as [v4|] eqn:E4; [|done].
    cbn in Hv. injection Hv as <-. exists b1, b2, b3, b4, v1, v2, v3, v4. rewrite !hexdig_digit. split_and!; [done..|]. lia.
Qed.
Lemma hexes_parse h v : hexes h v ->
  utf8_decode h = Some (byte.unsigned <$> h) /\ parse_uint 32 16 (byte.unsigned <$> h) = Some v /\ 0 <= v < 65536.
Proof.
  intros [Hl Hv]%hexes_value. destruct h as [|b1 [|b2 [|b3 [|b4 [|]]]]]; try done.
  assert (Hv' := Hv). unfold digits_value in Hv'. cbn [fmap list_fmap foldl] in Hv'.
  destruct (to_digit 16 (u8 b1)) as [d1|] eqn:E1; [|done]. cbn [mbind option_bind] in Hv'.
  destruct (to_digit 16 (u8 b2)) as [d2|] eqn:E2; [|done]. cbn [mbind option_bind] in Hv'.
  destruct (to_digit 16 (u8 b3)) as [d3|] eqn:E3; [|done]. cbn [mbind option_bind] in Hv'.
  destruct (to_digit 16 (u8 b4)) as [d4|] eqn:E4; [|done]. cbn [mbind option_bind] in Hv'.
  apply to_digit_16 in E1 as (R1 & A1 & P1), E2 as (R2 & A2 & _), E3 as (R3 & A3 & _), E4 as (R4 & A4 & _).
  injection Hv' as Hv'. split_and!; [| |lia|lia].
  - cbn [utf8_decode]. by rewrite !(proj2 (Z.ltb_lt _ 0x80)) by done.
  - unfold parse_uint.
    replace (match byte.unsigned <$> [b1; b2; b3; b4] with 43 :: ((_ :: _) as r0) => r0 | _ => byte.unsigned <$> [b1; b2; b3; b4] end)
      with (byte.unsigned <$> [b1; b2; b3; b4]) by (cbn [fmap list_fmap]; repeat case_match; congruence).
    rewrite Hv. cbn [fmap list_fmap mbind option_bind]. by rewrite (proj2 (Z.ltb_lt v (2 ^ 32))) by lia.
Qed.
Lemma hex4_front h v k n d : hexes h v -> hex4 (st (h ++ k) n d) = (Ok v, st k (n + 4) d).
Proof.
  intros H. destruct (hexes_parse h v H) as (Hd & Hp & _). apply hexes_value in H as [Hl _]. unfold hex4. cbn [rest].
  assert (Hz : zlen h = 4) by (unfold zlen; lia). rewrite zlen_app, Hz.
  rewrite (proj2 (Z.ltb_ge _ _)) by (pose proof (zlen_nonneg k); lia).
  assert (take 4 (h ++ k) = h) as -> by (rewrite <- Hl; apply take_app_length). rewrite Hd, Hp.
  unfold advance, mbind, P, M_bind. cbn [rest i]. rewrite <- Hl, drop_app_length, Hl. done.
Qed.

Lemma char_from_char c : is_char c = true -> char_from_u32 c = Some c.
Proof. unfold char_from_u32. by intros ->. Qed.
Lemma unit_front h c k n d : hexes h c -> is_char c = true -> unicode_escape (st (h ++ k) n d) = (Ok c, st k (n + 4) d).
Proof.
  intros H Hc. unfold unicode_escape. rewrite (bind_ok _ _ _ _ _ (hex4_front _ _ _ _ _ H)).
  assert ((0xd800 <=? c) && (c <? 0xdc00) = false) as -> by (unfold is_char in Hc; lia).
  cbn [negb]. by rewrite (char_from_char c Hc).
Qed.
Lemma pair_front h l hi lo k n d : hexes h hi -> hexes l lo -> 0xd800 <= hi < 0xdc00 -> 0xdc00 <= lo < 0xe000 ->
  exists n', unicode_escape (st ((h ++ x5c :: x75 :: l) ++ k) n d)
             = (Ok (0x10000 + (hi - 0xd800) * 1024 + (lo - 0xdc00)), st k n' d).
Proof.
  intros Hh Hl R1 R2. exists (n + 4 + 2 + 4). rewrite <- app_assoc. unfold unicode_escape.
  rewrite (bind_ok _ _ _ _ _ (hex4_front _ _ _ _ _ Hh)).
  rewrite (proj2 (Z.leb_le 0xd800 hi)), (proj2 (Z.ltb_lt hi 0xdc00)) by lia. cbn [negb andb rest app take].
  rewrite bool_decide_eq_true_2 by done.
  rewrite (bind_ok (advance 2) _ _ tt (st (l ++ k) (n + 4 + 2) d)) by done.
  rewrite (bind_ok _ _ _ _ _ (hex4_front _ _ _ _ _ Hl)).
  rewrite (proj2 (Z.leb_le 0xdc00 lo)), (proj2 (Z.ltb_lt lo 0xe000)) by lia. cbn [negb andb].
  rewrite Z.shiftl_mul_pow2 by lia. rewrite char_from_char; [done|]. unfold is_char. lia.
Qed.

(** The bytes of a character: one that is no continuation, then continuations. *)
Lemma encode_char_shape c : is_char c = true -> exists b l, encode_char c = b :: l /\ is_cont b = false /\
  Forall (fun b => is_cont b = true) l /\ (u8 b = c \/ 0xc0 <= u8 b).
Proof.
  intros Hc. unfold is_char in Hc. assert (H : 0 <= c < 0x110000) by lia. clear Hc.
  assert (Hcont : forall y, 0 <= y < 64 -> is_cont (byte.of_Z (0x80 + y)) = true).
  { intros y Hy. rewrite is_cont_spec, u8_of_Z by lia. lia. }
  assert (Hlead : forall y, 0xc0 <= y < 0x100 -> is_cont (byte.of_Z y) = false /\ 0xc0 <= u8 (byte.of_Z y)).
  { intros y Hy. rewrite is_cont_spec, u8_of_Z by lia. lia. }
  unfold encode_char. destruct (Z.ltb_spec c 0x80); [|destruct (Z.ltb_spec c 0x800); [|destruct (Z.ltb_spec c 0x10000)]];
    cbn [fmap list_fmap].
  - exists (byte.of_Z c), []. rewrite is_cont_spec, u8_of_Z by lia. split_and!; [done|lia|constructor|by left].
  - eexists _, _. split; [done|]. destruct (Hlead (0xc0 + c / 64)) as [Hl1 Hl2]; [zlia|].
    split_and!; [done| |by right]. repeat constructor. apply Hcont. zlia.
  - eexists _, _. split; [done|]. destruct (Hlead (0xe0 + c / 4096)) as [Hl1 Hl2]; [zlia|].
    split_and!; [done| |by right]. repeat constructor; apply Hcont; zlia.
  - eexists _, _. split; [done|]. destruct (Hlead (0xf0 + c / 262144)) as [Hl1 Hl2]; [zlia|].
    split_and!; [done| |by right]. repeat constructor; apply Hcont; zlia.
Qed.

Lemma spell_front e c : spell e c -> exists b l, e = b :: l /\ is_cont b = false /\ u8 b <> 34 /\
  forall k n d, apart is_cont k -> exists n', read_char b (st (l ++ k) n d) = (Ok [c], st k n' d).
Proof.
  assert (Hesc : forall l c, (forall k n d, exists n', read_escape (st (l ++ k) n d) = (Ok c, st k n' d)) ->
    exists b l', x5c :: l = b :: l' /\ is_cont b = false /\ u8 b <> 34 /\
    forall k n d, apart is_cont k -> exists n', read_char b (st (l' ++ k) n d) = (Ok [c], st k n' d)).
  { intros l c0 H. exists x5c, l. split_and!; [done|done|done|]. intros k n d _. destruct (H k n d) as [n' E].
    exists n'. unfold read_char. change (u8 x5c =? 92) with true. cbv iota. by rewrite (bind_ok _ _ _ _ _ E). }
  assert (Hu : forall l c, (forall k n d, exists n', unicode_escape (st (l ++ k) n d) = (Ok c, st k n' d)) ->
    forall k n d, exists n', read_escape (st ((x75 :: l) ++ k) n d) = (Ok c, st k n' d)).
  { intros l c0 H k n d. destruct (H k (n + 1) d) as [n' E]. exists n'. cbn [app]. unfold read_escape.
    rewrite (bind_ok _ _ _ _ _ (peek_front _ _ _ _)), (bind_ok _ _ _ _ _ (advance_front _ _ _ _)).
    change (u8 x75 =? 117) with true. cbv iota. done. }
  assert (Hshort : forall b c, find (fun ec => ec.1 =? u8 b) escapes = Some (u8 b, c) ->
    forall k n d, exists n', read_escape (st ([b] ++ k) n d) = (Ok c, st k n' d)).
  { intros b c0 H k n d. exists (n + 1). cbn [app]. unfold read_escape.
    rewrite (bind_ok _ _ _ _ _ (peek_front _ _ _ _)), (bind_ok _ _ _ _ _ (advance_front _ _ _ _)).
    destruct (Z.eqb_spec (u8 b) 117) as [E|_]; [rewrite E in H; by cbn in H|]. by rewrite H. }
  destruct 1 as [c Hc H34 H92| | | | | | | | |h c H Hc|h l hi lo Hh Hl R1 R2]; try by apply Hesc, Hshort.
  - destruct (encode_char_shape c Hc) as (b & l & E & Hb & Hl & Hv). exists b, l.
    split_and!; [done|done|lia|]. intros k n d Hk. exists (n + zlen l). unfold read_char.
    rewrite (proj2 (Z.eqb_neq (u8 b) 92)) by lia.
    rewrite (bind_ok _ _ _ _ _ (take_while_front _ _ _ _ _ Hl Hk)), <- E.
    rewrite <- (app_nil_r (encode_char c)), decode_char by done. done.
  - apply Hesc, Hu. intros k n d. exists (n + 4). by apply unit_front.
  - apply Hesc, Hu. intros k n d. by apply pair_front.
Qed.

(** The loop over the characters of a body, whatever follows. *)
Lemma string_loop_body t s : body t s -> forall fuel acc k n d, apart is_cont k -> (length t <= fuel)%nat ->
  exists fuel' n', (fuel <= fuel' + length t)%nat /\ string_loop fuel acc (st (t ++ k) n d) = string_loop fuel' (acc ++ s) (st k n' d).
Proof.
  induction 1 as [|e c t s He Ht IH]; intros fuel acc k n d Hk Hf; [exists fuel, n; rewrite app_nil_r; split; [lia|done]|].
  destruct (spell_front e c He) as (b & l & -> & Hb & H34 & Hr). cbn [app length] in *. rewrite <- app_assoc. rewrite length_app in *. destruct fuel as [|fuel]; [lia|].
  assert (Ha : apart is_cont (t ++ k)).
  { destruct Ht as [|e' c' t' s' He' _]; [done|]. destruct (spell_front e' c' He') as (b' & l' & -> & Hb' & _). done. }
  destruct (Hr (t ++ k) (n + 1) d Ha) as [n1 E1]. destruct (IH fuel (acc ++ [c]) k n1 d Hk) as (fuel' & n2 & Hf' & E2); [lia|].
  exists fuel', n2. split; [lia|]. cbn [string_loop]. rewrite (bind_ok _ _ _ _ _ (peek_front _ _ _ _)), (bind_ok _ _ _ _ _ (advance_front _ _ _ _)).
  rewrite (proj2 (Z.eqb_neq _ _) H34), (bind_ok _ _ _ _ _ E1), E2. by rewrite <- app_assoc.
Qed.
Lemma string_loop_front t s fuel acc k n d : body t s -> (length t < fuel)%nat ->
  exists n', string_loop fuel acc (st (t ++ x22 :: k) n d) = (Ok (acc ++ s), st k n' d).
Proof.
  intros H Hf. destruct (string_loop_body t s H fuel acc (x22 :: k) n d) as ([|fuel'] & n' & Hf' & E); [done|lia|lia|]. exists (n' + 1). rewrite E. cbn [string_loop].
  by rewrite (bind_ok _ _ _ _ _ (peek_front _ _ _ _)), (bind_ok _ _ _ _ _ (advance_front _ _ _ _)).
Qed.
Lemma string_front t s k n d : body t s -> exists n', string (st (x22 :: t ++ x22 :: k) n d) = (Ok s, st k n' d).
Proof.
  intros H. destruct (string_loop_front t s (S (length (t ++ x22 :: k))) [] k (n + 1) d H) as [n' E];
    [rewrite length_app; lia|].
  exists n'. unfold string. rewrite (bind_ok _ _ _ _ _ (advance_front _ _ _ _)). exact E.
Qed.

(** ** Numbers *)
Lemma digits_number_byte t : all_digits (byte.unsigned <$> t) -> Forall (fun b => is_number_byte b = true) t.
Proof. intros H%Forall_fmap. eapply Forall_impl; [exact H|]. intros b Hb. unfold is_number_byte. cbn in Hb. by rewrite Hb. Qed.

Lemma rfc_digits_span ip k : digits ip -> front_ok is_ascii_digit k -> span_digits (ip ++ k) = (ip, k).
Proof. intros [_ H]. by apply span_digits_app. Qed.
Lemma exponent_parses ex : exponent ex -> exists e, parse_exponent ex = Some e.
Proof.
  intros [->|(e & sg & ds & -> & He & Hs & [Hn Hd])]; [by exists 0|].
  destruct (digits_defined ds Hd) as [v Hv]. destruct ds as [|c ds]; [done|].
  assert (Hc : 48 <= c <= 57) by (inversion Hd; unfold is_ascii_digit, between in *; lia).
  assert (Hspan : span_digits (c :: ds) = (c :: ds, [])).
  { rewrite <- (app_nil_r (c :: ds)) at 1. by apply span_digits_app. }
  unfold parse_exponent.
  assert ((e =? 101) || (e =? 69) = true) as -> by lia. destruct Hs as [->|[->| ->]]; cbn [app].
  - assert (match c :: ds with 45 :: k => (true, k) | 43 :: k => (false, k) | _ => (false, c :: ds) end = (false, c :: ds)) as ->
      by (repeat case_match; first [done|lia]).
    rewrite Hspan, Hv. by exists v.
  - rewrite Hspan, Hv. by exists v.
  - rewrite Hspan, Hv. by exists (- v).
Qed.
Lemma exponent_front ex : exponent ex -> front_ok is_ascii_digit ex /\ head ex <> Some 46.
Proof. intros [->|(e & sg & ds & -> & [->| ->] & _)]; done. Qed.

Lemma unsigned_parses ip fp ex : digits ip -> fraction fp -> exponent ex ->
  exists x, parse_magnitude (ip ++ fp ++ ex) = Some x.
Proof.
  intros Hi Hf He. destruct (exponent_parses ex He) as [e Hex]. destruct (exponent_front ex He) as [Hef Hed].
  assert (Hfd : exists ds, all_digits ds /\ front_ok is_ascii_digit (fp ++ ex) /\
    (match fp ++ ex with 46 :: k => span_digits k | _ => ([], fp ++ ex) end) = (ds, ex)).
  { destruct Hf as [->|(ds & -> & [Hn Hd])]; cbn [app].
    - exists []. split_and!; [constructor|done|]. repeat case_match; (done || by subst).
    - exists ds. split_and!; [done|done|]. by apply span_digits_app. }
  destruct Hfd as (ds & Hd & Hfront & Hm).
  destruct (digits_defined (ip ++ ds)) as [m Hdm]; [apply Forall_app; split; [apply Hi|done]|].
  assert (Hc : exists c r, ip = c :: r /\ is_ascii_digit c = true).
  { destruct Hi as [Hn Ha]. destruct ip as [|c r]; [done|]. inversion Ha. eauto. }
  destruct Hc as (c & r & -> & Hc). exists (decimal_f64 m (e - zlen ds)).
  change ((c :: r) ++ fp ++ ex) with (c :: r ++ fp ++ ex).
  rewrite <- parse_digit, parse_digit_start by done. change (c :: r ++ fp ++ ex) with ((c :: r) ++ fp ++ ex).
  rewrite rfc_digits_span, Hm by done. cbn [app]. cbn [app] in Hdm. by rewrite Hex, Hdm.
Qed.
(** Every number of the grammar has a value. *)
Lemma rfc_number_parses l : rfc_number l -> exists x, parse_f64 l = Some x.
Proof.
  intros (sg & ip & fp & ex & -> & [->| ->] & Hi & Hf & He); destruct (unsigned_parses ip fp ex Hi Hf He) as [x Hx].
  - exists x. destruct Hi as [Hn Hd]. destruct ip as [|c r]; [done|]. cbn [app] in *.
    rewrite parse_digit; [done|]. by inversion Hd.
  - exists (fopp x). cbn [app parse_f64]. by rewrite Hx.
Qed.
Lemma rfc_bytes t : rfc_number (byte.unsigned <$> t) -> t <> [] /\ Forall (fun b => is_number_byte b = true) t.
Proof.
  intros (sg & ip & fp & ex & E & Hs & [Hn Hi] & Hf & He). split.
  { intros ->. destruct sg, ip; done. }
  assert (H : Forall (fun c => is_ascii_digit c || (c =? 46) || (c =? 101) || (c =? 69) || (c =? 43) || (c =? 45) = true)
                (byte.unsigned <$> t)).
  { assert (Hd : forall ds, all_digits ds ->
      Forall (fun c => is_ascii_digit c || (c =? 46) || (c =? 101) || (c =? 69) || (c =? 43) || (c =? 45) = true) ds)
      by (intros ds H; eapply Forall_impl; [exact H|]; intros c Hc; cbn in Hc; by rewrite Hc).
    rewrite E. repeat rewrite Forall_app. split_and!; [by destruct Hs as [->| ->]; repeat constructor|by apply Hd| |].
    - destruct Hf as [->|(ds & -> & [_ H])]; [constructor|]. constructor; [done|by apply Hd].
    - destruct He as [->|(e & s & ds & -> & H1 & H2 & [_ H])]; [constructor|]. constructor; [by destruct H1 as [->| ->]|].
      apply Forall_app. split; [by destruct H2 as [->|[->| ->]]; repeat constructor|by apply Hd]. }
  apply Forall_fmap in H. exact H.
Qed.

Lemma number_front t x k n d : rfc_number (byte.unsigned <$> t) -> parse_f64 (byte.unsigned <$> t) = Some x ->
  apart is_number_byte k -> exists n', number (st (t ++ k) n d) = (Ok (Number x), st k n' d).
Proof.
  intros [Hn Ht]%rfc_bytes Hx Hk. destruct t as [|b t]; [done|]. cbn [app]. unfold number. inversion Ht as [|? ? Hb Ht']. subst.
  destruct (Z.eqb_spec (u8 b) 45) as [E|E].
  - assert (b = x2d) as -> by (apply byte.unsigned_inj; exact E).
    exists (n + 1 + zlen t). rewrite (bind_ok (eat 45) _ _ true (st (t ++ k) (n + 1) d)) by apply (eat_front x2d).
    rewrite (bind_ok _ _ _ _ _ (take_while_front _ _ _ _ _ Ht' Hk)). cbn [app]. by rewrite Hx.
  - exists (n + zlen (b :: t)). rewrite (bind_ok (eat 45) _ _ false (st ((b :: t) ++ k) n d))
      by (apply eat_other; by apply Z.eqb_neq).
    rewrite (bind_ok _ _ _ _ _ (take_while_front _ _ _ _ _ Ht Hk)). cbn [app]. by rewrite Hx.
Qed.

(** ** Completeness *)
Lemma json_head r t v : json r t v -> exists b l, t = b :: l /\ is_ws b = false /\ u8 b <> 93 /\ is_cont b = false.
Proof.
  destruct 1 as [r|r|r|r t x H _|r t s _|r w _|r w t vs _ _|r w _|r w t kvs m _ _ _];
    try (eexists _, _; split; [reflexivity|]; split_and!; [reflexivity|discriminate|reflexivity]).
  apply rfc_bytes in H as [Hn H]. destruct t as [|b l]; [done|]. exists b, l. inversion H as [|? ? Hb _]. subst.
  unfold is_number_byte, is_ascii_digit, between in Hb. unfold is_ws. rewrite is_cont_spec.
  split_and!; [done|lia|lia|lia].
Qed.
Lemma elements_head r t vs : elements r t vs -> exists b l, t = b :: l /\ is_ws b = false /\ u8 b <> 93.
Proof. destruct 1 as [r t v w H _|r t v w w' ts vs H _ _ _]; destruct (json_head _ _ _ H) as (b & l & -> & ? & ? & _); by eexists _, _. Qed.

(** What may follow a value: nothing that would be read as more of a number. *)
Definition ends (k : bytes) : Prop := apart is_number_byte k.
Lemma ends_spaces w b k : spaces w -> is_number_byte b = false -> ends (w ++ b :: k).
Proof.
  intros Hw Hb. destruct Hw as [|c w Hc _]; [done|]. by destruct Hc as [->|[->|[->| ->]]].
Qed.

Lemma by_name_trans a b c : by_name a b -> by_name b c -> by_name a c.
Proof. unfold by_name. apply text_cmp_trans. Qed.
Lemma in_insert k v m x y : StronglySorted by_name m ->
  (x, y) ∈ btree_insert k v m <-> x = k /\ y = v \/ x <> k /\ (x, y) ∈ m.
Proof.
  intros Hs. induction Hs as [|[k' v'] m Hs IH Hlt]; cbn [btree_insert]; [rewrite list_elem_of_singleton, elem_of_nil; split; [intros [= -> ->]; by left|by intros [[-> ->]|[_ []]]]|].
  assert (Hin : forall y', (x, y') ∈ m -> text_cmp k' x = Lt) by (intros y' Hy; rewrite Forall_forall in Hlt; by apply (Hlt _ Hy)).
  destruct (text_cmp k k') eqn:E.
  - apply text_cmp_eq in E as <-. rewrite !elem_of_cons. split; [|intros [[-> ->]|[Hx [[= -> _]|H]]]; [by left|done|by right]].
    intros [[= -> ->]|H]; [by left|]. right. split; [|by right]. intros ->. specialize (Hin y H). by rewrite text_cmp_refl in Hin.
  - rewrite !elem_of_cons. split; [|intros [[-> ->]|[_ H]]; [by left|by right]]. intros [[= -> ->]|H]; [by left|]. right. split; [|done]. intros ->.
    destruct H as [[= <- <-]|H]; [by rewrite text_cmp_refl in E|]. specialize (Hin y H). pose proof (text_cmp_trans _ _ _ E Hin) as Hkk. by rewrite text_cmp_refl in Hkk.
  - rewrite !elem_of_cons, IH. assert (k' <> k) by (intros ->; by rewrite text_cmp_refl in E). split.
    + intros [[= -> ->]|[?|[? ?]]]; [right; split; [done|by left]|by left|right; split; [done|by right]].
    + intros [?|[? [[= -> ->]|?]]]; [right; by left|by left|right; by right].
Qed.
Lemma insert_sorted_by_name k v m : StronglySorted by_name m -> StronglySorted by_name (btree_insert k v m).
Proof.
  intros Hs. induction Hs as [|[k' v'] m Hs IH Hlt]; cbn [btree_insert]; [repeat constructor|]. destruct (text_cmp k k') eqn:E.
  - apply text_cmp_eq in E as <-. by constructor.
  - constructor; [by constructor|]. constructor; [done|]. eapply Forall_impl; [exact Hlt|]. intros x. by apply by_name_trans.
  - constructor; [done|]. apply Forall_forall. intros [x y] [[-> ->]|[_ Hx]]%in_insert; [|by rewrite Forall_forall in Hlt; apply Hlt|done].
    unfold by_name. cbn. rewrite text_cmp_antisym, E. done.
Qed.
Lemma inserted_keep_last kvs : keeps_last kvs (foldl (fun m kv => btree_insert kv.1 kv.2 m) [] kvs).
Proof.
  induction kvs as [|[k v] kvs [Hs IH]] using rev_ind; [split; [constructor|]; intros k v; rewrite elem_of_nil; split; [done|]; by intros ([|] & ? & ? & _)|].
  rewrite foldl_app. cbn [foldl fst snd]. split; [by apply insert_sorted_by_name|]. intros x y. rewrite in_insert, IH by done. split.
  - intros [[-> ->]|(Hx & b & a & -> & Ha)]; [exists kvs, []; split; [done|by apply not_elem_of_nil]|]. exists b, (a ++ [(k, v)]).
    rewrite <- app_assoc. split; [done|]. rewrite fmap_app, elem_of_app. cbn. rewrite list_elem_of_singleton. by intros [?|?].
  - intros (b & a & E & Ha). destruct a as [|z a _] using rev_ind; [apply app_inj_tail in E as [_ [= -> ->]]; by left|]. right.
    rewrite app_comm_cons, app_assoc in E. apply app_inj_tail in E as [-> <-]. rewrite fmap_app, not_elem_of_app in Ha. destruct Ha as [Ha Hk]. cbn in Hk.
    split; [intros ->; apply Hk; by left|]. by exists b, a.
Qed.
Lemma keeps_last_unique kvs m m' : keeps_last kvs m -> keeps_last kvs m' -> m = m'.
Proof.
  intros [Hs H] [Hs' H']. revert m' Hs' H'. assert (Hirr : forall a, ~ by_name a a) by (intros a; unfold by_name; by rewrite text_cmp_refl).
  assert (Hd : forall l, StronglySorted by_name l -> NoDup l).
  { induction 1 as [|a l _ IH Ha]; constructor; [|done]. intros Hin. rewrite Forall_forall in Ha. by apply (Hirr a), Ha. }
  intros m' Hs' H'. apply (StronglySorted_unique_strong by_name); [|done|done|].
  - intros a b _ _ Hab Hba. destruct (Hirr a). by eapply by_name_trans.
  - apply NoDup_Permutation; [by apply Hd|by apply Hd|]. intros [k v]. by rewrite H, H'.
Qed.

Definition reads_value (r : nat) (t : bytes) (v : Value) : Prop :=
  forall k fuel n d, ends k -> (2 * length (t ++ k) + 1 <= fuel)%nat -> d + Z.of_nat r <= MAX_DEPTH ->
  exists n', value fuel (st (t ++ k) n d) = (Ok v, st k n' d).
Definition reads_elements (r : nat) (t : bytes) (vs : list Value) : Prop :=
  forall w k fuel n d acc, spaces w -> (2 * length (w ++ t ++ x5d :: k) + 2 <= fuel)%nat -> d + Z.of_nat r <= MAX_DEPTH ->
  exists n', array_loop fuel acc (st (w ++ t ++ x5d :: k) n d) = (Ok (Array (acc ++ vs)), st k n' (d - 1)).
Definition reads_members (r : nat) (t : bytes) (kvs : list (text * Value)) : Prop :=
  forall w k fuel n d m, spaces w -> (2 * length (w ++ t ++ x7d :: k) + 2 <= fuel)%nat -> d + Z.of_nat r <= MAX_DEPTH ->
  exists n', object_loop fuel m (st (w ++ t ++ x7d :: k) n d)
             = (Ok (Object (foldl (fun m kv => btree_insert kv.1 kv.2 m) m kvs)), st k n' (d - 1)).

Lemma pop_front k n d : pop (st k n d) = (Ok tt, st k n (d - 1)).
Proof. done. Qed.
Lemma push_front k n d : d + 1 <= MAX_DEPTH -> push (st k n d) = (Ok tt, st k n (d + 1)).
Proof.
  intros H. unfold push. rewrite (bind_ok get_depth _ _ d (st k n d)) by done.
  rewrite (bind_ok (set_depth (d + 1)) _ _ tt (st k n (d + 1))) by done.
  by rewrite (proj2 (Z.ltb_ge MAX_DEPTH (d + 1))) by lia.
Qed.

Lemma enter_front c (v0 : Value) (loop : P Value) b w t n d : spaces w -> apart is_ws t -> d + 1 <= MAX_DEPTH ->
  (_ ← push; _ ← advance 1; _ ← ws; e ← eat c; if e : bool then _ ← pop; mret v0 else loop) (st (b :: w ++ t) n d)
  = (e ← eat c; if e : bool then _ ← pop; mret v0 else loop) (st t (n + 1 + zlen w) (d + 1)).
Proof.
  intros Hw Ht Hd. rewrite (bind_ok _ _ _ _ _ (push_front _ _ _ Hd)), (bind_ok _ _ _ _ _ (advance_front _ _ _ _)).
  by rewrite (bind_ok _ _ _ _ _ (ws_front _ _ _ _ Hw Ht)).
Qed.
(** The branch [value] takes. *)
Lemma value_object fuel t n d :
  value (S fuel) (st (x7b :: t) n d)
  = (_ ← push; _ ← advance 1; _ ← ws; e ← eat 125; if e : bool then _ ← pop; mret (Object []) else object_loop fuel [])
      (st (x7b :: t) n d).
Proof. cbn [value]. by rewrite (bind_ok _ _ _ _ _ (peek_front _ _ _ _)). Qed.
Lemma value_array fuel t n d :
  value (S fuel) (st (x5b :: t) n d)
  = (_ ← push; _ ← advance 1; _ ← ws; e ← eat 93; if e : bool then _ ← pop; mret (Array []) else array_loop fuel [])
      (st (x5b :: t) n d).
Proof. cbn [value]. by rewrite (bind_ok _ _ _ _ _ (peek_front _ _ _ _)). Qed.
Lemma value_string fuel t n d : value (S fuel) (st (x22 :: t) n d) = (s ← string; mret (String s)) (st (x22 :: t) n d).
Proof. cbn [value]. by rewrite (bind_ok _ _ _ _ _ (peek_front _ _ _ _)). Qed.
Lemma value_lit fuel w v t n d : w = txt "null" /\ v = Null \/ w = txt "true" /\ v = Bool true \/ w = txt "false" /\ v = Bool false ->
  value (S fuel) (st (utf8_encode w ++ t) n d) = lit w v (st (utf8_encode w ++ t) n d).
Proof.
  intros H. cbn [value].
  destruct H as [[-> ->]|[[-> ->]|[-> ->]]]; (erewrite bind_ok by apply (peek_front _ _ n d)); reflexivity.
Qed.
Lemma value_number fuel b t n d : is_number_byte b = true ->
  value (S fuel) (st (b :: t) n d) = number (st (b :: t) n d).
Proof.
  intros Hb. cbn [value]. rewrite (bind_ok _ _ _ _ _ (peek_front _ _ _ _)).
  unfold is_number_byte, is_ascii_digit, between in Hb.
  repeat (rewrite (proj2 (Z.eqb_neq (u8 b) _)) by lia). done.
Qed.

(** The end of an element: a comma, or the end of its container. *)
Lemma comma_front {A} (yes no : P A) w k n d : spaces w ->
  (_ ← ws; e ← eat 44; if e : bool then yes else no) (st (w ++ x2c :: k) n d) = yes (st k (n + zlen w + 1) d).
Proof.
  intros Hw. rewrite (bind_ok _ _ _ _ _ (ws_front w (x2c :: k) _ _ Hw eq_refl)).
  by rewrite (bind_ok _ _ _ _ _ (eat_front x2c _ _ _)).
Qed.
Lemma last_front {A} (yes no : P A) w b k n d : spaces w -> is_ws b = false -> u8 b <> 44 ->
  (_ ← ws; e ← eat 44; if e : bool then yes else no) (st (w ++ b :: k) n d) = no (st (b :: k) (n + zlen w) d).
Proof.
  intros Hw Hb Hc. rewrite (bind_ok _ _ _ _ _ (ws_front w (b :: k) _ _ Hw Hb)).
  by rewrite (bind_ok _ _ _ _ _ (eat_other 44 (b :: k) _ _ (proj2 (Z.eqb_neq _ _) Hc))).
Qed.
Lemma closed_front b (v : Value) w k n d :
  (e ← eat (u8 b); if e : bool then _ ← pop; mret v else fail w) (st (b :: k) n d) = (Ok v, st k (n + 1) (d - 1)).
Proof. rewrite (bind_ok _ _ _ _ _ (eat_front b _ _ _)). by rewrite (bind_ok _ _ _ _ _ (pop_front _ _ _)). Qed.

Lemma reads_array r w t vs : spaces w -> elements r t vs -> reads_elements r t vs ->
  reads_value (S r) (x5b :: w ++ t ++ [x5d]) (Array vs).
Proof.
  intros Hw Ht H k [|fuel] n d Hk Hf Hd; [lia|]. cbn [app]. rewrite <- !app_assoc. cbn [app].
  destruct (elements_head r t vs Ht) as (b & l & E & Hb & H93).
  rewrite value_array, enter_front by (done || lia || by rewrite E).
  assert (Ha : apart (fun b => u8 b =? 93) (t ++ x5d :: k)) by (rewrite E; by apply Z.eqb_neq).
  rewrite (bind_ok _ _ _ _ _ (eat_other 93 _ _ _ Ha)).
  destruct (H [] k fuel (n + 1 + zlen w) (d + 1) []) as [n' E']; [constructor| |lia|].
  { cbn [app length] in *. rewrite !length_app in *. cbn [length] in *. lia. }
  exists n'. cbn [app] in E'. rewrite E'. by rewrite Z.add_simpl_r.
Qed.
Lemma reads_object r w t kvs m : spaces w -> members r t kvs -> reads_members r t kvs -> keeps_last kvs m ->
  reads_value (S r) (x7b :: w ++ t ++ [x7d]) (Object m).
Proof.
  intros Hw Ht H Hm. rewrite (keeps_last_unique _ _ _ Hm (inserted_keep_last kvs)). intros k [|fuel] n d Hk Hf Hd; [lia|]. cbn [app]. rewrite <- !app_assoc. cbn [app].
  assert (E : exists l, t = x22 :: l) by (destruct Ht; by eexists). destruct E as [l E].
  rewrite value_object, enter_front by (done || lia || by rewrite E).
  assert (Ha : apart (fun b => u8 b =? 125) (t ++ x7d :: k)) by (by rewrite E).
  rewrite (bind_ok _ _ _ _ _ (eat_other 125 _ _ _ Ha)).
  destruct (H [] k fuel (n + 1 + zlen w) (d + 1) []) as [n' E']; [constructor| |lia|].
  { cbn [app length] in *. rewrite !length_app in *. cbn [length] in *. lia. }
  exists n'. cbn [app] in E'. rewrite E'. by rewrite Z.add_simpl_r.
Qed.

Lemma reads_elements_one r t v w : json r t v -> reads_value r t v -> spaces w -> reads_elements r (t ++ w) [v].
Proof.
  intros Hj Hv Hw w0 k [|fuel] n d acc Hw0 Hf Hd; [lia|]. destruct (json_head r t v Hj) as (b & l & E & Hb & _).
  rewrite <- app_assoc in *. cbn [array_loop].
  assert (Ha : apart is_ws (t ++ w ++ x5d :: k)) by (by rewrite E).
  rewrite (bind_ok _ _ _ _ _ (ws_front w0 _ _ _ Hw0 Ha)).
  destruct (Hv (w ++ x5d :: k) fuel (n + zlen w0) d) as [n1 E1]; [by apply ends_spaces| |done|].
  { rewrite length_app in Hf. lia. }
  rewrite (bind_ok _ _ _ _ _ E1), last_front by done. eexists. apply (closed_front x5d).
Qed.
Lemma reads_elements_more r t v w w' ts vs : json r t v -> reads_value r t v -> spaces w -> spaces w' ->
  reads_elements r ts vs -> reads_elements r (t ++ w ++ x2c :: w' ++ ts) (v :: vs).
Proof.
  intros Hj Hv Hw Hw' H w0 k [|fuel] n d acc Hw0 Hf Hd; [lia|]. destruct (json_head r t v Hj) as (b & l & E & Hb & _).
  rewrite <- !app_assoc in *. cbn [app] in *. rewrite <- !app_assoc in *. cbn [array_loop].
  assert (Ha : apart is_ws (t ++ w ++ x2c :: w' ++ ts ++ x5d :: k)) by (by rewrite E).
  rewrite (bind_ok _ _ _ _ _ (ws_front w0 _ _ _ Hw0 Ha)).
  destruct (Hv (w ++ x2c :: w' ++ ts ++ x5d :: k) fuel (n + zlen w0) d) as [n1 E1]; [by apply ends_spaces| |done|].
  { rewrite length_app in Hf. lia. }
  rewrite (bind_ok _ _ _ _ _ E1), comma_front by done.
  destruct (H w' k fuel (n1 + zlen w + 1) d (acc ++ [v])) as [n2 E2]; [done| |done|].
  { rewrite !length_app in *. cbn [length] in Hf. rewrite !length_app in *. rewrite E in Hf. cbn [length] in *. lia. }
  exists n2. rewrite E2. by rewrite <- app_assoc.
Qed.

(** A key, its colon, and the value that follows. *)
Lemma member_front r kt key w1 w2 t v w0 k fuel n d m : body kt key -> spaces w1 -> spaces w2 -> spaces w0 ->
  json r t v -> reads_value r t v -> ends k -> (2 * length (t ++ k) + 1 <= fuel)%nat -> d + Z.of_nat r <= MAX_DEPTH ->
  exists n', object_loop (S fuel) m (st (w0 ++ x22 :: kt ++ x22 :: w1 ++ x3a :: w2 ++ t ++ k) n d)
    = (_ ← ws; e ← eat 44;
       if e : bool then object_loop fuel (btree_insert key v m)
       else e ← eat 125;
            if e : bool then _ ← pop; mret (Object (btree_insert key v m)) else fail (txt "expected ',' or '}'"))
        (st k n' d).
Proof.
  intros Hk H1 H2 H0 Hj Hv He Hf Hd. destruct (json_head r t v Hj) as (b & l & E & Hb & _). cbn [object_loop].
  rewrite (bind_ok _ _ _ _ _ (ws_front w0 (x22 :: kt ++ x22 :: w1 ++ x3a :: w2 ++ t ++ k) n d H0 eq_refl)).
  rewrite (bind_ok _ _ _ _ _ (peek_front _ _ _ _)). change (u8 x22 =? 34) with true. cbv iota.
  destruct (string_front kt key (w1 ++ x3a :: w2 ++ t ++ k) (n + zlen w0) d Hk) as [n1 E1].
  rewrite (bind_ok _ _ _ _ _ E1), (bind_ok _ _ _ _ _ (ws_front w1 (x3a :: w2 ++ t ++ k) _ _ H1 eq_refl)).
  rewrite (bind_ok _ _ _ _ _ (eat_front x3a _ _ _)).
  assert (Ha : apart is_ws (t ++ k)) by (by rewrite E).
  rewrite (bind_ok _ _ _ _ _ (ws_front w2 _ _ _ H2 Ha)).
  destruct (Hv k fuel (n1 + zlen w1 + 1 + zlen w2) d) as [n2 E2]; [done|done|done|].
  exists n2. by rewrite (bind_ok _ _ _ _ _ E2).
Qed.

Lemma reads_members_one r kt key w1 w2 t v w : body kt key -> spaces w1 -> spaces w2 -> json r t v -> reads_value r t v ->
  spaces w -> reads_members r (x22 :: kt ++ x22 :: w1 ++ x3a :: w2 ++ t ++ w) [(key, v)].
Proof.
  intros Hk H1 H2 Hj Hv Hw w0 k [|fuel] n d m Hw0 Hf Hd; [lia|].
  replace (w0 ++ (x22 :: kt ++ x22 :: w1 ++ x3a :: w2 ++ t ++ w) ++ x7d :: k)
    with (w0 ++ x22 :: kt ++ x22 :: w1 ++ x3a :: w2 ++ t ++ (w ++ x7d :: k)) in *
    by (cbn [app]; repeat (rewrite <- app_assoc; cbn [app]); done).
  destruct (member_front r kt key w1 w2 t v w0 (w ++ x7d :: k) fuel n d m) as [n' ->]; try done;
    [by apply ends_spaces| |].
  { repeat (rewrite ?length_app in *; cbn [length] in * ). lia. }
  rewrite last_front by done. eexists. apply (closed_front x7d).
Qed.
Lemma reads_members_more r kt key w1 w2 t v w w' ts kvs : body kt key -> spaces w1 -> spaces w2 -> json r t v ->
  reads_value r t v -> spaces w -> spaces w' -> reads_members r ts kvs ->
  reads_members r (x22 :: kt ++ x22 :: w1 ++ x3a :: w2 ++ t ++ w ++ x2c :: w' ++ ts) ((key, v) :: kvs).
Proof.
  intros Hk H1 H2 Hj Hv Hw Hw' H w0 k [|fuel] n d m Hw0 Hf Hd; [lia|].
  replace (w0 ++ (x22 :: kt ++ x22 :: w1 ++ x3a :: w2 ++ t ++ w ++ x2c :: w' ++ ts) ++ x7d :: k)
    with (w0 ++ x22 :: kt ++ x22 :: w1 ++ x3a :: w2 ++ t ++ (w ++ x2c :: w' ++ ts ++ x7d :: k)) in *
    by (cbn [app]; repeat (rewrite <- app_assoc; cbn [app]); done).
  destruct (member_front r kt key w1 w2 t v w0 (w ++ x2c :: w' ++ ts ++ x7d :: k) fuel n d m) as [n' ->]; try done;
    [by apply ends_spaces| |].
  { repeat (rewrite ?length_app in *; cbn [length] in * ). lia. }
  rewrite comma_front by done. apply H; [done| |done].
  repeat (rewrite ?length_app in *; cbn [length] in * ). lia.
Qed.

Lemma reads_lit r w v : w = txt "null" /\ v = Null \/ w = txt "true" /\ v = Bool true \/ w = txt "false" /\ v = Bool false ->
  reads_value r (utf8_encode w) v.
Proof. intros H k [|fuel] n d _ Hf _; [lia|]. rewrite (value_lit fuel w v) by done. eexists. apply lit_front. Qed.

Lemma json_reads :
  (forall r t v, json r t v -> reads_value r t v) /\ (forall r t vs, elements r t vs -> reads_elements r t vs) /\
  (forall r t kvs, members r t kvs -> reads_members r t kvs).
Proof.
  apply json_grammar_ind.
  - intros r. apply reads_lit. auto.
  - intros r. apply reads_lit. auto.
  - intros r. apply reads_lit. auto.
  - intros r t x H Hx k [|fuel] n d Hk Hf _; [lia|].
    destruct (rfc_bytes t H) as [Hn Hb]. destruct t as [|b t]; [done|]. cbn [app]. inversion Hb. subst.
    rewrite value_number by done. by apply (number_front (b :: t)).
  - intros r t s H k [|fuel] n d Hk Hf _; [lia|]. cbn [app]. rewrite <- app_assoc. cbn [app]. rewrite value_string.
    destruct (string_front t s k n d H) as [n' E]. exists n'. by rewrite (bind_ok _ _ _ _ _ E).
  - intros r w Hw k [|fuel] n d Hk Hf Hd; [lia|]. cbn [app]. rewrite <- app_assoc. cbn [app].
    rewrite value_array, enter_front by (done || lia). rewrite (bind_ok _ _ _ _ _ (eat_front x5d _ _ _)), (bind_ok _ _ _ _ _ (pop_front _ _ _)).
    eexists. by rewrite Z.add_simpl_r.
  - intros. by apply reads_array.
  - intros r w Hw k [|fuel] n d Hk Hf Hd; [lia|]. cbn [app]. rewrite <- app_assoc. cbn [app].
    rewrite value_object, enter_front by (done || lia). rewrite (bind_ok _ _ _ _ _ (eat_front x7d _ _ _)), (bind_ok _ _ _ _ _ (pop_front _ _ _)).
    eexists. by rewrite Z.add_simpl_r.
  - intros. by eapply reads_object.
  - intros. by apply reads_elements_one.
  - intros. by apply reads_elements_more.
  - intros. by apply reads_members_one.
  - intros. by apply reads_members_more.
Qed.

(** ** Lone surrogates are refused *)
Definition refused {A} (r : result (option ParseError) A * Parser) : Prop := exists e s, r = (Err (Some e), s).
Lemma bind_refused {A B} (m : P A) (k : A -> P B) s : refused (m s) -> refused ((m ≫= k) s).
Proof. intros (e & s' & E). unfold mbind, P, M_bind. rewrite E. by exists e, s'. Qed.
Lemma fail_refused {A} w s : refused (fail (A := A) w s).
Proof. by eexists _, _. Qed.

Lemma decode_length l t : utf8_decode l = Some t -> (length t <= length l)%nat /\ (length t = length l -> t = byte.unsigned <$> l).
Proof.
  revert t. induction l as [l IH] using (induction_ltof1 _ (@length _)). intros t.
  assert (Hc : forall c k, (length k < length l)%nat -> cons c <$> utf8_decode k = Some t ->
    exists t', t = c :: t' /\ (length t' <= length k)%nat /\ (length t' = length k -> t' = byte.unsigned <$> k)).
  { intros c k Hk. destruct (utf8_decode k) as [t'|] eqn:E; [|done]. intros [= <-]. exists t'. destruct (IH k Hk t' E). by split_and!. }
  destruct l as [|b l1]; [intros [= <-]; done|]. cbn [utf8_decode length] in *.
  repeat case_match; try done; intros (t' & -> & Hl & He)%Hc; cbn [length] in *; try lia; (split; [lia|]); intros Hn; try (exfalso; lia).
  rewrite He by lia. done.
Qed.
Lemma digits_value_bound t v : digits_value 16 t = Some v -> 0 <= v < 16 ^ zlen t.
Proof.
  revert v. induction t as [|c t IH] using rev_ind; intros v; [by intros [= <-]|]. unfold digits_value in *. rewrite foldl_app. cbn [foldl].
  destruct (foldl _ (Some 0) t) as [n|]; [|done]. cbn [mbind option_bind]. destruct (to_digit 16 c) as [x|] eqn:E; [|done]. intros [= <-].
  apply to_digit_16 in E as [Hx _]. specialize (IH n eq_refl). rewrite zlen_app, Z.pow_add_r by (apply zlen_nonneg || done). change (16 ^ zlen [c]) with 16. lia.
Qed.
(** What four characters read as a number of four digits are: those digits. *)
Lemma hex4_inv l n d v s : hex4 (st l n d) = (Ok v, s) -> 0x1000 <= v -> exists h k, l = h ++ k /\ hexes h v.
Proof.
  unfold hex4. cbn [rest]. destruct (Z.ltb_spec (zlen l) 4) as [|Hl]; [done|]. destruct (utf8_decode _) as [t|] eqn:Ed; [|done].
  destruct (parse_uint 32 16 t) as [v'|] eqn:Ep; [|done]. intros [= -> _] Hv. exists (take 4 l), (drop 4 l). split; [by rewrite take_drop|].
  assert (H4 : length (take 4 l) = 4%nat) by (rewrite length_take; unfold zlen in Hl; lia). apply decode_length in Ed as [Ht Hs]. rewrite H4 in Ht, Hs.
  apply hexes_value. split; [done|]. unfold parse_uint in Ep.
  assert (Hlong : forall r, (length r <= 3)%nat -> (x ← digits_value 16 r; if x <? 2 ^ 32 then Some x else None) = Some v -> False).
  { intros r Hr H. destruct (digits_value 16 r) as [x|] eqn:E; [|done]. apply digits_value_bound in E. cbn in H. destruct (x <? _); [|done]. injection H as ->.
    assert (16 ^ zlen r <= 16 ^ 3) by (apply Z.pow_le_mono_r; unfold zlen; lia). lia. }
  assert (Hall : t = match t with 43 :: (_ :: _) as r => r | _ => t end).
  { destruct t as [|c [|c2 r]]; [done|by repeat case_match|]. destruct (Z.eqb_spec c 43) as [->|Hc]; [|by repeat case_match].
    exfalso. apply (Hlong (c2 :: r)); [cbn [length] in *; lia|exact Ep]. }
  rewrite <- Hall in Ep. destruct t as [|c t]; [done|]. destruct (Nat.le_gt_cases (length (c :: t)) 3) as [H3|H3]; [by destruct (Hlong (c :: t))|].
  rewrite <- Hs by lia. destruct (digits_value 16 (c :: t)) as [x|]; [|done]. cbn in Ep. destruct (x <? _); [|done]. congruence.
Qed.
Lemma hex4_answers s : refused (hex4 s) \/ exists v s', hex4 s = (Ok v, s').
Proof.
  unfold hex4. destruct (_ <? 4); [left; apply fail_refused|]. destruct (utf8_decode _); [|left; apply fail_refused].
  destruct (parse_uint _ _ _); [right; by eexists _, _|left; apply fail_refused].
Qed.
Lemma lone_escape h v k n d : hexes h v -> 0xd800 <= v < 0xe000 ->
  (v < 0xdc00 -> ~ exists h' v' k', k = x5c :: x75 :: h' ++ k' /\ hexes h' v' /\ 0xdc00 <= v' < 0xe000) ->
  refused (unicode_escape (st (h ++ k) n d)).
Proof.
  intros Hh Hv Hk. unfold unicode_escape. rewrite (bind_ok _ _ _ _ _ (hex4_front _ _ _ _ _ Hh)). destruct (Z.ltb_spec v 0xdc00) as [Hlt|Hge].
  - rewrite (proj2 (Z.leb_le _ _)) by lia. cbn [negb andb rest]. case_bool_decide as E2; [|apply fail_refused].
    destruct k as [|b1 [|b2 k]]; try done. injection E2 as -> ->. rewrite (bind_ok (advance 2) _ _ tt (st k (n + 4 + 2) d)) by done.
    destruct (hex4_answers (st k (n + 4 + 2) d)) as [Hr|(v' & s' & E)]; [by apply bind_refused|]. rewrite (bind_ok _ _ _ _ _ E).
    destruct ((0xdc00 <=? v') && (v' <? 0xe000)) eqn:Er; [|apply fail_refused].
    destruct (hex4_inv _ _ _ _ _ E) as (h' & k' & -> & Hh'); [lia|]. exfalso. apply Hk; [done|]. exists h', v', k'. split_and!; [done..|lia|lia].
  - rewrite andb_false_r. cbn [negb]. unfold char_from_u32. assert (is_char v = false) as -> by (unfold is_char; lia). apply fail_refused.
Qed.
Lemma string_lone t s l n d : body t s -> lone l -> refused (string (st (x22 :: t ++ l) n d)).
Proof.
  intros Hb (h & v & k & -> & Hh & Hv & Hk). unfold string. rewrite (bind_ok _ _ _ _ _ (advance_front _ _ _ _)). cbn [rest].
  edestruct (string_loop_body t s Hb) as (fuel & n' & Hf & E); [| |rewrite E].
  - done.
  - rewrite length_app. lia.
  - rewrite length_app in Hf. cbn [length] in Hf. destruct fuel as [|fuel]; [lia|]. cbn [string_loop].
    rewrite (bind_ok _ _ _ _ _ (peek_front _ _ _ _)), (bind_ok _ _ _ _ _ (advance_front _ _ _ _)). change (u8 x5c =? 34) with false. cbn iota.
    apply bind_refused. unfold read_char. change (u8 x5c =? 92) with true. cbn iota. apply bind_refused. unfold read_escape.
    rewrite (bind_ok _ _ _ _ _ (peek_front _ _ _ _)), (bind_ok _ _ _ _ _ (advance_front _ _ _ _)). change (u8 x75 =? 117) with true. cbn iota. by apply (lone_escape h v).
Qed.

Lemma lone_json_head r t : lone_json r t -> exists b l, t = b :: l /\ is_ws b = false /\ u8 b <> 93.
Proof. by destruct 1; eexists _, _. Qed.
Lemma lone_elements_head r t : lone_elements r t -> exists b l, t = b :: l /\ is_ws b = false /\ u8 b <> 93.
Proof.
  destruct 1 as [r t H|r t v w w' ts H _ _ _]; [by apply lone_json_head in H|]. destruct (json_head _ _ _ H) as (b & l & -> & ? & ? & _). by eexists _, _.
Qed.
Definition refuses_value (r : nat) (t : bytes) : Prop :=
  forall fuel n d, (2 * length t + 1 <= fuel)%nat -> d + Z.of_nat r <= MAX_DEPTH -> refused (value fuel (st t n d)).
Definition refuses_elements (r : nat) (t : bytes) : Prop :=
  forall w fuel n d acc, spaces w -> (2 * length (w ++ t) + 2 <= fuel)%nat -> d + Z.of_nat r <= MAX_DEPTH -> refused (array_loop fuel acc (st (w ++ t) n d)).
Definition refuses_members (r : nat) (t : bytes) : Prop :=
  forall w fuel n d m, spaces w -> (2 * length (w ++ t) + 2 <= fuel)%nat -> d + Z.of_nat r <= MAX_DEPTH -> refused (object_loop fuel m (st (w ++ t) n d)).
Lemma refuses_array r w t : spaces w -> lone_elements r t -> refuses_elements r t -> refuses_value (S r) (x5b :: w ++ t).
Proof.
  intros Hw Ht H [|fuel] n d Hf Hd; [lia|]. destruct (lone_elements_head r t Ht) as (b & l & E & Hb & H93). cbn [length] in Hf. rewrite length_app in Hf.
  rewrite value_array, enter_front by (done || lia || by rewrite E).
  assert (Ha : apart (fun b => u8 b =? 93) t) by (rewrite E; by apply Z.eqb_neq). rewrite (bind_ok _ _ _ _ _ (eat_other 93 _ _ _ Ha)).
  apply (H []); [constructor|cbn [app]; lia|lia].
Qed.
Lemma refuses_object r w t : spaces w -> lone_members r t -> refuses_members r t -> refuses_value (S r) (x7b :: w ++ t).
Proof.
  intros Hw Ht H [|fuel] n d Hf Hd; [lia|]. assert (E : exists l, t = x22 :: l) by (destruct Ht; by eexists). destruct E as [l E].
  cbn [length] in Hf. rewrite length_app in Hf. rewrite value_object, enter_front by (done || lia || by rewrite E).
  assert (Ha : apart (fun b => u8 b =? 125) t) by (by rewrite E). rewrite (bind_ok _ _ _ _ _ (eat_other 125 _ _ _ Ha)).
  apply (H []); [constructor|cbn [app]; lia|lia].
Qed.
Lemma refuses_here r t : lone_json r t -> refuses_value r t -> refuses_elements r t.
Proof.
  intros Hj H w [|fuel] n d acc Hw Hf Hd; [lia|]. destruct (lone_json_head r t Hj) as (b & l & E & Hb & _). rewrite length_app in Hf. cbn [array_loop].
  assert (Ha : apart is_ws t) by (by rewrite E). rewrite (bind_ok _ _ _ _ _ (ws_front w _ _ _ Hw Ha)). apply bind_refused, H; lia.
Qed.
Lemma refuses_later r t v w w' ts : json r t v -> spaces w -> spaces w' -> refuses_elements r ts -> refuses_elements r (t ++ w ++ x2c :: w' ++ ts).
Proof.
  intros Hj Hw Hw' H w0 [|fuel] n d acc Hw0 Hf Hd; [lia|]. destruct (json_head r t v Hj) as (b & l & E & Hb & _). cbn [array_loop].
  assert (Ha : apart is_ws (t ++ w ++ x2c :: w' ++ ts)) by (by rewrite E). rewrite (bind_ok _ _ _ _ _ (ws_front w0 _ _ _ Hw0 Ha)).
  destruct (proj1 json_reads r t v Hj (w ++ x2c :: w' ++ ts) fuel (n + zlen w0) d) as [n1 E1]; [by apply ends_spaces| |done|].
  { rewrite length_app in Hf. lia. }
  rewrite (bind_ok _ _ _ _ _ E1), comma_front by done. apply H; [done| |done]. rewrite E in Hf. repeat (rewrite ?length_app in *; cbn [length app] in * ). lia.
Qed.
Lemma quoted_key_front kt key w1 w2 t w0 n d : body kt key -> spaces w0 -> spaces w1 -> spaces w2 -> apart is_ws t -> forall (B : Type) (k : text -> P B), exists n',
  (_ ← ws; q ← peek;
   if match q with Some q => u8 q =? 34 | None => false end then
     key ← string; _ ← ws; e ← eat 58; if e : bool then _ ← ws; k key else fail (txt "expected ':'")
   else fail (txt "expected a key")) (st (w0 ++ x22 :: kt ++ x22 :: w1 ++ x3a :: w2 ++ t) n d) = k key (st t n' d).
Proof.
  intros Hk H0 H1 H2 Ht B k. rewrite (bind_ok _ _ _ _ _ (ws_front w0 (x22 :: kt ++ x22 :: w1 ++ x3a :: w2 ++ t) n d H0 eq_refl)).
  rewrite (bind_ok _ _ _ _ _ (peek_front _ _ _ _)). change (u8 x22 =? 34) with true. cbv iota.
  destruct (string_front kt key (w1 ++ x3a :: w2 ++ t) (n + zlen w0) d Hk) as [n1 E1].
  rewrite (bind_ok _ _ _ _ _ E1), (bind_ok _ _ _ _ _ (ws_front w1 (x3a :: w2 ++ t) _ _ H1 eq_refl)), (bind_ok _ _ _ _ _ (eat_front x3a _ _ _)).
  rewrite (bind_ok _ _ _ _ _ (ws_front w2 _ _ _ H2 Ht)). by eexists.
Qed.
Lemma refuses_key r kt k l : body kt k -> lone l -> refuses_members r (x22 :: kt ++ l).
Proof.
  intros Hk Hl w [|fuel] n d m Hw Hf _; [lia|]. cbn [object_loop]. rewrite (bind_ok _ _ _ _ _ (ws_front w (x22 :: kt ++ l) n d Hw eq_refl)).
  rewrite (bind_ok _ _ _ _ _ (peek_front _ _ _ _)). change (u8 x22 =? 34) with true. cbv iota. by apply bind_refused, (string_lone kt k).
Qed.
Lemma refuses_under r kt k w1 w2 t : body kt k -> spaces w1 -> spaces w2 -> lone_json r t -> refuses_value r t ->
  refuses_members r (x22 :: kt ++ x22 :: w1 ++ x3a :: w2 ++ t).
Proof.
  intros Hk H1 H2 Hj H w [|fuel] n d m Hw Hf Hd; [lia|]. destruct (lone_json_head r t Hj) as (b & l & E & Hb & _). cbn [object_loop].
  assert (Ha : apart is_ws t) by (by rewrite E).
  match goal with |- refused ((_ ← ws; q ← peek; if _ then key ← string; _ ← ws; e ← eat 58; if e then _ ← ws; @?body key else _ else _) _) =>
    destruct (quoted_key_front kt k w1 w2 t w n d Hk Hw H1 H2 Ha _ body) as [n' ->] end.
  cbv beta. apply bind_refused, H; [|done]. repeat (rewrite ?length_app in *; cbn [length app] in * ). lia.
Qed.
Lemma refuses_after r kt k w1 w2 t v w w' ts : body kt k -> spaces w1 -> spaces w2 -> json r t v -> spaces w -> spaces w' -> refuses_members r ts ->
  refuses_members r (x22 :: kt ++ x22 :: w1 ++ x3a :: w2 ++ t ++ w ++ x2c :: w' ++ ts).
Proof.
  intros Hk H1 H2 Hj Hw Hw' H w0 [|fuel] n d m Hw0 Hf Hd; [lia|].
  destruct (member_front r kt k w1 w2 t v w0 (w ++ x2c :: w' ++ ts) fuel n d m) as [n' ->]; try done;
    [by apply (proj1 json_reads)|by apply ends_spaces|repeat (rewrite ?length_app in *; cbn [length app] in * ); lia|].
  rewrite comma_front by done. apply H; [done| |done]. repeat (rewrite ?length_app in *; cbn [length app] in * ). lia.
Qed.
Lemma json_refuses :
  (forall r t, lone_json r t -> refuses_value r t) /\ (forall r t, lone_elements r t -> refuses_elements r t) /\
  (forall r t, lone_members r t -> refuses_members r t).
Proof.
  apply lone_grammar_ind.
  - intros r t s l Hb Hl [|fuel] n d Hf _; [lia|]. rewrite value_string. by apply bind_refused, (string_lone t s).
  - intros. by apply refuses_array.
  - intros. by apply refuses_object.
  - intros. by apply refuses_here.
  - intros. by eapply refuses_later.
  - intros. by eapply refuses_key.
  - intros. by eapply refuses_under.
  - intros. by eapply refuses_after.
Qed.
Lemma document_read (s : text) (w t w' : bytes) (v : Value) :
  spaces w -> json 64 t v -> spaces w' -> utf8_encode s = w ++ t ++ w' -> zlen (w ++ t ++ w') <= MAX_LEN -> parse s = Ok v.
Proof.
  intros Hw Ht Hw' E Hl. unfold parse. rewrite E, (proj2 (Z.ltb_ge _ _)) by done.
  destruct (json_head 64 t v Ht) as (b & l & Eb & Hb & _).
  assert (Ha : apart is_ws (t ++ w')) by (by rewrite Eb).
  rewrite (bind_ok _ _ _ _ _ (ws_front w _ 0 0 Hw Ha)).
  destruct (proj1 json_reads 64%nat t v Ht w' (2 * length (w ++ t ++ w') + 1)%nat (0 + zlen w) 0) as [n' E'].
  - destruct Hw' as [|c w'' Hc _]; [done|]. by destruct Hc as [->|[->|[->| ->]]].
  - rewrite !length_app. lia.
  - done.
  - rewrite (bind_ok _ _ _ _ _ E'). rewrite <- (app_nil_r w').
    rewrite (bind_ok _ _ _ _ _ (ws_front w' [] n' 0 Hw' I)). done.
Qed.

Lemma document_refused (s : text) (w t : bytes) : spaces w -> lone_json 64 t -> utf8_encode s = w ++ t -> exists e, parse s = Err (Some e).
Proof.
  intros Hw Ht E. unfold parse. rewrite E. destruct (MAX_LEN <? _); [by eexists|]. destruct (lone_json_head 64 t Ht) as (b & l & Eb & Hb & _).
  assert (Ha : apart is_ws t) by (by rewrite Eb). rewrite (bind_ok _ _ _ _ _ (ws_front w _ 0 0 Hw Ha)).
  match goal with |- exists e, fst ?r = _ => assert (Hr : refused r) end.
  - apply bind_refused, (proj1 json_refuses 64%nat); [done| |done]. rewrite length_app. lia.
  - destruct Hr as (e & s' & ->). by exists e.
Qed.

(** C37: The reader against the grammar of RFC 8259: every document of at most eight MiB that
    opens at most 64 containers at once, with any white space, any spelling of its strings
    (surrogate pairs included) and any of its numbers, is read as the value it denotes, the
    last of the entries of an object under one name counting; but one with an escape that is
    half of a surrogate pair, which the grammar lets through and which is no character, is
    refused, in whichever string, a name or a value, it is. *)
Theorem json_parse_complete (s : text) (w t : bytes) : spaces w ->
  (forall w' v, json 64 t v -> spaces w' -> utf8_encode s = w ++ t ++ w' -> zlen (w ++ t ++ w') <= MAX_LEN -> parse s = Ok v) /\
  (lone_json 64 t -> utf8_encode s = w ++ t -> exists e, parse s = Err (Some e)).
Proof. intros Hw. split; [intros w' v Ht Hw' E Hl; by apply (document_read s w t w')|by apply document_refused]. Qed.

Definition sample_reply : text := quoted_txt (txt "{'a': [-1.5e3, '\ud83d\ude80']} ").
Definition sample_value : Value := Object [(txt "a", Array [Number (of_int (-1500)); String [0x1f680]])].
Lemma one_space : spaces [x20].
Proof. constructor; [by left|constructor]. Qed.
(** The document of the code's test. *)
Definition lone_reply : text := quoted_txt (txt "{'s':'\ud83d'}").
Lemma lone_half : lone (x5c :: x75 :: (byte.of_Z <$> txt "d83d") ++ [x22; x7d]).
Proof. exists (byte.of_Z <$> txt "d83d"), 0xd83d, [x22; x7d]. split_and!; [done|by apply hexes_value|done|done|]. by intros _ (h' & v' & k' & [=] & _). Qed.
Lemma json_parse_complete_witness : parse sample_reply = Ok sample_value /\ exists e, parse lone_reply = Err (Some e).
Proof.
  split.
  2: { refine (proj2 (json_parse_complete lone_reply []
      (x7b :: [] ++ (x22 :: [x73] ++ x22 :: [] ++ x3a :: [] ++ (x22 :: [] ++ x5c :: x75 :: (byte.of_Z <$> txt "d83d") ++ [x22; x7d]))) _) _ _);
      [constructor| |vm_compute; reflexivity].
    apply lone_object, lone_under with [115]; [constructor| |constructor..|by apply (lone_string 63 [] []), lone_half; constructor].
    apply (body_cons [x73] 115 [] []), body_nil. by apply (spell_raw 115). }
  set (num := byte.of_Z <$> txt "-1.5e3").
  set (str := x5c :: x75 :: (byte.of_Z <$> txt "d83d") ++ x5c :: x75 :: (byte.of_Z <$> txt "de80")).
  refine (proj1 (json_parse_complete sample_reply []
    (x7b :: [] ++ (x22 :: [x61] ++ x22 :: [] ++ x3a :: [x20] ++
       (x5b :: [] ++ (num ++ [] ++ x2c :: [x20] ++ ((x22 :: (str ++ []) ++ [x22]) ++ [])) ++ [x5d]) ++ []) ++ [x7d]) _) [x20] sample_value _ _ _ _).
  - constructor.
  - apply (j_object 63 [] _ [(txt "a", Array [Number (of_int (-1500)); String [0x1f680]])]); [constructor| |exact (inserted_keep_last [_])].
    apply m_one; [|constructor|by apply one_space| |constructor].
    + apply (body_cons [x61] 97 [] []); [|constructor]. by apply (spell_raw 97).
    + apply j_array; [constructor|]. apply e_more; [|constructor|by apply one_space|].
      * apply j_number; [|vm_compute; reflexivity].
        exists [45], [49], [46; 53], [101; 51]. split_and!; [reflexivity|by right|..].
        -- split; [done|by repeat constructor].
        -- right. exists [53]. split; [done|]. split; [done|by repeat constructor].
        -- right. exists 101, [], [51]. split_and!; [done|by left|by left|split; [done|by repeat constructor]].
      * apply e_one; [|constructor]. apply j_string. apply (body_cons str 0x1f680 [] []); [|constructor].
        apply (spell_pair (byte.of_Z <$> txt "d83d") (byte.of_Z <$> txt "de80") 0xd83d 0xde80); try done; by apply hexes_value.
  - apply one_space.
  - vm_compute. reflexivity.
  - vm_compute. discriminate.
Defined.

(** The reader is lenient as well: a sign passes for a hexadecimal digit. *)
Example a_sign_in_an_escape : parse (quoted_txt (txt "'\u+041'")) = Ok (String [0x41]).
Proof. vm_compute. reflexivity. Qed.
