(* ===== verification/Sha256.v ===== *)
(** * Sha256: the digest that downloads are checked against (crates/tobii-config/src/sha256.rs)

    [Sha256] with its [compress], [update] and [finish] as written. [Fips] is FIPS 180-4 from
    its own text: words by their bits, sums of integers, the constants as roots of primes
    ([roots_fips]), the schedule as a sequence; [sha256_spec] is its digest of the whole padded
    message. [digest_of_blocks]: the code's compression is the standard's;
    [sha256_any_chunking]: the streaming hasher computes it however the data is cut. *)
From S2P Require Import Prelude Blocks Text.

Definition mask32 : Z := 2 ^ 32 - 1.
Definition add32 (a b : Z) : Z := wrap 32 (a + b).
Definition not32 (a : Z) : Z := Z.lxor a mask32.
(** [u32::rotate_right] *)
Definition rotr32 (x n : Z) : Z := wrap 32 (Z.lor (Z.shiftr x n) (Z.shiftl x (32 - n))).
Definition nthZ (l : list Z) (i : nat) : Z := nth i l 0.
Definition xor3 (a b c : Z) : Z := Z.lxor (Z.lxor a b) c.

(** The table, two words to a group of digits. *)
Definition two_words (group : text) : list Z :=
  let v := default 0 (digits_value 16 group) in [Z.shiftr v 32; wrap 32 v].
Definition K : list Z := Eval vm_compute in split_whitespace (txt "
  428a2f9871374491 b5c0fbcfe9b5dba5 3956c25b59f111f1 923f82a4ab1c5ed5
  d807aa9812835b01 243185be550c7dc3 72be5d7480deb1fe 9bdc06a7c19bf174
  e49b69c1efbe4786 0fc19dc6240ca1cc 2de92c6f4a7484aa 5cb0a9dc76f988da
  983e5152a831c66d b00327c8bf597fc7 c6e00bf3d5a79147 06ca635114292967
  27b70a852e1b2138 4d2c6dfc53380d13 650a7354766a0abb 81c2c92e92722c85
  a2bfe8a1a81a664b c24b8b70c76c51a3 d192e819d6990624 f40e3585106aa070
  19a4c1161e376c08 2748774c34b0bcb5 391c0cb34ed8aa4a 5b9cca4f682e6ff3
  748f82ee78a5636f 84c878148cc70208 90befffaa4506ceb bef9a3f7c67178f2") ≫= two_words.
Example K_ends : length K = 64%nat /\ nthZ K 0 = 0x428a2f98 /\ nthZ K 63 = 0xc67178f2.
Proof. done. Qed.

(** ** The code *)
Definition regs : Type := Z * Z * Z * Z * Z * Z * Z * Z.
Record Sha256 := { h : regs; buf : bytes; buffered : nat; len_bits : Z }.

Definition init_regs : regs :=
  (0x6a09e667, 0xbb67ae85, 0x3c6ef372, 0xa54ff53a, 0x510e527f, 0x9b05688c, 0x1f83d9ab, 0x5be0cd19).
Definition sha256_new : Sha256 :=
  {| h := init_regs; buf := replicate 64 x00; buffered := 0; len_bits := 0 |}.

(** The message schedule: sixteen big-endian words, then each from four before it. *)
Definition block_words (block : bytes) : list Z :=
  (fun i => of_be (slice block (Z.of_nat i * 4) (Z.of_nat i * 4 + 4))) <$> seq 0 16.
Definition extend (w : list Z) (i : nat) : list Z :=
  let a := nthZ w (i - 15) in
  let b := nthZ w (i - 2) in
  let s0 := xor3 (rotr32 a 7) (rotr32 a 18) (Z.shiftr a 3) in
  let s1 := xor3 (rotr32 b 17) (rotr32 b 19) (Z.shiftr b 10) in
  <[i := add32 (add32 (add32 (nthZ w (i - 16)) s0) (nthZ w (i - 7))) s1]> w.
Definition schedule (block : bytes) : list Z :=
  foldl extend (block_words block ++ replicate 48 0) (seq 16 48).

(** One turn of the second loop. *)
Definition sha_round (w : list Z) (r : regs) (i : nat) : regs :=
  let '(a, b, c, d, e, f, g, h) := r in
  let s1 := xor3 (rotr32 e 6) (rotr32 e 11) (rotr32 e 25) in
  let ch := Z.lxor (Z.land e f) (Z.land (not32 e) g) in
  let t1 := add32 (add32 (add32 (add32 h s1) ch) (nthZ K i)) (nthZ w i) in
  let s0 := xor3 (rotr32 a 2) (rotr32 a 13) (rotr32 a 22) in
  let maj := xor3 (Z.land a b) (Z.land a c) (Z.land b c) in
  let t2 := add32 s0 maj in
  (add32 t1 t2, a, b, c, add32 d t1, e, f, g).

Definition sha_compress (r : regs) (block : bytes) : regs :=
  let '(a, b, c, d, e, f, g, h) := foldl (sha_round (schedule block)) r (seq 0 64) in
  let '(a0, b0, c0, d0, e0, f0, g0, h0) := r in
  (add32 a0 a, add32 b0 b, add32 c0 c, add32 d0 d, add32 e0 e, add32 f0 f, add32 g0 g, add32 h0 h).

(** The tail of [update]: the whole blocks of [data], and the rest at the front of the buffer. *)
Definition absorb_blocks (r : regs) (buf data : bytes) (len_bits : Z) : Sha256 :=
  let '(r, rest) := while_blocks sha_compress (length data) r data in
  {| h := r; buf := write_at 0 rest buf; buffered := length rest; len_bits := len_bits |}.

Definition sha_update (data : bytes) (s : Sha256) : Sha256 :=
  let len := wrap 64 (len_bits s + zlen data * 8) in
  if (0 <? buffered s)%nat then
    let take_ := Nat.min (64 - buffered s) (length data) in
    let buf := write_at (buffered s) (take take_ data) (buf s) in
    let buffered := (buffered s + take_)%nat in
    let data := drop take_ data in
    if (buffered <? 64)%nat then {| h := h s; buf := buf; buffered := buffered; len_bits := len |}
    else absorb_blocks (sha_compress (h s) buf) buf data len
  else absorb_blocks (h s) (buf s) data len.

(** [update_raw], a byte at a time. *)
Definition push_raw (s : Sha256) (b : byte) : Sha256 :=
  let buf := write_at (buffered s) [b] (buf s) in
  let buffered := S (buffered s) in
  if (buffered =? 64)%nat
  then {| h := sha_compress (h s) buf; buf := buf; buffered := 0; len_bits := len_bits s |}
  else {| h := h s; buf := buf; buffered := buffered; len_bits := len_bits s |}.
Definition update_raw (data : bytes) (s : Sha256) : Sha256 := foldl push_raw s data.

(** [while self.buffered != 56]; sixty-four turns are enough (see [pad_loop_zeros]). *)
Fixpoint pad_loop (fuel : nat) (s : Sha256) : Sha256 :=
  match fuel with
  | O => s
  | S fuel => if (buffered s =? 56)%nat then s else pad_loop fuel (update_raw [x00] s)
  end.

Definition sha_digest (r : regs) : bytes :=
  let '(a, b, c, d, e, f, g, h) := r in concat (to_be 4 <$> [a; b; c; d; e; f; g; h]).

Definition finish (s : Sha256) : bytes :=
  let n := len_bits s in
  let s := update_raw [x80] s in
  let s := pad_loop 64 s in
  let s := update_raw (to_be 8 n) s in
  sha_digest (h s).

Definition hex_digest (data : bytes) : text := concat (hex2 <$> finish (sha_update data sha256_new)).
Example hex_abc : hex_digest (byte.of_Z <$> txt "abc")
  = txt "ba7816bf8f01cfea414140de5dae2223b00361a396177a9cb410ff61f20015ad".
Proof. vm_compute. reflexivity. Qed.

(** ** FIPS 180-4
    The standard, from its own words rather than the code's: bits of words, sums of integers,
    the constants as roots of primes, the schedule as a sequence that grows. *)
Module Fips.
(** A word from its bits. *)
Definition word_of (bit : Z -> bool) : Z := foldr (fun i x => Z.b2z (bit i) + 2 * x) 0 (seqZ 0 32).
Definition sum (xs : list Z) : Z := foldr Z.add 0 xs mod 2 ^ 32.
Definition parity (a b c : bool) : bool := if a then Bool.eqb b c else negb (Bool.eqb b c).
Definition majority (a b c : bool) : bool := if a then b || c else b && c.
(** Section 2.2.2 and equations 4.2 to 4.7 *)
Definition ROTR (n x : Z) : Z := word_of (fun i => Z.testbit x ((i + n) mod 32)).
Definition SHR (n x : Z) : Z := x / 2 ^ n.
Definition bitwise (f : bool -> bool -> bool -> bool) (x y z : Z) : Z :=
  word_of (fun i => f (Z.testbit x i) (Z.testbit y i) (Z.testbit z i)).
Definition Ch : Z -> Z -> Z -> Z := bitwise (fun x y z => if x then y else z).
Definition Maj : Z -> Z -> Z -> Z := bitwise majority.
Definition Sigma0 (x : Z) : Z := bitwise parity (ROTR 2 x) (ROTR 13 x) (ROTR 22 x).
Definition Sigma1 (x : Z) : Z := bitwise parity (ROTR 6 x) (ROTR 11 x) (ROTR 25 x).
Definition sigma0 (x : Z) : Z := bitwise parity (ROTR 7 x) (ROTR 18 x) (SHR 3 x).
Definition sigma1 (x : Z) : Z := bitwise parity (ROTR 17 x) (ROTR 19 x) (SHR 10 x).
(** Sections 4.2.2 and 5.3.3: the first thirty-two bits of the fractional parts of the cube
    roots of the first sixty-four primes, and of the square roots of the first eight. *)
Definition is_prime (n : Z) : bool := forallb (fun d => negb (n mod d =? 0)) (seqZ 2 (n - 2)).
Definition primes : list Z := List.filter is_prime (seqZ 2 310).
Definition fractional (k p r : Z) : Prop := exists root, root ^ k <= p * 2 ^ (32 * k) < (root + 1) ^ k /\ r = root mod 2 ^ 32.
(** The root, bit by bit from the highest of forty. *)
Definition root (k n : Z) : Z := foldl (fun r i => if (r + 2 ^ i) ^ k <=? n then r + 2 ^ i else r) 0 (rev (seqZ 0 40)).
Definition Kt (t : nat) : Z := root 3 (nthZ primes t * 2 ^ 96) mod 2 ^ 32.
Definition H0 (i : nat) : Z := root 2 (nthZ primes i * 2 ^ 64) mod 2 ^ 32.
(** Section 5.2.1 and step 1 of 6.2.2 *)
Fixpoint words (block : bytes) : list Z :=
  match block with
  | a :: b :: c :: d :: block => byte.unsigned a * 2 ^ 24 + byte.unsigned b * 2 ^ 16 + byte.unsigned c * 2 ^ 8 + byte.unsigned d :: words block
  | _ => []
  end.
Fixpoint W (block : bytes) (more : nat) : list Z :=
  match more with
  | O => words block
  | S more => let w := W block more in let t := length w in
      w ++ [sum [sigma1 (nthZ w (t - 2)); nthZ w (t - 7); sigma0 (nthZ w (t - 15)); nthZ w (t - 16)]]
  end.
(** Steps 2 to 4 of 6.2.2 *)
Fixpoint rounds (w : list Z) (t : nat) (r : regs) : regs :=
  match t with
  | O => r
  | S t =>
      let '(a, b, c, d, e, f, g, h) := rounds w t r in
      let T1 := sum [h; Sigma1 e; Ch e f g; Kt t; nthZ w t] in
      let T2 := sum [Sigma0 a; Maj a b c] in
      (sum [T1; T2], a, b, c, sum [d; T1], e, f, g)
  end.
Definition compression (r : regs) (block : bytes) : regs :=
  let '(a, b, c, d, e, f, g, h) := rounds (W block 48) 64 r in
  let '(a0, b0, c0, d0, e0, f0, g0, h0) := r in
  (sum [a; a0], sum [b; b0], sum [c; c0], sum [d; d0], sum [e; e0], sum [f; f0], sum [g; g0], sum [h; h0]).
Definition initial : regs := (H0 0, H0 1, H0 2, H0 3, H0 4, H0 5, H0 6, H0 7).
Definition octets (x : Z) : bytes := (fun k => byte.of_Z (x / 2 ^ k mod 256)) <$> [24; 16; 8; 0].
Definition digest (r : regs) : bytes :=
  let '(a, b, c, d, e, f, g, h) := r in octets a ++ octets b ++ octets c ++ octets d ++ octets e ++ octets f ++ octets g ++ octets h.
End Fips.
(** The whole message: a bit, zeros up to 56 bytes modulo 64, and the length in bits. *)
Definition pad (d : bytes) : bytes :=
  d ++ [x80] ++ replicate (pad_zeros (length d)) x00 ++ to_be 8 (wrap 64 (8 * zlen d)).
Definition sha256_spec (d : bytes) : bytes :=
  Fips.digest (fold_blocks Fips.compression (length (pad d) / 64) Fips.initial (pad d)).
Example fips_abc : hex2 <$> sha256_spec (byte.of_Z <$> txt "abc") = hex2 <$> finish (sha_update (byte.of_Z <$> txt "abc") sha256_new).
Proof. vm_compute. reflexivity. Qed.

(** ** The code's compression is the standard's *)
Definition is_word (x : Z) : Prop := 0 <= x < 2 ^ 32.
Definition are_words (r : regs) : Prop := let '(a, b, c, d, e, f, g, h) := r in Forall is_word [a; b; c; d; e; f; g; h].

Lemma word_bits bit n i a : 0 <= n -> Z.testbit (foldr (fun i x => Z.b2z (bit i) + 2 * x) 0 (seqZ a n)) i = (0 <=? i) && (i <? n) && bit (a + i).
Proof.
  intros Hn. revert a i. pattern n. apply natlike_ind; [| |done]; clear n Hn.
  - intros a i. cbn. rewrite Z.testbit_0_l. destruct (Z.leb_spec 0 i), (Z.ltb_spec i 0); (done || lia).
  - intros n Hn IH a i. rewrite seqZ_cons by lia. cbn [foldr]. replace (Z.pred (Z.succ n)) with n by lia.
    rewrite Z.add_comm. destruct (Z.ltb_spec i 0) as [?|?]; [rewrite Z.testbit_neg_r by done; destruct (Z.leb_spec 0 i); (done || lia)|].
    destruct (Z.eqb_spec i 0) as [->|?].
    + rewrite Z.testbit_0_r. destruct (Z.ltb_spec 0 (Z.succ n)); [|lia]. by rewrite Z.add_0_r.
    + replace i with (Z.succ (i - 1)) at 1 by lia. rewrite Z.testbit_succ_r by lia. rewrite IH. f_equal; [|f_equal; lia].
      destruct (Z.leb_spec 0 i), (Z.leb_spec 0 (i - 1)), (Z.ltb_spec i (Z.succ n)), (Z.ltb_spec (i - 1) n); (done || lia).
Qed.
Lemma word_of_bits bit i : Z.testbit (Fips.word_of bit) i = (0 <=? i) && (i <? 32) && bit i.
Proof. unfold Fips.word_of. by rewrite word_bits. Qed.
Lemma word_high x i : is_word x -> 32 <= i -> Z.testbit x i = false.
Proof. intros Hx Hi. rewrite <- (Z.mod_small x (2 ^ 32)) by done. apply Z.mod_pow2_bits_high. lia. Qed.
(** Words with the same thirty-two bits are equal. *)
Lemma same_bits x bit : is_word x -> (forall i, 0 <= i < 32 -> Z.testbit x i = bit i) -> x = Fips.word_of bit.
Proof.
  intros Hx H. apply Z.bits_inj'. intros i Hi. rewrite word_of_bits, (proj2 (Z.leb_le 0 i)) by done.
  destruct (Z.ltb_spec i 32); [by apply H|by apply word_high].
Qed.
Lemma low_bits x : (forall i, 32 <= i -> Z.testbit x i = false) -> is_word x.
Proof.
  intros H. assert (x = x mod 2 ^ 32) as ->; [|by apply Z.mod_pos_bound]. apply Z.bits_inj'. intros i Hi.
  destruct (Z.ltb_spec i 32); [by rewrite Z.mod_pow2_bits_low|rewrite Z.mod_pow2_bits_high by lia; by apply H].
Qed.
Lemma wrap_word x : is_word (wrap 32 x). Proof. by apply Z.mod_pos_bound. Qed.
Lemma rotr_word x n : is_word (rotr32 x n). Proof. apply wrap_word. Qed.
Lemma add_word x y : is_word (add32 x y). Proof. apply wrap_word. Qed.
Lemma shiftr_word x n : is_word x -> 0 <= n -> is_word (Z.shiftr x n).
Proof. intros Hx Hn. apply low_bits. intros i Hi. rewrite Z.shiftr_spec by lia. apply word_high; [done|lia]. Qed.
Lemma rotr_fips x n : is_word x -> 0 <= n < 32 -> rotr32 x n = Fips.ROTR n x.
Proof.
  intros Hx Hn. apply same_bits; [apply rotr_word|]. intros i Hi. unfold rotr32, wrap.
  rewrite Z.mod_pow2_bits_low, Z.lor_spec, Z.shiftr_spec, Z.shiftl_spec by lia. destruct (Z.ltb_spec (i + n) 32).
  - rewrite (Z.testbit_neg_r x (i - _)), orb_false_r by lia. by rewrite Z.mod_small by lia.
  - rewrite word_high by (done || lia). cbn [orb]. f_equal. apply Z.mod_unique with 1; lia.
Qed.
Lemma shr_fips x n : 0 <= n -> Z.shiftr x n = Fips.SHR n x. Proof. intros. by apply Z.shiftr_div_pow2. Qed.
Lemma xor3_fips a b c : is_word a -> is_word b -> is_word c -> xor3 a b c = Fips.bitwise Fips.parity a b c.
Proof.
  intros Ha Hb Hc. apply same_bits.
  - apply low_bits. intros i Hi. unfold xor3. by rewrite !Z.lxor_spec, (word_high a), (word_high b), (word_high c).
  - intros i _. unfold xor3. rewrite !Z.lxor_spec. by destruct (Z.testbit a i), (Z.testbit b i), (Z.testbit c i).
Qed.
Lemma ch_fips e f g : is_word f -> is_word g -> Z.lxor (Z.land e f) (Z.land (not32 e) g) = Fips.Ch e f g.
Proof.
  intros Hf Hg. apply same_bits.
  - apply low_bits. intros i Hi. by rewrite Z.lxor_spec, !Z.land_spec, (word_high f), (word_high g), !andb_false_r.
  - intros i Hi. unfold not32, mask32. rewrite Z.lxor_spec, !Z.land_spec, Z.lxor_spec.
    change (2 ^ 32 - 1) with (Z.pred (2 ^ 32)). rewrite <- Z.ones_equiv, Z.ones_spec_low by lia.
    by destruct (Z.testbit e i), (Z.testbit f i), (Z.testbit g i).
Qed.
Lemma maj_fips a b c : is_word a -> is_word b -> is_word c -> xor3 (Z.land a b) (Z.land a c) (Z.land b c) = Fips.Maj a b c.
Proof.
  intros Ha Hb Hc. apply same_bits.
  - apply low_bits. intros i Hi. unfold xor3. by rewrite !Z.lxor_spec, !Z.land_spec, (word_high a), (word_high b), (word_high c).
  - intros i _. unfold xor3. rewrite !Z.lxor_spec, !Z.land_spec. by destruct (Z.testbit a i), (Z.testbit b i), (Z.testbit c i).
Qed.
Lemma rotations_fips x k l m : is_word x -> 0 <= k < 32 -> 0 <= l < 32 -> 0 <= m < 32 ->
  xor3 (rotr32 x k) (rotr32 x l) (rotr32 x m) = Fips.bitwise Fips.parity (Fips.ROTR k x) (Fips.ROTR l x) (Fips.ROTR m x).
Proof. intros. rewrite xor3_fips by apply rotr_word. by rewrite !rotr_fips. Qed.
Lemma shifted_fips x k l m : is_word x -> 0 <= k < 32 -> 0 <= l < 32 -> 0 <= m < 32 ->
  xor3 (rotr32 x k) (rotr32 x l) (Z.shiftr x m) = Fips.bitwise Fips.parity (Fips.ROTR k x) (Fips.ROTR l x) (Fips.SHR m x).
Proof. intros. rewrite xor3_fips by (apply rotr_word || (apply shiftr_word; (done || lia))). rewrite !rotr_fips by done. by rewrite shr_fips by lia. Qed.

(** The tables. *)
Lemma K_fips t : (t < 64)%nat -> nthZ K t = Fips.Kt t.
Proof.
  intros Ht. assert (H : forallb (fun t => nthZ K t =? Fips.Kt t) (seq 0 64) = true) by (vm_compute; reflexivity).
  rewrite forallb_forall in H. apply Z.eqb_eq, H, in_seq. lia.
Qed.
Lemma init_fips : init_regs = Fips.initial. Proof. vm_compute. reflexivity. Qed.
(** And the standard's are what the standard says they are. *)
Lemma roots_fips : (forall t, (t < 64)%nat -> Fips.fractional 3 (nthZ Fips.primes t) (Fips.Kt t)) /\
  (forall i, (i < 8)%nat -> Fips.fractional 2 (nthZ Fips.primes i) (Fips.H0 i)).
Proof.
  set (bracket k t := let p := nthZ Fips.primes t * 2 ^ (32 * k) in let r := Fips.root k p in (r ^ k <=? p) && (p <? (r + 1) ^ k)).
  assert (H : forallb (bracket 3) (seq 0 64) && forallb (bracket 2) (seq 0 8) = true) by (vm_compute; reflexivity).
  apply andb_true_iff in H as [H3 H2]. rewrite forallb_forall in H3, H2.
  split; intros t Ht; [specialize (H3 t)|specialize (H2 t)]; rewrite in_seq in *; eexists; (split; [|reflexivity]).
  - unfold bracket in H3. change (2 ^ 96) with (2 ^ (32 * 3)). cbv zeta in H3. by destruct (andb_prop _ _ (H3 ltac:(lia))) as [?%Z.leb_le ?%Z.ltb_lt].
  - unfold bracket in H2. change (2 ^ 64) with (2 ^ (32 * 2)). cbv zeta in H2. by destruct (andb_prop _ _ (H2 ltac:(lia))) as [?%Z.leb_le ?%Z.ltb_lt].
Qed.
(** The schedule. *)
Lemma byte_beside b x : Z.lor (byte.unsigned b) (Z.shiftl x 8) = byte.unsigned b + x * 2 ^ 8.
Proof.
  rewrite BitOps.or_to_plus; [by rewrite Z.shiftl_mul_pow2|]. apply Z.bits_inj'. intros i Hi. rewrite Z.land_spec, Z.shiftl_spec, Z.bits_0 by done.
  destruct (Z.ltb_spec i 8); [by rewrite (Z.testbit_neg_r x) by lia; apply andb_false_r|].
  rewrite <- byte.wrap_unsigned. unfold byte.wrap. by rewrite Z.mod_pow2_bits_high by lia.
Qed.
Lemma of_be4_sum a b c d : of_be [a; b; c; d] = byte.unsigned a * 2 ^ 24 + byte.unsigned b * 2 ^ 16 + byte.unsigned c * 2 ^ 8 + byte.unsigned d.
Proof. unfold of_be. cbn [rev app]. cbv [le_combine]. rewrite !byte_beside. lia. Qed.
Lemma wrap_l x y : wrap 32 (wrap 32 x + y) = wrap 32 (x + y).
Proof. apply Z.add_mod_idemp_l. lia. Qed.
Lemma add2_fips a b : add32 a b = Fips.sum [a; b].
Proof. unfold add32, Fips.sum, wrap. cbn [foldr]. f_equal. lia. Qed.
Lemma add2_swap a b : add32 a b = Fips.sum [b; a].
Proof. rewrite add2_fips. unfold Fips.sum. cbn [foldr]. f_equal. lia. Qed.
Lemma add4_fips a b c d : add32 (add32 (add32 a b) c) d = Fips.sum [a; b; c; d].
Proof. unfold add32. rewrite (wrap_l (a + b)), wrap_l. unfold Fips.sum, wrap. cbn [foldr]. f_equal. lia. Qed.
Lemma add5_fips a b c d e : add32 (add32 (add32 (add32 a b) c) d) e = Fips.sum [a; b; c; d; e].
Proof. rewrite (add4_fips a b c d). unfold add32, Fips.sum, wrap. rewrite Z.add_mod_idemp_l by done. cbn [foldr]. f_equal. lia. Qed.
Lemma sum_perm xs ys : xs ≡ₚ ys -> Fips.sum xs = Fips.sum ys.
Proof. intros H. unfold Fips.sum. f_equal. induction H; cbn; lia. Qed.
Lemma block_words_fips block : length block = 64%nat -> block_words block = Fips.words block.
Proof.
  intros Hl. assert (H : forall n, (n <= 16)%nat -> (fun i => of_be (slice block (Z.of_nat i * 4) (Z.of_nat i * 4 + 4))) <$> seq (16 - n) n = Fips.words (drop (4 * (16 - n)) block)).
  { induction n as [|n IH]; intros Hn; [by rewrite drop_ge by lia|]. cbn [seq fmap list_fmap]. replace (S (16 - S n)) with (16 - n)%nat by lia. rewrite IH by lia.
    unfold slice. replace (Z.to_nat (Z.of_nat (16 - S n) * 4)) with (4 * (16 - S n))%nat by lia.
    replace (4 * (16 - n))%nat with (4 * (16 - S n) + 4)%nat by lia. rewrite <- drop_drop.
    rewrite (Z.add_simpl_l _ 4). change (Z.to_nat 4) with 4%nat. assert (Hd : (4 <= length (drop (4 * (16 - S n)) block))%nat) by (rewrite length_drop; lia).
    destruct (drop (4 * (16 - S n)) block) as [|a [|b [|c [|d rest]]]]; cbn [length] in Hd; [lia..|]. cbn [take drop Fips.words]. f_equal. apply of_be4_sum. }
  by apply (H 16%nat).
Qed.
Lemma words_are block : Forall is_word (Fips.words block).
Proof.
  induction block as [[|a [|b [|c [|d rest]]]] IH] using (induction_ltof1 _ (@length _)); try constructor.
  - pose proof (byte.unsigned_range a). pose proof (byte.unsigned_range b). pose proof (byte.unsigned_range c). pose proof (byte.unsigned_range d). unfold is_word. lia.
  - apply IH. unfold ltof. cbn. lia.
Qed.
Lemma length_words block : length block = 64%nat -> length (Fips.words block) = 16%nat.
Proof. intros H. rewrite <- block_words_fips by done. done. Qed.
Lemma nth_word w i : Forall is_word w -> is_word (nthZ w i).
Proof. intros Hw. unfold nthZ. destruct (nth_in_or_default i w 0) as [H| ->]; [|done]. rewrite Forall_forall in Hw. by apply Hw, list_elem_of_In. Qed.
Lemma length_W block n : length (Fips.W block n) = (length (Fips.words block) + n)%nat.
Proof. induction n as [|n IH]; [cbn; lia|]. cbn [Fips.W]. rewrite length_app, IH. cbn. lia. Qed.
Lemma W_words block n : Forall is_word (Fips.W block n).
Proof. induction n as [|n IH]; [apply words_are|]. cbn [Fips.W]. apply Forall_app. split; [done|]. constructor; [|done]. by apply Z.mod_pos_bound. Qed.
Lemma schedule_grows block k n : length block = 64%nat ->
  foldl extend (Fips.W block n ++ replicate k 0) (seq (16 + n) k) = Fips.W block (n + k).
Proof.
  intros Hb. revert n. induction k as [|k IH]; intros n; [cbn; by rewrite app_nil_r, Nat.add_0_r|]. cbn [seq foldl]. replace (S (16 + n)) with (16 + S n)%nat by lia. rewrite <- (Nat.add_succ_comm n k), <- IH. f_equal.
  pose proof (length_W block n) as Hl. rewrite length_words in Hl by done. unfold extend.
  set (w := Fips.W block n) in *. assert (Hn : forall j, (j < 16 + n)%nat -> nthZ (w ++ replicate (S k) 0) j = nthZ w j) by (intros j Hj; apply app_nth1; lia).
  rewrite !Hn by lia. pose proof (W_words block n) as Hw. fold w in Hw. rewrite !shifted_fips by (done || by apply nth_word).
  rewrite <- Hl. rewrite insert_app_r_alt by lia. rewrite Nat.sub_diag. cbn [replicate]. cbn [Fips.W]. fold w. rewrite <- app_assoc. cbn [app]. f_equal.
  cbn [list_insert insert]. f_equal. rewrite add4_fips. apply sum_perm. fold (Fips.sigma0 (nthZ w (length w - 15))) (Fips.sigma1 (nthZ w (length w - 2))). solve_Permutation.
Qed.
Lemma schedule_fips block : length block = 64%nat -> schedule block = Fips.W block 48.
Proof. intros Hb. unfold schedule. rewrite block_words_fips by done. by apply (schedule_grows block 48 0). Qed.
(** The rounds. *)
Lemma Forall8 {A} (P : A -> Prop) a b c d e f g h : Forall P [a; b; c; d; e; f; g; h] <-> P a /\ P b /\ P c /\ P d /\ P e /\ P f /\ P g /\ P h /\ True.
Proof. by rewrite !Forall_cons, Forall_nil. Qed.
Lemma rounds_fips w r n : are_words r -> (n <= 64)%nat ->
  foldl (sha_round w) r (seq 0 n) = Fips.rounds w n r /\ are_words (Fips.rounds w n r).
Proof.
  intros Hr. induction n as [|n IH]; intros Hn; [done|]. destruct (IH ltac:(lia)) as [E Hw]. rewrite seq_S, foldl_app, E. cbn [foldl Fips.rounds Nat.add].
  destruct (Fips.rounds w n r) as [[[[[[[a b] c] d] e] f] g] h]. unfold sha_round. cbv zeta.
  pose proof Hw as (Ha & Hb & Hc & Hd & He & Hf & Hg & Hh & _)%Forall8.
  rewrite !rotations_fips, ch_fips, maj_fips, (add5_fips h), !add2_fips, K_fips by (done || lia). split; [done|].
  apply Forall8. by split_and!; try apply Z.mod_pos_bound.
Qed.
Lemma compress_fips r block : are_words r -> length block = 64%nat ->
  sha_compress r block = Fips.compression r block /\ are_words (Fips.compression r block).
Proof.
  intros Hr Hb. unfold sha_compress, Fips.compression. rewrite schedule_fips by done. destruct (rounds_fips (Fips.W block 48) r 64 Hr) as [-> Hw]; [done|].
  destruct (Fips.rounds _ _ _) as [[[[[[[a b] c] d] e] f] g] h]. destruct r as [[[[[[[a0 b0] c0] d0] e0] f0] g0] h0]. rewrite !add2_swap.
  split; [done|]. apply Forall8. by split_and!; try apply Z.mod_pos_bound.
Qed.
Lemma blocks_fips n r l : are_words r -> (64 * n <= length l)%nat ->
  fold_blocks sha_compress n r l = fold_blocks Fips.compression n r l.
Proof.
  revert r l. induction n as [|n IH]; intros r l Hr Hl; [done|]. cbn [fold_blocks].
  destruct (compress_fips r (take 64 l) Hr) as [-> Hw]; [rewrite length_take; lia|]. apply IH; [done|]. rewrite length_drop. lia.
Qed.
Lemma octets_fips x : to_be 4 x = Fips.octets x.
Proof.
  assert (Hb : forall k, 0 <= k -> byte.of_Z (Z.shiftr x k) = byte.of_Z (x / 2 ^ k mod 256)).
  { intros k Hk. rewrite Z.shiftr_div_pow2 by done. apply byte.unsigned_inj. rewrite !byte.unsigned_of_Z. unfold byte.wrap. by rewrite Z.mod_mod. }
  unfold to_be, Fips.octets. cbn [fmap list_fmap]. rewrite <- !Hb by done. cbv [le_split]. rewrite !Z.shiftr_shiftr by done. cbn [rev app]. by rewrite Z.shiftr_0_r.
Qed.
Lemma digest_fips r : sha_digest r = Fips.digest r.
Proof.
  destruct r as [[[[[[[a b] c] d] e] f] g] h]. unfold sha_digest, Fips.digest. cbn [fmap list_fmap concat]. by rewrite !octets_fips, app_nil_r.
Qed.
(** The code's digest of the padded message is the standard's. *)
Lemma digest_of_blocks d : sha_digest (fold_blocks sha_compress (length (pad d) / 64) init_regs (pad d)) = sha256_spec d.
Proof.
  unfold sha256_spec. rewrite digest_fips, blocks_fips, init_fips; [done| |].
  - apply Forall8. by split_and!.
  - rewrite (Nat.div_mod_eq (length (pad d)) 64) at 2. lia.
Qed.

(** ** Proofs *)
#[global] Arguments sha_compress : simpl never.
#[global] Arguments to_be : simpl never.

(** The state has taken in [d], padding aside. *)
Definition taken (s : Sha256) (d : bytes) : Prop :=
  holds sha_compress init_regs (h s) (buf s) (buffered s) d.

Lemma taken_new : taken sha256_new [].
Proof. by apply holds_nil. Qed.

Lemma absorb_taken k d data b n :
  length d = (64 * k)%nat -> length b = 64%nat ->
  taken (absorb_blocks (fold_blocks sha_compress k init_regs d) b data n) (d ++ data).
Proof.
  intros Hk Hb. unfold absorb_blocks, taken.
  pose proof (holds_loop sha_compress init_regs k d data b Hk Hb) as H.
  by destruct (while_blocks _ _ _ _).
Qed.

Lemma update_taken s d data : taken s d -> taken (sha_update data s) (d ++ data).
Proof.
  intros Hs. pose proof (holds_buffered _ _ _ _ _ _ Hs) as (Hm & Hlt & Hb). unfold sha_update.
  destruct (Nat.ltb_spec 0 (buffered s)) as [Hpos|Hz].
  - destruct (Nat.ltb_spec (buffered s + Nat.min (64 - buffered s) (length data)) 64) as [Hpart|Hfull].
    + rewrite Nat.min_r in * by lia. rewrite take_ge by lia. apply (holds_more _ _ _ _ _ _ _ Hs). lia.
    + assert (64 - buffered s <= length data)%nat by lia. rewrite Nat.min_l in * by lia. set (need := (64 - buffered s)%nat) in *.
      destruct (holds_full _ _ _ _ _ _ (take need data) Hs) as (_ & k & Hk & ->); [rewrite length_take; lia|].
      replace (d ++ data) with ((d ++ take need data) ++ drop need data) by (by rewrite <- app_assoc, take_drop).
      apply absorb_taken; [done|].
      rewrite length_write_at; [done|]. rewrite length_take. lia.
  - assert (buffered s = 0%nat) as H0 by lia. rewrite H0 in Hm. unfold taken in Hs. rewrite H0 in Hs.
    assert (length d = (64 * (length d / 64))%nat) as Hk by (pose proof (Nat.div_mod_eq (length d) 64); lia).
    rewrite (holds_whole _ _ _ _ _ Hs). by apply absorb_taken.
Qed.

Lemma push_taken s d b : taken s d -> taken (push_raw s b) (d ++ [b]).
Proof.
  intros Hs. pose proof (holds_buffered _ _ _ _ _ _ Hs) as (_ & Hlt & Hb). unfold push_raw.
  destruct (Nat.eqb_spec (S (buffered s)) 64) as [He|He].
  - destruct (holds_full _ _ _ _ _ _ [b] Hs) as (_ & k & Hk & ->); [simpl; lia|].
    unfold taken. cbn. exists k, (d ++ [b]), []. rewrite app_nil_r. split_and!; (done || simpl; try lia).
    rewrite length_write_at; [done|simpl; lia].
  - unfold taken. cbn. rewrite <- Nat.add_1_r. apply holds_more; [done|]. simpl. lia.
Qed.
Lemma raw_taken l s d : taken s d -> taken (update_raw l s) (d ++ l).
Proof.
  unfold update_raw. revert s d. induction l as [|b l IH]; intros s d Hs; [by rewrite app_nil_r|].
  cbn. rewrite cons_middle, app_assoc. by apply IH, push_taken.
Qed.

(** The padding loop stops at 56 buffered bytes, after [j] zeros. *)
Lemma pad_loop_zeros fuel s d j :
  taken s d -> (j <= fuel)%nat -> ((length d + j) mod 64 = 56)%nat -> (j < 64)%nat ->
  taken (pad_loop fuel s) (d ++ replicate j x00) /\ buffered (pad_loop fuel s) = 56%nat.
Proof.
  revert s d j. induction fuel as [|fuel IH]; intros s d j Hs Hj Hm H64; cbn [pad_loop];
    pose proof (holds_buffered _ _ _ _ _ _ Hs) as (Hb & _).
  - assert (j = 0%nat) as -> by lia. rewrite Nat.add_0_r in Hm. rewrite app_nil_r. split; [done|lia].
  - destruct (Nat.eqb_spec (buffered s) 56) as [He|He].
    + assert (j = 0%nat) as ->.
      { pose proof (Nat.div_mod_eq (length d) 64). pose proof (Nat.div_mod_eq (length d + j) 64). lia. }
      rewrite app_nil_r. by split.
    + destruct j as [|j]; [rewrite Nat.add_0_r in Hm; lia|].
      cbn [replicate]. rewrite cons_middle, app_assoc.
      apply IH; [by apply raw_taken|lia| |lia].
      rewrite length_app. cbn. by rewrite <- Nat.add_assoc.
Qed.

Lemma len_bits_raw l s : len_bits (update_raw l s) = len_bits s.
Proof.
  unfold update_raw. revert s. induction l as [|b l IH]; intros s; [done|]. cbn. rewrite IH.
  unfold push_raw. by destruct (_ =? 64)%nat.
Qed.
Lemma len_bits_update data s : len_bits (sha_update data s) = wrap 64 (len_bits s + zlen data * 8).
Proof.
  unfold sha_update, absorb_blocks. destruct (0 <? _)%nat; [destruct (_ <? _)%nat|]; [done| |];
    by destruct (while_blocks _ _ _ _).
Qed.

Lemma pad_zeros_56 n : ((n + 1 + pad_zeros n) mod 64 = 56)%nat /\ (pad_zeros n < 64)%nat.
Proof.
  unfold pad_zeros. pose proof (Nat.div_mod_eq n 64) as Hn.
  pose proof (Nat.mod_upper_bound n 64 ltac:(lia)) as Hr.
  destruct (Nat.le_gt_cases (n mod 64) 55).
  - assert ((119 - n mod 64) mod 64 = 55 - n mod 64)%nat as -> by (symmetry; apply Nat.mod_unique with 1%nat; lia).
    split; [|lia]. symmetry. apply Nat.mod_unique with (n / 64)%nat; lia.
  - assert ((119 - n mod 64) mod 64 = 119 - n mod 64)%nat as -> by (apply Nat.mod_small; lia).
    split; [|lia]. symmetry. apply Nat.mod_unique with (S (n / 64)); lia.
Qed.

Lemma finish_spec s d : taken s d -> len_bits s = wrap 64 (8 * zlen d) -> finish s = sha256_spec d.
Proof.
  intros Hs Hl. unfold finish. pose proof (pad_zeros_56 (length d)) as [Hz Hz64].
  destruct (pad_loop_zeros 64 (update_raw [x80] s) (d ++ [x80]) (pad_zeros (length d))) as [Hp Hp56];
    [by apply raw_taken|lia|by rewrite length_app|done|].
  pose proof (raw_taken (to_be 8 (len_bits s)) _ _ Hp) as Ht.
  pose proof (holds_buffered _ _ _ _ _ _ Hp) as (Hm1 & _).
  pose proof (holds_buffered _ _ _ _ _ _ Ht) as (Hm2 & _).
  assert (buffered (update_raw (to_be 8 (len_bits s)) (pad_loop 64 (update_raw [x80] s))) = 0%nat) as H0.
  { rewrite Hm2, !length_app. rewrite Hp56 in Hm1. rewrite !length_app in Hm1.
    assert (length (to_be 8 (len_bits s)) = 8%nat) as -> by (unfold to_be; rewrite length_rev; apply length_le_split).
    rewrite <- Nat.Div0.add_mod_idemp_l, <- Hm1. done. }
  unfold taken in Ht. rewrite H0 in Ht. rewrite (holds_whole _ _ _ _ _ Ht).
  rewrite <- digest_of_blocks. unfold pad. rewrite Hl. by rewrite <- !app_assoc.
Qed.

(** C36: The streaming hasher computes the FIPS 180-4 digest ([Fips], stated apart from the
    code: its functions, constants, schedule, rounds and padding) of everything it was given,
    however that was cut into updates, empty ones and ones that do not fill the buffered block
    included; and [hex_digest] is that digest in lowercase digits. *)
Theorem sha256_any_chunking (chunks : list bytes) :
  let d := concat chunks in
  finish (foldl (fun s c => sha_update c s) sha256_new chunks) = sha256_spec d /\
  hex_digest d = concat (hex2 <$> sha256_spec d).
Proof.
  assert (H : forall s d, taken s d -> len_bits s = wrap 64 (8 * zlen d) ->
    finish (foldl (fun s c => sha_update c s) s chunks) = sha256_spec (d ++ concat chunks)).
  { induction chunks as [|c chunks IH]; intros s d Hs Hl; cbn; [rewrite app_nil_r; by apply finish_spec|].
    rewrite app_assoc. apply IH; [by apply update_taken|].
    rewrite len_bits_update, Hl, zlen_app. unfold wrap. rewrite Zplus_mod_idemp_l. f_equal. lia. }
  cbn. split; [by apply (H _ []); [apply taken_new|]|].
  unfold hex_digest. f_equal. f_equal. change (concat chunks) with ([] ++ concat chunks).
  apply finish_spec; [apply update_taken, taken_new|].
  rewrite len_bits_update. cbn [len_bits sha256_new]. f_equal. rewrite app_nil_l. lia.
Qed.
