(* ===== verification/Protocol.v ===== *)
(** * Protocol: the codec's error type and its byte writer
    (crates/tobii-protocol/src/error.rs, bytes.rs)

    [Writer]'s methods take [&mut self]; here each returns the new writer, and
    [w |> op] reads a sequence of calls in the order the code makes them. *)
From S2P Require Import Prelude.

Inductive ProtocolError :=
| ShortRead
| WrongType (expected found : byte)
| WrongSize (expected found : Z)
| WrongTag (expected found : Z)
| BadDirection (b : byte)
| BadLength (n : Z)
| Overflow.

#[export] Instance ProtocolError_eq_dec : EqDecision ProtocolError.
Proof. solve_decision. Defined.

Record Writer := { wbuf : bytes }.

Definition new_writer : Writer := {| wbuf := [] |}.
Definition push_bytes (b : bytes) (w : Writer) : Writer := {| wbuf := wbuf w ++ b |}.
Definition push_u8 (v : byte) (w : Writer) : Writer := {| wbuf := wbuf w ++ [v] |}.
Definition push_be32 (v : Z) (w : Writer) : Writer := {| wbuf := wbuf w ++ to_be 4 v |}.
Definition push_be64 (v : Z) (w : Writer) : Writer := {| wbuf := wbuf w ++ to_be 8 v |}.
Definition push_le32 (v : Z) (w : Writer) : Writer := {| wbuf := wbuf w ++ to_le 4 v |}.
Definition writer_len (w : Writer) : Z := zlen (wbuf w).
Definition writer_is_empty (w : Writer) : bool := writer_len w =? 0.
Definition into_vec (w : Writer) : bytes := wbuf w.

Notation "w |> f" := (f w) (at level 50, left associativity, only parsing) : tobii_scope.

(** bytes.rs's own test. *)
Example writes_big_and_little_endian :
  into_vec (new_writer |> push_u8 xab |> push_be32 0x00112233 |> push_le32 0x00112233
            |> push_be64 0x0102030405060708 |> push_bytes [xee; xff])
  = [xab; x00; x11; x22; x33; x33; x22; x11; x00; x01; x02; x03; x04; x05; x06; x07; x08; xee; xff].
Proof. reflexivity. Qed.

Create Rewrite HintDb wr.
Lemma wbuf_push_bytes b w : wbuf (push_bytes b w) = wbuf w ++ b. Proof. done. Qed.
Lemma wbuf_push_u8 v w : wbuf (push_u8 v w) = wbuf w ++ [v]. Proof. done. Qed.
Lemma wbuf_push_be32 v w : wbuf (push_be32 v w) = wbuf w ++ to_be 4 v. Proof. done. Qed.
Lemma wbuf_push_be64 v w : wbuf (push_be64 v w) = wbuf w ++ to_be 8 v. Proof. done. Qed.
Lemma wbuf_push_le32 v w : wbuf (push_le32 v w) = wbuf w ++ to_le 4 v. Proof. done. Qed.
Lemma wbuf_new : wbuf new_writer = []. Proof. done. Qed.
#[export] Hint Rewrite wbuf_push_bytes wbuf_push_u8 wbuf_push_be32 wbuf_push_be64
  wbuf_push_le32 wbuf_new : wr.
