(* ===== verification/Tlv.v ===== *)
(** * Tlv: the field codec of the wire protocol (crates/tobii-protocol/src/tlv.rs)

    A field is a type byte, a 4-byte big-endian size and a body. The writers
    append to a [Writer]; the [Reader] is a cursor over a slice whose methods
    return [Result] and advance it, modelled in the error-state monad [M].

    [Field] packages one kind of field: how a wire value is laid out, what the
    reader makes of it and the law that reading back what was laid out yields
    the value and leaves the cursor exactly behind it. Everything that decodes a
    sequence of fields (commands, gaze rows, display areas) is proved against
    this interface. [safe] is the other half: no reader leaves the buffer. *)
From S2P Require Import Prelude F64 Utf8 Protocol.

(** ** Constants and encoding *)
Definition Q42_SCALE : f64 := two42.
Definition TAG_XDS_ROW_MASK : Z := 0x0bb8.
Definition TAG_XDS_COLUMN : Z := 0x020bb9.
Definition TAG_POINT2D : Z := 0x021f40.
Definition TAG_POINT3D : Z := 0x031f41.

Definition split_tag (tag : Z) : Z * Z := (Z.shiftr tag 16, Z.land tag 0xffff).

Definition q42_encode (mm : f64) : Z := as_i64 (fround (fmul mm Q42_SCALE)).

Definition write_tag (tag : Z) (w : Writer) : Writer :=
  w |> push_u8 x05 |> push_be32 4 |> push_be32 tag.
Definition write_u32 (v : Z) (w : Writer) : Writer :=
  w |> push_u8 x02 |> push_be32 4 |> push_be32 v.
Definition write_f64_q42 (v : f64) (w : Writer) : Writer :=
  w |> push_u8 x04 |> push_be32 8 |> push_be64 (wrap 64 (q42_encode v)).
Definition write_point (x y z : f64) (w : Writer) : Writer :=
  w |> write_tag TAG_POINT3D |> write_f64_q42 x |> write_f64_q42 y |> write_f64_q42 z.

(** ** The reader *)
Record Reader := { buf : bytes; pos : Z }.

Definition new_reader (b : bytes) : Reader := {| buf := b; pos := 0 |}.
(** [saturating_sub] *)
Definition remaining (r : Reader) : Z := Z.max 0 (zlen (buf r) - pos r).
Definition skip (n : Z) (r : Reader) : Reader :=
  {| buf := buf r; pos := Z.min (pos r + n) (zlen (buf r)) |}.

Abbreviation RM A := (M Reader ProtocolError A).

Definition read_byte : RM byte := fun r =>
  if remaining r <? 1 then (Err ShortRead, r)
  else match buf r !! Z.to_nat (pos r) with
       | Some v => (Ok v, {| buf := buf r; pos := pos r + 1 |})
       | None => (Err ShortRead, r)   (* out of range: excluded by the guard *)
       end.

Definition take_n (n : Z) : RM bytes := fun r =>
  if remaining r <? n then (Err ShortRead, r)
  else (Ok (slice (buf r) (pos r) (pos r + n)), {| buf := buf r; pos := pos r + n |}).

Definition u32_be : RM Z := of_be <$> take_n 4.
Definition i32_be : RM Z := (fun b => sgn 32 (of_be b)) <$> take_n 4.
Definition i64_be : RM Z := (fun b => sgn 64 (of_be b)) <$> take_n 8.

Definition read_header_var (expected_type : byte) : RM Z :=
  t ← read_byte;
  if negb (Byte.eqb t expected_type) then throw (WrongType expected_type t) else u32_be.

Definition read_header (expected_type : byte) (expected_size : Z) : RM unit :=
  s ← read_header_var expected_type;
  if negb (s =? expected_size) then throw (WrongSize expected_size s) else mret tt.

Definition read_prolog_tag : RM Z := read_header x05 4 ;; u32_be.
Definition read_u32 : RM Z := read_header x02 4 ;; u32_be.
Definition read_enum4 : RM Z := read_header x01 4 ;; u32_be.

(** [u32::saturating_add] *)
Definition sat_add32 (a b : Z) : Z := Z.min (a + b) (2 ^ 32 - 1).

Definition read_string : RM bytes :=
  size ← read_header_var x14;
  count ← u32_be;
  let expected := sat_add32 count 4 in
  if negb (size =? expected) then throw (WrongSize expected size)
  else from_utf8_lossy <$> take_n count.

Definition read_fixed16x16 : RM f64 :=
  read_header x03 4 ;; (fun v => fdiv (of_int v) (of_int 65536)) <$> i32_be.
Definition read_fixed22x42 : RM f64 :=
  read_header x04 8 ;; (fun v => fdiv (of_int v) Q42_SCALE) <$> i64_be.
Definition read_s64 : RM Z := read_header x06 8 ;; i64_be.

Definition read_xds_row : RM Z :=
  tag ← read_prolog_tag;
  let '(count, type_id) := split_tag tag in
  if negb (type_id =? TAG_XDS_ROW_MASK) then throw (WrongTag TAG_XDS_ROW_MASK tag)
  else mret count.

Definition read_xds_column : RM Z :=
  tag ← read_prolog_tag;
  if negb (tag =? TAG_XDS_COLUMN) then throw (WrongTag TAG_XDS_COLUMN tag) else read_u32.

(** [[f64; 3]] and [[f64; 2]]. *)
Definition vec3 : Type := f64 * f64 * f64.
Definition vec2 : Type := f64 * f64.

Definition read_point3d : RM vec3 :=
  tag ← read_prolog_tag;
  if negb (tag =? TAG_POINT3D) then throw (WrongTag TAG_POINT3D tag)
  else a ← read_fixed22x42; b ← read_fixed22x42; c ← read_fixed22x42; mret (a, b, c).

Definition read_point2d : RM vec2 :=
  tag ← read_prolog_tag;
  if negb (tag =? TAG_POINT2D) then throw (WrongTag TAG_POINT2D tag)
  else a ← read_fixed22x42; b ← read_fixed22x42; mret (a, b).

(** [read_byte] is the source's [Reader::u8], [take_n] its [Reader::take]. *)

(** ** Safety: a reader stays inside its buffer *)
Definition wf (r : Reader) : Prop := 0 <= pos r <= zlen (buf r).

(** [r'] is [r] advanced. *)
Definition advances (r r' : Reader) : Prop :=
  buf r' = buf r /\ pos r <= pos r' /\ wf r'.

Definition safe {A} (m : RM A) : Prop := forall r, wf r -> advances r (snd (m r)).

Lemma advances_refl r : wf r -> advances r r.
Proof. unfold advances. auto with lia. Qed.
Lemma advances_trans r1 r2 r3 : advances r1 r2 -> advances r2 r3 -> advances r1 r3.
Proof. unfold advances. intros (?&?&?) (?&?&?). split_and!; [congruence|lia|done]. Qed.
Lemma wf_new b : wf (new_reader b).
Proof. unfold wf. simpl. pose proof (zlen_nonneg b). lia. Qed.
Lemma skip_advances n r : 0 <= n -> wf r -> advances r (skip n r).
Proof. unfold wf, advances, wf. simpl. intros. split_and!; [done|lia|lia|lia]. Qed.

Lemma safe_ret {A} (a : A) : safe (mret a).
Proof. intros r H. by apply advances_refl. Qed.
Lemma safe_throw {A} e : safe (throw e : RM A).
Proof. intros r H. by apply advances_refl. Qed.
Lemma safe_bind {A B} (m : RM A) (k : A -> RM B) : safe m -> (forall a, safe (k a)) -> safe (m ≫= k).
Proof.
  intros Hm Hk r H. specialize (Hm r H). unfold mbind, M_bind.
  destruct (m r) as [[a|e] s1]; simpl in Hm |- *; [|done].
  eapply advances_trans; [exact Hm|]. apply Hk. apply Hm.
Qed.
Lemma safe_fmap {A B} (f : A -> B) (m : RM A) : safe m -> safe (f <$> m).
Proof.
  intros Hm r H. specialize (Hm r H). unfold fmap, M_fmap. by destruct (m r) as [[|] ?].
Qed.
Lemma safe_if {A} (b : bool) (m m' : RM A) : safe m -> safe m' -> safe (if b then m else m').
Proof. by destruct b. Qed.
Lemma safe_take_n n : 0 <= n -> safe (take_n n).
Proof.
  intros Hn r H. unfold take_n. destruct (Z.ltb_spec (remaining r) n); simpl.
  - by apply advances_refl.
  - unfold wf, remaining in *. unfold advances, wf. simpl. split_and!; [done|lia..].
Qed.
Lemma safe_read_byte : safe read_byte.
Proof.
  intros r H. unfold read_byte. destruct (Z.ltb_spec (remaining r) 1); [by apply advances_refl|].
  destruct (buf r !! _); simpl; [|by apply advances_refl].
  unfold wf, remaining in *. unfold advances, wf. simpl. split_and!; [done|lia..].
Qed.
Create HintDb safe discriminated.
#[export] Hint Resolve safe_ret safe_throw safe_bind safe_fmap safe_if safe_read_byte : safe.
#[export] Hint Extern 2 (safe (take_n _)) => (apply safe_take_n; lia) : safe.

(** Walk a reader's body. *)
Ltac prove_safe := repeat (first [ progress intros | apply safe_bind | apply safe_fmap | apply safe_if
                                 | eauto with safe ]).

Lemma safe_u32_be : safe u32_be. Proof. unfold u32_be. prove_safe. Qed.
Lemma safe_i32_be : safe i32_be. Proof. unfold i32_be. prove_safe. Qed.
Lemma safe_i64_be : safe i64_be. Proof. unfold i64_be. prove_safe. Qed.
#[export] Hint Resolve safe_u32_be safe_i32_be safe_i64_be : safe.
Lemma safe_read_header_var t : safe (read_header_var t).
Proof. unfold read_header_var. prove_safe. Qed.
#[export] Hint Resolve safe_read_header_var : safe.
Lemma safe_read_header t n : safe (read_header t n).
Proof. unfold read_header. prove_safe. Qed.
#[export] Hint Resolve safe_read_header : safe.

(** A bind whose continuation needs to know what the first reader yields. *)
Definition yields {A} (m : RM A) (P : A -> Prop) : Prop :=
  forall r a r', m r = (Ok a, r') -> P a.

Lemma safe_bind_post {A B} (m : RM A) (k : A -> RM B) (P : A -> Prop) :
  safe m -> yields m P -> (forall a, P a -> safe (k a)) -> safe (m ≫= k).
Proof.
  intros Hm Hy Hk r H. specialize (Hm r H). unfold mbind, M_bind.
  destruct (m r) as [[a|e] s1] eqn:E; simpl in Hm |- *; [|done].
  eapply advances_trans; [exact Hm|]. apply Hk; [by eapply Hy|apply Hm].
Qed.

Lemma yields_u32_be : yields u32_be (is_u 32).
Proof.
  intros r a r'. unfold u32_be, fmap, M_fmap, take_n.
  destruct (Z.ltb_spec (remaining r) 4); intros; simplify_eq.
  match goal with |- is_u 32 (of_be ?l) => pose proof (of_be_range l) as Hr; assert (zlen l <= 4) end.
  { unfold slice, zlen. rewrite length_take. lia. }
  unfold is_u in *. destruct Hr as [? Hr]. split; [done|]. eapply Z.lt_le_trans; [exact Hr|].
  apply Z.pow_le_mono_r; lia.
Qed.

Lemma safe_read_prolog_tag : safe read_prolog_tag.
Proof. unfold read_prolog_tag. prove_safe. Qed.
Lemma safe_read_u32 : safe read_u32. Proof. unfold read_u32. prove_safe. Qed.
Lemma safe_read_enum4 : safe read_enum4. Proof. unfold read_enum4. prove_safe. Qed.
Lemma safe_read_s64 : safe read_s64. Proof. unfold read_s64. prove_safe. Qed.
Lemma safe_read_fixed16x16 : safe read_fixed16x16. Proof. unfold read_fixed16x16. prove_safe. Qed.
Lemma safe_read_fixed22x42 : safe read_fixed22x42. Proof. unfold read_fixed22x42. prove_safe. Qed.
#[export] Hint Resolve safe_read_prolog_tag safe_read_u32 safe_read_enum4 safe_read_s64
  safe_read_fixed16x16 safe_read_fixed22x42 : safe.
Lemma safe_read_string : safe read_string.
Proof.
  unfold read_string. apply safe_bind; [eauto with safe|intros size].
  eapply safe_bind_post; [eauto with safe|apply yields_u32_be|intros count [Hc _]].
  apply safe_if; [eauto with safe|]. apply safe_fmap, safe_take_n, Hc.
Qed.
Lemma safe_read_xds_row : safe read_xds_row.
Proof. unfold read_xds_row. prove_safe. Qed.
Lemma safe_read_xds_column : safe read_xds_column. Proof. unfold read_xds_column. prove_safe. Qed.
Lemma safe_read_point3d : safe read_point3d. Proof. unfold read_point3d. prove_safe. Qed.
Lemma safe_read_point2d : safe read_point2d. Proof. unfold read_point2d. prove_safe. Qed.
#[export] Hint Resolve safe_read_string safe_read_xds_row safe_read_xds_column
  safe_read_point3d safe_read_point2d : safe.

(** ** Reading back what was laid out *)

(** The cursor between [pre], already read, and [post]. *)
Definition at_ (pre post : bytes) : Reader := {| buf := pre ++ post; pos := zlen pre |}.

(** [m] reads exactly the bytes [l] and yields [a], whatever surrounds them; and
    given only a strict prefix of [l] it reports a short read. *)
Definition consumes {A} (m : RM A) (l : bytes) (a : A) : Prop :=
  (forall pre post, m (at_ pre (l ++ post)) = (Ok a, at_ (pre ++ l) post)) /\
  (forall pre n, (n < length l)%nat -> fst (m (at_ pre (take n l))) = Err ShortRead).

Lemma remaining_at pre post : remaining (at_ pre post) = zlen post.
Proof. unfold remaining, at_. simpl. len. pose proof (zlen_nonneg post). lia. Qed.

(** The start of every payload. *)
Lemma skip_prefix a b l : skip 2 (new_reader (a :: b :: l)) = at_ [a; b] l.
Proof.
  unfold skip, at_, new_reader. simpl. f_equal. pose proof (zlen_nonneg l). len.
Qed.

Lemma consumes_ret {A} (a : A) : consumes (mret a) [] a.
Proof.
  split; [|intros pre n Hn; simpl in Hn; lia].
  intros. rewrite app_nil_r. done.
Qed.

Lemma consumes_take n l : zlen l = n -> consumes (take_n n) l l.
Proof.
  intros <-. split.
  - intros pre post. unfold take_n. rewrite remaining_at. len.
    rewrite (proj2 (Z.ltb_ge _ _)) by (pose proof (zlen_nonneg post); lia).
    unfold at_. simpl. rewrite (slice_mid pre l post) by done. by rewrite zlen_app, <- app_assoc.
  - intros pre k Hk. unfold take_n. rewrite remaining_at.
    rewrite (proj2 (Z.ltb_lt _ _)); [done|]. unfold zlen. rewrite length_take. lia.
Qed.

Lemma consumes_byte b : consumes read_byte [b] b.
Proof.
  split.
  - intros pre post. unfold read_byte. rewrite remaining_at. len.
    rewrite (proj2 (Z.ltb_ge _ _)) by (pose proof (zlen_nonneg post); lia).
    unfold at_. simpl. unfold zlen. rewrite Nat2Z.id, lookup_app_r, Nat.sub_diag by lia. simpl.
    f_equal. f_equal; [by rewrite <- app_assoc|]. rewrite length_app. simpl. lia.
  - intros pre k Hk. replace k with 0%nat by (simpl in Hk; lia).
    unfold read_byte. rewrite remaining_at. done.
Qed.

Lemma consumes_fmap {A B} (f : A -> B) m l a : consumes m l a -> consumes (f <$> m) l (f a).
Proof.
  intros [H1 H2]. split; intros; unfold fmap, M_fmap.
  - by rewrite H1.
  - specialize (H2 pre n H). destruct (m _) as [[|] ?]; simpl in *; congruence.
Qed.

Lemma consumes_bind {A B} (m : RM A) (k : A -> RM B) l1 l2 a b :
  consumes m l1 a -> consumes (k a) l2 b -> consumes (m ≫= k) (l1 ++ l2) b.
Proof.
  intros [H1 H1'] [H2 H2']. split.
  - intros. rewrite <- app_assoc, (M_bind_ok _ _ _ _ _ (H1 _ _)), H2. by rewrite app_assoc.
  - intros pre n Hn. rewrite length_app in Hn.
    destruct (le_lt_dec (length l1) n).
    + rewrite take_app_ge by done. rewrite (M_bind_ok _ _ _ _ _ (H1 _ _)). apply H2'. lia.
    + rewrite take_app_le by lia. specialize (H1' pre n ltac:(done)).
      unfold mbind, M_bind. destruct (m _) as [[|] ?]; simpl in *; congruence.
Qed.

(** A reader equal to one that consumes, whatever the state. *)
Lemma consumes_ext {A} (m m' : RM A) l l' a :
  consumes m l a -> (forall r, m' r = m r) -> l' = l -> consumes m' l' a.
Proof. intros [H1 H2] He ->. split; intros; rewrite He; auto. Qed.

(** ** Layouts *)
Definition field (t : byte) (body : bytes) : bytes := [t] ++ to_be 4 (zlen body) ++ body.

Lemma consumes_u32_be v : is_u 32 v -> consumes u32_be (to_be 4 v) v.
Proof.
  intros Hv. rewrite <- (of_be_to_be 4 v) at 2 by done. apply consumes_fmap, consumes_take. by len.
Qed.
Lemma consumes_header_var t n : is_u 32 n -> consumes (read_header_var t) ([t] ++ to_be 4 n) n.
Proof.
  intros Hn. apply consumes_bind with (a := t); [apply consumes_byte|].
  rewrite byte_eqb_refl. by apply consumes_u32_be.
Qed.
Lemma consumes_header t n : is_u 32 n -> consumes (read_header t n) ([t] ++ to_be 4 n) tt.
Proof.
  intros Hn. rewrite <- (app_nil_r (_ ++ _)).
  eapply consumes_bind; [by apply consumes_header_var|]. rewrite Z.eqb_refl. apply consumes_ret.
Qed.
(** A header of the size of the body, then the body. *)
Lemma consumes_field {A} t n (m : RM A) body a :
  zlen body = n -> is_u 32 n -> consumes m body a ->
  consumes (read_header t n ;; m) (field t body) a.
Proof.
  intros Hl Hn Hm. unfold field. rewrite Hl, app_assoc.
  eapply consumes_bind; [by apply consumes_header|done].
Qed.
Lemma consumes_sgn w n (v : Z) :
  Z.of_nat n * 8 = w -> 0 < w -> is_i w v ->
  consumes ((fun b => sgn w (of_be b)) <$> take_n (Z.of_nat n)) (to_be n (wrap w v)) v.
Proof.
  intros Hw Hp Hv. pose proof (sgn_wrap w v Hp Hv) as Hs.
  rewrite <- Hs at 2.
  rewrite <- (of_be_to_be n (wrap w v)) at 2 by (rewrite Hw; apply wrap_range; lia).
  apply (consumes_fmap (fun b => sgn w (of_be b))), consumes_take. by len.
Qed.

(** ** The field interface *)
Record Field := {
  fwire : Type;                 (* what is on the wire *)
  fval : Type;                  (* what the reader returns *)
  fgood : fwire -> Prop;        (* representable in the field's width *)
  fenc : fwire -> bytes;
  fdec : fwire -> fval;
  frd : RM fval;
  frd_safe : safe frd;
  frd_enc : forall a, fgood a -> consumes frd (fenc a) (fdec a);
}.

Definition q42_of (z : Z) : f64 := fdiv (of_int z) Q42_SCALE.
Definition fix16_of (z : Z) : f64 := fdiv (of_int z) (of_int 65536).

Definition tlv_tag (v : Z) : bytes := field x05 (to_be 4 v).
Definition tlv_u32 (v : Z) : bytes := field x02 (to_be 4 v).
Definition tlv_enum4 (v : Z) : bytes := field x01 (to_be 4 v).
Definition tlv_s64 (v : Z) : bytes := field x06 (to_be 8 (wrap 64 v)).
Definition tlv_fix16 (v : Z) : bytes := field x03 (to_be 4 (wrap 32 v)).
Definition tlv_q42 (v : Z) : bytes := field x04 (to_be 8 (wrap 64 v)).
Definition tlv_string (s : bytes) : bytes := field x14 (to_be 4 (zlen s) ++ s).
Definition tlv_point3d (p : Z * Z * Z) : bytes :=
  let '(x, y, z) := p in tlv_tag TAG_POINT3D ++ tlv_q42 x ++ tlv_q42 y ++ tlv_q42 z.
Definition tlv_point2d (p : Z * Z) : bytes :=
  let '(x, y) := p in tlv_tag TAG_POINT2D ++ tlv_q42 x ++ tlv_q42 y.

#[global] Arguments field : simpl never.
#[global] Arguments tlv_point3d : simpl never.
#[global] Arguments tlv_point2d : simpl never.

(** A constant in its range. *)
Ltac u32_const := unfold is_u; split; vm_compute; (reflexivity || discriminate).

Lemma consumes_tag v : is_u 32 v -> consumes read_prolog_tag (tlv_tag v) v.
Proof. intros. apply consumes_field; [by len|u32_const|by apply consumes_u32_be]. Qed.
Lemma consumes_u32 v : is_u 32 v -> consumes read_u32 (tlv_u32 v) v.
Proof. intros. apply consumes_field; [by len|u32_const|by apply consumes_u32_be]. Qed.
Lemma consumes_enum4 v : is_u 32 v -> consumes read_enum4 (tlv_enum4 v) v.
Proof. intros. apply consumes_field; [by len|u32_const|by apply consumes_u32_be]. Qed.
Lemma consumes_s64 v : is_i 64 v -> consumes read_s64 (tlv_s64 v) v.
Proof.
  intros. apply consumes_field; [by len|u32_const|]. by apply (consumes_sgn 64 8).
Qed.
Lemma fmap_compose {A B C} (f : A -> B) (g : B -> C) (m : RM A) (r : Reader) :
  ((fun a => g (f a)) <$> m) r = (g <$> (f <$> m)) r.
Proof. unfold fmap, M_fmap. by destruct (m r) as [[|] ?]. Qed.
Lemma consumes_fix16 v : is_i 32 v -> consumes read_fixed16x16 (tlv_fix16 v) (fix16_of v).
Proof.
  intros. apply consumes_field; [by len|u32_const|].
  apply (consumes_fmap fix16_of). by apply (consumes_sgn 32 4).
Qed.
Lemma consumes_q42 v : is_i 64 v -> consumes read_fixed22x42 (tlv_q42 v) (q42_of v).
Proof.
  intros. apply consumes_field; [by len|u32_const|].
  apply (consumes_fmap q42_of). by apply (consumes_sgn 64 8).
Qed.
(** The declared size of a string counts its 4-byte length too. *)
Lemma consumes_string s :
  zlen s + 4 < 2 ^ 32 -> consumes read_string (tlv_string s) (from_utf8_lossy s).
Proof.
  intros Hs. pose proof (zlen_nonneg s).
  assert (Hl : zlen (to_be 4 (zlen s) ++ s) = 4 + zlen s) by len.
  unfold tlv_string, field. rewrite Hl, app_assoc.
  eapply consumes_bind; [apply consumes_header_var; unfold is_u; lia|].
  eapply consumes_bind; [apply consumes_u32_be; unfold is_u; lia|].
  unfold sat_add32. rewrite Z.min_l, (Z.add_comm 4), Z.eqb_refl by lia.
  by apply consumes_fmap, consumes_take.
Qed.
Lemma consumes_point3d x y z : is_i 64 x -> is_i 64 y -> is_i 64 z ->
  consumes read_point3d (tlv_point3d (x, y, z)) (q42_of x, q42_of y, q42_of z).
Proof.
  intros. unfold tlv_point3d. eapply consumes_bind; [apply consumes_tag; u32_const|].
  rewrite Z.eqb_refl. do 2 (eapply consumes_bind; [by apply consumes_q42|]).
  rewrite <- (app_nil_r (tlv_q42 z)).
  eapply consumes_bind; [by apply consumes_q42|apply consumes_ret].
Qed.
Lemma consumes_point2d x y : is_i 64 x -> is_i 64 y ->
  consumes read_point2d (tlv_point2d (x, y)) (q42_of x, q42_of y).
Proof.
  intros. unfold tlv_point2d. eapply consumes_bind; [apply consumes_tag; u32_const|].
  rewrite Z.eqb_refl. eapply consumes_bind; [by apply consumes_q42|].
  rewrite <- (app_nil_r (tlv_q42 y)).
  eapply consumes_bind; [by apply consumes_q42|apply consumes_ret].
Qed.

(** A tag is an element count above a 16-bit type id. *)
Definition mk_tag (count type_id : Z) : Z := count * 2 ^ 16 + type_id.
Lemma split_mk_tag count type_id :
  is_u 16 type_id -> 0 <= count -> split_tag (mk_tag count type_id) = (count, type_id).
Proof.
  unfold is_u, split_tag, mk_tag. intros. rewrite Z.shiftr_div_pow2 by lia.
  change 0xffff with (Z.ones 16). rewrite Z.land_ones by lia. f_equal.
  - rewrite Z.div_add_l by lia. rewrite Z.div_small; lia.
  - rewrite Z.add_comm, Z.mod_add, Z.mod_small; lia.
Qed.
Lemma mk_tag_u32 count type_id : is_u 16 type_id -> is_u 16 count -> is_u 32 (mk_tag count type_id).
Proof. unfold is_u, mk_tag. intros. change (2 ^ 32) with (2 ^ 16 * 2 ^ 16). nia. Qed.

Definition tlv_row (count : Z) : bytes := tlv_tag (mk_tag count TAG_XDS_ROW_MASK).
Definition tlv_column (id : Z) : bytes := tlv_tag TAG_XDS_COLUMN ++ tlv_u32 id.

Lemma consumes_row n : is_u 16 n -> consumes read_xds_row (tlv_row n) n.
Proof.
  intros Hn. unfold tlv_row. rewrite <- (app_nil_r (tlv_tag _)).
  assert (is_u 16 TAG_XDS_ROW_MASK) by done.
  eapply consumes_bind; [apply consumes_tag; by apply mk_tag_u32|].
  rewrite split_mk_tag by (done || apply Hn). rewrite Z.eqb_refl. apply consumes_ret.
Qed.
Lemma consumes_column id : is_u 32 id -> consumes read_xds_column (tlv_column id) id.
Proof.
  intros. eapply consumes_bind; [apply consumes_tag; u32_const|].
  rewrite Z.eqb_refl. by apply consumes_u32.
Qed.

Definition good3 (p : Z * Z * Z) : Prop := let '(x, y, z) := p in is_i 64 x /\ is_i 64 y /\ is_i 64 z.
Definition good2 (p : Z * Z) : Prop := let '(x, y) := p in is_i 64 x /\ is_i 64 y.
Definition q42_of3 (p : Z * Z * Z) : vec3 := let '(x, y, z) := p in (q42_of x, q42_of y, q42_of z).
Definition q42_of2 (p : Z * Z) : vec2 := let '(x, y) := p in (q42_of x, q42_of y).

Definition F_u32 : Field := {|
  fgood := is_u 32; fenc := tlv_u32; fdec := fun v => v; frd := read_u32;
  frd_safe := safe_read_u32; frd_enc := consumes_u32 |}.
Definition F_s64 : Field := {|
  fgood := is_i 64; fenc := tlv_s64; fdec := fun v => v; frd := read_s64;
  frd_safe := safe_read_s64; frd_enc := consumes_s64 |}.
Definition F_fix16 : Field := {|
  fgood := is_i 32; fenc := tlv_fix16; fdec := fix16_of; frd := read_fixed16x16;
  frd_safe := safe_read_fixed16x16; frd_enc := consumes_fix16 |}.
Program Definition F_point2d : Field := {|
  fgood := good2; fenc := tlv_point2d; fdec := q42_of2; frd := read_point2d;
  frd_safe := safe_read_point2d |}.
Next Obligation. intros [x y] [??]. by apply consumes_point2d. Qed.
Program Definition F_point3d : Field := {|
  fgood := good3; fenc := tlv_point3d; fdec := q42_of3; frd := read_point3d;
  frd_safe := safe_read_point3d |}.
Next Obligation. intros [[x y] z] (?&?&?). by apply consumes_point3d. Qed.

(** ** The writers lay fields out *)
Lemma field4 t v : field t (to_be 4 v) = [t] ++ to_be 4 4 ++ to_be 4 v.
Proof. unfold field. by rewrite zlen_to_be. Qed.
Lemma field8 t v : field t (to_be 8 v) = [t] ++ to_be 4 8 ++ to_be 8 v.
Proof. unfold field. by rewrite zlen_to_be. Qed.
Lemma wbuf_write_tag t w : wbuf (write_tag t w) = wbuf w ++ tlv_tag t.
Proof. unfold write_tag, tlv_tag. rewrite field4. autorewrite with wr. by rewrite <- !app_assoc. Qed.
Lemma wbuf_write_u32 v w : wbuf (write_u32 v w) = wbuf w ++ tlv_u32 v.
Proof. unfold write_u32, tlv_u32. rewrite field4. autorewrite with wr. by rewrite <- !app_assoc. Qed.
Lemma wbuf_write_f64_q42 v w : wbuf (write_f64_q42 v w) = wbuf w ++ tlv_q42 (q42_encode v).
Proof.
  unfold write_f64_q42, tlv_q42. rewrite field8. autorewrite with wr. by rewrite <- !app_assoc.
Qed.
#[export] Hint Rewrite wbuf_write_tag wbuf_write_u32 wbuf_write_f64_q42 : wr.
Lemma wbuf_write_point x y z w :
  wbuf (write_point x y z w)
  = wbuf w ++ tlv_point3d (q42_encode x, q42_encode y, q42_encode z).
Proof. unfold write_point, tlv_point3d. autorewrite with wr. by rewrite <- !app_assoc. Qed.
#[export] Hint Rewrite wbuf_write_point : wr.

(** ** Q42 *)

(** [x] is a coordinate the fixed-point format can carry: [z / 2^42]. *)
Definition q42_coord (z : Z) (x : f64) : Prop := x = q42_of z /\ Z.abs z < 2 ^ 53.

Lemma q42_encode_of z : Z.abs z < 2 ^ 53 -> q42_encode (q42_of z) = z.
Proof. apply q42_bridge. Qed.
Lemma q42_encode_range x : is_i 64 (q42_encode x).
Proof. apply as_i64_range. Qed.
Lemma q42_small z : Z.abs z < 2 ^ 53 -> is_i 64 z.
Proof. unfold is_i. change (2 ^ (64 - 1)) with (2 ^ 10 * 2 ^ 53). lia. Qed.

Lemma field_length t b : length (field t b) = (5 + length b)%nat.
Proof. unfold field. rewrite !length_app. unfold to_be. rewrite length_rev, length_le_split. simpl. lia. Qed.
Lemma zlen_field t b : zlen (field t b) = 5 + zlen b.
Proof. unfold zlen. rewrite field_length. lia. Qed.
#[export] Hint Rewrite zlen_field : zlen.

(** ** What a successful read says about the bytes *)

(** If [m] succeeds, what it consumed is the layout of what it returned. *)
Definition emits {A} (m : RM A) (enc : A -> bytes) (P : A -> Prop) : Prop :=
  forall pre post a r', m (at_ pre post) = (Ok a, r') ->
  P a /\ exists rest, post = enc a ++ rest /\ r' = at_ (pre ++ enc a) rest.

Lemma take_n_inv n pre post l r' : 0 <= n ->
  take_n n (at_ pre post) = (Ok l, r') ->
  zlen l = n /\ exists rest, post = l ++ rest /\ r' = at_ (pre ++ l) rest.
Proof.
  intros Hn. unfold take_n. rewrite remaining_at.
  destruct (Z.ltb_spec (zlen post) n); intros Hq; simplify_eq.
  assert (Hs : slice (pre ++ post) (zlen pre) (zlen pre + n) = take (Z.to_nat n) post).
  { rewrite slice_app_r by lia. unfold slice. rewrite Z.sub_diag. simpl. f_equal. lia. }
  unfold at_. simpl. rewrite Hs. split.
  { unfold zlen in *. rewrite length_take. lia. }
  exists (drop (Z.to_nat n) post). rewrite <- app_assoc, take_drop. split; [done|].
  f_equal. rewrite zlen_app. f_equal. unfold zlen in *. rewrite length_take. lia.
Qed.

Lemma read_byte_inv pre post b r' :
  read_byte (at_ pre post) = (Ok b, r') -> exists rest, post = b :: rest /\ r' = at_ (pre ++ [b]) rest.
Proof.
  destruct post as [|c rest].
  - unfold read_byte. rewrite remaining_at. done.
  - destruct (consumes_byte c) as [H _]. specialize (H pre rest). simpl in H. rewrite H.
    intros Hq. simplify_eq. eauto.
Qed.

Lemma u32_be_inv pre post v r' :
  u32_be (at_ pre post) = (Ok v, r') ->
  is_u 32 v /\ exists rest, post = to_be 4 v ++ rest /\ r' = at_ (pre ++ to_be 4 v) rest.
Proof.
  unfold u32_be, fmap, M_fmap. destruct (take_n 4 _) as [[l|] r1] eqn:E; intros Hq; simplify_eq.
  apply take_n_inv in E; [|done]. destruct E as (Hl & rest & -> & ->).
  assert (Hb : to_be 4 (of_be l) = l).
  { replace 4%nat with (length l) by (unfold zlen in Hl; lia). apply to_be_of_be. }
  rewrite Hb. split; [|eauto]. pose proof (of_be_range l) as Hr. rewrite Hl in Hr. apply Hr.
Qed.

Lemma read_header_inv t n pre post r' :
  read_header t n (at_ pre post) = (Ok tt, r') ->
  exists rest, post = [t] ++ to_be 4 n ++ rest /\ r' = at_ (pre ++ [t] ++ to_be 4 n) rest.
Proof.
  intros H. apply M_bind_inv in H. destruct H as (s & r1 & H1 & H2).
  apply M_bind_inv in H1. destruct H1 as (b & r0 & H0 & H1).
  apply read_byte_inv in H0. destruct H0 as (rest0 & -> & ->).
  rewrite byte_eqb_spec in H1. case_bool_decide; simpl in H1; [subst b|discriminate].
  apply u32_be_inv in H1. destruct H1 as (_ & rest & -> & ->).
  destruct (Z.eqb_spec s n); simpl in H2; [subst s|discriminate]. injection H2 as <-.
  exists rest. split; [done|]. by rewrite <- app_assoc.
Qed.

Lemma emits_field4 t :
  emits (read_header t 4 ;; u32_be) (fun v => field t (to_be 4 v)) (is_u 32).
Proof.
  intros pre post v r' H. apply M_bind_inv in H. destruct H as ([] & r1 & H1 & H2).
  apply read_header_inv in H1. destruct H1 as (rest & -> & ->).
  apply u32_be_inv in H2. destruct H2 as (Hv & rest' & -> & ->). split; [done|].
  exists rest'. rewrite field4, <- !app_assoc. done.
Qed.
Lemma emits_u32 : emits read_u32 tlv_u32 (is_u 32).
Proof. apply emits_field4. Qed.

(** C30: Memory safety of the TLV cursor: started anywhere inside its buffer, every
    read method, on success and on every error path, leaves the buffer alone,
    never moves the cursor backwards and never past the end, so no slice index of
    [Reader] is out of range. *)
Theorem reader_stays_in_bounds :
  safe read_byte /\ safe read_prolog_tag /\ safe read_u32 /\ safe read_enum4 /\ safe read_string /\
  safe read_fixed16x16 /\ safe read_fixed22x42 /\ safe read_s64 /\ safe read_xds_row /\
  safe read_xds_column /\ safe read_point3d /\ safe read_point2d.
Proof. split_and!; eauto with safe. Qed.

(** Every kind of field the readers know is read back from its layout,
    wherever it sits in a larger buffer, and a buffer that ends inside the field
    is a [ShortRead] whatever byte it ends at. Strings come back through the lossy
    UTF-8 conversion, which is the identity on well-formed text. *)
Theorem fields_read_back :
  (forall v, is_u 32 v -> consumes read_prolog_tag (tlv_tag v) v) /\
  (forall v, is_u 32 v -> consumes read_u32 (tlv_u32 v) v) /\
  (forall v, is_u 32 v -> consumes read_enum4 (tlv_enum4 v) v) /\
  (forall v, is_i 64 v -> consumes read_s64 (tlv_s64 v) v) /\
  (forall v, is_i 32 v -> consumes read_fixed16x16 (tlv_fix16 v) (fix16_of v)) /\
  (forall v, is_i 64 v -> consumes read_fixed22x42 (tlv_q42 v) (q42_of v)) /\
  (forall s, zlen s + 4 < 2 ^ 32 -> utf8_valid s = true -> consumes read_string (tlv_string s) s) /\
  (forall n, is_u 16 n -> consumes read_xds_row (tlv_row n) n) /\
  (forall c, is_u 32 c -> consumes read_xds_column (tlv_column c) c) /\
  (forall p, good3 p -> consumes read_point3d (tlv_point3d p) (q42_of3 p)) /\
  (forall p, good2 p -> consumes read_point2d (tlv_point2d p) (q42_of2 p)).
Proof.
  split_and!; auto using consumes_tag, consumes_u32, consumes_enum4, consumes_s64,
    consumes_fix16, consumes_q42, consumes_row, consumes_column.
  - intros s Hs Hv. rewrite <- (from_utf8_lossy_valid s Hv) at 2. by apply consumes_string.
  - intros p Hp. by apply (frd_enc F_point3d).
  - intros p Hp. by apply (frd_enc F_point2d).
Qed.
Lemma fields_read_back_witness :
  read_point3d (at_ [x00; x00] (tlv_point3d (1, -1, 2 ^ 42) ++ [xff]))
  = (Ok (q42_of 1, q42_of (-1), q42_of (2 ^ 42)),
     at_ ([x00; x00] ++ tlv_point3d (1, -1, 2 ^ 42)) [xff]).
Proof.
  destruct fields_read_back as (_&_&_&_&_&_&_&_&_&H&_).
  apply (H (1, -1, 2 ^ 42)). split_and!; unfold is_i; simpl; lia.
Defined.
