(* ===== verification/Commands.v ===== *)
(** * Commands: outbound frames and the payloads they carry
    (crates/tobii-protocol/src/frame.rs, commands.rs, realm.rs, calibration.rs,
    display.rs)

    A request is a 24-byte big-endian TTP header and a payload, wrapped in an
    8-byte envelope whose little-endian length excludes the envelope itself. *)
From S2P Require Import Prelude F64 Utf8 Protocol Tlv.

(** ** frame.rs *)
Definition TTP_HDR_SIZE : Z := 24.
Definition ENVELOPE_SIZE : Z := 8.
Definition TTP_MAGIC_REQ : Z := 0x51.
Definition TTP_MAGIC_RSP : Z := 0x52.
Definition TTP_MAGIC_NOTIFY : Z := 0x53.
Definition OP_HELLO : Z := 0x3e8.
Definition OP_SUBSCRIBE : Z := 0x4c4.
Definition OP_UNSUBSCRIBE : Z := 0x4ce.
Definition OP_STREAM_CATALOG : Z := 0x4b0.
Definition OP_SET_DISPLAY_AREA : Z := 0x5a0.
Definition OP_GET_DISPLAY_AREA : Z := 0x596.
Definition OP_QUERY_REALM : Z := 0x640.
Definition OP_OPEN_REALM : Z := 0x76c.
Definition OP_REALM_RESPONSE : Z := 0x776.
Definition OP_CLOSE_REALM : Z := 0x77b.
Definition OP_GET_ENABLED_EYE : Z := 0xc62.
Definition OP_SET_ENABLED_EYE : Z := 0xc58.
Definition OP_CAL_START : Z := 0x3f2.
Definition OP_CAL_STOP : Z := 0x3fc.
Definition OP_CAL_CLEAR : Z := 0x424.
Definition OP_CAL_ADD_POINT : Z := 0x406.
Definition OP_CAL_DISCARD_POINT : Z := 0x438.
Definition OP_CAL_COMPUTE : Z := 0x42e.
Definition OP_CAL_STIMULUS_POINTS : Z := 0x460.
Definition OP_CAL_RETRIEVE : Z := 0x44c.
Definition OP_CAL_APPLY : Z := 0x456.
Definition STREAM_GAZE : Z := 0x500.
Definition OP_GAZE_NOTIFY : Z := 0x500.

Definition build_out_frame (seq op : Z) (payload : bytes) : bytes :=
  let ttp := into_vec (new_writer
    |> push_be32 TTP_MAGIC_REQ
    |> push_be32 seq
    |> push_be32 0
    |> push_be32 op
    |> push_be32 0
    |> push_be32 (wrap 32 (zlen payload))
    |> push_bytes payload) in
  into_vec (new_writer
    |> push_be32 0
    |> push_le32 (wrap 32 (zlen ttp))
    |> push_bytes ttp).

(** ** commands.rs *)
Inductive EnabledEye := Both | Left | Right.
#[export] Instance EnabledEye_eq_dec : EqDecision EnabledEye.
Proof. solve_decision. Defined.

Definition to_wire (e : EnabledEye) : Z :=
  match e with Left => 1 | Right => 2 | Both => 3 end.
Definition from_wire (v : Z) : option EnabledEye :=
  match v with 1 => Some Left | 2 => Some Right | 3 => Some Both | _ => None end.

Definition set_enabled_eye_payload (eye : EnabledEye) : bytes :=
  [x00; x00; x02; x00; x00; x00; x04] ++ to_be 4 (to_wire eye).

Record StreamEntry := { id : Z; name : bytes }.

(** One record of the catalog: the closure inside the loop. *)
Definition read_stream_entry : RM StreamEntry :=
  read_prolog_tag ;;
  i ← read_u32;
  n ← read_string;
  read_string ;;
  read_u32 ;;
  mret {| id := wrap 16 i; name := n |}.

(** [for _ in 1..elements], stopping at the first record that does not parse. *)
Fixpoint read_entries (n : nat) (r : Reader) : list StreamEntry :=
  match n with
  | O => []
  | S n => match read_stream_entry r with
           | (Ok e, r') => e :: read_entries n r'
           | (Err _, _) => []
           end
  end.

Definition parse_stream_catalog (payload : bytes) : list StreamEntry :=
  let r := skip 2 (new_reader payload) in
  match read_prolog_tag r with
  | (Err _, _) => []
  | (Ok tag, r) =>
      let '(elements, _) := split_tag tag in
      match read_u32 r with
      | (Err _, _) => []
      | (Ok _, r) => read_entries (Z.to_nat (elements - 1)) r
      end
  end.

Definition parse_enabled_eye (payload : bytes) : option EnabledEye :=
  let r := skip 2 (new_reader payload) in
  v ← ok (fst (read_u32 r));
  from_wire v.

Definition HELLO_PAYLOAD : bytes :=
  [x00; x00; x17; x00; x00; x00; x28; x00; x00; x00; x09; x00; x01; x00; x00; x00;
   x01; x00; x01; x00; x01; x00; x02; x00; x01; x00; x03; x00; x01; x00; x04; x00;
   x01; x00; x05; x00; x01; x00; x06; x00; x01; x00; x07; x00; x01; x00; x08].

Definition build_hello (seq : Z) : bytes := build_out_frame seq OP_HELLO HELLO_PAYLOAD.

(** [pay[9]] and [pay[10]] are assigned after the literal is built. *)
Definition subscribe_payload (stream_id : Z) : bytes :=
  <[10%nat := byte.of_Z stream_id]>
  (<[9%nat := byte.of_Z (Z.shiftr stream_id 8)]>
   [x00; x00; x02; x00; x00; x00; x04; x00; x00; x00; x00; x17; x00; x00; x00;
    x04; x00; x00; x00; x00]).

Definition build_subscribe (seq stream_id : Z) : bytes :=
  build_out_frame seq OP_SUBSCRIBE (subscribe_payload stream_id).

Definition build_get_display_area (seq : Z) : bytes := build_out_frame seq OP_GET_DISPLAY_AREA [].

Definition set_display_area_corners_payload
    (tl_x tl_y tl_z tr_x tr_y tr_z bl_x bl_y bl_z : f64) : bytes :=
  into_vec (new_writer
    |> push_u8 x00 |> push_u8 x00
    |> write_point tl_x tl_y tl_z
    |> write_point tr_x tr_y tr_z
    |> write_point bl_x bl_y bl_z
    |> write_tag 0x10100
    |> write_u32 0x3039).

Definition build_set_display_area_corners (seq : Z)
    (tl_x tl_y tl_z tr_x tr_y tr_z bl_x bl_y bl_z : f64) : bytes :=
  let payload :=
    set_display_area_corners_payload tl_x tl_y tl_z tr_x tr_y tr_z bl_x bl_y bl_z in
  build_out_frame seq OP_SET_DISPLAY_AREA payload.

Definition build_set_display_area (seq : Z) (w_mm h_mm ox_mm oy_mm z_mm : f64) : bytes :=
  let x0 := ox_mm in
  let x1 := fadd ox_mm w_mm in
  let y0 := oy_mm in
  let y1 := fadd oy_mm h_mm in
  build_set_display_area_corners seq x0 y1 z_mm x1 y1 z_mm x0 y0 z_mm.

(** ** realm.rs *)
Definition REALM_KEY : bytes :=   (* "IS2LJC6GIRBBEK2K" and a NUL *)
  [x49; x53; x32; x4c; x4a; x43; x36; x47; x49; x52; x42; x42; x45; x4b; x32; x4b; x00].

Definition build_query_realm (seq : Z) : bytes := build_out_frame seq OP_QUERY_REALM [x00; x00].

Definition build_open_realm (seq realm_type : Z) : bytes :=
  build_out_frame seq OP_OPEN_REALM
    (into_vec (new_writer |> push_u8 x00 |> push_u8 x00 |> write_u32 realm_type |> push_u8 x00)).

Definition build_realm_response (seq realm_id field_210 : Z) (digest : bytes) : bytes :=
  build_out_frame seq OP_REALM_RESPONSE
    (into_vec (new_writer |> push_u8 x00 |> push_u8 x00 |> write_u32 realm_id
               |> write_u32 field_210 |> push_bytes digest)).

Definition build_close_realm (seq realm_id : Z) : bytes :=
  build_out_frame seq OP_CLOSE_REALM
    (into_vec (new_writer |> push_u8 x00 |> push_u8 x00 |> write_u32 realm_id)).

(** ** calibration.rs *)
Definition CAL_EYE_LEFT : Z := 1.
Definition CAL_EYE_RIGHT : Z := 2.
Definition CAL_EYE_BOTH : Z := 3.

Definition cal_add_point_payload (x y : f64) (eye : Z) : bytes :=
  into_vec (new_writer |> push_u8 x00 |> push_u8 x00
            |> write_f64_q42 x |> write_f64_q42 y |> write_u32 eye).
Definition cal_discard_point_payload (x y : f64) : bytes :=
  into_vec (new_writer |> push_u8 x00 |> push_u8 x00 |> write_f64_q42 x |> write_f64_q42 y).
Definition cal_session_payload : bytes := [x00; x00].
Definition cal_compute_payload : bytes := [x00; x00].
Definition cal_retrieve_payload : bytes := [x00; x00].
Definition cal_apply_payload (blob : bytes) : bytes :=
  into_vec (new_writer |> push_u8 x00 |> push_u8 x00 |> push_bytes blob).

(** ** display.rs *)
Record DisplayCorners := { tl : vec3; tr : vec3; bl : vec3 }.

Definition display_decode (payload : bytes) : option DisplayCorners :=
  if zlen payload <? 2 then None
  else
    let r := skip 2 (new_reader payload) in
    ok (fst ((a ← read_point3d; b ← read_point3d; c ← read_point3d;
              mret {| tl := a; tr := b; bl := c |}) r)).

(** The sources' own vectors. *)
Example out_frame_vector :
  build_out_frame 1 OP_HELLO [xaa; xbb; xcc]
  = [x00; x00; x00; x00; x1b; x00; x00; x00; x00; x00; x00; x51; x00; x00; x00; x01; x00; x00; x00; x00;
     x00; x00; x03; xe8; x00; x00; x00; x00; x00; x00; x00; x03; xaa; xbb; xcc].
Proof. vm_compute. reflexivity. Qed.
Example add_point_payload_is_exact :
  cal_add_point_payload (fdiv (of_int 1) (of_int 4)) (fdiv (of_int 3) (of_int 4)) 0
  = [x00; x00; x04; x00; x00; x00; x08; x00; x00; x01; x00; x00; x00; x00; x00;
     x04; x00; x00; x00; x08; x00; x00; x03; x00; x00; x00; x00; x00;
     x02; x00; x00; x00; x04; x00; x00; x00; x00].
Proof. vm_compute. reflexivity. Qed.
Example not_an_enabled_eye_reply :
  parse_enabled_eye [x00; x00; x00; x02] = None /\
  parse_enabled_eye [x00; x00; x01; x00; x00; x00; x04; x00; x00; x00; x03] = None.
Proof. vm_compute. auto. Qed.

(** ** Layout of outbound frames *)
Lemma build_out_frame_bytes seq op p :
  build_out_frame seq op p
  = to_be 4 0 ++ to_le 4 (24 + zlen p)
    ++ to_be 4 TTP_MAGIC_REQ ++ to_be 4 seq ++ to_be 4 0 ++ to_be 4 op ++ to_be 4 0
    ++ to_be 4 (zlen p) ++ p.
Proof.
  unfold build_out_frame, into_vec. autorewrite with wr.
  rewrite !app_nil_l, to_le4_wrap, to_be4_wrap, <- !app_assoc. do 2 f_equal. f_equal. len.
Qed.

Lemma zlen_out_frame seq op p : zlen (build_out_frame seq op p) = 32 + zlen p.
Proof. rewrite build_out_frame_bytes. len. Qed.

(** Name a 4-byte field and open it, keeping the value it reads back as. *)
Ltac open_word w Hw :=
  let H := fresh in
  pose proof Hw as H; revert H;
  let l := fresh "l" in
  remember w as l eqn:?;
  let Hl := fresh in
  assert (Hl : zlen l = 4) by (subst l; apply zlen_to_be || apply zlen_to_le);
  apply list4 in Hl; destruct Hl as (? & ? & ? & ? & ->); intros H.

(** The outbound frame is what the wire format documents. For 32-bit fields
    and a payload whose length fits the header, an observer reading at the fixed
    offsets finds: a zero direction word; a little-endian length that counts
    everything but the 8-byte envelope; the request magic, sequence number, flag,
    op and payload length big-endian; and the payload behind the 24-byte header,
    nothing more. *)
Theorem out_frame_layout seq op p :
  is_u 32 seq -> is_u 32 op -> zlen p + 24 < 2 ^ 32 ->
  let f := build_out_frame seq op p in
  zlen f = ENVELOPE_SIZE + TTP_HDR_SIZE + zlen p
  /\ of_be (slice f 0 4) = 0 /\ of_le (slice f 4 8) = zlen f - ENVELOPE_SIZE
  /\ of_be (slice f 8 12) = TTP_MAGIC_REQ /\ of_be (slice f 12 16) = seq
  /\ of_be (slice f 16 20) = 0 /\ of_be (slice f 20 24) = op
  /\ of_be (slice f 24 28) = 0 /\ of_be (slice f 28 32) = zlen p
  /\ from f 32 = p.
Proof.
  intros Hs Ho Hp f. pose proof (zlen_nonneg p).
  assert (Hf : zlen f = 32 + zlen p) by apply zlen_out_frame. rewrite Hf.
  pose proof (build_out_frame_bytes seq op p) as E. fold f in E. rewrite E.
  assert (Hl : is_u 32 (zlen p)) by (unfold is_u; lia).
  assert (Hl' : is_u 32 (24 + zlen p)) by (unfold is_u; lia).
  open_word (to_le 4 (24 + zlen p)) (of_le4_inv _ Hl').
  open_word (to_be 4 seq) (of_be4_inv _ Hs).
  open_word (to_be 4 op) (of_be4_inv _ Ho).
  open_word (to_be 4 (zlen p)) (of_be4_inv _ Hl).
  unfold ENVELOPE_SIZE, TTP_HDR_SIZE. split_and!; try reflexivity; try assumption.
  transitivity (24 + zlen p); [assumption|lia].
Qed.
Lemma out_frame_layout_witness :
  from (build_out_frame 7 OP_SUBSCRIBE [xaa; xbb]) 32 = [xaa; xbb].
Proof.
  refine (proj2 (proj2 (proj2 (proj2 (proj2 (proj2 (proj2 (proj2 (proj2
    (out_frame_layout 7 OP_SUBSCRIBE [xaa; xbb] _ _ _)))))))))); [u32_const|u32_const|].
  vm_compute. reflexivity.
Defined.

(** ** Display area *)

(** A corner whose coordinates the fixed-point format represents. *)
Definition q42_point (p : vec3) : Prop :=
  let '(x, y, z) := p in
  (exists a, q42_coord a x) /\ (exists b, q42_coord b y) /\ (exists c, q42_coord c z).
Definition representable (c : DisplayCorners) : Prop :=
  q42_point (tl c) /\ q42_point (tr c) /\ q42_point (bl c).

Lemma consumes_point x y z : q42_point (x, y, z) ->
  consumes read_point3d (tlv_point3d (q42_encode x, q42_encode y, q42_encode z)) (x, y, z).
Proof.
  intros ([a [-> Ha]] & [b [-> Hb]] & [c [-> Hc]]). rewrite !q42_encode_of by done.
  apply consumes_point3d; by apply q42_small.
Qed.

Definition display_payload (c : DisplayCorners) : bytes :=
  let '(tx, ty, tz) := tl c in let '(rx, ry, rz) := tr c in let '(bx, by_, bz) := bl c in
  set_display_area_corners_payload tx ty tz rx ry rz bx by_ bz.

Ltac rest_nonneg := match goal with |- context [zlen ?l] => pose proof (zlen_nonneg l) end; lia.

(** The display area the host sets is the display area it reads back: decoding
    the SET_DISPLAY_AREA payload of any corners with representable coordinates
    yields exactly those corners, trailing object id and all. *)
Theorem display_area_roundtrip (c : DisplayCorners) :
  representable c -> display_decode (display_payload c) = Some c.
Proof.
  destruct c as [[[tx ty] tz] [[rx ry] rz] [[bx by_] bz]]. intros (H1 & H2 & H3).
  unfold display_payload, set_display_area_corners_payload, into_vec. cbn [tl tr bl] in *.
  autorewrite with wr. rewrite <- !app_assoc. cbn [app].
  unfold display_decode. rewrite (proj2 (Z.ltb_ge _ _)) by (rewrite !zlen_cons; rest_nonneg).
  rewrite skip_prefix.
  rewrite (M_bind_ok _ _ _ _ _ (proj1 (consumes_point _ _ _ H1) _ _)).
  rewrite (M_bind_ok _ _ _ _ _ (proj1 (consumes_point _ _ _ H2) _ _)).
  rewrite (M_bind_ok _ _ _ _ _ (proj1 (consumes_point _ _ _ H3) _ _)).
  reflexivity.
Qed.
(** A 600 x 335 mm screen standing 10 mm above the tracker. *)
Definition mm (n : Z) : f64 := q42_of (n * 2 ^ 42).
Definition sample_corners : DisplayCorners :=
  {| tl := (mm (-300), mm 345, mm 0); tr := (mm 300, mm 345, mm 0);
     bl := (mm (-300), mm 10, mm 0) |}.
Lemma display_area_roundtrip_witness :
  display_decode (display_payload sample_corners) = Some sample_corners.
Proof.
  apply (display_area_roundtrip sample_corners).
  assert (H : forall n, Z.abs n < 2048 -> exists a, q42_coord a (mm n)).
  { intros n Hn. exists (n * 2 ^ 42). split; [done|]. change (2 ^ 53) with (2048 * 2 ^ 42). lia. }
  repeat split; apply H; vm_compute; reflexivity.
Defined.

(** ** Enabled eye *)

(** An enabled-eye reply is accepted exactly when it is one: after the 2-byte
    prefix it must start with a type-2 field of size 4 whose value encodes an eye,
    and then that eye is returned. In particular the payload built for SET parses
    back, and no unrelated tail can be mistaken for a selection. *)
Theorem parse_enabled_eye_spec (p : bytes) (e : EnabledEye) :
  parse_enabled_eye p = Some e <->
  exists a b rest, p = [a; b] ++ tlv_u32 (to_wire e) ++ rest.
Proof.
  split.
  - unfold parse_enabled_eye. intros H.
    destruct p as [|a [|b l]]; [vm_compute in H; discriminate..| |];
      [vm_compute in H; discriminate|].
    rewrite skip_prefix in H. destruct (read_u32 _) as [[v|] r'] eqn:E; simpl in H; [|discriminate].
    apply emits_u32 in E. destruct E as (Hv & rest & -> & _).
    exists a, b, rest. do 3 f_equal. unfold from_wire in H.
    repeat case_match; simplify_eq; done.
  - intros (a & b & rest & ->). unfold parse_enabled_eye. cbn [app]. rewrite skip_prefix.
    assert (Hw : is_u 32 (to_wire e)) by (destruct e; u32_const).
    rewrite (proj1 (consumes_u32 _ Hw)). by destruct e.
Qed.
Lemma set_enabled_eye_parses e : parse_enabled_eye (set_enabled_eye_payload e) = Some e.
Proof. apply parse_enabled_eye_spec. exists x00, x00, []. by destruct e. Qed.

(** ** Stream catalog *)
Definition entry_bytes (e : StreamEntry) : bytes :=
  tlv_tag 0x041389 ++ tlv_u32 (id e) ++ tlv_string (name e) ++ tlv_string [] ++ tlv_u32 0.
Definition entry_ok (e : StreamEntry) : Prop :=
  is_u 16 (id e) /\ utf8_valid (name e) = true /\ zlen (name e) + 4 < 2 ^ 32.
(** A catalog reply: the prefix, the outer row, the catalog object, the records. *)
Definition catalog_head (n : Z) : bytes := tlv_tag (mk_tag n 0x0100) ++ tlv_u32 0x1389.
Definition catalog_bytes (es : list StreamEntry) : bytes := concat (entry_bytes <$> es).

Lemma is_u_mono a b z : a <= b -> is_u a z -> is_u b z.
Proof.
  unfold is_u. intros. split; [lia|]. eapply Z.lt_le_trans; [apply H0|]. apply Z.pow_le_mono_r; lia.
Qed.

Lemma consumes_entry e : entry_ok e -> consumes read_stream_entry (entry_bytes e) e.
Proof.
  destruct e as [i n]. intros (Hi & Hv & Hn). unfold entry_bytes, read_stream_entry. cbn [id name] in *.
  eapply consumes_bind; [apply consumes_tag; u32_const|].
  eapply consumes_bind; [apply consumes_u32; by apply (is_u_mono 16)|].
  eapply consumes_bind; [by apply consumes_string|].
  eapply consumes_bind; [apply consumes_string; done|].
  rewrite <- (app_nil_r (tlv_u32 0)). eapply consumes_bind; [apply consumes_u32; u32_const|].
  rewrite wrap_id, from_utf8_lossy_valid by done. apply consumes_ret.
Qed.

Lemma catalog_cons e es : catalog_bytes (e :: es) = entry_bytes e ++ catalog_bytes es.
Proof. done. Qed.

Lemma read_entries_prefix n pre es rest :
  Forall entry_ok es -> (length es <= n)%nat ->
  fst (read_stream_entry (at_ (pre ++ catalog_bytes es) rest)) = Err ShortRead
    \/ n = length es ->
  read_entries n (at_ pre (catalog_bytes es ++ rest)) = es.
Proof.
  revert n pre. induction es as [|e es IH]; intros n pre Hok Hn Hend.
  - change (catalog_bytes []) with (@nil byte) in *. rewrite app_nil_r in Hend. cbn [app].
    destruct n as [|n]; [done|]. cbn [read_entries]. destruct Hend as [Hend|]; [|simpl in *; lia].
    destruct (read_stream_entry _) as [[|] ?]; simpl in *; congruence.
  - destruct n as [|n]; [simpl in Hn; lia|]. apply Forall_cons in Hok as [He Hok].
    rewrite catalog_cons in *. rewrite <- app_assoc. cbn [read_entries].
    rewrite (proj1 (consumes_entry e He)). f_equal. apply IH; [done|simpl in Hn; lia|].
    rewrite <- app_assoc. destruct Hend as [Hend|Hend]; [left; exact Hend|right; simpl in Hend; lia].
Qed.

(** The stream catalog parses back, and a malformed tail truncates the list
    without discarding what was already read. Take a catalog promising [1 + n]
    elements and laying out the records [es] followed by [rest]. If all promised
    records are there ([n] is the number of records) the result is [es] whatever
    [rest] is; and if [rest] is a strict prefix of one more record, the result is
    still exactly [es]. *)
Theorem stream_catalog_parses a b n es rest :
  Forall entry_ok es -> is_u 16 (1 + n) -> zlen es <= n ->
  (n = zlen es \/ exists e k, entry_ok e /\ (k < length (entry_bytes e))%nat /\ rest = take k (entry_bytes e)) ->
  parse_stream_catalog ([a; b] ++ catalog_head (1 + n) ++ catalog_bytes es ++ rest) = es.
Proof.
  intros Hok Hn Hl Hend. unfold parse_stream_catalog. cbn [app]. rewrite skip_prefix.
  pose proof (zlen_nonneg es) as Hnn.
  assert (H16 : is_u 16 0x0100) by u32_const.
  unfold catalog_head. rewrite <- app_assoc.
  rewrite (proj1 (consumes_tag _ (mk_tag_u32 _ _ H16 Hn))), split_mk_tag by (done || lia).
  rewrite (proj1 (consumes_u32 0x1389 ltac:(u32_const))).
  replace (1 + n - 1) with n by lia. unfold zlen in *. apply read_entries_prefix; [done|lia|].
  destruct Hend as [->|(e & k & He & Hk & ->)]; [right; lia|left].
  by apply consumes_entry.
Qed.
(** The first two records of the reply an ET5 gave, the second cut short. *)
Definition entry_gaze : StreamEntry := {| id := 0x0500; name := [x67; x61; x7a; x65] |}.
Definition entry_image : StreamEntry := {| id := 0x0501; name := [x69; x6d; x61; x67; x65] |}.
Lemma stream_catalog_parses_witness :
  parse_stream_catalog ([x00; x00] ++ catalog_head (1 + 9) ++ catalog_bytes [entry_gaze]
                        ++ take 30 (entry_bytes entry_image)) = [entry_gaze].
Proof.
  assert (H1 : entry_ok entry_gaze) by (split_and!; [u32_const|reflexivity|reflexivity]).
  assert (H2 : entry_ok entry_image) by (split_and!; [u32_const|reflexivity|reflexivity]).
  apply (stream_catalog_parses x00 x00 9 [entry_gaze] (take 30 (entry_bytes entry_image))).
  - by constructor.
  - u32_const.
  - vm_compute. discriminate.
  - right. exists entry_image, 30%nat. split; [exact H2|]. split; [vm_compute; lia|reflexivity].
Defined.
