(* ===== verification/Md5.v ===== *)
(** * Md5: the digest of the realm handshake (crates/tobii-protocol/src/md5.rs)

    [Md5State] with its [update] and [finalize] as written, the buffer included;
    [md5_spec] is the padding and cutting of RFC 1321 on the whole message, around
    the code's own compression function, for which the RFC's test vectors speak. The
    theorems show the state machine computes it on every input, and HMAC-MD5 (RFC 2104)
    on top of it; and that [update] may only be called again once the buffered bytes fill
    a block, which is how the program calls it. *)
From S2P Require Import Prelude Blocks.

Definition mask32 : Z := 2 ^ 32 - 1.
Definition add32 (a b : Z) : Z := wrap 32 (a + b).
Definition not32 (a : Z) : Z := Z.lxor a mask32.
Definition rotl32 (x n : Z) : Z := wrap 32 (Z.lor (Z.shiftl x n) (Z.shiftr x (32 - n))).

Definition S_ : list Z :=
  [7; 12; 17; 22; 7; 12; 17; 22; 7; 12; 17; 22; 7; 12; 17; 22; 5; 9; 14; 20; 5; 9; 14; 20; 5; 9;
   14; 20; 5; 9; 14; 20; 4; 11; 16; 23; 4; 11; 16; 23; 4; 11; 16; 23; 4; 11; 16; 23; 6; 10; 15;
   21; 6; 10; 15; 21; 6; 10; 15; 21; 6; 10; 15; 21].

Definition K : list Z :=
  [0xd76aa478; 0xe8c7b756; 0x242070db; 0xc1bdceee; 0xf57c0faf; 0x4787c62a; 0xa8304613; 0xfd469501;
   0x698098d8; 0x8b44f7af; 0xffff5bb1; 0x895cd7be; 0x6b901122; 0xfd987193; 0xa679438e; 0x49b40821;
   0xf61e2562; 0xc040b340; 0x265e5a51; 0xe9b6c7aa; 0xd62f105d; 0x02441453; 0xd8a1e681; 0xe7d3fbc8;
   0x21e1cde6; 0xc33707d6; 0xf4d50d87; 0x455a14ed; 0xa9e3e905; 0xfcefa3f8; 0x676f02d9; 0x8d2a4c8a;
   0xfffa3942; 0x8771f681; 0x6d9d6122; 0xfde5380c; 0xa4beea44; 0x4bdecfa9; 0xf6bb4b60; 0xbebfbc70;
   0x289b7ec6; 0xeaa127fa; 0xd4ef3085; 0x04881d05; 0xd9d4d039; 0xe6db99e5; 0x1fa27cf8; 0xc4ac5665;
   0xf4292244; 0x432aff97; 0xab9423a7; 0xfc93a039; 0x655b59c3; 0x8f0ccc92; 0xffeff47d; 0x85845dd1;
   0x6fa87e4f; 0xfe2ce6e0; 0xa3014314; 0x4e0811a1; 0xf7537e82; 0xbd3af235; 0x2ad7d2bb; 0xeb86d391].

Definition words : Type := Z * Z * Z * Z.
Definition nthZ (l : list Z) (i : Z) : Z := nth (Z.to_nat i) l 0.

(** ** The code *)

(** The sixteen little-endian words of a block. *)
Definition block_words (block : bytes) : list Z :=
  (fun j => of_le (slice block (Z.of_nat j * 4) (Z.of_nat j * 4 + 4))) <$> seq 0 16.

(** One round of the loop body. *)
Definition round (m : list Z) (w : words) (i : Z) : words :=
  let '(a, b, c, d) := w in
  let '(f, g) :=
    if i <? 16 then (Z.lor (Z.land b c) (Z.land (not32 b) d), i)
    else if i <? 32 then (Z.lor (Z.land d b) (Z.land (not32 d) c), (5 * i + 1) mod 16)
    else if i <? 48 then (Z.lxor (Z.lxor b c) d, (3 * i + 5) mod 16)
    else (Z.lxor c (Z.lor b (not32 d)), (7 * i) mod 16) in
  let tmp := d in
  let d := c in
  let c := b in
  let x := add32 (add32 (add32 a f) (nthZ K i)) (nthZ m g) in
  let b := add32 b (rotl32 x (nthZ S_ i)) in
  let a := tmp in
  (a, b, c, d).

Definition transform (st : words) (block : bytes) : words :=
  let m := block_words block in
  let '(a, b, c, d) := fold_left (round m) (Z.of_nat <$> seq 0 64) st in
  let '(s0, s1, s2, s3) := st in
  (add32 s0 a, add32 s1 b, add32 s2 c, add32 s3 d).

Record Md5State := { state : words; count : Z; mbuf : bytes; buf_len : nat }.

Definition init_words : words := (0x67452301, 0xefcdab89, 0x98badcfe, 0x10325476).
Definition md5_new : Md5State :=
  {| state := init_words; count := 0; mbuf := replicate 64 x00; buf_len := 0 |}.

Definition update (data : bytes) (h : Md5State) : Md5State :=
  let count := wrap 64 (count h + zlen data) in
  let '(st, buf, data) :=
    if (0 <? buf_len h)%nat then
      let need := (64 - buf_len h)%nat in
      let take_ := Nat.min need (length data) in
      let buf := write_at (buf_len h) (take take_ data) (mbuf h) in
      let buf_len := (buf_len h + take_)%nat in
      let data := drop take_ data in
      if (buf_len =? 64)%nat then (transform (state h) buf, buf, data) else (state h, buf, data)
    else (state h, mbuf h, data) in
  let '(st, data) := while_blocks transform (length data) st data in
  {| state := st; count := count; mbuf := write_at 0 data buf; buf_len := length data |}.

(** [for i in lo..hi { self.buf[i] = 0 }] *)
Definition zero_from (lo hi : nat) (buf : bytes) : bytes := write_at lo (replicate (hi - lo) x00) buf.

Definition digest_bytes (st : words) : bytes :=
  let '(a, b, c, d) := st in to_le 4 a ++ to_le 4 b ++ to_le 4 c ++ to_le 4 d.

Definition finalize (h : Md5State) : bytes :=
  let bit_len := wrap 64 (count h * 8) in
  let buf := write_at (buf_len h) [x80] (mbuf h) in
  let buf_len := S (buf_len h) in
  let '(st, buf, buf_len) :=
    if (56 <? buf_len)%nat then
      let buf := zero_from buf_len 64 buf in (transform (state h) buf, buf, 0%nat)
    else (state h, buf, buf_len) in
  let buf := zero_from buf_len 56 buf in
  let buf := write_at 56 (to_le 8 bit_len) buf in
  digest_bytes (transform st buf).

Definition md5 (data : bytes) : bytes := finalize (update data md5_new).

Definition bxor (a b : byte) : byte := byte.of_Z (Z.lxor (u8 a) (u8 b)).

Definition hmac_md5 (key msg : bytes) : bytes :=
  let k := replicate 64 x00 in
  let k := if (64 <? length key)%nat then write_at 0 (md5 key) k else write_at 0 key k in
  let ipad := (fun b => bxor b x36) <$> k in
  let opad := (fun b => bxor b x5c) <$> k in
  let inner_digest := finalize (update msg (update ipad md5_new)) in
  finalize (update inner_digest (update opad md5_new)).

(** RFC 1321's test suite, and RFC 2104's first example. *)
Example md5_empty : md5 [] =
  [xd4; x1d; x8c; xd9; x8f; x00; xb2; x04; xe9; x80; x09; x98; xec; xf8; x42; x7e].
Proof. vm_compute. reflexivity. Qed.
Example md5_abc : md5 [x61; x62; x63] =
  [x90; x01; x50; x98; x3c; xd2; x4f; xb0; xd6; x96; x3f; x7d; x28; xe1; x7f; x72].
Proof. vm_compute. reflexivity. Qed.
Example hmac_rfc2104_1 : hmac_md5 (replicate 16 x0b) [x48; x69; x20; x54; x68; x65; x72; x65] =
  [x92; x94; x72; x7a; x36; x38; xbb; x1c; x13; xf4; x8e; xf8; x15; x8b; xfc; x9d].
Proof. vm_compute. reflexivity. Qed.

(** ** The specification *)

(** A one bit, zeros up to 56 modulo 64, the length in bits. *)
Definition pad (d : bytes) : bytes :=
  d ++ [x80] ++ replicate (pad_zeros (length d)) x00 ++ to_le 8 (wrap 64 (8 * zlen d)).

Definition md5_spec (d : bytes) : bytes :=
  digest_bytes (fold_blocks transform (length (pad d) / 64) init_words (pad d)).

(** RFC 2104, for a block of 64 bytes. *)
Definition hmac_key (key : bytes) : bytes :=
  let k := if (64 <? length key)%nat then md5_spec key else key in
  k ++ replicate (64 - length k) x00.
Definition hmac_spec (key msg : bytes) : bytes :=
  md5_spec (((fun b => bxor b x5c) <$> hmac_key key)
            ++ md5_spec (((fun b => bxor b x36) <$> hmac_key key) ++ msg)).

(** ** Proofs *)
#[global] Arguments transform : simpl never.

(** [h] is the state after absorbing the message [d]: whole blocks compressed,
    the rest in the buffer. *)
Definition absorbed (h : Md5State) (d : bytes) : Prop :=
  holds transform init_words (state h) (mbuf h) (buf_len h) d /\ count h = wrap 64 (zlen d).

Lemma absorbed_new : absorbed md5_new [].
Proof. split; [by apply holds_nil|done]. Qed.

Lemma count_app a b : wrap 64 (wrap 64 a + b) = wrap 64 (a + b).
Proof. unfold wrap. by rewrite Zplus_mod_idemp_l. Qed.

(** [update] absorbs its argument, provided nothing is buffered or the buffered
    block is completed. *)
Lemma absorbed_update h d data :
  absorbed h d -> buf_len h = 0%nat \/ (64 - buf_len h <= length data)%nat ->
  absorbed (update data h) (d ++ data).
Proof.
  intros [Hh Hc] Hcase. pose proof (holds_buffered _ _ _ _ _ _ Hh) as (_ & Hlt & Hb).
  unfold update, absorbed. rewrite Hc, count_app, <- zlen_app.
  destruct (Nat.ltb_spec 0 (buf_len h)) as [Hpos|Hz].
  - destruct Hcase as [|Hfull]; [lia|]. rewrite Nat.min_l by done.
    replace (buf_len h + (64 - buf_len h))%nat with 64%nat by lia. rewrite Nat.eqb_refl.
    set (need := (64 - buf_len h)%nat) in *.
    destruct (holds_full _ _ _ _ _ _ (take need data) Hh) as (_ & k & Hk & ->); [rewrite length_take; lia|].
    pose proof (holds_loop transform init_words k (d ++ take need data) (drop need data)
                  (write_at (buf_len h) (take need data) (mbuf h)) Hk) as Hl.
    destruct (while_blocks _ _ _ _) as [st rest]. cbn. split; [|done].
    rewrite <- (take_drop need data) at 2. rewrite app_assoc. apply Hl.
    rewrite length_write_at; [done|]. rewrite length_take. lia.
  - assert (buf_len h = 0%nat) as H0 by lia. rewrite H0 in Hh.
    assert (exists k, length d = (64 * k)%nat) as [k Hk].
    { pose proof (holds_buffered _ _ _ _ _ _ Hh) as (Hm & _). exists (length d / 64)%nat.
      pose proof (Nat.div_mod_eq (length d) 64). lia. }
    rewrite (holds_whole _ _ _ _ _ Hh), Hk, Nat.mul_comm, Nat.div_mul by lia.
    pose proof (holds_loop transform init_words k d data (mbuf h) Hk Hb) as Hl.
    destruct (while_blocks _ _ _ _) as [st rest]. cbn. by split.
Qed.

Lemma write_zeros_at r k b hi : length b = 64%nat -> (r + length k = hi)%nat -> (hi <= 64)%nat ->
  write_at r k b = take r b ++ k ++ drop hi b.
Proof. intros ? <- ?. done. Qed.

Lemma pad_out_block rest tl r : length rest = r -> (r < 64)%nat -> length tl = (63 - r)%nat ->
  zero_from (S r) 64 (rest ++ [x80] ++ tl) = rest ++ [x80] ++ replicate (63 - r) x00.
Proof.
  intros Hl Hr Ht. unfold zero_from, write_at. rewrite length_replicate.
  rewrite (app_assoc rest), take_app_length' by (rewrite length_app; simpl; lia).
  rewrite (drop_ge _ (S r + (64 - S r))) by (rewrite !length_app, Ht; simpl; lia).
  by rewrite app_nil_r, <- app_assoc.
Qed.

Lemma pad_and_count rest tl len8 r : length rest = r -> (S r <= 56)%nat ->
  length tl = (63 - r)%nat -> length len8 = 8%nat ->
  write_at 56 len8 (zero_from (S r) 56 (rest ++ [x80] ++ tl)) =
  rest ++ [x80] ++ replicate (55 - r) x00 ++ len8.
Proof.
  intros Hl Hr Ht Hlen8. unfold zero_from, write_at. rewrite length_replicate, Hlen8.
  rewrite (app_assoc rest), (take_app_length' (rest ++ [x80]) _ (S r)) by (rewrite length_app; simpl; lia).
  rewrite (app_assoc (rest ++ [x80])), (take_app_length' _ _ 56)
    by (rewrite !length_app, length_replicate; simpl; lia).
  rewrite (drop_ge _ (56 + 8))
    by (rewrite !length_app, length_drop, !length_app, length_replicate; simpl; lia).
  by rewrite app_nil_r, <- !app_assoc.
Qed.

Lemma absorbed_finalize h d : absorbed h d -> finalize h = md5_spec d.
Proof.
  intros [(n & blocks & rest & -> & Hn & Hr & Hst & Hb & Hl & Ht) Hc].
  unfold finalize. rewrite Hc, Hl, Hst.
  set (r := length rest) in *. set (len8 := to_le 8 _).
  assert (Hlen8 : length len8 = 8%nat) by apply length_le_split.
  assert (Hsame : len8 = to_le 8 (wrap 64 (8 * zlen (blocks ++ rest)))).
  { unfold len8. f_equal. unfold wrap. rewrite Zmult_mod_idemp_l. f_equal. lia. }
  assert (H80 : write_at r [x80] (mbuf h) = rest ++ [x80] ++ drop (S r) (mbuf h)).
  { unfold write_at. rewrite Ht. do 3 f_equal. simpl. lia. }
  rewrite H80.
  assert (Hmod : (length (blocks ++ rest) mod 64 = r)%nat).
  { rewrite length_app, Hn, (Nat.mul_comm 64), Nat.add_comm, Nat.Div0.mod_add. by apply Nat.mod_small. }
  unfold md5_spec, pad, pad_zeros. rewrite Hmod, <- Hsame, <- app_assoc.
  destruct (Nat.ltb_spec 56 (S r)) as [Hbig|Hsmall].
  - replace ((119 - r) mod 64)%nat with (119 - r)%nat by (rewrite Nat.mod_small; lia).
    replace (119 - r)%nat with ((63 - r) + 56)%nat by lia. rewrite replicate_add.
    set (b1 := rest ++ [x80] ++ replicate (63 - r) x00).
    set (b2 := replicate 56 x00 ++ len8).
    assert (Hb1 : length b1 = 64%nat) by (unfold b1; rewrite !length_app, length_replicate; simpl; fold r; lia).
    assert (Hb2 : length b2 = 64%nat) by (unfold b2; rewrite length_app, length_replicate; lia).
    replace (rest ++ [x80] ++ (replicate (63 - r) x00 ++ replicate 56 x00) ++ len8) with (b1 ++ b2)
      by (unfold b1, b2; by rewrite <- !app_assoc).
    rewrite !length_app, Hn, Hb1, Hb2.
    replace ((64 * n + (64 + 64)) / 64)%nat with (n + 1 + 1)%nat
      by (apply Nat.div_unique with 0%nat; lia).
    rewrite (pad_out_block rest _ r) by (rewrite ?length_drop; fold r; lia). fold b1.
    rewrite app_assoc, !fold_blocks_last by (done || rewrite length_app; lia). f_equal.
  - replace ((119 - r) mod 64)%nat with (55 - r)%nat
      by (apply Nat.mod_unique with 1%nat; lia).
    set (b1 := rest ++ [x80] ++ replicate (55 - r) x00 ++ len8).
    assert (Hb1 : length b1 = 64%nat)
      by (unfold b1; rewrite !length_app, length_replicate; simpl; fold r; lia).
    rewrite !(length_app blocks), Hn, Hb1.
    replace ((64 * n + 64) / 64)%nat with (n + 1)%nat by (apply Nat.div_unique with 0%nat; lia).
    rewrite fold_blocks_last by done. do 2 f_equal.
    apply pad_and_count; rewrite ?length_drop; fold r; lia.
Qed.

Lemma digest_once data : finalize (update data md5_new) = md5_spec data.
Proof.
  apply absorbed_finalize. change data with ([] ++ data) at 2.
  apply absorbed_update; [apply absorbed_new|by left].
Qed.

(** [md5] is RFC 1321 on every message: the incremental state machine with
    its 64-byte buffer, its two padding cases and its wrapping bit count computes
    the digest of the padded message. *)
Theorem md5_correct (data : bytes) : md5 data = md5_spec data.
Proof. apply digest_once. Qed.

Lemma md5_spec_length d : length (md5_spec d) = 16%nat.
Proof.
  unfold md5_spec, digest_bytes. destruct (fold_blocks _ _ _ _) as [[[a b] c] e].
  rewrite !length_app. unfold to_le. by rewrite !length_le_split.
Qed.

Lemma write_key k : (length k <= 64)%nat ->
  write_at 0 k (replicate 64 x00) = k ++ replicate (64 - length k) x00.
Proof. intros H. unfold write_at. cbn [take app]. by rewrite Nat.add_0_l, drop_replicate. Qed.

(** [hmac_md5] is RFC 2104 over MD5 for keys and messages of any length: the
    two-state construction of the code, a key longer than a block hashed first,
    equals H((K xor opad) || H((K xor ipad) || message)). *)
Theorem hmac_md5_correct (key msg : bytes) : hmac_md5 key msg = hmac_spec key msg.
Proof.
  unfold hmac_md5.
  assert (Hk : (if (64 <? length key)%nat then write_at 0 (md5 key) (replicate 64 x00)
                else write_at 0 key (replicate 64 x00)) = hmac_key key).
  { unfold hmac_key. destruct (Nat.ltb_spec 64 (length key)).
    - unfold md5. rewrite digest_once. apply write_key. rewrite md5_spec_length. lia.
    - by apply write_key. }
  rewrite Hk.
  assert (Hl : forall f : byte -> byte, length (f <$> hmac_key key) = 64%nat).
  { intros f. rewrite length_fmap. unfold hmac_key. rewrite length_app, length_replicate.
    destruct (Nat.ltb_spec 64 (length key)); [rewrite md5_spec_length|]; lia. }
  assert (Hh : forall f m, finalize (update m (update (f <$> hmac_key key) md5_new))
                           = md5_spec ((f <$> hmac_key key) ++ m)).
  { intros f m. apply absorbed_finalize. apply absorbed_update; [|left].
    - change (f <$> hmac_key key) with ([] ++ (f <$> hmac_key key)) at 2.
      apply absorbed_update; [apply absorbed_new|by left].
    - unfold update. simpl buf_len. cbv beta iota zeta. simpl (0 <? 0)%nat. cbv iota.
      rewrite while_blocks_spec, Hl by (by rewrite Hl). cbn [buf_len].
      rewrite length_drop, Hl. done. }
  by rewrite !Hh.
Qed.

(** [update] is not incremental in general: when bytes are already buffered
    and the new data does not complete the block, the final [self.buf_len =
    data.len()] forgets the buffered bytes. Hashing "a" then "b" is not hashing
    "ab". No caller in the program does this: [md5] updates once, and [hmac_md5]
    updates first with a whole 64-byte block. *)
Theorem update_drops_buffered_bytes :
  finalize (update [x62] (update [x61] md5_new)) <> md5 [x61; x62]
  /\ forall h data, (0 < buf_len h)%nat -> (buf_len h + length data < 64)%nat ->
     buf_len (update data h) = 0%nat.
Proof.
  split; [vm_compute; discriminate|].
  intros h data Hp Hs. unfold update. rewrite (proj2 (Nat.ltb_lt _ _) Hp).
  rewrite Nat.min_r by lia. rewrite (proj2 (Nat.eqb_neq _ _)) by lia.
  rewrite drop_ge by lia. done.
Qed.
