(* ===== verification/Parser.v ===== *)
(** * Parser: inbound reassembly (crates/tobii-protocol/src/parser.rs)

    Device-to-host bytes are enveloped TTP frames; a large response comes as
    several transfers, later ones with an envelope of their own that is stripped
    when, and only when, it sits at the start of a chunk and passes
    [looks_like_continuation]. [feed] is the whole method: strip, cap, append,
    drain every complete frame, reset on a framing error. *)
From S2P Require Import Prelude Protocol Commands.

Definition ACC_CAP : Z := 2 ^ 21.

Record Frame := { magic : Z; seq : Z; op : Z; payload : bytes }.
Record Parser := { acc : bytes }.

Definition new_parser : Parser := {| acc := [] |}.
Definition buffered (p : Parser) : Z := zlen (acc p).

(** [be32(&b[..])], [le32(&b[..])]: the first four bytes. *)
Definition be32 (b : bytes) : Z := of_be (slice b 0 4).
Definition le32 (b : bytes) : Z := of_le (slice b 0 4).

(** [b[i] == v], for an index the code has checked. *)
Definition byte_is (b : bytes) (i : nat) (v : byte) : bool :=
  match b !! i with Some x => Byte.eqb x v | None => false end.

Definition looks_like_continuation (src : bytes) (remaining : Z) : bool :=
  if (zlen src <? ENVELOPE_SIZE)
     || negb (byte_is src 0 x01) || negb (byte_is src 1 x00)
     || negb (byte_is src 2 x00) || negb (byte_is src 3 x00)
  then false
  else
    let env_len := le32 (from src 4) in
    (ENVELOPE_SIZE <? env_len) && (env_len - ENVELOPE_SIZE <=? remaining).

(** [drain_one(&mut self)]. *)
Definition drain_one (a : bytes) : result ProtocolError (option Frame) * bytes :=
  if zlen a <? ENVELOPE_SIZE then (Ok None, a)
  else match a with
  | [] => (Ok None, a)
  | b0 :: _ =>
    if negb (Byte.eqb b0 x01) then (Err (BadDirection b0), a)
    else
      let env_len := le32 (from a 4) in
      if env_len <? ENVELOPE_SIZE + TTP_HDR_SIZE then (Err (BadLength env_len), a)
      else if zlen a <? ENVELOPE_SIZE + TTP_HDR_SIZE then (Ok None, a)
      else
        let hdr := slice a ENVELOPE_SIZE (ENVELOPE_SIZE + TTP_HDR_SIZE) in
        let m := be32 (from hdr 0) in
        let s := be32 (from hdr 4) in
        let o := be32 (from hdr 12) in
        let plen := be32 (from hdr 20) in
        let frame_size := ENVELOPE_SIZE + TTP_HDR_SIZE + plen in
        if ACC_CAP <? frame_size then (Err (BadLength plen), a)
        else if zlen a <? frame_size then (Ok None, a)
        else
          let pay := slice a (ENVELOPE_SIZE + TTP_HDR_SIZE) frame_size in
          (Ok (Some {| magic := m; seq := s; op := o; payload := pay |}), from a frame_size)
  end.

(** The drain loop of [feed]; every frame takes at least 32 bytes, so
    [S (length a)] fuel always reaches an exit (see [drain_all_unfold]). *)
Fixpoint drain_all (fuel : nat) (a : bytes) : result ProtocolError (list Frame) * bytes :=
  match fuel with
  | O => (Ok [], a)
  | S fuel =>
      match drain_one a with
      | (Ok (Some f), a') =>
          match drain_all fuel a' with
          | (Ok fs, a'') => (Ok (f :: fs), a'')
          | (Err e, a'') => (Err e, a'')
          end
      | (Ok None, a') => (Ok [], a')
      | (Err e, _) => (Err e, [])
      end
  end.
Definition drain (a : bytes) : result ProtocolError (list Frame) * bytes := drain_all (S (length a)) a.

(** What [feed] appends: [src], or [src] without its continuation envelope. *)
Definition strip (a src : bytes) : bytes :=
  if ENVELOPE_SIZE + TTP_HDR_SIZE <=? zlen a then
    let plen := be32 (from a (ENVELOPE_SIZE + 20)) in
    let frame_size := ENVELOPE_SIZE + TTP_HDR_SIZE + plen in
    if (zlen a <? frame_size) && looks_like_continuation src (frame_size - zlen a)
    then from src ENVELOPE_SIZE else src
  else src.

Definition feed (src : bytes) (p : Parser) : result ProtocolError (list Frame) * Parser :=
  let data := strip (acc p) src in
  if ACC_CAP <? zlen (acc p) + zlen data then (Err Overflow, {| acc := [] |})
  else
    let '(r, a) := drain (acc p ++ data) in (r, {| acc := a |}).

(** ** The drain loop *)

(** The bytes of an inbound frame as the device sends them. [env] is the
    envelope's own length field, which the parser only bounds from below. *)
Definition in_header (env : Z) (f : Frame) : bytes :=
  to_le 4 1 ++ to_le 4 env ++ to_be 4 (magic f) ++ to_be 4 (seq f) ++ to_be 4 0
  ++ to_be 4 (op f) ++ to_be 4 0 ++ to_be 4 (zlen (payload f)).
Definition in_frame (env : Z) (f : Frame) : bytes := in_header env f ++ payload f.

Definition frame_ok (f : Frame) : Prop :=
  is_u 32 (magic f) /\ is_u 32 (seq f) /\ is_u 32 (op f) /\ 32 + zlen (payload f) <= ACC_CAP.
Definition env_ok (env : Z) : Prop := is_u 32 env /\ 32 <= env.

Lemma zlen_in_header env f : zlen (in_header env f) = 32.
Proof. unfold in_header. len. Qed.

(** The header's fields, once there are 32 bytes. *)
Lemma in_header_fields env f k : frame_ok f -> env_ok env ->
  let a := in_header env f ++ k in
  let hdr := slice a 8 32 in
  head a = Some x01 /\ le32 (from a 4) = env /\ be32 (from hdr 0) = magic f /\
  be32 (from hdr 4) = seq f /\ be32 (from hdr 12) = op f /\ be32 (from hdr 20) = zlen (payload f) /\
  be32 (from a 28) = zlen (payload f).
Proof.
  intros (Hm & Hs & Ho & Hl) [He _]. unfold ACC_CAP in Hl.
  assert (Hp : is_u 32 (zlen (payload f))) by (pose proof (zlen_nonneg (payload f)); unfold is_u; lia).
  unfold in_header.
  open_word (to_le 4 env) (of_le4_inv _ He).
  open_word (to_be 4 (magic f)) (of_be4_inv _ Hm).
  open_word (to_be 4 (seq f)) (of_be4_inv _ Hs).
  open_word (to_be 4 (op f)) (of_be4_inv _ Ho).
  open_word (to_be 4 (zlen (payload f))) (of_be4_inv _ Hp).
  split_and!; try assumption. reflexivity.
Qed.

Lemma drain_one_short a : zlen a < ENVELOPE_SIZE -> drain_one a = (Ok None, a).
Proof. intros H. unfold drain_one. by rewrite (proj2 (Z.ltb_lt _ _) H). Qed.

(** [drain_one] past its direction check. *)
Lemma drain_one_dir a : head a = Some x01 -> 8 <= zlen a ->
  drain_one a =
    (let env_len := le32 (from a 4) in
     if env_len <? 32 then (Err (BadLength env_len), a)
     else if zlen a <? 32 then (Ok None, a)
     else
       let hdr := slice a 8 32 in
       let plen := be32 (from hdr 20) in
       if ACC_CAP <? 32 + plen then (Err (BadLength plen), a)
       else if zlen a <? 32 + plen then (Ok None, a)
       else (Ok (Some {| magic := be32 (from hdr 0); seq := be32 (from hdr 4);
                         op := be32 (from hdr 12); payload := slice a 32 (32 + plen) |}),
             from a (32 + plen))).
Proof.
  intros H0 Hl. unfold drain_one, ENVELOPE_SIZE, TTP_HDR_SIZE. rewrite (proj2 (Z.ltb_ge _ _) Hl).
  destruct a as [|b0 a']; [done|]. simpl in H0. injection H0 as ->. by rewrite byte_eqb_refl.
Qed.

Lemma drain_one_bad a b0 : head a = Some b0 -> 8 <= zlen a -> Byte.eqb b0 x01 = false ->
  drain_one a = (Err (BadDirection b0), a).
Proof.
  intros H0 Hl Hb. unfold drain_one, ENVELOPE_SIZE. rewrite (proj2 (Z.ltb_ge _ _) Hl).
  destruct a as [|b a']; [done|]. simpl in H0. injection H0 as ->. by rewrite Hb.
Qed.

(** A complete frame at the head is drained, whatever follows. *)
Lemma drain_one_frame env f rest : frame_ok f -> env_ok env ->
  drain_one (in_frame env f ++ rest) = (Ok (Some f), rest).
Proof.
  intros Hf He. unfold in_frame. rewrite <- app_assoc.
  pose proof (in_header_fields env f (payload f ++ rest) Hf He) as (H0 & H1 & H2 & H3 & H4 & H5 & _).
  pose proof (zlen_in_header env f) as Hh.
  pose proof (zlen_nonneg (payload f)). pose proof (zlen_nonneg rest).
  assert (Ha : zlen (in_header env f ++ payload f ++ rest) = 32 + zlen (payload f) + zlen rest) by len.
  rewrite drain_one_dir by (done || lia). cbv zeta.
  rewrite H1, H2, H3, H4, H5, Ha. destruct He as [_ He]. destruct Hf as (_ & _ & _ & Hcap).
  rewrite (proj2 (Z.ltb_ge env 32)), (proj2 (Z.ltb_ge _ 32)), (proj2 (Z.ltb_ge ACC_CAP _)),
    (proj2 (Z.ltb_ge _ (32 + _))) by lia.
  f_equal.
  - do 2 f_equal. rewrite (slice_mid (in_header env f)) by lia. by destruct f.
  - rewrite app_assoc. apply from_app. len.
Qed.

(** An incomplete frame at the head waits. *)
Lemma drain_one_partial env f p rest : frame_ok f -> env_ok env ->
  payload f = p ++ rest -> rest <> [] ->
  drain_one (in_header env f ++ p) = (Ok None, in_header env f ++ p).
Proof.
  intros Hf He Hp Hr.
  pose proof (in_header_fields env f p Hf He) as (H0 & H1 & _ & _ & _ & H5 & _).
  pose proof (zlen_in_header env f) as Hh. pose proof (zlen_nonneg p).
  assert (0 < zlen rest) by (destruct rest; [done|]; rewrite zlen_cons; pose proof (zlen_nonneg rest); lia).
  assert (Ha : zlen (in_header env f ++ p) = 32 + zlen p) by len.
  assert (Hpl : zlen (payload f) = zlen p + zlen rest) by (rewrite Hp; len).
  rewrite drain_one_dir by (done || lia). cbv zeta.
  rewrite H1, H5, Ha. destruct He as [_ He]. destruct Hf as (_ & _ & _ & Hcap).
  by rewrite (proj2 (Z.ltb_ge env 32)), (proj2 (Z.ltb_ge _ 32)), (proj2 (Z.ltb_ge ACC_CAP _)),
    (proj2 (Z.ltb_lt _ (32 + _))) by lia.
Qed.

(** What a drained frame leaves behind: a suffix at least 32 bytes shorter. *)
Lemma drain_one_some a f a' : drain_one a = (Ok (Some f), a') ->
  exists front, a = front ++ a' /\ 32 <= zlen front.
Proof.
  destruct (Z.ltb_spec (zlen a) ENVELOPE_SIZE) as [Hs|Hl]; [by rewrite drain_one_short|].
  destruct a as [|b0 a0]; [by unfold zlen, ENVELOPE_SIZE in Hl|].
  destruct (Byte.eqb b0 x01) eqn:Eb.
  2:{ unfold drain_one. rewrite (proj2 (Z.ltb_ge _ _) Hl), Eb. done. }
  assert (b0 = x01) as -> by (by apply Byte.byte_dec_bl).
  rewrite drain_one_dir by done. cbv zeta. set (a := x01 :: a0) in *.
  set (plen := be32 (from (slice a 8 32) 20)).
  assert (0 <= plen) by apply of_be_range.
  destruct (Z.ltb_spec (le32 (from a 4)) 32); [done|].
  destruct (Z.ltb_spec (zlen a) 32); [done|].
  destruct (Z.ltb_spec ACC_CAP (32 + plen)); [done|].
  destruct (Z.ltb_spec (zlen a) (32 + plen)); [done|]. intros Hq. injection Hq as _ <-.
  exists (take (Z.to_nat (32 + plen)) a). split.
  - symmetry. apply take_drop.
  - unfold zlen in *. rewrite length_take. lia.
Qed.

Lemma drain_one_none a a' : drain_one a = (Ok None, a') -> a' = a.
Proof.
  destruct (Z.ltb_spec (zlen a) ENVELOPE_SIZE) as [Hs|Hl]; [rewrite drain_one_short by done; congruence|].
  unfold drain_one. cbv zeta. cases; congruence.
Qed.

(** Enough fuel: beyond the length, more fuel changes nothing. *)
Lemma drain_all_enough n m a :
  (length a < n)%nat -> (length a < m)%nat -> drain_all n a = drain_all m a.
Proof.
  revert m a. induction n as [|n IH]; intros m a Hn Hm; [lia|]. destruct m as [|m]; [lia|].
  cbn [drain_all]. destruct (drain_one a) as [[[f|]|e] a'] eqn:E; [|done..].
  apply drain_one_some in E. destruct E as (front & -> & Hf).
  unfold zlen in Hf. rewrite length_app in *. by rewrite (IH m) by lia.
Qed.

(** The loop's own equation: [drain] is the source's [loop], unbounded. *)
Lemma drain_unfold a :
  drain a = match drain_one a with
            | (Ok (Some f), a') =>
                match drain a' with
                | (Ok fs, a'') => (Ok (f :: fs), a'')
                | (Err e, a'') => (Err e, a'')
                end
            | (Ok None, a') => (Ok [], a')
            | (Err e, _) => (Err e, [])
            end.
Proof.
  unfold drain at 1. cbn [drain_all]. destruct (drain_one a) as [[[f|]|e] a'] eqn:E; [|done..].
  apply drain_one_some in E. destruct E as (front & -> & Hf). unfold zlen in Hf.
  unfold drain. rewrite length_app.
  rewrite (drain_all_enough _ (S (length a')) a') by lia. done.
Qed.

(** Rule induction on the loop: the accumulator shrinks with every frame. *)
Lemma drain_ind (P : bytes -> Prop) :
  (forall a, (forall f a', drain_one a = (Ok (Some f), a') -> P a') -> P a) -> forall a, P a.
Proof.
  intros H a. induction a as [a IH] using (induction_ltof1 _ (@length byte)). unfold ltof in IH.
  apply H. intros f a' E. apply IH. apply drain_one_some in E. destruct E as (front & -> & Hf).
  unfold zlen in Hf. rewrite length_app. lia.
Qed.

(** ** More bytes never change what has been drained *)
Lemma from_app_l {A} (l k : list A) a : 0 <= a <= zlen l -> from (l ++ k) a = from l a ++ k.
Proof. unfold zlen, from. intros. by rewrite drop_app_le by lia. Qed.
Lemma word_app_l (a x : bytes) i : 0 <= i -> i + 4 <= zlen a ->
  slice (from (a ++ x) i) 0 4 = slice (from a i) 0 4.
Proof.
  intros. rewrite from_app_l by lia. apply slice_app_l; [lia|]. rewrite zlen_from by lia. lia.
Qed.

Lemma drain_one_app a x r a' : drain_one a = (r, a') -> r <> Ok None ->
  drain_one (a ++ x) = (r, a' ++ x) \/ (exists e, r = Err e /\ drain_one (a ++ x) = (Err e, a ++ x)).
Proof.
  pose proof (zlen_nonneg x) as Hx.
  destruct (Z.ltb_spec (zlen a) ENVELOPE_SIZE) as [Hs|Hl]; [rewrite drain_one_short by done; congruence|].
  destruct a as [|b0 a0]; [by unfold zlen, ENVELOPE_SIZE in Hl|].
  destruct (Byte.eqb b0 x01) eqn:Eb.
  2:{ rewrite (drain_one_bad (b0 :: a0) b0), (drain_one_bad ((b0 :: a0) ++ x) b0)
        by (done || rewrite ?zlen_app; unfold ENVELOPE_SIZE in *; lia).
      intros Hq _. right. exists (BadDirection b0). split; congruence. }
  assert (b0 = x01) as -> by (by apply Byte.byte_dec_bl).
  assert (Hh : head (x01 :: a0) = Some x01) by done. unfold ENVELOPE_SIZE in Hl.
  clear Eb. remember (x01 :: a0) as a eqn:Ea. clear a0 Ea.
  assert (Hax : 8 <= zlen (a ++ x)) by (rewrite zlen_app; lia).
  rewrite (drain_one_dir a), (drain_one_dir (a ++ x)) by (by destruct a). cbv zeta.
  unfold le32. rewrite (word_app_l a x 4) by lia. fold (le32 (from a 4)).
  destruct (Z.ltb_spec (le32 (from a 4)) 32); [intros Hq _; right; eexists; split; [|done]; congruence|].
  destruct (Z.ltb_spec (zlen a) 32); [congruence|].
  assert (Hslice : slice (a ++ x) 8 32 = slice a 8 32) by (apply slice_app_l; lia).
  rewrite Hslice, zlen_app, (proj2 (Z.ltb_ge _ 32)) by lia.
  set (plen := be32 (from (slice a 8 32) 20)). assert (0 <= plen) by apply of_be_range.
  destruct (Z.ltb_spec ACC_CAP (32 + plen)); [intros Hq _; right; eexists; split; [|done]; congruence|].
  destruct (Z.ltb_spec (zlen a) (32 + plen)); [congruence|].
  rewrite (proj2 (Z.ltb_ge _ (32 + plen))) by lia.
  intros Hq _. left. injection Hq as <- <-. rewrite slice_app_l, from_app_l by lia. done.
Qed.

Lemma drain_app a x :
  drain (a ++ x) = match drain a with
                   | (Ok fs, a') => match drain (a' ++ x) with
                                    | (Ok gs, a'') => (Ok (fs ++ gs), a'')
                                    | (Err e, a'') => (Err e, a'')
                                    end
                   | (Err e, a') => (Err e, a')
                   end.
Proof.
  induction a as [a IH] using drain_ind. rewrite (drain_unfold a).
  destruct (drain_one a) as [[[f|]|e] a'] eqn:E.
  - destruct (drain_one_app a x _ _ E ltac:(done)) as [H|(e & ? & _)]; [|done].
    rewrite drain_unfold, H, (IH f a' eq_refl).
    destruct (drain a') as [[fs|e] b]; [|done]. by destruct (drain (b ++ x)) as [[gs|e] c].
  - apply drain_one_none in E as ->. by destruct (drain (a ++ x)) as [[gs|e] c].
  - destruct (drain_one_app a x _ _ E ltac:(done)) as [H|(e' & ? & H)]; rewrite drain_unfold, H; simplify_eq; done.
Qed.

(** ** Runs of chunks *)

(** Feed chunks one after the other, collecting the frames; stop at an error. *)
Fixpoint run (p : Parser) (cs : list bytes) : result ProtocolError (list Frame) * Parser :=
  match cs with
  | [] => (Ok [], p)
  | c :: cs =>
      match feed c p with
      | (Ok fs, p') => match run p' cs with
                       | (Ok gs, p'') => (Ok (fs ++ gs), p'')
                       | (Err e, p'') => (Err e, p'')
                       end
      | (Err e, p') => (Err e, p')
      end
  end.

(** The parser between two calls: nothing left to drain, and within the cap. *)
Definition parser_inv (p : Parser) : Prop :=
  zlen (acc p) <= ACC_CAP /\ drain_one (acc p) = (Ok None, acc p).

Lemma inv_new : parser_inv new_parser.
Proof. split; [done|]. by apply drain_one_short. Qed.

Lemma drain_post a r a' : drain a = (r, a') ->
  drain_one a' = (Ok None, a') /\ zlen a' <= zlen a /\ (is_ok r = false -> a' = []).
Proof.
  revert r a'. induction a as [a IH] using drain_ind. intros r a'. rewrite drain_unfold.
  destruct (drain_one a) as [[[f|]|e] b] eqn:E.
  - destruct (drain b) as [[fs|e] c] eqn:D; intros Hq; simplify_eq;
      destruct (IH f b eq_refl _ _ D) as (H1 & H2 & H3);
      apply drain_one_some in E; destruct E as (front & -> & Hf);
      rewrite zlen_app; (split_and!; [done|lia|done]).
  - intros Hq. simplify_eq. pose proof (drain_one_none _ _ E). subst. split_and!; [done|lia|done].
  - intros Hq. simplify_eq. split_and!; [by apply drain_one_short|apply zlen_nonneg|done].
Qed.

(** The reassembler's invariant. Whatever bytes arrive, after any call of
    [feed] the accumulator holds at most 2 MiB, contains no complete frame and no
    framing error (every complete frame has been handed out), and after a call
    that returns an error it is empty. *)
Theorem feed_invariant p src r p' :
  parser_inv p -> feed src p = (r, p') ->
  parser_inv p' /\ (forall e, r = Err e -> acc p' = []).
Proof.
  intros [Hc Hd]. unfold feed. destruct (Z.ltb_spec ACC_CAP (zlen (acc p) + zlen (strip (acc p) src))).
  - intros Hq. simplify_eq. split; [apply inv_new|done].
  - destruct (drain _) as [r0 a] eqn:E. intros Hq. simplify_eq.
    apply drain_post in E. destruct E as (H1 & H2 & H3). rewrite zlen_app in H2.
    split; [split; [simpl; lia|done]|]. intros e ->. by apply H3.
Qed.
Lemma feed_invariant_witness : acc (snd (feed [x02; x00; x00; x00; x00; x00; x00; x00] new_parser)) = [].
Proof.
  refine (proj2 (feed_invariant new_parser [x02; x00; x00; x00; x00; x00; x00; x00]
                   (Err (BadDirection x02)) _ inv_new _) (BadDirection x02) eq_refl).
  vm_compute. reflexivity.
Defined.

(** No chunk of the run is taken for a continuation, nor overflows the cap. *)
Fixpoint plain (p : Parser) (cs : list bytes) : Prop :=
  match cs with
  | [] => True
  | c :: cs => strip (acc p) c = c /\ zlen (acc p) + zlen c <= ACC_CAP /\ plain (snd (feed c p)) cs
  end.

Lemma run_plain p cs : drain_one (acc p) = (Ok None, acc p) -> plain p cs ->
  run p cs = let '(r, a) := drain (acc p ++ concat cs) in (r, {| acc := a |}).
Proof.
  revert p. induction cs as [|c cs IH]; intros p Hp Hc; cbn [run concat].
  - rewrite app_nil_r, drain_unfold, Hp. by destruct p.
  - destruct Hc as (Hs & Hl & Hcs). unfold feed in *. rewrite Hs in *.
    rewrite (proj2 (Z.ltb_ge _ _) Hl) in *. rewrite app_assoc, (drain_app (acc p ++ c)).
    destruct (drain (acc p ++ c)) as [[fs|e] a] eqn:E; [|done].
    apply drain_post in E. destruct E as (Ha & _ & _).
    rewrite (IH {| acc := a |}) by done. cbn [acc]. by destruct (drain (a ++ concat cs)) as [[gs|e] b].
Qed.

Lemma drain_frames es rest :
  Forall (fun ef => env_ok (fst ef) /\ frame_ok (snd ef)) es ->
  drain (concat ((fun ef => in_frame (fst ef) (snd ef)) <$> es) ++ rest)
  = match drain rest with
    | (Ok gs, a) => (Ok ((snd <$> es) ++ gs), a)
    | (Err e, a) => (Err e, a)
    end.
Proof.
  induction 1 as [|[env f] es [He Hf] _ IH]; cbn [fmap list_fmap concat app fst snd] in *.
  - by destruct (drain rest) as [[|] ?].
  - rewrite <- app_assoc, drain_unfold, drain_one_frame by done. rewrite IH.
    by destruct (drain rest) as [[|] ?].
Qed.

(** C23: Plain chunks may be cut anywhere. Let the device send any sequence of frames and then the
    beginning [rest] of another, cut into chunks none of which starts, inside a frame, like a
    continuation envelope, nor goes over the cap; then feeding the chunks in order yields
    exactly the frames sent, in order, and keeps exactly the unfinished rest. A chunk that
    does start like an envelope loses those eight bytes, so there the cut counts and [feed]
    is to be given whole transfers ([fragmented_frame_reassembles]). *)
Theorem feed_any_chunking cs es rest :
  Forall (fun ef => env_ok (fst ef) /\ frame_ok (snd ef)) es ->
  drain_one rest = (Ok None, rest) ->
  concat cs = concat ((fun ef => in_frame (fst ef) (snd ef)) <$> es) ++ rest ->
  plain new_parser cs ->
  run new_parser cs = (Ok (snd <$> es), {| acc := rest |}).
Proof.
  intros Hes Hr Hc Hp. rewrite run_plain by (done || apply inv_new). cbn [acc new_parser app].
  rewrite Hc, drain_frames by done. rewrite drain_unfold, Hr. by rewrite app_nil_r.
Qed.
Definition frame_a : Frame := {| magic := 0x53; seq := 0; op := 0x500; payload := [xaa; xbb; xcc] |}.
Definition frame_b : Frame := {| magic := 0x52; seq := 7; op := 0x44c; payload := [] |}.
Definition two_frames : bytes := in_frame 35 frame_a ++ in_frame 32 frame_b.
(** Where a chunk holds an envelope, where it is cut counts. *)
Example an_envelope_is_stripped_at_the_start_only :
  let f := {| magic := 0x52; seq := 7; op := 0x501; payload := replicate 24 xcd |} in
  let header := take 32 (in_frame 32 f) in
  let part := [x01; x00; x00; x00; x20; x00; x00; x00] ++ payload f in
  run new_parser [header; part] = (Ok [f], new_parser) /\ (run new_parser [header ++ part]).1 <> Ok [f].
Proof. vm_compute. split; [reflexivity|discriminate]. Qed.
Lemma feed_any_chunking_witness :
  run new_parser [take 5 two_frames; take 33 (drop 5 two_frames); drop 38 two_frames ++ [x01; x00]]
  = (Ok [frame_a; frame_b], {| acc := [x01; x00] |}).
Proof.
  apply (feed_any_chunking _ [(35, frame_a); (32, frame_b)] [x01; x00]).
  - repeat constructor; vm_compute; congruence.
  - reflexivity.
  - reflexivity.
  - vm_compute. repeat split; discriminate.
Defined.

(** ** Fragmented responses *)

(** One later transfer of a fragmented response: a run envelope declaring [n]
    payload bytes in front of [d], or [d] alone. *)
Definition piece : Type := option Z * bytes.
Definition piece_bytes (p : piece) : bytes :=
  match p with
  | (Some n, d) => to_le 4 1 ++ to_le 4 (8 + n) ++ d
  | (None, d) => d
  end.

(** What the transport promises of the pieces still to come, [remaining] payload
    bytes short: an envelope declares a non-empty run that fits the frame (not
    that it fits this read); bare data does not begin like such an envelope. *)
Fixpoint pieces_ok (remaining : Z) (ps : list piece) : Prop :=
  match ps with
  | [] => remaining = 0
  | (env, d) :: ps =>
      0 < remaining /\ zlen d <= remaining
      /\ match env with
         | Some n => 0 < n <= remaining
         | None => looks_like_continuation d remaining = false
         end
      /\ pieces_ok (remaining - zlen d) ps
  end.

(** An envelope is recognised by its prefix and its own length field. *)
Lemma envelope_recognised n d remaining :
  0 < n <= remaining -> 8 + n < 2 ^ 32 ->
  looks_like_continuation (to_le 4 1 ++ to_le 4 (8 + n) ++ d) remaining = true
  /\ from (to_le 4 1 ++ to_le 4 (8 + n) ++ d) ENVELOPE_SIZE = d.
Proof.
  intros Hn Hr. pose proof (zlen_nonneg d).
  assert (Hu : is_u 32 (8 + n)) by (unfold is_u; lia).
  split; [|rewrite app_assoc; apply from_app; by len].
  unfold looks_like_continuation, ENVELOPE_SIZE.
  rewrite (proj2 (Z.ltb_ge _ _)) by len.
  open_word (to_le 4 (8 + n)) (of_le4_inv _ Hu).
  match goal with H : of_le ?l = 8 + n |- _ =>
    replace (le32 _) with (8 + n) by (symmetry; exact H) end.
  change (to_le 4 1) with [x01; x00; x00; x00]. cbn [app byte_is negb orb lookup list_lookup].
  simpl. rewrite (proj2 (Z.ltb_lt _ _)), (proj2 (Z.leb_le _ _)) by lia. done.
Qed.

Lemma strip_partial env f p rest src :
  frame_ok f -> env_ok env -> payload f = p ++ rest -> rest <> [] ->
  strip (in_header env f ++ p) src
  = if looks_like_continuation src (zlen rest) then from src ENVELOPE_SIZE else src.
Proof.
  intros Hf He Hp Hr. unfold strip, ENVELOPE_SIZE, TTP_HDR_SIZE.
  pose proof (in_header_fields env f p Hf He) as (_ & _ & _ & _ & _ & _ & H28).
  change (8 + 20) with 28. change (8 + 24) with 32. rewrite H28.
  pose proof (zlen_in_header env f) as Hh. pose proof (zlen_nonneg p).
  assert (0 < zlen rest) by (destruct rest; [done|]; rewrite zlen_cons; pose proof (zlen_nonneg rest); lia).
  assert (Ha : zlen (in_header env f ++ p) = 32 + zlen p) by len.
  assert (Hpl : zlen (payload f) = zlen p + zlen rest) by (rewrite Hp; len).
  rewrite Ha, Hpl, (proj2 (Z.leb_le _ _)), (proj2 (Z.ltb_lt _ _)) by lia.
  by replace (32 + (zlen p + zlen rest) - (32 + zlen p)) with (zlen rest) by lia.
Qed.

Lemma run_pieces env f p ps :
  frame_ok f -> env_ok env -> ps <> [] ->
  payload f = p ++ concat (snd <$> ps) -> pieces_ok (zlen (concat (snd <$> ps))) ps ->
  run {| acc := in_header env f ++ p |} (piece_bytes <$> ps) = (Ok [f], new_parser).
Proof.
  intros Hf He. revert p. induction ps as [|[n d] ps IH]; intros p Hne Hp Hok; [done|].
  cbn [fmap list_fmap run concat snd] in *. destruct Hok as (Hpos & Hd & Hn & Hok).
  rewrite zlen_app in *. set (rest := concat (snd <$> ps)) in *. fold (list_fmap _ _ snd ps) in *.
  change (concat (list_fmap _ _ snd ps)) with rest in *.
  pose proof (zlen_nonneg d). pose proof (zlen_nonneg p). pose proof (zlen_nonneg rest).
  pose proof Hf as (_ & _ & _ & Hcap).
  assert (Hdr : d ++ rest <> [])
    by (intros E; apply (f_equal zlen) in E; rewrite zlen_app, zlen_nil in E; lia).
  assert (Hpl : zlen (payload f) = zlen p + zlen d + zlen rest) by (rewrite Hp; len).
  assert (Hs : strip (in_header env f ++ p) (piece_bytes (n, d)) = d).
  { rewrite (strip_partial env f p (d ++ rest)) by done.
    rewrite zlen_app. destruct n as [n|]; cbn [piece_bytes]; [|by rewrite Hn].
    destruct (envelope_recognised n d (zlen d + zlen rest)) as [-> ->]; [done| |done].
    unfold ACC_CAP in Hcap. change (2 ^ 21) with 2097152 in Hcap. change (2 ^ 32) with 4294967296. lia. }
  unfold feed. cbn [acc]. rewrite Hs, <- app_assoc.
  rewrite (proj2 (Z.ltb_ge _ _)) by (rewrite zlen_app, zlen_in_header; lia).
  replace (zlen d + zlen rest - zlen d) with (zlen rest) in Hok by lia.
  destruct ps as [|pc ps].
  - assert (Er : rest = []) by done. rewrite Er, app_nil_r in Hp.
    change (in_header env f ++ p ++ d) with (in_header env f ++ (p ++ d)). rewrite <- Hp.
    change (in_header env f ++ payload f) with (in_frame env f).
    rewrite <- (app_nil_r (in_frame env f)), drain_unfold, drain_one_frame by done. done.
  - assert (Hr : rest <> []).
    { intros E. rewrite E in Hok. destruct pc as [n' d']. destruct Hok as (Hlt & _). by vm_compute in Hlt. }
    rewrite drain_unfold, (drain_one_partial env f (p ++ d) rest) by (done || by rewrite <- app_assoc).
    rewrite (IH (p ++ d)) by (done || by rewrite <- app_assoc). done.
Qed.

(** C1: A fragmented response is reassembled bit for bit. The first transfer
    carries the header and the first payload bytes; each later one either starts
    with a run envelope (whose length may cover any number of the reads that
    follow, and whose own read may carry no payload at all) or is bare payload.
    Under what the transport promises of those transfers, no feed fails, the one
    frame comes out with its payload intact, every envelope stripped and nothing
    else, and the parser is empty again. *)
Theorem fragmented_frame_reassembles env f p ps :
  frame_ok f -> env_ok env -> payload f = p ++ concat (snd <$> ps) ->
  pieces_ok (zlen (concat (snd <$> ps))) ps ->
  run new_parser ((in_header env f ++ p) :: (piece_bytes <$> ps)) = (Ok [f], new_parser).
Proof.
  intros Hf He Hp Hok. pose proof Hf as (_ & _ & _ & Hcap).
  set (rest := concat (snd <$> ps)) in *. pose proof (zlen_nonneg rest).
  assert (Hpl : zlen (payload f) = zlen p + zlen rest) by (rewrite Hp; len).
  cbn [run]. unfold feed. cbn [acc new_parser app].
  assert (Hs : strip [] (in_header env f ++ p) = in_header env f ++ p) by done. rewrite Hs, zlen_nil.
  rewrite (proj2 (Z.ltb_ge _ _)) by (rewrite zlen_app, zlen_in_header; lia).
  destruct ps as [|pc ps].
  - change rest with (@nil byte) in Hp. rewrite app_nil_r in Hp. rewrite <- Hp.
    change (in_header env f ++ payload f) with (in_frame env f).
    rewrite <- (app_nil_r (in_frame env f)), drain_unfold, drain_one_frame by done. done.
  - assert (Hr : rest <> []).
    { intros E. rewrite E in Hok. destruct pc as [n d]. destruct Hok as (Hlt & _). by vm_compute in Hlt. }
    rewrite drain_unfold, (drain_one_partial env f p rest) by done.
    by rewrite run_pieces.
Qed.
(** The shape measured on the device, scaled down: one envelope over several
    reads, then a second envelope alone in its read; a payload that contains the
    bytes [01 00 00 00 04] at the start of a bare read is not mistaken for one. *)
Definition frag : Frame :=
  {| magic := 0x52; seq := 9; op := 0x44c;
     payload := [x10; x11; x20; x21; x01; x00; x00; x00; x04; x00; x00; x00; x33; x34] |}.
Definition frag_pieces : list piece :=
  [(Some 10, [x20; x21]); (None, [x01; x00; x00; x00; x04; x00; x00; x00]); (Some 2, []); (None, [x33; x34])].
Lemma fragmented_frame_reassembles_witness :
  run new_parser ((in_header 100 frag ++ [x10; x11]) :: (piece_bytes <$> frag_pieces)) = (Ok [frag], new_parser).
Proof.
  apply (fragmented_frame_reassembles 100 frag [x10; x11] frag_pieces).
  - repeat split; vm_compute; congruence.
  - repeat split; vm_compute; congruence.
  - reflexivity.
  - vm_compute. repeat split; congruence.
Defined.
