(* ===== verification/Handshake.v ===== *)
(** * Handshake: the connection state machine (crates/tobii-protocol/src/handshake.rs)

    [poll] produces the next frame to send or asks for input; [on_response]
    stores the payload of a response frame. The machine is modelled with every
    field of the source's struct; [poll_step] is one turn of [poll]'s loop, and
    [poll] is proved to be the unbounded loop. The environment is a sequence of
    [Poll] and [Response] events in any order ([reach]). *)
From S2P Require Import Prelude Tlv Commands Md5.

(** ** The response walker *)
Definition resp_u16_be (data : bytes) (at_ : Z) : Z := of_be (slice data at_ (at_ + 2)).

(** The iterator's [while pos + 4 <= data.len()]; each turn advances by at least
    4, so [length data] fuel is enough. *)
Fixpoint resp_fields_from (fuel : nat) (data : bytes) (pos : Z) : list (Z * bytes) :=
  match fuel with
  | O => []
  | S fuel =>
      if pos + 4 <=? zlen data then
        let size := resp_u16_be data (pos + 2) in
        let pos := pos + 4 in
        let rest := resp_fields_from fuel data (pos + size) in
        if pos + size <=? zlen data then (size, slice data pos (pos + size)) :: rest else rest
      else []
  end.
Definition resp_fields (data : bytes) : list (Z * bytes) := resp_fields_from (length data) data 2.

Definition resp_first_u32_opt (data : bytes) : option Z :=
  (fun f => of_be (snd f)) <$> find (fun f => fst f =? 4) (resp_fields data).
Definition resp_u32_at (data : bytes) (index : nat) : Z :=
  match List.filter (fun f => fst f =? 4) (resp_fields data) !! index with
  | Some f => of_be (snd f)
  | None => 0
  end.
Definition resp_extract_challenge (data : bytes) : option bytes :=
  snd <$> find (fun f => 4 <? fst f) (resp_fields data).

(** ** The machine *)
Inductive HandshakeAction :=
| Send (frame : bytes)
| Recv
| Done
| Failed.

Module State.
Inductive State :=
| BuildHello | AwaitHello
| BuildQueryRealm | AwaitQueryRealm
| BuildOpenRealm | AwaitOpenRealm
| BuildRealmAuth | AwaitRealmAuth
| BuildSubscribe
| Done
| Failed.
End State.

Record Handshake := {
  hstate : State.State;
  hseq : Z;
  stream_id : Z;
  realm_type : Z;
  realm_id : Z;
  field_210 : Z;
  resp : option bytes;
}.

Definition new_handshake (sid : Z) : Handshake :=
  {| hstate := State.BuildHello; hseq := 1; stream_id := sid; realm_type := 0; realm_id := 0;
     field_210 := 0; resp := None |}.

(** Field updates. *)
Definition set_state (s : State.State) (h : Handshake) : Handshake :=
  {| hstate := s; hseq := hseq h; stream_id := stream_id h; realm_type := realm_type h;
     realm_id := realm_id h; field_210 := field_210 h; resp := resp h |}.
Definition set_seq (n : Z) (h : Handshake) : Handshake :=
  {| hstate := hstate h; hseq := n; stream_id := stream_id h; realm_type := realm_type h;
     realm_id := realm_id h; field_210 := field_210 h; resp := resp h |}.
Definition set_resp (r : option bytes) (h : Handshake) : Handshake :=
  {| hstate := hstate h; hseq := hseq h; stream_id := stream_id h; realm_type := realm_type h;
     realm_id := realm_id h; field_210 := field_210 h; resp := r |}.
Definition set_realm_type (n : Z) (h : Handshake) : Handshake :=
  {| hstate := hstate h; hseq := hseq h; stream_id := stream_id h; realm_type := n;
     realm_id := realm_id h; field_210 := field_210 h; resp := resp h |}.
Definition set_realm (rid f210 : Z) (h : Handshake) : Handshake :=
  {| hstate := hstate h; hseq := hseq h; stream_id := stream_id h; realm_type := realm_type h;
     realm_id := rid; field_210 := f210; resp := resp h |}.

(** The counter both the handshake and the connection keep: wrapping, never 0. *)
Definition bump_seq (s : Z) : Z := let n := wrap 32 (s + 1) in if n =? 0 then 1 else n.

Definition next_seq (h : Handshake) : Z * Handshake := (hseq h, set_seq (bump_seq (hseq h)) h).

Definition on_response (p : bytes) (h : Handshake) : Handshake := set_resp (Some p) h.

(** One turn of [poll]'s loop: an action to return, or [None] for [continue]. *)
Definition poll_step (h : Handshake) : option HandshakeAction * Handshake :=
  match hstate h with
  | State.BuildHello =>
      let '(s, h) := next_seq h in
      (Some (Send (build_hello s)), set_state State.AwaitHello (set_resp None h))
  | State.AwaitHello =>
      match resp h with
      | Some _ => (None, set_state State.BuildQueryRealm h)
      | None => (Some Recv, h)
      end
  | State.BuildQueryRealm =>
      let '(s, h) := next_seq h in
      (Some (Send (build_query_realm s)), set_state State.AwaitQueryRealm (set_resp None h))
  | State.AwaitQueryRealm =>
      match resp h with
      | Some r =>
          let h := set_resp None h in
          let h := set_realm_type (default 0 (resp_first_u32_opt r)) h in
          (None, set_state State.BuildOpenRealm h)
      | None => (Some Recv, h)
      end
  | State.BuildOpenRealm =>
      let '(s, h) := next_seq h in
      (Some (Send (build_open_realm s (realm_type h))), set_state State.AwaitOpenRealm (set_resp None h))
  | State.AwaitOpenRealm =>
      match resp h with
      | None => (Some Recv, h)
      | Some r =>
          if realm_type h =? 0 then (None, set_state State.BuildSubscribe h)
          else if zlen r <? 12 then (Some Failed, set_state State.Failed h)
          else
            let h := set_realm (resp_u32_at r 0) (resp_u32_at r 1) h in
            (None, set_state State.BuildRealmAuth h)
      end
  | State.BuildRealmAuth =>
      let r := default [] (resp h) in
      let h := set_resp None h in
      match resp_extract_challenge r with
      | None => (Some Failed, set_state State.Failed h)
      | Some challenge =>
          let digest := hmac_md5 REALM_KEY challenge in
          let '(s, h) := next_seq h in
          (Some (Send (build_realm_response s (realm_id h) (field_210 h) digest)),
           set_state State.AwaitRealmAuth h)
      end
  | State.AwaitRealmAuth =>
      match resp h with
      | Some _ => (None, set_state State.BuildSubscribe h)
      | None => (Some Recv, h)
      end
  | State.BuildSubscribe =>
      let '(s, h) := next_seq h in
      (Some (Send (build_subscribe s (stream_id h))), set_state State.Done h)
  | State.Done => (Some Done, h)
  | State.Failed => (Some Failed, h)
  end.

(** [poll]'s [loop], bounded. Two turns always return ([poll_unfold]). *)
Fixpoint poll_loop (fuel : nat) (h : Handshake) : option HandshakeAction * Handshake :=
  match fuel with
  | O => (None, h)
  | S fuel => match poll_step h with
              | (Some a, h') => (Some a, h')
              | (None, h') => poll_loop fuel h'
              end
  end.
Definition poll (h : Handshake) : HandshakeAction * Handshake :=
  match poll_loop 2 h with (Some a, h') => (a, h') | (None, h') => (Recv, h') end.

(** ** Proofs *)
#[global] Arguments build_out_frame : simpl never.
#[global] Arguments build_hello : simpl never.
#[global] Arguments build_query_realm : simpl never.
#[global] Arguments build_open_realm : simpl never.
#[global] Arguments build_realm_response : simpl never.
#[global] Arguments build_subscribe : simpl never.
#[global] Arguments hmac_md5 : simpl never.
#[global] Arguments bump_seq : simpl never.

(** A turn that continues is followed by one that returns. *)
Lemma step_twice h h' : poll_step h = (None, h') -> exists a h'', poll_step h' = (Some a, h'').
Proof.
  destruct h as [[] s sid rt rid f210 [r|]]; unfold poll_step; simpl; intros Hq; simplify_eq; simpl; eauto;
    repeat case_match; simplify_eq; simpl; eauto.
Qed.

(** [poll]'s loop terminates and the model is it: the two turns [poll] is
    given are always enough, so [poll] satisfies the equation of the source's
    unbounded [loop] from every state. *)
Theorem poll_unfold h :
  poll h = match poll_step h with (Some a, h') => (a, h') | (None, h') => poll h' end.
Proof.
  unfold poll. cbn [poll_loop]. destruct (poll_step h) as [[a|] h'] eqn:E; [done|].
  destruct (step_twice h h' E) as (a & h'' & E'). rewrite E'. done.
Qed.

Lemma bump_seq_range s : is_u 32 (bump_seq s) /\ bump_seq s <> 0.
Proof.
  unfold bump_seq. pose proof (wrap_range 32 (s + 1) ltac:(lia)) as H. unfold is_u in *.
  destruct (Z.eqb_spec (wrap 32 (s + 1)) 0); lia.
Qed.

(** ** Every interleaving of polls and responses

    The environment polls and delivers responses in any order and number. The log
    keeps the frames sent. *)
Inductive event := Poll | Response (p : bytes).

Definition sent (a : HandshakeAction) : list bytes :=
  match a with Send f => [f] | _ => [] end.

Inductive hs_step : event -> Handshake * list bytes -> Handshake * list bytes -> Prop :=
| hs_poll h log : hs_step Poll (h, log) (snd (poll h), log ++ sent (fst (poll h)))
| hs_response p h log : hs_step (Response p) (h, log) (on_response p h, log).

Inductive reach (sid : Z) : Handshake -> list bytes -> Prop :=
| reach_new : reach sid (new_handshake sid) []
| reach_step ev h log h' log' :
    reach sid h log -> hs_step ev (h, log) (h', log') -> reach sid h' log'.

(** The two conversations there are. *)
Definition preamble (rt : Z) : list bytes := [build_hello 1; build_query_realm 2; build_open_realm 3 rt].
Inductive transcript (sid : Z) : list bytes -> Prop :=
| no_auth : transcript sid (preamble 0 ++ [build_subscribe 4 sid])
| with_auth rt rid f210 challenge :
    rt <> 0 ->
    transcript sid (preamble rt ++ [build_realm_response 4 rid f210 (hmac_spec REALM_KEY challenge);
                                    build_subscribe 5 sid]).

(** What each state knows of the frames already sent. *)
Definition hs_inv (sid : Z) (h : Handshake) (log : list bytes) : Prop :=
  stream_id h = sid /\ hseq h = 1 + zlen log /\
  match hstate h with
  | State.BuildHello => log = []
  | State.AwaitHello | State.BuildQueryRealm => log = [build_hello 1]
  | State.AwaitQueryRealm | State.BuildOpenRealm => log = [build_hello 1; build_query_realm 2]
  | State.AwaitOpenRealm => log = preamble (realm_type h)
  | State.BuildRealmAuth | State.Failed => log = preamble (realm_type h) /\ realm_type h <> 0
  | State.AwaitRealmAuth | State.BuildSubscribe => transcript sid (log ++ [build_subscribe (hseq h) sid])
  | State.Done => transcript sid log
  end.

Lemma bump_small s : 0 <= s < 2 ^ 32 - 1 -> bump_seq s = s + 1.
Proof.
  intros Hs. unfold bump_seq. rewrite wrap_id by (unfold is_u; lia).
  rewrite (proj2 (Z.eqb_neq _ _)) by lia. done.
Qed.
Lemma transcript_length sid log : transcript sid log -> 4 <= zlen log <= 5.
Proof. by destruct 1. Qed.

Lemma bump_log sid log f : transcript sid (log ++ [f]) -> bump_seq (1 + zlen log) = 1 + zlen (log ++ [f]).
Proof.
  intros Hl%transcript_length. rewrite zlen_app, zlen_cons, zlen_nil in *. rewrite bump_small by lia. lia.
Qed.

Lemma poll_step_inv sid h log : hs_inv sid h log ->
  hs_inv sid (snd (poll_step h)) (log ++ from_option sent [] (fst (poll_step h))).
Proof.
  destruct h as [st s sid' rt rid f210 r]. unfold hs_inv, poll_step, next_seq.
  intros (Hs & Hq & H); simpl in Hs, Hq, H; subst sid' s.
  destruct st; simpl in *; destruct_and?; subst; try (destruct r as [r|]; simpl); rewrite ?app_nil_r; auto.
  - destruct (Z.eqb_spec rt 0) as [->|Hrt]; simpl; rewrite ?app_nil_r; [split_and!; [done..|]; apply no_auth|].
    destruct (zlen r <? 12); simpl; rewrite ?app_nil_r; auto.
  - destruct (resp_extract_challenge r) as [c|]; simpl; rewrite ?app_nil_r; [|auto].
    rewrite hmac_md5_correct. split_and!; [done..|]. by apply with_auth.
  - split_and!; [done|by eapply bump_log|done].
  - split_and!; [done|by eapply bump_log|done].
Qed.

Lemma poll_inv sid h log : hs_inv sid h log ->
  hs_inv sid (snd (poll h)) (log ++ sent (fst (poll h))).
Proof.
  intros H. rewrite poll_unfold. pose proof (poll_step_inv sid h log H) as H1.
  destruct (poll_step h) as [[a|] h1] eqn:E; simpl in *; [done|].
  rewrite app_nil_r in H1. destruct (step_twice h h1 E) as (a & h2 & E2).
  rewrite poll_unfold, E2. pose proof (poll_step_inv sid h1 log H1) as H2. by rewrite E2 in H2.
Qed.

Lemma reach_inv sid h log : reach sid h log -> hs_inv sid h log.
Proof.
  induction 1 as [|ev h log h' log' _ IH Hs]; [by repeat split|].
  inversion Hs; subst; [by apply poll_inv|]. unfold on_response, hs_inv in *. by destruct h as [[]].
Qed.

(** Every opening is part of a conversation, and so is the log of every state. *)
Lemma preamble_prefix sid l rt : l `prefix_of` preamble rt ->
  exists full, transcript sid full /\ l `prefix_of` full.
Proof.
  intros Hl. destruct (Z.eq_dec rt 0) as [->|Hrt].
  - eexists. split; [apply no_auth|]. by apply prefix_app_r.
  - eexists. split; [by apply (with_auth _ rt 0 0 [])|]. by apply prefix_app_r.
Qed.

Lemma inv_prefix sid h log : hs_inv sid h log -> exists full, transcript sid full /\ log `prefix_of` full.
Proof.
  intros (_ & _ & H).
  destruct (hstate h); destruct_and?; subst;
    first [ eexists; split; [eassumption|]; first [done | by apply prefix_app_r]
          | apply (preamble_prefix sid _ (realm_type h)); first [done | eexists; reflexivity] ].
Qed.

(** C4: Order and safety of the connection handshake. However polls and responses
    interleave, and whatever the responses contain, the frames sent so far are a
    beginning of one of two conversations: hello, query-realm, open-realm and
    subscribe numbered 1 to 4 when the device asks for no realm; or, when it does,
    the authentication reply (the HMAC-MD5 of a challenge under the realm key)
    between open-realm and subscribe. So gaze is never subscribed to before a
    required authentication, no frame is sent twice, the next number is always one
    past those used, and once the machine is done the whole conversation has been
    sent. *)
Theorem handshake_order sid h log :
  reach sid h log ->
  (exists full, transcript sid full /\ log `prefix_of` full)
  /\ hseq h = 1 + zlen log
  /\ (hstate h = State.Done -> transcript sid log)
  /\ (hstate h = State.Failed -> exists rt, rt <> 0 /\ log = preamble rt).
Proof.
  intros H%reach_inv. split_and!; [by eapply inv_prefix|apply H|..];
    destruct H as (_ & _ & H); intros E; rewrite E in H; [done|]. destruct_and?. eauto.
Qed.
(** Events can be run. *)
Definition do_event (st : Handshake * list bytes) (ev : event) : Handshake * list bytes :=
  let '(h, log) := st in
  match ev with
  | Poll => (snd (poll h), log ++ sent (fst (poll h)))
  | Response p => (on_response p h, log)
  end.
Lemma reach_events sid evs h log :
  reach sid h log ->
  reach sid (fst (foldl do_event (h, log) evs)) (snd (foldl do_event (h, log) evs)).
Proof.
  revert h log. induction evs as [|ev evs IH]; intros h log H; [done|]. cbn [foldl].
  destruct (do_event (h, log) ev) as [h' log'] eqn:E. apply IH.
  eapply reach_step; [exact H|]. destruct ev; simpl in E; simplify_eq; constructor.
Qed.
(** A device that demands authentication, and answers early and twice. *)
Definition auth_reply : bytes :=
  [x00; x00] ++ [x02; x00; x00; x04; x00; x00; x00; x07] ++ [x02; x00; x00; x04; x00; x00; x00; x09]
  ++ [x0b; x00; x00; x05; x01; x02; x03; x04; x05].
Definition auth_events : list event :=
  [Response []; Poll; Response [x00; x00]; Response [x00; x00]; Poll; Poll;
   Response [x00; x00; x02; x00; x00; x04; x00; x00; x00; x01]; Poll; Response auth_reply; Poll;
   Response []; Poll; Poll].
Lemma handshake_order_witness :
  transcript 0x500 (snd (foldl do_event (new_handshake 0x500, []) auth_events)).
Proof.
  refine (proj1 (proj2 (proj2 (handshake_order 0x500 (fst (foldl do_event (new_handshake 0x500, []) auth_events)) _ _))) _).
  - apply reach_events, reach_new.
  - vm_compute. reflexivity.
Defined.

(** ** The loop that drives it *)

(** A client that polls, and answers every [Recv] with the next reply. *)
Fixpoint drive (fuel : nat) (h : Handshake) (replies : list bytes) : list bytes * option bool :=
  match fuel with
  | O => ([], None)
  | S fuel =>
      match poll h with
      | (Send f, h) => let '(fs, r) := drive fuel h replies in (f :: fs, r)
      | (Recv, h) => match replies with
                     | [] => ([], None)
                     | p :: replies => drive fuel (on_response p h) replies
                     end
      | (Done, _) => ([], Some true)
      | (Failed, _) => ([], Some false)
      end
  end.

(** The client's view of one exchange: send a frame, wait, take the reply. *)
Definition push_frame (f : bytes) (o : list bytes * option bool) : list bytes * option bool :=
  (f :: o.1, o.2).
Lemma drive_send n h h' f rs : poll h = (Send f, h') -> drive (S n) h rs = push_frame f (drive n h' rs).
Proof. intros H. cbn [drive]. rewrite H. by destruct (drive n h' rs). Qed.
Lemma drive_recv n h h' p rs : poll h = (Recv, h') -> drive (S n) h (p :: rs) = drive n (on_response p h') rs.
Proof. intros H. cbn [drive]. by rewrite H. Qed.

(** Waiting for the reply to open-realm. *)
Definition opening (sid rt : Z) : Handshake :=
  {| hstate := State.AwaitOpenRealm; hseq := 4; stream_id := sid; realm_type := rt; realm_id := 0;
     field_210 := 0; resp := None |}.

Lemma drive_preamble sid n hello realm rs :
  let rt := default 0 (resp_first_u32_opt realm) in
  drive (5 + n) (new_handshake sid) (hello :: realm :: rs)
  = push_frame (build_hello 1) (push_frame (build_query_realm 2)
      (push_frame (build_open_realm 3 rt) (drive n (opening sid rt) rs))).
Proof.
  cbn [Nat.add].
  erewrite drive_send by reflexivity. erewrite drive_recv by reflexivity.
  erewrite drive_send by reflexivity. erewrite drive_recv by reflexivity.
  erewrite drive_send by reflexivity. reflexivity.
Qed.

(** The reply to open-realm decides. *)
Lemma poll_opened sid rt p :
  poll (on_response p (opening sid rt))
  = if rt =? 0 then
      (Send (build_subscribe 4 sid), set_state State.Done (set_seq 5 (on_response p (opening sid rt))))
    else if zlen p <? 12 then (Failed, set_state State.Failed (on_response p (opening sid rt)))
    else
      let h := set_resp None (set_realm (resp_u32_at p 0) (resp_u32_at p 1) (opening sid rt)) in
      match resp_extract_challenge p with
      | None => (Failed, set_state State.Failed h)
      | Some c =>
          (Send (build_realm_response 4 (resp_u32_at p 0) (resp_u32_at p 1) (hmac_md5 REALM_KEY c)),
           set_state State.AwaitRealmAuth (set_seq 5 h))
      end.
Proof.
  rewrite poll_unfold. cbn [poll_step hstate on_response opening set_resp resp realm_type].
  destruct (rt =? 0); [reflexivity|]. destruct (zlen p <? 12); [reflexivity|].
  rewrite poll_unfold. cbn -[resp_extract_challenge resp_u32_at].
  destruct (resp_extract_challenge p); reflexivity.
Qed.

(** C24: The handshake ends, with the outcome the replies call for. Given any four
    replies, a client that answers each request once finishes within 10 polls: the
    device that reports no realm type gets a subscription after open-realm; one that
    reports a realm is refused if its open-realm reply is under 12 bytes or holds
    no challenge, and otherwise gets the realm id, the second field and the digest
    of the challenge before the subscription. *)
Theorem handshake_completes sid hello realm opened authed :
  let rt := default 0 (resp_first_u32_opt realm) in
  drive 10 (new_handshake sid) [hello; realm; opened; authed]
  = if rt =? 0 then (preamble 0 ++ [build_subscribe 4 sid], Some true)
    else if zlen opened <? 12 then (preamble rt, Some false)
    else match resp_extract_challenge opened with
         | None => (preamble rt, Some false)
         | Some c =>
             (preamble rt ++ [build_realm_response 4 (resp_u32_at opened 0) (resp_u32_at opened 1)
                                (hmac_spec REALM_KEY c);
                              build_subscribe 5 sid], Some true)
         end.
Proof.
  cbv zeta. rewrite (drive_preamble sid 5). cbv zeta.
  generalize (default 0 (resp_first_u32_opt realm)). intros rt.
  rewrite (drive_recv 4 _ (opening sid rt)) by reflexivity.
  pose proof (poll_opened sid rt opened) as Hp.
  destruct (Z.eqb_spec rt 0) as [E|_]; [erewrite drive_send by exact Hp; rewrite E; reflexivity|].
  destruct (zlen opened <? 12); [cbn [drive]; by rewrite Hp|].
  destruct (resp_extract_challenge opened) as [c|]; [|cbn [drive]; by rewrite Hp].
  cbv zeta in Hp. rewrite hmac_md5_correct in Hp.
  erewrite drive_send by exact Hp. erewrite drive_recv by reflexivity.
  by erewrite drive_send by reflexivity.
Qed.

(** ** What the walker reads *)

(** A field in the walker's framing: type, pad, a 2-byte size, the body. *)
Definition resp_field (t pad : byte) (body : bytes) : bytes := [t; pad] ++ to_be 2 (zlen body) ++ body.
Definition resp_bytes (fs : list (byte * byte * bytes)) : bytes :=
  concat ((fun '(t, pad, body) => resp_field t pad body) <$> fs).

Lemma resp_field_zlen t pad body : zlen (resp_field t pad body) = 4 + zlen body.
Proof. unfold resp_field. len. Qed.

Lemma resp_fields_step n pre t pad body rest :
  is_u 16 (zlen body) ->
  resp_fields_from (S n) (pre ++ resp_field t pad body ++ rest) (zlen pre)
  = (zlen body, body)
    :: resp_fields_from n (pre ++ resp_field t pad body ++ rest) (zlen (pre ++ resp_field t pad body)).
Proof.
  intros Hb. pose proof (zlen_nonneg rest). pose proof (zlen_nonneg body). pose proof (zlen_nonneg pre).
  set (data := pre ++ resp_field t pad body ++ rest).
  assert (Hl : zlen data = zlen pre + (4 + zlen body) + zlen rest)
    by (unfold data; rewrite !zlen_app, resp_field_zlen; lia).
  assert (Hs : resp_u16_be data (zlen pre + 2) = zlen body).
  { unfold resp_u16_be, data, resp_field. rewrite <- !app_assoc, (app_assoc pre).
    rewrite slice_mid by len. by apply (of_be_to_be 2). }
  assert (Hbody : slice data (zlen pre + 4) (zlen pre + 4 + zlen body) = body).
  { unfold data, resp_field. rewrite <- !app_assoc, (app_assoc pre), (app_assoc (pre ++ _)).
    by rewrite slice_mid by len. }
  cbn [resp_fields_from]. rewrite Hs, Hbody, Hl.
  rewrite (proj2 (Z.leb_le _ _)), (proj2 (Z.leb_le _ _)) by lia.
  by rewrite zlen_app, resp_field_zlen, Z.add_assoc.
Qed.

Lemma resp_fields_end n data : resp_fields_from n data (zlen data) = [].
Proof. destruct n; [done|]. cbn [resp_fields_from]. rewrite (proj2 (Z.leb_gt _ _)) by lia. done. Qed.

Lemma resp_fields_layout n pre fs :
  Forall (fun f => is_u 16 (zlen f.2)) fs -> (length fs <= n)%nat ->
  resp_fields_from n (pre ++ resp_bytes fs) (zlen pre) = (fun f => (zlen f.2, f.2)) <$> fs.
Proof.
  revert n pre. induction fs as [|[[t pad] body] fs IH]; intros n pre Hok Hn.
  - unfold resp_bytes. cbn [fmap list_fmap concat]. rewrite app_nil_r. apply resp_fields_end.
  - apply Forall_cons in Hok as [Hb Hok]. destruct n as [|n]; [simpl in Hn; lia|].
    change (resp_bytes ((t, pad, body) :: fs)) with (resp_field t pad body ++ resp_bytes fs).
    rewrite resp_fields_step by done. rewrite app_assoc, IH by (done || simpl in Hn; lia). done.
Qed.

Lemma resp_bytes_length fs : (length fs <= length (resp_bytes fs))%nat.
Proof.
  induction fs as [|[[t pad] body] fs IH]; [done|].
  change (resp_bytes ((t, pad, body) :: fs)) with (resp_field t pad body ++ resp_bytes fs).
  rewrite length_app. unfold resp_field. simpl. lia.
Qed.

(** The response walker reads back every field of a reply in its own framing,
    in order, with their sizes: in particular the challenge is the first field
    longer than four bytes, and the realm id and its companion the first two fields
    of exactly four. *)
Theorem resp_fields_read_back a b fs :
  Forall (fun f : byte * byte * bytes => is_u 16 (zlen f.2)) fs ->
  resp_fields ([a; b] ++ resp_bytes fs) = (fun f => (zlen f.2, f.2)) <$> fs
  /\ resp_extract_challenge ([a; b] ++ resp_bytes fs) = (fun f => f.2) <$> find (fun f => 4 <? zlen f.2) fs.
Proof.
  intros Hok.
  assert (H : resp_fields ([a; b] ++ resp_bytes fs) = (fun f => (zlen f.2, f.2)) <$> fs).
  { unfold resp_fields. change 2 with (zlen [a; b]). apply resp_fields_layout; [done|].
    rewrite length_app. pose proof (resp_bytes_length fs). lia. }
  split; [done|]. unfold resp_extract_challenge. rewrite H. clear. induction fs as [|f fs IH]; [done|].
  cbn [fmap list_fmap find fst snd]. destruct (4 <? zlen f.2); [done|exact IH].
Qed.
Lemma resp_fields_read_back_witness :
  resp_extract_challenge ([x00; x00] ++ resp_bytes [(x02, x00, [x00; x00; x00; x07]); (x0b, x00, [x01; x02; x03; x04; x05])])
  = Some [x01; x02; x03; x04; x05].
Proof.
  apply (resp_fields_read_back x00 x00 [(x02, x00, [x00; x00; x00; x07]); (x0b, x00, [x01; x02; x03; x04; x05])]).
  repeat constructor; vm_compute; congruence.
Defined.

(** A reply in the crate's canonical framing (a 5-byte field header, as the one
    realm reply ever captured has) is not read by the walker: whatever realm type
    below 256 it carries, no field is found, so the handshake takes it for "no
    authentication required". The captured value, 0, is the correct answer; a
    tracker that demands authentication in this framing would be subscribed to
    without it. *)
Theorem canonical_realm_reply_unread a b rt :
  0 <= rt < 256 ->
  resp_fields ([a; b] ++ tlv_u32 rt) = [(0, []); (0, [])]
  /\ default 0 (resp_first_u32_opt ([a; b] ++ tlv_u32 rt)) = 0.
Proof.
  intros Hrt.
  assert (E : tlv_u32 rt = [x02; x00; x00; x00; x04; x00; x00; x00; byte.of_Z rt]).
  { unfold tlv_u32, field. rewrite zlen_to_be. change (to_be 4 (Z.of_nat 4)) with [x00; x00; x00; x04].
    unfold to_be. simpl. rewrite !Z.shiftr_div_pow2, !Z.div_div by lia. change (2 ^ 8) with 256.
    rewrite !(Z.div_small rt) by lia. done. }
  rewrite E. split; reflexivity.
Qed.
Lemma canonical_realm_reply_unread_witness :
  default 0 (resp_first_u32_opt ([x00; x00] ++ tlv_u32 1)) = 0.
Proof. apply (canonical_realm_reply_unread x00 x00 1). lia. Defined.
