(* ===== verification/Gaze.v ===== *)
(** * Gaze: decoding gaze notifications (crates/tobii-protocol/src/gaze.rs)

    A payload is a 2-byte prefix, a row header with a column count, and columns: a
    column id and a value of the kind the id calls for. [decode] fills a
    [GazeSample] and a mask of the fields it filled; [column_inventory] lists what
    is there. The two are separate loops in the source. They are proved to agree:
    the decoder is a fold over the inventory ([decode_is_inventory]); what the
    inventory yields is proved against the [Field] interface of [Tlv]. *)
From S2P Require Import Prelude F64 Protocol Tlv.

Module present.
Definition TIMESTAMP : Z := Z.shiftl 1 0.
Definition FRAME_COUNTER : Z := Z.shiftl 1 1.
Definition VALIDITY_L : Z := Z.shiftl 1 2.
Definition VALIDITY_R : Z := Z.shiftl 1 3.
Definition PUPIL_L : Z := Z.shiftl 1 4.
Definition PUPIL_R : Z := Z.shiftl 1 5.
Definition GAZE_2D : Z := Z.shiftl 1 6.
Definition GAZE_2D_L : Z := Z.shiftl 1 7.
Definition GAZE_2D_R : Z := Z.shiftl 1 8.
Definition EYE_ORIGIN_L : Z := Z.shiftl 1 9.
Definition EYE_ORIGIN_R : Z := Z.shiftl 1 10.
Definition GAZE_2D_UNFILTERED : Z := Z.shiftl 1 11.
Definition EYE_ORIGIN_RAW_L : Z := Z.shiftl 1 12.
Definition EYE_ORIGIN_RAW_R : Z := Z.shiftl 1 13.
Definition GAZE_3D_L : Z := Z.shiftl 1 14.
Definition GAZE_3D_R : Z := Z.shiftl 1 15.
Definition TRACKBOX_L : Z := Z.shiftl 1 16.
Definition TRACKBOX_R : Z := Z.shiftl 1 17.
End present.

Record GazeSample := {
  present_mask : Z;
  frame_counter : Z;
  validity_l : Z;
  validity_r : Z;
  timestamp_us : Z;
  pupil_l_mm : f64;
  pupil_r_mm : f64;
  gaze_point_2d : vec2;
  gaze_point_2d_unfiltered : vec2;
  gaze_point_2d_l : vec2;
  gaze_point_2d_r : vec2;
  eye_origin_l_mm : vec3;
  eye_origin_r_mm : vec3;
  eye_origin_raw_l_mm : vec3;
  eye_origin_raw_r_mm : vec3;
  gaze_point_3d_l_mm : vec3;
  gaze_point_3d_r_mm : vec3;
  trackbox_eye_l : vec3;
  trackbox_eye_r : vec3;
}.

Definition zero2 : vec2 := (f64_zero, f64_zero).
Definition zero3 : vec3 := (f64_zero, f64_zero, f64_zero).
(** [GazeSample::default()] *)
Definition sample0 : GazeSample := {|
  present_mask := 0; frame_counter := 0; validity_l := 0; validity_r := 0; timestamp_us := 0;
  pupil_l_mm := f64_zero; pupil_r_mm := f64_zero; gaze_point_2d := zero2;
  gaze_point_2d_unfiltered := zero2; gaze_point_2d_l := zero2; gaze_point_2d_r := zero2;
  eye_origin_l_mm := zero3; eye_origin_r_mm := zero3; eye_origin_raw_l_mm := zero3;
  eye_origin_raw_r_mm := zero3; gaze_point_3d_l_mm := zero3; gaze_point_3d_r_mm := zero3;
  trackbox_eye_l := zero3; trackbox_eye_r := zero3 |}.

Definition has (s : GazeSample) (flag : Z) : bool := negb (Z.land (present_mask s) flag =? 0).

Inductive Kind := S64 | U32 | Fixed16x16 | Point2d | Point3d.

Definition column_kind (col : Z) : option Kind :=
  match col with
  | 0x01 => Some S64
  | 0x02 | 0x03 | 0x04 | 0x08 | 0x09 | 0x0a | 0x17 | 0x18 | 0x22 | 0x24 | 0x25 | 0x27 => Some Point3d
  | 0x05 | 0x0b | 0x1c | 0x20 | 0x19 | 0x1a => Some Point2d
  | 0x06 | 0x0c | 0x29 | 0x2b => Some Fixed16x16
  | 0x07 | 0x0d | 0x0e | 0x11 | 0x14 | 0x15 | 0x16 | 0x1b | 0x1d | 0x1e | 0x1f | 0x21
  | 0x23 | 0x26 | 0x28 | 0x2a | 0x2c => Some U32
  | _ => None
  end.

(** ** The decoder *)

(** Setting a flag of the mask. *)
Definition mark (flag : Z) (s : GazeSample) : GazeSample :=
  {s with present_mask := Z.lor (present_mask s) flag}.

(** [match r.read_..() { Ok(v) => ..., Err(_) => return Some(s) }]: [None] is the
    early return, which keeps the sample as it is. *)
Definition got {A} (o : result ProtocolError A * Reader) (put : A -> GazeSample)
    : option (GazeSample * Reader) :=
  match o with (Ok v, r) => Some (put v, r) | (Err _, _) => None end.

(** [set3], [set2]: the destination is given by its update. *)
Definition set3 (r : Reader) (put : vec3 -> GazeSample) (flag : Z) : option (GazeSample * Reader) :=
  got (read_point3d r) (fun v => mark flag (put v)).
Definition set2 (r : Reader) (put : vec2 -> GazeSample) (flag : Z) : option (GazeSample * Reader) :=
  got (read_point2d r) (fun v => mark flag (put v)).

Definition skip_column (r : Reader) (kind : Kind) : bool * Reader :=
  match kind with
  | S64 => let '(o, r) := read_s64 r in (is_ok o, r)
  | U32 => let '(o, r) := read_u32 r in (is_ok o, r)
  | Fixed16x16 => let '(o, r) := read_fixed16x16 r in (is_ok o, r)
  | Point2d => let '(o, r) := read_point2d r in (is_ok o, r)
  | Point3d => let '(o, r) := read_point3d r in (is_ok o, r)
  end.

(** The loop body's [match col]. *)
Definition decode_column (col : Z) (r : Reader) (s : GazeSample) : option (GazeSample * Reader) :=
  match col with
  | 0x01 => got (read_s64 r) (fun v => mark present.TIMESTAMP {s with timestamp_us := v})
  | 0x02 => set3 r (fun v => {s with eye_origin_l_mm := v}) present.EYE_ORIGIN_L
  | 0x08 => set3 r (fun v => {s with eye_origin_r_mm := v}) present.EYE_ORIGIN_R
  | 0x03 => set3 r (fun v => {s with trackbox_eye_l := v}) present.TRACKBOX_L
  | 0x09 => set3 r (fun v => {s with trackbox_eye_r := v}) present.TRACKBOX_R
  | 0x04 => set3 r (fun v => {s with gaze_point_3d_l_mm := v}) present.GAZE_3D_L
  | 0x0a => set3 r (fun v => {s with gaze_point_3d_r_mm := v}) present.GAZE_3D_R
  | 0x17 => set3 r (fun v => {s with eye_origin_raw_l_mm := v}) present.EYE_ORIGIN_RAW_L
  | 0x18 => set3 r (fun v => {s with eye_origin_raw_r_mm := v}) present.EYE_ORIGIN_RAW_R
  | 0x05 => set2 r (fun v => {s with gaze_point_2d_l := v}) present.GAZE_2D_L
  | 0x0b => set2 r (fun v => {s with gaze_point_2d_r := v}) present.GAZE_2D_R
  | 0x1c => set2 r (fun v => {s with gaze_point_2d := v}) present.GAZE_2D
  | 0x20 => set2 r (fun v => {s with gaze_point_2d_unfiltered := v}) present.GAZE_2D_UNFILTERED
  | 0x06 => got (read_fixed16x16 r) (fun v => mark present.PUPIL_L {s with pupil_l_mm := v})
  | 0x0c => got (read_fixed16x16 r) (fun v => mark present.PUPIL_R {s with pupil_r_mm := v})
  | 0x07 => got (read_u32 r) (fun v => mark present.VALIDITY_L {s with validity_l := v})
  | 0x0d => got (read_u32 r) (fun v => mark present.VALIDITY_R {s with validity_r := v})
  | 0x14 => got (read_u32 r) (fun v => mark present.FRAME_COUNTER {s with frame_counter := v})
  | other => match column_kind other with
             | Some kind => match skip_column r kind with (true, r) => Some (s, r) | (false, _) => None end
             | None => None
             end
  end.

(** [while i < n_cols && r.remaining() > 0]; [n] is [n_cols - i]. *)
Fixpoint decode_columns (n : nat) (r : Reader) (s : GazeSample) : GazeSample :=
  match n with
  | O => s
  | S n =>
      if 0 <? remaining r then
        match read_xds_column r with
        | (Ok col, r) => match decode_column col r s with
                         | Some (s, r) => decode_columns n r s
                         | None => s
                         end
        | (Err _, _) => s
        end
      else s
  end.

Definition decode (payload : bytes) : option GazeSample :=
  if zlen payload <? 2 then None
  else match read_xds_row (skip 2 (new_reader payload)) with
       | (Ok n_cols, r) => Some (decode_columns (Z.to_nat n_cols) r sample0)
       | (Err _, _) => None
       end.

(** ** The inventory *)
Inductive ColumnValue :=
| CvS64 (v : Z)
| CvU32 (v : Z)
| CvFixed (v : f64)
| CvPoint2d (v : vec2)
| CvPoint3d (v : vec3).

Definition read_value (kind : Kind) : RM ColumnValue :=
  match kind with
  | S64 => CvS64 <$> read_s64
  | U32 => CvU32 <$> read_u32
  | Fixed16x16 => CvFixed <$> read_fixed16x16
  | Point2d => CvPoint2d <$> read_point2d
  | Point3d => CvPoint3d <$> read_point3d
  end.

Fixpoint inventory_columns (n : nat) (r : Reader) : list (Z * ColumnValue) :=
  match n with
  | O => []
  | S n =>
      if 0 <? remaining r then
        match read_xds_column r with
        | (Ok col, r) =>
            match column_kind col with
            | Some kind => match read_value kind r with
                           | (Ok v, r) => (col, v) :: inventory_columns n r
                           | (Err _, _) => []
                           end
            | None => []
            end
        | (Err _, _) => []
        end
      else []
  end.

Definition column_inventory (payload : bytes) : list (Z * ColumnValue) :=
  if zlen payload <? 2 then []
  else match read_xds_row (skip 2 (new_reader payload)) with
       | (Ok n_cols, r) => inventory_columns (Z.to_nat n_cols) r
       | (Err _, _) => []
       end.

(** ** The decoder is a fold over the inventory *)

(** The fields the sample keeps: which column fills which, and its flag. *)
Definition column_flag (col : Z) : option Z :=
  match col with
  | 0x01 => Some present.TIMESTAMP
  | 0x02 => Some present.EYE_ORIGIN_L
  | 0x03 => Some present.TRACKBOX_L
  | 0x04 => Some present.GAZE_3D_L
  | 0x05 => Some present.GAZE_2D_L
  | 0x06 => Some present.PUPIL_L
  | 0x07 => Some present.VALIDITY_L
  | 0x08 => Some present.EYE_ORIGIN_R
  | 0x09 => Some present.TRACKBOX_R
  | 0x0a => Some present.GAZE_3D_R
  | 0x0b => Some present.GAZE_2D_R
  | 0x0c => Some present.PUPIL_R
  | 0x0d => Some present.VALIDITY_R
  | 0x14 => Some present.FRAME_COUNTER
  | 0x17 => Some present.EYE_ORIGIN_RAW_L
  | 0x18 => Some present.EYE_ORIGIN_RAW_R
  | 0x1c => Some present.GAZE_2D
  | 0x20 => Some present.GAZE_2D_UNFILTERED
  | _ => None
  end.

Definition put_value (col : Z) (v : ColumnValue) (s : GazeSample) : GazeSample :=
  match col, v with
  | 0x01, CvS64 v => {s with timestamp_us := v}
  | 0x02, CvPoint3d v => {s with eye_origin_l_mm := v}
  | 0x03, CvPoint3d v => {s with trackbox_eye_l := v}
  | 0x04, CvPoint3d v => {s with gaze_point_3d_l_mm := v}
  | 0x05, CvPoint2d v => {s with gaze_point_2d_l := v}
  | 0x06, CvFixed v => {s with pupil_l_mm := v}
  | 0x07, CvU32 v => {s with validity_l := v}
  | 0x08, CvPoint3d v => {s with eye_origin_r_mm := v}
  | 0x09, CvPoint3d v => {s with trackbox_eye_r := v}
  | 0x0a, CvPoint3d v => {s with gaze_point_3d_r_mm := v}
  | 0x0b, CvPoint2d v => {s with gaze_point_2d_r := v}
  | 0x0c, CvFixed v => {s with pupil_r_mm := v}
  | 0x0d, CvU32 v => {s with validity_r := v}
  | 0x14, CvU32 v => {s with frame_counter := v}
  | 0x17, CvPoint3d v => {s with eye_origin_raw_l_mm := v}
  | 0x18, CvPoint3d v => {s with eye_origin_raw_r_mm := v}
  | 0x1c, CvPoint2d v => {s with gaze_point_2d := v}
  | 0x20, CvPoint2d v => {s with gaze_point_2d_unfiltered := v}
  | _, _ => s
  end.

Definition put_column (s : GazeSample) (cv : Z * ColumnValue) : GazeSample :=
  let '(col, v) := cv in
  match column_flag col with Some flag => mark flag (put_value col v s) | None => s end.

(** One column, whichever it is: both decoders read the same value or stop. *)
Lemma decode_column_value col r s :
  decode_column col r s
  = match column_kind col with
    | Some kind => match read_value kind r with
                   | (Ok v, r') => Some (put_column s (col, v), r')
                   | (Err _, _) => None
                   end
    | None => None
    end.
Proof.
  destruct col as [|p|p]; try reflexivity.
  do 6 (try destruct p as [p|p|]; try reflexivity); cbn [decode_column column_kind];
    unfold set2, set3, got, skip_column, read_value, fmap, M_fmap;
    match goal with |- context [?rd r] => destruct (rd r) as [[v|e] r'] end; reflexivity.
Qed.

Lemma decode_columns_fold n r s : decode_columns n r s = foldl put_column s (inventory_columns n r).
Proof.
  revert r s. induction n as [|n IH]; intros r s; cbn [decode_columns inventory_columns]; [done|].
  destruct (0 <? remaining r); [|done]. destruct (read_xds_column r) as [[col|] r1]; [|done].
  rewrite decode_column_value. destruct (column_kind col) as [k|]; [|done].
  destruct (read_value k r1) as [[v|] r2]; [|done]. apply IH.
Qed.

(** The decoder and the diagnostic inventory never disagree. For every payload
    the decoder returns a sample exactly when the row header is readable, and that
    sample is the default one with the columns of the inventory written into it in
    order: a truncated, malformed or unknown column ends both at the same place. *)
Theorem decode_is_inventory payload :
  decode payload
  = (fun _ => foldl put_column sample0 (column_inventory payload))
    <$> (if zlen payload <? 2 then None else ok (fst (read_xds_row (skip 2 (new_reader payload))))).
Proof.
  unfold decode, column_inventory. destruct (zlen payload <? 2); [done|].
  destruct (read_xds_row _) as [[n|] r]; [|done]. cbn. by rewrite decode_columns_fold.
Qed.

(** ** Present bits *)
Lemma mark_mask flag s : present_mask (mark flag s) = Z.lor (present_mask s) flag.
Proof. reflexivity. Qed.
Lemma put_value_mask col v s : present_mask (put_value col v s) = present_mask s.
Proof.
  destruct col as [|p|p]; try reflexivity.
  do 6 (try destruct p as [p|p|]; try reflexivity); by destruct v.
Qed.

(** Flags are single bits, a different one for each column. *)
Lemma column_flag_bit col flag : column_flag col = Some flag ->
  exists i, 0 <= i < 18 /\ flag = 2 ^ i.
Proof.
  destruct col as [|p|p]; try discriminate.
  do 6 (try destruct p as [p|p|]; try discriminate); intros [= <-];
    match goal with |- context [?f = 2 ^ _] => exists (Z.log2 f) end; vm_compute; repeat split; congruence.
Qed.
(** The column behind each flag. *)
Definition flag_column (flag : Z) : Z :=
  default 0 (find (fun col => match column_flag col with Some f => f =? flag | None => false end)
                  (seqZ 0 64)).
Lemma flag_column_of col flag : column_flag col = Some flag -> flag_column flag = col.
Proof.
  destruct col as [|p|p]; try discriminate.
  do 6 (try destruct p as [p|p|]; try discriminate); intros [= <-]; reflexivity.
Qed.
Lemma column_flag_inj c1 c2 flag :
  column_flag c1 = Some flag -> column_flag c2 = Some flag -> c1 = c2.
Proof. intros H1%flag_column_of H2%flag_column_of. congruence. Qed.

Lemma has_testbit s i : 0 <= i -> has s (2 ^ i) = Z.testbit (present_mask s) i.
Proof.
  intros Hi. unfold has. destruct (Z.testbit (present_mask s) i) eqn:E.
  - apply negb_true_iff, Z.eqb_neq. intros H0.
    assert (Ht : Z.testbit (Z.land (present_mask s) (2 ^ i)) i = true)
      by (rewrite Z.land_spec, E, Z.pow2_bits_true; done).
    by rewrite H0, Z.bits_0 in Ht.
  - apply negb_false_iff, Z.eqb_eq, Z.bits_inj'. intros j Hj. rewrite Z.land_spec, Z.bits_0.
    destruct (Z.eq_dec i j) as [<-|Hne]; [by rewrite E|].
    rewrite Z.pow2_bits_false by lia. apply andb_false_r.
Qed.

Lemma put_column_has s col v flag c : column_flag c = Some flag ->
  has (put_column s (col, v)) flag = has s flag || (col =? c).
Proof.
  intros Hc. destruct (column_flag_bit _ _ Hc) as (i & Hi & Ef). subst flag.
  rewrite !has_testbit by lia. unfold put_column.
  destruct (column_flag col) as [f|] eqn:E.
  - rewrite mark_mask, put_value_mask, Z.lor_spec. f_equal.
    destruct (column_flag_bit _ _ E) as (j & Hj & ->). destruct (Z.eqb_spec col c) as [->|Hne].
    + rewrite Hc in E. injection E as E. apply Z.pow_inj_r in E; [subst|lia..].
      by rewrite Z.pow2_bits_true by lia.
    + apply Z.pow2_bits_false. intros ->. apply Hne. by eapply column_flag_inj.
  - destruct (Z.eqb_spec col c) as [->|]; [congruence|]. by rewrite orb_false_r.
Qed.

Lemma fold_has cvs s flag c : column_flag c = Some flag ->
  has (foldl put_column s cvs) flag = has s flag || existsb (fun cv => fst cv =? c) cvs.
Proof.
  intros Hc. revert s. induction cvs as [|[col v] cvs IH]; intros s; cbn [foldl existsb fst].
  - by rewrite orb_false_r.
  - by rewrite IH, (put_column_has _ _ _ _ _ Hc), orb_assoc.
Qed.

(** A [present] bit is set exactly when the field was decoded. For every payload
    the decoder accepts and every column a field stands for, [has] answers whether
    that column was read, completely, from this payload: a flag is never set for a
    column that was truncated, skipped or absent, and never missing for one that
    was read. *)
Theorem present_iff_decoded payload s col flag :
  decode payload = Some s -> column_flag col = Some flag ->
  has s flag = true <-> exists v, In (col, v) (column_inventory payload).
Proof.
  rewrite decode_is_inventory. intros Hd Hc.
  destruct (if zlen payload <? 2 then None else _) as [n|]; simplify_eq/=.
  rewrite (fold_has _ _ _ _ Hc).
  destruct (column_flag_bit _ _ Hc) as (i & Hi & Ef).
  replace (has sample0 flag) with false
    by (subst flag; rewrite has_testbit by lia; by rewrite Z.bits_0).
  cbn [orb]. rewrite existsb_exists. split.
  - intros ([c v] & Hin & E%Z.eqb_eq). simpl in E. subst c. eauto.
  - intros [v Hin]. exists (col, v). split; [done|apply Z.eqb_refl].
Qed.

(** ** Reading rows *)

(** The field of a kind. *)
Definition kind_field (k : Kind) : Field :=
  match k with
  | S64 => F_s64 | U32 => F_u32 | Fixed16x16 => F_fix16 | Point2d => F_point2d | Point3d => F_point3d
  end.
Definition wrap_value (k : Kind) : fval (kind_field k) -> ColumnValue :=
  match k with
  | S64 => CvS64 | U32 => CvU32 | Fixed16x16 => CvFixed | Point2d => CvPoint2d | Point3d => CvPoint3d
  end.
Lemma read_value_field k r : read_value k r = (wrap_value k <$> frd (kind_field k)) r.
Proof. by destruct k. Qed.

(** A column as the device lays it out: an id and a wire value of its kind. *)
Record WireColumn := { wc_id : Z; wc_kind : Kind; wc_value : fwire (kind_field wc_kind) }.
Definition column_ok (c : WireColumn) : Prop :=
  column_kind (wc_id c) = Some (wc_kind c) /\ fgood (kind_field (wc_kind c)) (wc_value c).
Definition column_bytes (c : WireColumn) : bytes :=
  tlv_column (wc_id c) ++ fenc (kind_field (wc_kind c)) (wc_value c).
Definition column_value (c : WireColumn) : Z * ColumnValue :=
  (wc_id c, wrap_value (wc_kind c) (fdec (kind_field (wc_kind c)) (wc_value c))).
Definition row_bytes (cs : list WireColumn) : bytes := concat (column_bytes <$> cs).

Lemma column_kind_u32 col k : column_kind col = Some k -> is_u 32 col.
Proof.
  destruct col as [|p|p]; try discriminate.
  do 6 (try destruct p as [p|p|]; try discriminate); intros _; u32_const.
Qed.

Lemma consumes_value c : column_ok c ->
  consumes (read_value (wc_kind c)) (fenc (kind_field (wc_kind c)) (wc_value c)) (wrap_value _ (fdec _ (wc_value c))).
Proof.
  intros [Hk Hg]. eapply consumes_ext; [|apply read_value_field|reflexivity].
  by apply consumes_fmap, frd_enc.
Qed.

Lemma column_bytes_pos c : 0 < zlen (column_bytes c).
Proof.
  unfold column_bytes, tlv_column, tlv_tag. rewrite !zlen_app, zlen_field.
  pose proof (zlen_nonneg (tlv_u32 (wc_id c))).
  pose proof (zlen_nonneg (fenc (kind_field (wc_kind c)) (wc_value c))). len.
Qed.

Lemma inventory_step n pre c post : column_ok c ->
  inventory_columns (S n) (at_ pre (column_bytes c ++ post))
  = column_value c :: inventory_columns n (at_ (pre ++ column_bytes c) post).
Proof.
  intros Hc. pose proof (column_bytes_pos c). pose proof (zlen_nonneg post). destruct Hc as [Hk Hg].
  cbn [inventory_columns]. rewrite remaining_at, (proj2 (Z.ltb_lt _ _)) by len.
  unfold column_bytes. rewrite <- app_assoc.
  rewrite (proj1 (consumes_column _ (column_kind_u32 _ _ Hk))), Hk.
  rewrite (proj1 (consumes_value c (conj Hk Hg))), <- app_assoc. done.
Qed.

(** A column cut short anywhere ends the row. *)
Lemma inventory_cut n pre c k : column_ok c -> (k < length (column_bytes c))%nat ->
  inventory_columns n (at_ pre (take k (column_bytes c))) = [].
Proof.
  intros [Hkind Hg] Hk. destruct n as [|n]; [done|]. cbn [inventory_columns].
  destruct (0 <? _); [|done]. unfold column_bytes in *. rewrite length_app in Hk.
  destruct (consumes_column _ (column_kind_u32 _ _ Hkind)) as [H1 H2].
  destruct (le_lt_dec (length (tlv_column (wc_id c))) k) as [Hle|Hlt].
  - rewrite take_app_ge, H1, Hkind by done.
    pose proof (proj2 (consumes_value c (conj Hkind Hg)) (pre ++ tlv_column (wc_id c)) (k - length (tlv_column (wc_id c)))%nat ltac:(lia)) as H3.
    destruct (read_value _ _) as [[|] ?]; simpl in H3; congruence.
  - rewrite take_app_le by lia. specialize (H2 pre k Hlt).
    destruct (read_xds_column _) as [[|] ?]; simpl in H2; congruence.
Qed.

Lemma inventory_row n pre cs rest :
  Forall column_ok cs -> (length cs <= n)%nat ->
  (forall m pre', inventory_columns m (at_ pre' rest) = []) \/ n = length cs ->
  inventory_columns n (at_ pre (row_bytes cs ++ rest)) = column_value <$> cs.
Proof.
  revert n pre. induction cs as [|c cs IH]; intros n pre Hok Hn Hend.
  - cbn [length] in *. destruct Hend as [Hend| ->]; [apply Hend|done].
  - apply Forall_cons in Hok as [Hc Hok]. cbn [length] in *. destruct n as [|n]; [lia|].
    change (row_bytes (c :: cs)) with (column_bytes c ++ row_bytes cs). rewrite <- app_assoc.
    rewrite inventory_step by done. cbn [fmap list_fmap]. f_equal. apply IH; [done|lia|].
    destruct Hend as [|]; [by left|right; lia].
Qed.

(** A gaze row is read back. For any row of columns with known ids laid out in
    their own kinds, the inventory lists exactly those columns with the decoded
    values, and the sample is the default with the modelled ones written in. A row
    that announces more columns than are there, or breaks off inside a column, at
    whatever byte, yields exactly the columns before the break. *)
Theorem gaze_row_reads_back a b n cs rest :
  Forall column_ok cs -> is_u 16 n -> zlen cs <= n ->
  (n = zlen cs \/ exists c k, column_ok c /\ (k < length (column_bytes c))%nat /\ rest = take k (column_bytes c)) ->
  let payload := [a; b] ++ tlv_row n ++ row_bytes cs ++ rest in
  column_inventory payload = column_value <$> cs
  /\ decode payload = Some (foldl put_column sample0 (column_value <$> cs)).
Proof.
  intros Hok Hn Hl Hend payload.
  assert (Hrow : read_xds_row (skip 2 (new_reader payload)) = (Ok n, at_ ([a; b] ++ tlv_row n) (row_bytes cs ++ rest))).
  { unfold payload. cbn [app]. rewrite skip_prefix. apply consumes_row, Hn. }
  assert (H2 : (zlen payload <? 2) = false).
  { apply Z.ltb_ge. unfold payload. rewrite zlen_app. pose proof (zlen_nonneg (tlv_row n ++ row_bytes cs ++ rest)).
    change (zlen [a; b]) with 2. lia. }
  assert (Hinv : column_inventory payload = column_value <$> cs).
  { unfold column_inventory. rewrite H2, Hrow. unfold zlen in *. apply inventory_row; [done|lia|].
    destruct Hend as [->|(c & k & Hc & Hk & ->)]; [right; lia|left; intros; by apply inventory_cut]. }
  split; [done|]. rewrite decode_is_inventory, H2, Hrow, Hinv. done.
Qed.
(** A row of three columns, the last cut after 20 bytes. *)
Definition col_time : WireColumn := {| wc_id := 0x01; wc_kind := S64; wc_value := 123456 |}.
Definition col_gaze : WireColumn := {| wc_id := 0x1c; wc_kind := Point2d; wc_value := (2 ^ 41, 2 ^ 40) |}.
Definition col_valid : WireColumn := {| wc_id := 0x07; wc_kind := U32; wc_value := 0 |}.
Definition sample_row : bytes :=
  [x00; x00] ++ tlv_row 3 ++ row_bytes [col_time; col_gaze] ++ take 20 (column_bytes col_valid).
Lemma gaze_row_reads_back_witness :
  column_inventory sample_row = [column_value col_time; column_value col_gaze].
Proof.
  refine (proj1 (gaze_row_reads_back x00 x00 3 [col_time; col_gaze] (take 20 (column_bytes col_valid)) _ _ _ _)).
  - repeat constructor; vm_compute; congruence.
  - u32_const.
  - vm_compute. congruence.
  - right. exists col_valid, 20%nat. split; [|split; [vm_compute; lia|reflexivity]].
    repeat constructor; vm_compute; congruence.
Defined.
Lemma present_iff_decoded_witness :
  (exists s, decode sample_row = Some s /\ has s present.GAZE_2D = true /\ has s present.VALIDITY_L = false)
  /\ exists v, In (0x1c, v) (column_inventory sample_row).
Proof.
  assert (E : exists s, decode sample_row = Some s /\ has s present.GAZE_2D = true /\ has s present.VALIDITY_L = false)
    by (eexists; vm_compute; repeat split; reflexivity).
  split; [exact E|]. destruct E as (s & Hs & Hg & _).
  exact (proj1 (present_iff_decoded sample_row s 0x1c present.GAZE_2D Hs eq_refl) Hg).
Defined.
