(* ===== verification/Camera.v ===== *)
(** * Camera: eye-camera frames (crates/tobii-protocol/src/camera.rs)

    A camera notification is a walk over TLV elements that keeps the timestamp, the
    numeric values and the pixel blob, followed by a search for the pair of values
    whose product is the number of pixels. The search is the linear one of the
    source, with its index of last positions; it is proved equal to the nested
    search it replaced ([find_dims_is_last_pair]). *)
From stdpp Require Import gmap.
From S2P Require Import Prelude Tlv.

Record CameraFrame := {
  timestamp_us : Z;
  width : Z;
  height : Z;
  bit_depth : Z;
  pixels : bytes;
}.

Definition BLOB_PREFIX : Z := 4.
Definition TYPE_U32 : byte := x02.
Definition TYPE_S64 : byte := x06.
Definition TYPE_BLOB : byte := x15.
Definition TYPE_MARKER : byte := x05.
Definition TAG_COLUMN : Z := 0x0bb9.
Definition TAG_ROW : Z := 0x0bb8.

(** [buf.get(a..b)] *)
Definition get_range (b : bytes) (lo hi : Z) : option bytes :=
  if (lo <=? hi) && (hi <=? zlen b) then Some (slice b lo hi) else None.

Definition next_tlv (b : bytes) (at_ : Z) : option (byte * bytes * Z) :=
  t ← b !! Z.to_nat at_;
  len_bytes ← get_range b (at_ + 1) (at_ + 5);
  let len := of_be len_bytes in
  let start := at_ + 5 in
  value ← get_range b start (start + len);
  Some (t, value, start + len).

(** ** The size search *)
Definition u32_max : Z := 2 ^ 32 - 1.

Definition last_idx (vals : list Z) : gmap Z nat :=
  foldl (fun m iv => <[iv.2 := iv.1]> m) ∅ (imap pair vals).

Definition is_multiple_of (n d : Z) : bool := if d =? 0 then n =? 0 else n mod d =? 0.

(** [for (a, &w) in vals.iter().enumerate().rev()] *)
Fixpoint scan_dims (last : gmap Z nat) (pixel_count : Z) (l : list (nat * Z)) : option (Z * Z) :=
  match l with
  | [] => None
  | (a, w) :: l =>
      if (w <? 8) || (pixel_count =? 0) || negb (is_multiple_of pixel_count w)
      then scan_dims last pixel_count l
      else
        let h := pixel_count / w in
        if (h <? 8) || (u32_max <? h) then scan_dims last pixel_count l
        else if match last !! wrap 32 h with Some b => (a <? b)%nat | None => false end
             then Some (w, wrap 32 h)
             else scan_dims last pixel_count l
  end.

Definition find_dims (vals : list Z) (pixel_count : Z) : option (Z * Z) :=
  scan_dims (last_idx vals) pixel_count (rev (imap pair vals)).

(** ** The walk *)
Record Walk := {
  w_i : Z;
  w_timestamp : Z;
  w_values : list Z;
  w_blob : option bytes;
  w_awaiting_id : bool;
}.

Definition walk0 : Walk :=
  {| w_i := 2; w_timestamp := 0; w_values := []; w_blob := None; w_awaiting_id := false |}.

(** The loop body on one element. *)
Definition walk_element (t : byte) (v : bytes) (st : Walk) : Walk :=
  if Byte.eqb t TYPE_MARKER && (zlen v =? 4) then
    let tag := Z.land (of_be v) 0xffff in
    if (tag =? TAG_COLUMN) || (tag =? TAG_ROW) then {st with w_awaiting_id := true} else st
  else if w_awaiting_id st && Byte.eqb t TYPE_U32 && (zlen v =? 4) then
    {st with w_awaiting_id := false}
  else if Byte.eqb t TYPE_S64 && (zlen v =? 8) then {st with w_timestamp := sgn 64 (of_be v)}
  else if Byte.eqb t TYPE_U32 && (zlen v =? 4) then {st with w_values := w_values st ++ [of_be v] }
  else if Byte.eqb t TYPE_BLOB && (BLOB_PREFIX <? zlen v) then {st with w_blob := Some v}
  else st.

(** [while let Some(..) = next_tlv(payload, i)]: each element is at least 5 bytes,
    so [length payload] turns are enough ([walk_enough]). *)
Fixpoint walk (fuel : nat) (payload : bytes) (st : Walk) : Walk :=
  match fuel with
  | O => st
  | S fuel => match next_tlv payload (w_i st) with
              | Some (t, v, next) => walk fuel payload (walk_element t v {st with w_i := next})
              | None => st
              end
  end.

Definition decode_camera_frame (payload : bytes) : option CameraFrame :=
  let st := walk (length payload) payload walk0 in
  blob ← w_blob st;
  let pixels := from blob BLOB_PREFIX in
  dims ← find_dims (w_values st) (zlen pixels);
  let '(width, height) := dims in
  let bit_depth := default 8 (find (fun n => negb (n =? width) && negb (n =? height) && (n <=? 32)) (w_values st)) in
  Some {| timestamp_us := w_timestamp st; width := width; height := height; bit_depth := bit_depth;
          pixels := pixels |}.

(** ** The walk ends *)
Lemma get_range_some b lo hi v : get_range b lo hi = Some v -> lo <= hi <= zlen b /\ v = slice b lo hi.
Proof.
  unfold get_range. destruct (Z.leb_spec lo hi), (Z.leb_spec hi (zlen b)); simpl; intros; simplify_eq.
  split; [lia|done].
Qed.

Lemma next_tlv_some b i t v n : 0 <= i -> next_tlv b i = Some (t, v, n) ->
  i + 5 <= n <= zlen b /\ v = slice b (i + 5) n.
Proof.
  intros Hi. unfold next_tlv. destruct (b !! Z.to_nat i); [|done]. simpl.
  destruct (get_range b (i + 1) (i + 5)) as [l|] eqn:E; [|done]. simpl.
  destruct (get_range b (i + 5) _) as [v'|] eqn:E2; [|done]. simpl. intros; simplify_eq.
  apply get_range_some in E2 as [H ->]. split; [lia|done].
Qed.

Lemma walk_element_i t v st : w_i (walk_element t v st) = w_i st.
Proof. unfold walk_element. repeat (case_match; try reflexivity). Qed.

(** The camera decoder's walk over the elements terminates: [length payload]
    turns reach the end from the start of the payload, so more fuel changes nothing
    and the state returned is the one at which the source's loop stops. *)
Theorem walk_enough payload :
  let st := walk (length payload) payload walk0 in
  next_tlv payload (w_i st) = None
  /\ forall n, (length payload <= n)%nat -> walk n payload walk0 = st.
Proof.
  assert (H : forall n m st, 0 <= w_i st -> zlen payload - w_i st <= 5 * Z.of_nat n -> (n <= m)%nat ->
            next_tlv payload (w_i (walk n payload st)) = None /\ walk m payload st = walk n payload st).
  { induction n as [|n IH]; intros m st Hi Hn Hm.
    - assert (E : next_tlv payload (w_i st) = None).
      { destruct (next_tlv payload (w_i st)) as [[[t v] k]|] eqn:E; [|done].
        apply next_tlv_some in E; lia. }
      split; [done|]. destruct m as [|m]; [done|]. cbn [walk]. by rewrite E.
    - destruct m as [|m]; [lia|]. cbn [walk].
      destruct (next_tlv payload (w_i st)) as [[[t v] k]|] eqn:E; [|done].
      apply next_tlv_some in E; [|lia]. apply IH; rewrite ?walk_element_i; simpl; lia. }
  cbv zeta. destruct (H (length payload) (length payload) walk0) as [H1 _]; [done|unfold zlen; simpl; lia|lia|].
  split; [done|]. intros n Hn. eapply H; [done|unfold zlen; simpl; lia|done].
Qed.

(** ** The size search is the nested one *)

(** Every pair of a value and a later one, in the order two nested loops visit. *)
Fixpoint later_pairs (vals : list Z) : list (Z * Z) :=
  match vals with
  | [] => []
  | w :: vals => (pair w <$> vals) ++ later_pairs vals
  end.
Definition fits (n : Z) (wh : Z * Z) : bool := (8 <=? wh.1) && (8 <=? wh.2) && (wh.1 * wh.2 =? n).
Definition last_fit (vals : list Z) (n : Z) : option (Z * Z) := last (List.filter (fits n) (later_pairs vals)).

Lemma last_idx_snoc vals v : last_idx (vals ++ [v]) = <[v := length vals]> (last_idx vals).
Proof. unfold last_idx. rewrite imap_app, foldl_app. simpl. by rewrite Nat.add_0_r. Qed.

Lemma last_idx_bound vals v b : last_idx vals !! v = Some b -> (b < length vals)%nat.
Proof.
  induction vals as [|x vals IH] using rev_ind; [done|].
  rewrite last_idx_snoc, length_app. simpl. destruct (decide (x = v)) as [->|Hne].
  - rewrite lookup_insert_eq. intros. simplify_eq. lia.
  - rewrite lookup_insert_ne by done. intros H%IH. lia.
Qed.

(** "The last position of [h] is past that of this [w]" says [h] occurs later. *)
Lemma last_idx_later pre w suf h :
  match last_idx (pre ++ w :: suf) !! h with Some b => (length pre <? b)%nat | None => false end
  = bool_decide (h ∈ suf).
Proof.
  induction suf as [|x suf IH] using rev_ind.
  - rewrite last_idx_snoc. destruct (decide (w = h)) as [->|Hne].
    + rewrite lookup_insert_eq, Nat.ltb_irrefl. symmetry. apply bool_decide_eq_false. apply not_elem_of_nil.
    + rewrite lookup_insert_ne by done. symmetry.
      transitivity false; [apply bool_decide_eq_false, not_elem_of_nil|].
      destruct (last_idx pre !! h) as [b|] eqn:E; [|done]. apply last_idx_bound in E.
      symmetry. apply Nat.ltb_ge. lia.
  - rewrite app_comm_cons, app_assoc, last_idx_snoc. destruct (decide (x = h)) as [->|Hne].
    + rewrite lookup_insert_eq. rewrite length_app. simpl.
      transitivity true; [apply Nat.ltb_lt; lia|]. symmetry. apply bool_decide_eq_true. rewrite elem_of_app, elem_of_cons. auto.
    + rewrite lookup_insert_ne by done. rewrite IH. apply bool_decide_ext. rewrite elem_of_app, list_elem_of_singleton. intuition congruence.
Qed.

Lemma scan_app last n l1 l2 :
  scan_dims last n (l1 ++ l2)
  = match scan_dims last n l1 with Some wh => Some wh | None => scan_dims last n l2 end.
Proof.
  induction l1 as [|[a w] l1 IH]; [done|]. cbn [app scan_dims]. rewrite IH.
  destruct ((w <? 8) || _ || _); [done|]. destruct ((_ <? 8) || _); [done|]. 
  destruct (last !! wrap 32 (n / w)) as [b|]; [by destruct (a <? b)%nat|done].
Qed.

(** Among pairs with a common width at most one height fits. *)
Lemma last_common_width n w suf :
  last (List.filter (fits n) (pair w <$> suf))
  = if (8 <=? w) && (8 <=? n / w) && (n mod w =? 0) && bool_decide (n / w ∈ suf)
    then Some (w, n / w) else None.
Proof.
  induction suf as [|h suf IH] using rev_ind.
  - rewrite (bool_decide_eq_false_2 (_ ∈ [])) by apply not_elem_of_nil. by rewrite andb_false_r.
  - rewrite fmap_app, List.filter_app. cbn [fmap list_fmap List.filter].
    destruct (fits n (w, h)) eqn:E.
    + rewrite last_snoc. unfold fits in E. simpl in E.
      apply andb_true_iff in E as [[Hw%Z.leb_le Hh%Z.leb_le]%andb_true_iff Hn%Z.eqb_eq].
      assert (Eh : n / w = h) by (subst n; rewrite Z.mul_comm; apply Z.div_mul; lia).
      assert (Em : n mod w = 0) by (subst n; rewrite Z.mul_comm; apply Z.mod_mul; lia).
      rewrite Eh, Em, !(proj2 (Z.leb_le _ _)) by done.
      rewrite bool_decide_eq_true_2 by (rewrite elem_of_app, elem_of_cons; auto). done.
    + rewrite app_nil_r, IH. destruct ((8 <=? w) && _ && _) eqn:Ec; [|done]. cbn [andb].
      apply andb_true_iff in Ec as [[Hw%Z.leb_le Hh%Z.leb_le]%andb_true_iff Hm%Z.eqb_eq].
      assert (Hne : n / w <> h).
      { intros <-. unfold fits in E. simpl in E. rewrite !(proj2 (Z.leb_le _ _)) in E by done. simpl in E.
        apply Z.eqb_neq in E. pose proof (Z.div_mod n w ltac:(lia)). lia. }
      rewrite (bool_decide_ext (n / w ∈ suf) (n / w ∈ suf ++ [h])); [done|].
      rewrite elem_of_app, list_elem_of_singleton. intuition congruence.
Qed.

(** One turn of the scan, at the width [w]. *)
Lemma scan_one pre w suf n :
  0 <= n <= u32_max -> is_u 32 w ->
  scan_dims (last_idx (pre ++ w :: suf)) n [(length pre, w)]
  = last (List.filter (fits n) (pair w <$> suf)).
Proof.
  intros Hn Hw. rewrite last_common_width. cbn [scan_dims]. unfold is_multiple_of.
  destruct (Z.ltb_spec w 8), (Z.leb_spec 8 w); try lia; cbn [orb andb]; [done|].
  rewrite (proj2 (Z.eqb_neq w 0)) by lia.
  destruct (Z.eqb_spec n 0) as [->|Hn0]; cbn [orb]; [by rewrite Z.div_0_l by lia|].
  destruct (n mod w =? 0); cbn [negb]; [|by rewrite andb_false_r].
  assert (n / w <= n) by (apply Z.div_le_upper_bound; nia).
  assert (0 <= n / w) by (apply Z.div_pos; lia).
  rewrite (proj2 (Z.ltb_ge u32_max _)) by lia. rewrite orb_false_r.
  destruct (Z.ltb_spec (n / w) 8), (Z.leb_spec 8 (n / w)); try lia; [done|]. cbn [andb].
  rewrite wrap_id by (unfold is_u, u32_max in *; lia). by rewrite last_idx_later.
Qed.

(** The linear size search returns what the quadratic one did. For 32-bit values
    and a pixel count that fits 32 bits, it finds the last pair, in the order of two
    nested loops over the values, of a width and a later height that are both at
    least 8 and multiply to the pixel count, and nothing when there is none. *)
Theorem find_dims_is_last_pair vals n :
  Forall (is_u 32) vals -> 0 <= n <= u32_max -> find_dims vals n = last_fit vals n.
Proof.
  intros Hv Hn. unfold find_dims, last_fit.
  assert (H : forall pre suf, vals = pre ++ suf ->
            scan_dims (last_idx vals) n (rev (imap (fun i => pair (length pre + i)%nat) suf))
            = last (List.filter (fits n) (later_pairs suf))).
  { intros pre suf. revert pre. induction suf as [|w suf IH]; intros pre E; [done|].
    rewrite imap_cons. cbn [rev later_pairs]. rewrite scan_app, Nat.add_0_r, List.filter_app, last_app.
    rewrite (imap_ext _ (fun i => pair (length (pre ++ [w]) + i)%nat))
      by (intros; unfold compose; rewrite length_app; simpl; f_equal; lia).
    rewrite IH by (by rewrite <- app_assoc).
    destruct (last _) as [wh|]; [done|]. subst vals.
    apply scan_one; [done|]. apply Forall_app in Hv as [_ Hv]. by apply Forall_cons in Hv as [Hv _]. }
  rewrite <- (H [] vals eq_refl). f_equal.
Qed.
Lemma find_dims_is_last_pair_witness :
  find_dims [1; 8; 280; 280; 78400] 78400 = last_fit [1; 8; 280; 280; 78400] 78400.
Proof. apply find_dims_is_last_pair; [repeat constructor; vm_compute; congruence|vm_compute; split; congruence]. Defined.

(** ** What an accepted frame is *)

(** A frame the decoder returns is consistent. Its width times its height is
    exactly its number of pixels, both are at least 8, and its pixels are a
    contiguous part of the payload, four bytes into a blob element; so an image
    drawn from it never reads past the data. *)
Theorem camera_frame_consistent payload f :
  decode_camera_frame payload = Some f ->
  width f * height f = zlen (pixels f) /\ 8 <= width f /\ 8 <= height f
  /\ exists pre post, payload = pre ++ pixels f ++ post.
Proof.
  unfold decode_camera_frame. intros H.
  assert (Hb : forall n st, (forall b, w_blob st = Some b -> exists pre post, payload = pre ++ b ++ post) ->
            0 <= w_i st -> forall b, w_blob (walk n payload st) = Some b ->
            exists pre post, payload = pre ++ b ++ post).
  { induction n as [|n IH]; intros st Hst Hi; [done|]. cbn [walk].
    destruct (next_tlv payload (w_i st)) as [[[t v] k]|] eqn:E; [|done].
    apply next_tlv_some in E as [Hk Ev]; [|done].
    apply IH; [|rewrite walk_element_i; simpl; lia].
    unfold walk_element. intros b Hb. repeat case_match; simpl in Hb; auto.
    injection Hb as <-. exists (take (Z.to_nat (w_i st + 5)) payload), (drop (Z.to_nat k) payload). subst v.
    unfold slice. rewrite <- (take_drop (Z.to_nat (w_i st + 5)) payload) at 1. f_equal.
    rewrite <- (take_drop (Z.to_nat (k - (w_i st + 5))) (drop _ payload)) at 1. f_equal.
    rewrite drop_drop. f_equal. lia. }
  destruct (w_blob _) as [blob|] eqn:Eb; [|done]. simpl in H.
  apply Hb in Eb; [|done|done]. destruct Eb as (pre & post & Ep).
  destruct (find_dims _ _) as [[w h]|] eqn:Ed; [|done]. simpl in H. injection H as <-. cbn [width height pixels].
  assert (Hd : forall last l n, scan_dims last n l = Some (w, h) -> 0 <= n -> w * h = n /\ 8 <= w /\ 8 <= h).
  { intros last l n. clear. induction l as [|[a x] l IH]; [done|]. cbn [scan_dims]. unfold is_multiple_of.
    destruct (Z.ltb_spec x 8) as [|Hx]; [apply IH|]. cbn [orb].
    destruct (Z.eqb_spec n 0) as [|Hn]; [apply IH|]. rewrite (proj2 (Z.eqb_neq x 0)) by lia.
    destruct (Z.eqb_spec (n mod x) 0) as [Hm|]; [|apply IH]. cbn [orb negb].
    destruct (Z.ltb_spec (n / x) 8) as [|Hh]; [apply IH|].
    destruct (Z.ltb_spec u32_max (n / x)) as [|Hu]; [apply IH|]. cbn [orb].
    case_match; [|apply IH]. intros [= <- <-] Hn0. rewrite wrap_id by (unfold is_u, u32_max in *; lia).
    pose proof (Z.div_mod n x ltac:(lia)). lia. }
  apply Hd in Ed; [|apply zlen_nonneg]. split_and!; try apply Ed.
  exists (pre ++ take 4 blob), post. rewrite Ep, <- app_assoc. f_equal.
  unfold from, BLOB_PREFIX. rewrite app_assoc. change (Z.to_nat 4) with 4%nat. by rewrite take_drop.
Qed.

(** ** Reading a frame back *)
Definition element : Type := byte * bytes.
Definition element_bytes (els : list element) : bytes := concat ((fun e => field e.1 e.2) <$> els).
Definition digest (st : Walk) (els : list element) : Walk :=
  foldl (fun st e => walk_element e.1 e.2 st) st els.

Lemma next_tlv_field pre t body post : zlen body < 2 ^ 32 ->
  next_tlv (pre ++ field t body ++ post) (zlen pre) = Some (t, body, zlen (pre ++ field t body)).
Proof.
  intros Hb. pose proof (zlen_nonneg body). pose proof (zlen_nonneg pre). pose proof (zlen_nonneg post).
  assert (Hl : zlen (pre ++ field t body ++ post) = zlen pre + 5 + zlen body + zlen post) by len.
  unfold next_tlv.
  assert (Ht : (pre ++ field t body ++ post) !! Z.to_nat (zlen pre) = Some t).
  { unfold zlen. rewrite Nat2Z.id, lookup_app_r, Nat.sub_diag by lia. done. }
  rewrite Ht. cbn [mbind option_bind]. unfold get_range. rewrite Hl.
  rewrite !(proj2 (Z.leb_le _ _)) by lia. cbn [andb mbind option_bind].
  assert (Hs : slice (pre ++ field t body ++ post) (zlen pre + 1) (zlen pre + 5) = to_be 4 (zlen body)).
  { unfold field. rewrite <- !app_assoc, (app_assoc pre). apply slice_mid; len. }
  assert (Hv : slice (pre ++ field t body ++ post) (zlen pre + 5) (zlen pre + 5 + zlen body) = body).
  { unfold field. rewrite <- !app_assoc, (app_assoc pre), (app_assoc (pre ++ _)). apply slice_mid; len. }
  rewrite Hs, (of_be4_inv (zlen body)) by (unfold is_u; lia).
  rewrite !(proj2 (Z.leb_le _ _)) by lia. cbn [andb mbind option_bind]. rewrite Hv.
  do 2 f_equal. len.
Qed.

Lemma walk_element_at t v st k : walk_element t v {st with w_i := k} = {walk_element t v st with w_i := k}.
Proof. destruct st. unfold walk_element. simpl. repeat (case_match; try reflexivity). Qed.

Lemma walk_layout n pre els st :
  Forall (fun e => zlen e.2 < 2 ^ 32) els -> (length els <= n)%nat ->
  walk n (pre ++ element_bytes els) {st with w_i := zlen pre}
  = {digest st els with w_i := zlen (pre ++ element_bytes els)}.
Proof.
  revert n pre st. induction els as [|[t v] els IH]; intros n pre st Hok Hn.
  - change (element_bytes []) with (@nil byte). rewrite app_nil_r. destruct n; [done|]. cbn [walk].
    assert (E : next_tlv pre (zlen pre) = None); [|simpl w_i; by rewrite E].
    unfold next_tlv, zlen. rewrite Nat2Z.id, lookup_ge_None_2 by lia. done.
  - apply Forall_cons in Hok as [Hv Hok]. destruct n as [|n]; [simpl in Hn; lia|]. cbn [walk].
    change (element_bytes ((t, v) :: els)) with (field t v ++ element_bytes els).
    simpl w_i. rewrite next_tlv_field by done. rewrite walk_element_at, app_assoc.
    change (apply_update (mk_update w_i (constant (zlen (pre ++ field t v))))
              (walk_element t v (apply_update (mk_update w_i (constant (zlen pre))) st)))
      with {walk_element t v {st with w_i := zlen pre} with w_i := zlen (pre ++ field t v)}.
    rewrite walk_element_at. apply (IH n (pre ++ field t v) (walk_element t v st)); [done|simpl in Hn; lia].
Qed.

(** The columns of a frame: a marker, an id, a value. *)
Definition camera_columns (cols : list (Z * element)) : list element :=
  concat ((fun c => [(TYPE_MARKER, to_be 4 TAG_XDS_COLUMN); (TYPE_U32, to_be 4 c.1); c.2]) <$> cols).
Definition camera_elements (ts w h : Z) (prefix px : bytes) : list element :=
  (TYPE_MARKER, to_be 4 (mk_tag 5 TAG_XDS_ROW_MASK))
  :: camera_columns [(1, (TYPE_S64, to_be 8 (wrap 64 ts))); (2, (TYPE_U32, to_be 4 8));
                     (3, (TYPE_U32, to_be 4 w)); (4, (TYPE_U32, to_be 4 h)); (5, (TYPE_BLOB, prefix ++ px))].

(** What each kind of element does to the walk. *)
Lemma element_marker v st :
  is_u 32 v -> Z.land v 0xffff = TAG_COLUMN \/ Z.land v 0xffff = TAG_ROW ->
  walk_element TYPE_MARKER (to_be 4 v) st = {st with w_awaiting_id := true}.
Proof.
  intros Hv Ht. unfold walk_element. rewrite zlen_to_be, of_be4_inv by done.
  by destruct Ht as [->| ->].
Qed.
Lemma element_id v st : w_awaiting_id st = true ->
  walk_element TYPE_U32 (to_be 4 v) st = {st with w_awaiting_id := false}.
Proof. intros Ha. unfold walk_element. rewrite zlen_to_be, Ha. reflexivity. Qed.
Lemma element_u32 v st : w_awaiting_id st = false -> is_u 32 v ->
  walk_element TYPE_U32 (to_be 4 v) st = {st with w_values := w_values st ++ [v] }.
Proof. intros Ha Hv. unfold walk_element. by rewrite zlen_to_be, Ha, of_be4_inv by done. Qed.
Lemma element_s64 v st : is_i 64 v ->
  walk_element TYPE_S64 (to_be 8 (wrap 64 v)) st = {st with w_timestamp := v}.
Proof.
  intros Hv. unfold walk_element. rewrite zlen_to_be, (of_be_to_be 8) by (apply wrap_range; lia).
  rewrite sgn_wrap by done. change (Byte.eqb TYPE_S64 TYPE_MARKER) with false.
  change (Byte.eqb TYPE_S64 TYPE_U32) with false. by destruct (w_awaiting_id st).
Qed.
Lemma element_blob v st : BLOB_PREFIX < zlen v ->
  walk_element TYPE_BLOB v st = {st with w_blob := Some v}.
Proof.
  intros Hv. unfold walk_element. rewrite (proj2 (Z.ltb_lt _ _) Hv).
  change (Byte.eqb TYPE_BLOB TYPE_MARKER) with false.
  change (Byte.eqb TYPE_BLOB TYPE_U32) with false. by destruct (w_awaiting_id st).
Qed.

(** A column: its id is swallowed, its value seen. *)
Lemma digest_app st l1 l2 : digest st (l1 ++ l2) = digest (digest st l1) l2.
Proof. apply foldl_app. Qed.
Lemma digest_columns c cols st :
  digest st (camera_columns (c :: cols))
  = digest (walk_element c.2.1 c.2.2 {st with w_awaiting_id := false}) (camera_columns cols).
Proof.
  unfold camera_columns. cbn [fmap list_fmap concat]. rewrite digest_app.
  f_equal. (* both sides compute *)
Qed.

Lemma camera_digest ts w h prefix px :
  is_i 64 ts -> is_u 32 w -> is_u 32 h -> 4 < zlen (prefix ++ px) ->
  digest walk0 (camera_elements ts w h prefix px)
  = {| w_i := 2; w_timestamp := ts; w_values := [8; w; h]; w_blob := Some (prefix ++ px);
       w_awaiting_id := false |}.
Proof.
  intros Hts Hw Hh Hp. unfold camera_elements.
  change (digest walk0 (?e :: ?l)) with (digest (walk_element e.1 e.2 walk0) l).
  cbn [fst snd]. rewrite element_marker by (u32_const || by right).
  rewrite !digest_columns. cbn [fst snd].
  rewrite element_s64 by done.
  rewrite element_u32 by (done || u32_const). rewrite !element_u32 by done.
  rewrite element_blob by done. reflexivity.
Qed.

(** A camera frame laid out as documented is decoded to itself: for any
    timestamp, any width and height of at least 8, and as many pixels as they
    multiply to (behind any 4-byte prefix), the decoder returns exactly those,
    with the bit depth 8. *)
Theorem camera_frame_reads_back a b ts w h prefix px :
  is_i 64 ts -> is_u 32 w -> is_u 32 h -> 8 <= w -> 8 <= h -> zlen prefix = 4 ->
  w * h = zlen px -> zlen px + 4 < 2 ^ 32 ->
  decode_camera_frame ([a; b] ++ element_bytes (camera_elements ts w h prefix px))
  = Some {| timestamp_us := ts; width := w; height := h; bit_depth := 8; pixels := px |}.
Proof.
  intros Hts Hw Hh Hw8 Hh8 Hpre Hpx Hlen. unfold decode_camera_frame.
  assert (Hnz : 4 < zlen (prefix ++ px)) by (rewrite zlen_app; nia).
  assert (Hwalk : walk (length ([a; b] ++ element_bytes (camera_elements ts w h prefix px)))
                    ([a; b] ++ element_bytes (camera_elements ts w h prefix px)) walk0
            = {digest walk0 (camera_elements ts w h prefix px)
               with w_i := zlen ([a; b] ++ element_bytes (camera_elements ts w h prefix px))}).
  { apply (walk_layout _ [a; b] _ walk0).
    - unfold camera_elements, camera_columns. cbn [fmap list_fmap concat app snd].
      repeat constructor; cbn [snd]; rewrite ?zlen_to_be, ?zlen_app; lia.
    - unfold element_bytes. rewrite length_app.
      generalize (camera_elements ts w h prefix px). intros els.
      assert (forall e : element, (1 <= length (field e.1 e.2))%nat) by (intros; rewrite field_length; lia).
      induction els as [|e els IH]; [simpl; lia|]. cbn [fmap list_fmap concat length].
      rewrite length_app. specialize (H e). simpl in IH |- *. lia. }
  rewrite Hwalk, camera_digest by done. simpl w_blob. cbn [mbind option_bind].
  assert (Hf : from (prefix ++ px) BLOB_PREFIX = px) by (apply from_app; unfold BLOB_PREFIX; lia).
  rewrite Hf. simpl w_values. rewrite find_dims_is_last_pair;
    [|constructor; [u32_const|by do 2 (constructor; [done|])]|unfold u32_max; lia].
  assert (Hfit : last_fit [8; w; h] (zlen px) = Some (w, h)).
  { unfold last_fit. change (later_pairs [8; w; h]) with ([(8, w); (8, h)] ++ [(w, h)]).
    rewrite List.filter_app. cbn [List.filter]. 
    assert (Hfw : fits (zlen px) (w, h) = true).
    { unfold fits. simpl. rewrite !(proj2 (Z.leb_le _ _)), (proj2 (Z.eqb_eq _ _)) by lia. done. }
    rewrite Hfw. apply last_snoc. }
  rewrite Hfit. cbn [mbind option_bind]. do 2 f_equal.
  cbn [find]. rewrite !Z.eqb_refl. cbn [negb andb]. rewrite andb_false_r.
  by destruct (_ && _ && _).
Qed.
Definition tiny_image : bytes := replicate 96 x7f.
Lemma camera_frame_reads_back_witness :
  decode_camera_frame ([x00; x00] ++ element_bytes (camera_elements 33000 12 8 [x00; x01; x00; x00] tiny_image))
  = Some {| timestamp_us := 33000; width := 12; height := 8; bit_depth := 8; pixels := tiny_image |}.
Proof. apply camera_frame_reads_back; vm_compute; split_and?; congruence. Defined.
Lemma camera_frame_consistent_witness : exists f, 
  decode_camera_frame ([x00; x00] ++ element_bytes (camera_elements 33000 12 8 [x00; x01; x00; x00] tiny_image)) = Some f
  /\ width f * height f = zlen (pixels f).
Proof.
  eexists. split; [vm_compute; reflexivity|].
  refine (proj1 (camera_frame_consistent
    ([x00; x00] ++ element_bytes (camera_elements 33000 12 8 [x00; x01; x00; x00] tiny_image)) _ _)).
  vm_compute. reflexivity.
Defined.
