(* ===== verification/Transport.v ===== *)
(** * Transport: bulk transfers to and from the tracker (crates/tobii-usb/src/transport.rs)

    [UsbTransport] on top of libusb, which is a parameter: a [Handle] reads and
    writes bulk transfers. A long frame goes out in several transfers, and what
    arrives meanwhile is kept, one entry per transfer, for the next [recv].

    [Transport] is the interface the connection driver is written against (the
    source's trait), with the clock the driver reads. *)
From S2P Require Import Prelude.

(** ** Errors *)
Module UsbError.
Inductive UsbError (E : Type) :=
| DeviceNotFound
| PermissionDenied
| DeviceBusy
| Usb (e : E)
| ImplausibleCalibration (len : Z)
| ShortWrite (wrote expected : Z)
| Handshake
| NoResponse (op : Z).
Arguments DeviceNotFound {E}.
Arguments PermissionDenied {E}.
Arguments DeviceBusy {E}.
Arguments Usb {E} e.
Arguments ImplausibleCalibration {E} len.
Arguments ShortWrite {E} wrote expected.
Arguments Handshake {E}.
Arguments NoResponse {E} op.
End UsbError.

(** ** The interface *)

(** A byte transport and the clock beside it ([Instant::now()], in nanoseconds).
    [recv n timeout] reads at most [n] bytes. *)
Class Transport (T E : Type) := {
  send : bytes -> T -> result (UsbError.UsbError E) unit * T;
  recv : Z -> Z -> T -> option bytes * T;
  now : T -> Z * T;
}.

Definition from_millis (n : Z) : Z := n * 1000000.
Definition from_secs (n : Z) : Z := n * 1000000000.

(** ** Splitting a frame *)
Definition WRITE_TIMEOUT : Z := from_millis 2000.
Definition SOAK_CAP : Z := Z.shiftl 1 20.
Definition SOAK_SCRATCH : Z := 16384.
Definition CHUNK : Z := 8192.
Definition ENVELOPE : Z := 8.
Definition CONT_DATA : Z := CHUNK - ENVELOPE.

(** [l.chunks(n)], for [n > 0]; [fuel] the length. *)
Fixpoint chunks_from (fuel : nat) (n : Z) (l : bytes) : list bytes :=
  match fuel with
  | O => []
  | S fuel => match l with
              | [] => []
              | _ => slice l 0 n :: chunks_from fuel n (from l n)
              end
  end.
Definition chunks (n : Z) (l : bytes) : list bytes := chunks_from (length l) n l.

(** A continuation: an envelope in front of a part. *)
Definition cont_transfer (part : bytes) : bytes := to_le 4 0 ++ to_le 4 (zlen part) ++ part.

Definition chunk_frame (data : bytes) : list bytes :=
  if zlen data <=? CHUNK then [data]
  else
    let first := slice data 0 CHUNK in
    (* [first[4..8].copy_from_slice(..)] *)
    let first := slice first 0 4 ++ to_le 4 CONT_DATA ++ from first 8 in
    first :: (cont_transfer <$> chunks CONT_DATA (from data CHUNK)).

(** ** libusb *)
Class Handle (H E : Type) := {
  read_bulk : Z -> Z -> Z -> H -> result E bytes * H;   (* endpoint, buffer length, timeout *)
  write_bulk : Z -> bytes -> Z -> H -> result E Z * H;
  monotonic : H -> Z * H;
}.

Definition EP_OUT : Z := 0x05.
Definition EP_IN : Z := 0x83.

Section UsbTransport.
  Context {H E : Type} `{Handle H E}.

Record UsbTransport := {
  handle : H;
  pending : list bytes;
  pending_bytes : Z;
}.

Definition write_all (data : bytes) (t : UsbTransport) : result (UsbError.UsbError E) unit * UsbTransport :=
  let '(r, h) := write_bulk EP_OUT data WRITE_TIMEOUT (handle t) in
  let t := {t with handle := h} in
  match r with
  | Err e => (Err (UsbError.Usb e), t)
  | Ok wrote => if negb (wrote =? zlen data) then (Err (UsbError.ShortWrite wrote (zlen data)), t)
                else (Ok tt, t)
  end.

(** The loop of [soak_incoming]; every turn that goes on adds at least a byte. *)
Fixpoint soak_loop (fuel : nat) (t : UsbTransport) : UsbTransport :=
  match fuel with
  | O => t
  | S fuel =>
      match read_bulk EP_IN SOAK_SCRATCH (from_millis 1) (handle t) with
      | (Ok data, h) =>
          let t := {t with handle := h} in
          if zlen data =? 0 then t
          else
            let t := {t with pending := pending t ++ [data]; pending_bytes := pending_bytes t + zlen data} in
            if SOAK_CAP <=? pending_bytes t then t else soak_loop fuel t
      | (Err _, h) => {t with handle := h}
      end
  end.
Definition soak_incoming (t : UsbTransport) : UsbTransport :=
  if SOAK_CAP <=? pending_bytes t then t
  else soak_loop (Z.to_nat (SOAK_CAP - pending_bytes t)) t.

(** The loop of [send]; [first] is [i == 0]. *)
Fixpoint send_parts (first : bool) (parts : list bytes) (t : UsbTransport)
    : result (UsbError.UsbError E) unit * UsbTransport :=
  match parts with
  | [] => (Ok tt, t)
  | part :: parts =>
      let t := if first then t else soak_incoming t in
      match write_all part t with
      | (Ok _, t) => send_parts false parts t
      | (Err e, t) => (Err e, t)
      end
  end.
Definition usb_send (data : bytes) (t : UsbTransport) := send_parts true (chunk_frame data) t.

Definition usb_recv (buf_len timeout : Z) (t : UsbTransport) : option bytes * UsbTransport :=
  match pending t with
  | read :: rest =>
      let t := {t with pending := rest; pending_bytes := pending_bytes t - zlen read} in
      if buf_len <? zlen read then (None, t) else (Some read, t)
  | [] =>
      let '(r, h) := read_bulk EP_IN buf_len timeout (handle t) in
      let t := {t with handle := h} in
      match r with
      | Ok data => if 0 <? zlen data then (Some data, t) else (None, t)
      | Err _ => (None, t)
      end
  end.

#[export] Instance usb_transport : Transport UsbTransport E := {
  send := usb_send;
  recv := usb_recv;
  now := fun t => let '(v, h) := monotonic (handle t) in (v, {t with handle := h});
}.
End UsbTransport.
Arguments UsbTransport H : clear implicits.

(** ** Opening the device *)
Section open.
  Context {D H E : Type} (descriptor : D -> option (Z * Z)) (open_device : D -> result E H).
  Context (is_access is_busy is_no_device : E -> bool).

Definition VID : Z := 0x2104.
Definition PID : Z := 0x0313.

Definition classify_open_failure (e : E) : UsbError.UsbError E :=
  if is_access e then UsbError.PermissionDenied
  else if is_busy e then UsbError.DeviceBusy
  else if is_no_device e then UsbError.DeviceNotFound
  else UsbError.Usb e.

(** The loop over [rusb::devices()?]. *)
Fixpoint open_first (ds : list D) (open_failure : option E) : result (UsbError.UsbError E) H :=
  match ds with
  | [] => Err (from_option classify_open_failure UsbError.DeviceNotFound open_failure)
  | d :: ds =>
      match descriptor d with
      | None => open_first ds open_failure
      | Some (vendor_id, product_id) =>
          if negb (vendor_id =? VID) || negb (product_id =? PID) then open_first ds open_failure
          else match open_device d with
               | Ok h => Ok h
               | Err e => open_first ds (Some e)
               end
      end
  end.
Definition open_handle (devices : result E (list D)) : result (UsbError.UsbError E) H :=
  match devices with
  | Err e => Err (UsbError.Usb e)
  | Ok ds => open_first ds None
  end.

Definition is_tracker (d : D) : bool :=
  match descriptor d with Some (v, p) => (v =? VID) && (p =? PID) | None => false end.
End open.

(** ** A split frame carries the same bytes *)

Lemma chunks_from_spec fuel n (l : bytes) :
  0 < n -> (length l <= fuel)%nat ->
  concat (chunks_from fuel n l) = l /\ Forall (fun c => 0 < zlen c <= n) (chunks_from fuel n l).
Proof.
  intros Hn. revert l. induction fuel as [|fuel IH]; intros l Hl.
  - destruct l; [by split|simpl in Hl; lia].
  - destruct l as [|b l]; [by split|]. cbn [chunks_from].
    assert (Hd : (length (from (b :: l) n) <= fuel)%nat)
      by (unfold from; rewrite length_drop; simpl in *; lia).
    destruct (IH _ Hd) as [H1 H2]. cbn [concat]. rewrite H1. split.
    + unfold slice, from. rewrite Z.sub_0_r. apply take_drop.
    + constructor; [|done]. unfold zlen, slice. rewrite length_take, length_drop. simpl length. lia.
Qed.
Lemma chunks_spec n (l : bytes) :
  0 < n -> concat (chunks n l) = l /\ Forall (fun c => 0 < zlen c <= n) (chunks n l).
Proof. intros. by apply chunks_from_spec. Qed.

(** What a transfer declares and carries. *)
Definition declares_itself (part : bytes) : Prop := of_le (slice part 4 8) = zlen part - ENVELOPE.
Definition body (part : bytes) : bytes := from part ENVELOPE.

Lemma cont_transfer_spec c : zlen c <= CONT_DATA ->
  zlen (cont_transfer c) <= CHUNK /\ declares_itself (cont_transfer c) /\ body (cont_transfer c) = c.
Proof.
  intros Hc. unfold cont_transfer, declares_itself, body, CONT_DATA, CHUNK, ENVELOPE in *.
  pose proof (zlen_nonneg c). split_and!.
  - len.
  - rewrite slice_mid by (by len). rewrite of_le4_inv by (unfold is_u; lia). len.
  - rewrite app_assoc. apply from_app. by len.
Qed.

Lemma first_transfer_spec data : CHUNK < zlen data ->
  let first := slice (slice data 0 CHUNK) 0 4 ++ to_le 4 CONT_DATA ++ from (slice data 0 CHUNK) 8 in
  zlen first = CHUNK /\ declares_itself first /\ body first = slice data 8 CHUNK
  /\ slice first 0 4 = slice data 0 4.
Proof.
  intros Hd first. unfold first, declares_itself, body, CONT_DATA, CHUNK, ENVELOPE in *.
  assert (Hs : zlen (slice data 0 8192) = 8192) by (rewrite zlen_slice by lia; lia).
  assert (H4 : zlen (slice (slice data 0 8192) 0 4) = 4) by (rewrite zlen_slice by lia; lia).
  assert (H8 : zlen (from (slice data 0 8192) 8) = 8184) by (rewrite zlen_from by lia; lia).
  assert (Hl : zlen (slice (slice data 0 8192) 0 4 ++ to_le 4 (8192 - 8) ++ from (slice data 0 8192) 8) = 8192)
    by (len; lia).
  rewrite Hl. split_and!; [done|..].
  - rewrite slice_mid by (rewrite ?zlen_to_le; lia). by apply of_le4_inv.
  - rewrite app_assoc, from_app by (len; lia). unfold from, slice. rewrite skipn_firstn_comm.
    change (Z.to_nat 0) with 0%nat. rewrite drop_0. f_equal.
  - rewrite slice_app_exact by (by rewrite H4). unfold slice. change (Z.to_nat 0) with 0%nat.
    rewrite !drop_0, take_take. f_equal.
Qed.

(** C6: A frame reaches the device whole, in transfers it accepts. However long the
    frame (a calibration is hundreds of kilobytes), each transfer is at most 8192
    bytes and its envelope declares exactly the bytes it carries; only the first
    keeps the frame's own first word; and what the envelopes wrap, in order, is the
    frame behind its envelope, every byte once. *)
Theorem chunk_frame_carries data :
  ENVELOPE <= zlen data -> declares_itself data ->
  Forall (fun part => zlen part <= CHUNK /\ declares_itself part) (chunk_frame data)
  /\ concat (body <$> chunk_frame data) = body data
  /\ exists first rest, chunk_frame data = first :: rest /\ slice first 0 4 = slice data 0 4.
Proof.
  intros Hlen Hself. unfold chunk_frame. destruct (Z.leb_spec (zlen data) CHUNK) as [Hs|Hl].
  - split_and!; [by constructor; [|constructor]|apply app_nil_r|by eexists _, _].
  - destruct (first_transfer_spec data Hl) as (H1 & H2 & H3 & H4).
    destruct (chunks_spec CONT_DATA (from data CHUNK) ltac:(done)) as [Hc Hf].
    split_and!; [constructor; [split; [lia|done]|]|..].
    + apply Forall_fmap. eapply Forall_impl; [exact Hf|]. intros c [_ Hcl].
      destruct (cont_transfer_spec c Hcl) as (? & ? & _). done.
    + rewrite fmap_cons, concat_cons, H3.
      assert (Hb : concat (body <$> (cont_transfer <$> chunks CONT_DATA (from data CHUNK))) = from data CHUNK).
      { rewrite <- Hc at 2. f_equal. rewrite <- list_fmap_compose.
        rewrite <- (list_fmap_id (chunks CONT_DATA _)) at 2.
        apply list_fmap_ext. intros i c Hi. apply (Forall_lookup_1 _ _ _ _ Hf) in Hi.
        apply cont_transfer_spec, Hi. }
      rewrite Hb. unfold body, slice, from, ENVELOPE, CHUNK.
      replace (Z.to_nat 8192) with (Z.to_nat 8 + Z.to_nat (8192 - 8))%nat by lia.
      rewrite <- drop_drop. apply take_drop.
    + eexists _, _. split; [reflexivity|done].
Qed.
(** A frame of three transfers. *)
Definition long_frame : bytes := to_le 4 0 ++ to_le 4 20000 ++ replicate (Z.to_nat 20000) x5a.
Lemma chunk_frame_carries_witness :
  Forall (fun part => zlen part <= CHUNK /\ declares_itself part) (chunk_frame long_frame)
  /\ length (chunk_frame long_frame) = 3%nat.
Proof.
  split; [|vm_compute; reflexivity].
  apply (chunk_frame_carries long_frame); [vm_compute; discriminate|vm_compute; reflexivity].
Defined.

(** ** Nothing read is lost, merged or split *)

(** What libusb documents of a read: it fills at most the buffer it is given. *)
Class HandleLaws (H E : Type) `{Handle H E} := {
  read_len : forall ep n timeout h data h',
    read_bulk ep n timeout h = (Ok data, h') -> zlen data <= n;
}.

(** A handle that keeps a record of every transfer it read. *)
#[export] Instance recording_handle {H E} `{Handle H E} : Handle (H * list bytes) E := {
  read_bulk ep n timeout hl :=
    let '(r, h) := read_bulk ep n timeout hl.1 in
    (r, (h, match r with Ok data => if 0 <? zlen data then hl.2 ++ [data] else hl.2 | Err _ => hl.2 end));
  write_bulk ep data timeout hl := let '(r, h) := write_bulk ep data timeout hl.1 in (r, (h, hl.2));
  monotonic hl := let '(v, h) := monotonic hl.1 in (v, (h, hl.2));
}.

Section ordering.
  Context {H E : Type} `{HandleLaws H E}.
  Implicit Types t : UsbTransport (H * list bytes).

(** A client's calls. *)
Inductive call := CSend (data : bytes) | CRecv (buf_len timeout : Z).
(** Run calls, collecting what [recv] returns. *)
Fixpoint run_calls (cs : list call) t : list bytes * UsbTransport (H * list bytes) :=
  match cs with
  | [] => ([], t)
  | CSend data :: cs => run_calls cs (usb_send data t).2
  | CRecv n timeout :: cs =>
      let '(r, t) := usb_recv n timeout t in
      let '(got, t) := run_calls cs t in
      (match r with Some data => data :: got | None => got end, t)
  end.

Definition record t : list bytes := (handle t).2.
Definition total (l : list bytes) : Z := foldr (fun d n => zlen d + n) 0 l.

Lemma total_app l k : total (l ++ k) = total l + total k.
Proof. induction l as [|d l IH]; [done|]. cbn [app foldr total]. fold total. unfold total in *. simpl. lia. Qed.

(** The transport's invariant: soaked transfers fit the scratch buffer and are counted. *)
Definition soak_inv t : Prop :=
  Forall (fun d => 0 < zlen d <= SOAK_SCRATCH) (pending t) /\ pending_bytes t = total (pending t)
  /\ pending_bytes t < SOAK_CAP + SOAK_SCRATCH.

(** Reading moves transfers from the device to [pending] or to the caller; [d] is what
    the record grew by. *)
Definition soaks t t' : Prop :=
  exists d, record t' = record t ++ d /\ pending t' = pending t ++ d.

Lemma recorded_read ep n timeout (h : H) l :
  read_bulk ep n timeout (h, l)
  = let '(r, h') := read_bulk ep n timeout h in
    (r, (h', match r with Ok data => if 0 <? zlen data then l ++ [data] else l | Err _ => l end)).
Proof. done. Qed.
Lemma recorded_write ep data timeout (h : H) l :
  write_bulk ep data timeout (h, l) = let '(r, h') := write_bulk ep data timeout h in (r, (h', l)).
Proof. done. Qed.

(** A transport whose device state changed, and nothing else. *)
Lemma quiet_ok h h' l p b :
  soak_inv {| handle := (h, l); pending := p; pending_bytes := b |} ->
  soak_inv {| handle := (h', l); pending := p; pending_bytes := b |}
  /\ soaks {| handle := (h, l); pending := p; pending_bytes := b |}
           {| handle := (h', l); pending := p; pending_bytes := b |}.
Proof. intros Hi. split; [exact Hi|]. exists []. by rewrite !app_nil_r. Qed.

Lemma soak_one h h' l p b data :
  soak_inv {| handle := (h, l); pending := p; pending_bytes := b |} ->
  b < SOAK_CAP -> 0 < zlen data <= SOAK_SCRATCH ->
  let t' := {| handle := (h', l ++ [data]); pending := p ++ [data]; pending_bytes := b + zlen data |} in
  soak_inv t' /\ soaks {| handle := (h, l); pending := p; pending_bytes := b |} t'.
Proof.
  intros (Hp & Hb & Hcap) Hc Hd. simpl in *. split.
  - unfold soak_inv. simpl. split_and!; [|rewrite total_app; simpl; lia|lia].
    apply Forall_app. split; [done|]. constructor; [lia|constructor].
  - exists [data]. done.
Qed.

Lemma soaks_trans t1 t2 t3 : soaks t1 t2 -> soaks t2 t3 -> soaks t1 t3.
Proof.
  intros (d & H2 & H3) (e & H4 & H5). exists (d ++ e). rewrite H4, H5, H2, H3, <- !app_assoc. done.
Qed.

Lemma soak_loop_ok n t : soak_inv t -> pending_bytes t < SOAK_CAP -> soak_inv (soak_loop n t) /\ soaks t (soak_loop n t).
Proof.
  revert t. induction n as [|n IH]; intros [[h l] p b] Hi Hc; cbn [soak_loop handle]; [by apply quiet_ok|].
  rewrite recorded_read. destruct (read_bulk EP_IN _ _ h) as [[data|e] h'] eqn:Er; [|by apply quiet_ok].
  apply read_len in Er. pose proof (zlen_nonneg data). destruct (Z.eqb_spec (zlen data) 0) as [E0|E0].
  - rewrite E0. by apply quiet_ok.
  - rewrite (proj2 (Z.ltb_lt 0 _)) by lia.
    destruct (soak_one h h' l p b data Hi Hc ltac:(lia)) as [Hi1 Hs1]. simpl.
    destruct (Z.leb_spec SOAK_CAP (b + zlen data)); [done|].
    destruct (IH _ Hi1 ltac:(done)) as [Hi2 Hs2]. split; [done|]. by eapply soaks_trans.
Qed.

Lemma soak_ok t : soak_inv t -> soak_inv (soak_incoming t) /\ soaks t (soak_incoming t).
Proof.
  intros Hi. unfold soak_incoming. destruct (Z.leb_spec SOAK_CAP (pending_bytes t)).
  - split; [done|]. exists []. by rewrite !app_nil_r.
  - by apply soak_loop_ok.
Qed.

Lemma write_ok data t : soak_inv t -> soak_inv (write_all data t).2 /\ soaks t (write_all data t).2.
Proof.
  destruct t as [[h l] p b]. intros Hi. unfold write_all. cbn [handle]. rewrite recorded_write.
  destruct (write_bulk _ _ _ h) as [[wrote|e] h']; [destruct (negb _)|]; by apply quiet_ok.
Qed.

Lemma send_ok b parts t : soak_inv t -> soak_inv (send_parts b parts t).2 /\ soaks t (send_parts b parts t).2.
Proof.
  revert b t. induction parts as [|part parts IH]; intros b t Hi; cbn [send_parts].
  { split; [done|]. exists []. by rewrite !app_nil_r. }
  assert (Hs : soak_inv (if b then t else soak_incoming t) /\ soaks t (if b then t else soak_incoming t)).
  { destruct b; [|by apply soak_ok]. split; [done|]. exists []. by rewrite !app_nil_r. }
  destruct Hs as [Hi1 Hs1]. destruct (write_ok part _ Hi1) as [Hi2 Hs2].
  destruct (write_all part _) as [[[]|e] t2]; simpl in *.
  - destruct (IH false t2 Hi2) as [Hi3 Hs3]. split; [done|]. eauto using soaks_trans.
  - split; [done|]. eauto using soaks_trans.
Qed.

Lemma recv_ok n timeout t : soak_inv t -> SOAK_SCRATCH <= n ->
  let '(r, t') := usb_recv n timeout t in
  soak_inv t' /\ exists d, record t' = record t ++ d /\ pending t ++ d = from_option (fun x => [x]) [] r ++ pending t'.
Proof.
  destruct t as [[h l] p b]. intros Hi Hn. unfold usb_recv. cbn [pending handle]. destruct p as [|read rest].
  - rewrite recorded_read. destruct (read_bulk EP_IN _ _ h) as [[data|e] h'].
    + destruct (0 <? zlen data); (split; [exact Hi|]); [exists [data]|exists []]; unfold record; simpl;
        by rewrite ?app_nil_r.
    + split; [exact Hi|]. exists []. unfold record. simpl. by rewrite app_nil_r.
  - destruct Hi as (Hp & Hb & Hcap). simpl in *. apply Forall_cons in Hp as [Hr Hp].
    rewrite (proj2 (Z.ltb_ge n _)) by lia. split.
    + unfold soak_inv. simpl. split_and!; [done|lia|lia].
    + exists []. unfold record. simpl. by rewrite !app_nil_r.
Qed.

(** C10: The transport hands over the device's transfers one by one, in order. Through
    any sequence of sends (each soaking up what arrives between its transfers) and of
    receives into buffers at least as large as the scratch buffer, the transfers
    returned followed by those still pending are exactly the ones that were pending
    followed by the ones read from the device: none lost, reordered, merged or split,
    so every chunk the parser gets begins where a device transfer began. The buffer
    stays below the cap plus one transfer. *)
Theorem transfers_in_order cs t :
  soak_inv t ->
  Forall (fun c => match c with CRecv n _ => SOAK_SCRATCH <= n | CSend _ => True end) cs ->
  let '(got, t') := run_calls cs t in
  soak_inv t' /\ exists d, record t' = record t ++ d /\ got ++ pending t' = pending t ++ d.
Proof.
  revert t. induction cs as [|[data|n timeout] cs IH]; intros t Hi Hok; cbn [run_calls].
  - split; [done|]. exists []. by rewrite !app_nil_r.
  - apply Forall_cons in Hok as [_ Hok]. destruct (send_ok true (chunk_frame data) t Hi) as [Hi1 (d1 & Hr1 & Hp1)].
    fold (usb_send data t) in *. specialize (IH _ Hi1 Hok).
    destruct (run_calls cs _) as [got t']. destruct IH as [Hi2 (d2 & Hr2 & Hp2)].
    split; [done|]. exists (d1 ++ d2). rewrite Hr2, Hp2, Hr1, Hp1, <- !app_assoc. done.
  - apply Forall_cons in Hok as [Hn Hok]. pose proof (recv_ok n timeout t Hi Hn) as Hrecv.
    destruct (usb_recv n timeout t) as [r t1]. destruct Hrecv as [Hi1 (d1 & Hr1 & Hp1)].
    specialize (IH t1 Hi1 Hok). destruct (run_calls cs t1) as [got t']. destruct IH as [Hi2 (d2 & Hr2 & Hp2)].
    split; [done|]. exists (d1 ++ d2). split; [by rewrite Hr2, Hr1, <- app_assoc|].
    rewrite app_assoc, Hp1, <- app_assoc, <- Hp2. by destruct r.
Qed.
End ordering.

(** A device with four transfers queued, which accepts every write. *)
Record mock := { mock_in : list bytes; mock_clock : Z }.
#[export] Instance mock_handle : Handle mock unit := {
  read_bulk ep n timeout m :=
    match mock_in m with
    | d :: rest => if zlen d <=? n then (Ok d, {| mock_in := rest; mock_clock := mock_clock m + 1 |})
                   else (Err tt, {m with mock_clock := mock_clock m + 1})
    | [] => (Err tt, {m with mock_clock := mock_clock m + Z.max 1 timeout})
    end;
  write_bulk ep data timeout m := (Ok (zlen data), m);
  monotonic m := (mock_clock m, {m with mock_clock := mock_clock m + 1});
}.
#[export] Instance mock_laws : HandleLaws mock unit.
Proof.
  constructor. intros ep n timeout [[|d rest] c] data h'; unfold read_bulk, mock_handle; simpl; [done|].
  destruct (Z.leb_spec (zlen d) n); intros; by simplify_eq.
Defined.
Definition mock_start : UsbTransport (mock * list bytes) :=
  {| handle := ({| mock_in := [[x01]; [x02; x02]; [x03]; [x04]]; mock_clock := 0 |}, []);
     pending := []; pending_bytes := 0 |}.
Definition mock_calls : list call :=
  [CRecv 16384 100; CSend long_frame; CRecv 16384 100; CRecv 16384 100].
Lemma transfers_in_order_witness :
  (run_calls mock_calls mock_start).1 = [[x01]; [x02; x02]; [x03]]
  /\ soak_inv (run_calls mock_calls mock_start).2.
Proof.
  split; [vm_compute; reflexivity|].
  assert (Hi : soak_inv mock_start) by (repeat split; constructor).
  assert (Hc : Forall (fun c => match c with CRecv n _ => SOAK_SCRATCH <= n | CSend _ => True end) mock_calls)
    by (repeat constructor; vm_compute; discriminate).
  pose proof (transfers_in_order mock_calls mock_start Hi Hc) as Hall.
  destruct (run_calls mock_calls mock_start) as [got t']. exact (proj1 Hall).
Defined.

(** The soak loop ends: each turn that goes on buffers at least a byte, so the
    distance to the cap is fuel enough. *)
Lemma soak_enough {H E} `{Handle H E} n m (t : UsbTransport H) :
  SOAK_CAP - pending_bytes t <= Z.of_nat n -> (n <= m)%nat -> pending_bytes t < SOAK_CAP ->
  soak_loop m t = soak_loop n t.
Proof.
  revert m t. induction n as [|n IH]; intros m t Hn Hm Hc; [lia|].
  destruct m as [|m]; [lia|]. cbn [soak_loop].
  destruct (read_bulk EP_IN _ _ (handle t)) as [[data|e] h]; [|done].
  pose proof (zlen_nonneg data). destruct (Z.eqb_spec (zlen data) 0); [done|].
  destruct (Z.leb_spec SOAK_CAP (pending_bytes
    {{t with handle := h} with pending := pending {t with handle := h} ++ [data];
      pending_bytes := pending_bytes {t with handle := h} + zlen data})); [done|].
  apply IH; destruct t; cbn in *; lia.
Qed.

(** ** Opening *)

(** Opening the tracker reports the reason that matters. With the bus listed, the
    result is the first tracker on it that opens; if none opens it is the
    classified failure of the last tracker tried (no permission, held by another
    process, gone, or libusb's own error), and only a bus without a tracker is "not
    found" outright. Devices that are not trackers never matter. *)
Theorem open_handle_spec {D H E} (descriptor : D -> option (Z * Z)) (open_device : D -> result E H)
    (is_access is_busy is_no_device : E -> bool) (ds : list D) :
  let trackers := List.filter (is_tracker descriptor) ds in
  let opened := omap (fun d => ok (open_device d)) trackers in
  let failures := omap (fun d => match open_device d with Err e => Some e | Ok _ => None end) trackers in
  open_handle descriptor open_device is_access is_busy is_no_device (Ok ds)
  = match opened with
    | h :: _ => Ok h
    | [] => Err (from_option (classify_open_failure is_access is_busy is_no_device)
                   UsbError.DeviceNotFound (last failures))
    end.
Proof.
  cbv zeta. unfold open_handle.
  assert (G : forall fail : option E,
    open_first descriptor open_device is_access is_busy is_no_device ds fail
    = match omap (fun d => ok (open_device d)) (List.filter (is_tracker descriptor) ds) with
      | h :: _ => Ok h
      | [] => Err (from_option (classify_open_failure is_access is_busy is_no_device) UsbError.DeviceNotFound
                (last (option_list fail
                       ++ omap (fun d => match open_device d with Err e => Some e | Ok _ => None end)
                               (List.filter (is_tracker descriptor) ds))))
      end); [|apply (G None)].
  induction ds as [|d ds IH]; intros fail; cbn [open_first List.filter omap list_omap].
  { rewrite app_nil_r. by destruct fail. }
  change (is_tracker descriptor d) with
    match descriptor d with Some (v, p) => (v =? VID) && (p =? PID) | None => false end.
  destruct (descriptor d) as [[v p]|]; [|apply IH].
  destruct (v =? VID), (p =? PID); cbn [negb orb andb]; try apply IH.
  cbn [omap list_omap]. destruct (open_device d) as [h|e]; [done|]. cbn [ok]. rewrite IH.
  destruct (omap _ _) as [|h hs]; [|done]. cbn [option_list app].
  by destruct fail as [e'|]; cbn [app]; rewrite ?last_cons_cons.
Qed.

(** ** Time passes *)

(** What the driver's waits rely on: the clock never goes back, and a read either takes
    time or returns something that was already waiting. *)
Class TransportClock (T E : Type) `{Transport T E} := {
  clock : T -> Z;
  waiting : T -> nat;
  now_clock : forall t v t', now t = (v, t') ->
    clock t <= v <= clock t' /\ (waiting t' <= waiting t)%nat;
  recv_clock : forall n timeout t r t', recv n timeout t = (r, t') ->
    (clock t < clock t' /\ (waiting t' <= waiting t)%nat) \/ (clock t <= clock t' /\ (waiting t' < waiting t)%nat);
}.

(** The same of a libusb handle: a bulk read takes time. *)
Class HandleClock (H E : Type) `{Handle H E} := {
  hclock : H -> Z;
  monotonic_clock : forall h v h', monotonic h = (v, h') -> hclock h <= v <= hclock h';
  read_clock : forall ep n timeout h r h', read_bulk ep n timeout h = (r, h') -> hclock h < hclock h';
}.

#[export] Instance usb_clock {H E} `{HandleClock H E} : TransportClock (UsbTransport H) E.
Proof.
  refine {| clock := fun t => hclock (handle t); waiting := fun t => length (pending t) |}.
  - intros [h p b] v t'. unfold now, usb_transport. cbn [handle].
    destruct (monotonic h) as [v' h'] eqn:En. intros. simplify_eq. apply monotonic_clock in En. simpl. lia.
  - intros n timeout [h p b] r t'. unfold recv, usb_transport, usb_recv. cbn [pending handle].
    destruct p as [|read rest].
    + destruct (read_bulk EP_IN n timeout h) as [[data|e] h'] eqn:Er; [destruct (0 <? zlen data)|];
        intros; simplify_eq; apply read_clock in Er; simpl; lia.
    + destruct (n <? zlen read); intros; simplify_eq; simpl; lia.
Defined.

#[export] Instance mock_clock_laws : HandleClock mock unit.
Proof.
  refine {| hclock := mock_clock |}.
  - intros [l k] v h'. unfold monotonic, mock_handle. intros. simplify_eq. simpl. lia.
  - intros ep n timeout [[|d rest] k] r h'; unfold read_bulk, mock_handle; simpl;
      [intros; simplify_eq; simpl; lia|].
    destruct (zlen d <=? n); intros; simplify_eq; simpl; lia.
Defined.
