(* ===== verification/Connection.v ===== *)
(** * Connection: the driver of a live session (crates/tobii-usb/src/connection.rs)

    The driver is written against the [Transport] interface: it runs the handshake,
    sends numbered requests and waits for their replies within a window of time,
    and queues the gaze samples that arrive meanwhile. A wait is a loop on the
    clock; it takes fuel, and [request_returns] shows that some fuel is always
    enough under the clock's laws. [io] is the trace of what was sent and read. *)
From S2P Require Import Prelude F64 Protocol Tlv Commands Md5 Parser Handshake Gaze Transport.

Definition READ_BUF : Z := 16384.
Definition STREAM_READ_BUF : Z := 262144.
Definition RECV_TIMEOUT : Z := from_millis 100.
Definition GAZE_TIMEOUT : Z := from_millis 1000.
Definition HANDSHAKE_STEP_CAP : nat := 400.
Definition DEFAULT_REQUEST_TIMEOUT : Z := from_secs 10.
Definition CAL_POINT_TIMEOUT : Z := from_secs 30.
Definition MIN_PLAUSIBLE_BLOB : Z := 4096.
Definition CAL_APPLY_TIMEOUT : Z := from_secs 60.

Definition is_plausible_calibration (blob : bytes) : bool := MIN_PLAUSIBLE_BLOB <=? zlen blob.

Section Connection.
  Context {T E : Type} `{Transport T E}.

Record Connection := {
  transport : T;
  parser : Parser;
  gaze_queue : list GazeSample;
  cseq : Z;
  request_timeout : Z;
}.

(** A call on the connection: [None] when the fuel ran out. *)
Definition CM (A : Type) : Type :=
  Connection -> option (result (UsbError.UsbError E) A * Connection).

#[export] Instance CM_ret : MRet CM := fun A a c => Some (Ok a, c).
#[export] Instance CM_bind : MBind CM := fun A B k m c =>
  match m c with
  | Some (Ok a, c) => k a c
  | Some (Err e, c) => Some (Err e, c)
  | None => None
  end.
Definition fail {A} (e : UsbError.UsbError E) : CM A := fun c => Some (Err e, c).

Definition set_request_timeout (t : Z) (c : Connection) : Connection := {c with request_timeout := t}.

Definition next_seq (c : Connection) : Z * Connection := (cseq c, {c with cseq := bump_seq (cseq c)}).

Definition is_gaze (f : Frame) : bool := (magic f =? TTP_MAGIC_NOTIFY) && (op f =? OP_GAZE_NOTIFY).

(** [hs] is the handshake in progress, if any. *)
Definition route (f : Frame) (hs : option Handshake) (c : Connection) : option Handshake * Connection :=
  if magic f =? TTP_MAGIC_RSP then (on_response (payload f) <$> hs, c)
  else if is_gaze f then
    match decode (payload f) with
    | Some s => (hs, {c with gaze_queue := gaze_queue c ++ [s] })
    | None => (hs, c)
    end
  else (hs, c).

Definition route_all (fs : list Frame) (hs : option Handshake) (c : Connection) : option Handshake * Connection :=
  foldl (fun '(hs, c) f => route f hs c) (hs, c) fs.

(** [self.transport.recv(..)], [self.parser.feed(..)]: [None] when nothing was read;
    a framing error is an empty list, as every caller treats it. *)
Definition read_frames (buf_len timeout : Z) (c : Connection) : option (list Frame) * Connection :=
  let '(r, t) := recv buf_len timeout (transport c) in
  let c := {c with transport := t} in
  match r with
  | None => (None, c)
  | Some data =>
      let '(r, p) := feed data (parser c) in
      let c := {c with parser := p} in
      match r with Ok frames => (Some frames, c) | Err _ => (Some [], c) end
  end.

Definition drain (timeout : Z) (hs : option Handshake) (c : Connection) : option Handshake * Connection :=
  match read_frames READ_BUF timeout c with
  | (Some frames, c) => route_all frames hs c
  | (None, c) => (hs, c)
  end.

(** The loop [for f in frames]: keep the first frame that is wanted, route the rest. *)
Fixpoint take_first (wanted : Frame -> bool) (fs : list Frame) (found : option Frame) (c : Connection)
    : option Frame * Connection :=
  match fs with
  | [] => (found, c)
  | f :: fs =>
      match found with
      | None => if wanted f then take_first wanted fs (Some f) c
                else take_first wanted fs None (route f None c).2
      | Some _ => take_first wanted fs found (route f None c).2
      end
  end.

(** ** Requests *)
Definition answers (o s : Z) (f : Frame) : bool :=
  (magic f =? TTP_MAGIC_RSP) && (op f =? o) && (seq f =? s).

(** [while Instant::now() < deadline] *)
Fixpoint await (fuel : nat) (o s deadline : Z) (c : Connection) : option (option bytes * Connection) :=
  match fuel with
  | O => None
  | S fuel =>
      let '(t, tr) := now (transport c) in
      let c := {c with transport := tr} in
      if t <? deadline then
        match read_frames READ_BUF RECV_TIMEOUT c with
        | (None, c) => await fuel o s deadline c
        | (Some frames, c) =>
            match take_first (answers o s) frames None c with
            | (Some f, c) => Some (Some (payload f), c)
            | (None, c) => await fuel o s deadline c
            end
        end
      else Some (None, c)
  end.

Definition request_until (fuel : nat) (o : Z) (payload : bytes) (timeout : Z) : CM (option bytes) := fun c =>
  let '(s, c) := next_seq c in
  match send (build_out_frame s o payload) (transport c) with
  | (Err e, t) => Some (Err e, {c with transport := t})
  | (Ok _, t) =>
      let '(start, t) := now t in
      let c := {c with transport := t} in
      match await fuel o s (start + timeout) c with
      | Some (r, c) => Some (Ok r, c)
      | None => None
      end
  end.

Definition request (fuel : nat) (o : Z) (payload : bytes) : CM (option bytes) := fun c =>
  request_until fuel o payload (request_timeout c) c.

Definition expect_response_until (fuel : nat) (o : Z) (payload : bytes) (timeout : Z) : CM bytes :=
  r ← request_until fuel o payload timeout;
  match r with Some p => mret p | None => fail (UsbError.NoResponse o) end.

Definition expect_response (fuel : nat) (o : Z) (payload : bytes) : CM bytes := fun c =>
  expect_response_until fuel o payload (request_timeout c) c.

Definition start_calibration (fuel : nat) : CM unit := expect_response fuel OP_CAL_START cal_session_payload ;; mret tt.
Definition stop_calibration (fuel : nat) : CM unit := expect_response fuel OP_CAL_STOP cal_session_payload ;; mret tt.
Definition clear_calibration (fuel : nat) : CM unit := expect_response fuel OP_CAL_CLEAR cal_session_payload ;; mret tt.
Definition add_calibration_point (fuel : nat) (x y : f64) (eye : Z) : CM unit :=
  expect_response_until fuel OP_CAL_ADD_POINT (cal_add_point_payload x y eye) CAL_POINT_TIMEOUT ;; mret tt.
Definition discard_calibration_point (fuel : nat) (x y : f64) : CM unit :=
  expect_response_until fuel OP_CAL_DISCARD_POINT (cal_discard_point_payload x y) CAL_POINT_TIMEOUT ;; mret tt.
Definition compute_and_apply_calibration (fuel : nat) : CM unit :=
  expect_response fuel OP_CAL_COMPUTE cal_compute_payload ;; mret tt.

Definition retrieve_calibration (fuel : nat) : CM bytes :=
  payload ← expect_response fuel OP_CAL_RETRIEVE cal_retrieve_payload;
  mret (if 2 <=? zlen payload then from payload 2 else payload).

Definition apply_calibration (fuel : nat) (blob : bytes) : CM unit := fun c =>
  if negb (is_plausible_calibration blob) then fail (UsbError.ImplausibleCalibration (zlen blob)) c
  else
    let window := if request_timeout c <? DEFAULT_REQUEST_TIMEOUT then request_timeout c else CAL_APPLY_TIMEOUT in
    (expect_response_until fuel OP_CAL_APPLY (cal_apply_payload blob) window ;; mret tt) c.

Definition is_some {A} (o : option A) : bool := match o with Some _ => true | None => false end.

Definition set_display_area (fuel : nat) (k : DisplayCorners) : CM bool :=
  let '(tx, ty, tz) := tl k in let '(rx, ry, rz) := tr k in let '(bx, by_, bz) := bl k in
  r ← request fuel OP_SET_DISPLAY_AREA (set_display_area_corners_payload tx ty tz rx ry rz bx by_ bz);
  mret (is_some r).
Definition get_enabled_eye (fuel : nat) : CM (option EnabledEye) :=
  r ← request fuel OP_GET_ENABLED_EYE []; mret (r ≫= parse_enabled_eye).
Definition set_enabled_eye (fuel : nat) (eye : EnabledEye) : CM bool :=
  r ← request fuel OP_SET_ENABLED_EYE (set_enabled_eye_payload eye); mret (is_some r).
Definition subscribe_stream (fuel : nat) (stream_id : Z) : CM bool :=
  r ← request fuel OP_SUBSCRIBE (subscribe_payload stream_id); mret (is_some r).
Definition unsubscribe_stream (fuel : nat) (stream_id : Z) : CM bool :=
  r ← request fuel OP_UNSUBSCRIBE (subscribe_payload stream_id); mret (is_some r).
Definition stream_catalog (fuel : nat) : CM (option bytes) := request fuel OP_STREAM_CATALOG [].

(** ** The handshake *)
Fixpoint handshake_loop (steps : nat) (hs : Handshake) (c : Connection)
    : result (UsbError.UsbError E) unit * Connection :=
  match steps with
  | O => (Err UsbError.Handshake, c)
  | S steps =>
      match poll hs with
      | (Send data, hs) =>
          match send data (transport c) with
          | (Err e, t) => (Err e, {c with transport := t})
          | (Ok _, t) =>
              match drain RECV_TIMEOUT (Some hs) {c with transport := t} with
              | (Some hs, c) => handshake_loop steps hs c
              | (None, c) => (Err UsbError.Handshake, c)   (* not reached: [drain] keeps the handshake *)
              end
          end
      | (Recv, hs) =>
          match drain RECV_TIMEOUT (Some hs) c with
          | (Some hs, c) => handshake_loop steps hs c
          | (None, c) => (Err UsbError.Handshake, c)
          end
      | (Done, hs) => (Ok tt, {c with cseq := hseq hs})
      | (Failed, _) => (Err UsbError.Handshake, c)
      end
  end.
Definition run_handshake (c : Connection) : result (UsbError.UsbError E) unit * Connection :=
  handshake_loop HANDSHAKE_STEP_CAP (new_handshake STREAM_GAZE) c.

Definition new_connection (t : T) : Connection :=
  {| transport := t; parser := new_parser; gaze_queue := []; cseq := 1;
     request_timeout := DEFAULT_REQUEST_TIMEOUT |}.
Definition connect (t : T) : result (UsbError.UsbError E) Connection :=
  match run_handshake (new_connection t) with
  | (Ok _, c) => Ok c
  | (Err e, _) => Err e
  end.

(** ** Streaming *)
Definition next_gaze (c : Connection) : option GazeSample * Connection :=
  match gaze_queue c with
  | s :: rest => (Some s, {c with gaze_queue := rest})
  | [] =>
      let '(_, c) := drain GAZE_TIMEOUT None c in
      match gaze_queue c with
      | s :: rest => (Some s, {c with gaze_queue := rest})
      | [] => (None, c)
      end
  end.

Definition first_notification (want_op : option Z) (c : Connection) : option (Z * bytes) * Connection :=
  match read_frames READ_BUF GAZE_TIMEOUT c with
  | (Some frames, c) =>
      let wanted f := (magic f =? TTP_MAGIC_NOTIFY)
                      && match want_op with None => true | Some o => op f =? o end in
      let '(found, c) := take_first wanted frames None c in
      ((fun f => (op f, payload f)) <$> found, c)
  | (None, c) => (None, c)
  end.
Definition next_gaze_payload (c : Connection) : option bytes * Connection :=
  let '(r, c) := first_notification (Some OP_GAZE_NOTIFY) c in (snd <$> r, c).
Definition next_notification (c : Connection) : option (Z * bytes) * Connection := first_notification None c.

Record Notifications := { frames : list (Z * bytes); saw_traffic : bool }.
Definition silent : Notifications := {| frames := []; saw_traffic := false |}.

(** The loop of [read_notifications]. *)
Fixpoint split_notifications (fs : list Frame) (c : Connection) : list (Z * bytes) * Connection :=
  match fs with
  | [] => ([], c)
  | f :: fs =>
      if magic f =? TTP_MAGIC_NOTIFY then
        let '(out, c) := split_notifications fs c in ((op f, payload f) :: out, c)
      else split_notifications fs (route f None c).2
  end.
Definition read_notifications (c : Connection) : Notifications * Connection :=
  match read_frames STREAM_READ_BUF GAZE_TIMEOUT c with
  | (None, c) => (silent, c)
  | (Some fs, c) =>
      let '(out, c) := split_notifications fs c in
      ({| frames := out; saw_traffic := true |}, c)
  end.
End Connection.
Arguments Connection T : clear implicits.

(** ** The trace of a session *)
Inductive event :=
| Sent (data : bytes) (accepted : bool)
| Got (data : bytes)
| Quiet.

Definition sends (evs : list event) : list bytes :=
  omap (fun e => match e with Sent d _ => Some d | _ => None end) evs.
Definition reads (evs : list event) : list bytes :=
  omap (fun e => match e with Got d => Some d | _ => None end) evs.

(** Everything the reads carried, as the parser sees it; a framing error is skipped. *)
Fixpoint feed_all (p : Parser) (rs : list bytes) : list Frame * Parser :=
  match rs with
  | [] => ([], p)
  | d :: rs =>
      let '(r, p) := feed d p in
      let '(fs, p) := feed_all p rs in
      (match r with Ok gs => gs ++ fs | Err _ => fs end, p)
  end.

Definition gaze_of (fs : list Frame) : list GazeSample :=
  omap (fun f => if is_gaze f then decode (payload f) else None) fs.

#[global] Arguments gaze_of : simpl never.

Lemma feed_all_app p rs1 rs2 :
  feed_all p (rs1 ++ rs2)
  = let '(fs1, p1) := feed_all p rs1 in let '(fs2, p2) := feed_all p1 rs2 in (fs1 ++ fs2, p2).
Proof.
  revert p. induction rs1 as [|d rs1 IH]; intros p; cbn [app feed_all].
  - by destruct (feed_all p rs2).
  - destruct (feed d p) as [r p']. rewrite IH. destruct (feed_all p' rs1) as [fs1 p1].
    destruct (feed_all p1 rs2) as [fs2 p2]. by destruct r; rewrite <- ?app_assoc.
Qed.
Lemma sends_app e1 e2 : sends (e1 ++ e2) = sends e1 ++ sends e2.
Proof. apply omap_app. Qed.
Lemma reads_app e1 e2 : reads (e1 ++ e2) = reads e1 ++ reads e2.
Proof. apply omap_app. Qed.
Lemma gaze_of_app f1 f2 : gaze_of (f1 ++ f2) = gaze_of f1 ++ gaze_of f2.
Proof. apply omap_app. Qed.

Section proofs.
  Context {T E : Type} `{Transport T E}.
  Implicit Types c : Connection T.

Inductive io : T -> list event -> T -> Prop :=
| io_nil t : io t [] t
| io_send t d r t' evs t'' :
    send d t = (r, t') -> io t' evs t'' -> io t (Sent d (is_ok r) :: evs) t''
| io_recv t n timeout r t' evs t'' :
    recv n timeout t = (r, t') -> io t' evs t'' ->
    io t (match r with Some d => Got d | None => Quiet end :: evs) t''
| io_now t v t' evs t'' : now t = (v, t') -> io t' evs t'' -> io t evs t''.

Lemma io_app t1 e1 t2 e2 t3 : io t1 e1 t2 -> io t2 e2 t3 -> io t1 (e1 ++ e2) t3.
Proof. induction 1; intros; [done|econstructor; eauto..]. Qed.

(** [c'] is [c] after the trace [evs]: the transport did [evs], the parser was fed
    its reads, and the gaze among the frames was queued behind what was there. *)
Definition ran c (evs : list event) c' : Prop :=
  io (transport c) evs (transport c')
  /\ parser c' = (feed_all (parser c) (reads evs)).2
  /\ gaze_queue c' = gaze_queue c ++ gaze_of (feed_all (parser c) (reads evs)).1.
(** The parts of the state no trace touches. *)
Definition same_session c c' : Prop := cseq c' = cseq c /\ request_timeout c' = request_timeout c.

Lemma ran_nil c : ran c [] c.
Proof. split_and!; [constructor|done|by rewrite app_nil_r]. Qed.
Lemma ran_app c1 e1 c2 e2 c3 : ran c1 e1 c2 -> ran c2 e2 c3 -> ran c1 (e1 ++ e2) c3.
Proof.
  intros (H1 & H2 & H3) (H4 & H5 & H6). split_and!; [by eapply io_app|..]; rewrite reads_app, feed_all_app.
  - rewrite H2 in H5. destruct (feed_all (parser c1) (reads e1)) as [fs1 p1]. simpl in *.
    rewrite H5. by destruct (feed_all p1 (reads e2)).
  - rewrite H2, H3 in H6. destruct (feed_all (parser c1) (reads e1)) as [fs1 p1]. simpl in *.
    rewrite H6. destruct (feed_all p1 (reads e2)) as [fs2 p2]. simpl. by rewrite gaze_of_app, app_assoc.
Qed.

Lemma same_refl c : same_session c c. Proof. done. Qed.
Lemma same_trans c1 c2 c3 : same_session c1 c2 -> same_session c2 c3 -> same_session c1 c3.
Proof. intros [? ?] [? ?]. split; congruence. Qed.

(** Routing only queues gaze, and hands responses to the handshake. *)
Definition responses (fs : list Frame) : list bytes :=
  omap (fun f => if magic f =? TTP_MAGIC_RSP then Some (payload f) else None) fs.

Lemma route_spec f hs c :
  (route f hs c).2 = {c with gaze_queue := gaze_queue c ++ gaze_of [f] }
  /\ (route f hs c).1 = (fun h => foldl (fun h p => on_response p h) h (responses [f])) <$> hs.
Proof.
  unfold route, gaze_of, responses. cbn [omap list_omap].
  unfold is_gaze.
  destruct (Z.eqb_spec (magic f) TTP_MAGIC_RSP) as [E1|E1].
  - rewrite E1. simpl. split; [|by destruct hs]. rewrite app_nil_r. by destruct c.
  - destruct ((magic f =? TTP_MAGIC_NOTIFY) && (op f =? OP_GAZE_NOTIFY)); [destruct (decode (payload f))|]; simpl;
      (split; [rewrite ?app_nil_r; by destruct c|by destruct hs]).
Qed.

Lemma route_all_spec fs hs c :
  route_all fs hs c
  = ((fun h => foldl (fun h p => on_response p h) h (responses fs)) <$> hs,
     {c with gaze_queue := gaze_queue c ++ gaze_of fs}).
Proof.
  revert hs c. induction fs as [|f fs IH]; intros hs c.
  - unfold route_all. simpl. rewrite app_nil_r. destruct c, hs; done.
  - change (f :: fs) with ([f] ++ fs).
    assert (Ha : route_all ([f] ++ fs) hs c = let '(hs', c') := route f hs c in route_all fs hs' c').
    { unfold route_all. cbn [app foldl]. by destruct (route f hs c). }
    rewrite Ha. destruct (route_spec f hs c) as [H1 H2]. destruct (route f hs c) as [hs' c'].
    simpl in H1, H2. subst hs' c'. rewrite IH. f_equal.
    + unfold responses. rewrite omap_app. destruct hs as [h|]; [|done].
      cbn [fmap option_fmap option_map]. by rewrite foldl_app.
    + rewrite (gaze_of_app [f] fs). simpl. by rewrite app_assoc.
Qed.

Lemma take_first_found wanted fs f0 c :
  take_first wanted fs (Some f0) c = (Some f0, {c with gaze_queue := gaze_queue c ++ gaze_of fs}).
Proof.
  revert c. induction fs as [|f fs IH]; intros c; cbn [take_first].
  - simpl. rewrite app_nil_r. by destruct c.
  - rewrite IH, (proj1 (route_spec f None c)). change (f :: fs) with ([f] ++ fs).
    rewrite (gaze_of_app [f] fs). simpl. by rewrite app_assoc.
Qed.

(** What is wanted never is a gaze sample. *)
Lemma take_first_spec wanted fs c :
  (forall f, wanted f = true -> gaze_of [f] = []) ->
  take_first wanted fs None c = (List.find wanted fs, {c with gaze_queue := gaze_queue c ++ gaze_of fs}).
Proof.
  intros Hw. revert c. induction fs as [|f fs IH]; intros c; cbn [take_first List.find].
  - simpl. rewrite app_nil_r. by destruct c.
  - change (f :: fs) with ([f] ++ fs). rewrite gaze_of_app. destruct (wanted f) eqn:Ewf.
    + by rewrite take_first_found, Hw.
    + rewrite IH, (proj1 (route_spec f None c)). simpl. by rewrite app_assoc.
Qed.
Lemma answers_not_gaze o s f : answers o s f = true -> gaze_of [f] = [].
Proof.
  unfold answers, gaze_of, is_gaze. intros [[Hm%Z.eqb_eq _]%andb_true_iff _]%andb_true_iff. simpl.
  by rewrite Hm.
Qed.

(** One read, as a trace. *)
Lemma read_frames_ran n timeout c :
  let '(r, c') := read_frames n timeout c in
  exists ev, io (transport c) [ev] (transport c')
    /\ parser c' = (feed_all (parser c) (reads [ev])).2 /\ gaze_queue c' = gaze_queue c
    /\ same_session c c' /\ default [] r = (feed_all (parser c) (reads [ev])).1
    /\ sends [ev] = [] /\ (r = None <-> ev = Quiet).
Proof.
  unfold read_frames. destruct (recv n timeout (transport c)) as [[d|] t] eqn:Er.
  - cbv zeta. change (parser {c with transport := t}) with (parser c).
    destruct (feed d (parser c)) as [[fs|e] p] eqn:Ef; exists (Got d);
      (split_and!; [exact (io_recv _ _ _ (Some d) _ _ _ Er (io_nil _))|..]);
      cbn [reads omap list_omap feed_all]; rewrite ?Ef; simpl; rewrite ?app_nil_r; done.
  - cbv beta iota zeta. exists Quiet. split_and!; try done. exact (io_recv _ _ _ None _ _ _ Er (io_nil _)).
Qed.

Lemma ran_read n timeout c frames c1 c2 :
  read_frames n timeout c = (frames, c1) ->
  c2 = {c1 with gaze_queue := gaze_queue c1 ++ gaze_of (default [] frames)} ->
  exists ev, ran c [ev] c2 /\ same_session c c2 /\ sends [ev] = []
    /\ default [] frames = (feed_all (parser c) (reads [ev])).1.
Proof.
  intros Hr ->. pose proof (read_frames_ran n timeout c) as H1. rewrite Hr in H1.
  destruct H1 as (ev & Hio & Hp & Hg & Hs & Hf & Hse & _). exists ev.
  split_and!; [|exact Hs|done|done]. split_and!; [exact Hio|exact Hp|]. simpl. by rewrite Hg, Hf.
Qed.

Lemma ran_now c v t : now (transport c) = (v, t) -> ran c [] {c with transport := t}.
Proof. intros Hn. split_and!; [by eapply io_now; [|constructor]|done|simpl; by rewrite app_nil_r]. Qed.

Lemma ran_send c d r t : send d (transport c) = (r, t) -> ran c [Sent d (is_ok r)] {c with transport := t}.
Proof. intros Hs. split_and!; [by eapply io_send; [|constructor]|done|simpl; by rewrite app_nil_r]. Qed.

Lemma find_app_none {A} (p : A -> bool) l k : List.find p l = None -> List.find p (l ++ k) = List.find p k.
Proof. induction l as [|a l IH]; [done|]. cbn [List.find app]. by destruct (p a). Qed.

(** Waiting: what comes back is the first frame among all that were read that answers
    the request, the gaze among them queued. *)
Lemma await_spec fuel o s deadline c r c' :
  await fuel o s deadline c = Some (r, c') ->
  exists evs, ran c evs c' /\ same_session c c' /\ sends evs = []
    /\ r = payload <$> List.find (answers o s) (feed_all (parser c) (reads evs)).1.
Proof.
  revert c r c'. induction fuel as [|fuel IH]; intros c r c'; cbn [await]; [done|].
  destruct (now (transport c)) as [v t] eqn:En. pose proof (ran_now _ _ _ En) as Hnow.
  set (c0 := {c with transport := t}) in *. destruct (v <? deadline).
  2: { intros; simplify_eq. exists []. split_and!; done. }
  destruct (read_frames READ_BUF RECV_TIMEOUT c0) as [fr c1] eqn:Er.
  destruct (ran_read _ _ _ _ _ _ Er eq_refl) as (ev & Hran & Hsame & Hse & Hfr).
  set (c2 := {c1 with gaze_queue := gaze_queue c1 ++ gaze_of (default [] fr)}) in *.
  assert (Hc2 : fr = None -> c2 = c1).
  { intros ->. unfold c2. simpl. rewrite app_nil_r. by destruct c1. }
  assert (Ec2 : {c1 with gaze_queue := gaze_queue c1 ++ gaze_of (default [] fr)} = c2) by done.
  clearbody c2.
  assert (Hcont : List.find (answers o s) (default [] fr) = None ->
            await fuel o s deadline c2 = Some (r, c') ->
            exists evs, ran c evs c' /\ same_session c c' /\ sends evs = []
              /\ r = payload <$> List.find (answers o s) (feed_all (parser c) (reads evs)).1).
  { intros Hnone Ha. destruct (IH _ _ _ Ha) as (evs & Hran2 & Hsame2 & Hse2 & Hr). exists ([ev] ++ evs).
    split_and!.
    - change ([ev] ++ evs) with ([] ++ [ev] ++ evs). by repeat (eapply ran_app; [eassumption|]).
    - apply (same_trans _ c2); done.
    - by rewrite sends_app, Hse, Hse2.
    - rewrite Hr, reads_app, feed_all_app. destruct Hran as (_ & Hp & _). change (parser c0) with (parser c) in *.
      destruct (feed_all (parser c) (reads [ev])) as [fs1 p1]. simpl in *. rewrite <- Hp, <- Hfr.
      destruct (feed_all (parser c2) (reads evs)) as [fs2 p2]. simpl. by rewrite find_app_none. }
  destruct fr as [fs|]; [|by rewrite <- Hc2; auto].
  rewrite (take_first_spec _ _ _ (answers_not_gaze o s)).
  change (default [] (Some fs)) with fs in *. rewrite Ec2.
  destruct (List.find (answers o s) fs) as [f|] eqn:Ef; [|auto].
  intros Hq. injection Hq as <- <-. exists [ev]. split_and!; [|done|done|].
  - change [ev] with ([] ++ [ev]). by eapply ran_app.
  - change (parser c0) with (parser c) in *. rewrite <- Hfr, Ef. done.
Qed.

Lemma request_until_spec fuel o p timeout c r c' :
  request_until fuel o p timeout c = Some (r, c') ->
  cseq c' = bump_seq (cseq c) /\
  exists ok evs, ran c (Sent (build_out_frame (cseq c) o p) ok :: evs) c' /\ sends evs = [] /\
    match r with
    | Ok res => ok = true
        /\ res = payload <$> List.find (answers o (cseq c)) (feed_all (parser c) (reads evs)).1
    | Err _ => ok = false /\ evs = []
    end.
Proof.
  unfold request_until, next_seq. cbv beta iota zeta.
  set (c0 := {c with cseq := bump_seq (cseq c)}). change (transport c0) with (transport c).
  assert (Hb : forall evs c', ran c0 evs c' -> ran c evs c') by done.
  destruct (send _ (transport c)) as [[[]|e] t] eqn:Es; pose proof (ran_send c0 _ _ _ Es) as Hs.
  - destruct (now t) as [v t'] eqn:En.
    pose proof (ran_now {c0 with transport := t} v t' En) as Hn.
    change {{c0 with transport := t} with transport := t'} with {c0 with transport := t'} in Hn.
    destruct (await _ _ _ _ _) as [[res c1]|] eqn:Ea; [|done]. intros; simplify_eq.
    apply await_spec in Ea. destruct Ea as (evs & Hran & [Hseq _] & Hse & Hr). split; [exact Hseq|].
    exists true, evs. split_and!; [|done|done|done].
    apply Hb. change (Sent ?d true :: evs) with ([Sent d true] ++ [] ++ evs).
    eapply ran_app; [exact Hs|]. by eapply ran_app; [exact Hn|].
  - intros; simplify_eq. split; [done|]. exists false, []. split_and!; [|done..]. by apply Hb.
Qed.

(** C3: What a request returns. Whenever a call of [request] comes back without a
    transport error, exactly one frame was sent, carrying the connection's current
    number, which the next request will not reuse; the result is the payload of the
    first response, among all frames read until then, that echoes both the op and
    that number, and nothing if there was none; and every gaze sample among those
    frames was queued, in order, behind the ones already waiting. When the send
    fails, its error is the result and nothing was read. *)
Theorem request_spec fuel o p c r c' :
  request fuel o p c = Some (r, c') ->
  cseq c' = bump_seq (cseq c) /\
  exists ok evs, ran c (Sent (build_out_frame (cseq c) o p) ok :: evs) c' /\ sends evs = [] /\
    match r with
    | Ok res => ok = true
        /\ res = payload <$> List.find (answers o (cseq c)) (feed_all (parser c) (reads evs)).1
    | Err _ => ok = false /\ evs = []
    end.
Proof. apply request_until_spec. Qed.
End proofs.

(** ** Waits end *)
Section termination.
  Context {T E : Type} `{TransportClock T E}.
  Implicit Types c : Connection T.

Lemma read_frames_clock n timeout c r c' : read_frames n timeout c = (r, c') ->
  (clock (transport c) < clock (transport c') /\ (waiting (transport c') <= waiting (transport c))%nat)
  \/ (clock (transport c) <= clock (transport c') /\ (waiting (transport c') < waiting (transport c))%nat).
Proof.
  unfold read_frames. destruct (recv n timeout (transport c)) as [[d|] t] eqn:Er.
  - apply recv_clock in Er. destruct (feed d _) as [[fs|e] p]; intros; simplify_eq; exact Er.
  - apply recv_clock in Er. intros. simplify_eq. exact Er.
Qed.

Lemma take_first_transport wanted fs found c :
  transport (take_first wanted fs found c).2 = transport c.
Proof.
  revert found c. induction fs as [|f fs IH]; intros found c; cbn [take_first]; [done|].
  assert (Hr : transport (route f None c).2 = transport c) by by rewrite (proj1 (route_spec f None c)).
  destruct found; [by rewrite IH|]. destruct (wanted f); by rewrite IH.
Qed.

Lemma await_ends o s deadline n c :
  (1 + Z.to_nat (deadline - clock (transport c)) + waiting (transport c) <= n)%nat ->
  exists r, forall m, (n <= m)%nat -> await m o s deadline c = Some r.
Proof.
  revert c. induction n as [|n IH]; intros c Hn; [lia|].
  destruct (now (transport c)) as [v t] eqn:En. pose proof (now_clock _ _ _ En) as Hnow.
  assert (Hstep : forall m, (S n <= m)%nat -> exists m', m = S m' /\ (n <= m')%nat)
    by (intros [|m] Hm; [lia|exists m; split; [done|lia]]).
  destruct (Z.ltb_spec v deadline) as [Hlt|Hge].
  2: { eexists. intros m (m' & -> & _)%Hstep. cbn [await]. rewrite En, (proj2 (Z.ltb_ge _ _)) by done. done. }
  destruct (read_frames READ_BUF RECV_TIMEOUT {c with transport := t}) as [fr c1] eqn:Er.
  pose proof (read_frames_clock _ _ _ _ _ Er) as Hrd. change (transport {c with transport := t}) with t in Hrd.
  destruct fr as [fs|].
  - destruct (take_first (answers o s) fs None c1) as [[f|] c2] eqn:Et.
    + eexists. intros m (m' & -> & _)%Hstep. cbn [await]. rewrite En, (proj2 (Z.ltb_lt _ _)), Er, Et by done. done.
    + pose proof (take_first_transport (answers o s) fs None c1) as Ht. rewrite Et in Ht. simpl in Ht.
      destruct (IH c2) as [r Hr]; [rewrite Ht; lia|]. exists r. intros m (m' & -> & Hm)%Hstep. cbn [await].
      rewrite En, (proj2 (Z.ltb_lt _ _)), Er, Et by done. by apply Hr.
  - destruct (IH c1) as [r Hr]; [lia|]. exists r. intros m (m' & -> & Hm)%Hstep. cbn [await].
    rewrite En, (proj2 (Z.ltb_lt _ _)), Er by done. by apply Hr.
Qed.

(** C29: A request always comes back. Under the clock's laws there is, for every request
    from every state, an amount of fuel from which on the model returns the same
    outcome: the source's wait ends, however much unrelated traffic arrives. *)
Theorem request_returns o p c :
  exists n r, forall m, (n <= m)%nat -> request m o p c = Some r.
Proof.
  unfold request, request_until, next_seq. cbv beta iota zeta.
  destruct (send _ _) as [[[]|e] t]; [|by exists 0%nat; eexists].
  destruct (now t) as [v t'] eqn:En.
  match goal with |- context [await _ o ?s ?dl ?c0] =>
    destruct (await_ends o s dl (1 + Z.to_nat (dl - clock (transport c0)) + waiting (transport c0)) c0) as [[r c1] Hr];
      [lia|]; exists (1 + Z.to_nat (dl - clock (transport c0)) + waiting (transport c0))%nat, (Ok r, c1) end.
  intros m Hm. by rewrite Hr by done.
Qed.
End termination.

(** ** Connecting *)
Section session.
  Context {T E : Type} `{Transport T E}.
  Implicit Types c : Connection T.

(** Draining during the handshake feeds it the responses read, and queues gaze. *)
Lemma drain_ran timeout h c h' c' :
  drain timeout (Some h) c = (h', c') ->
  exists ev rs, ran c [ev] c' /\ same_session c c' /\ sends [ev] = []
    /\ h' = Some (foldl (fun h p => on_response p h) h rs).
Proof.
  unfold drain. destruct (read_frames READ_BUF timeout c) as [fr c1] eqn:Er.
  destruct (ran_read _ _ _ _ _ _ Er eq_refl) as (ev & Hran & Hsame & Hse & Hfr).
  destruct fr as [fs|].
  - rewrite route_all_spec. intros; simplify_eq. exists ev, (responses fs). split_and!; try done.
  - intros; simplify_eq. exists ev, []. simpl in Hran. rewrite app_nil_r in Hran.
    by destruct c'.
Qed.

Lemma reach_responses sid h log rs :
  reach sid h log -> reach sid (foldl (fun h p => on_response p h) h rs) log.
Proof.
  revert h. induction rs as [|p rs IH]; intros h Hr; [done|]. apply IH.
  by eapply reach_step; [exact Hr|constructor].
Qed.
Lemma reach_poll sid h log a h' : reach sid h log -> poll h = (a, h') -> reach sid h' (log ++ sent a).
Proof.
  intros Hr Hp. pose proof (hs_poll h log) as Hs. rewrite Hp in Hs. by eapply reach_step.
Qed.

Lemma handshake_loop_spec n h log c r c' :
  reach STREAM_GAZE h log -> handshake_loop n h c = (r, c') ->
  exists evs log' h', io (transport c) evs (transport c') /\ reach STREAM_GAZE h' log'
    /\ (r = Ok tt -> ran c evs c' /\ log' = log ++ sends evs /\ hstate h' = State.Done /\ cseq c' = hseq h').
Proof.
  revert h log c r c'. induction n as [|n IH]; intros h log c r c' Hreach; cbn [handshake_loop].
  { intros; simplify_eq. exists [], log, h. split_and!; [constructor|done|done]. }
  destruct (poll h) as [a h1] eqn:Ep. pose proof (reach_poll _ _ _ _ _ Hreach Ep) as Hreach1.
  destruct a as [d| | |]; simpl in Hreach1.
  - destruct (send d (transport c)) as [[[]|e] t] eqn:Es; pose proof (ran_send c _ _ _ Es) as Hs.
    2: { intros; simplify_eq. eexists _, _, h1. split_and!; [apply Hs|exact Hreach1|done]. }
    destruct (drain _ _ _) as [h2 c2] eqn:Ed. apply drain_ran in Ed.
    destruct Ed as (ev & rs & Hran & Hsame & Hse & ->). intros Hl.
    apply (IH _ (log ++ [d])) in Hl; [|by apply reach_responses].
    destruct Hl as (evs & log' & h' & Hio & Hr' & Hok).
    assert (Hran2 : ran c ([Sent d true] ++ [ev]) c2) by by eapply ran_app.
    exists (([Sent d true] ++ [ev]) ++ evs), log', h'. split_and!; [|done|].
    + eapply io_app; [|exact Hio]. apply Hran2.
    + intros ->. destruct (Hok eq_refl) as (Hran3 & Hlog & Hd). split_and!; [by eapply ran_app| |apply Hd..].
      rewrite Hlog, !sends_app, Hse. simpl. by rewrite <- app_assoc.
  - rewrite app_nil_r in Hreach1. destruct (drain _ _ _) as [h2 c2] eqn:Ed. apply drain_ran in Ed.
    destruct Ed as (ev & rs & Hran & Hsame & Hse & ->). intros Hl.
    apply (IH _ log) in Hl; [|by apply reach_responses].
    destruct Hl as (evs & log' & h' & Hio & Hr' & Hok). exists ([ev] ++ evs), log', h'. split_and!; [|done|].
    + eapply io_app; [|exact Hio]. apply Hran.
    + intros ->. destruct (Hok eq_refl) as (Hran3 & Hlog & Hd). split_and!; [by eapply ran_app| |apply Hd..].
      by rewrite Hlog, sends_app, Hse.
  - rewrite app_nil_r in Hreach1. intros; simplify_eq. exists [], log, h1. split_and!; [constructor|done|].
    intros _. split_and!; [|by rewrite app_nil_r| |done].
    + split_and!; [constructor|done|symmetry; apply app_nil_r].
    + unfold poll in Ep. revert Ep. cbn [poll_loop]. clear.
      destruct h as [[] s sid rt rid f210 [q|]]; unfold poll_step; simpl; intros; repeat case_match; by simplify_eq.
  - rewrite app_nil_r in Hreach1. intros; simplify_eq. exists [], log, h1. split_and!; [constructor|done|done].
Qed.

(** A connection is only handed out after the whole handshake. If [connect]
    succeeds, the frames sent to the device are, in order, one of the two complete
    handshake conversations, ending in the gaze subscription (with the
    authentication before it if the device asked for a realm); the connection's next
    request number is one past the numbers used; and every gaze sample that arrived
    during the handshake is in the queue, in order. *)
Theorem connect_spec t c :
  connect t = Ok c ->
  exists evs, io t evs (transport c) /\ transcript STREAM_GAZE (sends evs)
    /\ cseq c = 1 + zlen (sends evs)
    /\ gaze_queue c = gaze_of (feed_all new_parser (reads evs)).1.
Proof.
  unfold connect, run_handshake. destruct (handshake_loop _ _ _) as [[[]|e] c'] eqn:El; [|done].
  intros; simplify_eq. apply (handshake_loop_spec _ _ []) in El; [|constructor].
  destruct El as (evs & log & h & Hio & Hreach & Hok).
  destruct (Hok eq_refl) as ((_ & _ & Hg) & -> & Hd & Hq). simpl in *.
  destruct (reach_inv _ _ _ Hreach) as (_ & Hseq & Hst). rewrite Hd in Hst.
  exists evs. split_and!; [done|done|congruence|done].
Qed.

(** ** Gaze in order *)

(** A client's calls after connecting. *)
Inductive client_call := CNextGaze | CRequest (o : Z) (p : bytes).
(** Run them, collecting the samples handed out; [None] when a request ran out of fuel. *)
Fixpoint run_client (fuel : nat) (cs : list client_call) c : option (list GazeSample * Connection T) :=
  match cs with
  | [] => Some ([], c)
  | CNextGaze :: cs =>
      let '(s, c) := next_gaze c in
      match run_client fuel cs c with
      | Some (out, c) => Some (option_list s ++ out, c)
      | None => None
      end
  | CRequest o p :: cs =>
      match request fuel o p c with Some (_, c) => run_client fuel cs c | None => None end
  end.

Lemma next_gaze_spec c :
  exists evs, io (transport c) evs (transport (next_gaze c).2)
    /\ parser (next_gaze c).2 = (feed_all (parser c) (reads evs)).2
    /\ option_list (next_gaze c).1 ++ gaze_queue (next_gaze c).2
       = gaze_queue c ++ gaze_of (feed_all (parser c) (reads evs)).1.
Proof.
  unfold next_gaze. destruct (gaze_queue c) as [|s rest] eqn:Eq.
  - destruct (drain GAZE_TIMEOUT None c) as [h' c1] eqn:Ed.
    assert (Hd : exists evs, ran c evs c1).
    { revert Ed. unfold drain. destruct (read_frames READ_BUF GAZE_TIMEOUT c) as [fr c0] eqn:Er.
      destruct (ran_read _ _ _ _ _ _ Er eq_refl) as (ev & Hran & _ & _ & _). exists [ev].
      destruct fr as [fs|]; [rewrite route_all_spec in Ed; by simplify_eq|].
      simplify_eq. simpl in Hran. rewrite app_nil_r in Hran. by destruct c1. }
    destruct Hd as (evs & Hio & Hp & Hg). rewrite Eq in Hg. exists evs.
    destruct (gaze_queue c1) as [|s rest] eqn:Eq1; (split_and!; [exact Hio|exact Hp|]);
      simpl in Hg |- *; congruence.
  - exists []. split_and!; [constructor|done|]. simpl. by rewrite app_nil_r.
Qed.

(** No gaze sample is lost, duplicated or reordered. Through any sequence of
    [next_gaze] calls and requests, the samples handed out followed by those still
    queued are exactly the ones queued at the start followed by every decodable gaze
    notification among the frames read since, in order of arrival. *)
Theorem gaze_in_order fuel cs c out c' :
  run_client fuel cs c = Some (out, c') ->
  exists evs, io (transport c) evs (transport c')
    /\ parser c' = (feed_all (parser c) (reads evs)).2
    /\ out ++ gaze_queue c' = gaze_queue c ++ gaze_of (feed_all (parser c) (reads evs)).1.
Proof.
  revert c out. induction cs as [|[|o p] cs IH]; intros c out; cbn [run_client].
  - intros; simplify_eq. exists []. split_and!; [constructor|done|by rewrite app_nil_r].
  - pose proof (next_gaze_spec c) as Hn. destruct (next_gaze c) as [s c1]. simpl in Hn.
    destruct Hn as (evs1 & Hio1 & Hp1 & Hg1).
    destruct (run_client fuel cs c1) as [[out1 c2]|] eqn:Er; [|done]. intros; simplify_eq.
    destruct (IH _ _ Er) as (evs2 & Hio2 & Hp2 & Hg2). exists (evs1 ++ evs2). split; [by eapply io_app|].
    rewrite reads_app, feed_all_app. rewrite Hp1 in *.
    destruct (feed_all (parser c) (reads evs1)) as [f1 p1]. simpl in *.
    destruct (feed_all p1 (reads evs2)) as [f2 p2]. simpl in *. split; [done|].
    by rewrite <- app_assoc, Hg2, app_assoc, Hg1, gaze_of_app, app_assoc.
  - destruct (request fuel o p c) as [[r c1]|] eqn:Er; [|done]. intros Hrun.
    apply request_spec in Er. destruct Er as (_ & ok & evs1 & (Hio1 & Hp1 & Hg1) & _ & _).
    destruct (IH _ _ Hrun) as (evs2 & Hio2 & Hp2 & Hg2). eexists. split; [by eapply io_app|].
    rewrite reads_app, feed_all_app. rewrite Hp1, Hg1 in *. change (reads (Sent ?d ok :: evs1)) with (reads evs1) in *.
    destruct (feed_all (parser c) (reads evs1)) as [f1 p1]. simpl in *.
    destruct (feed_all p1 (reads evs2)) as [f2 p2]. simpl in *. split; [done|].
    by rewrite Hg2, gaze_of_app, app_assoc.
Qed.
End session.

(** ** Calibrations *)
Section calibration.
  Context {T E : Type} `{Transport T E}.
  Implicit Types c : Connection T.

(** Among the frames these reads carry, the first that answers the request [o] that [c]
    sends next. *)
Definition first_answer (o : Z) c (evs : list event) : option Frame :=
  List.find (answers o (cseq c)) (feed_all (parser c) (reads evs)).1.

(** A request that insists on its reply: one frame, and the first answer read. *)
Lemma expect_spec fuel o p timeout c r c' :
  expect_response_until fuel o p timeout c = Some (r, c') ->
  exists ok evs, ran c (Sent (build_out_frame (cseq c) o p) ok :: evs) c' /\ sends evs = [] /\
    if ok then r = match first_answer o c evs with Some f => Ok (payload f) | None => Err (UsbError.NoResponse o) end
    else evs = [] /\ exists e, r = Err e.
Proof.
  unfold expect_response_until, mbind, CM_bind. destruct (request_until _ _ _ _ _) as [[r0 c1]|] eqn:Eq; [|done].
  apply request_until_spec in Eq as (_ & ok & evs & Hran & Hse & Hr). unfold mret, CM_ret, fail, first_answer. intros Hres.
  exists ok, evs. destruct r0 as [[q|]|e]; simplify_eq; destruct Hr as [-> Hr]; (split; [done|split; [done|]]);
    [destruct (List.find _ _); simpl in Hr; congruence..|by eauto].
Qed.

(** C11: A calibration goes back to the device as it came. Retrieving one sends one
    retrieve request, and a blob it returns is what follows the two status bytes in the
    first response, among the frames read after that, that echoes the request's op and
    number (a reply of less than two bytes is returned whole). Whenever that blob is
    applied later, on this or another connection, and is large enough to be a
    calibration, exactly one frame is sent, an apply request carrying two zero bytes and
    then the blob; and applying succeeds exactly if the send did and an answer to it was
    read. A blob too small to be a calibration is refused without touching the device. *)
Theorem calibration_saved_and_restored fuel c blob c' :
  retrieve_calibration fuel c = Some (Ok blob, c') ->
  (exists evs f, ran c (Sent (build_out_frame (cseq c) OP_CAL_RETRIEVE cal_retrieve_payload) true :: evs) c'
     /\ sends evs = [] /\ first_answer OP_CAL_RETRIEVE c evs = Some f
     /\ ((exists a b, payload f = a :: b :: blob) \/ (payload f = blob /\ zlen blob < 2)))
  /\ (forall n d, if is_plausible_calibration blob then
        forall r d', apply_calibration n blob d = Some (r, d') ->
        exists ok evs, ran d (Sent (build_out_frame (cseq d) OP_CAL_APPLY ([x00; x00] ++ blob)) ok :: evs) d'
          /\ sends evs = []
          /\ if ok then r = match first_answer OP_CAL_APPLY d evs with
                            | Some _ => Ok tt | None => Err (UsbError.NoResponse OP_CAL_APPLY) end
             else evs = [] /\ exists e, r = Err e
      else apply_calibration n blob d = Some (Err (UsbError.ImplausibleCalibration (zlen blob)), d)).
Proof.
  intros Hr. split.
  - revert Hr. unfold retrieve_calibration, expect_response, mbind at 1, CM_bind at 1.
    destruct (expect_response_until _ _ _ _ _) as [[r c1]|] eqn:Eq; [|done].
    apply expect_spec in Eq as (ok & evs & Hran & Hse & Ho). unfold mret, CM_ret. intros Hr.
    destruct ok; [|destruct Ho as (_ & e & ->); done]. subst r.
    destruct (first_answer _ _ _) as [f|] eqn:Ef; [|done]. injection Hr as <- <-. exists evs, f. split_and!; try done.
    destruct (payload f) as [|a [|b l]]; [by right|by right|left]. exists a, b. rewrite !zlen_cons.
    pose proof (zlen_nonneg l). by rewrite (proj2 (Z.leb_le _ _)) by lia.
  - intros n d. destruct (is_plausible_calibration blob) eqn:Ep; unfold apply_calibration; rewrite Ep; [|done].
    cbn [negb]. intros r d'. unfold mbind at 1, CM_bind at 1. unfold mret, CM_ret.
    destruct (expect_response_until _ _ _ _ _) as [[r0 d1]|] eqn:Eq; [|done].
    apply expect_spec in Eq as (ok & evs & Hran & Hse & Ho).
    assert (Hpay : cal_apply_payload blob = [x00; x00] ++ blob).
    { unfold cal_apply_payload, into_vec. autorewrite with wr. done. }
    rewrite Hpay in Hran. intros Hres. exists ok, evs.
    assert (d1 = d') as <- by (destruct r0; by simplify_eq). split_and!; [done|done|].
    destruct ok; [|destruct Ho as (-> & e & ->); injection Hres as <-; by eauto].
    destruct (first_answer _ _ _); subst r0; by injection Hres as <-.
Qed.
End calibration.

(** ** A recorded session *)

(** A device that answers the three handshake requests, streams one gaze sample
    beside the third answer, and later returns a calibration, another sample first. *)
Definition reply (o s : Z) (p : bytes) : Frame := {| magic := TTP_MAGIC_RSP; seq := s; op := o; payload := p |}.
Definition notify (p : bytes) : Frame := {| magic := TTP_MAGIC_NOTIFY; seq := 0; op := OP_GAZE_NOTIFY; payload := p |}.
Definition wire (f : Frame) : bytes := in_frame (32 + zlen (payload f)) f.
Definition demo_blob : bytes := replicate (Z.to_nat 5000) xc5.
Definition demo_device : UsbTransport mock :=
  {| handle := {| mock_in := [wire (reply OP_HELLO 1 [x00; x00]);
                              wire (reply OP_QUERY_REALM 2 [x00; x00]);
                              wire (reply OP_OPEN_REALM 3 [x00; x00]) ++ wire (notify sample_row);
                              wire (notify sample_row) ++ wire (reply OP_CAL_RETRIEVE 4 [xff]);
                              wire (reply OP_CAL_RETRIEVE 5 ([x00; x00] ++ demo_blob))];
                  mock_clock := 0 |};
     pending := []; pending_bytes := 0 |}.

Lemma connect_spec_witness :
  exists c evs, connect demo_device = Ok c /\ transcript STREAM_GAZE (sends evs) /\ cseq c = 1 + zlen (sends evs).
Proof.
  assert (Hok : is_ok (connect demo_device) = true) by (vm_compute; reflexivity).
  destruct (connect demo_device) as [c|e] eqn:Ec; [|discriminate].
  destruct (connect_spec demo_device c Ec) as (evs & _ & Ht & Hq & _).
  exists c, evs. split; [reflexivity|]. split; [exact Ht|exact Hq].
Defined.

(** The session once connected. *)
Definition demo_conn : Connection (UsbTransport mock) :=
  match connect demo_device with Ok c => c | Err _ => new_connection demo_device end.
Definition demo_answer : result (UsbError.UsbError unit) (option bytes) := Ok (Some ([x00; x00] ++ demo_blob)).

Lemma request_spec_witness :
  exists c', request 5 OP_CAL_RETRIEVE cal_retrieve_payload demo_conn = Some (demo_answer, c')
             /\ cseq c' = bump_seq (cseq demo_conn).
Proof.
  assert (Hr : fst <$> request 5 OP_CAL_RETRIEVE cal_retrieve_payload demo_conn = Some demo_answer)
    by (vm_compute; reflexivity).
  destruct (request 5 _ _ demo_conn) as [[r c']|] eqn:Er; [|discriminate]. injection Hr as ->.
  exists c'. split; [reflexivity|]. exact (proj1 (request_spec _ _ _ _ _ _ Er)).
Defined.
Lemma request_returns_witness :
  exists n r, forall m, (n <= m)%nat -> request m OP_CAL_RETRIEVE cal_retrieve_payload demo_conn = Some r.
Proof. apply (request_returns OP_CAL_RETRIEVE cal_retrieve_payload demo_conn). Defined.

Definition demo_calls : list client_call :=
  [CRequest OP_CAL_RETRIEVE cal_retrieve_payload; CNextGaze; CNextGaze; CNextGaze].
Lemma gaze_in_order_witness :
  exists out c', run_client 5 demo_calls demo_conn = Some (out, c') /\ length out = 2%nat
    /\ exists evs, out ++ gaze_queue c' = gaze_queue demo_conn ++ gaze_of (feed_all (parser demo_conn) (reads evs)).1.
Proof.
  assert (Ho : length ∘ fst <$> run_client 5 demo_calls demo_conn = Some 2%nat) by (vm_compute; reflexivity).
  destruct (run_client 5 demo_calls demo_conn) as [[out c']|] eqn:Er; [|discriminate]. injection Ho as Ho.
  exists out, c'. split; [reflexivity|]. split; [exact Ho|].
  destruct (gaze_in_order 5 demo_calls demo_conn out c' Er) as (evs & _ & _ & Hg). exists evs. exact Hg.
Defined.
Lemma calibration_saved_and_restored_witness :
  exists c' d' ok evs, retrieve_calibration 5 demo_conn = Some (Ok demo_blob, c')
    /\ apply_calibration 700 demo_blob demo_conn
       = Some (Err (UsbError.NoResponse OP_CAL_APPLY), d')
    /\ ran demo_conn (Sent (build_out_frame (cseq demo_conn) OP_CAL_APPLY ([x00; x00] ++ demo_blob)) ok :: evs) d'.
Proof.
  assert (Hr : fst <$> retrieve_calibration 5 demo_conn = Some (Ok demo_blob)) by (vm_compute; reflexivity).
  destruct (retrieve_calibration 5 demo_conn) as [[r c']|] eqn:Er; [|discriminate]. injection Hr as ->.
  assert (Ha : fst <$> apply_calibration 700 demo_blob demo_conn = Some (Err (UsbError.NoResponse OP_CAL_APPLY)))
    by (vm_compute; reflexivity).
  destruct (apply_calibration 700 demo_blob demo_conn) as [[r d']|] eqn:Ea; [|discriminate]. injection Ha as ->.
  destruct (calibration_saved_and_restored 5 demo_conn demo_blob c' Er) as [Hf Hall].
  specialize (Hall 700%nat demo_conn).
  assert (Hp : is_plausible_calibration demo_blob = true) by (vm_compute; reflexivity).
  rewrite Hp in Hall. destruct (Hall _ _ Ea) as (ok & evs & Hran & _).
  exists c', d', ok, evs. split; [reflexivity|]. split; [reflexivity|exact Hran].
Defined.
