(* ===== verification/IpcCodec.v ===== *)
(** * IpcCodec: message framing of the daemon's socket (crates/tobii-ipc/src/lib.rs, codec.rs)

    An 8-byte header (kind, flags, length, little-endian) and a payload. [decode]
    works on a stream: it takes one whole message off the front of a buffer, or
    nothing. [read_chunk] is the loop both ends run on what a socket read returns. *)
From stdpp Require Import strings.
From S2P Require Import Prelude Utf8.

(** ** lib.rs *)
Definition PROTO_VERSION : Z := 1.
Definition HEADER_LEN : Z := 8.
Definition MAX_PAYLOAD : Z := Z.shiftl 1 20.

Module kind.
Definition HELLO : Z := 0x0001.
Definition WELCOME : Z := 0x0002.
Definition STATUS : Z := 0x0010.
Definition NOTIFY : Z := 0x0011.
Definition POSE : Z := 0x0012.
Definition COMMAND : Z := 0x0020.
Definition CMD_REPLY : Z := 0x0021.
Definition LEASE : Z := 0x0030.
Definition LEASE_REPLY : Z := 0x0031.
Definition RECENTRE : Z := 0x0032.
Definition RECENTRE_REPLY : Z := 0x0033.
End kind.

Module subs.
Definition GAZE : Z := Z.shiftl 1 0.
Definition CAMERA : Z := Z.shiftl 1 1.
Definition POSE : Z := Z.shiftl 1 2.
End subs.

Inductive StatusCode := Connecting | Connected | Error | Leased | Idle.
Definition status_to_wire (c : StatusCode) : byte :=
  match c with Connecting => x00 | Connected => x01 | Error => x02 | Leased => x03 | Idle => x04 end.
Definition status_from_wire (b : byte) : StatusCode :=
  match u8 b with 0 => Connecting | 1 => Connected | 3 => Leased | 4 => Idle | _ => Error end.

Inductive LeaseAction := Acquire | Release.
Definition lease_to_wire (a : LeaseAction) : byte := match a with Acquire => x00 | Release => x01 end.
Definition lease_from_wire (b : byte) : LeaseAction := match u8 b with 0 => Acquire | _ => Release end.

(** ** codec.rs *)

(** Strings are the bytes of their UTF-8. *)
Inductive Msg :=
| Hello (version msubs : Z) (name : bytes)
| Welcome (version pid caps : Z)
| Status (code : StatusCode) (text : bytes)
| Notify (op : Z) (payload : bytes)
| Pose (frame : bytes)
| Lease (action : LeaseAction)
| LeaseReply (ok : bool) (text : bytes)
| Recentre
| RecentreReply (ok : bool) (text : bytes)
| Unknown (kind : Z) (payload : bytes).

Inductive Decoded :=
| Message (m : Msg) (used : Z)
| Incomplete.

Inductive CodecError :=
| PayloadTooLarge (n : Z)
| Malformed (what : string).

Definition u32_at (b : bytes) (off : Z) : Z := of_le (slice b off (off + 4)).
Definition u16_at (b : bytes) (off : Z) : Z := of_le (slice b off (off + 2)).

Definition framed (k : Z) (payload : bytes) : bytes :=
  to_le 2 k ++ to_le 2 0 ++ to_le 4 (zlen payload) ++ payload.

Definition tagged (tag : byte) (text : bytes) : bytes := [tag] ++ text.

(** [u8::from(ok)] *)
Definition flag_byte (ok : bool) : byte := if ok then x01 else x00.

Definition encode (msg : Msg) : bytes :=
  match msg with
  | Hello version subs name =>
      framed kind.HELLO (to_le 4 version ++ to_le 4 subs ++ to_le 2 (zlen name) ++ name)
  | Welcome version pid caps => framed kind.WELCOME (to_le 4 version ++ to_le 4 pid ++ to_le 4 caps)
  | Status code text => framed kind.STATUS (tagged (status_to_wire code) text)
  | Notify op payload => framed kind.NOTIFY (to_le 4 op ++ payload)
  | Pose frame => framed kind.POSE frame
  | Lease action => framed kind.LEASE [lease_to_wire action]
  | LeaseReply ok text => framed kind.LEASE_REPLY (tagged (flag_byte ok) text)
  | Recentre => framed kind.RECENTRE []
  | RecentreReply ok text => framed kind.RECENTRE_REPLY (tagged (flag_byte ok) text)
  | Unknown k payload => framed k payload
  end.

(** [String::from_utf8] *)
Definition text (b : bytes) (what : string) : result CodecError bytes :=
  if utf8_valid b then Ok b else Err (Malformed what).

(** The match on the kind. *)
Definition decode_payload (k : Z) (p : bytes) : result CodecError Msg :=
  if k =? kind.HELLO then
    if zlen p <? 10 then Err (Malformed "hello header")
    else
      let name_len := u16_at p 8 in
      if zlen p <? 10 + name_len then Err (Malformed "hello name")
      else name ← text (slice p 10 (10 + name_len)) "hello name";
           Ok (Hello (u32_at p 0) (u32_at p 4) name)
  else if k =? kind.WELCOME then
    if zlen p <? 12 then Err (Malformed "welcome")
    else Ok (Welcome (u32_at p 0) (u32_at p 4) (u32_at p 8))
  else if k =? kind.STATUS then
    match p with
    | [] => Err (Malformed "status code")
    | b :: rest => t ← text rest "status text"; Ok (Status (status_from_wire b) t)
    end
  else if k =? kind.NOTIFY then
    if zlen p <? 4 then Err (Malformed "notify op")
    else Ok (Notify (u32_at p 0) (from p 4))
  else if k =? kind.POSE then Ok (Pose p)
  else if k =? kind.LEASE then
    match p with
    | [] => Err (Malformed "lease action")
    | b :: _ => Ok (Lease (lease_from_wire b))
    end
  else if k =? kind.LEASE_REPLY then
    match p with
    | [] => Err (Malformed "lease reply")
    | b :: rest => t ← text rest "lease reply text"; Ok (LeaseReply (negb (u8 b =? 0)) t)
    end
  else if k =? kind.RECENTRE then Ok Recentre
  else if k =? kind.RECENTRE_REPLY then
    match p with
    | [] => Err (Malformed "recentre reply")
    | b :: rest => t ← text rest "recentre reply text"; Ok (RecentreReply (negb (u8 b =? 0)) t)
    end
  else Ok (Unknown k p).

Definition decode (buf : bytes) : result CodecError Decoded :=
  if zlen buf <? HEADER_LEN then Ok Incomplete
  else
    let k := u16_at buf 0 in
    let len := u32_at buf 4 in
    if MAX_PAYLOAD <? len then Err (PayloadTooLarge len)
    else
      let total := HEADER_LEN + len in
      if zlen buf <? total then Ok Incomplete
      else
        let p := slice buf HEADER_LEN total in
        msg ← decode_payload k p;
        Ok (Message msg total).

(** ** The reading loop (server.rs [spawn_reader], client.rs [connect_at]) *)
Record SocketReader := { rbuf : bytes; ralive : bool }.
Definition new_reader : SocketReader := {| rbuf := []; ralive := true |}.

(** The inner loop: whole messages off the front; a bad one ends the connection. Each
    message is at least a header, so [length buf] turns are enough. *)
Fixpoint take_messages (fuel : nat) (buf : bytes) : list Msg * SocketReader :=
  match fuel with
  | O => ([], {| rbuf := buf; ralive := true |})
  | S fuel =>
      match decode buf with
      | Ok (Message m used) => let '(ms, r) := take_messages fuel (from buf used) in (m :: ms, r)
      | Ok Incomplete => ([], {| rbuf := buf; ralive := true |})
      | Err _ => ([], {| rbuf := buf; ralive := false |})
      end
  end.

(** What one [read] of [chunk] delivers; an empty read is the end of the stream. *)
Definition read_chunk (chunk : bytes) (r : SocketReader) : list Msg * SocketReader :=
  if negb (ralive r) then ([], r)
  else match chunk with
       | [] => ([], {| rbuf := rbuf r; ralive := false |})
       | _ => let buf := rbuf r ++ chunk in take_messages (S (length buf)) buf
       end.

Fixpoint read_chunks (cs : list bytes) (r : SocketReader) : list Msg * SocketReader :=
  match cs with
  | [] => ([], r)
  | c :: cs =>
      let '(ms, r) := read_chunk c r in
      let '(ms', r) := read_chunks cs r in (ms ++ ms', r)
  end.

(** ** Frames *)
Lemma zlen_framed k p : zlen (framed k p) = 8 + zlen p.
Proof. unfold framed. len. Qed.
Lemma decode_header k p rest : is_u 16 k -> zlen p <= MAX_PAYLOAD ->
  u16_at (framed k p ++ rest) 0 = k /\ u32_at (framed k p ++ rest) 4 = zlen p.
Proof.
  intros Hk Hp. pose proof (zlen_nonneg p). unfold MAX_PAYLOAD in Hp. change (Z.shiftl 1 20) with 1048576 in Hp.
  unfold u16_at, u32_at, framed. rewrite <- !app_assoc. split.
  - rewrite slice_app_l, slice_all by (rewrite ?zlen_to_le; lia). by apply of_le2_inv.
  - rewrite (app_assoc (to_le 2 k)), slice_mid by len. apply of_le4_inv. unfold is_u. lia.
Qed.

Lemma decode_framed k p rest : is_u 16 k -> zlen p <= MAX_PAYLOAD ->
  decode (framed k p ++ rest) = (m ← decode_payload k p; Ok (Message m (HEADER_LEN + zlen p))).
Proof.
  intros Hk Hp. destruct (decode_header k p rest Hk Hp) as [H1 H2].
  pose proof (zlen_nonneg p). pose proof (zlen_nonneg rest). unfold decode. rewrite H1, H2, zlen_app, zlen_framed.
  unfold HEADER_LEN. rewrite !(proj2 (Z.ltb_ge _ _)) by lia.
  assert (Hs : slice (framed k p ++ rest) 8 (8 + zlen p) = p).
  { unfold framed. rewrite <- !app_assoc.
    rewrite (app_assoc (to_le 2 k)), (app_assoc (_ ++ _)). apply slice_mid; len. }
  by rewrite Hs.
Qed.

(** A buffer that breaks off inside a frame is incomplete, wherever it does. *)
Lemma decode_framed_cut k p n : is_u 16 k -> zlen p <= MAX_PAYLOAD -> (n < length (framed k p))%nat ->
  decode (take n (framed k p)) = Ok Incomplete.
Proof.
  intros Hk Hp Hn. assert (Hl : Z.of_nat n < 8 + zlen p) by (rewrite <- (zlen_framed k p); unfold zlen; lia).
  assert (Ht : zlen (take n (framed k p)) = Z.of_nat n) by (unfold zlen; rewrite length_take; lia).
  unfold decode, HEADER_LEN. rewrite Ht. destruct (Z.ltb_spec (Z.of_nat n) 8) as [|H8]; [done|].
  pose proof (decode_header k p [] Hk Hp) as [_ H2].
  assert (Hu : u32_at (take n (framed k p)) 4 = zlen p).
  { rewrite <- H2, app_nil_r. unfold u32_at, slice. rewrite !skipn_firstn_comm, take_take. do 2 f_equal. lia. }
  rewrite Hu, (proj2 (Z.ltb_ge MAX_PAYLOAD _)), (proj2 (Z.ltb_lt _ (8 + zlen p))) by lia. done.
Qed.

(** ** What can be sent *)
Definition is_text (t : bytes) : Prop := utf8_valid t = true.
Definition known_kinds : list Z :=
  [kind.HELLO; kind.WELCOME; kind.STATUS; kind.NOTIFY; kind.POSE; kind.LEASE; kind.LEASE_REPLY;
   kind.RECENTRE; kind.RECENTRE_REPLY].
Definition msg_ok (m : Msg) : Prop :=
  match m with
  | Hello v s n => is_u 32 v /\ is_u 32 s /\ is_text n /\ zlen n < 2 ^ 16
  | Welcome v p c => is_u 32 v /\ is_u 32 p /\ is_u 32 c
  | Status _ t | LeaseReply _ t | RecentreReply _ t => is_text t /\ 1 + zlen t <= MAX_PAYLOAD
  | Notify op p => is_u 32 op /\ 4 + zlen p <= MAX_PAYLOAD
  | Pose f => zlen f <= MAX_PAYLOAD
  | Lease _ | Recentre => True
  | Unknown k p => is_u 16 k /\ ~ In k known_kinds /\ zlen p <= MAX_PAYLOAD
  end.

(** The kind and payload of a message. *)
Definition msg_kind (m : Msg) : Z :=
  match m with
  | Hello _ _ _ => kind.HELLO | Welcome _ _ _ => kind.WELCOME | Status _ _ => kind.STATUS
  | Notify _ _ => kind.NOTIFY | Pose _ => kind.POSE | Lease _ => kind.LEASE
  | LeaseReply _ _ => kind.LEASE_REPLY | Recentre => kind.RECENTRE
  | RecentreReply _ _ => kind.RECENTRE_REPLY | Unknown k _ => k
  end.
Definition msg_payload (m : Msg) : bytes :=
  match m with
  | Hello v s n => to_le 4 v ++ to_le 4 s ++ to_le 2 (zlen n) ++ n
  | Welcome v p c => to_le 4 v ++ to_le 4 p ++ to_le 4 c
  | Status c t => status_to_wire c :: t
  | Notify op p => to_le 4 op ++ p
  | Pose f => f
  | Lease a => [lease_to_wire a]
  | LeaseReply ok t | RecentreReply ok t => flag_byte ok :: t
  | Recentre => []
  | Unknown _ p => p
  end.
Lemma encode_framed m : encode m = framed (msg_kind m) (msg_payload m).
Proof. by destruct m. Qed.

Lemma text_ok t what : is_text t -> text t what = Ok t.
Proof. intros H. unfold text. by rewrite H. Qed.
Lemma flag_byte_spec ok : negb (u8 (flag_byte ok) =? 0) = ok.
Proof. by destruct ok. Qed.

Lemma u32_at_mid pre v post n : is_u 32 v -> n = zlen pre -> u32_at (pre ++ to_le 4 v ++ post) n = v.
Proof. intros Hv ->. unfold u32_at. rewrite slice_mid by len. by apply of_le4_inv. Qed.
Lemma u32_at_head v post : is_u 32 v -> u32_at (to_le 4 v ++ post) 0 = v.
Proof. intros. by apply (u32_at_mid []). Qed.
Lemma u16_at_mid pre v post n : is_u 16 v -> n = zlen pre -> u16_at (pre ++ to_le 2 v ++ post) n = v.
Proof. intros Hv ->. unfold u16_at. rewrite slice_mid by len. by apply of_le2_inv. Qed.

Lemma decode_hello v s n : msg_ok (Hello v s n) ->
  decode_payload kind.HELLO (msg_payload (Hello v s n)) = Ok (Hello v s n).
Proof.
  intros (Hv & Hs & Ht & Hn). pose proof (zlen_nonneg n). unfold decode_payload. cbn [Z.eqb kind.HELLO Pos.eqb msg_payload].
  assert (Hl : zlen (to_le 4 v ++ to_le 4 s ++ to_le 2 (zlen n) ++ n) = 10 + zlen n) by len.
  rewrite Hl, (proj2 (Z.ltb_ge _ 10)) by lia.
  assert (H8 : u16_at (to_le 4 v ++ to_le 4 s ++ to_le 2 (zlen n) ++ n) 8 = zlen n).
  { rewrite app_assoc. apply u16_at_mid; [unfold is_u; lia|len]. }
  rewrite H8, (proj2 (Z.ltb_ge _ _)) by lia.
  assert (H10 : slice (to_le 4 v ++ to_le 4 s ++ to_le 2 (zlen n) ++ n) 10 (10 + zlen n) = n).
  { rewrite !app_assoc, slice_app_r by len. autorewrite with zlen. apply slice_all. lia. }
  rewrite H10, text_ok by done. cbn [mbind result_bind].
  rewrite (u32_at_mid (to_le 4 v) s _ 4), (u32_at_head v) by (done || by len). done.
Qed.
Lemma decode_welcome v p c : msg_ok (Welcome v p c) ->
  decode_payload kind.WELCOME (msg_payload (Welcome v p c)) = Ok (Welcome v p c).
Proof.
  intros (Hv & Hp & Hc). unfold decode_payload. cbn [Z.eqb kind.WELCOME kind.HELLO Pos.eqb msg_payload].
  rewrite (proj2 (Z.ltb_ge _ 12)) by len.
  rewrite (u32_at_mid (to_le 4 v) p _ 4), (u32_at_head v) by (done || by len).
  rewrite app_assoc, <- (app_nil_r (to_le 4 c)), u32_at_mid by (done || by len). done.
Qed.
Lemma decode_notify op p : msg_ok (Notify op p) ->
  decode_payload kind.NOTIFY (msg_payload (Notify op p)) = Ok (Notify op p).
Proof.
  intros (Hop & Hp). pose proof (zlen_nonneg p).
  unfold decode_payload. cbn [Z.eqb kind.WELCOME kind.HELLO kind.STATUS kind.NOTIFY Pos.eqb msg_payload].
  rewrite (proj2 (Z.ltb_ge _ 4)), (u32_at_head op) by (done || by len).
  by rewrite from_app by len.
Qed.
Lemma decode_unknown k p : msg_ok (Unknown k p) -> decode_payload k p = Ok (Unknown k p).
Proof.
  intros (_ & Hk & _). unfold decode_payload. simpl in Hk.
  repeat (rewrite (proj2 (Z.eqb_neq _ _)); [|intros ->; tauto]). done.
Qed.

Lemma decode_payload_ok m : msg_ok m -> decode_payload (msg_kind m) (msg_payload m) = Ok m.
Proof.
  destruct m; intros Hm; auto using decode_hello, decode_welcome, decode_notify, decode_unknown;
    try (match type of Hm with msg_ok (Lease _) => idtac | msg_ok Recentre => idtac | msg_ok (Pose _) => idtac
         | _ => destruct Hm as [Ht _] end); unfold decode_payload;
    cbn [msg_kind msg_payload Z.eqb Pos.eqb kind.WELCOME kind.HELLO kind.STATUS kind.NOTIFY kind.POSE
         kind.LEASE kind.LEASE_REPLY kind.RECENTRE kind.RECENTRE_REPLY]; rewrite ?text_ok by done;
    cbn [mbind result_bind]; rewrite ?flag_byte_spec; try done.
  - by destruct code.
  - by destruct action.
Qed.
Lemma msg_ok_header m : msg_ok m -> is_u 16 (msg_kind m) /\ zlen (msg_payload m) <= MAX_PAYLOAD.
Proof.
  unfold MAX_PAYLOAD, is_u. change (Z.shiftl 1 20) with 1048576. change (2 ^ 16) with 65536.
  destruct m; simpl; unfold MAX_PAYLOAD, is_u; change (Z.shiftl 1 20) with 1048576; intros Hm;
    destruct_and?; (split; [try (vm_compute; split; congruence); lia|len]).
Qed.

Lemma ipc_roundtrip_encode m : msg_ok m ->
  (forall rest, decode (encode m ++ rest) = Ok (Message m (zlen (encode m))))
  /\ forall n, (n < length (encode m))%nat -> decode (take n (encode m)) = Ok Incomplete.
Proof.
  intros Hm. destruct (msg_ok_header m Hm) as [Hk Hp]. rewrite encode_framed. split.
  - intros rest. rewrite decode_framed, decode_payload_ok, zlen_framed by done. done.
  - intros n Hn. by apply decode_framed_cut.
Qed.
(** Messages survive the socket. Every message the programs can send (32-bit
    fields, well-formed text, a payload within the cap, a kind not yet assigned for
    [Unknown]) is decoded back to itself from the front of any longer buffer, using
    exactly its own bytes; and from any buffer that ends inside it the decoder
    reports [Incomplete] and takes nothing. *)
Theorem ipc_roundtrip m : msg_ok m ->
  (forall rest, decode (encode m ++ rest) = Ok (Message m (zlen (encode m))))
  /\ forall n, (n < length (encode m))%nat -> decode (take n (encode m)) = Ok Incomplete.
Proof. apply ipc_roundtrip_encode. Qed.
Definition sample_hello : Msg := Hello PROTO_VERSION (Z.lor subs.GAZE subs.POSE) [x63; x6c; x69].
Lemma ipc_roundtrip_witness :
  decode (encode sample_hello ++ [x01]) = Ok (Message sample_hello 21)
  /\ decode (take 20 (encode sample_hello)) = Ok Incomplete.
Proof.
  assert (Hm : msg_ok sample_hello) by (repeat split; vm_compute; congruence).
  split; [apply (ipc_roundtrip sample_hello Hm)|apply (ipc_roundtrip sample_hello Hm); vm_compute; lia].
Defined.

(** ** The stream *)

(** A result is decided by the message alone: more bytes change nothing. *)
Lemma decode_used buf m n : decode buf = Ok (Message m n) -> HEADER_LEN <= n <= zlen buf.
Proof.
  unfold decode. destruct (Z.ltb_spec (zlen buf) HEADER_LEN); [done|].
  destruct (MAX_PAYLOAD <? _); [done|]. destruct (Z.ltb_spec (zlen buf) (HEADER_LEN + u32_at buf 4)); [done|].
  destruct (decode_payload _ _); [|done]. intros [= _ <-].
  pose proof (of_le_range (slice buf 4 (4 + 4))) as [Hr _]. unfold u32_at in *. lia.
Qed.
Lemma decode_app buf x : decode buf <> Ok Incomplete -> decode (buf ++ x) = decode buf.
Proof.
  unfold decode. pose proof (zlen_nonneg x). unfold HEADER_LEN.
  destruct (Z.ltb_spec (zlen buf) 8) as [|H8]; [done|].
  rewrite zlen_app, (proj2 (Z.ltb_ge _ 8)) by lia.
  assert (Hk : u16_at (buf ++ x) 0 = u16_at buf 0) by (unfold u16_at; f_equal; apply slice_app_l; lia).
  assert (Hl : u32_at (buf ++ x) 4 = u32_at buf 4) by (unfold u32_at; f_equal; apply slice_app_l; lia).
  rewrite Hk, Hl. destruct (MAX_PAYLOAD <? _); [done|].
  pose proof (of_le_range (slice buf 4 (4 + 4))) as [Hr _]. fold (u32_at buf 4) in Hr.
  destruct (Z.ltb_spec (zlen buf) (8 + u32_at buf 4)) as [|Ht]; [done|].
  rewrite (proj2 (Z.ltb_ge _ (8 + _))) by lia. by rewrite slice_app_l by lia.
Qed.

(** [take_messages] with the fuel the reader gives it. *)
Definition messages (buf : bytes) : list Msg * SocketReader := take_messages (S (length buf)) buf.

Lemma take_messages_fuel n m buf : (length buf < n)%nat -> (length buf < m)%nat ->
  take_messages n buf = take_messages m buf.
Proof.
  revert m buf. induction n as [|n IH]; intros m buf Hn Hm; [lia|]. destruct m as [|m]; [lia|].
  cbn [take_messages]. destruct (decode buf) as [[k used|]|] eqn:Ed; [|done|done].
  apply decode_used in Ed. unfold HEADER_LEN, zlen in Ed.
  assert (Hf : (length (from buf used) < length buf)%nat) by (unfold from; rewrite length_drop; lia).
  rewrite (IH m (from buf used)) by lia. done.
Qed.
Lemma messages_unfold buf :
  messages buf = match decode buf with
                 | Ok (Message m used) => let '(ms, r) := messages (from buf used) in (m :: ms, r)
                 | Ok Incomplete => ([], {| rbuf := buf; ralive := true |})
                 | Err _ => ([], {| rbuf := buf; ralive := false |})
                 end.
Proof.
  unfold messages. cbn [take_messages]. destruct (decode buf) as [[k used|]|] eqn:Ed; [|done|done].
  apply decode_used in Ed. unfold HEADER_LEN, zlen in Ed.
  rewrite (take_messages_fuel (length buf) (S (length (from buf used)))); [done| |lia].
  unfold from. rewrite length_drop. lia.
Qed.

Lemma messages_ind (P : bytes -> Prop) :
  (forall buf, (forall m used, decode buf = Ok (Message m used) -> P (from buf used)) -> P buf) -> forall buf, P buf.
Proof.
  intros Hstep buf. induction buf as [buf IH] using (induction_ltof1 _ (@length byte)). unfold ltof in IH.
  apply Hstep. intros m used Hd%decode_used. apply IH. unfold HEADER_LEN, zlen, from in *. rewrite length_drop. lia.
Qed.

Lemma messages_app a x :
  messages (a ++ x)
  = let '(ms, r) := messages a in
    if ralive r then let '(ms', r') := messages (rbuf r ++ x) in (ms ++ ms', r')
    else (ms, {| rbuf := rbuf r ++ x; ralive := false |}).
Proof.
  induction a as [a IH] using messages_ind. rewrite (messages_unfold a).
  destruct (decode a) as [[m used|]|e] eqn:Ed.
  - pose proof (decode_used _ _ _ Ed) as Hu. rewrite messages_unfold, decode_app, Ed by congruence.
    assert (Hf : from (a ++ x) used = from a used ++ x)
      by (unfold from, zlen, HEADER_LEN in *; rewrite drop_app_le by lia; done).
    rewrite Hf, (IH _ _ eq_refl). destruct (messages (from a used)) as [ms [b []]]; simpl; [|done].
    by destruct (messages (b ++ x)).
  - simpl. by destruct (messages (a ++ x)).
  - rewrite messages_unfold, decode_app, Ed by congruence. done.
Qed.

Lemma messages_rest a : let '(_, r) := messages a in ralive r = true -> messages (rbuf r) = ([], r).
Proof.
  induction a as [a IH] using messages_ind. rewrite messages_unfold.
  destruct (decode a) as [[m used|]|e] eqn:Ed.
  - specialize (IH _ _ eq_refl). by destruct (messages (from a used)).
  - intros _. simpl. by rewrite messages_unfold, Ed.
  - done.
Qed.

Lemma read_chunks_dead cs r : ralive r = false -> read_chunks cs r = ([], r).
Proof. intros Hr. induction cs as [|c cs IH]; [done|]. cbn [read_chunks]. unfold read_chunk. rewrite Hr. simpl. by rewrite IH. Qed.

Lemma read_chunks_all cs r :
  Forall (fun c => c <> []) cs -> ralive r = true -> messages (rbuf r) = ([], r) ->
  (read_chunks cs r).1 = (messages (rbuf r ++ concat cs)).1
  /\ ralive (read_chunks cs r).2 = ralive (messages (rbuf r ++ concat cs)).2
  /\ (ralive (read_chunks cs r).2 = true -> read_chunks cs r = messages (rbuf r ++ concat cs)).
Proof.
  revert r. induction cs as [|c cs IH]; intros r Hne Hr Hm; cbn [read_chunks concat].
  - rewrite app_nil_r, Hm. done.
  - apply Forall_cons in Hne as [Hc Hne].
    assert (Hrc : read_chunk c r = messages (rbuf r ++ c)) by (unfold read_chunk; rewrite Hr; by destruct c).
    rewrite Hrc, app_assoc, (messages_app (rbuf r ++ c)). pose proof (messages_rest (rbuf r ++ c)) as Hrest.
    destruct (messages (rbuf r ++ c)) as [ms r1]. destruct (ralive r1) eqn:Er1.
    + destruct (IH r1 Hne Er1 (Hrest eq_refl)) as (H1 & H2 & H3).
      destruct (read_chunks cs r1) as [ms2 r2]. destruct (messages (rbuf r1 ++ concat cs)) as [ms3 r3].
      simpl in *. subst ms3. split_and!; [done|done|]. intros Ha. specialize (H3 Ha). congruence.
    + rewrite read_chunks_dead by done. simpl. rewrite app_nil_r. split_and!; [done|done|congruence].
Qed.

Lemma messages_encoded ms rest : Forall msg_ok ms ->
  messages (concat (encode <$> ms) ++ rest) = let '(ms', r) := messages rest in (ms ++ ms', r).
Proof.
  induction 1 as [|m ms Hm _ IH]; [cbn [fmap list_fmap concat app]; by destruct (messages rest)|].
  rewrite fmap_cons, concat_cons, <- app_assoc, messages_unfold, (proj1 (ipc_roundtrip_encode m Hm)).
  rewrite from_app by done. rewrite IH. by destruct (messages rest).
Qed.

(** C26: The socket's chunking does not matter, and one bad message costs only what
    follows it. Let a peer send messages and then anything, arriving in any non-empty
    reads whatsoever. The reader delivers exactly the messages sent, in order; if
    what follows is the beginning of another message it is kept and the connection
    stays up; if it cannot be a message (an oversized length, a malformed payload)
    the connection is marked dead and nothing more is delivered, however much
    arrives. *)
Theorem ipc_stream_any_chunking cs ms rest :
  Forall (fun c => c <> []) cs -> Forall msg_ok ms ->
  concat cs = concat (encode <$> ms) ++ rest ->
  match decode rest with
  | Ok Incomplete => read_chunks cs new_reader = (ms, {| rbuf := rest; ralive := true |})
  | Err _ => (read_chunks cs new_reader).1 = ms /\ ralive (read_chunks cs new_reader).2 = false
  | Ok (Message _ _) => True
  end.
Proof.
  intros Hne Hms Hc. destruct (read_chunks_all cs new_reader Hne eq_refl eq_refl) as (H1 & H2 & H3).
  cbn [rbuf new_reader app] in *. rewrite Hc, messages_encoded, messages_unfold in * by done.
  destruct (decode rest) as [[m used|]|e] eqn:Ed; [done|..]; simpl in *; rewrite app_nil_r in *; auto.
Qed.
Lemma ipc_stream_any_chunking_witness :
  read_chunks [take 9 (encode sample_hello); drop 9 (encode sample_hello) ++ encode Recentre ++ [x11]] new_reader
  = ([sample_hello; Recentre], {| rbuf := [x11]; ralive := true |}).
Proof.
  refine (ipc_stream_any_chunking [take 9 (encode sample_hello); drop 9 (encode sample_hello) ++ encode Recentre ++ [x11]]
            [sample_hello; Recentre] [x11] _ _ _).
  - repeat constructor; discriminate.
  - repeat constructor; vm_compute; congruence.
  - reflexivity.
Defined.

(** Unknown kinds are skipped, and forwarded unchanged only if their reserved
    field is zero. Any frame of an unassigned kind within the cap decodes to
    [Unknown] with its kind and payload, whatever its flags; but the flags are
    dropped, so re-encoding gives the bytes back exactly when they were zero. *)
Theorem unknown_kind_reencoded k flags p :
  is_u 16 k -> is_u 16 flags -> ~ In k known_kinds -> zlen p <= MAX_PAYLOAD ->
  let frame := to_le 2 k ++ to_le 2 flags ++ to_le 4 (zlen p) ++ p in
  decode frame = Ok (Message (Unknown k p) (zlen frame))
  /\ (encode (Unknown k p) = frame <-> flags = 0).
Proof.
  intros Hk Hf Hu Hp frame. split.
  - assert (Hl : zlen frame = zlen (framed k p)) by (unfold frame, framed; len).
    assert (Hd : decode frame = decode (framed k p)).
    { unfold decode. rewrite Hl.
      assert (E1 : u16_at frame 0 = u16_at (framed k p) 0).
      { unfold u16_at, frame, framed. by rewrite !slice_app_l by len. }
      assert (E2 : u32_at frame 4 = u32_at (framed k p) 4).
      { unfold u32_at, frame, framed. rewrite (app_assoc (to_le 2 k)), (app_assoc (to_le 2 k) (to_le 2 0)).
        rewrite !slice_mid by len. done. }
      assert (E3 : forall t, 8 <= t -> slice frame 8 t = slice (framed k p) 8 t).
      { intros t Ht. unfold frame, framed. rewrite !app_assoc, !slice_app_r by len.
        autorewrite with zlen. done. }
      pose proof (of_le_range (slice (framed k p) 4 (4 + 4))) as [Hr _]. fold (u32_at (framed k p) 4) in Hr.
      rewrite E1, E2. unfold HEADER_LEN. rewrite E3 by lia. done. }
    rewrite Hd, <- (app_nil_r (framed k p)), decode_framed, decode_unknown by done.
    rewrite Hl, zlen_framed. done.
  - cbn [encode]. unfold framed, frame. split; [|by intros ->].
    intros E. apply (f_equal (fun l => slice l 2 4)) in E. rewrite !slice_mid in E by len.
    apply (f_equal of_le) in E. by rewrite !of_le2_inv in E.
Qed.
Lemma unknown_kind_reencoded_witness :
  decode ([x99; x00; x01; x00] ++ to_le 4 1 ++ [xaa]) = Ok (Message (Unknown 0x99 [xaa]) 9)
  /\ encode (Unknown 0x99 [xaa]) <> [x99; x00; x01; x00] ++ to_le 4 1 ++ [xaa].
Proof.
  destruct (unknown_kind_reencoded 0x99 1 [xaa]) as [H1 H2].
  - vm_compute. split; congruence.
  - vm_compute. split; congruence.
  - simpl. intuition discriminate.
  - vm_compute. congruence.
  - split; [exact H1|]. intros E. apply H2 in E. discriminate.
Defined.
