(* ===== verification/IpcServer.v ===== *)
(** * IpcServer: the daemon's side of the socket (crates/tobii-ipc/src/server.rs)

    The server's threads are modelled as steps on a shared state: the accept thread
    (in its two parts, with the reader already running between them), a reader and a
    writer per client, and the daemon's own calls. A run is any sequence of steps.
    [offered], [wire] and [lost] are ghosts: what publishing addressed to each client,
    what its writer put on the socket, and what went down with that writer. *)
From S2P Require Import Prelude IpcCodec.

(** ** Clients *)
Definition QUEUE_DEPTH : Z := 64.
Definition u64_max : Z := 2 ^ 64 - 1.

Record Incoming := { ifrom : Z; imsg : Msg }.

(** The bounded channel is its contents and whether its receiver (the writer thread)
    is there; [in_hand] is the message that thread has received and is still writing. *)
Record Client := {
  id : Z;
  name : bytes;
  csubs : Z;
  tx : list bytes;
  in_hand : option bytes;
  tx_open : bool;
  alive : bool;
  dropped : Z;
}.

Inductive try_send_result := Sent (tx : list bytes) | Full | Disconnected.
(** [SyncSender::try_send] *)
Definition try_send (c : Client) (b : bytes) : try_send_result :=
  if negb (tx_open c) then Disconnected
  else if QUEUE_DEPTH <=? zlen (tx c) then Full
  else Sent (tx c ++ [b]).

Definition push (c : Client) (b : bytes) : Client :=
  match try_send c b with
  | Sent q => {c with tx := q}
  | Full => {c with dropped := Z.min (dropped c + 1) u64_max}
  | Disconnected => {c with alive := false}
  end.

(** ** The server *)

(** [accepting] is the client the accept thread has started threads for and not yet
    registered. *)
Record Server := {
  clients : list Client;
  incoming : list Incoming;
  next_id : Z;
  accepting : option Client;
}.
Definition server0 : Server := {| clients := []; incoming := []; next_id := 1; accepting := None |}.

Definition new_client (i : Z) : Client :=
  {| id := i; name := []; csubs := 0; tx := []; in_hand := None; tx_open := true; alive := true; dropped := 0 |}.

(** [guard.iter_mut().find(|c| c.id == id)] and what is done to it. *)
Fixpoint with_client (i : Z) (f : Client -> Client) (cs : list Client) : list Client :=
  match cs with
  | [] => []
  | c :: cs => if id c =? i then f c :: cs else c :: with_client i f cs
  end.

Definition reap (cs : list Client) : list Client := List.filter alive cs.

(** The loop of [poll] over the messages waiting. *)
Definition note_hello (cs : list Client) (m : Incoming) : list Client :=
  match imsg m with
  | Hello _ s n => with_client (ifrom m) (fun c => {c with csubs := s; name := n}) cs
  | _ => cs
  end.
Definition poll (s : Server) : list Incoming * Server :=
  (incoming s, {s with clients := reap (foldl note_hello (clients s) (incoming s)); incoming := [] }).

Definition send_to (i : Z) (msg : Msg) (s : Server) : Server :=
  let b := encode msg in {s with clients := with_client i (fun c => push c b) (clients s)}.

Definition wants (mask : Z) (c : Client) : bool := (mask =? 0) || negb (Z.land (csubs c) mask =? 0).
Definition broadcast (mask : Z) (msg : Msg) (s : Server) : Server :=
  let b := encode msg in
  {s with clients := (fun c => if wants mask c then push c b else c) <$> clients s}.

Definition subscriber_count (mask : Z) (s : Server) : nat :=
  length (List.filter (fun c => negb (Z.land (csubs c) mask =? 0)) (clients s)).

Record ClientInfo := { ci_id : Z; ci_name : bytes; ci_subs : Z; ci_dropped : Z }.
Definition client_infos (s : Server) : list ClientInfo :=
  (fun c => {| ci_id := id c; ci_name := name c; ci_subs := csubs c; ci_dropped := dropped c |}) <$> clients s.

(** The two parts of the accept thread's turn. *)
Definition accept_spawn (s : Server) : Server :=
  match accepting s with
  | None => {s with accepting := Some (new_client (next_id s)); next_id := next_id s + 1}
  | Some _ => s
  end.
(** The stream could not be cloned: its id is used up. *)
Definition accept_failed (s : Server) : Server :=
  match accepting s with None => {s with next_id := next_id s + 1} | Some _ => s end.
Definition accept_register (s : Server) : Server :=
  match accepting s with
  | Some c => {s with clients := clients s ++ [c]; accepting := None}
  | None => s
  end.

(** A change to the shared parts of a client, registered or not. *)
Definition touch (i : Z) (f : Client -> Client) (s : Server) : Server :=
  {s with clients := with_client i f (clients s);
     accepting := (fun c => if id c =? i then f c else c) <$> accepting s}.

Definition reader_deliver (i : Z) (m : Msg) (s : Server) : Server :=
  {s with incoming := incoming s ++ [{| ifrom := i; imsg := m |}] }.
Definition reader_exit (i : Z) (s : Server) : Server := touch i (fun c => {c with alive := false}) s.

(** The writer receives a message, or has written it; or the write failed and it gives up,
    marking the client dead, and then its end of the channel goes, with what is queued. *)
Definition take_next (c : Client) : Client :=
  match in_hand c, tx c with
  | None, b :: q => {c with tx := q; in_hand := Some b}
  | _, _ => c
  end.
Definition writer_takes (i : Z) (s : Server) : Server := touch i take_next s.
Definition writer_wrote (i : Z) (s : Server) : Server := touch i (fun c => {c with in_hand := None}) s.
Definition writer_fails (i : Z) (s : Server) : Server :=
  touch i (fun c => {c with in_hand := None; alive := false}) s.
Definition writer_exit (i : Z) (s : Server) : Server :=
  touch i (fun c => {c with tx := []; in_hand := None; tx_open := false; alive := false}) s.

(** ** Runs *)
Inductive step :=
| AcceptSpawn
| AcceptRegister
| AcceptFailed
| ReaderDeliver (i : Z) (m : Msg)
| ReaderExit (i : Z)
| WriterTakes (i : Z)
| WriterWrote (i : Z)
| WriterFails (i : Z)
| WriterExit (i : Z)
| DoPoll
| SendTo (i : Z) (m : Msg)
| Broadcast (mask : Z) (m : Msg).

Record World := {
  srv : Server;
  offered : list (Z * bytes);
  wire : list (Z * bytes);
  lost : list (Z * bytes);
}.
Definition world0 : World := {| srv := server0; offered := []; wire := []; lost := [] |}.

Definition everyone (s : Server) : list Client := clients s ++ option_list (accepting s).
Definition pending (c : Client) : list bytes := option_list (in_hand c) ++ tx c.
(** What [f] sees at client [i]. *)
Definition kept_by (f : Client -> list bytes) (i : Z) (s : Server) : list (Z * bytes) :=
  match List.find (fun c => id c =? i) (everyone s) with
  | Some c => pair i <$> f c
  | None => []
  end.
Definition hand_of : Z -> Server -> list (Z * bytes) := kept_by (fun c => option_list (in_hand c)).
Definition refused (p : Client -> bool) (b : bytes) (s : Server) : list (Z * bytes) :=
  (fun c => (id c, b)) <$> List.filter (fun c => p c && negb (tx_open c)) (clients s).

Definition do_step (w : World) (e : step) : World :=
  let s := srv w in
  match e with
  | AcceptSpawn => {w with srv := accept_spawn s}
  | AcceptRegister => {w with srv := accept_register s}
  | AcceptFailed => {w with srv := accept_failed s}
  | ReaderDeliver i m => {w with srv := reader_deliver i m s}
  | ReaderExit i => {w with srv := reader_exit i s}
  | WriterTakes i => {w with srv := writer_takes i s}
  | WriterWrote i => {w with srv := writer_wrote i s; wire := wire w ++ hand_of i s}
  | WriterFails i => {w with srv := writer_fails i s; lost := lost w ++ hand_of i s}
  | WriterExit i => {w with srv := writer_exit i s; lost := lost w ++ kept_by pending i s}
  | DoPoll => {w with srv := (poll s).2}
  | SendTo i m =>
      {w with srv := send_to i m s;
         offered := offered w ++ (if existsb (fun c => id c =? i) (clients s) then [(i, encode m)] else []);
         lost := lost w ++ refused (fun c => id c =? i) (encode m) s}
  | Broadcast mask m =>
      {w with srv := broadcast mask m s;
         offered := offered w ++ ((fun c => (id c, encode m)) <$> List.filter (wants mask) (clients s));
         lost := lost w ++ refused (wants mask) (encode m) s}
  end.
Definition run_steps (es : list step) : World := foldl do_step world0 es.

(** ** The server's invariant *)

(** What was addressed to client [i]. *)
Definition addressed (i : Z) (l : list (Z * bytes)) : list bytes :=
  omap (fun p => if p.1 =? i then Some p.2 else None) l.

(** A client's queue is bounded; what was written, what is being written and what is
    queued are, in order, among what was offered; and the rest is counted, but for what
    was lost with its writer, and nothing is lost of a client not yet marked dead. *)
Definition client_ok (off wr lo : list (Z * bytes)) (c : Client) : Prop :=
  zlen (tx c) <= QUEUE_DEPTH
  /\ (tx_open c = false -> pending c = [] /\ alive c = false)
  /\ (addressed (id c) wr ++ pending c) `sublist_of` addressed (id c) off
  /\ dropped c = Z.min u64_max
       (zlen (addressed (id c) off) - zlen (addressed (id c) wr) - zlen (pending c) - zlen (addressed (id c) lo))
  /\ (alive c = true -> addressed (id c) lo = []).

Definition server_inv (w : World) : Prop :=
  NoDup (id <$> everyone (srv w))
  /\ Forall (fun c => id c < next_id (srv w) /\ client_ok (offered w) (wire w) (lost w) c) (everyone (srv w))
  /\ Forall (fun p => p.1 < next_id (srv w)) (offered w ++ wire w ++ lost w).

Lemma Forall_app_3 {A} (P : A -> Prop) l k m : Forall P (l ++ k ++ m) <-> Forall P l /\ Forall P k /\ Forall P m.
Proof. by rewrite !Forall_app. Qed.
Lemma addressed_app i l k : addressed i (l ++ k) = addressed i l ++ addressed i k.
Proof. apply omap_app. Qed.
Lemma addressed_none i l : Forall (fun p => p.1 <> i) l -> addressed i l = [].
Proof.
  induction 1 as [|[j b] l Hj _ IH]; [done|]. cbn [addressed omap list_omap fst].
  rewrite (proj2 (Z.eqb_neq j i)) by done. exact IH.
Qed.
Lemma addressed_one i b : addressed i [(i, b)] = [b].
Proof. cbn. by rewrite Z.eqb_refl. Qed.

(** Finding and changing one client is a map, ids being distinct. *)
Lemma with_client_map i f cs : NoDup (id <$> cs) ->
  with_client i f cs = (fun c => if id c =? i then f c else c) <$> cs.
Proof.
  induction cs as [|c cs IH]; [done|]. rewrite fmap_cons. intros [Hc Hnd]%NoDup_cons.
  cbn [with_client fmap list_fmap]. destruct (Z.eqb_spec (id c) i) as [<-|_]; f_equal; [|by apply IH].
  rewrite <- (list_fmap_id cs) at 1. apply list_fmap_ext. intros j d Hd.
  rewrite (proj2 (Z.eqb_neq (id d) (id c))); [done|]. intros E. apply Hc. rewrite <- E.
  apply list_elem_of_fmap. exists d. split; [done|]. by eapply list_elem_of_lookup_2.
Qed.

(** The same client, but for what traffic changes. *)
Lemma client_ok_frame off wr lo off' wr' lo' c :
  addressed (id c) off' = [] -> addressed (id c) wr' = [] -> addressed (id c) lo' = [] ->
  client_ok off wr lo c -> client_ok (off ++ off') (wr ++ wr') (lo ++ lo') c.
Proof. intros H1 H2 H3 Hc. unfold client_ok. by rewrite !addressed_app, H1, H2, H3, !app_nil_r. Qed.

Lemma push_id c b : id (push c b) = id c.
Proof. unfold push. by destruct (try_send c b). Qed.
Lemma push_ok off wr lo c b : client_ok off wr lo c ->
  client_ok (off ++ [(id c, b)]) wr (lo ++ (if tx_open c then [] else [(id c, b)])) (push c b).
Proof.
  destruct c as [i n s q h op al dr]. intros (Ha & Hb & Hs & Hd & Hl). unfold push, try_send, client_ok, pending in *.
  simpl in *. rewrite app_assoc in Hs. destruct op; cbn [negb].
  - destruct (Z.leb_spec QUEUE_DEPTH (zlen q)); simpl; rewrite !addressed_app, addressed_one, app_nil_r;
      rewrite !zlen_app, !zlen_cons, !zlen_nil in *; (split_and!; [lia|done| | |done]); try lia.
    + rewrite app_assoc. by apply sublist_inserts_r.
    + rewrite !app_assoc. by apply sublist_app.
  - destruct (Hb eq_refl) as [Hp ->]. simpl. rewrite !addressed_app, !addressed_one. rewrite app_assoc.
    rewrite !zlen_app, !zlen_cons, !zlen_nil in *. split_and!; [done|done|by apply sublist_inserts_r|lia|done].
Qed.

(** Changing clients in place keeps the invariant if it keeps each of them right. *)
Lemma inv_update w w' (f g : Client -> Client) :
  server_inv w ->
  clients (srv w') = f <$> clients (srv w) -> accepting (srv w') = g <$> accepting (srv w) ->
  next_id (srv w') = next_id (srv w) ->
  (forall c, id (f c) = id c /\ id (g c) = id c) ->
  (forall c, c ∈ clients (srv w) -> client_ok (offered w) (wire w) (lost w) c -> client_ok (offered w') (wire w') (lost w') (f c)) ->
  (forall c, accepting (srv w) = Some c -> client_ok (offered w) (wire w) (lost w) c -> client_ok (offered w') (wire w') (lost w') (g c)) ->
  Forall (fun p => p.1 < next_id (srv w)) (offered w' ++ wire w' ++ lost w') ->
  server_inv w'.
Proof.
  intros (Hnd & Hall & Hids) Hc Ha Hn Hid Hf Hg Hids'. unfold server_inv, everyone in *. rewrite Hc, Ha, Hn.
  split_and!; [|apply Forall_app in Hall as [Hcl Hac]; apply Forall_app; split|done].
  - assert (E : id <$> ((f <$> clients (srv w)) ++ option_list (g <$> accepting (srv w)))
                = id <$> (clients (srv w) ++ option_list (accepting (srv w)))); [|by rewrite E].
    rewrite !fmap_app. f_equal.
    + rewrite <- list_fmap_compose. apply list_fmap_ext. intros. apply Hid.
    + destruct (accepting (srv w)) as [c|]; [|done]. simpl. by rewrite (proj2 (Hid c)).
  - apply Forall_fmap, Forall_forall. intros c Hin. rewrite Forall_forall in Hcl. simpl.
    destruct (Hcl c Hin) as [Hlt Hok]. rewrite (proj1 (Hid c)). split; [done|by apply Hf].
  - destruct (accepting (srv w)) as [c|] eqn:Eac; [|constructor]. apply Forall_singleton in Hac as [Hlt Hok].
    apply Forall_singleton. rewrite (proj2 (Hid c)). split; [done|by apply Hg].
Qed.

Lemma inv_nodup w : server_inv w -> NoDup (id <$> clients (srv w)).
Proof. intros (H & _). unfold everyone in H. rewrite fmap_app in H.
  by apply NoDup_app in H as [H _].
Qed.

Lemma inv_touch w i f wr' lo' :
  server_inv w -> (forall c, id (f c) = id c) ->
  Forall (fun p => p.1 < next_id (srv w) /\ p.1 = i) (wr' ++ lo') ->
  (forall c, c ∈ everyone (srv w) -> id c = i -> client_ok (offered w) (wire w) (lost w) c ->
             client_ok (offered w) (wire w ++ wr') (lost w ++ lo') (f c)) ->
  server_inv {| srv := touch i f (srv w); offered := offered w; wire := wire w ++ wr'; lost := lost w ++ lo' |}.
Proof.
  intros Hinv Hid [Hwr Hlo]%Forall_app Hok.
  set (h := fun c => if id c =? i then f c else c).
  assert (Hno : forall c l, id c <> i -> Forall (fun p => p.1 < next_id (srv w) /\ p.1 = i) l -> addressed (id c) l = []).
  { intros c l Hc Hl. apply addressed_none. eapply Forall_impl; [exact Hl|]. intros p [_ ->]. congruence. }
  assert (Hh : forall c, c ∈ everyone (srv w) -> client_ok (offered w) (wire w) (lost w) c ->
                 client_ok (offered w) (wire w ++ wr') (lost w ++ lo') (h c)).
  { intros c Hin Hc. unfold h. destruct (Z.eqb_spec (id c) i) as [E|E]; [by apply Hok|].
    rewrite <- (app_nil_r (offered w)). apply client_ok_frame; eauto. }
  apply (inv_update w _ h h Hinv).
  - unfold touch. simpl. by rewrite with_client_map by by apply inv_nodup.
  - done.
  - done.
  - intros c. unfold h. destruct (id c =? i); by rewrite ?Hid.
  - intros c Hin. apply Hh. unfold everyone. rewrite elem_of_app. by left.
  - intros c Hin. apply Hh. unfold everyone. rewrite elem_of_app, Hin. right. by apply list_elem_of_singleton.
  - destruct Hinv as (_ & _ & (Ho & Hw & Hl)%Forall_app_3). simpl.
    apply Forall_app_3; split_and!; [done|apply Forall_app; split..]; try done;
      (eapply Forall_impl; [eassumption|]); by intros p [? _].
Qed.
Lemma inv_touch_only w i f :
  server_inv w -> (forall c, id (f c) = id c) ->
  (forall c, client_ok (offered w) (wire w) (lost w) c -> client_ok (offered w) (wire w) (lost w) (f c)) ->
  server_inv {| srv := touch i f (srv w); offered := offered w; wire := wire w; lost := lost w |}.
Proof.
  intros Hinv Hid Hok. pose proof (inv_touch w i f [] [] Hinv Hid) as H. rewrite !app_nil_r in H.
  apply H; [constructor|auto].
Qed.

(** What a thread of client [i] holds is addressed to [i], a client the server knows. *)
Lemma kept_known f i w : server_inv w -> Forall (fun p => p.1 < next_id (srv w) /\ p.1 = i) (kept_by f i (srv w)).
Proof.
  intros (_ & Hall & _). unfold kept_by. destruct (List.find _ _) as [c|] eqn:Ef; [|constructor].
  apply find_some in Ef as [Hin Hi%Z.eqb_eq]. rewrite Forall_forall in Hall.
  apply Forall_fmap, Forall_forall. intros b _. simpl. rewrite <- Hi. split; [|done]. apply (Hall c). by apply list_elem_of_In.
Qed.
Lemma find_unique (cs : list Client) c : NoDup (id <$> cs) -> c ∈ cs -> List.find (fun d => id d =? id c) cs = Some c.
Proof.
  induction cs as [|d cs IH]; [by intros _ ?%not_elem_of_nil|]. rewrite fmap_cons. intros [Hd Hnd]%NoDup_cons Hin.
  cbn [List.find]. destruct (Z.eqb_spec (id d) (id c)) as [E|E].
  - apply elem_of_cons in Hin as [->|Hin]; [done|]. exfalso. apply Hd. rewrite E. by apply list_elem_of_fmap_2.
  - apply elem_of_cons in Hin as [->|Hin]; [done|auto].
Qed.
Lemma addressed_pairs i l : addressed i (pair i <$> l) = l.
Proof. induction l as [|b l IH]; [done|]. cbn. rewrite Z.eqb_refl. f_equal. exact IH. Qed.
Lemma kept_addressed f w c : server_inv w -> c ∈ everyone (srv w) -> addressed (id c) (kept_by f (id c) (srv w)) = f c.
Proof. intros (Hnd & _) Hin. unfold kept_by. rewrite (find_unique _ c Hnd Hin). apply addressed_pairs. Qed.

(** Each step. *)
Lemma inv_world0 : server_inv world0.
Proof. split_and!; constructor. Qed.

Lemma addressed_fresh w : server_inv w ->
  addressed (next_id (srv w)) (offered w) = [] /\ addressed (next_id (srv w)) (wire w) = []
  /\ addressed (next_id (srv w)) (lost w) = [].
Proof.
  intros (_ & _ & (Ho & Hw & Hl)%Forall_app_3).
  split_and!; apply addressed_none; (eapply Forall_impl; [eassumption|simpl; lia]).
Qed.

Lemma inv_accept_spawn w : server_inv w -> server_inv (do_step w AcceptSpawn).
Proof.
  intros Hinv. destruct (addressed_fresh w Hinv) as (Ho & Hw & Hl).
  destruct w as [[cl inc nx [c|]] off wr lo]; [done|]. destruct Hinv as (Hnd & Hall & Hids).
  unfold server_inv, everyone in *. simpl in *. rewrite app_nil_r in *. split_and!.
  - rewrite fmap_app. apply NoDup_app. split; [done|]. split; [|apply NoDup_singleton].
    intros i Hi Hn%list_elem_of_singleton. simpl in Hn. subst i.
    apply list_elem_of_fmap in Hi. destruct Hi as (c & Hc & Hin).
    rewrite Forall_forall in Hall. destruct (Hall c Hin). lia.
  - apply Forall_app. split.
    + eapply Forall_impl; [exact Hall|]. intros c [? ?]. split; [lia|done].
    + apply Forall_singleton. split; [simpl; lia|]. unfold client_ok. simpl. rewrite Ho, Hw, Hl.
      split_and!; [done|done|constructor|vm_compute; done|done].
  - eapply Forall_impl; [exact Hids|simpl; lia].
Qed.

Lemma inv_accept_register w : server_inv w -> server_inv (do_step w AcceptRegister).
Proof.
  destruct w as [[cl inc nx [c|]] off wr lo]; [|done]. intros (Hnd & Hall & Hids).
  unfold server_inv, everyone in *. simpl in *. rewrite app_nil_r. done.
Qed.

Lemma inv_reader_exit w i : server_inv w -> server_inv (do_step w (ReaderExit i)).
Proof.
  intros Hinv. apply inv_touch_only; [done|done|].
  intros [? ? ? ? ? ? ? ?] (Ha & Hb & Hs & Hd & Hl). split_and!; try done. simpl in *. intros Ho. split; [by apply Hb|done].
Qed.

Lemma inv_writer_fails w i : server_inv w -> server_inv (do_step w (WriterFails i)).
Proof.
  intros Hinv. pose proof (kept_known (fun c => option_list (in_hand c)) i w Hinv) as Hk.
  pose proof (inv_touch w i (fun c => {c with in_hand := None; alive := false}) [] (hand_of i (srv w)) Hinv) as H.
  rewrite app_nil_r in H. apply H; [done|done|]. clear H.
  intros c Hin <- Hok. pose proof (kept_addressed (fun c => option_list (in_hand c)) w c Hinv Hin) as Hh.
  destruct c as [k n s q h op al dr]. unfold client_ok, pending, hand_of in *. simpl in *. rewrite addressed_app, Hh.
  destruct Hok as (Ha & Hb & Hs & Hd & Hl). rewrite !zlen_app in *. split_and!; [done| | |lia|done].
  - intros Ho. by destruct (Hb Ho) as [[_ ->]%app_eq_nil _].
  - etrans; [|exact Hs]. apply sublist_app; [done|]. by apply sublist_inserts_l.
Qed.

Lemma inv_writer_exit w i : server_inv w -> server_inv (do_step w (WriterExit i)).
Proof.
  intros Hinv. pose proof (kept_known pending i w Hinv) as Hk.
  pose proof (inv_touch w i (fun c => {c with tx := []; in_hand := None; tx_open := false; alive := false}) []
    (kept_by pending i (srv w)) Hinv) as H.
  rewrite app_nil_r in H. apply H; [done|done|]. clear H.
  intros c Hin <- (Ha & Hb & Hs & Hd & Hl). pose proof (kept_addressed pending w c Hinv Hin) as Hh.
  destruct c as [k n s q h op al dr]. unfold client_ok in *. simpl in *. rewrite addressed_app, Hh.
  unfold pending in *. simpl in *. rewrite !zlen_app, !zlen_nil, app_nil_r in *. split_and!; [done|done| |lia|done].
  etrans; [|exact Hs]. by apply sublist_inserts_r.
Qed.

Lemma inv_accept_failed w : server_inv w -> server_inv (do_step w AcceptFailed).
Proof.
  destruct w as [[cl inc nx [c|]] off wr lo]; [done|]. intros (Hnd & Hall & Hids).
  unfold server_inv, everyone in *. simpl in *. split_and!; [done|..]; (eapply Forall_impl; [eassumption|]); simpl.
  - intros c [? ?]. split; [lia|done].
  - lia.
Qed.

Lemma inv_writer_takes w i : server_inv w -> server_inv (do_step w (WriterTakes i)).
Proof.
  intros Hinv. apply inv_touch_only; [done|..].
  - intros [? ? ? [|? ?] [?|] ? ? ?]; done.
  - intros [k n s [|b q] [h|] op al dr] (Ha & Hok); unfold take_next; simpl in *; try done.
    unfold client_ok, pending in *. simpl in *. rewrite zlen_cons in Ha. split; [lia|done].
Qed.

Lemma inv_writer_wrote w i : server_inv w -> server_inv (do_step w (WriterWrote i)).
Proof.
  intros Hinv. pose proof (kept_known (fun c => option_list (in_hand c)) i w Hinv) as Hk.
  pose proof (inv_touch w i (fun c => {c with in_hand := None}) (hand_of i (srv w)) [] Hinv) as H.
  rewrite !app_nil_r in H. apply H; [done|done|]. clear H.
  intros c Hin <- Hok. pose proof (kept_addressed (fun c => option_list (in_hand c)) w c Hinv Hin) as Hh.
  destruct c as [k n s q h op al dr]. unfold client_ok, pending, hand_of in *. simpl in *. rewrite addressed_app, Hh.
  destruct Hok as (Ha & Hb & Hs & Hd & Hl). rewrite !zlen_app in *. rewrite <- app_assoc. split_and!; [done| |done|lia|done].
  intros Ho. by destruct (Hb Ho) as [[_ ->]%app_eq_nil ->].
Qed.

Lemma note_hello_map cs m : NoDup (id <$> cs) ->
  exists h : Client -> Client, note_hello cs m = h <$> cs
  /\ forall c, h c = c \/ exists n k, h c = {c with csubs := k; name := n}.
Proof.
  intros Hnd. unfold note_hello. destruct (imsg m) as [v k n| | | | | | | | |];
    try (exists (fun c => c); split; [by rewrite list_fmap_id|auto]).
  exists (fun c => if id c =? ifrom m then {c with csubs := k; name := n} else c). split.
  - by apply with_client_map.
  - intros c. destruct (id c =? ifrom m); [right; by exists n, k|by left].
Qed.

Lemma inv_note_hellos ms w : server_inv w ->
  server_inv {w with srv := {srv w with clients := foldl note_hello (clients (srv w)) ms} }.
Proof.
  revert w. induction ms as [|m ms IH]; intros w Hinv; [by destruct w as [[]]|].
  destruct (note_hello_map _ m (inv_nodup w Hinv)) as (h & Hh & Hc).
  destruct w as [[cl inc nx ac] off wr lo]. simpl in *.
  apply (IH {| srv := {| clients := note_hello cl m; incoming := inc; next_id := nx; accepting := ac |};
               offered := off; wire := wr; lost := lo |}). clear IH.
  apply (inv_update _ _ h (fun c => c) Hinv).
  - exact Hh.
  - by destruct ac.
  - done.
  - intros c. split; [|done]. destruct (Hc c) as [->|(n & k & ->)]; by destruct c.
  - intros c _ Hok. destruct (Hc c) as [->|(n & k & ->)]; [done|by destruct c].
  - done.
  - apply Hinv.
Qed.

Lemma reap_sublist cs : reap cs `sublist_of` cs.
Proof.
  unfold reap. induction cs as [|c cs IH]; [constructor|]. cbn [List.filter]. destruct (alive c); by constructor.
Qed.

Lemma inv_poll w : server_inv w -> server_inv (do_step w DoPoll).
Proof.
  destruct w as [[cl inc nx ac] off wr lo]. intros (Hnd & Hall & Hids)%(inv_note_hellos inc).
  unfold server_inv, everyone, do_step, poll in *. simpl in *. revert Hnd Hall.
  generalize (foldl note_hello cl inc). intros cs Hnd Hall.
  pose proof (reap_sublist cs) as Hsub.
  split_and!; [|apply Forall_app in Hall as [Hc Ha]; apply Forall_app; split; [|done]|done].
  - rewrite fmap_app in *. apply NoDup_app in Hnd as (H1 & H2 & H3). apply NoDup_app. split_and!; [| |done].
    + eapply sublist_NoDup; [exact H1|by apply fmap_sublist].
    + intros i Hi. apply H2. eapply elem_of_sublist; [exact Hi|by apply fmap_sublist].
  - rewrite Forall_forall in *. intros c Hin. apply Hc. by eapply elem_of_sublist.
Qed.

(** Publishing: a client gets the message pushed exactly when it is offered to it. *)
Lemma addressed_offer (p : Client -> bool) b cs c : NoDup (id <$> cs) -> c ∈ cs ->
  addressed (id c) ((fun d => (id d, b)) <$> List.filter p cs) = if p c then [b] else [].
Proof.
  induction cs as [|d cs IH]; [by intros _ ?%not_elem_of_nil|]. rewrite fmap_cons. intros [Hd Hnd]%NoDup_cons Hin.
  assert (Hout : forall l, (forall e, e ∈ l -> e ∈ cs) -> addressed (id d) ((fun e => (id e, b)) <$> l) = []).
  { intros l Hl. apply addressed_none, Forall_fmap, Forall_forall. intros e He E. apply Hd. simpl in E. rewrite <- E.
    by apply list_elem_of_fmap_2, Hl. }
  cbn [List.filter]. apply elem_of_cons in Hin as [->|Hin].
  - specialize (Hout (List.filter p cs)). destruct (p d) eqn:Ep; rewrite ?fmap_cons.
    + change (?x :: ?l) with ([x] ++ l). rewrite addressed_app, addressed_one, Hout; [done|].
      intros e. rewrite !list_elem_of_In, filter_In. tauto.
    + apply Hout. intros e. rewrite !list_elem_of_In, filter_In. tauto.
  - assert (Hne : id d <> id c) by (intros E; apply Hd; rewrite E; by apply list_elem_of_fmap_2).
    rewrite <- (IH Hnd Hin). destruct (p d); [|done]. rewrite fmap_cons. cbn [addressed omap list_omap fst snd].
    by rewrite (proj2 (Z.eqb_neq _ _) Hne).
Qed.

(** Pushing [b] to the clients [p] picks. *)
Definition push_where (p : Client -> bool) (b : bytes) (w : World) : World :=
  {| srv := {srv w with clients := (fun c => if p c then push c b else c) <$> clients (srv w)};
     offered := offered w ++ ((fun c => (id c, b)) <$> List.filter p (clients (srv w)));
     wire := wire w; lost := lost w ++ refused p b (srv w) |}.

Lemma offers_known p b w : server_inv w ->
  Forall (fun q : Z * bytes => q.1 < next_id (srv w)) ((fun c => (id c, b)) <$> List.filter p (clients (srv w))).
Proof.
  intros (_ & Hall & _). apply Forall_fmap, Forall_forall. intros d Hd. simpl.
  rewrite Forall_forall in Hall. apply (Hall d). unfold everyone. apply elem_of_app. left.
  revert Hd. rewrite !list_elem_of_In, filter_In. tauto.
Qed.
Lemma not_offered p b w c : server_inv w -> accepting (srv w) = Some c ->
  addressed (id c) ((fun c => (id c, b)) <$> List.filter p (clients (srv w))) = [].
Proof.
  intros (Hnd & _) Hac. apply addressed_none, Forall_fmap, Forall_forall. intros d Hd E. simpl in E.
  unfold everyone in Hnd. rewrite Hac, fmap_app in Hnd. apply NoDup_app in Hnd as (_ & Hdis & _).
  apply (Hdis (id d)); [apply list_elem_of_fmap_2|rewrite E; by apply list_elem_of_singleton].
  revert Hd. rewrite !list_elem_of_In, filter_In. tauto.
Qed.

Lemma inv_push_where p b w : server_inv w -> server_inv (push_where p b w).
Proof.
  intros Hinv. pose proof (inv_nodup w Hinv) as Hnd.
  apply (inv_update w _ (fun c => if p c then push c b else c) (fun c => c) Hinv).
  - done.
  - unfold push_where. destruct w as [[? ? ? []] ? ? ?]; done.
  - by destruct w as [[]].
  - intros c. split; [|done]. destruct (p c); [apply push_id|done].
  - intros c Hin Hok. simpl. unfold refused. pose proof (addressed_offer p b _ c Hnd Hin) as Ha.
    pose proof (addressed_offer (fun c => p c && negb (tx_open c)) b _ c Hnd Hin) as Hr. cbn beta in Ha, Hr. destruct (p c).
    + apply (push_ok _ _ _ _ b) in Hok. revert Hok. unfold client_ok. cbn [andb] in Hr.
      rewrite push_id, !addressed_app, addressed_one, Ha, Hr. by destruct (tx_open c); rewrite ?addressed_one.
    + rewrite <- (app_nil_r (wire w)). by apply client_ok_frame.
  - intros c Hac Hok. simpl. rewrite <- (app_nil_r (wire w)).
    apply client_ok_frame; [by apply not_offered|done|by apply not_offered|done].
  - pose proof Hinv as (_ & _ & (Ho & Hw & Hl)%Forall_app_3). simpl. apply Forall_app_3.
    split_and!; [|done|]; apply Forall_app; split; try done; by apply offers_known.
Qed.

Lemma inv_broadcast w mask m : server_inv w -> server_inv (do_step w (Broadcast mask m)).
Proof. intros H. destruct w as [[]]. apply (inv_push_where (wants mask) (encode m) _ H). Qed.

Lemma filter_id cs i (b : bytes) : NoDup (id <$> cs) ->
  (fun c => (id c, b)) <$> List.filter (fun c => id c =? i) cs
  = if existsb (fun c => id c =? i) cs then [(i, b)] else [].
Proof.
  induction cs as [|c cs IH]; [done|]. rewrite fmap_cons. intros [Hc Hnd]%NoDup_cons.
  cbn [List.filter existsb]. destruct (Z.eqb_spec (id c) i) as [<-|_]; [|by apply IH].
  rewrite fmap_cons. cbn [orb]. f_equal. rewrite IH by done.
  destruct (existsb _ cs) eqn:E; [|done]. apply existsb_exists in E as (d & Hd & E%Z.eqb_eq).
  destruct Hc. rewrite <- E. by apply list_elem_of_fmap_2, list_elem_of_In.
Qed.

Lemma inv_send_to w i m : server_inv w -> server_inv (do_step w (SendTo i m)).
Proof.
  intros H. pose proof (inv_nodup w H) as Hnd. apply (inv_push_where (fun c => id c =? i) (encode m)) in H.
  revert H. unfold push_where. rewrite (filter_id _ i (encode m) Hnd).
  unfold do_step, send_to. rewrite with_client_map by done. by destruct w as [[]].
Qed.

Lemma do_step_inv w e : server_inv w -> server_inv (do_step w e).
Proof.
  destruct e; auto using inv_accept_spawn, inv_accept_register, inv_accept_failed, inv_reader_exit,
    inv_writer_takes, inv_writer_wrote, inv_writer_fails, inv_writer_exit, inv_poll, inv_send_to, inv_broadcast.
Qed.

(** C5: Whatever the order in which the accept thread, the readers, the writers and the
    daemon's own calls run: client ids are distinct, and no queue ever holds more than 64
    messages, however slow its client. What has reached a client's socket, then what is
    being written, then what is queued, is in order a selection of what publishing
    addressed to that client; the messages left out are exactly those its saturating drop
    counter counts, and those lost with its writer: in its hand or queued when it gave up,
    or published on its closed channel after that. Nothing is lost so of a client not
    marked dead, one whose channel is closed is marked dead, and the next [poll] leaves
    none that is. *)
Theorem publishing_is_bounded_and_accounted es :
  let w := run_steps es in
  NoDup (id <$> clients (srv w))
  /\ Forall (client_ok (offered w) (wire w) (lost w)) (clients (srv w))
  /\ Forall (fun c => alive c = true) (clients (poll (srv w)).2).
Proof.
  intros w. assert (H : server_inv w).
  { unfold w, run_steps. generalize inv_world0. generalize world0. clear w. induction es as [|e es IH]; [done|].
    intros w Hw. cbn [foldl]. by apply IH, do_step_inv. }
  split_and!; [by apply inv_nodup| |].
  - destruct H as (_ & [Hc _]%Forall_app & _). eapply Forall_impl; [exact Hc|]. by intros c [_ ?].
  - apply Forall_forall. intros c. simpl. unfold reap. rewrite list_elem_of_In, filter_In. tauto.
Qed.

(** ** A client's own threads affect nobody else *)

Definition others (j : Z) (cs : list Client) : list Client := List.filter (fun c => negb (id c =? j)) cs.

(** The steps by which client [j]'s own threads change it: writing, failing to, going away.
    What its reader hands to the daemon is not one. *)
Definition own_step (j : Z) (e : step) : bool :=
  match e with
  | WriterTakes i | WriterWrote i | WriterFails i | WriterExit i | ReaderExit i => i =? j
  | _ => false
  end.

Lemma others_app j cs ds : others j (cs ++ ds) = others j cs ++ others j ds.
Proof. apply List.filter_app. Qed.
Lemma others_with_same j f cs : (forall c, id (f c) = id c) -> others j (with_client j f cs) = others j cs.
Proof.
  intros Hf. induction cs as [|c cs IH]; [done|]. cbn [with_client]. destruct (id c =? j) eqn:E; cbn [others List.filter].
  - by rewrite Hf, E.
  - rewrite E. cbn [negb]. f_equal. exact IH.
Qed.
Lemma others_with_other i j f cs : i <> j -> (forall c, id (f c) = id c) ->
  others j (with_client i f cs) = with_client i f (others j cs).
Proof.
  intros Hij Hf. induction cs as [|c cs IH]; [done|]. cbn [with_client others List.filter].
  fold (others j cs). destruct (Z.eqb_spec (id c) i) as [E|E].
  - cbn [List.filter]. fold (others j cs). rewrite Hf, (proj2 (Z.eqb_neq (id c) j)) by lia. cbn [negb with_client].
    by rewrite (proj2 (Z.eqb_eq (id c) i)) by done.
  - cbn [List.filter]. fold (others j (with_client i f cs)). rewrite IH. destruct (id c =? j); [done|].
    cbn [negb with_client]. by rewrite (proj2 (Z.eqb_neq (id c) i)) by done.
Qed.
Lemma others_fmap j f cs : (forall c, id (f c) = id c) -> others j (f <$> cs) = f <$> others j cs.
Proof.
  intros Hf. induction cs as [|c cs IH]; [done|]. rewrite fmap_cons. cbn [others List.filter]. rewrite Hf.
  fold (others j (f <$> cs)) (others j cs). rewrite IH. by destruct (id c =? j).
Qed.
Lemma others_reap j cs : others j (reap cs) = reap (others j cs).
Proof.
  induction cs as [|c cs IH]; [done|]. unfold reap, others in *. cbn [List.filter].
  destruct (alive c) eqn:Ea, (id c =? j) eqn:Ei; cbn [List.filter negb]; rewrite ?Ea, ?Ei; cbn [negb]; by rewrite ?IH.
Qed.
Lemma others_with i j f cs cs' : (forall c, id (f c) = id c) -> others j cs = others j cs' ->
  others j (with_client i f cs) = others j (with_client i f cs').
Proof.
  intros Hf E. destruct (Z.eq_dec i j) as [->|Hij].
  - by rewrite !others_with_same.
  - by rewrite !others_with_other, E.
Qed.
Lemma others_hellos j ms cs cs' : others j cs = others j cs' ->
  others j (foldl note_hello cs ms) = others j (foldl note_hello cs' ms).
Proof.
  revert cs cs'. induction ms as [|m ms IH]; intros cs cs' E; [done|]. cbn [foldl]. apply IH.
  unfold note_hello. destruct (imsg m); try done. apply others_with; [by intros []|done].
Qed.

(** Servers that agree on everything but client [j]. *)
Definition agree (j : Z) (s s' : Server) : Prop :=
  others j (clients s) = others j (clients s') /\ incoming s = incoming s' /\ next_id s = next_id s'
  /\ (accepting s = accepting s'
      \/ exists c c', accepting s = Some c /\ accepting s' = Some c' /\ id c = j /\ id c' = j).

Lemma agree_touch_own j f s s' : (forall c, id (f c) = id c) -> agree j s s' -> agree j (touch j f s) s'.
Proof.
  intros Hf (Hc & Hi & Hn & Ha). destruct s as [cl inc nx ac], s' as [cl' inc' nx' ac']. unfold agree, touch in *.
  simpl in *. split_and!; [by rewrite others_with_same|done|done|].
  destruct Ha as [<-|(c & c' & -> & -> & Ei & Ei')].
  - destruct ac as [c|]; [|by left]. simpl. destruct (Z.eqb_spec (id c) j) as [E|E]; [|by left].
    right. exists (f c), c. by rewrite Hf.
  - right. exists (f c), c'. simpl. rewrite Ei, Z.eqb_refl, Hf. done.
Qed.

Lemma agree_touch j i f s s' : (forall c, id (f c) = id c) -> agree j s s' -> agree j (touch i f s) (touch i f s').
Proof.
  intros Hf (Hc & Hi & Hn & Ha). destruct s as [cl inc nx ac], s' as [cl' inc' nx' ac']. unfold agree, touch in *.
  simpl in *. split_and!; [by apply others_with|done|done|].
  destruct Ha as [<-|(c & c' & -> & -> & Ei & Ei')]; [by left|]. right. simpl. rewrite Ei, Ei'.
  destruct (j =? i); [exists (f c), (f c')|exists c, c']; by rewrite ?Hf.
Qed.

Lemma take_next_id c : id (take_next c) = id c.
Proof. by destruct c as [? ? ? [|? ?] [?|] ? ? ?]. Qed.

Lemma agree_own j w e s' : own_step j e = true -> agree j (srv w) s' -> agree j (srv (do_step w e)) s'.
Proof.
  destruct w as [s off wr lo]. destruct e; cbn [own_step]; try done; intros ->%Z.eqb_eq Ha; simpl;
    (apply agree_touch_own; [|exact Ha]); first [exact take_next_id|by intros []].
Qed.

Lemma agree_step j w w' e : agree j (srv w) (srv w') -> agree j (srv (do_step w e)) (srv (do_step w' e)).
Proof.
  destruct w as [s off wr lo], w' as [s' off' wr' lo']. cbn [srv]. intros Ha.
  destruct e; simpl; try (apply agree_touch; [first [exact take_next_id|by intros []]|exact Ha]);
    destruct s as [cl inc nx ac], s' as [cl' inc' nx' ac']; destruct Ha as (Hc & Hi & Hn & Ha); simpl in *; subst inc' nx'.
  - destruct Ha as [<-|(c & c' & -> & -> & Ei & Ei')]; [destruct ac as [c|]|]; split_and!; simpl; eauto 10.
  - destruct Ha as [<-|(c & c' & -> & -> & Ei & Ei')]; [destruct ac as [c|]|]; split_and!; simpl; auto;
      rewrite !others_app, Hc; [done|]. cbn [others List.filter]. by rewrite Ei, Ei', Z.eqb_refl.
  - destruct Ha as [<-|(c & c' & -> & -> & Ei & Ei')]; [destruct ac as [c|]|]; split_and!; simpl; eauto 10.
  - split_and!; simpl; auto.
  - split_and!; simpl; auto. by rewrite !others_reap, (others_hellos j inc cl cl').
  - split_and!; simpl; auto. apply others_with; [intros; apply push_id|done].
  - split_and!; simpl; auto. rewrite !others_fmap, Hc by (intros c; destruct (wants _ c); [apply push_id|done]). done.
Qed.

(** C25: The server never waits for one client on behalf of another: take any run and
    erase every step of client [j]'s writer and the end of its reader, so that [j] takes
    nothing any more (what its reader delivers stays in the run); every other client has the
    same queue, subscriptions, drop count and liveness as before, and the daemon has the same
    messages waiting. *)
Theorem stopped_client_affects_only_itself j es :
  let w := run_steps es in
  let w' := run_steps (List.filter (fun e => negb (own_step j e)) es) in
  others j (clients (srv w)) = others j (clients (srv w')) /\ incoming (srv w) = incoming (srv w').
Proof.
  intros w w'. assert (H : agree j (srv w) (srv w')); [|split; apply H].
  unfold w, w', run_steps. assert (H0 : agree j (srv world0) (srv world0)) by (split_and!; auto).
  revert H0. generalize world0 at 1 3. generalize world0. clear w w'.
  induction es as [|e es IH]; intros w' w Ha; [exact Ha|]. cbn [List.filter foldl].
  destruct (own_step j e) eqn:E; cbn [negb foldl].
  - apply IH. by apply agree_own.
  - apply IH. by apply agree_step.
Qed.

(** ** What [poll] makes of the messages waiting *)

(** The last hello from client [i]. *)
Definition last_hello (i : Z) (ms : list Incoming) : option (Z * bytes) :=
  foldl (fun acc m => match imsg m with
                      | Hello _ s n => if ifrom m =? i then Some (s, n) else acc
                      | _ => acc
                      end) None ms.
Definition introduced (ms : list Incoming) (c : Client) : Client :=
  match last_hello (id c) ms with Some (s, n) => {c with csubs := s; name := n} | None => c end.

Lemma last_hello_snoc i ms m : last_hello i (ms ++ [m])
  = match imsg m with
    | Hello _ s n => if ifrom m =? i then Some (s, n) else last_hello i ms
    | _ => last_hello i ms
    end.
Proof. unfold last_hello. by rewrite foldl_app. Qed.

Lemma introduced_id ms c : id (introduced ms c) = id c.
Proof. unfold introduced. destruct (last_hello _ _) as [[? ?]|]; by destruct c. Qed.

Lemma hellos_introduce ms cs : NoDup (id <$> cs) -> foldl note_hello cs ms = introduced ms <$> cs.
Proof.
  intros Hnd. induction ms as [|m ms IH] using rev_ind; [symmetry; apply list_fmap_id|].
  rewrite foldl_app, IH. cbn [foldl].
  assert (Hnd' : NoDup (id <$> (introduced ms <$> cs))).
  { rewrite <- list_fmap_compose. erewrite list_fmap_ext; [exact Hnd|]. intros. apply introduced_id. }
  unfold note_hello. destruct (imsg m) as [v k n| | | | | | | | |] eqn:Em;
    try (apply list_fmap_ext; intros; unfold introduced; by rewrite last_hello_snoc, Em).
  rewrite with_client_map, <- list_fmap_compose by done. apply list_fmap_ext. intros _ c _. simpl.
  rewrite introduced_id, (Z.eqb_sym (id c)). unfold introduced. rewrite last_hello_snoc, Em.
  destruct (ifrom m =? id c); [|done]. destruct (last_hello _ _) as [[? ?]|]; by destruct c.
Qed.

Lemma reap_fmap f cs : (forall c, alive (f c) = alive c) -> reap (f <$> cs) = f <$> reap cs.
Proof.
  intros Hf. induction cs as [|c cs IH]; [done|]. rewrite fmap_cons. unfold reap in *. cbn [List.filter].
  rewrite Hf, IH. by destruct (alive c).
Qed.

(** [poll] hands over every waiting message in the order it arrived and leaves none;
    exactly the clients still alive remain, in order, each carrying the name and the
    subscriptions of its own last [Hello] among those messages, and nothing else of any
    client changes. *)
Theorem poll_introduces_and_reaps s (Hnd : NoDup (id <$> clients s)) :
  poll s = (incoming s, {s with clients := introduced (incoming s) <$> reap (clients s); incoming := [] }).
Proof.
  unfold poll. rewrite hellos_introduce by done. rewrite reap_fmap; [done|].
  intros c. unfold introduced. destruct (last_hello _ _) as [[? ?]|]; by destruct c.
Qed.

Lemma poll_introduces_and_reaps_witness :
  let c i up := {| id := i; name := []; csubs := 0; tx := []; in_hand := None; tx_open := true; alive := up; dropped := 0 |} in
  let s := {| clients := [c 1 true; c 2 false; c 3 true];
              incoming := [ {| ifrom := 3; imsg := Hello 1 1 [x61] |}; {| ifrom := 1; imsg := Recentre |};
                            {| ifrom := 3; imsg := Hello 1 2 [x62] |} ];
              next_id := 4; accepting := None |} in
  poll s = (incoming s, {s with clients := introduced (incoming s) <$> reap (clients s); incoming := [] })
  /\ (fun d => (id d, csubs d, name d)) <$> clients (poll s).2 = [(1, 0, []); (3, 2, [x62])].
Proof.
  intros c s. split; [|vm_compute; reflexivity]. apply poll_introduces_and_reaps.
  apply (bool_decide_unpack (NoDup [1; 2; 3])). vm_compute. exact I.
Defined.

(** ** The hello that arrives before its client *)

(** The reader runs before the client is in the list; here it delivers the client's
    [Hello], the daemon polls, and only then is the client added. *)
Definition early_hello (subs : Z) (n : bytes) : list step :=
  [AcceptSpawn; ReaderDeliver 1 (Hello 1 subs n); DoPoll; AcceptRegister].

(** The accept thread starts a client's reader before it adds the client to the list,
    and [poll] forgets a [Hello] whose sender it cannot find: in this order of events the
    client stays connected and registered, its hello already consumed, with no name and
    no subscriptions, so that whatever stream it subscribed to, no later [broadcast] to
    subscribers is addressed to it, for as long as it does not say hello again. *)
Theorem early_hello_is_lost subs n mask m : mask <> 0 ->
  let w := run_steps (early_hello subs n) in
  clients (srv w) = [new_client 1] /\ incoming (srv w) = []
  /\ offered (do_step w (Broadcast mask m)) = []
  /\ subscriber_count mask (srv w) = 0%nat.
Proof.
  intros Hm w. cbn. unfold wants. rewrite (proj2 (Z.eqb_neq mask 0) Hm). cbn. done.
Qed.

Lemma early_hello_is_lost_witness :
  1 <> 0 /\ clients (srv (run_steps (early_hello 1 [x67]))) = [new_client 1].
Proof. split; [done|]. apply (early_hello_is_lost 1 [x67] 1 Recentre). done. Defined.
