(* ===== verification/IpcPaths.v ===== *)
(** * IpcPaths: finding and binding the socket (crates/tobii-ipc/src/path.rs, [Server::bind_at], client.rs)

    Paths are their bytes. The file system is what [bind], [connect] and [remove_file]
    make of the one path in question. *)
From S2P Require Import Prelude.

(** ** Paths *)
Definition DIR_NAME : bytes := [x74; x6f; x62; x69; x69; x2d; x6c; x69; x6e; x75; x78].
Definition SOCK_NAME : bytes := [x74; x72; x61; x63; x6b; x65; x72; x2e; x73; x6f; x63; x6b].
Definition slash : byte := x2f.

(** [Path::join] *)
Definition join (a b : bytes) : bytes :=
  match b, last a with
  | c :: _, _ => if Byte.eqb c slash then b
                 else match last a with
                      | None => b
                      | Some d => if Byte.eqb d slash then a ++ b else a ++ [slash] ++ b
                      end
  | [], Some d => if Byte.eqb d slash then a else a ++ [slash]
  | [], None => []
  end.

(** [u32]'s [Display] *)
Definition digit (d : Z) : byte := byte.of_Z (48 + d).
Fixpoint decimal_digits (fuel : nat) (z : Z) (acc : bytes) : bytes :=
  match fuel with
  | O => acc
  | S fuel => let acc := digit (z mod 10) :: acc in if z <? 10 then acc else decimal_digits fuel (z / 10) acc
  end.
Definition show_u32 (z : Z) : bytes := decimal_digits 10 z [].

(** "/run/user/" and "/tmp/tobii-runtime-" *)
Definition run_user : bytes := [slash; x72; x75; x6e; slash; x75; x73; x65; x72; slash].
Definition tmp_runtime : bytes :=
  [slash; x74; x6d; x70; slash] ++ [x74; x6f; x62; x69; x69; x2d; x72; x75; x6e; x74; x69; x6d; x65; x2d].

Definition runtime_root_from (xdg : option bytes) (run_user_exists : bool) (uid : Z) : bytes * bool :=
  match xdg with
  | Some ((_ :: _) as rt) => (rt, false)
  | _ => if run_user_exists then (run_user ++ show_u32 uid, false) else (tmp_runtime ++ show_u32 uid, true)
  end.

(** The environment that [runtime_root] reads. *)
Record Env := { XDG_RUNTIME_DIR : option bytes; run_user_is_dir : Z -> bool; uid : Z }.
Definition runtime_root (e : Env) : bytes * bool :=
  runtime_root_from (XDG_RUNTIME_DIR e) (run_user_is_dir e (uid e)) (uid e).
Definition socket_dir (e : Env) : bytes := join (runtime_root e).1 DIR_NAME.
Definition socket_path (e : Env) : bytes := join (socket_dir e) SOCK_NAME.

Definition MAX_SOCKET_PATH : Z := 107.
Inductive ErrorKind := AddrInUse | InvalidInput | PermissionDenied | NotFound | Other.
Definition check_socket_path (path : bytes) : result ErrorKind () :=
  if MAX_SOCKET_PATH <? zlen path then Err InvalidInput else Ok ().

(** ** Binding *)
Inductive BindAction := Bind | Unlink | AlreadyRunning.

Definition stale_socket_action (bind_err : ErrorKind) (probe_connected : bool) : BindAction :=
  match bind_err with
  | AddrInUse => if probe_connected then AlreadyRunning else Unlink
  | _ => Bind
  end.

(** What is at the path: nothing, a socket with a process listening, one without. *)
Inductive Entry := Nothing | Listening (owner : Z) | Dead.
(** The file system at that path; [denied] is an error every change to it meets. *)
Record Fs := { entry : Entry; denied : option ErrorKind }.

(** [UnixListener::bind], [UnixStream::connect], [fs::remove_file] by process [me]. *)
Definition unix_bind (me : Z) : M Fs ErrorKind () := fun fs =>
  match entry fs, denied fs with
  | Nothing, None => (Ok (), {fs with entry := Listening me})
  | Nothing, Some e => (Err e, fs)
  | _, _ => (Err AddrInUse, fs)
  end.
Definition unix_connect (fs : Fs) : bool := match entry fs with Listening _ => true | _ => false end.
Definition remove_file : M Fs ErrorKind () := fun fs =>
  match entry fs, denied fs with
  | Nothing, _ => (Err NotFound, fs)
  | _, Some e => (Err e, fs)
  | _, None => (Ok (), {fs with entry := Nothing})
  end.

(** [Server::bind_at], up to the accept thread it starts. *)
Definition bind_at (me : Z) (path : bytes) : M Fs ErrorKind () := fun fs =>
  match check_socket_path path with
  | Err e => (Err e, fs)
  | Ok _ =>
      match unix_bind me fs with
      | (Ok _, fs) => (Ok (), fs)
      | (Err e, fs) =>
          let probed := unix_connect fs in
          match stale_socket_action e probed with
          | AlreadyRunning => (Err AddrInUse, fs)
          | Unlink => (_ ← remove_file; unix_bind me) fs
          | Bind => (Err e, fs)
          end
      end
  end.

(** ** The client's retries *)

(** Durations in milliseconds. *)
Definition BACKOFF_MIN : Z := 250.
Definition BACKOFF_MAX : Z := 2000.
Definition backoff (prev : option Z) : Z :=
  match prev with None => BACKOFF_MIN | Some d => Z.min (d * 2) BACKOFF_MAX end.

(** The delay before retry [n], each computed from the one before. *)
Fixpoint delay (n : nat) : Z := match n with O => backoff None | S n => backoff (Some (delay n)) end.

(** ** Theorems *)

Lemma join_relative a b c r : b = c :: r -> c <> slash ->
  join a b = match last a with None => b | Some d => if Byte.eqb d slash then a ++ b else a ++ [slash] ++ b end.
Proof.
  intros -> Hc. unfold join. destruct (Byte.eqb c slash) eqn:E; [|by destruct (last a)].
  destruct (Byte.byte_dec_bl _ _ E). done.
Qed.

Definition has_suffix (s l : bytes) : Prop := exists p, l = p ++ s.

Lemma join_suffix a b c r : b = c :: r -> c <> slash -> last a <> None -> has_suffix b (join a b) /\ last (join a b) = last b.
Proof.
  intros E Hc Ha. rewrite (join_relative a b c r E Hc). destruct (last a) as [d|]; [|done].
  destruct (Byte.eqb d slash).
  - split; [by exists a|]. rewrite E, last_app. by destruct (last (c :: r)) eqn:El; [|apply last_None in El].
  - rewrite app_assoc. split; [by eexists|]. rewrite E, last_app. by destruct (last (c :: r)) eqn:El; [|apply last_None in El].
Qed.

(** Whatever the environment, the socket path ends in [tobii-linux/tracker.sock]; a
    non-empty [XDG_RUNTIME_DIR] is used as it is; and the root is marked as one to create
    and lock down exactly when it is the invented one under /tmp. *)
Theorem socket_path_shape e :
  has_suffix (DIR_NAME ++ [slash] ++ SOCK_NAME) (socket_path e)
  /\ (forall c r, XDG_RUNTIME_DIR e = Some (c :: r) -> runtime_root e = (c :: r, false))
  /\ ((runtime_root e).2 = true ->
        run_user_is_dir e (uid e) = false /\ (runtime_root e).1 = tmp_runtime ++ show_u32 (uid e)).
Proof.
  assert (Hroot : last (runtime_root e).1 <> None).
  { unfold runtime_root, runtime_root_from.
    destruct (XDG_RUNTIME_DIR e) as [[|c r]|]; [|intros H; by apply last_None in H|];
      destruct (run_user_is_dir e (uid e)); intros H; by apply last_None in H. }
  split_and!.
  - destruct (join_suffix (runtime_root e).1 DIR_NAME _ _ eq_refl ltac:(done) Hroot) as [[p Hp] Hl].
    unfold socket_path. rewrite (join_relative _ SOCK_NAME _ _ eq_refl) by done.
    fold (socket_dir e) in Hp, Hl. rewrite Hl. cbn [last DIR_NAME]. cbv beta iota.
    change (Byte.eqb x78 slash) with false. cbv iota. rewrite Hp. exists p. by rewrite <- !app_assoc.
  - intros c r H. unfold runtime_root, runtime_root_from. by rewrite H.
  - unfold runtime_root, runtime_root_from.
    destruct (XDG_RUNTIME_DIR e) as [[|c r]|]; [|done|]; by destruct (run_user_is_dir e (uid e)).
Qed.

(** Binding never takes the socket from a daemon that is listening: it reports the
    address in use and leaves the path alone. It replaces a dead socket, takes a free
    path, and an error other than the address being in use is reported with the path
    untouched. A path over 107 bytes is refused before anything is tried. *)
Theorem bind_at_spec me path fs :
  bind_at me path fs
  = if 107 <? zlen path then (Err InvalidInput, fs)
    else match entry fs, denied fs with
         | Listening _, _ => (Err AddrInUse, fs)
         | Nothing, None | Dead, None => (Ok (), {fs with entry := Listening me})
         | Nothing, Some AddrInUse => (Err NotFound, fs)
         | Nothing, Some e | Dead, Some e => (Err e, fs)
         end.
Proof.
  unfold bind_at, check_socket_path, MAX_SOCKET_PATH. destruct (107 <? zlen path); [done|].
  destruct fs as [[|o|] [[]|]]; reflexivity.
Qed.

(** The retry delay starts at 250 ms, never shrinks, never exceeds 2 s, and is 2 s
    from the fourth retry on: a daemon that starts is found within two seconds. *)
Theorem backoff_bounded n :
  BACKOFF_MIN <= delay n <= delay (S n) /\ delay (S n) <= BACKOFF_MAX /\ delay (n + 3) = BACKOFF_MAX.
Proof.
  assert (H : BACKOFF_MIN <= delay n <= BACKOFF_MAX).
  { induction n as [|n IH]; [done|]. cbn [delay backoff]. unfold BACKOFF_MIN, BACKOFF_MAX in *. lia. }
  rewrite Nat.add_comm. cbn [Nat.add delay backoff]. unfold BACKOFF_MIN, BACKOFF_MAX in *. lia.
Qed.
