(* ===== verification/HeadPose.v ===== *)
(** * HeadPose: a head pose from eye origins (crates/tobii-headpose/src/lib.rs, filter.rs)

    [pose_from_eyes] is the geometry; [PairOffset] is the stateful path that keeps a pose
    coming while one eye is lost; [PoseFilter] is the plausibility gate and the moving
    average behind it. Instants and durations are nanoseconds. *)
From Stdlib Require Import Sorted.
From S2P Require Import Prelude F64 Floats Tlv Gaze.

(** ** Time *)
Definition millis (n : Z) : Z := n * 1000000.
Definition saturating_duration_since (later earlier : Z) : Z := Z.max 0 (later - earlier).
Definition saturating_sub_i64 (a b : Z) : Z := Z.max i64_min (Z.min i64_max (a - b)).
Definition u32_max : Z := 2 ^ 32 - 1.
Definition saturating_inc (maxv z : Z) : Z := Z.min (z + 1) maxv.

(** ** Poses *)
Record HeadPose := { x_mm : f64; y_mm : f64; z_mm : f64; yaw_deg : f64; pitch_deg : f64; roll_deg : f64 }.
(** [HeadPose::default()] *)
Definition pose0 : HeadPose :=
  {| x_mm := f64_zero; y_mm := f64_zero; z_mm := f64_zero;
     yaw_deg := f64_zero; pitch_deg := f64_zero; roll_deg := f64_zero |}.

Definition pose_is_finite (p : HeadPose) : bool :=
  is_finite (x_mm p) && is_finite (y_mm p) && is_finite (z_mm p)
  && is_finite (yaw_deg p) && is_finite (pitch_deg p) && is_finite (roll_deg p).

Definition VALIDITY_TRACKED : Z := 0.
Definition MOVED_SPREAD_DEG : f64 := of_int 8.

(** ** Medians *)

(** [sort_by(|a, b| a.partial_cmp(b).unwrap_or(Equal))], which is stable. *)
Fixpoint insert_sorted (x : f64) (l : list f64) : list f64 :=
  match l with
  | [] => [x]
  | y :: l' => if flt y x then y :: insert_sorted x l' else x :: l
  end.
Definition sort_f64 (l : list f64) : list f64 := foldr insert_sorted [] l.

(** The indexing panics on an empty slice: [None]. *)
Definition median_and_spread (samples : list f64) : option (f64 * f64) :=
  let s := sort_f64 samples in
  let n := length s in
  median ← s !! (n / 2)%nat;
  hi ← s !! (n * 9 / 10)%nat;
  lo ← s !! (n / 10)%nat;
  Some (median, fsub hi lo).

(** The result is [None] below 20 samples. *)
Definition pitch_offset_from (samples : list f64) : option (f64 * f64) :=
  let samples := List.filter is_finite samples in
  if (length samples <? 20)%nat then None
  else '(median, spread) ← median_and_spread samples; Some (fopp median, spread).

(** ** The geometry *)
Section Geometry.
Context `{Libm}.

Definition pose_from_eyes (left_mm right_mm : vec3) : HeadPose :=
  let '(lx, ly, lz) := left_mm in
  let '(rx, ry, rz) := right_mm in
  let vx := fsub rx lx in
  let vy := fsub ry ly in
  let vz := fsub rz lz in
  {| x_mm := fdiv (fadd lx rx) (of_int 2);
     y_mm := fdiv (fadd ly ry) (of_int 2);
     z_mm := fdiv (fadd lz rz) (of_int 2);
     yaw_deg := to_degrees (atan2 vz vx);
     pitch_deg := f64_zero;
     roll_deg := to_degrees (atan2 (fopp vy) vx) |}.

Definition pose_from_sample (s : GazeSample) : option HeadPose :=
  let present_ok := has s present.EYE_ORIGIN_L && has s present.EYE_ORIGIN_R
                    && has s present.VALIDITY_L && has s present.VALIDITY_R in
  let tracked := (validity_l s =? VALIDITY_TRACKED) && (validity_r s =? VALIDITY_TRACKED) in
  if negb present_ok || negb tracked then None
  else Some (pose_from_eyes (eye_origin_l_mm s) (eye_origin_r_mm s)).

(** ** One eye *)
Inductive PoseSource := BothEyes | Reconstructed.
Record SourcedPose := { pose : HeadPose; source : PoseSource }.

Definition ONE_EYE_DEBOUNCE : Z := 2.
Definition RECONSTRUCTION_MAX_AGE : Z := millis 300.

Record Measured := { delta_mm : vec3; at_ : Z; m_timestamp_us : option Z }.
Record PairOffset := { measured : option Measured; one_eye_run : Z }.
(** [PairOffset::new()] and what [reset] makes of any. *)
Definition pair0 : PairOffset := {| measured := None; one_eye_run := 0 |}.

Inductive Seen := SeenLeft | SeenRight.

Definition device_clock (s : GazeSample) : option Z :=
  if has s present.TIMESTAMP then Some (timestamp_us s) else None.

(** [seen + sign * d], componentwise. *)
Definition shifted (seen_mm d : vec3) (sign : f64) : vec3 :=
  let '(sx, sy, sz) := seen_mm in
  let '(dx, dy, dz) := d in
  (fadd sx (fmul sign dx), fadd sy (fmul sign dy), fadd sz (fmul sign dz)).

(** Both bounds on the age of the offset. *)
Definition stale (m : Measured) (s : GazeSample) (now : Z) : bool :=
  (RECONSTRUCTION_MAX_AGE <? saturating_duration_since now (at_ m))
  || match m_timestamp_us m, device_clock s with
     | Some th, Some now_us => RECONSTRUCTION_MAX_AGE / 1000 <? saturating_sub_i64 now_us th
     | _, _ => false
     end.

Definition reconstruct (p : PairOffset) (s : GazeSample) (seen_mm : vec3) (seen : Seen) (now : Z)
    : option SourcedPose * PairOffset :=
  let p := {p with one_eye_run := saturating_inc u32_max (one_eye_run p)} in
  if one_eye_run p <? ONE_EYE_DEBOUNCE then (None, p)
  else match measured p with
       | None => (None, p)
       | Some m =>
           if stale m s now then (None, p)
           else
             let '(left_mm, right_mm) :=
               match seen with
               | SeenLeft => (seen_mm, shifted seen_mm (delta_mm m) (of_int 1))
               | SeenRight => (shifted seen_mm (delta_mm m) (of_int (-1)), seen_mm)
               end in
             (Some {| pose := pose_from_eyes left_mm right_mm; source := Reconstructed |}, p)
       end.

Definition left_seen (s : GazeSample) : bool := (validity_l s =? VALIDITY_TRACKED) && has s present.EYE_ORIGIN_L.
Definition right_seen (s : GazeSample) : bool := (validity_r s =? VALIDITY_TRACKED) && has s present.EYE_ORIGIN_R.

(** [PairOffset::pose_from_sample] *)
Definition pair_pose_from_sample (p : PairOffset) (s : GazeSample) (now : Z) : option SourcedPose * PairOffset :=
  if negb (has s present.VALIDITY_L) || negb (has s present.VALIDITY_R) then (None, {p with one_eye_run := 0})
  else
    match left_seen s, right_seen s with
    | true, true =>
        let '(lx, ly, lz) := eye_origin_l_mm s in
        let '(rx, ry, rz) := eye_origin_r_mm s in
        (Some {| pose := pose_from_eyes (eye_origin_l_mm s) (eye_origin_r_mm s); source := BothEyes |},
         {| measured := Some {| delta_mm := (fsub rx lx, fsub ry ly, fsub rz lz);
                                at_ := now; m_timestamp_us := device_clock s |};
            one_eye_run := 0 |})
    | true, false => reconstruct p s (eye_origin_l_mm s) SeenLeft now
    | false, true => reconstruct p s (eye_origin_r_mm s) SeenRight now
    | false, false => (None, {p with one_eye_run := 0})
    end.
End Geometry.

(** ** The filter *)
Definition DEFAULT_ALPHA : f64 := lit 25 100.
Definition DEFAULT_MAX_STEP_MM : f64 := of_int 150.
Definition MAX_HELD_FRAMES : Z := 3.

Definition step_mm (a b : HeadPose) : f64 :=
  let dx := fsub (x_mm a) (x_mm b) in
  let dy := fsub (y_mm a) (y_mm b) in
  let dz := fsub (z_mm a) (z_mm b) in
  fsqrt (fadd (fadd (fmul dx dx) (fmul dy dy)) (fmul dz dz)).

Record Accepted := { raw : HeadPose; out : HeadPose }.
Record PoseFilter := { alpha : f64; max_step_mm : f64; last_accepted : option Accepted; held : Z }.

Definition with_max_step_mm (a max_step : f64) : PoseFilter :=
  {| alpha := if is_finite a then clamp_to a f64_zero (of_int 1) else DEFAULT_ALPHA;
     max_step_mm := if flt f64_zero max_step then max_step else DEFAULT_MAX_STEP_MM;
     last_accepted := None; held := 0 |}.
(** [PoseFilter::new] *)
Definition new_filter (a : f64) : PoseFilter := with_max_step_mm a DEFAULT_MAX_STEP_MM.

Definition current (f : PoseFilter) : option HeadPose := out <$> last_accepted f.
(** [PoseFilter::reset] *)
Definition reset_filter (f : PoseFilter) : PoseFilter := {f with last_accepted := None; held := 0}.

Definition mix (a new old : f64) : f64 := fadd (fmul a new) (fmul (fsub (of_int 1) a) old).
Definition blend (a : f64) (p o : HeadPose) : HeadPose :=
  {| x_mm := mix a (x_mm p) (x_mm o); y_mm := mix a (y_mm p) (y_mm o); z_mm := mix a (z_mm p) (z_mm o);
     yaw_deg := mix a (yaw_deg p) (yaw_deg o); pitch_deg := mix a (pitch_deg p) (pitch_deg o);
     roll_deg := mix a (roll_deg p) (roll_deg o) |}.

(** The gate: whether it refuses [p]. *)
Definition refuses (f : PoseFilter) (p : HeadPose) : bool :=
  match last_accepted f with
  | Some a => flt (max_step_mm f) (step_mm p (raw a)) && (held f <? MAX_HELD_FRAMES)
  | None => false
  end.

(** [PoseFilter::update] *)
Definition update (f : PoseFilter) (p : HeadPose) : HeadPose * PoseFilter :=
  if negb (pose_is_finite p) then (default pose0 (current f), f)
  else match last_accepted f with
       | None => (p, {f with held := 0; last_accepted := Some {| raw := p; out := p |} })
       | Some a =>
           if refuses f p then (out a, {f with held ::= Z.add 1})
           else let o := blend (alpha f) p (out a) in
                (o, {f with held := 0; last_accepted := Some {| raw := p; out := o |} })
       end.

(** ** The two-eye pose and the pair *)
Section Theorems.
Context `{Libm}.

(** Which eyes a frame carries: both, one, none that counts. *)
Inductive Eyes := Two | One (seen : Seen) | NoEye.
Definition eyes (s : GazeSample) : Eyes :=
  if negb (has s present.VALIDITY_L) || negb (has s present.VALIDITY_R) then NoEye
  else match left_seen s, right_seen s with
       | true, true => Two
       | true, false => One SeenLeft
       | false, true => One SeenRight
       | false, false => NoEye
       end.

Definition eye_of (seen : Seen) (s : GazeSample) : vec3 :=
  match seen with SeenLeft => eye_origin_l_mm s | SeenRight => eye_origin_r_mm s end.
Definition other_eye (seen : Seen) (s : GazeSample) (d : vec3) : HeadPose :=
  match seen with
  | SeenLeft => pose_from_eyes (eye_origin_l_mm s) (shifted (eye_origin_l_mm s) d (of_int 1))
  | SeenRight => pose_from_eyes (shifted (eye_origin_r_mm s) d (of_int (-1))) (eye_origin_r_mm s)
  end.

Definition vec_sub (a b : vec3) : vec3 :=
  let '(ax, ay, az) := a in let '(bx, by_, bz) := b in (fsub ax bx, fsub ay by_, fsub az bz).
Definition measure (f : GazeSample * Z) : Measured :=
  {| delta_mm := vec_sub (eye_origin_r_mm f.1) (eye_origin_l_mm f.1); at_ := f.2;
     m_timestamp_us := device_clock f.1 |}.

(** The pair's behaviour, by what the frame carries. *)
Lemma pair_unfold p s now :
  pair_pose_from_sample p s now
  = match eyes s with
    | Two => (Some {| pose := pose_from_eyes (eye_origin_l_mm s) (eye_origin_r_mm s); source := BothEyes |},
              {| measured := Some (measure (s, now)); one_eye_run := 0 |})
    | One seen => reconstruct p s (eye_of seen s) seen now
    | NoEye => (None, {p with one_eye_run := 0})
    end.
Proof.
  unfold pair_pose_from_sample, eyes, measure, vec_sub. simpl.
  destruct (_ || _); [done|]. destruct (left_seen s), (right_seen s); try done.
  by destruct (eye_origin_l_mm s) as [[? ?] ?], (eye_origin_r_mm s) as [[? ?] ?].
Qed.

Lemma pose_from_sample_eyes s :
  pose_from_sample s = match eyes s with Two => Some (pose_from_eyes (eye_origin_l_mm s) (eye_origin_r_mm s)) | _ => None end.
Proof.
  unfold pose_from_sample, eyes, left_seen, right_seen.
  destruct (has s present.EYE_ORIGIN_L), (has s present.EYE_ORIGIN_R), (has s present.VALIDITY_L),
    (has s present.VALIDITY_R), (validity_l s =? VALIDITY_TRACKED), (validity_r s =? VALIDITY_TRACKED); done.
Qed.

(** *** What a history of frames amounts to *)
Definition Frame : Type := GazeSample * Z.
Definition observe (h : list Frame) : PairOffset :=
  foldl (fun p f => (pair_pose_from_sample p f.1 f.2).2) pair0 h.

Definition is_two (f : Frame) : bool := match eyes f.1 with Two => true | _ => false end.
Definition is_one (f : Frame) : bool := match eyes f.1 with One _ => true | _ => false end.
(** The last frame with two eyes. *)
Definition last_two (h : list Frame) : option Frame := last (List.filter is_two h).

Lemma observe_snoc h f : observe (h ++ [f]) = (pair_pose_from_sample (observe h) f.1 f.2).2.
Proof. unfold observe. by rewrite foldl_app. Qed.

Lemma reconstruct_state p s v seen now :
  (reconstruct p s v seen now).2 = {p with one_eye_run := saturating_inc u32_max (one_eye_run p)}.
Proof.
  unfold reconstruct. destruct p as [m n]. simpl. destruct (_ <? _); [done|]. destruct m as [m|]; [|done].
  destruct (stale m s now); [done|]. by destruct seen.
Qed.

Lemma observe_measured h : measured (observe h) = measure <$> last_two h.
Proof.
  induction h as [|f h IH] using rev_ind; [done|]. rewrite observe_snoc, pair_unfold.
  unfold last_two. rewrite List.filter_app. cbn [List.filter]. unfold is_two at 2.
  destruct (eyes f.1) as [|seen|] eqn:E; cbn [app].
  - rewrite last_snoc. by destruct f.
  - rewrite app_nil_r, reconstruct_state. by destruct (observe h).
  - rewrite app_nil_r. by destruct (observe h).
Qed.

(** The run of one-eye frames is positive exactly after a one-eye frame. *)
Lemma observe_run h : 0 <= one_eye_run (observe h) /\
  (1 <= one_eye_run (observe h) <-> exists f, last h = Some f /\ is_one f = true).
Proof.
  induction h as [|f h IH] using rev_ind; [split; [done|]; split; [done|by intros (? & ? & _)]|].
  rewrite observe_snoc, pair_unfold, last_snoc. unfold is_one.
  assert (Hs : forall b, (exists g, Some f = Some g /\ match eyes g.1 with One _ => true | _ => false end = b)
                         <-> match eyes f.1 with One _ => true | _ => false end = b).
  { intros b. split; [by intros (g & [= <-] & ?)|eauto]. }
  rewrite Hs. destruct (eyes f.1) as [|seen|]; simpl.
  - split; [done|]. split; [done|discriminate].
  - rewrite reconstruct_state. destruct (observe h) as [m n]. simpl in *. unfold saturating_inc, u32_max. split; [lia|].
    split; [done|lia].
  - destruct (observe h). simpl. split; [done|]. split; [done|discriminate].
Qed.

(** C7: What [PairOffset] answers, in terms of the frames it has seen. Two tracked eyes
    give exactly the pose of the stateless path, marked as measured. One tracked eye gives
    a pose, marked as reconstructed, exactly when the frame before it had one eye too, two
    eyes were seen together before, and that last two-eye frame is at most 300 ms old by
    the host's clock and, where both frames carry it, by the device's; the pose is the
    seen eye's origin completed with that frame's offset. Anything else gives none. *)
Theorem pair_offset_spec h s now :
  (pair_pose_from_sample (observe h) s now).1
  = match eyes s with
    | Two => (fun p => {| pose := p; source := BothEyes |}) <$> pose_from_sample s
    | NoEye => None
    | One seen =>
        match last h, last_two h with
        | Some f, Some f0 =>
            if is_one f && negb (stale (measure f0) s now)
            then Some {| pose := other_eye seen s (delta_mm (measure f0)); source := Reconstructed |}
            else None
        | _, _ => None
        end
    end.
Proof.
  rewrite pair_unfold, pose_from_sample_eyes. destruct (eyes s) as [|seen|]; [done| |done].
  destruct (observe_run h) as [Hn Hr]. pose proof (observe_measured h) as Hm.
  unfold reconstruct. destruct (observe h) as [m n]. simpl in *. subst m.
  unfold ONE_EYE_DEBOUNCE. destruct (last h) as [f|] eqn:El.
  - destruct (is_one f) eqn:E1.
    + assert (1 <= n) by (apply Hr; eauto).
      rewrite (proj2 (Z.ltb_ge _ _)) by (unfold saturating_inc, u32_max; lia).
      destruct (last_two h) as [f0|]; [|done]. simpl. destruct (stale (measure f0) s now); [done|]. by destruct seen.
    + assert (n < 1).
      { destruct (Z_lt_le_dec n 1) as [|Hge]; [done|]. apply Hr in Hge as (g & [= ->] & Hg). congruence. }
      rewrite (proj2 (Z.ltb_lt _ _)) by (unfold saturating_inc, u32_max; lia). by destruct (last_two h).
  - assert (n < 1) by (destruct (Z_lt_le_dec n 1) as [|Hge]; [done|]; by apply Hr in Hge as (g & ? & _)).
    by rewrite (proj2 (Z.ltb_lt _ _)) by (unfold saturating_inc, u32_max; lia).
Qed.
End Theorems.

(** ** The filter's gate *)
Definition feed (f : PoseFilter) (ps : list HeadPose) : PoseFilter := foldl (fun f p => (update f p).2) f ps.

(** What [held] counts: the finite samples refused since the last accepted one. *)
Lemma update_cases f p :
  (pose_is_finite p = false /\ update f p = (default pose0 (current f), f))
  \/ (pose_is_finite p = true /\ refuses f p = true /\ update f p = (default pose0 (current f), {f with held ::= Z.add 1}))
  \/ (pose_is_finite p = true /\ refuses f p = false
      /\ exists o, update f p = (o, {f with held := 0; last_accepted := Some {| raw := p; out := o |} })
         /\ (last_accepted f = None -> o = p)
         /\ (forall a, last_accepted f = Some a -> o = blend (alpha f) p (out a))).
Proof.
  destruct f as [al mx la hd]. unfold update, current, refuses. simpl. destruct (pose_is_finite p); [right|by left].
  destruct la as [a|]; simpl.
  - destruct (flt mx (step_mm p (raw a)) && (hd <? MAX_HELD_FRAMES)); [by left|right].
    split_and!; [done..|]. eexists. split_and!; [done|done|]. by intros ? [= <-].
  - right. split_and!; [done..|]. eexists. by split_and!.
Qed.

Lemma refuses_held f p : refuses f p = true -> held f < MAX_HELD_FRAMES.
Proof. unfold refuses. destruct (last_accepted f); [|done]. intros [_ H%Z.ltb_lt]%andb_prop. exact H. Qed.

(** The first of [ps] that is accepted: [l] are refused, then [p] is taken. *)
Definition reopens (f : PoseFilter) (ps l : list HeadPose) (p : HeadPose) (r : list HeadPose) : Prop :=
  ps = l ++ p :: r
  /\ held (feed f l) = held f + zlen l
  /\ last_accepted (feed f l) = last_accepted f
  /\ (forall l' q r', l = l' ++ q :: r' -> (update (feed f l') q).1 = default pose0 (current f))
  /\ raw <$> last_accepted (feed f (l ++ [p])) = Some p /\ held (feed f (l ++ [p])) = 0.

Lemma reopens_within ps f : Forall (fun p => pose_is_finite p = true) ps ->
  Z.max 0 (MAX_HELD_FRAMES - held f) < zlen ps -> exists l p r, reopens f ps l p r.
Proof.
  revert f. induction ps as [|p ps IH]; intros f Hf Hlen; [unfold zlen in Hlen; simpl in Hlen; lia|].
  rewrite zlen_cons in Hlen. apply Forall_cons in Hf as [Hp Hps].
  destruct (update_cases f p) as [[? _]|[(_ & Hr & Hu)|(_ & Hr & o & Hu & _)]]; [congruence| |].
  - pose proof (refuses_held f p Hr) as Hh.
    destruct (IH {f with held ::= Z.add 1} Hps) as (l & q & r & Hs & H1 & H2 & H3 & H4 & H5).
    { destruct f as [al mx la hd]. simpl in *. lia. }
    assert (Hfeed : forall k, feed f (p :: k) = feed {f with held ::= Z.add 1} k) by (intros k; unfold feed; cbn [foldl]; by rewrite Hu).
    exists (p :: l), q, r. unfold reopens. rewrite <- !app_comm_cons, !Hfeed. split_and!; [by rewrite Hs| | | |done|done].
    + rewrite H1, zlen_cons. destruct f. simpl. lia.
    + rewrite H2. by destruct f.
    + intros [|x l'] q' r' E; cbn [app] in E; injection E as <- E; [change (feed f []) with f; by rewrite Hu|].
      rewrite Hfeed, (H3 _ _ _ E). by destruct f.
  - exists [], p, ps. unfold reopens, feed. cbn [app foldl]. rewrite Hu, zlen_nil. split_and!; [done|lia|done| | |].
    + intros l' q r' E. by destruct l'.
    + by destruct f.
    + by destruct f.
Qed.

(** The gate cannot lock the filter up. Whatever state a filter is in, among any four
    finite samples in a row one is accepted: the filter then has that sample as its
    reference and its count back at zero. The samples refused before it change nothing
    but the count, and repeat the last output; so does, without being counted, any
    sample with a non-finite field. *)
Theorem gate_reopens f p1 p2 p3 p4
    (Hh : 0 <= held f) (Hf : Forall (fun p => pose_is_finite p = true) [p1; p2; p3; p4]) :
  (exists l p r, reopens f [p1; p2; p3; p4] l p r)
  /\ (forall q, pose_is_finite q = false -> update f q = (default pose0 (current f), f)).
Proof.
  split; [apply reopens_within; [done|]; change (zlen [p1; p2; p3; p4]) with 4; unfold MAX_HELD_FRAMES; lia|].
  intros q Hq. unfold update. by rewrite Hq.
Qed.

Lemma gate_reopens_witness :
  let at_x x := {| x_mm := of_int x; y_mm := f64_zero; z_mm := of_int 680; yaw_deg := f64_zero;
                   pitch_deg := f64_zero; roll_deg := f64_zero |} in
  let f := feed (new_filter DEFAULT_ALPHA) [at_x 0] in
  (0 <= held f /\ (fun p => held (feed f p)) <$> [[at_x 500]; [at_x 500; at_x 501]; [at_x 500; at_x 501; at_x 502]] = [1; 2; 3])
  /\ (exists l p r, reopens f [at_x 500; at_x 501; at_x 502; at_x 503] l p r).
Proof.
  intros at_x f. split; [split; vm_compute; [discriminate|reflexivity]|].
  apply (gate_reopens f (at_x 500) (at_x 501) (at_x 502) (at_x 503)).
  - vm_compute. discriminate.
  - constructor; [reflexivity|]. constructor; [reflexivity|]. constructor; [reflexivity|]. constructor; [reflexivity|constructor].
Defined.

(** ** Medians *)
Definition fle' (x y : f64) : Prop := fle x y = true.

Lemma insert_perm x l : Permutation (insert_sorted x l) (x :: l).
Proof.
  induction l as [|y l IH]; [done|]. cbn [insert_sorted]. destruct (flt y x); [|done].
  rewrite IH. apply perm_swap.
Qed.
Lemma sort_perm l : Permutation (sort_f64 l) l.
Proof. induction l as [|x l IH]; [done|]. cbn [sort_f64 foldr]. rewrite insert_perm. by constructor. Qed.

Lemma insert_sorted_sorted x l : is_nan x = false -> Forall (fun y => is_nan y = false) l ->
  StronglySorted fle' l -> StronglySorted fle' (insert_sorted x l).
Proof.
  intros Hx. induction l as [|y l IH]; intros Hn Hs; [repeat constructor|].
  apply Forall_cons in Hn as [Hy Hn]. inversion Hs as [|? ? Hs' Hall]; subst. cbn [insert_sorted].
  destruct (flt y x) eqn:E.
  - constructor; [by apply IH|]. eapply Forall_impl; [|intros z Hz; exact Hz].
    rewrite (insert_perm x l). constructor; [by apply flt_fle|done].
  - assert (Hxy : fle' x y) by (unfold fle', fle; rewrite fle_iff_not_lt by done; unfold flt in E; by rewrite E).
    constructor; [done|]. constructor; [done|]. eapply Forall_impl; [exact Hall|]. intros z. by apply fle_trans.
Qed.

Lemma sort_sorted l : Forall (fun y => is_nan y = false) l -> StronglySorted fle' (sort_f64 l).
Proof.
  induction l as [|x l IH]; intros Hn; [constructor|]. apply Forall_cons in Hn as [Hx Hn].
  cbn [sort_f64 foldr]. apply insert_sorted_sorted; [done| |by apply IH]. fold (sort_f64 l). by rewrite sort_perm.
Qed.

Lemma filter_count_perm {A} (q : A -> bool) l k :
  Permutation l k -> length (List.filter q l) = length (List.filter q k).
Proof.
  induction 1 as [|x l k _ IH|x y l|l k j _ IH1 _ IH2]; [done| | |congruence]; cbn [List.filter].
  - destruct (q x); simpl; lia.
  - destruct (q x), (q y); done.
Qed.

(** In a sorted list, the element at [i] is above those before and below those after. *)
Lemma sorted_split l i x : StronglySorted fle' l -> Forall (fun y => is_nan y = false) l -> l !! i = Some x ->
  Forall (fun y => fle' y x) (take (S i) l) /\ Forall (fun y => fle' x y) (drop i l).
Proof.
  revert i. induction l as [|y l IH]; intros i Hs Hn Hx; [done|].
  inversion Hs as [|? ? Hs' Hall]; subst. apply Forall_cons in Hn as [Hy Hn]. destruct i as [|i].
  - injection Hx as ->. cbn [take drop]. unfold fle' in *. split; [constructor; [by apply fle_refl|constructor]|].
    constructor; [by apply fle_refl|done].
  - cbn [lookup list_lookup] in Hx. destruct (IH i Hs' Hn Hx) as [H1 H2]. cbn [take drop]. split; [|done].
    constructor; [|done]. rewrite Forall_forall in Hall. apply Hall. by eapply list_elem_of_lookup_2.
Qed.

Lemma median_some l : l <> [] ->
  exists m sp, median_and_spread l = Some (m, sp) /\ sort_f64 l !! (length l / 2)%nat = Some m.
Proof.
  intros Hne. unfold median_and_spread. pose proof (Permutation_length (sort_perm l)) as Hlen.
  assert (Hpos : (0 < length l)%nat) by (destruct l; [done|simpl; lia]).
  assert (Hlk : forall i, (i < length l)%nat -> exists x, sort_f64 l !! i = Some x).
  { intros i Hi. apply lookup_lt_is_Some. lia. }
  rewrite Hlen.
  destruct (Hlk (length l / 2)%nat) as [m Hm]; [apply Nat.div_lt; lia|]. rewrite Hm.
  destruct (Hlk (length l * 9 / 10)%nat) as [hi ->]; [apply Nat.Div0.div_lt_upper_bound; lia|].
  destruct (Hlk (length l / 10)%nat) as [lo ->]; [apply Nat.div_lt; lia|]. simpl. eauto.
Qed.

(** The reduction of a settle run: over samples that are numbers, at least one, it
    succeeds, and the value it gives is a median: a sample with more than half of the
    samples at or below it and at least half at or above it; the order in which the
    samples arrived is immaterial to that. *)
Theorem median_is_a_median l (Hne : l <> []) (Hn : Forall (fun y => is_nan y = false) l) :
  exists m sp, median_and_spread l = Some (m, sp) /\ m ∈ l
  /\ (length l < 2 * length (List.filter (fun y => fle y m) l))%nat
  /\ (length l <= 2 * length (List.filter (fun y => fle m y) l))%nat.
Proof.
  destruct (median_some l Hne) as (m & sp & Hres & Hm). pose proof (sort_perm l) as Hp.
  pose proof (Permutation_length Hp) as Hlen. exists m, sp.
  set (s := sort_f64 l) in *. assert (Hpos : (0 < length l)%nat) by (destruct l; [done|simpl; lia]).
  assert (Hsn : Forall (fun y => is_nan y = false) s) by (by rewrite Hp).
  destruct (sorted_split s _ m (sort_sorted l Hn) Hsn Hm) as [H1 H2].
  assert (Hcount : forall (q : f64 -> bool) k, Forall (fun y => q y = true) k -> length (List.filter q k) = length k).
  { clear. intros q k. induction 1 as [|x k Hx _ IH]; [done|]. cbn [List.filter]. rewrite Hx. simpl. by rewrite IH. }
  assert (Hfp : forall q : f64 -> bool, length (List.filter q l) = length (List.filter q s)).
  { intros q. symmetry. by apply filter_count_perm. }
  pose proof (Nat.div_mod_eq (length l) 2). pose proof (Nat.mod_upper_bound (length l) 2 ltac:(lia)).
  split_and!; [done|rewrite <- Hp; by eapply list_elem_of_lookup_2|..]; rewrite Hfp.
  - rewrite <- (take_drop (S (length l / 2)) s), List.filter_app, length_app, (Hcount _ (take _ _)) by exact H1.
    rewrite length_take. lia.
  - rewrite <- (take_drop (length l / 2) s), List.filter_app, length_app, (Hcount _ (drop _ _)) by exact H2.
    rewrite length_drop. lia.
Qed.

Lemma median_is_a_median_witness :
  let l := of_int <$> [7; -2; 40; 7; 3] in
  l <> [] /\ Forall (fun y => is_nan y = false) l /\ exists m sp, median_and_spread l = Some (m, sp) /\ m ∈ l.
Proof.
  intros l. assert (Hn : Forall (fun y => is_nan y = false) l) by (apply Forall_true_list || (unfold l; repeat constructor)).
  split; [done|]. split; [exact Hn|].
  destruct (median_is_a_median l) as (m & sp & H1 & H2 & _); [done|exact Hn|]. by exists m, sp.
Defined.
