(* ===== verification/Fusion.v ===== *)
(** * Fusion: gaze as a camera offset (crates/tobii-output/src/fusion.rs)

    Gaze on the screen becomes an angle against the screen's centre ([gaze_angles_deg]),
    each axis of which is shaped ([shape]) and added to the head pose ([compose]); while
    gaze is away the last offset is held ([hold_through_blink]). *)
From S2P Require Import Prelude F64 Floats Tlv Commands HeadPose.

Definition MIN_FORWARD_MM : f64 := of_int 1.

Inductive Curve := Linear | Power (p : f64) | Smoothstep.

Record AxisResponse := {
  deadzone_deg : f64; input_max_deg : f64; output_max_deg : f64; curve : Curve; clamp_deg : f64 }.

Record ExtendedView := { ev_enabled : bool; ev_yaw : AxisResponse; ev_pitch : AxisResponse; hold_ms : Z }.

(** [ExtendedView::default()] *)
Definition default_view : ExtendedView :=
  {| ev_enabled := true;
     ev_yaw := {| deadzone_deg := of_int 2; input_max_deg := of_int 25; output_max_deg := of_int 45;
                  curve := Power (lit 3 2); clamp_deg := of_int 60 |};
     ev_pitch := {| deadzone_deg := of_int 2; input_max_deg := of_int 12; output_max_deg := of_int 25;
                    curve := Power (lit 3 2); clamp_deg := of_int 35 |};
     hold_ms := 200 |}.

Definition one : f64 := of_int 1.
Definition half : f64 := lit 1 2.

Section Fusion.
Context `{Libm}.

(** [Curve::apply] *)
Definition apply_curve (c : Curve) (u : f64) : f64 :=
  match c with
  | Linear => u
  | Power p => if is_finite p && flt f64_zero p then powf u p else u
  | Smoothstep => fmul (fmul u u) (fsub (of_int 3) (fmul (of_int 2) u))
  end.

(** How far past the deadzone, as a fraction of the range. *)
Definition fraction (a : AxisResponse) (deadzone magnitude : f64) : f64 :=
  let span := fsub (input_max_deg a) deadzone in
  if flt f64_zero span then clamp_to (fdiv (fsub magnitude deadzone) span) f64_zero one else one.

(** [None] is the panic of [clamp] when the ceiling is not a number. *)
Definition shape (a : AxisResponse) (raw_deg : f64) : option f64 :=
  if negb (is_finite raw_deg) then Some f64_zero
  else
    let magnitude := fabs raw_deg in
    let deadzone := fmax (deadzone_deg a) f64_zero in
    if fle magnitude deadzone then Some f64_zero
    else
      let u := fraction a deadzone magnitude in
      let out := fmul (fmul (signum raw_deg) (apply_curve (curve a) u)) (output_max_deg a) in
      let ceiling := fabs (clamp_deg a) in
      fclamp out (fopp ceiling) ceiling.

Definition sub (a b : vec3) : vec3 :=
  let '(a0, a1, a2) := a in let '(b0, b1, b2) := b in (fsub a0 b0, fsub a1 b1, fsub a2 b2).

Definition point_on_screen (c : DisplayCorners) (gaze : vec2) : vec3 :=
  let '(x0, x1, x2) := sub (tr c) (tl c) in
  let '(u0, u1, u2) := sub (tl c) (bl c) in
  let '(gx, gy) := gaze in
  let '(b0, b1, b2) := bl c in
  let on b x u := fadd (fadd b (fmul gx x)) (fmul (fsub one gy) u) in
  (on b0 x0 u0, on b1 x1 u1, on b2 x2 u2).

Definition all_finite3 (v : vec3) : bool := let '(a, b, c) := v in is_finite a && is_finite b && is_finite c.

Definition gaze_angles_deg (c : DisplayCorners) (eye_mm : vec3) (gaze : vec2) : option (f64 * f64) :=
  let '(gx, gy) := gaze in
  if negb (all_finite3 eye_mm) || negb (is_finite gx && is_finite gy) then None
  else if negb (all_finite3 (tl c) && all_finite3 (tr c) && all_finite3 (bl c)) then None
  else
    let target := point_on_screen c gaze in
    let centre := point_on_screen c (half, half) in
    let '(d0, d1, d2) := sub target eye_mm in
    let '(r0, r1, r2) := sub centre eye_mm in
    let d_fwd := fopp d2 in
    let r_fwd := fopp r2 in
    if flt d_fwd MIN_FORWARD_MM || flt r_fwd MIN_FORWARD_MM then None
    else
      let yaw := fsub (to_degrees (atan2 d0 d_fwd)) (to_degrees (atan2 r0 r_fwd)) in
      let pitch := fsub (to_degrees (atan2 d1 d_fwd)) (to_degrees (atan2 r1 r_fwd)) in
      if is_finite yaw && is_finite pitch then Some (yaw, pitch) else None.

Definition extended_view (ev : ExtendedView) (c : DisplayCorners) (eye_mm : vec3) (gaze : vec2)
    : option (f64 * f64) :=
  if negb (ev_enabled ev) then Some (f64_zero, f64_zero)
  else match gaze_angles_deg c eye_mm gaze with
       | Some (raw_yaw, raw_pitch) =>
           y ← shape (ev_yaw ev) raw_yaw; p ← shape (ev_pitch ev) raw_pitch; Some (y, p)
       | None => Some (f64_zero, f64_zero)
       end.

Definition hold_through_blink (ev : ExtendedView) (last_valid : option (f64 * f64)) (lost_for_ms : Z)
    : f64 * f64 :=
  match last_valid with
  | Some l => if lost_for_ms <? hold_ms ev then l else (f64_zero, f64_zero)
  | None => (f64_zero, f64_zero)
  end.

Definition compose (head : HeadPose) (ev_yaw_deg ev_pitch_deg : f64) : HeadPose :=
  {head with yaw_deg := fadd (yaw_deg head) ev_yaw_deg; pitch_deg := fadd (pitch_deg head) ev_pitch_deg}.

(** ** Theorems *)

Lemma fabs_num x : is_nan (fabs x) = is_nan x.
Proof. by destruct x. Qed.
Lemma opp_abs_le x : is_nan x = false -> fle (fopp (fabs x)) (fabs x) = true.
Proof. by destruct x. Qed.

Lemma mul_neg x y : fmul (fopp x) y = fopp (fmul x y).
Proof.
  destruct x as [s|s| |s m e], y as [t|t| |t n f]; try done; try (by destruct s); try (by destruct t);
    try (by destruct s, t).
  unfold fmul, fopp. cbn [SFmul SFopp]. replace (xorb (negb s) t) with (negb (xorb s t)) by (by destruct s, t).
  unfold binary_round_aux. destruct (shr_fexp _ _ _ _ _) as [r e']. destruct (shr_fexp _ _ _ e' _) as [r' e''].
  destruct (shr_m r'); try done. by destruct (_ <=? _).
Qed.

Lemma flt_opp x y : flt (fopp x) (fopp y) = flt y x.
Proof.
  unfold flt, fopp, SFltb. destruct x as [s|s| |s m e], y as [t|t| |t n f]; cbn; try done;
    try (by destruct s); try (by destruct t); try (by destruct s, t).
  change (Pos.compare_cont Eq) with Pos.compare. rewrite (Z.compare_antisym f e), (Pos.compare_antisym n m).
  destruct s, t; try done; destruct (f ?= e); try done; by destruct (n ?= m)%positive.
Qed.

Lemma fopp_opp x : fopp (fopp x) = x.
Proof. destruct x as [[]|[]| |[] m e]; done. Qed.

Lemma clamp_opp x c : is_nan c = false ->
  clamp_to (fopp x) (fopp (fabs c)) (fabs c) = fopp (clamp_to x (fopp (fabs c)) (fabs c)).
Proof.
  intros Hc. assert (Hab : flt (fabs c) (fopp (fabs c)) = false).
  { pose proof (opp_abs_le c Hc) as H1. unfold fle in H1. rewrite fle_iff_not_lt in H1 by (by destruct c).
    unfold flt. by destruct (SFltb _ _). }
  assert (E1 : flt (fopp x) (fopp (fabs c)) = flt (fabs c) x) by apply flt_opp.
  assert (E2 : flt (fabs c) (fopp x) = flt x (fopp (fabs c))).
  { rewrite <- (fopp_opp (fabs c)) at 1. apply flt_opp. }
  assert (Href : flt (fabs c) (fabs c) = false) by (unfold flt, SFltb; by rewrite SFcompare_refl by (by destruct c)).
  unfold clamp_to. unfold flt in *. rewrite E1.
  destruct (SFltb x (fopp (fabs c))) eqn:Ex.
  - rewrite Hab. destruct (SFltb (fabs c) x) eqn:Ex'.
    + exfalso. apply flt_fle in Ex. pose proof (fle_trans _ _ _ Ex (opp_abs_le c Hc)) as H1.
      destruct (fle_num _ _ H1). by rewrite fle_iff_not_lt, Ex' in H1.
    + by rewrite E2, fopp_opp.
  - destruct (SFltb (fabs c) x) eqn:Ex'; [by rewrite Hab|by rewrite E2].
Qed.

Lemma signum_opp x : is_nan x = false -> signum (fopp x) = fopp (signum x).
Proof. destruct x as [[]|[]| |[] m e]; done. Qed.

(** A shaped axis does not panic when its ceiling is a number; it never swings the
    view past that ceiling, whatever the curve and the output range; it is exactly zero
    inside the deadzone and on an angle that is not a number; and, past the deadzone,
    looking the other way by the same angle gives exactly the opposite output. *)
Theorem shape_bounded_and_odd a raw (Hc : is_nan (clamp_deg a) = false) :
  exists o, shape a raw = Some o
  /\ (is_nan o = false -> fle (fopp (fabs (clamp_deg a))) o = true /\ fle o (fabs (clamp_deg a)) = true)
  /\ (is_finite raw = false \/ fle (fabs raw) (fmax (deadzone_deg a) f64_zero) = true -> o = f64_zero)
  /\ (is_finite raw = true -> fle (fabs raw) (fmax (deadzone_deg a) f64_zero) = false ->
       shape a (fopp raw) = Some (fopp o)).
Proof.
  assert (Hz : fle (fopp (fabs (clamp_deg a))) f64_zero = true /\ fle f64_zero (fabs (clamp_deg a)) = true)
    by (by destruct (clamp_deg a)).
  unfold shape, fclamp. rewrite opp_abs_le by done.
  assert (Ef : is_finite (fopp raw) = is_finite raw) by (by destruct raw).
  assert (Ea : fabs (fopp raw) = fabs raw) by (by destruct raw). rewrite Ef, Ea.
  destruct (is_finite raw) eqn:Efin; cbn [negb]; [|eexists; split_and!; done].
  destruct (fle (fabs raw) _) eqn:Ed; [eexists; split_and!; done|].
  eexists. split_and!; [done| | |].
  - intros Hn. set (y := fmul _ _) in *. destruct (is_nan y) eqn:Ey.
    + destruct y; try done. by destruct (clamp_deg a).
    + apply clamp_bounds; [done|by apply opp_abs_le].
  - by intros [?|?].
  - intros _ _. f_equal. rewrite signum_opp by (by apply is_finite_num).
    by rewrite !mul_neg, clamp_opp.
Qed.

(** Looking at the middle of the screen contributes exactly nothing, from wherever the
    eye is and however the screen is tilted: the angles there, where the geometry gives
    any, are zero, and so is the camera offset. *)
Theorem centre_is_straight_ahead c eye :
  (forall y p, gaze_angles_deg c eye (half, half) = Some (y, p) -> y = f64_zero /\ p = f64_zero)
  /\ (forall ev, extended_view ev c eye (half, half) = Some (f64_zero, f64_zero)).
Proof.
  assert (H1 : forall y p, gaze_angles_deg c eye (half, half) = Some (y, p) -> y = f64_zero /\ p = f64_zero).
  { intros y p. unfold gaze_angles_deg. destruct (_ || _); [done|]. destruct (negb _); [done|].
    destruct (sub (point_on_screen c (half, half)) eye) as [[d0 d1] d2]. destruct (_ || _); [done|].
    destruct (is_finite _) eqn:Ey; [|done]. destruct (is_finite (fsub (to_degrees (atan2 d1 _)) _)) eqn:Ep; [|done].
    cbn [andb]. intros [= <- <-]. split; by apply fsub_self_finite. }
  split; [exact H1|]. intros ev. unfold extended_view. destruct (negb (ev_enabled ev)); [done|].
  destruct (gaze_angles_deg c eye (half, half)) as [[y p]|]; [|done]. destruct (H1 y p eq_refl) as [-> ->].
  assert (Hsh : forall a, shape a f64_zero = Some f64_zero).
  { intros a. unfold shape. cbn [is_finite f64_zero negb]. 
    assert (E : fle (fabs f64_zero) (fmax (deadzone_deg a) f64_zero) = true); [|by rewrite E].
    destruct (deadzone_deg a) as [[]|[]| |[] m e]; done. }
  by rewrite !Hsh.
Qed.
End Fusion.

Lemma shape_bounded_and_odd_witness :
  let a := {| deadzone_deg := of_int 2; input_max_deg := of_int 25; output_max_deg := of_int 45;
              curve := Smoothstep; clamp_deg := of_int 20 |} in
  is_nan (clamp_deg a) = false /\ @shape small_angles a (of_int 30) = Some (of_int 20)
  /\ exists o, @shape small_angles a (of_int 30) = Some o /\ @shape small_angles a (fopp (of_int 30)) = Some (fopp o).
Proof.
  intros a. split; [reflexivity|]. split; [vm_compute; reflexivity|].
  destruct (@shape_bounded_and_odd small_angles a (of_int 30) eq_refl) as (o & H1 & _ & _ & H2).
  exists o. split; [exact H1|]. apply H2; vm_compute; reflexivity.
Defined.
