(* ===== verification/Output.v ===== *)
(** * Output: tracking frames and who gets them (crates/tobii-output: lib.rs, frame.rs, freetrack.rs, trackir.rs, sinks/; tobii-headpose/src/opentrack.rs)

    The wire forms (the 80-byte frame, the FreeTrack heap, the TrackIR structure, the
    opentrack datagram) are writes at fixed offsets of a zeroed buffer, as in the code;
    [Router] owns the send rate and what happens when tracking is lost. *)
From S2P Require Import Prelude F64 Floats Tlv Gaze HeadPose.

(** ** Buffers *)

(** [buf[off..off + b.len()].copy_from_slice(b)] *)
Definition put (off : Z) (b buf : bytes) : bytes :=
  slice buf 0 off ++ b ++ from buf (off + zlen b).

Lemma zlen_put off b buf : 0 <= off -> off + zlen b <= zlen buf -> zlen (put off b buf) = zlen buf.
Proof.
  intros Ho Hl. pose proof (zlen_nonneg b). unfold put.
  rewrite !zlen_app, zlen_slice, zlen_from by lia. lia.
Qed.

Lemma slice_put_same off b buf k : 0 <= off -> off + zlen b <= zlen buf -> k = off + zlen b ->
  slice (put off b buf) off k = b.
Proof.
  intros Ho Hl ->. pose proof (zlen_nonneg b). unfold put. apply slice_mid; [|done]. rewrite zlen_slice by lia. lia.
Qed.

Lemma slice_put_before off b buf a k : 0 <= a <= k -> k <= off -> off + zlen b <= zlen buf ->
  slice (put off b buf) a k = slice buf a k.
Proof.
  intros Ha Hk Hl. pose proof (zlen_nonneg b). unfold put. rewrite slice_app_l by (rewrite ?zlen_slice; lia).
  unfold slice. rewrite Z.sub_0_r. change (Z.to_nat 0) with 0%nat. rewrite drop_0, !take_drop_commute, take_take.
  do 2 f_equal. lia.
Qed.

Lemma slice_put_after off b buf a k : 0 <= off -> off + zlen b <= a -> a <= k -> k <= zlen buf ->
  slice (put off b buf) a k = slice buf a k.
Proof.
  intros Ho Ha Hk Hl. pose proof (zlen_nonneg b). unfold put.
  rewrite app_assoc, slice_app_r by (rewrite zlen_app, zlen_slice; lia).
  rewrite zlen_app, zlen_slice by lia. unfold slice, from. rewrite drop_drop. f_equal; [lia|]. f_equal. lia.
Qed.

(** Filling a zeroed buffer from the front. *)
Lemma put_front p b off n : off = zlen p -> zlen b <= Z.of_nat n ->
  put off b (p ++ replicate n x00) = (p ++ b) ++ replicate (n - length b) x00.
Proof.
  intros -> Hn. pose proof (zlen_nonneg p). pose proof (zlen_nonneg b). unfold put.
  rewrite slice_app_exact by done. rewrite <- app_assoc. do 2 f_equal.
  unfold from, zlen in *. rewrite drop_app_ge by lia. rewrite drop_replicate. f_equal. lia.
Qed.

(** Reading back one of the pieces a buffer is made of. *)
Lemma slice_piece (fs : list bytes) i x a k rest : fs !! i = Some x ->
  a = zlen (concat (take i fs)) -> k = a + zlen x -> slice (concat fs ++ rest) a k = x.
Proof.
  intros Hi -> ->. rewrite <- (take_drop_middle fs i x Hi) at 1. rewrite concat_app. cbn [concat].
  rewrite <- !app_assoc. by apply slice_mid.
Qed.

(** ** Presence and frames *)
Inductive Presence := NoneP | OneEye | BothEyesP.

Definition from_validity (left right : Z) : Presence :=
  match left =? VALIDITY_TRACKED, right =? VALIDITY_TRACKED with
  | true, true => BothEyesP
  | false, false => NoneP
  | _, _ => OneEye
  end.
Definition is_present (p : Presence) : bool := match p with NoneP => false | _ => true end.

Record TrackingFrame := {
  f_timestamp_us : Z;
  f_pose : option HeadPose;
  f_gaze : option vec2;
  presence : Presence;
}.

(** [TrackingFrame::from_pose] *)
Definition from_pose (timestamp : Z) (p : HeadPose) : TrackingFrame :=
  {| f_timestamp_us := timestamp; f_pose := Some p; f_gaze := None; presence := BothEyesP |}.

(** ** The 80-byte frame *)
Definition FRAME_LEN : Z := 80.
Definition MAGIC : bytes := [x54; x42; x47; x31].
Definition VERSION : Z := 1.
Definition FLAG_POSE_VALID : Z := Z.shiftl 1 0.
Definition FLAG_GAZE_VALID : Z := Z.shiftl 1 1.

Inductive DecodeError :=
| TooShort (n : Z)
| BadMagic (m : bytes)
| UnsupportedVersion (v : Z).

Definition put_f64 (off : Z) (v : f64) (buf : bytes) : bytes := put off (f64_to_le v) buf.
Definition get_f64 (buf : bytes) (off : Z) : f64 := f64_of_le (slice buf off (off + 8)).

Definition presence_code (p : Presence) : byte := match p with NoneP => x00 | OneEye => x01 | BothEyesP => x02 end.
Definition flags_of (f : TrackingFrame) : Z :=
  let flags := 0 in
  let flags := if f_pose f is Some _ then Z.lor flags FLAG_POSE_VALID else flags in
  if f_gaze f is Some _ then Z.lor flags FLAG_GAZE_VALID else flags.

(** [TrackingFrame::encode] *)
Definition encode (f : TrackingFrame) : bytes :=
  let buf := replicate (Z.to_nat FRAME_LEN) x00 in
  let buf := put 0 MAGIC buf in
  let buf := put 4 (to_le 2 VERSION) buf in
  let buf := put 6 [presence_code (presence f)] buf in
  let buf := put 7 [byte.of_Z (flags_of f)] buf in
  let buf := put 8 (to_le 8 (f_timestamp_us f)) buf in
  let p := default pose0 (f_pose f) in
  let buf := put_f64 16 (yaw_deg p) buf in
  let buf := put_f64 24 (pitch_deg p) buf in
  let buf := put_f64 32 (roll_deg p) buf in
  let buf := put_f64 40 (x_mm p) buf in
  let buf := put_f64 48 (y_mm p) buf in
  let buf := put_f64 56 (z_mm p) buf in
  let g := default (f64_zero, f64_zero) (f_gaze f) in
  let buf := put_f64 64 g.1 buf in
  put_f64 72 g.2 buf.

(** [TrackingFrame::decode] *)
Definition decode (buf : bytes) : result DecodeError TrackingFrame :=
  if zlen buf <? FRAME_LEN then Err (TooShort (zlen buf))
  else
    let magic := slice buf 0 4 in
    if negb (bool_decide (magic = MAGIC)) then Err (BadMagic magic)
    else
      let version := of_le (slice buf 4 6) in
      if VERSION <? version then Err (UnsupportedVersion version)
      else
        let presence_ := match slice buf 6 7 with
                         | [x02] => BothEyesP
                         | [x01] => OneEye
                         | _ => NoneP
                         end in
        let flags := of_le (slice buf 7 8) in
        Ok {| f_timestamp_us := sgn 64 (of_le (slice buf 8 16));
              f_pose := if negb (Z.land flags FLAG_POSE_VALID =? 0)
                        then Some {| yaw_deg := get_f64 buf 16; pitch_deg := get_f64 buf 24; roll_deg := get_f64 buf 32;
                                     x_mm := get_f64 buf 40; y_mm := get_f64 buf 48; z_mm := get_f64 buf 56 |}
                        else None;
              f_gaze := if negb (Z.land flags FLAG_GAZE_VALID =? 0)
                        then Some (get_f64 buf 64, get_f64 buf 72) else None;
              presence := presence_ |}.

(** *** The frame reads back *)
Definition frame_pieces (f : TrackingFrame) : list bytes :=
  let p := default pose0 (f_pose f) in
  let g := default (f64_zero, f64_zero) (f_gaze f) in
  [MAGIC; to_le 2 VERSION; [presence_code (presence f)]; [byte.of_Z (flags_of f)]; to_le 8 (f_timestamp_us f);
   f64_to_le (yaw_deg p); f64_to_le (pitch_deg p); f64_to_le (roll_deg p);
   f64_to_le (x_mm p); f64_to_le (y_mm p); f64_to_le (z_mm p); f64_to_le g.1; f64_to_le g.2].

Lemma zlen_f64_to_le x : zlen (f64_to_le x) = 8.
Proof. apply zlen_to_le. Qed.
Lemma length_f64_to_le x : length (f64_to_le x) = 8%nat.
Proof. unfold f64_to_le, to_le. apply length_le_split. Qed.
Lemma length_to_le n v : length (to_le n v) = n.
Proof. apply length_le_split. Qed.
#[export] Hint Rewrite zlen_f64_to_le : zlen.

(** The pieces' lengths, so that offsets compute. *)
Ltac piece_len := cbn [concat take app]; repeat (rewrite ?zlen_app, ?zlen_f64_to_le, ?zlen_to_le); reflexivity.
Ltac fill := rewrite put_front; [|piece_len|rewrite ?zlen_f64_to_le, ?zlen_to_le; unfold zlen; simpl; lia];
  rewrite ?length_f64_to_le, ?length_to_le; cbn [length Nat.sub].

Lemma encode_pieces f : encode f = concat (frame_pieces f).
Proof.
  unfold encode, put_f64. change (replicate (Z.to_nat FRAME_LEN) x00) with ([] ++ replicate 80 x00).
  do 13 fill. cbn [replicate]. rewrite app_nil_r. unfold frame_pieces. cbn [concat]. by rewrite <- !app_assoc, app_nil_r.
Qed.

Definition pose_ok (p : HeadPose) : Prop :=
  is_f64 (x_mm p) /\ is_f64 (y_mm p) /\ is_f64 (z_mm p)
  /\ is_f64 (yaw_deg p) /\ is_f64 (pitch_deg p) /\ is_f64 (roll_deg p).
(** Every field within its type's range. *)
Definition frame_ok (f : TrackingFrame) : Prop :=
  is_i 64 (f_timestamp_us f)
  /\ (forall p, f_pose f = Some p -> pose_ok p)
  /\ (forall g, f_gaze f = Some g -> is_f64 g.1 /\ is_f64 g.2).

Lemma flags_read f : of_le [byte.of_Z (flags_of f)] = flags_of f.
Proof. unfold flags_of. destruct (f_pose f), (f_gaze f); reflexivity. Qed.

Ltac piece fs i a := rewrite (slice_piece fs i _ a _ _ eq_refl) by piece_len.

Lemma get_f64_piece fs rest i x a : fs !! i = Some (f64_to_le x) -> is_f64 x ->
  a = zlen (concat (take i fs)) -> get_f64 (concat fs ++ rest) a = x.
Proof.
  intros Hi Hx ->. unfold get_f64. rewrite (slice_piece fs i _ _ _ _ Hi) by (rewrite ?zlen_f64_to_le; done).
  by apply f64_of_le_to_le.
Qed.

(** A frame that is sent is the frame that arrives: decoding the 80 bytes of any
    frame, whatever follows them, gives back its timestamp, its presence, and its pose
    and gaze bit for bit, an absent one as absent. *)
Theorem frame_roundtrip f rest (Hf : frame_ok f) : zlen (encode f) = FRAME_LEN /\ decode (encode f ++ rest) = Ok f.
Proof.
  rewrite encode_pieces. destruct Hf as (Ht & Hp & Hg).
  assert (Hlen : zlen (concat (frame_pieces f)) = FRAME_LEN) by (unfold frame_pieces; piece_len).
  split; [exact Hlen|]. unfold decode. pose proof (zlen_nonneg rest).
  rewrite (proj2 (Z.ltb_ge _ _)) by (rewrite zlen_app, Hlen; lia).
  piece (frame_pieces f) 0%nat 0. rewrite bool_decide_eq_true_2 by done. cbn [negb].
  piece (frame_pieces f) 1%nat 4. rewrite of_le2_inv by done. change (VERSION <? VERSION) with false. cbv iota.
  piece (frame_pieces f) 2%nat 6. piece (frame_pieces f) 3%nat 7. piece (frame_pieces f) 4%nat 8. rewrite flags_read, of_le_to_le_wrap. change (Z.of_nat 8 * 8) with 64.
  assert (Ets : sgn 64 (wrap 64 (f_timestamp_us f)) = f_timestamp_us f) by (by apply sgn_wrap). rewrite Ets.
  destruct f as [ts po ga pr]. unfold flags_of. cbn [f_timestamp_us f_pose f_gaze presence] in *. f_equal.
  assert (Epr : match [presence_code pr] with [x02] => BothEyesP | [x01] => OneEye | _ => NoneP end = pr) by (by destruct pr).
  rewrite Epr. f_equal.
  - destruct po as [p|]; [|by destruct ga]. destruct (Hp p eq_refl) as (H1 & H2 & H3 & H4 & H5 & H6).
    replace (negb _) with true by (by destruct ga). destruct p as [x y z yw pt rl]. cbn [x_mm y_mm z_mm yaw_deg pitch_deg roll_deg] in *.
    do 2 f_equal; [eapply (get_f64_piece _ _ 8)|eapply (get_f64_piece _ _ 9)|eapply (get_f64_piece _ _ 10)
      |eapply (get_f64_piece _ _ 5)|eapply (get_f64_piece _ _ 6)|eapply (get_f64_piece _ _ 7)]; try done; piece_len.
  - destruct ga as [[gx gy]|]; [|by destruct po]. destruct (Hg _ eq_refl) as [H1 H2]. cbn [fst snd] in *.
    replace (negb _) with true by (by destruct po).
    do 2 f_equal; [eapply (get_f64_piece _ _ 11)|eapply (get_f64_piece _ _ 12)]; try done; piece_len.
Qed.

Definition sample_frame : TrackingFrame :=
  {| f_timestamp_us := -1234567; f_pose := Some {| x_mm := lit 25 2; y_mm := of_int (-33); z_mm := of_int 680;
       yaw_deg := lit 1 3; pitch_deg := S754_zero true; roll_deg := S754_nan |};
     f_gaze := None; presence := OneEye |}.
Lemma frame_roundtrip_witness :
  frame_ok sample_frame /\ decode (encode sample_frame ++ [xff]) = Ok sample_frame.
Proof.
  assert (H : frame_ok sample_frame).
  { split; [split; vm_compute; done|]. split; [|by intros ? ?]. intros p [= <-]. split_and!; reflexivity. }
  split; [exact H|]. apply (frame_roundtrip sample_frame [xff] H).
Defined.

(** ** FreeTrack *)
Module freetrack.
Definition FT_DATA_LEN : Z := 92.
Definition FT_HEAP_LEN : Z := 108.
Definition DATA_ID_WRAP : Z := Z.shiftl 1 29.

Definition DATA_ID : Z := 0.
Definition YAW : Z := 12.
Definition PITCH : Z := 16.
Definition ROLL : Z := 20.
Definition X : Z := 24.
Definition Y : Z := 28.
Definition Z_ : Z := 32.
Definition RAW_YAW : Z := 36.
Definition RAW_PITCH : Z := 40.
Definition RAW_ROLL : Z := 44.
Definition RAW_X : Z := 48.
Definition RAW_Y : Z := 52.
Definition RAW_Z : Z := 56.
Definition GAME_ID : Z := 92.
Definition GAME_ID2 : Z := 104.

Definition next_data_id (prev : Z) : Z := prev mod (DATA_ID_WRAP - 1) + 1.

Definition f32_of (v : f64) : f32 := let n := as_f32 v in if is_finite n then n else f64_zero.
Definition put_f32 (off : Z) (v : f32) (buf : bytes) : bytes := put off (f32_to_le v) buf.

Definition ft_heap_bytes (frame : TrackingFrame) (data_id game_id : Z) : bytes :=
  let buf := replicate (Z.to_nat FT_HEAP_LEN) x00 in
  let p := default pose0 (f_pose frame) in
  let yaw := f32_of (to_radians (yaw_deg p)) in
  let pitch := f32_of (to_radians (pitch_deg p)) in
  let roll := f32_of (to_radians (roll_deg p)) in
  let x := f32_of (x_mm p) in
  let y := f32_of (y_mm p) in
  let z := f32_of (z_mm p) in
  let buf := put DATA_ID (to_le 4 data_id) buf in
  let buf := put_f32 YAW yaw buf in
  let buf := put_f32 PITCH pitch buf in
  let buf := put_f32 ROLL roll buf in
  let buf := put_f32 X x buf in
  let buf := put_f32 Y y buf in
  let buf := put_f32 Z_ z buf in
  let buf := put_f32 RAW_YAW yaw buf in
  let buf := put_f32 RAW_PITCH pitch buf in
  let buf := put_f32 RAW_ROLL roll buf in
  let buf := put_f32 RAW_X x buf in
  let buf := put_f32 RAW_Y y buf in
  let buf := put_f32 RAW_Z z buf in
  let buf := put GAME_ID (to_le 4 game_id) buf in
  put GAME_ID2 (to_le 4 game_id) buf.
End freetrack.

(** ** TrackIR *)
Module trackir.
Record TrackIrData := {
  wNPStatus : Z; wPFrameSignature : Z; dwNPIOData : Z;
  fNPRoll : f32; fNPPitch : f32; fNPYaw : f32;
  fNPX : f32; fNPY : f32; fNPZ : f32;
  fNPRawX : f32; fNPRawY : f32; fNPRawZ : f32;
  fNPDeltaX : f32; fNPDeltaY : f32; fNPDeltaZ : f32;
  fNPSmoothX : f32; fNPSmoothY : f32; fNPSmoothZ : f32;
}.

Definition ROTATION_SCALE : f32 := div32 (of_int32 16384) (of_int32 180).
Definition TRANSLATION_SCALE : f32 := lit32 32768 1000.
Definition AXIS_LIMIT : f32 := of_int32 16383.
Definition NP_STATUS_REMOTE_ACTIVE : Z := 0.

Definition clamp_axis (v : f32) : f32 :=
  if is_finite v then clamp_to v (SFopp AXIS_LIMIT) AXIS_LIMIT else f64_zero.
Definition f32_at (buf : bytes) (off : Z) : f32 := f32_of_le (slice buf off (off + 4)).

Definition from_ft_heap (raw : bytes) (signature : Z) (out : TrackIrData) : TrackIrData :=
  let x := clamp_axis (mul32 (f32_at raw freetrack.X) TRANSLATION_SCALE) in
  let y := clamp_axis (mul32 (f32_at raw freetrack.Y) TRANSLATION_SCALE) in
  let z := clamp_axis (mul32 (f32_at raw freetrack.Z_) TRANSLATION_SCALE) in
  {out with
     wNPStatus := NP_STATUS_REMOTE_ACTIVE; wPFrameSignature := signature; dwNPIOData := 0;
     fNPRoll := clamp_axis (mul32 (to_degrees32 (f32_at raw freetrack.ROLL)) ROTATION_SCALE);
     fNPPitch := clamp_axis (mul32 (to_degrees32 (f32_at raw freetrack.PITCH)) ROTATION_SCALE);
     fNPYaw := clamp_axis (mul32 (to_degrees32 (f32_at raw freetrack.YAW)) ROTATION_SCALE);
     fNPX := x; fNPY := y; fNPZ := z;
     fNPRawX := x; fNPRawY := y; fNPRawZ := z;
     fNPSmoothX := x; fNPSmoothY := y; fNPSmoothZ := z;
     fNPDeltaX := f64_zero; fNPDeltaY := f64_zero; fNPDeltaZ := f64_zero}.
End trackir.

(** ** opentrack *)
Definition DATAGRAM_LEN : Z := 48.
Definition OT_TRANSLATION_SCALE : f64 := lit 1 10.
Definition to_opentrack_datagram (p : HeadPose) : bytes :=
  concat (f64_to_le <$> [fmul (x_mm p) OT_TRANSLATION_SCALE; fmul (y_mm p) OT_TRANSLATION_SCALE;
                         fmul (z_mm p) OT_TRANSLATION_SCALE; yaw_deg p; pitch_deg p; roll_deg p]).

(** What each UDP sink puts in its datagram, if it sends one. *)
Definition opentrack_emit (frame : TrackingFrame) : option bytes := to_opentrack_datagram <$> f_pose frame.
Definition bridge_emit (frame : TrackingFrame) : option bytes := Some (encode frame).

(** ** The router *)

(** A sink: what [emit] makes of it, and whether it returned [Ok]. *)
Class Sink (S : Type) := emit : S -> TrackingFrame -> bool * S.

(** [Duration::from_secs_f64], which rounds to the nearest nanosecond, ties to even, and
    panics on a negative value, on one that is not finite and on 2^64 seconds or more. *)
Definition div_even (a b : Z) : Z :=
  let q := a / b in
  match (2 * (a mod b) ?= b) with Lt => q | Eq => if Z.even q then q else q + 1 | Gt => q + 1 end.
Definition from_secs_f64 (x : f64) : option Z :=
  match x with
  | S754_zero _ => Some 0
  | S754_finite false m e =>
      let ns := if 0 <=? e then Z.pos m * 2 ^ e * 10 ^ 9 else div_even (Z.pos m * 10 ^ 9) (2 ^ (- e)) in
      if ns <? 2 ^ 64 * 10 ^ 9 then Some ns else None
  | _ => None
  end.

Section Router.
Context {S : Type} `{Sink S}.

Record Router := { sinks : list S; send_interval : Z; last_send : option Z; failures : list Z }.
Inductive Emitted := EmSent | Throttled | TrackingLost.

(** [Router::new]; [None] is the panic of [from_secs_f64]. *)
Definition new_router (rate_hz : f64) : option Router :=
  interval ← (if is_finite rate_hz && flt f64_zero rate_hz then from_secs_f64 (fdiv (of_int 1) rate_hz) else Some 0);
  Some {| sinks := []; send_interval := interval; last_send := None; failures := [] |}.

(** [Router::add] *)
Definition add_sink (s : S) (r : Router) : Router := {r with sinks := sinks r ++ [s]; failures := failures r ++ [0] }.

Definition u64_max : Z := 2 ^ 64 - 1.
(** The loop over the sinks. *)
Fixpoint emit_all (frame : TrackingFrame) (ss : list S) (fs : list Z) : list S * list Z :=
  match ss, fs with
  | s :: ss, n :: fs =>
      let '(ok, s) := emit s frame in
      let '(ss, fs) := emit_all frame ss fs in
      (s :: ss, (if ok then n else saturating_inc u64_max n) :: fs)
  | _, _ => (ss, fs)
  end.

Definition throttled (r : Router) (now : Z) : bool :=
  match last_send r with Some l => saturating_duration_since now l <? send_interval r | None => false end.

(** [Router::offer] *)
Definition router_offer (r : Router) (frame : TrackingFrame) (now : Z) : Emitted * Router :=
  match f_pose frame with
  | None => (TrackingLost, r)
  | Some _ =>
      if throttled r now then (Throttled, r)
      else let '(ss, fs) := emit_all frame (sinks r) (failures r) in
           (EmSent, {r with last_send := Some now; sinks := ss; failures := fs})
  end.
End Router.
Arguments Router : clear implicits.

(** ** Theorems *)

(** The FreeTrack counter is never zero, which stands for a mapping nothing was
    written to, never repeats on consecutive frames, and stays below its wrap, whatever
    32-bit value it starts from; from one value it comes back to it only after having
    shown all the 2^29 - 1 others. *)
Theorem data_id_advances prev (Hp : is_u 32 prev) :
  let n := freetrack.next_data_id prev in
  1 <= n < freetrack.DATA_ID_WRAP /\ n <> prev
  /\ (forall k, Z.of_nat k < freetrack.DATA_ID_WRAP - 1 ->
        Nat.iter k freetrack.next_data_id n = (n - 1 + Z.of_nat k) mod (freetrack.DATA_ID_WRAP - 1) + 1).
Proof.
  intros n. unfold is_u in Hp. assert (HW : freetrack.DATA_ID_WRAP - 1 = 536870911) by reflexivity.
  assert (Hn : 1 <= n <= 536870911).
  { unfold n, freetrack.next_data_id. rewrite HW. pose proof (Z.mod_pos_bound prev 536870911). lia. }
  assert (HW' : freetrack.DATA_ID_WRAP = 536870912) by reflexivity.
  split_and!; [lia|lia| |].
  - unfold n, freetrack.next_data_id. rewrite HW. intros E.
    pose proof (Z.mod_pos_bound prev 536870911). destruct (Z_lt_le_dec prev 536870911) as [Hlt|Hge].
    + rewrite Z.mod_small in E; lia.
    + assert (prev = 536870911) by lia. subst prev. rewrite Z.mod_same in E by lia. lia.
  - clearbody n. rewrite HW. induction k as [|k IH]; intros Hk.
    + cbn [Nat.iter nat_rect]. rewrite Z.add_0_r, Z.mod_small; lia.
    + cbn [Nat.iter nat_rect]. change (nat_rect _ n _ k) with (Nat.iter k freetrack.next_data_id n).
      rewrite IH by lia. unfold freetrack.next_data_id. rewrite HW.
      replace (n - 1 + Z.of_nat (Datatypes.S k)) with (n - 1 + Z.of_nat k + 1) by lia.
      by rewrite Zplus_mod_idemp_l.
Qed.

Lemma data_id_advances_witness :
  is_u 32 (2 ^ 29 - 1) /\ freetrack.next_data_id (2 ^ 29 - 1) = 1 /\ freetrack.next_data_id (2 ^ 29 - 1) <> 2 ^ 29 - 1.
Proof.
  assert (H : is_u 32 (2 ^ 29 - 1)) by (split; reflexivity || (vm_compute; congruence)).
  split; [exact H|]. split; [reflexivity|]. apply (data_id_advances (2 ^ 29 - 1) H).
Defined.

Lemma clamp_axis_range v : is_finite (trackir.clamp_axis v) = true
  /\ SFleb (SFopp trackir.AXIS_LIMIT) (trackir.clamp_axis v) = true
  /\ SFleb (trackir.clamp_axis v) trackir.AXIS_LIMIT = true.
Proof.
  unfold trackir.clamp_axis. destruct (is_finite v) eqn:E; [|done].
  assert (Hb : SFleb (SFopp trackir.AXIS_LIMIT) trackir.AXIS_LIMIT = true) by reflexivity.
  destruct (clamp_bounds v _ _ (is_finite_num v E) Hb) as [H1 H2]. split; [|done].
  destruct (clamp_to _ _ _) as [|[]| |]; try done.
Qed.

Definition axis_ok (v : f32) : Prop :=
  is_finite v = true /\ SFleb (SFopp trackir.AXIS_LIMIT) v = true /\ SFleb v trackir.AXIS_LIMIT = true.

(** Whatever is in the shared mapping, all 2^864 contents of it, a TrackIR game is
    handed finite axes within the 14-bit range, and the raw and smoothed translations it
    may prefer are the filtered ones. *)
Theorem trackir_axes_in_range raw signature out :
  let d := trackir.from_ft_heap raw signature out in
  Forall axis_ok [trackir.fNPRoll d; trackir.fNPPitch d; trackir.fNPYaw d; trackir.fNPX d; trackir.fNPY d; trackir.fNPZ d]
  /\ (trackir.fNPRawX d, trackir.fNPRawY d, trackir.fNPRawZ d) = (trackir.fNPX d, trackir.fNPY d, trackir.fNPZ d)
  /\ (trackir.fNPSmoothX d, trackir.fNPSmoothY d, trackir.fNPSmoothZ d) = (trackir.fNPX d, trackir.fNPY d, trackir.fNPZ d)
  /\ trackir.wPFrameSignature d = signature.
Proof.
  intros d. unfold d, trackir.from_ft_heap. destruct out. simpl. split_and!; try done.
  repeat (constructor; [apply clamp_axis_range|]). constructor.
Qed.

(** *** The mapping reads back *)
Lemma put_gap p b off (g n : nat) : off = zlen p + Z.of_nat g -> Z.of_nat g + zlen b <= Z.of_nat n ->
  put off b (p ++ replicate n x00) = ((p ++ replicate g x00) ++ b) ++ replicate (n - g - length b) x00.
Proof.
  intros -> Hn. pose proof (zlen_nonneg b). replace n with (g + (n - g))%nat at 1 by lia.
  rewrite replicate_add, app_assoc. rewrite put_front; [done| |lia].
  rewrite zlen_app, zlen_replicate. done.
Qed.

Lemma zlen_f32_to_le x : zlen (f32_to_le x) = 4.
Proof. apply zlen_to_le. Qed.
Lemma length_f32_to_le x : length (f32_to_le x) = 4%nat.
Proof. unfold f32_to_le, to_le. apply length_le_split. Qed.

Lemma f32_of_ok v : is_f32 (freetrack.f32_of v) /\ is_finite (freetrack.f32_of v) = true.
Proof.
  unfold freetrack.f32_of. destruct (is_finite (as_f32 v)) eqn:E; [|done]. split; [apply as_f32_valid|done].
Qed.

(** The six axes, in the mapping's order and units. *)
Definition ft_axes (frame : TrackingFrame) : list f32 :=
  let p := default pose0 (f_pose frame) in
  freetrack.f32_of <$> [to_radians (yaw_deg p); to_radians (pitch_deg p); to_radians (roll_deg p); x_mm p; y_mm p; z_mm p].

Definition heap_pieces (axes : list f32) (data_id game_id : Z) : list bytes :=
  [to_le 4 data_id; replicate 8 x00] ++ (f32_to_le <$> axes) ++ (f32_to_le <$> axes)
  ++ [replicate 32 x00; to_le 4 game_id; replicate 8 x00; to_le 4 game_id].

Ltac heap_len := cbn [concat take app fmap list_fmap];
  repeat (rewrite ?zlen_app, ?zlen_f32_to_le, ?zlen_to_le, ?zlen_replicate); reflexivity.
Ltac fill32 g := rewrite (put_gap _ _ _ g);
  [|heap_len|rewrite ?zlen_f32_to_le, ?zlen_to_le; unfold zlen; simpl; lia];
  rewrite ?length_f32_to_le, ?length_to_le; cbn [length Nat.sub].

Lemma heap_is_pieces frame data_id game_id :
  freetrack.ft_heap_bytes frame data_id game_id = concat (heap_pieces (ft_axes frame) data_id game_id).
Proof.
  unfold freetrack.ft_heap_bytes, freetrack.put_f32.
  change (replicate (Z.to_nat freetrack.FT_HEAP_LEN) x00) with ([] ++ replicate 108 x00).
  fill32 0%nat. fill32 8%nat. do 11 fill32 0%nat. fill32 32%nat. fill32 8%nat. cbn [replicate].
  unfold heap_pieces, ft_axes. cbn [concat app fmap list_fmap]. by rewrite <- !app_assoc, !app_nil_r.
Qed.

Lemma f32_at_piece fs i x a : fs !! i = Some (f32_to_le x) -> is_f32 x ->
  a = zlen (concat (take i fs)) -> trackir.f32_at (concat fs) a = x.
Proof.
  intros Hi Hx ->. unfold trackir.f32_at. rewrite <- (app_nil_r (concat fs)).
  rewrite (slice_piece fs i _ _ _ _ Hi) by (rewrite ?zlen_f32_to_le; done). by apply f32_of_le_to_le.
Qed.

(** What the provider writes is what the two consumer libraries read. The mapping is
    108 bytes with the counter at its front; the six axes, radians and millimetres, read
    back exactly, once as filtered and once as raw values, and are never infinite or NaN
    whatever the pose holds; and the TrackIR library's axes are the scaled, clamped ones. *)
Theorem mapping_reads_back frame data_id game_id (Hid : is_u 32 data_id) :
  let heap := freetrack.ft_heap_bytes frame data_id game_id in
  zlen heap = freetrack.FT_HEAP_LEN
  /\ of_le (slice heap freetrack.DATA_ID (freetrack.DATA_ID + 4)) = data_id
  /\ trackir.f32_at heap <$> [freetrack.YAW; freetrack.PITCH; freetrack.ROLL; freetrack.X; freetrack.Y; freetrack.Z_] = ft_axes frame
  /\ trackir.f32_at heap <$> [freetrack.RAW_YAW; freetrack.RAW_PITCH; freetrack.RAW_ROLL; freetrack.RAW_X; freetrack.RAW_Y; freetrack.RAW_Z] = ft_axes frame
  /\ Forall (fun v => is_finite v = true) (ft_axes frame).
Proof.
  intros heap. unfold heap. rewrite heap_is_pieces. unfold ft_axes.
  set (p := default pose0 (f_pose frame)). cbn [fmap list_fmap].
  set (fs := heap_pieces _ _ _).
  assert (Hread : forall i x a, fs !! i = Some (f32_to_le (freetrack.f32_of x)) -> a = zlen (concat (take i fs)) ->
                    trackir.f32_at (concat fs) a = freetrack.f32_of x).
  { intros i x a Hi Ha. eapply f32_at_piece; [exact Hi|apply f32_of_ok|exact Ha]. }
  split_and!.
  - unfold fs, heap_pieces. heap_len.
  - change (freetrack.DATA_ID + 4) with 4. change freetrack.DATA_ID with 0. rewrite <- (app_nil_r (concat fs)), (slice_piece fs 0 _ 0 4 [] eq_refl) by heap_len. by apply of_le4_inv.
  - f_equal; [eapply (Hread 2%nat)|f_equal; [eapply (Hread 3%nat)|f_equal; [eapply (Hread 4%nat)|f_equal;
      [eapply (Hread 5%nat)|f_equal; [eapply (Hread 6%nat)|f_equal; eapply (Hread 7%nat)]]]]]; try done; heap_len.
  - f_equal; [eapply (Hread 8%nat)|f_equal; [eapply (Hread 9%nat)|f_equal; [eapply (Hread 10%nat)|f_equal;
      [eapply (Hread 11%nat)|f_equal; [eapply (Hread 12%nat)|f_equal; eapply (Hread 13%nat)]]]]]; try done; heap_len.
  - repeat (constructor; [apply f32_of_ok|]). constructor.
Qed.

Lemma mapping_reads_back_witness :
  is_u 32 7 /\ trackir.f32_at (freetrack.ft_heap_bytes sample_frame 7 0) <$>
    [freetrack.YAW; freetrack.PITCH; freetrack.ROLL; freetrack.X; freetrack.Y; freetrack.Z_] = ft_axes sample_frame.
Proof.
  assert (H : is_u 32 7) by (split; [lia|reflexivity]). split; [exact H|].
  apply (mapping_reads_back sample_frame 7 0 H).
Defined.

(** *** The router *)
Section RouterTheorems.
Context {S : Type} `{Sink S}.

Fixpoint offers (r : Router S) (evs : list (TrackingFrame * Z)) : list Emitted * Router S :=
  match evs with
  | [] => ([], r)
  | (f, now) :: evs => let '(o, r) := router_offer r f now in let '(os, r) := offers r evs in (o :: os, r)
  end.

(** The frames, and the instants, of the offers that were sent. *)
Fixpoint sent (evs : list (TrackingFrame * Z)) (os : list Emitted) : list (TrackingFrame * Z) :=
  match evs, os with
  | e :: evs, EmSent :: os => e :: sent evs os
  | _ :: evs, _ :: os => sent evs os
  | _, _ => []
  end.

(** Each instant at least [iv] after the one before. *)
Fixpoint spaced (iv : Z) (last : option Z) (ts : list Z) : Prop :=
  match ts with
  | [] => True
  | t :: ts => match last with Some l => iv <= saturating_duration_since t l | None => True end /\ spaced iv (Some t) ts
  end.

Definition feed_sink (s : S) (fs : list TrackingFrame) : S := foldl (fun s f => (emit s f).2) s fs.

Lemma emit_all_sinks f ss ns : length ss = length ns ->
  (emit_all f ss ns).1 = (fun s => (emit s f).2) <$> ss /\ length (emit_all f ss ns).2 = length ns.
Proof.
  revert ns. induction ss as [|s ss IH]; intros [|n ns] Hl; try done. injection Hl as Hl.
  destruct (IH ns Hl) as [H1 H2]. cbn [emit_all]. destruct (emit s f) as [ok s'] eqn:E.
  destruct (emit_all f ss ns) as [ss' ns']. cbn [fst snd fmap list_fmap length] in *. rewrite E, H1, H2. done.
Qed.

Lemma offer_cases r f now : length (sinks r) = length (failures r) ->
  (f_pose f = None /\ router_offer r f now = (TrackingLost, r))
  \/ (f_pose f <> None /\ throttled r now = true /\ router_offer r f now = (Throttled, r))
  \/ (f_pose f <> None /\ throttled r now = false /\ exists r',
      router_offer r f now = (EmSent, r') /\ last_send r' = Some now /\ send_interval r' = send_interval r
      /\ sinks r' = (fun s => (emit s f).2) <$> sinks r /\ length (sinks r') = length (failures r')).
Proof.
  intros Hl. unfold router_offer. destruct (f_pose f); [right|by left]. destruct (throttled r now); [by left|right].
  split; [done|]. split; [done|]. destruct (emit_all_sinks f _ _ Hl) as [H1 H2].
  destruct (emit_all f (sinks r) (failures r)) as [ss ns]. cbn [fst snd] in *. eexists. split; [done|].
  destruct r. simpl in *. split_and!; try done. rewrite H1, length_fmap, H2. done.
Qed.

(** C28: Over any run of offers, what reaches the sinks is a selection of the frames
    offered, in order: only frames with a pose, each at least one send interval after the
    one sent before it. Every sink gets exactly that selection, whatever the others
    answer, and a frame is reported lost exactly when it has no pose. *)
Theorem router_delivers r evs (Hl : length (sinks r) = length (failures r)) :
  let os := (offers r evs).1 in
  let got := sent evs os in
  sinks (offers r evs).2 = (fun s => feed_sink s (fst <$> got)) <$> sinks r
  /\ spaced (send_interval r) (last_send r) (snd <$> got)
  /\ Forall (fun e => f_pose e.1 <> None) got
  /\ Forall2 (fun e o => o = TrackingLost <-> f_pose e.1 = None) evs os.
Proof.
  revert r Hl. induction evs as [|[f now] evs IH]; intros r Hl; cbn [offers].
  { cbn [sent fst snd fmap list_fmap spaced]. split_and!; [symmetry; apply list_fmap_id|done|constructor|constructor]. }
  destruct (offer_cases r f now Hl) as [[Hf E]|[(Hf & Ht & E)|(Hf & Ht & r' & E & Hls & Hiv & Hs & Hl')]]; rewrite E.
  - specialize (IH r Hl). destruct (offers r evs) as [os r'']. cbn [fst snd sent] in *.
    destruct IH as (H1 & H2 & H3 & H4). split_and!; try done. constructor; [done|done].
  - specialize (IH r Hl). destruct (offers r evs) as [os r'']. cbn [fst snd sent] in *.
    destruct IH as (H1 & H2 & H3 & H4). split_and!; try done. constructor; [split; [done|by intros ?]|done].
  - specialize (IH r' Hl'). destruct (offers r' evs) as [os r'']. cbn [fst snd sent] in *.
    destruct IH as (H1 & H2 & H3 & H4). rewrite !fmap_cons. cbn [fst snd spaced]. split_and!.
    + rewrite H1, Hs, <- list_fmap_compose. done.
    + unfold throttled in Ht. destruct (last_send r) as [l|]; [|done]. by apply Z.ltb_ge in Ht.
    + by rewrite <- Hiv, <- Hls.
    + by constructor.
    + constructor; [split; [done|by intros ?]|done].
Qed.
End RouterTheorems.

(** A sink that keeps what it is sent and answers as it is told to. *)
#[local] Instance recording_sink : Sink (bool * list TrackingFrame) := fun s f => (s.1, (s.1, s.2 ++ [f])).

Lemma router_delivers_witness :
  let r := {| sinks := [(true, []); (false, [])]; send_interval := millis 10; last_send := None; failures := [0; 0] |} in
  let lost := {sample_frame with f_pose := None} in
  let evs := [(sample_frame, 0); (sample_frame, millis 5); (lost, millis 11); (sample_frame, millis 12)] in
  length (sinks r) = length (failures r)
  /\ (offers r evs).1 = [EmSent; Throttled; TrackingLost; EmSent]
  /\ sinks (offers r evs).2 = (fun s => feed_sink s (fst <$> sent evs (offers r evs).1)) <$> sinks r.
Proof. intros r lost evs. split; [done|]. split; [reflexivity|]. apply (router_delivers r evs). reflexivity. Defined.

(** [Router::new] means to accept any rate, and accepts every one that is not finite
    or not positive as no throttle at all; but a positive one so small that its interval
    does not fit a [Duration] makes it panic, and such a rate is one the configuration
    accepts. *)
Theorem tiny_rate_panics {S} :
  let r := S754_finite false (2 ^ 52) (-117) in
  is_f64 r /\ is_finite r = true /\ flt f64_zero r = true /\ new_router (S := S) r = None
  /\ (forall x, is_finite x && flt f64_zero x = false ->
        new_router (S := S) x = Some {| sinks := []; send_interval := 0; last_send := None; failures := [] |}).
Proof.
  intros r. do 4 (split; [vm_compute; reflexivity|]). intros x Hx. unfold new_router. by rewrite Hx.
Qed.
