(* ===== verification/Disk.v ===== *)
(** * Disk: files, and [write_atomic] (crates/tobii-config/src/store.rs)

    The system calls [write_atomic] makes, on a file system that can fail at any call and
    lose power at any moment: names and file contents reach the disk separately, and only
    what was synced is certain to be there. Triples over the state and error monad carry the
    proof that whatever fails, and whenever the power goes, a reader finds what he could
    have found before or the new content, whole. *)
From stdpp Require Import gmap.
From S2P Require Import Prelude Utf8 Text Paths.

(** The kind of an [io::Error]. *)
Inductive io_error := NotFound | AlreadyExists | InvalidInput | InvalidData | OtherIo (m : text).
#[global] Instance io_error_eq_dec : EqDecision io_error. Proof. solve_decision. Defined.

(** ** The file system *)
Record Inode := { content : bytes; synced : bool }.
Record Fs := {
  dir : gmap text nat;              (* the names as a running program sees them *)
  older : list (gmap text nat);     (* earlier names that may be what is on the disk *)
  inodes : gmap nat Inode;
  next_ino : nat;
}.
(** What the system makes of one call: it completes, or fails having written that much. *)
Inductive outcome := Completes | Breaks (e : io_error) (written : nat).

(** A running program: the file system, every state it has been in, the calls made. *)
Record World := { fs : Fs; past : list Fs; calls : nat }.
Abbreviation Io := (M World io_error).

Definition dirs (f : Fs) : list (gmap text nat) := dir f :: older f.
Definition visible (f : Fs) (p : text) : option bytes :=
  i ← dir f !! p; content <$> inodes f !! i.
(** What a reader may find at [p] if the power goes now: the name as it is or was, and the
    content if it was synced, anything otherwise. *)
Definition may_find (f : Fs) (p : text) (r : option bytes) : Prop :=
  exists d, d ∈ dirs f /\
    match d !! p with
    | None => r = None
    | Some i => exists n, inodes f !! i = Some n /\ if synced n then r = Some (content n) else is_Some r
    end.

Definition set_dir (d : gmap text nat) (f : Fs) : Fs :=
  {| dir := d; older := dir f :: older f; inodes := inodes f; next_ino := next_ino f |}.
Definition set_inode (i : nat) (n : Inode) (f : Fs) : Fs :=
  {| dir := dir f; older := older f; inodes := <[i := n]> (inodes f); next_ino := next_ino f |}.
Definition more_inodes (f : Fs) : Fs :=
  {| dir := dir f; older := older f; inodes := inodes f; next_ino := S (next_ino f) |}.
Definition settle (f : Fs) : Fs :=
  {| dir := dir f; older := []; inodes := inodes f; next_ino := next_ino f |}.

Section Calls.
Context (os : nat -> outcome).

(** One call: what it does when it completes, and what is left when it fails. *)
Definition syscall {A} (effect : Fs -> result io_error A * Fs) (broken : nat -> Fs -> Fs) : Io A := fun w =>
  let '(r, f) := match os (calls w) with
                 | Completes => effect (fs w)
                 | Breaks e n => (Err e, broken n (fs w))
                 end in
  (r, {| fs := f; past := fs w :: past w; calls := S (calls w) |}).
Definition unchanged (n : nat) (f : Fs) : Fs := f.

Definition create_dir_all (p : text) : Io unit := syscall (fun f => (Ok tt, f)) unchanged.
(** [File::create]: truncates, or makes a new file. *)
Definition file_create (p : text) : Io nat :=
  syscall (fun f => match dir f !! p with
                    | Some i => (Ok i, set_inode i {| content := []; synced := false |} f)
                    | None => let i := next_ino f in
                              (Ok i, set_inode i {| content := []; synced := false |}
                                       (set_dir (<[p := i]> (dir f)) (more_inodes f)))
                    end) unchanged.
Definition append_to (i : nat) (b : bytes) (f : Fs) : Fs :=
  let old := default [] (content <$> inodes f !! i) in set_inode i {| content := old ++ b; synced := false |} f.
Definition write_all (i : nat) (b : bytes) : Io unit :=
  syscall (fun f => (Ok tt, append_to i b f)) (fun n => append_to i (take n b)).
Definition sync_all (i : nat) : Io unit :=
  syscall (fun f => (Ok tt, set_inode i {| content := default [] (content <$> inodes f !! i); synced := true |} f)) unchanged.
Definition remove_file (p : text) : Io unit :=
  syscall (fun f => match dir f !! p with
                    | Some _ => (Ok tt, set_dir (delete p (dir f)) f)
                    | None => (Err NotFound, f)
                    end) unchanged.
(** [rename]: of two links to one file onto each other, it succeeds and does nothing. *)
Definition rename_effect (a b : text) (f : Fs) : result io_error unit * Fs :=
  match dir f !! a with
  | Some i => if bool_decide (dir f !! b = Some i) then (Ok tt, f)
              else (Ok tt, set_dir (<[b := i]> (delete a (dir f))) f)
  | None => (Err NotFound, f)
  end.
Definition rename (a b : text) : Io unit := syscall (rename_effect a b) unchanged.
(** [hard_link] *)
Definition hard_link (a b : text) : Io unit :=
  syscall (fun f => match dir f !! a, dir f !! b with
                    | Some i, None => (Ok tt, set_dir (<[b := i]> (dir f)) f)
                    | Some _, Some _ => (Err AlreadyExists, f)
                    | None, _ => (Err NotFound, f)
                    end) unchanged.
(** [File::open(dir)] and its [sync_all]. *)
Definition open_dir (p : text) : Io unit := syscall (fun f => (Ok tt, f)) unchanged.
Definition sync_dir : Io unit := syscall (fun f => (Ok tt, settle f)) unchanged.
(** [std::fs::read] *)
Definition read_file (f : Fs) (p : text) : result io_error bytes :=
  match visible f p with Some b => Ok b | None => Err NotFound end.

(** [std::fs::read_to_string] *)
Definition read_to_string (f : Fs) (p : text) : result io_error text :=
  b ← read_file f p; match utf8_decode b with Some s => Ok s | None => Err InvalidData end.

(** [let _ = m;] *)
Definition ignore {A} (m : Io A) : Io unit := fun w => (Ok tt, (m w).2).
(** [if let Err(e) = m { cleanup; return Err(e) }] *)
Definition or_clean {A} (m : Io A) (cleanup : Io unit) : Io A := fun w =>
  match m w with
  | (Ok a, w) => (Ok a, w)
  | (Err e, w) => (Err e, (cleanup w).2)
  end.

Definition ATOMIC_TMP_SUFFIX : text := txt ".tmp".

(** [write_atomic] *)
Definition write_atomic (path : text) (b : bytes) : Io unit :=
  _ ← match path_parent path with Some d => create_dir_all d | None => mret tt end;
  let tmp := path ++ ATOMIC_TMP_SUFFIX in
  _ ← or_clean (i ← file_create tmp; _ ← write_all i b; sync_all i) (ignore (remove_file tmp));
  _ ← or_clean (rename tmp path) (ignore (remove_file tmp));
  match path_parent path with
  | Some d => ignore (_ ← open_dir d; sync_dir)
  | None => mret tt
  end.
End Calls.

(** ** Triples *)
Section Triples.
Context (safe : Fs -> Prop).

(** From a state in [P], every state [m] goes through is [safe]; it leaves one in [Q] when
    it succeeds, in [E] when it fails. *)
Definition triple {A} (P : Fs -> Prop) (m : Io A) (Q : A -> Fs -> Prop) (E : Fs -> Prop) : Prop :=
  forall w, P (fs w) -> Forall safe (past w) ->
    Forall safe (past (m w).2) /\
    match (m w).1 with Ok a => Q a (fs (m w).2) | Err _ => E (fs (m w).2) end.

Lemma triple_ret {A} (a : A) (P E : Fs -> Prop) : triple P (mret a) (fun _ => P) E.
Proof. intros w Hp Hs. done. Qed.

Lemma triple_bind {A B} (P : Fs -> Prop) (m : Io A) (Q : A -> Fs -> Prop) E (k : A -> Io B) R :
  triple P m Q E -> (forall a, triple (Q a) (k a) R E) -> triple P (m ≫= k) R E.
Proof.
  intros Hm Hk w Hp Hs. destruct (Hm w Hp Hs) as [Hs1 H1].
  unfold mbind, M_bind. destruct (m w) as [[a|e] w1]; cbn in *; [by apply Hk|done].
Qed.

Lemma triple_weaken {A} (P P' : Fs -> Prop) (m : Io A) (Q Q' : A -> Fs -> Prop) (E E' : Fs -> Prop) :
  triple P' m Q' E' -> (forall f, P f -> P' f) -> (forall a f, Q' a f -> Q a f) -> (forall f, E' f -> E f) ->
  triple P m Q E.
Proof.
  intros Hm Hp Hq He w Hw Hs. destruct (Hm w (Hp _ Hw) Hs) as [Hs1 H1]. split; [done|].
  destruct (m w) as [[a|e] w1]; cbn in *; auto.
Qed.

Lemma triple_ignore {A} (P Q : Fs -> Prop) (m : Io A) E :
  triple P m (fun _ => Q) Q -> triple P (ignore m) (fun _ => Q) E.
Proof.
  intros Hm w Hp Hs. destruct (Hm w Hp Hs) as [Hs1 H1]. split; [done|]. cbn.
  by destruct (m w) as [[a|e] w1].
Qed.

Lemma triple_or_clean {A} (P : Fs -> Prop) (m : Io A) (Q : A -> Fs -> Prop) E E' cleanup :
  triple P m Q E' -> triple E' cleanup (fun _ => E) E -> triple P (or_clean m cleanup) Q E.
Proof.
  intros Hm Hc w Hp Hs. destruct (Hm w Hp Hs) as [Hs1 H1].
  unfold or_clean. destruct (m w) as [[a|e] w1]; cbn in *; [done|].
  destruct (Hc w1 H1 Hs1) as [Hs2 H2]. destruct (cleanup w1) as [[u|e'] w2]; done.
Qed.

Lemma triple_syscall {A} (os : nat -> outcome) (P : Fs -> Prop) effect broken (Q : A -> Fs -> Prop) E :
  (forall f, P f -> safe f) ->
  (forall f, P f -> match (effect f).1 with Ok a => Q a (effect f).2 | Err _ => E (effect f).2 end) ->
  (forall f n, P f -> E (broken n f)) ->
  triple P (syscall os effect broken) Q E.
Proof.
  intros Hsafe He Hb w Hp Hs. unfold syscall. destruct (os (calls w)) as [|e n]; cbn.
  - specialize (He _ Hp). destruct (effect (fs w)) as [[a|e] f]; cbn in *; split; auto.
  - split; auto.
Qed.
End Triples.

(** ** [write_atomic] *)
(** What a file system keeps of itself: names lead to allocated inodes, and what is at the
    name [tmp] is not also what is, or was, at [q]. *)
Record sound (q tmp : text) (f : Fs) : Prop := {
  so_next : forall d p i, d ∈ dirs f -> d !! p = Some i -> (i < next_ino f)%nat;
  so_tmp : forall d i, d ∈ dirs f -> dir f !! tmp = Some i -> d !! q <> Some i;
}.

(** *** The calls on the temporary file *)
Section Kept.
Context (os : nat -> outcome) (q tmp : text) (f0 : Fs) (apart : tmp <> q) (sound0 : sound q tmp f0).

(** Nobody at [q] can tell [f] from [f0]. *)
Record kept (f : Fs) : Prop := {
  k_dirs : forall d, d ∈ dirs f -> exists d0, d0 ∈ dirs f0 /\ d !! q = d0 !! q;
  k_now : dir f !! q = dir f0 !! q;
  k_ino : forall d i, d ∈ dirs f0 -> d !! q = Some i -> inodes f !! i = inodes f0 !! i;
  k_next : forall d p i, d ∈ dirs f -> d !! p = Some i -> (i < next_ino f)%nat;
  k_le : (next_ino f0 <= next_ino f)%nat;
  k_tmp : forall d i, d ∈ dirs f0 -> dir f !! tmp = Some i -> d !! q <> Some i;
}.
(** The temporary file is inode [i], as [n] says. *)
Definition staged (n : Inode) (i : nat) (f : Fs) : Prop :=
  kept f /\ dir f !! tmp = Some i /\ inodes f !! i = Some n.
Lemma kept_start : kept f0.
Proof. destruct sound0. constructor; eauto. Qed.

Lemma kept_visible f : kept f -> visible f q = visible f0 q.
Proof.
  intros K. unfold visible. rewrite (k_now _ K).
  destruct (dir f0 !! q) as [i|] eqn:E; cbn; [|done].
  rewrite (k_ino _ K (dir f0) i); [done| |done]. apply list_elem_of_here.
Qed.

Lemma kept_may_find f r : kept f -> may_find f q r -> may_find f0 q r.
Proof.
  intros K (d & Hd & H). destruct (k_dirs _ K d Hd) as (d0 & Hd0 & E). exists d0. split; [done|].
  rewrite E in H. destruct (d0 !! q) as [i|] eqn:Ei; [|done].
  by rewrite (k_ino _ K d0 i Hd0 Ei) in H.
Qed.

Lemma kept_sound f : kept f -> sound q tmp f.
Proof.
  intros K. constructor; [apply (k_next _ K)|]. intros d i Hd Ht.
  destruct (k_dirs _ K d Hd) as (d0 & Hd0 & ->). by apply (k_tmp _ K).
Qed.

(** A change that leaves the names alone. *)
Lemma kept_inode f i n : kept f -> dir f !! tmp = Some i -> kept (set_inode i n f).
Proof.
  intros K Ht. destruct K; constructor; try done. cbn [inodes set_inode]. intros d j Hd Hj.
  rewrite lookup_insert_ne; [by eauto|]. intros ->. by eapply k_tmp0.
Qed.

Lemma kept_delete f : kept f -> kept (set_dir (delete tmp (dir f)) f).
Proof.
  intros K. destruct K.
  assert (Hp : delete tmp (dir f) !! q = dir f !! q) by (by rewrite lookup_delete_ne).
  constructor; cbn [dirs dir older inodes next_ino set_dir set_inode more_inodes]; try done.
  - intros d Hd. apply elem_of_cons in Hd as [->|Hd]; [|eauto].
    exists (dir f0). split; [apply list_elem_of_here|exact (eq_trans Hp k_now0)].
  - exact (eq_trans Hp k_now0).
  - intros d p i Hd. apply elem_of_cons in Hd as [->|Hd]; [|eauto].
    intros H. apply (lookup_delete_Some (dir f)) in H as [? H]. eapply k_next0, H. apply list_elem_of_here.
  - intros d i Hd H. by apply (lookup_delete_Some (dir f)) in H as [].
Qed.

Context (safe : Fs -> Prop) (kept_is_safe : forall f, kept f -> safe f).
Hint Resolve kept_is_safe : core.

Lemma create_ok : triple safe kept (file_create os tmp) (staged {| content := []; synced := false |}) kept.
Proof.
  apply triple_syscall; [auto| |done]. intros f K. destruct (dir f !! tmp) as [i|] eqn:E; cbn.
  - split_and!; [by apply kept_inode|done|apply lookup_insert_eq].
  - destruct K.
    assert (Hp : <[tmp := next_ino f]> (dir f) !! q = dir f !! q) by (by rewrite lookup_insert_ne).
    split_and!; [|apply lookup_insert_eq..]. constructor; try done.
    + intros d Hd. apply elem_of_cons in Hd as [->|Hd]; [|eauto].
      exists (dir f0). split; [apply list_elem_of_here|exact (eq_trans Hp k_now0)].
    + exact (eq_trans Hp k_now0).
    + intros d j Hd Hj. pose proof (so_next _ _ _ sound0 d _ j Hd Hj).
      etrans; [apply lookup_insert_ne; lia|by eauto].
    + intros d p j Hd. apply elem_of_cons in Hd as [->|Hd]; intros H.
      * apply (lookup_insert_Some (dir f)) in H as [[_ <-]|[_ H]]; [cbn; lia|].
        pose proof (k_next0 (dir f) p j ltac:(apply list_elem_of_here) H). cbn. lia.
      * pose proof (k_next0 d p j Hd H). cbn. lia.
    + cbn. lia.
    + intros d j Hd Ht Hj. pose proof (so_next _ _ _ sound0 d _ _ Hd Hj).
      apply (lookup_insert_Some (dir f)) in Ht as [[_ <-]|[? _]]; [cbn in *; lia|done].
Qed.

Lemma staged_kept n i f : staged n i f -> kept f. Proof. by intros []. Qed.
Hint Resolve staged_kept : core.

(** Whatever a call makes of the temporary file's inode, [q] is out of it. *)
Lemma staged_inode n m i f : staged n i f -> staged m i (set_inode i m f).
Proof.
  intros (K & Ht & _). split_and!; [by apply kept_inode|done|]. apply lookup_insert_eq.
Qed.

Lemma write_all_ok b i :
  triple safe (staged {| content := []; synced := false |} i) (write_all os i b)
    (fun _ => staged {| content := b; synced := false |} i) kept.
Proof.
  apply triple_syscall; [eauto| |].
  - intros f S. pose proof S as (_ & _ & Hn). cbn. unfold append_to. rewrite Hn. by eapply staged_inode.
  - intros f n S. eapply staged_kept, staged_inode, S.
Qed.

Lemma sync_ok b i :
  triple safe (staged {| content := b; synced := false |} i) (sync_all os i)
    (fun _ => staged {| content := b; synced := true |} i) kept.
Proof.
  apply triple_syscall; [eauto| |eauto].
  intros f S. pose proof S as (_ & _ & Hn). cbn. rewrite Hn. by eapply staged_inode.
Qed.

Lemma clean_ok : triple safe kept (ignore (remove_file os tmp)) (fun _ => kept) kept.
Proof.
  apply triple_ignore, triple_syscall; [auto| |done].
  intros f K. destruct (dir f !! tmp) eqn:E; cbn; [by apply kept_delete|done].
Qed.

(** The temporary file is written, or removed. *)
Lemma written_ok b :
  triple safe kept (or_clean (i ← file_create os tmp; _ ← write_all os i b; sync_all os i) (ignore (remove_file os tmp)))
    (fun _ f => exists i, staged {| content := b; synced := true |} i f) kept.
Proof.
  apply triple_or_clean with kept; [|apply clean_ok].
  eapply triple_bind; [apply create_ok|]. intros i. eapply triple_bind; [apply write_all_ok|]. intros [].
  eapply triple_weaken; [apply (sync_ok b i)|done|intros ? f S; exact (ex_intro _ i S)|done].
Qed.
End Kept.

(** *** Tidy names: no two lead to one inode. *)
Definition tidy (f : Fs) : Prop :=
  (forall p i, dir f !! p = Some i -> (i < next_ino f)%nat) /\
  forall p q i, dir f !! p = Some i -> dir f !! q = Some i -> p = q.

Lemma visible_set_inode f q i n : dir f !! q <> Some i -> visible (set_inode i n f) q = visible f q.
Proof.
  intros H. unfold visible. cbn [dir inodes set_inode]. destruct (dir f !! q) as [j|]; [|done]. cbn.
  rewrite lookup_insert_ne; [done|congruence].
Qed.
Lemma visible_insert_ne f p q i : p <> q -> visible (set_dir (<[p := i]> (dir f)) (more_inodes f)) q = visible f q.
Proof. intros H. unfold visible. cbn [dir inodes set_dir more_inodes]. by rewrite lookup_insert_ne. Qed.
Lemma visible_delete_ne f p q : p <> q -> visible (set_dir (delete p (dir f)) f) q = visible f q.
Proof. intros H. unfold visible. cbn [dir inodes set_dir]. by rewrite lookup_delete_ne. Qed.

Lemma tidy_delete f p : tidy f -> tidy (set_dir (delete p (dir f)) f).
Proof.
  intros [B L]. split; cbn [dir next_ino set_dir].
  - intros q i [_ H]%lookup_delete_Some. eauto.
  - intros q r i [_ H1]%lookup_delete_Some [_ H2]%lookup_delete_Some. eauto.
Qed.
Lemma tidy_fresh f p n :
  tidy f -> dir f !! p = None ->
  tidy (set_inode (next_ino f) n (set_dir (<[p := next_ino f]> (dir f)) (more_inodes f))).
Proof.
  intros [B L] Hp. split; cbn [dir next_ino set_dir set_inode more_inodes].
  - intros q i [[_ <-]|[_ H]]%lookup_insert_Some; [lia|]. apply B in H. lia.
  - intros q r i [[<- <-]|[_ H1]]%lookup_insert_Some [[<- E]|[_ H2]]%lookup_insert_Some;
      [done|apply B in H2; lia|subst; apply B in H1; lia|eauto].
Qed.
Lemma tidy_move f p q i : tidy f -> dir f !! p = Some i -> tidy (set_dir (<[q := i]> (delete p (dir f))) f).
Proof.
  intros [B L] Hp. split; cbn [dir next_ino set_dir].
  - intros r j [[_ <-]|[_ [_ H]%lookup_delete_Some]]%lookup_insert_Some; eauto.
  - intros r s j [[<- <-]|[_ [N1 H1]%lookup_delete_Some]]%lookup_insert_Some
      [[<- E]|[_ [N2 H2]%lookup_delete_Some]]%lookup_insert_Some; [done| | |eauto].
    + by destruct (N2 (L _ _ _ Hp H2)).
    + subst j. by destruct (N1 (L _ _ _ Hp H1)).
Qed.

Section Atomic.
Context (os : nat -> outcome) (path : text) (b : bytes) (f0 : Fs).
Abbreviation tmp := (path ++ ATOMIC_TMP_SUFFIX).

Lemma tmp_apart : tmp <> path.
Proof. intros H. apply (f_equal length) in H. rewrite length_app in H. cbn in H. lia. Qed.

Section Path.
Context (sound0 : sound path tmp f0).
Abbreviation kept := (kept path tmp f0).
Abbreviation staged := (staged path tmp f0).

(** [path] is inode [i], new and synced; a name on the disk may still be an old one. *)
Record replaced (f : Fs) : Prop := {
  r_now : exists i, dir f !! path = Some i /\ inodes f !! i = Some {| content := b; synced := true |} /\
    forall d, d ∈ older f -> d !! path = Some i \/ exists d0, d0 ∈ dirs f0 /\ d !! path = d0 !! path;
  r_ino : forall d i, d ∈ dirs f0 -> d !! path = Some i -> inodes f !! i = inodes f0 !! i;
  r_next : forall d p i, d ∈ dirs f -> d !! p = Some i -> (i < next_ino f)%nat;
  r_tmp : dir f !! tmp = None;
}.

(** What the claim says of a state, and what it says of the two ends. *)
Definition old_or_new (f : Fs) : Prop :=
  (visible f path = visible f0 path \/ visible f path = Some b) /\
  forall r, may_find f path r -> may_find f0 path r \/ r = Some b.

Lemma kept_safe f : kept f -> old_or_new f.
Proof. intros K. split; [left; by eapply kept_visible|]. intros r H. left. by eapply kept_may_find. Qed.

Lemma replaced_visible f : replaced f -> visible f path = Some b.
Proof. intros R. destruct (r_now _ R) as (i & Hi & Hn & _). unfold visible. rewrite Hi. cbn. by rewrite Hn. Qed.

Lemma replaced_safe f : replaced f -> old_or_new f.
Proof.
  intros R. split; [right; by apply replaced_visible|]. intros r (d & Hd & H).
  destruct (r_now _ R) as (i & Hi & Hn & Ho).
  assert (Hnew : d !! path = Some i -> r = Some b).
  { intros E. rewrite E in H. destruct H as (n & En & H). rewrite Hn in En. by injection En as <-. }
  apply elem_of_cons in Hd as [->|Hd]; [auto|].
  destruct (Ho d Hd) as [E|(d0 & Hd0 & E)]; [auto|]. left. exists d0. split; [done|].
  rewrite E in H. destruct (d0 !! path) as [j|] eqn:Ej; [|done]. by rewrite (r_ino _ R d0 j Hd0 Ej) in H.
Qed.

Lemma replaced_sound f : replaced f -> sound path tmp f.
Proof. intros R. constructor; [apply (r_next _ R)|]. intros d i _. by rewrite (r_tmp _ R). Qed.

Lemma rename_ok i :
  triple old_or_new (staged {| content := b; synced := true |} i) (rename os tmp path) (fun _ => replaced) kept.
Proof.
  apply triple_syscall; [by intros f []; apply kept_safe| |by intros f n []]. pose proof tmp_apart as Hne.
  intros f (K & Ht & Hn). unfold rename_effect. rewrite Ht, bool_decide_eq_false_2.
  2:{ rewrite (k_now _ _ _ _ K). apply (k_tmp _ _ _ _ K); [apply list_elem_of_here|done]. }
  cbn [fst snd]. constructor.
  - exists i. split_and!; [apply lookup_insert_eq|done|].
    intros d Hd. right. by apply (k_dirs _ _ _ _ K).
  - apply (k_ino _ _ _ _ K).
  - intros d p j Hd. apply elem_of_cons in Hd as [->|Hd]; [|apply (k_next _ _ _ _ K), Hd].
    intros H. apply (lookup_insert_Some (delete tmp (dir f))) in H as [[_ <-]|[_ H]].
    + apply (k_next _ _ _ _ K (dir f) tmp i); [apply list_elem_of_here|done].
    + apply lookup_delete_Some in H as [_ H]. apply (k_next _ _ _ _ K (dir f) p j); [apply list_elem_of_here|done].
  - etrans; [apply (lookup_insert_ne (delete tmp (dir f))); done|]. apply lookup_delete_eq.
Qed.

Lemma sync_dir_ok d :
  triple old_or_new replaced (ignore (_ ← open_dir os d; sync_dir os)) (fun _ => replaced) kept.
Proof.
  apply triple_ignore, triple_bind with (fun _ => replaced).
  { by apply triple_syscall; [apply replaced_safe| |]. }
  intros []. apply triple_syscall; [apply replaced_safe| |done]. intros f R. cbn. constructor.
  - destruct (r_now _ R) as (i & H1 & H2 & _). exists i. split_and!; [done..|]. intros d' H. by apply elem_of_nil in H.
  - apply (r_ino _ R).
  - intros d' p j Hd. apply elem_of_cons in Hd as [->|Hd]; [|by apply elem_of_nil in Hd].
    apply (r_next _ R). apply list_elem_of_here.
  - apply (r_tmp _ R).
Qed.

Lemma write_atomic_ok : triple old_or_new kept (write_atomic os path b) (fun _ => replaced) kept.
Proof.
  unfold write_atomic. apply triple_bind with (fun _ => kept).
  { destruct (path_parent path); [by apply triple_syscall; [apply kept_safe| |]|apply triple_ret]. }
  intros []. eapply triple_bind; [apply written_ok; [apply tmp_apart|done|apply kept_safe]|].
  intros []. apply triple_bind with (fun _ => replaced).
  { apply triple_or_clean with kept; [|apply clean_ok; [apply tmp_apart|apply kept_safe]].
    intros w [i Hi]. by apply (rename_ok i). }
  intros []. destruct (path_parent path); [apply sync_dir_ok|apply triple_ret].
Qed.
End Path.

(** Every other file is left alone. *)
Section Elsewhere.
Context (safe : Fs -> Prop) (all_safe : forall f, safe f).

Definition undisturbed (f : Fs) : Prop :=
  tidy f /\ forall q, q <> path -> q <> tmp -> visible f q = visible f0 q.
Definition drafted (n : Inode) (i : nat) (f : Fs) : Prop :=
  undisturbed f /\ dir f !! tmp = Some i /\ inodes f !! i = Some n.
Definition written (f : Fs) : Prop := undisturbed f /\ visible f path = Some b.

Lemma drafted_inode n m i f : drafted n i f -> drafted m i (set_inode i m f).
Proof.
  intros ((T & V) & Ht & Hn). split_and!; [split; [done|]|done|apply lookup_insert_eq].
  intros q Hp Hq. rewrite <- V by done. apply visible_set_inode. intros E. by apply Hq, (proj2 T _ _ _ E Ht).
Qed.

Lemma draft_ok :
  triple safe undisturbed (file_create os tmp) (drafted {| content := []; synced := false |}) undisturbed.
Proof.
  apply triple_syscall; [auto| |done]. intros f U. destruct (dir f !! tmp) as [i|] eqn:E; cbn [fst snd].
  - destruct (inodes f !! i) as [n|] eqn:En; [by apply (drafted_inode n)|].
    destruct U as [T V]. split_and!; [split; [done|]|done|apply lookup_insert_eq].
    intros q Hp Hq. rewrite <- V by done. apply visible_set_inode. intros E'. by apply Hq, (proj2 T _ _ _ E' E).
  - destruct U as [T V]. split_and!; [split|apply lookup_insert_eq..].
    + by apply tidy_fresh.
    + intros q Hp Hq. rewrite <- V by done. rewrite visible_set_inode.
      * apply visible_insert_ne. congruence.
      * intros H. apply (lookup_insert_Some (dir f)) in H as [[? _]|[_ H]]; [done|].
        apply (proj1 T) in H. lia.
Qed.

Lemma tmp_gone f : undisturbed f -> undisturbed (set_dir (delete tmp (dir f)) f).
Proof.
  intros [T V]. split; [by apply tidy_delete|]. intros q Hp Hq. rewrite <- V by done.
  apply visible_delete_ne. congruence.
Qed.

Lemma clean_undisturbed : triple safe undisturbed (ignore (remove_file os tmp)) (fun _ => undisturbed) undisturbed.
Proof.
  apply triple_ignore, triple_syscall; [auto| |done].
  intros f U. destruct (dir f !! tmp) eqn:E; cbn [fst snd]; [by apply tmp_gone|done].
Qed.

Lemma drafted_undisturbed n i f : drafted n i f -> undisturbed f. Proof. by intros []. Qed.
Hint Resolve drafted_undisturbed : core.

Lemma rename_written :
  triple safe (fun f => exists i, drafted {| content := b; synced := true |} i f) (rename os tmp path)
    (fun _ => written) undisturbed.
Proof.
  apply triple_syscall; [auto| |intros f n (i & U & _); exact U].
  intros f (i & (T & V) & Ht & Hn). unfold rename_effect. rewrite Ht, bool_decide_eq_false_2.
  2:{ intros Hp. by apply tmp_apart, (proj2 T _ _ i). }
  cbn [fst snd]. split; [split|].
  - by apply tidy_move.
  - intros q Hp Hq. rewrite <- V by done.
    unfold visible. cbn [dir inodes set_dir]. by rewrite lookup_insert_ne, lookup_delete_ne by congruence.
  - unfold visible. cbn [dir inodes set_dir]. rewrite lookup_insert_eq. cbn. by rewrite Hn.
Qed.

Lemma write_atomic_written : triple safe undisturbed (write_atomic os path b) (fun _ => written) undisturbed.
Proof.
  assert (call : forall P E d, (forall f, P f -> E f) -> triple safe P (create_dir_all os d) (fun _ => P) E)
    by (intros P E d H; apply triple_syscall; [auto|done|intros f n; apply H]).
  unfold write_atomic. apply triple_bind with (fun _ => undisturbed).
  { destruct (path_parent path); [by apply call|apply triple_ret]. }
  intros []. eapply triple_bind.
  { apply triple_or_clean with undisturbed; [|apply clean_undisturbed].
    eapply triple_bind; [apply draft_ok|]. intros i.
    eapply triple_bind with (fun _ => drafted {| content := b; synced := false |} i).
    { apply triple_syscall; [auto| |].
      - intros f D. pose proof D as (_ & _ & Hn). cbn. unfold append_to. rewrite Hn. by eapply drafted_inode.
      - intros f n D. eapply drafted_undisturbed, drafted_inode, D. }
    intros []. apply triple_syscall with (Q := fun _ f => exists i, drafted {| content := b; synced := true |} i f);
      [auto| |eauto].
    intros f D. pose proof D as (_ & _ & Hn). cbn. rewrite Hn. exists i. by eapply drafted_inode. }
  intros []. apply triple_bind with (fun _ => written).
  { apply triple_or_clean with undisturbed; [apply rename_written|apply clean_undisturbed]. }
  intros []. destruct (path_parent path); [|apply triple_ret].
  apply triple_ignore, triple_bind with (fun _ => written); [by apply call; intros ? []|].
  intros []. apply triple_syscall; [auto|done|by intros f n []].
Qed.
End Elsewhere.
End Atomic.

(** What a caller may rely on. *)
Lemma write_atomic_result os path b w r w' :
  tidy (fs w) -> write_atomic os path b w = (r, w') ->
  tidy (fs w') /\
  (forall q, q <> path -> q <> path ++ ATOMIC_TMP_SUFFIX -> visible (fs w') q = visible (fs w) q) /\
  (r = Ok tt -> visible (fs w') path = Some b).
Proof.
  intros T E.
  destruct (write_atomic_written os path b (fs w) (fun _ => True) (fun _ => I) w) as [_ H];
    [done|by apply Forall_true|].
  rewrite E in H. cbn [fst snd] in H. destruct r as [[]|e]; [destruct H as [[? ?] ?]|destruct H as [? ?]]; done.
Qed.

(** A program that starts. *)
Definition start (f : Fs) : World := {| fs := f; past := []; calls := 0%nat |}.

Lemma run_triple {A} safe P (m : Io A) Q E f :
  triple safe P m Q E -> P f ->
  Forall safe (past (m (start f)).2) /\
  match (m (start f)).1 with Ok a => Q a (fs (m (start f)).2) | Err _ => E (fs (m (start f)).2) end.
Proof. intros H Hp. apply H; [done|constructor]. Qed.

(** C34: [write_atomic] is atomic whatever the system does to it: in every state it goes
    through, whichever call fails, a reader finds the old content or all of the new, and so
    does one who finds the disk after a power loss; on success the new content is there, on
    an error the old one is, and the next write may rely on the same. *)
Theorem write_atomic_never_torn (os : nat -> outcome) (path : text) (b : bytes) (f0 : Fs) :
  sound path (path ++ ATOMIC_TMP_SUFFIX) f0 ->
  let '(r, w) := write_atomic os path b (start f0) in
  Forall (old_or_new path b f0) (fs w :: past w) /\
  sound path (path ++ ATOMIC_TMP_SUFFIX) (fs w) /\
  visible (fs w) path = if is_ok r then Some b else visible f0 path.
Proof.
  intros S. pose proof (run_triple _ _ _ _ _ f0 (write_atomic_ok os path b f0 S) (kept_start _ _ _ S)) as [Hp H].
  destruct (write_atomic os path b (start f0)) as [[u|e] w]; cbn [fst snd is_ok] in *.
  - split_and!; [constructor; [by apply replaced_safe|done]|by eapply replaced_sound|by eapply replaced_visible].
  - split_and!; [constructor; [by eapply kept_safe|done]|by eapply kept_sound|by eapply kept_visible].
Qed.

(** With no call failing. *)
Section Completes.
Context (os : nat -> outcome) (fine : forall n, os n = Completes).
Abbreviation runs P m Q := (triple (fun _ => True) P m Q (fun _ => False)).

Lemma runs_syscall {A} (P : Fs -> Prop) effect broken (Q : A -> Fs -> Prop) :
  (forall f, P f -> exists a, (effect f).1 = Ok a /\ Q a (effect f).2) -> runs P (syscall os effect broken) Q.
Proof.
  intros He w Hp Hs. unfold syscall. rewrite fine. destruct (He _ Hp) as (a & Ha & HQ).
  destruct (effect (fs w)) as [r f]. cbn in *. subst r. split; [by constructor|done].
Qed.

Lemma write_atomic_runs path b d :
  path_parent path = Some d -> runs (fun _ => True) (write_atomic os path b) (fun _ f => older f = []).
Proof.
  intros Hd. set (tmp := path ++ ATOMIC_TMP_SUFFIX). unfold write_atomic. fold tmp. rewrite Hd.
  pose (T := fun f => exists i, dir f !! tmp = Some i).
  eapply triple_bind with (fun _ _ => True); [apply runs_syscall; eauto|]. intros [].
  eapply triple_bind with (fun _ => T).
  { eapply triple_or_clean with (fun _ => False); [|by intros w []].
    eapply triple_bind with (fun _ => T).
    { apply runs_syscall. intros f _. destruct (dir f !! tmp) as [i|] eqn:E; cbn.
      - eexists. split; [done|]. by exists i.
      - eexists. split; [done|]. exists (next_ino f). apply lookup_insert_eq. }
    intros i. eapply triple_bind with (fun _ => T); [apply runs_syscall; eauto|].
    intros []. apply runs_syscall. eauto. }
  intros []. eapply triple_bind with (fun _ _ => True).
  { eapply triple_or_clean with (fun _ => False); [|by intros w []].
    apply runs_syscall. intros f [i Hi]. unfold rename_effect. rewrite Hi. case_bool_decide; eauto. }
  intros []. assert (H : runs (fun _ => True) (_ ← open_dir os d; sync_dir os) (fun _ f => older f = [])).
  { eapply triple_bind with (fun _ _ => True); [apply runs_syscall; eauto|].
    intros []. apply runs_syscall. intros f _. exists tt. done. }
  apply triple_ignore. by eapply triple_weaken; [apply H|..].
Qed.
End Completes.

(** When no call fails, [write_atomic] succeeds and the new content is durable: it is
    all a reader can find after a power loss. *)
Theorem completed_write_is_durable (path : text) (b : bytes) (f0 : Fs) (d : text) :
  sound path (path ++ ATOMIC_TMP_SUFFIX) f0 -> path_parent path = Some d ->
  let '(r, w) := write_atomic (fun _ => Completes) path b (start f0) in
  r = Ok tt /\ forall x, may_find (fs w) path x <-> x = Some b.
Proof.
  intros S Hd.
  pose proof (run_triple _ _ _ _ _ f0 (write_atomic_ok (fun _ => Completes) path b f0 S) (kept_start _ _ _ S)) as [_ H1].
  pose proof (run_triple _ _ _ _ _ f0 (write_atomic_runs (fun _ => Completes) (fun _ => eq_refl) path b d Hd) I) as [_ H2].
  destruct (write_atomic (fun _ => Completes) path b (start f0)) as [[[]|e] w]; cbn [fst snd] in *; [|done].
  split; [done|]. intros x. destruct (r_now _ _ _ _ H1) as (i & Hi & Hn & _). split.
  - intros (d' & Hd' & H). unfold dirs in Hd'. rewrite H2 in Hd'.
    apply list_elem_of_singleton in Hd' as ->. rewrite Hi in H. destruct H as (n & En & H).
    rewrite Hn in En. by injection En as <-.
  - intros ->. exists (dir (fs w)). split; [apply list_elem_of_here|]. rewrite Hi. by eexists.
Qed.

Definition config_file : text := txt "/home/u/.config/tobii-linux/config.toml".
Definition config_disk : Fs :=
  {| dir := {[config_file := 0%nat]}; older := []; inodes := {[0%nat := {| content := [x61]; synced := true |}]};
     next_ino := 1 |}.

Lemma config_disk_sound : sound config_file (config_file ++ ATOMIC_TMP_SUFFIX) config_disk.
Proof.
  constructor.
  - intros d p i Hd H. apply list_elem_of_singleton in Hd as ->. cbn [dir config_disk] in H. apply lookup_singleton_Some in H as [_ <-]. cbn. lia.
  - intros d i _ H. cbn [dir config_disk] in H. by apply lookup_singleton_Some in H as [H _].
Qed.

(** The disk fills up halfway through the new content. *)
Definition full_disk (n : nat) : outcome :=
  if (n =? 2)%nat then Breaks (OtherIo (txt "full")) 1 else Completes.

Lemma write_atomic_never_torn_witness :
  let '(r, w) := write_atomic full_disk config_file [x62; x63] (start config_disk) in
  Forall (old_or_new config_file [x62; x63] config_disk) (fs w :: past w) /\
  sound config_file (config_file ++ ATOMIC_TMP_SUFFIX) (fs w) /\
  visible (fs w) config_file = if is_ok r then Some [x62; x63] else visible config_disk config_file.
Proof. exact (write_atomic_never_torn full_disk config_file [x62; x63] config_disk config_disk_sound). Defined.

Example the_full_disk_is_reported :
  let '(r, w) := write_atomic full_disk config_file [x62; x63] (start config_disk) in
  (r, visible (fs w) config_file, length (past w)) = (Err (OtherIo (txt "full")), Some [x61], 4%nat).
Proof. vm_compute. reflexivity. Qed.

Lemma completed_write_is_durable_witness :
  let '(r, w) := write_atomic (fun _ => Completes) config_file [x62] (start config_disk) in
  r = Ok tt /\ forall x, may_find (fs w) config_file x <-> x = Some [x62].
Proof. exact (completed_write_is_durable config_file [x62] config_disk _ config_disk_sound eq_refl). Defined.
