(* ===== verification/Net.v ===== *)
(** * Net: fetching from GitHub (crates/tobii-update/src/net.rs)

    Which URLs are fetched, with which command lines, and what becomes of the replies. curl
    and wget are parameters: what the n-th process started prints, how it ends and what it
    does to the files. Whatever they do, [fetch_starts] says what was run, and
    [fetch_outcome] what is returned and what is left on disk. *)
From stdpp Require Import gmap.
From S2P Require Import Prelude Utf8 Text Bytelines Paths Disk.

(** ** Which URLs *)
Definition ALLOWED_HOSTS : list text :=
  [txt "api.github.com"; txt "github.com"; txt "objects.githubusercontent.com";
   txt "release-assets.githubusercontent.com"].
Definition CONNECT_TIMEOUT : text := txt "10".
Definition MAX_TIME : text := txt "600".
Definition MAX_REDIRECTS : Z := 5.
Definition MAX_DOWNLOAD : Z := 512 * 1024 * 1024.
Definition READ_TIMEOUT : text := txt "60".
Definition CURL_TOO_LARGE : Z := 63.
Definition MAX_HEADER_BYTES : Z := 256 * 1024.

Inductive NetError :=
| Untrusted (url : text)
| NoFetcher
| Failed (reason : text)
| TooLarge (n : Z)
| TooManyRedirects
| NetIo (e : io_error).

(** [Display]; how an [io::Error] reads is the system's. *)
Definition show_net_error (io_message : io_error -> text) (e : NetError) : text :=
  match e with
  | Untrusted u => txt "refusing to fetch " ++ u ++ txt ": release assets must be https on a GitHub host"
  | NoFetcher => txt "neither curl nor wget was found"
  | Failed e => e
  | TooLarge n => txt "the download is " ++ show_uint n ++ txt " bytes, which is too large"
  | TooManyRedirects => txt "the download was redirected more than " ++ show_uint MAX_REDIRECTS ++ txt " times"
  | NetIo e => io_message e
  end.

Definition ends_authority (c : char) : bool := (c =? 47) || (c =? 63) || (c =? 35).

Definition is_trusted (url : text) : bool :=
  match strip_prefix (txt "https://") url with
  | None => false
  | Some rest =>
      let authority := first_piece (split ends_authority rest) in
      if existsb (Z.eqb 64) authority || bool_decide (authority = []) then false
      else let host := first_piece (split_char 58 authority) in
           existsb (fun h => eq_ignore_ascii_case host h) ALLOWED_HOSTS
  end.
Definition check (url : text) : result NetError unit :=
  if is_trusted url then Ok tt else Err (Untrusted url).

(** ** The command lines *)
Definition curl_args (url : text) (dest : option text) : list text :=
  [txt "-sS"; txt "--fail"; txt "--location"; txt "--proto"; txt "=https"; txt "--proto-redir"; txt "=https";
   txt "--max-redirs"; show_uint MAX_REDIRECTS; txt "--connect-timeout"; CONNECT_TIMEOUT;
   txt "--max-time"; MAX_TIME; txt "--max-filesize"; show_uint MAX_DOWNLOAD;
   txt "-H"; txt "Accept: application/vnd.github+json"; txt "-H"; txt "User-Agent: tobii-linux"] ++
  match dest with Some p => [txt "-o"; p] | None => [] end ++ [txt "--"; url].

Definition wget_args (url : text) (dest : option text) : list text :=
  [txt "-q"; txt "-S"; txt "--max-redirect=0"; txt "--timeout"; CONNECT_TIMEOUT; txt "--tries"; txt "2";
   txt "--quota"; show_uint MAX_DOWNLOAD; txt "--read-timeout"; READ_TIMEOUT;
   txt "--header"; txt "Accept: application/vnd.github+json"; txt "--user-agent"; txt "tobii-linux"; txt "-O"] ++
  [match dest with Some p => p | None => txt "-" end] ++ [txt "--"; url].

(** ** wget's header dump *)
Definition strip_header (line name : text) : option text :=
  '(k, v) ← split_once (Z.eqb 58) line;
  if eq_ignore_ascii_case (trim k) name then Some (trim v) else None.

(** One turn of the loop, over [(is_redirect, location)]. *)
Definition header_line (st : bool * option text) (line : text) : bool * option text :=
  let line := trim line in
  match strip_prefix (txt "HTTP/") line with
  | Some rest =>
      let code := w ← split_whitespace rest !! 1%nat; parse_uint 16 10 w in
      (match code with Some c => between 300 399 c | None => false end, None)
  | None => match strip_header line (txt "location") with
            | Some v => (st.1, Some v)
            | None => st
            end
  end.
Definition redirect_target (headers : text) : option text :=
  let '(is_redirect, location) := foldl header_line (false, None) (lines headers) in
  if is_redirect then location else None.

Definition content_length (headers : text) : option Z :=
  foldl (fun last line => match strip_header (trim line) (txt "content-length") with
                          | Some v => parse_uint 64 10 v
                          | None => last
                          end) None (lines headers).

Example a_chain_ends : redirect_target (txt "HTTP/1.1 302 Found
Location: https://github.com/a
HTTP/1.1 200 OK
Content-Length: 3
") = None.
Proof. vm_compute. reflexivity. Qed.
Example a_hop : redirect_target (txt "  HTTP/2 301
  location:   https://github.com/a
") = Some (txt "https://github.com/a").
Proof. vm_compute. reflexivity. Qed.
(** A length outlives its reply, where a location does not. *)
Example an_earlier_length_stays : content_length (txt "HTTP/1.1 302 Found
Content-Length: 3
HTTP/1.1 200 OK
") = Some 3.
Proof. vm_compute. reflexivity. Qed.
Example suffix_trick :
  is_trusted (txt "https://github.com.evil.test/x") = false /\ is_trusted (txt "https://api.github.com@evil.test/x") = false /\
  is_trusted (txt "-K/tmp/x") = false /\ is_trusted (txt "https://GitHub.com:443/a") = true.
Proof. vm_compute. done. Qed.

(** ** Running a fetcher *)
(** What a process printed, and its exit code; none when a signal killed it. *)
Record Printed := { out : bytes; err : bytes; exit_code : option Z }.
Record Ran := { stdout : bytes; stderr : text; code : option Z; ran_ok : bool }.
(** The files, and the commands started, the last one first. *)
Record Net := { files : gmap text bytes; started : list (text * list text) }.

(** [take(n).read_to_end()] *)
Fixpoint take_at_most (n : Z) (l : bytes) : bytes :=
  match l with
  | [] => []
  | b :: l => if 0 <? n then b :: take_at_most (n - 1) l else []
  end.

Definition reason (prog : text) (r : Ran) : text :=
  match stderr r with
  | [] => match code r with
          | Some c => prog ++ txt " exited with status " ++ show_int c
          | None => prog ++ txt " was killed by a signal"
          end
  | e => e
  end.

Section Fetch.
(** What the n-th process does, to the files too; and the paths that cannot be removed. *)
Context (process : nat -> text -> list text -> gmap text bytes -> result io_error Printed * gmap text bytes).
Context (stuck : text -> bool).
Abbreviation N := (M Net NetError).

Definition run (prog : text) (args : list text) (s : Net) : result io_error Ran * Net :=
  let '(r, fs) := process (length (started s)) prog args (files s) in
  ((fun p => {| stdout := take_at_most (MAX_DOWNLOAD + 1) (out p);
                stderr := trim (lossy_text (take_at_most MAX_HEADER_BYTES (err p)));
                code := exit_code p; ran_ok := bool_decide (exit_code p = Some 0) |}) <$> r,
   {| files := fs; started := (prog, args) :: started s |}).

(** [if let Some(p) = dest { let _ = remove_file(p); }] *)
Definition discard (dest : option text) : N unit := fun s =>
  (Ok tt, match dest with
          | Some p => if stuck p then s else {| files := delete p (files s); started := started s |}
          | None => s
          end).

Definition finish (dest : option text) (body : bytes) : N bytes :=
  match dest with
  | None => if MAX_DOWNLOAD <? zlen body then throw (TooLarge (zlen body)) else mret body
  | Some p => fun s =>
      match files s !! p with
      | None => (Err (NetIo NotFound), s)
      | Some c => if MAX_DOWNLOAD <? zlen c then (_ ← discard dest; throw (TooLarge (zlen c))) s else (Ok [], s)
      end
  end.

(** What is done with the reply of one hop, a redirect aside. *)
Definition wget_reply (dest : option text) (r : Ran) : N bytes :=
  if negb (ran_ok r) then (_ ← discard dest; throw (Failed (reason (txt "wget") r)))
  else match content_length (stderr r) with
       | Some n => if MAX_DOWNLOAD <? n then (_ ← discard dest; throw (TooLarge n)) else finish dest (stdout r)
       | None => finish dest (stdout r)
       end.
(** The loop over the hops. *)
Fixpoint wget_hops (hops : nat) (dest : option text) (current : text) : N bytes :=
  match hops with
  | O => throw TooManyRedirects
  | S hops => fun s =>
      match check current with
      | Err e => (Err e, s)
      | Ok _ =>
          let '(r, s) := run (txt "wget") (wget_args current dest) s in
          match r with
          | Err NotFound => (Err NoFetcher, s)
          | Err e => (Err (NetIo e), s)
          | Ok r => match redirect_target (stderr r) with
                    | Some next => (_ ← discard dest; wget_hops hops dest next) s
                    | None => wget_reply dest r s
                    end
          end
      end
  end.
Definition wget_fetch (url : text) (dest : option text) : N bytes := wget_hops (Z.to_nat (MAX_REDIRECTS + 1)) dest url.

Definition curl_reply (dest : option text) (r : Ran) : N bytes :=
  if ran_ok r then finish dest (stdout r)
  else _ ← discard dest;
       throw (if bool_decide (code r = Some CURL_TOO_LARGE) then TooLarge MAX_DOWNLOAD else Failed (reason (txt "curl") r)).
Definition fetch (url : text) (dest : option text) : N bytes := fun s =>
  match check url with
  | Err e => (Err e, s)
  | Ok _ =>
      let '(r, s) := run (txt "curl") (curl_args url dest) s in
      match r with
      | Err NotFound => wget_fetch url dest s
      | Err e => (Err (NetIo e), s)
      | Ok r => curl_reply dest r s
      end
  end.

Definition get (url : text) : N bytes := fetch url None.
Definition download (url dest : text) : N unit := _ ← fetch url (Some dest); mret tt.

(** ** What is run *)
Create Rewrite HintDb net.
Lemma discard_started dest s : started (discard dest s).2 = started s.
Proof. unfold discard. cbn. destruct dest as [p|]; [by destruct (stuck p)|done]. Qed.
Lemma run_started prog args s : started (run prog args s).2 = (prog, args) :: started s.
Proof. unfold run. by destruct (process _ _ _ _). Qed.
Lemma finish_started dest body s : started (finish dest body s).2 = started s.
Proof.
  destruct dest as [p|]; cbn [finish]; [|by destruct (_ <? _)].
  destruct (files s !! p) as [c|]; [|done]. destruct (_ <? _); [|done].
  unfold mbind, M_bind. pose proof (discard_started (Some p) s). by destruct (discard (Some p) s) as [[u|e] s'].
Qed.
Lemma discard_throw_started {A} dest e s : started ((_ ← discard dest; throw e : N A) s).2 = started s.
Proof. apply (discard_started dest s). Qed.
#[local] Hint Rewrite @discard_throw_started discard_started finish_started : net.

Lemma wget_reply_started dest r s : started (wget_reply dest r s).2 = started s.
Proof.
  unfold wget_reply. destruct (negb (ran_ok r)); [by autorewrite with net|].
  destruct (content_length _) as [n|]; [destruct (_ <? n)|]; by autorewrite with net.
Qed.
Lemma curl_reply_started dest r s : started (curl_reply dest r s).2 = started s.
Proof. unfold curl_reply. destruct (ran_ok r); by autorewrite with net. Qed.

Definition wget_run (dest : option text) (u : text) : text * list text := (txt "wget", wget_args u dest).
Lemma wget_hops_started dest n u s : exists us,
  started (wget_hops n dest u s).2 = rev (wget_run dest <$> us) ++ started s /\
  Forall (fun u => is_trusted u = true) us /\ (length us <= n)%nat /\ (us = [] \/ exists l, us = u :: l).
Proof.
  revert u s. induction n as [|n IH]; intros u s.
  { exists []. split_and!; [done|done|done|by left]. }
  cbn [wget_hops]. unfold check. destruct (is_trusted u) eqn:Ht.
  2:{ exists []. split_and!; [done|done|cbn; lia|by left]. }
  pose proof (run_started (txt "wget") (wget_args u dest) s) as Hr.
  destruct (run _ _ s) as [r s1]. cbn [snd] in Hr.
  assert (Hone : forall s2, started s2 = started s1 -> exists us,
    started s2 = rev (wget_run dest <$> us) ++ started s /\ Forall (fun u => is_trusted u = true) us /\
    (length us <= S n)%nat /\ (us = [] \/ exists l, us = u :: l)).
  { intros s2 ->. exists [u]. rewrite Hr. split_and!; [done|by constructor|cbn; lia|eauto]. }
  destruct r as [r|[]]; try by apply Hone.
  destruct (redirect_target (stderr r)) as [next|].
  - unfold mbind, M_bind. pose proof (discard_started dest s1) as Hd.
    destruct (discard dest s1) as [[|e] s2] eqn:Ed; [|discriminate Ed]. cbn [snd] in Hd.
    destruct (IH next s2) as (us & -> & Hus & Hl & _). exists (u :: us).
    rewrite Hd, Hr. cbn. rewrite <- app_assoc. split_and!; [done|by constructor|cbn in *; lia|eauto].
  - apply Hone, wget_reply_started.
Qed.

(** What [fetch] starts, whatever the processes it starts do: nothing, when the URL is not
    trusted; otherwise curl on that URL, once. wget is started only when there is no curl, on
    that URL first and at most six times, and every URL handed to it is a trusted one. *)
Theorem fetch_starts (url : text) (dest : option text) (s : Net) :
  started (fetch url dest s).2 = started s /\ is_trusted url = false \/
  exists us, started (fetch url dest s).2 = rev ((txt "curl", curl_args url dest) :: (wget_run dest <$> us)) ++ started s /\
    is_trusted url = true /\ Forall (fun u => is_trusted u = true) us /\ (length us <= 6)%nat /\
    (us = [] \/ exists l, us = url :: l) /\
    (us <> [] -> (run (txt "curl") (curl_args url dest) s).1 = Err NotFound).
Proof.
  unfold fetch, check. destruct (is_trusted url) eqn:Ht; [|by left]. right.
  pose proof (run_started (txt "curl") (curl_args url dest) s) as Hr.
  destruct (run _ _ s) as [r s1]. cbn [fst snd] in *.
  assert (Hone : forall s2, started s2 = started s1 -> exists us,
    started s2 = rev ((txt "curl", curl_args url dest) :: (wget_run dest <$> us)) ++ started s /\
    true = true /\ Forall (fun u => is_trusted u = true) us /\ (length us <= 6)%nat /\ (us = [] \/ exists l, us = url :: l) /\
    (us <> [] -> r = Err NotFound)).
  { intros s2 ->. exists []. rewrite Hr. split_and!; try done; [cbn; lia|by left]. }
  destruct r as [r|[]]; [apply Hone, curl_reply_started| |by apply Hone..].
  unfold wget_fetch. destruct (wget_hops_started dest 6 url s1) as (us & E & Hus & Hl & Hh).
  exists us. change (Z.to_nat (MAX_REDIRECTS + 1)) with 6%nat. rewrite E, Hr. cbn [rev]. rewrite <- app_assoc. by split_and!.
Qed.

(** ** What comes of it *)
(** No more than the cap is held in memory or left on disk; an error that names a failure
    leaves no file behind, if it can be removed, and always says something. *)
Definition outcome_ok (dest : option text) (r : result NetError bytes) (s : Net) : Prop :=
  match r with
  | Ok body => match dest with
               | None => zlen body <= MAX_DOWNLOAD
               | Some p => body = [] /\ exists c, files s !! p = Some c /\ zlen c <= MAX_DOWNLOAD
               end
  | Err (Failed m) => m <> [] /\ forall p, dest = Some p -> stuck p = true \/ files s !! p = None
  | Err (TooLarge n) => MAX_DOWNLOAD <= n /\ forall p, dest = Some p -> stuck p = true \/ files s !! p = None
  | Err TooManyRedirects => forall p, dest = Some p -> stuck p = true \/ files s !! p = None
  | Err (Untrusted u) => is_trusted u = false
  | Err NoFetcher | Err (NetIo _) => True
  end.
Definition gone (dest : option text) (s : Net) : Prop := forall p, dest = Some p -> stuck p = true \/ files s !! p = None.

Lemma discard_gone dest s : gone dest (discard dest s).2.
Proof.
  intros p ->. cbn. destruct (stuck p) eqn:E; [by left|]. right. apply lookup_delete_eq.
Qed.
Lemma reason_not_empty prog r : reason prog r <> [].
Proof.
  unfold reason. destruct (stderr r); [|done].
  destruct (code r); intros H%(f_equal length); rewrite !length_app in H; cbn in H; lia.
Qed.

Lemma finish_ok dest body s : let '(r, s') := finish dest body s in outcome_ok dest r s'.
Proof.
  destruct dest as [p|]; cbn [finish].
  - destruct (files s !! p) as [c|] eqn:E; [|done]. destruct (Z.ltb_spec MAX_DOWNLOAD (zlen c)).
    + split; [lia|]. apply (discard_gone (Some p) s).
    + split; [done|]. exists c. done.
  - destruct (Z.ltb_spec MAX_DOWNLOAD (zlen body)); [split; [lia|done]|done].
Qed.
Lemma wget_reply_ok dest r s : let '(o, s') := wget_reply dest r s in outcome_ok dest o s'.
Proof.
  unfold wget_reply. destruct (negb (ran_ok r)).
  { split; [apply reason_not_empty|apply discard_gone]. }
  destruct (content_length _) as [n|]; [|apply finish_ok].
  destruct (Z.ltb_spec MAX_DOWNLOAD n); [|apply finish_ok]. split; [lia|apply discard_gone].
Qed.
Lemma wget_hops_ok dest n u s : (0 < n)%nat \/ gone dest s -> let '(o, s') := wget_hops n dest u s in outcome_ok dest o s'.
Proof.
  revert u s. induction n as [|n IH]; intros u s Hn.
  { destruct Hn; [lia|done]. }
  cbn [wget_hops]. unfold check. destruct (is_trusted u) eqn:Ht; [|done].
  destruct (run _ _ s) as [[r|[]] s1]; try done.
  destruct (redirect_target (stderr r)) as [next|]; [|apply wget_reply_ok].
  apply (IH next (discard dest s1).2). right. apply discard_gone.
Qed.

(** What [fetch] leaves, whatever the processes it starts do. A body in memory, or the file
    of a download, is no larger than the cap: a download that succeeded did leave its file.
    After a failed run, a reply that is too large or one redirect too many nothing is left at
    the destination, unless it cannot be removed; and the message of a failure is never empty. *)
Theorem fetch_outcome (url : text) (dest : option text) (s : Net) :
  let '(r, s') := fetch url dest s in outcome_ok dest r s'.
Proof.
  unfold fetch, check. destruct (is_trusted url) eqn:Ht; [|done].
  destruct (run _ _ s) as [[r|[]] s1]; try done; [|apply wget_hops_ok; left; unfold MAX_REDIRECTS; lia].
  unfold curl_reply. destruct (ran_ok r); [apply finish_ok|].
  pose proof (discard_gone dest s1) as Hg. cbn.
  destruct (bool_decide _); split; [done|exact Hg|apply reason_not_empty|exact Hg].
Qed.
End Fetch.

(** ** What a trusted URL names *)
Lemma first_split p s : exists r, s = first_piece (split p s) ++ r /\
  Forall (fun c => p c = false) (first_piece (split p s)) /\ (r = [] \/ exists c r', r = c :: r' /\ p c = true).
Proof.
  induction s as [|c s (r & E & Hf & Hr)]; [by exists []; split_and!; [..|left]|].
  cbn [split]. destruct (p c) eqn:Ec.
  - exists (c :: s). split_and!; [done|constructor|eauto].
  - destruct (split p s) as [|x l] eqn:El; [by apply split_nonempty in El|].
    exists r. cbn in *. rewrite <- E. split_and!; [done|by constructor|done].
Qed.
Lemma first_split_app p l r :
  Forall (fun c => p c = false) l -> (r = [] \/ exists c r', r = c :: r' /\ p c = true) -> first_piece (split p (l ++ r)) = l.
Proof.
  intros Hl [->|(c & r' & -> & Hc)]; [by rewrite app_nil_r, split_none|by rewrite split_app].
Qed.

(** The URL's scheme is https, and its host is [h], with a port perhaps. *)
Definition names_host (url h : text) : Prop := exists port rest,
  url = txt "https://" ++ (h ++ port) ++ rest /\
  Forall (fun c => c <> 47 /\ c <> 63 /\ c <> 35 /\ c <> 64) (h ++ port) /\ Forall (fun c => c <> 58) h /\
  (port = [] \/ exists p, port = 58 :: p) /\ (rest = [] \/ exists c r, rest = c :: r /\ (c = 47 \/ c = 63 \/ c = 35)).

(** [is_trusted] accepts a URL exactly when its scheme is https, its authority holds no
    user name, and its host is one of the four allowed, in any case; whatever stands in the
    port, the path, the query or the fragment makes no difference. *)
Theorem trusted_urls (url : text) :
  is_trusted url = true <-> exists h a, names_host url h /\ a ∈ ALLOWED_HOSTS /\ eq_ignore_ascii_case h a = true.
Proof.
  split.
  - unfold is_trusted. destruct (strip_prefix _ url) as [rest|] eqn:Eu; [|done]. apply strip_prefix_some in Eu as ->.
    destruct (first_split ends_authority rest) as (path & Er & Ha & Hp).
    set (authority := first_piece (split ends_authority rest)) in *.
    destruct (existsb (Z.eqb 64) authority || bool_decide (authority = [])) eqn:Hb; [done|].
    apply orb_false_iff in Hb as [Hat _]. intros (a & Hin & He)%existsb_exists. unfold split_char in He.
    destruct (first_split (Z.eqb 58) authority) as (port & Eh & Hh & Hport).
    set (host := first_piece (split (Z.eqb 58) authority)) in *.
    exists host, a. split_and!; [|by apply list_elem_of_In|done].
    exists port, path. rewrite <- Eh, <- Er. split_and!; [done| | | |].
    + apply List.Forall_forall. intros c Hc. assert (ends_authority c = false) as H by (by eapply List.Forall_forall in Ha).
      assert (c <> 64) by (intros ->; assert (existsb (Z.eqb 64) authority = true) by (apply existsb_exists; eauto); congruence).
      unfold ends_authority in H. lia.
    + eapply Forall_impl; [exact Hh|]. intros c H%Z.eqb_neq. lia.
    + destruct Hport as [->|(c & p & -> & Hc)]; [by left|right]. exists p. f_equal. lia.
    + destruct Hp as [->|(c & p & -> & Hc)]; [by left|right]. exists c, p. split; [done|]. unfold ends_authority in Hc. lia.
  - intros (h & a & (port & path & -> & Hc & Hh & Hport & Hpath) & Hin & He). unfold is_trusted.
    rewrite strip_prefix_app. rewrite first_split_app.
    2:{ eapply Forall_impl; [exact Hc|]. unfold ends_authority. intros c H. cbn in H. lia. }
    2:{ destruct Hpath as [->|(c & p & -> & Hx)]; [by left|right]. exists c, p. unfold ends_authority. split; [done|lia]. }
    assert (existsb (Z.eqb 64) (h ++ port) = false) as ->.
    { apply not_true_iff_false. intros (c & H & E)%existsb_exists. apply Z.eqb_eq in E. eapply List.Forall_forall in Hc; [|exact H]. cbn in Hc. lia. }
    assert (bool_decide (h ++ port = []) = false) as ->.
    { apply bool_decide_eq_false. intros [-> ->]%app_nil. clear - Hin He.
      repeat (apply elem_of_cons in Hin as [->|Hin]; [done|]). by apply elem_of_nil in Hin. }
    unfold split_char. cbn [orb]. rewrite first_split_app.
    + apply existsb_exists. exists a. split; [by apply list_elem_of_In|done].
    + eapply Forall_impl; [exact Hh|]. intros c H. cbn in H. apply Z.eqb_neq. lia.
    + destruct Hport as [->|(p & ->)]; [by left|right]. by exists 58, p.
Qed.
