(* ===== verification/Release.v ===== *)
(** * Release: which release to offer, and which of its files (crates/tobii-update/src/release.rs)

    A listing of releases is read with [Json], its tags with [Version], over [Net]. The
    newest published release is found, and offered only if it can be installed here; a
    packaged copy is offered the package of its own manager and machine. *)
From stdpp Require Import gmap.
From S2P Require Import Prelude Utf8 Text Bytelines Order Version Json Paths Disk Net.

Record Asset := { name : text; url : text }.
Record Release := { tag : text; version : Version; notes : text; assets : list Asset; html_url : text }.

Definition REPO_OWNER : text := txt "Tropaion".
Definition REPO_NAME : text := txt "Tobii_Linux".
Definition releases_url : text := txt "https://github.com/" ++ REPO_OWNER ++ [47] ++ REPO_NAME ++ txt "/releases".

(** ** The files of a release *)
(** [self.assets.iter().find(p)] *)
Definition find_asset (p : Asset -> bool) (r : Release) : option Asset := List.find p (assets r).

Definition archive_for (r : Release) (target : text) : option Asset :=
  find_asset (fun a => contains target (name a) && ends_with (txt ".tar.gz") (name a)) r.
Definition checksums (r : Release) : option Asset := find_asset (fun a => text_eqb (name a) (txt "SHA256SUMS")) r.

Inductive Channel := Deb | Rpm | Pacman | Pkgbuild | Archive.
Record Offer := { channel : Channel; offered : list Asset }.

Definition PKGBUILD : text := txt "PKGBUILD".
Definition PKGBUILD_INSTALL : text := txt "tobii-linux.install".
Definition PACMAN_PREFIX : text := txt "tobii-linux-bin-".
Definition PACMAN_DEBUG_PREFIX : text := txt "tobii-linux-bin-debug-".

Definition deb_arch (arch : text) : text :=
  if text_eqb arch (txt "x86_64") then txt "amd64"
  else if text_eqb arch (txt "aarch64") then txt "arm64"
  else arch.

Definition pacman_ending (arch : text) : text := 45 :: arch ++ txt ".pkg.tar.zst".
Definition pacman_package (r : Release) (arch : text) : option Asset :=
  match arch with
  | [] => None
  | _ => find_asset (fun a => starts_with PACMAN_PREFIX (name a) && negb (starts_with PACMAN_DEBUG_PREFIX (name a)) &&
                              ends_with (pacman_ending arch) (name a)) r
  end.
Definition named (r : Release) (n : text) : option Asset := find_asset (fun a => text_eqb (name a) n) r.
Definition pkgbuild_pair (r : Release) : list Asset :=
  match named r PKGBUILD, named r PKGBUILD_INSTALL with
  | Some p, Some i => [p; i]
  | _, _ => []
  end.

Definition ending (r : Release) (suffix : text) : list Asset := List.filter (fun a => ends_with suffix (name a)) (assets r).
Definition deb_ending (arch : text) : text := 95 :: deb_arch arch ++ txt ".deb".
Definition rpm_ending (arch : text) : text := 46 :: arch ++ txt ".rpm".
Definition offer_for (r : Release) (manager triple : text) : option Offer :=
  let arch := first_piece (split_char 45 triple) in
  let '(channel, files) :=
    if text_eqb manager (txt "dpkg") then (Deb, ending r (deb_ending arch))
    else if text_eqb manager (txt "rpm") then (Rpm, ending r (rpm_ending arch))
    else if text_eqb manager (txt "pacman") then
      match pacman_package r arch with
      | Some p => (Pacman, [p])
      | None => (Pkgbuild, pkgbuild_pair r)
      end
    else (Archive, []) in
  match files with
  | _ :: _ => Some {| channel := channel; offered := files |}
  | [] => (fun a => {| channel := Archive; offered := [a] |}) <$> archive_for r triple
  end.

(** ** The listing *)
Inductive CheckError := CheckNoFetcher | CheckFetch (e : text) | Malformed (e : text).
Definition show_parse_error (e : ParseError) : text := what e ++ txt " at byte " ++ show_uint (at_ e).

Definition asset_of (a : Value) : option Asset :=
  n ← get_str a (txt "name"); u ← get_str a (txt "browser_download_url"); Some {| name := n; url := u |}.
(** What an entry of the listing is, when it is a release to consider at all. *)
Definition candidate (item : Value) : option Release :=
  if flag item (txt "draft") || flag item (txt "prerelease") then None
  else tag ← get_str item (txt "tag_name");
       version ← Version.parse tag;
       Some {| tag := tag; version := version;
               notes := default [] (get_str item (txt "body"));
               assets := omap asset_of (array item (txt "assets"));
               html_url := default [] (get_str item (txt "html_url")) |}.
(** One turn of the loop. *)
Definition consider (best : option Release) (item : Value) : option Release :=
  match candidate item with
  | None => best
  | Some c => match best with
              | None => Some c
              | Some b => if is_newer_than (version c) (version b) then Some c else best
              end
  end.
(** The inner [None] of the error would be the reader running out of fuel; see
    [newest_release]. *)
Definition parse_releases (t : text) : result (option CheckError) (option Release) :=
  match Json.parse t with
  | Err e => Err ((fun e => Malformed (show_parse_error e)) <$> e)
  | Ok doc =>
      let list := as_array doc in
      if bool_decide (list = []) && match doc with Array _ => false | _ => true end then
        Err (Some (Malformed (default (txt "not a releases listing") (get_str doc (txt "message")))))
      else Ok (foldl consider None list)
  end.

(** ** What to do about it *)
Inductive Blocked := NoBuildForTarget | NoChecksums.
Inductive Check :=
| UpToDate
| Newer (r : Release)
| CannotInstall (version : Version) (url : text) (why : Blocked).

Definition decide_update (latest : option Release) (running : Version) (triple : text) : Check :=
  match latest with
  | None => UpToDate
  | Some r =>
      if negb (is_newer_than (version r) running) then UpToDate
      else
        let cannot why := CannotInstall (version r) (match html_url r with [] => releases_url | u => u end) why in
        match archive_for r triple with
        | None => cannot NoBuildForTarget
        | Some _ => match checksums r with
                    | None => cannot NoChecksums
                    | Some _ => Newer r
                    end
        end
  end.

(** ** Over the network *)
Section Latest.
Context (process : nat -> text -> list text -> gmap text bytes -> result io_error Printed * gmap text bytes).
Context (stuck : text -> bool) (io_message : io_error -> text).

Definition listing_url : text :=
  txt "https://api.github.com/repos/" ++ REPO_OWNER ++ [47] ++ REPO_NAME ++ txt "/releases?per_page=20".
(** [From<NetError>] *)
Definition of_net_error (e : NetError) : CheckError :=
  match e with
  | NoFetcher => CheckNoFetcher
  | other => CheckFetch (show_net_error io_message other)
  end.
Definition latest : M Net (option CheckError) (option Release) := fun s =>
  let '(r, s) := Net.get process stuck listing_url s in
  (match r with
   | Err e => Err (Some (of_net_error e))
   | Ok body => parse_releases (lossy_text body)
   end, s).
Definition check (running : Version) (triple : text) : M Net (option CheckError) Check :=
  l ← latest; mret (decide_update l running triple).
End Latest.

(** ** The newest release *)
(** Of two releases, the one with the newer version. *)
Definition release_order : Release -> Release -> comparison := cmp_by version version_order.
#[export] Instance release_comparison : Comparison release_order.
Proof. apply _. Qed.

Lemma consider_best l b : foldl consider b l =
  foldl (fun best c => match best with
                       | None => Some c
                       | Some b => if is_newer_than (version c) (version b) then Some c else Some b
                       end) b (omap candidate l).
Proof.
  revert b. induction l as [|i l IH]; intros b; [done|]. cbn [foldl omap list_omap]. unfold consider at 2.
  destruct (candidate i) as [c|]; cbn [foldl]; rewrite <- IH; [|done]. by destruct b.
Qed.

Lemma omap_middle {A B} (f : A -> option B) l front m back : omap f l = front ++ m :: back ->
  exists l1 x l2, l = l1 ++ x :: l2 /\ f x = Some m /\ omap f l1 = front /\ omap f l2 = back.
Proof.
  revert front. induction l as [|x l IH]; intros front; [by destruct front|].
  cbn. destruct (f x) as [y|] eqn:E.
  - destruct front as [|z front]; intros [= -> H]; [by exists [], x, l|].
    destruct (IH _ H) as (l1 & x' & l2 & -> & ? & Hf & ?). exists (x :: l1), x', l2. cbn. rewrite E. by rewrite Hf.
  - intros H. destruct (IH _ H) as (l1 & x' & l2 & -> & ? & Hf & ?). exists (x :: l1), x', l2. cbn. by rewrite E.
Qed.

(** What [parse_releases] promises of a listing. *)
Definition newest_of (l : list Value) (best : option Release) : Prop :=
  match best with
  | None => Forall (fun i => candidate i = None) l
  | Some r => exists front i back, l = front ++ i :: back /\ candidate i = Some r /\
      (forall j c, j ∈ front -> candidate j = Some c -> is_newer_than (version r) (version c) = true) /\
      (forall j c, j ∈ back -> candidate j = Some c -> is_newer_than (version c) (version r) = false)
  end.

Lemma consider_newest l : newest_of l (foldl consider None l).
Proof.
  rewrite consider_best.
  pose proof (best_of_spec release_order (fun c b => is_newer_than (version c) (version b)) (omap candidate l)
    (fun a b => newer_order (version a) (version b))) as H.
  unfold best_of in H. destruct (foldl _ None _) as [r|]; cbn [newest_of].
  - destruct H as (front & back & E & Hf & Hb). apply omap_middle in E as (l1 & i & l2 & -> & Hi & E1 & E2).
    exists l1, i, l2. split_and!; [done|done| |].
    + intros j c Hj Hc. apply newer_order. apply (cmp_gt_lt version_order).
      apply (Hf c). rewrite <- E1. apply list_elem_of_omap. eauto.
    + intros j c Hj Hc. apply not_true_iff_false. rewrite newer_order.
      apply (Hb c). rewrite <- E2. apply list_elem_of_omap. eauto.
  - apply Forall_forall. intros i Hi. destruct (candidate i) as [c|] eqn:E; [|done].
    assert (c ∈ omap candidate l) as Hc by (apply list_elem_of_omap; eauto). rewrite H in Hc. by apply elem_of_nil in Hc.
Qed.

(** What a listing of releases is read as, whatever the text: an error, never an endless
    loop; of a JSON array, the newest of the entries that are published releases with a
    version for a tag, the first one if several are equally new, and none only if there is no
    such entry; of any other JSON value, an error with the server's message. *)
Theorem newest_release (t : text) :
  match Json.parse t with
  | Err _ => exists m, parse_releases t = Err (Some (Malformed m))
  | Ok (Array l) => exists best, parse_releases t = Ok best /\ newest_of l best
  | Ok v => parse_releases t = Err (Some (Malformed (default (txt "not a releases listing") (get_str v (txt "message")))))
  end.
Proof.
  unfold parse_releases. pose proof (parse_answers t) as Ha.
  destruct (Json.parse t) as [v|[e|]]; [|by eexists|done].
  destruct v as [| | | |l|m]; try done. cbn [as_array]. rewrite andb_false_r. eexists. split; [done|apply consider_newest].
Qed.

(** ** What is offered *)
Lemma find_asset_some p r a : find_asset p r = Some a -> a ∈ assets r /\ p a = true.
Proof. intros [H ?]%List.find_some. split; [by apply list_elem_of_In|done]. Qed.
Lemma find_asset_none p r : find_asset p r = None -> forall a, a ∈ assets r -> p a = false.
Proof. intros H a Ha. apply (List.find_none _ _ H). by apply list_elem_of_In. Qed.
Lemma find_asset_iff p r : is_Some (find_asset p r) <-> exists a, a ∈ assets r /\ p a = true.
Proof.
  split; [intros [a H]; exists a; by apply find_asset_some|]. intros (a & Ha & Hp).
  destruct (find_asset p r) eqn:E; [by eexists|]. pose proof (find_asset_none _ _ E a Ha). congruence.
Qed.

(** A file an archive install can use: named for the target, and a gzipped tar. *)
Definition archive_of (target : text) (a : Asset) : Prop :=
  (exists x y, name a = x ++ target ++ y) /\ exists stem, name a = stem ++ txt ".tar.gz".
Lemma archive_test target a :
  contains target (name a) && ends_with (txt ".tar.gz") (name a) = true <-> archive_of target a.
Proof. rewrite andb_true_iff, contains_iff, ends_with_iff. done. Qed.
Lemma archive_for_some r target a : archive_for r target = Some a -> a ∈ assets r /\ archive_of target a.
Proof. intros [? ?]%find_asset_some. split; [done|by apply archive_test]. Qed.

(** Everything an install needs. *)
Definition installable (triple : text) (r : Release) : Prop :=
  (exists a, a ∈ assets r /\ archive_of triple a) /\ exists a, a ∈ assets r /\ name a = txt "SHA256SUMS".
Lemma installable_iff triple r : installable triple r <-> is_Some (archive_for r triple) /\ is_Some (checksums r).
Proof.
  unfold installable, archive_for, checksums. rewrite !find_asset_iff. unfold text_eqb.
  setoid_rewrite archive_test. by setoid_rewrite bool_decide_eq_true.
Qed.

Lemma find_asset_none_iff p r : find_asset p r = None <-> forall a, a ∈ assets r -> p a = false.
Proof.
  split; [apply find_asset_none|]. intros H. destruct (find_asset p r) eqn:E; [|done].
  apply find_asset_some in E as [Ha Hp]. rewrite H in Hp by done. done.
Qed.
Lemma no_archive r triple : archive_for r triple = None <-> forall a, a ∈ assets r -> ~ archive_of triple a.
Proof.
  unfold archive_for. rewrite find_asset_none_iff. setoid_rewrite <- archive_test. by setoid_rewrite not_true_iff_false.
Qed.
Lemma no_checksums r : checksums r = None <-> forall a, a ∈ assets r -> name a <> txt "SHA256SUMS".
Proof. unfold checksums, text_eqb. rewrite find_asset_none_iff. by setoid_rewrite bool_decide_eq_false. Qed.

(** An update is offered exactly when the latest release is newer than the running build
    and carries both an archive for this machine and the checksums; a newer release without
    them is reported with the reason, the missing archive first, and with an address to go
    to; and whatever is not newer is no update, whatever it ships. *)
Theorem update_decision (latest : option Release) (running : Version) (triple : text) :
  (forall r, decide_update latest running triple = Newer r <->
     latest = Some r /\ is_newer_than (version r) running = true /\ installable triple r) /\
  (forall v u why, decide_update latest running triple = CannotInstall v u why ->
     exists r, latest = Some r /\ is_newer_than (version r) running = true /\ v = version r /\ u <> [] /\
       (why = NoBuildForTarget <-> forall a, a ∈ assets r -> ~ archive_of triple a) /\
       (why = NoChecksums <-> (exists a, a ∈ assets r /\ archive_of triple a) /\ forall a, a ∈ assets r -> name a <> txt "SHA256SUMS")) /\
  (decide_update latest running triple = UpToDate <->
     forall r, latest = Some r -> is_newer_than (version r) running = false).
Proof.
  unfold decide_update. destruct latest as [r|]; [|split_and!; [by split; [|intros []]|done|done]].
  destruct (is_newer_than (version r) running) eqn:En; cbn [negb].
  2:{ split_and!; [|done|by split; [intros _ r' [= <-]|]]. intros r'. split; [done|]. intros ([= <-] & ? & _). congruence. }
  split_and!.
  - intros r'. assert (H : forall x, Newer r = x -> (x = Newer r' <-> Some r = Some r' /\ is_newer_than (version r') running = true)).
    { intros x <-. split; [by intros [= <-]|by intros [[= <-] _]]. }
    destruct (archive_for r triple) as [a|] eqn:Ea.
    + destruct (checksums r) as [c|] eqn:Ec.
      * rewrite (H _ eq_refl). split; [|tauto]. intros [[= <-] ?]. split_and!; [done..|]. apply installable_iff. by rewrite Ea, Ec.
      * split; [done|]. intros ([= <-] & _ & [_ Hc]%installable_iff). rewrite Ec in Hc. by destruct Hc.
    + split; [done|]. intros ([= <-] & _ & [Ha _]%installable_iff). rewrite Ea in Ha. by destruct Ha.
  - intros v u why. destruct (archive_for r triple) as [a|] eqn:Ea.
    + destruct (checksums r) as [c|] eqn:Ec; [done|]. intros [= <- <- <-]. exists r.
      apply archive_for_some in Ea. pose proof (proj1 (no_checksums r) Ec) as Hc.
      split_and!; [done..|by destruct (html_url r)| |].
      * split; [done|]. intros H. destruct Ea as [Ha Hx]. by destruct (H a Ha).
      * split; [|done]. intros _. split; [by exists a|done].
    + intros [= <- <- <-]. exists r. pose proof (proj1 (no_archive r triple) Ea) as H.
      split_and!; [done..|by destruct (html_url r)|done|]. split; [done|]. intros [(a & Ha & Hx) _]. by destruct (H a Ha).
  - split; [|by intros H; rewrite (H r eq_refl) in En]. by destruct (archive_for r triple), (checksums r).
Qed.

(** The packages of a release: what its files may be called. *)
Definition suits (r : Release) (manager triple : text) (o : Offer) : Prop :=
  let arch := first_piece (split_char 45 triple) in
  match channel o with
  | Deb => manager = txt "dpkg" /\ Forall (fun a => exists stem, name a = stem ++ deb_ending arch) (offered o)
  | Rpm => manager = txt "rpm" /\ Forall (fun a => exists stem, name a = stem ++ rpm_ending arch) (offered o)
  | Pacman => manager = txt "pacman" /\ arch <> [] /\ exists a stem, offered o = [a] /\
      name a = PACMAN_PREFIX ++ stem /\ ~ (exists rest, name a = PACMAN_DEBUG_PREFIX ++ rest) /\
      exists front, name a = front ++ pacman_ending arch
  | Pkgbuild => manager = txt "pacman" /\ (name <$> offered o) = [PKGBUILD; PKGBUILD_INSTALL]
  | Archive => exists a, offered o = [a] /\ archive_of triple a
  end.

Lemma named_some r n a : named r n = Some a -> a ∈ assets r /\ name a = n.
Proof. intros [? H]%find_asset_some. split; [done|]. unfold text_eqb in H. by apply bool_decide_eq_true in H. Qed.
Lemma ending_spec r suffix a : a ∈ ending r suffix -> a ∈ assets r /\ exists stem, name a = stem ++ suffix.
Proof. intros H%list_elem_of_In%filter_In. rewrite ends_with_iff in H. by rewrite list_elem_of_In. Qed.

(** An answer of [offer_for]. *)
Definition answer_suits (r : Release) (manager triple : text) (o : option Offer) : Prop :=
  match o with
  | Some o => offered o <> [] /\ Forall (fun a => a ∈ assets r) (offered o) /\ suits r manager triple o
  | None => archive_for r triple = None
  end.
Lemma archive_offer r manager triple :
  answer_suits r manager triple ((fun a => {| channel := Archive; offered := [a] |}) <$> archive_for r triple).
Proof.
  destruct (archive_for r triple) as [a|] eqn:E; [|done]. apply archive_for_some in E as [Ha Hx].
  split_and!; [done|by constructor|]. by exists a.
Qed.
(** Files of a channel, or the archive when there are none. *)
Lemma offer_or_archive r manager triple ch files :
  (files <> [] -> Forall (fun a => a ∈ assets r) files /\ suits r manager triple {| channel := ch; offered := files |}) ->
  answer_suits r manager triple
    (match files with
     | _ :: _ => Some {| channel := ch; offered := files |}
     | [] => (fun a => {| channel := Archive; offered := [a] |}) <$> archive_for r triple
     end).
Proof.
  intros H. destruct files as [|a files]; [apply archive_offer|]. destruct (H ltac:(done)). by split_and!.
Qed.
Lemma endings_suit r suffix (P : Prop) : P ->
  Forall (fun a => a ∈ assets r) (ending r suffix) /\
  P /\ Forall (fun a => exists stem, name a = stem ++ suffix) (ending r suffix).
Proof. intros HP. split_and!; [|done|]; apply Forall_forall; intros a Ha; by apply ending_spec in Ha as [? ?]. Qed.

(** What a packaged copy is offered: at least one file, every one of them a file of the
    release, and of the format of the manager that owns the copy, for this machine: a .deb, an
    .rpm, the prebuilt Arch package and never its debug package, PKGBUILD and its install
    file together; or the archive for this machine. There is no offer only when the release
    has no archive for this machine. *)
Theorem offers_suit (r : Release) (manager triple : text) :
  answer_suits r manager triple (offer_for r manager triple).
Proof.
  unfold offer_for. set (arch := first_piece (split_char 45 triple)).
  unfold text_eqb. case_bool_decide as Hd; [apply offer_or_archive; intros _; by apply endings_suit|].
  case_bool_decide as Hr; [apply offer_or_archive; intros _; by apply endings_suit|].
  case_bool_decide as Hp; [|apply archive_offer].
  destruct (pacman_package r arch) as [p|] eqn:Ep.
  - apply (offer_or_archive r manager triple Pacman [p]). intros _.
    unfold pacman_package in Ep. destruct arch as [|c arch'] eqn:Ea; [done|]. rewrite <- Ea in Ep.
    apply find_asset_some in Ep as [Ha [[H1 H2]%andb_true_iff H3]%andb_true_iff].
    apply starts_with_iff in H1 as [stem H1]. apply ends_with_iff in H3 as [front H3].
    apply negb_true_iff, not_true_iff_false in H2. rewrite starts_with_iff in H2.
    split; [by constructor|]. cbn. fold arch. split_and!; [done|by rewrite Ea|]. exists p, stem. split_and!; try done. by exists front.
  - apply (offer_or_archive r manager triple Pkgbuild). unfold pkgbuild_pair. intros Hn. destruct (named r PKGBUILD) as [p|] eqn:E1; [|done].
    destruct (named r PKGBUILD_INSTALL) as [i|] eqn:E2; [|done].
    apply named_some in E1 as [? N1], E2 as [? N2]. split; [by repeat constructor|]. split; [done|]. cbn. by rewrite N1, N2.
Qed.
