(* ===== verification/Install.v ===== *)
(** * Install: what an update may touch (crates/tobii-update/src/install.rs)

    The decisions around an update: who owns this copy, what the banner offers, what is
    refused before anything is downloaded, which folders a download may go into, which files
    in the install directory are the updater's own, what the checksum file says, and how a
    path is quoted in advice. *)
From S2P Require Import Prelude F64 Utf8 Text Bytelines Paths Disk Net.

Definition BINARIES : list text := [txt "tobii"; txt "tobii-gtk"].

(** ** The updater's own files *)
Inductive ScratchKind := Work | Probe | Staged | Backup.

Definition kind_after (b rest : text) : option (ScratchKind * text) :=
  rest ← strip_prefix b rest;
  match strip_prefix (txt ".new-") rest with
  | Some pid => Some (Staged, pid)
  | None => pid ← strip_prefix (txt ".old-") rest; Some (Backup, pid)
  end.
Definition scratch_of (name : text) : option (ScratchKind * text) :=
  found ← match strip_prefix (txt ".tobii-update-probe-") name with
          | Some pid => Some (Probe, pid)
          | None => match strip_prefix (txt ".tobii-update-") name with
                    | Some pid => Some (Work, pid)
                    | None => rest ← strip_prefix [46] name; head (omap (fun b => kind_after b rest) BINARIES)
                    end
          end;
  if negb (bool_decide (found.2 = [])) && forallb is_ascii_digit found.2 then Some found else None.

(** [sweep_stale_scratch]: which entries of the directory it removes. *)
Definition sweep_stale_scratch (me : text) (entries : list text) : list text :=
  List.filter (fun name => match scratch_of name with
                           | None | Some (Backup, _) => false
                           | Some (_, pid) => negb (text_eqb pid me)
                           end) entries.

(** ** Errors *)
Inductive FolderFix := MakeWritable | TakeBack.
Inductive InstallError :=
| NoBuildForTarget (triple : text)
| NoChecksums
| Digest (name expected found : text)
| NotListed (name : text)
| UnsafeName (name : text)
| Download (e : text)
| Unpack (e : text)
| NothingToInstall
| Incomplete (missing : text)
| WillNotRun (name detail : text)
| NotWritable (dir : text)
| FolderNotWritable (dir : text) (fix_ : FolderFix)
| NotYours (dir : text)
| RunWithoutSudo (dir : text)
| UnsafeFolder (path why : text)
| ReplacedWhileRunning
| PackageManaged (manager package : text)
| OwnerUnknown (manager why : text)
| RolledBack (detail : text)
| InstallIo (e : io_error).

(** ** Who owns a copy *)
Inductive Ownership := Package (manager package : text) | Nobody | Unknown (manager why : text).
#[export] Instance ownership_eq_dec : EqDecision Ownership. Proof. solve_decision. Defined.

(** What came of a query: the program is not there, it gave no answer in time, it ended. *)
Inductive Asked := NotInstalled | NoAnswer (why : text) | Ended (code : option Z) (stdout : bytes).
Record Query := { prog : text; args : list text; name_from : text -> option text; no_match : Z }.

Definition first_line (o : text) : option text := trim <$> head (lines o).
Definition dpkg_name (o : text) : option text :=
  line ← find (fun l => negb (starts_with (txt "diversion ") l)) (lines o);
  Some (trim (first_piece (split_char 58 line))).
Definition queries (p : text) : list Query :=
  [{| prog := txt "dpkg"; args := [txt "-S"; p]; name_from := dpkg_name; no_match := 1 |};
   {| prog := txt "rpm"; args := [txt "-qf"; txt "--queryformat"; txt "%{NAME}\n"; p]; name_from := first_line; no_match := 1 |};
   {| prog := txt "pacman"; args := [txt "-Qoq"; p]; name_from := first_line; no_match := 1 |}].

Section Owner.
Context (ask : text -> list text -> Asked).

Definition owned_by (q : Query) (stdout : bytes) : Ownership :=
  match name_from q (lossy_text stdout) with
  | Some (c :: pkg) => Package (prog q) (c :: pkg)
  | _ => Unknown (prog q) (txt "it succeeded but printed nothing we could read")
  end.
Fixpoint ask_all (qs : list Query) : Ownership :=
  match qs with
  | [] => Nobody
  | q :: qs =>
      match ask (prog q) (args q) with
      | NotInstalled => ask_all qs
      | NoAnswer why => Unknown (prog q) why
      | Ended (Some c) stdout =>
          if c =? 0 then owned_by q stdout
          else if c =? no_match q then ask_all qs
          else Unknown (prog q) (txt "it exited with " ++ show_int c)
      | Ended None _ => Unknown (prog q) (txt "it was killed")
      end
  end.
Definition package_owner (path : text) : Ownership := ask_all (queries path).

Fixpoint ownership_in (dir : text) (names : list text) : Ownership :=
  match names with
  | [] => Nobody
  | n :: names => match package_owner (path_join dir n) with
                  | Nobody => ownership_in dir names
                  | owned => owned
                  end
  end.
Definition ownership_of (dir : text) : Ownership := ownership_in dir BINARIES.
End Owner.

Definition updater_for (query_tool : text) : text :=
  if text_eqb query_tool (txt "dpkg") then txt "apt"
  else if text_eqb query_tool (txt "rpm") then txt "dnf"
  else query_tool.

Definition exe_replaced_or_removed (exe : text) : bool := ends_with (txt " (deleted)") exe.

(** ** What is offered, and what is refused *)
Record Placement := {
  dir : text; owner : Ownership; dir_writable : bool; binaries_mine : bool;
  dir_mine : bool; dir_in_home : bool; exe_gone : bool
}.
Inductive Action :=
| Update
| DownloadPackage (manager package : text)
| DownloadForSystem (dir : text)
| DownloadForHome (dir : text)
| FixFolder (dir : text) (fix_ : FolderFix)
| RestartProgram.

Definition action_for (p : Placement) : Action :=
  if exe_gone p then RestartProgram
  else match owner p with
       | Package manager package => DownloadPackage manager package
       | Unknown _ _ => Update
       | Nobody =>
           if negb (dir_writable p) && dir_mine p then FixFolder (dir p) MakeWritable
           else if negb (dir_writable p) && dir_in_home p then FixFolder (dir p) TakeBack
           else if negb (dir_writable p) then DownloadForSystem (dir p)
           else if negb (binaries_mine p) && dir_mine p then DownloadForHome (dir p)
           else if negb (binaries_mine p) then DownloadForSystem (dir p)
           else Update
       end.

(** The questions [refuse_before_download] may ask; asking whether the directory can be
    written to creates a file in it. *)
Inductive Question := AskOwner | AskWritable | AskBinariesMine | AskDirMine | AskDirInHome | AskRoot.
Definition R : Type -> Type := M (list Question) InstallError.
Definition question {A} (q : Question) (a : A) : R A := fun l => (Ok a, l ++ [q]).

Definition refuse_before_download (p : Placement) (as_root : bool) : R unit :=
  if exe_gone p then throw ReplacedWhileRunning
  else
    o ← question AskOwner (owner p);
    match o with
    | Package manager package => throw (PackageManaged manager package)
    | Unknown manager why => throw (OwnerUnknown manager why)
    | Nobody =>
        w ← question AskWritable (dir_writable p);
        if negb (w : bool) then
          m ← question AskDirMine (dir_mine p);
          if m : bool then throw (FolderNotWritable (dir p) MakeWritable)
          else h ← question AskDirInHome (dir_in_home p);
               if h : bool then throw (FolderNotWritable (dir p) TakeBack) else throw (NotWritable (dir p))
        else
          b ← question AskBinariesMine (binaries_mine p);
          if negb (b : bool) then
            r ← question AskRoot as_root;
            if r : bool then throw (RunWithoutSudo (dir p))
            else m ← question AskDirMine (dir_mine p);
                 if m : bool then throw (NotYours (dir p)) else throw (NotWritable (dir p))
          else mret tt
    end.

(** ** Advice *)
Definition shell_plain (c : char) : bool := is_ascii_alphanumeric c || existsb (Z.eqb c) (txt "_./-").
Definition shell_word (s : text) : text :=
  if negb (bool_decide (s = [])) && forallb shell_plain s then s
  else 39 :: (s ≫= (fun c => if c =? 39 then [39; 92; 39; 39] else [c])) ++ [39].
Definition command_as (f : FolderFix) (dir : text) (uid gid : Z) : text :=
  match f with
  | MakeWritable => txt "chmod u+w " ++ shell_word dir
  | TakeBack => txt "sudo chown " ++ show_uint uid ++ 58 :: show_uint gid ++ 32 :: shell_word dir
  end.

(** ** The checksum file *)
Definition is_plain_file_name (name : text) : bool :=
  negb (bool_decide (name = [])) && negb (text_eqb name [46]) && negb (text_eqb name [46; 46]) &&
  negb (existsb (Z.eqb 0) name) && match components name with [Normal _] => true | _ => false end.

Definition digest_line (name line : text) : option text :=
  match split_whitespace line with
  | hex :: file :: _ =>
      let file := default file (strip_prefix [42] file) in
      let base := default file (last (split_char 47 file)) in
      if text_eqb base name && (zlen (utf8_encode hex) =? 64) && forallb is_ascii_hexdigit hex
      then Some (to_ascii_lowercase <$> hex) else None
  | _ => None
  end.
Definition digest_for (sums name : text) : option text := head (omap (digest_line name) (lines sums)).

Example the_last_slash_is_not_seen : is_plain_file_name (txt "a/") = true /\ is_plain_file_name (txt "./a") = false.
Proof. vm_compute. done. Qed.
Example quoting : shell_word (txt "/home/o'neil/x y") = txt "'/home/o'\''neil/x y'".
Proof. vm_compute. reflexivity. Qed.

(** ** The updater's own names *)
(** The shapes of the names, as the updater and [install-payload.sh] make them. *)
Definition scratch_name (kind : ScratchKind) (bin pid : text) : text :=
  match kind with
  | Probe => txt ".tobii-update-probe-" ++ pid
  | Work => txt ".tobii-update-" ++ pid
  | Staged => 46 :: bin ++ txt ".new-" ++ pid
  | Backup => 46 :: bin ++ txt ".old-" ++ pid
  end.
Definition is_pid (pid : text) : Prop := pid <> [] /\ all_digits pid.

Lemma is_pid_test pid : negb (bool_decide (pid = [])) && forallb is_ascii_digit pid = true <-> is_pid pid.
Proof.
  unfold is_pid, all_digits. rewrite andb_true_iff, negb_true_iff, bool_decide_eq_false, forallb_forall, List.Forall_forall. done.
Qed.
(** What the name says, the digits of the process aside. *)
Definition shape_of (name : text) : option (ScratchKind * text) :=
  match strip_prefix (txt ".tobii-update-probe-") name with
  | Some pid => Some (Probe, pid)
  | None => match strip_prefix (txt ".tobii-update-") name with
            | Some pid => Some (Work, pid)
            | None => rest ← strip_prefix [46] name; head (omap (fun b => kind_after b rest) BINARIES)
            end
  end.
Lemma kind_after_some b rest kind pid : kind_after b rest = Some (kind, pid) ->
  46 :: rest = scratch_name kind b pid.
Proof.
  unfold kind_after. destruct (strip_prefix b rest) as [r|] eqn:E; [|done]. apply strip_prefix_some in E as ->.
  unfold mbind, option_bind.
  destruct (strip_prefix (txt ".new-") r) as [p|] eqn:E1.
  - apply strip_prefix_some in E1 as ->. by intros [= <- <-].
  - destruct (strip_prefix (txt ".old-") r) as [p|] eqn:E2; [|done]. apply strip_prefix_some in E2 as ->. by intros [= <- <-].
Qed.
Lemma shape_name name kind pid : shape_of name = Some (kind, pid) ->
  exists bin, bin ∈ BINARIES /\ name = scratch_name kind bin pid.
Proof.
  assert (H0 : txt "tobii" ∈ BINARIES) by apply list_elem_of_here. unfold shape_of.
  destruct (strip_prefix (txt ".tobii-update-probe-") name) as [p|] eqn:E1.
  { apply strip_prefix_some in E1 as ->. intros [= <- <-]. by eexists. }
  destruct (strip_prefix (txt ".tobii-update-") name) as [p|] eqn:E2.
  { apply strip_prefix_some in E2 as ->. intros [= <- <-]. by eexists. }
  destruct (strip_prefix [46] name) as [rest|] eqn:E3; [|done]. apply strip_prefix_some in E3 as ->. cbn [mbind option_bind].
  intros H. assert (Hin : (kind, pid) ∈ omap (fun b => kind_after b rest) BINARIES).
  { destruct (omap _ BINARIES); [done|]. injection H as ->. apply list_elem_of_here. }
  apply list_elem_of_omap in Hin as (b & Hb & Hk%kind_after_some). by exists b.
Qed.
Lemma name_shape kind bin pid : is_pid pid -> bin ∈ BINARIES -> shape_of (scratch_name kind bin pid) = Some (kind, pid).
Proof.
  intros [Hn Hd] Hb. destruct kind.
  - unfold shape_of, scratch_name.
    assert (strip_prefix (txt ".tobii-update-probe-") (txt ".tobii-update-" ++ pid) = None) as ->; [|by rewrite strip_prefix_app].
    destruct pid as [|d pid]; [done|]. apply Forall_inv in Hd. cbn beta in Hd.
    change (strip_prefix (txt ".tobii-update-probe-") (txt ".tobii-update-" ++ d :: pid)) with (strip_prefix (txt "probe-") (d :: pid)).
    change (txt "probe-") with (112 :: txt "robe-"). cbn [strip_prefix]. by destruct (Z.eqb_spec 112 d) as [<-|].
  - unfold shape_of, scratch_name. by rewrite strip_prefix_app.
  - repeat (apply elem_of_cons in Hb as [->|Hb]; [vm_compute; reflexivity|]). by apply elem_of_nil in Hb.
  - repeat (apply elem_of_cons in Hb as [->|Hb]; [vm_compute; reflexivity|]). by apply elem_of_nil in Hb.
Qed.

(** [scratch_of] recognises exactly the names the updater makes: each is read back as its
    kind and its process, and nothing else is taken for one. *)
Theorem scratch_names (name : text) (kind : ScratchKind) (pid : text) :
  scratch_of name = Some (kind, pid) <-> is_pid pid /\ exists bin, bin ∈ BINARIES /\ name = scratch_name kind bin pid.
Proof.
  change (scratch_of name) with (found ← shape_of name;
    if negb (bool_decide (found.2 = [])) && forallb is_ascii_digit found.2 then Some found else None).
  split.
  - destruct (shape_of name) as [[k p]|] eqn:E; [|done]. cbn [mbind option_bind snd].
    destruct (negb _ && _) eqn:Ep; [|done]. intros [= -> ->]. split; [by apply is_pid_test|by apply shape_name].
  - intros (Hp & bin & Hb & ->). rewrite name_shape by done. cbn [mbind option_bind snd].
    by rewrite (proj2 (is_pid_test pid) Hp).
Qed.

Definition stray_names : list text :=
  [txt "tobii"; txt ".tobii-update-notes"; txt ".tobii.new-7"; txt ".tobii-gtk.old-7"; txt ".tobii-update-9"].
Lemma scratch_names_swept : sweep_stale_scratch (txt "9") stray_names = [txt ".tobii.new-7"].
Proof. vm_compute. reflexivity. Qed.

(** ** Ownership *)
Section Owned.
Context (ask : text -> list text -> Asked).

(** This manager says the file is not its own, or is not there to ask. *)
Definition disclaims (q : Query) : Prop :=
  ask (prog q) (args q) = NotInstalled \/ exists out, ask (prog q) (args q) = Ended (Some (no_match q)) out.

Lemma ask_all_nobody qs : Forall (fun q => no_match q <> 0) qs -> ask_all ask qs = Nobody <-> Forall disclaims qs.
Proof.
  induction 1 as [|q qs Hq _ IH]; [done|]. cbn [ask_all]. rewrite Forall_cons, <- IH. unfold disclaims.
  destruct (ask (prog q) (args q)) as [|why|[c|] out].
  - split; [by auto|by intros []].
  - split; [done|]. by intros [[?|[? ?]] _].
  - destruct (Z.eqb_spec c 0) as [->|].
    + split; [unfold owned_by; by destruct (name_from q _) as [[|]|]|]. intros [[?|[? [= E]]] _]; [done|congruence].
    + destruct (Z.eqb_spec c (no_match q)) as [->|].
      * split; [|by intros []]. intros ->. split; [|done]. right. by eexists.
      * split; [done|]. intros [[?|[? [= ?]]] _]; done.
  - split; [done|]. by intros [[?|[? ?]] _].
Qed.
Lemma queries_no_match p : Forall (fun q => no_match q <> 0) (queries p).
Proof. by repeat constructor. Qed.
Lemma ownership_in_nobody dir names :
  ownership_in ask dir names = Nobody <-> Forall (fun n => package_owner ask (path_join dir n) = Nobody) names.
Proof.
  induction names as [|n names IH]; [done|]. cbn [ownership_in]. rewrite Forall_cons, <- IH.
  destruct (package_owner ask (path_join dir n)); split; try done; by intros [].
Qed.

(** A copy counts as nobody's only when each of the three package managers, asked about each
    of the two binaries, is not installed or ended with the exit code it has for "no package
    owns this": a query that fails, hangs, is killed or prints nothing readable never lets an
    update through. *)
Theorem nobody_owns_it (dir : text) :
  ownership_of ask dir = Nobody <->
  forall n q, n ∈ BINARIES -> q ∈ queries (path_join dir n) -> disclaims q.
Proof.
  unfold ownership_of, package_owner. rewrite ownership_in_nobody, Forall_forall. split.
  - intros H n q Hn Hq. specialize (H n Hn). unfold package_owner in H.
    rewrite ask_all_nobody in H by apply queries_no_match. by apply (proj1 (Forall_forall _ _) H).
  - intros H n Hn. apply ask_all_nobody; [apply queries_no_match|]. apply Forall_forall. intros q. by apply H.
Qed.
End Owned.

(** ** The banner and the refusal *)
(** What the refusal is for each offer, for a user who is not root. *)
Definition refusal_of (p : Placement) : option InstallError :=
  match action_for p with
  | Update => match owner p with Unknown m w => Some (OwnerUnknown m w) | _ => None end
  | DownloadPackage m k => Some (PackageManaged m k)
  | DownloadForSystem d => Some (NotWritable d)
  | DownloadForHome d => Some (NotYours d)
  | FixFolder d f => Some (FolderNotWritable d f)
  | RestartProgram => Some ReplacedWhileRunning
  end.

(** The refusals before a download are the banner's decision: for every placement, an
    ordinary user is refused exactly what the banner does not offer as an update, for the
    reason that goes with the offer; root differs only where the binaries are another
    account's, and is then told to drop the sudo. And the probe that creates a file in the
    directory is asked only when nobody owns the copy and it was not replaced. *)
Theorem refusals_follow_the_banner (p : Placement) (as_root : bool) :
  (refuse_before_download p false []).1 = match refusal_of p with None => Ok tt | Some e => Err e end /\
  (refuse_before_download p true []).1 =
    (if bool_decide (owner p = Nobody) && negb (exe_gone p) && dir_writable p && negb (binaries_mine p)
     then Err (RunWithoutSudo (dir p)) else (refuse_before_download p false []).1) /\
  (AskWritable ∈ (refuse_before_download p as_root []).2 -> exe_gone p = false /\ owner p = Nobody).
Proof.
  destruct p as [d o w b m h g]. unfold refuse_before_download, refusal_of, action_for. cbn [exe_gone owner dir_writable dir].
  destruct g.
  { rewrite andb_false_r. split_and!; [done..|]. by intros ?%elem_of_nil. }
  destruct o as [mg pk| |mg why]; cbn.
  1, 3: split_and!; [done..|]; by intros [?|?%elem_of_nil]%elem_of_cons.
  split_and!; [by destruct w, m, h, b|by destruct w, m, h, b|done].
Qed.

(** ** Quoting *)
(** What a POSIX shell makes of the text of one word: outside quotes, a backslash quotes the
    next character and anything but the plain characters would end the word or mean
    something; inside single quotes, every character is itself up to the closing quote. *)
Fixpoint sh_word (quoted : bool) (s : text) : option text :=
  match s with
  | [] => if quoted then None else Some []
  | c :: s =>
      if c =? 39 then sh_word (negb quoted) s
      else if quoted then cons c <$> sh_word true s
      else if c =? 92 then match s with d :: s => cons d <$> sh_word false s | [] => None end
      else if shell_plain c then cons c <$> sh_word false s else None
  end.
Lemma plain_word s : forallb shell_plain s = true -> sh_word false s = Some s.
Proof.
  induction s as [|c s IH]; [done|]. cbn [forallb]. intros [Hc Hs]%andb_true_iff. cbn [sh_word].
  destruct (Z.eqb_spec c 39) as [->|]; [done|]. destruct (Z.eqb_spec c 92) as [->|]; [done|]. by rewrite Hc, IH.
Qed.
Lemma quoted_word s : sh_word true ((s ≫= (fun c => if c =? 39 then [39; 92; 39; 39] else [c])) ++ [39]) = Some s.
Proof.
  induction s as [|c s IH]; [done|]. cbn [mbind list_bind]. destruct (Z.eqb_spec c 39) as [->|Hc].
  - cbn [app sh_word]. cbn [Z.eqb Pos.eqb negb]. by rewrite IH.
  - cbn [app sh_word]. destruct (Z.eqb_spec c 39); [done|]. by rewrite IH.
Qed.

(** A path in a command printed for the user to paste is one word, and a POSIX shell reads it
    back as the path, whatever characters it holds. *)
Theorem shell_reads_word_back (s : text) : shell_word s <> [] /\ sh_word false (shell_word s) = Some s.
Proof.
  unfold shell_word. destruct (negb _ && _) eqn:E; [|split; [done|apply quoted_word]].
  apply andb_true_iff in E as [Hn Hs]. apply negb_true_iff, bool_decide_eq_false in Hn. split; [done|by apply plain_word].
Qed.

(** ** Checksums *)
(** The file [sha256sum] writes: a digest in hexadecimal, two spaces, a name. *)
Definition sums_line (e : bytes * text) : text := concat (hex2 <$> e.1) ++ 32 :: 32 :: e.2.
Definition sums_file (es : list (bytes * text)) : text := (sums_line <$> es) ≫= newline.
(** A name as assets have them: one word, no separator, no asterisk in front. *)
Definition sums_name (n : text) : Prop :=
  n <> [] /\ Forall (fun c => is_whitespace c = false /\ (47 =? c) = false /\ c <> 10) n /\ head n <> Some 42.

Lemma split_whitespace_two a b : a <> [] -> b <> [] ->
  Forall (fun c => is_whitespace c = false) a -> Forall (fun c => is_whitespace c = false) b ->
  split_whitespace (a ++ 32 :: 32 :: b) = [a; b].
Proof.
  intros Ha Hb Wa Wb. unfold split_whitespace. rewrite split_app by done.
  change (32 :: b) with ([] ++ 32 :: b). rewrite split_app, split_none by (done || constructor).
  by destruct a, b.
Qed.

(** The digits of a digest. *)
Definition hex (d : bytes) : text := concat (hex2 <$> d).
Lemma hex2_facts b :
  Forall (fun c => is_whitespace c = false /\ is_ascii_hexdigit c = true /\ to_ascii_lowercase c = c) (hex2 b) /\
  length (utf8_encode (hex2 b)) = 2%nat.
Proof. destruct b; by (split; [repeat constructor|]). Qed.
Lemma hex_facts d :
  Forall (fun c => is_whitespace c = false /\ is_ascii_hexdigit c = true /\ to_ascii_lowercase c = c) (hex d) /\
  zlen (utf8_encode (hex d)) = 2 * zlen d.
Proof.
  induction d as [|b d [IH1 IH2]]; [done|]. destruct (hex2_facts b) as [H1 H2].
  change (hex (b :: d)) with (hex2 b ++ hex d). split; [by apply Forall_app|].
  unfold utf8_encode in *. rewrite bind_app, zlen_app, IH2. unfold zlen at 1. rewrite H2, zlen_cons. lia.
Qed.
Lemma hex_not_nil d : d <> [] -> hex d <> [].
Proof. destruct d as [|b d]; [done|]. intros _. by destruct b. Qed.

Lemma fmap_fixed (f : char -> char) l : Forall (fun c => f c = c) l -> f <$> l = l.
Proof. induction 1 as [|c l Hc _ IH]; [done|]. rewrite fmap_cons. congruence. Qed.
Lemma digest_line_of n d m : zlen d = 32 -> sums_name m ->
  digest_line n (sums_line (d, m)) = if text_eqb m n then Some (hex d) else None.
Proof.
  intros Hd (Hm & Hc & Hs). destruct (hex_facts d) as [Hf Hl]. unfold digest_line, sums_line. cbn [fst snd].
  fold (hex d). rewrite split_whitespace_two.
  2:{ apply hex_not_nil. by intros ->. }
  2:{ done. }
  2:{ eapply Forall_impl; [exact Hf|]. by intros c (? & _). }
  2:{ eapply Forall_impl; [exact Hc|]. by intros c (? & _). }
  assert (strip_prefix [42] m = None) as ->.
  { destruct m as [|c m]; [done|]. cbn [strip_prefix]. destruct (Z.eqb_spec 42 c) as [<-|]; done. }
  cbn [default]. unfold split_char. rewrite split_none by (eapply Forall_impl; [exact Hc|]; by intros c (_ & ? & _)).
  cbn [last default]. rewrite Hl, Hd. cbn [Z.mul Pos.mul Z.eqb Pos.eqb].
  assert (forallb is_ascii_hexdigit (hex d) = true) as ->.
  { apply forallb_forall. intros c Hi. eapply List.Forall_forall in Hf; [|exact Hi]. by destruct Hf as (_ & ? & _). }
  assert (to_ascii_lowercase <$> hex d = hex d) as ->.
  { apply fmap_fixed. eapply Forall_impl; [exact Hf|]. by intros c (_ & _ & ?). }
  by rewrite !andb_true_r.
Qed.
Lemma sums_line_ok d m : sums_name m -> one_line (sums_line (d, m)) /\ back_ok (Z.eqb 13) (sums_line (d, m)).
Proof.
  intros (Hm & Hc & _). destruct (hex_facts d) as [Hf _]. unfold sums_line. cbn [fst snd]. fold (hex d). split.
  - apply one_line_app. split.
    + eapply Forall_impl; [exact Hf|]. by intros c (Hw & _) ->.
    + do 2 (constructor; [done|]). eapply Forall_impl; [exact Hc|]. by intros c (_ & _ & ?).
  - change (hex d ++ 32 :: 32 :: m) with (hex d ++ [32; 32] ++ m). rewrite app_assoc. apply back_ok_app; [done|].
    apply back_ok_last. intros Hl. apply last_Some in Hl as [m' ->]. apply Forall_app in Hc as [_ Hc].
    apply Forall_inv in Hc. by destruct Hc.
Qed.

(** The digest read for a file is the one the checksum file lists: of a file as sha256sum
    writes it, the digest of the first entry of that name, and none when there is no entry. *)
Theorem digests_are_read_back (es : list (bytes * text)) (name : text) :
  Forall (fun e => zlen e.1 = 32 /\ sums_name e.2) es ->
  digest_for (sums_file es) name = (fun e => hex e.1) <$> find (fun e => text_eqb e.2 name) es.
Proof.
  intros H. unfold digest_for, sums_file. rewrite lines_newlines.
  2, 3: apply Forall_fmap; eapply Forall_impl; [exact H|]; intros [d m] [_ Hm]; by apply sums_line_ok.
  induction H as [|[d m] es [Hd Hm] _ IH]; [done|]. cbn [fmap list_fmap omap list_omap find fst snd] in *.
  rewrite digest_line_of by done. by destruct (text_eqb m name).
Qed.

Definition two_sums : list (bytes * text) :=
  [(replicate 32 xab, txt "a.tar.gz"); (replicate 32 x01, txt "tobii-linux.deb")].
Lemma digests_are_read_back_witness :
  digest_for (sums_file two_sums) (txt "tobii-linux.deb") = Some (hex (replicate 32 x01)).
Proof.
  apply (digests_are_read_back two_sums (txt "tobii-linux.deb")).
  repeat constructor; try discriminate.
Defined.
