(* ===== verification/Folder.v ===== *)
(** * Folder: where a download may go (crates/tobii-update/src/install.rs)

    A file is checked, and later a command is run on it: in between nobody else may be able
    to put another in its place. [chosen_folder] and [private_folder] over the answers of
    stat, and [private_group_in] over the account files. [checked_folders_are_safe]: what is
    let through is safe from every account those files describe, but that the uid of owners
    unknown to this user namespace may own a folder above. *)
From S2P Require Import Prelude F64 Utf8 Text Paths Disk Net Install.

Definition OVERFLOW_UID : Z := 65534.
Definition may_own (owner me : Z) : bool := (owner =? me) || (owner =? 0) || (owner =? OVERFLOW_UID).

(** What stat says of a path. *)
Record Meta := { uid : Z; gid : Z; mode : Z; is_dir : bool }.
Definition has_bit (m : Meta) (bit : Z) : bool := negb (Z.land (mode m) bit =? 0).
Definition WORLD_WRITE : Z := 0x2.
Definition GROUP_WRITE : Z := 0x10.
Definition STICKY : Z := 0x200.

Definition foreign_writer (m : Meta) (private_group : Z -> bool) : option text :=
  if has_bit m WORLD_WRITE then Some (txt "anyone")
  else if has_bit m GROUP_WRITE && negb (private_group (gid m)) then
    Some (txt "its group (gid " ++ show_uint (gid m) ++ txt "), which is not yours alone")
  else None.

(** ** Private groups *)
Record Account := { name : text; account : Z; primary : Z }.
Definition account_line (l : text) : option Account :=
  let f := split_char 58 l in
  n ← f !! 0%nat; u ← f !! 2%nat; u ← parse_uint 32 10 u; g ← f !! 3%nat; g ← parse_uint 32 10 g;
  Some {| name := n; account := u; primary := g |}.
Definition accounts (passwd : text) : list Account := omap account_line (lines passwd).
Definition member_list (group_id : Z) (l : text) : option text :=
  let f := split_char 58 l in
  if (4 <=? zlen f) && bool_decide ((g ← f !! 2%nat; parse_uint 32 10 g) = Some group_id) then f !! 3%nat else None.
Definition members (l : text) : list text :=
  List.filter (fun m => negb (text_eqb m [])) (trim <$> split_char 44 l).

Definition private_group_in (passwd group : text) (group_id euid : Z) : bool :=
  let accounts := accounts passwd in
  let mine := name <$> List.filter (fun a => account a =? euid) accounts in
  if negb (existsb (fun a => (account a =? euid) && (primary a =? group_id)) accounts) ||
     existsb (fun a => (primary a =? group_id) && negb (account a =? euid)) accounts
  then false
  else
    let member_lists := omap (member_list group_id) (lines group) in
    negb (bool_decide (member_lists = [])) &&
    forallb (fun l => forallb (fun m => existsb (text_eqb m) mine) (members l)) member_lists.

(** The account files as they are read. *)
Definition is_private_group (passwd group : result io_error text) (group_id euid : Z) : bool :=
  match passwd, group with
  | Ok passwd, Ok group => private_group_in passwd group group_id euid
  | _, _ => false
  end.

(** ** The folders *)
Section Checks.
Context (metadata symlink_metadata : text -> result io_error Meta) (canonicalize : text -> result io_error text).
Context (me : Z) (private_group : Z -> bool).

Definition io {A} (r : result io_error A) : result InstallError A :=
  match r with Ok a => Ok a | Err e => Err (InstallIo e) end.

Definition folder_fault (m : Meta) : option text :=
  if negb (may_own (uid m) me) then
    Some (txt "it belongs to uid " ++ show_uint (uid m) ++ txt ", who can move anything in it")
  else if negb (has_bit m STICKY) then
    (fun who => who ++ txt " can write to it") <$> foreign_writer m private_group
  else None.
Fixpoint check_folders (seen folders : list text) : result InstallError unit :=
  match folders with
  | [] => Ok tt
  | folder :: folders =>
      if bool_decide (folder = []) || existsb (text_eqb folder) seen then check_folders seen folders
      else m ← io (metadata folder);
           match folder_fault m with
           | Some why => Err (UnsafeFolder folder why)
           | None => check_folders (seen ++ [folder]) folders
           end
  end.
Definition chosen_folder (into : text) : result InstallError unit :=
  chosen ← io (metadata into);
  if has_bit chosen STICKY && negb (may_own (uid chosen) me) then
    Err (UnsafeFolder into (txt "it is shared, and its owner, uid " ++ show_uint (uid chosen) ++
                            txt ", can move anything in it"))
  else resolved ← io (canonicalize into);
       check_folders [] (ancestors into ++ ancestors resolved).

Definition private_folder (into dir : text) : result InstallError unit :=
  _ ← chosen_folder into;
  match symlink_metadata dir with
  | Err NotFound => Ok tt
  | Err e => Err (InstallIo e)
  | Ok m =>
      let refuse why := Err (UnsafeFolder dir why) in
      if negb (is_dir m) then refuse (txt "it is already there, and is not a folder")
      else if negb (uid m =? me) then refuse (txt "it is already there, made by uid " ++ show_uint (uid m))
      else match foreign_writer m private_group with
           | Some who => refuse (who ++ txt " can write to it")
           | None => Ok tt
           end
  end.
Definition download_folder_ok (into : text) : bool := is_ok (chosen_folder into).
End Checks.

Example user_private : private_group_in (txt "root:x:0:0::/root:/bin/sh
u:x:1000:1000::/home/u:/bin/sh
") (txt "u:x:1000:
") 1000 1000 = true /\ private_group_in (txt "u:x:1000:100::/:
v:x:1001:100::/:") (txt "users:x:100:") 100 1000 = false.
Proof. vm_compute. done. Qed.

(** ** What the kernel lets an account do *)
(** May an account that is not root, of these groups, rename entries of a folder it has no
    entry in: as the folder's owner; or, unless the folder is sticky, through a write bit. *)
Definition can_move (user : Z) (in_group : Z -> Prop) (m : Meta) : Prop :=
  user = uid m \/
  has_bit m STICKY = false /\ (has_bit m WORLD_WRITE = true \/ has_bit m GROUP_WRITE = true /\ in_group (gid m)).

(** The groups the account files put a user in. *)
Definition belongs (passwd group : text) (user group_id : Z) : Prop :=
  exists a, a ∈ accounts passwd /\ account a = user /\
    (primary a = group_id \/ exists l, l ∈ omap (member_list group_id) (lines group) /\ name a ∈ members l).

Lemma same_name passwd a b : NoDup (name <$> accounts passwd) ->
  a ∈ accounts passwd -> b ∈ accounts passwd -> name a = name b -> a = b.
Proof.
  intros Hu [i Ha]%list_elem_of_lookup [j Hb]%list_elem_of_lookup E.
  assert (i = j) as ->; [|congruence].
  eapply (NoDup_lookup _ i j (name a) Hu); rewrite list_lookup_fmap; [by rewrite Ha|by rewrite Hb, E].
Qed.
Lemma private_groups_are_private passwd group g euid user :
  NoDup (name <$> accounts passwd) -> private_group_in passwd group g euid = true -> belongs passwd group user g -> user = euid.
Proof.
  intros Hu H (a & Ha & <- & Hb). unfold private_group_in in H.
  destruct (negb (existsb _ _) || existsb _ _) eqn:E; [done|]. apply orb_false_iff in E as [_ E].
  destruct Hb as [Hp|(l & Hl & Hn)].
  - apply Z.eqb_eq. apply not_false_iff_true. intros Hf. apply not_true_iff_false in E. apply E, existsb_exists.
    exists a. split; [by apply list_elem_of_In|]. apply andb_true_iff. by rewrite Hf, Hp, Z.eqb_refl.
  - apply andb_true_iff in H as [_ H]. rewrite forallb_forall in H. apply list_elem_of_In in Hl. specialize (H l Hl).
    rewrite forallb_forall in H. apply list_elem_of_In in Hn. specialize (H _ Hn). apply existsb_exists in H as (n & Hm & He).
    apply bool_decide_eq_true in He as <-. apply list_elem_of_In, list_elem_of_fmap in Hm as (b & Hab & Hb).
    apply list_elem_of_In, filter_In in Hb as [Hb Hbu]. apply list_elem_of_In in Hb.
    rewrite (same_name passwd a b) by done. by apply Z.eqb_eq.
Qed.

(** ** The checks *)
Section Safe.
Context (metadata symlink_metadata : text -> result io_error Meta) (canonicalize : text -> result io_error text).
Context (me : Z) (passwd group : text) (unique : NoDup (name <$> accounts passwd)).
Abbreviation private := (fun g => private_group_in passwd group g me).

(** Nobody but the user and root can rename an entry of the folder; save that the uid that
    stands for owners unknown here can, of a folder that is its own. *)
Definition safe_from_others (m : Meta) : Prop :=
  forall user, user <> me -> user <> 0 -> can_move user (belongs passwd group user) m -> user = OVERFLOW_UID /\ uid m = OVERFLOW_UID.

Lemma no_foreign_writer m : foreign_writer m private = None ->
  has_bit m WORLD_WRITE = false /\ forall user, user <> me -> has_bit m GROUP_WRITE = true -> ~ belongs passwd group user (gid m).
Proof.
  unfold foreign_writer. destruct (has_bit m WORLD_WRITE); [done|]. intros H. split; [done|]. intros user Hu Hg Hb.
  rewrite Hg in H. destruct (private_group_in passwd group (gid m) me) eqn:E; [|done].
  by apply Hu, (private_groups_are_private passwd group (gid m)).
Qed.
Lemma no_fault m : folder_fault me private m = None -> safe_from_others m.
Proof.
  unfold folder_fault, may_own. destruct (negb _) eqn:E; [done|]. apply negb_false_iff in E.
  intros H user Hm H0 [->|[Hs Hw]]; [lia|]. rewrite Hs in H. cbn [negb] in H.
  destruct (foreign_writer m private) eqn:Ef; [done|]. apply no_foreign_writer in Ef as [Hww Hg].
  destruct Hw as [Hw|[Hw Hb]]; [congruence|]. by destruct (Hg user).
Qed.

Lemma checked_folders seen folders : check_folders metadata me private seen folders = Ok tt ->
  forall folder, folder ∈ folders -> folder <> [] -> folder ∈ seen \/ exists m, metadata folder = Ok m /\ safe_from_others m.
Proof.
  revert seen. induction folders as [|f folders IH]; intros seen H folder Hin Hn; [by apply elem_of_nil in Hin|].
  cbn [check_folders] in H. destruct (bool_decide (f = []) || existsb (text_eqb f) seen) eqn:E.
  - apply elem_of_cons in Hin as [->|Hin]; [|by eapply IH].
    apply orb_true_iff in E as [E|E]; [by apply bool_decide_eq_true in E|]. left.
    apply existsb_exists in E as (g & Hg & Eg). apply bool_decide_eq_true in Eg as <-. by apply list_elem_of_In.
  - apply result_bind_inv in H as (m & Em & H). destruct (metadata f) as [m'|e] eqn:Emeta; [|done]. injection Em as <-.
    destruct (folder_fault me private m') as [why|] eqn:Ef; [done|]. apply no_fault in Ef.
    apply elem_of_cons in Hin as [->|Hin]; [right; by exists m'|].
    destruct (IH _ H folder Hin Hn) as [Hs|]; [|by right].
    apply elem_of_app in Hs as [Hs|Hs]; [by left|]. apply list_elem_of_singleton in Hs as ->. right. by exists m'.
Qed.
Lemma chosen_folder_safe into : chosen_folder metadata canonicalize me private into = Ok tt ->
  exists resolved, canonicalize into = Ok resolved /\
    forall folder, folder ∈ ancestors into ++ ancestors resolved -> folder <> [] ->
      exists m, metadata folder = Ok m /\ safe_from_others m.
Proof.
  unfold chosen_folder. intros (m & _ & H)%result_bind_inv. destruct (has_bit m STICKY && _); [done|].
  apply result_bind_inv in H as (resolved & Er & H). exists resolved. split; [by destruct (canonicalize into); [injection Er as ->|]|].
  intros folder Hin Hn. destruct (checked_folders _ _ H folder Hin Hn) as [Hs|]; [by apply elem_of_nil in Hs|done].
Qed.
End Safe.

(** C39: A folder that is let through is safe: of it, and of every folder above it, as written and
    as resolved, no account but the user and root can rename an entry out of the way, with one
    exception: a folder that stat says belongs to uid 65534 (what an owner unknown in this
    user namespace shows up as) may be its owner's to change, should an account have that uid.
    And a version folder that is already there is a real directory of the user's into which
    no other account can write, that one included. *)
Theorem checked_folders_are_safe metadata symlink_metadata canonicalize (me : Z) (passwd group into dir : text) :
  NoDup (name <$> accounts passwd) ->
  private_folder metadata symlink_metadata canonicalize me (fun g => private_group_in passwd group g me) into dir = Ok tt ->
  (forall folder, folder <> [] ->
     folder ∈ ancestors into \/ (exists resolved, canonicalize into = Ok resolved /\ folder ∈ ancestors resolved) ->
     exists m, metadata folder = Ok m /\
       forall user, user <> me -> user <> 0 -> can_move user (belongs passwd group user) m -> user = OVERFLOW_UID /\ uid m = OVERFLOW_UID) /\
  (forall m, symlink_metadata dir = Ok m ->
     is_dir m = true /\ uid m = me /\ has_bit m WORLD_WRITE = false /\
     forall user, user <> me -> has_bit m GROUP_WRITE = true -> ~ belongs passwd group user (gid m)).
Proof.
  intros Hu (u & Hc & H)%result_bind_inv. destruct u. split.
  - destruct (chosen_folder_safe metadata canonicalize me passwd group Hu into Hc) as (resolved & Er & Hs).
    intros folder Hn Hin. apply Hs; [|done]. apply elem_of_app. destruct Hin as [|(r & Er' & ?)]; [by left|right]. congruence.
  - intros m Em. rewrite Em in H. destruct (is_dir m) eqn:Ed; [|done]. destruct (Z.eqb_spec (uid m) me) as [->|]; [|done].
    cbn [negb] in H. destruct (foreign_writer m _) eqn:Ef; [done|].
    apply (no_foreign_writer me passwd group Hu) in Ef as [? ?]. by split_and!.
Qed.

Definition the_passwd : text := txt "root:x:0:0::/root:/bin/sh
u:x:1000:1000::/home/u:/bin/sh
v:x:1001:100::/home/v:/bin/sh".
Definition the_group : text := txt "u:x:1000:
users:x:100:".
Definition downloads : text := txt "/home/u/dl".
(** The user's own folder, which his private group may write; above it a system folder. *)
Definition the_meta (p : text) : result io_error Meta :=
  if starts_with downloads p then Ok {| uid := 1000; gid := 1000; mode := 0x1fd; is_dir := true |}
  else Ok {| uid := 0; gid := 0; mode := 0x1ed; is_dir := true |}.
Definition version_dir : text := path_join downloads (txt "tobii-linux-1.0.0").
Lemma checked_folders_are_safe_witness :
  exists m, the_meta (txt "/home") = Ok m /\
    forall user, user <> 1000 -> user <> 0 -> can_move user (belongs the_passwd the_group user) m -> user = OVERFLOW_UID /\ uid m = OVERFLOW_UID.
Proof.
  apply (checked_folders_are_safe the_meta the_meta Ok 1000 the_passwd the_group downloads version_dir).
  - vm_compute. repeat constructor; repeat (rewrite not_elem_of_cons; split; [discriminate|]); apply not_elem_of_nil.
  - vm_compute. reflexivity.
  - discriminate.
  - left. vm_compute. repeat (apply list_elem_of_here || apply list_elem_of_further).
Defined.

(** [ancestors] leaves out no parent. *)
Lemma parent_shorter p d : path_parent p = Some d -> (length d < length p)%nat.
Proof.
  unfold path_parent. destruct (trim_end_prefix (Z.eqb 47) p) as (w & Ep & _).
  pose proof (trim_end_back (Z.eqb 47) p) as Hb. destruct (trim_end_by (Z.eqb 47) p) as [|c q] eqn:Eq; [done|].
  rewrite <- Eq in *. set (t := trim_end_by (Z.eqb 47) p) in *. assert (Ht : t <> []) by (by rewrite Eq).
  apply (f_equal length) in Ep. rewrite length_app in Ep.
  destruct (split_once (Z.eqb 47) (rev t)) as [[n front]|] eqn:Es.
  2:{ intros [= <-]. cbn. destruct t; [done|cbn in *; lia]. }
  apply split_once_some in Es as (_ & x & Hx & Es). apply (f_equal length) in Es as El.
  rewrite length_rev, length_app in El. cbn in El.
  assert (n <> []) as Hn. { intros ->. unfold back_ok in Hb. rewrite Es in Hb. cbn [app front_ok] in Hb. by rewrite Hx in Hb. }
  assert (1 <= length n)%nat by (destruct n; [done|cbn; lia]).
  destruct (trim_end_prefix (Z.eqb 47) (rev front)) as (w' & Ef & _). apply (f_equal length) in Ef.
  rewrite length_rev, length_app in Ef.
  destruct (trim_end_by (Z.eqb 47) (rev front)) as [|y z]; intros [= <-]; cbn in *; lia.
Qed.

Lemma ancestors_closed p q d : q ∈ ancestors p -> path_parent q = Some d -> d ∈ ancestors p.
Proof.
  unfold ancestors. assert (H : (length p < S (length p))%nat) by lia. revert H.
  generalize (S (length p)). intros fuel. revert p. induction fuel as [|fuel IH]; intros p Hf; [lia|].
  cbn [ancestors_from]. intros Hq Hd. apply elem_of_cons in Hq as [->|Hq].
  - rewrite Hd. apply list_elem_of_further. pose proof (parent_shorter _ _ Hd). by destruct fuel; apply list_elem_of_here.
  - destruct (path_parent p) as [d'|] eqn:Ed; [|by apply elem_of_nil in Hq]. pose proof (parent_shorter _ _ Ed).
    apply list_elem_of_further, IH; [lia|done..].
Qed.
