(* ===== verification/Swap.v ===== *)
(** * Swap: putting the new binaries in place (crates/tobii-update/src/install.rs)

    [swap_in] on the file system of [Disk], where any call may fail: a hard link to each old
    binary, a rename over it, and on a failure the renames back. [swap_is_all_or_nothing]:
    every binary is there, old or new, at every moment; and either all of them are replaced,
    or all are as they were but for those the error names as not put back. *)
From stdpp Require Import gmap.
From S2P Require Import Prelude F64 Utf8 Text Paths Disk Net Install.

Abbreviation dir := Disk.dir.

Section Swap.
Context (os : nat -> outcome) (pid : text) (io_message : io_error -> text).

(** The result of a call, whatever it is, as a value. *)
Definition attempt {A} (m : Io A) : Io (result io_error A) := fun w => let '(r, w) := m w in (Ok r, w).

Fixpoint remove_all (files : list text) : Io unit :=
  match files with
  | [] => mret tt
  | f :: files => _ ← ignore (remove_file os f); remove_all files
  end.
(** The staged copies and their targets. *)
Abbreviation pairs := (list (text * text)) (only parsing).
Definition remove_staged (staged : pairs) : Io unit := remove_all (fst <$> staged).

Definition backup_of (target : text) : text :=
  with_file_name target (46 :: default (txt "bin") (file_name target) ++ txt ".old-" ++ pid).

(** The loop that puts back what was replaced; [detail] is the message so far. *)
Fixpoint put_back (done : pairs) (detail : text) : Io text :=
  match done with
  | [] => mret detail
  | (t, b) :: done =>
      r ← attempt (rename os b t);
      put_back done
        (match r with
         | Ok _ => detail
         | Err u => detail ++ txt "; and " ++ t ++ txt " could not be restored from " ++ b ++ txt ": " ++ io_message u
         end)
  end.

(** One turn: what was done, or why not. *)
Definition swap_one (staging target : text) : Io (result io_error unit) :=
  let backup := backup_of target in
  _ ← ignore (remove_file os backup);
  attempt (_ ← hard_link os target backup; rename os staging target).
(** The loop, with the targets done and their backups; an error is the detail of the rollback. *)
Fixpoint swap_loop (staged todo done : pairs) : Io (result text pairs) :=
  match todo with
  | [] => mret (Ok done)
  | (staging, target) :: todo =>
      step ← swap_one staging target;
      match step with
      | Ok _ => swap_loop staged todo (done ++ [(target, backup_of target)])
      | Err e =>
          _ ← ignore (remove_file os (backup_of target));
          detail ← put_back (rev done) (io_message e);
          _ ← remove_staged staged;
          mret (Err detail)
      end
  end.
Definition swap_in (staged : pairs) : Io (result InstallError (list text)) :=
  r ← swap_loop staged staged [];
  match r with
  | Err detail => mret (Err (RolledBack detail))
  | Ok done => _ ← remove_all (snd <$> done); mret (Ok (omap (fun tb => file_name tb.1) done))
  end.

(** ** Names that do not meet *)
Record apart (staged : pairs) : Prop := {
  ap_targets : NoDup (snd <$> staged);
  ap_staged : forall p q, p ∈ staged -> q ∈ staged -> p.1 <> q.2 /\ p.1 <> backup_of q.2 /\ p.2 <> backup_of q.2;
  ap_fst : NoDup (fst <$> staged);
  ap_backups : forall p q, p ∈ staged -> q ∈ staged -> backup_of p.2 = backup_of q.2 -> p.2 = q.2;
}.

Section Run.
Context (staged : pairs) (f0 : Fs) (names : apart staged).

(** The target has the new file, its backup is the old one. *)
Definition swapped (p : text * text) (f : Fs) : Prop :=
  dir f !! p.2 = dir f0 !! p.1 /\ is_Some (dir f0 !! p.1) /\
  dir f !! backup_of p.2 = dir f0 !! p.2 /\ is_Some (dir f0 !! p.2).
Definition untouched (p : text * text) (f : Fs) : Prop := dir f !! p.1 = dir f0 !! p.1 /\ dir f !! p.2 = dir f0 !! p.2.
(** Old, or new and there. *)
Definition old_or_swapped (p : text * text) (f : Fs) : Prop :=
  dir f !! p.2 = dir f0 !! p.2 \/ dir f !! p.2 = dir f0 !! p.1 /\ is_Some (dir f0 !! p.1).
Definition never_gone (f : Fs) : Prop := inodes f = inodes f0 /\ forall p, p ∈ staged -> old_or_swapped p f.

Definition progress (past todo : pairs) (f : Fs) : Prop :=
  inodes f = inodes f0 /\ staged = past ++ todo /\
  (forall p, p ∈ past -> swapped p f) /\ (forall p, p ∈ todo -> untouched p f).

Lemma progress_safe past todo f : progress past todo f -> never_gone f.
Proof.
  intros (Hi & Hs & Hp & Ht). split; [done|]. intros p. rewrite Hs. intros [H|H]%elem_of_app.
  - right. by destruct (Hp p H) as (? & ? & _).
  - left. by destruct (Ht p H).
Qed.

(** *** Calls *)
Lemma triple_attempt {A} safe P (m : Io A) Q E E' :
  triple safe P m Q E -> triple safe P (attempt m) (fun r f => match r with Ok a => Q a f | Err _ => E f end) E'.
Proof.
  intros H w Hp Hs. destruct (H w Hp Hs) as [Hs1 H1]. unfold attempt. by destruct (m w) as [[a|e] w1].
Qed.
(** Removing a file keeps what does not speak of it. *)
Lemma triple_removed (safe P : Fs -> Prop) n E :
  (forall f, P f -> safe f) -> (forall f, P f -> P (set_dir (delete n (dir f)) f)) ->
  triple safe P (ignore (remove_file os n)) (fun _ => P) E.
Proof.
  intros Hs Hd. apply triple_ignore, triple_syscall; [done| |done]. intros f Hp.
  destruct (dir f !! n); cbn [fst snd]; auto.
Qed.

Lemma others past s t todo : staged = past ++ (s, t) :: todo ->
  forall p, p ∈ past \/ p ∈ todo -> p ∈ staged /\ p.2 <> t /\ p.1 <> s.
Proof.
  intros E p Hp. assert (Hin : p ∈ past ++ todo) by (apply elem_of_app; tauto).
  split; [rewrite E, elem_of_app, elem_of_cons; tauto|].
  assert (Hnd : forall g : text * text -> text, NoDup (g <$> staged) -> g p <> g (s, t)).
  { intros g H. rewrite E, fmap_app, fmap_cons, NoDup_app in H.
    destruct H as (_ & H1 & [H2 _]%NoDup_cons). apply elem_of_app in Hin as [Hin|Hin]; intros Eg.
    - apply (H1 (g p)); [by apply list_elem_of_fmap_2|]. rewrite Eg. apply list_elem_of_here.
    - apply H2. rewrite <- Eg. by apply list_elem_of_fmap_2. }
  split; [apply (Hnd snd), names|apply (Hnd fst), names].
Qed.

Section One.
Context (past : list (text * text)) (s t : text) (todo : list (text * text)) (Es : staged = past ++ (s, t) :: todo).

Lemma here : (s, t) ∈ staged. Proof. rewrite Es, elem_of_app, elem_of_cons. auto. Qed.
(** The names a turn touches are none of the others'. *)
Lemma apart_from p : p ∈ past \/ p ∈ todo ->
  (p.2 <> t /\ p.2 <> s /\ p.2 <> backup_of t) /\ (p.1 <> s /\ p.1 <> t /\ p.1 <> backup_of t) /\
  (backup_of p.2 <> t /\ backup_of p.2 <> s /\ backup_of p.2 <> backup_of t).
Proof.
  intros Hp. destruct (others _ _ _ _ Es p Hp) as (Hin & H2 & H1). pose proof here as Hh.
  destruct (ap_staged _ names _ _ Hin Hh) as (? & ? & ?). destruct (ap_staged _ names _ _ Hh Hin) as (? & ? & ?).
  cbn in *. split_and!; try congruence. intros E. by apply H2, (ap_backups _ names p (s, t)).
Qed.
Lemma own_names : s <> t /\ s <> backup_of t /\ t <> backup_of t.
Proof. apply (ap_staged _ names _ _ here here). Qed.

(** A change of the backup's name alone. *)
Lemma progress_backup f d :
  (forall n, n <> backup_of t -> d !! n = dir f !! n) ->
  progress past ((s, t) :: todo) f -> progress past ((s, t) :: todo) (set_dir d f).
Proof.
  intros Hd (Hi & _ & Hp & Ht). destruct own_names as (? & ? & ?). split_and!; [done|done| |]; unfold swapped, untouched.
  - intros p Hin. destruct (apart_from p (or_introl Hin)) as ((? & ? & ?) & _ & (? & ? & ?)).
    cbn [Disk.dir set_dir]. rewrite !Hd by done. by apply Hp.
  - intros p [->|Hin]%elem_of_cons; cbn [Disk.dir set_dir fst snd].
    + rewrite !Hd by done. apply (Ht (s, t)). apply list_elem_of_here.
    + destruct (apart_from p (or_intror Hin)) as ((? & ? & ?) & (? & ? & ?) & _). rewrite !Hd by done.
      apply Ht. by apply list_elem_of_further.
Qed.

Definition backed_up (f : Fs) : Prop :=
  progress past ((s, t) :: todo) f /\ dir f !! backup_of t = dir f0 !! t /\ is_Some (dir f0 !! t).

Lemma link_ok : triple never_gone (progress past ((s, t) :: todo)) (hard_link os t (backup_of t))
  (fun _ => backed_up) (progress past ((s, t) :: todo)).
Proof.
  apply triple_syscall; [apply progress_safe| |done]. intros f P. pose proof P as (_ & _ & _ & Ht).
  destruct (Ht (s, t) ltac:(apply list_elem_of_here)) as [_ E]. cbn [snd] in E.
  destruct (dir f !! t) as [i|] eqn:Ei; [|done]. destruct (dir f !! backup_of t); [done|]. cbn [fst snd]. split_and!.
  - apply progress_backup; [|done]. intros n Hn. by apply lookup_insert_ne.
  - cbn [Disk.dir set_dir]. by rewrite lookup_insert_eq.
  - by rewrite <- E.
Qed.

Lemma swap_rename_ok : triple never_gone backed_up (rename os s t)
  (fun _ => progress (past ++ [(s, t)]) todo) (progress past ((s, t) :: todo)).
Proof.
  apply triple_syscall; [by intros f [? _]; eapply progress_safe| |by intros f n [? _]].
  intros f (P & Hb & Hold). unfold rename_effect. pose proof P as (Hi & _ & Hp & Ht). destruct own_names as (? & ? & ?).
  destruct (Ht (s, t) ltac:(apply list_elem_of_here)) as [E1 E2]. cbn [fst snd] in E1, E2.
  destruct (dir f !! s) as [i|] eqn:Ei; [|done].
  assert (Hstep : forall d, d !! t = Some i -> (forall n, n <> s -> n <> t -> d !! n = dir f !! n) ->
    progress (past ++ [(s, t)]) todo (set_dir d f)).
  { intros d Hdt Hd. split_and!; [done|by rewrite <- app_assoc| |]; unfold swapped, untouched; cbn [Disk.dir set_dir].
    - intros p [Hin|Hin]%elem_of_app.
      + destruct (apart_from p (or_introl Hin)) as ((? & ? & ?) & _ & (? & ? & ?)). rewrite !Hd by done. by apply Hp.
      + apply list_elem_of_singleton in Hin as ->. cbn [fst snd]. rewrite Hdt, <- E1, Hd by congruence. by split_and!.
    - intros p Hin. destruct (apart_from p (or_intror Hin)) as ((? & ? & ?) & (? & ? & ?) & _). rewrite !Hd by done.
      apply Ht. by apply list_elem_of_further. }
  case_bool_decide as Hs; cbn [fst snd].
  - exact (Hstep (dir f) Hs (fun _ _ _ => eq_refl)).
  - apply Hstep; [apply lookup_insert_eq|]. intros n Hn1 Hn2. rewrite lookup_insert_ne by done. by apply lookup_delete_ne.
Qed.

Lemma swap_one_ok E : triple never_gone (progress past ((s, t) :: todo)) (swap_one s t)
  (fun r f => match r with Ok _ => progress (past ++ [(s, t)]) todo f | Err _ => progress past ((s, t) :: todo) f end) E.
Proof.
  unfold swap_one. eapply triple_bind with (fun _ => progress past ((s, t) :: todo)).
  { apply triple_removed; [apply progress_safe|]. intros f. apply progress_backup. intros n Hn. by apply lookup_delete_ne. }
  intros []. apply (triple_attempt _ _ _ (fun _ => progress (past ++ [(s, t)]) todo) (progress past ((s, t) :: todo))).
  eapply triple_bind; [apply link_ok|]. intros []. apply swap_rename_ok.
Qed.
End One.

(** *** Putting back *)

(** What the error says of the ones that could not be put back. *)
Definition note (q : text * text * io_error) : text :=
  txt "; and " ++ q.1.2 ++ txt " could not be restored from " ++ backup_of q.1.2 ++ txt ": " ++ io_message q.2.
Definition report (e : io_error) (bad : list (text * text * io_error)) : text := io_message e ++ concat (note <$> bad).

(** Of these binaries, the ones in [bad] are new and their backups the old ones; the
    others are old. *)
Definition all_but (p : text * text) (bad : list (text * text * io_error)) (f : Fs) : Prop :=
  (p ∈ bad.*1 -> swapped p f) /\ (p ∉ bad.*1 -> dir f !! p.2 = dir f0 !! p.2).
Lemma all_but_safe p bad f : all_but p bad f -> old_or_swapped p f.
Proof.
  intros [Hb Ho]. destruct (decide (p ∈ bad.*1)) as [H|H]; [right|left; by apply Ho]. by destruct (Hb H) as (? & ? & _).
Qed.

(** What is still to be put back has its backup. *)
Definition restoring (left : list (text * text)) (bad : list (text * text * io_error)) (f : Fs) : Prop :=
  inodes f = inodes f0 /\ NoDup left /\ (forall p, p ∈ left -> p ∈ staged /\ (p ∉ bad.*1) /\ swapped p f) /\
  forall p, p ∈ staged -> p ∉ left -> all_but p bad f.
Lemma restoring_safe left bad f : restoring left bad f -> never_gone f.
Proof.
  intros (Hi & _ & Hl & Hr). split; [done|]. intros p Hp. destruct (decide (p ∈ left)) as [H|H].
  - right. by destruct (Hl p H) as (_ & _ & ? & ? & _).
  - by eapply all_but_safe, Hr.
Qed.

Lemma fmap_rev {A B} (g : A -> B) l : g <$> rev l = rev (g <$> l).
Proof. induction l as [|x l IH]; [done|]. cbn. by rewrite fmap_app, IH. Qed.
Definition back (p : text * text) : text * text := (p.2, backup_of p.2).

Lemma staged_target p q : p ∈ staged -> q ∈ staged -> p.2 = q.2 -> p = q.
Proof.
  intros [i Hi]%list_elem_of_lookup [j Hj]%list_elem_of_lookup E.
  assert (i = j) as ->; [|congruence].
  eapply (NoDup_lookup _ i j p.2 (ap_targets _ names)); rewrite list_lookup_fmap; [by rewrite Hi|by rewrite Hj, E].
Qed.
(** The names of another binary are not its names. *)
Lemma other_names p q : p ∈ staged -> q ∈ staged -> q <> p ->
  q.2 <> p.2 /\ q.2 <> backup_of p.2 /\ backup_of q.2 <> p.2 /\ backup_of q.2 <> backup_of p.2.
Proof.
  intros Hp Hq Hqp. destruct (ap_staged _ names _ _ Hq Hp) as (? & ? & ?). destruct (ap_staged _ names _ _ Hp Hq) as (? & ? & ?).
  assert (q.2 <> p.2) by (intros E; by apply Hqp, staged_target). split_and!; try done.
  intros E. by apply (ap_backups _ names) in E.
Qed.
(** One of them restored. *)
Lemma restored p left bad f d :
  restoring (p :: left) bad f -> d !! p.2 = dir f0 !! p.2 ->
  (forall n, n <> p.2 -> n <> backup_of p.2 -> d !! n = dir f !! n) -> restoring left bad (set_dir d f).
Proof.
  intros (Hi & [Hn Hnd]%NoDup_cons & Hl & Hr) Hd Ho.
  destruct (Hl p ltac:(apply list_elem_of_here)) as (Hp & Hpb & _).
  assert (Hsame : forall q, q ∈ staged -> q <> p -> swapped q f -> swapped q (set_dir d f)).
  { intros q Hq Hqp (? & ? & ? & ?). destruct (other_names p q Hp Hq Hqp) as (? & ? & ? & ?).
    unfold swapped. cbn [Disk.dir set_dir]. by rewrite !Ho. }
  split_and!; [done|done| |].
  - intros q Hq. destruct (Hl q ltac:(by apply list_elem_of_further)) as (Hqs & Hqb & Hsw).
    split_and!; [done|done|]. apply Hsame; [done|by intros ->|done].
  - intros q Hq Hql. destruct (decide (q = p)) as [->|Hqp]; [by split|].
    destruct (Hr q Hq) as [Hb Hg]; [intros [?|?]%elem_of_cons; done|]. split; [intros H; by apply Hsame, Hb|].
    intros H. cbn [Disk.dir set_dir]. destruct (other_names p q Hp Hq Hqp) as (? & ? & _). rewrite Ho by done. by apply Hg.
Qed.
Lemma restore_missed p left bad f u : restoring (p :: left) bad f -> restoring left (bad ++ [(p, u)]) f.
Proof.
  intros (Hi & [Hn Hnd]%NoDup_cons & Hl & Hr).
  assert (Hin : forall q, q ∈ (bad ++ [(p, u)]).*1 <-> q ∈ bad.*1 \/ q = p).
  { intros q. rewrite fmap_app, elem_of_app. cbn [fmap list_fmap fst]. by rewrite list_elem_of_singleton. }
  split_and!; [done|done| |].
  - intros q Hq. destruct (Hl q ltac:(by apply list_elem_of_further)) as (? & ? & ?). split_and!; [done| |done].
    rewrite Hin. intros [?| ->]; done.
  - intros q Hq Hql. unfold all_but. rewrite Hin. destruct (decide (q = p)) as [->|Hqp].
    + split; [intros _; apply Hl, list_elem_of_here|tauto].
    + destruct (Hr q Hq) as [Hb Ho]; [by intros [?|?]%elem_of_cons|]. split; [intros [?|?]; [by apply Hb|done]|].
      intros H. apply Ho. tauto.
Qed.
Lemma restore_step p left bad f : restoring (p :: left) bad f ->
  let '(r, f') := rename_effect (backup_of p.2) p.2 f in is_ok r = true /\ restoring left bad f'.
Proof.
  intros R. pose proof R as (_ & _ & Hl & _).
  destruct (Hl p ltac:(apply list_elem_of_here)) as (Hp & _ & _ & _ & Hb & [i Hi]). rewrite Hi in Hb.
  unfold rename_effect. rewrite Hb. case_bool_decide as Hs; (split; [done|]).
  - apply (restored p left bad f (dir f) R); [congruence|done].
  - apply (restored p left bad f _ R); [by rewrite lookup_insert_eq, Hi|].
    intros n Hn1 Hn2. rewrite lookup_insert_ne by done. by apply lookup_delete_ne.
Qed.
(** Every one is tried, and the ones that stay are those named, in that order. *)
Lemma put_back_ok left bad0 detail E : triple never_gone (restoring left bad0) (put_back (back <$> left) detail)
  (fun d f => exists bad, d = detail ++ concat (note <$> bad) /\ (bad.*1) `sublist_of` left /\ restoring [] (bad0 ++ bad) f) E.
Proof.
  revert detail bad0. induction left as [|p left IH]; intros detail bad0.
  { intros w Hp Hs. split; [done|]. exists []. rewrite !app_nil_r. by split_and!. }
  cbn [fmap list_fmap put_back back].
  apply triple_bind with (fun r f => match r with Ok _ => restoring left bad0 f
                                              | Err _ => forall u, restoring left (bad0 ++ [(p, u)]) f end).
  { apply (triple_attempt _ _ _ (fun _ => restoring left bad0) (fun f => forall u, restoring left (bad0 ++ [(p, u)]) f)).
    apply triple_syscall; [apply restoring_safe| |].
    - intros f R. apply restore_step in R. by destruct (rename_effect _ _ f) as [[u|e] f'], R.
    - intros f n R u. by apply restore_missed. }
  intros [u|u].
  - eapply triple_weaken; [apply IH|done| |done]. intros d f (bad & -> & Hb & R). exists bad. split_and!; [done|by constructor|done].
  - eapply triple_weaken; [apply (IH _ (bad0 ++ [(p, u)]))|intros f H; exact (H u)| |done].
    intros d f (bad & -> & Hb & R). exists ((p, u) :: bad). split_and!; [|by constructor|by rewrite <- app_assoc in R].
    rewrite fmap_cons. cbn [concat]. unfold note at 2. cbn [fst snd]. by rewrite <- !app_assoc.
Qed.

(** *** The whole *)
Definition kept_old (bad : list (text * text * io_error)) (f : Fs) : Prop :=
  inodes f = inodes f0 /\ forall p, p ∈ staged -> all_but p bad f.
Definition rolled_back (detail : text) (f : Fs) : Prop :=
  exists e bad, detail = report e bad /\ (bad.*1) `sublist_of` rev staged /\ kept_old bad f.
Definition all_swapped (f : Fs) : Prop :=
  inodes f = inodes f0 /\ forall p, p ∈ staged -> dir f !! p.2 = dir f0 !! p.1 /\ is_Some (dir f0 !! p.1).

Lemma kept_old_safe bad f : kept_old bad f -> never_gone f.
Proof. intros [Hi H]. split; [done|]. intros p Hp. by eapply all_but_safe, H. Qed.
Lemma rolled_back_safe detail f : rolled_back detail f -> never_gone f.
Proof. intros (e & bad & _ & _ & H). by eapply kept_old_safe. Qed.
Lemma all_swapped_safe f : all_swapped f -> never_gone f.
Proof. intros [Hi H]. split; [done|]. intros p Hp. right. by apply H. Qed.

Lemma remove_all_ok (P : Fs -> Prop) files E : (forall f, P f -> never_gone f) ->
  (forall f n, n ∈ files -> P f -> P (set_dir (delete n (dir f)) f)) ->
  triple never_gone P (remove_all files) (fun _ => P) E.
Proof.
  intros Hs Hd. induction files as [|n files IH]; [by intros w Hp Hw|].
  cbn [remove_all]. eapply triple_bind with (fun _ => P).
  - apply triple_removed; [done|]. intros f. apply Hd, list_elem_of_here.
  - intros []. apply IH. intros f m Hm. by apply Hd, list_elem_of_further.
Qed.
(** A name that is no target and no backup may go. *)
Lemma gone_kept_old bad n f : (forall p, p ∈ staged -> n <> p.2 /\ n <> backup_of p.2) ->
  kept_old bad f -> kept_old bad (set_dir (delete n (dir f)) f).
Proof.
  intros Hn [Hi H]. split; [done|]. intros p Hp. destruct (Hn p Hp), (H p Hp) as [Hb Ho].
  unfold all_but, swapped. cbn [Disk.dir set_dir]. by rewrite !lookup_delete_ne by auto.
Qed.
Lemma gone_all_swapped n f : (forall p, p ∈ staged -> n <> p.2) ->
  all_swapped f -> all_swapped (set_dir (delete n (dir f)) f).
Proof.
  intros Hn [Hi H]. split; [done|]. intros p Hp. cbn [Disk.dir set_dir]. rewrite lookup_delete_ne by auto. by apply H.
Qed.
Lemma staged_not_target n : n ∈ fst <$> staged -> forall p, p ∈ staged -> n <> p.2 /\ n <> backup_of p.2.
Proof. intros (q & -> & Hq)%list_elem_of_fmap p Hp. destruct (ap_staged _ names q p Hq Hp) as (? & ? & _). done. Qed.
Lemma backup_not_target q p : q ∈ staged -> p ∈ staged -> backup_of q.2 <> p.2.
Proof. intros Hq Hp. apply not_eq_sym. by apply (ap_staged _ names p q). Qed.

Definition loop_post (done : list (text * text)) (r : result text (list (text * text))) (f : Fs) : Prop :=
  match r with
  | Ok d => d = back <$> staged /\ all_swapped f
  | Err detail => rolled_back detail f
  end.

Lemma progress_restoring past todo f : progress past todo f -> restoring (rev past) [] f.
Proof.
  intros (Hi & Es & Hp & Ht). assert (Hnd : NoDup staged) by (eapply NoDup_fmap_1, (ap_targets _ names)).
  assert (Hr : rev past ≡ₚ past) by (symmetry; apply Permutation_rev).
  split_and!; [done| | |].
  - rewrite Hr. rewrite Es, NoDup_app in Hnd. by destruct Hnd.
  - intros p. rewrite Hr. intros Hin. split_and!; [rewrite Es, elem_of_app; by left|apply not_elem_of_nil|by apply Hp].
  - intros p Hps. rewrite Hr. intros Hn. split; [by intros ?%elem_of_nil|]. intros _.
    rewrite Es in Hps. apply elem_of_app in Hps as [H|H]; [done|by apply Ht].
Qed.

Lemma swap_loop_ok past todo E : staged = past ++ todo ->
  triple never_gone (progress past todo) (swap_loop staged todo (back <$> past)) (loop_post (back <$> past)) E.
Proof.
  revert past. induction todo as [|[s t] todo IH]; intros past Es.
  - intros w P Hs. split; [done|]. cbn. destruct P as (Hi & _ & Hp & _). rewrite app_nil_r in Es. subst past.
    split; [done|]. split; [done|]. intros p Hin. by destruct (Hp p Hin) as (? & ? & _).
  - cbn [swap_loop]. eapply triple_bind; [by apply swap_one_ok|]. intros [u|e].
    + change ([(t, backup_of t)]) with (back <$> [(s, t)]). rewrite <- fmap_app.
      eapply triple_weaken; [apply IH; by rewrite <- app_assoc|done|done|done].
    + assert (Hst : (s, t) ∈ staged) by (rewrite Es, elem_of_app, elem_of_cons; auto).
      eapply triple_bind with (fun _ => progress past ((s, t) :: todo)).
      { apply triple_removed; [apply progress_safe|]. intros f. apply (progress_backup _ _ _ _ Es).
        intros n Hn. by apply lookup_delete_ne. }
      intros []. eapply triple_bind with (fun d => rolled_back d).
      { rewrite <- fmap_rev. eapply triple_weaken; [apply put_back_ok|intros f; apply progress_restoring| |done].
        intros d f (bad & -> & Hb & (Hi & _ & _ & H)). exists e, bad. split_and!; [done| |].
        - etrans; [exact Hb|]. rewrite Es, rev_app_distr. by apply sublist_inserts_l.
        - split; [done|]. intros p Hp. by apply H, not_elem_of_nil. }
      intros detail. eapply triple_bind with (fun _ => rolled_back detail).
      { apply remove_all_ok; [apply rolled_back_safe|]. intros f n Hn (e' & bad & Hd & Hb & Hk).
        exists e', bad. split_and!; [done|done|]. by apply gone_kept_old; [apply staged_not_target|]. }
      intros []. by intros w Hp Hs.
Qed.
Lemma swap_in_ok : triple never_gone (fun f => f = f0) (swap_in staged)
  (fun r f => match r with
              | Ok replaced => replaced = omap (fun p => file_name p.2) staged /\ all_swapped f
              | Err (RolledBack detail) => rolled_back detail f
              | Err _ => False
              end) (fun _ => False).
Proof.
  unfold swap_in. eapply triple_bind with (fun r => loop_post [] r).
  { apply (triple_weaken never_gone _ (progress [] staged) _ _ (loop_post []) _ (fun _ => False)); [|intros f ->|done|done].
    - exact (swap_loop_ok [] staged (fun _ => False) eq_refl).
    - split_and!; [done..| |done]. by intros p ?%elem_of_nil. }
  intros [done|detail].
  - eapply triple_bind with (fun _ => loop_post [] (Ok done)).
    { intros w [-> H] Hs. revert H Hs. cbn [loop_post].
      assert (T : triple never_gone all_swapped (remove_all (snd <$> (back <$> staged))) (fun _ => all_swapped) (fun _ => False)).
      { apply remove_all_ok; [apply all_swapped_safe|]. intros f n Hn. apply gone_all_swapped. intros p Hp.
        apply list_elem_of_fmap in Hn as (q & -> & Hq). apply list_elem_of_fmap in Hq as (q' & -> & Hq).
        by apply backup_not_target. }
      intros H Hs. destruct (T w H Hs) as [H1 H2]. split; [done|]. by destruct (remove_all _ w) as [[u|e] w']. }
    intros [] w [-> H] Hs. split; [done|]. cbn. split; [|done].
    clear. induction staged as [|p l IH]; [done|]. cbn. by rewrite IH.
  - by intros w H Hs.
Qed.
End Run.

(** ** What it comes to *)
Definition present (f : Fs) (n : text) : Prop := is_Some (dir f !! n).
Definition same_file (f : Fs) (n : text) (f0 : Fs) (n0 : text) : Prop := dir f !! n = dir f0 !! n0 /\ visible f n = visible f0 n0.
Lemma same_dir f n f0 n0 : inodes f = inodes f0 -> dir f !! n = dir f0 !! n0 -> same_file f n f0 n0.
Proof. intros Hi Hd. split; [done|]. unfold visible. by rewrite Hd, Hi. Qed.

(** C12: Whatever calls fail, and at every moment: each binary being replaced is there, and is the
    old file or the new one. At the end, either all of them are the new ones, and their names
    are returned in order; or it is an error, which says after its cause, binary by binary and
    newest first, exactly which could not be put back, and from where: each of those is the
    new one still, with the old one under the name the error gives, and every other binary is
    the old one. *)
Theorem swap_is_all_or_nothing (staged : list (text * text)) (f0 : Fs) :
  apart staged -> (forall p, p ∈ staged -> present f0 p.2) ->
  let '(r, w) := swap_in staged (start f0) in
  Forall (fun f => forall p, p ∈ staged -> present f p.2 /\ (same_file f p.2 f0 p.2 \/ same_file f p.2 f0 p.1)) (fs w :: past w) /\
  match r with
  | Ok (Ok replaced) => replaced = omap (fun p => file_name p.2) staged /\ forall p, p ∈ staged -> same_file (fs w) p.2 f0 p.1
  | Ok (Err (RolledBack detail)) =>
      exists cause unrestored, detail = report cause unrestored /\ (unrestored.*1) `sublist_of` rev staged /\
      forall p, p ∈ staged ->
        (p ∈ unrestored.*1 -> same_file (fs w) p.2 f0 p.1 /\ same_file (fs w) (backup_of p.2) f0 p.2) /\
        (p ∉ unrestored.*1 -> same_file (fs w) p.2 f0 p.2)
  | _ => False
  end.
Proof.
  intros Ha Hp. pose proof (run_triple _ _ _ _ _ f0 (swap_in_ok staged f0 Ha) eq_refl) as [Hs H].
  assert (Hsafe : forall f, never_gone staged f0 f -> forall p, p ∈ staged ->
    present f p.2 /\ (same_file f p.2 f0 p.2 \/ same_file f p.2 f0 p.1)).
  { intros f [Hi Hg] p Hin. destruct (Hg p Hin) as [E|[E Hn]].
    - split; [unfold present; rewrite E; by apply Hp|]. left. by apply same_dir.
    - split; [unfold present; by rewrite E|]. right. by apply same_dir. }
  destruct (swap_in staged (start f0)) as [[r|e] w]; [|done]. cbn [fst snd] in *.
  destruct r as [replaced|e].
  - destruct H as [-> H]. pose proof (all_swapped_safe _ _ _ H) as Hn. destruct H as [Hi H]. split_and!; [|done|].
    + constructor; [by apply Hsafe|]. eapply Forall_impl; [exact Hs|]. apply Hsafe.
    + intros p Hin. apply same_dir; [done|]. by apply H.
  - destruct e; try done. split.
    + constructor; [by eapply Hsafe, rolled_back_safe|]. eapply Forall_impl; [exact Hs|]. apply Hsafe.
    + destruct H as (cause & bad & -> & Hb & Hi & H). exists cause, bad. split_and!; [done|done|]. intros p Hin.
      destruct (H p Hin) as [H1 H2]. split; [intros (? & _ & ? & _)%H1; by split; apply same_dir|].
      intros Ho. by apply same_dir; [|apply H2].
Qed.
End Swap.

(** ** The names of the program *)
Definition staging_of (dir name pid : text) : text := path_join dir (46 :: name ++ txt ".new-" ++ pid).
Definition staged_pairs (dir pid : text) (names : list text) : list (text * text) :=
  (fun n => (staging_of dir n pid, path_join dir n)) <$> names.

Lemma binary_names pid n : is_pid pid -> n ∈ BINARIES ->
  bare n /\ bare (46 :: n ++ txt ".new-" ++ pid) /\ bare (46 :: n ++ txt ".old-" ++ pid).
Proof.
  intros [_ Hd] Hn. assert (Hp : Forall (fun c => (47 =? c) = false) pid).
  { eapply Forall_impl; [exact Hd|]. unfold is_ascii_digit, between. intros c Hc. apply Z.eqb_neq. lia. }
  assert (Hb : forall x, forallb (fun c => negb (47 =? c)) x = true -> bare (46 :: 116 :: x ++ pid)).
  { intros x Hx. split_and!; [done..|]. do 2 (constructor; [done|]). apply Forall_app. split; [|done].
    apply List.Forall_forall. intros c Hc. rewrite forallb_forall in Hx. by apply negb_true_iff, Hx. }
  repeat (apply elem_of_cons in Hn as [->|Hn]; [|]); [..|by apply elem_of_nil in Hn].
  - split_and!; [by apply bare_dec|apply (Hb (txt "obii.new-")); done|apply (Hb (txt "obii.old-")); done].
  - split_and!; [by apply bare_dec|apply (Hb (txt "obii-gtk.new-")); done|apply (Hb (txt "obii-gtk.old-")); done].
Qed.

Lemma scratch_apart pid m n : m ∈ BINARIES -> n ∈ BINARIES ->
  46 :: m ++ txt ".new-" ++ pid <> n /\ 46 :: m ++ txt ".new-" ++ pid <> 46 :: n ++ txt ".old-" ++ pid /\
  m <> 46 :: n ++ txt ".old-" ++ pid /\
  (46 :: m ++ txt ".new-" ++ pid = 46 :: n ++ txt ".new-" ++ pid -> m = n) /\
  (46 :: m ++ txt ".old-" ++ pid = 46 :: n ++ txt ".old-" ++ pid -> m = n).
Proof.
  intros Hm Hn.
  repeat (apply elem_of_cons in Hm as [->|Hm]; [|]); [..|by apply elem_of_nil in Hm];
    (repeat (apply elem_of_cons in Hn as [->|Hn]; [|]); [..|by apply elem_of_nil in Hn]);
    split_and!; try (intros H; vm_compute in H; discriminate H); done.
Qed.
(** The names the updater uses in a directory never meet. *)
Lemma binaries_apart dir pid names : is_pid pid -> last dir <> Some 47 -> NoDup names ->
  (forall n, n ∈ names -> n ∈ BINARIES) -> apart pid (staged_pairs dir pid names).
Proof.
  intros Hpid Hl Hnd Hb.
  assert (Hj : forall a b, bare a -> bare b -> path_join dir a = path_join dir b -> a = b).
  { intros a b Ha Hb'. apply join_inj; by apply bare_relative. }
  assert (Hback : forall n, n ∈ names -> backup_of pid (path_join dir n) = path_join dir (46 :: n ++ txt ".old-" ++ pid)).
  { intros n Hn. destruct (binary_names pid n Hpid (Hb n Hn)) as (? & _ & ?). unfold backup_of.
    rewrite file_name_join by done. cbn [default]. by apply beside_join. }
  constructor.
  - unfold staged_pairs. rewrite <- list_fmap_compose. apply NoDup_fmap_2_strong; [|done].
    intros m n Hm Hn. unfold compose, staging_of. cbn [fst snd]. destruct (binary_names pid m Hpid (Hb m Hm)) as (? & _). destruct (binary_names pid n Hpid (Hb n Hn)) as (? & _).
    by apply Hj.
  - intros p q (m & -> & Hm)%list_elem_of_fmap (n & -> & Hn)%list_elem_of_fmap. cbn [fst snd]. rewrite Hback by done.
    destruct (binary_names pid m Hpid (Hb m Hm)) as (? & ? & ?). destruct (binary_names pid n Hpid (Hb n Hn)) as (? & ? & ?).
    destruct (scratch_apart pid m n (Hb m Hm) (Hb n Hn)) as (? & ? & ? & _). unfold staging_of.
    split_and!; intros E; apply Hj in E; done.
  - unfold staged_pairs. rewrite <- list_fmap_compose. apply NoDup_fmap_2_strong; [|done].
    intros m n Hm Hn. unfold compose, staging_of. cbn [fst snd]. destruct (binary_names pid m Hpid (Hb m Hm)) as (? & ? & _). destruct (binary_names pid n Hpid (Hb n Hn)) as (? & ? & _).
    intros E. apply Hj in E; [|done..]. destruct (scratch_apart pid m n (Hb m Hm) (Hb n Hn)) as (_ & _ & _ & Hx & _). by apply Hx.
  - intros p q (m & -> & Hm)%list_elem_of_fmap (n & -> & Hn)%list_elem_of_fmap. cbn [fst snd]. rewrite !Hback by done.
    destruct (binary_names pid m Hpid (Hb m Hm)) as (? & _ & ?). destruct (binary_names pid n Hpid (Hb n Hn)) as (? & _ & ?).
    intros E. apply Hj in E; [|done..]. f_equal. destruct (scratch_apart pid m n (Hb m Hm) (Hb n Hn)) as (_ & _ & _ & _ & Hx). by apply Hx.
Qed.

Definition bin_dir : text := txt "/home/u/.local/bin".
Definition both_staged : list (text * text) := staged_pairs bin_dir (txt "7") BINARIES.
(** Both binaries installed, both new ones staged; an old backup is in the way. *)
Definition bin_fs : Fs :=
  {| dir := {[path_join bin_dir (txt "tobii") := 0%nat; path_join bin_dir (txt "tobii-gtk") := 1%nat;
              staging_of bin_dir (txt "tobii") (txt "7") := 2%nat; staging_of bin_dir (txt "tobii-gtk") (txt "7") := 3%nat;
              path_join bin_dir (txt ".tobii.old-7") := 4%nat]};
     older := [];
     inodes := {[0%nat := {| content := [x01]; synced := true |}; 1%nat := {| content := [x02]; synced := true |};
                 2%nat := {| content := [x03]; synced := true |}; 3%nat := {| content := [x04]; synced := true |};
                 4%nat := {| content := [x05]; synced := true |}]};
     next_ino := 5 |}.
(** The sixth call, the rename of the second binary, fails. *)
Definition second_rename_fails (n : nat) : outcome :=
  if (n =? 5)%nat then Breaks (OtherIo (txt "denied")) 0 else Completes.
Definition say (e : io_error) : text := match e with OtherIo m => m | _ => txt "error" end.
Definition seen (w : World) : list (option bytes) :=
  visible (fs w) <$> ((path_join bin_dir) <$> [txt "tobii"; txt "tobii-gtk"; txt ".tobii.old-7"; txt ".tobii-gtk.old-7"; txt ".tobii.new-7"]).

Example an_update : let '(r, w) := swap_in (fun _ => Completes) (txt "7") say both_staged (start bin_fs) in
  (r, seen w) = (Ok (Ok BINARIES), [Some [x03]; Some [x04]; None; None; None]).
Proof. vm_compute. reflexivity. Qed.
Example a_rollback : let '(r, w) := swap_in second_rename_fails (txt "7") say both_staged (start bin_fs) in
  (r, seen w) = (Ok (Err (RolledBack (txt "denied"))), [Some [x01]; Some [x02]; None; None; None]).
Proof. vm_compute. reflexivity. Qed.

Lemma both_apart : apart (txt "7") both_staged.
Proof.
  apply binaries_apart.
  - split; [discriminate|]. repeat constructor.
  - vm_compute. discriminate.
  - unfold BINARIES. repeat constructor; set_unfold; intuition discriminate.
  - done.
Qed.
(** As before, and then the first binary cannot be put back. *)
Definition first_is_stuck (n : nat) : outcome :=
  if (n =? 5)%nat || (n =? 7)%nat then Breaks (OtherIo (txt "denied")) 0 else Completes.
Example a_stuck_rollback : let '(r, w) := swap_in first_is_stuck (txt "7") say both_staged (start bin_fs) in
  (r, seen w) = (Ok (Err (RolledBack (txt "denied; and /home/u/.local/bin/tobii could not be restored from /home/u/.local/bin/.tobii.old-7: denied"))),
                 [Some [x03]; Some [x02]; Some [x01]; None; None]).
Proof. vm_compute. reflexivity. Qed.

Lemma swap_is_all_or_nothing_witness :
  let '(r, w) := swap_in first_is_stuck (txt "7") say both_staged (start bin_fs) in
  match r with
  | Ok (Err (RolledBack detail)) =>
      exists cause unrestored, detail = report (txt "7") say cause unrestored /\
      forall p, p ∈ both_staged -> p ∉ unrestored.*1 -> same_file (fs w) p.2 bin_fs p.2
  | _ => False
  end.
Proof.
  assert (Hp : forall p, p ∈ both_staged -> present bin_fs p.2).
  { intros p Hp. unfold both_staged, staged_pairs in Hp. apply list_elem_of_fmap in Hp as (n & -> & Hn).
    repeat (apply elem_of_cons in Hn as [->|Hn]; [vm_compute; by eexists|]). by apply elem_of_nil in Hn. }
  pose proof (swap_is_all_or_nothing first_is_stuck (txt "7") say both_staged bin_fs both_apart Hp) as H.
  assert (Hr : match (swap_in first_is_stuck (txt "7") say both_staged (start bin_fs)).1 with
               | Ok (Err (RolledBack _)) => true | _ => false end = true) by (vm_compute; reflexivity).
  destruct (swap_in first_is_stuck (txt "7") say both_staged (start bin_fs)) as [r w]. cbn [fst] in Hr.
  destruct r as [[r|[]]|e]; try discriminate Hr.
  destruct H as (_ & cause & bad & Hd & _ & Hb). exists cause, bad. split; [exact Hd|].
  intros p Hin Hn. exact (proj2 (Hb p Hin) Hn).
Defined.
