(* ===== verification/Xml.v ===== *)
(** * Xml: the scanner of games' configuration files (crates/tobii-gameconf/src/xml.rs)

    The text as a list of characters; a position of the code is the text from there on.
    [xml_accepts_exactly]: the documents read are exactly those of a grammar that does not
    speak of the scan, and what is returned is the root and its direct children.
    [decode_denotes]: a value is exactly what its references denote. *)
From S2P Require Import Prelude Utf8 Text.

(** What one setting in one file turned out to hold. *)
Inductive Lookup := Absent | Text (s : text) | Rejected (why : text).
#[export] Instance lookup_eq_dec : EqDecision Lookup. Proof. solve_decision. Defined.
Record Element := { name : text; attrs : list (text * text) }.
Record Document := { root : Element; children : list Element }.
Abbreviation or_text := (result text).

Definition ok_or {A} (o : option A) (why : text) : or_text A := match o with Some a => Ok a | None => Err why end.
(** [find(p)]: the text before the first such character, and the text from it on. *)
Fixpoint break_at (p : char -> bool) (s : text) : option (text * text) :=
  match s with
  | [] => None
  | c :: r => if p c then Some ([], s) else '(a, b) ← break_at p r; Some (c :: a, b)
  end.

(** ** References *)
Definition numeric (n : text) : option char :=
  digits ← strip_prefix [35] n;
  value ← match strip_prefix (txt "x") digits with
          | Some hex => if forallb is_ascii_hexdigit hex then parse_uint 32 16 hex else None
          | None => if forallb is_ascii_digit digits then parse_uint 32 10 digits else None
          end;
  char_from_u32 value.
Definition named (n : text) : option char :=
  if text_eqb n (txt "amp") then Some 38
  else if text_eqb n (txt "lt") then Some 60
  else if text_eqb n (txt "gt") then Some 62
  else if text_eqb n (txt "quot") then Some 34
  else if text_eqb n (txt "apos") then Some 39
  else numeric n.
(** The loop, over what is left; [fuel] is at least its length. *)
Fixpoint decode_loop (fuel : nat) (rest out : text) : or_text text :=
  match fuel, split_once (Z.eqb 38) rest with
  | S fuel, Some (before, after) =>
      '(n, rest) ← ok_or (split_once (Z.eqb 59) after) (txt "a value holding a `&` that starts nothing this reader knows");
      ch ← ok_or (named n) (txt "a value holding an entity `&" ++ n ++ txt ";` this reader cannot resolve");
      decode_loop fuel rest (out ++ before ++ [ch])
  | _, _ => Ok (out ++ rest)
  end.
Definition decode (raw : text) : or_text text :=
  out ← decode_loop (length raw) raw [];
  if existsb is_control out then Err (txt "a value with a control character in it, which this reader cannot show whole")
  else Ok out.

Definition attribute (e : Element) (n : text) : Lookup :=
  match find (fun a => text_eqb a.1 n) (attrs e) with
  | None => Absent
  | Some (_, raw) => match decode raw with Ok s => Text s | Err why => Rejected why end
  end.

(** ** Tags *)
Definition first_of_name (c : char) : bool := is_ascii_alphabetic c || (c =? 95) || (c =? 58) || negb (is_ascii c).
Definition later_of_name (c : char) : bool := first_of_name c || is_ascii_digit c || (c =? 45) || (c =? 46).
Definition is_name (n : text) : bool :=
  match n with c :: n => first_of_name c && forallb later_of_name n | [] => false end.

(** One turn of the loop of [attributes]. *)
Definition one_attribute (raw : text) (out : list (text * text)) : or_text (text * text * text) :=
  '(n, after) ← ok_or (break_at (fun c => is_ascii_whitespace c || (61 =? c)) raw) (txt "an attribute with no value");
  if bool_decide (n = []) then Err (txt "an attribute with no name")
  else if negb (is_name n) then Err (txt "an attribute whose name this reader cannot read: `" ++ n ++ txt "`")
  else
    after ← ok_or (strip_prefix [61] (trim_start_by is_ascii_whitespace after)) (txt "an attribute `" ++ n ++ txt "` with no value");
    let after := trim_start_by is_ascii_whitespace after in
    '(q, after) ← match after with
                  | c :: after => if (34 =? c) || (39 =? c) then Ok (c, after)
                                  else Err (txt "an attribute `" ++ n ++ txt "` whose value is not quoted")
                  | [] => Err (txt "an attribute `" ++ n ++ txt "` whose value is not quoted")
                  end;
    '(value, rest) ← ok_or (split_once (Z.eqb q) after) (txt "an attribute `" ++ n ++ txt "` whose value never ends");
    if existsb (Z.eqb 60) value then Err (txt "an attribute `" ++ n ++ txt "` holding a `<`")
    else if existsb (fun a => text_eqb a.1 n) out then Err (txt "the attribute `" ++ n ++ txt "` twice")
    else Ok (n, value, rest).
Fixpoint attributes_loop (fuel : nat) (raw : text) (out : list (text * text)) : or_text (list (text * text)) :=
  let raw := trim_start_by is_ascii_whitespace raw in
  match fuel, raw with
  | S fuel, _ :: _ =>
      '(n, value, rest) ← one_attribute raw out;
      attributes_loop fuel rest (out ++ [(n, value)])
  | _, _ => Ok out
  end.
Definition attributes (raw : text) : or_text (list (text * text)) := attributes_loop (length raw) raw [].

(** The end of a tag, found with quoting in mind. *)
Fixpoint tag_end (quote : option char) (body : text) : option (text * text) :=
  match body with
  | [] => None
  | c :: body =>
      match quote with
      | Some q => '(a, b) ← tag_end (if c =? q then None else quote) body; Some (c :: a, b)
      | None =>
          if (34 =? c) || (39 =? c) then '(a, b) ← tag_end (Some c) body; Some (c :: a, b)
          else if 62 =? c then Some ([], body)
          else '(a, b) ← tag_end None body; Some (c :: a, b)
      end
  end.
(** The element, whether it closes itself, and what follows; [after] comes after the [<]. *)
Definition start_tag (after : text) : or_text (Element * bool * text) :=
  '(n, body) ← ok_or (break_at (fun c => is_ascii_whitespace c || (47 =? c) || (62 =? c)) after) (txt "a tag that never ends");
  if negb (is_name n) then Err (txt "a tag whose name this reader cannot read: `" ++ n ++ txt "`")
  else
    '(inside, rest) ← ok_or (tag_end None body) (txt "a <" ++ n ++ txt "> tag that never ends");
    let '(raw, self_closing) := match strip_suffix [47] inside with Some a => (a, true) | None => (inside, false) end in
    match attributes raw with
    | Ok attrs => Ok ({| name := n; attrs := attrs |}, self_closing, rest)
    | Err why => Err (txt "<" ++ n ++ txt "> has " ++ why)
    end.

(** ** What is not an element *)
Definition delimited : list (text * text * text) :=
  [(txt "<?", txt "?>", txt "a processing instruction"); (txt "<!--", txt "-->", txt "a comment");
   (txt "<![CDATA[", txt "]]>", txt "a CDATA section")].
Fixpoint skip_delimited (l : list (text * text * text)) (rest : text) : or_text (option (text * text)) :=
  match l with
  | [] => Ok None
  | (op, close, what) :: l =>
      match strip_prefix op rest with
      | Some after =>
          '(body, rest) ← ok_or (split_once_str close after) (what ++ txt " that never ends");
          Ok (Some (op ++ body ++ close, rest))
      | None => skip_delimited l rest
      end
  end.
(** The construct at the start of [rest], if it is one, and what follows it. *)
Definition skipped (rest : text) : or_text (option (text * text)) :=
  d ← skip_delimited delimited rest;
  match d, strip_prefix (txt "<!") rest with
  | Some d, _ => Ok (Some d)
  | None, None => Ok None
  | None, Some after =>
      let doctype := match strip_prefix (txt "DOCTYPE") after with
                     | Some (c :: _) => is_ascii_whitespace c || (62 =? c)
                     | _ => false
                     end in
      if negb doctype then Err (txt "a <!…> construct this reader does not know")
      else
        '(inside, rest) ← ok_or (split_once (Z.eqb 62) after) (txt "a document type declaration that never ends");
        if existsb (Z.eqb 91) inside then Err (txt "a document type declaration holding an internal subset")
        else Ok (Some (txt "<!" ++ inside ++ [62], rest))
  end.

Definition is_quote (c : char) : bool := (c =? 34) || (c =? 39).
Definition check_encoding (declaration : text) : or_text unit :=
  match strip_prefix (txt "<?xml") declaration with
  | Some (c :: body) =>
      if negb (is_ascii_whitespace c) then Ok tt
      else match split_once_str (txt "encoding") (c :: body) with
           | None => Ok tt
           | Some (_, quoted) =>
               match split_once is_quote quoted with
               | None => Ok tt
               | Some (_, rest) =>
                   let n := first_piece (split is_quote rest) in
                   if existsb (eq_ignore_ascii_case n) [txt "utf-8"; txt "utf8"; txt "us-ascii"; txt "ascii"] then Ok tt
                   else Err (txt "a file that says it is " ++ n ++ txt ", which this reader cannot decode")
               end
           end
  | _ => Ok tt
  end.

(** ** The scan *)
(** The names of the open elements, innermost first; the code has them innermost last. *)
Record Scan := { open : list text; top : option Element; below : list Element; closed_root : bool }.
Definition fresh : Scan := {| open := []; top := None; below := []; closed_root := false |}.

Definition close_tag (n : text) (st : Scan) : or_text Scan :=
  match open st with
  | [] => Err (txt "a </" ++ n ++ txt "> that closes nothing")
  | o :: os =>
      if negb (text_eqb o n) then Err (txt "a </" ++ n ++ txt "> where <" ++ o ++ txt "> was open")
      else Ok {| open := os; top := top st; below := below st;
                 closed_root := closed_root st || bool_decide (os = []) |}
  end.
Definition open_tag (e : Element) (self_closing : bool) (st : Scan) : or_text Scan :=
  st' ← match open st with
        | [] => if bool_decide (is_Some (top st)) || closed_root st then Err (txt "a file holding more than one outermost element")
                else Ok {| open := open st; top := Some e; below := below st; closed_root := closed_root st |}
        | [_] => Ok {| open := open st; top := top st; below := below st ++ [e]; closed_root := closed_root st |}
        | _ => Ok st
        end;
  Ok (if negb self_closing then {| open := name e :: open st'; top := top st'; below := below st'; closed_root := closed_root st' |}
      else {| open := open st'; top := top st'; below := below st';
              closed_root := closed_root st' || bool_decide (open st' = []) |}).
(** One turn of the loop, at a text that is not empty: what is left and the state. *)
Definition turn (c : char) (tail : text) (st : Scan) : or_text (text * Scan) :=
  let rest := c :: tail in
  if negb (c =? 60) then
    if bool_decide (open st = []) && negb (is_ascii_whitespace c) then Err (txt "a file with text outside its outermost element")
    else Ok (tail, st)
  else
    skip ← skipped rest;
    match skip with
    | Some (construct, rest) => _ ← check_encoding construct; Ok (rest, st)
    | None =>
        match strip_prefix (txt "</") rest with
        | Some after =>
            '(n, rest) ← ok_or (split_once (Z.eqb 62) after) (txt "a closing tag that never ends");
            st ← close_tag (trim_end_by is_ascii_whitespace n) st;
            Ok (rest, st)
        | None =>
            '(e, self_closing, rest) ← start_tag tail;
            st ← open_tag e self_closing st;
            Ok (rest, st)
        end
    end.
(** The loop; [fuel] is at least the length of the text. *)
Fixpoint scan (fuel : nat) (rest : text) (st : Scan) : or_text Scan :=
  match fuel, rest with
  | S fuel, c :: tail => '(rest, st) ← turn c tail st; scan fuel rest st
  | _, _ => Ok st
  end.
Definition parse_text (s : text) : or_text Document :=
  st ← scan (length s) s fresh;
  match open st with
  | n :: _ => Err (txt "an element <" ++ n ++ txt "> that is never closed")
  | [] => root ← ok_or (top st) (txt "a file holding no XML element at all");
          Ok {| root := root; children := below st |}
  end.
Definition BOM : bytes := [xef; xbb; xbf].
Definition strip_bom (b : bytes) : bytes := if bool_decide (take 3 b = BOM) then drop 3 b else b.
Definition parse (b : bytes) : or_text Document :=
  s ← ok_or (utf8_decode (strip_bom b)) (txt "a file that is not UTF-8 text, which this reader cannot decode");
  parse_text s.

(** ** The grammar: tags *)
Abbreviation all p := (Forall (fun c => p c = true)) (only parsing).
Abbreviation none p := (Forall (fun c => p c = false)) (only parsing).
Definition blank (w : text) : Prop := all is_ascii_whitespace w.

(** An attribute as it is written. *)
Record Attr := { lead : text; aname : text; eq_l : text; eq_r : text; quote : char; value : text }.
Definition attr_text (a : Attr) : text :=
  lead a ++ aname a ++ eq_l a ++ 61 :: eq_r a ++ quote a :: value a ++ [quote a].
Definition attr_pair (a : Attr) : text * text := (aname a, value a).
Record attr_ok (a : Attr) : Prop := {
  ok_lead : blank (lead a); ok_name : is_name (aname a) = true; ok_l : blank (eq_l a); ok_r : blank (eq_r a);
  ok_quote : quote a = 34 \/ quote a = 39;
  ok_value : none (fun c => Z.eqb (quote a) c || Z.eqb 60 c) (value a);
}.
(** A start tag, after its [<]. *)
Record Tag := { tname : text; tattrs : list Attr; trail : text; empty : bool }.
Definition slash (t : Tag) : text := if empty t then [47] else [].
Definition tag_text (t : Tag) : text := tname t ++ (tattrs t ≫= attr_text) ++ trail t ++ slash t ++ [62].
Definition element (t : Tag) : Element := {| name := tname t; attrs := attr_pair <$> tattrs t |}.
Record tag_ok (t : Tag) : Prop := {
  ok_tname : is_name (tname t) = true; ok_attrs : Forall attr_ok (tattrs t);
  ok_trail : blank (trail t); ok_distinct : NoDup (aname <$> tattrs t);
  ok_apart : match tattrs t with a :: _ => lead a <> [] | [] => True end;
}.

(** ** Pieces *)
Lemma ok_or_ok {A} (o : option A) why a : ok_or o why = Ok a <-> o = Some a.
Proof. destruct o; cbn; split; congruence. Qed.
Lemma existsb_none p (s : text) : existsb p s = false <-> none p s.
Proof.
  induction s as [|c s IH]; cbn; [by split|]. rewrite Forall_cons, <- IH, orb_false_iff. tauto.
Qed.
Lemma break_at_app p l c s : none p l -> p c = true -> break_at p (l ++ c :: s) = Some (l, c :: s).
Proof.
  intros Hl Hc. induction Hl as [|x l Hx _ IH]; cbn; [by rewrite Hc|]. by rewrite Hx, IH.
Qed.
Lemma break_at_some p s a b : break_at p s = Some (a, b) ->
  none p a /\ s = a ++ b /\ exists c r, b = c :: r /\ p c = true.
Proof.
  revert a b. induction s as [|x s IH]; intros a b; cbn; [done|].
  destruct (p x) eqn:E; [intros; simplify_eq; split_and!; eauto|].
  destruct (break_at p s) as [[a' b']|]; cbn; [|done]. intros. simplify_eq.
  destruct (IH _ _ eq_refl) as (? & -> & ?). split_and!; [by constructor|done..].
Qed.
Lemma blank_trim w s : blank w -> trim_start_by is_ascii_whitespace (w ++ s) = trim_start_by is_ascii_whitespace s.
Proof. apply trim_start_all. Qed.
Lemma trim_split s : exists w, s = w ++ trim_start_by is_ascii_whitespace s /\ blank w.
Proof. apply trim_start_suffix. Qed.
Lemma trim_nonblank s c : is_ascii_whitespace c = false -> trim_start_by is_ascii_whitespace (c :: s) = c :: s.
Proof. intros H. cbn. by rewrite H. Qed.

(** A character of a name is none of those with a meaning. *)
Lemma name_char_plain c : later_of_name c = true ->
  is_ascii_whitespace c = false /\ c <> 61 /\ c <> 47 /\ c <> 62 /\ c <> 34 /\ c <> 39 /\ c <> 60.
Proof.
  unfold later_of_name, first_of_name, is_ascii_alphabetic, is_ascii_uppercase, is_ascii_lowercase, is_ascii_digit,
    is_ascii, is_ascii_whitespace, between. lia.
Qed.
Lemma is_name_chars n : is_name n = true -> all later_of_name n /\ exists c r, n = c :: r /\ first_of_name c = true.
Proof.
  destruct n as [|c n]; [done|]. cbn. intros [H1 H2]%andb_true_iff. split; [|by exists c, n].
  constructor; [by unfold later_of_name; rewrite H1|]. apply List.Forall_forall. by apply forallb_forall.
Qed.
Lemma is_name_none (p : char -> bool) n : is_name n = true ->
  (forall c, later_of_name c = true -> p c = false) -> none p n.
Proof. intros [H _]%is_name_chars Hp. by eapply Forall_impl. Qed.
Lemma quote_nonblank q : q = 34 \/ q = 39 -> is_ascii_whitespace q = false.
Proof. by intros [-> | ->]. Qed.

(** [p] looks for nothing a name holds. *)
Ltac plain_char_of_name :=
  let x := fresh "x" in let W := fresh "W" in
  intros x (W & ? & ? & ? & ? & ? & ?)%name_char_plain; cbn beta; rewrite ?W; cbn [orb]; lia.

Lemma strip_one c s : strip_prefix [c] (c :: s) = Some s.
Proof. exact (strip_prefix_app [c] s). Qed.

(** *** Attributes *)
Lemma one_attribute_reads a rest out : attr_ok a -> lead a = [] -> aname a ∉ out.*1 ->
  one_attribute (attr_text a ++ rest) out = Ok (aname a, value a, rest).
Proof.
  intros [_ Hn Hl Hr Hq Hv] E Hout. unfold one_attribute, attr_text. rewrite E. cbn [app]. rewrite <- !app_assoc.
  assert (B : exists c r, eq_l a ++ (61 :: eq_r a ++ quote a :: value a ++ [quote a]) ++ rest = c :: r /\
    is_ascii_whitespace c || (61 =? c) = true).
  { destruct Hl as [|c r Hc]; cbn; eexists _, _; (split; [done|]); [done|]. by rewrite Hc. }
  destruct B as (c & r & Ec & Hc). rewrite Ec, break_at_app; [|apply is_name_none; [done|plain_char_of_name]|done].
  cbn [ok_or mbind result_bind]. rewrite bool_decide_eq_false_2 by (by intros Hb; rewrite Hb in Hn). rewrite Hn. cbn [negb].
  rewrite <- Ec, blank_trim, <- app_comm_cons, trim_nonblank by done. rewrite strip_one. cbn [ok_or mbind result_bind].
  rewrite <- app_assoc, blank_trim by done. cbn [app]. rewrite trim_nonblank by by apply quote_nonblank.
  replace ((34 =? quote a) || (39 =? quote a)) with true by (destruct Hq as [-> | ->]; done).
  cbn [mbind result_bind]. rewrite <- app_assoc. cbn [app]. rewrite split_once_app; [|eapply Forall_impl; [exact Hv|]; intros x Hx; cbn beta in Hx; lia|lia].
  cbn [ok_or mbind result_bind]. replace (existsb (Z.eqb 60) (value a)) with false
    by (symmetry; apply existsb_none; eapply Forall_impl; [exact Hv|]; intros x Hx; cbn beta in Hx; lia).
  replace (existsb _ out) with false; [done|]. symmetry. apply not_true_is_false. intros (x & Hx & Ex)%existsb_exists.
  apply Hout. apply bool_decide_eq_true in Ex. rewrite <- Ex. apply list_elem_of_fmap_2. by apply list_elem_of_In.
Qed.
Lemma one_attribute_read raw out n v rest : one_attribute raw out = Ok (n, v, rest) ->
  exists a, attr_ok a /\ lead a = [] /\ raw = attr_text a ++ rest /\ n = aname a /\ v = value a /\ n ∉ out.*1.
Proof.
  unfold one_attribute. intros ([n' after] & E & H)%result_bind_inv. apply ok_or_ok, break_at_some in E as (_ & -> & _).
  case_bool_decide; [done|]. destruct (is_name n') eqn:Hn; [|done]. cbn [negb] in H.
  apply result_bind_inv in H as (after1 & E1 & H). apply ok_or_ok, strip_prefix_some in E1.
  destruct (trim_split after) as (w & Ew & Hw). rewrite E1 in Ew.
  destruct (trim_split after1) as (w1 & Ew1 & Hw1). destruct (trim_start_by is_ascii_whitespace after1) as [|q after2]; [done|].
  destruct ((34 =? q) || (39 =? q)) eqn:Hq; [|done]. cbn [mbind result_bind] in H.
  apply result_bind_inv in H as ([v' rest'] & E2 & H). apply ok_or_ok, split_once_some in E2 as (Hv & c & Hc & ->).
  apply Z.eqb_eq in Hc as <-. destruct (existsb (Z.eqb 60) v') eqn:H60; [done|]. destruct (existsb _ out) eqn:Ho; [done|].
  injection H as -> -> ->. exists {| lead := []; aname := n; eq_l := w; eq_r := w1; quote := q; value := v |}.
  split_and!; try done.
  - constructor; try done; [by constructor|cbn; lia|]. cbn [quote value]. apply existsb_none in H60. apply List.Forall_forall. intros x Hx.
    pose proof (proj1 (List.Forall_forall _ _) Hv x Hx) as H1. pose proof (proj1 (List.Forall_forall _ _) H60 x Hx) as H2.
    cbn beta in *. by rewrite H1, H2.
  - unfold attr_text. cbn. rewrite Ew, Ew1. repeat (rewrite <- app_assoc; cbn). done.
  - intros (p & -> & Hp)%list_elem_of_fmap. assert (T : existsb (fun a => text_eqb a.1 p.1) out = true).
    { apply existsb_exists. exists p. split; [by apply list_elem_of_In|apply text_eqb_refl]. }
    congruence.
Qed.
Definition unled (a : Attr) : Attr :=
  {| lead := []; aname := aname a; eq_l := eq_l a; eq_r := eq_r a; quote := quote a; value := value a |}.
Lemma attr_led a : attr_text a = lead a ++ attr_text (unled a). Proof. done. Qed.
Lemma unled_ok a : attr_ok a -> attr_ok (unled a). Proof. intros []. constructor; try done. by constructor. Qed.
Lemma attr_text_starts a s : attr_ok a -> lead a = [] -> exists c r, attr_text a ++ s = c :: r /\ is_ascii_whitespace c = false.
Proof.
  intros H E. unfold attr_text. rewrite E. destruct (is_name_chars _ (ok_name a H)) as (Hn & c & r & En & _).
  rewrite En in Hn |- *. apply Forall_cons in Hn as [(Hw & _)%name_char_plain _]. by eexists _, _.
Qed.
Lemma attr_text_long a : (0 < length (attr_text (unled a)))%nat.
Proof. unfold attr_text. rewrite !length_app. cbn. lia. Qed.

Lemma attributes_loop_reads l w out fuel : Forall attr_ok l -> blank w -> NoDup (out.*1 ++ (aname <$> l)) ->
  (length (l ≫= attr_text) <= fuel)%nat ->
  attributes_loop fuel ((l ≫= attr_text) ++ w) out = Ok (out ++ (attr_pair <$> l)).
Proof.
  revert out fuel. induction l as [|a l IH]; intros out fuel Hl Hw Hd Hf.
  - cbn [mbind list_bind app] in *. assert (E : trim_start_by is_ascii_whitespace w = []).
    { rewrite <- (app_nil_r w). by rewrite blank_trim. }
    rewrite app_nil_r. destruct fuel; cbn [attributes_loop]; by rewrite ?E.
  - apply Forall_cons in Hl as [Ha Hl]. cbn [mbind list_bind] in *. rewrite attr_led, <- !app_assoc, !length_app in *.
    pose proof (attr_text_long a). destruct fuel as [|fuel]; [lia|]. cbn [attributes_loop].
    rewrite blank_trim by by destruct Ha.
    destruct (attr_text_starts (unled a) ((l ≫= attr_text) ++ w) (unled_ok _ Ha) eq_refl) as (c & r & Ec & Hc).
    rewrite Ec, trim_nonblank by done. rewrite <- Ec. cbn [fmap list_fmap] in Hd.
    rewrite (one_attribute_reads (unled a)); [|by apply unled_ok|done|].
    + cbn [mbind result_bind]. rewrite IH; [by rewrite <- app_assoc|done|done| |unfold mbind in *; lia].
      rewrite fmap_app, <- app_assoc. exact Hd.
    + intros Hin. apply NoDup_app in Hd as (_ & Hd & _). apply (Hd _ Hin). apply list_elem_of_here.
Qed.
Lemma attributes_loop_read fuel raw out l : (length raw <= fuel)%nat -> NoDup out.*1 ->
  attributes_loop fuel raw out = Ok l ->
  exists k w, Forall attr_ok k /\ blank w /\ raw = (k ≫= attr_text) ++ w /\ l = out ++ (attr_pair <$> k) /\
    NoDup (out.*1 ++ (aname <$> k)).
Proof.
  revert raw out. induction fuel as [|fuel IH]; intros raw out Hf Hd.
  - destruct raw; [|cbn in Hf; lia]. intros [= <-]. exists [], []. cbn. rewrite !app_nil_r.
    split_and!; [by constructor|by constructor|done..].
  - cbn [attributes_loop]. destruct (trim_split raw) as (w & Ew & Hw).
    destruct (trim_start_by is_ascii_whitespace raw) as [|c r].
    { intros [= <-]. exists [], w. cbn. rewrite !app_nil_r in *. split_and!; [by constructor|done..]. }
    intros ([[n v] rest] & E & H)%result_bind_inv. apply one_attribute_read in E as (a & Ha & Hl & Er & -> & -> & Hn).
    rewrite Ew, Er, !length_app in Hf. pose proof (attr_text_long a) as Hlong.
    assert (Eu : unled a = a) by (destruct a; cbn in *; by subst). rewrite Eu in Hlong.
    apply IH in H as (k & t & Hk & Ht & -> & -> & Hd'); [|lia|].
    + exists ({| lead := w; aname := aname a; eq_l := eq_l a; eq_r := eq_r a; quote := quote a; value := value a |} :: k), t.
      rewrite fmap_app, <- app_assoc in Hd'. split_and!; try done.
      * constructor; [|done]. by destruct Ha.
      * cbn [mbind list_bind]. rewrite attr_led, Ew, Er, <- !app_assoc. unfold unled. cbn. do 2 f_equal. destruct a; cbn in *. by subst.
      * by rewrite <- app_assoc.
    + rewrite fmap_app. apply NoDup_app. split_and!; [done| |by apply NoDup_singleton].
      intros x Hx ->%list_elem_of_singleton. done.
Qed.

(** *** Start tags *)
Definition prepend (p : text) (o : option (text * text)) : option (text * text) := '(a, b) ← o; Some (p ++ a, b).
Lemma prepend_both p q o : prepend p (prepend q o) = prepend (p ++ q) o.
Proof. destruct o as [[a b]|]; cbn; [|done]. by rewrite app_assoc. Qed.
Definition marks (c : char) : bool := (34 =? c) || (39 =? c) || (62 =? c).
Lemma tag_end_plain w s : none marks w -> tag_end None (w ++ s) = prepend w (tag_end None s).
Proof.
  unfold marks. induction 1 as [|c w Hc _ IH]; cbn [app]; [by destruct (tag_end None s) as [[]|]|].
  apply orb_false_iff in Hc as [Hq H62]. cbn [app tag_end]. rewrite Hq, H62, IH. by destruct (tag_end None s) as [[]|].
Qed.
Lemma tag_end_quoted q v s : none (Z.eqb q) v -> tag_end (Some q) (v ++ q :: s) = prepend (v ++ [q]) (tag_end None s).
Proof.
  induction 1 as [|c v Hc _ IH]; cbn [app tag_end].
  - rewrite Z.eqb_refl. by destruct (tag_end None s) as [[]|].
  - rewrite Z.eqb_sym, Hc, IH. by destruct (tag_end None s) as [[]|].
Qed.
Lemma blank_marks w : blank w -> none marks w.
Proof. intros H. eapply Forall_impl; [exact H|]. intros c Hc. unfold marks. cbn beta in Hc. unfold is_ascii_whitespace, between in Hc. lia. Qed.
Lemma tag_end_attr a s : attr_ok a -> tag_end None (attr_text a ++ s) = prepend (attr_text a) (tag_end None s).
Proof.
  intros [Hw Hn Hl Hr Hq Hv]. unfold attr_text. rewrite <- !app_assoc. cbn [app].
  assert (Hn' : none marks (aname a)) by (apply is_name_none; [done|]; unfold marks; plain_char_of_name).
  rewrite (tag_end_plain (lead a)), (tag_end_plain (aname a)), (tag_end_plain (eq_l a)) by auto using blank_marks.
  rewrite <- app_assoc. change (61 :: eq_r a ++ ?x) with ((61 :: eq_r a) ++ x).
  rewrite (tag_end_plain (61 :: eq_r a)) by (constructor; [done|by apply blank_marks]).
  cbn [app tag_end]. replace ((34 =? quote a) || (39 =? quote a)) with true by (destruct Hq as [-> | ->]; done).
  rewrite <- app_assoc. cbn [app]. rewrite tag_end_quoted.
  - rewrite <- !prepend_both. do 3 f_equal. change (61 :: eq_r a ++ ?x) with ((61 :: eq_r a) ++ x).
    rewrite <- prepend_both. f_equal. change (quote a :: value a ++ ?x) with ([quote a] ++ (value a ++ x)).
    by rewrite <- !prepend_both.
  - eapply Forall_impl; [exact Hv|]. intros x Hx. cbn beta in Hx. lia.
Qed.
Lemma tag_end_attrs l s : Forall attr_ok l -> tag_end None ((l ≫= attr_text) ++ s) = prepend (l ≫= attr_text) (tag_end None s).
Proof.
  induction 1 as [|a l Ha _ IH]; cbn [mbind list_bind app]; [by destruct (tag_end None s) as [[]|]|].
  rewrite <- app_assoc, tag_end_attr, IH by done. apply prepend_both.
Qed.
Lemma tag_end_some q s a b : tag_end q s = Some (a, b) -> s = a ++ 62 :: b.
Proof.
  revert q a b. induction s as [|c s IH]; intros q a b; [done|]. cbn [tag_end].
  assert (K : forall q', prepend [c] (tag_end q' s) = Some (a, b) -> c :: s = a ++ 62 :: b).
  { intros q'. destruct (tag_end q' s) as [[a' b']|] eqn:E; [|done]. intros [= <- <-]. by rewrite (IH _ _ _ E). }
  destruct q as [q|]; [exact (K _)|]. destruct (_ || _); [exact (K _)|].
  destruct (Z.eqb_spec 62 c) as [<-|]; [by intros [= <- <-]|exact (K _)].
Qed.

Lemma attrs_last l w : Forall attr_ok l -> blank w -> last ((l ≫= attr_text) ++ w) <> Some 47.
Proof.
  intros Hl Hw. rewrite last_app. destruct (last w) as [c|] eqn:E.
  { intros [= ->]. apply last_Some_elem_of in E. apply (proj1 (Forall_forall _ _) Hw) in E. done. }
  destruct l as [|a l] using rev_ind; [done|]. rewrite bind_app. apply Forall_app in Hl as [_ [Ha _]%Forall_cons].
  cbn [mbind list_bind]. rewrite app_nil_r. unfold attr_text. rewrite !app_assoc, !app_comm_cons, !app_assoc, last_snoc.
  intros [= E']. destruct (ok_quote a Ha); congruence.
Qed.
Lemma strip_suffix_none c s : last s <> Some c -> strip_suffix [c] s = None.
Proof.
  intros H. destruct (strip_suffix [c] s) as [r|] eqn:E; [|done]. unfold strip_suffix in E.
  destruct (strip_prefix (rev [c]) (rev s)) as [r'|] eqn:E'; [|done]. apply strip_prefix_some in E'.
  destruct H. rewrite <- (rev_involutive s), E'. cbn. apply last_snoc.
Qed.
Lemma strip_suffix_some p s r : strip_suffix p s = Some r -> s = r ++ p.
Proof.
  unfold strip_suffix. destruct (strip_prefix (rev p) (rev s)) as [r'|] eqn:E; [|done]. intros [= <-].
  apply strip_prefix_some in E. by rewrite <- (rev_involutive s), E, rev_app_distr, rev_involutive.
Qed.

Lemma inside_text t : tag_text t = tname t ++ ((tattrs t ≫= attr_text) ++ trail t ++ slash t) ++ [62].
Proof. unfold tag_text. by rewrite <- !app_assoc. Qed.
Definition ends_name (c : char) : bool := is_ascii_whitespace c || (47 =? c) || (62 =? c).
(** What comes after the name of a tag ends it. *)
Lemma after_name t s : tag_ok t ->
  exists c r, ((tattrs t ≫= attr_text) ++ trail t ++ slash t) ++ 62 :: s = c :: r /\ ends_name c = true.
Proof.
  intros [_ Ha Ht _ Hl]. unfold ends_name, slash. destruct (tattrs t) as [|a l]; cbn [mbind list_bind app].
  - destruct (trail t) as [|c w]; [destruct (empty t); by eexists _, _|]. apply Forall_cons in Ht as [Hc _].
    eexists _, _. split; [done|]. by rewrite Hc.
  - apply Forall_cons in Ha as [Ha _]. rewrite attr_led. pose proof (ok_lead a Ha) as Hb.
    destruct (lead a) as [|c w]; [done|]. apply Forall_cons in Hb as [Hc _]. eexists _, _. split; [done|]. by rewrite Hc.
Qed.
Lemma start_tag_reads t rest : tag_ok t -> start_tag (tag_text t ++ rest) = Ok (element t, empty t, rest).
Proof.
  intros Ht. pose proof Ht as [Hn Ha Hw Hd _]. unfold start_tag. rewrite inside_text, <- !(app_assoc _ _ rest). cbn [app].
  destruct (after_name t rest Ht) as (c & r & E & Hc). rewrite E, break_at_app; [|apply is_name_none; [done|plain_char_of_name]|done].
  rewrite <- E. cbn [ok_or mbind result_bind]. rewrite Hn. cbn [negb]. rewrite <- app_assoc, tag_end_attrs by done.
  assert (Hs : tag_end None ((trail t ++ slash t) ++ 62 :: rest) = Some (trail t ++ slash t, rest)).
  { rewrite tag_end_plain; [by cbn; rewrite app_nil_r|]. apply Forall_app. split; [by apply blank_marks|].
    unfold slash. destruct (empty t); by repeat constructor. }
  rewrite Hs. cbn [prepend mbind option_bind ok_or result_bind]. unfold slash. destruct (empty t).
  - rewrite app_assoc, strip_suffix_app. unfold attributes.
    rewrite (attributes_loop_reads _ _ []); [done|done|done|done|]. rewrite length_app. lia.
  - rewrite app_nil_r, strip_suffix_none by by apply attrs_last. unfold attributes.
    rewrite (attributes_loop_reads _ _ []); [done|done|done|done|]. rewrite length_app. lia.
Qed.
Lemma start_tag_read after e b rest : start_tag after = Ok (e, b, rest) ->
  exists t, tag_ok t /\ after = tag_text t ++ rest /\ e = element t /\ b = empty t.
Proof.
  unfold start_tag. intros ([n body] & E & H)%result_bind_inv. apply ok_or_ok, break_at_some in E as (_ & -> & c & r & -> & Hc).
  destruct (is_name n) eqn:Hn; [|done]. cbn [negb] in H. apply result_bind_inv in H as ([inside rest'] & E & H).
  apply ok_or_ok, tag_end_some in E.
  assert (K : forall raw l, attributes raw = Ok l -> forall sl : bool, inside = raw ++ (if sl then [47] else []) ->
    rest' = rest -> exists t, tag_ok t /\ n ++ c :: r = tag_text t ++ rest /\ {| name := n; attrs := l |} = element t /\ sl = empty t).
  { intros raw l Hl sl Ei ->. apply attributes_loop_read in Hl as (k & w & Hk & Hw & -> & -> & Hd); [|done|by apply NoDup_nil].
    exists {| tname := n; tattrs := k; trail := w; empty := sl |}. split_and!; [|..|done|done].
    - constructor; cbn [tname tattrs trail]; try done. destruct k as [|a k]; [done|]. intros Ea.
      apply Forall_cons in Hk as [Ha _]. destruct (is_name_chars _ (ok_name a Ha)) as (Hx & x & y & En & _).
      rewrite En in Hx. apply Forall_cons in Hx as [Hx _]. apply name_char_plain in Hx as (Hx & ? & ? & ? & _).
      rewrite Ei in E. cbn [mbind list_bind] in E. unfold attr_text in E. rewrite Ea, En in E. cbn in E. injection E as -> _.
      rewrite Hx in Hc. cbn [orb] in Hc. lia.
    - rewrite E, Ei, inside_text. unfold slash. cbn [tname tattrs trail empty]. by rewrite <- !app_assoc. }
  destruct (strip_suffix [47] inside) as [raw|] eqn:Es.
  - apply strip_suffix_some in Es. destruct (attributes raw) as [l|] eqn:Hl; [|done]. injection H as <- <- <-.
    by apply (K raw l Hl true).
  - destruct (attributes inside) as [l|] eqn:Hl; [|done]. injection H as <- <- <-. apply (K inside l Hl false); [|done].
    by rewrite app_nil_r.
Qed.

(** ** The grammar: what is skipped *)
(** [pat] occurs in [body ++ pat] at the end only. *)
Definition ends_at (pat body : text) : Prop := forall a b, body ++ pat = a ++ pat ++ b -> b = [].
Inductive Skip : text -> Prop :=
| Instruction body : ends_at (txt "?>") body -> Skip (txt "<?" ++ body ++ txt "?>")
| Comment body : ends_at (txt "-->") body -> Skip (txt "<!--" ++ body ++ txt "-->")
| Cdata body : ends_at (txt "]]>") body -> Skip (txt "<![CDATA[" ++ body ++ txt "]]>")
| Doctype body : match body with c :: _ => is_ascii_whitespace c = true | [] => True end ->
    none (fun c => (62 =? c) || (91 =? c)) body -> Skip (txt "<!" ++ (txt "DOCTYPE" ++ body) ++ [62]).

Lemma split_once_str_first pat body rest : ends_at pat body -> split_once_str pat (body ++ pat ++ rest) = Some (body, rest).
Proof.
  induction body as [|x body IH]; intros H.
  - cbn [app]. pose proof (strip_prefix_app pat rest) as E. destruct (pat ++ rest); cbn [split_once_str]; by rewrite E.
  - cbn [app split_once_str]. destruct (strip_prefix pat (x :: body ++ pat ++ rest)) as [r|] eqn:E.
    + apply strip_prefix_some in E. exfalso. rewrite app_comm_cons, app_assoc in E.
      destruct (List.app_eq_app _ _ _ _ E) as (l & [[El _]|[El _]]).
      * pose proof (H [] l El) as ->. apply (f_equal length) in El. rewrite !length_app in El. cbn in El. lia.
      * apply (f_equal length) in El. rewrite !length_app in El. cbn in El. lia.
    + rewrite IH; [done|]. intros a b Eb. apply (H (x :: a) b). cbn. by rewrite Eb.
Qed.
Lemma split_once_str_ends pat s a b : split_once_str pat s = Some (a, b) -> ends_at pat a.
Proof.
  revert a b. induction s as [|x s IH]; intros a b; cbn [split_once_str].
  - destruct (strip_prefix pat []); [|done]. intros [= <- <-] a' b' E. apply (f_equal length) in E.
    rewrite !length_app in E. cbn in E. destruct b'; [done|cbn in E; lia].
  - destruct (strip_prefix pat (x :: s)) as [r|] eqn:Er.
    { intros [= <- <-] a' b' E. apply (f_equal length) in E. rewrite !length_app in E. cbn in E. destruct b'; [done|cbn in E; lia]. }
    destruct (split_once_str pat s) as [[a1 b1]|] eqn:E; [|done]. intros [= <- <-] a' b' E'.
    destruct a' as [|y a']; [|injection E' as _ E'; by apply (IH _ _ eq_refl a')].
    apply split_once_str_some in E. cbn in E'. rewrite E in Er.
    assert (E2 : x :: a1 ++ pat ++ b1 = pat ++ (b' ++ b1)) by (rewrite (app_assoc pat), <- E'; cbn; by rewrite <- app_assoc).
    rewrite E2, strip_prefix_app in Er. done.
Qed.

Ltac no_prefix p :=
  match goal with |- context [strip_prefix p ?s] => change (strip_prefix p s) with (@None text); cbv beta iota end.
Lemma skip_reads s rest : Skip s -> skipped (s ++ rest) = Ok (Some (s, rest)).
Proof.
  intros [body H|body H|body H|body Hw Hn]; unfold skipped, delimited; rewrite <- !app_assoc; cbn [skip_delimited].
  - by rewrite strip_prefix_app, split_once_str_first.
  - no_prefix (txt "<?"). by rewrite strip_prefix_app, split_once_str_first.
  - no_prefix (txt "<?"). no_prefix (txt "<!--"). by rewrite strip_prefix_app, split_once_str_first.
  - no_prefix (txt "<?"). no_prefix (txt "<!--"). no_prefix (txt "<![CDATA["). cbn [mbind result_bind].
    rewrite !strip_prefix_app.
    assert (Hd : match body ++ [62] ++ rest with c :: _ => is_ascii_whitespace c || (62 =? c) | [] => false end = true).
    { destruct body as [|c body]; cbn [app]; [done|]. by rewrite Hw. }
    rewrite Hd. cbn [negb]. rewrite app_assoc. cbn [app].
    assert (Hx : none (fun c => (62 =? c) || (91 =? c)) (txt "DOCTYPE" ++ body)).
    { apply Forall_app. split; [by repeat constructor|done]. }
    rewrite split_once_app; [|eapply Forall_impl; [exact Hx|]; intros x Hb; cbn beta in Hb; lia|done].
    cbn [ok_or mbind result_bind]. replace (existsb (Z.eqb 91) _) with false; [done|].
    symmetry. apply existsb_none. eapply Forall_impl; [exact Hx|]. intros x Hb. cbn beta in Hb. lia.
Qed.
Lemma skip_read rest s r : skipped rest = Ok (Some (s, r)) -> Skip s /\ rest = s ++ r.
Proof.
  unfold skipped. intros (d & E & H)%result_bind_inv. unfold delimited in E. cbn [skip_delimited] in E.
  assert (K : forall op close what after, strip_prefix op rest = Some after ->
    ('(body, rest) ← ok_or (split_once_str close after) what; Ok (Some (op ++ body ++ close, rest))) = Ok d ->
    exists body, ends_at close body /\ s = op ++ body ++ close /\ rest = s ++ r).
  { intros op close what after E1 ([body r'] & E2 & [= <-])%result_bind_inv. apply ok_or_ok in E2. injection H as <- <-.
    exists body. split_and!; [by eapply split_once_str_ends|done|]. apply split_once_str_some in E2. apply strip_prefix_some in E1.
    by rewrite E1, E2, <- !app_assoc. }
  destruct (strip_prefix (txt "<?") rest) eqn:E1; [destruct (K _ _ _ _ E1 E) as (? & ? & -> & ->); split; [by constructor|done]|].
  destruct (strip_prefix (txt "<!--") rest) eqn:E2; [destruct (K _ _ _ _ E2 E) as (? & ? & -> & ->); split; [by constructor|done]|].
  destruct (strip_prefix (txt "<![CDATA[") rest) eqn:E3; [destruct (K _ _ _ _ E3 E) as (? & ? & -> & ->); split; [by constructor|done]|].
  injection E as <-. clear K. destruct (strip_prefix (txt "<!") rest) as [after|] eqn:E4; [|done].
  apply strip_prefix_some in E4. destruct (strip_prefix (txt "DOCTYPE") after) as [[|c body]|] eqn:E5; [done| |done].
  apply strip_prefix_some in E5. destruct (is_ascii_whitespace c || (62 =? c)) eqn:Hc; [|done]. cbn [negb] in H.
  apply result_bind_inv in H as ([inside r'] & E6 & H). apply ok_or_ok, split_once_some in E6 as (Hi & x & Hx & E6).
  apply Z.eqb_eq in Hx as <-. destruct (existsb (Z.eqb 91) inside) eqn:Hb; [done|].
  assert (Es : s = txt "<!" ++ inside ++ [62] /\ r' = r) by by injection H as <- <-.
  destruct Es as [-> ->]. rewrite existsb_none in Hb. rewrite E4, E6, <- !app_assoc. split; [|done].
  assert (Hd : exists b, inside = txt "DOCTYPE" ++ b /\ b ++ 62 :: r = c :: body).
  { rewrite E5 in E6. clear -E6 Hi. do 7 (destruct inside as [|? inside]; [done|]; injection E6 as <- E6;
      apply Forall_cons in Hi as [_ Hi]). by exists inside. }
  destruct Hd as (b & -> & Eb). apply Doctype.
  - destruct b as [|c' b]; [done|]. injection Eb as -> _. apply Forall_app in Hi as [_ [Hi _]%Forall_cons].
    cbn beta in Hi. by rewrite Hi, orb_false_r in Hc.
  - apply Forall_app in Hi as [_ Hi], Hb as [_ Hb]. apply List.Forall_forall. intros x Hx.
    pose proof (proj1 (List.Forall_forall _ _) Hi x Hx). pose proof (proj1 (List.Forall_forall _ _) Hb x Hx). cbn beta in *. lia.
Qed.

(** ** The grammar: documents *)
Inductive Token := TChar (c : char) | TSkip (s : text) | TTag (t : Tag) | TClose (n w : text).
Definition token_text (t : Token) : text :=
  match t with
  | TChar c => [c]
  | TSkip s => s
  | TTag t => 60 :: tag_text t
  | TClose n w => txt "</" ++ (n ++ w) ++ [62]
  end.
Definition token_ok (t : Token) : Prop :=
  match t with
  | TChar c => c <> 60
  | TSkip s => Skip s /\ check_encoding s = Ok tt
  | TTag t => tag_ok t
  | TClose n w => is_name n = true /\ blank w
  end.
(** Balanced content, with the elements directly in it. *)
Inductive Content : list Token -> list Element -> Prop :=
| Nothing : Content [] []
| Chars c l es : Content l es -> Content (TChar c :: l) es
| Skipping s l es : Content l es -> Content (TSkip s :: l) es
| Empty t l es : empty t = true -> Content l es -> Content (TTag t :: l) (element t :: es)
| Nested t inner kids w l es : empty t = false -> Content inner kids -> Content l es ->
    Content (TTag t :: inner ++ TClose (tname t) w :: l) (element t :: es).
(** What may stand before and after the outermost element. *)
Definition outside (t : Token) : Prop :=
  match t with TChar c => is_ascii_whitespace c = true | TSkip _ => True | _ => False end.
Inductive Whole : list Token -> Document -> Prop :=
| OnlyRoot before t after : Forall outside before -> Forall outside after -> empty t = true ->
    Whole (before ++ TTag t :: after) {| root := element t; children := [] |}
| WithChildren before t inner kids w after : Forall outside before -> Forall outside after -> empty t = false ->
    Content inner kids ->
    Whole (before ++ TTag t :: inner ++ TClose (tname t) w :: after) {| root := element t; children := kids |}.

(** ** The scan, token by token *)
Definition apply_token (t : Token) (st : Scan) : option Scan :=
  match t with
  | TChar c => if bool_decide (open st = []) && negb (is_ascii_whitespace c) then None else Some st
  | TSkip _ => Some st
  | TTag t => ok (open_tag (element t) (empty t) st)
  | TClose n _ => ok (close_tag n st)
  end.
Fixpoint apply_tokens (l : list Token) (st : Scan) : option Scan :=
  match l with [] => Some st | t :: l => st ← apply_token t st; apply_tokens l st end.
Lemma apply_tokens_app l k st : apply_tokens (l ++ k) st = st ← apply_tokens l st; apply_tokens k st.
Proof. revert st. induction l as [|t l IH]; intros st; cbn; [done|]. destruct (apply_token t st); cbn; [apply IH|done]. Qed.

Definition names_open (st : Scan) : Prop := all is_name (open st).
Lemma ok_some {A} (r : or_text A) a : ok r = Some a <-> r = Ok a.
Proof. destruct r; cbn; split; congruence. Qed.
Lemma close_tag_inv n st st' : close_tag n st = Ok st' ->
  exists os, open st = n :: os /\
    st' = {| open := os; top := top st; below := below st; closed_root := closed_root st || bool_decide (os = []) |}.
Proof.
  unfold close_tag. destruct (open st) as [|o os]; [done|]. unfold text_eqb. case_bool_decide; [|done]. intros [= <-]. subst. eauto.
Qed.
Lemma apply_token_names t st st' : token_ok t -> names_open st -> apply_token t st = Some st' -> names_open st'.
Proof.
  intros Ht Hs. destruct t as [c|s|t|n w]; cbn [apply_token].
  - destruct (_ && _); [done|]. by intros [= <-].
  - by intros [= <-].
  - rewrite ok_some. intros (st1 & E & [= <-])%result_bind_inv.
    assert (E1 : open st1 = open st).
    { destruct (open st) as [|? [|? ?]] eqn:Eo; [destruct (_ || _); [done|]|..]; by injection E as <-. }
    unfold names_open. destruct (empty t); cbn; rewrite E1; [done|]. constructor; [apply (ok_tname t Ht)|done].
  - rewrite ok_some. intros (os & Eo & ->)%close_tag_inv. unfold names_open in *. rewrite Eo in Hs. by apply Forall_cons in Hs as [_ ?].
Qed.

(** A name begins neither a construct nor a closing tag. *)
Lemma tag_is_tag t rest : tag_ok t -> skipped (60 :: tag_text t ++ rest) = Ok None /\
  strip_prefix (txt "</") (60 :: tag_text t ++ rest) = None.
Proof.
  intros [Hn _ _ _ _]. destruct (is_name_chars _ Hn) as (_ & c & r & E & Hc). unfold tag_text. rewrite E.
  assert (H : c <> 63 /\ c <> 33 /\ c <> 47).
  { unfold first_of_name, is_ascii_alphabetic, is_ascii_uppercase, is_ascii_lowercase, is_ascii, between in Hc. lia. }
  destruct H as (H1 & H2 & H3). unfold skipped. cbn -[Z.eqb].
  rewrite (proj2 (Z.eqb_neq 63 c)), (proj2 (Z.eqb_neq 33 c)), (proj2 (Z.eqb_neq 47 c)) by done. by cbn.
Qed.
Lemma close_is_close s : skipped (txt "</" ++ s) = Ok None.
Proof. done. Qed.
Lemma name_trim n w : is_name n = true -> blank w -> trim_end_by is_ascii_whitespace (n ++ w) = n.
Proof.
  intros [Hn _]%is_name_chars Hw. rewrite trim_end_all by done. apply trim_end_id. unfold back_ok, front_ok.
  apply List.Forall_rev in Hn. destruct (rev n) as [|c r]; [done|].
  by apply Forall_cons in Hn as [[? _]%name_char_plain _].
Qed.

Lemma turn_reads t rest st st' : token_ok t -> apply_token t st = Some st' ->
  exists c tail, token_text t ++ rest = c :: tail /\ turn c tail st = Ok (rest, st').
Proof.
  intros Ht H. destruct t as [c|s|t|n w]; cbn [token_ok apply_token token_text] in *.
  - exists c, rest. split; [done|]. unfold turn. apply Z.eqb_neq in Ht. rewrite Ht. cbn [negb].
    destruct (_ && _); [done|]. by injection H as ->.
  - destruct Ht as [Hs He]. injection H as ->. pose proof (skip_reads s rest Hs) as Hr.
    destruct (s ++ rest) as [|c tail] eqn:E; [by destruct Hs|]. exists c, tail. split; [done|].
    assert (Hc : c = 60) by (destruct Hs; by injection E). subst c. unfold turn. rewrite Hr. cbn. by rewrite He.
  - apply ok_some in H. exists 60, (tag_text t ++ rest). split; [done|]. unfold turn.
    destruct (tag_is_tag t rest Ht) as [-> ->]. cbn [Z.eqb Pos.eqb negb mbind result_bind].
    rewrite start_tag_reads by done. cbn [mbind result_bind]. by rewrite H.
  - apply ok_some in H. destruct Ht as [Hn Hw]. exists 60, (47 :: ((n ++ w) ++ [62]) ++ rest). split; [done|]. unfold turn.
    change (60 :: 47 :: ((n ++ w) ++ [62]) ++ rest) with (txt "</" ++ ((n ++ w) ++ [62]) ++ rest).
    rewrite close_is_close, strip_prefix_app, <- app_assoc. cbn [app Z.eqb Pos.eqb negb mbind result_bind].
    rewrite (split_once_app _ (n ++ w)); [| |done].
    + cbn [app ok_or mbind result_bind]. by rewrite name_trim, H.
    + apply Forall_app. split; [apply is_name_none; [done|plain_char_of_name]|].
      eapply Forall_impl; [apply blank_marks, Hw|]. unfold marks. intros x Hx. cbn beta in Hx. lia.
Qed.
Lemma turn_read c tail st rest st' : names_open st -> turn c tail st = Ok (rest, st') ->
  exists t, token_ok t /\ c :: tail = token_text t ++ rest /\ apply_token t st = Some st'.
Proof.
  intros Hn. unfold turn. destruct (Z.eqb_spec c 60) as [->|Hc]; cbn [negb].
  2: { destruct (_ && _) eqn:E; [done|]. intros [= <- <-]. exists (TChar c). cbn [apply_token]. rewrite E. by split_and!. }
  intros (skip & E & H)%result_bind_inv. destruct skip as [[s r]|].
  { apply result_bind_inv in H as ([] & He & [= <- <-]). apply skip_read in E as [Hs E]. by exists (TSkip s). }
  destruct (strip_prefix (txt "</") (60 :: tail)) as [after|] eqn:Ea.
  - apply strip_prefix_some in Ea. apply result_bind_inv in H as ([m r] & E2 & H). apply result_bind_inv in H as (st1 & H & [= <- <-]).
    apply ok_or_ok, split_once_some in E2 as (_ & x & Hx & E2). apply Z.eqb_eq in Hx as <-.
    destruct (trim_end_prefix is_ascii_whitespace m) as (w & Ew & Hw). exists (TClose (trim_end_by is_ascii_whitespace m) w).
    pose proof H as (os & Eo & _)%close_tag_inv. unfold names_open in Hn. rewrite Eo in Hn. apply Forall_cons in Hn as [Hn _].
    cbn [token_ok token_text apply_token]. rewrite <- Ew. split_and!; [done..| |by apply ok_some].
    rewrite Ea, E2, <- !app_assoc. done.
  - apply result_bind_inv in H as ([[e b] r] & E2 & H). apply result_bind_inv in H as (st1 & H & [= <- <-]).
    apply start_tag_read in E2 as (t & Ht & -> & -> & ->). exists (TTag t). split_and!; [done..|]. by apply ok_some.
Qed.

Lemma token_nonempty t : token_ok t -> (0 < length (token_text t))%nat.
Proof. intros H. destruct t as [c|s|t|n w]; cbn; try lia. by destruct H as [[] _]; rewrite length_app; cbn; lia. Qed.
Lemma scan_reads l fuel st st' : Forall token_ok l -> (length (l ≫= token_text) <= fuel)%nat ->
  apply_tokens l st = Some st' -> scan fuel (l ≫= token_text) st = Ok st'.
Proof.
  revert fuel st. induction l as [|t l IH]; intros fuel st Hl Hf H; [by injection H as ->; destruct fuel|].
  apply Forall_cons in Hl as [Ht Hl]. cbn [mbind list_bind apply_tokens] in *. rewrite length_app in Hf.
  pose proof (token_nonempty t Ht). destruct (apply_token t st) as [st1|] eqn:E; [|done].
  destruct (turn_reads t (l ≫= token_text) st st1 Ht E) as (c & tail & Ec & Et). rewrite Ec.
  destruct fuel as [|fuel]; [lia|]. cbn [scan]. rewrite Et. apply IH; [done| |done]. unfold mbind in *. lia.
Qed.
Lemma scan_read fuel s st st' : (length s <= fuel)%nat -> names_open st -> scan fuel s st = Ok st' ->
  exists l, Forall token_ok l /\ s = l ≫= token_text /\ apply_tokens l st = Some st'.
Proof.
  revert s st. induction fuel as [|fuel IH]; intros s st Hf Hn.
  - destruct s; [|cbn in Hf; lia]. intros [= <-]. exists []. by repeat constructor.
  - destruct s as [|c tail]; [intros [= <-]; exists []; by repeat constructor|]. cbn [scan].
    intros ([rest st1] & E & H)%result_bind_inv. apply turn_read in E as (t & Ht & E & Ha); [|done].
    apply IH in H as (l & Hl & -> & Hr).
    + exists (t :: l). cbn [mbind list_bind apply_tokens]. rewrite Ha. split_and!; [by constructor|done|done].
    + pose proof (token_nonempty t Ht). apply (f_equal length) in E. rewrite length_app in E. cbn in Hf, E. lia.
    + by eapply apply_token_names.
Qed.

(** ** Balance *)
(** Elements put directly into what is open, if it is the outermost element. *)
Definition add (es : list Element) (st : Scan) : Scan :=
  match open st with
  | [_] => {| open := open st; top := top st; below := below st ++ es; closed_root := closed_root st |}
  | _ => st
  end.
Definition push (n : text) (st : Scan) : Scan :=
  {| open := n :: open st; top := top st; below := below st; closed_root := closed_root st |}.
Lemma open_add es st : open (add es st) = open st.
Proof. unfold add. by destruct (open st) as [|? [|]] eqn:E. Qed.
Lemma add_nil st : add [] st = st.
Proof. unfold add. destruct st as [[|? [|]] t b c]; cbn; [done| |done]. by rewrite app_nil_r. Qed.
Lemma add_add es es' st : add es' (add es st) = add (es ++ es') st.
Proof. destruct st as [[|? [|]] t b c]; cbn; [done| |done]. unfold add. cbn. by rewrite app_assoc. Qed.
Lemma add_push es n st : open st <> [] -> add es (push n st) = push n st.
Proof. intros H. unfold add, push. cbn. by destruct (open st). Qed.
Lemma close_push n st : open st <> [] -> close_tag n (push n st) = Ok st.
Proof.
  intros H. unfold close_tag, push. cbn. rewrite text_eqb_refl. cbn. rewrite bool_decide_eq_false_2 by done.
  rewrite orb_false_r. by destruct st.
Qed.
Lemma open_tag_inside e b st : open st <> [] ->
  open_tag e b st = Ok (if b then add [e] st else push (name e) (add [e] st)).
Proof.
  intros H. destruct st as [[|o os] t r c]; [done|]. unfold open_tag, add, push. cbn.
  destruct os, b; cbn; by rewrite ?orb_false_r.
Qed.
Lemma content_runs l es st : Content l es -> open st <> [] -> apply_tokens l st = Some (add es st).
Proof.
  intros H. revert st. induction H as [|c l es _ IH|s l es _ IH|t l es He _ IH|t inner kids w l es He _ IH1 _ IH2]; intros st Ho;
    cbn [apply_tokens apply_token].
  - by rewrite add_nil.
  - rewrite bool_decide_eq_false_2 by done. by apply IH.
  - by apply IH.
  - rewrite open_tag_inside, He by done. cbn [ok mbind option_bind]. by rewrite IH, add_add by by rewrite open_add.
  - rewrite open_tag_inside, He by done. cbn [ok mbind option_bind].
    assert (Ha : open (add [element t] st) <> []) by by rewrite open_add.
    rewrite apply_tokens_app, IH1, add_push by done. cbn [mbind option_bind apply_tokens apply_token element name].
    rewrite close_push by done. cbn [ok mbind option_bind]. by rewrite IH2, add_add.
Qed.
(** What was open is closed in the end: its content is balanced, and the rest runs after it. *)
Lemma run_content n l st st' o : (length l <= n)%nat -> head (open st) = Some o ->
  apply_tokens l st = Some st' -> open st' = [] ->
  exists inner es w rest st1, l = inner ++ TClose o w :: rest /\ Content inner es /\
    close_tag o (add es st) = Ok st1 /\ apply_tokens rest st1 = Some st'.
Proof.
  revert l st o. induction n as [|n IH]; intros l st o Hn Ho H Hc.
  { destruct l; [|cbn in Hn; lia]. injection H as ->. by rewrite Hc in Ho. }
  assert (Hne : open st <> []) by by intros E; rewrite E in Ho.
  destruct l as [|t l]; [injection H as ->; by rewrite Hc in Ho|]. cbn in Hn. apply le_S_n in Hn.
  cbn [apply_tokens] in H. destruct (apply_token t st) as [st2|] eqn:E; [|done]. cbn [mbind option_bind] in H.
  destruct t as [c|s|t|m w]; cbn [apply_token] in E.
  - destruct (_ && _); [done|]. injection E as <-. destruct (IH _ _ _ Hn Ho H Hc) as (inner & es & w & rest & st1 & -> & ? & ? & ?).
    exists (TChar c :: inner), es, w, rest, st1. split_and!; [done|by constructor|done..].
  - injection E as <-. destruct (IH _ _ _ Hn Ho H Hc) as (inner & es & w & rest & st1 & -> & ? & ? & ?).
    exists (TSkip s :: inner), es, w, rest, st1. split_and!; [done|by constructor|done..].
  - rewrite open_tag_inside in E by done. destruct (empty t) eqn:He; injection E as <-.
    + destruct (IH l (add [element t] st) o Hn) as (inner & es & w & rest & st1 & -> & ? & Hcl & ?); [by rewrite open_add|done..|].
      rewrite add_add in Hcl. exists (TTag t :: inner), (element t :: es), w, rest, st1. split_and!; [done|by constructor|done..].
    + assert (Ha : open (add [element t] st) <> []) by by rewrite open_add.
      destruct (IH _ (push (tname t) (add [element t] st)) (tname t) Hn eq_refl H Hc)
        as (inner & kids & w & rest & st1 & -> & Hi & Hcl & Hr).
      rewrite add_push, close_push in Hcl by done. injection Hcl as <-. rewrite length_app in Hn. cbn in Hn.
      destruct (IH rest (add [element t] st) o) as (inner' & es & w' & rest' & st1 & -> & ? & Hcl & ?); [lia|by rewrite open_add|done..|].
      rewrite add_add in Hcl. exists (TTag t :: inner ++ TClose (tname t) w :: inner'), (element t :: es), w', rest', st1.
      split_and!; [cbn; by rewrite <- app_assoc|by econstructor|done..].
  - apply ok_some in E. pose proof E as (os & Eo & _)%close_tag_inv. rewrite Eo in Ho. injection Ho as <-.
    exists [], [], w, l, st2. rewrite add_nil. split_and!; [done|by constructor|done..].
Qed.

Lemma outside_runs l st : Forall outside l -> apply_tokens l st = Some st.
Proof.
  induction 1 as [|t l Ht _ IH]; [done|]. cbn [apply_tokens]. destruct t; cbn in *; try done.
  by rewrite Ht, andb_false_r.
Qed.
(** After the outermost element, only what may stand outside it. *)
Lemma run_after l st st' : open st = [] -> is_Some (top st) -> apply_tokens l st = Some st' -> Forall outside l /\ st' = st.
Proof.
  intros Ho Ht. induction l as [|t l IH]; [by intros [= ->]|]. cbn [apply_tokens].
  destruct t as [c|s|t|n w]; cbn [apply_token].
  - rewrite Ho. rewrite bool_decide_eq_true_2 by done. destruct (is_ascii_whitespace c) eqn:E; [|done]. cbn.
    intros H. destruct (IH H). split; [by constructor|done].
  - intros H. destruct (IH H). split; [by constructor|done].
  - unfold open_tag. rewrite Ho. by rewrite bool_decide_eq_true_2.
  - unfold close_tag. by rewrite Ho.
Qed.
Lemma whole_runs l d : Whole l d -> exists st, apply_tokens l fresh = Some st /\ open st = [] /\ top st = Some (root d) /\ below st = children d.
Proof.
  intros [before t after Hb Ha He|before t inner kids w after Hb Ha He Hi];
    rewrite apply_tokens_app, outside_runs by done; cbn [mbind option_bind apply_tokens apply_token].
  - unfold open_tag. cbn. rewrite He. cbn. rewrite outside_runs by done. eexists. by split_and!.
  - unfold open_tag. cbn -[apply_tokens]. rewrite He. cbn -[apply_tokens].
    rewrite apply_tokens_app, (content_runs _ _ _ Hi) by done. cbn -[close_tag].
    unfold close_tag, add. cbn. rewrite text_eqb_refl. cbn. rewrite outside_runs by done. eexists. by split_and!.
Qed.
Lemma run_whole l st r : apply_tokens l fresh = Some st -> open st = [] -> top st = Some r ->
  Whole l {| root := r; children := below st |}.
Proof.
  assert (H : forall before k, Forall outside before -> apply_tokens k fresh = Some st -> open st = [] -> top st = Some r ->
    Whole (before ++ k) {| root := r; children := below st |}); [|by apply (H [])].
  intros before k. revert before. induction k as [|t k IH]; intros before Hb H Ho Ht; [by injection H as <-|].
  cbn [apply_tokens] in H. destruct t as [c|s|t|n w]; cbn [apply_token] in H.
  - cbn in H. destruct (is_ascii_whitespace c) eqn:E; [|done]. cbn in H.
    replace (before ++ TChar c :: k) with ((before ++ [TChar c]) ++ k) by by rewrite <- app_assoc.
    apply IH; [|done..]. apply Forall_app. split; [done|by constructor].
  - cbn in H. replace (before ++ TSkip s :: k) with ((before ++ [TSkip s]) ++ k) by by rewrite <- app_assoc.
    apply IH; [|done..]. apply Forall_app. split; [done|by constructor].
  - unfold open_tag in H. cbn -[apply_tokens] in H. destruct (empty t) eqn:He; cbn -[apply_tokens] in H.
    + apply run_after in H as [Ha ->]; [|done|done]. injection Ht as <-. by constructor.
    + destruct (run_content (length k) k (push (tname t) {| open := []; top := Some (element t); below := []; closed_root := false |}) st (tname t) (le_n _) eq_refl H Ho) as (inner & es & w & rest & st1 & -> & Hi & Hc & Hr).
      unfold close_tag, add in Hc. cbn in Hc. rewrite text_eqb_refl in Hc. injection Hc as <-.
      apply run_after in Hr as [Ha ->]; [|done|done]. injection Ht as <-. by constructor.
  - done.
Qed.

(** C13: The documents that are read are exactly those of the grammar, and the result is their
    outermost element and the elements directly in it, in order: balanced tags whose names
    match, attributes quoted, named once and without a [<], nothing but white space and
    skipped constructs around one outermost element, every construct ended where it first
    can be, and no declaration of another encoding. *)
Theorem xml_accepts_exactly (s : text) (d : Document) :
  parse_text s = Ok d <->
  exists tokens, Forall token_ok tokens /\ s = tokens ≫= token_text /\ Whole tokens d.
Proof.
  unfold parse_text. split.
  - intros (st & H & E)%result_bind_inv. destruct (open st) eqn:Ho; [|done].
    apply result_bind_inv in E as (r & Hr & [= <-]). apply ok_or_ok in Hr.
    apply scan_read in H as (l & Hl & -> & H); [|done|by constructor]. exists l. split_and!; [done..|]. by apply run_whole.
  - intros (l & Hl & -> & (st & H & Ho & Ht & Hb)%whole_runs). rewrite (scan_reads l _ fresh st) by done.
    cbn [mbind result_bind]. rewrite Ho, Ht, Hb. by destruct d.
Qed.

(** ** What a value denotes *)
Inductive Refers : text -> char -> Prop :=
| Amp : Refers (txt "amp") 38
| Lt' : Refers (txt "lt") 60
| Gt' : Refers (txt "gt") 62
| Quot : Refers (txt "quot") 34
| Apos : Refers (txt "apos") 39
| Dec ds c : ds <> [] -> all is_ascii_digit ds -> digits_value 10 ds = Some c -> is_char c = true -> Refers (35 :: ds) c
| Hex ds c : ds <> [] -> all is_ascii_hexdigit ds -> digits_value 16 ds = Some c -> is_char c = true -> Refers (35 :: 120 :: ds) c.
(** A value is runs of other characters, and references. *)
Inductive Piece := Plain (s : text) | Ref (n : text) (c : char).
Definition piece_text (p : Piece) : text := match p with Plain s => s | Ref n _ => 38 :: n ++ [59] end.
Definition piece_value (p : Piece) : text := match p with Plain s => s | Ref _ c => [c] end.
Definition piece_ok (p : Piece) : Prop := match p with Plain s => none (Z.eqb 38) s | Ref n c => Refers n c end.

Lemma parse_digits (p : char -> bool) r ds : p 43 = false -> all p ds ->
  parse_uint 32 r ds = match ds with [] => None | _ => v ← digits_value r ds; if v <? 2 ^ 32 then Some v else None end.
Proof.
  intros Hp Hd. unfold parse_uint. destruct Hd as [|c ds Hc Hd]; [done|].
  assert (Hne : c <> 43) by congruence.
  assert (E : match c :: ds with 43 :: ((_ :: _) as r) => r | _ => c :: ds end = c :: ds).
  { destruct c as [|c|]; try done. do 6 (destruct c as [c|c|]; try done). }
  by rewrite E.
Qed.
Lemma char_small c : is_char c = true -> c < 2 ^ 32.
Proof. unfold is_char. lia. Qed.
Lemma forallb_all p (s : text) : forallb p s = true <-> all p s.
Proof. rewrite forallb_forall, List.Forall_forall. done. Qed.
Lemma numeric_number (p : char -> bool) r ds c : p 43 = false -> all p ds ->
  (parse_uint 32 r ds ≫= char_from_u32) = Some c <-> ds <> [] /\ digits_value r ds = Some c /\ is_char c = true.
Proof.
  intros Hp Hd. rewrite (parse_digits p) by done. destruct ds as [|x ds]; [split; [done|by intros [? _]]|].
  destruct (digits_value r (x :: ds)) as [v|]; cbn [mbind option_bind]; [|split; [done|intros (_ & ? & _); done]].
  unfold char_from_u32. split.
  - destruct (Z.ltb_spec v (2 ^ 32)); cbn [mbind option_bind]; [|done]. destruct (is_char v) eqn:E; [|done]. by intros [= <-].
  - intros (_ & [= ->] & Hc). pose proof (char_small c Hc). destruct (Z.ltb_spec c (2 ^ 32)); cbn [mbind option_bind]; [|lia]. by rewrite Hc.
Qed.
Lemma named_refers n c : named n = Some c <-> Refers n c.
Proof.
  unfold named. split.
  - unfold text_eqb. repeat (case_bool_decide; [intros [= <-]; subst; constructor|]). unfold numeric.
    destruct (strip_prefix [35] n) as [ds|] eqn:E; [|done]. apply strip_prefix_some in E as ->. cbn [mbind option_bind].
    destruct (strip_prefix (txt "x") ds) as [hex|] eqn:Ex.
    + apply strip_prefix_some in Ex as ->. destruct (forallb is_ascii_hexdigit hex) eqn:Hh; [|done]. apply forallb_all in Hh.
      intros Hc. apply (numeric_number is_ascii_hexdigit) in Hc as (? & ? & ?); [|done..]. by apply Hex.
    + destruct (forallb is_ascii_digit ds) eqn:Hh; [|done]. apply forallb_all in Hh.
      intros Hc. apply (numeric_number is_ascii_digit) in Hc as (? & ? & ?); [|done..]. by apply Dec.
  - intros [| | | | |ds c' Hn Hd Hv Hc|ds c' Hn Hd Hv Hc]; try done; unfold named, text_eqb;
      rewrite !bool_decide_eq_false_2 by (intros E; vm_compute in E; discriminate E); unfold numeric; rewrite strip_one; cbn [mbind option_bind].
    + assert (Ex : strip_prefix (txt "x") ds = None).
      { destruct (strip_prefix (txt "x") ds) as [r|] eqn:E; [|done]. apply strip_prefix_some in E as ->.
        by apply Forall_cons in Hd as [? _]. }
      rewrite Ex. apply forallb_all in Hd as Hf. rewrite Hf. by apply (numeric_number is_ascii_digit).
    + change (120 :: ds) with (txt "x" ++ ds). rewrite strip_prefix_app. apply forallb_all in Hd as Hf. rewrite Hf.
      by apply (numeric_number is_ascii_hexdigit).
Qed.
Lemma refers_no_semicolon n c : Refers n c -> none (Z.eqb 59) n.
Proof.
  intros [| | | | |ds c' _ Hd _ _|ds c' _ Hd _ _]; try (by repeat constructor); repeat (constructor; [done|]).
  - eapply Forall_impl; [exact Hd|]. unfold is_ascii_digit, between. intros x Hx. cbn beta in *. lia.
  - eapply Forall_impl; [exact Hd|]. unfold is_ascii_hexdigit, is_ascii_digit, between. intros x Hx. cbn beta in *. lia.
Qed.

(** Text and references in turn, as the loop reads them. *)
Lemma decode_loop_reads fuel ps out : Forall piece_ok ps -> (length (ps ≫= piece_text) <= fuel)%nat ->
  decode_loop fuel (ps ≫= piece_text) out = Ok (out ++ (ps ≫= piece_value)).
Proof.
  assert (G : forall fuel ps p out, none (Z.eqb 38) p -> Forall piece_ok ps -> (length (p ++ (ps ≫= piece_text)) <= fuel)%nat ->
    decode_loop fuel (p ++ (ps ≫= piece_text)) out = Ok (out ++ p ++ (ps ≫= piece_value))); [|intros; by apply (G fuel ps [])].
  clear. induction fuel as [|fuel IH]; intros ps p out Hp Hps Hf.
  { rewrite !length_app in Hf. destruct p; [|cbn in Hf; lia]. clear Hp. induction Hps as [|q ps Hq _ IHp]; [done|].
    cbn [mbind list_bind] in *. rewrite length_app in Hf. destruct q as [[|]|]; cbn in Hf; try lia. by apply IHp. }
  revert p Hp Hf. induction Hps as [|[s|n c] ps Hq Hps IHp]; intros p Hp Hf; cbn [mbind list_bind piece_text piece_value piece_ok] in *.
  - rewrite !app_nil_r. cbn [decode_loop]. by rewrite split_once_none.
  - rewrite !(app_assoc p s). apply IHp; [by apply Forall_app|by rewrite <- app_assoc].
  - cbn [app decode_loop]. rewrite split_once_app; [|done|done]. rewrite <- app_assoc.
    cbn [app]. rewrite split_once_app; [|by eapply refers_no_semicolon|done]. cbn [ok_or mbind result_bind].
    rewrite (proj2 (named_refers n c)) by done. cbn [ok_or mbind result_bind].
    pose proof (IH ps [] (out ++ p ++ [c])) as IH'. cbn [app] in IH'. unfold mbind in *. rewrite IH'; [|by constructor|done|].
    + f_equal. by rewrite <- !app_assoc.
    + rewrite !length_app in *. cbn in Hf. rewrite !length_app in Hf. lia.
Qed.
Lemma decode_loop_read fuel raw out s : (length raw <= fuel)%nat -> decode_loop fuel raw out = Ok s ->
  exists ps, Forall piece_ok ps /\ raw = ps ≫= piece_text /\ s = out ++ (ps ≫= piece_value).
Proof.
  revert raw out. induction fuel as [|fuel IH]; intros raw out Hf.
  { destruct raw; [|cbn in Hf; lia]. intros [= <-]. exists []. by repeat constructor. }
  cbn [decode_loop]. destruct (split_once (Z.eqb 38) raw) as [[before after]|] eqn:E.
  - apply split_once_some in E as (Hb & x & Hx & ->). apply Z.eqb_eq in Hx as <-.
    intros ([n rest] & E & H)%result_bind_inv. apply ok_or_ok, split_once_some in E as (Hn & x & Hx & ->). apply Z.eqb_eq in Hx as <-.
    apply result_bind_inv in H as (c & E & H). apply ok_or_ok, named_refers in E.
    apply IH in H as (ps & Hps & -> & ->).
    + exists (Plain before :: Ref n c :: ps). cbn. split_and!; [by repeat constructor| |by rewrite <- !app_assoc].
      by rewrite <- !app_assoc.
    + rewrite !length_app in Hf. cbn in Hf. rewrite length_app in Hf. cbn in Hf. lia.
  - intros [= <-]. exists [Plain raw]. cbn. rewrite app_nil_r. split_and!; [|done|done]. constructor; [|done]. cbn.
    clear -E. induction raw as [|c raw IH]; [by constructor|]. cbn [split_once] in E. destruct (38 =? c) eqn:Ec; [done|].
    constructor; [done|]. apply IH. by destruct (split_once (Z.eqb 38) raw) as [[]|].
Qed.
(** A value is decoded exactly when it is other characters and references that XML defines,
    into what they denote; and never if that holds a control character. *)
Theorem decode_denotes (raw s : text) :
  decode raw = Ok s <->
  (exists ps, Forall piece_ok ps /\ raw = ps ≫= piece_text /\ s = ps ≫= piece_value) /\ none is_control s.
Proof.
  unfold decode. split.
  - intros (out & (ps & Hps & -> & ->)%decode_loop_read & H)%result_bind_inv; [|done].
    destruct (existsb is_control _) eqn:Hc; [done|]. injection H as <-. apply existsb_none in Hc. eauto.
  - intros [(ps & Hps & -> & ->) Hc]. rewrite decode_loop_reads by done. cbn [mbind result_bind app].
    apply existsb_none in Hc. by rewrite Hc.
Qed.

(** The code asks no white space between attributes, which XML does. *)
Example attributes_run_together : parse_text (txt "<r a='1'b='2'/>") =
  Ok {| root := {| name := txt "r"; attrs := [(txt "a", txt "1"); (txt "b", txt "2")] |}; children := [] |}.
Proof. vm_compute. reflexivity. Qed.
Example nested_are_not_children : parse_text (txt "<r><a><d v='0'/></a> <d v='9'/></r>") =
  Ok {| root := {| name := txt "r"; attrs := [] |};
        children := [{| name := txt "a"; attrs := [] |}; {| name := txt "d"; attrs := [(txt "v", txt "9")] |}] |}.
Proof. vm_compute. reflexivity. Qed.
