(* ===== verification/Gameconf.v ===== *)
(** * Gameconf: reading games' own configuration files (crates/tobii-gameconf)

    [Attrs] is the flat list of name and value pairs, [Binds] the directory of presets, both
    over the scanner of [Xml]; files and the listing of the directory are arguments. What is
    shown is that an answer is never more than what the files say: a value is reported
    exactly when one place holds it, an absence exactly when nothing comes near it. *)
From S2P Require Import Prelude Utf8 Text Paths Order Disk Xml.

(** What a file, or a directory of them, turned out to be. *)
Inductive Source (A : Type) := Unwritten (why : text) | Refused (why : text) | Read (a : A).
Arguments Unwritten {A} why.
Arguments Refused {A} why.
Arguments Read {A} a.

Section Files.
Context (try_exists : text -> result io_error bool) (io_message : io_error -> text).

(** [path], and what [fs::read] of it gives. *)
Definition read (path : text) (contents : result io_error bytes) : Source bytes :=
  match contents with
  | Ok b => Read b
  | Err NotFound => Unwritten (txt "there is no file at " ++ path)
  | Err e => Refused (path ++ txt " could not be read: " ++ io_message e)
  end.

(** What to say of something that is not there: the first folder from the top that is not. *)
Definition nothing_at (missing path claim : text) : text :=
  let gone p := match try_exists p with Ok false => true | _ => false end in
  match find gone (rev (base.filter (fun p => p <> []) (ancestors path))) with
  | Some g =>
      if text_eqb g path then txt "there is no " ++ missing ++ txt " at " ++ path ++ txt ": " ++ claim
      else txt "there is no " ++ missing ++ txt " at " ++ path ++ txt ", and no " ++ g ++ txt " either: " ++ claim ++
           txt ", unless this path leads onto something this machine has not mounted"
  | None => txt "there is no " ++ missing ++ txt " at " ++ path ++
            txt ", and this reader could not see how much of the path above it exists: " ++ claim ++
            txt ", unless this path leads onto something this machine has not mounted"
  end.

(** ** attributes.xml *)
Definition ATTRS_ROOT : text := txt "Attributes".
Definition PAIR : text := txt "Attr".
Record Attributes := { version : Lookup; value : Lookup }.

(** The elements called exactly [n], and the names that differ in case; or why that cannot be
    said. *)
Fixpoint sort_pairs (pairs : list Element) (n : text) (exact : list Element) (other_case : list text)
    : or_text (list Element * list text) :=
  match pairs with
  | [] => Ok (exact, other_case)
  | e :: pairs =>
      match attribute e (txt "name") with
      | Text m =>
          if text_eqb m n then sort_pairs pairs n (exact ++ [e]) other_case
          else if eq_ignore_ascii_case m n then sort_pairs pairs n exact (other_case ++ [m])
          else sort_pairs pairs n exact other_case
      | Absent => Err (txt "an <" ++ PAIR ++ txt "> with no name attribute")
      | Rejected why => Err (txt "an <" ++ PAIR ++ txt "> whose name is " ++ why)
      end
  end.
Definition pairs_of (d : Document) : list Element := base.filter (fun e => name e = PAIR) (children d).
Definition attr_value (d : Document) (n : text) : Lookup :=
  match sort_pairs (pairs_of d) n [] [] with
  | Err why => Rejected why
  | Ok ([], []) => Absent
  | Ok ([], spellings) =>
      Rejected (txt "no attribute called " ++ n ++ txt ", only " ++ join (txt " and ") spellings ++
                txt ", and this reader cannot tell whether the game reads a name in another case as the same setting")
  | Ok ([one], _) =>
      match attribute one (txt "value") with
      | Absent => Rejected (txt "an <" ++ PAIR ++ txt "> " ++ n ++ txt " with no value")
      | other => other
      end
  | Ok (many, _) =>
      Rejected (n ++ txt " " ++ show_uint (zlen many) ++ txt " times in one file, and this reader cannot tell which of them the game uses")
  end.
Definition wrong_root (d : Document) (wanted : text) : Lookup :=
  Rejected (txt "a file whose outermost element is <" ++ name (root d) ++ txt "> and not <" ++ wanted ++ txt ">").
Definition parse_attrs (doc : bytes) (n : text) : Attributes :=
  match parse doc with
  | Err why => {| version := Rejected why; value := Rejected why |}
  | Ok d =>
      {| version := attribute (root d) (txt "Version");
         value := if text_eqb (name (root d)) ATTRS_ROOT then attr_value d n else wrong_root d ATTRS_ROOT |}
  end.
Definition read_attrs (contents : result io_error bytes) (path n : text) : Source Attributes :=
  match read path contents with
  | Read b => Read (parse_attrs b n)
  | Unwritten _ => Unwritten (nothing_at (txt "file") path (txt "nothing has saved these settings here"))
  | Refused why => Refused why
  end.
End Files.

(** ** A preset *)
Definition BINDS_ROOT : text := txt "Root".
Record Preset := { pname : Lookup; pversion : Lookup; setting : Lookup }.
Definition schema_version (e : Element) : Lookup :=
  match attribute e (txt "MajorVersion"), attribute e (txt "MinorVersion") with
  | Absent, Absent => Absent
  | Text major, Text minor => Text (major ++ txt "." ++ minor)
  | Rejected why, _ | _, Rejected why => Rejected why
  | _, _ => Rejected (txt "a preset naming one half of a schema version")
  end.
Definition setting_value (d : Document) (n : text) : Lookup :=
  match base.filter (fun e => name e = n) (children d) with
  | [] => Absent
  | [one] => match attribute one (txt "Value") with
             | Absent => Rejected (txt "a <" ++ n ++ txt "> with no Value attribute")
             | other => other
             end
  | many => Rejected (txt "<" ++ n ++ txt "> " ++ show_uint (zlen many) ++
                      txt " times in one preset, and this reader cannot tell which of them the game uses")
  end.
Definition parse_preset (doc : bytes) (n : text) : Preset :=
  match parse doc with
  | Err why => {| pname := Rejected why; pversion := Rejected why; setting := Rejected why |}
  | Ok d =>
      {| pname := attribute (root d) (txt "PresetName"); pversion := schema_version (root d);
         setting := if text_eqb (name (root d)) BINDS_ROOT then setting_value d n else wrong_root d BINDS_ROOT |}
  end.

(** ** The start file *)
Definition no_name_char (c : char) : bool := is_control c || (c =? 47) || (c =? 92).
(** [debug] is [{:?}] of a line that is refused: the escapes of the Standard Library. *)
Fixpoint preset_names (debug : text -> text) (ls out : list text) : or_text (list text) :=
  match ls with
  | [] => Ok out
  | line :: ls =>
      let n := trim_by is_ascii_whitespace line in
      if bool_decide (n = []) then preset_names debug ls out
      else if existsb no_name_char n then
        Err (txt "a StartPreset file holding a line this reader cannot read as a preset name: " ++ debug n)
      else preset_names debug ls (if existsb (text_eqb n) out then out else out ++ [n])
  end.
Definition start (debug : text -> text) (b : bytes) : or_text (list text) :=
  s ← ok_or (utf8_decode (strip_bom b)) (txt "a StartPreset file that is not UTF-8 text");
  out ← preset_names debug (lines s) [];
  if bool_decide (out = []) then Err (txt "a StartPreset file naming no preset at all") else Ok out.

(** A file name as the file system has it, its bytes as numbers. *)
Abbreviation fname := (list Z) (only parsing).
Definition strip_prefix_ignore_ascii_case (s p : fname) : option fname :=
  if (length s <? length p)%nat then None
  else if eq_ignore_ascii_case (take (length p) s) p then Some (drop (length p) s) else None.
Definition strip_suffix_ignore_ascii_case (s p : fname) : option fname :=
  if (length s <? length p)%nat then None
  else if eq_ignore_ascii_case (drop (length s - length p) s) p then Some (take (length s - length p) s) else None.
(** Whether it is a start file, and the schema in its name. *)
Definition start_schema (n : fname) : option (option Z) :=
  r ← strip_prefix_ignore_ascii_case n (txt "StartPreset");
  r ← strip_suffix_ignore_ascii_case r (txt ".start");
  match r with
  | [] => Some None
  | dot :: digits =>
      if negb (dot =? 46) || bool_decide (digits = []) || negb (forallb is_ascii_digit digits) then None
      else Some <$> parse_uint 32 10 digits
  end.
Definition is_binds (n : fname) : bool :=
  match strip_suffix_ignore_ascii_case n (txt ".binds") with Some _ => true | None => false end.

(** ** A directory of presets *)
Definition schema_cmp : option Z -> option Z -> comparison := cmp_option Z.compare.
Definition start_cmp : option Z * fname -> option Z * fname -> comparison :=
  cmp_both (cmp_by fst schema_cmp) (cmp_by snd text_cmp).

Inductive Found := FoundAbsent (why : text) | FoundRejected (why : text) | FoundRead (file : fname) (preset : Preset).
Record Active := { called : text; found : Found }.
Record Bindings := { start_file : option fname; schema : option Z; superseded : list fname; presets : list Active }.
Abbreviation placed := (fname * text * Preset)%type (only parsing).

Section Directory.
Context (try_exists : text -> result io_error bool) (io_message : io_error -> text) (debug : text -> text).
(** The directory: its listing, and its files. *)
Context (dir : text) (read_dir : result io_error (list (result io_error fname))) (contents : fname -> result io_error bytes).
Context (wanted : text).

(** A file's path as it is shown. *)
Definition shown (n : fname) : text :=
  path_join dir (default [] (utf8_decode (from_utf8_lossy (byte.of_Z <$> n)))).

Fixpoint read_documents (files : list fname) (unplaceable : text) : or_text (list placed) :=
  match files with
  | [] => Ok []
  | f :: files =>
      b ← match read io_message (shown f) (contents f) with
          | Read b => Ok b
          | Unwritten why | Refused why => Err why
          end;
      let p := parse_preset b wanted in
      match pname p with
      | Text n => rest ← read_documents files unplaceable; Ok ((f, n, p) :: rest)
      | Absent => Err (shown f ++ txt " is a preset with no PresetName, " ++ unplaceable)
      | Rejected why => Err (shown f ++ txt " is " ++ why)
      end
  end.

(** What became of one name of the start file. *)
Definition find_preset (docs : list placed) (n : text) : Found :=
  match base.filter (fun d => d.1.2 = n) docs,
        base.filter (fun d => d.1.2 <> n /\ eq_ignore_ascii_case d.1.2 n = true) docs with
  | [], [] => FoundAbsent (txt "no preset in " ++ dir ++ txt " calls itself " ++ n)
  | [], spellings =>
      FoundRejected (txt "no preset in " ++ dir ++ txt " calls itself " ++ n ++ txt ", only " ++
        join (txt " and ") ((fun d => d.1.2) <$> spellings) ++
        txt " — and whether the game reads a name in another case as the same preset is not something this project has measured")
  | [(file, _, preset)], _ => FoundRead file preset
  | many, _ =>
      FoundRejected (show_uint (zlen many) ++ txt " presets in " ++ dir ++ txt " call themselves " ++ n ++
        txt ", and this reader cannot tell which the game loads")
  end.

Definition starts_in (files : list fname) : list (option Z * fname) :=
  omap (fun n => s ← start_schema n; Some (s, n)) files.
Definition presets_in (files : list fname) : list fname :=
  base.filter (fun n => start_schema n = None /\ is_binds n = true) files.

Definition read_shipped (files : list fname) : Source Bindings :=
  if bool_decide (files = []) then
    Unwritten (dir ++ txt " holds no StartPreset file and no .binds document either: there is no control scheme here, saved or shipped")
  else match read_documents files (txt "so this reader cannot name it among the presets here") with
       | Err why => Refused why
       | Ok docs => Read {| start_file := None; schema := None; superseded := [];
                            presets := (fun d => {| called := d.1.2; found := FoundRead d.1.1 d.2 |}) <$> docs |}
       end.
Definition read_started (starts : list (option Z * fname)) (s : option Z) (file : fname) (files : list fname) : Source Bindings :=
  match base.filter (fun o : option Z * fname => o.1 = s) (option_list (last starts)) with
  | (_, other) :: _ =>
      Refused (shown other ++ txt " and " ++ shown file ++
        txt " are both StartPreset files at the same schema, and this reader cannot tell which the game loads")
  | [] =>
  match read io_message (shown file) (contents file) with
  | Unwritten why | Refused why => Refused why
  | Read b =>
      match start debug b with
      | Err why => Refused (shown file ++ txt ": " ++ why)
      | Ok names =>
          match read_documents files (txt "so this reader cannot tell whether it is the one in use") with
          | Err why => Refused why
          | Ok docs => Read {| start_file := Some file; schema := s; superseded := snd <$> starts;
                               presets := (fun n => {| called := n; found := find_preset docs n |}) <$> names |}
          end
      end
  end
  end.
Definition read_binds : Source Bindings :=
  match read_dir with
  | Err NotFound => Unwritten (nothing_at try_exists (txt "directory") dir (txt "nothing has saved a control scheme here"))
  | Err e => Refused (dir ++ txt " could not be listed: " ++ io_message e)
  | Ok entries =>
      match mapM (M := result io_error) id entries with
      | Err e => Refused (dir ++ txt " could not be listed: " ++ io_message e)
      | Ok names =>
          let files := sort_by (not_after text_cmp) names in
          let starts := sort_by (not_after start_cmp) (starts_in files) in
          match last starts with
          | None => read_shipped (presets_in files)
          | Some (s, file) => read_started (removelast starts) s file (presets_in files)
          end
      end
  end.
End Directory.

(** ** attributes.xml: what an answer says *)
Definition has_name (e : Element) : Prop := exists m, attribute e (txt "name") = Text m.
Definition near (n : text) (e : Element) : option text :=
  match attribute e (txt "name") with
  | Text m => if text_eqb m n then None else if eq_ignore_ascii_case m n then Some m else None
  | _ => None
  end.
Definition called_exactly (n : text) (pairs : list Element) : list Element :=
  base.filter (fun e => attribute e (txt "name") = Text n) pairs.

Lemma eq_ignore_refl n : eq_ignore_ascii_case n n = true.
Proof. apply text_eqb_refl. Qed.
Lemma sort_pairs_ok pairs n ex oc : Forall has_name pairs ->
  sort_pairs pairs n ex oc = Ok (ex ++ called_exactly n pairs, oc ++ omap (near n) pairs).
Proof.
  intros H. revert ex oc. induction H as [|e pairs [m Em] _ IH]; intros ex oc; [cbn; by rewrite !app_nil_r|].
  cbn [sort_pairs omap list_omap]. unfold called_exactly, near. rewrite filter_cons, Em. unfold text_eqb.
  case_bool_decide as D.
  - subst m. rewrite decide_True by done. rewrite IH. by rewrite <- app_assoc.
  - rewrite decide_False by congruence. destruct (eq_ignore_ascii_case m n); rewrite IH; [by rewrite <- app_assoc|done].
Qed.
Lemma sort_pairs_named pairs n ex oc r : sort_pairs pairs n ex oc = Ok r -> Forall has_name pairs.
Proof.
  revert ex oc. induction pairs as [|e pairs IH]; intros ex oc; [by constructor|]. cbn [sort_pairs].
  destruct (attribute e (txt "name")) as [|m|why] eqn:E; [done| |done]. intros H. constructor; [by exists m|].
  destruct (text_eqb m n); [by eapply IH|]. destruct (eq_ignore_ascii_case m n); by eapply IH.
Qed.
Lemma none_near pairs n : Forall has_name pairs -> omap (near n) pairs = [] -> called_exactly n pairs = [] ->
  forall e m, e ∈ pairs -> attribute e (txt "name") = Text m -> eq_ignore_ascii_case m n = false.
Proof.
  intros _. induction pairs as [|e pairs IH]; [by intros _ _ e m ?%elem_of_nil|]. cbn [omap list_omap]. unfold called_exactly.
  rewrite filter_cons. intros Ho Hf e' m [->|Hin]%elem_of_cons Em.
  - unfold near in Ho. rewrite Em in Ho. unfold text_eqb in Ho. destruct (decide _) as [|Hd]; [done|].
    case_bool_decide; [congruence|]. by destruct (eq_ignore_ascii_case m n).
  - apply (IH ltac:(by destruct (near n e)) ltac:(by destruct (decide _)) e' m Hin Em).
Qed.

(** An attribute has a value exactly when every pair of the file has a name that can be read,
    one pair has exactly the name asked for and that pair's value can be read; and it is
    absent exactly when every name can be read and none is the one asked for, in any case of
    its letters. Anything else is a refusal. *)
Theorem attr_value_says (d : Document) (n : text) :
  (forall v, attr_value d n = Text v <->
     Forall has_name (pairs_of d) /\ exists e, called_exactly n (pairs_of d) = [e] /\ attribute e (txt "value") = Text v) /\
  (attr_value d n = Absent <->
     Forall has_name (pairs_of d) /\
     forall e m, e ∈ pairs_of d -> attribute e (txt "name") = Text m -> eq_ignore_ascii_case m n = false).
Proof.
  unfold attr_value. destruct (sort_pairs (pairs_of d) n [] []) as [[ex oc]|why] eqn:E.
  2: { split; [intros v|]; (split; [done|]); intros [H _]; by rewrite sort_pairs_ok in E. }
  pose proof (sort_pairs_named _ _ _ _ _ E) as Hn. rewrite sort_pairs_ok in E by done. cbn [app] in E. injection E as Eex Eoc.
  split; [intros v|]; split.
  - intros H. split; [done|]. rewrite Eex. destruct ex as [|e [|]]; [by destruct oc| |done]. exists e. split; [done|].
    by destruct (attribute e (txt "value")).
  - intros (_ & e & Ee & Ev). assert (ex = [e]) as -> by congruence. by rewrite Ev.
  - intros H. split; [done|]. destruct ex as [|e [|]]; [|by destruct (attribute e (txt "value"))|done].
    destruct oc; [|done]. by apply none_near.
  - intros [_ H]. destruct ex as [|e ex].
    + destruct oc as [|m oc]; [done|]. exfalso.
      assert (Hm : m ∈ omap (near n) (pairs_of d)) by (rewrite Eoc; apply list_elem_of_here).
      apply list_elem_of_omap in Hm as (e & He & Hnear). unfold near in Hnear.
      destruct (attribute e (txt "name")) as [|m'|] eqn:Em; [done| |done]. destruct (text_eqb m' n); [done|].
      pose proof (H e m' He Em) as Hf. by rewrite Hf in Hnear.
    + exfalso. assert (He : e ∈ called_exactly n (pairs_of d)) by (rewrite Eex; apply list_elem_of_here).
      apply list_elem_of_filter in He as [Em He]. pose proof (H e n He Em) as Hf. by rewrite eq_ignore_refl in Hf.
Qed.

(** ** The directory: what an answer says *)
Lemma mapM_ok {E A} (l : list (result E A)) k : mapM (M := result E) id l = Ok k <-> l = Ok <$> k.
Proof.
  revert k. induction l as [|r l IH]; intros k; [destruct k; cbn; split; (done || by intros [= <-])|].
  change (mapM (M := result E) id (r :: l)) with (x ← r; y ← mapM (M := result E) id l; Ok (x :: y)). split.
  - intros (x & -> & (y & H & [= <-])%result_bind_inv)%result_bind_inv. apply IH in H as ->. done.
  - destruct k as [|x k]; [done|]. intros [= -> ->]. cbn. by rewrite (proj2 (IH k)).
Qed.
Lemma all_ok_inj {E A} (l k : list A) : @fmap list _ _ _ (@Ok E A) l = Ok <$> k -> l = k.
Proof.
  revert k. induction l as [|x l IH]; intros [|y k]; cbn; try done. intros [= -> H]. f_equal. by apply IH.
Qed.
Lemma perm_omap {A B} (f : A -> option B) l k : l ≡ₚ k -> omap f l ≡ₚ omap f k.
Proof.
  induction 1 as [|x l k _ IH|x y l|l k m _ IH1 _ IH2]; cbn; [done| | |by etrans].
  - by destruct (f x); [apply perm_skip|].
  - destruct (f x), (f y); try done. by apply perm_swap.
Qed.

#[export] Instance start_comparison : Comparison start_cmp.
Proof. unfold start_cmp, schema_cmp. apply _. Qed.
Lemma schema_cmp_eq a b : schema_cmp a b = Eq -> a = b.
Proof. destruct a as [a|], b as [b|]; try done. cbn. by intros ->%Z.compare_eq_iff. Qed.
Lemma start_not_after a b : start_cmp a b <> Gt -> schema_cmp a.1 b.1 <> Gt.
Proof. unfold start_cmp, cmp_both, then_cmp, cmp_by. by destruct (schema_cmp a.1 b.1). Qed.
Lemma schema_lt_trans a b c : schema_cmp a b <> Gt -> schema_cmp b c = Lt -> schema_cmp a c = Lt.
Proof.
  destruct (schema_cmp a b) eqn:E; [by apply schema_cmp_eq in E as ->| |done].
  intros _. by apply (cmp_lt_trans (cmp := schema_cmp) _ _ _ E).
Qed.
#[export] Instance schema_comparison : Comparison schema_cmp.
Proof. unfold schema_cmp. apply _. Qed.

Section Answers.
Context (try_exists : text -> result io_error bool) (io_message : io_error -> text) (debug : text -> text).
Context (dir : text) (read_dir : result io_error (list (result io_error fname))) (contents : fname -> result io_error bytes).
Context (wanted : text).

(** A document that could be placed: its file was read, and it has this name. *)
Definition document (d : fname * text * Preset) : Prop :=
  exists c, contents d.1.1 = Ok c /\ d.2 = parse_preset c wanted /\ pname d.2 = Text d.1.2.
Lemma read_documents_ok files why docs : read_documents io_message dir contents wanted files why = Ok docs ->
  (fun d => d.1.1) <$> docs = files /\ Forall document docs.
Proof.
  revert docs. induction files as [|f files IH]; intros docs; cbn [read_documents]; [intros [= <-]; by repeat constructor|].
  unfold read. destruct (contents f) as [c|e] eqn:Ec; [|by destruct e]. cbn [mbind result_bind].
  destruct (pname (parse_preset c wanted)) as [|n|w] eqn:En; [done| |done].
  intros (rest & H & [= <-])%result_bind_inv. apply IH in H as [<- Hd]. split; [done|]. constructor; [|done].
  by exists c.
Qed.

(** What is said of a name of the start file. *)
Definition placed_right (docs : list (fname * text * Preset)) (a : Active) : Prop :=
  match found a with
  | FoundRead f p => base.filter (fun d => d.1.2 = called a) docs = [(f, called a, p)]
  | FoundAbsent _ => forall d, d ∈ docs -> eq_ignore_ascii_case d.1.2 (called a) = false
  | FoundRejected _ => exists d, d ∈ docs /\ eq_ignore_ascii_case d.1.2 (called a) = true
  end.
Lemma find_preset_right docs n : placed_right docs {| called := n; found := find_preset dir docs n |}.
Proof.
  unfold placed_right, find_preset. cbn [called found].
  destruct (base.filter (fun d => d.1.2 = n) docs) as [|[[f m] p] exact] eqn:E1.
  - destruct (base.filter (fun d => d.1.2 <> n /\ _) docs) as [|d near] eqn:E2.
    + intros d Hd. apply not_true_is_false. intros He. destruct (decide (d.1.2 = n)) as [Hn|Hn].
      * assert (Hin : d ∈ base.filter (fun d => d.1.2 = n) docs) by by apply list_elem_of_filter.
        rewrite E1 in Hin. by apply elem_of_nil in Hin.
      * assert (Hin : d ∈ base.filter (fun d => d.1.2 <> n /\ eq_ignore_ascii_case d.1.2 n = true) docs) by by apply list_elem_of_filter.
        rewrite E2 in Hin. by apply elem_of_nil in Hin.
    + exists d. assert (Hin : d ∈ base.filter (fun d => d.1.2 <> n /\ eq_ignore_ascii_case d.1.2 n = true) docs)
        by (rewrite E2; apply list_elem_of_here). by apply list_elem_of_filter in Hin as [[_ ?] ?].
  - assert (Hin : (f, m, p) ∈ base.filter (fun d => d.1.2 = n) docs) by (rewrite E1; apply list_elem_of_here).
    apply list_elem_of_filter in Hin as [Hm Hin]. cbn in Hm. subst m. destruct exact; [done|].
    exists (f, n, p). split; [done|apply eq_ignore_refl].
Qed.

Abbreviation answer := (read_binds try_exists io_message debug dir read_dir contents wanted).

(** A reading of a directory of presets is a reading of all of it: the listing was whole,
    every file named as a preset was read and says what it is called, and no start file was
    passed over but one of a lower schema. Without a start file, every preset is reported;
    with one, its names are, each with the one preset called so if there is exactly one, and
    as absent only if nothing is called so in any case of the letters. *)
Theorem bindings_say_what_is_there (b : Bindings) : answer = Read b ->
  exists names docs, read_dir = Ok (Ok <$> names) /\
    (fun d => d.1.1) <$> docs ≡ₚ presets_in names /\ Forall document docs /\
    match start_file b with
    | None => starts_in names = [] /\ docs <> [] /\
        presets b = (fun d => {| called := d.1.2; found := FoundRead d.1.1 d.2 |}) <$> docs
    | Some file => exists c, contents file = Ok c /\ start debug c = Ok (called <$> presets b) /\
        (schema b, file) ∈ starts_in names /\
        (forall o, o ∈ starts_in names -> o = (schema b, file) \/ schema_cmp o.1 (schema b) = Lt /\ o.2 ∈ superseded b) /\
        Forall (placed_right docs) (presets b)
    end.
Proof.
  unfold read_binds. destruct read_dir as [entries|e]; [|by destruct e].
  destruct (mapM id entries) as [names|e] eqn:Em; [|done]. apply mapM_ok in Em as ->.
  pose proof (sort_by_perm (not_after text_cmp) names) as Hp. set (files := sort_by (not_after text_cmp) names) in *.
  assert (Hs : starts_in files ≡ₚ starts_in names) by by apply perm_omap.
  assert (Hb : presets_in files ≡ₚ presets_in names) by (unfold presets_in; by rewrite Hp).
  destruct (last (sort_by _ (starts_in files))) as [[s file]|] eqn:El.
  - pose proof (sort_last start_cmp _ _ El) as (Ea & Hsorted & Hmax). set (others := removelast _) in *. unfold read_started.
    assert (Hin : forall o, o ∈ starts_in names <-> o ∈ others \/ o = (s, file)).
    { intros o. rewrite <- Hs, <- (sort_by_perm (not_after start_cmp) (starts_in files)), Ea, elem_of_app.
      by rewrite list_elem_of_singleton. }
    destruct (base.filter _ (option_list (last others))) as [|[] ?] eqn:Et; [|done].
    unfold read. destruct (contents file) as [c|e] eqn:Ec; [|by destruct e].
    destruct (start debug c) as [ns|] eqn:En; [|done]. destruct (read_documents _ _ _ _ _ _) as [docs|] eqn:Ed; [|done].
    intros [= <-]. apply read_documents_ok in Ed as [Ef Hd]. exists names, docs. cbn [start_file schema presets superseded].
    split_and!; [done|by rewrite Ef|done|]. exists c. split_and!; [done| |apply Hin; by right| |].
    + rewrite En, <- list_fmap_compose. f_equal. unfold compose. cbn. by rewrite list_fmap_id.
    + intros o [Ho|Ho]%Hin; [right|by left]. split; [|by apply list_elem_of_fmap_2].
      assert (Hlt : forall y, y ∈ others -> schema_cmp y.1 s = Lt); [|by apply Hlt].
      clear -Et Hsorted Hmax Hs Ea. intros y Hy.
      destruct others as [|x k _] using rev_ind; [by apply elem_of_nil in Hy|]. rewrite last_snoc in Et. cbn in Et.
      destruct (decide (x.1 = s)) as [|Hne]; [done|].
      assert (Hall : forall z, z ∈ k ++ [x] -> start_cmp z (s, file) <> Gt).
      { intros z Hz. apply Hmax. rewrite <- (sort_by_perm (not_after start_cmp)), Ea. apply elem_of_app. by left. }
      assert (Hx : schema_cmp x.1 s = Lt).
      { pose proof (start_not_after _ _ (Hall x ltac:(apply elem_of_app; right; by apply list_elem_of_singleton))) as Hx.
        cbn in Hx. destruct (schema_cmp x.1 s) eqn:E; [by apply schema_cmp_eq in E|done|done]. }
      apply elem_of_app in Hy as [Hy| ->%list_elem_of_singleton]; [|done].
      apply Sorted_StronglySorted in Hsorted.
      2: { intros a b c. unfold ordered. rewrite !not_after_iff. apply (cmp_le_trans start_cmp). }
      apply sorting.StronglySorted_app in Hsorted as (Hle & _). eapply schema_lt_trans; [|exact Hx].
      apply start_not_after, not_after_iff. apply Hle; [done|by apply list_elem_of_singleton].
    + apply Forall_fmap, Forall_forall. intros n _. apply find_preset_right.
  - unfold read_shipped. case_bool_decide as He; [done|]. destruct (read_documents _ _ _ _ _ _) as [docs|] eqn:Ed; [|done].
    intros [= <-]. apply read_documents_ok in Ed as [Ef Hd]. exists names, docs. cbn [start_file presets].
    split_and!; [done|by rewrite Ef|done| | |done].
    + apply last_None in El. pose proof (sort_by_perm (not_after start_cmp) (starts_in files)) as Hq. rewrite El in Hq.
      symmetry in Hq. apply Permutation_nil_r in Hq. rewrite Hq in Hs. symmetry in Hs. by apply Permutation_nil_r in Hs.
    + intros ->. by rewrite <- Ef in He.
Qed.

(** "Nothing here" is said of a directory exactly when it is not there, or its whole listing
    has neither a start file nor anything named as a preset. *)
Theorem nothing_is_not_said_lightly :
  (exists why, answer = Unwritten why) <->
  read_dir = Err NotFound \/ exists names, read_dir = Ok (Ok <$> names) /\ starts_in names = [] /\ presets_in names = [].
Proof.
  unfold read_binds. destruct read_dir as [entries|e].
  2: { split.
       - intros [w H]. destruct e; try done. by left.
       - intros [[= ->]|(? & ? & _)]; [by eexists|done]. }
  destruct (mapM id entries) as [names|e] eqn:Em.
  2: { split; [by intros [w H]|]. intros [H|(names & [= ->] & _)]; [done|]. by rewrite (proj2 (mapM_ok _ names) eq_refl) in Em. }
  apply mapM_ok in Em as ->.
  pose proof (sort_by_perm (not_after text_cmp) names) as Hp. set (files := sort_by (not_after text_cmp) names) in *.
  assert (Hs : starts_in files ≡ₚ starts_in names) by by apply perm_omap.
  assert (Hb : presets_in files ≡ₚ presets_in names) by (unfold presets_in; by rewrite Hp).
  pose proof (sort_by_perm (not_after start_cmp) (starts_in files)) as Hq.
  destruct (last (sort_by _ (starts_in files))) as [[s file]|] eqn:El.
  - unfold read_started, read. split.
    + intros [w H]. exfalso. destruct (base.filter _ _) as [|[]]; [|done]. destruct (contents file) as [c|[]]; try done.
      destruct (start debug c); [|done]. by destruct (read_documents _ _ _ _ _ _).
    + intros [H|(names' & [= E%all_ok_inj] & Hn & _)]; [done|]. subst names'. exfalso.
      rewrite Hn in Hs. apply Permutation_nil_r in Hs. by rewrite Hs in El.
  - apply last_None in El. rewrite El in Hq. symmetry in Hq. apply Permutation_nil_r in Hq. rewrite Hq in Hs. symmetry in Hs.
    apply Permutation_nil_r in Hs. unfold read_shipped. case_bool_decide as He.
    + split; [|by eexists]. intros _. right. exists names. split_and!; [done..|]. rewrite He in Hb. symmetry in Hb. by apply Permutation_nil_r in Hb.
    + split; [intros [w H]; by destruct (read_documents _ _ _ _ _ _)|].
      intros [H|(names' & [= E%all_ok_inj] & _ & Hn)]; [done|]. subst names'. destruct He.
      rewrite Hn in Hb. by apply Permutation_nil_r in Hb.
Qed.
End Answers.

(** ** The start file: what it names *)
Definition name_line (line : text) : text := trim_by is_ascii_whitespace line.
Lemma preset_names_spec debug ls out ns : preset_names debug ls out = Ok ns ->
  Forall (fun l => none no_name_char (name_line l)) ls /\
  (NoDup out -> NoDup ns) /\ (forall n, n ∈ ns <-> n ∈ out \/ n <> [] /\ n ∈ name_line <$> ls) /\
  exists more, ns = out ++ more /\ sublist more (name_line <$> ls).
Proof.
  revert out. induction ls as [|l ls IH]; intros out; cbn [preset_names].
  { intros [= <-]. split_and!; [by constructor|done| |by exists []; rewrite app_nil_r].
    intros n. cbn. rewrite elem_of_nil. tauto. }
  fold (name_line l). cbn [fmap list_fmap]. case_bool_decide as He.
  - intros H. apply IH in H as (Hf & Hd & Hin & more & -> & Hsub). split_and!; [|done| |].
    + constructor; [|done]. rewrite He. by constructor.
    + intros n. rewrite Hin, elem_of_cons. split; [tauto|]. intros [ |[? [-> | ]]]; [tauto|done|tauto].
    + exists more. split; [done|by constructor].
  - destruct (existsb no_name_char (name_line l)) eqn:Hc; [done|]. apply existsb_none in Hc.
    destruct (existsb (text_eqb (name_line l)) out) eqn:Ho; intros H; apply IH in H as (Hf & Hd & Hin & more & -> & Hsub).
    + apply existsb_exists in Ho as (m & Hm & E). apply bool_decide_eq_true in E. subst m. apply list_elem_of_In in Hm.
      split_and!; [by constructor|done| |exists more; split; [done|by constructor]].
      intros n. rewrite Hin, elem_of_cons. split; [tauto|]. intros [ |[? [-> | ]]]; tauto.
    + assert (Hnot : name_line l ∉ out).
      { intros Hm. apply not_true_iff_false in Ho. apply Ho. apply existsb_exists. exists (name_line l).
        split; [by apply list_elem_of_In|apply text_eqb_refl]. }
      split_and!; [by constructor| | |].
      * intros Hnd. apply Hd, NoDup_app. split_and!; [done| |apply NoDup_singleton].
        by intros x Hx ->%list_elem_of_singleton.
      * intros n. rewrite Hin, elem_of_app, list_elem_of_singleton, elem_of_cons. split.
        -- intros [[ | ->]| ]; tauto.
        -- intros [ |[? [-> | ]]]; tauto.
      * exists (name_line l :: more). rewrite <- app_assoc. split; [done|by constructor].
Qed.
(** The names of a start file: its lines without the white space around them, each once, in
    order; there is one, and none is a path or holds a control character. *)
Theorem start_names debug (b : bytes) (ns : list text) : start debug b = Ok ns ->
  exists s, utf8_decode (strip_bom b) = Some s /\ ns <> [] /\ NoDup ns /\
    (forall n, n ∈ ns <-> n <> [] /\ n ∈ name_line <$> lines s) /\ sublist ns (name_line <$> lines s) /\
    Forall (fun l => none no_name_char (name_line l)) (lines s).
Proof.
  unfold start. intros (s & E & H)%result_bind_inv. apply ok_or_ok in E. apply result_bind_inv in H as (out & H & Hn).
  case_bool_decide as He; [done|]. injection Hn as ->. apply preset_names_spec in H as (Hf & Hd & Hin & more & -> & Hsub).
  exists s. cbn [app] in *. split_and!; [done..|apply Hd, NoDup_nil_2| |done|done]. intros n. rewrite Hin, elem_of_nil. tauto.
Qed.

(** ** A directory as the game leaves it *)
Definition custom_doc : bytes := utf8_encode (txt "<Root PresetName='Custom' MajorVersion='4' MinorVersion='1'><HeadlookMode Value='Direct'/></Root>").
Definition other_doc : bytes := utf8_encode (txt "<Root PresetName='custom'><HeadlookMode Value='Accumulate'/></Root>").
Definition played (n : fname) : result io_error bytes :=
  if text_eqb n (txt "StartPreset.4.start") then Ok (utf8_encode (txt "Custom" ++ [13; 10] ++ txt "Mine"))
  else if text_eqb n (txt "a.binds") then Ok other_doc
  else if text_eqb n (txt "Custom.4.1.binds") then Ok custom_doc
  else Err NotFound.
Definition listing : list fname := [txt "StartPreset.start"; txt "a.binds"; txt "StartPreset.4.start"; txt "notes.txt"; txt "Custom.4.1.binds"].
Definition played_dir : Source Bindings :=
  read_binds (fun _ => Ok true) (fun _ => []) id (txt "/o") (Ok (Ok <$> listing)) played (txt "HeadlookMode").
Definition custom : Preset := {| pname := Text (txt "Custom"); pversion := Text (txt "4.1"); setting := Text (txt "Direct") |}.
Definition played_bindings : Bindings :=
  {| start_file := Some (txt "StartPreset.4.start"); schema := Some 4; superseded := [txt "StartPreset.start"];
     presets := [{| called := txt "Custom"; found := FoundRead (txt "Custom.4.1.binds") custom |};
                 {| called := txt "Mine"; found := FoundAbsent (txt "no preset in /o calls itself Mine") |}] |}.
Example a_directory_played_in : played_dir = Read played_bindings.
Proof. vm_compute. reflexivity. Qed.
Example a_directory_shipped :
  match read_binds (fun _ => Ok true) (fun _ => []) id (txt "/o") (Ok (Ok <$> [txt "a.binds"])) played (txt "HeadlookMode") with
  | Read b => start_file b = None /\ called <$> presets b = [txt "custom"]
  | _ => False
  end.
Proof. vm_compute. done. Qed.

Lemma bindings_say_what_is_there_witness :
  exists names docs, @Ok io_error _ (@Ok io_error _ <$> listing) = Ok (Ok <$> names) /\
    (fun d => d.1.1) <$> docs ≡ₚ presets_in names /\ Forall (document played (txt "HeadlookMode")) docs /\
    match start_file played_bindings with
    | None => starts_in names = [] /\ docs <> [] /\
        presets played_bindings = (fun d => {| called := d.1.2; found := FoundRead d.1.1 d.2 |}) <$> docs
    | Some file => exists c, played file = Ok c /\ start id c = Ok (called <$> presets played_bindings) /\
        (schema played_bindings, file) ∈ starts_in names /\
        (forall o, o ∈ starts_in names -> o = (schema played_bindings, file) \/
           schema_cmp o.1 (schema played_bindings) = Lt /\ o.2 ∈ superseded played_bindings) /\
        Forall (placed_right docs) (presets played_bindings)
    end.
Proof.
  apply (bindings_say_what_is_there (fun _ => Ok true) (fun _ => []) id (txt "/o") (Ok (Ok <$> listing)) played (txt "HeadlookMode")).
  vm_compute. reflexivity.
Defined.
