(* ===== verification/Userreg.v ===== *)
(** * Userreg: reading a prefix's registry file (crates/tobii-config/src/userreg.rs)

    The lines of a [user.reg], its escapes and its value types. [unescape_exact]: what is
    decoded is exactly what the escapes mean, and what the file's header says wine writes is
    read back. [registry_answers]: a text is what the last line for the value in the key
    holds, and an absence means that no line there could be the one asked about. *)
From S2P Require Import Prelude Utf8 Text Bytelines Xml.

Definition FILE : text := txt "user.reg".
Definition NPCLIENT_KEY : text := txt "Software\NaturalPoint\NATURALPOINT\NPClient Location".
Definition FREETRACK_KEY : text := txt "Software\Freetrack\FreeTrackClient".
Definition PATH_VALUE : text := txt "Path".
Definition FILE_HEADER : text := txt "WINE REGISTRY Version 2".

(** ** Escapes *)
Definition plain_escape (e : char) : option char :=
  if existsb (Z.eqb e) [92; 34; 91; 93] then Some e
  else match e with
       | 97 => Some 7 | 98 => Some 8 | 116 => Some 9 | 110 => Some 10
       | 118 => Some 11 | 102 => Some 12 | 114 => Some 13 | 101 => Some 27
       | _ => None
       end.
(** The radix, how many digits it can hold, and the digit the escape has already named. *)
Definition numeric_escape (e : char) : option (Z * nat * text) :=
  if e =? 120 then Some (16, 4%nat, []) else if between 48 55 e then Some (8, 3%nat, [e]) else None.
Definition is_digit (radix : Z) (c : char) : bool := bool_decide (is_Some (to_digit radix c)).
(** At most [n] digits, and what follows them. *)
Fixpoint take_digits (radix : Z) (n : nat) (s : text) : text * text :=
  match n, s with
  | S n, c :: r => if is_digit radix c then let '(ds, r) := take_digits radix n r in (c :: ds, r) else ([], s)
  | _, _ => ([], s)
  end.
Definition unreadable_escape : text := txt "a value holding an escape this installer cannot read".
Definition escape_digits (s : text) (radix : Z) (max : nat) (seed : text) : or_text (char * text) :=
  let '(ds, rest) := take_digits radix (max - length seed) s in
  let digits := seed ++ ds in
  if bool_decide (digits = []) then Err unreadable_escape
  else
    unit ← ok_or (parse_uint 32 radix digits) unreadable_escape;
    c ← ok_or (char_from_u32 unit) (txt "a value holding a character this installer cannot read back");
    Ok (c, rest).
(** The loop; [fuel] is at least the length of what is left. *)
Fixpoint unescape_loop (fuel : nat) (s out : text) : or_text text :=
  match fuel, s with
  | S fuel, 92 :: r =>
      match r with
      | [] => Err (txt "a value that ends in the middle of an escape")
      | e :: r =>
          match plain_escape e, numeric_escape e with
          | Some p, _ => unescape_loop fuel r (out ++ [p])
          | None, Some (radix, max, seed) =>
              '(c, r) ← escape_digits r radix max seed;
              unescape_loop fuel r (out ++ [c])
          | None, None => Err unreadable_escape
          end
      end
  | S fuel, c :: r => unescape_loop fuel r (out ++ [c])
  | _, _ => Ok out
  end.
Definition unescape (s : text) : or_text text := unescape_loop (length s) s [].

(** ** Lines *)
(** [end_of_unescaped]: what is before the first such terminator without a backslash in front
    of it, and what is after it; [skip] is whether the next is escaped. *)
Fixpoint split_unescaped {A} (code : A -> Z) (fin : Z) (skip : bool) (l : list A) : option (list A * list A) :=
  match l with
  | [] => None
  | c :: l =>
      if negb skip && (code c =? fin) && negb (code c =? 92) then Some ([], l)
      else '(a, b) ← split_unescaped code fin (negb skip && (code c =? 92)) l; Some (c :: a, b)
  end.
Definition split_quoted (after_quote : bytes) : option (bytes * bytes) := split_unescaped u8 34 false after_quote.
(** The code searches the bytes of a [&str] and slices it there; see [split_encoded]. *)
Definition split_bracket (body : text) : option (text * text) := split_unescaped id 93 false body.

Definition trim_key (k : text) : text := default k (strip_suffix [92] k).
Definition key_names_match (header_key key_path : text) : bool :=
  eq_ignore_ascii_case (trim_key header_key) (trim_key key_path).
Definition header_names (line key_path : text) : bool :=
  match strip_prefix (txt "[") line with
  | None => false
  | Some body =>
      match split_bracket body with
      | None => false
      | Some (name, _) => match unescape name with Ok k => key_names_match k key_path | Err _ => false end
      end
  end.

Definition type_name (ty : Z) : text :=
  match ty with
  | 1 => txt "REG_SZ" | 2 => txt "REG_EXPAND_SZ" | 3 => txt "REG_BINARY" | 4 => txt "REG_DWORD"
  | 5 => txt "REG_DWORD_BIG_ENDIAN" | 6 => txt "REG_LINK" | 7 => txt "REG_MULTI_SZ"
  | 8 => txt "REG_RESOURCE_LIST" | 11 => txt "REG_QWORD"
  | other => txt "registry type " ++ show_uint other
  end.
Definition not_ours (ty : Z) : text := txt "a value stored as " ++ type_name ty ++ txt ", which this installer never writes".

Definition read_string (body : text) : Lookup :=
  match split_unescaped id 34 false body with
  | None => Rejected (txt "a value whose text never ends")
  | Some (raw, after) =>
      if negb (forallb is_ascii_whitespace after) then
        Rejected (txt "a value followed by something this installer cannot read")
      else match unescape raw with
           | Err why => Rejected why
           | Ok v =>
               if bool_decide (v = []) then Rejected (txt "a value holding no path at all, which this installer never writes")
               else if existsb (fun c => (10 =? c) || (13 =? c)) v then
                 Rejected (txt "a value with a line break in it, which this installer never writes and cannot read back whole")
               else if existsb is_control v then
                 Rejected (txt "a value with a control character in it, which this installer never writes and cannot show whole")
               else Text v
           end
  end.
Definition unreadable_line : Lookup := Rejected (txt "a value line this installer cannot read").
Definition trim_ws : text -> text := trim_start_by is_ascii_whitespace.
(** [num):...] after [str(] or [hex(]: the type, and what follows. *)
Definition typed (body : text) : option (Z * text) :=
  '(num, after) ← split_once_str (txt "):") body;
  ty ← parse_uint 32 16 num;
  Some (ty, after).
Definition read_assignment (rest : text) : Lookup :=
  match strip_prefix (txt "=") (trim_ws rest) with
  | None => unreadable_line
  | Some rest =>
      let rest := trim_ws rest in
      match strip_prefix [34] rest, strip_prefix (txt "str(") rest, strip_prefix (txt "hex(") rest with
      | Some body, _, _ => read_string body
      | None, Some body, _ =>
          match typed body with
          | None => unreadable_line
          | Some (ty, after) =>
              match (if ty =? 1 then strip_prefix [34] after else None) with
              | Some body => read_string body
              | None => Rejected (not_ours ty)
              end
          end
      | None, None, hex =>
          if starts_with (txt "dword:") rest then Rejected (not_ours 4)
          else if starts_with (txt "hex:") rest then Rejected (not_ours 3)
          else match hex with
               | Some body => match typed body with Some (ty, _) => Rejected (not_ours ty) | None => unreadable_line end
               | None => Rejected (txt "a value stored in a form this installer does not recognise")
               end
      end
  end.

(** ** The file *)
Fixpoint trim_line (l : bytes) : bytes :=
  match l with b :: r => if is_ascii_whitespace (u8 b) then trim_line r else l | [] => [] end.
Definition starts_byte (c : Z) (l : bytes) : bool := match l with b :: _ => u8 b =? c | [] => false end.

(** What a line in the section says: not of this value, or the answer it gives. [stop] is an
    answer that ends the reading. *)
Inductive Line := Other | Says (a : Lookup) | Stop (why : text).
Definition value_line (value_name : text) (line : bytes) : Line :=
  match split_quoted (drop 1 line) with
  | None => Other
  | Some (name, rest) =>
      match utf8_decode name with
      | None => Stop (txt "a value whose name is not text this installer can read")
      | Some name =>
          match unescape name with
          | Err why => Stop (txt "a value whose name " ++ why)
          | Ok name =>
              if negb (eq_ignore_ascii_case name value_name) then Other
              else match utf8_decode rest with
                   | None => Stop (txt "a value whose line is not text this installer can read")
                   | Some rest => Says (read_assignment rest)
                   end
          end
      end
  end.
Definition names_section (key_path : text) (line : bytes) : bool :=
  match utf8_decode line with Some l => header_names l key_path | None => false end.
Fixpoint lookup_lines (key_path value_name : text) (lines : list bytes) (inside : bool) (found : option Lookup) : Lookup :=
  match lines with
  | [] => default Absent found
  | raw :: lines =>
      let line := trim_line (strip_return raw) in
      if starts_byte 91 line then lookup_lines key_path value_name lines (names_section key_path line) found
      else if negb inside || negb (starts_byte 34 line) then lookup_lines key_path value_name lines inside found
      else match value_line value_name line with
           | Other => lookup_lines key_path value_name lines inside found
           | Says a => lookup_lines key_path value_name lines inside (Some a)
           | Stop why => Rejected why
           end
  end.
Definition lookup (b : bytes) (key_path value_name : text) : Lookup :=
  let first := default [] (head (split_lines b)) in
  if negb (bool_decide (strip_return first = utf8_encode FILE_HEADER)) then
    Rejected (txt "a " ++ FILE ++ txt " wine itself will not load, because its first line is not `" ++ FILE_HEADER ++ txt "`")
  else lookup_lines key_path value_name (split_lines b) false None.

(** ** Searching the bytes, or the characters *)
Lemma high_bytes (zs : list Z) : Forall (fun z => 128 <= z < 256) zs -> Forall (fun b => 128 <= u8 b) (byte.of_Z <$> zs).
Proof. intros H. apply Forall_fmap. eapply Forall_impl; [exact H|]. intros z Hz. cbn beta in Hz. unfold compose. rewrite u8_of_Z; lia. Qed.
Lemma encode_char_cases c : is_char c = true ->
  (c < 128 /\ u8 <$> encode_char c = [c]) \/ (Forall (fun b => 128 <= u8 b) (encode_char c) /\ 128 <= c /\ encode_char c <> []).
Proof.
  unfold is_char, encode_char. intros H. destruct (Z.ltb_spec c 0x80).
  - left. split; [lia|]. cbn. by rewrite u8_of_Z by lia.
  - right. split; [|split; [lia|by repeat case_match]]. apply high_bytes.
    pose proof (fun x => Z.mod_pos_bound x 64 eq_refl) as L.
    repeat case_match; repeat constructor; try (pose proof (L (c / 4096)); pose proof (L (c / 64)); pose proof (L c); lia);
      Z.div_mod_to_equations; lia.
Qed.
Lemma split_high (fin : Z) (skip : bool) (l k : bytes) : fin < 128 -> Forall (fun b => 128 <= u8 b) l -> l <> [] ->
  split_unescaped u8 fin skip (l ++ k) = '(a, b) ← split_unescaped u8 fin false k; Some (l ++ a, b).
Proof.
  intros Hf H Hne. revert skip Hne. induction H as [|b l Hb H IH]; intros skip Hne; [done|]. cbn [app split_unescaped].
  rewrite (proj2 (Z.eqb_neq (u8 b) fin)), (proj2 (Z.eqb_neq (u8 b) 92)) by lia. rewrite andb_false_r. cbn [andb].
  replace (negb skip && false) with false by by destruct skip.
  destruct l as [|x l]; [cbn [app]; by destruct (split_unescaped u8 fin false k) as [[]|]|].
  rewrite IH by done. by destruct (split_unescaped u8 fin false k) as [[]|].
Qed.
(** The code looks for a terminator among the bytes of a text and slices the text there: the
    place is between characters, and the one found among the characters. *)
Lemma split_encoded (fin : Z) (skip : bool) (s : text) : 0 <= fin < 128 -> scalars s ->
  split_unescaped u8 fin skip (utf8_encode s) =
  '(a, b) ← split_unescaped id fin skip s; Some (utf8_encode a, utf8_encode b).
Proof.
  intros Hf H. revert skip. induction H as [|c s Hc _ IH]; intros skip; [done|]. unfold utf8_encode in *. cbn [mbind list_bind].
  destruct (encode_char_cases c Hc) as [[Hlt E]|(Hh & Hge & Hne)].
  - destruct (encode_char c) as [|b [|]] eqn:Eb; [done| |done]. injection E as E. cbn [app split_unescaped]. rewrite E.
    change (id c) with c. destruct (negb skip && (c =? fin) && negb (c =? 92)).
    + done.
    + rewrite IH. destruct (split_unescaped id fin _ s) as [[a b']|]; [|done]. cbn. by rewrite Eb.
  - rewrite split_high by (done || lia). cbn [split_unescaped]. change (id c) with c.
    rewrite (proj2 (Z.eqb_neq c fin)), (proj2 (Z.eqb_neq c 92)) by lia. rewrite andb_false_r. cbn [andb].
    replace (negb skip && false) with false by by destruct skip.
    rewrite IH. by destruct (split_unescaped id fin false s) as [[a b']|].
Qed.

(** ** What escapes mean *)
Definition digits (radix : Z) (ds : text) : Prop := Forall (fun c => is_digit radix c = true) ds.
(** The digits of an escape end where they must, or at the first character that is none. *)
Definition ends_digits (radix : Z) (max : nat) (ds rest : text) : Prop :=
  (length ds <= max)%nat /\ (length ds = max \/ match rest with c :: _ => is_digit radix c = false | [] => True end).
(** The first character a text denotes, and what is left. *)
Inductive Reads : text -> char -> text -> Prop :=
| Itself c s : c <> 92 -> Reads (c :: s) c s
| Letter e p s : plain_escape e = Some p -> Reads (92 :: e :: s) p s
| Hexadecimal ds c s : ds <> [] -> digits 16 ds -> ends_digits 16 4 ds s ->
    digits_value 16 ds = Some c -> is_char c = true -> Reads (92 :: 120 :: ds ++ s) c s
| Octal d ds c s : between 48 55 d = true -> digits 8 ds -> ends_digits 8 2 ds s ->
    digits_value 8 (d :: ds) = Some c -> is_char c = true -> Reads (92 :: d :: ds ++ s) c s.
Inductive Escaped : text -> text -> Prop :=
| EndOfText : Escaped [] []
| Then s c r t : Reads s c r -> Escaped r t -> Escaped s (c :: t).

Lemma take_digits_spec radix n s ds r : take_digits radix n s = (ds, r) -> s = ds ++ r /\ digits radix ds /\ ends_digits radix n ds r.
Proof.
  revert s ds r. induction n as [|n IH]; intros s ds r; cbn [take_digits].
  { intros [= <- <-]. split; [done|]. split; [by constructor|]. split; [done|by left]. }
  destruct s as [|c s]; [intros [= <- <-]; split; [done|]; split; [by constructor|]; split; [cbn; lia|by right]|].
  destruct (is_digit radix c) eqn:E.
  - destruct (take_digits radix n s) as [ds' r'] eqn:Et. intros [= <- <-]. destruct (IH _ _ _ Et) as (-> & Hd & Hl & Hor).
    split; [done|]. split; [by constructor|]. split; [cbn; lia|]. cbn. destruct Hor; [left; lia|by right].
  - intros [= <- <-]. split; [done|]; split; [by constructor|]; split; [cbn; lia|by right].
Qed.
Lemma take_digits_app radix n ds r : digits radix ds -> ends_digits radix n ds r -> take_digits radix n (ds ++ r) = (ds, r).
Proof.
  revert n. induction ds as [|c ds IH]; intros n Hd [Hl Hor].
  - destruct n, r as [|c r]; cbn [app take_digits]; try done. destruct Hor as [|Hc]; [done|]. by rewrite Hc.
  - destruct n as [|n]; [cbn in Hl; lia|]. apply Forall_cons in Hd as [Hc Hd]. cbn [app take_digits]. rewrite Hc.
    rewrite IH; [done|done|]. split; [cbn in Hl; lia|]. destruct Hor as [|]; [left; cbn in *; lia|by right].
Qed.
Lemma plus_no_digit radix : 8 <= radix <= 16 -> is_digit radix 43 = false.
Proof. done. Qed.
Lemma escape_number radix ds c : 8 <= radix <= 16 -> ds <> [] -> digits radix ds ->
  (parse_uint 32 radix ds ≫= char_from_u32) = Some c <-> digits_value radix ds = Some c /\ is_char c = true.
Proof.
  intros Hr Hn Hd. rewrite (numeric_number (is_digit radix)); [|by apply plus_no_digit|done]. tauto.
Qed.
Lemma or_else {A B} (o : option A) (f : A -> option B) e1 e2 b :
  (x ← ok_or o e1; ok_or (f x) e2) = Ok b <-> o ≫= f = Some b.
Proof. destruct o as [x|]; cbn; [|done]. destruct (f x); cbn; split; congruence. Qed.
Lemma octal_digit d : between 48 55 d = true -> is_digit 8 d = true.
Proof.
  unfold between. intros H. assert (d = 48 \/ d = 49 \/ d = 50 \/ d = 51 \/ d = 52 \/ d = 53 \/ d = 54 \/ d = 55) as D by lia.
  by repeat (destruct D as [-> |D]; [done|]); subst.
Qed.

Lemma escape_digits_ok s radix max seed c r : 8 <= radix <= 16 -> digits radix seed -> (length seed < max)%nat ->
  escape_digits s radix max seed = Ok (c, r) <->
  exists ds, s = ds ++ r /\ seed ++ ds <> [] /\ digits radix ds /\ ends_digits radix (max - length seed) ds r /\
    digits_value radix (seed ++ ds) = Some c /\ is_char c = true.
Proof.
  intros Hr Hs Hl. unfold escape_digits. split.
  - destruct (take_digits radix (max - length seed) s) as [ds r'] eqn:E. apply take_digits_spec in E as (-> & Hd & He).
    case_bool_decide as Hn; [done|]. intros H. apply result_bind_inv in H as (u & H1 & H). apply result_bind_inv in H as (c' & H2 & [= <- <-]).
    assert (P : parse_uint 32 radix (seed ++ ds) ≫= char_from_u32 = Some c').
    { apply ok_or_ok in H1 as ->. by apply ok_or_ok in H2. }
    apply escape_number in P as [Hv Hc]; [|done..|by apply Forall_app]. by exists ds.
  - intros (ds & -> & Hn & Hd & He & Hv & Hc). rewrite take_digits_app by done. rewrite bool_decide_eq_false_2 by done.
    assert (P : parse_uint 32 radix (seed ++ ds) ≫= char_from_u32 = Some c).
    { apply escape_number; [done..|by apply Forall_app|done]. }
    destruct (parse_uint 32 radix (seed ++ ds)) as [u|]; [|done]. cbn in P. cbn. by rewrite P.
Qed.
Lemma numeric_escape_inv e radix max seed : numeric_escape e = Some (radix, max, seed) ->
  (e = 120 /\ radix = 16 /\ max = 4%nat /\ seed = []) \/ (between 48 55 e = true /\ radix = 8 /\ max = 3%nat /\ seed = [e]).
Proof.
  unfold numeric_escape. destruct (Z.eqb_spec e 120); [intros [= <- <- <-]; by left|].
  destruct (between 48 55 e) eqn:E; [|done]. intros [= <- <- <-]. by right.
Qed.
(** A letter with a meaning of its own begins no number. *)
Lemma plain_not_numeric e p : plain_escape e = Some p -> e <> 120 /\ between 48 55 e = false.
Proof.
  intros H. split; [by intros ->|]. destruct (between 48 55 e) eqn:E; [|done]. unfold between in E.
  assert (e = 48 \/ e = 49 \/ e = 50 \/ e = 51 \/ e = 52 \/ e = 53 \/ e = 54 \/ e = 55) as D by lia.
  by repeat (destruct D as [-> |D]; [done|]); subst.
Qed.
Lemma digits_one d : between 48 55 d = true -> digits 8 [d].
Proof. intros H. constructor; [by apply octal_digit|by constructor]. Qed.

(** One turn of the loop reads one character. *)
Lemma loop_plain c s out fuel : c <> 92 -> unescape_loop (S fuel) (c :: s) out = unescape_loop fuel s (out ++ [c]).
Proof.
  intros Hc. cbn [unescape_loop]. destruct c as [|c|c]; try done. do 7 (destruct c as [c|c|]; try done).
Qed.
Lemma loop_reads s c r out fuel : Reads s c r -> unescape_loop (S fuel) s out = unescape_loop fuel r (out ++ [c]).
Proof.
  intros [c' s' Hc|e p s' Ep|ds c' s' Hn Hd He Hv Hc|d ds c' s' Hb Hd He Hv Hc]; [by apply loop_plain|..]; cbn [unescape_loop].
  - by rewrite Ep.
  - change (plain_escape 120) with (@None char). change (numeric_escape 120) with (Some (16, 4%nat, @nil Z)). cbv beta iota.
    rewrite (proj2 (escape_digits_ok (ds ++ s') 16 4 [] c' s' ltac:(lia) ltac:(by constructor) ltac:(cbn; lia))); [done|by exists ds].
  - destruct (plain_escape d) as [p|] eqn:Ep; [apply plain_not_numeric in Ep as [_ Ep]; congruence|].
    unfold numeric_escape. destruct (Z.eqb_spec d 120) as [->|]; [done|]. rewrite Hb.
    rewrite (proj2 (escape_digits_ok (ds ++ s') 8 3 [d] c' s' ltac:(lia) (digits_one d Hb) ltac:(cbn; lia))); [done|by exists ds].
Qed.
Lemma loop_read s out fuel t : s <> [] -> unescape_loop (S fuel) s out = Ok t ->
  exists c r, Reads s c r /\ unescape_loop fuel r (out ++ [c]) = Ok t.
Proof.
  intros Hs. destruct s as [|c s]; [done|]. destruct (decide (c = 92)) as [->|Hc].
  2: { rewrite loop_plain by done. intros H. exists c, s. split; [by constructor|done]. }
  cbn [unescape_loop]. destruct s as [|e s]; [done|]. destruct (plain_escape e) as [p|] eqn:Ep.
  { intros H. exists p, s. split; [by constructor|done]. }
  destruct (numeric_escape e) as [[[radix max] seed]|] eqn:En; [|done].
  intros ([c r] & Hd & H)%result_bind_inv. exists c, r. split; [|done].
  apply numeric_escape_inv in En as [(-> & -> & -> & ->)|(Hb & -> & -> & ->)].
  - apply escape_digits_ok in Hd as (ds & -> & ? & ? & ? & ? & ?); [|done|by constructor|cbn; lia]. by apply Hexadecimal.
  - apply escape_digits_ok in Hd as (ds & -> & ? & ? & ? & ? & ?); [|done|by apply digits_one|cbn; lia]. by apply Octal.
Qed.
Lemma reads_shorter s c r : Reads s c r -> (length r < length s)%nat.
Proof. intros []; cbn; rewrite ?length_app; lia. Qed.

(** The text that is decoded, if one is, is the one its escapes mean; anything else is refused. *)
Theorem unescape_exact (s t : text) : unescape s = Ok t <-> Escaped s t.
Proof.
  unfold unescape.
  assert (G : forall fuel s out t, (length s <= fuel)%nat ->
    unescape_loop fuel s out = Ok t <-> exists u, t = out ++ u /\ Escaped s u).
  2: { rewrite (G (length s) s [] t) by done. split; [by intros (u & -> & H)|by exists t]. }
  clear. induction fuel as [|fuel IH]; intros s out t Hf; (destruct s as [|c s];
    [cbn; split; [intros [= <-]; exists []; rewrite app_nil_r; split; [done|constructor]|];
     intros (u & -> & H); inversion H as [|? ? ? ? Hr]; [by rewrite app_nil_r|by inversion Hr]|]); [cbn in Hf; lia|].
  split.
  - intros (c' & r & Hr & H)%loop_read; [|done]. pose proof (reads_shorter _ _ _ Hr). cbn in *.
    apply IH in H as (u & -> & H); [|lia]. exists (c' :: u). split; [by rewrite <- app_assoc|by econstructor].
  - intros (u & -> & H). inversion H as [|? c' r t' Hr H']; subst. pose proof (reads_shorter _ _ _ Hr). cbn in *.
    change (unescape_loop (S fuel) (c :: s) out = Ok (out ++ c' :: t')). rewrite (loop_reads _ _ _ _ _ Hr).
    apply IH; [lia|]. exists t'. by rewrite <- app_assoc.
Qed.

(** ** What wine writes is read back *)
(** As the head of the source file has it: letters for the control characters that have one,
    hexadecimal above ASCII, padded to four digits before a hexadecimal digit. *)
Definition letter_of (c : char) : option char :=
  match c with
  | 92 => Some 92 | 34 => Some 34 | 7 => Some 97 | 8 => Some 98 | 9 => Some 116 | 10 => Some 110
  | 11 => Some 118 | 12 => Some 102 | 13 => Some 114 | 27 => Some 101 | _ => None
  end.
Fixpoint hex_digits (k : nat) (n : Z) : text :=
  match k with O => [] | S k => hex_digits k (n / 16) ++ [hex_lower (n mod 16)] end.
Definition hex_width (c : Z) : nat := if c <? 0x100 then 2 else if c <? 0x1000 then 3 else 4.
Definition wine_char (c : char) (rest : text) : text :=
  match letter_of c with
  | Some e => [92; e]
  | None =>
      if c <? 128 then [c]
      else 92 :: 120 :: hex_digits (match rest with n :: _ => if is_digit 16 n then 4 else hex_width c | [] => hex_width c end) c
  end.
Fixpoint wine_escape (s : text) : text :=
  match s with [] => [] | c :: s => wine_char c s ++ wine_escape s end.
(** ASCII without the control characters that have no letter, and the plane of four digits. *)
Definition writable (c : char) : Prop := is_Some (letter_of c) \/ 32 <= c < 127 \/ 128 <= c < 0x10000 /\ is_char c = true.

Lemma to_digit_hex d : 0 <= d < 16 -> to_digit 16 (hex_lower d) = Some d /\ hex_lower d <> 34 /\ hex_lower d <> 92.
Proof.
  intros H. assert (d = 0 \/ d = 1 \/ d = 2 \/ d = 3 \/ d = 4 \/ d = 5 \/ d = 6 \/ d = 7 \/ d = 8 \/ d = 9 \/ d = 10 \/ d = 11 \/
    d = 12 \/ d = 13 \/ d = 14 \/ d = 15) as D by lia.
  by repeat (destruct D as [-> |D]; [done|]); subst.
Qed.
Lemma hex_digits_ok k n : 0 <= n < 16 ^ Z.of_nat k ->
  digits_value 16 (hex_digits k n) = Some n /\ digits 16 (hex_digits k n) /\ length (hex_digits k n) = k /\
  Forall (fun c => c <> 34 /\ c <> 92) (hex_digits k n).
Proof.
  revert n. induction k as [|k IH]; intros n Hn.
  { replace n with 0 by (cbn in Hn; lia). split_and!; [done|by constructor|done|by constructor]. }
  cbn [hex_digits]. rewrite Nat2Z.inj_succ, Z.pow_succ_r in Hn by lia.
  destruct (IH (n / 16)) as (Hv & Hd & Hl & Hq); [split; [apply Z.div_pos; lia|apply Z.div_lt_upper_bound; lia]|].
  pose proof (Z.mod_pos_bound n 16 eq_refl) as Hm. destruct (to_digit_hex (n mod 16) Hm) as (Ht & ? & ?).
  split_and!.
  - rewrite (digits_value_snoc _ _ _ _ _ Hv Ht). f_equal. pose proof (Z.div_mod n 16). lia.
  - apply Forall_app. split; [done|]. constructor; [|by constructor]. unfold is_digit. by rewrite Ht.
  - rewrite length_app, Hl. cbn. lia.
  - apply Forall_app. split; [done|]. by repeat constructor.
Qed.
Lemma letter_back c e : letter_of c = Some e -> plain_escape e = Some c.
Proof. unfold letter_of. intros H. repeat (case_match; try discriminate H); by injection H as <-. Qed.
Lemma wine_head c s : writable c -> is_digit 16 c = false -> match wine_escape (c :: s) with x :: _ => is_digit 16 x = false | [] => True end.
Proof.
  intros _ Hd. cbn [wine_escape]. unfold wine_char. destruct (letter_of c); [done|]. by destruct (c <? 128).
Qed.
Lemma wine_width c s : 128 <= c < 0x10000 ->
  let k := match s with n :: _ => if is_digit 16 n then 4%nat else hex_width c | [] => hex_width c end in
  c < 16 ^ Z.of_nat k /\ (1 <= k <= 4)%nat.
Proof.
  intros Hc. assert (H : forall k, (k = 4%nat \/ k = hex_width c) -> c < 16 ^ Z.of_nat k /\ (1 <= k <= 4)%nat).
  { intros k [-> | ->]; [cbn; lia|]. unfold hex_width.
    destruct (Z.ltb_spec c 0x100); [cbn; lia|]. destruct (Z.ltb_spec c 0x1000); cbn; lia. }
  apply H. destruct s as [|n s]; [by right|]. destruct (is_digit 16 n); [by left|by right].
Qed.

Lemma wine_reads c s : writable c -> Forall writable s -> Reads (wine_escape (c :: s)) c (wine_escape s).
Proof.
  intros Hc Hs. cbn [wine_escape]. unfold wine_char. destruct (letter_of c) as [e|] eqn:El.
  { by apply Letter, letter_back. }
  destruct Hc as [[? ?]|Hc]; [congruence|]. destruct (Z.ltb_spec c 128).
  { apply Itself. intros ->. done. }
  destruct Hc as [?|[Hr Hc]]; [lia|]. pose proof (wine_width c s Hr) as [Hk Hb].
  set (k := match s with n :: _ => if is_digit 16 n then 4%nat else hex_width c | [] => hex_width c end) in *.
  destruct (hex_digits_ok k c) as (Hv & Hd & Hl & _); [lia|].
  apply Hexadecimal; [by intros E; rewrite E in Hl; cbn in Hl; lia|done| |done|done].
  split; [lia|]. destruct s as [|n s]; [by right|]. subst k. destruct (is_digit 16 n) eqn:En; [left; lia|right].
  apply Forall_cons in Hs as [Hn _]. by apply wine_head.
Qed.
Lemma wine_unescaped s : Forall writable s -> Escaped (wine_escape s) s.
Proof. induction 1 as [|c s Hc Hs IH]; [constructor|]. econstructor; [by apply wine_reads|done]. Qed.

Lemma split_skips w s : Forall (fun c => c <> 34 /\ c <> 92) w ->
  split_unescaped id 34 false (w ++ s) = '(a, b) ← split_unescaped id 34 false s; Some (w ++ a, b).
Proof.
  induction 1 as [|c w [H1 H2] _ IH]; cbn [app]; [by destruct (split_unescaped id 34 false s) as [[]|]|].
  cbn [app split_unescaped]. change (id c) with c. rewrite (proj2 (Z.eqb_neq c 34)), (proj2 (Z.eqb_neq c 92)) by done.
  cbn [negb andb]. rewrite IH. by destruct (split_unescaped id 34 false s) as [[]|].
Qed.
Lemma split_escape e s :
  split_unescaped id 34 false (92 :: e :: s) = '(a, b) ← split_unescaped id 34 false s; Some (92 :: e :: a, b).
Proof.
  cbn [split_unescaped]. change (id 92 =? 34) with false. change (id 92 =? 92) with true. cbn [negb andb].
  by destruct (split_unescaped id 34 false s) as [[]|].
Qed.
Lemma split_wine s rest : Forall writable s -> split_unescaped id 34 false (wine_escape s ++ 34 :: rest) = Some (wine_escape s, rest).
Proof.
  induction 1 as [|c s Hc Hs IH]; [done|]. cbn [wine_escape]. rewrite <- app_assoc. unfold wine_char.
  destruct (letter_of c) as [e|] eqn:El; [cbn [app]; by rewrite split_escape, IH|].
  destruct Hc as [[? ?]|Hc]; [congruence|]. destruct (Z.ltb_spec c 128).
  { rewrite split_skips, IH; [done|]. repeat constructor; intros ->; done. }
  destruct Hc as [?|[Hr _]]; [lia|]. pose proof (wine_width c s Hr) as [Hk _].
  assert (Hpos : 0 <= c) by lia. destruct (hex_digits_ok _ c (conj Hpos Hk)) as (_ & _ & _ & Hq).
  rewrite <- !app_comm_cons, split_escape, split_skips by done. by rewrite IH.
Qed.
(** A path wine has written as a string value is read as that path. *)
Theorem what_wine_writes_is_read (s : text) :
  Forall writable s -> s <> [] -> Forall (fun c => is_control c = false) s ->
  read_assignment (61 :: 34 :: wine_escape s ++ [34]) = Text s.
Proof.
  intros Hw Hn Hc. unfold read_assignment, trim_ws. cbn [trim_start_by]. change (is_ascii_whitespace 61) with false.
  cbv iota. change (txt "=") with [61]. rewrite strip_one. cbn [trim_start_by]. change (is_ascii_whitespace 34) with false. cbv iota.
  rewrite strip_one. unfold read_string. rewrite split_wine by done. cbn [forallb negb].
  rewrite (proj2 (unescape_exact _ s)) by by apply wine_unescaped. rewrite bool_decide_eq_false_2 by done.
  apply existsb_none in Hc as Hc'. rewrite Hc'.
  replace (existsb _ s) with false; [done|]. symmetry. apply existsb_none. eapply Forall_impl; [exact Hc|].
  intros c H. cbn beta in *. unfold is_control, between in H. lia.
Qed.

(** ** What an answer says *)
(** The lines as they are read, and whether one is a header. *)
Definition as_read (raw : bytes) : bytes := trim_line (strip_return raw).
Definition header (l : bytes) : bool := starts_byte 91 l.
(** The line [l] at place [i] is a value line of the key: the header last before it names the
    key, or there is none before it and the reading began inside. *)
Definition in_key (key : text) (inside : bool) (ls : list bytes) (i : nat) (l : bytes) : Prop :=
  ls !! i = Some l /\ starts_byte 34 l = true /\
  ((inside = true /\ forall k l', (k < i)%nat -> ls !! k = Some l' -> header l' = false) \/
   exists j h, (j < i)%nat /\ ls !! j = Some h /\ header h = true /\ names_section key h = true /\
     forall k l', (j < k < i)%nat -> ls !! k = Some l' -> header l' = false).

Lemma in_key_zero key inside x ls l : in_key key inside (x :: ls) 0 l <-> l = x /\ starts_byte 34 x = true /\ inside = true.
Proof.
  unfold in_key. cbn. split.
  - intros ([= ->] & H & [[Hi _]|(j & h & Hj & _)]); [done|lia].
  - intros (-> & H & Hi). split_and!; [done..|]. left. split; [done|]. intros k l' Hk. lia.
Qed.
Lemma in_key_cons key inside x ls i l :
  in_key key inside (x :: ls) (S i) l <-> in_key key (if header x then names_section key x else inside) ls i l.
Proof.
  unfold in_key. cbn [base.lookup list_lookup]. apply and_iff_compat_l, and_iff_compat_l. split.
  - intros [[Hi H]|([|j] & h & Hj & Hl & Hh & Hn & H)].
    + rewrite (H 0%nat x) by (done || lia). left. split; [done|]. intros k l' Hk. apply (H (S k)). lia.
    + cbn in Hl. injection Hl as ->. rewrite Hh, Hn. left. split; [done|]. intros k l' Hk. apply (H (S k)). lia.
    + right. exists j, h. split_and!; [lia|done..|]. intros k l' Hk. apply (H (S k)). lia.
  - intros [[Hi H]|(j & h & Hj & Hl & Hh & Hn & H)].
    + destruct (header x) eqn:Hx.
      * right. exists 0%nat, x. split_and!; [lia|done..|]. intros [|k] l' Hk; [lia|]. apply H. lia.
      * left. split; [done|]. intros [|k] l' Hk; [by intros [= <-]|]. apply H. lia.
    + right. exists (S j), h. split_and!; [lia|done..|]. intros [|k] l' Hk; [lia|]. apply H. lia.
Qed.
Lemma not_both_quote_and_bracket x : starts_byte 34 x = true -> header x = false.
Proof. unfold header. destruct x as [|b x]; [done|]. cbn. intros ->%Z.eqb_eq. done. Qed.

Lemma read_string_not_absent body : read_string body <> Absent.
Proof. unfold read_string. repeat case_match; done. Qed.
Lemma read_assignment_not_absent rest : read_assignment rest <> Absent.
Proof. unfold read_assignment, unreadable_line. repeat (case_match; try done); apply read_string_not_absent. Qed.
Lemma value_line_not_absent v l : value_line v l <> Says Absent.
Proof. unfold value_line. repeat (case_match; try done). intros [= Ha]. by apply read_assignment_not_absent in Ha. Qed.

(** The value lines of the key, in order. *)
Fixpoint lines_in (key : text) (inside : bool) (ls : list bytes) : list bytes :=
  match ls with
  | [] => []
  | l :: ls =>
      if header l then lines_in key (names_section key l) ls
      else if inside && starts_byte 34 l then l :: lines_in key inside ls
      else lines_in key inside ls
  end.
Lemma lines_in_key key inside ls l : l ∈ lines_in key inside ls <-> exists i, in_key key inside ls i l.
Proof.
  revert inside. induction ls as [|x ls IH]; intros inside; cbn [lines_in].
  { rewrite elem_of_nil. split; [done|]. by intros (i & ? & _). }
  assert (H : (exists i, in_key key inside (x :: ls) i l) <->
    (l = x /\ starts_byte 34 x = true /\ inside = true) \/ exists i, in_key key (if header x then names_section key x else inside) ls i l).
  { split.
    - intros [[|i] Hi]; [left; by apply in_key_zero in Hi|right; exists i; by apply in_key_cons in Hi].
    - intros [Hi|[i Hi]]; [exists 0%nat; by apply in_key_zero|exists (S i); by apply in_key_cons]. }
  rewrite H. destruct (header x) eqn:Hh; [|destruct inside, (starts_byte 34 x) eqn:Hq; cbn [andb]]; rewrite ?elem_of_cons, IH.
  - split; [by right|]. intros [(_ & Hq & _)|]; [|done]. apply not_both_quote_and_bracket in Hq. congruence.
  - split; intros [|]; try (by right); left; [by split_and!|tauto].
  - split; [by right|]. intros [(_ & ? & _)|]; done.
  - split; [by right|]. intros [(_ & _ & ?)|]; done.
  - split; [by right|]. intros [(_ & _ & ?)|]; done.
Qed.

(** What the lines say together. *)
Fixpoint verdict (said : list Line) (found : option Lookup) : Lookup :=
  match said with
  | [] => default Absent found
  | Other :: said => verdict said found
  | Says a :: said => verdict said (Some a)
  | Stop why :: _ => Rejected why
  end.
Lemma lookup_lines_verdict key v raws inside found :
  lookup_lines key v raws inside found = verdict (value_line v <$> lines_in key inside (as_read <$> raws)) found.
Proof.
  revert inside found. induction raws as [|raw raws IH]; intros inside found; [done|].
  cbn [lookup_lines fmap list_fmap lines_in]. fold (as_read raw). fold (header (as_read raw)).
  destruct (header (as_read raw)); [by rewrite IH|]. destruct inside, (starts_byte 34 (as_read raw)); cbn [negb orb andb]; try apply IH.
  cbn [fmap list_fmap verdict]. by destruct (value_line v (as_read raw)).
Qed.
Definition readable_line (s : Line) : Prop := match s with Stop _ => False | _ => True end.
Lemma verdict_absent said found : Forall (fun s => s <> Says Absent) said ->
  verdict said found = Absent <-> default Absent found = Absent /\ Forall (fun s => s = Other) said.
Proof.
  intros H. revert found. induction H as [|s said Hs _ IH]; intros found; cbn [verdict]; [rewrite Forall_nil; tauto|].
  rewrite Forall_cons. destruct s as [|a|why]; [rewrite IH; tauto|rewrite IH; cbn|].
  - split; [intros [-> _]; done|by intros (_ & ? & _)].
  - split; [done|by intros (_ & ? & _)].
Qed.
Lemma verdict_text said found t :
  verdict said found = Text t <->
  Forall readable_line said /\
  ((found = Some (Text t) /\ Forall (fun s => s = Other) said) \/
   exists front back, said = front ++ Says (Text t) :: back /\ Forall (fun s => s = Other) back).
Proof.
  revert found. induction said as [|s said IH]; intros found; cbn [verdict].
  { split.
    - destruct found as [a|]; [|done]. cbn. intros ->. split; [by constructor|left; by split].
    - intros (_ & [[-> _]|(front & back & E & _)]); [done|by destruct front]. }
  assert (Hx : forall s : Line, (exists front back, s :: said = front ++ Says (Text t) :: back /\ Forall (fun s => s = Other) back) <->
    (s = Says (Text t) /\ Forall (fun s => s = Other) said) \/
    exists front back, said = front ++ Says (Text t) :: back /\ Forall (fun s => s = Other) back).
  { intros s'. split.
    - intros ([|x front] & back & [= -> ->] & Hb); [by left|right; by exists front, back].
    - intros [[-> H]|(front & back & -> & Hb)]; [by exists [], said|by exists (s' :: front), back]. }
  rewrite Forall_cons, Hx, Forall_cons. destruct s as [|a|why]; cbn [readable_line]; rewrite ?IH.
  - split; [intros (? & [[? ?]|?])|intros ([_ ?] & [[? [_ ?]]|[[? _]|?]])]; try done; (split; [done|]); [by left|right; by right|by left|by right].
  - split.
    + intros (Hr & [[Ha Ho]|He]); (split; [done|right]); [left; by split; [congruence|]|by right].
    + intros ([_ Hr] & [[_ [? _]]|[[Ha Ho]|He]]); [done|..]; (split; [done|]); [left; by split; [congruence|]|by right].
  - split; [done|]. by intros ([? _] & _).
Qed.

Definition has_header (b : bytes) : Prop := strip_return (default [] (head (split_lines b))) = utf8_encode FILE_HEADER.
(** Of a file wine loads: a value is absent exactly when no line of the key could be of that
    name; and it is a text exactly when the name of every line of the key can be read and
    the last line of that name holds that text. Of any other file nothing is said. *)
Theorem registry_answers (b : bytes) (key v : text) :
  let said := value_line v <$> lines_in key false (as_read <$> split_lines b) in
  (lookup b key v = Absent <-> has_header b /\ Forall (fun s => s = Other) said) /\
  (forall t, lookup b key v = Text t <-> has_header b /\ Forall readable_line said /\
     exists front back, said = front ++ Says (Text t) :: back /\ Forall (fun s => s = Other) back).
Proof.
  intros said. unfold lookup, has_header. case_bool_decide as Hh; cbn [negb].
  2: { split; [split; [done|by intros [? _]]|]. intros t. split; [done|by intros [? _]]. }
  rewrite lookup_lines_verdict. fold said. split.
  - rewrite verdict_absent; [cbn; tauto|]. apply Forall_fmap, Forall_forall. intros l _. apply value_line_not_absent.
  - intros t. rewrite verdict_text. split; [intros (? & [[? _]|?]); done|]. intros (_ & ? & ?). split; [done|by right].
Qed.

Definition reg_line (s : text) : bytes := utf8_encode (s ++ [10]).
Definition quoted_line (n v : text) : bytes := reg_line (34 :: n ++ 34 :: 61 :: 34 :: v ++ [34]).
Definition sample_registry : bytes :=
  reg_line FILE_HEADER ++ reg_line [] ++ reg_line (txt "[Software\\Freetrack\\FreeTrackClient] 1790444400") ++
  quoted_line (txt "Path") (txt "C:\\old") ++ reg_line (txt "[Software\\Other] 1") ++ quoted_line (txt "Path") (txt "no") ++
  reg_line (txt "  [software\\freetrack\\FREETRACKCLIENT\\] 2") ++ quoted_line (txt "P\x0061th") (txt "C:\\\x00fcab").
Example last_one_counts : lookup sample_registry FREETRACK_KEY PATH_VALUE = Text (txt "C:\üab").
Proof. vm_compute. reflexivity. Qed.
Example nothing_there : lookup sample_registry NPCLIENT_KEY PATH_VALUE = Absent.
Proof. vm_compute. reflexivity. Qed.
Lemma what_wine_writes_is_read_witness : read_assignment (61 :: 34 :: wine_escape (txt "C:\üab") ++ [34]) = Text (txt "C:\üab").
Proof.
  apply (what_wine_writes_is_read (txt "C:\üab")); [|done|repeat constructor].
  change (txt "C:\üab") with [67; 58; 92; 252; 97; 98].
  repeat (apply Forall_cons_2; [first [by left; eexists|right; left; lia|right; right; split; [lia|done]]|]).
  apply Forall_nil_2.
Defined.
