(* ===== verification/Steam.v ===== *)
(** * Steam: which games are installed, and where (crates/tobii-steam/src/lib.rs)

    Libraries from Steam's own files, the manifests in them collapsed to one row per app id,
    the prefix of a game, and what a name picks out. [installed_once] is what the collapse
    does to every list of manifests; [libraries_accounted] that a path the files name is
    either among the libraries or among those reported missing. The file system is a set of
    arguments, and so are the Unicode tables behind [to_lowercase] and [is_alphanumeric]. *)
From S2P Require Import Prelude Text Paths Order.

Definition STEAM_ROOTS : list text :=
  [txt ".steam/steam"; txt ".local/share/Steam"; txt ".steam/root"; txt ".var/app/com.valvesoftware.Steam/data/Steam"].
Record App := { appid : text; name : text; buildid : option text }.
#[export] Instance app_eq_dec : EqDecision App. Proof. solve_decision. Defined.


(** The value of a ["key"    "value"] line. *)
Definition vdf_value (line key : text) : option text :=
  rest ← strip_prefix [34] (trim line);
  rest ← strip_prefix key rest;
  rest ← strip_prefix [34] rest;
  head (split_char 34 (trim_start_by (Z.eqb 34) (trim rest))).

Lemma sorted_weaken {A} (R R' : A -> A -> Prop) l : (forall a b, R a b -> R' a b) -> StronglySorted R l -> StronglySorted R' l.
Proof.
  intros H. induction 1 as [|x l _ IH Hx]; constructor; [done|]. eapply Forall_impl; [exact Hx|]. intros y. apply H.
Qed.

Section Steam.
Context (is_dir is_file : text -> bool) (canonicalize : text -> option text).
(** [None] is a directory or a file that cannot be read. *)
Context (read_dir : text -> option (list text)) (read_to_string : text -> option text).
Context (to_lowercase : text -> text) (is_alphanumeric : char -> bool).

(** ** Libraries *)
(** Paths are equal when their components are. *)
Definition same_path (a b : text) : bool := bool_decide (components a = components b).
Definition lists (out : list text) (p : text) : bool := existsb (same_path p) out.
(** The libraries, and whether [path] is one. *)
Definition push_library (out : list text) (path : text) : list text * bool :=
  if negb (is_dir (path_join path (txt "steamapps"))) then (out, false)
  else let real := default path (canonicalize path) in
       (if lists out real then out else out ++ [real], true).
Fixpoint replace_slashes (s : text) : text :=
  match s with
  | 92 :: 92 :: r => 47 :: replace_slashes r
  | c :: r => c :: replace_slashes r
  | [] => []
  end.
(** A path a library file names: found, or missing. *)
Definition note_path (state : list text * list text) (line : text) : list text * list text :=
  let '(found, missing) := state in
  match vdf_value line (txt "path") with
  | None => (found, missing)
  | Some p =>
      let path := replace_slashes p in
      let '(found, is_library) := push_library found path in
      (found, if negb is_library && negb (lists missing path) then missing ++ [path] else missing)
  end.
Definition scan_root (home : text) (state : list text * list text) (root : text) : list text * list text :=
  let root := path_join home root in
  let s := default [] (read_to_string (path_join root (txt "steamapps/libraryfolders.vdf"))) in
  let '(found, missing) := foldl note_path state (lines s) in
  ((push_library found root).1, missing).
Definition scan (home : text) : list text * list text := foldl (scan_root home) ([], []) STEAM_ROOTS.

(** ** Manifests *)
Definition field (s key : text) : option text := head (omap (fun l => vdf_value l key) (lines s)).
Definition manifest (s : text) : option App :=
  id ← field s (txt "appid");
  n ← field s (txt "name");
  Some {| appid := id; name := n; buildid := field s (txt "buildid") |}.
Definition is_manifest (file : text) : bool := starts_with (txt "appmanifest_") file && ends_with (txt ".acf") file.
Definition manifests_of (lib : text) : list App :=
  let dir := path_join lib (txt "steamapps") in
  omap (fun file => if is_manifest file then s ← read_to_string (path_join dir file); manifest s else None)
    (default [] (read_dir dir)).

(** [dedup_by]: each is compared with the last kept, which the comparison may change. *)
Fixpoint dedup_from {A} (merge : A -> A -> option A) (kept : A) (l : list A) : list A :=
  match l with
  | [] => [kept]
  | x :: l => match merge kept x with Some k => dedup_from merge k l | None => kept :: dedup_from merge x l end
  end.
Definition dedup_by {A} (merge : A -> A -> option A) (l : list A) : list A :=
  match l with [] => [] | x :: l => dedup_from merge x l end.

Definition agreed (kept dropped : App) : option text := if decide (buildid dropped = buildid kept) then buildid kept else None.
(** Copies under one name, and then under several. *)
Definition join_copies (kept dropped : App) : App := {| appid := appid kept; name := name kept; buildid := agreed kept dropped |}.
Definition join_names (kept dropped : App) : App :=
  {| appid := appid kept; name := name kept ++ txt " / " ++ name dropped; buildid := agreed kept dropped |}.
Definition same_row (kept dropped : App) : option App :=
  if decide (appid dropped = appid kept /\ name dropped = name kept) then Some (join_copies kept dropped) else None.
Definition same_app (kept dropped : App) : option App :=
  if decide (appid dropped = appid kept) then Some (join_names kept dropped) else None.
Definition id_cmp : App -> App -> comparison := cmp_by appid text_cmp.
Definition name_cmp : text -> text -> comparison := cmp_both (cmp_by to_lowercase text_cmp) text_cmp.
Definition app_cmp : App -> App -> comparison := cmp_both id_cmp (cmp_by name name_cmp).
Definition collapse (l : list App) : list App := dedup_by same_app (dedup_by same_row (sort_by (not_after app_cmp) l)).
Definition apps_in (libraries : list text) : list App := collapse (libraries ≫= manifests_of).

(** ** Prefixes *)
Definition prefix_at (lib id : text) : text := path_join (path_join (path_join lib (txt "steamapps/compatdata")) id) (txt "pfx").
Definition holds_manifest (id lib : text) : bool :=
  is_file (path_join lib (txt "steamapps/appmanifest_" ++ id ++ txt ".acf")).
(** The place of the first library that holds the manifest. *)
Definition owner_of (libraries : list text) (id : text) : option nat := fst <$> list_find (fun l => holds_manifest id l = true) libraries.
Definition prefix_candidates (libraries : list text) (id : text) : list text :=
  let owner := owner_of libraries id in
  let order := option_list owner ++ base.filter (fun i => Some i <> owner) (seq 0 (length libraries)) in
  (fun lib => prefix_at lib id) <$> omap (fun i => libraries !! i) order.
Definition has_drive (p : text) : bool := is_dir (path_join p (txt "drive_c")).
Definition prefixes (libraries : list text) (id : text) : list text :=
  base.filter (fun p => has_drive p = true) (prefix_candidates libraries id).
Definition prefix (libraries : list text) (id : text) : option text := find has_drive (prefix_candidates libraries id).

(** ** What a name picks out *)
Definition MARKS : list text := [txt "Proton"; txt "Steam Linux Runtime"; txt "Steamworks Common Redistributables"; txt "Steam Runtime"].
Definition looks_like_tool (n : text) : bool :=
  existsb (fun m => match strip_prefix m n with
                    | Some (c :: _) => negb (is_alphanumeric c)
                    | Some [] => true
                    | None => false
                    end) MARKS.
Inductive Match := NoMatch | One (a : App) | Many (l : list App).
Definition resolve (apps : list App) (wanted : text) : Match :=
  if negb (bool_decide (wanted = [])) && forallb is_ascii_digit wanted then
    match find (fun a => text_eqb (appid a) wanted) apps with Some a => One a | None => NoMatch end
  else
    match base.filter (fun a => contains (to_lowercase wanted) (to_lowercase (name a)) = true) apps with
    | [] => NoMatch
    | [a] => One a
    | hits => Many hits
    end.

(** ** The collapse *)
Section Dedup.
Context {A : Type} (cmp : A -> A -> comparison) `{!Comparison cmp} (merge : A -> A -> option A) (comb : A -> A -> A).
Context (merge_spec : forall k x, merge k x = match cmp x k with Eq => Some (comb k x) | _ => None end).
Context (comb_same : forall k x, cmp x k = Eq -> cmp (comb k x) k = Eq).

Abbreviation alike x := (base.filter (fun y => cmp y x = Eq)).
Abbreviation unlike x := (base.filter (fun y => cmp y x <> Eq)).
Lemma alike_none x l : Forall (fun y => cmp x y = Lt) l -> alike x l = [] /\ unlike x l = l.
Proof.
  induction 1 as [|y l Hy _ [IH1 IH2]]; [done|]. rewrite !filter_cons.
  assert (E : cmp y x = Gt) by (rewrite (cmp_opp (cmp := cmp) x y), Hy; done).
  rewrite decide_False, decide_True by congruence. split; [done|by f_equal].
Qed.
(** The first is merged with all that are like it, and the rest goes on without them. *)
Lemma dedup_from_alike kept l : StronglySorted (fun a b => cmp a b <> Gt) (kept :: l) ->
  dedup_from merge kept l = foldl comb kept (alike kept l) :: dedup_by merge (unlike kept l).
Proof.
  revert kept. induction l as [|x l IH]; intros kept H; [done|].
  apply StronglySorted_inv in H as [Hl Hk]. apply Forall_cons in Hk as [Hx Hk]. cbn [dedup_from]. rewrite merge_spec, !filter_cons.
  rewrite (cmp_opp (cmp := cmp) kept x). destruct (cmp kept x) eqn:E; [| |done]; cbn [CompOpp].
  - rewrite decide_True, decide_False by (rewrite ?not_eq; tauto || done).
    assert (Ec : cmp (comb kept x) kept = Eq).
    { apply comb_same. by rewrite (cmp_opp (cmp := cmp) kept x), E. }
    rewrite IH.
    + cbn [foldl]. f_equal; f_equal; apply list_filter_iff; intros y; by rewrite (cmp_eq_right cmp _ _ y Ec).
    + apply StronglySorted_inv in Hl as [Hl Hxl]. constructor; [done|]. eapply Forall_impl; [exact Hk|].
      intros y Hy. by rewrite (cmp_eq_left (cmp := cmp) _ _ y Ec).
  - rewrite decide_False, decide_True by done.
    assert (Hall : Forall (fun y => cmp kept y = Lt) l).
    { apply StronglySorted_inv in Hl as [_ Hxl]. eapply Forall_impl; [exact Hxl|]. intros y Hy. cbn beta in Hy.
      destruct (cmp x y) eqn:E2; [by rewrite <- (cmp_eq_right cmp _ _ kept E2)|by apply (cmp_lt_trans (cmp := cmp) _ _ _ E)|done]. }
    destruct (alike_none kept l Hall) as [-> ->]. done.
Qed.
Lemma foldl_alike k l : Forall (fun y => cmp y k = Eq) l -> cmp (foldl comb k l) k = Eq.
Proof.
  intros H. induction l as [|x l IH] using rev_ind; [apply (cmp_refl cmp)|]. rewrite foldl_snoc.
  apply Forall_app in H as [H [Hx _]%Forall_cons]. specialize (IH H).
  assert (Ex : cmp x (foldl comb k l) = Eq) by (rewrite (cmp_opp (cmp := cmp) (foldl comb k l) x), (cmp_eq_left (cmp := cmp) _ _ x IH), (cmp_opp (cmp := cmp) x k), Hx; done).
  rewrite (cmp_eq_left (cmp := cmp) _ _ k (comb_same _ _ Ex)). done.
Qed.
Lemma sorted_filter (P : A -> Prop) `{!forall x, Decision (P x)} (R : A -> A -> Prop) l : StronglySorted R l -> StronglySorted R (base.filter P l).
Proof.
  induction 1 as [|x l _ IH Hf]; [constructor|]. rewrite filter_cons. destruct (decide (P x)); [|done].
  constructor; [done|]. apply Forall_forall. intros y [_ Hy]%list_elem_of_filter. by apply (proj1 (Forall_forall _ _) Hf).
Qed.
(** Of a sorted list: each result is what all that are like it are merged to, first to last;
    all are in some result; and the results are strictly sorted. *)
Lemma dedup_spec l : StronglySorted (fun a b => cmp a b <> Gt) l ->
  (forall r, r ∈ dedup_by merge l -> exists x rest, alike r l = x :: rest /\ r = foldl comb x rest) /\
  (forall x, x ∈ l -> exists r, r ∈ dedup_by merge l /\ cmp x r = Eq) /\
  StronglySorted (fun a b => cmp a b = Lt) (dedup_by merge l).
Proof.
  induction l as [[|k t] IH] using (induction_ltof1 _ (@length A)); intros H.
  { cbn. split_and!; [by intros r ?%elem_of_nil|by intros x ?%elem_of_nil|constructor]. }
  cbn [dedup_by]. rewrite dedup_from_alike by done. apply StronglySorted_inv in H as [Ht Hk].
  destruct (IH (unlike k t)) as (Ha & Hb & Hc); [unfold ltof; cbn; pose proof (length_filter (fun y => cmp y k <> Eq) t); lia|by apply sorted_filter|].
  set (r0 := foldl comb k (alike k t)).
  assert (E0 : cmp r0 k = Eq) by (apply foldl_alike, Forall_forall; by intros y [? _]%list_elem_of_filter).
  assert (Hun : forall r, r ∈ dedup_by merge (unlike k t) -> exists x, x ∈ t /\ cmp x r = Eq /\ cmp k x = Lt).
  { intros r Hr. destruct (Ha r Hr) as (x & rest & Ex & _).
    assert (Hx : x ∈ alike r (unlike k t)) by (rewrite Ex; apply list_elem_of_here).
    apply list_elem_of_filter in Hx as [Exr [Hxk Hxt]%list_elem_of_filter]. exists x. split_and!; [done..|].
    pose proof (proj1 (Forall_forall _ _) Hk x Hxt) as Hkx. cbn beta in Hkx.
    destruct (cmp k x) eqn:E; [|done|done]. rewrite (cmp_opp (cmp := cmp) k x), E in Hxk. done. }
  split_and!.
  - intros r [->|Hr]%elem_of_cons.
    + exists k, (alike k t). split; [|done]. rewrite filter_cons. rewrite decide_True.
      * f_equal. apply list_filter_iff. intros y. by rewrite (cmp_eq_right cmp _ _ y E0).
      * by rewrite (cmp_opp (cmp := cmp) r0 k), E0.
    + destruct (Hun r Hr) as (z & Hz & Ezr & Hkz). destruct (Ha r Hr) as (x & rest & Ex & Er).
      exists x, rest. split; [|done]. rewrite <- Ex. rewrite filter_cons, decide_False.
      * rewrite list_filter_filter. apply list_filter_iff. intros y. split; [|by intros [? _]]. intros Ey. split; [done|].
        intros Eyk. rewrite (cmp_eq_left (cmp := cmp) _ _ r Eyk) in Ey. rewrite <- (cmp_eq_right cmp _ _ k Ezr) in Ey. congruence.
      * rewrite <- (cmp_eq_right cmp _ _ k Ezr). congruence.
  - intros x [->|Hx]%elem_of_cons.
    + exists r0. split; [apply list_elem_of_here|]. by rewrite (cmp_opp (cmp := cmp) r0 k), E0.
    + destruct (decide (cmp x k = Eq)) as [E|E].
      * exists r0. split; [apply list_elem_of_here|]. by rewrite (cmp_eq_right cmp _ _ x E0).
      * destruct (Hb x) as (r & Hr & Er); [by apply list_elem_of_filter|]. exists r. split; [by apply list_elem_of_further|done].
  - constructor; [done|]. apply Forall_forall. intros r Hr. destruct (Hun r Hr) as (z & _ & Ezr & Hkz).
    rewrite (cmp_eq_left (cmp := cmp) _ _ r E0). by rewrite <- (cmp_eq_right cmp _ _ k Ezr).
Qed.
End Dedup.

#[local] Instance name_comparison : Comparison name_cmp.
Proof. unfold name_cmp. apply _. Qed.
#[local] Instance id_comparison : Comparison id_cmp.
Proof. unfold id_cmp. apply _. Qed.
#[local] Instance app_comparison : Comparison app_cmp.
Proof. unfold app_cmp. apply _. Qed.
Lemma id_cmp_eq a b : id_cmp a b = Eq <-> appid a = appid b.
Proof. unfold id_cmp, cmp_by. split; [apply text_cmp_eq|intros ->; apply text_cmp_refl]. Qed.
Lemma name_cmp_eq m n : name_cmp m n = Eq -> m = n.
Proof. unfold name_cmp, cmp_both, then_cmp. destruct (cmp_by to_lowercase text_cmp m n); [apply text_cmp_eq|done|done]. Qed.
Lemma app_cmp_eq a b : app_cmp a b = Eq <-> appid a = appid b /\ name a = name b.
Proof.
  unfold app_cmp, cmp_both, then_cmp. destruct (id_cmp a b) eqn:E.
  - apply id_cmp_eq in E. split; [intros H; split; [done|by apply name_cmp_eq]|]. intros [_ H]. unfold cmp_by. rewrite H. apply (cmp_refl name_cmp).
  - split; [done|]. intros [H%id_cmp_eq _]. congruence.
  - split; [done|]. intros [H%id_cmp_eq _]. congruence.
Qed.
Lemma same_row_spec k x : same_row k x = match app_cmp x k with Eq => Some (join_copies k x) | _ => None end.
Proof.
  unfold same_row. pose proof (app_cmp_eq x k) as H. case_decide as D; [by rewrite (proj2 H D)|].
  destruct (app_cmp x k); [by destruct D; apply H|done|done].
Qed.
Lemma same_app_spec k x : same_app k x = match id_cmp x k with Eq => Some (join_names k x) | _ => None end.
Proof.
  unfold same_app. pose proof (id_cmp_eq x k) as H. case_decide as D; [by rewrite (proj2 H D)|].
  destruct (id_cmp x k); [by destruct D; apply H|done|done].
Qed.
Lemma join_copies_same k x : app_cmp x k = Eq -> app_cmp (join_copies k x) k = Eq.
Proof. intros _. by apply app_cmp_eq. Qed.
Lemma join_names_same k x : id_cmp x k = Eq -> id_cmp (join_names k x) k = Eq.
Proof. intros _. by apply id_cmp_eq. Qed.

(** A merged row names a build exactly when every copy names it. *)
Lemma merged_build (comb : App -> App -> App) x rest b : (forall k d, buildid (comb k d) = agreed k d) ->
  buildid (foldl comb x rest) = Some b <-> forall c, c ∈ x :: rest -> buildid c = Some b.
Proof.
  intros Hc. induction rest as [|d rest IH] using rev_ind.
  - cbn. split; [intros H c ->%list_elem_of_singleton; done|]. intros H. apply H, list_elem_of_here.
  - rewrite foldl_snoc, Hc. unfold agreed. split.
    + case_decide as D; [|done]. intros H c. rewrite app_comm_cons, elem_of_app, list_elem_of_singleton. rewrite H in D.
      intros [Hin| ->]; [by apply IH|done].
    + intros H. assert (H1 : buildid (foldl comb x rest) = Some b).
      { apply IH. intros c Hin. apply H. rewrite app_comm_cons, elem_of_app. by left. }
      rewrite H1, H by (rewrite app_comm_cons, elem_of_app, list_elem_of_singleton; by right). by rewrite decide_True.
Qed.
Lemma copies_keep x rest : appid (foldl join_copies x rest) = appid x /\ name (foldl join_copies x rest) = name x.
Proof. revert x. induction rest as [|d rest IH]; intros x; [done|]. cbn [foldl]. by destruct (IH (join_copies x d)) as [-> ->]. Qed.
Lemma names_joined x rest : name (foldl join_names x rest) = join (txt " / ") (name <$> x :: rest).
Proof.
  revert x. induction rest as [|d rest IH]; intros x; [done|]. cbn [foldl]. rewrite IH. cbn [fmap list_fmap join_names name].
  destruct rest as [|e rest]; [done|]. cbn [fmap list_fmap join]. by rewrite <- !app_assoc.
Qed.
Lemma app_not_after_id a b : app_cmp a b <> Gt -> id_cmp a b <> Gt.
Proof. unfold app_cmp, cmp_both, then_cmp. by destruct (id_cmp a b). Qed.
Lemma sorted_apps l : StronglySorted (fun a b => app_cmp a b <> Gt) (sort_by (not_after app_cmp) l).
Proof.
  assert (H : StronglySorted (ordered (not_after app_cmp)) (sort_by (not_after app_cmp) l)).
  { apply Sorted_StronglySorted.
    - intros a b c. unfold ordered. rewrite !not_after_iff. apply (cmp_le_trans app_cmp).
    - apply sort_by_sorted. intros a b. unfold not_after. rewrite (cmp_opp (cmp := app_cmp) a b). by destruct (app_cmp a b). }
  eapply sorted_weaken; [|exact H]. intros a b. unfold ordered. by rewrite not_after_iff.
Qed.

(** The two passes together, over the manifests of a machine. *)
Lemma rows_of l :
  let sorted := sort_by (not_after app_cmp) l in let once := dedup_by same_row sorted in
  (forall y, y ∈ once -> exists c rest, base.filter (fun c => app_cmp c y = Eq) sorted = c :: rest /\ y = foldl join_copies c rest) /\
  (forall c, c ∈ l -> exists y, y ∈ once /\ appid c = appid y /\ name c = name y) /\
  StronglySorted (fun a b => app_cmp a b = Lt) once /\
  (forall r, r ∈ collapse l -> exists y rest, base.filter (fun y => id_cmp y r = Eq) once = y :: rest /\ r = foldl join_names y rest) /\
  (forall y, y ∈ once -> exists r, r ∈ collapse l /\ appid y = appid r) /\
  StronglySorted (fun a b => id_cmp a b = Lt) (collapse l).
Proof.
  intros sorted once.
  destruct (dedup_spec app_cmp same_row join_copies same_row_spec join_copies_same sorted (sorted_apps l)) as (H1 & H2 & H3).
  fold once in H1, H2, H3.
  assert (Hs : StronglySorted (fun a b => id_cmp a b <> Gt) once).
  { eapply sorted_weaken; [|exact H3]. intros a b H. apply app_not_after_id. by rewrite H. }
  destruct (dedup_spec id_cmp same_app join_names same_app_spec join_names_same once Hs) as (H4 & H5 & H6).
  split_and!; [done| |done|done| |done].
  - intros c Hc. destruct (H2 c) as (y & Hy & E%app_cmp_eq); [by unfold sorted; rewrite sort_by_perm|]. by exists y.
  - intros y Hy. destruct (H5 y Hy) as (r & Hr & E%id_cmp_eq). by exists r.
Qed.
Lemma row_copies l y : y ∈ dedup_by same_row (sort_by (not_after app_cmp) l) ->
  (exists c, c ∈ l /\ appid c = appid y /\ name c = name y) /\
  forall b, buildid y = Some b <-> forall c, c ∈ l -> appid c = appid y -> name c = name y -> buildid c = Some b.
Proof.
  destruct (rows_of l) as (H1 & _). intros Hy. destruct (H1 y Hy) as (c0 & rest & Ef & Ey).
  assert (Hin : forall c, c ∈ c0 :: rest <-> c ∈ l /\ appid c = appid y /\ name c = name y).
  { intros c. rewrite <- Ef, list_elem_of_filter, app_cmp_eq, sort_by_perm. tauto. }
  split; [exists c0; apply Hin, list_elem_of_here|].
  intros b. rewrite Ey at 1. rewrite merged_build by done. split.
  - intros H c Hc Hi Hn. by apply H, Hin.
  - intros H c (Hc & Hi & Hn)%Hin. by apply H.
Qed.

Lemma sorted_unique (R : App -> App -> Prop) (f : App -> text) l : (forall a b, R a b -> f a <> f b) ->
  StronglySorted R l -> NoDup (f <$> l).
Proof.
  intros HR. induction 1 as [|x l _ IH Hx]; [apply NoDup_nil_2|]. apply NoDup_cons. split; [|done].
  intros (y & E & Hy)%list_elem_of_fmap. exact (HR x y (proj1 (Forall_forall _ _) Hx y Hy) E).
Qed.
Lemma sorted_fmap {A B} (f : A -> B) (R : A -> A -> Prop) (R' : B -> B -> Prop) l :
  (forall a b, a ∈ l -> b ∈ l -> R a b -> R' (f a) (f b)) -> StronglySorted R l -> StronglySorted R' (f <$> l).
Proof.
  intros H Hs. induction Hs as [|x l _ IH Hx]; [constructor|]. cbn. constructor.
  - apply IH. intros a b Ha Hb. apply H; by apply list_elem_of_further.
  - apply Forall_fmap, Forall_forall. intros y Hy. apply H; [apply list_elem_of_here|by apply list_elem_of_further|].
    by apply (proj1 (Forall_forall _ _) Hx).
Qed.

(** However many copies of a title a machine holds, the list has one row for it, in the order
    of the app ids: its build is the one every copy is at, or none; its name is every name a
    copy has, each once, in alphabetical order. No title is lost and none invented. *)
Theorem installed_once (l : list App) :
  NoDup (appid <$> collapse l) /\
  StronglySorted (fun a b => text_cmp (appid a) (appid b) = Lt) (collapse l) /\
  (forall id, id ∈ appid <$> collapse l <-> id ∈ appid <$> l) /\
  forall r, r ∈ collapse l ->
    (forall b, buildid r = Some b <-> forall c, c ∈ l -> appid c = appid r -> buildid c = Some b) /\
    exists names, name r = join (txt " / ") names /\ StronglySorted (fun m n => name_cmp m n = Lt) names /\
      forall n, n ∈ names <-> exists c, c ∈ l /\ appid c = appid r /\ name c = n.
Proof using Type.
  destruct (rows_of l) as (_ & H2 & H3 & H4 & H5 & H6). pose proof (row_copies l) as Hrow.
  set (once := dedup_by same_row (sort_by (not_after app_cmp) l)) in *.
  assert (Hin : forall r, r ∈ collapse l -> forall y, y ∈ base.filter (fun y => id_cmp y r = Eq) once <-> y ∈ once /\ appid y = appid r).
  { intros r _ y. rewrite list_elem_of_filter, id_cmp_eq. tauto. }
  split_and!.
  - eapply sorted_unique; [|exact H6]. intros a b H E. apply id_cmp_eq in E. congruence.
  - exact H6.
  - intros id. split; intros (r & -> & Hr)%list_elem_of_fmap.
    + destruct (H4 r Hr) as (y & rest & Ef & _).
      assert (Hy : y ∈ once /\ appid y = appid r) by (apply (Hin r Hr); rewrite Ef; apply list_elem_of_here).
      destruct Hy as [Hy Ey]. destruct (Hrow y Hy) as [(c & Hc & Ei & _) _]. rewrite <- Ey, <- Ei. by apply list_elem_of_fmap_2.
    + destruct (H2 r Hr) as (y & Hy & Ei & _). destruct (H5 y Hy) as (z & Hz & Ez). rewrite Ei, Ez. by apply list_elem_of_fmap_2.
  - intros r Hr. destruct (H4 r Hr) as (y & rest & Ef & Er). split.
    + intros b. rewrite Er at 1. rewrite merged_build by done. rewrite <- Ef. split.
      * intros H c Hc Ei. destruct (H2 c Hc) as (z & Hz & Ez & En). destruct (Hrow z Hz) as [_ Hb].
        apply (Hb b); [|done..]. apply H, (Hin r Hr). split; [done|congruence].
      * intros H z [Hz Ez]%(Hin r Hr). apply (proj2 (Hrow z Hz)). intros c Hc Ei _. apply H; [done|congruence].
    + exists (name <$> y :: rest). split_and!; [rewrite Er at 1; apply names_joined| |].
      * rewrite <- Ef. eapply sorted_fmap; [|apply sorted_filter; exact H3]. intros a b Ha Hb H. cbn beta in H.
        apply (Hin r Hr) in Ha as [_ Ea], Hb as [_ Eb]. unfold app_cmp, cmp_both, then_cmp in H.
        rewrite (proj2 (id_cmp_eq a b)) in H by congruence. exact H.
      * intros n. rewrite <- Ef. split.
        -- intros (z & -> & [Hz Ez]%(Hin r Hr))%list_elem_of_fmap. destruct (Hrow z Hz) as [(c & Hc & Ei & En) _].
           exists c. split_and!; [done|congruence|done].
        -- intros (c & Hc & Ei & <-). destruct (H2 c Hc) as (z & Hz & Ez & En). rewrite En. apply list_elem_of_fmap_2.
           apply (Hin r Hr). split; [done|congruence].
Qed.

(** ** What a name picks out *)
Definition is_appid (wanted : text) : bool := negb (bool_decide (wanted = [])) && forallb is_ascii_digit wanted.
Definition matches (wanted : text) (a : App) : Prop :=
  if is_appid wanted then appid a = wanted else contains (to_lowercase wanted) (to_lowercase (name a)) = true.
(** Of rows with distinct app ids: one is picked out exactly when it alone matches; none
    exactly when none does; and when several are named, they are all that match, in order,
    and no app id twice, so that the question "which app id?" has an answer. *)
Theorem resolve_answers (apps : list App) (wanted : text) : NoDup (appid <$> apps) ->
  (forall a, resolve apps wanted = One a <-> a ∈ apps /\ matches wanted a /\ forall b, b ∈ apps -> matches wanted b -> b = a) /\
  (resolve apps wanted = NoMatch <-> forall b, b ∈ apps -> ~ matches wanted b) /\
  (forall hits, resolve apps wanted = Many hits ->
     NoDup (appid <$> hits) /\ (2 <= length hits)%nat /\ sublist hits apps /\
     forall b, b ∈ hits <-> b ∈ apps /\ matches wanted b).
Proof using Type.
  clear is_dir is_file canonicalize read_dir read_to_string is_alphanumeric. intros Hd. unfold resolve, matches. fold (is_appid wanted). destruct (is_appid wanted).
  - assert (Hu : forall a b, a ∈ apps -> b ∈ apps -> appid a = appid b -> a = b).
    { clear -Hd. induction apps as [|x l IH]; [by intros a b ?%elem_of_nil|]. cbn in Hd. apply NoDup_cons in Hd as [Hx Hd].
      intros a b [->|Ha]%elem_of_cons [->|Hb]%elem_of_cons E; [done|..|by apply IH]; destruct Hx; [rewrite E|rewrite <- E]; by apply list_elem_of_fmap_2. }
    destruct (find _ apps) as [a|] eqn:Ef.
    + apply find_some in Ef as [Ha Ei]. apply bool_decide_eq_true in Ei. apply list_elem_of_In in Ha. split_and!.
      * intros b. split; [intros [= <-]; split_and!; [done..|intros b Hb E; apply Hu; [done..|by rewrite E, Ei]]|].
        intros (Hb & E & _). f_equal. apply Hu; [done..|by rewrite Ei, E].
      * split; [done|]. intros H. by destruct (H a Ha).
      * done.
    + pose proof (find_none _ _ Ef) as Hn. assert (Hno : forall b, b ∈ apps -> appid b <> wanted).
      { intros b Hb E. specialize (Hn b (proj1 (list_elem_of_In _ _) Hb)). unfold text_eqb in Hn. by rewrite bool_decide_eq_true_2 in Hn. }
      split_and!; [|by split|done]. intros a. split; [done|]. intros (Ha & E & _). by destruct (Hno a Ha).
  - assert (Hin : forall b, b ∈ base.filter (fun a => contains (to_lowercase wanted) (to_lowercase (name a)) = true) apps <->
      b ∈ apps /\ contains (to_lowercase wanted) (to_lowercase (name b)) = true) by (intros b; rewrite list_elem_of_filter; tauto).
    pose proof (sublist_filter (fun a => contains (to_lowercase wanted) (to_lowercase (name a)) = true) apps) as Hsub.
    destruct (base.filter _ apps) as [|a [|b hits]].
    + split_and!; [|split; [intros _ b Hb Hm; by destruct (proj1 (elem_of_nil b) (proj2 (Hin b) (conj Hb Hm)))|done]|done].
      intros a. split; [done|]. intros (Ha & Hm & _). by destruct (proj1 (elem_of_nil a) (proj2 (Hin a) (conj Ha Hm))).
    + split_and!; [|split; [done|]|done].
      * intros x. split; [intros [= <-]|].
        -- destruct (proj1 (Hin a) (list_elem_of_here _ _)) as [Ha Hm]. split_and!; [done..|].
           intros b Hb Hbm. by apply list_elem_of_singleton, Hin.
        -- intros (Hx & Hm & _). f_equal. symmetry. by apply list_elem_of_singleton, Hin.
      * intros H. destruct (proj1 (Hin a) (list_elem_of_here _ _)) as [Ha Hm]. by destruct (H a Ha).
    + split_and!; [|split; [done|]|].
      * intros x. split; [done|]. intros (Hx & _ & Hu). exfalso.
        assert (Ea : a = x) by (apply Hu; apply Hin, list_elem_of_here).
        assert (Eb : b = x) by (apply Hu; apply Hin, list_elem_of_further, list_elem_of_here). subst a b.
        apply (sublist_NoDup (appid <$> x :: x :: hits)) in Hd; [|by apply fmap_sublist].
        cbn in Hd. apply NoDup_cons in Hd as [Hd _]. destruct Hd. apply list_elem_of_here.
      * intros H. destruct (proj1 (Hin a) (list_elem_of_here _ _)) as [Ha Hm]. by destruct (H a Ha).
      * intros ? [= <-]. split_and!; [|cbn; lia|done|exact Hin]. eapply sublist_NoDup; [exact Hd|]. by apply fmap_sublist.
Qed.
(** ** The libraries *)
Definition has_steamapps (p : text) : bool := is_dir (path_join p (txt "steamapps")).
Definition real (p : text) : text := default p (canonicalize p).
(** The paths the library file of a root names, and with them the root itself. *)
Definition named (root : text) : list text :=
  replace_slashes <$> omap (fun l => vdf_value l (txt "path")) (lines (default [] (read_to_string (path_join root (txt "steamapps/libraryfolders.vdf"))))).
Definition roots (home : text) : list text := path_join home <$> STEAM_ROOTS.
Definition found_spec (asked found : list text) : Prop :=
  NoDup (components <$> found) /\
  (forall p, p ∈ asked -> has_steamapps p = true -> components (real p) ∈ components <$> found) /\
  forall q, q ∈ found -> exists p, p ∈ asked /\ has_steamapps p = true /\ q = real p.
Definition missing_spec (asked missing : list text) : Prop :=
  NoDup (components <$> missing) /\
  (forall p, p ∈ asked -> has_steamapps p = false -> components p ∈ components <$> missing) /\
  forall p, p ∈ missing -> p ∈ asked /\ has_steamapps p = false.

Lemma lists_spec out p : lists out p = true <-> components p ∈ components <$> out.
Proof.
  unfold lists. rewrite existsb_exists, list_elem_of_fmap. split.
  - intros (q & Hq%list_elem_of_In & E). exists q. split; [by apply bool_decide_eq_true in E|done].
  - intros (q & E & Hq%list_elem_of_In). exists q. split; [done|]. by apply bool_decide_eq_true_2.
Qed.
Lemma snoc_nodup out p : lists out p = false -> NoDup (components <$> out) -> NoDup (components <$> out ++ [p]).
Proof.
  intros Hl Hn. rewrite fmap_app, NoDup_app. split_and!; [done| |apply NoDup_singleton].
  intros x Hx Hp%list_elem_of_singleton. subst x. apply lists_spec in Hx. congruence.
Qed.
Lemma push_found asked found p : found_spec asked found ->
  (push_library found p).2 = has_steamapps p /\ found_spec (asked ++ [p]) (push_library found p).1.
Proof.
  intros (Hn & Ha & Hq). unfold push_library. change (is_dir (path_join p (txt "steamapps"))) with (has_steamapps p).
  change (default p (canonicalize p)) with (real p). destruct (has_steamapps p) eqn:Ed; cbn [negb fst snd].
  - split; [done|]. destruct (lists found (real p)) eqn:El; (split; [by try apply snoc_nodup|split]).
    + intros r [Hr| ->%list_elem_of_singleton]%elem_of_app; [by apply Ha|intros _; by apply lists_spec].
    + intros q Hin. destruct (Hq q Hin) as (r & Hr & E). exists r. split; [apply elem_of_app; by left|done].
    + intros r Hr Hd. rewrite fmap_app, elem_of_app. apply elem_of_app in Hr as [Hr| ->%list_elem_of_singleton]; [left; by apply Ha|].
      right. by apply list_elem_of_singleton.
    + intros q [Hin| ->%list_elem_of_singleton]%elem_of_app.
      * destruct (Hq q Hin) as (r & Hr & E). exists r. split; [apply elem_of_app; by left|done].
      * exists p. split; [apply elem_of_app; right; by apply list_elem_of_singleton|done].
  - split; [done|]. split; [done|split].
    + intros r [Hr| ->%list_elem_of_singleton]%elem_of_app; [by apply Ha|congruence].
    + intros q Hin. destruct (Hq q Hin) as (r & Hr & E). exists r. split; [apply elem_of_app; by left|done].
Qed.
Lemma push_missing asked missing p : missing_spec asked missing ->
  missing_spec (asked ++ [p]) (if negb (has_steamapps p) && negb (lists missing p) then missing ++ [p] else missing).
Proof.
  intros (Hn & Ha & Hm).
  assert (Hm' : forall q, q ∈ missing -> q ∈ asked ++ [p] /\ has_steamapps q = false).
  { intros q Hin. destruct (Hm q Hin) as [Hq E]. split; [apply elem_of_app; by left|done]. }
  assert (Hk : (has_steamapps p = false -> components p ∈ components <$> missing) -> missing_spec (asked ++ [p]) missing).
  { intros Hp. split; [done|split; [|done]]. intros r [Hr| ->%list_elem_of_singleton]%elem_of_app; [by apply Ha|done]. }
  destruct (has_steamapps p) eqn:Ed; cbn [negb andb]; [by apply Hk|].
  destruct (lists missing p) eqn:El; cbn [negb]; [apply Hk; intros _; by apply lists_spec|].
  split; [by apply snoc_nodup|split].
  - intros r Hr Hd. rewrite fmap_app, elem_of_app. apply elem_of_app in Hr as [Hr| ->%list_elem_of_singleton]; [left; by apply Ha|].
    right. by apply list_elem_of_singleton.
  - intros q [Hin| ->%list_elem_of_singleton]%elem_of_app; [by apply Hm'|]. split; [|done].
    apply elem_of_app. right. by apply list_elem_of_singleton.
Qed.
Lemma note_all ls : forall asked asked' st, found_spec asked st.1 -> missing_spec asked' st.2 ->
  let ps := replace_slashes <$> omap (fun l => vdf_value l (txt "path")) ls in
  found_spec (asked ++ ps) (foldl note_path st ls).1 /\ missing_spec (asked' ++ ps) (foldl note_path st ls).2.
Proof.
  induction ls as [|l ls IH]; intros asked asked' [found missing] Hf Hm; cbn [fst snd] in Hf, Hm; [cbn; by rewrite !app_nil_r|].
  cbn [omap list_omap foldl note_path]. destruct (vdf_value l (txt "path")) as [p|]; [|by apply IH]. cbn [fmap list_fmap]. destruct (push_found asked found (replace_slashes p) Hf) as [Eb Hf'].
  destruct (push_library found _) as [found' b]. cbn in Eb, Hf'. subst b.
  set (q := replace_slashes p) in *.
  pose proof (IH (asked ++ [q]) (asked' ++ [q]) (found', _) Hf' (push_missing asked' missing q Hm)) as H.
  cbn zeta in H. rewrite <- !app_assoc in H. exact H.
Qed.
(** Of the paths Steam's own files name, every one is accounted for: one with a [steamapps]
    directory is among the libraries, under its real name, and one without is among those
    reported missing, as the file spells it. The roots count as named, but are never reported
    missing; nothing else is in either list, and neither holds a path twice. *)
Theorem libraries_accounted (home : text) :
  found_spec (roots home ≫= fun r => named r ++ [r]) (scan home).1 /\ missing_spec (roots home ≫= named) (scan home).2.
Proof.
  unfold scan, roots. generalize STEAM_ROOTS. intros rs.
  assert (H : forall asked asked' st, found_spec asked st.1 -> missing_spec asked' st.2 ->
    found_spec (asked ++ ((path_join home <$> rs) ≫= fun r => named r ++ [r])) (foldl (scan_root home) st rs).1 /\
    missing_spec (asked' ++ ((path_join home <$> rs) ≫= named)) (foldl (scan_root home) st rs).2).
  { induction rs as [|r rs IH]; intros asked asked' st Hf Hm; cbn; [by rewrite !app_nil_r|].
    destruct (note_all (lines (default [] (read_to_string (path_join (path_join home r) (txt "steamapps/libraryfolders.vdf"))))) asked asked' st Hf Hm) as [Hf' Hm'].
    fold (named (path_join home r)) in Hf', Hm'. set (root := path_join home r) in *.
    pose proof (IH (asked ++ named root ++ [root]) (asked' ++ named root) (scan_root home st r)) as H.
    rewrite !app_assoc in H. cbn [fst snd]. rewrite !app_assoc. apply H; unfold scan_root; fold root; destruct (foldl note_path _ _) as [found missing]; [|exact Hm'].
    cbn [fst snd] in Hf' |- *. by apply push_found. }
  apply (H [] [] ([], [])); (split; [apply NoDup_nil_2|split; [by intros p ?%elem_of_nil|by intros p ?%elem_of_nil]]).
Qed.
End Steam.

(** A title in two libraries under two names is one row that carries both, and a build the
    copies disagree on is none. *)
Definition elite (n : text) (b : option text) : App := {| appid := txt "359320"; name := n; buildid := b |}.
Example one_row_for_two_names :
  collapse id [elite (txt "Elite Dangerous") (Some (txt "1")); {| appid := txt "10"; name := txt "DCS"; buildid := None |};
               elite (txt "Elite") (Some (txt "2")); elite (txt "Elite") (Some (txt "2"))] =
    [{| appid := txt "10"; name := txt "DCS"; buildid := None |}; elite (txt "Elite / Elite Dangerous") None].
Proof. vm_compute. reflexivity. Qed.
Example the_mark_ends_where_a_word_ends :
  (looks_like_tool is_ascii_alphanumeric <$> [txt "Proton 9.0"; txt "Protonaut"; txt "Proton"]) = [true; false; true].
Proof. reflexivity. Qed.
Lemma resolve_answers_witness :
  let apps := [{| appid := txt "10"; name := txt "DCS"; buildid := None |}; elite (txt "Elite") None] in
  resolve id apps (txt "359320") = One (elite (txt "Elite") None).
Proof.
  intros apps. apply (proj1 (resolve_answers id apps (txt "359320")
    ltac:(apply (bool_decide_unpack _); vm_compute; exact I))).
  split; [apply list_elem_of_further, list_elem_of_here|split; [vm_compute; reflexivity|]].
  intros b Hb. change (appid b = txt "359320" -> b = elite (txt "Elite") None).
  apply elem_of_cons in Hb as [->|Hb]; [intros E; discriminate E|]. apply list_elem_of_singleton in Hb. intros _. exact Hb.
Defined.
