(* ===== verification/Pcap.v ===== *)
(** * Pcap: captures of the USB bus (crates/tobii-recap/src/pcap.rs, usbmon.rs)

    The container with its records, and the usbmon header in front of each. The reader is
    the iterator it is in the code, [records] its exhaustion. [records_read_back]: the
    records of a file, in either byte order, are exactly those written, and what is wrong
    with its end is said once. *)
From S2P Require Import Prelude Text F64 Floats.

Inductive RecapError := ShortGlobalHeader | BadMagic (m : bytes) | UnsupportedLinktype (l : Z).
Definition show_recap_error (e : RecapError) : text :=
  match e with
  | ShortGlobalHeader => txt "file is too short to contain a pcap global header"
  | BadMagic m => txt "unrecognized pcap magic " ++ (m ≫= hex2)
  | UnsupportedLinktype lt => txt "unsupported linktype " ++ show_uint lt ++ txt " (expected 220 DLT_USB_LINUX_MMAPPED or 189 DLT_USB_LINUX)"
  end.

(** ** pcap.rs *)
Definition GLOBAL_HEADER_LEN : Z := 24.
Definition RECORD_HEADER_LEN : Z := 16.
Record PcapGlobal := { big_endian : bool; nanosecond : bool; snaplen : Z; linktype : Z }.
(** The source's [Record]. *)
Record Packet := { ts_sec : Z; ts_frac : Z; data : bytes }.

Definition u32_at (b : bytes) (at_ : Z) (big : bool) : Z :=
  let a := slice b at_ (at_ + 4) in if big then of_be a else of_le a.
Definition ts_seconds (p : Packet) (nano : bool) : f64 :=
  fadd (of_int (ts_sec p)) (fdiv (of_int (ts_frac p)) (of_int (if nano then 10 ^ 9 else 10 ^ 6))).

Definition parse_magic (m : bytes) : option (bool * bool) :=
  if bool_decide (m = [xa1; xb2; xc3; xd4]) then Some (true, false)
  else if bool_decide (m = [xd4; xc3; xb2; xa1]) then Some (false, false)
  else if bool_decide (m = [xa1; xb2; x3c; x4d]) then Some (true, true)
  else if bool_decide (m = [x4d; x3c; xb2; xa1]) then Some (false, true)
  else None.
Definition parse_global (b : bytes) : result RecapError PcapGlobal :=
  if zlen b <? GLOBAL_HEADER_LEN then Err ShortGlobalHeader
  else match parse_magic (slice b 0 4) with
       | None => Err (BadMagic (slice b 0 4))
       | Some (big, nano) =>
           Ok {| big_endian := big; nanosecond := nano; snaplen := u32_at b 16 big; linktype := u32_at b 20 big |}
       end.

Record RecordReader := { global : PcapGlobal; rest : bytes; done_ : bool }.
Definition new_record_reader (b : bytes) : result RecapError (PcapGlobal * RecordReader) :=
  match parse_global b with
  | Err e => Err e
  | Ok g => Ok (g, {| global := g; rest := from b GLOBAL_HEADER_LEN; done_ := false |})
  end.
Definition short_header (left : Z) : text :=
  txt "truncated record header: " ++ show_uint left ++ txt " bytes left, need " ++ show_uint RECORD_HEADER_LEN.
Definition short_body (incl left : Z) : text :=
  txt "truncated record body: incl_len=" ++ show_uint incl ++ txt " but only " ++ show_uint left ++ txt " bytes remain".
(** [Iterator::next]; the sum of a 32-bit length and 16 does not overflow a [usize] of 64 bits. *)
Definition next (r : RecordReader) : option (result text Packet) * RecordReader :=
  let stop := {| global := global r; rest := rest r; done_ := true |} in
  if done_ r || bool_decide (rest r = []) then (None, r)
  else if zlen (rest r) <? RECORD_HEADER_LEN then (Some (Err (short_header (zlen (rest r)))), stop)
  else let big := big_endian (global r) in
       let incl_len := u32_at (rest r) 8 big in
       let end_ := RECORD_HEADER_LEN + incl_len in
       if end_ <=? zlen (rest r) then
         (Some (Ok {| ts_sec := u32_at (rest r) 0 big; ts_frac := u32_at (rest r) 4 big; data := slice (rest r) RECORD_HEADER_LEN end_ |}),
          {| global := global r; rest := from (rest r) end_; done_ := false |})
       else (Some (Err (short_body incl_len (zlen (rest r) - RECORD_HEADER_LEN))), stop).
(** The records until the iterator ends: every one read is at least 16 bytes, and after an
    error there is none. *)
Fixpoint records_fuel (fuel : nat) (r : RecordReader) : list (result text Packet) :=
  match fuel with
  | O => []
  | S fuel => match next r with (Some p, r) => p :: records_fuel fuel r | (None, _) => [] end
  end.
Definition records (r : RecordReader) : list (result text Packet) := records_fuel (S (S (length (rest r)))) r.

(** ** usbmon.rs *)
Definition XFER_BULK : Z := 3.
Definition EVENT_SUBMIT : Z := 0x53.
Definition EVENT_COMPLETE : Z := 0x43.
Record UsbEvent := { event_type : Z; xfer_type : Z; dir_in : bool; event_data : bytes }.
Definition header_len (l : Z) : option Z := if l =? 220 then Some 64 else if l =? 189 then Some 48 else None.
Definition byte_at (b : bytes) (i : nat) : Z := default 0 (u8 <$> b !! i).
Definition parse_event (record : bytes) (big : bool) (l : Z) : result text UsbEvent :=
  match header_len l with
  | None => Err (txt "unsupported usbmon linktype " ++ show_uint l)
  | Some hlen =>
      if zlen record <? hlen then
        Err (txt "usbmon header truncated: " ++ show_uint (zlen record) ++ txt " bytes, need " ++ show_uint hlen)
      else
        let len_cap := u32_at record 36 big in
        let avail := zlen record - hlen in
        if avail <? len_cap then
          Err (txt "usbmon len_cap=" ++ show_uint len_cap ++ txt " exceeds " ++ show_uint avail ++
               txt " captured bytes after " ++ show_uint hlen ++ txt "-byte header")
        else Ok {| event_type := byte_at record 8; xfer_type := byte_at record 9;
                   dir_in := negb (Z.land (byte_at record 10) 0x80 =? 0); event_data := slice record hlen (hlen + len_cap) |}
  end.
Definition carries_payload (e : UsbEvent) : bool :=
  if negb (xfer_type e =? XFER_BULK) || bool_decide (event_data e = []) then false
  else (dir_in e && (event_type e =? EVENT_COMPLETE)) || (negb (dir_in e) && (event_type e =? EVENT_SUBMIT)).

(** ** The format *)
Definition to_u32 (big : bool) (v : Z) : bytes := if big then to_be 4 v else to_le 4 v.
Definition magic_of (big nano : bool) : bytes :=
  let m := if nano then [xa1; xb2; x3c; x4d] else [xa1; xb2; xc3; xd4] in if big then m else rev m.
(** [mid]: the version, the zone and the precision. *)
Definition global_bytes (g : PcapGlobal) (mid : bytes) : bytes :=
  magic_of (big_endian g) (nanosecond g) ++ mid ++ to_u32 (big_endian g) (snaplen g) ++ to_u32 (big_endian g) (linktype g).
Definition packet_bytes (big : bool) (po : Packet * Z) : bytes :=
  to_u32 big (ts_sec po.1) ++ to_u32 big (ts_frac po.1) ++ to_u32 big (zlen (data po.1)) ++ to_u32 big po.2 ++ data po.1.
Definition pcap_bytes (g : PcapGlobal) (mid : bytes) (ps : list (Packet * Z)) : bytes :=
  global_bytes g mid ++ concat (packet_bytes (big_endian g) <$> ps).
Definition global_ok (g : PcapGlobal) : Prop := is_u 32 (snaplen g) /\ is_u 32 (linktype g).
Definition packet_ok (p : Packet) : Prop := is_u 32 (ts_sec p) /\ is_u 32 (ts_frac p) /\ is_u 32 (zlen (data p)).
(** What the end of a file that stops inside a record holds, and what is said of it. *)
Definition cut_off (big : bool) (tail : bytes) (why : text) : Prop :=
  (0 < zlen tail < 16 /\ why = short_header (zlen tail)) \/
  (16 <= zlen tail < 16 + u32_at tail 8 big /\ why = short_body (u32_at tail 8 big) (zlen tail - 16)).

Lemma zlen_to_u32 big v : zlen (to_u32 big v) = 4.
Proof. by destruct big; unfold to_u32; rewrite ?zlen_to_be, ?zlen_to_le. Qed.
Lemma u32_at_app big v (p s : bytes) i : is_u 32 v -> i = zlen p -> u32_at (p ++ to_u32 big v ++ s) i big = v.
Proof.
  intros Hv ->. unfold u32_at. rewrite slice_mid by (rewrite ?zlen_to_u32; lia).
  destruct big; [by apply of_be4_inv|by apply of_le4_inv].
Qed.
Lemma u32_at_start big v (s : bytes) : is_u 32 v -> u32_at (to_u32 big v ++ s) 0 big = v.
Proof. intros Hv. by apply (u32_at_app big v [] s 0). Qed.
Lemma magic_read big nano : parse_magic (magic_of big nano) = Some (big, nano).
Proof. by destruct big, nano. Qed.
Lemma zlen_magic big nano : zlen (magic_of big nano) = 4. Proof. by destruct big, nano. Qed.

Lemma global_read g mid s : global_ok g -> zlen mid = 12 -> parse_global (global_bytes g mid ++ s) = Ok g.
Proof.
  intros [Hs Hl] Hm. pose proof (zlen_nonneg s). pose proof (zlen_magic (big_endian g) (nanosecond g)) as Hg.
  unfold parse_global, global_bytes, GLOBAL_HEADER_LEN.
  rewrite (proj2 (Z.ltb_ge _ _)) by (rewrite !zlen_app, !zlen_to_u32; lia). rewrite <- !app_assoc.
  rewrite slice_app_exact, magic_read by done.
  rewrite (app_assoc (magic_of _ _)), u32_at_app by (done || (rewrite zlen_app; lia)).
  rewrite (app_assoc _ (to_u32 _ (snaplen g))), u32_at_app by (done || (rewrite !zlen_app, zlen_to_u32; lia)).
  by destruct g.
Qed.
Lemma next_packet g p o s : packet_ok p ->
  next {| global := g; rest := packet_bytes (big_endian g) (p, o) ++ s; done_ := false |} =
  (Some (Ok p), {| global := g; rest := s; done_ := false |}).
Proof.
  intros (H1 & H2 & H3). unfold next, packet_bytes, RECORD_HEADER_LEN. cbn [global rest done_ orb fst snd]. rewrite <- !app_assoc.
  set (big := big_endian g). set (a := to_u32 big (ts_sec p)). set (b := to_u32 big (ts_frac p)).
  set (c := to_u32 big (zlen (data p))). set (d := to_u32 big o).
  assert (Ha : zlen a = 4) by apply zlen_to_u32. assert (Hb : zlen b = 4) by apply zlen_to_u32.
  assert (Hc : zlen c = 4) by apply zlen_to_u32. assert (Hd : zlen d = 4) by apply zlen_to_u32.
  pose proof (zlen_nonneg (data p)). pose proof (zlen_nonneg s).
  assert (Hl : zlen (a ++ b ++ c ++ d ++ data p ++ s) = 16 + zlen (data p) + zlen s) by (rewrite !zlen_app; lia).
  rewrite bool_decide_eq_false_2 by (intros E; rewrite E, zlen_nil in Hl; lia).
  rewrite Hl, (proj2 (Z.ltb_ge _ _)) by lia.
  assert (Hu : u32_at (a ++ b ++ c ++ d ++ data p ++ s) 8 big = zlen (data p)).
  { rewrite (app_assoc a b). apply u32_at_app; [done|rewrite zlen_app; lia]. }
  rewrite Hu, (proj2 (Z.leb_le _ _)) by lia.
  rewrite (u32_at_start big (ts_sec p)) by done. rewrite (u32_at_app big (ts_frac p) a) by done.
  replace (a ++ b ++ c ++ d ++ data p ++ s) with ((a ++ b ++ c ++ d) ++ data p ++ s) by (by rewrite <- !app_assoc).
  rewrite slice_mid by (rewrite ?zlen_app; lia). rewrite app_assoc, from_app by (rewrite !zlen_app; lia).
  by destruct p.
Qed.
Lemma next_cut g tail why : cut_off (big_endian g) tail why ->
  next {| global := g; rest := tail; done_ := false |} = (Some (Err why), {| global := g; rest := tail; done_ := true |}).
Proof.
  unfold cut_off, next, RECORD_HEADER_LEN. cbn [global rest done_ orb]. intros H.
  rewrite bool_decide_eq_false_2 by (intros ->; change (zlen (@nil byte)) with 0 in H; destruct H as [[? _]|[? _]]; lia).
  destruct H as [[Hl ->]|[Hl ->]].
  - by rewrite (proj2 (Z.ltb_lt _ _)) by lia.
  - rewrite (proj2 (Z.ltb_ge _ _)), (proj2 (Z.leb_gt _ _)) by lia. done.
Qed.
Lemma packet_len big po : (16 <= length (packet_bytes big po))%nat.
Proof.
  enough (16 <= zlen (packet_bytes big po)) by (unfold zlen in *; lia).
  unfold packet_bytes. rewrite !zlen_app, !zlen_to_u32. pose proof (zlen_nonneg (data po.1)). lia.
Qed.
Lemma records_written g ps tail last fuel : Forall (fun po => packet_ok po.1) ps ->
  (last = [] /\ tail = [] \/ exists why, cut_off (big_endian g) tail why /\ last = [Err why]) ->
  (length (concat (packet_bytes (big_endian g) <$> ps)) + 2 <= fuel)%nat ->
  records_fuel fuel {| global := g; rest := concat (packet_bytes (big_endian g) <$> ps) ++ tail; done_ := false |} = (Ok ∘ fst <$> ps) ++ last.
Proof.
  intros Hps Ht. revert fuel. induction Hps as [|[p o] ps Hp _ IH]; intros fuel Hf.
  - destruct fuel as [|[|fuel]]; [cbn in Hf; lia..|]. cbn [fmap list_fmap concat app]. destruct Ht as [[-> ->]|(why & Hc & ->)]; [done|].
    cbn [records_fuel]. by rewrite next_cut with (why := why).
  - destruct fuel as [|fuel]; [cbn in Hf; lia|]. cbn [fmap list_fmap concat] in *. rewrite length_app in Hf. rewrite <- app_assoc.
    cbn [records_fuel]. rewrite next_packet by done. rewrite IH by (pose proof (packet_len (big_endian g) (p, o)); lia). done.
Qed.

(** One transfer as the kernel writes it: 8 bytes of id, the event, the kind and the endpoint
    with its direction bit, the fields to offset 36, the captured length and the rest of the
    header. *)
Record Urb := { urb_id : bytes; urb_event : byte; urb_xfer : byte; urb_ep : byte; urb_mid : bytes; urb_tail : bytes; urb_data : bytes }.
Definition urb_bytes (big : bool) (u : Urb) : bytes :=
  urb_id u ++ [urb_event u; urb_xfer u; urb_ep u] ++ urb_mid u ++ to_u32 big (zlen (urb_data u)) ++ urb_tail u ++ urb_data u.
Definition urb_ok (l : Z) (u : Urb) : Prop :=
  zlen (urb_id u) = 8 /\ zlen (urb_mid u) = 25 /\ header_len l = Some (40 + zlen (urb_tail u)) /\ is_u 32 (zlen (urb_data u)).
Definition urb_in (u : Urb) : bool := negb (Z.land (u8 (urb_ep u)) 0x80 =? 0).
Definition urb_says (u : Urb) : UsbEvent :=
  {| event_type := u8 (urb_event u); xfer_type := u8 (urb_xfer u); dir_in := urb_in u; event_data := urb_data u |}.
Lemma event_read big l u : urb_ok l u -> parse_event (urb_bytes big u) big l = Ok (urb_says u).
Proof.
  intros (Hi & Hm & Hh & Hd). unfold parse_event. rewrite Hh. destruct u as [i e x ep m t d]. cbn [urb_id urb_event urb_xfer urb_ep urb_mid urb_tail urb_data] in *.
  unfold urb_bytes. cbn [urb_id urb_event urb_xfer urb_ep urb_mid urb_tail urb_data].
  pose proof (zlen_nonneg d). pose proof (zlen_nonneg t). pose proof (zlen_to_u32 big (zlen d)) as Hz.
  assert (Hl : zlen (i ++ [e; x; ep] ++ m ++ to_u32 big (zlen d) ++ t ++ d) = 40 + zlen t + zlen d) by (len; lia).
  rewrite Hl, (proj2 (Z.ltb_ge _ (40 + zlen t))) by lia.
  assert (Hu : u32_at (i ++ [e; x; ep] ++ m ++ to_u32 big (zlen d) ++ t ++ d) 36 big = zlen d).
  { rewrite (app_assoc [_;_;_]), (app_assoc i). apply u32_at_app; [done|]. by len. }
  rewrite Hu, (proj2 (Z.ltb_ge _ (zlen d))) by lia. apply list8 in Hi as (? & ? & ? & ? & ? & ? & ? & ? & ->).
  unfold urb_says, urb_in. do 2 f_equal. cbn [urb_data]. rewrite !app_assoc. rewrite <- (app_nil_r d) at 2. apply slice_mid; len; lia.
Qed.

Lemma read_back (g : PcapGlobal) (mid : bytes) (ps : list (Packet * Z)) (tail : bytes) (last : list text) :
  global_ok g -> zlen mid = 12 -> Forall (fun po => packet_ok po.1) ps ->
  (last = [] /\ tail = [] \/ exists why, cut_off (big_endian g) tail why /\ last = [why]) ->
  exists r, new_record_reader (pcap_bytes g mid ps ++ tail) = Ok (g, r) /\ records r = (Ok ∘ fst <$> ps) ++ (Err <$> last).
Proof.
  intros Hg Hm Hps Ht. unfold pcap_bytes. rewrite <- app_assoc. eexists. unfold new_record_reader. rewrite global_read by done.
  split; [reflexivity|]. unfold records. cbn [rest].
  assert (Hgl : zlen (global_bytes g mid) = 24).
  { unfold global_bytes. rewrite !zlen_app, !zlen_to_u32, zlen_magic. lia. }
  unfold GLOBAL_HEADER_LEN. rewrite from_app by lia. apply records_written; [done| |rewrite length_app; lia].
  destruct Ht as [[-> ->]|(why & Hc & ->)]; [by left|right; by exists why].
Qed.
Lemma records_written_read g mid ps : global_ok g -> zlen mid = 12 -> Forall (fun po => packet_ok po.1) ps ->
  exists r, new_record_reader (pcap_bytes g mid ps) = Ok (g, r) /\ records r = (Ok ∘ fst <$> ps).
Proof.
  intros Hg Hm Hps. destruct (read_back g mid ps [] [] Hg Hm Hps) as (r & H1 & H2); [by left|].
  exists r. by rewrite app_nil_r in H1, H2.
Qed.

(** A capture is read back as it was written: whatever the byte order and the precision of
    its clock, the header and every record come out as they went in, and a file that stops
    inside a record has one error for that, at the end. *)
Theorem records_read_back (g : PcapGlobal) (mid : bytes) (ps : list (Packet * Z)) (tail : bytes) (last : list text) :
  global_ok g -> zlen mid = 12 -> Forall (fun po => packet_ok po.1) ps ->
  (last = [] /\ tail = [] \/ exists why, cut_off (big_endian g) tail why /\ last = [why]) ->
  exists r, new_record_reader (pcap_bytes g mid ps ++ tail) = Ok (g, r) /\ records r = (Ok ∘ fst <$> ps) ++ (Err <$> last).
Proof. apply read_back. Qed.
Definition sample_global : PcapGlobal := {| big_endian := false; nanosecond := true; snaplen := 65535; linktype := 220 |}.
Lemma records_read_back_witness :
  exists r, new_record_reader (pcap_bytes sample_global (replicate 12 x00) [({| ts_sec := 7; ts_frac := 9; data := [xaa; xbb] |}, 2)] ++ [x01])
    = Ok (sample_global, r) /\ records r = [Ok {| ts_sec := 7; ts_frac := 9; data := [xaa; xbb] |}; Err (short_header 1)].
Proof.
  apply (records_read_back sample_global (replicate 12 x00) [({| ts_sec := 7; ts_frac := 9; data := [xaa; xbb] |}, 2)] [x01] [short_header 1]); [vm_compute; repeat split; discriminate|reflexivity| |].
  - repeat constructor; vm_compute; congruence.
  - right. exists (short_header 1). split; [left; split; [split; reflexivity|reflexivity]|reflexivity].
Defined.
