(* ===== verification/OutStream.v ===== *)
(** * OutStream: reassembly of what the host sent (crates/tobii-recap/src/out_parser.rs)

    The mirror of Parser for the other direction, with its own envelope. What the driver
    sends, however long and however its transport cuts it, comes out as the frames it
    built: [host_frames_read_back] composes the frame builder of Commands, the transfers of
    Transport and this parser. *)
From S2P Require Import Prelude Text Hex Protocol Commands Parser Transport.

Inductive OutError := OutBadDirection (b : byte) | OutBadMagic (m : Z) | OutOverflow.
Definition show_out_error (e : OutError) : text :=
  match e with
  | OutBadDirection b => txt "outbound direction byte " ++ show_hex (u8 b) ++ txt " (expected 0x00)"
  | OutBadMagic m => txt "outbound TTP magic " ++ show_hex m ++ txt " (expected 0x51)"
  | OutOverflow => txt "outbound reassembly buffer overflow"
  end.

Record OutParser := { out_acc : bytes }.
Definition new_out_parser : OutParser := {| out_acc := [] |}.
Definition out_buffered (p : OutParser) : Z := zlen (out_acc p).

Definition out_drain_one (a : bytes) : result OutError (option Frame) * bytes :=
  if zlen a <? ENVELOPE_SIZE then (Ok None, a)
  else match a with
  | [] => (Ok None, a)
  | b0 :: _ =>
    if negb (Byte.eqb b0 x00) then (Err (OutBadDirection b0), a)
    else if zlen a <? ENVELOPE_SIZE + TTP_HDR_SIZE then (Ok None, a)
    else
      let hdr := slice a ENVELOPE_SIZE (ENVELOPE_SIZE + TTP_HDR_SIZE) in
      let m := be32 (from hdr 0) in
      if negb (m =? TTP_MAGIC_REQ) then (Err (OutBadMagic m), a)
      else
        let s := be32 (from hdr 4) in
        let o := be32 (from hdr 12) in
        let plen := be32 (from hdr 20) in
        let frame_size := ENVELOPE_SIZE + TTP_HDR_SIZE + plen in
        if ACC_CAP <? frame_size then (Err OutOverflow, a)
        else if zlen a <? frame_size then (Ok None, a)
        else (Ok (Some {| magic := m; seq := s; op := o; payload := slice a (ENVELOPE_SIZE + TTP_HDR_SIZE) frame_size |}),
              from a frame_size)
  end.
(** Every frame takes at least 32 bytes, so the length is fuel enough. *)
Fixpoint out_drain_all (fuel : nat) (a : bytes) : result OutError (list Frame) * bytes :=
  match fuel with
  | O => (Ok [], a)
  | S fuel =>
      match out_drain_one a with
      | (Ok (Some f), a') =>
          match out_drain_all fuel a' with
          | (Ok fs, a'') => (Ok (f :: fs), a'')
          | (Err e, a'') => (Err e, a'')
          end
      | (Ok None, a') => (Ok [], a')
      | (Err e, _) => (Err e, [])
      end
  end.
Definition out_drain (a : bytes) : result OutError (list Frame) * bytes := out_drain_all (S (length a)) a.
Definition out_strip (a src : bytes) : bytes :=
  if ENVELOPE_SIZE + TTP_HDR_SIZE <=? zlen a then
    let plen := be32 (from a (ENVELOPE_SIZE + 20)) in
    let frame_size := ENVELOPE_SIZE + TTP_HDR_SIZE + plen in
    if (zlen a <? frame_size) && (ENVELOPE_SIZE <=? zlen src) && byte_is src 0 x00 && byte_is src 1 x00
       && byte_is src 2 x00 && byte_is src 3 x00
    then from src ENVELOPE_SIZE else src
  else src.
Definition out_feed (src : bytes) (p : OutParser) : result OutError (list Frame) * OutParser :=
  let data := out_strip (out_acc p) src in
  if ACC_CAP <? zlen (out_acc p) + zlen data then (Err OutOverflow, {| out_acc := [] |})
  else let '(r, a) := out_drain (out_acc p ++ data) in (r, {| out_acc := a |}).

(** ** Frames of the host *)
(** The header with any envelope length: a cut frame has one of its own. *)
Definition out_header (len_word : bytes) (f : Frame) : bytes :=
  to_be 4 0 ++ len_word ++ to_be 4 TTP_MAGIC_REQ ++ to_be 4 (seq f) ++ to_be 4 0 ++ to_be 4 (op f) ++ to_be 4 0 ++ to_be 4 (zlen (payload f)).
Definition sends (f : Frame) : Prop := magic f = TTP_MAGIC_REQ /\ frame_ok f.

Lemma zlen_out_header w f : zlen w = 4 -> zlen (out_header w f) = 32.
Proof. intros Hw. unfold out_header. len. Qed.
Lemma out_header_fields w f k : sends f -> zlen w = 4 ->
  let a := out_header w f ++ k in
  let hdr := slice a 8 32 in
  head a = Some x00 /\ be32 (from hdr 0) = magic f /\ be32 (from hdr 4) = seq f /\ be32 (from hdr 12) = op f /\
  be32 (from hdr 20) = zlen (payload f) /\ be32 (from a 28) = zlen (payload f).
Proof.
  intros (Hr & Hm & Hs & Ho & Hl) Hw. rewrite Hr. unfold ACC_CAP in Hl.
  assert (Hp : is_u 32 (zlen (payload f))) by (pose proof (zlen_nonneg (payload f)); unfold is_u; lia).
  unfold out_header. apply list4 in Hw as (w0 & w1 & w2 & w3 & ->).
  open_word (to_be 4 (seq f)) (of_be4_inv _ Hs).
  open_word (to_be 4 (op f)) (of_be4_inv _ Ho).
  open_word (to_be 4 (zlen (payload f))) (of_be4_inv _ Hp).
  split_and!; try assumption; reflexivity.
Qed.
Lemma out_drain_one_dir a : head a = Some x00 -> 32 <= zlen a -> be32 (from (slice a 8 32) 0) = TTP_MAGIC_REQ ->
  out_drain_one a =
    (let hdr := slice a 8 32 in
     let plen := be32 (from hdr 20) in
     if ACC_CAP <? 32 + plen then (Err OutOverflow, a)
     else if zlen a <? 32 + plen then (Ok None, a)
     else (Ok (Some {| magic := TTP_MAGIC_REQ; seq := be32 (from hdr 4); op := be32 (from hdr 12); payload := slice a 32 (32 + plen) |}),
           from a (32 + plen))).
Proof.
  intros H0 Hl Hm. unfold out_drain_one, ENVELOPE_SIZE, TTP_HDR_SIZE. rewrite (proj2 (Z.ltb_ge _ 8)) by lia.
  destruct a as [|b0 a']; [done|]. simpl in H0. injection H0 as ->. rewrite byte_eqb_refl. cbn [negb].
  change (8 + 24) with 32. rewrite (proj2 (Z.ltb_ge _ 32)), Hm by lia. done.
Qed.
Lemma out_drain_complete w f : sends f -> zlen w = 4 -> out_drain (out_header w f ++ payload f) = (Ok [f], []).
Proof.
  intros Hf Hw. pose proof (out_header_fields w f (payload f) Hf Hw) as (H0 & H1 & H2 & H3 & H4 & _).
  pose proof (zlen_out_header w f Hw) as Hh. destruct Hf as [Hr (_ & _ & _ & Hcap)]. rewrite Hr in H1.
  pose proof (zlen_nonneg (payload f)).
  assert (Ha : zlen (out_header w f ++ payload f) = 32 + zlen (payload f)) by len.
  unfold out_drain. cbn [out_drain_all]. rewrite out_drain_one_dir by (done || lia). cbv zeta. rewrite H2, H3, H4, Ha.
  rewrite (proj2 (Z.ltb_ge ACC_CAP _)), (proj2 (Z.ltb_ge _ (32 + _))) by lia.
  assert (Hrest : from (out_header w f ++ payload f) (32 + zlen (payload f)) = []).
  { rewrite <- (app_nil_r (_ ++ _)). apply from_app. lia. }
  rewrite Hrest. replace (out_drain_all _ []) with (Ok [] : result OutError (list Frame), @nil byte) by (by destruct (length _)).
  do 2 f_equal. rewrite <- (app_nil_r (payload f)) at 1. rewrite (slice_mid (out_header w f)) by lia. rewrite <- Hr. by destruct f.
Qed.
Lemma out_drain_partial w f p q : sends f -> zlen w = 4 -> payload f = p ++ q -> q <> [] ->
  out_drain (out_header w f ++ p) = (Ok [], out_header w f ++ p).
Proof.
  intros Hf Hw Hp Hq. pose proof (out_header_fields w f p Hf Hw) as (H0 & H1 & _ & _ & H4 & _).
  pose proof (zlen_out_header w f Hw) as Hh. destruct Hf as [Hr (_ & _ & _ & Hcap)]. rewrite Hr in H1. pose proof (zlen_nonneg p).
  assert (0 < zlen q) by (destruct q; [done|]; rewrite zlen_cons; pose proof (zlen_nonneg q); lia).
  assert (Ha : zlen (out_header w f ++ p) = 32 + zlen p) by len.
  assert (Hpl : zlen (payload f) = zlen p + zlen q) by (rewrite Hp; len).
  unfold out_drain. cbn [out_drain_all]. rewrite out_drain_one_dir by (done || lia). cbv zeta. rewrite H4, Ha.
  by rewrite (proj2 (Z.ltb_ge ACC_CAP _)), (proj2 (Z.ltb_lt _ (32 + _))) by lia.
Qed.

(** Feed transfers one after the other, collecting the frames; stop at an error. *)
Fixpoint out_run (p : OutParser) (cs : list bytes) : result OutError (list Frame) * OutParser :=
  match cs with
  | [] => (Ok [], p)
  | c :: cs =>
      match out_feed c p with
      | (Ok fs, p') => match out_run p' cs with
                       | (Ok gs, p'') => (Ok (fs ++ gs), p'')
                       | (Err e, p'') => (Err e, p'')
                       end
      | (Err e, p') => (Err e, p')
      end
  end.
Lemma out_run_app p cs ds fs p' : out_run p cs = (Ok fs, p') ->
  out_run p (cs ++ ds) = match out_run p' ds with (Ok gs, p'') => (Ok (fs ++ gs), p'') | (Err e, p'') => (Err e, p'') end.
Proof.
  revert p fs. induction cs as [|c cs IH]; intros p fs; cbn [out_run app].
  - intros [= <- <-]. by destruct (out_run p ds) as [[|] ?].
  - destruct (out_feed c p) as [[gs|e] q]; [|done]. destruct (out_run q cs) as [[hs|e] q'] eqn:E; [|done].
    intros [= <- <-]. rewrite (IH q hs) by done. destruct (out_run _ ds) as [[|] ?]; [by rewrite app_assoc|done].
Qed.

(** A continuation of the transport is recognised and loses its envelope. *)
Lemma out_strip_cont w f p q part : sends f -> zlen w = 4 -> payload f = p ++ q -> q <> [] ->
  out_strip (out_header w f ++ p) (cont_transfer part) = part.
Proof.
  intros Hf Hw Hp Hq. pose proof (out_header_fields w f p Hf Hw) as (_ & _ & _ & _ & _ & H28).
  pose proof (zlen_out_header w f Hw) as Hh. pose proof (zlen_nonneg p). pose proof (zlen_nonneg part).
  assert (0 < zlen q) by (destruct q; [done|]; rewrite zlen_cons; pose proof (zlen_nonneg q); lia).
  assert (Ha : zlen (out_header w f ++ p) = 32 + zlen p) by len.
  assert (Hpl : zlen (payload f) = zlen p + zlen q) by (rewrite Hp; len).
  unfold out_strip, ENVELOPE_SIZE, TTP_HDR_SIZE. change (8 + 20) with 28. change (8 + 24) with 32. rewrite H28, Ha, Hpl.
  unfold cont_transfer. change (to_le 4 0) with [x00; x00; x00; x00].
  rewrite (proj2 (Z.leb_le 32 _)), (proj2 (Z.ltb_lt _ _)), (proj2 (Z.leb_le 8 _)) by (len; lia).
  cbn [andb]. change (byte_is _ 0 x00 && _ && _ && _) with true. cbn beta iota.
  rewrite app_assoc. apply from_app. len.
Qed.
Lemma out_run_parts w f p parts : sends f -> zlen w = 4 -> parts <> [] -> Forall (fun c => 0 < zlen c) parts ->
  payload f = p ++ concat parts ->
  out_run {| out_acc := out_header w f ++ p |} (cont_transfer <$> parts) = (Ok [f], new_out_parser).
Proof.
  intros Hf Hw Hne Hpos. revert p Hne. induction Hpos as [|c parts Hc Hpos IH]; intros p Hne Hp; [done|].
  cbn [fmap list_fmap out_run concat] in *. pose proof (zlen_nonneg p). pose proof (zlen_nonneg (concat parts)).
  assert (Hcr : c ++ concat parts <> []) by (destruct c; [by vm_compute in Hc|done]).
  assert (Hpl : zlen (payload f) = zlen p + zlen c + zlen (concat parts)) by (rewrite Hp; len).
  unfold out_feed. cbn [out_acc]. rewrite (out_strip_cont w f p (c ++ concat parts)) by done.
  pose proof Hf as [_ (_ & _ & _ & Hcap)].
  rewrite (proj2 (Z.ltb_ge _ _)) by (rewrite zlen_app, zlen_out_header by done; lia). rewrite <- app_assoc.
  destruct parts as [|d parts].
  - cbn [concat] in Hp. rewrite app_nil_r in Hp. by rewrite <- Hp, out_drain_complete by done.
  - assert (Hr : concat (d :: parts) <> []).
    { apply Forall_cons in Hpos as [Hd _]. destruct d; [by vm_compute in Hd|done]. }
    rewrite (out_drain_partial w f (p ++ c) (concat (d :: parts))) by (done || by rewrite <- app_assoc).
    rewrite (IH (p ++ c)) by (done || by rewrite <- app_assoc). done.
Qed.
Definition sent_bytes (f : Frame) : bytes := build_out_frame (seq f) (op f) (payload f).
Lemma sent_bytes_eq f : sent_bytes f = out_header (to_le 4 (24 + zlen (payload f))) f ++ payload f.
Proof. unfold sent_bytes, out_header. rewrite build_out_frame_bytes. by rewrite <- !app_assoc. Qed.
Lemma first_of_long w f n : zlen w = 4 -> 32 <= n ->
  slice (slice (out_header w f ++ payload f) 0 n) 0 4 ++ to_le 4 CONT_DATA ++ from (slice (out_header w f ++ payload f) 0 n) 8 =
  out_header (to_le 4 CONT_DATA) f ++ slice (payload f) 0 (n - 32).
Proof.
  intros Hw Hn. pose proof (zlen_out_header w f Hw) as Hh.
  assert (Hs : slice (out_header w f ++ payload f) 0 n = out_header w f ++ slice (payload f) 0 (n - 32)).
  { unfold slice, zlen in *. rewrite !drop_0, take_app. f_equal; [apply take_ge; lia|]. f_equal. lia. }
  rewrite Hs. unfold out_header. rewrite <- !app_assoc. rewrite slice_app_exact by done. f_equal. f_equal.
  rewrite (app_assoc (to_be 4 0)), from_app; [done|]. rewrite zlen_app, Hw. done.
Qed.
Lemma out_frame_run f : sends f -> out_run new_out_parser (chunk_frame (sent_bytes f)) = (Ok [f], new_out_parser).
Proof.
  intros Hf. rewrite sent_bytes_eq. set (w := to_le 4 (24 + zlen (payload f))). assert (Hw : zlen w = 4) by apply zlen_to_le.
  pose proof (zlen_out_header w f Hw) as Hh. pose proof (zlen_nonneg (payload f)). pose proof Hf as [_ (_ & _ & _ & Hcap)].
  assert (Ha : zlen (out_header w f ++ payload f) = 32 + zlen (payload f)) by len.
  unfold chunk_frame. rewrite Ha. destruct (Z.leb_spec (32 + zlen (payload f)) CHUNK) as [Hs|Hl].
  - cbn [out_run]. unfold out_feed. cbn [out_acc new_out_parser app]. change (out_strip [] ?s) with s.
    rewrite (proj2 (Z.ltb_ge _ _)) by (rewrite zlen_nil; lia). by rewrite out_drain_complete.
  - rewrite first_of_long by (done || lia). assert (Hw' : zlen (to_le 4 CONT_DATA) = 4) by done.
    pose proof (zlen_out_header (to_le 4 CONT_DATA) f Hw') as Hh'. unfold CHUNK in *.
    set (p := slice (payload f) 0 (8192 - 32)). assert (Hp : zlen p = 8192 - 32) by (unfold p; rewrite zlen_slice by lia; lia).
    assert (Hq : from (out_header w f ++ payload f) 8192 = from (payload f) (8192 - 32)).
    { unfold from, zlen in *. rewrite drop_app. rewrite (drop_ge (out_header w f)) by lia. cbn [app]. by f_equal; lia. }
    rewrite Hq. set (q := from (payload f) (8192 - 32)).
    assert (Hpq : payload f = p ++ q) by (unfold p, q, slice, from; rewrite drop_0; by rewrite take_drop).
    assert (Hqn : q <> []) by (intros E; rewrite Hpq, E, app_nil_r in Hl; lia).
    destruct (chunks_spec CONT_DATA q ltac:(done)) as [Hc Hfc].
    cbn [out_run]. unfold out_feed. cbn [out_acc new_out_parser app]. change (out_strip [] ?s) with s.
    rewrite (proj2 (Z.ltb_ge _ _)) by (rewrite zlen_nil, zlen_app; unfold ACC_CAP; lia).
    rewrite (out_drain_partial _ f p q) by done. rewrite (out_run_parts _ f p); [done..| | |by rewrite Hc].
    + intros E. rewrite E in Hc. by rewrite <- Hc in Hqn.
    + eapply Forall_impl; [exact Hfc|]. intros c Hcc. apply Hcc.
Qed.

Lemma out_run_requests (fs : list Frame) : Forall sends fs ->
  out_run new_out_parser (fs ≫= fun f => chunk_frame (sent_bytes f)) = (Ok fs, new_out_parser).
Proof.
  induction 1 as [|f fs Hf _ IH]; [done|]. cbn [mbind list_bind]. rewrite (out_run_app _ _ _ [f] new_out_parser) by (by apply out_frame_run).
  by rewrite IH.
Qed.
(** What the driver sends is what a capture of it shows. Whatever frames the host builds, of
    whatever length up to the cap, and though the transport cuts the long ones into enveloped
    transfers, reassembling the transfers in order yields exactly those frames, in order, no
    error and nothing left over. *)
Theorem host_frames_read_back (fs : list Frame) : Forall sends fs ->
  out_run new_out_parser (fs ≫= fun f => chunk_frame (sent_bytes f)) = (Ok fs, new_out_parser).
Proof. apply out_run_requests. Qed.
Definition long_request : Frame := {| magic := TTP_MAGIC_REQ; seq := 3; op := OP_CAL_APPLY; payload := replicate (Z.to_nat 20000) x00 |}.
Definition short_request : Frame := {| magic := TTP_MAGIC_REQ; seq := 4; op := OP_CAL_STOP; payload := [] |}.
Lemma host_frames_read_back_witness :
  out_run new_out_parser ([long_request; short_request] ≫= fun f => chunk_frame (sent_bytes f)) = (Ok [long_request; short_request], new_out_parser) /\
  length (chunk_frame (sent_bytes long_request)) = 3%nat.
Proof.
  split; [|vm_compute; reflexivity]. apply (host_frames_read_back [long_request; short_request]).
  repeat constructor; vm_compute; congruence.
Defined.
