(* ===== verification/Recap.v ===== *)
(** * Recap: a capture decoded (crates/tobii-recap/src/decode.rs, catalog.rs, opnames.rs)

    From the bytes of a capture to the frames on its timeline and the catalog of their ops.
    [capture_shows_the_session] composes the container, both reassemblers and the driver's
    own frame builder; [catalog_is_complete] is what the summary says of any timeline. *)
From stdpp Require Import gmap.
From S2P Require Import Prelude Text Hex F64 Floats Protocol Commands Parser Transport Pcap OutStream.

(** ** Names *)
Definition op_names : list (Z * text) :=
  [(OP_HELLO, txt "hello"); (OP_SUBSCRIBE, txt "subscribe"); (OP_QUERY_REALM, txt "query_realm"); (OP_OPEN_REALM, txt "open_realm");
   (OP_REALM_RESPONSE, txt "realm_response"); (OP_CLOSE_REALM, txt "close_realm"); (OP_GET_DISPLAY_AREA, txt "get_display_area");
   (OP_SET_DISPLAY_AREA, txt "set_display_area"); (OP_CAL_START, txt "cal_start"); (OP_CAL_STOP, txt "cal_stop");
   (OP_CAL_CLEAR, txt "cal_clear"); (OP_CAL_ADD_POINT, txt "cal_add_point"); (OP_CAL_COMPUTE, txt "cal_compute");
   (OP_CAL_RETRIEVE, txt "cal_retrieve"); (OP_CAL_APPLY, txt "cal_apply"); (OP_GET_ENABLED_EYE, txt "get_enabled_eye");
   (OP_SET_ENABLED_EYE, txt "set_enabled_eye"); (OP_GAZE_NOTIFY, txt "gaze_notify")].
Definition third_party_labels : list (Z * text) :=
  [(0x532, txt "?3p:unnamed"); (0x546, txt "?3p:capabilities"); (0x58c, txt "?3p:device_info"); (0x5b4, txt "?3p:unnamed");
   (0x5d2, txt "?3p:unnamed"); (0x672, txt "?3p:unnamed"); (0x6a4, txt "?3p:model_name"); (0x83e, txt "?3p:session_metadata");
   (0xbf4, txt "?3p:unnamed")].
Definition name_in (l : list (Z * text)) (o : Z) : option text := snd <$> find (fun kv => kv.1 =? o) l.
Definition op_name : Z -> option text := name_in op_names.
Definition third_party_label : Z -> option text := name_in third_party_labels.
Definition op_label (o : Z) : text :=
  match op_name o with
  | Some n => n
  | None => default (txt "?unknown") (third_party_label o)
  end.
(** A label from the other project never passes for a name found here. *)
Example labels_are_marked :
  forallb (fun kv => bool_decide (op_name kv.1 = None) && starts_with (txt "?3p:") (op_label kv.1)) third_party_labels = true.
Proof. vm_compute. reflexivity. Qed.

(** ** decode.rs *)
(** [{:.6}]: the exact value rounded to six places, ties to even. *)
Definition round_even (n d : Z) : Z :=
  let q := n / d in let r := n mod d in if (d <? 2 * r) || ((2 * r =? d) && Z.odd q) then q + 1 else q.
Definition show_6 (x : f64) : text :=
  let fixed (n : Z) := show_uint (n / 10 ^ 6) ++ txt "." ++ (let d := show_uint (n mod 10 ^ 6) in replicate (6 - length d) 48 ++ d) in
  match x with
  | S754_zero s => (if s then txt "-" else []) ++ fixed 0
  | S754_infinity s => (if s then txt "-" else []) ++ txt "inf"
  | S754_nan => txt "NaN"
  | S754_finite s m e => (if s then txt "-" else []) ++
      fixed (if 0 <=? e then Z.pos m * 2 ^ e * 10 ^ 6 else round_even (Z.pos m * 10 ^ 6) (2 ^ (- e)))
  end.
Example show_6_rounds : show_6 (lit 1 3) = txt "0.333333" /\ show_6 (lit 12345678 10) = txt "1234567.800000" /\ show_6 (lit (-5) 10000000) = txt "-0.000000".
Proof. vm_compute. auto. Qed.
Definition show_protocol_error (e : ProtocolError) : text :=
  match e with
  | ShortRead => txt "short read: not enough bytes"
  | WrongType x f => txt "wrong TLV type: expected " ++ show_uint (u8 x) ++ txt ", found " ++ show_uint (u8 f)
  | WrongSize x f => txt "wrong TLV size: expected " ++ show_uint x ++ txt ", found " ++ show_uint f
  | WrongTag x f => txt "wrong tag: expected " ++ show_hex x ++ txt ", found " ++ show_hex f
  | BadDirection b => txt "bad envelope direction byte: " ++ show_hex (u8 b)
  | BadLength n => txt "bad envelope length: " ++ show_uint n
  | Overflow => txt "reassembly buffer overflow"
  end.

Record TimelineFrame := { ts_rel : f64; inward : bool; frame : Frame }.
Record DecodeResult := {
  res_linktype : Z; packet_count : Z; bulk_in_bytes : Z; bulk_out_bytes : Z; frames : list TimelineFrame; errors : list text }.
(** The loop's variables: both parsers, the result so far and the time of the first record. *)
Record Decoding := { in_parser : Parser; out_parser : OutParser; result_ : DecodeResult; t0 : option f64 }.
Definition decoding0 (l : Z) : Decoding :=
  {| in_parser := new_parser; out_parser := new_out_parser;
     result_ := {| res_linktype := l; packet_count := 0; bulk_in_bytes := 0; bulk_out_bytes := 0; frames := []; errors := [] |}; t0 := None |}.
Definition add_error (e : text) (r : DecodeResult) : DecodeResult :=
  {| res_linktype := res_linktype r; packet_count := packet_count r; bulk_in_bytes := bulk_in_bytes r; bulk_out_bytes := bulk_out_bytes r;
     frames := frames r; errors := errors r ++ [e] |}.
Definition count_packet (r : DecodeResult) : DecodeResult :=
  {| res_linktype := res_linktype r; packet_count := packet_count r + 1; bulk_in_bytes := bulk_in_bytes r; bulk_out_bytes := bulk_out_bytes r;
     frames := frames r; errors := errors r |}.
Definition count_bytes (dir_in : bool) (n : Z) (r : DecodeResult) : DecodeResult :=
  {| res_linktype := res_linktype r; packet_count := packet_count r;
     bulk_in_bytes := if dir_in then bulk_in_bytes r + n else bulk_in_bytes r;
     bulk_out_bytes := if dir_in then bulk_out_bytes r else bulk_out_bytes r + n; frames := frames r; errors := errors r |}.
Definition push_frames (fs : list Frame) (ts : f64) (dir_in : bool) (r : DecodeResult) : DecodeResult :=
  {| res_linktype := res_linktype r; packet_count := packet_count r; bulk_in_bytes := bulk_in_bytes r; bulk_out_bytes := bulk_out_bytes r;
     frames := frames r ++ ((fun f => {| ts_rel := ts; inward := dir_in; frame := f |}) <$> fs); errors := errors r |}.
Definition upd (f : DecodeResult -> DecodeResult) (d : Decoding) : Decoding :=
  {| in_parser := in_parser d; out_parser := out_parser d; result_ := f (result_ d); t0 := t0 d |}.
Definition frame_error (which : text) (ts : f64) (e : text) : text := which ++ txt " frame error at t=+" ++ show_6 ts ++ txt ": " ++ e.

(** A payload, to the parser of its direction. *)
Definition decode_payload (data : bytes) (dir_in : bool) (ts : f64) (d : Decoding) : Decoding :=
  let d := upd (count_bytes dir_in (zlen data)) d in
  if dir_in then
    let '(r, p) := feed data (in_parser d) in
    let d := {| in_parser := p; out_parser := out_parser d; result_ := result_ d; t0 := t0 d |} in
    match r with
    | Ok fs => upd (push_frames fs ts true) d
    | Err e => upd (add_error (frame_error (txt "inbound") ts (show_protocol_error e))) d
    end
  else
    let '(r, p) := out_feed data (out_parser d) in
    let d := {| in_parser := in_parser d; out_parser := p; result_ := result_ d; t0 := t0 d |} in
    match r with
    | Ok fs => upd (push_frames fs ts false) d
    | Err e => upd (add_error (frame_error (txt "outbound") ts (show_out_error e))) d
    end.
Definition decode_packet (g : PcapGlobal) (p : Packet) (d : Decoding) : Decoding :=
  let ts := ts_seconds p (nanosecond g) in
  let start := default ts (t0 d) in
  let d := {| in_parser := in_parser d; out_parser := out_parser d; result_ := count_packet (result_ d); t0 := Some start |} in
  match parse_event (data p) (big_endian g) (linktype g) with
  | Err e => upd (add_error e) d
  | Ok ev => if negb (carries_payload ev) then d else decode_payload (event_data ev) (dir_in ev) (fsub ts start) d
  end.
(** [break] at the first record that cannot be read. *)
Fixpoint decode_records (g : PcapGlobal) (rs : list (result text Packet)) (d : Decoding) : Decoding :=
  match rs with
  | [] => d
  | Err e :: _ => upd (add_error e) d
  | Ok p :: rs => decode_records g rs (decode_packet g p d)
  end.
Definition decode (b : bytes) : result RecapError DecodeResult :=
  match new_record_reader b with
  | Err e => Err e
  | Ok (g, reader) =>
      if negb ((linktype g =? 220) || (linktype g =? 189)) then Err (UnsupportedLinktype (linktype g))
      else Ok (result_ (decode_records g (records reader) (decoding0 (linktype g))))
  end.

(** ** catalog.rs *)
Record OpStat := { stat_op : Z; host_to_device : bool; device_to_host : bool; count : Z; min_len : Z; max_len : Z; stat_name : option text }.
Definition dir_marker (s : OpStat) : text :=
  match host_to_device s, device_to_host s with
  | true, true => txt "<>" | true, false => txt ">" | false, true => txt "<" | false, false => txt "?"
  end.
Definition USIZE_MAX : Z := 2 ^ 64 - 1.
Definition new_stat (o : Z) : OpStat :=
  {| stat_op := o; host_to_device := false; device_to_host := false; count := 0; min_len := USIZE_MAX; max_len := 0; stat_name := op_name o |}.
Definition count_frame (tf : TimelineFrame) (s : OpStat) : OpStat :=
  let len := zlen (payload (frame tf)) in
  {| stat_op := stat_op s; host_to_device := host_to_device s || negb (inward tf); device_to_host := device_to_host s || inward tf;
     count := count s + 1; min_len := Z.min (min_len s) len; max_len := Z.max (max_len s) len; stat_name := stat_name s |}.
Definition by_op (fs : list TimelineFrame) : gmap Z OpStat :=
  foldl (fun m tf => let o := op (frame tf) in <[o := count_frame tf (default (new_stat o) (m !! o))]> m) ∅ fs.
(** Ops without a name first, then by number: no two rows have the same key. *)
Definition stat_le (a b : OpStat) : bool :=
  match stat_name a, stat_name b with
  | None, Some _ => true
  | Some _, None => false
  | _, _ => stat_op a <=? stat_op b
  end.
Definition build (fs : list TimelineFrame) : list OpStat := sort_by stat_le (snd <$> map_to_list (by_op fs)).

(** ** A session and its capture *)
Record Transfer := { at_sec : Z; at_frac : Z; orig_len : Z; urb : Urb }.
Definition transfer_ok (l : Z) (big : bool) (t : Transfer) : Prop :=
  is_u 32 (at_sec t) /\ is_u 32 (at_frac t) /\ urb_ok l (urb t) /\ is_u 32 (zlen (urb_bytes big (urb t))).
Definition record_of (big : bool) (t : Transfer) : Packet * Z :=
  ({| ts_sec := at_sec t; ts_frac := at_frac t; data := urb_bytes big (urb t) |}, orig_len t).
Definition capture_bytes (g : PcapGlobal) (mid : bytes) (ts : list Transfer) : bytes := pcap_bytes g mid (record_of (big_endian g) <$> ts).
(** The bytes that crossed the bus in one direction: a bulk transfer carries them when the
    host submits it, or when the device completes it. *)
Definition carried (dir_in : bool) (t : Transfer) : option bytes :=
  if (u8 (urb_xfer (urb t)) =? 3) && negb (bool_decide (urb_data (urb t) = [])) && Bool.eqb (urb_in (urb t)) dir_in
     && (u8 (urb_event (urb t)) =? if dir_in then 0x43 else 0x53)
  then Some (urb_data (urb t)) else None.
Definition shown (dir_in : bool) (r : DecodeResult) : list Frame :=
  frame <$> base.filter (fun tf => inward tf = dir_in) (frames r).
Definition total (l : list bytes) : Z := foldr (fun b n => zlen b + n) 0 l.

Lemma carries_urb t : carries_payload (urb_says (urb t)) = true ->
  carried (urb_in (urb t)) t = Some (urb_data (urb t)) /\ carried (negb (urb_in (urb t))) t = None.
Proof.
  unfold carries_payload, carried, urb_says, XFER_BULK, EVENT_COMPLETE, EVENT_SUBMIT. cbn [xfer_type event_type dir_in event_data].
  destruct (_ =? 3), (bool_decide _), (urb_in (urb t)); cbn [negb orb andb Bool.eqb]; try done; rewrite ?orb_false_r; intros H; by rewrite H.
Qed.
Lemma carries_nothing t dir : carries_payload (urb_says (urb t)) = false -> carried dir t = None.
Proof.
  unfold carries_payload, carried, urb_says, XFER_BULK, EVENT_COMPLETE, EVENT_SUBMIT. cbn [xfer_type event_type dir_in event_data].
  destruct (_ =? 3), (bool_decide _), (urb_in (urb t)), dir; cbn [negb orb andb Bool.eqb]; try done; rewrite ?orb_false_r; intros H; by rewrite H.
Qed.
Lemma shown_push dir dir' fs ts r : shown dir (push_frames fs ts dir' r) = shown dir r ++ (if Bool.eqb dir dir' then fs else []).
Proof.
  unfold shown, push_frames. cbn [frames]. rewrite filter_app, fmap_app. f_equal.
  induction fs as [|f fs IH]; [by destruct (Bool.eqb dir dir')|]. rewrite fmap_cons, filter_cons. cbn [inward].
  destruct (Bool.eqb_spec dir dir') as [->|Hd].
  - rewrite decide_True, fmap_cons by done. cbn [frame]. by rewrite IH.
  - by rewrite decide_False by congruence.
Qed.

(** What decoding the rest of a session adds, when no parser meets an error. *)
Definition adds (r r' : DecodeResult) (n : Z) (ins outs : list bytes) (fi fo : list Frame) : Prop :=
  errors r' = errors r /\ packet_count r' = packet_count r + n /\ shown true r' = shown true r ++ fi /\ shown false r' = shown false r ++ fo /\
  bulk_in_bytes r' = bulk_in_bytes r + total ins /\ bulk_out_bytes r' = bulk_out_bytes r + total outs.
Lemma run_app_inv p cs ds fs p' : run p (cs ++ ds) = (Ok fs, p') ->
  exists f1 f2 q, run p cs = (Ok f1, q) /\ run q ds = (Ok f2, p') /\ fs = f1 ++ f2.
Proof.
  revert p fs. induction cs as [|c cs IH]; intros p fs H; [by exists [], fs, p|]. cbn [run app] in *.
  destruct (feed c p) as [[gs|e] q]; [|done]. destruct (run q (cs ++ ds)) as [[hs|e] q'] eqn:E; [|done]. injection H as <- <-.
  destruct (IH q hs E) as (f1 & f2 & q2 & H1 & H2 & ->). exists (gs ++ f1), f2, q2. rewrite H1. by rewrite app_assoc.
Qed.
Lemma out_run_app_inv p cs ds fs p' : out_run p (cs ++ ds) = (Ok fs, p') ->
  exists f1 f2 q, out_run p cs = (Ok f1, q) /\ out_run q ds = (Ok f2, p') /\ fs = f1 ++ f2.
Proof.
  revert p fs. induction cs as [|c cs IH]; intros p fs H; [by exists [], fs, p|]. cbn [out_run app] in *.
  destruct (out_feed c p) as [[gs|e] q]; [|done]. destruct (out_run q (cs ++ ds)) as [[hs|e] q'] eqn:E; [|done]. injection H as <- <-.
  destruct (IH q hs E) as (f1 & f2 & q2 & H1 & H2 & ->). exists (gs ++ f1), f2, q2. rewrite H1. by rewrite app_assoc.
Qed.
Lemma run_one p c fs q : run p [c] = (Ok fs, q) -> feed c p = (Ok fs, q).
Proof. cbn [run]. destruct (feed c p) as [[gs|e] r]; [|done]. by rewrite app_nil_r. Qed.
Lemma out_run_one p c fs q : out_run p [c] = (Ok fs, q) -> out_feed c p = (Ok fs, q).
Proof. cbn [out_run]. destruct (out_feed c p) as [[gs|e] r]; [|done]. by rewrite app_nil_r. Qed.
Lemma shown_total_app l k : total (l ++ k) = total l + total k.
Proof. induction l as [|b l IH]; [done|]. cbn [app total foldr] in *. unfold total in IH at 1. cbn. unfold total in *. lia. Qed.
Lemma adds_trans r1 r2 r3 n m i1 i2 o1 o2 fi1 fi2 fo1 fo2 : adds r1 r2 n i1 o1 fi1 fo1 -> adds r2 r3 m i2 o2 fi2 fo2 ->
  adds r1 r3 (n + m) (i1 ++ i2) (o1 ++ o2) (fi1 ++ fi2) (fo1 ++ fo2).
Proof.
  intros (H1 & H2 & H3 & H4 & H5 & H6) (G1 & G2 & G3 & G4 & G5 & G6). unfold adds. rewrite !shown_total_app, G1, G2, G3, G4, G5, G6, H3, H4, !app_assoc.
  split_and!; (done || lia).
Qed.
Lemma adds_nothing r : adds r r 0 [] [] [] [].
Proof. unfold adds. rewrite !app_nil_r. split_and!; (done || cbn [total foldr]; lia). Qed.

Lemma decode_transfer g t d fi fo p q : transfer_ok (linktype g) (big_endian g) t ->
  run (in_parser d) (option_list (carried true t)) = (Ok fi, p) -> out_run (out_parser d) (option_list (carried false t)) = (Ok fo, q) ->
  let d1 := decode_packet g (record_of (big_endian g) t).1 d in
  in_parser d1 = p /\ out_parser d1 = q /\
  adds (result_ d) (result_ d1) 1 (option_list (carried true t)) (option_list (carried false t)) fi fo.
Proof.
  intros (_ & _ & Hu & _) Hi Ho d1. unfold d1, decode_packet. cbn [record_of fst data]. rewrite event_read by done.
  destruct (carries_payload (urb_says (urb t))) eqn:Ec; cbn [negb].
  - apply carries_urb in Ec as [Ec En]. cbn [dir_in event_data urb_says] in *. unfold decode_payload.
    destruct (urb_in (urb t)); cbn [negb] in En; rewrite ?Ec, ?En in Hi; rewrite ?Ec, ?En in Ho; rewrite ?Ec, ?En; cbn [option_list] in *.
    + apply run_one in Hi. injection Ho as <- <-. cbn [upd in_parser]. rewrite Hi. cbn [in_parser out_parser upd result_]. split_and!; [done..|].
      unfold adds. rewrite !shown_push. cbn. rewrite !app_nil_r. split_and!; (done || lia).
    + apply out_run_one in Ho. injection Hi as <- <-. cbn [upd out_parser]. rewrite Ho. cbn [in_parser out_parser upd result_]. split_and!; [done..|].
      unfold adds. rewrite !shown_push. cbn. rewrite !app_nil_r. split_and!; (done || lia).
  - rewrite (carries_nothing t true) in * by done. rewrite (carries_nothing t false) in * by done. cbn [option_list] in *. injection Hi as <- <-. injection Ho as <- <-.
    cbn [in_parser out_parser result_]. split_and!; [done..|]. unfold adds. cbn. rewrite !app_nil_r. split_and!; (done || lia).
Qed.
Lemma omap_cons_app {A B} (f : A -> option B) x l : omap f (x :: l) = option_list (f x) ++ omap f l.
Proof. cbn. by destruct (f x). Qed.
Lemma decode_session g ts : forall d fi fo p q, Forall (transfer_ok (linktype g) (big_endian g)) ts ->
  run (in_parser d) (omap (carried true) ts) = (Ok fi, p) -> out_run (out_parser d) (omap (carried false) ts) = (Ok fo, q) ->
  adds (result_ d) (result_ (decode_records g (Ok ∘ fst <$> (record_of (big_endian g) <$> ts)) d)) (zlen ts)
    (omap (carried true) ts) (omap (carried false) ts) fi fo.
Proof.
  induction ts as [|t ts IH]; intros d fi fo p q Hok Hi Ho.
  - injection Hi as <- _. injection Ho as <- _. apply adds_nothing.
  - apply Forall_cons in Hok as [Ht Hok]. rewrite omap_cons_app in Hi, Ho |- *. rewrite omap_cons_app.
    apply run_app_inv in Hi as (f1 & f2 & p1 & Hi1 & Hi2 & ->). apply out_run_app_inv in Ho as (g1 & g2 & q1 & Ho1 & Ho2 & ->).
    destruct (decode_transfer g t d f1 g1 p1 q1 Ht Hi1 Ho1) as (Ep & Eq & Ha). rewrite zlen_cons. cbn [fmap list_fmap decode_records].
    eapply adds_trans; [exact Ha|]. eapply IH; [done|by rewrite Ep|by rewrite Eq].
Qed.

(** C38: A capture shows the session that was captured. Whatever crossed the bus, in either byte
    order and under either kind of header: when what the host sent is frames of its own
    builder, cut by its own transport, and the device's transfers reassemble, then decoding
    the capture reports no error, counts every packet and every byte, and puts on the
    timeline exactly those requests and exactly those replies, each in order. *)
Theorem capture_shows_the_session (g : PcapGlobal) (mid : bytes) (ts : list Transfer) (requests replies : list Frame) (p : Parser) :
  global_ok g -> linktype g = 220 \/ linktype g = 189 -> zlen mid = 12 -> Forall (transfer_ok (linktype g) (big_endian g)) ts ->
  Forall sends requests -> omap (carried false) ts = (requests ≫= fun f => chunk_frame (sent_bytes f)) ->
  run new_parser (omap (carried true) ts) = (Ok replies, p) ->
  exists r, decode (capture_bytes g mid ts) = Ok r /\ errors r = [] /\ packet_count r = zlen ts /\
    shown false r = requests /\ shown true r = replies /\
    bulk_in_bytes r = total (omap (carried true) ts) /\ bulk_out_bytes r = total (omap (carried false) ts).
Proof.
  intros Hg Hl Hm Hts Hs Ho Hi. pose proof (out_run_requests requests Hs) as Hr. rewrite <- Ho in Hr.
  destruct (records_written_read g mid (record_of (big_endian g) <$> ts) Hg Hm) as (rd & Hrd & Hrs).
  { apply Forall_fmap. eapply Forall_impl; [exact Hts|]. intros t (H1 & H2 & _ & H3). by split_and!. }
  unfold decode, capture_bytes. rewrite Hrd, Hrs.
  assert (Hk : ((linktype g =? 220) || (linktype g =? 189)) = true) by (destruct Hl as [-> | ->]; done). rewrite Hk. cbn [negb].
  eexists. split; [reflexivity|].
  pose proof (decode_session g ts (decoding0 (linktype g)) replies requests p _ Hts Hi Hr) as (H1 & H2 & H3 & H4 & H5 & H6).
  by split_and!.
Qed.
Definition sample_urb (ep event : byte) (d : bytes) : Urb :=
  {| urb_id := replicate 8 x00; urb_event := event; urb_xfer := x03; urb_ep := ep; urb_mid := replicate 25 x00; urb_tail := replicate 24 x00; urb_data := d |}.
(** A request, its empty completion, and the reply in two transfers. *)
Definition sample_session : list Transfer :=
  (fun u => {| at_sec := 1; at_frac := 5; orig_len := 0; urb := u |}) <$>
  [sample_urb x03 x53 (sent_bytes short_request); sample_urb x03 x43 []; sample_urb x83 x43 (take 20 (in_frame 35 frame_a));
   sample_urb x83 x53 []; sample_urb x83 x43 (drop 20 (in_frame 35 frame_a))].
Lemma capture_shows_the_session_witness :
  exists r, decode (capture_bytes sample_global (replicate 12 x00) sample_session) = Ok r /\ shown false r = [short_request] /\ shown true r = [frame_a].
Proof.
  destruct (capture_shows_the_session sample_global (replicate 12 x00) sample_session [short_request] [frame_a] new_parser) as (r & H1 & _ & _ & H2 & H3 & _).
  - vm_compute. repeat split; discriminate.
  - left. reflexivity.
  - reflexivity.
  - repeat constructor; vm_compute; congruence.
  - repeat constructor; vm_compute; congruence.
  - vm_compute. reflexivity.
  - vm_compute. reflexivity.
  - exists r. exact (conj H1 (conj H2 H3)).
Defined.

(** ** The catalog *)
Definition mine (o : Z) (fs : list TimelineFrame) : list TimelineFrame := base.filter (fun tf => op (frame tf) = o) fs.
Definition stat_of (o : Z) (fs : list TimelineFrame) : OpStat := foldl (fun s tf => count_frame tf s) (new_stat o) fs.
Lemma by_op_lookup fs o : by_op fs !! o = match mine o fs with [] => None | l => Some (stat_of o l) end.
Proof.
  unfold mine. induction fs as [|tf fs IH] using rev_ind; [apply lookup_empty|].
  unfold by_op in *. rewrite foldl_app, filter_app. cbn [foldl]. rewrite filter_cons, filter_nil. cbn zeta.
  destruct (decide (op (frame tf) = o)) as [<-|Hne].
  - rewrite lookup_insert_eq, IH. destruct (base.filter _ fs) as [|x l] eqn:E; [done|]. cbn [app default]. f_equal.
    unfold stat_of. cbn [foldl]. by rewrite foldl_app.
  - rewrite lookup_insert_ne by done. by rewrite app_nil_r.
Qed.
Lemma stat_of_spec o fs : let s := stat_of o fs in
  stat_op s = o /\ stat_name s = op_name o /\ count s = zlen fs /\
  host_to_device s = existsb (fun tf => negb (inward tf)) fs /\ device_to_host s = existsb inward fs /\
  (forall tf, tf ∈ fs -> min_len s <= zlen (payload (frame tf)) <= max_len s) /\
  (min_len s = USIZE_MAX \/ exists tf, tf ∈ fs /\ zlen (payload (frame tf)) = min_len s) /\
  (max_len s = 0 \/ exists tf, tf ∈ fs /\ zlen (payload (frame tf)) = max_len s).
Proof.
  induction fs as [|tf fs IH] using rev_ind; [split_and!; try done; [by intros ? ?%elem_of_nil|by left|by left]|].
  unfold stat_of in *. rewrite foldl_app. cbn [foldl]. set (s := foldl _ (new_stat o) fs) in *.
  destruct IH as (H1 & H2 & H3 & H4 & H5 & H6 & H7 & H8). cbn zeta. unfold count_frame. cbn.
  rewrite !existsb_app, <- H4, <- H5. cbn [existsb]. rewrite !orb_false_r. split_and!; try done.
  - rewrite H3. len.
  - intros x [Hx| ->%list_elem_of_singleton]%elem_of_app; [specialize (H6 x Hx)|]; lia.
  - destruct (Z.min_spec (min_len s) (zlen (payload (frame tf)))) as [[_ ->]|[_ ->]].
    + destruct H7 as [H7|(x & Hx & E)]; [by left|right; exists x; split; [apply elem_of_app; by left|done]].
    + right. exists tf. split; [apply elem_of_app; right; by apply list_elem_of_singleton|done].
  - destruct (Z.max_spec (max_len s) (zlen (payload (frame tf)))) as [[_ ->]|[_ ->]].
    + right. exists tf. split; [apply elem_of_app; right; by apply list_elem_of_singleton|done].
    + destruct H8 as [H8|(x & Hx & E)]; [by left|right; exists x; split; [apply elem_of_app; by left|done]].
Qed.
Lemma stat_le_total a b : stat_le a b = false -> stat_le b a = true.
Proof. unfold stat_le. destruct (stat_name a), (stat_name b); rewrite ?Z.leb_gt, ?Z.leb_le; (done || lia). Qed.
Lemma in_build fs s : s ∈ build fs <-> mine (stat_op s) fs <> [] /\ s = stat_of (stat_op s) (mine (stat_op s) fs).
Proof.
  unfold build. rewrite sort_by_perm, list_elem_of_fmap. split.
  - intros ([o s'] & -> & Hin%elem_of_map_to_list). rewrite by_op_lookup in Hin. cbn [snd].
    destruct (mine o fs) as [|x l] eqn:E; [done|]. injection Hin as <-. rewrite (proj1 (stat_of_spec o (x :: l))), E. done.
  - intros [Hne E]. exists (stat_op s, s). split; [done|]. apply elem_of_map_to_list. rewrite by_op_lookup.
    destruct (mine (stat_op s) fs) as [|x l]; [done|]. by rewrite E at 2.
Qed.
Lemma build_ops fs : NoDup (stat_op <$> build fs).
Proof.
  unfold build. rewrite sort_by_perm, <- list_fmap_compose.
  rewrite (list_fmap_ext (stat_op ∘ snd) fst (map_to_list (by_op fs))); [apply NoDup_fst_map_to_list|].
  intros i [o s] Hi. apply list_elem_of_lookup_2, elem_of_map_to_list in Hi. rewrite by_op_lookup in Hi. cbn.
  destruct (mine o fs) as [|x l]; [done|]. injection Hi as <-. apply stat_of_spec.
Qed.

(** The catalog leaves no op out and counts none twice: there is one row for each op on the
    timeline, those without a name first and by number otherwise; a row counts the frames of
    its op, names the directions they went in, and gives the shortest and the longest of
    them. *)
Theorem catalog_is_complete (fs : list TimelineFrame) :
  NoDup (stat_op <$> build fs) /\ Sorted (fun a b => stat_le a b = true) (build fs) /\
  (forall o, o ∈ stat_op <$> build fs <-> exists tf, tf ∈ fs /\ op (frame tf) = o) /\
  forall s, s ∈ build fs ->
    let mine := base.filter (fun tf => op (frame tf) = stat_op s) fs in
    stat_name s = op_name (stat_op s) /\ count s = zlen mine /\
    host_to_device s = existsb (fun tf => negb (inward tf)) mine /\ device_to_host s = existsb inward mine /\
    (forall tf, tf ∈ mine -> min_len s <= zlen (payload (frame tf)) <= max_len s) /\
    (Forall (fun tf => zlen (payload (frame tf)) <= USIZE_MAX) fs ->
       (exists tf, tf ∈ mine /\ zlen (payload (frame tf)) = min_len s) /\ exists tf, tf ∈ mine /\ zlen (payload (frame tf)) = max_len s).
Proof.
  split; [apply build_ops|split; [apply sort_by_sorted, stat_le_total|split]].
  - intros o. rewrite list_elem_of_fmap. split.
    + intros (s & -> & [Hne _]%in_build). destruct (mine (stat_op s) fs) as [|tf l] eqn:E; [done|]. exists tf.
      assert (Hin : tf ∈ mine (stat_op s) fs) by (rewrite E; apply list_elem_of_here). unfold mine in Hin. rewrite list_elem_of_filter in Hin. tauto.
    + intros (tf & Hin & Ho). assert (Hm : tf ∈ mine o fs) by (unfold mine; by apply list_elem_of_filter).
      exists (stat_of o (mine o fs)). pose proof (stat_of_spec o (mine o fs)) as [E _]. split; [done|]. apply in_build. rewrite E.
      split; [|done]. intros Hn. rewrite Hn in Hm. by apply elem_of_nil in Hm.
  - intros s Hs m. apply in_build in Hs as [Hne E]. fold (mine (stat_op s) fs) in m. subst m. set (m := mine (stat_op s) fs) in *.
    destruct (stat_of_spec (stat_op s) m) as (_ & H2 & H3 & H4 & H5 & H6 & H7 & H8). rewrite <- E in *. split_and!; try done.
    intros Hall. destruct m as [|tf l] eqn:Em; [done|].
    assert (Htf : zlen (payload (frame tf)) <= USIZE_MAX).
    { rewrite Forall_forall in Hall. apply Hall. assert (Hin : tf ∈ mine (stat_op s) fs) by (fold m in Em; unfold m in Em; rewrite Em; apply list_elem_of_here).
      unfold mine in Hin. rewrite list_elem_of_filter in Hin. tauto. }
    specialize (H6 tf (list_elem_of_here _ _)). pose proof (zlen_nonneg (payload (frame tf))). split.
    + destruct H7 as [H7|H7]; [|done]. exists tf. split; [apply list_elem_of_here|lia].
    + destruct H8 as [H8|H8]; [|done]. exists tf. split; [apply list_elem_of_here|lia].
Qed.
