(* ===== verification/CustomGames.v ===== *)
(** * CustomGames: the games added by hand (crates/tobii-config/src/custom_games.rs)

    The list, its file and adding to it. Names are text, prefixes are bytes, and two prefixes
    are one when their components are. [list_survives_a_save] says which lists read back as
    they were written, [add_says] what is added and why not; the two do not meet, and
    [a_hash_name_is_lost] and [a_return_is_lost] are where. *)
From S2P Require Import Prelude Utf8 Text Bytelines Paths.

Record CustomGame := { game_name : text; prefix : bytes }.
Inductive AddError := NoName | Untypeable (what : text) | Already (name : text).
Definition show_add_error (e : AddError) : text :=
  match e with
  | NoName => txt "give the game a name"
  | Untypeable what => txt "the " ++ what ++ txt " contains a tab or a line break, which this list cannot hold"
  | Already n => txt "that prefix is already in the list, as “" ++ n ++ txt "”"
  end.
Definition path_of_bytes (p : bytes) : text := u8 <$> p.
Definition same_prefix (a b : bytes) : bool := bool_decide (components (path_of_bytes a) = components (path_of_bytes b)).

(** [splitn(2, tab)] *)
Fixpoint split_tab (l : bytes) : option (bytes * bytes) :=
  match l with
  | [] => None
  | b :: l => if u8 b =? 9 then Some ([], l) else '(a, r) ← split_tab l; Some (b :: a, r)
  end.
Definition has_byte (c : Z) (l : bytes) : bool := existsb (fun b => u8 b =? c) l.
Definition blank_bytes (l : bytes) : bool := forallb (fun b => is_ascii_whitespace (u8 b)) l.
(** A comment, or nothing. *)
Definition is_comment (line : bytes) : bool :=
  let t := lossy_text line in bool_decide (trim t = []) || starts_with [35] (trim_start t).
Definition game_of (line : bytes) : option CustomGame :=
  if is_comment line then None
  else '(name, prefix) ← split_tab line;
       if has_byte 9 prefix then None
       else name ← utf8_decode name;
            let name := trim name in
            if bool_decide (name = []) || blank_bytes prefix then None else Some {| game_name := name; prefix := prefix |}.
Definition push_game (out : list CustomGame) (raw : bytes) : list CustomGame :=
  match game_of (strip_return raw) with
  | Some g => if existsb (fun h => same_prefix (prefix h) (prefix g)) out then out else out ++ [g]
  | None => out
  end.
Definition parse (b : bytes) : list CustomGame := foldl push_game [] (split_lines b).
Definition list_from (file : option bytes) : list CustomGame := match file with Some b => parse b | None => [] end.

Definition HEADER : bytes := utf8_encode (txt "# tobii-linux custom games
# One game per line: a name, a TAB, and the Wine prefix it lives in.
# `tobii bridge install --prefix <that path>` is what the hub runs for one.
").
Definition game_line (g : CustomGame) : bytes := utf8_encode (game_name g) ++ x09 :: prefix g.
Definition render (games : list CustomGame) : bytes := HEADER ++ (games ≫= fun g => game_line g ++ [x0a]).

Definition has_char (c : char) (t : text) : bool := existsb (Z.eqb c) t.
Definition breaks (t : text) : bool := has_char 9 t || has_char 10 t.
Definition add (games : list CustomGame) (name : text) (p : bytes) : result AddError (list CustomGame) :=
  let name := trim name in
  if bool_decide (name = []) then Err NoName
  else if breaks name then Err (Untypeable (txt "name"))
  else if breaks (lossy_text p) then Err (Untypeable (txt "folder"))
  else match find (fun g => same_prefix (prefix g) p) games with
       | Some had => Err (Already (game_name had))
       | None => Ok (games ++ [{| game_name := name; prefix := p |}])
       end.
Definition remove (games : list CustomGame) (p : bytes) : list CustomGame * bool :=
  let kept := base.filter (fun g => same_prefix (prefix g) p = false) games in
  (kept, negb (zlen kept =? zlen games)).

(** ** What survives a save *)
Definition starts_hash (t : text) : bool := match t with c :: _ => c =? 35 | [] => false end.
Record survives (g : CustomGame) : Prop := {
  s_text : scalars (game_name g);
  s_trimmed : trim (game_name g) = game_name g;
  s_named : game_name g <> [];
  s_name_line : breaks (game_name g) = false;
  s_no_hash : starts_hash (game_name g) = false;
  s_prefix_line : has_byte 9 (prefix g) = false /\ has_byte 10 (prefix g) = false;
  s_prefix : blank_bytes (prefix g) = false;
  s_no_return : forall x, last (prefix g) = Some x -> u8 x <> 13 }.
Definition distinct (games : list CustomGame) : Prop := NoDup ((fun g => components (path_of_bytes (prefix g))) <$> games).

Lemma has_byte_forall c l : has_byte c l = false <-> Forall (fun b => u8 b <> c) l.
Proof.
  unfold has_byte. rewrite List.Forall_forall. split.
  - intros H b Hb E. assert (existsb (fun b => u8 b =? c) l = true); [|congruence]. apply existsb_exists. exists b. split; [done|]. by apply Z.eqb_eq.
  - intros H. apply not_true_is_false. intros (b & Hb & E)%existsb_exists. by apply (H b Hb), Z.eqb_eq.
Qed.
Lemma has_char_forall c t : has_char c t = false <-> Forall (fun x => x <> c) t.
Proof.
  unfold has_char. rewrite List.Forall_forall. split.
  - intros H b Hb E. assert (existsb (Z.eqb c) t = true); [|congruence]. apply existsb_exists. exists b. split; [done|]. by apply Z.eqb_eq.
  - intros H. apply not_true_is_false. intros (b & Hb & E)%existsb_exists. apply (H b Hb). symmetry. by apply Z.eqb_eq.
Qed.
(** A byte below 128 that an encoding holds is a character of the text. *)
Lemma encode_low c x : is_char x = true -> 0 <= c < 128 -> x <> c -> Forall (fun b => u8 b <> c) (encode_char x).
Proof.
  intros Hx Hc Hne. unfold is_char in Hx. unfold encode_char.
  assert (Hr : 0 <= x < 0xd800 \/ 0xe000 <= x < 0x110000) by lia. clear Hx.
  destruct (Z.ltb_spec x 0x80); [|destruct (Z.ltb_spec x 0x800); [|destruct (Z.ltb_spec x 0x10000)]];
    repeat constructor; rewrite u8_of_Z by zlia; zlia.
Qed.
Lemma encode_text_low c t : scalars t -> 0 <= c < 128 -> Forall (fun x => x <> c) t -> Forall (fun b => u8 b <> c) (utf8_encode t).
Proof.
  intros Hs Hc. induction Hs as [|x t Hx _ IH]; intros Ht; [constructor|]. apply Forall_cons in Ht as [Hn Ht].
  change (utf8_encode (x :: t)) with (encode_char x ++ utf8_encode t). apply Forall_app. split; [by apply encode_low|by apply IH].
Qed.
Lemma split_tab_app a r : Forall (fun b => u8 b <> 9) a -> split_tab (a ++ x09 :: r) = Some (a, r).
Proof. induction 1 as [|b a Hb _ IH]; [done|]. cbn. rewrite (proj2 (Z.eqb_neq _ _) Hb). by rewrite IH. Qed.
Lemma trimmed_front t : trim t = t -> t <> [] -> front_ok is_whitespace t.
Proof.
  intros E Hn. unfold trim, trim_by in E. destruct (trim_end_prefix is_whitespace (trim_start_by is_whitespace t)) as (w & Ew & _). rewrite E in Ew.
  destruct (trim_start_suffix is_whitespace t) as (v & Ev & _).
  assert (Hl : length t = (length v + (length t + length w))%nat) by (rewrite Ev at 1; rewrite length_app; f_equal; rewrite Ew at 1; by rewrite length_app).
  assert (v = []) as -> by (destruct v; [done|cbn in Hl; lia]). cbn in Ev. rewrite Ev. apply trim_start_front.
Qed.
Lemma starts_hash_app n r : n <> [] -> starts_with [35] (n ++ r) = starts_hash n.
Proof. destruct n as [|c n]; [done|]. intros _. unfold starts_with, starts_hash. rewrite (Z.eqb_sym c). cbn [app strip_prefix]. by destruct (35 =? c). Qed.
Lemma not_comment n rest : scalars n -> trim n = n -> n <> [] -> starts_hash n = false -> is_comment (utf8_encode n ++ rest) = false.
Proof.
  intros Hs Ht Hn Hh. unfold is_comment. rewrite lossy_text_encoded by done. pose proof (trimmed_front n Ht Hn) as Hf.
  assert (E : trim_start (n ++ lossy_text rest) = n ++ lossy_text rest) by (apply trim_start_id; by apply front_ok_app).
  rewrite E, starts_hash_app, Hh, orb_false_r by done. destruct n as [|c n]; [done|]. cbn in Hf.
  apply bool_decide_eq_false. unfold trim, trim_by. unfold trim_start in E. rewrite E. intros E0.
  destruct (trim_end_prefix is_whitespace ((c :: n) ++ lossy_text rest)) as (w & Ew & Hw). rewrite E0 in Ew. cbn in Ew. rewrite <- Ew in Hw.
  apply Forall_inv in Hw. congruence.
Qed.
Lemma last_of_line a p : p <> [] -> last (a ++ x09 :: p) = last p.
Proof. intros Hp. rewrite last_app, last_cons. destruct (last p) eqn:E; [done|]. by apply last_None in E. Qed.
Lemma survivor_read g : survives g -> game_of (strip_return (game_line g)) = Some g.
Proof.
  intros [H1 H2 H3 H4 H5 [H6 H7] H8 H9]. apply orb_false_iff in H4 as [H4 _]. rewrite has_char_forall in H4. unfold game_line.
  assert (Hp : prefix g <> []) by (intros E; by rewrite E in H8).
  rewrite strip_return_id by (intros x; rewrite last_of_line by done; apply H9).
  unfold game_of. rewrite not_comment by done. rewrite split_tab_app by (by apply encode_text_low).
  cbn [mbind option_bind]. rewrite H6, decode_encode by done. cbn [mbind option_bind]. rewrite H2, H8, bool_decide_eq_false_2 by done. by destruct g.
Qed.
Lemma survivor_line g : survives g -> whole_line (game_line g).
Proof.
  intros [H1 H2 H3 H4 H5 [H6 H7] H8 H9]. apply orb_false_iff in H4 as [_ H4]. rewrite has_char_forall in H4. rewrite has_byte_forall in H7.
  apply Forall_app. split; [by apply encode_text_low|]. by constructor.
Qed.
Lemma same_prefix_spec a b : same_prefix a b = true <-> components (path_of_bytes a) = components (path_of_bytes b).
Proof. unfold same_prefix. apply bool_decide_eq_true. Qed.
Lemma new_prefix out g : components (path_of_bytes (prefix g)) ∉ (fun h => components (path_of_bytes (prefix h))) <$> out ->
  existsb (fun h => same_prefix (prefix h) (prefix g)) out = false.
Proof.
  intros H. apply not_true_is_false. intros (h & Hh & E)%existsb_exists. apply H. apply list_elem_of_fmap. exists h.
  split; [symmetry; by apply same_prefix_spec|by apply list_elem_of_In].
Qed.
Lemma push_all games rest : forall out, Forall survives games -> distinct (out ++ games) ->
  foldl push_game out (split_lines ((games ≫= fun g => game_line g ++ [x0a]) ++ rest)) = foldl push_game (out ++ games) (split_lines rest).
Proof.
  induction games as [|g games IH]; intros out Hs Hd; [by rewrite app_nil_r|]. apply Forall_cons in Hs as [Hg Hs].
  cbn [mbind list_bind]. rewrite <- !app_assoc. cbn [app]. rewrite split_lines_app by (by apply survivor_line). cbn [foldl].
  unfold push_game at 2. rewrite survivor_read by done. rewrite new_prefix.
  - rewrite IH; [by rewrite <- app_assoc|done|]. unfold distinct in *. by rewrite <- app_assoc.
  - unfold distinct in Hd. rewrite fmap_app in Hd. apply NoDup_app in Hd as (_ & Hd & _). intros Hin. apply (Hd _ Hin). apply list_elem_of_here.
Qed.
Lemma header_skipped out b : foldl push_game out (split_lines (HEADER ++ b)) = foldl push_game out (split_lines b).
Proof.
  change HEADER with (utf8_encode (txt "# tobii-linux custom games") ++ x0a ::
    (utf8_encode (txt "# One game per line: a name, a TAB, and the Wine prefix it lives in.") ++ x0a ::
     (utf8_encode (txt "# `tobii bridge install --prefix <that path>` is what the hub runs for one.") ++ x0a :: []))).
  rewrite <- !app_assoc. cbn [app]. rewrite <- !app_assoc. cbn [app]. rewrite <- !app_assoc. cbn [app].
  rewrite !split_lines_app by (apply encode_text_low; [|done|]; repeat (constructor; [done|]); constructor). done.
Qed.

(** A list that is saved is the list that is read: names that are trimmed text and do not
    begin like a comment, prefixes of any bytes - also bytes that are no text - that are not
    blank and do not end in a carriage return, none twice. *)
Theorem list_survives_a_save (games : list CustomGame) : Forall survives games -> distinct games -> parse (render games) = games.
Proof. intros Hs Hd. unfold parse, render. rewrite header_skipped. rewrite <- (app_nil_r (_ ≫= _)). by rewrite push_all. Qed.
Definition sample_games : list CustomGame :=
  [{| game_name := txt "Star Citizen"; prefix := utf8_encode (txt "/home/me/Games/star citizen/pfx ") |};
   {| game_name := txt "é"; prefix := [x2f; xff; xfe] |}].
Lemma list_survives_a_save_witness : parse (render sample_games) = sample_games.
Proof.
  apply list_survives_a_save.
  - repeat constructor; try (vm_compute; (reflexivity || discriminate || lia)); intros x E; vm_compute in E; injection E as <-; vm_compute; discriminate.
  - apply (bool_decide_unpack _). vm_compute. exact I.
Defined.

(** ** Adding *)
Lemma breaks_spec t : breaks t = false <-> Forall (fun x => x <> 9) t /\ Forall (fun x => x <> 10) t.
Proof. unfold breaks. by rewrite orb_false_iff, !has_char_forall. Qed.
Lemma lossy_no c p : c < 128 -> Forall (fun x => x <> c) (lossy_text p) <-> Forall (fun b => u8 b <> c) p.
Proof.
  intros Hc. rewrite !Forall_forall. split.
  - intros H b Hb E. apply (H c); [|done]. apply lossy_low; [done|]. apply list_elem_of_fmap. by exists b.
  - intros H x Hx ->. apply lossy_low in Hx as (b & E & Hb)%list_elem_of_fmap; [|done]. by apply (H b).
Qed.
Lemma breaks_bytes p : breaks (lossy_text p) = false <-> has_byte 9 p = false /\ has_byte 10 p = false.
Proof. rewrite breaks_spec, !has_byte_forall. by rewrite (lossy_no 9), (lossy_no 10). Qed.

Definition new_game (name : text) (p : bytes) : CustomGame := {| game_name := trim name; prefix := p |}.
Lemma add_ok games name p games' : add games name p = Ok games' <->
  games' = games ++ [new_game name p] /\ trim name <> [] /\ breaks (trim name) = false /\ has_byte 9 p = false /\ has_byte 10 p = false /\
  components (path_of_bytes p) ∉ (fun g => components (path_of_bytes (prefix g))) <$> games.
Proof.
  unfold add. destruct (bool_decide (trim name = [])) eqn:E1; [apply bool_decide_eq_true in E1; by split; [|intros (_ & ? & _)]|].
  apply bool_decide_eq_false in E1. destruct (breaks (trim name)); [by split; [|intros (_ & _ & ? & _)]|].
  destruct (breaks (lossy_text p)) eqn:E2.
  { split; [done|]. intros (_ & _ & _ & H1 & H2 & _). assert (H : breaks (lossy_text p) = false) by (by apply breaks_bytes). congruence. }
  apply breaks_bytes in E2 as [H9 H10]. destruct (find _ games) as [had|] eqn:Ef.
  - apply find_some in Ef as [Hin Hs]. split; [done|]. intros (_ & _ & _ & _ & _ & Hn). destruct Hn. apply list_elem_of_fmap. exists had.
    split; [symmetry; by apply same_prefix_spec|by apply list_elem_of_In].
  - split; [|by intros (-> & _)]. intros [= <-]. split_and!; [done..|]. intros (g & E & Hg)%list_elem_of_fmap.
    pose proof (find_none _ _ Ef g (proj1 (list_elem_of_In _ _) Hg)) as Hf. cbn beta in Hf.
    assert (Ht : same_prefix (prefix g) p = true) by (by apply same_prefix_spec). congruence.
Qed.
(** Adding says what it did: a game goes to the end of the list under its trimmed name,
    exactly when it has a name, neither it nor its prefix holds a tab or a line break, and no
    entry has that prefix; otherwise the list is as it was, and the error is the first of
    these that applies, with the name the prefix is under. *)
Theorem add_says (games : list CustomGame) (name : text) (p : bytes) :
  match add games name p with
  | Ok games' => games' = games ++ [{| game_name := trim name; prefix := p |}] /\ trim name <> [] /\ breaks (trim name) = false /\
      has_byte 9 p = false /\ has_byte 10 p = false /\ forall g, g ∈ games -> same_prefix (prefix g) p = false
  | Err NoName => trim name = []
  | Err (Untypeable what) => what = txt "name" /\ breaks (trim name) = true \/
      what = txt "folder" /\ breaks (trim name) = false /\ (has_byte 9 p = true \/ has_byte 10 p = true)
  | Err (Already n) => exists g, g ∈ games /\ same_prefix (prefix g) p = true /\ n = game_name g
  end.
Proof.
  destruct (add games name p) as [games'|e] eqn:E.
  - pose proof E as Ea. apply add_ok in E as (-> & H1 & H2 & H3 & H4 & H5). split_and!; try done. intros g Hg. apply not_true_is_false.
    intros Hs%same_prefix_spec. apply H5, list_elem_of_fmap. by exists g.
  - unfold add in E. destruct (bool_decide (trim name = [])) eqn:E1; [injection E as <-; by apply bool_decide_eq_true in E1|].
    destruct (breaks (trim name)) eqn:E2; [injection E as <-; by left|].
    destruct (breaks (lossy_text p)) eqn:E3.
    { injection E as <-. right. split_and!; [done..|]. destruct (has_byte 9 p) eqn:H9; [by left|]. right.
      apply not_false_is_true. intros H10. rewrite (proj2 (breaks_bytes p) (conj H9 H10)) in E3. done. }
    destruct (find _ games) as [had|] eqn:Ef; [|done]. injection E as <-. apply find_some in Ef as [Hin Hs]. exists had.
    split_and!; [by apply list_elem_of_In|done..].
Qed.

(** ** Where adding and saving do not meet *)
Lemma byte_of_u8 x y : u8 x = u8 y -> x = y.
Proof. intros E. apply (f_equal byte.of_Z) in E. by rewrite !byte.of_Z_unsigned in E. Qed.
Lemma line_stripped n p : last p <> Some x0d -> strip_return (utf8_encode n ++ x09 :: p) = utf8_encode n ++ x09 :: p.
Proof.
  intros Hp. apply strip_return_id. intros x. rewrite last_app, last_cons. destruct (last p) as [y|]; intros [= <-]; [|done].
  intros E. apply Hp. f_equal. apply byte_of_u8. done.
Qed.
Lemma line_read_back n p g : scalars n -> trim n = n -> n <> [] -> breaks n = false ->
  game_of (strip_return (utf8_encode n ++ x09 :: p)) = Some g -> prefix g = p ->
  starts_hash n = false /\ blank_bytes p = false /\ last p <> Some x0d.
Proof.
  intros Hs Ht Hn Hb Hg Hp. apply breaks_spec in Hb as [Hb _].
  assert (Hcr : last p <> Some x0d).
  { intros E. apply last_Some in E as [q ->]. rewrite (app_comm_cons q [x0d] x09), app_assoc in Hg. unfold strip_return in Hg. rewrite last_snoc, removelast_last in Hg.
    cbn in Hg. unfold game_of in Hg. destruct (is_comment _); [done|]. rewrite split_tab_app in Hg by (by apply encode_text_low).
    cbn [mbind option_bind] in Hg. destruct (has_byte 9 q); [done|]. destruct (utf8_decode _); [|done]. cbn in Hg. destruct (_ || _); [done|].
    injection Hg as <-. cbn in Hp. apply (f_equal length) in Hp. rewrite length_app in Hp. cbn in Hp. lia. }
  rewrite line_stripped in Hg by done. split_and!; [| |done].
  - apply not_true_is_false. intros Hh. unfold game_of, is_comment in Hg. rewrite lossy_text_encoded in Hg by done.
    assert (E : trim_start (n ++ lossy_text (x09 :: p)) = n ++ lossy_text (x09 :: p)) by (apply trim_start_id, front_ok_app; [done|by apply trimmed_front]).
    by rewrite E, starts_hash_app, Hh, orb_true_r in Hg.
  - unfold game_of in Hg. destruct (is_comment _); [done|]. rewrite split_tab_app in Hg by (by apply encode_text_low).
    cbn [mbind option_bind] in Hg. destruct (has_byte 9 p); [done|]. rewrite decode_encode in Hg by done. cbn in Hg.
    destruct (blank_bytes p); [by rewrite orb_true_r in Hg|done].
Qed.
(** The two do not agree on what a list can hold: a game that was added is there at the next
    reading exactly when its name does not begin with a number sign, which makes its line a
    comment, and its prefix is not blank and does not end in a carriage return. Nothing else
    that can be added is lost. *)
Theorem added_and_saved (games games' : list CustomGame) (name : text) (p : bytes) :
  Forall survives games -> distinct games -> scalars name -> add games name p = Ok games' ->
  parse (render games') = games' <-> starts_hash (trim name) = false /\ blank_bytes p = false /\ last p <> Some x0d.
Proof.
  intros Hs Hd Hn Ha. apply add_ok in Ha as (-> & H1 & H2 & H3 & H4 & H5). set (n := trim name) in *.
  assert (Hns : scalars n) by (by apply Forall_trim). assert (Ht : trim n = n) by apply trim_again.
  assert (Hw : whole_line (game_line (new_game name p))).
  { pose proof H2 as [_ H10]%breaks_spec. apply has_byte_forall in H4. apply Forall_app. split; [by apply encode_text_low|]. by constructor. }
  assert (E : parse (render (games ++ [new_game name p])) = push_game games (game_line (new_game name p))).
  { unfold parse, render. rewrite header_skipped, bind_app, push_all by done. cbn [mbind list_bind app]. rewrite app_nil_r, split_lines_app by done. done. }
  rewrite E. split.
  - unfold push_game. destruct (game_of _) as [h|] eqn:Eg; [|intros E'; apply (f_equal length) in E'; rewrite length_app in E'; cbn in E'; lia].
    destruct (existsb _ games); [intros E'; apply (f_equal length) in E'; rewrite length_app in E'; cbn in E'; lia|].
    intros E'%app_inv_head. injection E' as ->. by apply (line_read_back n p (new_game name p)).
  - intros (Hh & Hb & Hl). assert (Hg : survives (new_game name p)).
    { split; try done. intros x Hx Ex. apply Hl. rewrite <- (byte_of_u8 x x0d Ex). done. }
    unfold push_game. rewrite survivor_read by done. by rewrite new_prefix.
Qed.
Example a_hash_name_is_lost : exists games', add [] (txt "#1 Racer") (utf8_encode (txt "/pfx")) = Ok games' /\ length games' = 1%nat /\ parse (render games') = [].
Proof. eexists. split; [vm_compute; reflexivity|]. split; vm_compute; reflexivity. Qed.
Example a_return_is_lost : exists games', add [] (txt "Racer") [x2f; x70; x0d] = Ok games' /\ (prefix <$> games') = [[x2f; x70; x0d]] /\ (prefix <$> parse (render games')) = [[x2f; x70]].
Proof. eexists. split; [vm_compute; reflexivity|]. split; vm_compute; reflexivity. Qed.
Lemma added_and_saved_witness :
  ~ (parse (render [new_game (txt "#1 Racer") [x2f; x70]]) = [new_game (txt "#1 Racer") [x2f; x70]]).
Proof.
  intros E. apply (added_and_saved [] _ (txt "#1 Racer") [x2f; x70]) in E; [|constructor|apply NoDup_nil_2|repeat constructor|vm_compute; reflexivity].
  destruct E as [E _]. vm_compute in E. discriminate E.
Defined.
