(* ===== verification/Signature.v ===== *)
(** * Signature: what was measured about the signature check (crates/tobii-config/src/signature.rs)

    The measurements, finding one by app id or by the name of a folder, and the paragraphs
    every screen shows. [folder_names_find_it]: of a name only the letters and digits count,
    in any case, and anything around them is allowed. *)
From S2P Require Import Prelude Text.

Record Measured := { title : text; appid : option text; runtime : option text; date : text; behaviour : text }.
Definition MEASURED : list Measured :=
  [{| title := txt "Star Citizen"; appid := None; runtime := None; date := txt "2026-08-15";
      behaviour := txt "rejects ours and never asks for data again" |};
   {| title := txt "Microsoft Flight Simulator 2024"; appid := Some (txt "2537590"); runtime := Some (txt "Proton Experimental");
      date := txt "2026-09-27";
      behaviour := txt "calls the check 104 times in 1m45s, calls nothing else at all, and goes on retrying for as long as it runs" |}].
Definition measured_steam (id : text) : option Measured := find (fun m => bool_decide (appid m = Some id)) MEASURED.

(** The Unicode tables behind [is_alphanumeric] and [to_lowercase]. *)
Section Unicode.
Context (is_alphanumeric : char -> bool) (to_lowercase : char -> text).
Definition fold (s : text) : text := base.filter (fun c => is_alphanumeric c = true) s ≫= to_lowercase.
Definition measured_named (name : text) : option Measured := find (fun m => contains (fold (title m)) (fold name)) MEASURED.

Lemma contains_spec pat s : contains pat s = true <-> exists a b, s = a ++ pat ++ b.
Proof.
  unfold contains. split.
  - destruct (split_once_str pat s) as [[a b]|] eqn:E; [|done]. intros _. exists a, b. by apply split_once_str_some.
  - intros (a & b & ->). by destruct (split_once_str_app pat a b) as [[x y] ->].
Qed.
Lemma fold_app a b : fold (a ++ b) = fold a ++ fold b.
Proof. unfold fold. by rewrite filter_app, bind_app. Qed.
(** A folder is recognised however it is spelled: what a name adds in front of and behind a
    measured title does not matter, nor do its case, spaces and hyphens. An answer is always
    such a title. *)
Theorem folder_names_find_it (name : text) :
  (forall m, measured_named name = Some m -> m ∈ MEASURED /\ exists a b, fold name = a ++ fold (title m) ++ b) /\
  (measured_named name = None <-> forall m a b, m ∈ MEASURED -> fold name <> a ++ fold (title m) ++ b) /\
  forall front back other, fold other = fold name -> measured_named name <> None -> measured_named (front ++ other ++ back) <> None.
Proof.
  assert (Hnone : forall n, measured_named n = None <-> forall m a b, m ∈ MEASURED -> fold n <> a ++ fold (title m) ++ b).
  { intros n. unfold measured_named. split.
    - intros H m a b Hm E. pose proof (find_none _ _ H m (proj1 (list_elem_of_In _ _) Hm)) as Hf. cbn beta in Hf.
      assert (Ht : contains (fold (title m)) (fold n) = true) by (apply contains_spec; by exists a, b). congruence.
    - intros H. destruct (find _ MEASURED) as [m|] eqn:E; [|done]. apply find_some in E as [Hm Hc].
      apply contains_spec in Hc as (a & b & Hc). by destruct (H m a b (proj2 (list_elem_of_In _ _) Hm)). }
  split_and!; [|apply Hnone|].
  - intros m H. apply find_some in H as [Hm Hc]. split; [by apply list_elem_of_In|]. by apply contains_spec.
  - intros front back other E Hs Hn. apply Hs, Hnone. intros m a b Hm Ef.
    apply (proj1 (Hnone _) Hn m (fold front ++ a) (b ++ fold back) Hm). by rewrite !fold_app, E, Ef, <- !app_assoc.
Qed.
End Unicode.
Example star_citizen_folders :
  let named := measured_named is_ascii_alphanumeric (fun c => [to_ascii_lowercase c]) in
  (fun n => title <$> named n) <$> [txt "StarCitizen"; txt "star-citizen"; txt "Star Citizen LIVE"; txt "sc"; txt "RobertsSpaceIndustries"] =
  [Some (txt "Star Citizen"); Some (txt "Star Citizen"); Some (txt "Star Citizen"); None; None].
Proof. vm_compute. reflexivity. Qed.

(** ** Sentences *)
Definition named (m : Measured) : text :=
  title m ++ txt " (" ++ join (txt ", ") ((option_list (app (txt "Steam appid ") <$> appid m)) ++ option_list (runtime m) ++ [date m]) ++ txt ")".
Definition clause (m : Measured) : text := named m ++ txt " " ++ behaviour m.
Definition count_word (n : Z) : text :=
  if n =? 0 then txt "No title has been" else if n =? 1 then txt "The one title" else if n =? 2 then txt "Both titles"
  else if n =? 3 then txt "All three titles" else txt "All " ++ show_uint n ++ txt " titles".
Definition tally_word (n : Z) : text :=
  if n =? 0 then txt "Nothing measured is" else if n =? 1 then txt "One result is" else if n =? 2 then txt "Two results are"
  else if n =? 3 then txt "Three results are" else show_uint n ++ txt " results are".
Definition tally : text := tally_word (zlen MEASURED).
Definition build_gate : text :=
  txt "A TrackIR game loads whichever client DLL the registry names, and checks its signature against NaturalPoint's. Ours cannot answer that, and the material that would answer it is theirs: reproducing it is not this project's to do. "
  ++ count_word (zlen MEASURED) ++ txt " put to that check stopped at it. "
  ++ join (txt " ") ((fun m => clause m ++ txt ".") <$> MEASURED) ++ txt " " ++ tally_word (zlen MEASURED)
  ++ txt " not a rule about the rest, and nothing here knows what your game does. A separately installed client — opentrack ships one — is what can answer the check; whether that then delivers tracking is not something this project has watched happen. FreeTrack has no signature check at all, so a game that speaks FreeTrack works with ours today.".
Definition build_provider_note : text :=
  join (txt " ")
    [txt "A client that answers the check only reads the shared mapping —";
     txt "something inside the game's own Wine session has to be filling it, and";
     txt "for a Steam game under Proton that cannot be `tobii bridge run`: a";
     txt "provider started from a terminal with system Wine is a different";
     txt "session, its mapping is a different object, and the game never sees it.";
     txt "What fills the mapping for our own client is our own client — both of";
     txt "our DLLs carry the receive loop, inside the game's process, which is";
     txt "the only place that is certain to be the right session. Replace the";
     txt "one the game loads with somebody else's and that goes with it —";
     txt "so something else in that session has to fill the mapping, and for a";
     txt "Steam title that is what `tobii game -- %command%` is for: it has";
     txt "Proton start our provider alongside the game, in the one session,";
     txt "and it stops when the game does. What nobody here has watched is a";
     txt "signature-gated title then USING the data: a client answering the";
     txt "check and a filled mapping are two conditions, measured separately."].
Example opening_of_the_gate :
  contains (txt "Both titles put to that check stopped at it. Star Citizen (2026-08-15) rejects ours and never asks for data again. Microsoft Flight Simulator 2024 (Steam appid 2537590, Proton Experimental, 2026-09-27) calls the check") build_gate = true.
Proof. vm_compute. reflexivity. Qed.
