(* ===== verification/Capture.v ===== *)
(** * Capture: recording a session and replaying it (crates/tobii-usb/src/capture.rs)

    The text form of a capture with its parser; [RecordTransport] and [ReplayTransport] as
    implementations of the driver's transport. [capture_text_roundtrip] and
    [replay_is_faithful]: the file holds the data the device sent, and a replay hands it to
    any driver in order; a session without failures replays as it went. *)
From S2P Require Import Prelude Text KeyVal Paths Disk Transport.

Definition FORMAT_VERSION : Z := 1.

Inductive Event := Sent (b : bytes) | Received (b : bytes).
Record Capture := { headers : list (text * text); events : list Event }.
Definition capture0 : Capture := {| headers := []; events := [] |}.

Definition sent_of (e : Event) : list bytes := match e with Sent b => [b] | Received _ => [] end.
Definition received_of (e : Event) : list bytes := match e with Received b => [b] | Sent _ => [] end.
Definition sent (c : Capture) : list bytes := events c ≫= sent_of.
Definition received (c : Capture) : list bytes := events c ≫= received_of.
(** [Capture::header] *)
Definition find_header (c : Capture) (name : text) : option text :=
  snd <$> find (fun kv => text_eqb kv.1 name) (headers c).

(** ** The text form *)
Definition one_line_of (s : text) : text :=
  trim ((fun c => if (c =? 10) || (c =? 13) then 32 else c) <$> s).
Definition one_token (s : text) : text := (fun c => if c =? 32 then 45 else c) <$> one_line_of s.

Definition to_hex (b : bytes) : text := concat (hex2 <$> b).
(** [as_chunks::<2>().0], each pair of digits a byte. *)
Fixpoint hex_pairs (b : bytes) : option bytes :=
  match b with
  | x :: y :: b =>
      hi ← to_digit 16 (u8 x);
      lo ← to_digit 16 (u8 y);
      rest ← hex_pairs b;
      Some (byte.of_Z (hi * 16 + lo) :: rest)
  | _ => Some []
  end.
Definition from_hex (s : text) : option bytes :=
  let b := utf8_encode s in
  if Nat.even (length b) then hex_pairs b else None.

Definition header_line (kv : text * text) : text := txt "# " ++ one_token kv.1 ++ 32 :: one_line_of kv.2.
Definition event_line (e : Event) : text :=
  match e with Sent b => 62 :: 32 :: to_hex b | Received b => 60 :: 32 :: to_hex b end.
Definition to_text (c : Capture) : text :=
  ((txt "# tobii-capture " ++ show_uint FORMAT_VERSION)
     :: (header_line <$> headers c) ++ (event_line <$> events c)) ≫= newline.

Inductive CaptureError := NotACapture | Version (v : Z) | BadHex (line : Z) | BadLine (line : Z) | CaptureIo (e : io_error).

(** What [parse] has read so far. *)
Record Reading := { out : Capture; saw_magic : bool }.
Definition reading0 : Reading := {| out := capture0; saw_magic := false |}.

Definition add_header (kv : text * text) (r : Reading) : Reading :=
  {| out := {| headers := headers (out r) ++ [kv]; events := events (out r) |}; saw_magic := saw_magic r |}.
Definition add_event (e : Event) (r : Reading) : Reading :=
  {| out := {| headers := headers (out r); events := events (out r) ++ [e] |}; saw_magic := saw_magic r |}.

Definition read_header (rest : text) (r : Reading) : result CaptureError Reading :=
  let rest := trim rest in
  let '(key, value) := default (rest, []) (split_once (Z.eqb 32) rest) in
  if text_eqb key (txt "tobii-capture") then
    let v := default 0 (parse_uint 32 10 (trim value)) in
    if v =? FORMAT_VERSION then Ok {| out := out r; saw_magic := true |} else Err (Version v)
  else Ok (add_header (key, trim value) r).

Definition read_line (i : Z) (line : text) (r : Reading) : result CaptureError Reading :=
  let line := trim line in
  match line with
  | [] => Ok r
  | 35 :: rest => read_header rest r
  | marker :: hex =>
      if (marker =? 62) || (marker =? 60) then
        match from_hex (trim hex) with
        | Some b => Ok (add_event (if marker =? 62 then Sent b else Received b) r)
        | None => Err (BadHex (i + 1))
        end
      else Err (BadLine (i + 1))
  end.

Fixpoint read_lines (i : Z) (ls : list text) (r : Reading) : result CaptureError Reading :=
  match ls with
  | [] => Ok r
  | l :: ls => r ← read_line i l r; read_lines (i + 1) ls r
  end.

Definition parse (s : text) : result CaptureError Capture :=
  match find (fun l => negb (text_eqb l [])) (trim <$> lines s) with
  | Some first =>
      if starts_with (txt "# tobii-capture") first then
        r ← read_lines 0 (lines s) reading0;
        if saw_magic r then Ok (out r) else Err NotACapture
      else Err NotACapture
  | None => Err NotACapture
  end.

(** [write_file]: [std::fs::write], which is not atomic. *)
Definition write_file (os : nat -> outcome) (c : Capture) (path : text) : M World CaptureError unit := fun w =>
  match (i ← file_create os path; Disk.write_all os i (utf8_encode (to_text c))) w with
  | (Ok u, w) => (Ok u, w)
  | (Err e, w) => (Err (CaptureIo e), w)
  end.
(** The line it prints aside. *)
Definition save (os : nat -> outcome) (c : Capture) (path : text) : M World CaptureError unit :=
  _ ← write_file os c path; mret tt.

Definition sample_capture : Capture :=
  {| headers := [(txt "recorded-at", txt "2026-09-09T10:22:31Z"); (txt "note", [97; 10; 62; 32; 48])];
     events := [Sent [x54; x45]; Received [xff; x00]; Received []] |}.
Example sample_text : parse (to_text sample_capture)
  = Ok {| headers := [(txt "recorded-at", txt "2026-09-09T10:22:31Z"); (txt "note", txt "a > 0")];
          events := events sample_capture |}.
Proof. vm_compute. reflexivity. Qed.
Example a_foreign_file : parse (txt "hello") = Err NotACapture
  /\ parse (txt "# tobii-capture 2") = Err (Version 2)
  /\ parse (txt "# tobii-capture 1" ++ 10 :: txt "> 5") = Err (BadHex 2)
  /\ parse (txt "# tobii-capture 1" ++ 10 :: 0xfc :: txt "ber") = Err (BadLine 2).
Proof. vm_compute. done. Qed.

(** ** Reading back *)
Lemma hex2_digits b : to_digit 16 (hex_lower (u8 b / 16)) = Some (u8 b / 16)
  /\ to_digit 16 (hex_lower (u8 b mod 16)) = Some (u8 b mod 16).
Proof. by destruct b. Qed.
Lemma hex2_bytes b : utf8_encode (hex2 b) = [byte.of_Z (hex_lower (u8 b / 16)); byte.of_Z (hex_lower (u8 b mod 16))].
Proof. by destruct b. Qed.
Lemma hex_byte b : byte.of_Z (u8 b / 16 * 16 + u8 b mod 16) = b.
Proof. by destruct b. Qed.
Lemma hex_digit_range d : 0 <= d < 16 -> 48 <= hex_lower d <= 102.
Proof. unfold hex_lower. intros. destruct (Z.ltb_spec d 10); lia. Qed.
Lemma hex2_range b : 0 <= u8 b / 16 < 16 /\ 0 <= u8 b mod 16 < 16.
Proof. by destruct b. Qed.

Lemma hex_encode b rest :
  utf8_encode (to_hex (b :: rest))
  = byte.of_Z (hex_lower (u8 b / 16)) :: byte.of_Z (hex_lower (u8 b mod 16)) :: utf8_encode (to_hex rest).
Proof.
  change (to_hex (b :: rest)) with (hex2 b ++ to_hex rest). unfold utf8_encode. rewrite bind_app.
  change (mbind encode_char (hex2 b)) with (utf8_encode (hex2 b)). by rewrite hex2_bytes.
Qed.
Lemma from_to_hex b : from_hex (to_hex b) = Some b.
Proof.
  unfold from_hex. assert (Hl : Nat.even (length (utf8_encode (to_hex b))) = true).
  { induction b as [|b l IH]; [done|]. by rewrite hex_encode. }
  rewrite Hl. clear Hl. induction b as [|b l IH]; [done|]. rewrite hex_encode. cbn [hex_pairs].
  pose proof (hex2_range b) as [H1 H2]. pose proof (hex_digit_range _ H1). pose proof (hex_digit_range _ H2).
  rewrite !u8_of_Z by lia. destruct (hex2_digits b) as [-> ->]. cbn. rewrite IH. cbn. by rewrite hex_byte.
Qed.

Lemma to_hex_chars b : Forall (fun c => 48 <= c <= 102) (to_hex b).
Proof.
  unfold to_hex. induction b as [|b l IH]; [constructor|]. cbn. pose proof (hex2_range b) as [H1 H2].
  do 2 (constructor; [by apply hex_digit_range|]). exact IH.
Qed.
Lemma space_not c : 48 <= c <= 102 -> is_whitespace c = false.
Proof. intros. unfold is_whitespace, between. repeat (apply orb_false_iff; split); try apply andb_false_iff; lia. Qed.
Lemma to_hex_trims b : front_ok is_whitespace (to_hex b) /\ back_ok is_whitespace (to_hex b).
Proof.
  assert (H : Forall (fun c => is_whitespace c = false) (to_hex b)).
  { eapply Forall_impl; [apply to_hex_chars|]. exact space_not. }
  split; [by destruct H|]. unfold back_ok. apply Forall_rev in H. by destruct H.
Qed.

(** The trimmed line of an event is its marker, a space, and the digits, if there are any. *)
Lemma trim_event m b : is_whitespace m = false ->
  exists hex, trim (m :: 32 :: to_hex b) = m :: hex /\ trim hex = to_hex b.
Proof.
  intros Hm. destruct b as [|b l].
  - exists []. split; [|done]. unfold trim, trim_by. rewrite trim_start_id by (exact Hm).
    change (m :: 32 :: to_hex []) with ([m] ++ [32]). rewrite trim_end_all by (by constructor).
    apply trim_end_id. exact Hm.
  - destruct (to_hex_trims (b :: l)) as [Hf Hb]. exists (32 :: to_hex (b :: l)). split.
    + apply trim_id; [exact Hm|]. apply (back_ok_app _ [m; 32]); [|done]. by destruct b.
    + change (trim (32 :: to_hex (b :: l))) with (trim (to_hex (b :: l))). by apply trim_id.
Qed.

Lemma read_event_line i e r : read_line i (event_line e) r = Ok (add_event e r).
Proof.
  unfold read_line. destruct e as [b|b]; cbn [event_line].
  - destruct (trim_event 62 b eq_refl) as (hex & -> & Hh). cbn -[from_hex]. by rewrite Hh, from_to_hex.
  - destruct (trim_event 60 b eq_refl) as (hex & -> & Hh). cbn -[from_hex]. by rewrite Hh, from_to_hex.
Qed.

(** A folded header: nothing in it ends the line, and nothing is left to trim. *)
Lemma one_line_of_lines s : Forall (fun c => c <> 10 /\ c <> 13) (one_line_of s).
Proof.
  apply Forall_trim. induction s as [|c s IH]; [constructor|]. cbn. constructor; [|done].
  destruct (Z.eqb_spec c 10), (Z.eqb_spec c 13); cbn; lia.
Qed.
Lemma one_token_spec s : Forall (fun c => c <> 10 /\ c <> 13 /\ c <> 32) (one_token s) /\
  front_ok is_whitespace (one_token s) /\ back_ok is_whitespace (one_token s).
Proof.
  unfold one_token. destruct (trim_ends ((fun c => if (c =? 10) || (c =? 13) then 32 else c) <$> s)) as [Hf Hb].
  fold (one_line_of s) in Hf, Hb. pose proof (one_line_of_lines s) as H. split_and!.
  - apply Forall_fmap. eapply Forall_impl; [exact H|]. intros c [H1 H2]. cbn. destruct (Z.eqb_spec c 32); lia.
  - destruct (one_line_of s) as [|c l]; [done|]. cbn in *. destruct (Z.eqb_spec c 32); [by subst|done].
  - unfold back_ok in *.
    change (@rev Z ((fun c => if c =? 32 then 45 else c) <$> one_line_of s)) with (rev (map (fun c => if c =? 32 then 45 else c) (one_line_of s))).
    rewrite <- map_rev. destruct (rev (one_line_of s)) as [|c l]; [done|].
    cbn in *. destruct (Z.eqb_spec c 32); [by subst|done].
Qed.

(** A header that reads back: its key, folded, is a word and not the magic one. *)
Definition key_ok (kv : text * text) : Prop :=
  one_token kv.1 <> [] /\ one_token kv.1 <> txt "tobii-capture".
Definition folded (kv : text * text) : text * text := (one_token kv.1, one_line_of kv.2).

Lemma header_text key val : key <> [] -> Forall (fun c => (32 =? c) = false) key ->
  front_ok is_whitespace key -> back_ok is_whitespace key ->
  front_ok is_whitespace val -> back_ok is_whitespace val ->
  exists rest, trim (35 :: 32 :: key ++ 32 :: val) = 35 :: rest /\
    default (trim rest, []) (split_once (Z.eqb 32) (trim rest)) = (key, val).
Proof.
  intros Hn Hs Hf Hb Hvf Hvb. destruct (decide (val = [])) as [->|Hv].
  - exists (32 :: key). split.
    + change (35 :: 32 :: key ++ [32]) with ((35 :: 32 :: key) ++ [32]).
      unfold trim, trim_by. rewrite trim_start_id by done. rewrite trim_end_all by (by constructor).
      apply trim_end_id. by apply (back_ok_app _ [35; 32]).
    + change (trim (32 :: key)) with (trim key). unfold trim. rewrite trim_id by done.
      by rewrite split_once_none.
  - exists (32 :: key ++ 32 :: val). split.
    + apply trim_id; [done|]. change (35 :: 32 :: key ++ 32 :: val) with ((35 :: 32 :: key) ++ [32] ++ val).
      rewrite app_assoc. by apply back_ok_app.
    + change (trim (32 :: key ++ 32 :: val)) with (trim (key ++ 32 :: val)). unfold trim.
      rewrite trim_id; [by rewrite split_once_app|by apply front_ok_app|].
      rewrite cons_middle, app_assoc. by apply back_ok_app.
Qed.

Lemma one_line_of_ends s : front_ok is_whitespace (one_line_of s) /\ back_ok is_whitespace (one_line_of s).
Proof. apply trim_ends. Qed.

Lemma read_header_line i kv r : key_ok kv -> read_line i (header_line kv) r = Ok (add_header (folded kv) r).
Proof.
  destruct kv as [k v]. intros [Hn Hm]. cbn [fst] in *.
  destruct (one_token_spec k) as (Hk & Hf & Hb). destruct (one_line_of_ends v) as [Hvf Hvb].
  destruct (header_text (one_token k) (one_line_of v)) as (rest & E & E'); try done.
  { eapply Forall_impl; [exact Hk|]. intros c (_ & _ & ?). apply Z.eqb_neq. congruence. }
  unfold read_line. change (header_line (k, v)) with (35 :: 32 :: one_token k ++ 32 :: one_line_of v).
  rewrite E. unfold read_header. rewrite E'.
  assert (text_eqb (one_token k) (txt "tobii-capture") = false) as -> by (by apply bool_decide_eq_false).
  unfold folded. cbn [fst snd]. unfold trim at 1. by rewrite trim_id.
Qed.

Lemma read_lines_app i a b r : read_lines i (a ++ b) r = (r ← read_lines i a r; read_lines (i + zlen a) b r).
Proof.
  revert i r. induction a as [|l a IH]; intros i r; [cbn; by rewrite Z.add_0_r|].
  cbn [read_lines app]. destruct (read_line i l r) as [r'|e]; [|done]. cbn [mbind result_bind]. rewrite IH.
  replace (i + zlen (l :: a)) with (i + 1 + zlen a) by (rewrite zlen_cons; lia). done.
Qed.
Lemma read_headers i hs r : Forall key_ok hs ->
  read_lines i (header_line <$> hs) r
  = Ok {| out := {| headers := headers (out r) ++ (folded <$> hs); events := events (out r) |}; saw_magic := saw_magic r |}.
Proof.
  intros H. revert i r. induction H as [|kv hs Hk _ IH]; intros i [[h e] m].
  - cbn. by rewrite app_nil_r.
  - rewrite fmap_cons. cbn [read_lines]. rewrite read_header_line by done. cbn [mbind result_bind].
    rewrite IH. cbn. by rewrite <- app_assoc.
Qed.
Lemma read_events i es r :
  read_lines i (event_line <$> es) r
  = Ok {| out := {| headers := headers (out r); events := events (out r) ++ es |}; saw_magic := saw_magic r |}.
Proof.
  revert i r. induction es as [|e es IH]; intros i [[h es'] m].
  - cbn. by rewrite app_nil_r.
  - rewrite fmap_cons. cbn [read_lines]. rewrite read_event_line. cbn [mbind result_bind].
    rewrite IH. cbn. by rewrite <- app_assoc.
Qed.

Lemma no_breaks l : Forall (fun c => c <> 10 /\ c <> 13) l -> one_line l /\ back_ok (Z.eqb 13) l.
Proof.
  intros H. split; [eapply Forall_impl; [exact H|]; by intros c []|].
  apply back_ok_last. intros Hl. apply last_Some_elem_of in Hl. rewrite Forall_forall in H. by apply H in Hl as [_ ?].
Qed.
Lemma capture_lines c :
  lines (to_text c)
  = (txt "# tobii-capture " ++ show_uint FORMAT_VERSION) :: (header_line <$> headers c) ++ (event_line <$> events c).
Proof.
  assert (H : Forall (fun l => one_line l /\ back_ok (Z.eqb 13) l)
    ((txt "# tobii-capture " ++ show_uint FORMAT_VERSION) :: (header_line <$> headers c) ++ (event_line <$> events c))).
  { constructor; [split; [by apply one_line_dec|done]|]. apply Forall_app. split; apply Forall_fmap, Forall_true.
    - intros [k v]. apply no_breaks. unfold compose. change (header_line (k, v)) with (35 :: 32 :: one_token k ++ 32 :: one_line_of v).
      do 2 (constructor; [done|]). apply Forall_app. split; [|constructor; [done|apply one_line_of_lines]].
      eapply Forall_impl; [apply one_token_spec|]. by intros c0 (? & ? & _).
    - intros e. apply no_breaks.
      assert (H : forall b, Forall (fun c => c <> 10 /\ c <> 13) (to_hex b))
        by (intros; eapply Forall_impl; [apply to_hex_chars|]; simpl; intros; lia).
      destruct e; (do 2 (constructor; [done|]); apply H). }
  apply lines_newlines; (eapply Forall_impl; [exact H|]); by intros l [].
Qed.

(** A capture is read back from its text, every transfer byte for byte, whatever its notes
    hold: a header comes back folded to one line, so no line break in one can pass for a
    transfer. The keys must be words other than the one that opens the file. *)
Theorem capture_text_roundtrip (c : Capture) :
  Forall key_ok (headers c) ->
  parse (to_text c) = Ok {| headers := folded <$> headers c; events := events c |}.
Proof.
  intros H. unfold parse. rewrite capture_lines, fmap_cons.
  change (trim (txt "# tobii-capture " ++ show_uint FORMAT_VERSION)) with (txt "# tobii-capture 1").
  cbn [find]. change (negb (text_eqb (txt "# tobii-capture 1") [])) with true. cbv iota.
  change (starts_with (txt "# tobii-capture") (txt "# tobii-capture 1")) with true. cbv iota.
  cbn [read_lines].
  change (read_line 0 (txt "# tobii-capture " ++ show_uint FORMAT_VERSION) reading0)
    with (@Ok CaptureError _ {| out := capture0; saw_magic := true |}).
  cbn [mbind result_bind]. rewrite read_lines_app, read_headers by done. cbn [mbind result_bind].
  rewrite read_events. done.
Qed.

(** ** The transports *)
Section Record.
Context {T E : Type} `{Transport T E}.

Record RecordTransport := { inner : T; capture : Capture }.
Definition new_record (t : T) : RecordTransport := {| inner := t; capture := capture0 |}.
Definition with_header (r : RecordTransport) (key value : text) : RecordTransport :=
  {| inner := inner r; capture := {| headers := headers (capture r) ++ [(key, value)]; events := events (capture r) |} |}.
Definition with_note (r : RecordTransport) (note : text) : RecordTransport := with_header r (txt "note") note.
Definition into_capture (r : RecordTransport) : Capture := capture r.
Definition log_event (e : Event) (c : Capture) : Capture := {| headers := headers c; events := events c ++ [e] |}.

#[export] Instance record_transport : Transport RecordTransport E := {
  send data r :=
    let c := log_event (Sent data) (capture r) in
    let '(x, t) := send data (inner r) in (x, {| inner := t; capture := c |});
  recv n timeout r :=
    let '(x, t) := recv n timeout (inner r) in
    (x, {| inner := t; capture := match x with Some b => log_event (Received b) (capture r) | None => capture r end |});
  now r := let '(v, t) := now (inner r) in (v, {| inner := t; capture := capture r |});
}.
End Record.
Arguments RecordTransport T : clear implicits.

Record ReplayTransport := { to_deliver : list bytes; replay_sent : list bytes; exhausted_reads : Z }.
Definition new_replay (c : Capture) : ReplayTransport :=
  {| to_deliver := received c; replay_sent := []; exhausted_reads := 0 |}.
Definition replay_remaining (t : ReplayTransport) : Z := zlen (to_deliver t).

Definition replay_send {E} (data : bytes) (t : ReplayTransport) : result E unit * ReplayTransport :=
  (Ok tt, {| to_deliver := to_deliver t; replay_sent := replay_sent t ++ [data]; exhausted_reads := exhausted_reads t |}).
(** [None] is the panic on a recorded read longer than the caller's buffer. *)
Definition replay_recv (n timeout : Z) (t : ReplayTransport) : option (option bytes * ReplayTransport) :=
  match to_deliver t with
  | [] => Some (None, {| to_deliver := []; replay_sent := replay_sent t; exhausted_reads := exhausted_reads t + 1 |})
  | next :: rest =>
      if zlen next <=? n
      then Some (Some next, {| to_deliver := rest; replay_sent := replay_sent t; exhausted_reads := exhausted_reads t |})
      else None
  end.

(** ** Any driver *)

(** A driver: what it does next, given everything the transport has answered. *)
Inductive action := DoSend (data : bytes) | DoRecv (n timeout : Z).
Inductive answer (E : Type) := Sending (r : result (UsbError.UsbError E) unit) | Reading_ (r : option bytes).
Arguments Sending {E} r.
Arguments Reading_ {E} r.

Section Play.
Context {E T : Type} (snd_ : bytes -> T -> result (UsbError.UsbError E) unit * T)
  (rcv : Z -> Z -> T -> option (option bytes * T)) (driver : list (answer E) -> option action).

Definition act (a : action) (t : T) : option (answer E * T) :=
  match a with
  | DoSend data => let '(r, t) := snd_ data t in Some (Sending r, t)
  | DoRecv n timeout => '(r, t) ← rcv n timeout t; Some (Reading_ r, t)
  end.
(** At most [fuel] calls, the answers in order; [None] is a panic. *)
Fixpoint play (fuel : nat) (past : list (answer E)) (t : T) : option (list (answer E) * T) :=
  match fuel, driver past with
  | S fuel, Some a => '(r, t) ← act a t; play fuel (past ++ [r]) t
  | _, _ => Some (past, t)
  end.
End Play.

(** The device answered: nothing failed to be sent and no read timed out. *)
Definition answered {E} (a : answer E) : Prop :=
  match a with Sending r => r = Ok tt | Reading_ r => is_Some r end.

Section Replay.
Context {T E : Type} `{Transport T E}.

Definition play_recording : (list (answer E) -> option action) -> nat -> list (answer E) -> RecordTransport T ->
    option (list (answer E) * RecordTransport T) :=
  play send (fun n timeout r => Some (recv n timeout r)).
Definition play_replay : (list (answer E) -> option action) -> nat -> list (answer E) -> ReplayTransport ->
    option (list (answer E) * ReplayTransport) :=
  play replay_send replay_recv.

(** [recv] fills no more than the buffer it is given. *)
Context (recv_fits : forall n timeout (t : T) b t', recv n timeout t = (Some b, t') -> zlen b <= n).

Lemma play_past {S} snd_ rcv d fuel past (t : S) h t' :
  play (E := E) snd_ rcv d fuel past t = Some (h, t') -> exists more, h = past ++ more.
Proof.
  revert past t. induction fuel as [|fuel IH]; intros past t; cbn [play]; [intros; simplify_eq; exists []; by rewrite app_nil_r|].
  destruct (d past) as [a|]; [|intros; simplify_eq; exists []; by rewrite app_nil_r].
  destruct (act _ _ a t) as [[r t1]|]; [|done]. intros (m & ->)%IH. exists (r :: m). by rewrite <- app_assoc.
Qed.

Lemma replay_follows d fuel past r h r' p rest :
  play_recording d fuel past r = Some (h, r') -> Forall answered h ->
  exists new, capture r' = {| headers := headers (capture r); events := events (capture r) ++ new |} /\
    (to_deliver p = (new ≫= received_of) ++ rest ->
     play_replay d fuel past p
     = Some (h, {| to_deliver := rest; replay_sent := replay_sent p ++ (new ≫= sent_of);
                   exhausted_reads := exhausted_reads p |})).
Proof.
  unfold play_recording, play_replay. revert past r p. induction fuel as [|fuel IH]; intros past r p Hp Ha; cbn [play] in *.
  { simplify_eq. exists []. cbn. split; [by destruct (capture r'); cbn; rewrite app_nil_r|].
    destruct p. cbn. intros ->. by rewrite app_nil_r. }
  destruct (d past) as [a|]; cycle 1.
  { simplify_eq. exists []. cbn. split; [by destruct (capture r'); cbn; rewrite app_nil_r|].
    destruct p. cbn. intros ->. by rewrite app_nil_r. }
  destruct a as [data|n timeout]; cbn [act mbind option_bind] in *.
  - unfold send, record_transport in Hp. destruct (send data (inner r)) as [x t]. cbn [mbind option_bind] in Hp.
    assert (x = Ok tt) as ->.
    { apply play_past in Hp as [more ->]. by apply Forall_app in Ha as [[_ Ha]%Forall_app _]; inversion Ha. }
    destruct (IH _ _ {| to_deliver := to_deliver p; replay_sent := replay_sent p ++ [data]; exhausted_reads := exhausted_reads p |} Hp Ha)
      as (new & Hc & Hr).
    exists (Sent data :: new). split; [rewrite Hc; cbn; by rewrite <- app_assoc|].
    cbn. intros Hd. rewrite Hr by done. cbn. by rewrite <- app_assoc.
  - unfold recv, record_transport in Hp. destruct (recv n timeout (inner r)) as [x t] eqn:Er. cbn [mbind option_bind] in Hp.
    assert (is_Some x) as [b ->].
    { apply play_past in Hp as [more ->]. by apply Forall_app in Ha as [[_ Ha]%Forall_app _]; inversion Ha. }
    destruct (IH _ _ {| to_deliver := tail (to_deliver p); replay_sent := replay_sent p; exhausted_reads := exhausted_reads p |} Hp Ha)
      as (new & Hc & Hr).
    exists (Received b :: new). split; [rewrite Hc; cbn; by rewrite <- app_assoc|].
    cbn. intros Hd. unfold replay_recv. rewrite Hd.
    rewrite (proj2 (Z.leb_le _ _) (recv_fits _ _ _ _ _ Er)). cbn. rewrite Hd in Hr. by apply Hr.
Qed.

(** What the reads of a session returned, and the data among it. *)
Definition asked (a : answer E) : option (option bytes) := match a with Reading_ r => Some r | Sending _ => None end.
Definition got (a : answer E) : option bytes := match a with Reading_ r => r | Sending _ => None end.
Lemma recorded_reads d fuel past r h r' : play_recording d fuel past r = Some (h, r') ->
  received (capture r) = omap got past -> received (capture r') = omap got h.
Proof.
  unfold play_recording. revert past r. induction fuel as [|fuel IH]; intros past r; cbn [play]; [by intros [= -> ->]|].
  destruct (d past) as [[data|n timeout]|]; cbn [act mbind option_bind]; [| |by intros [= -> ->]]; unfold send, recv, record_transport.
  - destruct (send data (inner r)) as [x t]. cbn [mbind option_bind]. intros Hp Hr. apply (IH _ _ Hp). unfold received, log_event. cbn [capture events].
    rewrite bind_app, omap_app. cbn. rewrite !app_nil_r. exact Hr.
  - destruct (recv n timeout (inner r)) as [[b|] t]; cbn [mbind option_bind]; intros Hp Hr; apply (IH _ _ Hp); rewrite omap_app; cbn; [|by rewrite app_nil_r].
    unfold received, log_event. cbn [capture events]. rewrite bind_app. cbn. by f_equal.
Qed.
Lemma recorded_headers d fuel past r h r' : play_recording d fuel past r = Some (h, r') -> headers (capture r) = headers (capture r').
Proof.
  unfold play_recording. revert past r. induction fuel as [|fuel IH]; intros past r; cbn [play]; [by intros [= -> ->]|].
  destruct (d past) as [[data|n timeout]|]; cbn [act mbind option_bind]; [| |by intros [= -> ->]]; unfold send, recv, record_transport.
  - destruct (send data (inner r)) as [x t]. cbn [mbind option_bind]. by intros Hp%IH.
  - destruct (recv n timeout (inner r)) as [[b|] t]; cbn [mbind option_bind]; by intros Hp%IH.
Qed.
Lemma replayed_reads d fuel past p h p' l : play_replay d fuel past p = Some (h, p') ->
  to_deliver p = drop (length (omap asked past)) l -> (forall i x, omap asked past !! i = Some x -> x = l !! i) ->
  forall i x, omap asked h !! i = Some x -> x = l !! i.
Proof.
  unfold play_replay. revert past p. induction fuel as [|fuel IH]; intros past p; cbn [play]; [by intros [= -> ->]|].
  destruct (d past) as [[data|n timeout]|]; cbn [act mbind option_bind]; [| |by intros [= -> ->]].
  - cbn. intros Hp Hd Hx. eapply IH; [exact Hp|..]; rewrite omap_app; cbn [omap list_omap asked]; by rewrite app_nil_r.
  - assert (Hstep : forall x, x = l !! length (omap asked past) -> (forall i y, omap asked past !! i = Some y -> y = l !! i) ->
      forall i y, omap asked (past ++ [Reading_ x]) !! i = Some y -> y = l !! i).
    { intros x Hx Hp i y. rewrite omap_app. cbn. intros [Hi|[Hi Hy]]%lookup_app_Some; [by apply Hp|].
      apply list_lookup_singleton_Some in Hy as [Hz <-]. by replace i with (length (omap asked past)) by lia. }
    unfold replay_recv. destruct (to_deliver p) as [|next rest] eqn:Ed; cbn; [|destruct (_ <=? _); [|done]]; cbn; intros Hp Hd Hx.
    + eapply (IH _ _ Hp); [|apply Hstep; [|done]]; cbn [to_deliver].
      * rewrite omap_app, length_app. cbn. by rewrite <- drop_drop, <- Hd.
      * symmetry. apply lookup_ge_None. apply (f_equal length) in Hd. rewrite length_drop in Hd. cbn in Hd. lia.
    + eapply (IH _ _ Hp); [|apply Hstep; [|done]]; cbn [to_deliver].
      * rewrite omap_app, length_app. cbn. by rewrite <- drop_drop, <- Hd.
      * rewrite <- (Nat.add_0_r (length _)), <- lookup_drop, <- Hd. done.
Qed.

(** C35: A recording holds the session and replays it. The file of any session, with whatever
    failures and notes, reads back with exactly the data its reads returned; over the replay of
    it the [i]-th read of any driver, whatever that sends in between, returns the [i]-th of
    those, and nothing once there are no more. So a session in which every frame went out and
    every read returned something replays as it went: the same driver gets the same answers in
    the same order, sends exactly the frames recorded, never outruns the recording and never
    trips over a buffer too small. One in which a read timed out does not: its replay has the
    next reply at once. *)
Theorem replay_is_faithful (d : list (answer E) -> option action) (fuel : nat) (t : T) (notes : list (text * text))
    (h : list (answer E)) (r' : RecordTransport T) :
  Forall key_ok notes ->
  play_recording d fuel [] (foldl (fun r kv => with_header r kv.1 kv.2) (new_record t) notes) = Some (h, r') ->
  exists c, parse (to_text (into_capture r')) = Ok c /\ received c = omap got h /\
    (forall d' fuel' h' p, play_replay d' fuel' [] (new_replay c) = Some (h', p) -> forall i x, omap asked h' !! i = Some x -> x = received c !! i) /\
    (Forall answered h -> play_replay d fuel [] (new_replay c)
       = Some (h, {| to_deliver := []; replay_sent := sent (into_capture r'); exhausted_reads := 0 |})).
Proof.
  intros Hk Hp. set (r0 := foldl _ _ notes) in Hp.
  assert (Hr0 : capture r0 = {| headers := notes; events := [] |}).
  { assert (Hg : forall r : RecordTransport T, capture (foldl (fun r kv => with_header r kv.1 kv.2) r notes)
      = {| headers := headers (capture r) ++ notes; events := events (capture r) |}).
    { clear. induction notes as [|[k v] notes IH]; intros r; cbn; [rewrite app_nil_r; by destruct (capture r)|].
      rewrite IH. cbn. by rewrite <- app_assoc. }
    apply Hg. }
  assert (Hr' : received (capture r') = omap got h) by (apply (recorded_reads _ _ _ _ _ _ Hp); by rewrite Hr0).
  assert (Hh : headers (capture r') = notes) by (rewrite <- (recorded_headers _ _ _ _ _ _ Hp); by rewrite Hr0).
  exists {| headers := folded <$> notes; events := events (capture r') |}. split_and!.
  - unfold into_capture. rewrite capture_text_roundtrip by (by rewrite Hh). by rewrite Hh.
  - done.
  - intros d' fuel' h' p Hp'. apply (replayed_reads d' fuel' [] _ h' p _ Hp'); [done|by intros ? ? ?].
  - intros Ha. destruct (replay_follows d fuel [] r0 h r' (new_replay (capture r')) [] Hp Ha) as (new & Hc & Hr).
    rewrite Hr0 in Hc. cbn in Hc. unfold into_capture, new_replay in *. cbn. rewrite Hc in *. apply Hr. cbn. by rewrite app_nil_r.
Qed.
End Replay.

(** ** Instances *)
Lemma capture_text_roundtrip_witness :
  parse (to_text sample_capture) = Ok {| headers := folded <$> headers sample_capture; events := events sample_capture |}.
Proof.
  apply (capture_text_roundtrip sample_capture). repeat constructor; (vm_compute; discriminate).
Defined.

(** A device that answers from a script. *)
#[export] Instance scripted : Transport (list bytes) unit := {
  send data t := (Ok tt, t);
  recv n timeout t := match t with
                      | b :: rest => if zlen b <=? n then (Some b, rest) else (None, t)
                      | [] => (None, [])
                      end;
  now t := (0, t);
}.
(** A driver that echoes what it reads. *)
Definition echo (past : list (answer unit)) : option action :=
  match last past with
  | Some (Reading_ (Some b)) => Some (DoSend b)
  | _ => if zlen past <? 5 then Some (DoRecv 512 100) else None
  end.
Definition echo_notes : list (text * text) := [(txt "note", 10 :: txt "> 00")].
Definition echo_device : list bytes := [[x01; x02]; []; [xff]].

Lemma replay_is_faithful_witness :
  exists h r' c, play_recording echo 9 [] (foldl (fun r kv => with_header r kv.1 kv.2) (new_record echo_device) echo_notes)
                 = Some (h, r') /\ length h = 6%nat /\ parse (to_text (into_capture r')) = Ok c /\
    play_replay echo 9 [] (new_replay c)
    = Some (h, {| to_deliver := []; replay_sent := echo_device; exhausted_reads := 0 |}).
Proof.
  destruct (play_recording echo 9 [] (foldl (fun r kv => with_header r kv.1 kv.2) (new_record echo_device) echo_notes))
    as [[h r']|] eqn:Ep; [|by vm_compute in Ep].
  assert (Hf : forall n timeout (t : list bytes) b t', recv n timeout t = (Some b, t') -> zlen b <= n).
  { intros n timeout [|b0 rest] b t'; unfold recv, scripted; [done|].
    destruct (Z.leb_spec (zlen b0) n); intros; by simplify_eq. }
  assert (Hh : h = [Reading_ (Some [x01; x02]); Sending (Ok tt); Reading_ (Some []); Sending (Ok tt);
                    Reading_ (Some [xff]); Sending (Ok tt)]) by (vm_compute in Ep; congruence).
  assert (Hs : sent (into_capture r') = echo_device) by (vm_compute in Ep; injection Ep as _ <-; reflexivity).
  destruct (replay_is_faithful Hf echo 9 echo_device echo_notes h r') as (c & Hc & _ & _ & Hr).
  - repeat constructor; (vm_compute; discriminate).
  - exact Ep.
  - exists h, r', c. rewrite Hs in Hr. specialize (Hr ltac:(rewrite Hh; repeat constructor; by eexists)). split; [reflexivity|]. split; [by rewrite Hh|]. split; [exact Hc|exact Hr].
Defined.
