(* ===== verification/Store.v ===== *)
(** * Store: the files of the configuration directory (crates/tobii-config: store.rs, paths.rs, calibration_state.rs)

    Where each file is, how each is written and read back, and what a calibration's
    metadata decides. A path is its text; the environment is a function. Writing goes
    through [Disk.write_atomic]; reading is a function of the file system. *)
From stdpp Require Import gmap.
From S2P Require Import Prelude F64 Floats Utf8 Text Decimal KeyVal Paths Disk Commands.

(** ** Names and directories (paths.rs) *)
Definition APP_DIR : text := txt "tobii-linux".
Definition CONFIG_TOML : text := txt "config.toml".
Definition CALIBRATION_BIN : text := txt "calibration.bin".
Definition CALIBRATION_META : text := txt "calibration.meta.toml".
Definition ENABLED_EYE : text := txt "enabled_eye".
Definition UPDATE_CHECK : text := txt "update_check".
Definition TEXT_SCALE : text := txt "text_scale".
Definition PITCH_OFFSET : text := txt "headpose_pitch_offset".
Definition SETUP_MONITOR_ID : text := txt "setup_monitor_id".
Definition GAMES_TOML : text := txt "games.toml".
Definition ACCURACY_CSV : text := txt "accuracy.csv".
Definition REPORT_SALT : text := txt "report_salt".
Definition CUSTOM_GAMES : text := txt "custom-games.tsv".
Definition PROFILES_DIR : text := txt "profiles".
Definition CONFIG_FILES : list text :=
  [CONFIG_TOML; CALIBRATION_BIN; CALIBRATION_META; ENABLED_EYE; UPDATE_CHECK; TEXT_SCALE; PITCH_OFFSET;
   SETUP_MONITOR_ID; GAMES_TOML; ACCURACY_CSV; REPORT_SALT; CUSTOM_GAMES].
Definition LOG_FILE : text := txt "tobii.log".
Definition LEGACY_REPORT_FILE : text := txt "diagnostics.txt".
Definition STATE_FILES : list text := [LOG_FILE; LEGACY_REPORT_FILE].
Definition APP_ID : text := txt "com.tobiilinux.Configuration".
Definition DESKTOP_ENTRY : text := txt "com.tobiilinux.Configuration.desktop".
Definition ICON_FILE : text := txt "com.tobiilinux.Configuration.svg".
Definition MANIFEST_FILE : text := txt "installs".

Definition is_scratch_of (base name : text) : bool :=
  match r ← strip_prefix base name; strip_prefix (txt ".new-") r with
  | Some pid => match pid with [] => false | _ => forallb is_ascii_digit pid end
  | None => false
  end.

(** [filter(|p| p.is_absolute())] *)
Definition absolute (p : option text) : option text := p ← p; if is_absolute p then Some p else None.
Definition xdg_dir (var home : option text) (fallback : text) : text :=
  match absolute var with
  | Some v => v
  | None => path_join (default (txt "/nonexistent") (absolute home)) fallback
  end.

Section Env.
Context (env : text -> option text).
Definition from_env (var fallback : text) : text := xdg_dir (env var) (env (txt "HOME")) fallback.
Definition config_home : text := from_env (txt "XDG_CONFIG_HOME") (txt ".config").
Definition state_home : text := from_env (txt "XDG_STATE_HOME") (txt ".local/state").
Definition config_dir : text := path_join config_home APP_DIR.
Definition state_dir : text := path_join state_home APP_DIR.
Definition config_path : text := path_join config_dir CONFIG_TOML.
(** [config_path().with_file_name(name)]: beside [config.toml]. *)
Definition beside_config (name : text) : text := path_join config_dir name.
Definition calibration_path : text := beside_config CALIBRATION_BIN.
Definition calibration_meta_path : text := beside_config CALIBRATION_META.
Definition enabled_eye_path : text := beside_config ENABLED_EYE.
Definition update_check_path : text := beside_config UPDATE_CHECK.
Definition text_scale_path : text := beside_config TEXT_SCALE.
Definition pitch_offset_path : text := beside_config PITCH_OFFSET.
Definition setup_monitor_id_path : text := beside_config SETUP_MONITOR_ID.
End Env.
Definition manifest_in (data_dir : text) : text := path_join (path_join data_dir APP_DIR) MANIFEST_FILE.
Definition desktop_entry_in (data_dir : text) : text := path_join (path_join data_dir (txt "applications")) DESKTOP_ENTRY.
Definition hicolor_in (data_dir : text) : text := path_join (path_join data_dir (txt "icons")) (txt "hicolor").
Definition icon_in (data_dir : text) : text :=
  path_join (path_join (path_join (hicolor_in data_dir) (txt "scalable")) (txt "apps")) ICON_FILE.
Definition app_object_path : text := 47 :: ((fun c => if c =? 46 then 47 else c) <$> APP_ID).

(** Nothing is ever looked for relative to the working directory. *)
Lemma absolute_some p v : absolute p = Some v -> is_absolute v = true.
Proof. unfold absolute. destruct p as [p|]; [|done]. cbn. destruct (is_absolute p) eqn:E; [congruence|done]. Qed.
Lemma is_absolute_app a b : is_absolute a = true -> is_absolute (a ++ b) = true.
Proof. destruct a as [|x a]; [done|]. unfold is_absolute, starts_with. cbn [strip_prefix app]. by destruct (47 =? x). Qed.
Lemma path_join_absolute a b : is_absolute a = true -> is_absolute (path_join a b) = true.
Proof.
  intros H. unfold path_join. destruct (is_absolute b) eqn:E; [done|].
  destruct (last a) as [c|] eqn:El; [|by apply last_None in El as ->].
  destruct (c =? 47); by apply is_absolute_app.
Qed.
Lemma config_dir_absolute env : is_absolute (config_dir env) = true.
Proof.
  apply path_join_absolute. unfold config_home, from_env, xdg_dir.
  destruct (absolute (env _)) eqn:E; [by eapply absolute_some|]. apply path_join_absolute.
  destruct (absolute (env (txt "HOME"))) eqn:E2; [by eapply absolute_some|done].
Qed.

(** ** Reading *)
Definition read_opt (f : Fs) (p : text) : result io_error (option bytes) :=
  match read_file f p with
  | Ok b => Ok (Some b)
  | Err NotFound => Ok None
  | Err e => Err e
  end.

(** ** The calibration and its metadata *)
Record CalMeta := {
  monitor_id : option text;
  created_utc : Z;
  mode : text;
  display_fingerprint : Z;
}.

Definition meta_to_toml (m : CalMeta) : text :=
  txt "# tobii-linux calibration metadata" ++ 10 ::
  txt "monitor_id = " ++ 34 :: default [] (monitor_id m) ++ 34 :: 10 ::
  txt "created_utc = " ++ show_int (created_utc m) ++ 10 ::
  txt "mode = " ++ 34 :: mode m ++ 34 :: 10 ::
  txt "display_fingerprint = " ++ show_uint (display_fingerprint m) ++ [10].

(** The four locals of [from_toml]. *)
Record MetaDraft := {
  d_mid : option (option text);
  d_created : option Z;
  d_mode : option text;
  d_fp : option Z;
}.
Definition meta_draft0 : MetaDraft := {| d_mid := None; d_created := None; d_mode := None; d_fp := None |}.
Definition meta_line (d : MetaDraft) (line : text) : MetaDraft :=
  let line := trim line in
  if match line with [] => true | c :: _ => c =? 35 end then d
  else match split_once (Z.eqb 61) line with
       | None => d
       | Some (k, v) =>
           let v := trim_by (Z.eqb 34) (trim v) in
           let k := trim k in
           if text_eqb k (txt "monitor_id") then {d with d_mid := Some (match v with [] => None | _ => Some v end)}
           else if text_eqb k (txt "created_utc") then {d with d_created := parse_int 64 v}
           else if text_eqb k (txt "mode") then {d with d_mode := Some v}
           else if text_eqb k (txt "display_fingerprint") then {d with d_fp := parse_uint 64 10 v}
           else d
       end.
Definition meta_from_toml (s : text) : option CalMeta :=
  let d := foldl meta_line meta_draft0 (lines s) in
  mid ← d_mid d; created ← d_created d; mode ← d_mode d; fp ← d_fp d;
  Some {| monitor_id := mid; created_utc := created; mode := mode; display_fingerprint := fp |}.

Definition save_calibration_to (os : nat -> outcome) (bin meta_path : text) (blob : bytes) (meta : CalMeta) : Io unit :=
  _ ← write_atomic os bin blob;
  write_atomic os meta_path (utf8_encode (meta_to_toml meta)).
Definition load_calibration_from (f : Fs) (bin meta_path : text) : result io_error (option (bytes * option CalMeta)) :=
  blob ← read_opt f bin;
  match blob with
  | None => Ok None
  | Some blob =>
      meta ← read_opt f meta_path;
      Ok (Some (blob, b ← meta; s ← utf8_decode b; meta_from_toml s))
  end.

(** ** What to do about a calibration (calibration_state.rs) *)
Inductive RecommendReason := OtherScreen | GeometryChanged.
Inductive CalAction := NoAction | ForceSetup | ForceCalibration | RecommendCalibration (r : RecommendReason).

Definition decide (display_configured : bool) (cal : option CalMeta) (active_monitor : option text)
  (current_fingerprint : Z) : CalAction :=
  if negb display_configured then ForceSetup
  else match cal with
  | None => ForceCalibration
  | Some cal =>
      if match active_monitor, monitor_id cal with
         | Some active, Some bound => negb (text_eqb active bound)
         | _, _ => false
         end
      then RecommendCalibration OtherScreen
      else if negb (display_fingerprint cal =? current_fingerprint) then RecommendCalibration GeometryChanged
      else NoAction
  end.

(** ** Preferences: one small file each *)
Definition save_enabled_eye (os : nat -> outcome) (p : text) (eye : EnabledEye) : Io unit :=
  write_atomic os p [byte.of_Z (wrap 8 (to_wire eye))].
Definition load_enabled_eye (f : Fs) (p : text) : result io_error (option EnabledEye) :=
  b ← read_opt f p;
  Ok (b ← b; w ← head b; from_wire (u8 w)).

(** [update_check_enabled]: the environment variable first. *)
Definition update_check_enabled_at (f : Fs) (p : text) : bool :=
  match read_opt f p with
  | Ok (Some b) => negb (bool_decide (trim <$> utf8_decode b = Some (txt "off")))
  | _ => true
  end.
Definition update_check_enabled (no_update_check : option text) (f : Fs) (p : text) : bool :=
  match no_update_check with
  | Some v => if negb (text_eqb v (txt "0")) then false else update_check_enabled_at f p
  | None => update_check_enabled_at f p
  end.
Definition save_update_check_to (os : nat -> outcome) (p : text) (enabled : bool) : Io unit :=
  write_atomic os p (utf8_encode (if enabled then txt "on" ++ [10] else txt "off" ++ [10])).

Definition TEXT_SCALE_MIN : f64 := lit 8 10.
Definition TEXT_SCALE_MAX : f64 := lit 16 10.
(** [s.trim().parse::<f64>().ok()], of the bytes of a file. *)
Definition number_of (b : bytes) : option f64 := s ← utf8_decode b; parse_f64 (trim s).
Definition text_scale_at (f : Fs) (p : text) : f64 :=
  match read_opt f p with
  | Ok (Some b) =>
      match number_of b with
      | Some v => if is_finite v && fle TEXT_SCALE_MIN v && fle v TEXT_SCALE_MAX then v else lit 1 1
      | None => lit 1 1
      end
  | _ => lit 1 1
  end.
Definition save_text_scale_to (os : nat -> outcome) (p : text) (scale : f64) : Io unit :=
  let clamped := if is_finite scale then clamp_to scale TEXT_SCALE_MIN TEXT_SCALE_MAX else lit 1 1 in
  write_atomic os p (utf8_encode (newline (show_f64 clamped))).
Definition save_pitch_offset_to (os : nat -> outcome) (p : text) (deg : f64) : Io unit :=
  write_atomic os p (utf8_encode (newline (show_f64 deg))).
Definition load_pitch_offset_from (f : Fs) (p : text) : result io_error (option f64) :=
  b ← read_opt f p;
  Ok (b ← b; v ← number_of b; if is_finite v then Some v else None).

Definition save_setup_monitor_id_to (os : nat -> outcome) (p : text) (id : option text) : Io unit :=
  match id with
  | Some id => write_atomic os p (utf8_encode id)
  | None => fun w => match remove_file os p w with
                     | (Err NotFound, w) => (Ok tt, w)
                     | other => other
                     end
  end.
Definition load_setup_monitor_id_from (f : Fs) (p : text) : result io_error (option text) :=
  b ← read_opt f p;
  Ok (b ← b; s ← utf8_decode b; match s with [] => None | _ => Some s end).

(** ** The metadata reads back *)
Definition unquoted (s : text) : Prop := one_line s /\ front_ok (Z.eqb 34) s /\ back_ok (Z.eqb 34) s.
(** What [to_toml] can say of a metadata record. *)
Record meta_ok (m : CalMeta) : Prop := {
  mo_id : match monitor_id m with Some id => id <> [] /\ unquoted id /\ scalars id | None => True end;
  mo_created : is_i 64 (created_utc m);
  mo_mode : unquoted (mode m) /\ scalars (mode m);
  mo_fp : is_u 64 (display_fingerprint m);
}.

(** What a key does with its value. *)
Definition meta_set (d : MetaDraft) (k v : text) : MetaDraft :=
  if text_eqb k (txt "monitor_id") then {d with d_mid := Some (match v with [] => None | _ => Some v end)}
  else if text_eqb k (txt "created_utc") then {d with d_created := parse_int 64 v}
  else if text_eqb k (txt "mode") then {d with d_mode := Some v}
  else if text_eqb k (txt "display_fingerprint") then {d with d_fp := parse_uint 64 10 v}
  else d.

Lemma meta_line_split d k v : plain_key k = true -> back_ok is_whitespace (k ++ 32 :: 61 :: v) ->
  meta_line d (k ++ 32 :: 61 :: v) = meta_set d k (trim_by (Z.eqb 34) (trim v)).
Proof.
  intros Hk Hb. destruct (pair_line k v Hk Hb) as (E1 & E2 & _ & E3 & E4).
  unfold meta_line. by rewrite E1, E2, E3, E4.
Qed.

Definition meta_lines (m : CalMeta) : list text :=
  [txt "# tobii-linux calibration metadata";
   txt "monitor_id" ++ 32 :: 61 :: 32 :: 34 :: default [] (monitor_id m) ++ [34];
   txt "created_utc" ++ 32 :: 61 :: 32 :: show_int (created_utc m);
   txt "mode" ++ 32 :: 61 :: 32 :: 34 :: mode m ++ [34];
   txt "display_fingerprint" ++ 32 :: 61 :: 32 :: show_uint (display_fingerprint m)].

Lemma meta_to_toml_lines m : meta_to_toml m = meta_lines m ≫= newline.
Proof.
  unfold meta_to_toml, meta_lines, newline. cbn [mbind list_bind]. rewrite app_nil_r.
  rewrite <- !app_assoc. cbn [app]. rewrite <- !app_assoc. done.
Qed.

Lemma meta_lines_ok m : meta_ok m ->
  Forall one_line (meta_lines m) /\ Forall (back_ok (Z.eqb 13)) (meta_lines m).
Proof.
  intros [Hid Hc [[Hm _] _] Hf].
  assert (Hi : one_line (default [] (monitor_id m))).
  { destruct (monitor_id m); [by destruct Hid as (_ & [? _] & _)|constructor]. }
  assert (Hu : token (show_uint (display_fingerprint m))) by (apply show_uint_token, Hf).
  pose proof (show_int_token (created_utc m)) as Hs. unfold meta_lines. rewrite !Forall_cons.
  split; split_and!; try apply Forall_nil_2;
    try (apply quoted_line; [by apply plain_key_line|done]); try (apply token_line; [by apply plain_key_line|done]);
    try (by apply quoted_back); try (apply token_back; [apply not_cr|done]); [|done].
  apply (one_line_app (txt "#")). split; [by repeat constructor|].
  repeat first [apply Forall_nil_2 | apply Forall_cons_2; [done|]].
Qed.
Lemma meta_line_quoted d k v : plain_key k = true -> front_ok (Z.eqb 34) v -> back_ok (Z.eqb 34) v ->
  meta_line d (k ++ 32 :: 61 :: 32 :: 34 :: v ++ [34]) = meta_set d k v.
Proof. intros Hk Hf Hb. rewrite meta_line_split; [by rewrite trim_quoted|done|by apply quoted_back]. Qed.
Lemma meta_line_token d k v : plain_key k = true -> token v ->
  meta_line d (k ++ 32 :: 61 :: 32 :: v) = meta_set d k v.
Proof. intros Hk Hv. rewrite meta_line_split; [by rewrite trim_token|done|by apply token_back]. Qed.

Lemma meta_roundtrip m : meta_ok m -> meta_from_toml (meta_to_toml m) = Some m.
Proof.
  intros Hm. destruct (meta_lines_ok m Hm) as [H1 H2].
  unfold meta_from_toml. rewrite meta_to_toml_lines, lines_newlines by done.
  destruct Hm as [Hid Hc [[_ [Hmf Hmb]] _] Hf].
  assert (Hu : token (show_uint (display_fingerprint m))) by (apply show_uint_token, Hf).
  assert (Hq : front_ok (Z.eqb 34) (default [] (monitor_id m)) /\ back_ok (Z.eqb 34) (default [] (monitor_id m))).
  { destruct (monitor_id m); [by destruct Hid as (_ & [_ ?] & _)|done]. }
  destruct Hq. unfold meta_lines. cbn [foldl].
  change (meta_line meta_draft0 (txt "# tobii-linux calibration metadata")) with meta_draft0.
  rewrite !meta_line_quoted, !meta_line_token by (done || apply show_int_token).
  unfold meta_set. rewrite parse_show_int, parse_show_uint by done.
  destruct m as [[[|c id]|] cr mo fp]; [by destruct Hid|done|done].
Qed.

(** *** Through the file system *)
Lemma meta_scalars m : meta_ok m -> scalars (meta_to_toml m).
Proof.
  intros [Hid _ [_ Hm] Hf].
  assert (Hi : scalars (default [] (monitor_id m))) by (destruct (monitor_id m); [apply Hid|constructor]).
  pose proof (show_int_scalars (created_utc m)). pose proof (show_uint_scalars (display_fingerprint m) (proj1 Hf)).
  assert (Ht : forall k v, forallb is_char k = true -> scalars v -> scalars (k ++ 32 :: 61 :: 32 :: v)).
  { intros k v Hk Hv. apply scalars_app. split; [by apply scalars_dec|].
    by apply (scalars_app [32; 61; 32]); split; [apply scalars_dec|]. }
  assert (Hq : forall v, scalars v -> scalars (34 :: v ++ [34])).
  { intros v Hv. constructor; [done|]. apply scalars_app. split; [done|by apply scalars_dec]. }
  rewrite meta_to_toml_lines. apply scalars_lines. unfold meta_lines. rewrite !Forall_cons.
  split_and!; [by apply scalars_dec|apply Ht; [done|by apply Hq]|by apply Ht|apply Ht; [done|by apply Hq]|by apply Ht|by apply Forall_nil].
Qed.

Lemma read_visible f p b : visible f p = Some b -> read_opt f p = Ok (Some b).
Proof. intros H. unfold read_opt, read_file. by rewrite H. Qed.

(** A saved calibration is the one that is loaded: the blob byte for byte and every
    field of its metadata; and for the same screen and geometry nothing is asked of the user. *)
Theorem saved_calibration_is_loaded (os : nat -> outcome) (bin meta_path : text) (blob : bytes) (m : CalMeta)
    (w w' : World) :
  tidy (fs w) -> bin <> meta_path -> bin <> meta_path ++ ATOMIC_TMP_SUFFIX -> meta_ok m ->
  save_calibration_to os bin meta_path blob m w = (Ok tt, w') ->
  load_calibration_from (fs w') bin meta_path = Ok (Some (blob, Some m)) /\
  decide true (Some m) (monitor_id m) (display_fingerprint m) = NoAction.
Proof.
  intros T Hne Hne2 Hm E. unfold save_calibration_to in E. apply M_bind_inv in E as ([] & w1 & E1 & E2).
  destruct (write_atomic_result _ _ _ _ _ _ T E1) as (T1 & _ & V1).
  destruct (write_atomic_result _ _ _ _ _ _ T1 E2) as (_ & K & V2).
  specialize (V1 eq_refl). specialize (V2 eq_refl). split.
  - unfold load_calibration_from. rewrite (read_visible _ bin blob) by (by rewrite K).
    cbn [mbind result_bind]. rewrite (read_visible _ _ _ V2). cbn [mbind result_bind option_bind].
    rewrite decode_encode by (by apply meta_scalars). cbn [mbind option_bind]. by rewrite meta_roundtrip.
  - unfold decide. cbn. rewrite Z.eqb_refl. destruct (monitor_id m); [|done]. by rewrite text_eqb_refl.
Qed.

Definition sample_meta : CalMeta :=
  {| monitor_id := Some (txt "SAM7454"); created_utc := 1754784000; mode := txt "full"; display_fingerprint := 2 ^ 64 - 1 |}.
Lemma sample_meta_ok : meta_ok sample_meta.
Proof.
  constructor; cbn [monitor_id created_utc mode display_fingerprint sample_meta].
  - split_and!; [done| |by apply scalars_dec]. by split; [apply plain_key_line|].
  - split; vm_compute; congruence.
  - split; [|by apply scalars_dec]. by split; [apply plain_key_line|].
  - split; vm_compute; congruence.
Qed.
Definition empty_disk : Fs := {| dir := ∅; older := []; inodes := ∅; next_ino := 0 |}.
Lemma empty_disk_tidy : tidy empty_disk.
Proof. split; [intros p i H|intros p q i H]; cbn [dir empty_disk] in H; by rewrite lookup_empty in H. Qed.

Lemma saved_calibration_is_loaded_witness :
  let bin := txt "/c/calibration.bin" in let meta := txt "/c/calibration.meta.toml" in
  let r := save_calibration_to (fun _ => Completes) bin meta [x01; x02] sample_meta (start empty_disk) in
  load_calibration_from (fs r.2) bin meta = Ok (Some ([x01; x02], Some sample_meta)) /\
  decide true (Some sample_meta) (monitor_id sample_meta) (display_fingerprint sample_meta) = NoAction.
Proof.
  intros bin meta r. apply (saved_calibration_is_loaded (fun _ => Completes) bin meta [x01; x02] sample_meta (start empty_disk)).
  - exact empty_disk_tidy.
  - vm_compute. congruence.
  - vm_compute. congruence.
  - exact sample_meta_ok.
  - vm_compute. reflexivity.
Defined.

(** A monitor id that ends in a quotation mark loses it on the way: the same screen is then
    reported as another one. *)
Example a_quote_at_the_end_is_lost :
  let m := {| monitor_id := Some (txt "DEL-40A" ++ [34]); created_utc := 0; mode := txt "full"; display_fingerprint := 1 |} in
  let loaded := meta_from_toml (meta_to_toml m) in
  (loaded ≫= monitor_id, decide true loaded (monitor_id m) 1) = (Some (txt "DEL-40A"), RecommendCalibration OtherScreen).
Proof. vm_compute. reflexivity. Qed.

(** *** Preferences *)
Lemma written_is_read os p b w w' :
  tidy (fs w) -> write_atomic os p b w = (Ok tt, w') -> read_opt (fs w') p = Ok (Some b).
Proof. intros T E. destruct (write_atomic_result _ _ _ _ _ _ T E) as (_ & _ & V). by apply read_visible, V. Qed.

Lemma update_check_reads_back os p on w w' :
  tidy (fs w) -> save_update_check_to os p on w = (Ok tt, w') -> update_check_enabled_at (fs w') p = on.
Proof. intros T E. unfold update_check_enabled_at. rewrite (written_is_read _ _ _ _ _ T E). by destruct on. Qed.
Lemma enabled_eye_reads_back os p eye w w' :
  tidy (fs w) -> save_enabled_eye os p eye w = (Ok tt, w') -> load_enabled_eye (fs w') p = Ok (Some eye).
Proof. intros T E. unfold load_enabled_eye. rewrite (written_is_read _ _ _ _ _ T E). by destruct eye. Qed.
Lemma monitor_id_reads_back os p id w w' :
  id <> [] -> scalars id -> tidy (fs w) -> save_setup_monitor_id_to os p (Some id) w = (Ok tt, w') ->
  load_setup_monitor_id_from (fs w') p = Ok (Some id).
Proof.
  intros Hn Hs T E. unfold load_setup_monitor_id_from. rewrite (written_is_read _ _ _ _ _ T E).
  cbn [mbind result_bind option_bind]. rewrite decode_encode by done. by destruct id.
Qed.
(** Whatever the file holds, the interface stays readable. *)
Lemma text_scale_in_range f p :
  fle TEXT_SCALE_MIN (text_scale_at f p) = true /\ fle (text_scale_at f p) TEXT_SCALE_MAX = true.
Proof.
  assert (H1 : fle TEXT_SCALE_MIN (lit 1 1) = true /\ fle (lit 1 1) TEXT_SCALE_MAX = true) by done.
  unfold text_scale_at. destruct (read_opt f p) as [[b|]|]; [|done..].
  destruct (number_of b) as [v|]; [|done].
  destruct (is_finite v); [|done]. destruct (fle TEXT_SCALE_MIN v) eqn:E1; [|done].
  by destruct (fle v TEXT_SCALE_MAX) eqn:E2.
Qed.

Lemma number_reads_back x : is_f64 x -> number_of (utf8_encode (newline (show_f64 x))) = Some x.
Proof.
  intros Hx. pose proof (show_f64_token x Hx) as Ht. unfold number_of.
  rewrite decode_encode by (apply scalars_app; split; [by apply token_scalars_f64|by apply scalars_dec]).
  cbn [mbind option_bind]. replace (trim (newline (show_f64 x))) with (show_f64 x); [by apply show_f64_reads_back|].
  unfold trim, trim_by, newline. destruct (token_ends is_whitespace _ (fun c H _ _ => H) Ht) as [Hf Hb].
  rewrite trim_start_id by (apply front_ok_app; [by destruct Ht|done]).
  rewrite trim_end_all by (by constructor). by rewrite trim_end_id.
Qed.
Lemma pitch_offset_reads_back os p deg w w' :
  is_f64 deg -> is_finite deg = true -> tidy (fs w) -> save_pitch_offset_to os p deg w = (Ok tt, w') ->
  load_pitch_offset_from (fs w') p = Ok (Some deg).
Proof.
  intros Hd Hf T E. unfold load_pitch_offset_from. rewrite (written_is_read _ _ _ _ _ T E).
  cbn [mbind result_bind option_bind]. rewrite number_reads_back by done. cbn. by rewrite Hf.
Qed.
(** Saving clamps to what reading accepts: what is saved is what is applied. *)
Lemma text_scale_reads_back os p scale w w' :
  is_f64 scale -> tidy (fs w) -> save_text_scale_to os p scale w = (Ok tt, w') ->
  text_scale_at (fs w') p = if is_finite scale then clamp_to scale TEXT_SCALE_MIN TEXT_SCALE_MAX else lit 1 1.
Proof.
  intros Hs T E. unfold save_text_scale_to in E. set (v := if is_finite scale then _ else _) in *.
  assert (Hv : is_f64 v /\ is_finite v = true /\ fle TEXT_SCALE_MIN v = true /\ fle v TEXT_SCALE_MAX = true).
  { unfold v. destruct (is_finite scale) eqn:Ef; [|by vm_compute].
    assert (Hn : is_nan scale = false) by (by destruct scale).
    destruct (clamp_bounds scale TEXT_SCALE_MIN TEXT_SCALE_MAX Hn eq_refl) as [H1 H2].
    split_and!; [| |done|done]; unfold clamp_to; destruct (SFltb scale _); try (by vm_compute);
      destruct (SFltb _ scale); by vm_compute || done. }
  destruct Hv as (Hv & Hf & H1 & H2). unfold text_scale_at. rewrite (written_is_read _ _ _ _ _ T E).
  rewrite number_reads_back by done. by rewrite Hf, H1, H2.
Qed.
