(* ===== verification/Autostart.v ===== *)
(** * Autostart: the entry that starts the hub at login (crates/tobii-config/src/autostart.rs)

    Writing the entry and reading a program back out of any desktop entry, through the two
    layers of escapes and the quoting of [Exec]. [autostart_entry_roundtrip]: what is started
    is the path that was written, whatever is in it; [exec_is_the_only_one]: an answer is
    about the one [Exec] of the main group, and about nothing else. *)
From S2P Require Import Prelude Text Paths Disk Store.

Definition ENTRY_NAME : text := DESKTOP_ENTRY.
Definition autostart_dir_in (config_home : text) : text := path_join config_home (txt "autostart").
Section Env.
Context (env : text -> option text).
Definition autostart_dir : text := autostart_dir_in (config_home env).
Definition entry_path : text := path_join autostart_dir ENTRY_NAME.
End Env.
Definition scratch_name (pid : Z) : text := ENTRY_NAME ++ txt ".new-" ++ show_uint pid.
Definition is_scratch_name (name : text) : bool := is_scratch_of ENTRY_NAME name.

(** ** Writing *)
(** What goes in front of a character: 34 is a double quote, 36 a dollar, 37 a percent sign,
    92 a backslash, 96 a backquote. *)
Definition escape_of (c : char) : text :=
  if c =? 92 then [92; 92; 92] else if (c =? 34) || (c =? 96) || (c =? 36) then [92; 92] else if c =? 37 then [37] else [].
Definition quote_exec (exec : text) : text := 34 :: (exec ≫= fun c => escape_of c ++ [c]) ++ [34].
Definition entry_lines (exec : text) : list text :=
  [txt "[Desktop Entry]"; txt "Type=Application"; txt "Version=1.5"; txt "Name=Tobii Eye Tracker";
   txt "Comment=Keep the Tobii hub ready in the background"; txt "Exec=" ++ quote_exec exec ++ txt " --background";
   txt "Icon=" ++ APP_ID; txt "Terminal=false"; txt "NoDisplay=true"; txt "X-GNOME-Autostart-enabled=true"].
Definition entry_text (exec : text) : text := entry_lines exec ≫= newline.

(** ** Reading *)
Fixpoint unescape_value (v : text) : option text :=
  match v with
  | [] => Some []
  | 92 :: e :: v =>
      c ← (if e =? 115 then Some 32 else if e =? 110 then Some 10 else if e =? 116 then Some 9
           else if e =? 114 then Some 13 else if e =? 92 then Some 92 else None);
      cons c <$> unescape_value v
  | c :: v => if c =? 92 then None else cons c <$> unescape_value v
  end.
Definition RESERVED : text := [39; 92; 62; 60; 126; 124; 38; 59; 36; 42; 63; 35; 96].
Definition may_escape (e : char) : bool := (e =? 34) || (e =? 96) || (e =? 36) || (e =? 92).
Definition separates (c : char) : bool := (c =? 32) || (c =? 9) || (c =? 10) || (c =? 13).
(** One argument and what is left; [None] when its quoting is not defined. *)
Fixpoint read_argument (quoted : bool) (arg v : text) : option (text * text) :=
  match v with
  | [] => if quoted then None else Some (arg, [])
  | c :: v =>
      if c =? 34 then read_argument (negb quoted) arg v
      else if (c =? 92) && quoted then
        match v with e :: v => if may_escape e then read_argument quoted (arg ++ [e]) v else None | [] => None end
      else if ((c =? 96) || (c =? 36)) && quoted then None
      else if negb quoted && existsb (Z.eqb c) RESERVED then None
      else if negb quoted && separates c then Some (arg, v)
      else read_argument quoted (arg ++ [c]) v
  end.
(** [replace(two percent signs, one)] *)
Fixpoint single_percents (s : text) : text :=
  match s with
  | 37 :: 37 :: s => 37 :: single_percents s
  | c :: s => c :: single_percents s
  | [] => []
  end.
(** Every argument takes at least a character, so the length is fuel enough. *)
Fixpoint arguments_loop (fuel : nat) (args : list text) (v : text) : option (list text) :=
  match fuel with
  | O => Some args
  | S fuel =>
      match trim_start v with
      | [] => Some args
      | v => '(arg, v) ← read_argument false [] v; arguments_loop fuel (args ++ [single_percents arg]) v
      end
  end.
Definition split_arguments (v : text) : option (list text) :=
  args ← arguments_loop (S (length v)) [] v;
  match args with (_ :: _) :: _ => Some args | _ => None end.

(** The lines of the entry: whether the main group is open, and the [Exec] seen in it; [None]
    is the early return at a second one. *)
Fixpoint find_exec (in_main : bool) (exec : option text) (lines : list text) : option (option text) :=
  match lines with
  | [] => Some exec
  | line :: lines =>
      let line := trim line in
      if starts_with [91] line then find_exec (text_eqb line (txt "[Desktop Entry]")) exec lines
      else if negb in_main then find_exec in_main exec lines
      else match split_once (Z.eqb 61) line with
           | None => find_exec in_main exec lines
           | Some (key, value) =>
               if negb (text_eqb (trim key) (txt "Exec")) then find_exec in_main exec lines
               else match exec with Some _ => None | None => find_exec in_main (Some (trim value)) lines end
           end
  end.
Definition exec_arguments (entry : text) : option (list text) :=
  exec ← find_exec false None (lines entry);
  exec ← exec;
  v ← unescape_value exec;
  split_arguments v.

Example arguments_of_entries :
  exec_arguments (txt "[Desktop Entry]
Exec=env GDK_BACKEND=x11 /usr/bin/tobii-gtk
[Other]
Exec=no") = Some [txt "env"; txt "GDK_BACKEND=x11"; txt "/usr/bin/tobii-gtk"] /\
  exec_arguments (txt "[Desktop Entry]
Exec=/opt/My\ Projects/tobii-gtk") = None /\
  exec_arguments (txt "[Desktop Entry]
Exec=a
Exec=b") = None.
Proof. vm_compute. auto. Qed.

(** ** The quoting undone *)
(** An argument inside its quotes, once the escapes of the value are gone. *)
Definition in_quotes (c : char) : text :=
  if (c =? 92) || (c =? 34) || (c =? 96) || (c =? 36) then [92; c] else if c =? 37 then [37; 37] else [c].
Lemma unescape_cons c v : (c =? 92) = false -> unescape_value (c :: v) = cons c <$> unescape_value v.
Proof. intros H. cbn [unescape_value]. destruct c as [|p|p]; [by destruct v|..|by destruct v]. do 8 (destruct p as [p|p|]; try done); by destruct v. Qed.
Lemma unescape_backslash v : unescape_value (92 :: 92 :: v) = cons 92 <$> unescape_value v.
Proof. done. Qed.
Lemma unescape_quoted exec v : unescape_value ((exec ≫= fun c => escape_of c ++ [c]) ++ v) = app (exec ≫= in_quotes) <$> unescape_value v.
Proof.
  induction exec as [|c exec IH]; cbn [mbind list_bind]; [cbn; by destruct (unescape_value v)|].
  rewrite <- !app_assoc. unfold escape_of at 1, in_quotes at 1.
  destruct (Z.eqb_spec c 92) as [->|Hb]; cbn [orb app].
  { rewrite !unescape_backslash, IH. by destruct (unescape_value v). }
  assert (E : (c =? 92) = false) by (by apply Z.eqb_neq).
  destruct ((c =? 34) || (c =? 96) || (c =? 36)); cbn [app].
  { rewrite unescape_backslash, unescape_cons, IH by done. by destruct (unescape_value v). }
  destruct (Z.eqb_spec c 37) as [->|Hp]; cbn [app]; rewrite !unescape_cons, IH by done; by destruct (unescape_value v).
Qed.
Lemma read_quoted exec : forall arg v,
  read_argument true arg ((exec ≫= in_quotes) ++ 34 :: v) = read_argument false (arg ++ (exec ≫= fun c => if c =? 37 then [37; 37] else [c])) v.
Proof.
  induction exec as [|c exec IH]; intros arg v; cbn [mbind list_bind]; [cbn; by rewrite app_nil_r|]. rewrite <- app_assoc. unfold in_quotes at 1.
  destruct ((c =? 92) || (c =? 34) || (c =? 96) || (c =? 36)) eqn:Es; cbn [app read_argument].
  - change (92 =? 34) with false. change ((92 =? 92) && true) with true. cbn iota.
    assert (Hm : may_escape c = true) by (unfold may_escape; destruct (c =? 92), (c =? 34), (c =? 96), (c =? 36); done). rewrite Hm, IH, <- app_assoc.
    destruct (Z.eqb_spec c 37) as [->|_]; [done|]. done.
  - rewrite !orb_false_iff in Es. destruct Es as (((E1 & E2) & E3) & E4).
    destruct (Z.eqb_spec c 37) as [->|Hp]; cbn [app read_argument].
    + cbn. rewrite IH. by rewrite <- !app_assoc.
    + rewrite E1, E2, E3, E4. cbn [negb andb orb]. rewrite IH. by rewrite <- app_assoc.
Qed.
Lemma single_cons c s : (c =? 37) = false -> single_percents (c :: s) = c :: single_percents s.
Proof. intros H. cbn [single_percents]. destruct c as [|p|p]; [done|..|done]. do 7 (destruct p as [p|p|]; try done). Qed.
Lemma percents_back exec : single_percents (exec ≫= fun c => if c =? 37 then [37; 37] else [c]) = exec.
Proof.
  induction exec as [|c exec IH]; [done|]. cbn [mbind list_bind]. destruct (Z.eqb_spec c 37) as [->|Hc]; cbn [app].
  - change (37 :: single_percents (exec ≫= fun c => if c =? 37 then [37; 37] else [c]) = 37 :: exec). by rewrite IH.
  - rewrite single_cons, IH by (by apply Z.eqb_neq). done.
Qed.

Definition exec_value (exec : text) : text := quote_exec exec ++ txt " --background".
Lemma exec_value_ends exec : front_ok is_whitespace (exec_value exec) /\ forall a p, p 100 = false -> back_ok p (a ++ exec_value exec).
Proof.
  split; [done|]. intros a p Hp. unfold exec_value. rewrite app_assoc. apply back_ok_app; [done|]. exact Hp.
Qed.
Lemma exec_value_line exec : one_line exec -> one_line (txt "Exec=" ++ exec_value exec).
Proof.
  intros H. unfold exec_value, quote_exec. apply one_line_app. split; [by apply one_line_dec|].
  apply one_line_app. split; [|by apply one_line_dec]. apply (one_line_app [34]). split; [by apply one_line_dec|].
  apply one_line_app. split; [|by apply one_line_dec].
  induction H as [|c exec Hc _ IH]; [constructor|]. cbn [mbind list_bind]. apply one_line_app. split; [|exact IH].
  unfold escape_of. destruct (c =? 92), ((c =? 34) || (c =? 96) || (c =? 36)), (c =? 37); repeat constructor; done.
Qed.
Lemma entry_lines_read exec : one_line exec -> lines (entry_text exec) = entry_lines exec.
Proof.
  intros Hl. apply lines_newlines; unfold entry_lines; repeat (constructor; [first [by apply one_line_dec|done|apply exec_value_line, Hl|by apply exec_value_ends]|]); constructor.
Qed.
(** A line of the main group that is not [Exec], and one that is. *)
Definition skips (l : text) : bool :=
  negb (starts_with [91] (trim l)) && match split_once (Z.eqb 61) (trim l) with Some (k, _) => negb (text_eqb (trim k) (txt "Exec")) | None => true end.
Lemma find_skips l ls e : skips l = true -> find_exec true e (l :: ls) = find_exec true e ls.
Proof.
  unfold skips. intros [H1 H2]%andb_true_iff. cbn [find_exec]. apply negb_true_iff in H1. rewrite H1. cbn [negb].
  destruct (split_once _ _) as [[k v]|]; [|done]. by rewrite H2.
Qed.
Lemma find_exec_line v ls : front_ok is_whitespace v -> (forall a, back_ok is_whitespace (a ++ v)) ->
  find_exec true None ((txt "Exec=" ++ v) :: ls) = find_exec true (Some v) ls.
Proof.
  intros Hf Hb. cbn [find_exec]. assert (E : trim (txt "Exec=" ++ v) = txt "Exec=" ++ v) by (apply trim_id; [done|by apply Hb]).
  rewrite E. change (starts_with [91] (txt "Exec=" ++ v)) with false. cbn iota.
  change (split_once (Z.eqb 61) (txt "Exec=" ++ v)) with (Some (txt "Exec", v)). cbn [negb].
  change (text_eqb (trim (txt "Exec")) (txt "Exec")) with true. cbn [negb].
  assert (Ev : trim v = v) by (apply trim_id; [done|by apply (Hb [])]). by rewrite Ev.
Qed.
Lemma exec_found exec : find_exec false None (entry_lines exec) = Some (Some (exec_value exec)).
Proof.
  unfold entry_lines. fold (exec_value exec). destruct (exec_value_ends exec) as [Hf Hb]. set (v := exec_value exec) in *.
  transitivity (find_exec true None (tail (entry_lines exec))); [reflexivity|]. unfold entry_lines, tail. fold (exec_value exec). fold v.
  rewrite !(find_skips (txt _)) by (vm_compute; reflexivity). rewrite find_exec_line; [|done|intros a; by apply Hb].
  rewrite !find_skips by (vm_compute; reflexivity). done.
Qed.
Lemma arguments_read exec : exec <> [] -> split_arguments (34 :: (exec ≫= in_quotes) ++ 34 :: txt " --background") = Some [exec; txt "--background"].
Proof.
  intros Hne. unfold split_arguments. rewrite length_cons. cbn [arguments_loop].
  change (trim_start (34 :: ?v)) with (34 :: v). cbn [read_argument]. change (34 =? 34) with true. cbn [negb].
  rewrite read_quoted. cbn [app]. change (read_argument false ?a (txt " --background")) with (Some (a, txt "--background")).
  cbn [mbind option_bind]. rewrite percents_back.
  destruct (length _) as [|n] eqn:El; [rewrite length_app in El; cbn in El; lia|]. cbn [arguments_loop]. 
  change (trim_start (txt "--background")) with (txt "--background"). 
  change (read_argument false [] (txt "--background")) with (Some (txt "--background", @nil Z)).
  destruct exec as [|c exec]; [done|].
  destruct n as [|n]; reflexivity.
Qed.

(** What the hub writes, any reader of the entry starts: for every path without a line break
    - spaces, quotes, backslashes, dollars and percent signs included - the arguments read
    back are the path and [--background]. *)
Theorem autostart_entry_roundtrip (exec : text) : exec <> [] -> one_line exec ->
  exec_arguments (entry_text exec) = Some [exec; txt "--background"].
Proof.
  intros Hne Hl. unfold exec_arguments. rewrite entry_lines_read, exec_found by done. cbn [mbind option_bind].
  change (exec_value exec) with (34 :: ((exec ≫= fun c => escape_of c ++ [c]) ++ [34]) ++ txt " --background").
  rewrite <- app_assoc, unescape_cons, unescape_quoted by done.
  change (unescape_value ([34] ++ txt " --background")) with (Some (34 :: txt " --background")). cbn [fmap option_fmap option_map mbind option_bind].
  by apply arguments_read.
Qed.
Lemma autostart_entry_roundtrip_witness :
  exec_arguments (entry_text (txt "/home/a b/50%%\opt/$HOME/tobii-gtk")) = Some [txt "/home/a b/50%%\opt/$HOME/tobii-gtk"; txt "--background"].
Proof. apply autostart_entry_roundtrip; [vm_compute; discriminate|apply one_line_dec; vm_compute; reflexivity]. Defined.

(** ** Which line is read *)
(** The value of an [Exec] line, and every such value of the main group of an entry. *)
Definition exec_of (line : text) : option text :=
  '(key, value) ← split_once (Z.eqb 61) (trim line);
  if text_eqb (trim key) (txt "Exec") then Some (trim value) else None.
Definition opens_group (line : text) : bool := starts_with [91] (trim line).
(** The group a line is in: the last header above it. *)
Fixpoint group_of (current : option text) (ls : list text) : list (option text * text) :=
  match ls with
  | [] => []
  | l :: ls => if opens_group l then group_of (Some (trim l)) ls else (current, l) :: group_of current ls
  end.
Definition main_execs (ls : list (option text * text)) : list text :=
  omap (fun gl => if bool_decide (gl.1 = Some (txt "[Desktop Entry]")) then exec_of gl.2 else None) ls.

Lemma find_exec_spec ls : forall g exec,
  find_exec (bool_decide (g = Some (txt "[Desktop Entry]"))) exec ls =
  match option_list exec ++ main_execs (group_of g ls) with [] => Some None | [v] => Some (Some v) | _ => None end.
Proof.
  induction ls as [|l ls IH]; intros g exec; [by destruct exec|].
  cbn [find_exec group_of]. change (starts_with [91] (trim l)) with (opens_group l). destruct (opens_group l).
  { rewrite <- IH. f_equal. unfold text_eqb. apply bool_decide_ext. split; congruence. }
  cbn [main_execs omap list_omap fst snd].
  change (list_omap _ _ _ (group_of g ls)) with (main_execs (group_of g ls)).
  destruct (bool_decide (g = _)) eqn:Hg; cbn [negb]; [|by rewrite <- IH, Hg].
  unfold exec_of. destruct (split_once (Z.eqb 61) (trim l)) as [[k v]|]; cbn [mbind option_bind]; [|by rewrite <- IH, Hg].
  destruct (text_eqb (trim k) (txt "Exec")); cbn [negb].
  - destruct exec as [e|]; [done|]. cbn [option_list app].
    pose proof (IH g (Some (trim v))) as H. rewrite Hg in H. exact H.
  - by rewrite <- IH, Hg.
Qed.
(** An answer is never a guess between two lines: the arguments are those of the one [Exec]
    that stands in a [Desktop Entry] group; with none, with two, or with one whose escapes
    or quoting are not defined, there is no answer. *)
Theorem exec_is_the_only_one (entry : text) :
  exec_arguments entry =
  match main_execs (group_of None (lines entry)) with
  | [v] => u ← unescape_value v; split_arguments u
  | _ => None
  end.
Proof.
  unfold exec_arguments. pose proof (find_exec_spec (lines entry) None None) as H.
  rewrite bool_decide_eq_false_2 in H by done. rewrite H. cbn [option_list app].
  by destruct (main_execs _) as [|v [|w l]].
Qed.
