(* ===== verification/Wineserver.v ===== *)
(** * Wineserver: who else wants a Wine prefix (crates/tobii-cli/src/wineserver.rs)

    Where wine puts a prefix's lock, what the probe of it says, and the two kernel tables
    that tell whether a launch is waiting for it: [/proc/self/mountinfo] names the device of
    the file system the lock is on, [/proc/locks] the requests that are blocked.
    [lock_path_inj]: two prefixes share a lock exactly when they are one directory;
    [device_roundtrip]: the device encoding loses nothing; [device_of_the_mount] and
    [waiter_of_the_lock]: read against tables as the kernel prints them, the answers are
    those of the mounts and of the requests. *)
From S2P Require Import Prelude Text Hex Paths.

(** ** The lock *)
Inductive Lock := Free | Held (pid : Z) | Unknown (why : text).
Definition lock_path (uid dev ino : Z) : text :=
  txt "/tmp/.wine-" ++ show_uint uid ++ txt "/server-" ++ show_hex_digits dev ++ [45] ++ show_hex_digits ino ++ txt "/lock".
(** What [stat] answers of the prefix: its device and inode, or an error. *)
Definition lock_for (uid : Z) (stat : result text (Z * Z)) (prefix : text) : result text text :=
  match stat with
  | Err e => Err (txt "could not stat " ++ prefix ++ txt ": " ++ e)
  | Ok (dev, ino) => Ok (lock_path uid dev ino)
  end.

(** Opening the lock file and asking about it, as the two calls answer: the open fails as
    not found or with a message, [fcntl] fails with a message or reports a type and a pid. *)
Inductive Opened := NotFound | OpenFails (e : text) | Opens.
Definition F_UNLCK : Z := 2.
Definition probe (lock : text) (opened : Opened) (getlk : result text (Z * Z)) : Lock :=
  match opened with
  | NotFound => Free
  | OpenFails e => Unknown (lock ++ txt ": " ++ e)
  | Opens =>
      match getlk with
      | Err e => Unknown (lock ++ txt ": " ++ e)
      | Ok (l_type, l_pid) => if l_type =? F_UNLCK then Free else Held l_pid
      end
  end.

(** ** What is said *)
Definition para (l : list text) : text := l ≫= newline.
Definition who (pid : Z) : text := if 0 <? pid then txt " (pid " ++ show_int pid ++ txt ")" else [].
Definition trap : text := para [
  txt "Steam launches a Proton title with the verb `waitforexitandrun`, and Proton";
  txt "runs `wineserver -w` before it spawns the game — a call that waits for every";
  txt "wine process on this prefix to exit first. While this command runs, the next";
  txt "launch of this game will sit there doing nothing.";
  [];
  txt "The supported order is the other way round: start the game, let it reach its";
  txt "menu, then start this. Late is not too late — a client DLL polled with no";
  txt "shared mapping present at all read a correct pose the moment one appeared.";
  txt "If a launch — or anything else — does start waiting for this prefix while this";
  txt "runs, this command stops itself and says so, so the wait can end."].
Definition before_run (lock : Lock) : text :=
  match lock with
  | Free => para [txt "warning: nothing is serving this prefix yet, so the bridge is about to";
                  txt "become its wineserver — and that is what hangs a Steam launch."; []] ++ trap
  | Held pid => para [txt "a wineserver is already serving this prefix" ++ who pid ++ txt ". If that is the game,";
                      txt "this is the supported order and starting now cannot hang a launch that";
                      txt "has already happened.";
                      txt "Whether a bridge started from outside the game's container actually joins";
                      txt "that wineserver is unconfirmed — if the game sees no tracking, that is the";
                      txt "thing to report."]
  | Unknown why => para [txt "note: could not tell whether anything is already serving this prefix";
                         txt "(" ++ why ++ txt "), so what follows may not apply."; []] ++ trap
  end.
Definition yielding (pid : Z) : text :=
  para [[]; txt "something is waiting for this prefix's wineserver to exit" ++ who pid ++ txt ", and this";
        txt "command is part of what it is waiting for. A Proton launch does this before it";
        txt "spawns the game, and so do winetricks and other prefix tools.";
        txt "Stopping so it can go through.";
        [];
        txt "Start it again once the game is up: a client DLL picks up a mapping that";
        txt "appears after it. That does not make the game accept the data — it only stops";
        txt "this command blocking the launch."].

(** ** Devices *)
(** [!x] of a u64. *)
Definition not64 (x : Z) : Z := Z.lxor (2 ^ 64 - 1) x.
Definition dev_major (dev : Z) : Z :=
  wrap 32 (Z.lor (Z.land (Z.shiftr dev 8) 0xfff) (Z.land (Z.shiftr dev 32) (not64 0xfff))).
Definition dev_minor (dev : Z) : Z :=
  wrap 32 (Z.lor (Z.land dev 0xff) (Z.land (Z.shiftr dev 12) (not64 0xff))).
Definition makedev (major minor : Z) : Z :=
  Z.lor (Z.lor (Z.lor (wrap 64 (Z.shiftl (Z.land major 0xfff) 8)) (Z.land minor 0xff))
               (wrap 64 (Z.shiftl (Z.land major (not64 0xfff)) 32)))
        (wrap 64 (Z.shiftl (Z.land minor (not64 0xff)) 12)).

(** ** The mount table *)
(** The byte that three octal digits name, if they are there and it fits. *)
Definition octal_escape (r : bytes) : option byte :=
  match r with
  | a :: b :: c :: _ =>
      let d := u8 <$> [a; b; c] in
      if forallb is_ascii_digit d then byte.of_Z <$> parse_uint 8 8 d else None
  | _ => None
  end.
Fixpoint unescaped (raw : bytes) : bytes :=
  match raw with
  | [] => []
  | c :: r =>
      match (if u8 c =? 92 then octal_escape r else None), r with
      | Some byte, _ :: _ :: _ :: r => byte :: unescaped r
      | _, _ => c :: unescaped r
      end
  end.
(** A path given by its bytes, as the component functions take it. *)
Definition os_path (b : bytes) : text := u8 <$> b.
Fixpoint covers_from (mount under : list component) (depth : nat) : option nat :=
  match mount, under with
  | [], _ => Some depth
  | c :: mount, d :: under => if bool_decide (d = c) then covers_from mount under (S depth) else None
  | _ :: _, [] => None
  end.
Definition covers (mount_point path : text) : option nat := covers_from (components mount_point) (components path) 0.

(** What one line of the table says of the path: how deep its mount covers it, and its device. *)
Definition mount_line (path line : text) : option (nat * Z) :=
  let f := split_char 32 line in
  ids ← f !! 2%nat; point ← f !! 4%nat;
  '(maj, min) ← split_once (Z.eqb 58) ids;
  maj ← parse_uint 32 10 maj; min ← parse_uint 32 10 min;
  depth ← covers (os_path (unescaped (utf8_encode point))) path;
  Some (depth, makedev maj min).
Definition deepest (best found : option (nat * Z)) : option (nat * Z) :=
  match found, best with
  | None, _ => best
  | Some (depth, _), Some (d, _) => if (d <=? depth)%nat then found else best
  | Some _, None => found
  end.
Definition locks_dev (mountinfo path : text) : option Z :=
  snd <$> foldl (fun best line => deepest best (mount_line path line)) None (lines mountinfo).

(** ** The lock table *)
Definition lock_line (major minor ino : Z) (line : text) : option Z :=
  match split_whitespace line with
  | id :: arrow :: _ :: _ :: _ :: pid :: ids :: _ =>
      if negb (ends_with [58] id) then None
      else if negb (text_eqb arrow (txt "->")) then None
      else
        pid ← parse_int 32 pid;
        match split_char 58 ids with
        | maj :: min :: i :: _ =>
            maj ← parse_uint 32 16 maj; min ← parse_uint 32 16 min; i ← parse_uint 64 10 i;
            if (maj =? major) && (min =? minor) && (i =? ino) then Some pid else None
        | _ => None
        end
  | _ => None
  end.
(** [lines().find_map(..)] *)
Definition find_map {A B} (f : A -> option B) (l : list A) : option B := head (omap f l).
Definition blocked_waiter (locks : text) (dev ino : Z) : option Z :=
  find_map (lock_line (dev_major dev) (dev_minor dev) ino) (lines locks).

(** [lock_ids] and [waiting_launch], of what the files and calls they read answer. *)
Definition lock_ids (stat_ino : option Z) (canonical : option text) (mountinfo : option text) : option (Z * Z) :=
  ino ← stat_ino; resolved ← canonical; mountinfo ← mountinfo;
  dev ← locks_dev mountinfo resolved; Some (dev, ino).
Definition waiting_launch (proc_locks : option text) (dev ino : Z) : option Z :=
  locks ← proc_locks; blocked_waiter locks dev ino.

(** ** The lock's name *)
Lemma digits_no_slash s : all_digits s -> Forall (fun c => (47 =? c) = false) s.
Proof. intros H. eapply Forall_impl; [exact H|]. intros c Hc. unfold is_ascii_digit, between in Hc. lia. Qed.
Lemma hex_no_char c s : hex_digit_char c = false -> Forall (fun x => hex_digit_char x = true) s -> Forall (fun x => (c =? x) = false) s.
Proof. intros Hc H. eapply Forall_impl; [exact H|]. intros x Hx. apply Z.eqb_neq. congruence. Qed.
(** Two prefixes are served by the same lock exactly when they are the same directory seen by the
    same user, however their paths are spelled. *)
Theorem lock_path_inj (u1 d1 i1 u2 d2 i2 : Z) : 0 <= u1 -> 0 <= d1 -> 0 <= i1 -> 0 <= u2 -> 0 <= d2 -> 0 <= i2 ->
  lock_path u1 d1 i1 = lock_path u2 d2 i2 -> u1 = u2 /\ d1 = d2 /\ i1 = i2.
Proof.
  intros Hu1 Hd1 Hi1 Hu2 Hd2 Hi2 E. unfold lock_path in E. apply app_inv_head in E.
  destruct (show_uint_spec u1 Hu1) as (_ & _ & Du1), (show_uint_spec u2 Hu2) as (_ & _ & Du2).
  destruct (show_hex_spec d1 Hd1) as (_ & _ & Dd1), (show_hex_spec d2 Hd2) as (_ & _ & Dd2).
  destruct (show_hex_spec i1 Hi1) as (_ & _ & Di1), (show_hex_spec i2 Hi2) as (_ & _ & Di2).
  change (txt "/server-") with (47 :: txt "server-") in E. apply (f_equal (split_once (Z.eqb 47))) in E.
  rewrite <- !app_comm_cons in E. rewrite !split_once_app in E by (done || by apply digits_no_slash).
  injection E as Eu E. apply show_uint_inj in Eu; [|done..]. apply (f_equal (split_once (Z.eqb 45))) in E.
  cbn [app] in E. rewrite !split_once_app in E by (done || by apply hex_no_char). injection E as Ed E.
  apply show_hex_inj in Ed; [|done..]. apply (f_equal (split_once (Z.eqb 47))) in E.
  change (txt "/lock") with (47 :: txt "lock") in E.
  rewrite !split_once_app in E by (done || by apply hex_no_char). injection E as Ei. by apply show_hex_inj in Ei.
Qed.

(** ** The device encoding *)
Lemma wrap_ones w x : 0 <= w -> wrap w x = Z.land x (Z.ones w).
Proof. intros. unfold wrap. by rewrite Z.land_ones. Qed.
Lemma bit_not64 n i : 0 <= n <= 64 -> Z.testbit (not64 (Z.ones n)) i = (n <=? i) && (i <? 64).
Proof.
  intros Hn. unfold not64. change (2 ^ 64 - 1) with (Z.ones 64). rewrite Z.lxor_spec, !Z.testbit_ones by lia.
  destruct (Z.leb_spec 0 i), (Z.ltb_spec i 64), (Z.ltb_spec i n), (Z.leb_spec n i); try done; lia.
Qed.
Lemma bit_high w x i : is_u w x -> 0 <= w -> w <= i -> Z.testbit x i = false.
Proof.
  intros [H0 Hx] Hw Hi. destruct (Z.eq_dec x 0) as [->|]; [apply Z.bits_0|]. apply Z.bits_above_log2; [done|].
  apply Z.log2_lt_pow2; [lia|]. eapply Z.lt_le_trans; [exact Hx|]. apply Z.pow_le_mono_r; lia.
Qed.
(** The bits of a device, each under the condition it comes from. *)
Ltac bits :=
  rewrite ?wrap_ones by lia; change 0xfff with (Z.ones 12); change 0xff with (Z.ones 8);
  repeat first [rewrite Z.lor_spec | rewrite Z.land_spec | rewrite Z.shiftr_spec by lia | rewrite Z.shiftl_spec by lia
               | rewrite bit_not64 by lia | rewrite Z.testbit_ones by lia].
Ltac bit_cases := repeat match goal with
  | |- context [?a <? ?b] => destruct (Z.ltb_spec a b); try lia
  | |- context [?a <=? ?b] => destruct (Z.leb_spec a b); try lia
  end; rewrite ?andb_true_r, ?andb_false_r, ?orb_false_r; cbn [andb orb].
Lemma makedev_bits maj min j : 0 <= j -> is_u 32 maj -> is_u 32 min -> Z.testbit (makedev maj min) j =
  if j <? 8 then Z.testbit min j else if j <? 20 then Z.testbit maj (j - 8)
  else if j <? 44 then Z.testbit min (j - 12) else Z.testbit maj (j - 32).
Proof.
  intros Hj Hmaj Hmin. unfold makedev. bits.
  destruct (Z.ltb_spec j 8); [|destruct (Z.ltb_spec j 20); [|destruct (Z.ltb_spec j 44)]].
  - rewrite !(Z.testbit_neg_r _ (j - _)) by lia. by bit_cases.
  - rewrite (Z.testbit_neg_r _ (j - 32)) by lia. by bit_cases.
  - by bit_cases.
  - rewrite (bit_high 32 min (j - 12)) by (done || lia). destruct (Z.ltb_spec j 64); [by bit_cases|].
    rewrite (bit_high 32 maj (j - 32)) by (done || lia). by bit_cases.
Qed.
Lemma dev_major_bits dev i : 0 <= i -> Z.testbit (dev_major dev) i =
  (i <? 32) && (if i <? 12 then Z.testbit dev (i + 8) else Z.testbit dev (i + 32)).
Proof. intros Hi. unfold dev_major. bits. destruct (Z.ltb_spec i 12), (Z.ltb_spec i 32); by bit_cases. Qed.
Lemma dev_minor_bits dev i : 0 <= i -> Z.testbit (dev_minor dev) i =
  (i <? 32) && (if i <? 8 then Z.testbit dev i else Z.testbit dev (i + 12)).
Proof. intros Hi. unfold dev_minor. bits. destruct (Z.ltb_spec i 8), (Z.ltb_spec i 32); by bit_cases. Qed.
Lemma numbers_of_makedev maj min : is_u 32 maj -> is_u 32 min -> dev_major (makedev maj min) = maj /\ dev_minor (makedev maj min) = min.
Proof.
  intros Hmaj Hmin. split; apply Z.bits_inj'; intros i Hi; [rewrite dev_major_bits by done|rewrite dev_minor_bits by done];
    rewrite !makedev_bits by (done || lia); destruct (Z.ltb_spec i 32); cbn [andb].
  - destruct (Z.ltb_spec i 12); bit_cases; f_equal; lia.
  - by rewrite (bit_high 32).
  - destruct (Z.ltb_spec i 8); bit_cases; f_equal; lia.
  - by rewrite (bit_high 32).
Qed.
Lemma numbers_range dev : is_u 32 (dev_major dev) /\ is_u 32 (dev_minor dev).
Proof. split; by apply wrap_range. Qed.
Lemma makedev_of_numbers dev : is_u 64 dev -> makedev (dev_major dev) (dev_minor dev) = dev.
Proof.
  intros Hd. destruct (numbers_range dev). apply Z.bits_inj'. intros j Hj. rewrite makedev_bits by done.
  destruct (Z.ltb_spec j 8); [|destruct (Z.ltb_spec j 20); [|destruct (Z.ltb_spec j 44)]];
    (rewrite ?dev_major_bits, ?dev_minor_bits by lia); bit_cases; try (f_equal; lia).
  by rewrite (bit_high 64) by (done || lia).
Qed.
(** A device is its major and its minor number, all 32 bits of each, and they are the
    device: the encoding loses nothing in either direction. *)
Theorem device_roundtrip (maj min dev : Z) : is_u 32 maj -> is_u 32 min -> is_u 64 dev ->
  (dev_major (makedev maj min) = maj /\ dev_minor (makedev maj min) = min) /\
  makedev (dev_major dev) (dev_minor dev) = dev.
Proof. intros. split; [by apply numbers_of_makedev|by apply makedev_of_numbers]. Qed.

(** ** The mount table *)
(** The kernel's spelling of a mount point: blanks, tabs, line breaks and backslashes as a
    backslash and three octal digits, everything else as it is. *)
Definition octal_digit (d : Z) : byte := byte.of_Z (48 + d).
Definition mangled (b : byte) : bool := existsb (Z.eqb (u8 b)) [32; 9; 10; 92].
Definition mangle (b : byte) : bytes :=
  if mangled b then [x5c; octal_digit (u8 b / 64); octal_digit (u8 b / 8 mod 8); octal_digit (u8 b mod 8)] else [b].
Lemma unescaped_mangle b r : unescaped (mangle b ++ r) = b :: unescaped r.
Proof. destruct b; vm_compute mangle; reflexivity. Qed.
Lemma unescape_mangled (point : bytes) : unescaped (point ≫= mangle) = point.
Proof. induction point as [|b r IH]; [done|]. cbn [mbind list_bind]. by rewrite unescaped_mangle, IH. Qed.

Lemma covers_from_spec m p d n : covers_from m p d = Some n <-> (exists r, p = m ++ r) /\ n = (d + length m)%nat.
Proof.
  revert p d. induction m as [|c m IH]; intros p d; cbn.
  - split; [intros [= <-]; split; [by exists p|lia]|intros [_ ->]; f_equal; lia].
  - destruct p as [|x p]; [split; [done|by intros [[? ?] _]]|]. case_bool_decide as Hx.
    + subst x. rewrite IH. split; (intros [[r E] ->]; split; [|lia]); [exists r; by rewrite E|].
      injection E as E. by exists r.
    + split; [done|]. intros [[r [= ? _]] _]. done.
Qed.
(** A mount, the path it is at as bytes and as the table's text has it. *)
Record Mount := { mount_id : Z; parent_id : Z; major : Z; minor : Z; root : text; point : bytes; shown : text; options : text }.
Definition mount_row (m : Mount) : text :=
  show_uint (mount_id m) ++ 32 :: show_uint (parent_id m) ++ 32 :: show_uint (major m) ++ 58 :: show_uint (minor m) ++
  32 :: root m ++ 32 :: shown m ++ 32 :: options m.
Definition no_blank (s : text) : Prop := Forall (fun c => (32 =? c) = false) s.
Record mount_ok (m : Mount) : Prop := {
  ids_ok : 0 <= mount_id m /\ 0 <= parent_id m /\ is_u 32 (major m) /\ is_u 32 (minor m);
  shown_ok : utf8_encode (shown m) = point m ≫= mangle;
  fields_ok : no_blank (root m) /\ no_blank (shown m);
  row_ok : one_line (root m) /\ one_line (shown m) /\ one_line (options m) /\ options m <> [] /\ back_ok (Z.eqb 13) (options m) }.
Definition above (m : Mount) (path : text) : Prop := exists r, components path = components (os_path (point m)) ++ r.
Definition depth (m : Mount) : nat := length (components (os_path (point m))).
Definition device (m : Mount) : Z := makedev (major m) (minor m).

Lemma digits_no c s : is_ascii_digit c = false -> all_digits s -> Forall (fun x => (c =? x) = false) s.
Proof. intros Hc H. eapply Forall_impl; [exact H|]. intros x Hx. apply Z.eqb_neq. congruence. Qed.
Lemma uint_no c n : is_ascii_digit c = false -> 0 <= n -> Forall (fun x => (c =? x) = false) (show_uint n).
Proof. intros Hc Hn. apply digits_no; [done|]. by destruct (show_uint_spec n Hn) as (_ & _ & ?). Qed.
Lemma mount_line_row m path : mount_ok m ->
  mount_line path (mount_row m) = (fun n => (n, device m)) <$> covers (os_path (point m)) path.
Proof.
  intros [(Hi & Hp & Hmaj & Hmin) Hs (Hr & Hq) _]. unfold mount_line, mount_row, split_char.
  rewrite !(split_app _ (show_uint _)) by (done || by apply uint_no).
  replace (show_uint (major m) ++ 58 :: show_uint (minor m) ++ 32 :: root m ++ 32 :: shown m ++ 32 :: options m)
    with ((show_uint (major m) ++ 58 :: show_uint (minor m)) ++ 32 :: root m ++ 32 :: shown m ++ 32 :: options m) by (by rewrite <- app_assoc).
  rewrite (split_app _ (_ ++ _)); [|apply Forall_app; split; [|constructor; [done|]]; apply uint_no; (done || apply Hmaj || apply Hmin)|done].
  rewrite (split_app _ (root m)), (split_app _ (shown m)) by done.
  cbn [lookup list_lookup mbind option_bind]. rewrite split_once_app by (done || (apply uint_no; [done|apply Hmaj])).
  cbn [mbind option_bind]. rewrite !parse_show_uint by done. cbn [mbind option_bind]. rewrite Hs, unescape_mangled.
  by destruct (covers _ _).
Qed.

(** What the fold over the lines keeps: the last of the deepest. *)
Definition at_most (d : nat) (o : option (nat * Z)) : Prop := match o with Some (e, _) => (e <= d)%nat | None => True end.
Definition below (d : nat) (o : option (nat * Z)) : Prop := match o with Some (e, _) => (e < d)%nat | None => True end.
Lemma deepest_keeps d x l : Forall (below d) l -> foldl deepest (Some (d, x)) l = Some (d, x).
Proof.
  induction 1 as [|[[e y]|] l Hb _ IH]; [done| |exact IH]. cbn [foldl deepest below] in *.
  by rewrite (proj2 (Nat.leb_gt d e)) by lia.
Qed.
Lemma deepest_at_most d l best : at_most d best -> Forall (at_most d) l -> at_most d (foldl deepest best l).
Proof.
  intros Hb Hl. revert best Hb. induction Hl as [|[[e y]|] l H _ IH]; intros best Hb; [done| |by apply IH]. cbn [foldl]. apply IH.
  destruct best as [[f z]|]; cbn [deepest]; [by destruct (f <=? e)%nat|done].
Qed.
Lemma deepest_none l : foldl deepest None l = None <-> Forall (eq None) l.
Proof.
  split.
  - induction l as [|o l IH] using rev_ind; [done|]. rewrite foldl_snoc. intros E. apply Forall_app.
    destruct o as [[e y]|]; cbn [deepest] in E; [by destruct (foldl _ _ _) as [[d ?]|]; [destruct (d <=? e)%nat|]|].
    split; [by apply IH|by constructor].
  - induction 1 as [|o l <- _ IH]; [done|exact IH].
Qed.
Lemma deepest_some l d x : foldl deepest None l = Some (d, x) <->
  exists front back, l = front ++ Some (d, x) :: back /\ Forall (at_most d) front /\ Forall (below d) back.
Proof.
  split.
  - revert d x. induction l as [|o l IH] using rev_ind; intros d x; [done|]. rewrite foldl_snoc.
    destruct o as [[e y]|]; cbn [deepest].
    + destruct (foldl deepest None l) as [[f z]|] eqn:E; [destruct (Nat.leb_spec f e)|]; intros [= <- <-].
      * exists l, []. destruct (IH f z eq_refl) as (fr & bk & -> & Hf & Hb). split_and!; [done| |constructor].
        apply Forall_app. split; [|constructor; [done|]]; (eapply Forall_impl; [eassumption|]); intros [[? ?]|]; cbn; (done || lia).
      * destruct (IH f z eq_refl) as (fr & bk & -> & Hf & Hb). exists fr, (bk ++ [Some (e, y)]). split_and!; [by rewrite <- app_assoc|done|].
        apply Forall_app. split; [done|]. by constructor.
      * apply deepest_none in E. exists l, []. split_and!; [done| |constructor]. eapply Forall_impl; [exact E|]. by intros o <-.
    + intros E. destruct (IH d x E) as (fr & bk & -> & Hf & Hb). exists fr, (bk ++ [None]). split_and!; [by rewrite <- app_assoc|done|].
      apply Forall_app. split; [done|by constructor].
  - intros (fr & bk & -> & Hf & Hb). rewrite foldl_app. cbn [foldl].
    pose proof (deepest_at_most d fr None I Hf) as Hm. transitivity (foldl deepest (Some (d, x)) bk); [f_equal|by apply deepest_keeps].
    destruct (foldl deepest None fr) as [[e y]|]; [|done]. cbn [deepest at_most] in *. by rewrite (proj2 (Nat.leb_le e d)).
Qed.

(** The end of a row is the end of its last field, which is not empty. *)
Ltac not_nil := intros Hnil; repeat apply app_eq_nil in Hnil as [_ Hnil]; by (discriminate Hnil || auto).
Ltac back_end := repeat match goal with
  | |- back_ok _ (?c :: ?s) => apply (back_ok_app _ [c]); [not_nil|]
  | |- back_ok _ (_ ++ _) => apply back_ok_app; [not_nil|]
  end.
Lemma row_one_line m : mount_ok m -> one_line (mount_row m) /\ back_ok (Z.eqb 13) (mount_row m).
Proof.
  intros [(Hi & Hp & Hmaj & Hmin) _ _ (Hr & Hs & Ho & Hne & Hb)]. unfold mount_row.
  assert (Hu : forall n, 0 <= n -> one_line (show_uint n)).
  { intros n Hn. pose proof (uint_no 10 n eq_refl Hn) as H. eapply Forall_impl; [exact H|]. by intros x Hx ->. }
  split.
  - repeat first [apply one_line_app; split | apply Forall_cons; split]; try done; apply Hu; (done || apply Hmaj || apply Hmin).
  - by back_end.
Qed.
Lemma lines_of_rows {A} (row : A -> text) (ok : A -> Prop) (l : list A) :
  (forall a, ok a -> one_line (row a) /\ back_ok (Z.eqb 13) (row a)) -> Forall ok l -> lines (l ≫= fun a => newline (row a)) = row <$> l.
Proof.
  intros H Hl. replace (l ≫= fun a => newline (row a)) with ((row <$> l) ≫= newline).
  - apply lines_newlines; apply Forall_fmap; (eapply Forall_impl; [exact Hl|]); intros a Ha; by apply H.
  - clear. induction l as [|a l IH]; [done|]. cbn [fmap list_fmap mbind list_bind]. f_equal. exact IH.
Qed.
Definition mount_table (ms : list Mount) : text := ms ≫= fun m => newline (mount_row m).
Definition found (path : text) (m : Mount) : option (nat * Z) := (fun n => (n, device m)) <$> covers (os_path (point m)) path.
Lemma found_some path m n x : found path m = Some (n, x) <-> above m path /\ n = depth m /\ x = device m.
Proof.
  unfold found, covers. rewrite fmap_Some. split.
  - intros (k & (? & ->)%covers_from_spec & [= -> ->]). done.
  - intros (H & -> & ->). exists (depth m). split; [by apply covers_from_spec|done].
Qed.
Lemma found_none path m : found path m = None <-> ~ above m path.
Proof.
  split.
  - intros E H. assert (found path m = Some (depth m, device m)) by (by apply found_some). congruence.
  - intros H. destruct (found path m) as [[n x]|] eqn:E; [|done]. by apply found_some in E as [Hab _].
Qed.
Lemma locks_dev_table ms path : Forall mount_ok ms -> locks_dev (mount_table ms) path = snd <$> foldl deepest None (found path <$> ms).
Proof.
  intros Hms. unfold locks_dev, mount_table. rewrite (lines_of_rows mount_row mount_ok) by (done || apply row_one_line). f_equal.
  generalize (@None (nat * Z)). induction Hms as [|m ms Hm _ IH]; intros best; [done|]. cbn [fmap list_fmap foldl].
  rewrite mount_line_row by done. apply IH.
Qed.
(** Read against a mount table as the kernel prints it, whatever the mount points are
    called, the device is that of the deepest mount the path is under, the last of them when
    one is stacked on another; and there is none exactly when no mount covers the path. *)
Theorem device_of_the_mount (ms : list Mount) (path : text) : Forall mount_ok ms ->
  (locks_dev (mount_table ms) path = None <-> Forall (fun m => ~ above m path) ms) /\
  (forall dev, locks_dev (mount_table ms) path = Some dev <->
    exists front m back, ms = front ++ m :: back /\ above m path /\ device m = dev /\
      Forall (fun n => above n path -> (depth n <= depth m)%nat) front /\
      Forall (fun n => above n path -> (depth n < depth m)%nat) back).
Proof.
  intros Hms. rewrite locks_dev_table by done. split.
  - rewrite fmap_None, deepest_none, Forall_fmap. split; intros H; (eapply Forall_impl; [exact H|]); intros m Hm; cbn in *.
    + by apply found_none.
    + symmetry. by apply found_none.
  - intros dev. rewrite fmap_Some. split.
    + intros ([d x] & E & ->). apply deepest_some in E as (fr & bk & E & Hf & Hb).
      apply fmap_app_inv in E as (front & rest & -> & E & ->). destruct rest as [|m back]; [done|]. injection E as Em ->.
      symmetry in Em. apply found_some in Em as (Ha & -> & ->). exists front, m, back. split_and!; [done..| |].
      all: rewrite Forall_fmap in *; eapply Forall_impl; [eassumption|]; intros n Hn Hab; cbn in Hn.
      all: rewrite (proj2 (found_some path n (depth n) (device n))) in Hn by done; exact Hn.
    + intros (front & m & back & -> & Ha & <- & Hf & Hb). exists (depth m, device m). split; [|done]. apply deepest_some.
      exists (found path <$> front), (found path <$> back). split_and!.
      * rewrite fmap_app, fmap_cons. do 2 f_equal. by apply found_some.
      * apply Forall_fmap. eapply Forall_impl; [exact Hf|]. intros n Hn. cbn. destruct (found path n) as [[k y]|] eqn:E; [|done].
        apply found_some in E as (Hab & -> & _). by apply Hn.
      * apply Forall_fmap. eapply Forall_impl; [exact Hb|]. intros n Hn. cbn. destruct (found path n) as [[k y]|] eqn:E; [|done].
        apply found_some in E as (Hab & -> & _). by apply Hn.
Qed.

(** ** The lock table *)
(** One lock or one blocked request, as [/proc/locks] has it; the two numbers of the device
    are printed in at least two digits. *)
Record Request := { req_id : Z; blocked : bool; class : text; mode : text; kind : text; pid : Z; req_major : Z; req_minor : Z; req_ino : Z; range : text }.
Definition hex02 (n : Z) : text := if n <? 16 then 48 :: show_hex_digits n else show_hex_digits n.
Definition request_row (r : Request) : text :=
  (show_uint (req_id r) ++ [58]) ++ 32 :: (if blocked r then txt "-> " else []) ++ class r ++ 32 :: 32 :: mode r ++ 32 :: 32 :: kind r ++
  32 :: show_int (pid r) ++ 32 :: (hex02 (req_major r) ++ 58 :: hex02 (req_minor r) ++ 58 :: show_uint (req_ino r)) ++ 32 :: range r.
Record request_ok (r : Request) : Prop := {
  numbers_ok : 0 <= req_id r /\ is_i 32 (pid r) /\ is_u 32 (req_major r) /\ is_u 32 (req_minor r) /\ is_u 64 (req_ino r);
  words_ok : word (class r) /\ word (mode r) /\ word (kind r) /\ class r <> txt "->";
  range_ok : one_line (range r) /\ range r <> [] /\ back_ok (Z.eqb 13) (range r) }.
Definition lock_table (rs : list Request) : text := rs ≫= fun r => newline (request_row r).
Definition waits_for (dev ino : Z) (r : Request) : Prop :=
  blocked r = true /\ makedev (req_major r) (req_minor r) = dev /\ req_ino r = ino.
#[export] Instance waits_for_dec dev ino r : Decision (waits_for dev ino r). Proof. unfold waits_for. apply _. Defined.

Lemma digits_word s : s <> [] -> all_digits s -> word s.
Proof.
  intros Hn H. split; [done|]. eapply Forall_impl; [exact H|]. intros c Hc.
  unfold is_ascii_digit, between in Hc. unfold is_whitespace, between. lia.
Qed.
Lemma uint_word n : 0 <= n -> word (show_uint n).
Proof. intros Hn. destruct (show_uint_spec n Hn) as (_ & ? & ?). by apply digits_word. Qed.
Lemma int_word n : word (show_int n).
Proof.
  unfold show_int. destruct (Z.ltb_spec n 0); [|by apply uint_word]. destruct (uint_word (- n)) as [H1 H2]; [lia|].
  split; [done|by constructor].
Qed.
Lemma hex02_word n : 0 <= n -> word (hex02 n).
Proof. intros Hn. unfold hex02. destruct (hex_word n Hn) as [H1 H2]. destruct (n <? 16); [|done]. split; [done|by constructor]. Qed.
Lemma parse_hex02 n : is_u 32 n -> parse_uint 32 16 (hex02 n) = Some n.
Proof. intros Hn. unfold hex02. destruct (n <? 16); [by apply parse_padded_hex|by apply parse_show_hex]. Qed.
Lemma hex02_no_colon n : 0 <= n -> Forall (fun c => (58 =? c) = false) (hex02 n).
Proof.
  intros Hn. destruct (show_hex_spec n Hn) as (_ & _ & H). apply (hex_no_char 58) in H; [|done]. unfold hex02.
  destruct (n <? 16); [by constructor|done].
Qed.
Lemma word_app a b : word a -> word b -> word (a ++ b).
Proof. intros [? ?] [? ?]. split; [by destruct a|by apply Forall_app]. Qed.
Lemma word_cons c w : is_whitespace c = false -> word w -> word (c :: w).
Proof. intros ? [? ?]. split; [done|by constructor]. Qed.

Lemma lock_line_row dev ino r : request_ok r -> is_u 64 dev ->
  lock_line (dev_major dev) (dev_minor dev) ino (request_row r) = if bool_decide (waits_for dev ino r) then Some (pid r) else None.
Proof.
  intros [(Hi & Hp & Hmaj & Hmin & Hino) (Hc & Hm & Hk & Hne) _] Hd. pose proof (proj1 Hmaj). pose proof (proj1 Hmin). pose proof (proj1 Hino).
  assert (Hid : word (show_uint (req_id r) ++ [58])) by (apply word_app; [by apply uint_word|by repeat constructor]).
  assert (Hids : word (hex02 (req_major r) ++ 58 :: hex02 (req_minor r) ++ 58 :: show_uint (req_ino r))).
  { apply word_app; [by apply hex02_word|]. apply word_cons; [done|]. apply word_app; [by apply hex02_word|]. apply word_cons; [done|by apply uint_word]. }
  unfold lock_line, request_row. rewrite split_whitespace_word by done.
  set (tail := class r ++ _). assert (Ht : exists more, split_whitespace tail = class r :: mode r :: kind r :: show_int (pid r) ::
    (hex02 (req_major r) ++ 58 :: hex02 (req_minor r) ++ 58 :: show_uint (req_ino r)) :: more).
  { exists (split_whitespace (range r)). subst tail. pose proof (int_word (pid r)).
    repeat first [rewrite split_whitespace_word by done | rewrite split_whitespace_blank by done]. done. }
  clearbody tail. destruct Ht as [more Ht]. unfold ends_with. rewrite strip_suffix_app. cbn [negb].
  destruct (blocked r) eqn:Eb.
  - change (txt "-> " ++ tail) with (txt "->" ++ 32 :: tail). rewrite split_whitespace_word, Ht by (done || by repeat constructor).
    rewrite text_eqb_refl. cbn [negb]. rewrite parse_show_int by done. cbn [mbind option_bind]. unfold split_char.
    rewrite !split_app, split_none by (done || (by apply hex02_no_colon) || by apply uint_no).
    rewrite !parse_hex02, parse_show_uint by done. cbn [mbind option_bind].
    assert (Hiff : waits_for dev ino r <-> (req_major r =? dev_major dev) && (req_minor r =? dev_minor dev) && (req_ino r =? ino) = true).
    { unfold waits_for. rewrite !andb_true_iff, !Z.eqb_eq, Eb. pose proof (numbers_of_makedev _ _ Hmaj Hmin) as [Ea Ei].
      pose proof (makedev_of_numbers dev Hd). split; [intros (_ & <- & <-); by rewrite Ea, Ei|intros ((-> & ->) & <-); done]. }
    case_bool_decide as Hw; [by rewrite (proj1 Hiff)|]. destruct (_ && _); [destruct Hw; by apply Hiff|done].
  - cbn [app]. rewrite Ht. unfold text_eqb. rewrite (bool_decide_eq_false_2 _ Hne). cbn [negb].
    rewrite bool_decide_eq_false_2 by (intros (H' & _); congruence). by destruct more.
Qed.
Lemma request_one_line r : request_ok r -> one_line (request_row r) /\ back_ok (Z.eqb 13) (request_row r).
Proof.
  intros [(Hi & Hp & Hmaj & Hmin & Hino) (Hc & Hm & Hk & _) (Hr & Hne & Hb)].
  assert (Hw : forall w, word w -> one_line w).
  { intros w [_ H]. eapply Forall_impl; [exact H|]. by intros x Hx ->. }
  pose proof (proj1 Hmaj). pose proof (proj1 Hmin). pose proof (proj1 Hino). unfold request_row. split.
  - repeat first [apply one_line_app; split | apply Forall_cons; split]; try done;
      try (apply Hw; first [done | by apply uint_word | by apply int_word | by apply hex02_word]); by destruct (blocked r); repeat constructor.
  - by back_end.
Qed.
(** Read against a lock table as the kernel prints it, the answer is the pid of the first
    request that is blocked on this very file - the same device, all of it, and the same
    inode - and of no other: neither the lock's holder nor a request for a file of the same
    inode elsewhere. *)
Theorem waiter_of_the_lock (rs : list Request) (dev ino : Z) : Forall request_ok rs -> is_u 64 dev ->
  blocked_waiter (lock_table rs) dev ino = pid <$> head (base.filter (waits_for dev ino) rs).
Proof.
  intros Hrs Hd. unfold blocked_waiter, find_map, lock_table. rewrite (lines_of_rows request_row request_ok) by (done || apply request_one_line).
  induction Hrs as [|r rs Hr _ IH]; [done|]. cbn [fmap list_fmap omap list_omap]. rewrite lock_line_row by done.
  rewrite filter_cons. case_bool_decide as Hw; [by rewrite decide_True|by rewrite decide_False].
Qed.
Definition sample_request (b : bool) (p : Z) : Request :=
  {| req_id := 1; blocked := b; class := txt "POSIX"; mode := txt "ADVISORY"; kind := txt "WRITE"; pid := p;
     req_major := 0; req_minor := 54; req_ino := 483507; range := txt "0 0" |}.
Example a_row_as_measured : request_row (sample_request true 1140518) = txt "1: -> POSIX  ADVISORY  WRITE 1140518 00:36:483507 0 0".
Proof. vm_compute. reflexivity. Qed.
Lemma sample_request_ok b p : is_i 32 p -> request_ok (sample_request b p).
Proof.
  intros Hp. split; cbn.
  - unfold is_u. split_and!; (done || lia).
  - split_and!; [..|vm_compute; discriminate]; (split; [vm_compute; discriminate|]);
      apply List.Forall_forall; intros c Hc; vm_compute in Hc; destruct_or?; by subst.
  - split_and!; [by apply one_line_dec|done|done].
Qed.
Lemma waiter_of_the_lock_witness : blocked_waiter (lock_table [sample_request false 1140426; sample_request true 1140518]) 54 483507 = Some 1140518.
Proof.
  rewrite (waiter_of_the_lock [sample_request false 1140426; sample_request true 1140518] 54 483507).
  - vm_compute. reflexivity.
  - constructor; [|constructor; [|constructor]]; apply sample_request_ok; unfold is_i; lia.
  - unfold is_u. lia.
Defined.
(** One file system of two subvolumes: the device is the file system's, not the one [stat]
    would report. *)
Definition sample_mount (i mnr : Z) (at_ : String.string) (r : String.string) : Mount :=
  {| mount_id := i; parent_id := 2; major := 0; minor := mnr; root := txt r; point := String.list_byte_of_string at_;
     shown := txt at_; options := txt "rw - btrfs /dev/sda1 rw" |}.
Lemma device_of_the_mount_witness :
  locks_dev (mount_table [sample_mount 32 29 "/" "/@"; sample_mount 57 29 "/home" "/@home"; sample_mount 99 54 "/tmp" "/"]) (txt "/tmp/.wine-1000/lock") = Some 54.
Proof.
  apply device_of_the_mount.
  - repeat constructor; try (vm_compute; discriminate); try (by apply one_line_dec); vm_compute; reflexivity.
  - exists [sample_mount 32 29 "/" "/@"; sample_mount 57 29 "/home" "/@home"], (sample_mount 99 54 "/tmp" "/"), []. split_and!.
    + reflexivity.
    + eexists. vm_compute. reflexivity.
    + vm_compute. reflexivity.
    + repeat constructor; intros [r E]; vm_compute in E; vm_compute; lia.
    + constructor.
Defined.
(** A blank in a mount point, and a name that only begins like one. *)
Example an_escaped_mount_point : locks_dev (txt "32 2 0:29 / / rw - btrfs /dev/sda1 rw
77 32 0:44 / /mnt/my\040disk rw - ext4 /dev/sdb1 rw") (txt "/mnt/my disk/lock") = Some 44 /\
  locks_dev (txt "32 2 0:29 / / rw - btrfs /dev/sda1 rw
99 32 0:54 / /tmp rw - tmpfs tmpfs rw") (txt "/tmpfoo/lock") = Some 29.
Proof. vm_compute. done. Qed.
