(* ===== verification/Proton.v ===== *)
(** * Proton: wrapping a game's launch (crates/tobii-cli/src/proton.rs)

    Finding the game in the command Steam hands over, deciding whether the bridge's provider
    can go in front of it, and putting it there. [game_found]: the place is that of the
    first real anchor of a Proton launch; [launch_rearranged]: a command comes out as it
    went in, or with exactly two words put before the game, and the latter exactly when the
    prefix Steam named holds a provider and the mark that it can start a game. *)
From S2P Require Import Prelude Utf8 Text Bytelines Paths.

Definition VERB : text := txt "waitforexitandrun".
(** The constants of crates/tobii-cli/src/bridge.rs that both sides use. *)
Definition INSTALL_SUBDIR : text := txt "drive_c/tobii-bridge".
Definition LAUNCH_STAMP : text := txt "launch-capable.txt".
Definition PROVIDER_EXE : text := txt "tobii-bridge.exe".
Definition PROVIDER : text := PROVIDER_EXE.

(** A path as its bytes; [join] with a piece this program spells, [display], [to_str]. *)
Definition os_join (p : bytes) (piece : text) : bytes := byte.of_Z <$> path_join (u8 <$> p) (u8 <$> utf8_encode piece).
Definition display (p : bytes) : text := lossy_text p.
Definition to_str (p : bytes) : option text := utf8_decode p.

Inductive Plan := AsGiven | Declined (why : text) | Rewrite (target : nat) (provider : text).

Definition is_exe (path : text) : bool :=
  match path_extension path with Some e => eq_ignore_ascii_case e (txt "exe") | None => false end.
Definition is_proton (program : text) : bool := bool_decide (file_name program = Some (txt "proton")).
(** The index after the first verb that follows a program called [proton]; [i] is the index
    of the first word of [cmd], [before] the word before it. *)
Fixpoint anchor_from (before : option text) (i : nat) (cmd : list text) : option nat :=
  match cmd with
  | [] => None
  | a :: cmd =>
      if match before with Some b => text_eqb a VERB && is_proton b | None => false end then Some (S i)
      else anchor_from (Some a) (S i) cmd
  end.
Definition proton_target (cmd : list text) : option nat :=
  at_ ← anchor_from None 0 cmd;
  target ← cmd !! at_;
  if is_exe target then Some at_ else None.

Definition no_compat : text := txt "this looks like a Proton launch, but STEAM_COMPAT_DATA_PATH is not set, so which prefix it uses is not established — running it unchanged".
Definition no_provider (prefix : bytes) : text :=
  txt "the bridge provider is not in " ++ display prefix ++ txt " — run `tobii bridge install` for this game to have it started alongside".
Definition no_stamp (prefix : bytes) : text :=
  txt "the bridge in " ++ display prefix ++ txt " was installed by an older version that cannot start a game — run `tobii bridge install` for it again to have the provider started alongside. Running this launch unchanged".
Definition unnameable (exe : bytes) : text :=
  display exe ++ txt " cannot be named on a command line, so the bridge provider is not being started — running the game unchanged".
Definition wrapped_note : text := txt "this launch is wrapped — the provider starts first, the game runs, and both end together. Whether the game then reads tracking from it is not checked here. If the game does not start at all, take `tobii game -- ` back out of the launch options and it launches exactly as before.".

Definition bridge_dir (compat : bytes) : bytes := os_join (os_join compat (txt "pfx")) INSTALL_SUBDIR.
Section Files.
Context (is_file : bytes -> bool).
Definition plan (cmd : list text) (compat : option bytes) : Plan :=
  match proton_target cmd with
  | None => AsGiven
  | Some target =>
      match compat with
      | None => Declined no_compat
      | Some compat =>
          let prefix := os_join compat (txt "pfx") in
          let dir := os_join prefix INSTALL_SUBDIR in
          if negb (is_file (os_join dir PROVIDER)) then Declined (no_provider prefix)
          else if negb (is_file (os_join dir LAUNCH_STAMP)) then Declined (no_stamp prefix)
          else
            let exe := os_join dir PROVIDER in
            match to_str exe with
            | None => Declined (unnameable exe)
            | Some provider => Rewrite target provider
            end
      end
  end.
(** [Vec::insert], of an index within the length. *)
Definition insert_at {A} (i : nat) (x : A) (l : list A) : list A := take i l ++ x :: drop i l.
Definition point_at (cmd : list text) (target : nat) (provider : text) : list text :=
  insert_at target provider (insert_at target (txt "--launch") cmd).
(** The command, and the note that is printed, if any. *)
Definition arrange (cmd : list text) (compat : option bytes) : list text * option text :=
  match plan cmd compat with
  | AsGiven => (cmd, None)
  | Declined why => (cmd, Some why)
  | Rewrite target provider => (point_at cmd target provider, Some wrapped_note)
  end.

(** ** Where the game is *)
(** A launch: a program called [proton], the verb, and then the game; [front] holds no such
    pair, also not across its end. *)
Definition anchored (before : option text) (a : text) : Prop :=
  exists b, before = Some b /\ a = VERB /\ file_name b = Some (txt "proton").
Fixpoint no_anchor (before : option text) (cmd : list text) : Prop :=
  match cmd with [] => True | a :: cmd => ~ anchored before a /\ no_anchor (Some a) cmd end.
Definition launch_of (cmd : list text) (t : nat) (game : text) : Prop :=
  exists front proton rest, cmd = front ++ proton :: VERB :: game :: rest /\ file_name proton = Some (txt "proton") /\
    no_anchor None (front ++ [proton]) /\ t = S (S (length front)) /\ is_exe game = true.

Lemma anchored_spec before a :
  match before with Some b => text_eqb a VERB && is_proton b | None => false end = true <-> anchored before a.
Proof.
  unfold anchored, is_proton, text_eqb. destruct before as [b|]; [|split; [done|by intros (? & ? & _)]].
  rewrite andb_true_iff, !bool_decide_eq_true. split; [intros [-> ?]; by exists b|by intros (? & [= <-] & -> & ?)].
Qed.
Lemma no_anchor_snoc before cmd a : no_anchor before (cmd ++ [a]) <-> no_anchor before cmd /\ ~ anchored (default before (Some <$> last cmd)) a.
Proof.
  revert before. induction cmd as [|x cmd IH]; intros before; cbn; [tauto|]. rewrite IH.
  replace (default before (Some <$> last (x :: cmd))) with (default (Some x) (Some <$> last cmd)); [tauto|].
  destruct cmd as [|y cmd]; [done|]. rewrite last_cons_cons. destruct (last (y :: cmd)) eqn:E; [done|]. by apply last_None in E.
Qed.
Lemma anchor_from_spec before i cmd j : anchor_from before i cmd = Some j <->
  exists front rest, cmd = front ++ VERB :: rest /\ no_anchor before front /\
    anchored (default before (Some <$> last front)) VERB /\ j = (i + S (length front))%nat.
Proof.
  revert before i. induction cmd as [|a cmd IH]; intros before i; cbn [anchor_from].
  - split; [done|]. intros (front & rest & E & _). by destruct front.
  - destruct (match before with Some b => _ | None => false end) eqn:Ea.
    + apply anchored_spec in Ea as Ha. split.
      * intros [= <-]. exists [], cmd. cbn. assert (a = VERB) as -> by (by destruct Ha as (? & _ & -> & _)). split_and!; [done..|lia].
      * intros (front & rest & E & Hn & _ & ->). destruct front as [|x front]; [f_equal; cbn; lia|].
        injection E as <- ->. by destruct Hn.
    + assert (Ha : ~ anchored before a) by (intros H%anchored_spec; congruence). rewrite IH. split.
      * intros (front & rest & -> & Hn & Hl & ->). exists (a :: front), rest. cbn [no_anchor length].
        split_and!; [done..| |lia]. destruct front as [|y front]; [done|]. rewrite last_cons_cons.
        destruct (last (y :: front)) eqn:E; [exact Hl|by apply last_None in E].
      * intros (front & rest & E & Hn & Hl & ->). destruct front as [|x front].
        -- injection E as -> _. done.
        -- injection E as <- ->. destruct Hn as [_ Hn]. exists front, rest. split_and!; [done..| |cbn; lia].
           destruct front as [|y front]; [done|]. rewrite last_cons_cons in Hl. destruct (last (y :: front)) eqn:E; [exact Hl|by apply last_None in E].
Qed.
Lemma target_spec cmd t : proton_target cmd = Some t <-> exists game, launch_of cmd t game.
Proof.
  unfold proton_target, launch_of. split.
  - destruct (anchor_from None 0 cmd) as [at_|] eqn:Ea; [|done]. cbn [mbind option_bind].
    apply anchor_from_spec in Ea as (front & rest & -> & Hn & Hl & ->). cbn [Nat.add].
    destruct ((front ++ VERB :: rest) !! S (length front)) as [game|] eqn:Eg; [|done]. cbn [mbind option_bind].
    destruct (is_exe game) eqn:Ex; [|done]. intros [= <-].
    assert (exists r, rest = game :: r) as [r ->].
    { rewrite lookup_app_r in Eg by lia. replace (S (length front) - length front)%nat with 1%nat in Eg by lia. destruct rest; [done|]. injection Eg as <-. by eexists. }
    destruct Hl as (b & Hb & _ & Hp). destruct (last front) as [p|] eqn:El; [|done]. injection Hb as ->.
    apply last_Some in El as [fr ->]. exists game, fr, b, r. rewrite <- app_assoc. split_and!; [done..| |done]. rewrite length_app. cbn. lia.
  - intros (game & front & p & rest & -> & Hp & Hn & -> & Hx).
    assert (Ha : anchor_from None 0 (front ++ p :: VERB :: game :: rest) = Some (S (S (length front)))).
    { apply anchor_from_spec. exists (front ++ [p]), (game :: rest). rewrite <- app_assoc. split_and!; [done..| |].
      - rewrite last_snoc. by exists p.
      - rewrite length_app. cbn. lia. }
    rewrite Ha. cbn [mbind option_bind]. rewrite lookup_app_r by lia.
    replace (S (S (length front)) - length front)%nat with 2%nat by lia. cbn. by rewrite Hx.
Qed.

(** The prefix Steam named holds a provider that can start a game, and it can be spelled. *)
Definition ready (compat : option bytes) (p : text) : Prop :=
  exists c, compat = Some c /\ is_file (os_join (bridge_dir c) PROVIDER) = true /\
    is_file (os_join (bridge_dir c) LAUNCH_STAMP) = true /\ to_str (os_join (bridge_dir c) PROVIDER) = Some p.
Lemma plan_rewrites cmd compat t p : plan cmd compat = Rewrite t p <-> (exists game, launch_of cmd t game) /\ ready compat p.
Proof.
  rewrite <- target_spec. unfold plan, ready. destruct (proton_target cmd) as [at_|]; [|by split; [|intros []]].
  destruct compat as [c|]; [|by split; [|intros (_ & ? & ? & _)]]. fold (bridge_dir c).
  destruct (is_file (os_join (bridge_dir c) PROVIDER)) eqn:Ep; cbn [negb].
  2: split; [done|intros (_ & c' & [= <-] & E & _); congruence].
  destruct (is_file (os_join (bridge_dir c) LAUNCH_STAMP)) eqn:Es; cbn [negb].
  2: split; [done|intros (_ & c' & [= <-] & _ & E & _); congruence].
  destruct (to_str _) as [q|] eqn:Eq; split; try done.
  - intros [= <- <-]. split; [done|]. by exists c.
  - intros ([= <-] & c' & [= <-] & _ & _ & E). congruence.
  - intros (_ & c' & [= <-] & _ & _ & E). congruence.
Qed.
Lemma plan_silent cmd compat : plan cmd compat = AsGiven <-> proton_target cmd = None.
Proof. unfold plan. destruct (proton_target cmd); [|done]. split; [|done]. by repeat case_match. Qed.
Lemma launch_length cmd t game : launch_of cmd t game -> exists rest, drop t cmd = game :: rest.
Proof.
  intros (front & p & rest & -> & _ & _ & -> & _). exists rest. rewrite drop_app_ge by lia.
  by replace (S (S (length front)) - length front)%nat with 2%nat by lia.
Qed.
(** A command is rearranged exactly when it is a Proton launch of a Windows program and
    the prefix Steam named holds a provider marked as able to start a game. Then the
    provider and its flag stand in front of the game and every word Steam wrote is where it
    was before and after them; otherwise the command is as it was. Something is printed for
    every Proton launch and for nothing else. *)
Theorem launch_rearranged (cmd : list text) (compat : option bytes) :
  (forall t p, plan cmd compat = Rewrite t p <-> (exists game, launch_of cmd t game) /\ ready compat p) /\
  (forall t game p, launch_of cmd t game -> ready compat p ->
     exists front rest, cmd = front ++ game :: rest /\ length front = t /\
       arrange cmd compat = (front ++ p :: txt "--launch" :: game :: rest, Some wrapped_note)) /\
  ((forall t game p, launch_of cmd t game -> ~ ready compat p) -> (arrange cmd compat).1 = cmd) /\
  ((arrange cmd compat).2 = None <-> forall t game, ~ launch_of cmd t game).
Proof.
  split_and!.
  - apply plan_rewrites.
  - intros t game p Hl Hr. destruct (launch_length _ _ _ Hl) as [rest Ed].
    assert (E : plan cmd compat = Rewrite t p) by (apply plan_rewrites; eauto).
    assert (Ht : (t <= length cmd)%nat).
    { destruct (Nat.le_gt_cases t (length cmd)) as [|Hgt]; [done|]. by rewrite drop_ge in Ed by lia. }
    exists (take t cmd), rest. unfold arrange. rewrite E, <- Ed, take_drop, length_take. split_and!; [done|lia|].
    unfold point_at, insert_at. f_equal. rewrite take_app_length', drop_app_length' by (rewrite length_take; lia). by rewrite Ed.
  - intros H. unfold arrange. destruct (plan cmd compat) eqn:E; [done..|]. apply plan_rewrites in E as [(g & Hg) Hr]. by destruct (H _ _ _ Hg Hr).
  - unfold arrange. split.
    + intros E t game H. assert (Ep : plan cmd compat = AsGiven) by (by destruct (plan cmd compat)).
      apply plan_silent in Ep. assert (proton_target cmd = Some t) by (apply target_spec; eauto). congruence.
    + intros H. replace (plan cmd compat) with AsGiven; [done|]. symmetry. apply plan_silent.
      destruct (proton_target cmd) as [t|] eqn:E; [|done]. apply target_spec in E as [g Hg]. by destruct (H t g).
Qed.
End Files.

(** The launch as Steam expands it, with a prefix that is ready and with one an older
    version was installed into. *)
Definition steam_command : list text :=
  [txt "/home/u/Steam/ubuntu12_32/reaper"; txt "SteamLaunch"; txt "AppId=2074920"; txt "--"; txt "/games/SteamLinuxRuntime_4/_v2-entry-point";
   txt "--verb=waitforexitandrun"; txt "--"; txt "/usr/share/steam/proton-cachyos-slr/proton"; VERB; txt "/games/The Game.EXE"; txt "-steam"].
Example launch_is_wrapped :
  arrange (fun _ => true) steam_command (Some (utf8_encode (txt "/c"))) =
  (take 9 steam_command ++ [txt "/c/pfx/drive_c/tobii-bridge/tobii-bridge.exe"; txt "--launch"; txt "/games/The Game.EXE"; txt "-steam"], Some wrapped_note).
Proof. vm_compute. reflexivity. Qed.
Example an_old_provider_is_not_used :
  arrange (fun p => negb (ends_with LAUNCH_STAMP (u8 <$> p))) steam_command (Some (utf8_encode (txt "/c"))) =
  (steam_command, Some (no_stamp (utf8_encode (txt "/c/pfx")))).
Proof. vm_compute. reflexivity. Qed.
Example tools_are_left_alone : arrange (fun _ => true) [txt "/x/proton"; txt "runinprefix"; txt "a.exe"] None = ([txt "/x/proton"; txt "runinprefix"; txt "a.exe"], None).
Proof. vm_compute. reflexivity. Qed.
