(* ===== verification/RegQuery.v ===== *)
(** * RegQuery: what wine says a registry key holds (crates/tobii-cli/src/bridge.rs)

    The bridge's installer decides from [reg query]'s output whether a key is free, its own,
    or another program's. [reading_is_the_value]: of a value printed the way wine prints it,
    a plain reading is the value, to the last byte, and it is one exactly when the value is
    an ASCII [REG_SZ] on one line that names a path; and a value that is there is never read
    as an absence. *)
From S2P Require Import Prelude Utf8 Text Bytelines.

Inductive Reading := Absent | Plain (v : text) | Other (why : text).
#[export] Instance reading_eq_dec : EqDecision Reading. Proof. solve_decision. Defined.
Definition describe (r : Reading) : text := match r with Absent => txt "nothing" | Plain v => v | Other why => why end.

Fixpoint ascii_prefix (l : bytes) : bytes := match l with b :: l => if u8 b <? 128 then b :: ascii_prefix l else [] | [] => [] end.
(** The chunks that are left, with the newlines between them. *)
Fixpoint rejoin (chunks : list bytes) : bytes :=
  match chunks with [] => [] | [l] => l | l :: chunks => l ++ x0a :: rejoin chunks end.
Definition starts_blank (s : text) : bool := match s with c :: _ => is_whitespace c | [] => false end.
(** What follows the name on a [Path] line: the separator, the type, the value. *)
Definition path_line (line : bytes) : option text :=
  let head := u8 <$> ascii_prefix line in
  let head := trim_start (default head (strip_suffix [13] head)) in
  rest ← strip_prefix (txt "Path") head;
  if starts_blank rest then Some rest else None.
Definition with_break : text := txt "a value with a line break in it, which this installer never writes and cannot read back whole".
Definition not_ascii : text := txt "a value with characters outside ASCII, which wine does not print in UTF-8".
Definition stored_as (ty : text) : text := txt "a value stored as " ++ ty ++ txt ", which this installer never writes".
Definition no_path : text := txt "a value holding no path at all, which this installer never writes".
Fixpoint scan_chunks (chunks : list bytes) : Reading :=
  match chunks with
  | [] => Absent
  | line :: chunks =>
      let after := rejoin chunks in
      let whole := bool_decide (after = []) || bool_decide (after = [x0d; x0a]) in
      match path_line line with
      | None => scan_chunks chunks
      | Some rest =>
          if negb whole then Other with_break
          else if negb (length (ascii_prefix line) =? length line)%nat then Other not_ascii
          else
            let rest := trim_start rest in
            let '(ty, value) := default (rest, []) (split_once is_whitespace rest) in
            if negb (text_eqb ty (txt "REG_SZ")) then Other (stored_as ty)
            else match trim_start value with [] => Other no_path | v => Plain v end
      end
  end.
Definition reg_query_path (stdout : bytes) : Reading := scan_chunks (split_lines stdout).

(** ** What wine prints *)
Definition ascii (v : bytes) : Prop := Forall (fun b => u8 b < 128) v.
Definition breaks (v : bytes) : Prop := exists b, b ∈ v /\ u8 b = 10.
(** Wine prints the key, then the value's name, type and data, then an empty line. The data
    comes as it is, line breaks and all. *)
Definition printed (header : list bytes) (ty : text) (v : bytes) : bytes :=
  (header ≫= fun l => l ++ [x0a]) ++ (utf8_encode (txt "    Path    ") ++ utf8_encode ty ++ utf8_encode (txt "    ")) ++ v ++ [x0d; x0a; x0d; x0a].
Definition header_ok (header : list bytes) : Prop := Forall (fun l => whole_line l /\ path_line l = None) header.
Definition type_ok (ty : text) : Prop := ty <> [] /\ Forall (fun c => 0 <= c < 128 /\ is_whitespace c = false) ty.

Lemma rejoin_split b : rejoin (split_lines b) = b.
Proof.
  induction b as [|c b IH]; [done|]. cbn [split_lines]. destruct (u8 c =? 10) eqn:E.
  - assert (c = x0a) as -> by (apply Z.eqb_eq in E; by destruct c). cbn [rejoin].
    destruct (split_lines b) eqn:Eb; [by apply split_lines_nonempty in Eb|]. cbn [app]. by rewrite IH.
  - destruct (split_lines b) as [|l ls] eqn:Eb; [by apply split_lines_nonempty in Eb|].
    rewrite <- IH. by destruct ls.
Qed.
Lemma scan_header header b : header_ok header -> scan_chunks (split_lines ((header ≫= fun l => l ++ [x0a]) ++ b)) = scan_chunks (split_lines b).
Proof.
  induction 1 as [|l header [Hw Hn] _ IH]; [done|]. cbn [mbind list_bind]. rewrite <- !app_assoc. cbn [app].
  rewrite split_lines_app by done. cbn [scan_chunks]. by rewrite Hn.
Qed.
Lemma ascii_prefix_app a b : ascii a -> ascii_prefix (a ++ b) = a ++ ascii_prefix b.
Proof. induction 1 as [|x a Hx _ IH]; [done|]. cbn. rewrite (proj2 (Z.ltb_lt _ _) Hx). by rewrite IH. Qed.
Lemma ascii_prefix_full v : length (ascii_prefix v) = length v <-> ascii v.
Proof.
  induction v as [|b v IH]; [split; [constructor|done]|]. cbn. destruct (Z.ltb_spec (u8 b) 128) as [H|H]; cbn.
  - split; [intros [= E]; constructor; [done|by apply IH]|intros [_ Hv]%Forall_cons; f_equal; by apply IH].
  - split; [done|]. intros [? _]%Forall_cons. lia.
Qed.

(** ** Reading it back *)
Lemma strip_cr_past s t c : c <> 13 -> strip_cr (s ++ c :: t) = s ++ c :: strip_cr t.
Proof.
  intros Hc. destruct t as [|x t _] using rev_ind.
  - rewrite strip_cr_id by (by apply back_ok_snoc, Z.eqb_neq). done.
  - destruct (Z.eq_dec x 13) as [->|Hx].
    + unfold strip_cr. rewrite strip_suffix_app. rewrite app_comm_cons, app_assoc, strip_suffix_app. done.
    + assert (Hb : forall u, back_ok (Z.eqb 13) (u ++ [x])) by (intros u; by apply back_ok_snoc, Z.eqb_neq).
      rewrite (strip_cr_id (t ++ [x])), app_comm_cons, app_assoc by done. by rewrite strip_cr_id.
Qed.
Section Printed.
Context (ty : text) (Hty : type_ok ty).
Definition front : bytes := utf8_encode (txt "    Path    ") ++ utf8_encode ty ++ utf8_encode (txt "    ").
Lemma encode_ascii (s : text) : Forall (fun c => 0 <= c < 128) s -> utf8_encode s = byte.of_Z <$> s /\ u8 <$> utf8_encode s = s /\ ascii (utf8_encode s).
Proof.
  clear. induction 1 as [|c s Hc _ (IH1 & IH2 & IH3)]; [split_and!; [done..|constructor]|].
  change (utf8_encode (c :: s)) with (encode_char c ++ utf8_encode s). unfold encode_char.
  rewrite (proj2 (Z.ltb_lt c 128)) by lia. split_and!.
  - cbn. by rewrite IH1.
  - change (u8 (byte.of_Z c) :: (u8 <$> utf8_encode s) = c :: s). by rewrite u8_of_Z, IH2 by lia.
  - constructor; [rewrite u8_of_Z; lia|done].
Qed.
Lemma type_bytes : u8 <$> utf8_encode ty = ty /\ ascii (utf8_encode ty).
Proof. apply encode_ascii. eapply Forall_impl; [apply Hty|]. by intros c [? _]. Qed.
Lemma ascii_dec v : forallb (fun b => u8 b <? 128) v = true <-> ascii v.
Proof. clear. unfold ascii. rewrite forallb_forall, List.Forall_forall. split; intros H b Hb; by apply Z.ltb_lt, H. Qed.
Lemma front_ascii : ascii front.
Proof.
  destruct type_bytes as [_ At]. apply Forall_app_2; [by apply ascii_dec|]. apply Forall_app_2; [done|by apply ascii_dec].
Qed.
Lemma path_line_front w : path_line (front ++ w) = Some (txt "    " ++ ty ++ txt "    " ++ strip_cr (u8 <$> ascii_prefix w)).
Proof.
  destruct type_bytes as [Et At]. unfold path_line.
  rewrite ascii_prefix_app, fmap_app by apply front_ascii. unfold front. rewrite !fmap_app, Et.
  set (aw := u8 <$> ascii_prefix w).
  assert (E1 : u8 <$> utf8_encode (txt "    Path    ") = [32; 32; 32; 32] ++ txt "Path" ++ txt "    ") by (vm_compute; reflexivity).
  assert (E2 : u8 <$> utf8_encode (txt "    ") = [32; 32; 32] ++ [32]) by (vm_compute; reflexivity).
  assert (E3 : txt "    " = [32; 32; 32] ++ [32]) by (vm_compute; reflexivity).
  rewrite E1, E2. replace ((([32; 32; 32; 32] ++ txt "Path" ++ txt "    ") ++ ty ++ [32; 32; 32] ++ [32]) ++ aw)
    with (([32; 32; 32; 32] ++ txt "Path" ++ txt "    " ++ ty ++ [32; 32; 32]) ++ 32 :: aw) by (by rewrite <- !app_assoc).
  fold (strip_cr (([32; 32; 32; 32] ++ txt "Path" ++ txt "    " ++ ty ++ [32; 32; 32]) ++ 32 :: aw)). rewrite strip_cr_past by done.
  rewrite <- !app_assoc. unfold trim_start. rewrite trim_start_all by (by repeat constructor).
  rewrite trim_start_id by (assert (E4 : txt "Path" = 80 :: [97; 116; 104]) by (vm_compute; reflexivity); by rewrite E4).
  rewrite strip_prefix_app. cbn [mbind option_bind]. rewrite E3. by rewrite <- !app_assoc.
Qed.
(** Everything about a value that the reading depends on. *)
Definition reading_of (v : bytes) : Reading :=
  if existsb (fun b => u8 b =? 10) v then Other with_break
  else if negb (forallb (fun b => u8 b <? 128) v) then Other not_ascii
  else if negb (text_eqb ty (txt "REG_SZ")) then Other (stored_as ty)
  else match trim_start (u8 <$> v) with [] => Other no_path | v => Plain v end.
Lemma first_break v : existsb (fun b => u8 b =? 10) v = true -> exists a r, v = a ++ x0a :: r /\ whole_line a.
Proof.
  clear. induction v as [|b v IH]; [done|]. cbn. destruct (Z.eqb_spec (u8 b) 10) as [E|E].
  - intros _. exists [], v. split; [|constructor]. by destruct b.
  - intros (a & r & -> & Ha)%IH. exists (b :: a), r. split; [done|by constructor].
Qed.
Lemma front_whole w : whole_line w -> whole_line (front ++ w).
Proof.
  intros Hw. apply Forall_app_2; [|done].
  assert (Hd : forall v, forallb (fun b => negb (u8 b =? 10)) v = true -> whole_line v).
  { clear. intros v Hv. apply List.Forall_forall. rewrite forallb_forall in Hv. intros b Hb. by apply Z.eqb_neq, negb_true_iff, Hv. }
  apply Forall_app_2; [by apply Hd|apply Forall_app_2; [|by apply Hd]]. destruct type_bytes as [Et _]. apply List.Forall_forall. intros b Hb E.
  assert (Hin : In 10 ty) by (rewrite <- Et; apply in_map_iff; by exists b). destruct Hty as [_ Hf].
  rewrite List.Forall_forall in Hf. by destruct (Hf _ Hin).
Qed.
Lemma scan_value v : scan_chunks (split_lines (front ++ v ++ [x0d; x0a; x0d; x0a])) = reading_of v.
Proof.
  unfold reading_of. destruct (existsb _ v) eqn:Eb.
  - apply first_break in Eb as (a & r & -> & Ha). rewrite <- (app_assoc a), (app_assoc front). cbn [app].
    rewrite split_lines_app by (by apply front_whole). cbn [scan_chunks]. rewrite path_line_front, rejoin_split.
    assert (Hl : (4 <= length (r ++ [x0d; x0a; x0d; x0a]))%nat) by (rewrite length_app; cbn; lia).
    rewrite !bool_decide_eq_false_2 by (intros E; rewrite E in Hl; cbn in Hl; lia). done.
  - assert (Hw : whole_line (v ++ [x0d])).
    { apply Forall_app. split; [|by repeat constructor]. apply List.Forall_forall. intros b Hb E.
      rewrite (proj2 (existsb_exists _ _)) in Eb; [done|]. exists b. split; [done|by apply Z.eqb_eq]. }
    replace (front ++ v ++ [x0d; x0a; x0d; x0a]) with ((front ++ v ++ [x0d]) ++ x0a :: [x0d; x0a]) by (by rewrite <- !app_assoc).
    rewrite split_lines_app by (by apply front_whole). cbn [scan_chunks]. rewrite path_line_front.
    change (rejoin (split_lines [x0d; x0a])) with [x0d; x0a]. cbn [negb orb]. destruct (forallb _ v) eqn:Ea; cbn [negb].
    + apply ascii_dec in Ea. assert (Hv : ascii (v ++ [x0d])) by (apply Forall_app_2; [done|by constructor]).
      rewrite (proj2 (Nat.eqb_eq _ _)) by (apply ascii_prefix_full, Forall_app_2; [apply front_ascii|done]). cbn [negb].
      rewrite <- (app_nil_r (v ++ [x0d])), (ascii_prefix_app (v ++ [x0d]) []), !app_nil_r, fmap_app by done.
      assert (E1 : strip_cr ((u8 <$> v) ++ (u8 <$> [x0d])) = u8 <$> v) by (unfold strip_cr; by rewrite (strip_suffix_app [13])).
      rewrite E1. assert (E3 : txt "    " = [32] ++ [32; 32; 32]) by (vm_compute; reflexivity). rewrite !E3.
      destruct Hty as [Hn Hf]. assert (Hw' : Forall (fun c => is_whitespace c = false) ty) by (eapply Forall_impl; [exact Hf|]; by intros c [_ ?]).
      assert (Ht : trim_start (([32] ++ [32; 32; 32]) ++ ty ++ ([32] ++ [32; 32; 32]) ++ (u8 <$> v)) = ty ++ 32 :: [32; 32; 32] ++ (u8 <$> v)).
      { unfold trim_start. rewrite trim_start_all by (by repeat constructor). rewrite trim_start_id; [by rewrite <- !app_assoc|].
        destruct ty as [|c t]; [done|]. by apply Forall_cons in Hw' as [? _]. }
      rewrite Ht, split_once_app by done. cbn [from_option id]. rewrite bool_decide_eq_false_2, bool_decide_eq_true_2 by done. cbn [orb negb].
      unfold trim_start. by rewrite (trim_start_all _ [32; 32; 32]) by (by repeat constructor).
    + replace (length (ascii_prefix _) =? _)%nat with false; [done|]. symmetry. apply Nat.eqb_neq. intros E%ascii_prefix_full.
      apply Forall_app in E as [_ [E _]%Forall_app]. apply ascii_dec in E. congruence.
Qed.
End Printed.

Lemma printed_read header ty v : header_ok header -> type_ok ty -> reg_query_path (printed header ty v) = reading_of ty v.
Proof. intros Hh Ht. unfold reg_query_path, printed. rewrite scan_header by done. fold (front ty). by apply scan_value. Qed.
Lemma type_sz : type_ok (txt "REG_SZ").
Proof. split; [vm_compute; discriminate|]. apply List.Forall_forall. intros c Hc. vm_compute in Hc. destruct_or?; subst; (split; [lia|done]). Qed.
(** Read back from what wine prints of a key - whatever is printed before it, whatever
    the type and the bytes of the value - a plain reading is the value itself, to the last
    byte behind the separator, and there is one exactly when the value is a string in ASCII,
    without a line break, and not blank. A value that is there is never read as none. *)
Theorem reading_is_the_value (header : list bytes) (ty : text) (v : bytes) : header_ok header -> type_ok ty ->
  (forall s, reg_query_path (printed header ty v) = Plain s <->
     ty = txt "REG_SZ" /\ ascii v /\ whole_line v /\ s = trim_start (u8 <$> v) /\ s <> []) /\
  reg_query_path (printed header ty v) <> Absent.
Proof.
  intros Hh Ht. rewrite printed_read by done.
  assert (Hl : existsb (fun b => u8 b =? 10) v = false <-> whole_line v).
  { unfold whole_line. rewrite <- not_true_iff_false, existsb_exists, List.Forall_forall. setoid_rewrite Z.eqb_eq.
    split; [intros H b Hb E; apply H; by exists b|intros H (b & Hb & E); by apply (H b Hb)]. }
  unfold reading_of. destruct (existsb _ v) eqn:Eb.
  { split; [|done]. intros s. split; [done|]. intros (_ & _ & Hw & _). apply Hl in Hw. done. }
  destruct (forallb _ v) eqn:Ea; cbn [negb].
  2: { split; [|done]. intros s. split; [done|]. intros (_ & Hw & _). apply ascii_dec in Hw. congruence. }
  apply ascii_dec in Ea. unfold text_eqb. case_bool_decide as Et; cbn [negb]; [|split; [|done]; intros s; by split; [|intros (? & _)]].
  destruct (trim_start (u8 <$> v)) as [|c r] eqn:Ev; (split; [|done]); intros s.
  - split; [done|]. by intros (_ & _ & _ & -> & ?).
  - split; [intros [= <-]; split_and!; (done || by apply Hl)|by intros (_ & _ & _ & -> & _)].
Qed.
(** A client's registration, and a value that begins like ours but goes on. *)
Definition key_header : list bytes := [[x0d]; utf8_encode (txt "HKEY_CURRENT_USER\Software\Freetrack\FreeTrackClient") ++ [x0d]].
Lemma reading_is_the_value_witness :
  reg_query_path (printed key_header (txt "REG_SZ") (utf8_encode (txt "C:\tobii-bridge"))) = Plain (txt "C:\tobii-bridge").
Proof.
  apply reading_is_the_value.
  - apply List.Forall_forall. intros l Hl. cbn [key_header In] in Hl. split; [|by destruct_or?; subst; vm_compute].
    apply List.Forall_forall. intros b Hb. destruct_or?; subst; [by destruct Hb as [<-|[]]|]. vm_compute in Hb. by destruct_or?; subst.
  - apply type_sz.
  - split_and!; [done|by apply ascii_dec| |vm_compute; reflexivity|vm_compute; discriminate].
    apply List.Forall_forall. intros b Hb. vm_compute in Hb. by destruct_or?; subst.
Defined.
Example a_fragment_is_not_compared :
  reg_query_path (printed key_header (txt "REG_SZ") (utf8_encode (txt "C:\tobii-bridge" ++ [13; 10] ++ txt "EVIL"))) = Other with_break.
Proof. vm_compute. reflexivity. Qed.
