(* ===== verification/Bridge.v ===== *)
(** * Bridge: what the bridge's installer decides (crates/tobii-cli/src/bridge.rs)

    The flags, the prefix and the wine they name, the client TrackIR is pointed at, the
    record of what was registered, and whether a key may be written or cleared. Paths are
    texts. What runs against a prefix is in Registrar. [gate_accepts]: the commands that are
    let through; [record_roundtrip]; [refused_or_accounted]: what the installer may
    overwrite; [wrapped_fits]: the width of a folded paragraph. *)
From S2P Require Import Prelude Utf8 Text Paths Xml Install Signature RegQuery Proton.

Definition INSTALL_WIN_DIR : text := txt "C:\tobii-bridge".
Definition NP_KEY : text := txt "HKCU\Software\NaturalPoint\NATURALPOINT\NPClient Location".
Definition FT_KEY : text := txt "HKCU\Software\Freetrack\FreeTrackClient".
(** The name a key is recorded under, the key, its interface. *)
Definition KeyEntry : Type := text * text * text.
Definition KEYS : list KeyEntry := [(txt "ft", FT_KEY, txt "FreeTrack"); (txt "np", NP_KEY, txt "TrackIR")].
Definition RECORD_FILE : text := txt "registered.txt".
Definition OPENTRACK_DIRS : list text :=
  [txt "/usr/libexec/opentrack"; txt "/usr/lib/opentrack"; txt "/usr/lib64/opentrack"; txt "/usr/local/libexec/opentrack"; txt "/usr/local/lib/opentrack"].
Definition REQUIRED_ARTIFACT : text := txt "freetrackclient64.dll".
Definition ARTIFACTS : list (text * bool) := [(PROVIDER_EXE, false); (txt "freetrackclient64.dll", true); (txt "NPClient64.dll", false)].

(** ** Flags *)
(** [crate::flag_value]: the word after the first one that is the flag. *)
Fixpoint flag_value (args : list text) (name : text) : option text :=
  match args with
  | [] => None
  | a :: args => if text_eqb a name then head args else flag_value args name
  end.
Definition FLAGS : list (text * text) :=
  [(txt "steam", txt "--steam <app id or name>"); (txt "prefix", txt "--prefix PATH"); (txt "wine", txt "--wine PATH");
   (txt "artifacts", txt "--artifacts DIR"); (txt "npclient", txt "--npclient ours|DIR"); (txt "force", txt "--force"); (txt "port", txt "--port PORT")].
Definition takes_value (name : text) : bool := negb (text_eqb name (txt "force")).
Definition is_known (known : list text) (name : text) : bool := existsb (text_eqb name) known.
Definition usage_for (sub : text) (known : list text) : text :=
  txt "Usage: tobii bridge " ++ sub ++ 32 :: join [32] (snd <$> base.filter (fun f => is_known known (fst f) = true) FLAGS).
Definition stands_alone (a usage : text) : text :=
  96 :: a ++ txt "` stands on its own, and this command reads no positional arguments. A `--steam` title with spaces in it has to be quoted as one argument — `--steam 'Star Citizen'`, not `--steam Star Citizen`, which leaves `Citizen` standing here. A prefix is named with `--prefix PATH`. " ++ usage.
(** The loop over the arguments behind the subcommand. *)
Fixpoint reject_loop (usage : text) (known : list text) (args : list text) : or_text unit :=
  match args with
  | [] => Ok tt
  | a :: rest =>
      if text_eqb a [45] || negb (starts_with [45] a) then Err (stands_alone a usage)
      else match split_once (Z.eqb 61) a with
           | Some (name, _) => Err (96 :: a ++ txt "` is not a spelling this command reads — write `" ++ name ++ txt " VALUE`. " ++ usage)
           | None =>
               let name := trim_start_by (Z.eqb 45) a in
               if negb (is_known known name) then Err (txt "unknown option `" ++ a ++ txt "`. " ++ usage)
               else if takes_value name then
                 match rest with
                 | [] => Err (96 :: a ++ txt "` needs a value after it. " ++ usage)
                 | _ :: rest => reject_loop usage known rest
                 end
               else reject_loop usage known rest
           end
  end.
Definition reject_unknown_flags (args : list text) (sub : text) (known : list text) : or_text unit :=
  reject_loop (usage_for sub known) known (drop 3 args).
(** The subcommands and the flags each reads; what runs them is in Registrar. *)
Definition SUBS : list (text * list text) :=
  [(txt "games", []); (txt "install", [txt "steam"; txt "prefix"; txt "wine"; txt "artifacts"; txt "npclient"; txt "force"]);
   (txt "run", [txt "steam"; txt "prefix"; txt "wine"; txt "port"]); (txt "status", [txt "steam"; txt "prefix"; txt "wine"; txt "npclient"]);
   (txt "uninstall", [txt "steam"; txt "prefix"; txt "wine"])].
Definition bridge_usage (sub : option text) : text :=
  txt "usage: tobii bridge " ++ join (txt "|") (fst <$> SUBS) ++
  match sub with Some o => 10 :: txt "unknown argument `" ++ o ++ txt "`" | None => [] end.
(** Which subcommand is run, or the refusal; [bridge] without the handlers. *)
Definition dispatch (args : list text) : or_text text :=
  let sub := args !! 2%nat in
  match find (fun s => bool_decide (Some (fst s) = sub)) SUBS with
  | Some (name, known) => _ ← reject_unknown_flags args name known; Ok name
  | None => Err (bridge_usage sub)
  end.

(** ** Which client *)
Inductive NpSource := Ours | Installed (dir : text).
Definition wine_path_for (linux : text) : text := txt "Z:" ++ ((fun c => if c =? 47 then 92 else c) <$> linux).
Definition cannot_register (dir : text) : text :=
  dir ++ txt " cannot be registered: wine prints the registry in the console's own codepage rather than UTF-8, so a path with a character outside ASCII — or one carrying a line break, which wine prints raw and this installer then cannot read back whole — does not read back the way it was written, and a value this installer cannot read back is one it could never tell from another program's.
Move the client somewhere spelled in plain ASCII on one line, or pass `--npclient ours` to register our own DLL instead.".
Definition registrable_path (dir : text) : or_text text :=
  let win := wine_path_for dir in
  if negb (forallb is_ascii win) || existsb (fun c => (c =? 13) || (c =? 10)) win then Err (cannot_register dir) else Ok win.
Section Files.
Context (is_file : text -> bool).
Definition choose_npclient (explicit : option text) (installed : option text) : or_text NpSource :=
  match explicit with
  | None => Ok (match installed with Some dir => Installed dir | None => Ours end)
  | Some e =>
      if text_eqb e (txt "ours") then Ok Ours
      else if text_eqb e (txt "auto") then Ok (match installed with Some dir => Installed dir | None => Ours end)
      else if negb (is_file (path_join e (txt "NPClient64.dll"))) then Err (txt "no NPClient64.dll in " ++ e)
      else Ok (Installed e)
  end.
Definition find_installed_npclient : option text := find (fun d => is_file (path_join d (txt "NPClient64.dll"))) OPENTRACK_DIRS.
Definition np_target_for (args : list text) : or_text (NpSource * text) :=
  np_source ← choose_npclient (flag_value args (txt "--npclient")) find_installed_npclient;
  target ← match np_source with Ours => Ok INSTALL_WIN_DIR | Installed dir => registrable_path dir end;
  Ok (np_source, target).
End Files.
Definition want_for (key np_target : text) : text := if text_eqb key NP_KEY then np_target else INSTALL_WIN_DIR.

(** ** The record *)
Definition RECORD_HEADER : text :=
  txt "# What `tobii bridge install` last wrote into this prefix's FreeTrack
# and TrackIR discovery keys. `tobii bridge uninstall` removes those
# values only while the keys still say exactly this, and leaves
# anything else exactly as it is. Nothing here was read out of the
# registry: every line is a path this installer computed itself.
# Lines are `<key> wrote <path>`.
".
Definition record_line (e : text * text) : text := fst e ++ txt " wrote " ++ snd e ++ [10].
Definition render_record (entries : list (text * text)) : text := RECORD_HEADER ++ (entries ≫= record_line).
Fixpoint upsert (record : list (text * text)) (name value : text) : list (text * text) :=
  match record with
  | [] => [(name, value)]
  | (n, w) :: record => if text_eqb n name then (n, value) :: record else (n, w) :: upsert record name value
  end.
(** One line of the record: the name and what was written. *)
Definition record_entry (line : text) : option (text * text) :=
  let line := trim_end_by (Z.eqb 13) line in
  if starts_with (txt "#") line then None
  else
    '(name, r) ← split_once (Z.eqb 32) line;
    '(verb, wrote) ← split_once (Z.eqb 32) r;
    if text_eqb verb (txt "wrote") && negb (bool_decide (name = [])) && negb (bool_decide (wrote = [])) then Some (name, wrote) else None.
Definition parse_record (s : text) : list (text * text) :=
  foldl (fun out line => match record_entry line with Some (name, wrote) => upsert out name wrote | None => out end) [] (lines s).
Definition recorded (record : list (text * text)) (name : text) : option text :=
  snd <$> find (fun e => text_eqb (fst e) name) record.

(** ** What may be written, and what may be cleared *)
Definition is_ours (current : Reading) (wrote : option text) : bool :=
  match current with
  | Plain v => eq_ignore_ascii_case v INSTALL_WIN_DIR || match wrote with Some w => eq_ignore_ascii_case v w | None => false end
  | _ => false
  end.
Definition stops_install (current : Reading) (wrote : option text) (want : text) : bool :=
  if bool_decide (current = Absent) || is_ours current wrote then false
  else match wrote, current with
       | None, Plain v => negb (eq_ignore_ascii_case v want)
       | _, _ => true
       end.
Definition whose (recorded : bool) : text :=
  if recorded then txt "it no longer holds what this install wrote, so it is another program's now"
  else txt "nothing here records what this install wrote, so there is no telling whose it is".
Inductive Undo := Remove | UndoNothing | Leave (why : text).
Definition undo_for (current : Reading) (wrote : option text) : Undo :=
  if bool_decide (current = Absent) then UndoNothing
  else if is_ours current wrote then Remove
  else Leave (whose (bool_decide (is_Some wrote))).
Inductive KeyState := KeyOurs (v : text) | KeyTheirs (v why : text) | KeyAbsent | KeyUnreadable (why : text).
Definition key_state (current : Reading) (wrote : option text) : KeyState :=
  match current with
  | Absent => KeyAbsent
  | Other why => KeyUnreadable why
  | Plain v => if is_ours current wrote then KeyOurs v else KeyTheirs v (whose (bool_decide (is_Some wrote)))
  end.

(** ** Which wine *)
Inductive WineOrigin := FromPrefix | Unverified.
Definition mismatch (w e : text) : text :=
  txt "using " ++ w ++ txt " but this prefix's own runner is " ++ e ++ txt " — if the game sees no tracking, that mismatch is why (two wineservers, two namespaces)".
Definition fallback (w : text) : text :=
  txt "no runner found inside the prefix, falling back to the system
wine (" ++ w ++ txt "). A wine that is not the build a prefix was made with
runs `wineboot -u` against it before it does anything else and
upgrades it: the prefix's stamp taken over and its `system.reg`
rewritten. For a game's own prefix that is a rewrite out from
under the game, and nothing here puts it back. Pass --wine with
the runner the game uses.".
Definition choose_wine (explicit launch_script : option text) (runners : list text) (on_path : option text) : or_text (text * WineOrigin * option text) :=
  match explicit with
  | Some w =>
      let expected := match launch_script with Some e => Some e | None => head runners end in
      let '(origin, warning) :=
        match expected with
        | Some e => if bool_decide (components e = components w) then (FromPrefix, None) else (Unverified, Some (mismatch w e))
        | None => (Unverified, None)
        end in
      Ok (w, origin, warning)
  | None =>
      match launch_script, runners, on_path with
      | Some w, _, _ => Ok (w, FromPrefix, None)
      | None, w :: _, _ => Ok (w, FromPrefix, None)
      | None, [], Some w => Ok (w, Unverified, Some (fallback w))
      | None, [], None => Err (txt "no wine binary found; pass --wine PATH")
      end
  end.

Inductive PrefixSource := FromSteam (wanted : text) | Given | Environment | Default.
Definition quoted (s : text) : text := shell_word s.
Definition show_source (s : PrefixSource) : text :=
  match s with
  | FromSteam w => txt "Steam, from `--steam " ++ quoted w ++ txt "`"
  | Given => txt "given with --prefix"
  | Environment => txt "from $WINEPREFIX"
  | Default => txt "wine's default prefix — nothing named one, so this is ~/.wine"
  end.
(** The names under which [PATH_VALUE] and the like are looked up, and what can be read. *)
Section World.
Context (is_file is_dir : text -> bool) (read_to_string : text -> option text) (read_dir : text -> option (list text)).
Context (env : text -> option text) (current_exe : option text).
(** What [steam_prefix_for] answers, with its messages. *)
Context (steam_prefix_for : text -> text -> or_text text).

Definition first_file (l : list text) : option text := find is_file l.
Definition script_wine (line : text) : option text :=
  let line := trim line in
  if starts_with [35] line then None
  else
    rest ← strip_prefix (txt "export wine_path=") line;
    first_file [path_join (trim_by (Z.eqb 39) (trim_by (Z.eqb 34) (trim rest))) (txt "wine")].
Definition wine_from_launch_script (prefix : text) : option text :=
  s ← read_to_string (path_join prefix (txt "sc-launch.sh")); head (omap script_wine (lines s)).
Definition name_le (a b : text) : bool := match text_cmp a b with Gt => false | _ => true end.
Definition wines_from_runners (prefix : text) : list text :=
  let runners := path_join prefix (txt "runners") in
  match read_dir runners with
  | None => []
  | Some names =>
      base.filter (fun w => is_file w = true) ((fun n => path_join (path_join runners n) (txt "bin/wine")) <$> rev (sort_by name_le names))
  end.
Definition on_path (cmd : text) : option text :=
  paths ← env (txt "PATH"); first_file ((fun d => path_join d cmd) <$> split_char 58 paths).
Definition config_wine (line : text) : option text :=
  head (omap (fun marker =>
    '(root, _) ← split_once_str marker (trim line);
    first_file ((fun sub => path_join root sub) <$> [txt "files/bin/wine"; txt "dist/bin/wine"])) [txt "/files/"; txt "/dist/"]).
Definition wine_from_steam_config_info (prefix : text) : option text :=
  parent ← path_parent prefix; s ← read_to_string (path_join parent (txt "config_info")); head (omap config_wine (lines s)).
Definition resolve_wine_reporting (prefix : text) (args : list text) : or_text (text * WineOrigin * option text) :=
  choose_wine (flag_value args (txt "--wine"))
    (match wine_from_steam_config_info prefix with Some w => Some w | None => wine_from_launch_script prefix end)
    (wines_from_runners prefix) (on_path (txt "wine")).

Definition resolve_prefix (args : list text) : or_text (text * PrefixSource) :=
  match flag_value args (txt "--steam") with
  | Some wanted =>
      home ← ok_or (env (txt "HOME")) (txt "HOME is not set, so Steam's libraries cannot be found");
      p ← steam_prefix_for home wanted; Ok (p, FromSteam wanted)
  | None =>
      '(raw, source) ← ok_or
        (match flag_value args (txt "--prefix"), env (txt "WINEPREFIX"), env (txt "HOME") with
         | Some p, _, _ => Some (p, Given)
         | None, Some p, _ => Some (p, Environment)
         | None, None, Some h => Some (path_join h (txt ".wine"), Default)
         | None, None, None => None
         end) (txt "could not determine a Wine prefix; pass --prefix PATH or --steam <game>");
      if negb (is_dir (path_join raw (txt "drive_c"))) then Err (raw ++ txt " does not look like a Wine prefix (no drive_c)") else Ok (raw, source)
  end.
Definition artifact_dir (args : list text) : or_text text :=
  match flag_value args (txt "--artifacts") with
  | Some d => Ok d
  | None =>
      let rel := txt "bridge/target/x86_64-pc-windows-gnu/release" in
      let beside := match mbind path_parent current_exe with
                    | Some dir => path_join dir (txt "bridge") :: match mbind path_parent (path_parent dir) with Some up => [path_join up rel] | None => [] end
                    | None => []
                    end in
      ok_or (find (fun c => is_file (path_join c REQUIRED_ARTIFACT)) (rel :: beside ++ [txt "/usr/lib/tobii-linux/bridge"]))
        (txt "could not find the built bridge — run `scripts/build-bridge.sh`, or pass --artifacts DIR")
  end.
End World.
Definition steam_wine_refused (source : PrefixSource) (origin : WineOrigin) (wine_named forced : bool) : bool :=
  match source, origin with FromSteam _, Unverified => negb wine_named && negb forced | _, _ => false end.

(** ** Folding a paragraph *)
(** The loop over the words: the lines that are done, and the one that is being filled. *)
Definition wrap_word (indent : text) (width : Z) (state : list text * text) (word : text) : list text * text :=
  let '(out, line) := state in
  let '(out, line) := if negb (bool_decide (line = [])) && (width <? zlen indent + zlen line + 1 + zlen word) then (out ++ [line], []) else (out, line) in
  (out, (if bool_decide (line = []) then [] else line ++ [32]) ++ word).
Definition wrap_lines (indent : text) (width : Z) (words : list text) : list text * text := foldl (wrap_word indent width) ([], []) words.
Definition wrapped (s indent : text) (width : Z) : text :=
  let '(out, line) := wrap_lines indent width (split_whitespace s) in (out ≫= fun l => indent ++ l ++ [10]) ++ indent ++ line.

(** ** The gate *)
(** A word that is let through as the flag [name]: dashes, any number of them, and a name
    the subcommand reads, with no equals sign. *)
Definition spells (known : list text) (a name : text) : Prop :=
  a <> [45] /\ (exists n, a = replicate (S n) 45 ++ name) /\ front_ok (Z.eqb 45) name /\ Forall (fun c => (61 =? c) = false) a /\ name ∈ known.
Inductive accepted (known : list text) : list text -> Prop :=
  | no_flags : accepted known []
  | a_switch a args : spells known a (txt "force") -> accepted known args -> accepted known (a :: args)
  | a_flag a name value args : spells known a name -> name <> txt "force" -> accepted known args -> accepted known (a :: value :: args).
Lemma is_known_spec known name : is_known known name = true <-> name ∈ known.
Proof.
  unfold is_known, text_eqb. rewrite existsb_exists. setoid_rewrite <- list_elem_of_In. split.
  - by intros (x & Hx & ->%bool_decide_eq_true).
  - intros H. exists name. split; [done|by apply bool_decide_eq_true].
Qed.
Lemma takes_value_spec name : takes_value name = false <-> name = txt "force".
Proof. unfold takes_value, text_eqb. by rewrite negb_false_iff, bool_decide_eq_true. Qed.
Lemma dashes a : starts_with [45] a = true -> exists n, a = replicate (S n) 45 ++ trim_start_by (Z.eqb 45) a.
Proof.
  intros (r & ->)%starts_with_iff. destruct (trim_start_suffix (Z.eqb 45) ([45] ++ r)) as (w & E & Hw).
  assert (Hr : w = replicate (length w) 45).
  { clear E. induction Hw as [|c w Hc _ IH]; [done|]. apply Z.eqb_eq in Hc as <-. cbn. by rewrite <- IH. }
  destruct w as [|c w].
  - cbn [app] in E. pose proof (trim_start_front (Z.eqb 45) (45 :: r)) as Hf. by rewrite <- E in Hf.
  - exists (length w). rewrite E at 1. by rewrite Hr at 1.
Qed.
(** What one word is: a flag that is known, or a reason to stop. *)
Lemma spells_spec known a name : spells known a name <->
  text_eqb a [45] || negb (starts_with [45] a) = false /\ split_once (Z.eqb 61) a = None /\
  trim_start_by (Z.eqb 45) a = name /\ is_known known name = true.
Proof.
  unfold spells. rewrite is_known_spec, orb_false_iff, negb_false_iff. unfold text_eqb at 1. rewrite bool_decide_eq_false. split.
  - intros (Hn & [n E] & Hf & He & Hk). split_and!; [done| |by apply split_once_none| |done].
    + apply starts_with_iff. rewrite E. cbn [replicate app]. by eexists.
    + rewrite E, trim_start_all, trim_start_id; [done|done|]. apply Forall_replicate. done.
  - intros ((Hn & Hs) & He & Ht & Hk). split_and!; [done|by rewrite <- Ht; apply dashes|rewrite <- Ht; apply trim_start_front| |done].
    clear -He. induction a as [|c a IH]; [constructor|]. cbn [split_once] in He. destruct (61 =? c) eqn:E; [done|].
    constructor; [done|]. apply IH. by destruct (split_once _ a) as [[? ?]|].
Qed.
(** A command is let through exactly when what follows the subcommand is a sequence of
    flags it reads, each but [--force] with the word after it for its value. *)
Theorem gate_accepts (args : list text) (sub : text) (known : list text) :
  reject_unknown_flags args sub known = Ok tt <-> accepted known (drop 3 args).
Proof.
  unfold reject_unknown_flags. generalize (usage_for sub known). intros usage. generalize (drop 3 args). clear args. intros args. split.
  - remember (length args) as n eqn:Hl. assert (Hn : (length args <= n)%nat) by lia. clear Hl. revert args Hn.
    induction n as [|n IH]; intros [|a args] Hn; [constructor|cbn in Hn; lia|constructor|]. cbn [reject_loop].
    destruct (text_eqb a [45] || negb (starts_with [45] a)) eqn:E1; [done|].
    destruct (split_once (Z.eqb 61) a) as [[? ?]|] eqn:E2; [done|].
    destruct (is_known known (trim_start_by (Z.eqb 45) a)) eqn:E3; [|done]. cbn [negb].
    assert (Hs : spells known a (trim_start_by (Z.eqb 45) a)) by (by apply spells_spec).
    destruct (takes_value (trim_start_by (Z.eqb 45) a)) eqn:E4.
    + destruct args as [|value args]; [done|]. intros H%IH; [|cbn in Hn; lia].
      eapply a_flag; [done| |done]. intros E. by apply takes_value_spec in E; rewrite E in E4.
    + intros H%IH; [|cbn in Hn; lia]. apply takes_value_spec in E4. rewrite E4 in Hs. by constructor.
  - induction 1 as [|a args Hs _ IH|a name value args Hs Hn _ IH]; [done|..]; cbn [reject_loop];
      apply spells_spec in Hs as (-> & -> & -> & ->); cbn [negb].
    + done.
    + destruct (takes_value name) eqn:E; [done|]. by apply takes_value_spec in E.
Qed.
(** The gate counts dashes differently from the readers: a flag with one dash is let through
    and then read by nothing, and the command goes on with the default prefix. *)
Definition home_env (name : text) : option text := if text_eqb name (txt "HOME") then Some (txt "/home/u") else None.
Example a_single_dash_is_accepted :
  dispatch [txt "tobii"; txt "bridge"; txt "uninstall"; txt "-prefix"; txt "/games/pfx"] = Ok (txt "uninstall") /\
  resolve_prefix (fun _ => true) home_env (fun _ _ => Err []) [txt "tobii"; txt "bridge"; txt "uninstall"; txt "-prefix"; txt "/games/pfx"] =
  Ok (txt "/home/u/.wine", Default).
Proof. vm_compute. done. Qed.
Example positionals_are_refused : is_ok (dispatch [txt "tobii"; txt "bridge"; txt "install"; txt "/games/pfx"]) = false /\
  is_ok (dispatch [txt "tobii"; txt "bridge"; txt "install"; txt "--prefix=/games/pfx"]) = false /\ is_ok (dispatch [txt "tobii"; txt "bridge"; txt "install"; txt "--prefix"]) = false.
Proof. vm_compute. done. Qed.

(** ** The record reads back *)
Record entry_ok (e : text * text) : Prop := {
  name_ok : e.1 <> [] /\ Forall (fun c => (32 =? c) = false) e.1 /\ one_line e.1 /\ head e.1 <> Some 35;
  wrote_ok : e.2 <> [] /\ one_line e.2 /\ back_ok (Z.eqb 13) e.2 }.
Lemma upsert_new record name value : name ∉ record.*1 -> upsert record name value = record ++ [(name, value)].
Proof.
  induction record as [|[n w] record IH]; [done|]. cbn. intros [Hn Hr]%not_elem_of_cons. unfold text_eqb.
  rewrite bool_decide_eq_false_2 by congruence. by rewrite IH.
Qed.
Lemma entry_line e : entry_ok e -> let l := e.1 ++ txt " wrote " ++ e.2 in
  one_line l /\ back_ok (Z.eqb 13) l /\ record_entry l = Some e.
Proof.
  destruct e as [name wrote]. intros [(Hn & Hs & Ho & Hh) (Hw & Hwo & Hwb)]. cbn [fst snd] in *.
  assert (E : txt " wrote " = 32 :: txt "wrote" ++ [32]) by (vm_compute; reflexivity).
  assert (Hb : back_ok (Z.eqb 13) (name ++ txt " wrote " ++ wrote)).
  { rewrite app_assoc. by apply back_ok_app. }
  split_and!; [apply one_line_app; split; [done|]; apply one_line_app; split; [by apply one_line_dec|done]|done|].
  unfold record_entry. rewrite trim_end_id by done.
  assert (Hc : starts_with (txt "#") (name ++ txt " wrote " ++ wrote) = false).
  { apply not_true_iff_false. intros (r & Er)%starts_with_iff. change (txt "#") with [35] in Er. destruct name as [|c name]; [done|].
    injection Er as -> _. by destruct Hh. }
  rewrite Hc, E, <- app_comm_cons, split_once_app by done. cbn [mbind option_bind]. rewrite <- app_assoc. cbn [app].
  rewrite split_once_app by (done || by vm_compute; repeat constructor). cbn [mbind option_bind]. rewrite text_eqb_refl.
  by rewrite !bool_decide_eq_false_2.
Qed.
Lemma record_lines entries : Forall entry_ok entries ->
  lines (RECORD_HEADER ++ (entries ≫= record_line)) = lines RECORD_HEADER ++ ((fun e => e.1 ++ txt " wrote " ++ e.2) <$> entries).
Proof.
  intros He. assert (Hh : RECORD_HEADER = lines RECORD_HEADER ≫= newline) by (vm_compute; reflexivity).
  assert (E : (entries ≫= record_line) = ((fun e => e.1 ++ txt " wrote " ++ e.2) <$> entries) ≫= newline).
  { clear. induction entries as [|e es IH]; [done|]. cbn [fmap list_fmap mbind list_bind]. rewrite <- IH.
    unfold record_line, newline. by rewrite <- !app_assoc. }
  rewrite E. rewrite Hh at 1. rewrite <- bind_app, lines_newlines; [done|..]; apply Forall_app; split.
  - apply List.Forall_forall. intros l Hl. vm_compute in Hl. destruct_or?; subst; by apply one_line_dec.
  - apply Forall_fmap. eapply Forall_impl; [exact He|]. intros e H. by apply entry_line.
  - apply List.Forall_forall. intros l Hl. vm_compute in Hl. by destruct_or?; subst.
  - apply Forall_fmap. eapply Forall_impl; [exact He|]. intros e H. by apply entry_line.
Qed.
(** The record is read back as it was written. *)
Theorem record_roundtrip (entries : list (text * text)) : Forall entry_ok entries -> NoDup entries.*1 ->
  parse_record (render_record entries) = entries.
Proof.
  intros He Hd. unfold parse_record, render_record. rewrite record_lines, foldl_app by done.
  change (foldl _ [] (lines RECORD_HEADER)) with (@nil (text * text)).
  assert (H : forall acc, NoDup (acc ++ entries).*1 -> foldl (fun out line => match record_entry line with Some (name, wrote) => upsert out name wrote | None => out end) acc
    ((fun e => e.1 ++ txt " wrote " ++ e.2) <$> entries) = acc ++ entries); [|by apply H].
  clear Hd. induction He as [|e es He _ IH]; intros acc Hd; cbn [fmap list_fmap foldl]; [by rewrite app_nil_r|].
  destruct (entry_line e He) as (_ & _ & ->). destruct e as [name wrote]. rewrite fmap_app in Hd. cbn [fmap list_fmap fst] in Hd.
  rewrite upsert_new.
  - rewrite IH; [by rewrite <- app_assoc|]. rewrite <- app_assoc, fmap_app. exact Hd.
  - apply NoDup_app in Hd as (_ & Hd & _). intros Hi. apply (Hd _ Hi). apply list_elem_of_here.
Qed.
Lemma record_roundtrip_witness :
  parse_record (render_record [(txt "ft", INSTALL_WIN_DIR); (txt "np", txt "Z:\usr\libexec\open track")]) = [(txt "ft", INSTALL_WIN_DIR); (txt "np", txt "Z:\usr\libexec\open track")].
Proof.
  apply record_roundtrip.
  - repeat apply Forall_cons_2; [..|constructor]; split; cbn [fst snd]; split_and!; try (vm_compute; discriminate); try (by apply one_line_dec);
      try (vm_compute; reflexivity); apply List.Forall_forall; intros c Hc; vm_compute in Hc; by destruct_or?; subst.
  - vm_compute. apply NoDup_cons. split; [intros [E|[]%elem_of_nil]%elem_of_cons; discriminate E|apply NoDup_singleton].
Defined.

(** ** Decisions *)
(** Two spellings of one path, as the registry compares them. *)
Definition same (a b : text) : Prop := to_ascii_lowercase <$> a = to_ascii_lowercase <$> b.
Lemma same_spec a b : eq_ignore_ascii_case a b = true <-> same a b.
Proof. unfold eq_ignore_ascii_case, same. apply bool_decide_eq_true. Qed.
(** A value this program accounts for: its own directory, or what it wrote down. *)
Definition ours (wrote : option text) (v : text) : Prop := same v INSTALL_WIN_DIR \/ exists w, wrote = Some w /\ same v w.
Lemma is_ours_spec current wrote : is_ours current wrote = true <-> exists v, current = Plain v /\ ours wrote v.
Proof.
  unfold is_ours, ours. destruct current as [|v|why]; [split; [done|by intros (? & ? & _)]| |split; [done|by intros (? & ? & _)]].
  rewrite orb_true_iff, same_spec. split.
  - intros [H|H]; exists v; (split; [done|]); [by left|]. destruct wrote as [w|]; [|done]. apply same_spec in H. right. eauto.
  - intros (? & [= <-] & [H|(w & -> & H)]); [by left|right; by apply same_spec].
Qed.
(** A key may be written exactly when it is empty, holds what this program accounts for, or -
    where nothing at all was written down - holds already what would be written. A key that
    may be cleared may be written; one that is left alone holds something, and something
    that nothing here accounts for; and the report and the commands go by the same rule. *)
Theorem refused_or_accounted (current : Reading) (wrote : option text) (want : text) :
  (stops_install current wrote want = false <->
     current = Absent \/ exists v, current = Plain v /\ (ours wrote v \/ wrote = None /\ same v want)) /\
  (undo_for current wrote = Remove <-> exists v, current = Plain v /\ ours wrote v) /\
  (undo_for current wrote = UndoNothing <-> current = Absent) /\
  (undo_for current wrote = Remove <-> exists v, key_state current wrote = KeyOurs v).
Proof.
  assert (Hr : undo_for current wrote = Remove <-> is_ours current wrote = true).
  { unfold undo_for. destruct current; [by split|..]; rewrite bool_decide_eq_false_2 by done; by destruct (is_ours _ _). }
  split_and!.
  - unfold stops_install. case_bool_decide as Ha; [subst; cbn; split; [by left|done]|]. cbn [orb].
    destruct (is_ours current wrote) eqn:Eo.
    + split; [|done]. intros _. right. apply is_ours_spec in Eo as (v & ? & ?). eauto.
    + assert (Hno : forall v, current = Plain v -> ~ ours wrote v).
      { intros v Hv Ho. assert (is_ours current wrote = true) by (apply is_ours_spec; eauto). congruence. }
      destruct wrote as [w|]; [split; [done|intros [?|(v & Hv & [Ho|[? _]])]; [done|by destruct (Hno v)|done]]|].
      destruct current as [|v|why]; [done| |by split; [|intros [?|(? & ? & _)]]]. rewrite negb_false_iff, same_spec. split.
      * intros H. right. exists v. split; [done|]. by right.
      * intros [?|(v' & [= <-] & [Ho|[_ H]])]; [done|by destruct (Hno v eq_refl)|done].
  - rewrite Hr. apply is_ours_spec.
  - unfold undo_for. case_bool_decide; [by split|]. split; [|done]. by destruct (is_ours _ _).
  - rewrite Hr. unfold key_state. destruct current as [|v|why]; [by split; [|intros []]| |by split; [|intros []]].
    destruct (is_ours (Plain v) wrote); split; try done; [eauto|intros []; done].
Qed.

(** A path that is registered is read back as itself: a value of ours is always one this
    installer can recognise. *)
Lemma ascii_text s : forallb is_ascii s = true -> u8 <$> utf8_encode s = s /\ ascii (utf8_encode s).
Proof.
  intros H. destruct (encode_ascii s) as (_ & ? & ?); [|done]. rewrite forallb_forall in H. apply List.Forall_forall.
  intros c Hc. apply H in Hc. unfold is_ascii, between in Hc. lia.
Qed.
Theorem registered_is_read_back (header : list bytes) (dir win : text) : header_ok header -> registrable_path dir = Ok win ->
  reg_query_path (printed header (txt "REG_SZ") (utf8_encode win)) = Plain win.
Proof.
  intros Hh. unfold registrable_path. destruct (negb _ || _) eqn:E; [done|]. intros [= <-].
  apply orb_false_iff in E as [Ha%negb_false_iff Hb]. set (win := wine_path_for dir) in *. rewrite printed_read by (done || apply type_sz).
  destruct (ascii_text win Ha) as [Ew Aw]. unfold reading_of. rewrite Ew.
  assert (Hn : existsb (fun b => u8 b =? 10) (utf8_encode win) = false).
  { apply not_true_iff_false. intros (b & Hi & E10)%existsb_exists. apply Z.eqb_eq in E10.
    assert (Hin : In 10 win) by (rewrite <- Ew; apply in_map_iff; by exists b).
    assert (existsb (fun c => (c =? 13) || (c =? 10)) win = true) by (apply existsb_exists; by exists 10). congruence. }
  rewrite Hn. apply ascii_dec in Aw. rewrite Aw, text_eqb_refl. cbn [negb].
  change win with (90 :: 58 :: ((fun c => if c =? 47 then 92 else c) <$> dir)). reflexivity.
Qed.
Lemma registered_is_read_back_witness : reg_query_path (printed key_header (txt "REG_SZ") (utf8_encode (txt "Z:\opt\open track "))) = Plain (txt "Z:\opt\open track ").
Proof.
  apply (registered_is_read_back key_header (txt "/opt/open track ")); [|vm_compute; reflexivity].
  apply List.Forall_forall. intros l Hl. cbn [key_header In] in Hl. split; [|by destruct_or?; subst; vm_compute].
  apply List.Forall_forall. intros b Hb. destruct_or?; subst; [by destruct Hb as [<-|[]]|]. vm_compute in Hb. by destruct_or?; subst.
Defined.

(** Which wine is called the prefix's own. *)
Lemma own_wine_is_recorded explicit script runners path w warning :
  choose_wine explicit script runners path = Ok (w, FromPrefix, warning) ->
  warning = None /\ exists e, match script with Some e => Some e | None => head runners end = Some e /\ components e = components w.
Proof.
  unfold choose_wine. destruct explicit as [x|].
  - destruct (match script with Some _ => _ | None => _ end) as [e|]; [|done]. case_bool_decide as H; [|done]. intros [= <- <-]. eauto.
  - destruct script as [s|]; [intros [= <- <-]; eauto|]. destruct runners as [|r rs]; [by destruct path|]. intros [= <- <-]. eauto.
Qed.
(** For a title named through Steam, a wine the prefix does not record is run only when it
    was asked for. *)
Lemma steam_wine_asked_for source origin named forced : steam_wine_refused source origin named forced = false ->
  forall t, source = FromSteam t -> origin = FromPrefix \/ named = true \/ forced = true.
Proof. unfold steam_wine_refused. intros H t ->. destruct origin, named, forced; auto. Qed.

(** ** Folding *)
(** A line of a folded paragraph: its words with a blank between them; no wider than asked
    for, unless a single word is. *)
Definition line_of (words : list text) : text := join [32] words.
Definition fits (indent : text) (width : Z) (ws : list text) : Prop :=
  ws <> [] /\ (zlen indent + zlen (line_of ws) <= width \/ exists w, ws = [w]).
Lemma join_snoc sep l w : l <> [] -> join sep (l ++ [w]) = join sep l ++ sep ++ w.
Proof.
  induction l as [|x l IH]; [done|]. intros _. destruct l as [|y l]; [done|].
  change (join sep ((x :: y :: l) ++ [w])) with (x ++ sep ++ join sep ((y :: l) ++ [w])). rewrite IH by done.
  change (join sep (x :: y :: l)) with (x ++ sep ++ join sep (y :: l)). by rewrite <- !app_assoc.
Qed.
Lemma line_of_nonempty ws : ws <> [] -> Forall (fun w => w <> []) ws -> line_of ws <> [].
Proof. destruct ws as [|w [|v ws]]; [done|by intros _ [? _]%Forall_cons|]. intros _ [Hw _]%Forall_cons. cbn. by destruct w. Qed.
Lemma wrap_lines_spec indent width words : Forall (fun w => w <> []) words ->
  exists groups current, wrap_lines indent width words = (line_of <$> groups, line_of current) /\
    concat groups ++ current = words /\ Forall (fits indent width) groups /\ (words = [] /\ current = [] \/ fits indent width current).
Proof.
  unfold wrap_lines. induction words as [|w words IH] using rev_ind; intros Hne.
  - exists [], []. split_and!; [done|done|constructor|by left].
  - apply Forall_app in Hne as [Hne [Hw _]%Forall_cons]. destruct (IH Hne) as (groups & current & E & Ew & Hg & Hc).
    rewrite foldl_snoc, E. unfold wrap_word. destruct (decide (current = [])) as [->|Hcn].
    { exists groups, [w]. cbn [line_of join negb]. rewrite !bool_decide_eq_true_2 by done. cbn [negb andb app]. split_and!; [done|by rewrite <- Ew, app_nil_r|done|].
      right. split; [done|]. right. by exists w. }
    assert (Hl : line_of current <> []).
    { apply line_of_nonempty; [done|]. subst words. by apply Forall_app in Hne as [_ ?]. }
    rewrite bool_decide_eq_false_2 by done. cbn [negb andb]. destruct (Z.ltb_spec width (zlen indent + zlen (line_of current) + 1 + zlen w)) as [Hlt|Hle].
    + exists (groups ++ [current]), [w]. rewrite fmap_app. rewrite bool_decide_eq_true_2 by done. split_and!; [done| | |right; split; [done|right; by exists w]].
      * rewrite <- Ew, concat_app. cbn. by rewrite app_nil_r, <- app_assoc.
      * apply Forall_app. split; [done|]. constructor; [|constructor]. by destruct Hc as [[_ ?]|].
    + exists groups, (current ++ [w]). rewrite bool_decide_eq_false_2 by done.
      assert (Ej : line_of (current ++ [w]) = line_of current ++ [32] ++ w) by (unfold line_of; by rewrite join_snoc). rewrite Ej.
      split_and!; [by rewrite <- app_assoc|by rewrite <- Ew, app_assoc|done|]. right. split; [by destruct current|]. left.
      rewrite Ej, !zlen_app. change (zlen [32]) with 1. lia.
Qed.
Lemma join_lines (indent : text) (gs : list (list text)) (g : list text) :
  ((line_of <$> gs) ≫= fun l => indent ++ l ++ [10]) ++ indent ++ line_of g = join [10] ((fun g => indent ++ line_of g) <$> (gs ++ [g])).
Proof.
  induction gs as [|x gs IH]; [done|].
  assert (E : ((line_of <$> x :: gs) ≫= fun l => indent ++ l ++ [10]) = (indent ++ line_of x ++ [10]) ++ ((line_of <$> gs) ≫= fun l => indent ++ l ++ [10])) by reflexivity.
  rewrite E, <- app_assoc, IH. change ((fun g => indent ++ line_of g) <$> (x :: gs) ++ [g]) with ((indent ++ line_of x) :: ((fun g => indent ++ line_of g) <$> (gs ++ [g]))).
  destruct ((fun g => indent ++ line_of g) <$> (gs ++ [g])) as [|y ys] eqn:Eg; [by destruct gs|].
  change (join [10] ((indent ++ line_of x) :: y :: ys)) with ((indent ++ line_of x) ++ [10] ++ join [10] (y :: ys)). by rewrite <- !app_assoc.
Qed.
(** A folded paragraph is its words, in order, each line behind the indent and none wider
    than asked for unless it is one word. *)
Theorem wrapped_fits (s indent : text) (width : Z) : exists groups : list (list text),
  concat groups = split_whitespace s /\ wrapped s indent width = join [10] ((fun g => indent ++ line_of g) <$> groups) /\
  (split_whitespace s <> [] -> Forall (fits indent width) groups).
Proof.
  unfold wrapped. assert (Hne : Forall (fun w => w <> []) (split_whitespace s)).
  { apply Forall_forall. intros w Hw. by apply list_elem_of_filter in Hw as [? _]. }
  destruct (wrap_lines_spec indent width _ Hne) as (groups & current & E & Ew & Hg & Hc). rewrite E. exists (groups ++ [current]).
  split_and!.
  - rewrite concat_app. cbn. by rewrite app_nil_r.
  - apply join_lines.
  - intros Hs. apply Forall_app. split; [done|]. constructor; [|constructor]. by destruct Hc as [[? _]|].
Qed.
Example folded : wrapped (txt "our own DLL — which cannot answer") (txt "  ") 14 = txt "  our own DLL
  — which
  cannot
  answer".
Proof. vm_compute. reflexivity. Qed.
