(* ===== verification/BridgeText.v ===== *)
(** * BridgeText: what the bridge's commands say (crates/tobii-cli/src/bridge.rs)

    The refusals and reports of install and uninstall, word for word. *)
From S2P Require Import Prelude Utf8 Text Bytelines Wineserver Signature Bridge.

Definition pad_right (n : nat) (s : text) : text := s ++ replicate (n - length s) 32.
Definition WRONG_WINE_HINT : text := txt "For a Steam title the wine must be the Proton build the prefix records; pass --wine explicitly if this one is wrong for it.".

(** ** Installing *)
Definition ours_for_trackir (explicit : bool) (installed : option text) : text :=
  let opening :=
    match explicit, installed with
    | true, Some dir => txt "--npclient ours registers our own DLL for TrackIR, and there is a
      third-party one installed in " ++ dir ++ txt "
      — which is the one that can answer the check."
    | true, None => txt "--npclient ours registers our own DLL for TrackIR. No third-party
      client was found here either, so it was the only one available."
    | false, _ => txt "no third-party NPClient64.dll was found, so our own is registered
      for TrackIR."
    end in
  let body := join [32] [build_gate; build_provider_note; txt "`--npclient auto` is what registers an installed client instead of ours."] in
  txt "note: " ++ opening ++ 10 :: wrapped body (txt "      ") 78.
Definition registered_text (np : NpSource) (np_target : text) (explicit_ours : bool) (installed : option text) : text :=
  match np with
  | Ours => txt "registered " ++ INSTALL_WIN_DIR ++ txt " for TrackIR and FreeTrack

" ++ ours_for_trackir explicit_ours installed
  | Installed _ => txt "registered " ++ INSTALL_WIN_DIR ++ txt " for FreeTrack
registered " ++ np_target ++ txt " for TrackIR

TrackIR points at the client already installed there, because games
verify NaturalPoint's signature and a clean-room DLL cannot answer it.
Nothing was copied."
  end.
Record Taken := { taken_abi : text; taken_key : text; what : text; want : text; has_record : bool }.
Definition taken_line (t : Taken) : text :=
  txt "  " ++ pad_right 9 (taken_abi t) ++ txt " " ++ taken_key t ++ txt "
            " ++ what t ++ txt "
            " ++ whose (has_record t) ++ txt "
".
Definition clear_line (prefix wine : text) (t : Taken) : text :=
  txt "  WINEPREFIX=" ++ quoted prefix ++ txt " " ++ quoted wine ++ txt " reg delete '" ++ taken_key t ++ txt "' /v Path /f
".
Definition refusal (prefix wine : text) (origin : WineOrigin) (taken : list Taken) : text :=
  txt "these head-tracking discovery keys hold something this install did not write:
" ++ (taken ≫= taken_line) ++
  txt "Overwriting that would break whatever is using it, and for a game that
checks NaturalPoint's signature the client registered there may be the one
that WORKS — ours is the one it rejects.
Pass --force to register ours anyway. --force promises nothing about putting
that back: this installer writes down only the values it wrote itself, so
what is there now is gone for good.
If it is stale, clear it yourself:
" ++ (taken ≫= clear_line prefix wine) ++
  match origin with
  | FromPrefix => txt "That wine is the one this prefix itself records, and it is the one to use:
a different build runs `wineboot -u` against a prefix it does not own and
upgrades it out from under the game."
  | Unverified => txt "Check that wine before you paste it. It is the one this run used, not one
this prefix records — nothing here established that it is the build this
prefix belongs to, and a different build runs `wineboot -u` against a
prefix it does not own and upgrades it out from under the game. For a
Steam title the right one is the Proton build the prefix records."
  end.
Definition consumer : text := txt "That client is a plain consumer of the shared memory our own DLLs create,
and a TrackIR-only game never loads ours — so something inside the game's
own wineserver session has to fill it.

".
Definition third_party_needs (proton : bool) (prefix : text) : text :=
  if proton then consumer ++ txt "For a Steam title under Proton, `tobii bridge run` cannot be that. Started
from a terminal it is a different wineserver session: its FT_SharedMem is a
different object and the game never sees it.

What can be, is the launch itself. Put this in the game's Steam launch
options:
  tobii game -- %command%
Our provider is then started by Proton's own invocation, with the game
after it, so both are in the one wineserver session and it fills the
mapping that client reads. It stops when the game does.

What nobody here has watched is a signature-gated title then USING the
data: a client answering the check and a filled mapping are two
conditions, and this project has measured them separately.
FreeTrack games need nothing running."
  else consumer ++ txt "On this prefix a separate provider can be that, because it is not Proton's:
  tobii bridge run --prefix " ++ quoted prefix ++ txt "
It has to be the same wine build that runs the game, or it is a second
wineserver and the game sees nothing — the warning above says so if they
differ.

Start the game FIRST and that command second. While it runs it is a
wineserver on this prefix, and Steam waits for every wineserver on a
prefix to exit before it spawns the game — so a bridge started first
leaves the launch sitting there. The command says this before it starts,
and stops itself if a launch starts waiting behind it.
FreeTrack games need nothing running.".
Definition replaced_line (t : Taken) : text :=
  if eq_ignore_ascii_case (what t) (want t) then [] else txt "replaced what " ++ taken_abi t ++ txt " had registered: " ++ what t ++ txt " — nothing puts that back
".
Definition replaced (taken : list Taken) : text := taken ≫= replaced_line.
(** [refuse_unverified_wine_for_steam] *)
Definition unverified_refusal (title wine : text) : text :=
  txt "this is a Proton prefix — Steam found it for `--steam " ++ quoted title ++ txt "` — but which Proton build made it could not be read out of it, so the only wine left is " ++ wine ++ txt ".
Refusing to run that one. A wine that is not the build a prefix was made with runs `wineboot -u` against it before it does anything else and upgrades it: the prefix's stamp taken over and its `system.reg` rewritten, out from under the game that owns it. Nothing here puts that back, and the two registry values this command came to write are not worth it.
Name the build the game uses:
  tobii bridge install --steam " ++ quoted title ++ txt " --wine <Proton>/files/bin/wine
`tobii bridge status --steam " ++ quoted title ++ txt "` runs nothing and names the prefix; the Proton build is the one Steam lists under the title's compatibility setting, under `steamapps/common`.
Or pass --force to go ahead with " ++ wine ++ txt " anyway, knowing it will upgrade the prefix first.".
Definition refuse_unverified_wine_for_steam (source : PrefixSource) (origin : WineOrigin) (wine : text) (args : list text) : option text :=
  match source with
  | FromSteam title =>
      if steam_wine_refused source origin (bool_decide (is_Some (flag_value args (txt "--wine")))) (existsb (fun a => text_eqb a (txt "--force")) args)
      then Some (unverified_refusal title wine) else None
  | _ => None
  end.
(** ** What wine said *)
(** Both streams of a command that failed, a line at a time, without the empty ones. *)
Definition wine_said (out err : bytes) : text :=
  [out; err] ≫= fun stream => lines (lossy_text stream) ≫= fun line =>
    let line := trim_end line in if bool_decide (trim line = []) then [] else txt "  " ++ line ++ txt "
".
(** ** Uninstalling *)
Inductive Outcome := Removed | Failed | OutNothing | Left (why : text).
#[export] Instance outcome_eq_dec : EqDecision Outcome. Proof. solve_decision. Defined.
Definition KeyOutcome : Type := text * text * Outcome.
Definition removed_of (o : KeyOutcome) : option text := let '(abi, _, o) := o in if bool_decide (o = Removed) then Some abi else None.
Definition nothing_of (o : KeyOutcome) : option text := let '(abi, _, o) := o in if bool_decide (o = OutNothing) then Some abi else None.
Definition left_of (o : KeyOutcome) : option (text * text) := let '(_, key, o) := o in match o with Left why => Some (key, why) | _ => None end.
Definition failed_line (o : KeyOutcome) : text :=
  let '(abi, _, o) := o in if bool_decide (o = Failed) then txt "could not unregister the " ++ abi ++ txt " client path
" else [].
Definition report (outcomes : list KeyOutcome) : text :=
  let removed := omap removed_of outcomes in
  let nothing := omap nothing_of outcomes in
  let left := omap left_of outcomes in
  (outcomes ≫= failed_line) ++
  (if (length removed =? length KEYS)%nat then txt "unregistered TrackIR and FreeTrack client paths
"
   else removed ≫= fun abi => txt "unregistered the " ++ abi ++ txt " client path
") ++
  (if (length nothing =? length KEYS)%nat then txt "no head-tracking client was registered in this prefix
"
   else nothing ≫= fun abi => txt "nothing was registered for " ++ abi ++ txt "
") ++
  match left with
  | [] => []
  | _ => txt "
these keys hold something this install did not write, so they were left
exactly as they are:
" ++ (left ≫= fun e : text * text => txt "  " ++ fst e ++ txt "
    " ++ snd e ++ txt "
")
  end.
