(* ===== verification/Registrar.v ===== *)
(** * Registrar: the bridge put into a prefix and taken out (crates/tobii-cli/src/bridge.rs)

    A prefix is what its two discovery keys hold and the files of the bridge's folder. A
    command is a program over it whose every call may fail; a command that is killed leaves
    the prefix as one whose calls all fail from there on, since nothing is changed but by a
    call. What a key holds is given as the reading of it (RegQuery), and
    nothing else writes the keys while a command runs. Reading a key is up to two runs of wine,
    each of which may fail on its own ([read_key], [probed]). Registered states what the commands promise. *)
From stdpp Require Import gmap strings.
From S2P Require Import Prelude Utf8 Text Bytelines Paths Xml Userreg Wineserver RegQuery Proton Bridge BridgeText.

(** How a call ends: a started program that exits well or not, with what it printed; a file
    call that is done or not; or an error of the system. *)
Inductive Answer := Fine | Refused (said : text) | Unstarted (e : text).
Definition Files : Type := gmap text bytes.
Record World := { registry : gmap text Reading; folder : option Files; calls : nat;
                  said : list text; landed : list (text * text); blind : list text }.
Definition holds (w : World) (key : text) : Reading := default Absent (registry w !! key).
Definition PROBE_KEY : text := txt "HKCU\Software".
Definition Io : Type -> Type := M World text.

Section Calls.
Context (os : nat -> Answer).
Definition gets {A} (f : World -> A) : Io A := fun w => (Ok (f w), w).
Definition ask : Io Answer := fun w =>
  (Ok (os (calls w)), {| registry := registry w; folder := folder w; calls := S (calls w); said := said w; landed := landed w; blind := blind w |}).
Definition say (s : text) : Io unit := fun w =>
  (Ok tt, {| registry := registry w; folder := folder w; calls := calls w; said := said w ++ [s]; landed := landed w; blind := blind w |}).
Definition set_folder (d : option Files) : Io unit := fun w =>
  (Ok tt, {| registry := registry w; folder := d; calls := calls w; said := said w; landed := landed w; blind := blind w |}).
(** A key written by [reg add], and the note of it that only the theorems read. *)
Definition add_value (key v : text) : Io unit := fun w =>
  (Ok tt, {| registry := <[key := Plain v]> (registry w); folder := folder w; calls := calls w; said := said w; landed := (key, v) :: landed w; blind := blind w |}).
Definition drop_value (key : text) : Io unit := fun w =>
  (Ok tt, {| registry := delete key (registry w); folder := folder w; calls := calls w; said := said w; landed := landed w; blind := blind w |}).
Definition lift {A} (r : result text A) : Io A := fun w => (r, w).
(** The outcome of a call as a value. *)
Definition attempt {A} (m : Io A) : Io (result text A) := fun w => let '(r, w) := m w in (Ok r, w).
Definition io_error (a : Answer) : option text := match a with Fine => None | Refused e => Some e | Unstarted e => Some e end.

(** ** Wine *)
Section Prefix.
Context (wine prefix : text).
Definition unreadable : text :=
  txt "could not read the registry of " ++ prefix ++ txt " with " ++ wine ++ txt ": `reg query " ++ PROBE_KEY ++ txt "` failed too, so this is not " ++ [34] ++ txt "nothing is registered" ++ [34] ++ txt " but a prefix this wine cannot serve.
Refusing to touch keys whose current value could not be read. " ++ WRONG_WINE_HINT.
(** What only the theorems read: a value was taken for absent. *)
Definition overlooked (key : text) (current : Reading) : Io unit := fun w =>
  (Ok tt, {| registry := registry w; folder := folder w; calls := calls w; said := said w; landed := landed w;
             blind := if bool_decide (current = Absent) then blind w else key :: blind w |}).
(** Two runs of wine, each of which may fail on its own. [reg query] prints a value that is
    there, and exits with an error when there is none or when wine cannot serve the prefix;
    then the query of a key every prefix has is to tell the two apart. *)
Definition probed (key : text) (current : Reading) : Io Reading :=
  a ← ask;
  match a with
  | Unstarted e => throw e
  | Fine => _ ← overlooked key current; mret Absent
  | Refused _ => throw unreadable
  end.
Definition read_key (key : text) : Io Reading :=
  a ← ask; current ← gets (fun w => holds w key);
  match a, current with
  | Unstarted e, _ => throw e
  | Fine, Plain _ | Fine, Other _ => mret current
  | Fine, Absent | Refused _, _ => probed key current
  end.
Definition set_key (key dir : text) : Io bool :=
  a ← ask;
  match a with
  | Unstarted e => throw e
  | Fine => _ ← add_value key dir; mret true
  | Refused words => _ ← say (txt "warning: could not write " ++ key ++ [10]); _ ← say words; mret false
  end.
Definition del_value (key : text) : Io bool :=
  a ← ask; current ← gets (fun w => holds w key);
  let refused (words : text) : Io bool :=
    r ← attempt (read_key key);
    match r with
    | Ok Absent => mret true
    | _ => _ ← say (txt "warning: could not remove Path from " ++ key ++ [10]); _ ← say words; mret false
    end in
  match a, current with
  | Unstarted e, _ => throw e
  | Fine, Absent => refused []
  | Fine, _ => _ ← drop_value key; mret true
  | Refused words, _ => refused words
  end.

(** ** The registry's own file *)
(** Whether anything serves the prefix, and its [user.reg], when a command asks. *)
Context (lock : World -> Lock) (user_reg : World -> result text bytes).
Definition hkcu_path (key : text) : option text := strip_prefix (txt "HKCU\") key.
Definition registry_file : text := path_join prefix Userreg.FILE.
Definition no_file (e : text) : text :=
  txt "could not read " ++ registry_file ++ txt ": " ++ e ++ txt "
That file is where a prefix keeps its HKEY_CURRENT_USER keys, so
without it this report cannot say what these two hold — which is
not the same as nothing being registered in them. A prefix that
has never been started has no " ++ Userreg.FILE ++ txt " yet.".
Definition not_hkcu (key : text) : text :=
  key ++ txt " is not under HKCU, so it is not in " ++ registry_file ++ txt " and this report
cannot say what it holds.".
Definition of_lookup (l : Lookup) : Reading :=
  match l with Xml.Absent => Absent | Xml.Text v => Plain v | Xml.Rejected why => Other why end.
Fixpoint read_entries (b : bytes) (entries : list KeyEntry) (out : list (KeyEntry * Reading)) : list (KeyEntry * Reading) * option text :=
  match entries with
  | [] => (out, None)
  | (name, key, abi) :: entries =>
      match hkcu_path key with
      | None => (out, Some (not_hkcu key))
      | Some path => read_entries b entries (out ++ [((name, key, abi), of_lookup (Userreg.lookup b path Userreg.PATH_VALUE))])
      end
  end.
Definition read_keys_read_only (file : result text bytes) : list (KeyEntry * Reading) * option text :=
  match file with Err e => ([], Some (no_file e)) | Ok b => read_entries b KEYS [] end.
Definition settled_keys (w : World) : option (list (KeyEntry * Reading)) :=
  match lock w with Free =>
    let '(readings, unreadable) := read_keys_read_only (user_reg w) in
    if bool_decide (is_Some unreadable) || negb (length readings =? length KEYS)%nat then None else Some readings
  | _ => None end.
(** Every key through wine, stopping at the first that cannot be read. *)
Fixpoint read_all (entries : list KeyEntry) : Io (list (KeyEntry * Reading)) :=
  match entries with
  | [] => mret []
  | entry :: entries => r ← read_key entry.1.2; rest ← read_all entries; mret ((entry, r) :: rest)
  end.

(** ** Files *)
(** What a failed write leaves in the file, and what a failed removal leaves of the folder. *)
Context (torn : nat -> option bytes) (survives : nat -> text -> bool).
Definition dest : text := path_join prefix INSTALL_SUBDIR.
Definition in_dest (name : text) : text := path_join dest name.
Definition files_of (w : World) : Files := default ∅ (folder w).
Definition create_dir_all : Io unit :=
  a ← ask; match io_error a with None => f ← gets files_of; set_folder (Some f) | Some e => throw e end.
(** [fs::write] and [fs::copy], to a name in the folder. *)
Definition write_file (name : text) (b : bytes) : Io unit :=
  n ← gets calls; a ← ask; f ← gets files_of;
  match io_error a with
  | None => set_folder (Some (<[name := b]> f))
  | Some e => _ ← (match torn n with Some part => set_folder (Some (<[name := part]> f)) | None => mret tt end); throw e
  end.
Definition rename (from to : text) : Io unit :=
  a ← ask; f ← gets files_of;
  match io_error a, f !! from with
  | None, Some b => set_folder (Some (<[to := b]> (delete from f)))
  | None, None => throw (txt "No such file or directory")
  | Some e, _ => throw e
  end.
Definition remove_file (name : text) : Io unit :=
  a ← ask; f ← gets files_of; match io_error a with None => set_folder (Some (delete name f)) | Some e => throw e end.
Definition remove_dir_all : Io unit :=
  n ← gets calls; a ← ask; f ← gets files_of;
  match io_error a with
  | None => set_folder None
  | Some e => _ ← set_folder (Some (base.filter (fun kv => survives n (fst kv) = true) f)); throw e
  end.
Definition staging_name (name : text) (pid : Z) : text := 46 :: name ++ 46 :: show_uint pid ++ txt ".new".
Context (pid : Z).
(** Written beside the target and renamed over it; on an error the draft is taken away. *)
Definition staged (name : text) (b : bytes) : Io unit :=
  let draft := staging_name name pid in
  r ← attempt (_ ← write_file draft b; rename draft name);
  match r with
  | Ok _ => mret tt
  | Err e => _ ← attempt (remove_file draft); throw e
  end.
Definition unrecorded (e : text) : text :=
  txt "could not write " ++ in_dest RECORD_FILE ++ txt " (" ++ e ++ txt ") — the keys were registered, so the install itself works, but nothing in this prefix now records what was put there. `tobii bridge uninstall` takes out only the values it can still recognise as its own, and a TrackIR key pointed at a third-party client is not one of them. Fix that path and install again.".
Definition write_record (entries : list (text * text)) : Io unit :=
  r ← attempt (staged RECORD_FILE (utf8_encode (render_record entries)));
  match r with Ok _ => mret tt | Err e => throw (unrecorded e) end.
(** A record that is not there, or cannot be read, is an empty one. *)
Definition record_in (f : Files) : list (text * text) := parse_record (default [] (f !! RECORD_FILE ≫= utf8_decode)).
Definition read_record : Io (list (text * text)) :=
  a ← ask; f ← gets files_of; mret (match io_error a with None => record_in f | Some _ => parse_record [] end).

(** ** Installing *)
Record Job := { source : PrefixSource; origin : WineOrigin; forced : bool; np_source : NpSource; np_target : text; explicit_ours : bool;
                installed_np : option text; artifacts : text -> option bytes; artifact_path : text; beside_config_info : bool; version : text }.
Section Install.
Context (j : Job).
Definition taken_of (record : list (text * text)) (r : KeyEntry * Reading) : option Taken :=
  let '((name, key, abi), current) := r in
  let wrote := recorded record name in
  let want := want_for key (np_target j) in
  if stops_install current wrote want
  then Some {| taken_abi := abi; taken_key := key; what := describe current; want := want; has_record := bool_decide (is_Some wrote) |}
  else None.
Fixpoint copy_artifacts (l : list (text * bool)) (copied : Z) (provider_copied : bool) : Io (Z * bool) :=
  match l with
  | [] => mret (copied, provider_copied)
  | (name, required) :: l =>
      match artifacts j name with
      | None =>
          if required : bool then throw (name ++ txt " is missing from " ++ artifact_path j)
          else _ ← say (txt "note: " ++ name ++ txt " not built yet — skipping"); copy_artifacts l copied provider_copied
      | Some b =>
          let draft := staging_name name pid in
          _ ← write_file draft b;
          r ← attempt (rename draft name);
          match r with
          | Err e => _ ← attempt (remove_file draft); throw (txt "could not replace " ++ in_dest name ++ txt ": " ++ e)
          | Ok _ => _ ← say (txt "  " ++ name); copy_artifacts l (copied + 1) (provider_copied || text_eqb name PROVIDER_EXE)
          end
      end
  end.
Definition stamp_text : text := version j ++ txt "
This file says the tobii-bridge.exe beside it understands --launch.
`tobii game -- %command%` reads it before wrapping a Proton launch; without
it the launch is run exactly as Steam wrote it. See proton.rs.
".
Definition no_stamp_note : text := txt "note: could not write " ++ in_dest LAUNCH_STAMP ++ txt " — the bridge is installed and works, but `tobii game` will run this game unwrapped rather than starting the provider alongside it.".
Definition write_stamp : Io unit :=
  r ← attempt (staged LAUNCH_STAMP (utf8_encode stamp_text));
  match r with Ok _ => mret tt | Err _ => say no_stamp_note end.
(** The record with what has landed, in the order of the keys. *)
Definition kept_record (record : list (text * text)) (ft_landed np_landed : bool) : list (text * text) :=
  foldl (fun kept (entry : KeyEntry) =>
    let '(name, key, _) := entry in
    if (if text_eqb key NP_KEY then np_landed else ft_landed) then upsert kept name (want_for key (np_target j)) else kept) record KEYS.
Definition not_written : text := txt "the registry keys could not be written, so the DLLs are copied but nothing will load them.
The wine used was " ++ wine ++ txt ". " ++ WRONG_WINE_HINT.
Definition nothing_to_run : text := txt "Nothing else to run. The DLL receives tracking itself, inside the game's
own process — no second program, no prefix to match.

Turn game output on (the hub's switch, or `tobii games set enabled true`),
then launch the game through the wrapper so the tracker comes on:
  tobii game -- %command%      (Steam: paste into Launch Options)".
Definition proton_prefix : bool := match source j with FromSteam _ => true | _ => beside_config_info j end.
Definition closing : text := match np_source j with Installed _ => third_party_needs proton_prefix prefix | Ours => nothing_to_run end.
Definition readings : Io (list (KeyEntry * Reading)) :=
  s ← gets settled_keys; match s with Some r => mret r | None => read_all KEYS end.
(** Writing both keys, and writing down those that took it. *)
Definition register (record : list (text * text)) : Io bool :=
  ft_landed ← set_key FT_KEY INSTALL_WIN_DIR;
  np_landed ← set_key NP_KEY (np_target j);
  _ ← (if ft_landed || np_landed then write_record (kept_record record ft_landed np_landed) else mret tt);
  mret (ft_landed && np_landed).
Definition install : Io unit :=
  record ← read_record;
  rs ← readings;
  let taken := omap (taken_of record) rs in
  if negb (bool_decide (length taken = 0%nat)) && negb (forced j) then throw (refusal prefix wine (origin j) taken)
  else
    _ ← create_dir_all;
    '(copied, provider_copied) ← copy_artifacts ARTIFACTS 0 false;
    _ ← (if provider_copied : bool then write_stamp else mret tt);
    _ ← say (txt "copied " ++ show_uint copied ++ txt " file(s) into " ++ dest);
    _ ← say (txt "  (64-bit games only — a 32-bit game looks for freetrackclient.dll)");
    all_written ← register record;
    if negb all_written then throw not_written
    else
      _ ← say (registered_text (np_source j) (np_target j) (explicit_ours j) (installed_np j));
      _ ← say (replaced taken);
      say closing.
End Install.

(** ** Uninstalling *)
Definition settled_outcome (record : list (text * text)) (r : KeyEntry * Reading) : option KeyOutcome :=
  let '((name, key, abi), current) := r in
  match undo_for current (recorded record name) with
  | UndoNothing => Some (abi, key, OutNothing)
  | Leave why => Some (abi, key, Left why)
  | Remove => None
  end.
Fixpoint undo_loop (record : list (text * text)) (entries : list KeyEntry) (outcomes : list KeyOutcome) : Io (list KeyOutcome * option text) :=
  match entries with
  | [] => mret (outcomes, None)
  | (name, key, abi) :: entries =>
      r ← attempt (read_key key);
      match r with
      | Err e => mret (outcomes, Some e)
      | Ok current =>
          outcome ← match undo_for current (recorded record name) with
                    | UndoNothing => mret OutNothing
                    | Leave why => mret (Left why)
                    | Remove => done ← del_value key; mret (if done : bool then Removed else Failed)
                    end;
          undo_loop record entries (outcomes ++ [(abi, key, outcome)])
      end
  end.
Definition undo_keys (record : list (text * text)) : Io (list KeyOutcome * option text) :=
  s ← gets settled_keys;
  match s ≫= mapM (settled_outcome record) with
  | Some outcomes => mret (outcomes, None)
  | None => undo_loop record KEYS []
  end.
Definition still_points : text := txt "the registry still points at " ++ dest ++ txt ", so it was left in place.
Run `tobii bridge uninstall` again once wine can serve this prefix. " ++ WRONG_WINE_HINT.
Definition uninstall : Io unit :=
  record ← read_record;
  '(outcomes, unreadable) ← undo_keys record;
  _ ← say (report outcomes);
  match unreadable with
  | Some e => throw e
  | None =>
      if existsb (fun o => bool_decide (snd o = Failed)) outcomes then throw still_points
      else
        there ← gets (fun w => bool_decide (is_Some (folder w)));
        if there : bool then _ ← remove_dir_all; say (txt "removed " ++ dest) else mret tt
  end.

End Prefix.
End Calls.
