(* ===== verification/Registered.v ===== *)
(** * Registered: what install and uninstall promise (crates/tobii-cli/src/bridge.rs)

    [registrations_are_respected]: over any sequence of commands, of this program and of
    others, what an unforced command takes out of a key is its own, or was misread: the
    query of the key failed and the probe after it did not. [refusal_changes_nothing]:
    a refused install leaves the prefix as it was. [installed_and_removed]: what is put in
    comes out. [stamp_is_true], with Proton: a launch is handed to a provider only if that
    provider understands it. *)
From stdpp Require Import gmap.
From S2P Require Import Prelude Utf8 Text Bytelines Paths Xml Userreg Wineserver RegQuery Proton Bridge BridgeText Registrar.

(** ** The record survives its own parsing *)
Definition entry_sound (e : text * text) : Prop := entry_ok e /\ scalars e.1 /\ scalars e.2.
Lemma split_once_front p s a b : split_once p s = Some (a, b) -> Forall (fun c => p c = false) a.
Proof. intros H. by apply split_once_some in H as [Ha _]. Qed.
Lemma line_entry_sound line e : one_line line -> scalars line -> record_entry line = Some e -> entry_sound e.
Proof.
  intros Ho Hs. unfold record_entry. set (l := trim_end_by (Z.eqb 13) line).
  assert (Hb : back_ok (Z.eqb 13) l) by apply trim_end_back.
  assert (Hol : one_line l) by (by apply trim_end_piece). assert (Hsl : scalars l) by (by apply trim_end_piece).
  destruct (starts_with (txt "#") l) eqn:Eh; [done|].
  destruct (split_once (Z.eqb 32) l) as [[name r]|] eqn:E1; [|done]. cbn [mbind option_bind].
  destruct (split_once (Z.eqb 32) r) as [[verb wrote]|] eqn:E2; [|done]. cbn [mbind option_bind].
  destruct (_ && _) eqn:E3; [|done]. intros [= <-]. apply andb_true_iff in E3 as [E3 Hw%negb_true_iff%bool_decide_eq_false].
  apply andb_true_iff in E3 as [_ Hn%negb_true_iff%bool_decide_eq_false].
  apply split_once_some in E1 as (Hf & c & Hc & El). apply split_once_some in E2 as (_ & d & Hd & Er). subst r. rewrite El in *.
  apply Forall_app in Hsl as [Sn [_ Sr]%Forall_cons]. apply Forall_app in Sr as [_ [_ Sw]%Forall_cons].
  apply one_line_app in Hol as [On [_ Or]%Forall_cons]. apply one_line_app in Or as [_ [_ Ow]%Forall_cons].
  split; [|by split]. split; cbn [fst snd].
  - split_and!; [done|done|done|]. intros E. change (txt "#") with [35] in Eh. destruct name as [|x name]; [done|]. injection E as ->. done.
  - split_and!; [done|done|]. clear -Hb Hw. unfold back_ok in *. rewrite rev_app_distr in Hb. cbn [rev] in Hb.
    rewrite rev_app_distr in Hb. cbn [rev] in Hb. rewrite <- !app_assoc in Hb. destruct (rev wrote) as [|y t] eqn:Ew; [|exact Hb].
    by rewrite <- (rev_involutive wrote), Ew in Hw.
Qed.
Lemma upsert_sound record name value : Forall entry_sound record -> NoDup record.*1 -> entry_sound (name, value) ->
  Forall entry_sound (upsert record name value) /\ NoDup (upsert record name value).*1 /\
  forall n, n ∈ (upsert record name value).*1 <-> n = name \/ n ∈ record.*1.
Proof.
  intros Hr Hd He. induction record as [|[m w] record IH]; cbn [upsert].
  - split_and!; [by constructor|apply NoDup_singleton|]. intros n. cbn. rewrite list_elem_of_singleton. split; [by left|intros [?|[]%elem_of_nil]; done].
  - apply Forall_cons in Hr as [Hm Hr]. apply NoDup_cons in Hd as [Hn Hd]. unfold text_eqb. case_bool_decide as E.
    + subst m. split_and!; [by constructor|by constructor|]. intros n. cbn. rewrite !elem_of_cons. tauto.
    + destruct (IH Hr Hd) as (H1 & H2 & H3). split_and!; [by constructor| |].
      * cbn. constructor; [|done]. intros [->|?]%H3; done.
      * intros n. cbn. rewrite !elem_of_cons, H3. tauto.
Qed.
Lemma parse_record_sound s : scalars s -> Forall entry_sound (parse_record s) /\ NoDup (parse_record s).*1.
Proof.
  intros Hs. unfold parse_record.
  assert (Hl : Forall (fun l => one_line l /\ scalars l) (lines s)).
  { apply Forall_and. split; [apply lines_one_line|by apply lines_pieces]. }
  assert (H : forall acc, Forall entry_sound acc -> NoDup acc.*1 ->
    let out := foldl (fun out line => match record_entry line with Some (name, wrote) => upsert out name wrote | None => out end) acc (lines s) in
    Forall entry_sound out /\ NoDup out.*1); [|apply H; [constructor|apply NoDup_nil_2]].
  induction Hl as [|l ls [Ho Hsl] _ IH]; intros acc Ha Hd; [done|]. cbn [foldl]. destruct (record_entry l) as [[name wrote]|] eqn:E; [|by apply IH].
  apply line_entry_sound in E; [|done..]. destruct (upsert_sound acc name wrote Ha Hd E) as (? & ? & _). by apply IH.
Qed.
Lemma recorded_cons m w record n : recorded ((m, w) :: record) n = if text_eqb m n then Some w else recorded record n.
Proof. unfold recorded. cbn [find fst]. by destruct (text_eqb m n). Qed.
Lemma recorded_upsert record name value n : recorded (upsert record name value) n = if text_eqb name n then Some value else recorded record n.
Proof.
  induction record as [|[m w] record IH]; cbn [upsert]; [apply recorded_cons|].
  destruct (bool_decide_reflect (m = name)) as [->|Hm].
  - rewrite text_eqb_refl, !recorded_cons. by destruct (text_eqb name n).
  - unfold text_eqb at 1. rewrite bool_decide_eq_false_2, !recorded_cons, IH by done.
    unfold text_eqb. repeat case_bool_decide; congruence.
Qed.
Lemma rendered_sound record : Forall entry_sound record -> scalars (render_record record).
Proof.
  intros H. apply Forall_app. split.
  - apply List.Forall_forall. assert (Hb : forallb is_char RECORD_HEADER = true) by (vm_compute; reflexivity). by apply forallb_forall.
  - induction H as [|[n v] r (_ & Hn & Hv) _ IH]; [constructor|]. cbn [mbind list_bind]. apply Forall_app. split; [|done].
    unfold record_line. cbn [fst snd]. apply Forall_app. split; [done|]. apply Forall_app. split; [by repeat constructor|].
    apply Forall_app. split; [done|by repeat constructor].
Qed.
Lemma written_record_read f record : Forall entry_sound record -> NoDup record.*1 ->
  f !! RECORD_FILE = Some (utf8_encode (render_record record)) -> record_in f = record.
Proof.
  intros Hr Hd E. unfold record_in. rewrite E. cbn [mbind option_bind]. rewrite decode_encode by (by apply rendered_sound). cbn [default].
  apply record_roundtrip; [|done]. eapply Forall_impl; [exact Hr|]. by intros e [? _].
Qed.
Lemma record_in_sound f : Forall entry_sound (record_in f) /\ NoDup (record_in f).*1.
Proof.
  apply parse_record_sound. destruct (f !! RECORD_FILE ≫= utf8_decode) as [s|] eqn:E; [|constructor].
  apply bind_Some in E as (b & _ & E). by apply decode_scalars in E.
Qed.

(** ** What a program leaves alone *)
Section Preserves.
Context (R : World -> World -> Prop) `{!PreOrder R}.
Definition preserves {A} (m : Io A) : Prop := forall w, R w (m w).2.
Lemma pres_ret {A} (a : A) : preserves (mret a). Proof. by intros w. Qed.
Lemma pres_throw {A} (e : text) : preserves (throw e : Io A). Proof. by intros w. Qed.
Lemma pres_gets {A} (f : World -> A) : preserves (gets f). Proof. by intros w. Qed.
Lemma pres_bind {A B} (m : Io A) (k : A -> Io B) : preserves m -> (forall a, preserves (k a)) -> preserves (m ≫= k).
Proof.
  intros Hm Hk w. specialize (Hm w). unfold mbind, M_bind. destruct (m w) as [[a|e] w1]; [|done]. etrans; [exact Hm|apply Hk].
Qed.
Lemma pres_attempt {A} (m : Io A) : preserves m -> preserves (attempt m).
Proof. intros Hm w. specialize (Hm w). unfold attempt. by destruct (m w). Qed.
End Preserves.
Create HintDb pres.
Ltac pres := repeat first
  [ assumption | solve [auto with pres nocore] | apply pres_ret; apply _ | apply pres_throw; apply _ | apply pres_gets; apply _ | apply pres_bind; [apply _| |intros ?]
  | apply pres_attempt | progress cbv zeta | match goal with |- preserves _ (match ?x with _ => _ end) => destruct x end].

(** The keys and what was written to them; one file of the folder. *)
Definition grows (w w' : World) : Prop := blind w `suffix_of` blind w'.
Definition same_keys (w w' : World) : Prop := registry w' = registry w /\ landed w' = landed w /\ grows w w'.
Definition same_file (n : text) (w w' : World) : Prop := files_of w' !! n = files_of w !! n.
#[export] Instance grows_preorder : PreOrder grows.
Proof. unfold grows. split; [by intros w|]. intros a b c. apply transitivity. Qed.
Lemma grew w w' : blind w' = blind w -> grows w w'. Proof. unfold grows. by intros ->. Qed.
#[export] Instance same_keys_preorder : PreOrder same_keys.
Proof. split; [by intros w; split_and!|]. intros a b c (H1 & H2 & H3) (H4 & H5 & H6). split_and!; [congruence..|by etrans]. Qed.
(** Between two worlds the value of [key] was taken for absent, though it was there: its
    query failed and the probe after it did not. *)
Definition misread (key : text) (w w' : World) : Prop := exists new, blind w' = new ++ blind w /\ key ∈ new.
Lemma misread_later key w w1 w2 : misread key w w1 -> grows w1 w2 -> misread key w w2.
Proof.
  intros (new & E & Hk) [more E']. exists (more ++ new). rewrite E', E, app_assoc. split; [done|]. apply elem_of_app. by right.
Qed.
Lemma misread_earlier key w w1 w2 : grows w w1 -> misread key w1 w2 -> misread key w w2.
Proof.
  intros [more E] (new & E' & Hk). exists (new ++ more). rewrite E', E, app_assoc. split; [done|]. apply elem_of_app. by left.
Qed.
Lemma misread_same key w w' : blind w' = blind w -> ~ misread key w w'.
Proof.
  intros E (new & E' & Hk). rewrite E in E'. destruct new as [|x new]; [by apply elem_of_nil in Hk|].
  apply (f_equal length) in E'. rewrite length_app in E'. cbn in E'. lia.
Qed.
#[export] Instance same_file_preorder n : PreOrder (same_file n).
Proof. split; [done|]. intros a b c H1 H2. unfold same_file in *. congruence. Qed.

Section Command.
Context (os : nat -> Answer) (wine prefix : text) (lock : World -> Lock) (user_reg : World -> result text bytes).
Context (torn : nat -> option bytes) (survives : nat -> text -> bool) (pid : Z).

Lemma keys_kept w w' : registry w' = registry w -> landed w' = landed w -> blind w' = blind w -> same_keys w w'.
Proof. intros H1 H2 H3. split_and!; [done..|]. unfold grows. by rewrite H3. Qed.
Lemma keys_ask : preserves same_keys (ask os). Proof. by intros w; apply keys_kept. Qed.
Lemma keys_say s : preserves same_keys (say s). Proof. by intros w; apply keys_kept. Qed.
Lemma keys_set d : preserves same_keys (set_folder d). Proof. by intros w; apply keys_kept. Qed.
Lemma keys_overlooked key current : preserves same_keys (overlooked key current).
Proof.
  intros w. split_and!; [done..|]. unfold grows, overlooked. cbn. case_bool_decide; [done|]. by exists [key].
Qed.
Lemma file_overlooked n key current : preserves (same_file n) (overlooked key current). Proof. by intros w. Qed.
Lemma file_ask n : preserves (same_file n) (ask os). Proof. by intros w. Qed.
Lemma file_say n s : preserves (same_file n) (say s). Proof. by intros w. Qed.
Lemma file_add n key v : preserves (same_file n) (add_value key v). Proof. by intros w. Qed.
Lemma file_drop n key : preserves (same_file n) (drop_value key). Proof. by intros w. Qed.
#[local] Hint Resolve keys_ask keys_say keys_set keys_overlooked file_overlooked file_ask file_say file_add file_drop : pres.

Lemma keys_probed key current : preserves same_keys (probed os wine prefix key current). Proof. unfold probed. pres. Qed.
Lemma file_probed n key current : preserves (same_file n) (probed os wine prefix key current). Proof. unfold probed. pres. Qed.
#[local] Hint Resolve keys_probed file_probed : pres.
Lemma keys_read_key key : preserves same_keys (read_key os wine prefix key). Proof. unfold read_key. pres. Qed.
Lemma file_read_key n key : preserves (same_file n) (read_key os wine prefix key). Proof. unfold read_key. pres. Qed.
#[local] Hint Resolve keys_read_key file_read_key : pres.
Lemma keys_read_all l : preserves same_keys (read_all os wine prefix l). Proof. induction l; cbn [read_all]; pres. Qed.
Lemma file_read_all n l : preserves (same_file n) (read_all os wine prefix l). Proof. induction l; cbn [read_all]; pres. Qed.
#[local] Hint Resolve keys_read_all file_read_all : pres.
Lemma keys_readings : preserves same_keys (readings os wine prefix lock user_reg). Proof. unfold readings. pres. Qed.
Lemma file_readings n : preserves (same_file n) (readings os wine prefix lock user_reg). Proof. unfold readings. pres. Qed.
Lemma keys_write name b : preserves same_keys (write_file os torn name b). Proof. unfold write_file. pres. Qed.
Lemma keys_rename a b : preserves same_keys (rename os a b). Proof. unfold rename. pres. Qed.
Lemma keys_remove name : preserves same_keys (remove_file os name). Proof. unfold remove_file. pres. Qed.
Lemma keys_remove_dir : preserves same_keys (remove_dir_all os survives). Proof. unfold remove_dir_all. pres. Qed.
Lemma keys_create : preserves same_keys (create_dir_all os). Proof. unfold create_dir_all. pres. Qed.
#[local] Hint Resolve keys_readings file_readings keys_write keys_rename keys_remove keys_remove_dir keys_create : pres.
Lemma keys_staged name b : preserves same_keys (staged os torn pid name b). Proof. unfold staged. pres. Qed.
#[local] Hint Resolve keys_staged : pres.
Lemma keys_write_record l : preserves same_keys (write_record os prefix torn pid l). Proof. unfold write_record. pres. Qed.
Lemma keys_read_record : preserves same_keys (read_record os). Proof. unfold read_record. pres. Qed.
Lemma file_read_record n : preserves (same_file n) (read_record os). Proof. unfold read_record. pres. Qed.
Lemma keys_stamp j : preserves same_keys (write_stamp os prefix torn pid j). Proof. unfold write_stamp. pres. Qed.
Lemma keys_copy j l c p : preserves same_keys (copy_artifacts os prefix torn pid j l c p).
Proof. revert c p. induction l as [|[name req] l IH]; intros c p; cbn [copy_artifacts]; pres. Qed.
#[local] Hint Resolve keys_write_record keys_read_record file_read_record keys_stamp keys_copy : pres.

(** Files: a write touches its name, a rename both of its names. *)
Lemma file_set n d : (forall w, default ∅ d !! n = files_of w !! n) -> preserves (same_file n) (set_folder d).
Proof. intros H w. apply H. Qed.
Lemma file_write n name b : n <> name -> preserves (same_file n) (write_file os torn name b).
Proof.
  intros Hn w. unfold write_file, same_file, gets, ask, mbind, M_bind. cbn. destruct (io_error _); cbn; [destruct (torn _); cbn|]; try done;
    by apply lookup_insert_ne.
Qed.
Lemma file_create n : preserves (same_file n) (create_dir_all os).
Proof. intros w. unfold create_dir_all, same_file, gets, ask, mbind, M_bind. cbn. by destruct (io_error _). Qed.
Lemma file_remove n name : n <> name -> preserves (same_file n) (remove_file os name).
Proof. intros Hn w. unfold remove_file, same_file, gets, ask, mbind, M_bind. cbn. destruct (io_error _); cbn; [done|]. by apply lookup_delete_ne. Qed.
Lemma file_rename n a b : n <> a -> n <> b -> preserves (same_file n) (rename os a b).
Proof.
  intros Ha Hb w. unfold rename, same_file, gets, ask, mbind, M_bind. cbn. destruct (io_error _); cbn; [done|].
  fold (files_of w). destruct (files_of w !! a); cbn; [|done]. etrans; [by apply lookup_insert_ne|by apply lookup_delete_ne].
Qed.

(** ** Drafts *)
Lemma draft_front name : head (staging_name name pid) = Some 46. Proof. done. Qed.
Lemma staged_file n name b : n <> name -> head n <> Some 46 -> preserves (same_file n) (staged os torn pid name b).
Proof.
  intros Hn Hh. assert (Hd : n <> staging_name name pid) by (intros ->; by apply Hh). unfold staged.
  pose proof (file_write n (staging_name name pid) b Hd). pose proof (file_rename n _ name Hd Hn). pose proof (file_remove n _ Hd).
  pres.
Qed.
Lemma write_lands name b w w' : write_file os torn name b w = (Ok tt, w') -> files_of w' !! name = Some b.
Proof.
  unfold write_file, ask, gets, mbind, M_bind. cbn. destruct (io_error _); [by destruct (torn _)|]. intros [= <-]. apply lookup_insert_eq.
Qed.
(** A file that is there takes its new name, or nothing changes. *)
Lemma rename_lands from to b w : files_of w !! from = Some b ->
  match rename os from to w with (Ok _, w') => files_of w' !! to = Some b | (Err _, w') => files_of w' = files_of w end.
Proof.
  intros H. unfold rename, ask, gets, mbind, M_bind. cbn. fold (files_of w). destruct (io_error _); cbn; [done|]. rewrite H. apply lookup_insert_eq.
Qed.
(** A staged file is there, whole, when it is reported to be; otherwise it is as it was. *)
Lemma staged_ok name b : head name <> Some 46 -> forall w,
  match staged os torn pid name b w with
  | (Ok _, w') => files_of w' !! name = Some b
  | (Err _, w') => files_of w' !! name = files_of w !! name
  end.
Proof.
  intros Hh w. assert (Hd : name <> staging_name name pid) by (intros E; apply Hh; by rewrite E).
  unfold staged, attempt, mbind, M_bind.
  pose proof (file_write name (staging_name name pid) b Hd w) as Hw. unfold same_file in Hw.
  destruct (write_file os torn _ b w) as [[[]|e] w1] eqn:E1; cbn [snd] in Hw.
  - apply write_lands in E1. pose proof (rename_lands _ name b w1 E1) as Hn. destruct (rename os _ name w1) as [[[]|e] w2]; [done|].
    pose proof (file_remove name _ Hd w2) as Hr. unfold same_file in Hr. destruct (remove_file os _ w2) as [? w3]. cbn in *. congruence.
  - pose proof (file_remove name _ Hd w1) as Hr. unfold same_file in Hr. destruct (remove_file os _ w1) as [? w3]. cbn in *. congruence.
Qed.

(** ** Readings *)
Lemma same_keys_holds w w' key : same_keys w w' -> holds w' key = holds w key.
Proof. intros [H _]. unfold holds. by rewrite H. Qed.
Lemma keys_grow w w' : same_keys w w' -> grows w w'. Proof. by intros (_ & _ & H). Qed.
(** What a reading answers: what is there, or nothing where it was misread. *)
Definition read_right (w w' : World) (e : KeyEntry) (r : KeyEntry * Reading) : Prop :=
  r.1 = e /\ (r.2 = holds w e.1.2 \/ r.2 = Absent /\ misread e.1.2 w w').
Lemma probed_ok key current w r w' : probed os wine prefix key current w = (Ok r, w') ->
  r = Absent /\ (current = Absent \/ misread key w w').
Proof.
  unfold probed, ask, overlooked, mbind, M_bind. cbn. destruct (os _); [|done..]. intros [= <- <-]. split; [done|].
  case_bool_decide as E; [by left|right]. exists [key]. split; [done|apply list_elem_of_here].
Qed.
Lemma read_key_ok key w r w' : read_key os wine prefix key w = (Ok r, w') ->
  r = holds w key \/ r = Absent /\ misread key w w'.
Proof.
  unfold read_key. intros (a & w1 & [= <- <-] & H)%M_bind_inv. apply M_bind_inv in H as (current & w2 & [= <- <-] & H).
  set (w1 := {| registry := _ |}) in H.
  assert (Hp : probed os wine prefix key (holds w key) w1 = (Ok r, w') -> r = holds w key \/ r = Absent /\ misread key w w').
  { intros [-> [E|E]]%probed_ok; [by left|by right]. }
  destruct (os (calls w)), (holds w1 key) eqn:E; change (holds w1 key) with (holds w key) in E; try done;
    first [rewrite <- E in H; by apply Hp | unfold mret, M_ret in H; simplify_eq; by left].
Qed.
Lemma read_all_ok l w rs w' : read_all os wine prefix l w = (Ok rs, w') -> Forall2 (read_right w w') l rs.
Proof.
  revert w rs w'. induction l as [|e l IH]; intros w rs w'; cbn [read_all]; [intros [= <- <-]; constructor|].
  intros (r & w1 & E1 & (rest & w2 & E2 & [= <- <-])%M_bind_inv)%M_bind_inv.
  pose proof (keys_read_key e.1.2 w) as Hk. pose proof (keys_read_all l w1) as Hl. rewrite E1 in Hk. rewrite E2 in Hl. cbn [snd] in *.
  apply read_key_ok in E1. apply IH in E2. constructor.
  - split; [done|]. cbn [snd]. destruct E1 as [?|[? ?]]; [by left|right]. split; [done|]. by eapply misread_later, keys_grow.
  - eapply Forall2_impl; [exact E2|]. intros x y [? Hy]. split; [done|]. rewrite (same_keys_holds w w1) in Hy by done.
    destruct Hy as [?|[? ?]]; [by left|right]. split; [done|]. by eapply misread_earlier; [apply keys_grow|].
Qed.
(** The file of the registry says what the keys hold when nothing serves the prefix. *)
Definition honest : Prop := forall w b, lock w = Free -> user_reg w = Ok b ->
  forall key path, hkcu_path key = Some path -> of_lookup (Userreg.lookup b path Userreg.PATH_VALUE) = holds w key.
Lemma read_only_ok w b : honest -> lock w = Free -> user_reg w = Ok b ->
  read_keys_read_only prefix (user_reg w) = ((fun e : KeyEntry => (e, holds w e.1.2)) <$> KEYS, None).
Proof.
  intros Hh El Eb. unfold read_keys_read_only. rewrite Eb. unfold KEYS. cbn [read_entries].
  assert (E1 : hkcu_path FT_KEY = Some (txt "Software\Freetrack\FreeTrackClient")) by (vm_compute; reflexivity).
  assert (E2 : hkcu_path NP_KEY = Some (txt "Software\NaturalPoint\NATURALPOINT\NPClient Location")) by (vm_compute; reflexivity).
  pose proof (Hh w b El Eb _ _ E1) as H1. pose proof (Hh w b El Eb _ _ E2) as H2. by rewrite E1, E2, H1, H2.
Qed.
Lemma settled_ok w rs : honest -> settled_keys prefix lock user_reg w = Some rs -> rs = (fun e : KeyEntry => (e, holds w e.1.2)) <$> KEYS.
Proof.
  intros Hh. unfold settled_keys. destruct (lock w) eqn:El; [|done..]. destruct (user_reg w) as [b|e] eqn:Eb.
  - rewrite <- Eb, (read_only_ok w b) by done. by intros [= <-].
  - unfold read_keys_read_only. by rewrite bool_decide_eq_true_2 by eauto.
Qed.
Lemma readings_ok w rs w' : honest -> readings os wine prefix lock user_reg w = (Ok rs, w') -> Forall2 (read_right w w') KEYS rs.
Proof.
  intros Hh. unfold readings, gets. intros (s & w1 & [= <- <-] & H)%M_bind_inv. destruct (settled_keys _ _ _ w) as [rs'|] eqn:Es.
  - injection H as <- <-. apply settled_ok in Es as ->; [|done]. apply Forall2_fmap_r, Forall2_same_length_lookup_2; [done|].
    intros i x y Hx Hy. assert (x = y) as <- by congruence. split; [done|by left].
  - by apply read_all_ok in H.
Qed.

(** ** Writing the keys *)
Definition wrote (key v : text) (w w' : World) : Prop :=
  registry w' = <[key := Plain v]> (registry w) /\ landed w' = (key, v) :: landed w /\ grows w w'.
Lemma set_key_ok key v w :
  match set_key os key v w with (Ok true, w') => wrote key v w w' | (_, w') => same_keys w w' end.
Proof. unfold set_key, ask, say, mbind, M_bind. cbn. by destruct (os (calls w)); [split_and!; [..|by apply grew]|apply keys_kept..]. Qed.
Lemma set_key_file n key v : preserves (same_file n) (set_key os key v). Proof. unfold set_key. pres. Qed.
Lemma del_value_ok key w : let '(r, w') := del_value os wine prefix key w in
  landed w' = landed w /\ grows w w' /\
  (registry w' = registry w \/ holds w key <> Absent /\ registry w' = delete key (registry w)) /\
  (r = Ok true -> holds w' key = Absent \/ misread key w w').
Proof.
  assert (Hsame : forall words w1, same_keys w w1 ->
    let '(r, w') := (r ← attempt (read_key os wine prefix key); match r with Ok Absent => mret true
      | _ => _ ← say (txt "warning: could not remove Path from " ++ key ++ [10]); _ ← say words; mret false end) w1 in
    same_keys w w' /\ (r = Ok true -> holds w' key = Absent \/ misread key w w')).
  { intros words w1 H1. pose proof (keys_read_key key w1) as H2. unfold attempt, say, mbind, M_bind.
    assert (Hk : forall w2, same_keys w1 w2 -> forall said', same_keys w
      {| registry := registry w2; folder := folder w2; calls := calls w2; said := said'; landed := landed w2; blind := blind w2 |}).
    { intros w2 H3 said'. etrans; [exact H1|]. etrans; [exact H3|]. by apply keys_kept. }
    destruct (read_key os wine prefix key w1) as [[r|e] w2] eqn:E; cbn in *; [|split; [by apply Hk|done]].
    apply read_key_ok in E. destruct r; cbn; (split; [by apply Hk || by etrans|]); try done.
    intros _. rewrite (same_keys_holds w1 w2) by done. destruct E as [<-|[_ E]]; [by left|right].
    by eapply misread_earlier; [apply keys_grow|]. }
  unfold del_value, ask, gets. unfold mbind at 1 2, M_bind at 1 2. cbn -[attempt].
  set (w1 := {| registry := registry w; folder := folder w; calls := S (calls w); said := said w; landed := landed w; blind := blind w |}).
  assert (H1 : same_keys w w1) by (by apply keys_kept). change (holds w1 key) with (holds w key).
  destruct (os (calls w)) as [|words|e].
  - destruct (holds w key) eqn:Eh.
    + specialize (Hsame [] w1 H1). destruct ((attempt _ ≫= _) w1) as [r w'].
      destruct Hsame as [(Hr & Hl & Hg) Ht]. split_and!; [done|done|by left|done].
    + cbn. split_and!; [done|by apply grew|by right|]. intros _. left. unfold holds. cbn. by rewrite lookup_delete_eq.
    + cbn. split_and!; [done|by apply grew|by right|]. intros _. left. unfold holds. cbn. by rewrite lookup_delete_eq.
  - specialize (Hsame words w1 H1).
    destruct (holds w key); (destruct ((attempt _ ≫= _) w1) as [r w']; destruct Hsame as [(Hr & Hl & Hg) Ht]; split_and!; [done|done|by left|done]).
  - destruct (holds w key); cbn; (split_and!; [done|by apply grew|by left|done]).
Qed.
Lemma del_value_file n key : preserves (same_file n) (del_value os wine prefix key). Proof. unfold del_value. pres. Qed.
Lemma record_in_same w w' : same_file RECORD_FILE w w' -> record_in (files_of w') = record_in (files_of w).
Proof. unfold same_file, record_in. by intros ->. Qed.
Lemma write_record_ok record w : Forall entry_sound record -> NoDup record.*1 ->
  match write_record os prefix torn pid record w with
  | (Ok _, w') => record_in (files_of w') = record
  | (Err _, w') => record_in (files_of w') = record_in (files_of w)
  end.
Proof.
  intros Hr Hd. unfold write_record, attempt, mbind, M_bind.
  pose proof (staged_ok RECORD_FILE (utf8_encode (render_record record)) ltac:(by vm_compute) w) as H.
  destruct (staged _ _ _ _ _ w) as [[[]|e] w']; cbn.
  - by apply written_record_read.
  - by apply record_in_same.
Qed.
(** The record as a command has it: that of the file, or none where it could not be read. *)
Definition read_as (w : World) (record : list (text * text)) : Prop := record = record_in (files_of w) \/ record = [] /\ os (calls w) <> Fine.
Lemma read_record_ok w record w' : read_record os w = (Ok record, w') -> read_as w record /\ Forall entry_sound record /\ NoDup record.*1.
Proof.
  unfold read_record, ask, gets, mbind, M_bind. cbn. fold (files_of w). destruct (io_error _) eqn:E; intros [= <- <-].
  - split; [right; split; [done|]; intros Ef; by rewrite Ef in E|]. split; [constructor|apply NoDup_nil_2].
  - split; [by left|apply record_in_sound].
Qed.

(** ** Installing *)
Definition target_ok (v : text) : Prop := v <> [] /\ one_line v /\ back_ok (Z.eqb 13) v /\ scalars v.
Definition wrote_if (b : bool) (key v : text) (w w' : World) : Prop := if b then wrote key v w w' else same_keys w w'.
Lemma text_eqb_sym a b : text_eqb a b = text_eqb b a.
Proof. unfold text_eqb. apply bool_decide_ext. split; congruence. Qed.
Lemma keys_differ : text_eqb FT_KEY NP_KEY = false. Proof. vm_compute. reflexivity. Qed.
Lemma want_ft v : want_for FT_KEY v = INSTALL_WIN_DIR. Proof. unfold want_for. by rewrite keys_differ. Qed.
Lemma want_np v : want_for NP_KEY v = v. Proof. unfold want_for. by rewrite text_eqb_refl. Qed.
Lemma literal_scalars s : forallb is_char s = true -> scalars s.
Proof. intros H. apply List.Forall_forall. intros c. by apply (proj1 (forallb_forall is_char s) H). Qed.
Lemma sound_name (name v : text) : name = txt "ft" \/ name = txt "np" -> target_ok v -> entry_sound (name, v).
Proof.
  change (txt "ft") with [102; 116]. change (txt "np") with [110; 112].
  intros Hn (H1 & H2 & H3 & H4). split; [split; cbn [fst snd]; [|done]|split; [|done]]; destruct Hn as [-> | ->].
  1,2: split_and!; [done|by repeat constructor|by apply one_line_dec|done].
  all: by apply literal_scalars.
Qed.
Lemma win_dir_ok : target_ok INSTALL_WIN_DIR.
Proof. split_and!; [vm_compute; discriminate|by apply one_line_dec; vm_compute|by vm_compute|by apply literal_scalars; vm_compute]. Qed.
Lemma kept_record_eq j record ft np : kept_record j record ft np =
  let r := if ft then upsert record (txt "ft") INSTALL_WIN_DIR else record in if np then upsert r (txt "np") (np_target j) else r.
Proof. unfold kept_record, KEYS. cbn [foldl]. rewrite keys_differ, text_eqb_refl, want_ft, want_np. done. Qed.
Lemma kept_record_sound j record ft np : target_ok (np_target j) -> Forall entry_sound record -> NoDup record.*1 ->
  Forall entry_sound (kept_record j record ft np) /\ NoDup (kept_record j record ft np).*1.
Proof.
  intros Ht Hr Hd. rewrite kept_record_eq. cbv zeta.
  assert (H1 : Forall entry_sound (if ft then upsert record (txt "ft") INSTALL_WIN_DIR else record) /\
    NoDup (if ft then upsert record (txt "ft") INSTALL_WIN_DIR else record).*1).
  { destruct ft; [|done]. destruct (upsert_sound record (txt "ft") INSTALL_WIN_DIR) as (? & ? & _); [done|done| |done].
    apply sound_name; [by left|apply win_dir_ok]. }
  destruct H1 as [H1 H2]. destruct np; [|done].
  destruct (upsert_sound _ (txt "np") (np_target j) H1 H2) as (? & ? & _); [|done]. apply sound_name; [by right|done].
Qed.
Lemma register_ok j record w : target_ok (np_target j) -> Forall entry_sound record -> NoDup record.*1 ->
  let '(r, w') := register os prefix torn pid j record w in exists ft np w1,
    wrote_if ft FT_KEY INSTALL_WIN_DIR w w1 /\ wrote_if np NP_KEY (np_target j) w1 w' /\
    (record_in (files_of w') = record_in (files_of w) \/ record_in (files_of w') = kept_record j record ft np) /\
    (r = Ok true -> ft = true /\ np = true /\ record_in (files_of w') = kept_record j record true true).
Proof.
  intros Ht Hr Hd. unfold register, mbind, M_bind.
  pose proof (set_key_ok FT_KEY INSTALL_WIN_DIR w) as Hft. pose proof (record_in_same _ _ (set_key_file RECORD_FILE FT_KEY INSTALL_WIN_DIR w)) as Hff.
  destruct (set_key os FT_KEY _ w) as [[ft|e] w1]; cbn [snd] in Hff.
  2: { exists false, false, w. split; [done|]. split; [exact Hft|]. split; [by left|done]. }
  pose proof (set_key_ok NP_KEY (np_target j) w1) as Hnp. pose proof (record_in_same _ _ (set_key_file RECORD_FILE NP_KEY (np_target j) w1)) as Hnf.
  assert (Hft' : wrote_if ft FT_KEY INSTALL_WIN_DIR w w1) by (by destruct ft).
  destruct (set_key os NP_KEY _ w1) as [[np|e] w2]; cbn [snd] in Hnf.
  2: { exists ft, false, w1. split; [done|]. split; [exact Hnp|]. split; [left; congruence|done]. }
  assert (Hnp' : wrote_if np NP_KEY (np_target j) w1 w2) by (by destruct np). destruct (ft || np) eqn:Eo.
  - destruct (kept_record_sound j record ft np Ht Hr Hd) as [Hs Hn]. pose proof (write_record_ok _ w2 Hs Hn) as Hw.
    pose proof (keys_write_record (kept_record j record ft np) w2) as (Hk1 & Hk2 & Hk3).
    assert (Hnp2 : forall w3, registry w3 = registry w2 -> landed w3 = landed w2 -> grows w2 w3 -> wrote_if np NP_KEY (np_target j) w1 w3).
    { intros w3 E1 E2 E3. unfold wrote_if, wrote, same_keys in *. rewrite E1, E2. destruct np, Hnp' as (? & ? & ?); split_and!; try done; by etrans. }
    destruct (write_record _ _ _ _ _ w2) as [[[]|e] w3]; cbn [snd] in *; exists ft, np, w1; (split_and!; [done|by apply Hnp2| |]).
    + by right.
    + intros [= E]. apply andb_true_iff in E as [-> ->]. done.
    + left. congruence.
    + done.
  - apply orb_false_iff in Eo as [-> ->]. exists false, false, w1. split; [done|]. split; [exact Hnp'|]. split; [left; cbn; congruence|done].
Qed.

(** ** What a whole command does *)
Definition post {A} (m : Io A) (w : World) (Q : result text A -> World -> Prop) : Prop := Q (m w).1 (m w).2.
Lemma post_bind {A B} (m : Io A) (k : A -> Io B) w Q :
  post m w (fun r w1 => match r with Ok a => post (k a) w1 Q | Err e => Q (Err e) w1 end) -> post (m ≫= k) w Q.
Proof. unfold post, mbind, M_bind. by destruct (m w) as [[a|e] w1]. Qed.
Lemma post_mono {A} (m : Io A) w (Q Q' : result text A -> World -> Prop) : post m w Q -> (forall r w', Q r w' -> Q' r w') -> post m w Q'.
Proof. intros H HQ. by apply HQ. Qed.
Lemma post_and {A} (m : Io A) w (Q Q' : result text A -> World -> Prop) : post m w Q -> post m w Q' -> post m w (fun r w' => Q r w' /\ Q' r w').
Proof. done. Qed.
Lemma post_pres {A} R (m : Io A) w : preserves R m -> post m w (fun _ w' => R w w').
Proof. intros H. apply H. Qed.

(** Neither a key nor the record is touched. *)
Definition quiet (w w' : World) : Prop := same_keys w w' /\ same_file RECORD_FILE w w'.
#[local] Instance quiet_preorder : PreOrder quiet.
Proof. split; [done|]. intros a b c [H1 H2] [H3 H4]. split; by etrans. Qed.
Lemma quiet_pres {A} (m : Io A) : preserves same_keys m -> preserves (same_file RECORD_FILE) m -> preserves quiet m.
Proof. intros H1 H2 w. by split. Qed.
Lemma quiet_holds w w' key : quiet w w' -> holds w' key = holds w key.
Proof. intros [H _]. by apply same_keys_holds. Qed.
Lemma quiet_record w w' : quiet w w' -> record_in (files_of w') = record_in (files_of w).
Proof. intros [_ H]. by apply record_in_same. Qed.

(** The names of the folder are not drafts, and differ from one another. *)
Lemma copy_file n j l c p : head n <> Some 46 -> n ∉ l.*1 -> preserves (same_file n) (copy_artifacts os prefix torn pid j l c p).
Proof.
  intros Hh. revert c p. induction l as [|[name req] l IH]; intros c p Hn; cbn [copy_artifacts]; [pres|].
  cbn in Hn. apply not_elem_of_cons in Hn as [Hn Hl]. assert (Hd : n <> staging_name name pid) by (intros ->; by apply Hh).
  pose proof (file_write n (staging_name name pid)) as Hw. pose proof (file_rename n _ name Hd Hn). pose proof (file_remove n _ Hd).
  assert (forall c p, preserves (same_file n) (copy_artifacts os prefix torn pid j l c p)) by (intros; by apply IH).
  destruct (artifacts j name) as [b|]; [specialize (Hw b Hd)|]; pres.
Qed.
Lemma record_not_copied : RECORD_FILE ∉ ARTIFACTS.*1.
Proof. apply (bool_decide_eq_true_1 (RECORD_FILE ∉ ARTIFACTS.*1)). vm_compute. reflexivity. Qed.
Lemma quiet_copy j : preserves quiet (copy_artifacts os prefix torn pid j ARTIFACTS 0 false).
Proof. apply quiet_pres; [apply keys_copy|]. apply copy_file; [by vm_compute|apply record_not_copied]. Qed.
Lemma stamp_file n j : n <> LAUNCH_STAMP -> head n <> Some 46 -> preserves (same_file n) (write_stamp os prefix torn pid j).
Proof.
  intros Hn Hh. unfold write_stamp. pose proof (staged_file n LAUNCH_STAMP (utf8_encode (stamp_text j)) Hn Hh). pres.
Qed.
Lemma quiet_stamp j : preserves quiet (write_stamp os prefix torn pid j).
Proof. apply quiet_pres; [apply keys_stamp|]. by apply stamp_file; vm_compute. Qed.
Lemma quiet_say s : preserves quiet (say s). Proof. by apply quiet_pres; auto with pres. Qed.
Lemma quiet_create : preserves quiet (create_dir_all os). Proof. apply quiet_pres; [apply keys_create|apply file_create]. Qed.
Lemma quiet_readings : preserves quiet (readings os wine prefix lock user_reg).
Proof. apply quiet_pres; auto with pres. Qed.
Lemma quiet_read_record : preserves quiet (read_record os).
Proof. apply quiet_pres; auto with pres. Qed.
#[local] Hint Resolve quiet_copy quiet_stamp quiet_say quiet_create quiet_readings quiet_read_record : pres.


(** The decision to go on, as far as the readings behind it were right. *)
Definition permitted_but (missed : text -> Prop) (j : Job) (record : list (text * text)) (w : World) : Prop :=
  forced j = true \/ forall e : KeyEntry, e ∈ KEYS -> missed e.1.2 \/
    stops_install (holds w e.1.2) (recorded record e.1.1) (want_for e.1.2 (np_target j)) = false.
Definition permitted : Job -> list (text * text) -> World -> Prop := permitted_but (fun _ => False).
Lemma permitted_spec j record w w' rs : Forall2 (read_right w w') KEYS rs ->
  negb (bool_decide (length (omap (taken_of j record) rs) = 0%nat)) && negb (forced j) = false ->
  permitted_but (fun key => misread key w w') j record w.
Proof.
  intros Hrs [Hl%negb_false_iff%bool_decide_eq_true|Hf%negb_false_iff]%andb_false_iff; [|by left]. right. intros e He.
  apply nil_length_inv in Hl. apply list_elem_of_lookup in He as [i Hi].
  destruct (Forall2_lookup_l _ _ _ _ _ Hrs Hi) as ([e' r] & Hr & E & H). cbn [fst snd] in E, H. subst e'.
  destruct H as [-> |[-> H]]; [right|by left]. destruct (stops_install _ _ _) eqn:Es; [|done]. exfalso.
  assert (Hin : taken_of j record (e, holds w e.1.2) <> None) by (unfold taken_of; destruct e as [[n k] a]; cbn [fst snd] in *; by rewrite Es).
  destruct (taken_of j record (e, holds w e.1.2)) as [t|] eqn:Et; [|done].
  assert (Ht : t ∈ omap (taken_of j record) rs).
  { apply list_elem_of_omap. exists (e, holds w e.1.2). split; [|done]. by eapply list_elem_of_lookup_2. }
  rewrite Hl in Ht. by apply elem_of_nil in Ht.
Qed.
Lemma permitted_weaken (P Q : text -> Prop) j record w : (forall key, P key -> Q key) -> permitted_but P j record w -> permitted_but Q j record w.
Proof. intros H [Hp|Hp]; [by left|right]. intros e He. destruct (Hp e He); [left; auto|by right]. Qed.
(** What an install does to the keys and to the record, however its calls go: nothing, or
    it was permitted, and each key was left as it was or took its value. *)
Definition put_in (j : Job) (record : list (text * text)) (ft np : bool) (w w' : World) : Prop := exists w1 w2,
  quiet w w1 /\ wrote_if ft FT_KEY INSTALL_WIN_DIR w1 w2 /\ wrote_if np NP_KEY (np_target j) w2 w' /\
  (record_in (files_of w') = record_in (files_of w) \/ record_in (files_of w') = kept_record j record ft np).
Definition installs (j : Job) (w : World) (r : result text unit) (w' : World) : Prop :=
  quiet w w' /\ r <> Ok tt \/
  exists record ft np, read_as w record /\ permitted_but (fun key => misread key w w') j record w /\ put_in j record ft np w w' /\
    (r = Ok tt -> ft = true /\ np = true /\ record_in (files_of w') = kept_record j record true true).
Lemma put_in_quiet j record ft np w w1 w' : put_in j record ft np w w1 -> quiet w1 w' -> put_in j record ft np w w'.
Proof.
  intros (a & b & H1 & H2 & H3 & H4) Hq. exists a, b. rewrite (quiet_record _ _ Hq). split_and!; [done|done| |done].
  destruct Hq as [(Er & El & Eg) _]. unfold wrote_if, wrote, same_keys in *. rewrite Er, El.
  destruct np, H3 as (? & ? & ?); split_and!; try done; by etrans.
Qed.
Lemma quiet_before j record ft np w w1 w' : quiet w w1 -> put_in j record ft np w1 w' -> put_in j record ft np w w'.
Proof.
  intros Hq (a & b & H1 & H2 & H3 & H4). exists a, b. rewrite <- (quiet_record _ _ Hq). split_and!; [by etrans|done..].
Qed.
Lemma put_in_grows j record ft np w w' : put_in j record ft np w w' -> grows w w'.
Proof.
  intros (a & b & [(_ & _ & H1) _] & H2 & H3 & _). etrans; [exact H1|]. etrans; [by destruct ft, H2 as (_ & _ & ?)|by destruct np, H3 as (_ & _ & ?)].
Qed.
Lemma register_installs j record w (k : Io unit) : target_ok (np_target j) -> Forall entry_sound record -> NoDup record.*1 -> preserves quiet k ->
  post (all ← register os prefix torn pid j record; if negb all then throw (not_written wine) else k) w (fun r w' =>
    exists ft np, put_in j record ft np w w' /\ (r = Ok tt -> ft = true /\ np = true /\ record_in (files_of w') = kept_record j record true true)).
Proof.
  intros Ht Hr Hd Hk. apply post_bind. unfold post at 1. pose proof (register_ok j record w Ht Hr Hd) as H.
  destruct (register _ _ _ _ _ _ w) as [[[]|e] w']; cbn [fst snd negb]; destruct H as (ft & np & w1 & H1 & H2 & H3 & H4);
    (assert (Hp : put_in j record ft np w w') by (by exists w, w1)).
  - eapply post_mono; [apply (post_pres _ _ _ Hk)|]. intros r w2 Hq. exists ft, np. split; [by eapply put_in_quiet|]. intros _.
    rewrite (quiet_record _ _ Hq). by apply H4.
  - exists ft, np. by split.
  - exists ft, np. by split.
Qed.
(** A part of the command that is quiet: the rest decides. *)
Lemma quiet_step {A} j w v w0 (m : Io A) (k : A -> Io unit) : quiet w v -> quiet v w0 -> preserves quiet m ->
  (forall a w1, quiet v w1 -> m w0 = (Ok a, w1) -> post (k a) w1 (installs j w)) -> post (m ≫= k) w0 (installs j w).
Proof.
  intros Hv H0 Hm Hk. apply post_bind. unfold post at 1. specialize (Hm w0). destruct (m w0) as [[a|e] w1] eqn:E; cbn [fst snd] in *.
  - apply Hk; [by etrans|done].
  - left. split; [etrans; [done|]; by etrans|done].
Qed.
Theorem install_installs j w : honest -> target_ok (np_target j) ->
  post (install os wine prefix lock user_reg torn pid j) w (installs j w).
Proof.
  intros Hh Ht. unfold install. apply (quiet_step j w w w); [done|done|apply quiet_read_record|]. intros record v Hv E1.
  apply read_record_ok in E1 as (Hrec & Hs & Hd).
  apply (quiet_step j w v v); [done|done|apply quiet_readings|]. intros rs w2 Hq2 E2. apply readings_ok in E2; [|done].
  cbv zeta. destruct (negb _ && _) eqn:Et; [left; split; [by etrans|done]|]. apply (permitted_spec _ _ _ _ _ E2) in Et as Hp. clear E2 Et.
  assert (Hw2 : quiet w w2) by (by etrans). clear Hq2.
  apply (quiet_step j w w2 w2); [done|done|apply quiet_create|]. intros _ w3 Hq3 _.
  apply (quiet_step j w w2); [done|done|apply quiet_copy|]. intros [copied provider] w4 Hq4 _.
  apply (quiet_step j w w2); [done|done|destruct provider; [apply quiet_stamp|by intros ?]|]. intros _ w5 Hq5 _.
  apply (quiet_step j w w2); [done|done|apply quiet_say|]. intros _ w6 Hq6 _.
  apply (quiet_step j w w2); [done|done|apply quiet_say|]. intros _ w7 Hq7 _.
  eapply post_mono; [apply register_installs; try done; pres|]. intros r w' (ft & np & H1 & H2). right. exists record, ft, np.
  assert (Hg : grows w2 w') by (etrans; [apply keys_grow, Hq7|by eapply put_in_grows]).
  split_and!; [done| |eapply quiet_before; [|done]; by etrans|done].
  destruct Hp as [Hp|Hp]; [by left|]. right. intros e He. rewrite <- (quiet_holds w v) by done. destruct (Hp e He) as [Hm|?]; [left|by right].
  eapply misread_earlier; [apply keys_grow, Hv|]. by eapply misread_later.
Qed.

(** ** Uninstalling *)
Definition attributed (record : list (text * text)) (entries : list KeyEntry) (w : World) (key : text) : Prop :=
  exists e : KeyEntry, e ∈ entries /\ e.1.2 = key /\ is_ours (holds w key) (recorded record e.1.1) = true.
Definition cleared (record : list (text * text)) (entries : list KeyEntry) (w w' : World) : Prop :=
  landed w' = landed w /\ grows w w' /\ forall key, holds w' key = holds w key \/ holds w' key = Absent /\ attributed record entries w key.
Definition emptied (record : list (text * text)) (entries : list KeyEntry) (w w' : World) : Prop :=
  forall key, attributed record entries w key -> holds w' key = Absent \/ misread key w w'.
Lemma cleared_quiet record entries w w' : same_keys w w' -> cleared record entries w w'.
Proof. intros H. split_and!; [apply H|apply H|]. intros key. left. by apply same_keys_holds. Qed.
Lemma ours_there record w key : is_ours (holds w key) record = true -> holds w key <> Absent.
Proof. by intros H E; rewrite E in H. Qed.
Lemma cleared_grows record entries w w' : cleared record entries w w' -> grows w w'. Proof. by intros (_ & H & _). Qed.
Lemma cleared_trans record entries w1 w2 w3 : cleared record entries w1 w2 -> cleared record entries w2 w3 -> cleared record entries w1 w3.
Proof.
  intros (L1 & G1 & H1) (L2 & G2 & H2). split_and!; [congruence|by etrans|]. intros key. destruct (H2 key) as [->|[E (e & He & Hk & Ho)]]; [apply H1|].
  right. split; [done|]. exists e. split_and!; [done..|]. destruct (H1 key) as [<-|[Ea _]]; [done|]. by apply ours_there in Ho.
Qed.
Lemma cleared_more record entries entries' w w' : (forall e, e ∈ entries -> e ∈ entries') -> cleared record entries w w' -> cleared record entries' w w'.
Proof.
  intros Hi (L & G & H). split_and!; [done|done|]. intros key. destruct (H key) as [?|[? (e & ? & ? & ?)]]; [by left|]. right. split; [done|]. exists e. auto.
Qed.
Lemma cleared_absent record entries w w' key : cleared record entries w w' -> holds w key = Absent -> holds w' key = Absent.
Proof. intros (_ & _ & H) E. by destruct (H key) as [->|[? _]]. Qed.
Lemma undo_for_remove current wrote : undo_for current wrote = Remove <-> is_ours current wrote = true.
Proof. unfold undo_for. case_bool_decide as E; [subst; by split|]. by destruct (is_ours _ _). Qed.
Lemma remove_step record (e : KeyEntry) w : is_ours (holds w e.1.2) (recorded record e.1.1) = true ->
  post (del_value os wine prefix e.1.2) w (fun r w' => cleared record [e] w w' /\ (r = Ok true -> holds w' e.1.2 = Absent \/ misread e.1.2 w w')).
Proof.
  intros Ho. unfold post. pose proof (del_value_ok e.1.2 w) as H. destruct (del_value _ _ _ _ w) as [r w']. cbn [fst snd].
  destruct H as (Hl & Hg & Hr & Ht). split; [split_and!; [done|done|]|done]. intros key. destruct Hr as [Hr|[_ Hr]].
  - left. unfold holds. by rewrite Hr.
  - unfold holds at 1 3. rewrite Hr. destruct (decide (key = e.1.2)) as [->|Hn].
    + right. rewrite lookup_delete_eq. split; [done|]. exists e. split_and!; [apply list_elem_of_here|done..].
    + left. rewrite lookup_delete_ne by done. done.
Qed.
Definition failed (o : KeyOutcome) : bool := bool_decide (o.2 = Failed).
(** The loop: it clears only what is this program's; and when it gets to the end with
    nothing failed, all of that. *)
Definition undid (record : list (text * text)) (entries : list KeyEntry) (w : World) (outs : list KeyOutcome)
    (r : result text (list KeyOutcome * option text)) (w' : World) : Prop :=
  cleared record entries w w' /\
  forall outs', r = Ok (outs', None) -> exists more, outs' = outs ++ more /\ (existsb failed more = false -> emptied record entries w w').
Lemma undid_cons record e entries w w1 outs o r w' : cleared record [e] w w1 ->
  (o.2 <> Failed -> emptied record [e] w w1) -> undid record entries w1 (outs ++ [o]) r w' -> undid record (e :: entries) w outs r w'.
Proof.
  intros H1 Ho [H2 H3]. split.
  - eapply cleared_trans; eapply cleared_more; [|exact H1| |exact H2].
    + intros x ->%list_elem_of_singleton. apply list_elem_of_here.
    + intros x Hx. by apply list_elem_of_further.
  - intros outs' (more & -> & Hm)%H3. exists (o :: more). rewrite <- app_assoc. split; [done|]. cbn [existsb]. intros [Hf Hr]%orb_false_iff.
    assert (Ho' : emptied record [e] w w1) by (apply Ho; intros E; unfold failed in Hf; by rewrite bool_decide_eq_false in Hf).
    intros key (x & Hx & Hk & Hi). apply elem_of_cons in Hx as [-> | Hx].
    + destruct (Ho' key) as [E|E].
      * exists e. split_and!; [apply list_elem_of_here|done..].
      * left. by eapply cleared_absent.
      * right. by eapply misread_later, cleared_grows.
    + destruct H1 as (_ & G1 & H1). destruct (H1 key) as [E|[E _]]; [|left; by eapply cleared_absent].
      destruct (Hm Hr key) as [?|?]; [exists x; by rewrite E|by left|right]. by eapply misread_earlier.
Qed.
Lemma undo_loop_ok record entries outs w : post (undo_loop os wine prefix record entries outs) w (undid record entries w outs).
Proof.
  revert outs w. induction entries as [|e entries IH]; intros outs w; cbn [undo_loop].
  { split; [by apply cleared_quiet|]. intros outs' [= <-]. exists []. rewrite app_nil_r. split; [done|]. intros _ key (x & Hx & _). by apply elem_of_nil in Hx. }
  destruct e as [[name key] abi]. pose proof (keys_read_key key w) as Hk. apply post_bind. unfold post at 1, attempt.
  destruct (read_key os wine prefix key w) as [[current|err] w1] eqn:E; cbn [fst snd] in *; [|split; [by apply cleared_quiet|done]].
  apply read_key_ok in E. set (e := (name, key, abi) : KeyEntry).
  assert (Hkeep : forall o w2, same_keys w1 w2 -> undo_for current (recorded record name) <> Remove ->
    post (undo_loop os wine prefix record entries (outs ++ [(abi, key, o)])) w2 (undid record (e :: entries) w outs)).
  { intros o w2 H2 Hn. eapply post_mono; [apply IH|]. intros r w'. apply undid_cons.
    - apply cleared_quiet. by etrans.
    - intros _ k (x & ->%list_elem_of_singleton & Hx & Ho). cbn in Hx. subst k.
      destruct E as [-> |[_ E]]; [by apply undo_for_remove in Ho|right]. by eapply misread_later, keys_grow. }
  apply post_bind. destruct (undo_for current (recorded record name)) as [| |why] eqn:Eu.
  - apply undo_for_remove in Eu. destruct E as [-> |[-> _]]; [|done]. assert (Ho : is_ours (holds w1 key) (recorded record name) = true) by (by rewrite (same_keys_holds w w1)).
    pose proof (remove_step record e w1 Ho) as H. unfold post in H. cbn [e fst snd] in H.
    apply post_bind. unfold post at 1. destruct (del_value os wine prefix key w1) as [[done|err] w2]; cbn [fst snd] in *; destruct H as [H2 H3].
    + unfold post at 1. cbn. eapply post_mono; [apply IH|]. intros r w'. apply undid_cons.
      * eapply cleared_trans; [by apply cleared_quiet|done].
      * intros Hf k (x & ->%list_elem_of_singleton & Hx & _). cbn in Hx. subst k.
        destruct H3 as [?|?]; [by destruct done|by left|right]. by eapply misread_earlier; [apply keys_grow|].
    + split; [|done]. eapply cleared_trans; [by apply cleared_quiet|]. eapply cleared_more; [|exact H2].
      intros x ->%list_elem_of_singleton. apply list_elem_of_here.
  - by apply Hkeep.
  - by apply Hkeep.
Qed.
Lemma file_undo_loop n record entries outs : preserves (same_file n) (undo_loop os wine prefix record entries outs).
Proof.
  revert outs. induction entries as [|[[name key] abi] entries IH]; intros outs; cbn [undo_loop]; [pres|].
  pose proof (del_value_file n key). pres.
Qed.
Lemma file_undo_keys n record : preserves (same_file n) (undo_keys os wine prefix lock user_reg record).
Proof. unfold undo_keys. pose proof (file_undo_loop n record KEYS []). pres. Qed.
Lemma settled_nothing record w (entries : list KeyEntry) outs :
  mapM (settled_outcome record) ((fun e : KeyEntry => (e, holds w e.1.2)) <$> entries) = Some outs -> emptied record entries w w.
Proof.
  intros H key (e & He & <- & Ho). exfalso. apply mapM_Some in H.
  apply list_elem_of_lookup in He as [i Hi].
  destruct (Forall2_lookup_l _ _ _ i (e, holds w e.1.2) H) as (o & _ & E); [by rewrite list_lookup_fmap, Hi|].
  unfold settled_outcome in E. destruct e as [[n k] a]. cbn [fst snd] in *. apply undo_for_remove in Ho. by rewrite Ho in E.
Qed.
Lemma undo_keys_ok record w : honest -> post (undo_keys os wine prefix lock user_reg record) w (undid record KEYS w []).
Proof.
  intros Hh. unfold undo_keys, gets. apply post_bind. unfold post at 1. cbn [fst snd].
  destruct (settled_keys prefix lock user_reg w) as [rs|] eqn:Es; cbn [mbind option_bind]; [|apply undo_loop_ok].
  destruct (mapM _ rs) as [outs|] eqn:Em; [|apply undo_loop_ok]. apply settled_ok in Es as ->; [|done]. apply settled_nothing in Em.
  split; [by apply cleared_quiet|]. intros outs' [= <-]. by exists outs.
Qed.
(** What an uninstall does, however its calls go. *)
Definition uninstalls (w : World) (r : result text unit) (w' : World) : Prop :=
  exists record, read_as w record /\ cleared record KEYS w w' /\
    (record_in (files_of w') = record_in (files_of w) \/ record_in (files_of w') = []) /\
    (r = Ok tt -> folder w' = None /\ emptied record KEYS w w').
Lemma remove_dir_record w : let w' := (remove_dir_all os survives w).2 in
  record_in (files_of w') = record_in (files_of w) \/ record_in (files_of w') = [].
Proof.
  unfold remove_dir_all, gets, ask, mbind, M_bind. cbn -[RECORD_FILE]. destruct (io_error (os (calls w))) as [e|]; cbn -[RECORD_FILE]; [|by right].
  unfold files_of. cbn [folder default]. unfold record_in. destruct (survives (calls w) RECORD_FILE) eqn:Es.
  - left. destruct (default ∅ (folder w) !! RECORD_FILE) as [b|] eqn:E.
    + assert (Ef : base.filter (fun kv => survives (calls w) (fst kv) = true) (default ∅ (folder w)) !! RECORD_FILE = Some b) by (by apply map_lookup_filter_Some).
      by rewrite Ef.
    + assert (Ef : base.filter (fun kv => survives (calls w) (fst kv) = true) (default ∅ (folder w)) !! RECORD_FILE = None) by (apply map_lookup_filter_None; by left).
      by rewrite Ef.
  - right. assert (Ef : base.filter (fun kv => survives (calls w) (fst kv) = true) (default ∅ (folder w)) !! RECORD_FILE = None).
    { apply map_lookup_filter_None. right. intros b _ H. cbn [fst] in H. congruence. }
    by rewrite Ef.
Qed.
Lemma remove_dir_gone w : (remove_dir_all os survives w).1 = Ok tt -> folder (remove_dir_all os survives w).2 = None.
Proof. unfold remove_dir_all, gets, ask, mbind, M_bind. cbn. by destruct (io_error (os (calls w))). Qed.
Lemma clear_folder text w : post (there ← gets (fun w => bool_decide (is_Some (folder w)));
    if there : bool then _ ← remove_dir_all os survives; say text else mret tt) w (fun r w' =>
  same_keys w w' /\ (record_in (files_of w') = record_in (files_of w) \/ record_in (files_of w') = []) /\ (r = Ok tt -> folder w' = None)).
Proof.
  unfold gets. apply post_bind. unfold post at 1. cbn [fst snd]. case_bool_decide as E.
  - apply post_bind. unfold post at 1. pose proof (keys_remove_dir w) as Hk. pose proof (remove_dir_record w) as Hr. pose proof (remove_dir_gone w) as Hg.
    destruct (remove_dir_all os survives w) as [[[]|e] w1]; cbn [fst snd] in *; [|by split_and!].
    unfold say, post. cbn. split_and!; [done|done|]. intros _. by apply Hg.
  - split_and!; [done|by left|]. intros _. cbn. destruct (folder w); [|done]. by destruct E.
Qed.
Theorem uninstall_uninstalls w : honest -> post (uninstall os wine prefix lock user_reg survives) w (uninstalls w).
Proof.
  intros Hh. unfold uninstall. apply post_bind. unfold post at 1. pose proof (quiet_read_record w) as Hq.
  destruct (read_record os w) as [[record|e] w1] eqn:E; [|by unfold read_record, ask, gets, mbind, M_bind in E; cbn in E; destruct (io_error _)].
  apply read_record_ok in E as (Hrec & _). cbn [fst snd] in *. apply post_bind. unfold post at 1.
  pose proof (undo_keys_ok record w1 Hh) as [Hc Hm]. pose proof (record_in_same _ _ (file_undo_keys RECORD_FILE record w1)) as Hr.
  rewrite (quiet_record w w1) in Hr by done.
  assert (Hc0 : cleared record KEYS w (undo_keys os wine prefix lock user_reg record w1).2) by (eapply cleared_trans; [apply cleared_quiet, Hq|done]).
  assert (He : forall w2 w3, cleared record KEYS w1 w2 -> same_keys w2 w3 -> emptied record KEYS w1 w2 -> emptied record KEYS w w3).
  { intros w2 w3 _ H2 H3 key (x & Hx & Hk & Ho). rewrite (same_keys_holds w2 w3) by done.
    destruct (H3 key) as [?|?]; [exists x; by rewrite (quiet_holds w w1)|by left|right].
    eapply misread_earlier; [apply keys_grow, Hq|]. eapply misread_later; [done|by apply keys_grow]. }
  destruct (undo_keys _ _ _ _ _ record w1) as [[[outs unread]|e] w2]; cbn [fst snd] in *.
  2: { exists record. split_and!; [done|done|by left|done]. }
  apply post_bind. unfold post at 1, say. cbn [fst snd]. set (w3 := {| registry := registry w2; folder := folder w2; calls := calls w2; said := said w2 ++ [report outs]; landed := landed w2; blind := blind w2 |}).
  assert (H3 : same_keys w2 w3) by (by apply keys_kept).
  assert (Hc3 : cleared record KEYS w w3) by (eapply cleared_trans; [exact Hc0|by apply cleared_quiet]).
  destruct unread as [e|]; [exists record; split_and!; [done|done|by left|done]|].
  destruct (existsb (fun o : text * text * Outcome => bool_decide (o.2 = Failed)) outs) eqn:Ef.
  { unfold post, throw. cbn [fst snd]. exists record. split_and!; [done|done|by left|done]. }
  eapply post_mono; [apply clear_folder|]. intros r w' (H4 & H5 & H6). exists record. split_and!; [done| | |].
  - eapply cleared_trans; [exact Hc3|by apply cleared_quiet].
  - change (files_of w3) with (files_of w2) in H5. rewrite Hr in H5. done.
  - intros Ho. split; [by apply H6|]. destruct (Hm outs eq_refl) as (more & Eo & Hm'). cbn [app] in Eo. subst more.
    apply (He w2); [done|by etrans|by apply Hm'].
Qed.
End Command.

(** ** Any sequence of commands *)
(** A prefix over time: installs and uninstalls, forced or not, however their calls go, and
    other programs writing or clearing any key. *)
Inductive step (prefix : text) : World -> World -> Prop :=
  | step_install os wine lock user_reg torn pid j w : honest lock user_reg -> target_ok (np_target j) ->
      step prefix w (install os wine prefix lock user_reg torn pid j w).2
  | step_uninstall os wine lock user_reg survives w : honest lock user_reg ->
      step prefix w (uninstall os wine prefix lock user_reg survives w).2
  | step_other key (r : option Reading) w : step prefix w
      {| registry := partial_alter (fun _ => r) key (registry w); folder := folder w; calls := calls w; said := said w; landed := landed w; blind := blind w |}.
(** An uninstall, or an install without [--force]. *)
Inductive unforced (prefix : text) : World -> World -> Prop :=
  | unforced_install os wine lock user_reg torn pid j w : honest lock user_reg -> target_ok (np_target j) -> forced j = false ->
      unforced prefix w (install os wine prefix lock user_reg torn pid j w).2
  | unforced_uninstall os wine lock user_reg survives w : honest lock user_reg ->
      unforced prefix w (uninstall os wine prefix lock user_reg survives w).2.

(** What is recorded was written by an install. *)
Definition recorded_landed (w : World) : Prop := forall e : KeyEntry, e ∈ KEYS ->
  forall v, recorded (record_in (files_of w)) e.1.1 = Some v -> (e.1.2, v) ∈ landed w.
Definition accounted (record : list (text * text)) (w : World) : Prop :=
  forall e : KeyEntry, e ∈ KEYS -> forall v, recorded record e.1.1 = Some v -> (e.1.2, v) ∈ landed w.
Lemma accounted_of os w record : recorded_landed w -> read_as os w record -> accounted record w.
Proof. intros H [-> | [-> _]]; [done|]. by intros e _ v [=]. Qed.
Lemma keys_cases (e : KeyEntry) : e ∈ KEYS -> e.1 = (txt "ft", FT_KEY) \/ e.1 = (txt "np", NP_KEY).
Proof. unfold KEYS. intros [-> | [-> | []%elem_of_nil]%elem_of_cons]%elem_of_cons; [by left|by right]. Qed.
Lemma names_differ : text_eqb (txt "ft") (txt "np") = false /\ text_eqb (txt "np") (txt "ft") = false.
Proof. by vm_compute. Qed.
Lemma wrote_landed b key v w w' : wrote_if b key v w w' -> landed w' = (if b then [(key, v)] else []) ++ landed w.
Proof. by destruct b; intros (_ & -> & _). Qed.
Lemma wrote_holds b key v w w' k : wrote_if b key v w w' -> holds w' k = if b && text_eqb key k then Plain v else holds w k.
Proof.
  destruct b; intros [H _]; unfold holds; rewrite H; [|done]. cbn [andb]. unfold text_eqb. case_bool_decide as E.
  - subst. by rewrite lookup_insert_eq.
  - by rewrite lookup_insert_ne.
Qed.
Lemma put_in_landed j record ft np w w' : accounted record w -> recorded_landed w -> put_in j record ft np w w' -> recorded_landed w'.
Proof.
  intros Ha Hl (w1 & w2 & [(_ & H0 & _) _] & H1%wrote_landed & H2%wrote_landed & H3) e He v. rewrite H2, H1, H0.
  destruct H3 as [-> | ->]; [intros Hv; apply elem_of_app; right; apply elem_of_app; right; by apply Hl|].
  specialize (Ha e He). destruct names_differ as [Nf Nn]. rewrite kept_record_eq. cbv zeta.
  destruct (keys_cases e He) as [E|E]; rewrite E in *; cbn [fst snd] in *; destruct ft, np; rewrite ?recorded_upsert, ?Nf, ?Nn, ?text_eqb_refl;
    rewrite !elem_of_app; intros Hv; try (by right; right; apply Ha); try (injection Hv as <-).
  all: try (by left; apply list_elem_of_here). all: try (by right; left; apply list_elem_of_here).
Qed.
Lemma step_landed prefix w w' : recorded_landed w -> step prefix w w' -> recorded_landed w'.
Proof.
  intros Hl Hs. destruct Hs as [os wine lock user_reg torn pid j w Hh Ht|os wine lock user_reg survives w Hh|key r w]; [..|done].
  - destruct (install_installs os wine prefix lock user_reg torn pid j w Hh Ht) as [[Hq _]|(record & ft & np & Hr & _ & Hp & _)].
    + intros e He v. rewrite (quiet_record _ _ Hq). destruct Hq as [(_ & -> & _) _]. by apply Hl.
    + eapply put_in_landed; [|done|exact Hp]. by eapply accounted_of.
  - destruct (uninstall_uninstalls os wine prefix lock user_reg survives w Hh) as (record & _ & (Hl' & _) & Hr & _).
    intros e He v. rewrite Hl'. destruct Hr as [-> | ->]; [by apply Hl|done].
Qed.

(** A value that is this program's: its own directory, or what an install once put into this
    very key. *)
Definition theirs_to_take (w : World) (key v : text) : Prop := same v INSTALL_WIN_DIR \/ exists v0, (key, v0) ∈ landed w /\ same v v0.
Lemma ours_taken record w (e : KeyEntry) v : accounted record w -> e ∈ KEYS -> ours (recorded record e.1.1) v -> theirs_to_take w e.1.2 v.
Proof. intros Ha He [H|(v0 & Hr & H)]; [by left|]. right. exists v0. split; [|done]. by apply Ha. Qed.
Lemma permitted_taken missed j record w w' (e : KeyEntry) : accounted record w -> permitted_but missed j record w -> forced j = false -> e ∈ KEYS ->
  holds w' e.1.2 = Plain (want_for e.1.2 (np_target j)) ->
  missed e.1.2 \/ holds w e.1.2 = Absent \/
  exists v, holds w e.1.2 = Plain v /\ (theirs_to_take w e.1.2 v \/ exists v0, holds w' e.1.2 = Plain v0 /\ same v v0).
Proof.
  intros Ha [Hp|Hp] Hf He Hw; [congruence|]. destruct (Hp e He) as [?|Hs']; [by left|right]. clear Hp.
  apply refused_or_accounted in Hs' as [?|(v & Hv & [Ho|[_ Hs]])]; [by left| |]; right; exists v; (split; [done|]).
  - left. by eapply ours_taken.
  - right. eauto.
Qed.
Definition fresh (w : World) : Prop := landed w = [] /\ record_in (files_of w) = [].
Lemma reached_landed prefix w0 w : fresh w0 -> rtc (step prefix) w0 w -> recorded_landed w.
Proof.
  intros [Hl Hr] Hs. assert (H0 : recorded_landed w0) by (intros e He v; by rewrite Hr). clear Hl Hr.
  induction Hs as [|w0 w1 w H1 _ IH]; [done|]. apply IH. by eapply step_landed.
Qed.
Lemma text_eqb_iff a b : text_eqb a b = true <-> a = b.
Proof. apply bool_decide_eq_true. Qed.
Lemma key_of_want key : key = FT_KEY \/ key = NP_KEY -> exists e : KeyEntry, e ∈ KEYS /\ e.1.2 = key.
Proof.
  intros [-> | ->]; unfold KEYS; eexists; (split; [|]).
  1: apply list_elem_of_here. 1: done. 1: apply list_elem_of_further, list_elem_of_here. done.
Qed.
Lemma put_in_holds j record ft np w w' key : put_in j record ft np w w' ->
  holds w' key = holds w key \/ (key = FT_KEY \/ key = NP_KEY) /\ holds w' key = Plain (want_for key (np_target j)).
Proof.
  intros (w1 & w2 & Hq & H1 & H2 & _). rewrite (wrote_holds _ _ _ _ _ key H2), (wrote_holds _ _ _ _ _ key H1), (quiet_holds w w1) by done.
  destruct (np && text_eqb NP_KEY key) eqn:E2.
  - apply andb_true_iff in E2 as [_ <-%text_eqb_iff]. right. split; [by right|]. by rewrite want_np.
  - destruct (ft && text_eqb FT_KEY key) eqn:E1; [|by left]. apply andb_true_iff in E1 as [_ <-%text_eqb_iff]. right. split; [by left|]. by rewrite want_ft.
Qed.

(** ** When every call is done *)
Section Fine.
Context (os : nat -> Answer) (wine prefix : text) (lock : World -> Lock) (user_reg : World -> result text bytes).
Context (torn : nat -> option bytes) (survives : nat -> text -> bool) (pid : Z) (all_fine : forall n, os n = Fine).
Definition completes {A} (m : Io A) (w : World) : Prop := exists a, (m w).1 = Ok a.
Lemma completes_ret {A} (a : A) w : completes (mret a) w. Proof. by exists a. Qed.
Lemma completes_bind {A B} (m : Io A) (k : A -> Io B) w :
  completes m w -> (forall a w1, m w = (Ok a, w1) -> completes (k a) w1) -> completes (m ≫= k) w.
Proof.
  intros [a Ha] Hk. unfold completes, mbind, M_bind. destruct (m w) as [r w1] eqn:E. cbn in Ha. subst r. by apply (Hk a w1).
Qed.
Lemma completes_attempt {A} (m : Io A) w : completes (attempt m) w.
Proof. unfold completes, attempt. destruct (m w). by eexists. Qed.
Lemma attempt_completes {A} (m : Io A) w r w1 : completes m w -> attempt m w = (Ok r, w1) -> exists a, r = Ok a.
Proof. intros [a Ha]. unfold attempt. destruct (m w) as [r' w']. cbn in Ha. subst r'. intros [= <- <-]. by exists a. Qed.
Lemma completes_say s w : completes (say s) w. Proof. by eexists. Qed.
Lemma completes_read_key key w : completes (read_key os wine prefix key) w.
Proof.
  unfold completes, read_key, ask, gets, mbind, M_bind. cbn. rewrite all_fine. destruct (holds _ key); [|by eexists..].
  unfold probed, ask, overlooked, mbind, M_bind. cbn. rewrite all_fine. by eexists.
Qed.
(** Nothing is misread then. *)
Definition same_blind (w w' : World) : Prop := blind w' = blind w.
#[local] Instance same_blind_preorder : PreOrder same_blind.
Proof. unfold same_blind. split; [done|]. intros a b c. congruence. Qed.
Lemma blind_read_key key : preserves same_blind (read_key os wine prefix key).
Proof.
  intros w. unfold same_blind, read_key, ask, gets, mbind, M_bind. cbn. rewrite all_fine. destruct (holds _ key); [|done..].
  unfold probed, ask, overlooked, mbind, M_bind. cbn. by rewrite all_fine.
Qed.
Lemma read_key_fine key w r w' : read_key os wine prefix key w = (Ok r, w') -> r = holds w key.
Proof.
  intros E. pose proof (blind_read_key key w) as Hb. rewrite E in Hb. apply read_key_ok in E as [?|[_ Hm]]; [done|].
  by apply (misread_same _ _ _ Hb) in Hm.
Qed.
Lemma blind_undo_loop record entries outs : preserves same_blind (undo_loop os wine prefix record entries outs).
Proof.
  assert (Ha : preserves same_blind (ask os)) by (by intros w). assert (Hs : forall x, preserves same_blind (say x)) by (by intros x w).
  assert (Hd : forall key, preserves same_blind (drop_value key)) by (by intros key w). pose proof blind_read_key as Hr.
  assert (Hv : forall key, preserves same_blind (del_value os wine prefix key)).
  { intros key. specialize (Hr key). unfold del_value. pres. }
  revert outs. induction entries as [|[[name key] abi] entries IH]; intros outs; cbn [undo_loop]; [pres|].
  specialize (Hr key). specialize (Hv key). pres.
Qed.
Lemma blind_uninstall : preserves same_blind (uninstall os wine prefix lock user_reg survives).
Proof.
  assert (Ha : preserves same_blind (ask os)) by (by intros w). assert (Hs : forall x, preserves same_blind (say x)) by (by intros x w).
  assert (Hd : forall d, preserves same_blind (set_folder d)) by (by intros d w). pose proof (fun r => blind_undo_loop r KEYS []) as Hl.
  assert (Hk : forall r, preserves same_blind (undo_keys os wine prefix lock user_reg r)).
  { intros r. specialize (Hl r). unfold undo_keys. pres. }
  unfold uninstall, read_record, remove_dir_all. pres.
Qed.
Lemma completes_read_all l w : completes (read_all os wine prefix l) w.
Proof.
  revert w. induction l as [|e l IH]; intros w; cbn [read_all]; [apply completes_ret|].
  apply completes_bind; [apply completes_read_key|]. intros r w1 _. apply completes_bind; [apply IH|]. intros rs w2 _. apply completes_ret.
Qed.
Lemma completes_readings w : completes (readings os wine prefix lock user_reg) w.
Proof.
  unfold readings, gets. apply completes_bind; [by eexists|]. intros s w1 _. destruct s; [apply completes_ret|apply completes_read_all].
Qed.
Lemma completes_read_record w : completes (read_record os) w.
Proof. unfold completes, read_record, ask, gets, mbind, M_bind. by eexists. Qed.
Lemma completes_create w : completes (create_dir_all os) w.
Proof. unfold completes, create_dir_all, ask, gets, mbind, M_bind. cbn. rewrite all_fine. by eexists. Qed.
Lemma write_fine name b w : exists w1, write_file os torn name b w = (Ok tt, w1) /\ files_of w1 !! name = Some b.
Proof.
  unfold write_file, ask, gets, mbind, M_bind. cbn. rewrite all_fine. eexists. split; [reflexivity|]. apply lookup_insert_eq.
Qed.
Lemma rename_fine from to b w : files_of w !! from = Some b -> completes (rename os from to) w.
Proof. intros H. unfold completes, rename, ask, gets, mbind, M_bind. cbn. fold (files_of w). rewrite all_fine, H. by eexists. Qed.
Lemma completes_staged name b w : completes (staged os torn pid name b) w.
Proof.
  unfold staged. destruct (write_fine (staging_name name pid) b w) as (w1 & E & H). destruct (rename_fine _ name b w1 H) as [[] Hr].
  unfold completes, attempt, mbind, M_bind. rewrite E. destruct (rename _ _ _ w1) as [r w2]. cbn in Hr. subst r. by eexists.
Qed.
Lemma completes_write_record l w : completes (write_record os prefix torn pid l) w.
Proof.
  unfold write_record. destruct (completes_staged RECORD_FILE (utf8_encode (render_record l)) w) as [[] H].
  unfold completes, attempt, mbind, M_bind. destruct (staged _ _ _ _ _ w) as [r w1]. cbn in H. subst r. by eexists.
Qed.
Lemma completes_stamp j w : completes (write_stamp os prefix torn pid j) w.
Proof.
  unfold write_stamp. apply completes_bind; [apply completes_attempt|]. intros r w1 _. destruct r; [apply completes_ret|apply completes_say].
Qed.
Lemma completes_copy j l c p w : Forall (fun a : text * bool => a.2 = true -> is_Some (artifacts j a.1)) l ->
  completes (copy_artifacts os prefix torn pid j l c p) w.
Proof.
  intros H. revert c p w. induction H as [|[name req] l Hr _ IH]; intros c p w; cbn [copy_artifacts]; [apply completes_ret|]. cbn [fst snd] in Hr.
  destruct (artifacts j name) as [b|] eqn:E.
  - cbv zeta. destruct (write_fine (staging_name name pid) b w) as (w1 & Ew & Hb). apply completes_bind; [by exists tt; rewrite Ew|].
    rewrite Ew. intros a w2 [= <- <-]. pose proof (rename_fine _ name b w1 Hb) as Hn.
    apply completes_bind; [apply completes_attempt|]. intros r w3 Er. destruct (attempt_completes _ _ _ _ Hn Er) as [a ->].
    apply completes_bind; [apply completes_say|]. intros _ w4 _. apply IH.
  - destruct req; [destruct (Hr eq_refl) as [? [=]]|]. apply completes_bind; [apply completes_say|]. intros _ w1 _. apply IH.
Qed.
Lemma completes_set_key key v w : exists w1, set_key os key v w = (Ok true, w1).
Proof. unfold set_key, ask, mbind, M_bind. cbn. rewrite all_fine. by eexists. Qed.
Lemma completes_register j record w : exists w1, register os prefix torn pid j record w = (Ok true, w1).
Proof.
  unfold register, mbind, M_bind. destruct (completes_set_key FT_KEY INSTALL_WIN_DIR w) as [w1 ->].
  destruct (completes_set_key NP_KEY (np_target j) w1) as [w2 ->]. cbn [orb andb].
  destruct (completes_write_record (kept_record j record true true) w2) as [[] H]. destruct (write_record _ _ _ _ _ w2) as [r w3].
  cbn in H. subst r. by eexists.
Qed.

Definition supplied (j : Job) : Prop := Forall (fun a : text * bool => a.2 = true -> is_Some (artifacts j a.1)) ARTIFACTS.
Lemma not_refused j record w w' rs : permitted j record w -> Forall2 (read_right w w') KEYS rs ->
  negb (bool_decide (length (omap (taken_of j record) rs) = 0%nat)) && negb (forced j) = false.
Proof.
  intros Hp Hrs. destruct Hp as [-> | Hp]; [by rewrite andb_false_r|].
  assert (Hn : omap (taken_of j record) rs = []); [|by rewrite Hn].
  assert (Hf : Forall (fun r : KeyEntry * Reading => taken_of j record r = None) rs).
  { apply Forall_lookup. intros i [e r] Hr. destruct (Forall2_lookup_r _ _ _ _ _ Hrs Hr) as (e' & He & E & H). cbn [fst snd] in E, H. subst e'.
    destruct (Hp e) as [[]|Hs]; [by eapply list_elem_of_lookup_2|]. unfold taken_of. destruct e as [[n k] a]. cbn [fst snd] in *.
    destruct H as [-> |[-> _]]; [by rewrite Hs|done]. }
  clear Hrs. induction Hf as [|r rs Hr _ IH]; [done|]. cbn. rewrite Hr. exact IH.
Qed.
Lemma completes_install j w : honest lock user_reg -> supplied j -> permitted j (record_in (files_of w)) w ->
  completes (install os wine prefix lock user_reg torn pid j) w.
Proof.
  intros Hh Hs Hp. unfold install. apply completes_bind; [apply completes_read_record|]. intros record w1 E1.
  pose proof (quiet_read_record os w) as Hq. rewrite E1 in Hq. apply read_record_ok in E1 as ([-> |[_ Hn]] & _ & _); [|by rewrite all_fine in Hn].
  apply completes_bind; [apply completes_readings|]. intros rs w2 E2. apply readings_ok in E2; [|done]. cbv zeta.
  rewrite (not_refused j _ _ _ rs) with (2 := E2).
  2: { destruct Hp as [Hp|Hp]; [by left|]. right. intros e He. rewrite (quiet_holds w w1) by done. by apply Hp. }
  apply completes_bind; [apply completes_create|]. intros _ w3 _. apply completes_bind; [by apply completes_copy|]. intros [copied provider] w4 _.
  apply completes_bind; [destruct provider; [apply completes_stamp|apply completes_ret]|]. intros _ w5 _.
  apply completes_bind; [apply completes_say|]. intros _ w6 _. apply completes_bind; [apply completes_say|]. intros _ w7 _.
  destruct (completes_register j (record_in (files_of w)) w7) as [w8 E8]. apply completes_bind; [by exists true; rewrite E8|].
  rewrite E8. intros all w9 [= <- <-]. cbn [negb]. do 2 (apply completes_bind; [apply completes_say|]; intros ? ? _). apply completes_say.
Qed.
Lemma undo_loop_fine record entries outs w : exists outs' w',
  undo_loop os wine prefix record entries outs w = (Ok (outs', None), w') /\ (existsb failed outs = false -> existsb failed outs' = false).
Proof.
  revert outs w. induction entries as [|[[name key] abi] entries IH]; intros outs w; cbn [undo_loop]; [by exists outs, w|].
  pose proof (completes_read_key key w) as [r Hr]. unfold attempt. unfold mbind at 1, M_bind at 1.
  destruct (read_key os wine prefix key w) as [r' w1] eqn:E. cbn in Hr. subst r'. pose proof (keys_read_key os wine prefix key w) as Hk.
  rewrite E in Hk. apply read_key_fine in E as ->. cbn [snd] in Hk.
  assert (Hn : forall o w2, failed (abi, key, o) = false -> exists outs' w',
    undo_loop os wine prefix record entries (outs ++ [(abi, key, o)]) w2 = (Ok (outs', None), w') /\ (existsb failed outs = false -> existsb failed outs' = false)).
  { intros o w2 Ho. destruct (IH (outs ++ [(abi, key, o)]) w2) as (outs' & w' & E & H). exists outs', w'. split; [done|]. intros Hf. apply H.
    rewrite existsb_app, Hf. cbn. by rewrite Ho. }
  destruct (undo_for (holds w key) (recorded record name)) as [| |why] eqn:Eu.
  - apply undo_for_remove, ours_there in Eu. rewrite <- (same_keys_holds w w1) in Eu by done.
    assert (Ed : exists w2, del_value os wine prefix key w1 = (Ok true, w2)).
    { unfold del_value, ask, gets. unfold mbind at 1 2, M_bind at 1 2. cbn -[attempt]. rewrite all_fine.
      change (holds _ key) with (holds w1 key). destruct (holds w1 key); [done|by eexists..]. }
    destruct Ed as [w2 Ed]. unfold mbind at 1 2, M_bind at 1 2. rewrite Ed. by apply Hn.
  - unfold mbind at 1, M_bind at 1. cbn. by apply Hn.
  - unfold mbind at 1, M_bind at 1. cbn. by apply Hn.
Qed.
Lemma undo_keys_fine record w : exists outs w', undo_keys os wine prefix lock user_reg record w = (Ok (outs, None), w') /\ existsb failed outs = false.
Proof.
  unfold undo_keys, gets. unfold mbind at 1, M_bind at 1. cbn.
  assert (Hl : exists outs w', undo_loop os wine prefix record KEYS [] w = (Ok (outs, None), w') /\ existsb failed outs = false).
  { destruct (undo_loop_fine record KEYS [] w) as (outs & w' & E & H). exists outs, w'. by split; [|apply H]. }
  destruct (settled_keys prefix lock user_reg w) as [rs|]; cbn [mbind option_bind]; [|done]. destruct (mapM _ rs) as [outs|] eqn:Em; [|done].
  exists outs, w. split; [done|]. apply mapM_Some in Em. clear Hl. induction Em as [|[[[n k] a] c] o rs outs Ho _ IH]; [done|].
  cbn [existsb]. rewrite IH, orb_false_r. unfold settled_outcome in Ho. destruct (undo_for _ _); [done|by injection Ho as <-..].
Qed.
Lemma completes_uninstall w : completes (uninstall os wine prefix lock user_reg survives) w.
Proof.
  unfold uninstall. apply completes_bind; [apply completes_read_record|]. intros record w1 _.
  destruct (undo_keys_fine record w1) as (outs & w2 & E & Hf). apply completes_bind; [by eexists; rewrite E|]. rewrite E. intros ? ? [= <- <-].
  apply completes_bind; [apply completes_say|]. intros _ w3 _.
  assert (Hf' : existsb (fun o : text * text * Outcome => bool_decide (o.2 = Failed)) outs = false) by exact Hf.
  rewrite Hf'. apply completes_bind; [by eexists|]. intros there w4 _. destruct there; [|apply completes_ret].
  apply completes_bind; [|intros; apply completes_say]. unfold completes, remove_dir_all, ask, gets, mbind, M_bind. cbn. rewrite all_fine. by eexists.
Qed.
(** With every call done, an install that is permitted succeeds and both discovery keys hold
    what it announces; and an uninstall after it succeeds, empties both, changes no other key
    and leaves nothing of the folder. *)
Theorem installed_and_removed (j : Job) (w : World) : honest lock user_reg -> target_ok (np_target j) -> supplied j ->
  permitted j (record_in (files_of w)) w -> exists w1 w2,
  install os wine prefix lock user_reg torn pid j w = (Ok tt, w1) /\ holds w1 FT_KEY = Plain INSTALL_WIN_DIR /\ holds w1 NP_KEY = Plain (np_target j) /\
  uninstall os wine prefix lock user_reg survives w1 = (Ok tt, w2) /\ folder w2 = None /\ holds w2 FT_KEY = Absent /\ holds w2 NP_KEY = Absent /\
  forall key, key <> FT_KEY -> key <> NP_KEY -> holds w2 key = holds w key.
Proof.
  intros Hh Ht Hs Hp. destruct (completes_install j w Hh Hs Hp) as [[] Ei]. pose proof (install_installs os wine prefix lock user_reg torn pid j w Hh Ht) as H.
  unfold post in H. destruct (install _ _ _ _ _ _ _ j w) as [r w1]. cbn [fst snd] in *. subst r. exists w1.
  destruct H as [[_ []]|(record & ft & np & Hr & _ & (a & b & Hq & H1 & H2 & _) & Ho)]; [done|]. destruct (Ho eq_refl) as (-> & -> & Hrec). clear Ho.
  assert (Hk : forall key, holds w1 key = if text_eqb NP_KEY key then Plain (np_target j) else if text_eqb FT_KEY key then Plain INSTALL_WIN_DIR else holds w key).
  { intros key. by rewrite (wrote_holds _ _ _ _ _ key H2), (wrote_holds _ _ _ _ _ key H1), (quiet_holds w a). }
  assert (Hft : holds w1 FT_KEY = Plain INSTALL_WIN_DIR) by (rewrite Hk, text_eqb_refl; by rewrite (text_eqb_sym NP_KEY), keys_differ).
  assert (Hnp : holds w1 NP_KEY = Plain (np_target j)) by (by rewrite Hk, text_eqb_refl).
  destruct (completes_uninstall w1) as [[] Eu]. pose proof (blind_uninstall w1) as Hb. pose proof (uninstall_uninstalls os wine prefix lock user_reg survives w1 Hh) as Hu. unfold post in Hu.
  destruct (uninstall _ _ _ _ _ _ w1) as [r w2]. cbn [fst snd] in *. subst r. exists w2.
  destruct Hu as (record' & [-> |[_ Hn]] & (_ & _ & Hc) & _ & [Hf He0]%(fun f => f eq_refl)); [|by rewrite all_fine in Hn].
  assert (He : forall key, attributed (record_in (files_of w1)) KEYS w1 key -> holds w2 key = Absent).
  { intros key Ha. destruct (He0 key Ha) as [?|Hm]; [done|]. by apply (misread_same _ _ _ Hb) in Hm. }
  split_and!; try done.
  - apply He. exists (txt "ft", FT_KEY, txt "FreeTrack"). split_and!; [apply list_elem_of_here|done|]. rewrite Hft. apply is_ours_spec.
    exists INSTALL_WIN_DIR. split; [done|by left].
  - apply He. exists (txt "np", NP_KEY, txt "TrackIR"). split_and!; [apply list_elem_of_further, list_elem_of_here|done|]. rewrite Hnp. apply is_ours_spec.
    exists (np_target j). split; [done|]. right. exists (np_target j). split; [|done]. cbn [fst snd].
    by rewrite Hrec, kept_record_eq, recorded_upsert, text_eqb_refl.
  - intros key H3 H4. destruct (Hc key) as [-> |[_ (e & Hin & Hek & _)]].
    + rewrite Hk. unfold text_eqb. by rewrite !bool_decide_eq_false_2 by done.
    + exfalso. destruct (keys_cases e Hin) as [E|E]; rewrite E in Hek; by subst key.
Qed.
End Fine.

(** ** The stamp *)
Section Stamp.
Context (os : nat -> Answer) (wine prefix : text) (lock : World -> Lock) (user_reg : World -> result text bytes).
Context (torn : nat -> option bytes) (survives : nat -> text -> bool) (pid : Z).
(** Which providers understand [--launch]. *)
Context (capable : bytes -> Prop).
Definition able (w : World) : Prop := forall b, files_of w !! PROVIDER_EXE = Some b -> capable b.
(** The stamp stands only beside a provider that can start a game. *)
Definition stamp_true (w : World) : Prop := is_Some (files_of w !! LAUNCH_STAMP) -> able w.
Definition unstamped (w w' : World) : Prop := same_file PROVIDER_EXE w w' /\ same_file LAUNCH_STAMP w w'.
#[local] Instance unstamped_preorder : PreOrder unstamped.
Proof. split; [done|]. intros a b c [H1 H2] [H3 H4]. split; by etrans. Qed.
Lemma unstamped_pres {A} (m : Io A) : (forall n, head n <> Some 46 -> n <> RECORD_FILE -> preserves (same_file n) m) -> preserves unstamped m.
Proof. intros H w. split; by apply H; vm_compute. Qed.
Lemma unstamped_true w w' : unstamped w w' -> stamp_true w -> stamp_true w'.
Proof. intros [H1 H2]. unfold stamp_true, able, same_file in *. by rewrite H1, H2. Qed.
Lemma same_able w w' : same_file PROVIDER_EXE w w' -> able w -> able w'.
Proof. unfold able, same_file. by intros ->. Qed.
(** Copying keeps an able provider able, and what it says it copied is. *)
Definition copies (w : World) (r : result text (Z * bool)) (w' : World) : Prop :=
  (able w -> able w') /\ forall c, r = Ok (c, true) -> able w'.
Lemma copy_able j l c p w : (forall b, artifacts j PROVIDER_EXE = Some b -> capable b) -> (p = true -> able w) ->
  post (copy_artifacts os prefix torn pid j l c p) w (copies w).
Proof.
  intros Hc. revert c p w. induction l as [|[name req] l IH]; intros c p w Hp; cbn [copy_artifacts].
  { split; [done|]. intros c' [= _ ->]. by apply Hp. }
  destruct (artifacts j name) as [b|] eqn:Ea.
  2: { destruct req; [by split|]. apply post_bind. unfold post at 1. cbn [fst snd]. eapply post_mono; [apply IH|]; [done|]. by intros r w'. }
  cbv zeta. assert (Hd : PROVIDER_EXE <> staging_name name pid) by done. apply post_bind. unfold post at 1.
  pose proof (file_write os torn PROVIDER_EXE _ b Hd w) as Hw. pose proof (write_lands os torn (staging_name name pid) b w) as Hb.
  destruct (write_file _ _ _ _ w) as [[[]|e] w1]; cbn [fst snd] in *; [|split; [by apply same_able|done]]. specialize (Hb w1 eq_refl).
  pose proof (rename_lands os _ name b w1 Hb) as Hr. pose proof (fun H => file_rename os PROVIDER_EXE _ name Hd H w1) as Hf.
  apply post_bind. unfold post at 1, attempt. destruct (rename _ _ _ w1) as [[[]|e] w2]; cbn [fst snd] in *.
  - assert (Ho : (able w -> able w2) /\ (p || text_eqb name PROVIDER_EXE = true -> able w2)).
    { destruct (decide (name = PROVIDER_EXE)) as [-> |Hn].
      - assert (Hab : able w2) by (intros b'; rewrite Hr; intros [= <-]; by apply Hc). done.
      - unfold text_eqb. rewrite bool_decide_eq_false_2, orb_false_r by done.
        assert (Hab : able w -> able w2) by (intros H; eapply same_able; [apply Hf; congruence|by eapply same_able]). split; [done|]. intros ?. by apply Hab, Hp. }
    destruct Ho as [H1 H2]. apply post_bind. unfold post at 1, say. cbn [fst snd]. eapply post_mono; [apply IH; exact H2|].
    intros r w' [H3 H4]. split; [intros H; by apply H3, H1|done].
  - apply post_bind. unfold post at 1. pose proof (file_remove os PROVIDER_EXE _ Hd w2) as Hm. unfold attempt.
    destruct (remove_file _ _ w2) as [r w3]. cbn [fst snd] in *. split; [|done]. intros H. eapply same_able; [exact Hm|].
    unfold able. rewrite Hr. by eapply same_able.
Qed.
Definition stays_true {A} (m : Io A) : Prop := forall w, stamp_true w -> post m w (fun _ w' => stamp_true w').
Lemma true_pres {A} (m : Io A) : preserves unstamped m -> stays_true m.
Proof. intros H w Hw. unfold post. eapply unstamped_true; [apply H|done]. Qed.
Lemma true_bind {A B} (m : Io A) (k : A -> Io B) : stays_true m -> (forall a, stays_true (k a)) -> stays_true (m ≫= k).
Proof.
  intros Hm Hk w Hw. apply post_bind. specialize (Hm w Hw). unfold post in *. destruct (m w) as [[a|e] w1]; cbn [fst snd] in *; [by apply Hk|done].
Qed.
Lemma unstamped_read_record : preserves unstamped (read_record os).
Proof. apply unstamped_pres. intros n _ _. apply file_read_record. Qed.
Lemma unstamped_readings : preserves unstamped (readings os wine prefix lock user_reg).
Proof. apply unstamped_pres. intros n _ _. apply file_readings. Qed.
Lemma unstamped_undo record : preserves unstamped (undo_keys os wine prefix lock user_reg record).
Proof. apply unstamped_pres. intros n _ _. apply file_undo_keys. Qed.
Lemma unstamped_create : preserves unstamped (create_dir_all os).
Proof. apply unstamped_pres. intros n _ _. apply file_create. Qed.
Lemma unstamped_say s : preserves unstamped (say s).
Proof. apply unstamped_pres. intros n _ _. apply file_say. Qed.
Lemma unstamped_register j record : preserves unstamped (register os prefix torn pid j record).
Proof.
  apply unstamped_pres. intros n Hh Hn. unfold register, write_record.
  pose proof (set_key_file os n FT_KEY INSTALL_WIN_DIR) as H1. pose proof (set_key_file os n NP_KEY (np_target j)) as H2.
  pose proof (fun l => staged_file os torn pid n RECORD_FILE (utf8_encode (render_record l)) Hn Hh) as H3. pres.
Qed.
(** The copying and the stamp: the one part of an install that writes either file. *)
Lemma stamp_not_copied : LAUNCH_STAMP ∉ ARTIFACTS.*1.
Proof. apply (bool_decide_eq_true_1 (LAUNCH_STAMP ∉ ARTIFACTS.*1)). vm_compute. reflexivity. Qed.
Lemma placed_true {A} j (k : Z -> Io A) : (forall b, artifacts j PROVIDER_EXE = Some b -> capable b) -> (forall c, stays_true (k c)) ->
  stays_true ('(copied, provider) ← copy_artifacts os prefix torn pid j ARTIFACTS 0 false;
    _ ← (if provider : bool then write_stamp os prefix torn pid j else mret tt); k copied).
Proof.
  intros Hc Hk w Hw. apply post_bind. pose proof (copy_able j ARTIFACTS 0 false w Hc (fun H : false = true => False_ind _ (diff_false_true H))) as [Ha Hp].
  pose proof (copy_file os prefix torn pid LAUNCH_STAMP j ARTIFACTS 0 false ltac:(by vm_compute) stamp_not_copied w) as Hs.
  unfold post at 1. destruct (copy_artifacts _ _ _ _ _ _ _ _ w) as [[[copied provider]|e] w1]; cbn [fst snd] in *.
  - assert (H1 : stamp_true w1) by (intros Hi; rewrite Hs in Hi; by apply Ha, Hw). destruct provider; [|by apply (true_bind (mret tt)); [apply true_pres; by intros ?|intros ?; apply Hk|]].
    apply post_bind. pose proof (stamp_file os prefix torn pid PROVIDER_EXE j ltac:(by vm_compute) ltac:(by vm_compute) w1) as Hf. unfold post at 1.
    assert (H2 : stamp_true (write_stamp os prefix torn pid j w1).2) by (intros _; eapply same_able; [exact Hf|by apply (Hp copied)]).
    destruct (write_stamp _ _ _ _ _ w1) as [[[]|e] w2]; cbn [fst snd] in *; [by apply Hk|done].
  - intros Hi. rewrite Hs in Hi. by apply Ha, Hw.
Qed.
Lemma install_true j : (forall b, artifacts j PROVIDER_EXE = Some b -> capable b) -> stays_true (install os wine prefix lock user_reg torn pid j).
Proof.
  intros Hc. unfold install. apply true_bind; [apply true_pres, unstamped_read_record|]. intros record.
  apply true_bind; [apply true_pres, unstamped_readings|]. intros rs. cbv zeta. destruct (_ && _); [by intros w|].
  apply true_bind; [apply true_pres, unstamped_create|]. intros _. apply placed_true; [done|]. intros copied.
  do 2 (apply true_bind; [apply true_pres, unstamped_say|intros _]). apply true_bind; [apply true_pres, unstamped_register|]. intros all.
  destruct (negb all); [by intros w|]. do 2 (apply true_bind; [apply true_pres, unstamped_say|intros _]). apply true_pres, unstamped_say.
Qed.
Lemma fewer_true w w' : files_of w' ⊆ files_of w -> stamp_true w -> stamp_true w'.
Proof.
  intros Hs Hw [x Hx] b Hb. apply Hw; [exists x|]; by eapply lookup_weaken.
Qed.
Lemma remove_dir_true : stays_true (remove_dir_all os survives).
Proof.
  intros w. apply fewer_true. unfold remove_dir_all, gets, ask, mbind, M_bind. cbn. fold (files_of w).
  destruct (io_error (os (calls w))); cbn; [apply map_filter_subseteq|apply map_empty_subseteq].
Qed.
Lemma uninstall_true : stays_true (uninstall os wine prefix lock user_reg survives).
Proof.
  unfold uninstall. apply true_bind; [apply true_pres, unstamped_read_record|]. intros record.
  apply true_bind; [apply true_pres, unstamped_undo|]. intros [outs unread]. apply true_bind; [apply true_pres, unstamped_say|]. intros _.
  destruct unread; [by intros w|]. destruct (existsb _ outs); [by intros w|]. apply true_bind; [apply true_pres, pres_gets; apply _|]. intros there.
  destruct there; [|apply true_pres, pres_ret; apply _]. apply true_bind; [apply remove_dir_true|]. intros _. apply true_pres, unstamped_say.
Qed.
End Stamp.

(** A prefix over time, where every provider that is installed is able. *)
Inductive able_step (capable : bytes -> Prop) (prefix : text) : World -> World -> Prop :=
  | able_install os wine lock user_reg torn pid j w : (forall b, artifacts j PROVIDER_EXE = Some b -> capable b) ->
      able_step capable prefix w (install os wine prefix lock user_reg torn pid j w).2
  | able_uninstall os wine lock user_reg survives w :
      able_step capable prefix w (uninstall os wine prefix lock user_reg survives w).2
  | able_other key (r : option Reading) w : able_step capable prefix w
      {| registry := partial_alter (fun _ => r) key (registry w); folder := folder w; calls := calls w; said := said w; landed := landed w; blind := blind w |}.
Lemma able_reached capable prefix w0 w : stamp_true capable w0 -> rtc (able_step capable prefix) w0 w -> stamp_true capable w.
Proof.
  intros H0 Hs. induction Hs as [|w0 w1 w H1 _ IH]; [done|]. apply IH.
  destruct H1 as [os wine lock user_reg torn pid j w1 Hc|os wine lock user_reg survives w1|key r w1]; [| |done].
  - by apply install_true.
  - by apply uninstall_true.
Qed.
(** However the installs and uninstalls of a prefix went, a launch through it is given to the
    provider in its folder only when that provider can start a game, if one that was left
    there before without a stamp counts for nothing and every one installed since can. *)
Theorem wraps_only_the_able (capable : bytes -> Prop) (prefix : text) (w0 w : World) (is_file : bytes -> bool) (c : bytes) (cmd : list text) (t : nat) (p : text) :
  stamp_true capable w0 -> rtc (able_step capable prefix) w0 w ->
  (forall name, name = PROVIDER_EXE \/ name = LAUNCH_STAMP -> is_file (os_join (bridge_dir c) name) = bool_decide (is_Some (files_of w !! name))) ->
  plan is_file cmd (Some c) = Rewrite t p -> exists b, files_of w !! PROVIDER_EXE = Some b /\ capable b.
Proof.
  intros H0 Hs Hf Hp. apply plan_rewrites in Hp as [_ (c' & [= <-] & H1 & H2 & _)]. unfold PROVIDER in H1.
  rewrite Hf in H1, H2 by auto. apply bool_decide_eq_true in H1 as [b Hb]. apply bool_decide_eq_true in H2.
  exists b. split; [done|]. by eapply able_reached.
Qed.

(** ** A refusal *)
Definition untouched (w w' : World) : Prop := registry w' = registry w /\ folder w' = folder w.
#[export] Instance untouched_preorder : PreOrder untouched.
Proof. split; [done|]. intros a b c [H1 H2] [H3 H4]. split; congruence. Qed.
Lemma untouched_read_all os wine prefix l : preserves untouched (read_all os wine prefix l).
Proof.
  assert (Ha : preserves untouched (ask os)) by (by intros w). induction l as [|e l IH]; cbn [read_all]; unfold read_key; pres.
Qed.
Lemma untouched_readings os wine prefix lock user_reg : preserves untouched (readings os wine prefix lock user_reg).
Proof. unfold readings. pose proof (untouched_read_all os wine prefix KEYS). pres. Qed.
Lemma untouched_read_record os : preserves untouched (read_record os).
Proof. assert (Ha : preserves untouched (ask os)) by (by intros w). unfold read_record. pres. Qed.
Lemma grows_keys {A} (m : Io A) : preserves same_keys m -> preserves grows m.
Proof. intros H w. apply keys_grow, H. Qed.
Lemma grows_register os prefix torn pid j record : preserves grows (register os prefix torn pid j record).
Proof.
  assert (Hk : forall key v, preserves grows (set_key os key v)).
  { intros key v w. pose proof (set_key_ok os key v w) as H. destruct (set_key os key v w) as [[[]|e] w1]; cbn [snd];
      [by destruct H as (_ & _ & ?)|by apply keys_grow..]. }
  pose proof (fun l => grows_keys _ (keys_write_record os prefix torn pid l)) as Hw. unfold register. pres.
Qed.
(** An install that is not forced, over a key holding what this program cannot account for,
    ends in an error and leaves the registry and the folder as they were, whatever its calls
    after the reading of the record do, unless that key was misread. *)
Theorem refusal_changes_nothing os wine prefix lock user_reg torn pid (j : Job) (w : World) (e : KeyEntry) :
  honest lock user_reg -> os (calls w) = Fine -> forced j = false -> e ∈ KEYS ->
  stops_install (holds w e.1.2) (recorded (record_in (files_of w)) e.1.1) (want_for e.1.2 (np_target j)) = true ->
  let '(r, w') := install os wine prefix lock user_reg torn pid j w in
  misread e.1.2 w w' \/ is_ok r = false /\ untouched w w'.
Proof.
  intros Hh Ho Hf He Hs. unfold install, mbind at 1, M_bind at 1.
  pose proof (untouched_read_record os w) as H1. pose proof (quiet_read_record os w) as Hq.
  destruct (read_record os w) as [[record|err] w1] eqn:E1; [|by right]. apply read_record_ok in E1 as ([-> |[_ Hn]] & _); [|done].
  unfold mbind at 1, M_bind at 1. pose proof (untouched_readings os wine prefix lock user_reg w1) as H2. cbn [snd] in *.
  destruct (readings _ _ _ _ _ w1) as [[rs|err] w2] eqn:E2; cbn [snd] in *; [|right; split; [done|by etrans]].
  apply readings_ok in E2; [|done]. cbv zeta. destruct (negb _ && negb _) eqn:Et; [right; split; [done|by etrans]|].
  apply (permitted_spec _ _ _ _ _ E2) in Et as [Et|Et]; [congruence|].
  assert (Hm : misread e.1.2 w w2).
  { destruct (Et e He) as [Hm|Hm]; [|rewrite (quiet_holds w w1) in Hm by done; congruence].
    eapply misread_earlier; [apply keys_grow, Hq|done]. }
  match goal with |- let '(_, _) := ?m w2 in _ => assert (Hg : grows w2 (m w2).2); [|destruct (m w2) as [r w']] end.
  2: { left. by eapply misread_later. }
  clear -Hf. revert w2. refine (_ : preserves grows _).
  pose proof (grows_keys _ (keys_create os)). pose proof (fun j => grows_keys _ (keys_copy os prefix torn pid j ARTIFACTS 0 false)).
  pose proof (grows_keys _ (keys_stamp os prefix torn pid j)). pose proof (fun s => grows_keys _ (keys_say s)).
  pose proof (grows_register os prefix torn pid j). pres.
Qed.

(** What is registered is a path that reads back. *)
Lemma targets_ok is_file args source target : np_target_for is_file args = Ok (source, target) -> target_ok target.
Proof.
  unfold np_target_for. destruct (choose_npclient _ _ _) as [[|dir]|e]; [intros [= _ <-]; apply win_dir_ok| |done].
  cbn [mbind result_bind]. unfold registrable_path. destruct (negb _ || _) eqn:E; [done|]. intros [= _ <-].
  apply orb_false_iff in E as [Ha%negb_false_iff Hb]. set (win := wine_path_for dir) in *.
  assert (Hc : Forall (fun c => is_ascii c = true /\ c <> 13 /\ c <> 10) win).
  { apply List.Forall_forall. intros c Hc. split; [by apply (proj1 (forallb_forall _ _) Ha)|]. split; intros ->.
    all: assert (existsb (fun c => (c =? 13) || (c =? 10)) win = true) by (apply existsb_exists; by eexists); congruence. }
  split_and!.
  - done.
  - eapply Forall_impl; [exact Hc|]. by intros c (_ & _ & ?).
  - unfold back_ok. apply Forall_rev in Hc. destruct (rev win) as [|c r]; [done|]. apply Forall_cons in Hc as [(_ & H & _) _]. apply Z.eqb_neq. congruence.
  - eapply Forall_impl; [exact Hc|]. intros c (H & _). unfold is_ascii, is_char, between in *. lia.
Qed.

(** ** An example prefix *)
Definition fresh_world : World := {| registry := ∅; folder := None; calls := 0; said := []; landed := []; blind := [] |}.
(** Served by somebody once something is in it, and until then as wine leaves it. *)
Definition example_lock (w : World) : Lock := if bool_decide (registry w = ∅) then Free else Held 7.
Definition example_reg (w : World) : result text bytes := Ok (utf8_encode Userreg.FILE_HEADER).
Definition example_job : Job :=
  {| source := Given; origin := FromPrefix; forced := false; np_source := Installed (txt "/usr/libexec/opentrack"); np_target := txt "Z:\usr\libexec\opentrack";
     explicit_ours := false; installed_np := Some (txt "/usr/libexec/opentrack"); artifacts := fun n => Some (utf8_encode (txt "built: " ++ n));
     artifact_path := txt "bridge"; beside_config_info := false; version := txt "0.5.0" |}.
Definition fine (n : nat) : Answer := Fine.
Definition pfx : text := txt "/home/u/pfx".
Definition example_install (w : World) : World := (install fine (txt "wine") pfx example_lock example_reg (fun _ => None) 42 example_job w).2.
Definition example_uninstall (w : World) : World := (uninstall fine (txt "wine") pfx example_lock example_reg (fun _ _ => false) w).2.
Lemma example_honest : honest example_lock example_reg.
Proof.
  intros w b. unfold example_lock, example_reg. case_bool_decide as E; [|done]. intros _ [= <-] key path _. unfold holds. rewrite E, lookup_empty.
  vm_compute. reflexivity.
Qed.
Lemma example_targets : target_ok (np_target example_job).
Proof. by apply (targets_ok (fun _ => true) [txt "tobii"; txt "bridge"; txt "install"] (Installed (txt "/usr/libexec/opentrack"))); vm_compute. Qed.
Lemma example_supplied : supplied example_job.
Proof. apply List.Forall_forall. intros a _ _. by eexists. Qed.
Lemma example_permitted : permitted example_job (record_in (files_of fresh_world)) fresh_world.
Proof. right. intros e _. right. unfold holds. cbn [registry fresh_world]. by rewrite lookup_empty. Qed.
Example installed_prefix : let w := example_install fresh_world in
  (holds w FT_KEY, holds w NP_KEY) = (Plain INSTALL_WIN_DIR, Plain (txt "Z:\usr\libexec\opentrack")) /\
  record_in (files_of w) = [(txt "ft", INSTALL_WIN_DIR); (txt "np", txt "Z:\usr\libexec\opentrack")].
Proof. vm_compute. done. Qed.
Lemma installed_and_removed_witness : holds (example_install fresh_world) NP_KEY = Plain (txt "Z:\usr\libexec\opentrack") /\
  holds (example_uninstall (example_install fresh_world)) NP_KEY = Absent /\ folder (example_uninstall (example_install fresh_world)) = None.
Proof.
  unfold example_uninstall, example_install.
  destruct (installed_and_removed fine (txt "wine") pfx example_lock example_reg (fun _ => None) (fun _ _ => false) 42 (fun _ => eq_refl) example_job fresh_world
    example_honest example_targets example_supplied example_permitted) as (w1 & w2 & E1 & _ & H2 & E2 & H3 & _ & H4 & _).
  rewrite E1. cbn [snd]. rewrite E2. cbn [snd]. split; [exact H2|]. split; [exact H4|exact H3].
Defined.
(** Another program takes the TrackIR key after the install; the uninstall leaves it. *)
Definition other_client : World -> World := fun w =>
  {| registry := partial_alter (fun _ => Some (Plain (txt "C:\other"))) NP_KEY (registry w); folder := folder w; calls := calls w; said := said w; landed := landed w; blind := blind w |}.
(** Steam's view of that prefix: what [is_file] answers in the bridge's folder. *)
Definition seen (w : World) (c p : bytes) : bool :=
  existsb (fun name => bool_decide (p = os_join (bridge_dir c) name) && bool_decide (is_Some (files_of w !! name))) [PROVIDER_EXE; LAUNCH_STAMP].
Definition example_compat : bytes := utf8_encode (txt "/home/u/compat").
Lemma wraps_only_the_able_witness : let w := example_install fresh_world in
  plan (seen w example_compat) steam_command (Some example_compat) = Rewrite 9 (txt "/home/u/compat/pfx/drive_c/tobii-bridge/tobii-bridge.exe") /\
  exists b, files_of w !! PROVIDER_EXE = Some b /\ u8 <$> b = txt "built: tobii-bridge.exe".
Proof.
  cbv zeta. set (w := example_install fresh_world).
  assert (Hp : plan (seen w example_compat) steam_command (Some example_compat) = Rewrite 9 (txt "/home/u/compat/pfx/drive_c/tobii-bridge/tobii-bridge.exe")) by (vm_compute; reflexivity).
  split; [exact Hp|]. apply (wraps_only_the_able (fun b => u8 <$> b = txt "built: tobii-bridge.exe") pfx fresh_world w (seen w example_compat) example_compat steam_command 9
    (txt "/home/u/compat/pfx/drive_c/tobii-bridge/tobii-bridge.exe")).
  - intros [x [=]].
  - apply rtc_once. apply (able_install _ pfx fine (txt "wine") example_lock example_reg (fun _ => None) 42 example_job).
    intros b [= <-]. vm_compute. reflexivity.
  - intros name [-> | ->]; vm_compute; reflexivity.
  - exact Hp.
Defined.
(** The TrackIR key of a prefix is another program's: nothing is installed. *)
Definition taken_world : World := other_client fresh_world.
Lemma refusal_changes_nothing_witness : let '(r, w') := install fine (txt "wine") pfx example_lock example_reg (fun _ => None) 42 example_job taken_world in
  misread NP_KEY taken_world w' \/ is_ok r = false /\ untouched taken_world w'.
Proof.
  apply (refusal_changes_nothing fine (txt "wine") pfx example_lock example_reg (fun _ => None) 42 example_job taken_world (txt "np", NP_KEY, txt "TrackIR")).
  - apply example_honest.
  - reflexivity.
  - reflexivity.
  - apply list_elem_of_further, list_elem_of_here.
  - vm_compute. reflexivity.
Defined.
(** Where somebody serves the prefix, the keys are read through wine. The query of the
    TrackIR key fails once (the fourth call, after the record's, and the two the absent
    FreeTrack key takes), and the probe after it does not: an install without [--force]
    writes over another program's value. *)
Definition served (w : World) : Lock := Held 7.
Definition one_query_fails (n : nat) : Answer := if (n =? 3)%nat then Refused (txt "reg: failed") else Fine.
Example a_failed_query_reads_as_absent :
  let install_over os := install os (txt "wine") pfx served example_reg (fun _ => None) 42 example_job taken_world in
  holds taken_world NP_KEY = Plain (txt "C:\other") /\
  is_ok (install_over fine).1 = false /\ holds (install_over fine).2 NP_KEY = Plain (txt "C:\other") /\
  (install_over one_query_fails).1 = Ok tt /\
  holds (install_over one_query_fails).2 NP_KEY = Plain (txt "Z:\usr\libexec\opentrack") /\
  blind (install_over one_query_fails).2 = [NP_KEY].
Proof. vm_compute. done. Qed.
