(* ===== verification/BridgeStatus.v ===== *)
(** * BridgeStatus: what [bridge status] reports (crates/tobii-cli/src/bridge.rs)

    The report is gathered without running wine: the files of the folder, the record, and the
    registry's own file. [report_and_commands_agree]: on a prefix nothing is serving, what the
    report says of the two keys is what install and uninstall then do. *)
From stdpp Require Import gmap.
From S2P Require Import Prelude Utf8 Text Bytelines Paths Xml Userreg Wineserver RegQuery Proton Signature Bridge BridgeText Registrar Registered.

(** ** The pieces of the report *)
Record KeyReport := { r_abi : text; r_key : text; r_current : Reading; r_wrote : option text; r_want : text }.
Definition report_state (k : KeyReport) : KeyState := key_state (r_current k) (r_wrote k).
Definition report_stops (k : KeyReport) : bool := stops_install (r_current k) (r_wrote k) (r_want k).

(** What [metadata] answers, and what is made of it. *)
Inductive Kind := IsFile | IsDir | IsOther.
Inductive IoFailure := Missing | Failing (e : text).
Inductive Presence := Present | NotThere | CannotTell (why : text).
Definition presence (found : result IoFailure Kind) (ok : Kind -> bool) (wanted : text) : Presence :=
  match found with
  | Ok m => if ok m then Present else CannotTell (txt "there is something here that is not " ++ wanted)
  | Err Missing => NotThere
  | Err (Failing e) => CannotTell e
  end.
Definition is_file_kind (k : Kind) : bool := match k with IsFile => true | _ => false end.
Definition is_dir_kind (k : Kind) : bool := match k with IsDir => true | _ => false end.

Record Status := { s_prefix : text; s_source : PrefixSource; s_wine : text; s_origin : WineOrigin; wine_given : bool; wine_warning : option text; server : Lock;
                   s_registry_file : text; dir : text; dir_present : Presence; artifact_states : list (text * bool * Presence); launch_stamp : option text;
                   record_unreadable : option text; keys : list KeyReport; npclient_given : option text; game_output_enabled : bool; unread : option text }.

(** ** The words *)
Definition status_caveat : text :=
  wrapped (txt "This says what is installed and registered in this prefix. It does not say whether a game will use it. Put to NaturalPoint's signature check with our own DLL registered for TrackIR: " ++ join (txt "; ") (clause <$> MEASURED) ++ txt ". " ++ tally ++ txt " not a rule about the rest, and nothing here knows what any other title does.") [] 78 ++ [10].
Definition server_line (lock : Lock) : text :=
  match lock with
  | Free => txt "nothing is serving this prefix right now"
  | Held pid =>
      let who := if 0 <? pid then txt "pid " ++ show_int pid else txt "the kernel would not name the holder" in
      txt "a wine process is alive on this prefix (" ++ who ++ txt ")
           a Proton launch waits for every one of them to exit first, so the
           supported order is the game first and anything of ours second"
  | Unknown why => txt "could not tell (" ++ why ++ txt ")"
  end.
Definition staleness (lock : Lock) : text :=
  match lock with
  | Free => []
  | Held _ => txt "  a wine process is alive on this prefix, and a prefix's registry is
  written back when the last one exits — so anything registered since
  that process started is not in the file yet, and is not below.
"
  | Unknown _ => txt "  whether anything is serving this prefix could not be determined (see
  above), and a prefix's registry is written back only when the last
  process on it exits — so whether this is current could not be
  determined either.
"
  end.
Definition artifact_line (required : bool) (present : Presence) : text :=
  match present, required with
  | Present, _ => txt "present"
  | NotThere, true => txt "MISSING — nothing can load without it"
  | NotThere, false => txt "missing (optional)"
  | CannotTell why, _ => txt "could not tell whether it is here — " ++ why
  end.
Definition origin_words (o : WineOrigin) : text :=
  match o with
  | FromPrefix => txt "the build this prefix itself records"
  | Unverified => txt "not corroborated by this prefix — nothing here established that
           it is the build this prefix belongs to"
  end.
Definition head_lines (s : Status) : text :=
  txt "tobii bridge status
===================
" ++ txt "prefix     " ++ s_prefix s ++ txt "
" ++ txt "           " ++ show_source (s_source s) ++ txt "
" ++ txt "wine       " ++ s_wine s ++ txt "
" ++
  txt "           " ++ origin_words (s_origin s) ++ txt "
" ++ txt "           nothing here ran it — it is named because `install` and
           `uninstall` would use it on this prefix
" ++
  match wine_warning s with Some warning => lines warning ≫= fun line => txt "           " ++ line ++ txt "
" | None => [] end ++
  txt "wineserver " ++ server_line (server s) ++ txt "
".
Definition artifact_row (a : text * bool * Presence) : text :=
  let '(name, required, present) := a in txt "  " ++ pad_right 22 name ++ txt " " ++ artifact_line required present ++ txt "
".
Definition file_lines (s : Status) : text :=
  txt "
files      " ++ dir s ++ txt "
" ++
  match dir_present s with
  | NotThere => txt "  nothing of ours is installed here — there is no such directory
"
  | CannotTell why => txt "  could not tell what is installed here — " ++ why ++ txt "
  so this report says nothing about these files, which is not the
  same as their being absent
"
  | Present =>
      (artifact_states s ≫= artifact_row) ++
      match launch_stamp s with
      | Some v => txt "  " ++ pad_right 22 LAUNCH_STAMP ++ txt " yes (installed by " ++ v ++ txt ") — `tobii game -- %command%` will start
  " ++ pad_right 22 [] ++ txt " the provider alongside this game
"
      | None => txt "  " ++ pad_right 22 LAUNCH_STAMP ++ txt " no — this bridge was installed by a version that cannot start
  " ++ pad_right 22 [] ++ txt " a game; `tobii game` runs the launch unchanged until it is
  " ++ pad_right 22 [] ++ txt " installed again
"
      end ++
      match record_unreadable s with Some why => txt "  the note of what this installer registered here could not be read
  (" ++ why ++ txt "), so a key it pointed at a third-party client is reported
  below as a stranger's
" | None => [] end
  end.
Definition key_lines (k : KeyReport) : text :=
  txt "  " ++ pad_right 10 (r_abi k) ++ txt " " ++ r_key k ++ txt "
" ++
  match report_state k with
  | KeyOurs v => txt "             " ++ v ++ txt "
" ++ txt "             registered by this installer
"
  | KeyTheirs v why => txt "             " ++ v ++ txt "
" ++ txt "             not this installer's
" ++ txt "             " ++ why ++ txt "
"
  | KeyAbsent => txt "             nothing is registered here
"
  | KeyUnreadable why => txt "             " ++ why ++ txt "
" ++ txt "             so `uninstall` leaves it alone and `install` refuses
             over it rather than overwrite what it could not read
"
  end ++
  (if text_eqb (r_key k) NP_KEY && bool_decide (r_current k = Plain INSTALL_WIN_DIR) then txt "             that is our own DLL, which cannot answer NaturalPoint's
             signature check — see the note below
" else []).
Definition registry_lines (s : Status) : text :=
  txt "
registry   read from " ++ s_registry_file s ++ txt ", with no wine run against this prefix
" ++ staleness (server s) ++ (keys s ≫= key_lines) ++
  match unread s with
  | Some why => txt "  neither key could be read, so this report says nothing about what
  they hold — which is not the same as their holding nothing:

" ++ (lines why ≫= fun line => txt "  " ++ line ++ txt "
")
  | None => []
  end ++ [10] ++ status_caveat.
(** ** The way on *)
Inductive Advice := ToUndo | Blocked (keys : list text) | Unclear | ToInstall.
Definition anything_of_ours (s : Status) : bool :=
  match dir_present s with NotThere => false | _ => true end || existsb (fun k => match report_state k with KeyOurs _ => true | _ => false end) (keys s).
Definition in_the_way (s : Status) : list text := r_key <$> base.filter (fun k => report_stops k = true) (keys s).
Definition advice (s : Status) : Advice :=
  if anything_of_ours s then ToUndo
  else match in_the_way s, unread s with
       | [], None => ToInstall
       | [], Some _ => Unclear
       | blocked, _ => Blocked blocked
       end.
Definition how (s : Status) : text :=
  match s_source s with FromSteam t => txt " --steam " ++ quoted t | _ => txt " --prefix " ++ quoted (s_prefix s) end ++
  (if wine_given s then txt " --wine " ++ quoted (s_wine s) else []).
Definition np_flag (s : Status) : text := match npclient_given s with Some v => txt " --npclient " ++ quoted v | None => [] end.
Definition proton_unknown (s : Status) : bool := steam_wine_refused (s_source s) (s_origin s) (wine_given s) false.
Definition proton_flag (s : Status) : text := if proton_unknown s then txt " --wine <Proton>/files/bin/wine" else [].
Definition advice_lines (s : Status) : text :=
  match advice s with
  | ToUndo =>
      txt "
This prefix is only half of it. Two things outside it decide whether a
game receives anything:
" ++
      (if game_output_enabled s then txt "  game output is ON
"
       else txt "  game output is OFF — nothing is sent to any game until it is on:
    tobii games set enabled true        (or the hub's own switch)
") ++
      txt "  the game has to be launched through the wrapper, so the tracker comes on:
    tobii game -- %command%             (Steam: paste into Launch Options)
" ++
      txt "
To undo everything this installer put here:
  tobii bridge uninstall" ++ how s ++ txt "
It takes out only the values it still recognises as its own, and names
anything it leaves alone.
"
  | Blocked blocked =>
      txt "
Nothing of ours is in this prefix, and `install` will not put it there
while these hold something this installer did not write:
" ++
      (blocked ≫= fun key => txt "  " ++ key ++ txt "
") ++
      txt "It refuses over them rather than overwrite them — the same rule this
report classified them by — and spells out the command that clears one,
if it is stale. Or go ahead anyway with:
  tobii bridge install" ++ how s ++ np_flag s ++ proton_flag s ++ txt " --force
which promises nothing about putting back what is there now.
"
  | Unclear =>
      txt "
Nothing of ours was found in this prefix — though neither key could be
read, so that is not the same as nothing being in them. To put ours
there:
  tobii bridge install" ++ how s ++ np_flag s ++ proton_flag s ++ txt "
It reads both keys itself before writing either, and stops if one holds
something it did not write.
To take it out again afterwards:
  tobii bridge uninstall" ++ how s ++ txt "
"
  | ToInstall =>
      txt "
Nothing of ours is in this prefix. To put it there:
  tobii bridge install" ++ how s ++ np_flag s ++ proton_flag s ++ txt "
To take it out again afterwards:
  tobii bridge uninstall" ++ how s ++ txt "
"
  end.
Definition proton_note (s : Status) : text :=
  if proton_unknown s && negb (anything_of_ours s) then txt "
`<Proton>` above is not a placeholder this report can fill in. Steam made
this prefix with some Proton build, and which build could not be read out
of it, so the only wine left here is " ++ s_wine s ++ txt " — which `install` refuses to run
against a Proton prefix, because a wine that is not the build a prefix was
made with upgrades the prefix out from under the game that owns it. Steam
lists the build under the title's compatibility setting, under
`steamapps/common`.
That refusal comes before either key is read, so without `--wine` the
command stops having said nothing about what they hold.
" else [].
Definition paste_note : text := txt "
If something is wrong, paste this report and the output of `tobii debug`
into https://github.com/Tropaion/Tobii_Linux/issues — between them they say
what state the prefix and the tracker are actually in. Read it through
first: unlike `tobii debug`, which folds your home path away, this report
names paths as they are spelled on your machine, login name and all.
".
Definition render_status (s : Status) : text :=
  head_lines s ++ file_lines s ++ registry_lines s ++ advice_lines s ++ proton_note s ++ paste_note.

(** ** Gathering it *)
Section World.
Context (is_file is_dir : text -> bool) (read_to_string : text -> option text) (read_dir : text -> option (list text)).
Context (env : text -> option text) (current_exe : option text) (steam_prefix_for : text -> text -> or_text text).
Context (metadata : text -> result IoFailure Kind) (read_text : text -> result IoFailure text) (read : text -> result text bytes).
Context (lock_state : text -> Lock) (output_enabled : bool).
Definition stamp_of (prefix : text) : option text :=
  match read_text (path_join (dest prefix) LAUNCH_STAMP) with Ok t => Some (trim (default [] (head (lines t)))) | Err _ => None end.
Definition record_of (prefix : text) : list (text * text) * option text :=
  match read_text (path_join (dest prefix) RECORD_FILE) with
  | Ok t => (parse_record t, None)
  | Err Missing => ([], None)
  | Err (Failing e) => ([], Some e)
  end.
Definition key_report (record : list (text * text)) (np_target : text) (r : KeyEntry * Reading) : KeyReport :=
  let '((name, key, abi), current) := r in
  {| r_abi := abi; r_key := key; r_current := current; r_wrote := recorded record name; r_want := want_for key np_target |}.
Definition gather_status (args : list text) : or_text Status :=
  '(prefix, source) ← resolve_prefix is_dir env steam_prefix_for args;
  '(wine, origin, warning) ← resolve_wine_reporting is_file read_to_string read_dir env prefix args;
  let '(record, record_unreadable) := record_of prefix in
  let '(readings, unreadable) := read_keys_read_only prefix (read (registry_file prefix)) in
  '(_, np_target) ← np_target_for is_file args;
  Ok {| s_prefix := prefix; s_source := source; s_wine := wine; s_origin := origin; wine_given := bool_decide (is_Some (flag_value args (txt "--wine")));
        wine_warning := warning; server := lock_state prefix; s_registry_file := registry_file prefix; dir := dest prefix;
        dir_present := presence (metadata (dest prefix)) is_dir_kind (txt "a directory");
        artifact_states := (fun a : text * bool => (a.1, a.2, presence (metadata (path_join (dest prefix) a.1)) is_file_kind (txt "a file"))) <$> ARTIFACTS;
        launch_stamp := stamp_of prefix; record_unreadable := record_unreadable; keys := key_report record np_target <$> readings;
        npclient_given := flag_value args (txt "--npclient"); game_output_enabled := output_enabled; unread := unreadable |}.
Definition status (args : list text) : or_text text := s ← gather_status args; Ok (render_status s).
End World.

(** ** The report and the commands *)
Section Agree.
Context (os : nat -> Answer) (wine prefix : text) (lock : World -> Lock) (user_reg : World -> result text bytes).
Context (torn : nat -> option bytes) (survives : nat -> text -> bool) (pid : Z).
(** The keys of the report: the registry's file and the record as they are. *)
Definition reports (w : World) (np_target : text) : list KeyReport :=
  key_report (record_in (files_of w)) np_target <$> (read_keys_read_only prefix (user_reg w)).1.
Definition entry_report (w : World) (np_target : text) (e : KeyEntry) : KeyReport := key_report (record_in (files_of w)) np_target (e, holds w e.1.2).
Lemma reports_settled w b np_target : honest lock user_reg -> lock w = Free -> user_reg w = Ok b -> reports w np_target = entry_report w np_target <$> KEYS.
Proof. intros Hh Hl Hb. unfold reports. by rewrite (read_only_ok prefix lock user_reg w b). Qed.
Lemma entry_stops w np_target (e : KeyEntry) : report_stops (entry_report w np_target e) =
  stops_install (holds w e.1.2) (recorded (record_in (files_of w)) e.1.1) (want_for e.1.2 np_target).
Proof. by destruct e as [[n k] a]. Qed.
Lemma entry_ours w np_target (e : KeyEntry) : (exists v, report_state (entry_report w np_target e) = KeyOurs v) <->
  is_ours (holds w e.1.2) (recorded (record_in (files_of w)) e.1.1) = true.
Proof.
  destruct e as [[n k] a]. unfold entry_report, key_report, report_state, key_state. cbn [fst snd r_current r_wrote].
  destruct (holds w k) as [|v|why]; [by split; [intros [? ?]|]| |by split; [intros [? ?]|]].
  destruct (is_ours (Plain v) _); split; [done|by eauto|by intros [? ?]|done].
Qed.
Lemma same_entry (e e' : KeyEntry) : e ∈ KEYS -> e' ∈ KEYS -> e.1.2 = e'.1.2 -> e.1 = e'.1.
Proof. intros H H' E. by destruct (keys_cases e H) as [He|He], (keys_cases e' H') as [He'|He']; rewrite He, He' in *; cbn in E. Qed.
(** On a prefix that nothing serves and whose registry file can be read: when the report
    shows a key that stops an install, an unforced install is refused and changes nothing,
    unless it goes through wine and that key is misread; when it shows none, an install whose calls are done succeeds; and an uninstall whose
    calls are done empties exactly the keys the report calls this installer's. *)
Theorem report_and_commands_agree (j : Job) (w : World) (b : bytes) : honest lock user_reg -> lock w = Free -> user_reg w = Ok b ->
  (forall k, k ∈ reports w (np_target j) -> report_stops k = true -> forced j = false -> os (calls w) = Fine ->
    let '(r, w') := install os wine prefix lock user_reg torn pid j w in misread (r_key k) w w' \/ is_ok r = false /\ untouched w w') /\
  ((forall k, k ∈ reports w (np_target j) -> report_stops k = false) -> (forall n, os n = Fine) -> supplied j ->
    completes (install os wine prefix lock user_reg torn pid j) w) /\
  ((forall n, os n = Fine) -> let '(r, w') := uninstall os wine prefix lock user_reg survives w in r = Ok tt /\
    forall k, k ∈ reports w (np_target j) -> holds w' (r_key k) = match report_state k with KeyOurs _ => Absent | _ => holds w (r_key k) end).
Proof.
  intros Hh Hl Hb. rewrite (reports_settled w b) by done. split_and!.
  - intros k (e & -> & He)%list_elem_of_fmap Hs Hf Ho. rewrite entry_stops in Hs.
    replace (r_key (entry_report w (np_target j) e)) with e.1.2 by (by destruct e as [[? ?] ?]).
    by apply (refusal_changes_nothing os wine prefix lock user_reg torn pid j w e).
  - intros Hs Ho Hj. apply completes_install; [done..|]. right. intros e He. right. rewrite <- entry_stops. apply Hs. by apply list_elem_of_fmap_2.
  - intros Ho. pose proof (uninstall_uninstalls os wine prefix lock user_reg survives w Hh) as Hu.
    pose proof (blind_uninstall os wine prefix lock user_reg survives Ho w) as Hbl.
    destruct (completes_uninstall os wine prefix lock user_reg survives Ho w) as [[] Er]. unfold post in Hu.
    destruct (uninstall _ _ _ _ _ _ w) as [r w']. cbn [fst snd] in *. subst r. split; [done|].
    destruct Hu as (record & [-> |[_ Hn]] & (_ & _ & Hc) & _ & [_ Hem]%(fun f => f eq_refl)); [|by rewrite Ho in Hn].
    intros k (e & -> & He)%list_elem_of_fmap. pose proof (entry_ours w (np_target j) e) as Hours.
    replace (r_key (entry_report w (np_target j) e)) with e.1.2 by (by destruct e as [[? ?] ?]).
    assert (Hother : ~ (exists v, report_state (entry_report w (np_target j) e) = KeyOurs v) -> holds w' e.1.2 = holds w e.1.2).
    { intros Hno. destruct (Hc e.1.2) as [?|[_ (e' & He' & Ek & Hi)]]; [done|]. destruct Hno. apply Hours.
      assert (E : e'.1 = e.1) by (by apply same_entry). rewrite E in Hi. exact Hi. }
    destruct (report_state (entry_report w (np_target j) e)) eqn:Es; [|by apply Hother; intros [? ?]..].
    destruct (Hem e.1.2) as [?|Hm]; [|done|by apply (misread_same _ _ _ Hbl) in Hm].
    exists e. split_and!; [done|done|]. apply Hours. eauto.
Qed.
End Agree.
Lemma report_and_commands_agree_witness : completes (install fine (txt "wine") pfx example_lock example_reg (fun _ => None) 42 example_job) fresh_world.
Proof.
  apply (report_and_commands_agree fine (txt "wine") pfx example_lock example_reg (fun _ => None) (fun _ _ => false) 42 example_job fresh_world (utf8_encode FILE_HEADER)
    example_honest eq_refl eq_refl).
  - intros k Hk. rewrite (reports_settled pfx example_lock example_reg fresh_world (utf8_encode FILE_HEADER)) in Hk by (done || apply example_honest).
    apply list_elem_of_fmap in Hk as (e & -> & He). rewrite entry_stops. unfold holds. cbn [registry fresh_world]. by rewrite lookup_empty.
  - done.
  - apply example_supplied.
Defined.
(** The report of a prefix that nothing was put into, as it ends. *)
Example report_of_an_empty_prefix : let s := {| s_prefix := pfx; s_source := Given; s_wine := txt "/usr/bin/wine"; s_origin := FromPrefix; wine_given := false; wine_warning := None; server := Free;
    s_registry_file := registry_file pfx; dir := dest pfx; dir_present := NotThere; artifact_states := []; launch_stamp := None; record_unreadable := None;
    keys := entry_report fresh_world INSTALL_WIN_DIR <$> KEYS; npclient_given := None; game_output_enabled := true; unread := None |} in
  advice s = ToInstall /\ advice_lines s = txt "
Nothing of ours is in this prefix. To put it there:
  tobii bridge install --prefix /home/u/pfx
To take it out again afterwards:
  tobii bridge uninstall --prefix /home/u/pfx
".
Proof. vm_compute. done. Qed.

