(* ===== verification/BridgeSteam.v ===== *)
(** * BridgeSteam: naming a prefix by its game (crates/tobii-cli/src/bridge.rs, main.rs)

    What [--steam] picks out and what [bridge games] lists, in the words of the command line.
    [steam_names_a_prefix]: a prefix that is answered is the one Steam's folders hold for the
    identifier given, or for the one installed game the name picks out. How Rust quotes a
    string for a message is an argument. *)
From S2P Require Import Prelude Text Paths Xml Steam BridgeText.

Section Steam.
Context (is_dir is_file : text -> bool) (canonicalize : text -> option text).
Context (read_dir : text -> option (list text)) (read_to_string : text -> option text).
Context (to_lowercase : text -> text) (debug : text -> text).
Definition libraries (home : text) : list text := (scan is_dir canonicalize read_to_string home).1.
Definition missing_libraries (home : text) : list text := (scan is_dir canonicalize read_to_string home).2.
Definition apps (home : text) : list App := apps_in read_dir read_to_string to_lowercase (libraries home).
Definition prefix_of (home id : text) : option text := prefix is_dir is_file (libraries home) id.

Definition steam_libraries_missing (missing : list text) : text :=
  match missing with
  | [] => []
  | _ =>
      (if (length missing =? 1)%nat then txt "libraryfolders.vdf names a Steam library this machine does not have, so anything installed there is in no list here:"
       else txt "libraryfolders.vdf names " ++ show_uint (zlen missing) ++ txt " Steam libraries this machine does not have, so anything installed there is in no list here:") ++
      (missing ≫= fun path => txt "
  " ++ path)
  end.
Definition with_missing (head missing : text) : text := if bool_decide (missing = []) then head else head ++ txt "
" ++ missing.
Definition used_verbatim_as_app_id (wanted : text) : bool := forallb is_ascii_digit wanted.
Definition app_line (a : App) : text := txt "  " ++ pad_right 10 (appid a) ++ txt " " ++ name a.
Definition ambiguous (wanted : text) (hits : list App) : text :=
  debug wanted ++ txt " matches more than one game; pass the app id:
" ++ join [10] (app_line <$> hits).
Definition no_match (wanted : text) (apps : list App) (missing : text) : text :=
  let msg := if bool_decide (missing = []) then txt "no installed Steam game matches " ++ debug wanted else txt "nothing in the Steam libraries this machine has matches " ++ debug wanted in
  let msg := msg ++ match apps with
                    | [] => txt " (no Steam libraries found)"
                    | _ => txt "
installed:" ++ (apps ≫= fun a => 10 :: app_line a)
                    end in
  with_missing msg missing.
Definition no_prefix (id name : text) : text :=
  txt "no Proton prefix for " ++ id ++ txt " (" ++ name ++ txt "). Proton creates it the first time the game runs — start the game once, then run this again.
If it is set to run natively rather than through Proton, there is no prefix and no Windows DLL to install into.".
Definition picked (home wanted : text) : or_text text :=
  if used_verbatim_as_app_id wanted then Ok wanted
  else match resolve to_lowercase (apps home) wanted with
       | One app => Ok (appid app)
       | Many hits => Err (ambiguous wanted hits)
       | NoMatch => Err (no_match wanted (apps home) (steam_libraries_missing (missing_libraries home)))
       end.
Definition steam_prefix_for (home wanted : text) : or_text text :=
  id ← picked home wanted;
  ok_or (prefix_of home id)
    (no_prefix id (match find (fun a => text_eqb (appid a) id) (apps home) with Some a => name a | None => txt "that app" end)).

(** ** The listing *)
Definition game_line (home : text) (a : App) : text :=
  let mark := if bool_decide (is_Some (prefix_of home (appid a))) then txt "proton" else txt "  --  " in
  txt "  " ++ mark ++ txt "  " ++ pad_right 10 (appid a) ++ txt " " ++ name a.
(** What is printed, a line an element, and the error it ends with, if any. *)
Definition list_steam_games_in (home : text) : list text * option text :=
  let missing := steam_libraries_missing (missing_libraries home) in
  match libraries home with
  | [] => ([], Some (with_missing (txt "no Steam libraries found") missing))
  | libs =>
      let found := ((fun lib => txt "library: " ++ lib) <$> libs) ++ (if bool_decide (missing = []) then [] else [missing]) in
      match apps home with
      | [] => (found, Some (txt "no installed Steam games found"))
      | apps => (found ++ [[]] ++ (game_line home <$> apps) ++ [txt "
install into one with:  tobii bridge install --steam <app id or name>
titles marked `--` have no Proton prefix yet — run them once first."], None)
      end
  end.

(** ** What is picked out *)
Definition called (wanted : text) (a : App) : Prop := contains (to_lowercase wanted) (to_lowercase (name a)) = true.
(** The identifier that a word stands for: itself when it is digits, else that of the one
    installed game whose name contains it. *)
Definition stands_for (home wanted id : text) : Prop :=
  Forall (fun c => is_ascii_digit c = true) wanted /\ id = wanted \/
  ~ Forall (fun c => is_ascii_digit c = true) wanted /\ exists front a rest, apps home = front ++ a :: rest /\ id = appid a /\
    called wanted a /\ Forall (fun b => ~ called wanted b) front /\ Forall (fun b => ~ called wanted b) rest.
Lemma filter_one {A} (f : A -> bool) (l : list A) a : base.filter (fun x => f x = true) l = [a] <->
  exists front rest, l = front ++ a :: rest /\ f a = true /\ Forall (fun x => f x <> true) front /\ Forall (fun x => f x <> true) rest.
Proof.
  split.
  - induction l as [|x l IH]; [done|]. rewrite filter_cons. destruct (decide (f x = true)) as [Hx|Hx].
    + intros [= -> Hl]. exists [], l. split_and!; [done|done|constructor|]. apply Forall_forall. intros y Hy Hf.
      assert (H : y ∈ base.filter (fun x => f x = true) l) by (by apply list_elem_of_filter). rewrite Hl in H. by apply elem_of_nil in H.
    + intros (front & rest & -> & Ha & Hf & Hr)%IH. exists (x :: front), rest. split_and!; [done|done|by constructor|done].
  - intros (front & rest & -> & Ha & Hf & Hr). rewrite filter_app, filter_cons_True by done.
    assert (H : forall l, Forall (fun x => f x <> true) l -> base.filter (fun x => f x = true) l = []).
    { clear. induction 1 as [|x l Hx _ IH]; [done|]. by rewrite filter_cons_False. }
    by rewrite (H front), (H rest).
Qed.
Lemma picked_spec home wanted id : picked home wanted = Ok id <-> stands_for home wanted id.
Proof.
  unfold picked, stands_for, used_verbatim_as_app_id. destruct (forallb is_ascii_digit wanted) eqn:Ed.
  - assert (Hd : Forall (fun c => is_ascii_digit c = true) wanted) by (apply List.Forall_forall, forallb_forall, Ed).
    split; [intros [= <-]; by left|]. intros [[_ ->]|[[] _]]; done.
  - assert (Hd : ~ Forall (fun c => is_ascii_digit c = true) wanted) by (intros H; rewrite List.Forall_forall in H; apply not_true_iff_false in Ed; by apply Ed, forallb_forall).
    unfold resolve. rewrite Ed, andb_false_r. destruct (base.filter _ (apps home)) as [|a [|b l]] eqn:Ef.
    + split; [done|]. intros [[? _]|(_ & front & a & rest & E & _ & H)]; [done|].
      assert (Hf : base.filter (fun a => contains (to_lowercase wanted) (to_lowercase (name a)) = true) (apps home) = [a]) by (apply filter_one; eauto). congruence.
    + split.
      * intros [= <-]. right. split; [done|]. apply filter_one in Ef as (front & rest & ? & ?). eauto 10.
      * intros [[? _]|(_ & front & a' & rest & E & -> & H)]; [done|].
        assert (Hf : base.filter (fun a => contains (to_lowercase wanted) (to_lowercase (name a)) = true) (apps home) = [a']) by (apply filter_one; eauto). congruence.
    + split; [done|]. intros [[? _]|(_ & front & a' & rest & E & _ & H)]; [done|].
      assert (Hf : base.filter (fun a => contains (to_lowercase wanted) (to_lowercase (name a)) = true) (apps home) = [a']) by (apply filter_one; eauto). congruence.
Qed.
(** A prefix is answered exactly when the word stands for an identifier under which a folder
    that looks like a prefix is found, and it is the first of them. *)
Theorem steam_names_a_prefix (home wanted p : text) :
  steam_prefix_for home wanted = Ok p <-> exists id, stands_for home wanted id /\ prefix_of home id = Some p.
Proof.
  setoid_rewrite <- picked_spec. unfold steam_prefix_for. destruct (picked home wanted) as [id|e]; cbn [mbind result_bind].
  - destruct (prefix_of home id) as [q|] eqn:E; cbn [ok_or].
    + split; [intros [= <-]; eauto|]. intros (? & [= <-] & H). congruence.
    + split; [done|]. intros (? & [= <-] & H). congruence.
  - split; [done|]. by intros (? & ? & _).
Qed.
End Steam.
