(* ===== verification/BridgeRun.v ===== *)
(** * BridgeRun: the provider in the foreground (crates/tobii-cli/src/bridge.rs)

    [bridge run] starts the provider and watches it: it comes back when the provider ends,
    and stops it when a launch starts waiting behind it. Time is in milliseconds and every
    call takes some; what the child does is when it would end, sent a signal or not.
    [supervised]: how the watch ends says what happened; [launch_goes_on]: a launch that waits
    is let through within a bounded time. *)
From S2P Require Import Prelude Utf8 Text Paths Wineserver Proton Bridge.

Record Exit := { success : bool; shown : text }.
Inductive Supervised := Exited (status : Exit) | Yielded (pid : Z).
Definition WATCH_INTERVAL : Z := 250.

Section Run.
(** How long each call takes; which questions after the child fail; when the child ends and
    how, if it is sent SIGTERM at the time given or not at all. *)
Context (spent : nat -> Z) (broken : nat -> option text) (exits : option Z -> option (Z * Exit)).
(** The kernel's tables and the lock file, at any time. *)
Context (lock : option text) (inode : Z -> option Z) (canonical mountinfo proc_locks : Z -> option text).

Record Watch := { now : Z; calls : nat; term_at : option Z; reaped : bool; ids : option (Z * Z) }.
Definition tick (s : Watch) : Watch :=
  {| now := now s + spent (calls s); calls := S (calls s); term_at := term_at s; reaped := reaped s; ids := ids s |}.
Definition sleep (ms : Z) (s : Watch) : Watch :=
  {| now := now s + ms; calls := calls s; term_at := term_at s; reaped := reaped s; ids := ids s |}.
Definition reap (s : Watch) : Watch := {| now := now s; calls := calls s; term_at := term_at s; reaped := true; ids := ids s |}.
Definition learn (i : option (Z * Z)) (s : Watch) : Watch :=
  {| now := now s; calls := calls s; term_at := term_at s; reaped := reaped s; ids := i |}.
Definition ended (s : Watch) : option Exit :=
  '(t, status) ← exits (term_at s); if t <=? now s then Some status else None.
Definition try_wait (s : Watch) : result text (option Exit) * Watch :=
  let failure := broken (calls s) in
  let s := tick s in
  match failure with
  | Some e => (Err e, s)
  | None => match ended s with Some status => (Ok (Some status), reap s) | None => (Ok None, s) end
  end.
Definition sigterm (s : Watch) : Watch :=
  let s := tick s in {| now := now s; calls := calls s; term_at := Some (now s); reaped := reaped s; ids := ids s |}.
(** SIGKILL, and the wait for a child that cannot refuse it. *)
Definition kill_and_wait (s : Watch) : Watch := reap (tick (tick s)).

Fixpoint stop_loop (fuel : nat) (deadline : Z) (s : Watch) : Watch :=
  match fuel with
  | O => s
  | S fuel =>
      if deadline <=? now s then kill_and_wait s
      else match try_wait s with
           | (Ok (Some _), s) => s
           | (Ok None, s) => stop_loop fuel deadline (sleep 50 s)
           | (Err _, s) => s
           end
  end.
Definition stop (s : Watch) : Watch := let s := sigterm s in stop_loop 101 (now s + 5000) s.

(** Who waits for the lock of this prefix, asked anew for the lock's numbers until they are
    known. *)
Definition waiter (s : Watch) : option Z * Watch :=
  let s := tick s in
  let found := match ids s with
               | Some i => Some i
               | None => _ ← lock; lock_ids (inode (now s)) (canonical (now s)) (mountinfo (now s))
               end in
  ('(dev, ino) ← found; waiting_launch (proc_locks (now s)) dev ino, learn found s).
(** The loop has no bound of its own: [None] is a watch that goes on. *)
Fixpoint supervise (fuel : nat) (s : Watch) : option (result text Supervised * Watch) :=
  match fuel with
  | O => None
  | S fuel =>
      match try_wait s with
      | (Err e, s) => Some (Err e, s)
      | (Ok (Some status), s) => Some (Ok (Exited status), s)
      | (Ok None, s) =>
          let '(pid, s) := waiter s in
          match pid with
          | Some pid => Some (Ok (Yielded pid), stop s)
          | None => supervise fuel (sleep WATCH_INTERVAL s)
          end
      end
  end.

(** ** The command *)
Definition provider_exe (prefix : text) : text := path_join (path_join prefix INSTALL_SUBDIR) PROVIDER_EXE.
Definition not_installed (prefix : text) : text :=
  txt "the bridge is not installed in " ++ prefix ++ txt " — run `tobii bridge install` first".
Definition wine_args (args : list text) : list text :=
  [txt "C:\tobii-bridge\tobii-bridge.exe"; txt "--no-register"] ++
  match flag_value args (txt "--port") with Some port => [txt "--port"; port] | None => [] end.
Definition running_in (prefix : text) : text :=
  [10] ++ txt "running the bridge in " ++ prefix ++ txt " (Ctrl-C to stop)".
Definition exit_error (status : Exit) : text := txt "the bridge exited with " ++ shown status.
(** How the command ends: what is printed last, or its error. *)
Definition outcome (o : result text Supervised) : result text text :=
  match o with
  | Err e => Err e
  | Ok (Yielded pid) => Ok (yielding pid)
  | Ok (Exited status) => if success status then Ok [] else Err (exit_error status)
  end.
Definition spawned (t : Z) : Watch :=
  {| now := t; calls := 0; term_at := None; reaped := false;
     ids := _ ← lock; lock_ids (inode t) (canonical t) (mountinfo t) |}.
(** What is printed before the start, what is started, and how it ends; [is_file] of the
    provider, the state of the lock, and whether the start succeeds are given. *)
Definition run (fuel : nat) (prefix : text) (args : list text) (installed : bool) (state : Lock) (spawns : result text unit) (t : Z) :
    list text * option (list text) * option (result text text) :=
  if negb installed then ([], None, Some (Err (not_installed prefix)))
  else
    let said := [before_run state; running_in prefix] in
    match spawns with
    | Err e => (said, None, Some (Err e))
    | Ok _ => (said, Some (wine_args args), outcome ∘ fst <$> supervise fuel (spawned t))
    end.

(** ** How the watch ends *)
Section Laws.
Context (forward : forall n, 0 <= spent n).
Lemma try_wait_time s : now s <= now (try_wait s).2 /\ now (try_wait s).2 = now s + spent (calls s) /\
  term_at (try_wait s).2 = term_at s /\ ids (try_wait s).2 = ids s.
Proof. pose proof (forward (calls s)). unfold try_wait. destruct (broken _); [|destruct (ended _)]; cbn; split_and!; (done || lia). Qed.
Lemma try_wait_says s r s' : try_wait s = (r, s') ->
  match r with
  | Err e => exists n, broken n = Some e
  | Ok (Some status) => reaped s' = true /\ exists t, exits (term_at s) = Some (t, status) /\ t <= now s'
  | Ok None => reaped s' = reaped s /\ forall t status, exits (term_at s) = Some (t, status) -> now s' < t
  end.
Proof.
  unfold try_wait, ended. destruct (broken (calls s)) as [e|] eqn:Eb; [intros [= <- <-]; eauto|]. cbn [term_at tick now].
  destruct (exits (term_at s)) as [[t status]|]; cbn [mbind option_bind]; [|intros [= <- <-]; by split].
  destruct (Z.leb_spec t (now s + spent (calls s))); intros [= <- <-]; cbn; [eauto|]. split; [done|]. intros ? ? [= <- <-]. done.
Qed.
Lemma waiter_time s : let s' := (waiter s).2 in
  now s' = now s + spent (calls s) /\ term_at s' = term_at s /\ reaped s' = reaped s.
Proof. done. Qed.
(** The numbers of the lock that are in use at a time: those known before, or read since. *)
Definition knows (s : Watch) (t : Z) (i : Z * Z) : Prop :=
  ids s = Some i \/ exists t', now s <= t' <= t /\ lock_ids (inode t') (canonical t') (mountinfo t') = Some i.
Lemma waiter_says s : let '(pid, s') := waiter s in
  (forall p, pid = Some p -> exists i, knows s (now s') i /\ waiting_launch (proc_locks (now s')) i.1 i.2 = Some p) /\
  (forall i, ids s' = Some i -> knows s (now s') i).
Proof.
  pose proof (forward (calls s)) as Hf. unfold waiter. cbn [now tick learn ids].
  set (t := now s + spent (calls s)). set (found := match ids s with Some i => Some i | None => _ end).
  assert (Hk : forall i, found = Some i -> knows s t i).
  { subst found. intros i. destruct (ids s) eqn:E; [intros [= ->]; by left|]. destruct lock; [|done]. cbn [mbind option_bind]. intros Hi. right. exists t. split; [lia|done]. }
  split; [|apply Hk]. intros p. destruct found as [[dev ino]|]; [|done]. cbn [mbind option_bind]. intros Hw. exists (dev, ino). split; [by apply Hk|done].
Qed.
Lemma knows_later s s' t i : now s <= now s' -> (forall i, ids s' = Some i -> knows s (now s') i) -> knows s' t i -> now s' <= t -> knows s t i.
Proof.
  intros Hn Hi [H|(t' & Ht & H)] Hle.
  - destruct (Hi _ H) as [?|(t' & ? & ?)]; [by left|]. right. exists t'. split; [lia|done].
  - right. exists t'. split; [lia|done].
Qed.
(** A child that is told to stop is gone in the end, unless it could not be asked after. *)
Lemma stop_loop_reaps fuel deadline s : deadline - now s <= 50 * Z.of_nat fuel -> let s' := stop_loop (S fuel) deadline s in
  now s <= now s' /\ (reaped s' = true \/ exists n e, broken n = Some e).
Proof.
  revert s. induction fuel as [|fuel IH]; intros s Hd; cbn [stop_loop].
  - destruct (Z.leb_spec deadline (now s)); [|lia]. pose proof (forward (calls s)). pose proof (forward (S (calls s))). split; [cbn; lia|by left].
  - destruct (Z.leb_spec deadline (now s)) as [|Hlt].
    { pose proof (forward (calls s)). pose proof (forward (S (calls s))). split; [cbn; lia|by left]. }
    destruct (try_wait_time s) as (Ht & _). pose proof (try_wait_says s) as Hs. destruct (try_wait s) as [[[status|]|e] s1]; cbn [fst snd] in *.
    + destruct (Hs _ _ eq_refl) as [? _]. split; [done|by left].
    + destruct (IH (sleep 50 s1)) as [H1 H2]; [cbn; lia|]. cbn [now sleep] in H1. split; [|done]. etrans; [|exact H1]. lia.
    + destruct (Hs _ _ eq_refl) as [n Hb]. split; [done|right; eauto].
Qed.
Lemma stop_reaps s : now s <= now (stop s) /\ (reaped (stop s) = true \/ exists n e, broken n = Some e).
Proof.
  unfold stop. pose proof (forward (calls s)) as Hf. cbv zeta. destruct (stop_loop_reaps 100 (now (sigterm s) + 5000) (sigterm s)) as [H1 H2]; [lia|].
  split; [|done]. etrans; [|exact H1]. cbn. lia.
Qed.
(** The watch ends as it says: with the child's own end, in its own time; or with the process
    it names waiting for this prefix's lock while the child was still running, the child
    then being gone; or because the child could not be asked after. *)
Definition watched (s : Watch) (r : result text Supervised) (s' : Watch) : Prop :=
  match r with
  | Ok (Exited status) => reaped s' = true /\ exists t, exits None = Some (t, status) /\ t <= now s'
  | Ok (Yielded pid) => exists t i, now s <= t <= now s' /\ knows s t i /\ waiting_launch (proc_locks t) i.1 i.2 = Some pid /\
      (exists t', now s <= t' <= t /\ forall te status, exits None = Some (te, status) -> t' < te) /\
      (reaped s' = true \/ exists n e, broken n = Some e)
  | Err e => exists n, broken n = Some e
  end.
Theorem supervised (fuel : nat) (s s' : Watch) (r : result text Supervised) : term_at s = None ->
  supervise fuel s = Some (r, s') -> now s <= now s' /\ watched s r s'.
Proof.
  revert s. induction fuel as [|fuel IH]; intros s Ht; [done|]. cbn [supervise].
  destruct (try_wait_time s) as (Hm1 & Hn1 & Ht1 & Hi1). pose proof (try_wait_says s) as Hs. rewrite Ht in *.
  destruct (try_wait s) as [[[status|]|e] s1]; cbn [fst snd] in *.
  - intros [= <- <-]. split; [done|]. by apply (Hs _ _ eq_refl).
  - destruct (Hs _ _ eq_refl) as [_ Halive]. clear Hs. destruct (waiter_time s1) as (Hn2 & Ht2 & _). pose proof (waiter_says s1) as Hw.
    pose proof (forward (calls s1)) as Hf. destruct (waiter s1) as [[pid|] s2]; cbn [snd] in *; destruct Hw as [Hp Hk].
    + intros [= <- <-]. destruct (stop_reaps s2) as [Hn3 Hr]. split; [lia|]. destruct (Hp _ eq_refl) as (i & Hki & Hwl).
      exists (now s2), i. split_and!; [lia|lia| |done| |done].
      * destruct Hki as [?|(t' & ? & ?)]; [left; congruence|]. right. exists t'. split; [lia|done].
      * exists (now s1). split; [lia|done].
    + intros H. apply IH in H as [Hn Hwd]; [|cbn; congruence]. cbn [now sleep] in Hn. unfold WATCH_INTERVAL in Hn. split; [lia|].
      destruct r as [[status|pid]|e]; [done| |done]. destruct Hwd as (t & i & Hb & Hki & Hwl & (t' & Ht' & Ha) & Hg). cbn [now sleep] in Hb, Ht'.
      exists t, i. unfold WATCH_INTERVAL in *. split_and!; [lia|lia| |done|exists t'; split; [lia|done]|done].
      destruct Hki as [Hid|(t3 & H3 & H4)].
      * cbn [ids sleep] in Hid. destruct (Hk _ Hid) as [?|(t3 & ? & ?)]; [left; congruence|]. right. exists t3. split; [lia|done].
      * right. cbn [now sleep] in H3. exists t3. split; [lia|done].
  - intros [= <- <-]. split; [done|]. by apply (Hs _ _ eq_refl).
Qed.

(** ** The launch goes on *)
Section Bounded.
Context (c : Z) (quick : forall n, spent n <= c) (asked : forall n, broken n = None) (dev ino t0 : Z).
Context (waits : forall t, t0 <= t -> waiting_launch (proc_locks t) dev ino <> None).
Context (locked : lock <> None) (readable : forall t, t0 <= t -> lock_ids (inode t) (canonical t) (mountinfo t) = Some (dev, ino)).
Context (settled : forall t i, lock_ids (inode t) (canonical t) (mountinfo t) = Some i -> i = (dev, ino)).
Lemma stop_loop_quick fuel deadline s : deadline - now s <= 50 * Z.of_nat fuel -> let s' := stop_loop (S fuel) deadline s in
  reaped s' = true /\ now s' <= Z.max (now s) (deadline + c + 50) + 2 * c.
Proof.
  assert (Hc : 0 <= c) by (pose proof (quick 0); pose proof (forward 0); lia).
  revert s. induction fuel as [|fuel IH]; intros s Hd; cbn [stop_loop].
  - destruct (Z.leb_spec deadline (now s)); [|lia]. split; [done|]. pose proof (quick (calls s)). pose proof (quick (S (calls s))). cbn. lia.
  - destruct (Z.leb_spec deadline (now s)) as [|Hlt].
    { split; [done|]. pose proof (quick (calls s)). pose proof (quick (S (calls s))). cbn. lia. }
    destruct (try_wait_time s) as (_ & Ht & _). pose proof (try_wait_says s) as Hs. pose proof (quick (calls s)) as Hq.
    destruct (try_wait s) as [[[status|]|e] s1]; cbn [fst snd] in *.
    + destruct (Hs _ _ eq_refl) as [? _]. split; [done|lia].
    + pose proof (forward (calls s)). destruct (IH (sleep 50 s1)) as [H1 H2]; [cbn; lia|]. split; [done|]. cbn [now sleep] in H2. etrans; [exact H2|]. lia.
    + destruct (Hs _ _ eq_refl) as [n Hb]. by rewrite asked in Hb.
Qed.
Lemma stop_quick s : reaped (stop s) = true /\ now (stop s) <= now s + 5050 + 4 * c.
Proof.
  unfold stop. cbv zeta. destruct (stop_loop_quick 100 (now (sigterm s) + 5000) (sigterm s)) as [H1 H2]; [lia|]. split; [done|].
  pose proof (quick (calls s)). pose proof (forward (calls s)). cbn [now sigterm tick] in H2. cbn [now sigterm tick]. lia.
Qed.
(** C18: A launch that waits for the prefix from some time on: the watch comes to an end, and the
    provider is gone, no later than an interval, the grace and a few calls after it. *)
Theorem launch_goes_on (fuel : nat) (s : Watch) : term_at s = None -> (forall i, ids s = Some i -> i = (dev, ino)) ->
  t0 - now s <= 250 * Z.of_nat fuel -> exists r s', supervise (S fuel) s = Some (Ok r, s') /\ reaped s' = true /\
  now s' <= Z.max (now s) (t0 + 250) + 5050 + 6 * c.
Proof.
  assert (Hc : 0 <= c) by (pose proof (quick 0); pose proof (forward 0); lia).
  revert s. induction fuel as [|fuel IH]; intros s Ht Hids Hfuel; cbn [supervise].
  all: destruct (try_wait_time s) as (Hm1 & Hn1 & Ht1 & Hi1); pose proof (try_wait_says s) as Hs; pose proof (quick (calls s)) as Hq1; pose proof (forward (calls s)) as Hp1;
    destruct (try_wait s) as [[[status|]|e] s1]; cbn [fst snd] in *;
    [destruct (Hs _ _ eq_refl) as [Hr _]; exists (Exited status), s1; split_and!; [done|done|lia]| |destruct (Hs _ _ eq_refl) as [n Hb]; by rewrite asked in Hb].
  all: destruct (waiter_time s1) as (Hn2 & Ht2 & _); pose proof (waiter_says s1) as Hw; pose proof (quick (calls s1)) as Hq2; pose proof (forward (calls s1)) as Hp2.
  all: assert (Hseen : t0 <= now (waiter s1).2 -> (waiter s1).1 <> None).
  1,3: intros Hle; unfold waiter in *; cbn [snd now learn tick] in Hle; cbn [fst now learn tick ids];
    assert (Hi : match ids s1 with Some i => Some i | None => _ ← lock; lock_ids (inode (now s1 + spent (calls s1))) (canonical (now s1 + spent (calls s1))) (mountinfo (now s1 + spent (calls s1))) end = Some (dev, ino))
      by (destruct (ids s1) as [i|] eqn:E; [by rewrite (Hids i) by congruence|destruct lock; [by apply readable|done]]);
    rewrite Hi; cbn [mbind option_bind]; by apply waits.
  all: destruct (waiter s1) as [[pid|] s2]; cbn [fst snd] in *;
    [destruct (stop_quick s2) as [H1 H2]; exists (Yielded pid), (stop s2); split_and!; [done|done|lia]|].
  - destruct Hseen; [lia|done].
  - destruct (Z.le_gt_cases t0 (now s2)) as [Hle|Hgt]; [by destruct (Hseen Hle)|].
    destruct (IH (sleep WATCH_INTERVAL s2)) as (r & s' & E & Hr & Hb).
    + cbn. congruence.
    + cbn [ids sleep]. intros i Hi. destruct Hw as [_ Hk]. destruct (Hk i Hi) as [?|(t' & _ & ?)]; [apply Hids; congruence|by eapply settled].
    + cbn [now sleep]. unfold WATCH_INTERVAL. lia.
    + exists r, s'. split_and!; [exact E|done|]. cbn [now sleep] in Hb. unfold WATCH_INTERVAL in Hb. lia.
Qed.
End Bounded.
End Laws.
End Run.

(** ** An example *)
(** A provider that runs until it is told to stop and then takes 300 ms; somebody waits for
    the prefix from 600 ms on. *)
Definition stubborn (term : option Z) : option (Z * Exit) := (fun t => (t + 300, {| success := false; shown := txt "signal: 15 (SIGTERM)" |})) <$> term.
Definition tmp_mounts : text := mount_table [sample_mount 32 29 "/" "/@"; sample_mount 99 54 "/tmp" "/"].
Definition tmp_lock : text := txt "/tmp/.wine-1000/lock".
Definition waits_from (t0 t : Z) : option text := if t <? t0 then Some [] else Some (lock_table [sample_request true 1140518]).
Definition example_watch : Watch := {| now := 0; calls := 0; term_at := None; reaped := false; ids := None |}.
Definition example_supervise (fuel : nat) : option (result text Supervised * Watch) :=
  supervise (fun _ => 1) (fun _ => None) stubborn (Some tmp_lock) (fun _ => Some 483507) (fun _ => Some tmp_lock) (fun _ => Some tmp_mounts) (waits_from 600) fuel example_watch.
Lemma launch_goes_on_witness : exists r s', example_supervise 4 = Some (Ok r, s') /\ reaped s' = true /\ now s' <= 5906.
Proof.
  apply (launch_goes_on (fun _ => 1) (fun _ => None) stubborn (Some tmp_lock) (fun _ => Some 483507) (fun _ => Some tmp_lock) (fun _ => Some tmp_mounts) (waits_from 600)
    ltac:(done) 1 ltac:(done) ltac:(done) 54 483507 600).
  - intros t Ht. unfold waits_from. destruct (Z.ltb_spec t 600); [lia|]. vm_compute. discriminate.
  - done.
  - intros t _. vm_compute. reflexivity.
  - intros t i. vm_compute. by intros [= <-].
  - reflexivity.
  - intros i. vm_compute. discriminate.
  - cbn. lia.
Defined.
Lemma supervised_witness : exists s', example_supervise 4 = Some (Ok (Yielded 1140518), s') /\
  now example_watch <= now s' /\ watched (fun _ => None) stubborn (fun _ => Some 483507) (fun _ => Some tmp_lock) (fun _ => Some tmp_mounts) (waits_from 600) example_watch (Ok (Yielded 1140518)) s'.
Proof.
  assert (E : exists s', example_supervise 4 = Some (Ok (Yielded 1140518), s')) by (eexists; vm_compute; reflexivity).
  destruct E as [s' E]. exists s'. split; [exact E|].
  apply (supervised (fun _ => 1) (fun _ => None) stubborn (Some tmp_lock) (fun _ => Some 483507) (fun _ => Some tmp_lock) (fun _ => Some tmp_mounts) (waits_from 600) ltac:(done) 4 example_watch s'); [reflexivity|exact E].
Defined.
Example run_reports_its_end : run (fun _ => 1) (fun _ => None) (fun _ => Some (40, {| success := false; shown := txt "exit status: 3" |})) None (fun _ => None) (fun _ => None) (fun _ => None) (fun _ => None)
    5 (txt "/pfx") [txt "tobii"; txt "bridge"; txt "run"; txt "--port"; txt "4242"] true Free (Ok tt) 0 =
  ([before_run Free; running_in (txt "/pfx")], Some [txt "C:\tobii-bridge\tobii-bridge.exe"; txt "--no-register"; txt "--port"; txt "4242"],
   Some (Err (txt "the bridge exited with exit status: 3"))).
Proof. vm_compute. reflexivity. Qed.
