(* ===== verification/BridgeCommand.v ===== *)
(** * BridgeCommand: from the command line to the prefix (crates/tobii-cli/src/bridge.rs)

    What install and uninstall make of their arguments and of the file system before they
    touch anything. [install_as_asked]: an install is of what it was asked for - a client path that
    reads back, force exactly when given, and for a game named through Steam a wine the prefix
    records unless one was named or forced - or it ends before it has touched the prefix. *)
From stdpp Require Import gmap.
From S2P Require Import Prelude Text Paths Xml Wineserver RegQuery Proton Bridge BridgeText Registrar Registered.

Section World.
Context (is_file is_dir : text -> bool) (read_to_string : text -> option text) (read_dir : text -> option (list text)).
Context (env : text -> option text) (current_exe : option text) (steam_prefix_for : text -> text -> or_text text).
(** The contents of a file that is copied, and this program's version. *)
Context (contents : text -> bytes) (package_version : text).

Definition warning_line (warning : option text) : list text := match warning with Some w => [txt "warning: " ++ w] | None => [] end.
Definition say_all (l : list text) : Io unit := foldr (fun s rest => _ ← say s; rest) (mret tt) l.
Definition resolve_wine (prefix : text) (args : list text) : Io (text * WineOrigin) :=
  '(wine, origin, warning) ← lift (resolve_wine_reporting is_file read_to_string read_dir env prefix args);
  _ ← say_all (warning_line warning); mret (wine, origin).
Definition asks_force (args : list text) : bool := existsb (fun a => text_eqb a (txt "--force")) args.
(** What an install works with, once everything it is called with is settled. *)
Definition job_of (args : list text) (prefix : text) (source : PrefixSource) (origin : WineOrigin) (src : text) (np_source : NpSource) (np_target : text) : Job :=
  {| source := source; origin := origin; forced := asks_force args; np_source := np_source; np_target := np_target;
     explicit_ours := bool_decide (flag_value args (txt "--npclient") = Some (txt "ours"));
     installed_np := find_installed_npclient is_file;
     artifacts := fun name => let from := path_join src name in if is_file from then Some (contents from) else None;
     artifact_path := src;
     beside_config_info := match path_parent prefix with Some d => is_file (path_join d (txt "config_info")) | None => false end;
     version := package_version |}.
Section Commands.
Context (os : nat -> Answer) (lock : World -> Lock) (user_reg : World -> result text bytes).
Context (torn : nat -> option bytes) (survives : nat -> text -> bool) (pid : Z).
Definition install_command (args : list text) : Io unit :=
  '(prefix, source) ← lift (resolve_prefix is_dir env steam_prefix_for args);
  '(wine, origin, warning) ← lift (resolve_wine_reporting is_file read_to_string read_dir env prefix args);
  match refuse_unverified_wine_for_steam source origin wine args with
  | Some e => throw e
  | None =>
      _ ← say_all (warning_line warning);
      src ← lift (artifact_dir is_file current_exe args);
      '(np_source, np_target) ← lift (np_target_for is_file args);
      install os wine prefix lock user_reg torn pid (job_of args prefix source origin src np_source np_target)
  end.
Definition uninstall_command (args : list text) : Io unit :=
  '(prefix, _) ← lift (resolve_prefix is_dir env steam_prefix_for args);
  '(wine, _) ← resolve_wine prefix args;
  uninstall os wine prefix lock user_reg survives.

Lemma asks_force_spec args : asks_force args = true <-> txt "--force" ∈ args.
Proof.
  unfold asks_force. rewrite existsb_exists. setoid_rewrite <- list_elem_of_In. split.
  - intros (a & Ha & ->%text_eqb_iff). done.
  - intros H. exists (txt "--force"). by rewrite text_eqb_refl.
Qed.
Lemma lift_bind {A B} (r : result text A) (k : A -> Io B) w : (lift r ≫= k) w = match r with Ok a => k a w | Err e => (Err e, w) end.
Proof. by destruct r. Qed.
Lemma say_bind {B} (m : Io B) l w : exists w1, untouched w w1 /\ ((say_all l ≫= fun _ => m) w) = m w1.
Proof.
  revert w. induction l as [|s l IH]; intros w; [by exists w|].
  destruct (IH (say s w).2) as (w1 & H & E). exists w1. split; [by etrans; [|exact H]|]. rewrite <- E. reflexivity.
Qed.
(** What an install was asked for: a client path that reads back; force exactly when it was
    given; for a title named through Steam a wine the prefix records, unless one was named or
    force was given; and what is copied is there. *)
Definition asked (args : list text) (j : Job) : Prop :=
  target_ok (np_target j) /\ (forced j = true <-> txt "--force" ∈ args) /\
  (forall title, source j = FromSteam title -> origin j = FromPrefix \/ is_Some (flag_value args (txt "--wine")) \/ txt "--force" ∈ args) /\
  (forall name b, artifacts j name = Some b -> is_file (path_join (artifact_path j) name) = true).
Lemma job_asked args prefix source origin wine src np_source np_target : refuse_unverified_wine_for_steam source origin wine args = None ->
  np_target_for is_file args = Ok (np_source, np_target) -> asked args (job_of args prefix source origin src np_source np_target).
Proof.
  intros Er En. split_and!; [by eapply targets_ok|apply asks_force_spec| |].
  - cbn. intros title ->. unfold refuse_unverified_wine_for_steam, steam_wine_refused in Er. fold (asks_force args) in Er.
    destruct origin; [by left|]. right. destruct (bool_decide_reflect (is_Some (flag_value args (txt "--wine")))) as [Hw|_]; [by left|].
    right. apply asks_force_spec. cbn in Er. by destruct (asks_force args).
  - cbn. intros name b. by destruct (is_file (path_join src name)).
Qed.
(** An install command either ends in an error before it has touched the prefix, or is the
    install, on a prefix and with a wine its arguments and the file system name, of what it
    was asked for. *)
Theorem install_as_asked (args : list text) (w : World) :
  (exists e w1, install_command args w = (Err e, w1) /\ untouched w w1) \/
  exists prefix wine origin warning j w1, resolve_prefix is_dir env steam_prefix_for args = Ok (prefix, source j) /\
    resolve_wine_reporting is_file read_to_string read_dir env prefix args = Ok (wine, origin, warning) /\ asked args j /\ untouched w w1 /\
    install_command args w = install os wine prefix lock user_reg torn pid j w1.
Proof.
  unfold install_command. rewrite lift_bind. destruct (resolve_prefix _ _ _ args) as [[prefix source]|e]; [|left; by exists e, w].
  rewrite lift_bind. destruct (resolve_wine_reporting _ _ _ _ prefix args) as [[[wine origin] warning]|e] eqn:Ew; [|left; by exists e, w].
  destruct (refuse_unverified_wine_for_steam source origin wine args) as [e|] eqn:Er; [left; by exists e, w|].
  match goal with |- context [(say_all _ ≫= ?k) w] => destruct (say_bind (k tt) (warning_line warning) w) as (w1 & Hu & E) end. rewrite E.
  rewrite lift_bind. destruct (artifact_dir _ _ args) as [src|e]; [|left; by exists e, w1].
  rewrite lift_bind. destruct (np_target_for is_file args) as [[np_source np_target]|e] eqn:En; [|left; by exists e, w1].
  right. exists prefix, wine, origin, warning, (job_of args prefix source origin src np_source np_target), w1.
  split; [done|]. split; [done|]. split; [by eapply job_asked|]. split; [exact Hu|done].
Qed.
End Commands.
End World.

(** A prefix named through Steam whose runner is recorded, and the same one without. *)
Definition steam_disk (runner : bool) (p : text) : bool :=
  text_eqb p (txt "/art/freetrackclient64.dll") || text_eqb p (txt "/usr/bin/wine") || runner && text_eqb p (txt "/proton/files/bin/wine").
Definition steam_env (n : text) : option text := if text_eqb n (txt "HOME") then Some (txt "/home/u") else if text_eqb n (txt "PATH") then Some (txt "/usr/bin") else None.
Definition steam_note (p : text) : option text :=
  if text_eqb p (txt "/compat/config_info") then Some (txt "11.0
/proton/files/share/fonts/
") else None.
Definition steam_args (more : list text) : list text := [txt "tobii"; txt "bridge"; txt "install"; txt "--steam"; txt "Elite"; txt "--artifacts"; txt "/art"] ++ more.
Definition steam_install (runner : bool) (more : list text) : result text unit * World :=
  install_command (steam_disk runner) (fun _ => true) steam_note (fun _ => None) steam_env None (fun _ _ => Ok (txt "/compat/pfx")) (fun _ => []) (txt "0.5.0")
    fine example_lock example_reg (fun _ => None) 42 (steam_args more) fresh_world.
Example steam_wine_found : let '(r, w) := steam_install true [] in is_ok r = true /\ holds w FT_KEY = Plain INSTALL_WIN_DIR.
Proof. vm_compute. done. Qed.
Example steam_wine_unknown : let '(r, w) := steam_install false [] in is_ok r = false /\ w = fresh_world.
Proof. vm_compute. done. Qed.
Example steam_wine_forced : let '(r, w) := steam_install false [txt "--force"] in is_ok r = true /\ head (said w) = Some (txt "warning: " ++ fallback (txt "/usr/bin/wine")).
Proof. vm_compute. done. Qed.
