(* ===== verification/Setup.v ===== *)
(** * Setup: the screen and where it stands (crates/tobii-config: setup.rs, edid.rs, setpm.rs)

    The geometry of the display area, its file, and the two places its numbers come from:
    a monitor's EDID and a [.setpm] capture. *)
From S2P Require Import Prelude F64 Floats Utf8 Text Decimal KeyVal Paths Disk Protocol Tlv Commands Store.

(** ** Display geometry (setup.rs) *)
Record DisplaySetup := {
  width_mm : f64;
  height_mm : f64;
  tilt_deg : f64;
  offset_x_mm : f64;
  offset_y_mm : f64;
  offset_z_mm : f64;
  curvature_radius_mm : f64;
}.
Definition FRAC_PI_2 : f64 := S754_finite false 7074237752028440 (-52).
Definition two : f64 := of_int 2.

Section Geometry.
Context `{Libm}.

Definition flat (length radius : f64) : bool :=
  negb (is_finite radius) || fle radius f64_zero || negb (is_finite length).
Definition chord_from_arc (arc_mm radius_mm : f64) : f64 :=
  if flat arc_mm radius_mm then arc_mm
  else let half := clamp_to (fdiv arc_mm (fmul two radius_mm)) (fopp FRAC_PI_2) FRAC_PI_2 in
       fmul (fmul two radius_mm) (sin half).
Definition arc_from_chord (chord_mm radius_mm : f64) : f64 :=
  if flat chord_mm radius_mm then chord_mm
  else let ratio := clamp_to (fdiv chord_mm (fmul two radius_mm)) (of_int (-1)) (of_int 1) in
       fmul (fmul two radius_mm) (asin ratio).

Definition TRACKING_FAR_MM : f64 := of_int 900.
Definition USABLE_GAZE_DEG : f64 := of_int 28.
Record Coverage := { best_distance_mm : f64; edge_angle_deg : f64; usable_fraction : f64 }.
Definition tracking_coverage (width_mm : f64) : Coverage :=
  let half := fdiv (fmax width_mm f64_zero) two in
  let d := TRACKING_FAR_MM in
  {| best_distance_mm := d;
     edge_angle_deg := to_degrees (atan2 half d);
     usable_fraction :=
       if fle width_mm f64_zero then of_int 1
       else fmin (fdiv (fmul (fmul two d) (tan (to_radians USABLE_GAZE_DEG))) width_mm) (of_int 1) |}.
Definition plane_width_from_edid (edid_active_width_mm : f64) : f64 := edid_active_width_mm.

Definition to_corners (s : DisplaySetup) : DisplayCorners :=
  let tilt := to_radians (tilt_deg s) in
  let tilt_mm := fmul (height_mm s) (sin tilt) in
  let dy := fmul (height_mm s) (cos tilt) in
  let half_w := fdiv (width_mm s) two in
  let '(cx, cy, cz) := (offset_x_mm s, offset_y_mm s, offset_z_mm s) in
  {| bl := (fsub cx half_w, cy, cz);
     tl := (fsub cx half_w, fadd cy dy, fadd cz tilt_mm);
     tr := (fadd cx half_w, fadd cy dy, fadd cz tilt_mm) |}.
Definition from_corners (c : DisplayCorners) : DisplaySetup :=
  let '(tlx, tly, tlz) := tl c in
  let '(trx, _, _) := tr c in
  let '(_, bly, blz) := bl c in
  let dy := fsub tly bly in
  let dz := fsub tlz blz in
  {| width_mm := fsub trx tlx;
     height_mm := hypot dy dz;
     tilt_deg := to_degrees (atan2 dz dy);
     offset_x_mm := fdiv (fadd tlx trx) two;
     offset_y_mm := bly;
     offset_z_mm := blz;
     curvature_radius_mm := f64_zero |}.
End Geometry.

(** The standard library does not say what [DefaultHasher] computes. *)
Definition fingerprint (finish : list Z -> Z) (s : DisplaySetup) : Z :=
  finish (f64_to_bits <$> [width_mm s; height_mm s; tilt_deg s; offset_x_mm s; offset_y_mm s; offset_z_mm s]).

(** ** Its file *)
Definition setup_line (key : text) (v : f64) : text := key ++ 32 :: 61 :: 32 :: show_f64 v.
Definition setup_to_toml (s : DisplaySetup) : text :=
  [txt "# tobii-linux display setup — edit with `tobii setup`";
   txt "[display]";
   setup_line (txt "width_mm") (width_mm s);
   setup_line (txt "height_mm") (height_mm s);
   setup_line (txt "tilt_deg") (tilt_deg s);
   setup_line (txt "offset_x_mm") (offset_x_mm s);
   setup_line (txt "offset_y_mm") (offset_y_mm s);
   setup_line (txt "offset_z_mm") (offset_z_mm s);
   setup_line (txt "curvature_radius_mm") (curvature_radius_mm s)] ≫= newline.

(** The locals of [from_toml]. *)
Record SetupDraft := {
  in_display : bool;
  w : option f64; h : option f64; t : option f64;
  ox : option f64; oy : option f64; oz : option f64;
  curve : f64;
}.
Definition setup_draft0 : SetupDraft :=
  {| in_display := false; w := None; h := None; t := None; ox := None; oy := None; oz := None; curve := f64_zero |}.
Definition setup_set (d : SetupDraft) (key : text) (v : f64) : SetupDraft :=
  if text_eqb key (txt "width_mm") then {d with w := Some v}
  else if text_eqb key (txt "height_mm") then {d with h := Some v}
  else if text_eqb key (txt "tilt_deg") then {d with t := Some v}
  else if text_eqb key (txt "offset_x_mm") then {d with ox := Some v}
  else if text_eqb key (txt "offset_y_mm") then {d with oy := Some v}
  else if text_eqb key (txt "offset_z_mm") then {d with oz := Some v}
  else if text_eqb key (txt "curvature_radius_mm") then {d with curve := v}
  else d.
Definition setup_read_line (d : SetupDraft) (line : text) : SetupDraft :=
  let line := trim line in
  if match line with [] => true | c :: _ => c =? 35 end then d
  else if starts_with [91] line then {d with in_display := text_eqb line (txt "[display]")}
  else if negb (in_display d) then d
  else match split_once (Z.eqb 61) line with
       | None => d
       | Some (key, val) =>
           let val := trim (default [] (head (split_char 35 val))) in
           match parse_f64 val with
           | Some v => if is_finite v then setup_set d (trim key) v else d
           | None => d
           end
       end.
Definition setup_from_toml (s : text) : option DisplaySetup :=
  let d := foldl setup_read_line setup_draft0 (lines s) in
  w ← w d; h ← h d; t ← t d; ox ← ox d; oy ← oy d; oz ← oz d;
  Some {| width_mm := w; height_mm := h; tilt_deg := t; offset_x_mm := ox; offset_y_mm := oy; offset_z_mm := oz;
          curvature_radius_mm := curve d |}.

(** ** Monitors (edid.rs) *)
Record MonitorInfo := {
  model : text;
  mon_width_mm : f64;
  mon_height_mm : f64;
  id : option text;
  connector : option text;
}.
Definition EDID_HEADER : bytes := [x00; xff; xff; xff; xff; xff; xff; x00].
(** [edid[i]], in range. *)
Definition at_ (edid : bytes) (i : Z) : Z := u8 (default x00 (edid !! Z.to_nat i)).
Definition DESCRIPTORS : list Z := [54; 72; 90; 108].
(** [take_while(|b| b != 0x0a).map(char)], trimmed. *)
Fixpoint until_newline (l : bytes) : text :=
  match l with
  | b :: l => if u8 b =? 0x0a then [] else u8 b :: until_newline l
  | [] => []
  end.
(** The text of the first descriptor with this tag. *)
Fixpoint descriptor (edid : bytes) (tag : Z) (offs : list Z) : option text :=
  match offs with
  | [] => None
  | off :: offs =>
      if (at_ edid off =? 0) && (at_ edid (off + 1) =? 0) && (at_ edid (off + 2) =? 0) && (at_ edid (off + 3) =? tag)
      then Some (trim (until_newline (slice edid (off + 5) (off + 18))))
      else descriptor edid tag offs
  end.

Definition edid_letter (m shift : Z) : Z := Z.land (Z.shiftr m shift) 0x1f + 65 - 1.
(** [{:04X}] *)
Definition hex4 (v : Z) : text := (fun k => hex_upper (Z.land (Z.shiftr v k) 15)) <$> [12; 8; 4; 0].
Definition edid_monitor_id (edid : bytes) : option text :=
  if zlen edid <? 128 then None
  else
    let m := Z.lor (Z.shiftl (at_ edid 8) 8) (at_ edid 9) in
    let '(a, b, c) := (edid_letter m 10, edid_letter m 5, edid_letter m 0) in
    if negb (is_ascii_uppercase a && is_ascii_uppercase b && is_ascii_uppercase c) then None
    else
      let product := Z.lor (at_ edid 10) (Z.shiftl (at_ edid 11) 8) in
      let id := [a; b; c] ++ hex4 product in
      Some (match descriptor edid 0xff DESCRIPTORS with
            | Some ((_ :: _) as s) => id ++ 45 :: s
            | _ => id
            end).

Definition parse_edid (edid : bytes) : option MonitorInfo :=
  if (zlen edid <? 128) || negb (bool_decide (take 8 edid = EDID_HEADER)) then None
  else
    let '(w_mm, h_mm) :=
      if negb (at_ edid 54 =? 0) || negb (at_ edid 55 =? 0)
      then (Z.lor (at_ edid 66) (Z.shiftl (Z.shiftr (at_ edid 68) 4) 8),
            Z.lor (at_ edid 67) (Z.shiftl (Z.land (at_ edid 68) 0x0f) 8))
      else (0, 0) in
    let '(w_mm, h_mm) :=
      if (w_mm =? 0) || (h_mm =? 0) then (at_ edid 21 * 10, at_ edid 22 * 10) else (w_mm, h_mm) in
    if (w_mm =? 0) || (h_mm =? 0) then None
    else Some {| model := default [] (descriptor edid 0xfc DESCRIPTORS);
                 mon_width_mm := of_int w_mm; mon_height_mm := of_int h_mm;
                 id := edid_monitor_id edid; connector := None |}.

Definition area (m : MonitorInfo) : f64 := fmul (mon_width_mm m) (mon_height_mm m).
(** [filter(..).max_by(..)]: the last of the largest. *)
Definition pick_monitor (monitors : list MonitorInfo) : option MonitorInfo :=
  foldl (fun best m => match best with
                       | Some b => match total_cmp (area b) (area m) with Gt => Some b | _ => Some m end
                       | None => Some m
                       end) None
    (List.filter (fun m => flt f64_zero (mon_width_mm m) && flt f64_zero (mon_height_mm m)) monitors).
(** [detect_monitors], of the entries of /sys/class/drm and their [edid] files. *)
Fixpoint detect_monitors (entries : list (text * option bytes)) : list MonitorInfo :=
  match entries with
  | [] => []
  | (name, Some b) :: entries =>
      match parse_edid b with
      | Some info => {info with connector := Some name} :: detect_monitors entries
      | None => detect_monitors entries
      end
  | (_, None) :: entries => detect_monitors entries
  end.

(** ** Screen-plane captures (setpm.rs) *)
Definition le_u32 (b : bytes) (off : Z) : Z := of_le (slice b off (off + 4)).
Definition le_f32 (b : bytes) (off : Z) : f64 := as_f64 (f32_of_le (slice b off (off + 4))).
Definition parse_setpm_corners (b : bytes) : option DisplayCorners :=
  if zlen b <? 12 then None
  else if negb (le_u32 b 0 =? 4) || negb (le_u32 b 8 =? 36) || (zlen b <? 12 + 36) then None
  else let f i := le_f32 b (12 + i * 4) in
       Some {| bl := (f 0, f 1, f 2); tl := (f 3, f 4, f 5); tr := (f 6, f 7, f 8) |}.

(** ** The file reads back *)
Record setup_ok (s : DisplaySetup) : Prop := {
  so_width : keeps (width_mm s);
  so_height : keeps (height_mm s);
  so_tilt : keeps (tilt_deg s);
  so_x : keeps (offset_x_mm s);
  so_y : keeps (offset_y_mm s);
  so_z : keeps (offset_z_mm s);
  so_curve : keeps (curvature_radius_mm s);
}.

Lemma setup_line_ok k v : plain_key k = true -> keeps v ->
  one_line (setup_line k v) /\ back_ok (Z.eqb 13) (setup_line k v).
Proof.
  intros Hk [Hv _]. apply show_f64_token in Hv.
  split; [apply token_line; [by apply plain_key_line|done]|apply token_back; [apply not_cr|done]].
Qed.

Lemma setup_line_read d k v ls : in_display d = true -> plain_key k = true -> keeps v ->
  foldl setup_read_line d (setup_line k v :: ls) = foldl setup_read_line (setup_set d k v) ls.
Proof.
  intros Hd Hk [Hv Hf]. cbn [foldl]. f_equal. pose proof (show_f64_token v Hv) as Ht.
  destruct (pair_line k (32 :: show_f64 v) Hk) as (E1 & E2 & E3 & E4 & E5); [by apply token_back|].
  unfold setup_read_line, setup_line. rewrite E1, E2, E3, Hd, E4, E5. cbn [negb].
  assert (Hs : head (split_char 35 (32 :: show_f64 v)) = Some (32 :: show_f64 v)).
  { unfold split_char. rewrite split_none; [done|]. destruct Ht as [_ Ht]. constructor; [done|].
    eapply Forall_impl; [exact Ht|]. by intros c (_ & _ & _ & ?). }
  rewrite Hs. cbn [from_option Datatypes.id]. rewrite trim_space by done. by rewrite show_f64_reads_back, Hf by done.
Qed.

Lemma setup_file_reads_back s : setup_ok s -> setup_from_toml (setup_to_toml s) = Some s.
Proof.
  intros Hs. unfold setup_from_toml, setup_to_toml. destruct Hs.
  rewrite lines_newlines.
  - change (foldl setup_read_line setup_draft0 (?x :: ?y :: ?l)) with (foldl setup_read_line {setup_draft0 with in_display := true} l).
    rewrite !setup_line_read by done. by destruct s.
  - rewrite !Forall_cons. split_and!; try (by apply setup_line_ok); [by apply one_line_dec..|done].
  - rewrite !Forall_cons. split_and!; try (by apply setup_line_ok); done.
Qed.

(** ** What is read is usable: every number finite *)
Definition slot_ok (o : option f64) : Prop := match o with Some v => keeps v | None => True end.
Definition setup_draft_ok (d : SetupDraft) : Prop :=
  slot_ok (w d) /\ slot_ok (h d) /\ slot_ok (t d) /\ slot_ok (ox d) /\ slot_ok (oy d) /\ slot_ok (oz d) /\ keeps (curve d).
Lemma setup_set_ok d k v : setup_draft_ok d -> keeps v -> setup_draft_ok (setup_set d k v).
Proof.
  intros Hd Hv. destruct d. unfold setup_draft_ok, setup_set in *. repeat case_match; cbn in *; tauto.
Qed.
Lemma setup_read_line_ok d line : setup_draft_ok d -> setup_draft_ok (setup_read_line d line).
Proof.
  intros Hd. unfold setup_read_line. destruct (match trim line with [] => true | c :: _ => c =? 35 end); [done|].
  destruct (starts_with [91] (trim line)); [by destruct d|]. destruct (negb (in_display d)); [done|].
  destruct (split_once _ _) as [[k val]|]; [|done].
  destruct (parse_f64 _) as [v|] eqn:E; [|done]. destruct (is_finite v) eqn:Ef; [|done].
  apply setup_set_ok; [done|]. split; [by eapply parse_f64_valid|done].
Qed.
Lemma setup_lines_ok ls d : setup_draft_ok d -> setup_draft_ok (foldl setup_read_line d ls).
Proof. revert d. induction ls as [|l ls IH]; intros d Hd; [done|]. by apply IH, setup_read_line_ok. Qed.
Lemma loaded_setup_ok s d : setup_from_toml s = Some d -> setup_ok d.
Proof.
  unfold setup_from_toml. pose proof (setup_lines_ok (lines s) setup_draft0) as H.
  destruct (foldl setup_read_line setup_draft0 (lines s)) as [i [?|] [?|] [?|] [?|] [?|] [?|] c]; try done.
  cbn. intros. simplify_eq. destruct H as (? & ? & ? & ? & ? & ? & ?); [by vm_compute|]. by constructor.
Qed.

(** The display setup survives its file: exactly the setups with finite numbers are written
    so that they read back the same, every digit, and whatever a file holds, hand-edited or
    damaged, the setup read from it is one of those: the device is never told a NaN. *)
Theorem setup_file_roundtrip (s : DisplaySetup) :
  (setup_ok s <-> setup_from_toml (setup_to_toml s) = Some s) /\
  forall text, setup_from_toml text = Some s -> setup_from_toml (setup_to_toml s) = Some s.
Proof.
  split; [split; [apply setup_file_reads_back|apply loaded_setup_ok]|].
  intros text H. by eapply setup_file_reads_back, loaded_setup_ok.
Qed.

Definition golden_setup : DisplaySetup :=
  {| width_mm := lit 1193 1; height_mm := lit 3355 10; tilt_deg := lit 20 1; offset_x_mm := f64_zero;
     offset_y_mm := lit 1027 100; offset_z_mm := fopp (lit 31 10); curvature_radius_mm := lit 1800 1 |}.
Lemma setup_file_roundtrip_witness :
  (setup_ok golden_setup <-> setup_from_toml (setup_to_toml golden_setup) = Some golden_setup) /\
  forall text, setup_from_toml text = Some golden_setup -> setup_from_toml (setup_to_toml golden_setup) = Some golden_setup.
Proof. exact (setup_file_roundtrip golden_setup). Defined.
Example golden_setup_file : setup_from_toml (setup_to_toml golden_setup) = Some golden_setup.
Proof. vm_compute. reflexivity. Qed.

(** The plane has a level top edge and a vertical left edge, as the device expects. *)
Lemma corners_level `{Libm} s :
  (tl (to_corners s)).1.2 = (tr (to_corners s)).1.2 /\ (tl (to_corners s)).2 = (tr (to_corners s)).2 /\
  (tl (to_corners s)).1.1 = (bl (to_corners s)).1.1.
Proof. done. Qed.
Lemma flat_chord `{Libm} len : chord_from_arc len f64_zero = len /\ arc_from_chord len f64_zero = len.
Proof. done. Qed.

(** ** Monitor ids *)
Lemma letter_range m k : 65 - 1 <= edid_letter m k <= 95.
Proof.
  unfold edid_letter. assert (0 <= Z.land (Z.shiftr m k) 0x1f < 2 ^ 5); [|lia].
  change 0x1f with (Z.ones 5). rewrite Z.land_ones by lia. apply Z.mod_pos_bound. lia.
Qed.
Lemma hex_upper_digit v k : let c := hex_upper (Z.land (Z.shiftr v k) 15) in 48 <= c <= 57 \/ 65 <= c <= 70.
Proof.
  cbv zeta. assert (0 <= Z.land (Z.shiftr v k) 15 < 2 ^ 4).
  { change 15 with (Z.ones 4). rewrite Z.land_ones by lia. apply Z.mod_pos_bound. lia. }
  unfold hex_upper. destruct (Z.ltb_spec (Z.land (Z.shiftr v k) 15) 10); lia.
Qed.
Lemma until_newline_chars l : Forall (fun c => c <> 10 /\ is_char c = true) (until_newline l).
Proof.
  induction l as [|b l IH]; [constructor|]. cbn [until_newline]. destruct (Z.eqb_spec (u8 b) 0x0a); [constructor|].
  constructor; [|done]. split; [done|]. pose proof (u8_range b). unfold is_char. zcompare. done.
Qed.
Lemma descriptor_chars e tag offs s : descriptor e tag offs = Some s -> Forall (fun c => c <> 10 /\ is_char c = true) s.
Proof.
  induction offs as [|o offs IH]; [done|]. cbn [descriptor]. destruct (_ && _); [|done].
  intros. simplify_eq. apply Forall_trim, until_newline_chars.
Qed.

Lemma edid_id_shape e i : edid_monitor_id e = Some i ->
  exists c r, i = c :: r /\ 65 <= c <= 90 /\ one_line i /\ scalars i.
Proof.
  unfold edid_monitor_id. destruct (zlen e <? 128); [done|]. set (m := Z.lor _ _). cbv zeta.
  destruct (is_ascii_uppercase (edid_letter m 10) && _ && _) eqn:E; [cbn [negb]|done].
  apply andb_true_iff in E as [[Ea Eb]%andb_true_iff Ec]. unfold is_ascii_uppercase, between in Ea, Eb, Ec.
  assert (Hh : forall v k, hex_upper (Z.land (Z.shiftr v k) 15) <> 10 /\ is_char (hex_upper (Z.land (Z.shiftr v k) 15)) = true).
  { intros v k. pose proof (hex_upper_digit v k) as H. cbv zeta in H. split; [lia|]. unfold is_char. lia. }
  set (p := Z.lor (at_ e 10) _). set (base := [_; _; _] ++ hex4 p).
  assert (Hb : Forall (fun c => c <> 10 /\ is_char c = true) base).
  { assert (Hl : forall k, 65 - 1 <= edid_letter m k <= 95 -> edid_letter m k <> 10 /\ is_char (edid_letter m k) = true).
    { intros k Hk. split; [lia|]. unfold is_char. lia. }
    unfold base, hex4. cbn [app fmap list_fmap]. rewrite !Forall_cons. split_and!; try apply Hh; try (apply Hl, letter_range).
    constructor. }
  intros Hi. exists (edid_letter m 10). assert (Hs : Forall (fun c => c <> 10 /\ is_char c = true) i /\ exists r, i = edid_letter m 10 :: r).
  { destruct (descriptor e 255 DESCRIPTORS) as [[|c s]|] eqn:Ed; simplify_eq; (split; [|by eexists]); [done| |done].
    apply Forall_app. split; [done|]. constructor; [done|]. by eapply descriptor_chars. }
  destruct Hs as [Hs [r ->]]. exists r. split_and!; [done|lia|lia| |]; (eapply Forall_impl; [exact Hs|]); by intros c [].
Qed.

(** The id a monitor's EDID gives identifies the monitor across a save: metadata made with
    it reads back, and the same screen is not taken for another. The id must not end in a
    quotation mark, which a serial number may. *)
Theorem edid_id_is_recognised (e : bytes) (i : text) (created fp : Z) (mode : text) :
  edid_monitor_id e = Some i -> last i <> Some 34 -> is_i 64 created -> is_u 64 fp -> unquoted mode -> scalars mode ->
  let m := {| monitor_id := Some i; created_utc := created; Store.mode := mode; display_fingerprint := fp |} in
  meta_from_toml (meta_to_toml m) = Some m /\
  forall e', decide true (meta_from_toml (meta_to_toml m)) (edid_monitor_id e') fp =
             match edid_monitor_id e' with
             | Some j => if text_eqb j i then NoAction else RecommendCalibration OtherScreen
             | None => NoAction
             end.
Proof.
  intros Hi Hq Hc Hf Hm Hms m. destruct (edid_id_shape e i Hi) as (c & r & E & Hcr & Hl & Hs).
  assert (Hr : meta_from_toml (meta_to_toml m) = Some m).
  { apply meta_roundtrip. constructor; [cbn|done|done|done]. split_and!; [by rewrite E| |done].
    split; [done|]. split; [rewrite E; apply Z.eqb_neq; lia|].
    by apply back_ok_last. }
  split; [done|]. intros e'. rewrite Hr. unfold decide. cbn.
  destruct (edid_monitor_id e') as [j|]; [|by rewrite Z.eqb_refl].
  destruct (text_eqb j i); [by rewrite Z.eqb_refl|done].
Qed.

(** The id of the repository's own capture. *)
Definition odyssey_edid : bytes :=
  EDID_HEADER ++ [x4c; x2d; x54; x74] ++ replicate 42 x00 ++ replicate 18 x00 ++
  [x00; x00; x00; xff; x00; x48; x4e; x54; x59; x39; x30; x30; x30; x30; x31; x0a; x20; x20] ++ replicate 38 x00.
Example odyssey_id : edid_monitor_id odyssey_edid = Some (txt "SAM7454-HNTY900001"). Proof. vm_compute. reflexivity. Qed.
Lemma edid_id_is_recognised_witness :
  let m := {| monitor_id := Some (txt "SAM7454-HNTY900001"); created_utc := 0; Store.mode := txt "full"; display_fingerprint := 7 |} in
  meta_from_toml (meta_to_toml m) = Some m /\
  forall e', decide true (meta_from_toml (meta_to_toml m)) (edid_monitor_id e') 7 =
             match edid_monitor_id e' with
             | Some j => if text_eqb j (txt "SAM7454-HNTY900001") then NoAction else RecommendCalibration OtherScreen
             | None => NoAction
             end.
Proof.
  apply (edid_id_is_recognised odyssey_edid (txt "SAM7454-HNTY900001") 0 7 (txt "full")).
  - vm_compute. reflexivity.
  - vm_compute. congruence.
  - split; vm_compute; congruence.
  - split; vm_compute; congruence.
  - split; [by apply one_line_dec|done].
  - by apply scalars_dec.
Defined.
