(* ===== verification/Profiles.v ===== *)
(** * Profiles: what the program knows about setting up one game (crates/tobii-config/src/profiles.rs)

    The data of a profile, the parser of its file and the writer. The round trip
    [parse (to_toml p) = Ok p] is here; writing over a file somebody edited is in
    [ProfileEdit]. Line numbers are those of the file, from one. *)
From S2P Require Import Prelude F64 Floats Text Decimal.

Definition VERSION : Z := 1.
Definition FILE_SUFFIX : text := txt ".toml".

(** ** Data *)
Inductive Format := BindsDir | AttributesXml | Unknown (s : text).
Definition format_as_str (f : Format) : text :=
  match f with BindsDir => txt "binds-dir" | AttributesXml => txt "attributes-xml" | Unknown s => s end.
Definition is_known (f : Format) : bool := match f with Unknown _ => false | _ => true end.
Definition format_from_name (s : text) : Format :=
  if text_eqb s (txt "binds-dir") then BindsDir
  else if text_eqb s (txt "attributes-xml") then AttributesXml
  else Unknown s.

Record Check := { format : Format; path : text; setting : text; wants : text; tell : text }.

Inductive Bridge := Unstated | Required | NotNeeded.

Record Profile := {
  name : option text;
  bridge : Bridge;
  settings : list (text * text);
  checks : list Check;
}.

#[global] Instance Format_eq_dec : EqDecision Format. Proof. solve_decision. Defined.
#[global] Instance Check_eq_dec : EqDecision Check. Proof. solve_decision. Defined.
#[global] Instance Bridge_eq_dec : EqDecision Bridge. Proof. solve_decision. Defined.
#[global] Instance Profile_eq_dec : EqDecision Profile. Proof. solve_decision. Defined.

Definition is_empty (p : Profile) : bool :=
  match settings p, checks p, bridge p with [], [], Unstated => true | _, _, _ => false end.

(** [unknown_formats]: each name once, in the order of the checks. *)
Definition unknown_formats (p : Profile) : list text :=
  foldl (fun out c => match format c with
                      | Unknown s => if bool_decide (s ∈ out) then out else out ++ [s]
                      | _ => out
                      end) [] (checks p).

(** [PathBuf::push] of a relative component. *)
Definition push_component (p part : text) : text :=
  match last p with None | Some 47 => p ++ part | _ => p ++ 47 :: part end.
Definition path_under (c : Check) (prefix : text) : text :=
  foldl push_component prefix (List.filter (fun s => negb (text_eqb s [])) (split_char 47 (path c))).

Record ParseError := {
  err_line : option Z;
  message : text;
  unknown_version : option Z;
}.
Definition error_at (line : Z) (m : text) : ParseError :=
  {| err_line := Some line; message := m; unknown_version := None |}.
Definition error_whole (m : text) : ParseError :=
  {| err_line := None; message := m; unknown_version := None |}.
Abbreviation Res := (result ParseError).
Definition tick (s : text) : text := txt "`" ++ s ++ txt "`".

(** ** Values *)
(** [quote]: how a string is written. *)
Definition quote_char_of (c : char) : text :=
  if c =? 34 then [92; 34]
  else if c =? 92 then [92; 92]
  else if c =? 10 then [92; 110]
  else if c =? 9 then [92; 116]
  else if c =? 13 then [92; 114]
  else if is_control c then
    [92; 117; hex_upper (c / 4096 mod 16); hex_upper (c / 256 mod 16); hex_upper (c / 16 mod 16); hex_upper (c mod 16)]
  else [c].
Definition quote (s : text) : text := 34 :: (s ≫= quote_char_of) ++ [34].

Definition push_char (ch : char) (r : Res (text * text)) : Res (text * text) :=
  '(out, rest) ← r; mret (ch :: out, rest).

(** [unquote]: the string whose opening quote has been read, and what follows its closing quote. *)
Fixpoint unquote (line : Z) (body : text) : Res (text * text) :=
  let unterminated := Err (error_at line (txt "a closing `" ++ [34] ++ txt "`")) in
  match body with
  | [] => unterminated
  | c :: r =>
      if c =? 34 then Ok ([], r)
      else if c =? 92 then
        match r with
        | [] => unterminated
        | e :: r =>
            if e =? 34 then push_char 34 (unquote line r)
            else if e =? 92 then push_char 92 (unquote line r)
            else if e =? 110 then push_char 10 (unquote line r)
            else if e =? 116 then push_char 9 (unquote line r)
            else if e =? 114 then push_char 13 (unquote line r)
            else if e =? 117 then
              let bad := Err (error_at line (txt "`\u` takes four hex digits naming a character")) in
              match r with
              | a :: b :: c :: d :: r =>
                  let hex := [a; b; c; d] in
                  match (if forallb is_ascii_hexdigit hex then v ← digits_value 16 hex; char_from_u32 v else None) with
                  | Some ch => push_char ch (unquote line r)
                  | None => bad
                  end
              | _ => bad
              end
            else Err (error_at line (txt "`\" ++ [e] ++ txt "` is not an escape this reader knows: `\" ++ [34]
                                     ++ txt "`, `\\`, `\n`, `\t`, `\r` and `\uXXXX`"))
        end
      else if is_control c && negb (c =? 9)
      then Err (error_at line (txt "a control character in a string; write it as `\uXXXX`"))
      else push_char c (unquote line r)
  end.

Inductive Kind := Quoted | Bare.

(** [is_scalar]: what may be written without quotes. *)
Definition is_scalar (tok : text) : bool :=
  text_eqb tok (txt "true") || text_eqb tok (txt "false")
  || match parse_int 64 tok with Some _ => true | None => false end
  || match parse_f64 tok with Some v => is_finite v | None => false end.

Definition comment_or_end (after : text) : bool :=
  match after with [] => true | c :: _ => c =? 35 end.
Definition ends_token (c : char) : bool := is_whitespace c || (c =? 35).

Definition value (rest : text) (line : Z) : Res (text * Kind) :=
  let s := trim_start rest in
  let trailing := Err (error_at line (txt "nothing but a comment after a value")) in
  match s with
  | 34 :: body =>
      '(v, after) ← unquote line body;
      if comment_or_end (trim_start after) then Ok (v, Quoted) else trailing
  | _ =>
      let tok := default [] (head (split ends_token s)) in
      match tok with
      | [] => Err (error_at line (txt "a value after the `=`"))
      | _ =>
          if negb (is_scalar tok)
          then Err (error_at line (tick tok ++ txt " has to be quoted: only `true`, `false` and numbers go bare"))
          else if comment_or_end (trim_start (drop (length tok) s)) then Ok (tok, Bare) else trailing
      end
  end.

(** [check_path]: the shape of a path under the prefix. *)
Definition check_path (p : text) (line : Z) : Res unit :=
  match p with
  | [] => Err (error_at line (txt "`path` names a place under the prefix"))
  | c :: _ =>
      if c =? 47 then Err (error_at line (txt
        "`path` is relative to the Proton prefix, so it does not start with `/` — that is what keeps a profile portable between machines. To reach outside the prefix, name a drive under `dosdevices/`: `dosdevices/s:/steamapps/common/...` for the game's own install, `dosdevices/z:/` for an absolute path."))
      else if bool_decide (92 ∈ p) then Err (error_at line (txt
        "`path` uses `/`, not `\`: a backslash is an ordinary character in a Linux path, so a Windows-style path would not fail, it would name nothing"))
      else if existsb (text_eqb (txt "..")) (split_char 47 p) then Err (error_at line (txt
        "`path` may not have a `..` component: it is joined onto a prefix and then opened, and a path that climbs out of it is no longer portable between machines. To reach outside the prefix, name a drive under `dosdevices/`: `dosdevices/s:/steamapps/common/...` for the game's own install, `dosdevices/z:/` for an absolute path."))
      else Ok tt
  end.

(** ** The parser *)
Inductive Table := Top | Settings | CheckTable.
#[global] Instance Table_eq_dec : EqDecision Table. Proof. solve_decision. Defined.

Definition Slot : Type := option (text * Z).
Record Draft := {
  draft_at : Z;
  d_format : Slot; d_path : Slot; d_setting : Slot; d_wants : Slot; d_tell : Slot;
}.
Definition new_draft (at_ : Z) : Draft :=
  {| draft_at := at_; d_format := None; d_path := None; d_setting := None; d_wants := None; d_tell := None |}.

Definition need (at_ : Z) (s : Slot) (key : text) : Res text :=
  match s with
  | Some (v, _) => Ok v
  | None => Err (error_at at_ (txt "this `[[check]]` has no " ++ tick key ++ txt " key"))
  end.
Definition finish (d : Draft) : Res Check :=
  let at_ := draft_at d in
  f ← need at_ (d_format d) (txt "format");
  p ← need at_ (d_path d) (txt "path");
  s ← need at_ (d_setting d) (txt "setting");
  w ← need at_ (d_wants d) (txt "wants");
  t ← need at_ (d_tell d) (txt "tell");
  mret {| format := format_from_name f; path := p; setting := s; wants := w; tell := t |}.
(** [collect::<Result<_, _>>()] *)
Fixpoint finish_all (ds : list Draft) : Res (list Check) :=
  match ds with
  | [] => mret []
  | d :: ds => c ← finish d; cs ← finish_all ds; mret (c :: cs)
  end.

(** The slot a key of [[[check]]] names: how to read it and how to fill it. *)
Definition slot_of (key : text) : option ((Draft -> Slot) * (Slot -> Draft -> Draft)) :=
  if text_eqb key (txt "format") then Some (d_format, fun s d => {d with d_format := s})
  else if text_eqb key (txt "path") then Some (d_path, fun s d => {d with d_path := s})
  else if text_eqb key (txt "setting") then Some (d_setting, fun s d => {d with d_setting := s})
  else if text_eqb key (txt "wants") then Some (d_wants, fun s d => {d with d_wants := s})
  else if text_eqb key (txt "tell") then Some (d_tell, fun s d => {d with d_tell := s})
  else None.

(** [table_header]: the table a line opens, if it is a header. *)
Definition table_header (t : text) (line : Z) : Res (option Table) :=
  if negb (starts_with [91] t) then Ok None
  else
    let close := if starts_with [91; 91] t then [93; 93] else [93] in
    match split_once_str close t with
    | None => Err (error_at line (txt "a closing `]`"))
    | Some (before, after) =>
        let h := before ++ close in
        if negb (comment_or_end (trim_start after))
        then Err (error_at line (txt "nothing but a comment after a table"))
        else if text_eqb h (txt "[settings]") then Ok (Some Settings)
        else if text_eqb h (txt "[[check]]") then Ok (Some CheckTable)
        else Err (error_at line (tick h ++ txt " is not a table of a profile, which has `[settings]` and `[[check]]`"))
    end.

Definition key_char (c : char) : bool := is_ascii_alphanumeric c || (c =? 95) || (c =? 45).
Definition split_key (t : text) (line : Z) : Res (text * text) :=
  match split_once (Z.eqb 61) t with
  | None => Err (error_at line (txt "`key = value`"))
  | Some (key, rest) =>
      let key := trim key in
      match key with
      | [] => Err (error_at line (txt "a key before the `=`"))
      | _ =>
          if negb (forallb key_char key)
          then Err (error_at line (tick key ++ txt " is not a key: a key here is letters, digits, `_` and `-`"))
          else Ok (key, rest)
      end
  end.

(** What [parse] has read so far. *)
Record Parsing := {
  version : option Z;
  p_name : option (text * Z);
  p_bridge : option (Bridge * Z);
  p_settings : list (text * text * Z);
  settings_at : option Z;
  drafts : list Draft;
  table : Table;
}.
Definition parsing0 : Parsing :=
  {| version := None; p_name := None; p_bridge := None; p_settings := []; settings_at := None;
     drafts := []; table := Top |}.

Definition already_set (line : Z) (key : text) (first : Z) : ParseError :=
  error_at line (tick key ++ txt " is already set on line " ++ show_uint first).

Definition parse_version (line : Z) (t : text) (st : Parsing) : Res Parsing :=
  match strip_prefix (txt "version") t with
  | None => Err (error_at line (txt "a profile starts with `version = 1`, before anything else"))
  | Some rest =>
      match strip_prefix [61] (trim_start rest) with
      | None => Err (error_at line (txt "`version = 1`"))
      | Some rest =>
          let whole := Err (error_at line (txt "`version` is a whole number, as in `version = 1`")) in
          match value rest line with
          | Ok (v, Bare) =>
              match parse_uint 32 10 v with
              | None => whole
              | Some v =>
                  if negb (v =? VERSION)
                  then Err {| err_line := Some line;
                              message := txt "this profile is version " ++ show_uint v
                                ++ txt "; this tobii-linux reads version " ++ show_uint VERSION
                                ++ txt ". Update tobii-linux, or write the profile for version "
                                ++ show_uint VERSION ++ txt ".";
                              unknown_version := Some v |}
                  else Ok {st with version := Some v}
              end
          | _ => whole
          end
      end
  end.

Definition open_table (line : Z) (h : Table) (st : Parsing) : Res Parsing :=
  match h with
  | Settings =>
      match settings_at st with
      | Some first => Err (error_at line (txt "`[settings]` is already open from line " ++ show_uint first))
      | None => Ok {st with settings_at := Some line; table := h}
      end
  | CheckTable => Ok {st with drafts := drafts st ++ [new_draft line]; table := h}
  | Top => Ok {st with table := h}
  end.

Definition parse_top (line : Z) (key rest : text) (st : Parsing) : Res Parsing :=
  if text_eqb key (txt "version") then Err (error_at line (txt "`version` is already set"))
  else if text_eqb key (txt "name") then
    '(v, _) ← value rest line;
    match p_name st with
    | Some (_, first) => Err (already_set line key first)
    | None => Ok {st with p_name := Some (v, line)}
    end
  else if text_eqb key (txt "bridge") then
    match p_bridge st with
    | Some (_, first) => Err (already_set line key first)
    | None =>
        match value rest line with
        | Ok (v, Bare) =>
            if text_eqb v (txt "true") then Ok {st with p_bridge := Some (Required, line)}
            else if text_eqb v (txt "false") then Ok {st with p_bridge := Some (NotNeeded, line)}
            else Err (error_at line (txt "`bridge` is `true` or `false`"))
        | _ => Err (error_at line (txt "`bridge` is `true` or `false`"))
        end
    end
  else Err (error_at line (tick key ++ txt
    " is not a key this build knows. Before any table a profile holds `version`, `name` and `bridge`; this program's own settings go under `[settings]` and a check under `[[check]]`.")).

Definition parse_setting (line : Z) (key rest : text) (st : Parsing) : Res Parsing :=
  match List.find (fun e => text_eqb e.1.1 key) (p_settings st) with
  | Some (_, _, first) => Err (already_set line key first)
  | None => '(v, _) ← value rest line; Ok {st with p_settings := p_settings st ++ [(key, v, line)] }
  end.

(** [checks.last_mut()], of a list that a [[[check]]] header has made non-empty. *)
Definition last_draft (st : Parsing) : Draft := default (new_draft 0) (last (drafts st)).

Definition parse_check (line : Z) (key rest : text) (st : Parsing) : Res Parsing :=
  '(v, _) ← value rest line;
  match slot_of key with
  | None => Err (error_at line (tick key ++ txt
      " is not a key of `[[check]]`, which holds `format`, `path`, `setting`, `wants` and `tell`. A check is read and reported; there is no key that changes the game's file."))
  | Some (get, put) =>
      match get (last_draft st) with
      | Some (_, first) => Err (already_set line key first)
      | None =>
          _ ← (if text_eqb key (txt "path") then check_path v line else Ok tt);
          if text_eqb key (txt "format") && text_eqb v [] then Err (error_at line (txt "`format` names a file format"))
          else let d := put (Some (v, line)) (last_draft st) in
               Ok {st with drafts := (removelast (drafts st) ++ [d])%list}
      end
  end.

Definition parse_line (line : Z) (raw : text) (st : Parsing) : Res Parsing :=
  let t := trim raw in
  match t with
  | [] | 35 :: _ => Ok st
  | _ =>
      match version st with
      | None => parse_version line t st
      | Some _ =>
          h ← table_header t line;
          match h with
          | Some h => open_table line h st
          | None =>
              '(key, rest) ← split_key t line;
              match table st with
              | Top => parse_top line key rest st
              | Settings => parse_setting line key rest st
              | CheckTable => parse_check line key rest st
              end
          end
      end
  end.

Fixpoint parse_lines (line : Z) (ls : list text) (st : Parsing) : Res Parsing :=
  match ls with
  | [] => Ok st
  | l :: ls => st ← parse_line line l st; parse_lines (line + 1) ls st
  end.

Definition finish_profile (st : Parsing) : Res Profile :=
  match version st with
  | None => Err (error_whole (txt "this file has no `version` key, so it is not a profile. A profile starts with `version = 1`."))
  | Some _ =>
      cs ← finish_all (drafts st);
      Ok {| name := fst <$> p_name st;
            bridge := match p_bridge st with Some (b, _) => b | None => Unstated end;
            settings := fst <$> p_settings st;
            checks := cs |}
  end.

Definition BOM : Z := 0xfeff.
Definition strip_bom (s : text) : text := default s (strip_prefix [BOM] s).

(** [parse] *)
Definition parse (s : text) : Res Profile :=
  st ← parse_lines 1 (lines (strip_bom s)) parsing0; finish_profile st.

(** ** The writer *)
Definition HEADER : text := txt "# tobii-linux game profile".

(** [CheckId]: what a check is recognised by. *)
Record CheckId := { id_format : text; id_path : text; id_setting : text }.
#[global] Instance CheckId_eq_dec : EqDecision CheckId. Proof. solve_decision. Defined.
Definition id_default : CheckId := {| id_format := []; id_path := []; id_setting := [] |}.
Definition check_id (c : Check) : CheckId :=
  {| id_format := format_as_str (format c); id_path := path c; id_setting := setting c |}.

(** [Anchor]: what a comment is beside. *)
Inductive Anchor :=
| ATop (key : text)
| ASettings
| ASetting (key : text)
| ACheck (id : CheckId)
| ACheckKey (id : CheckId) (key : text).
#[global] Instance Anchor_eq_dec : EqDecision Anchor. Proof. solve_decision. Defined.

Definition assign (key v : text) : text := key ++ txt " = " ++ v.

Definition check_lines (c : Check) : list (Anchor * text) :=
  let id := check_id c in
  (ACheck id, txt "[[check]]")
  :: ((fun kv : text * text => (ACheckKey id kv.1, assign kv.1 (quote kv.2))) <$>
      [(txt "format", format_as_str (format c)); (txt "path", path c); (txt "setting", setting c);
       (txt "wants", wants c); (txt "tell", tell c)]).

(** [Profile::lines] *)
Definition profile_lines (p : Profile) : list (Anchor * text) :=
  (ATop (txt "version"), assign (txt "version") (show_uint VERSION))
  :: match name p with Some n => [(ATop (txt "name"), assign (txt "name") (quote n))] | None => [] end
  ++ match bridge p with
     | Unstated => []
     | Required => [(ATop (txt "bridge"), txt "bridge = true")]
     | NotNeeded => [(ATop (txt "bridge"), txt "bridge = false")]
     end
  ++ match settings p with
     | [] => []
     | ss => (ASettings, txt "[settings]")
             :: ((fun kv : text * text => (ASetting kv.1, assign kv.1 (quote kv.2))) <$> ss)
     end
  ++ (checks p ≫= check_lines).

(** The comments kept beside one line of the file that was there before. *)
Record Attached := {
  anchor : Anchor;
  at_line : Z;
  leading : list (Z * text);
  trailing : option text;
  following : list (Z * text);
}.
Definition Comments : Type := list Attached.

Record Orphan := { o_line : Z; o_comment : text; o_about : text }.

Definition describe_id (id : CheckId) : text :=
  txt "the check that reads " ++ tick (id_setting id) ++ txt " out of " ++ tick (id_path id).
Definition describe (a : Anchor) : text :=
  match a with
  | ATop k => tick k
  | ASettings => txt "`[settings]`"
  | ASetting k => txt "the setting " ++ tick k
  | ACheck id => describe_id id
  | ACheckKey id k => tick k ++ txt " of " ++ describe_id id
  end.

Definition opens_table (a : Anchor) : bool := match a with ASettings | ACheck _ => true | _ => false end.

(** The first attachment to this anchor that no line has taken. *)
Fixpoint find_unused (used : list bool) (kept : Comments) (a : Anchor) : option nat :=
  match used, kept with
  | u :: used, k :: kept =>
      if negb u && bool_decide (anchor k = a) then Some O else S <$> find_unused used kept a
  | _, _ => None
  end.
Definition mark_used (hit : option nat) (used : list bool) : list bool :=
  match hit with Some i => <[i:=true]> used | None => used end.

Definition leading_lines (c : Attached) : list text :=
  List.filter (fun t => negb (text_eqb t HEADER)) (snd <$> leading c).
Definition tail_of (c : option text) : text := match c with Some t => 32 :: t | None => [] end.

(** What [render] pushes for one line, as lines of its own. *)
Definition beside (kept : Comments) (hit : option nat) (a : Anchor) (line : text) : list text :=
  (if opens_table a then [[]] else [])
  ++ match hit ≫= (fun i => kept !! i) with
     | Some c => leading_lines c ++ [line ++ tail_of (trailing c)] ++ (snd <$> following c)
     | None => [line]
     end.

Fixpoint render_from (kept : Comments) (used : list bool) (ls : list (Anchor * text)) : list bool * list text :=
  match ls with
  | [] => (used, [])
  | (a, line) :: ls =>
      let hit := find_unused used kept a in
      let '(used, rest) := render_from kept (mark_used hit used) ls in
      (used, beside kept hit a line ++ rest)
  end.

Definition orphans_of (a : Attached) : list Orphan :=
  let lost (e : Z * text) := {| o_line := e.1; o_comment := e.2; o_about := describe (anchor a) |} in
  (lost <$> leading a) ++ match trailing a with Some c => [lost (at_line a, c)] | None => [] end
  ++ (lost <$> following a).
Fixpoint unused (used : list bool) (kept : Comments) : Comments :=
  match used, kept with
  | u :: used, k :: kept => (if u then [] else [k]) ++ unused used kept
  | _, _ => []
  end.

(** [render]: the file, and the comments that found nothing to stand beside. *)
Definition render_lines (p : Profile) (kept : Comments) : list bool * list text :=
  render_from kept ((fun _ => false) <$> kept) (profile_lines p).
Definition render (p : Profile) (kept : Comments) : text * list Orphan :=
  let '(used, ls) := render_lines p kept in
  ((HEADER :: ls) ≫= newline, unused used kept ≫= orphans_of).

(** [to_toml] *)
Definition to_toml (p : Profile) : text := (render p []).1.

(** ** Values read back *)
Lemma to_digit_hex_upper d : 0 <= d < 16 -> to_digit 16 (hex_upper d) = Some d /\ is_ascii_hexdigit (hex_upper d) = true.
Proof.
  intros H. assert (Hd : Forall (fun d => to_digit 16 (hex_upper d) = Some d /\ is_ascii_hexdigit (hex_upper d) = true)
                         (seqZ 0 16)) by (repeat constructor).
  rewrite Forall_forall in Hd. apply Hd, elem_of_seqZ. lia.
Qed.

Lemma hex4_value c : 0 <= c < 0x10000 ->
  let hex := [hex_upper (c / 4096 mod 16); hex_upper (c / 256 mod 16); hex_upper (c / 16 mod 16); hex_upper (c mod 16)] in
  forallb is_ascii_hexdigit hex = true /\ digits_value 16 hex = Some c.
Proof.
  intros H hex. unfold hex.
  destruct (to_digit_hex_upper (c / 4096 mod 16)) as [D1 H1]; [zlia|].
  destruct (to_digit_hex_upper (c / 256 mod 16)) as [D2 H2]; [zlia|].
  destruct (to_digit_hex_upper (c / 16 mod 16)) as [D3 H3]; [zlia|].
  destruct (to_digit_hex_upper (c mod 16)) as [D4 H4]; [zlia|].
  split; [cbn [forallb]; by rewrite H1, H2, H3, H4|].
  unfold digits_value. cbn [foldl]. rewrite D1, D2, D3, D4. cbn [mbind option_bind]. f_equal. zlia.
Qed.

Lemma is_control_range c : is_control c = true -> 0 <= c < 0xd800.
Proof. unfold is_control, between. lia. Qed.

Lemma unquote_char line c r : unquote line (quote_char_of c ++ r) = push_char c (unquote line r).
Proof.
  unfold quote_char_of.
  destruct (Z.eqb_spec c 34) as [->|]; [done|]. destruct (Z.eqb_spec c 92) as [->|]; [done|].
  destruct (Z.eqb_spec c 10) as [->|]; [done|]. destruct (Z.eqb_spec c 9) as [->|]; [done|].
  destruct (Z.eqb_spec c 13) as [->|]; [done|].
  destruct (is_control c) eqn:Hc.
  - pose proof (is_control_range c Hc). destruct (hex4_value c ltac:(lia)) as [Hx Hv].
    cbn [app unquote]. rewrite Hx, Hv. cbn [mbind option_bind].
    unfold char_from_u32. replace (is_char c) with true; [done|]. unfold is_char. symmetry. lia.
  - cbn [app unquote]. rewrite Hc. by zcompare.
Qed.

Lemma unquote_quote line s r : unquote line ((s ≫= quote_char_of) ++ 34 :: r) = Ok (s, r).
Proof.
  induction s as [|c s IH]; [done|]. cbn [mbind list_bind]. rewrite <- app_assoc, unquote_char.
  fold (mbind quote_char_of s). by rewrite IH.
Qed.

(** ** Lines read back *)
Definition comment_ok (c : text) : Prop :=
  one_line c /\ (exists r, c = 35 :: r) /\ back_ok is_whitespace c.
Definition tail_ok (t : option text) : Prop := match t with Some c => comment_ok c | None => True end.

(** A line with something on it that is not a comment. *)
Definition content_ok (l : text) : Prop :=
  one_line l /\ (exists c r, l = c :: r /\ is_whitespace c = false /\ c <> 35) /\ back_ok is_whitespace l.

Lemma trim_content l tr : content_ok l -> tail_ok tr -> trim (l ++ tail_of tr) = l ++ tail_of tr.
Proof.
  intros (_ & (c & r & -> & Hc & _) & Hb) Ht. apply trim_id; [done|].
  destruct tr as [t|]; simpl tail_of; [|by rewrite app_nil_r].
  apply back_ok_app; [done|]. destruct Ht as (_ & (r' & ->) & Hb'). by apply (back_ok_app _ [32]).
Qed.

Lemma comment_tail tr : tail_ok tr -> comment_or_end (trim_start (tail_of tr)) = true.
Proof. destruct tr as [t|]; [|done]. by intros (_ & (r & ->) & _). Qed.

Lemma value_quoted line body : value (32 :: 34 :: body) line =
  ('(v, after) ← unquote line body;
   if comment_or_end (trim_start after) then Ok (v, Quoted)
   else Err (error_at line (txt "nothing but a comment after a value"))).
Proof. done. Qed.
Lemma value_quote line s tr : tail_ok tr -> value (32 :: quote s ++ tail_of tr) line = Ok (s, Quoted).
Proof.
  intros Ht. unfold quote. cbn [app]. rewrite value_quoted, <- app_assoc. cbn [app].
  rewrite unquote_quote. cbn [mbind result_bind]. by rewrite comment_tail.
Qed.

Definition key_ok (k : text) : Prop := k <> [] /\ forallb key_char k = true.

Lemma key_char_range c : key_char c = true -> 33 <= c < 127 /\ c <> 34 /\ c <> 35 /\ c <> 61 /\ c <> 91.
Proof.
  unfold key_char, is_ascii_alphanumeric, is_ascii_alphabetic, is_ascii_uppercase, is_ascii_lowercase, is_ascii_digit, between.
  lia.
Qed.
Lemma key_char_space c : key_char c = true -> is_whitespace c = false.
Proof. intros H%key_char_range. unfold is_whitespace, between. lia. Qed.
Lemma key_chars k : forallb key_char k = true -> Forall (fun c => key_char c = true) k.
Proof. intros. eapply List.forallb_to_Forall; [|done]. done. Qed.

Lemma key_front k : key_ok k -> front_ok is_whitespace k.
Proof. intros [Hk Hc]. destruct k as [|c k]; [done|]. apply key_chars in Hc. inversion Hc. by apply key_char_space. Qed.
Lemma key_back k : key_ok k -> back_ok is_whitespace k.
Proof.
  intros [Hk Hc]. apply key_chars, Forall_rev in Hc. unfold back_ok.
  destruct (rev k) eqn:E; [done|]. inversion Hc. by apply key_char_space.
Qed.

Lemma trim_key k : key_ok k -> trim (k ++ [32]) = k.
Proof.
  intros Hk. unfold trim, trim_by. rewrite trim_start_id.
  - rewrite trim_end_all by (by constructor). by apply trim_end_id, key_back.
  - apply front_ok_app; [apply Hk|by apply key_front].
Qed.

Lemma assign_eq k v : assign k v = (k ++ [32]) ++ 61 :: 32 :: v.
Proof. unfold assign. by rewrite <- app_assoc. Qed.

Lemma split_key_assign k v line : key_ok k -> split_key (assign k v) line = Ok (k, 32 :: v).
Proof.
  intros Hk. unfold split_key. rewrite assign_eq, split_once_app.
  - rewrite trim_key by done. destruct Hk as [Hn Hc]. rewrite Hc. by destruct k.
  - apply Forall_app. split; [|by constructor]. eapply Forall_impl; [apply key_chars, Hk|].
    intros c Hc%key_char_range. apply Z.eqb_neq. lia.
  - done.
Qed.
Lemma header_none t line : starts_with [91] t = false -> table_header t line = Ok None.
Proof. unfold table_header. by intros ->. Qed.
Lemma key_not_header k v : key_ok k -> starts_with [91] (assign k v) = false.
Proof.
  intros [Hk Hc]. destruct k as [|c k]; [done|]. apply key_chars in Hc. inversion Hc as [|? ? Hx].
  apply key_char_range in Hx. unfold starts_with, assign. cbn [app strip_prefix].
  by rewrite (proj2 (Z.eqb_neq 91 c)) by lia.
Qed.

(** ** One line at a time: the state of the parser without its line numbers *)
Record View := {
  v_version : option Z;
  v_name : option text;
  v_bridge : option Bridge;
  v_settings : list (text * text);
  v_open : bool;
  v_drafts : list (list (option text));
  v_table : Table;
}.
Definition slots (d : Draft) : list (option text) :=
  [fst <$> d_format d; fst <$> d_path d; fst <$> d_setting d; fst <$> d_wants d; fst <$> d_tell d].
Definition view (st : Parsing) : View :=
  {| v_version := version st; v_name := fst <$> p_name st; v_bridge := fst <$> p_bridge st;
     v_settings := fst <$> p_settings st; v_open := bool_decide (is_Some (settings_at st));
     v_drafts := slots <$> drafts st; v_table := table st |}.

(** From any state with the first view, these lines lead to one with the second. *)
Definition steps (ls : list text) (v w : View) : Prop :=
  forall n st, view st = v -> exists st', parse_lines n ls st = Ok st' /\ view st' = w.

Lemma steps_nil v : steps [] v v.
Proof. intros n st H. by exists st. Qed.
Lemma parse_lines_app n ls ks st :
  parse_lines n (ls ++ ks) st = (st ← parse_lines n ls st; parse_lines (n + zlen ls) ks st).
Proof.
  revert n st. induction ls as [|l ls IH]; intros n st; simpl; [by rewrite Z.add_0_r|].
  destruct (parse_line n l st) as [st'|]; [|done]. cbn [mbind result_bind]. rewrite IH.
  destruct (parse_lines (n + 1) ls st') as [st2|]; [|done]. cbn [mbind result_bind]. f_equal. len.
Qed.
Lemma steps_app ls ks u v w : steps ls u v -> steps ks v w -> steps (ls ++ ks) u w.
Proof.
  intros H1 H2 n st Hv. destruct (H1 n st Hv) as (st' & E & Hv'). rewrite parse_lines_app, E.
  apply (H2 _ _ Hv').
Qed.
Definition skipped (l : text) : Prop := match trim l with [] => True | c :: _ => c = 35 end.
Lemma steps_skip l v : skipped l -> steps [l] v v.
Proof.
  intros Hl n st Hv. exists st. split; [|done]. unfold skipped in Hl. cbn [parse_lines]. unfold parse_line.
  destruct (trim l) as [|c r]; [done|]. by subst.
Qed.
Lemma steps_skips ls v : Forall skipped ls -> steps ls v v.
Proof.
  induction 1 as [|l ls Hl _ IH]; [apply steps_nil|]. apply (steps_app [l] ls v v v); [|done]. by apply steps_skip.
Qed.
Lemma comment_skipped c : comment_ok c -> skipped c.
Proof.
  intros (_ & (r & ->) & Hb). unfold skipped, trim. by rewrite trim_id.
Qed.

(** A line that leads from one view to another, whatever comment follows it. *)
Definition reads (l : text) (v w : View) : Prop :=
  content_ok l /\ forall tr, tail_ok tr -> steps [l ++ tail_of tr] v w.

Lemma hex_upper_line d : 0 <= d -> hex_upper d <> 10.
Proof. unfold hex_upper. destruct (Z.ltb_spec d 10); lia. Qed.
Lemma quote_char_line c : one_line (quote_char_of c).
Proof.
  unfold quote_char_of, one_line.
  repeat match goal with |- context [?a =? ?b] => destruct (Z.eqb_spec a b); [by repeat constructor|] end.
  destruct (is_control c); [|by repeat constructor].
  repeat constructor; try done; apply hex_upper_line; zlia.
Qed.
Lemma quote_line s : one_line (quote s).
Proof.
  unfold quote. constructor; [done|]. apply Forall_app. split; [|by repeat constructor].
  induction s as [|c s IH]; [constructor|]. apply Forall_app. split; [apply quote_char_line|done].
Qed.
Lemma key_line k : key_ok k -> one_line k.
Proof.
  intros [_ Hk]. eapply Forall_impl; [by apply key_chars|]. intros c Hc%key_char_range. lia.
Qed.
Lemma assign_content k v : key_ok k -> one_line v -> back_ok is_whitespace v -> v <> [] -> content_ok (assign k v).
Proof.
  intros Hk Hv Hb Hn. split_and!.
  - unfold assign, one_line. rewrite !Forall_app. split_and!; [by apply key_line|by repeat constructor|done].
  - destruct k as [|c k]; [by destruct Hk|]. exists c, (k ++ txt " = " ++ v).
    destruct Hk as [_ Hk]. apply key_chars in Hk. inversion Hk as [|? ? Hc]. subst.
    split_and!; [done|by apply key_char_space|]. apply key_char_range in Hc. lia.
  - unfold assign. by apply back_ok_app, back_ok_app.
Qed.
Lemma quote_back s : back_ok is_whitespace (quote s).
Proof. unfold quote. apply (back_ok_snoc _ (34 :: (s ≫= quote_char_of)) 34). done. Qed.
Lemma assign_quote_content k v : key_ok k -> content_ok (assign k (quote v)).
Proof. intros. apply assign_content; [done|apply quote_line|apply quote_back|done]. Qed.

Lemma parse_line_content n l tr st v : content_ok l -> tail_ok tr -> version st = Some v ->
  parse_line n (l ++ tail_of tr) st =
  (h ← table_header (l ++ tail_of tr) n;
   match h with
   | Some h => open_table n h st
   | None =>
       '(key, rest) ← split_key (l ++ tail_of tr) n;
       match table st with
       | Top => parse_top n key rest st
       | Settings => parse_setting n key rest st
       | CheckTable => parse_check n key rest st
       end
   end).
Proof.
  intros Hl Ht Hv. unfold parse_line. rewrite trim_content by done. rewrite Hv.
  destruct Hl as (_ & (c & r & -> & _ & Hc) & _). cbn [app].
  destruct c as [|p|p]; try done. do 6 (destruct p; try done).
Qed.
Lemma parse_line_assign n k v tr st w : key_ok k -> content_ok (assign k v) -> tail_ok tr -> version st = Some w ->
  parse_line n (assign k v ++ tail_of tr) st =
  match table st with
  | Top => parse_top n k (32 :: v ++ tail_of tr) st
  | Settings => parse_setting n k (32 :: v ++ tail_of tr) st
  | CheckTable => parse_check n k (32 :: v ++ tail_of tr) st
  end.
Proof.
  intros Hk Hc Ht Hv. rewrite (parse_line_content _ _ _ _ w) by done.
  assert (E : assign k v ++ tail_of tr = assign k (v ++ tail_of tr)) by (unfold assign; by rewrite <- !app_assoc).
  rewrite E, header_none by (by apply key_not_header). cbn [mbind result_bind].
  by rewrite split_key_assign.
Qed.

(** [steps] of one line, from [parse_line]. *)
Lemma steps_one l v w :
  (forall n st, view st = v -> exists st', parse_line n l st = Ok st' /\ view st' = w) -> steps [l] v w.
Proof.
  intros H n st Hv. destruct (H n st Hv) as (st' & E & Hw). exists st'. split; [|done].
  cbn [parse_lines]. by rewrite E.
Qed.

(** Destruct a state known by its view, and compute. *)
Ltac same_view :=
  repeat match goal with H : view ?st = ?v |- _ => subst v; destruct st end;
  unfold view in *; cbn in *; rewrite ?fmap_app; simplify_eq; cbn; try done.

Lemma view_version st v w : view st = v -> v_version v = Some w -> version st = Some w.
Proof. by intros <-. Qed.
Lemma view_table st v : view st = v -> table st = v_table v.
Proof. by intros <-. Qed.

(** A quoted value of a key: what the table in force makes of it. *)
Lemma reads_assign k s v w : key_ok k -> v_version v = Some VERSION ->
  (forall n rest st, view st = v -> value rest n = Ok (s, Quoted) ->
     exists st', match v_table v with
                 | Top => parse_top n k rest st
                 | Settings => parse_setting n k rest st
                 | CheckTable => parse_check n k rest st
                 end = Ok st' /\ view st' = w) ->
  reads (assign k (quote s)) v w.
Proof.
  intros Hk Hv H. split; [by apply assign_quote_content|]. intros tr Ht. apply steps_one. intros n st Hst.
  rewrite (parse_line_assign _ _ _ _ _ VERSION);
    [|done|by apply assign_quote_content|done|by eapply view_version].
  rewrite (view_table st v Hst). apply H; [done|]. by apply value_quote.
Qed.

Lemma reads_name n v : v_version v = Some VERSION -> v_table v = Top -> v_name v = None ->
  reads (assign (txt "name") (quote n)) v {v with v_name := Some n}.
Proof.
  intros Hv Ht Hn. apply reads_assign; [done|done|]. intros l rest st Hst Hval. rewrite Ht.
  exists {st with p_name := Some (n, l)}. unfold parse_top.
  change (text_eqb (txt "name") (txt "version")) with false.
  change (text_eqb (txt "name") (txt "name")) with true. cbv iota. rewrite Hval.
  cbn [mbind result_bind]. split; [|by same_view].
  subst v. cbn in Hn. by destruct (p_name st).
Qed.

Lemma find_setting_none k l : k ∉ l.*1.*1 -> List.find (fun e : text * text * Z => text_eqb e.1.1 k) l = None.
Proof.
  induction l as [|e l IH]; [done|]. intros H. rewrite !fmap_cons in H. apply not_elem_of_cons in H as [H1 H2].
  cbn [List.find]. unfold text_eqb. rewrite bool_decide_eq_false_2 by congruence. by apply IH.
Qed.
Lemma reads_setting k x v : v_version v = Some VERSION -> v_table v = Settings -> key_ok k ->
  k ∉ (v_settings v).*1 ->
  reads (assign k (quote x)) v {v with v_settings := v_settings v ++ [(k, x)] }.
Proof.
  intros Hv Ht Hk Hn. apply reads_assign; [done|done|]. intros l rest st Hst Hval. rewrite Ht.
  exists {st with p_settings := p_settings st ++ [(k, x, l)] }. unfold parse_setting.
  rewrite find_setting_none by (subst v; exact Hn). rewrite Hval. cbn [mbind result_bind].
  split; [done|]. by same_view.
Qed.

Lemma reads_slot key i get put x ds sl v :
  v_version v = Some VERSION -> v_table v = CheckTable -> key_ok key ->
  slot_of key = Some (get, put) ->
  (forall d, slots d !! i = Some (fst <$> get d)) ->
  (forall s d, slots (put s d) = <[i := fst <$> s]> (slots d)) ->
  (forall n, (if text_eqb key (txt "path") then check_path x n else Ok tt) = Ok tt) ->
  text_eqb key (txt "format") && text_eqb x [] = false ->
  v_drafts v = ds ++ [sl] -> sl !! i = Some None ->
  reads (assign key (quote x)) v {v with v_drafts := ds ++ [<[i := Some x]> sl] }.
Proof.
  intros Hv Ht Hk Hs Hget Hput Hp Hf Hd Hi. apply reads_assign; [done|done|]. intros l rest st Hst Hval. rewrite Ht.
  assert (Hne : drafts st <> []) by (intros E; subst v; cbn in Hd; rewrite E in Hd; by destruct ds).
  destruct (exists_last Hne) as (front & d & E).
  assert (Hsl : slots <$> front = ds /\ slots d = sl).
  { subst v. cbn in Hd. rewrite E, fmap_app in Hd. by apply app_inj_tail in Hd. }
  destruct Hsl as [<- <-].
  unfold parse_check. rewrite Hval. cbn [mbind result_bind]. rewrite Hs. unfold last_draft. rewrite E, last_snoc. cbn [from_option id].
  rewrite Hget in Hi. destruct (get d) as [|] eqn:Hg; [done|]. rewrite Hp. cbn [mbind result_bind]. rewrite Hf.
  exists {st with drafts := front ++ [put (Some (x, l)) d] }. split; [by rewrite removelast_last|].
  clear Hne Hd Hi Ht Hv Hval. subst v. destruct st. cbn in *. unfold view. cbn.
  by rewrite fmap_app, list_fmap_singleton, Hput.
Qed.

(** The lines whose text is fixed. *)
Lemma literal_content l : content_ok l ->
  forall v w, (forall n tr st, tail_ok tr -> view st = v ->
     exists st', parse_line n (l ++ tail_of tr) st = Ok st' /\ view st' = w) -> reads l v w.
Proof. intros Hl v w H. split; [done|]. intros tr Ht. apply steps_one. eauto. Qed.

Lemma value_bare tok line tr : tail_ok tr -> tok <> [] -> is_scalar tok = true ->
  front_ok is_whitespace tok -> (forall c r, tok = c :: r -> c <> 34) -> Forall (fun c => ends_token c = false) tok ->
  value (32 :: tok ++ tail_of tr) line = Ok (tok, Bare).
Proof.
  intros Ht Hn Hs Hf Hq Hk.
  assert (E : value (32 :: tok ++ tail_of tr) line =
              (if negb (is_scalar tok)
               then Err (error_at line (tick tok ++ txt " has to be quoted: only `true`, `false` and numbers go bare"))
               else if comment_or_end (trim_start (drop (length tok) (tok ++ tail_of tr))) then Ok (tok, Bare)
               else Err (error_at line (txt "nothing but a comment after a value")))).
  { unfold value. change (trim_start (32 :: tok ++ tail_of tr)) with (trim_start (tok ++ tail_of tr)).
    assert (Hfr : trim_start (tok ++ tail_of tr) = tok ++ tail_of tr)
      by (apply trim_start_id; by apply front_ok_app).
    rewrite Hfr.
    assert (Hh : default [] (head (split ends_token (tok ++ tail_of tr))) = tok).
    { destruct tr as [c|]; simpl tail_of; [by rewrite split_app|]. by rewrite app_nil_r, split_none. }
    rewrite Hh. destruct tok as [|c r]; [done|]. specialize (Hq c r eq_refl). cbn [app].
    destruct c as [|p|p]; try done. do 6 (destruct p; try done). }
  rewrite E, Hs, drop_app_length. cbn [negb]. by rewrite comment_tail.
Qed.

Lemma reads_version v : v = view parsing0 ->
  reads (assign (txt "version") (show_uint VERSION)) v {v with v_version := Some VERSION}.
Proof.
  intros ->. apply literal_content.
  { apply assign_content; [done| |done|done]. repeat constructor; done. }
  intros n tr st Ht Hst. exists {st with version := Some VERSION}. split; [|rewrite <- Hst; by destruct st].
  unfold parse_line. rewrite trim_content; [|apply assign_content; [done| |done|done]; repeat constructor; done|done].
  assert (Hv : version st = None) by (unfold view in Hst; by inversion Hst). rewrite Hv.
  assert (E : value (32 :: txt "1" ++ tail_of tr) n = Ok (txt "1", Bare)).
  { apply value_bare; [done|done|done|done| |by repeat constructor]. intros c r [= <- _]. done. }
  change (parse_version n (assign (txt "version") (txt "1") ++ tail_of tr) st = Ok {st with version := Some VERSION}).
  unfold parse_version.
  change (assign (txt "version") (txt "1") ++ tail_of tr)
    with (txt "version" ++ 32 :: 61 :: 32 :: txt "1" ++ tail_of tr).
  rewrite strip_prefix_app. 
  change (strip_prefix [61] (trim_start (32 :: 61 :: 32 :: txt "1" ++ tail_of tr)))
    with (Some (32 :: txt "1" ++ tail_of tr)).
  cbv iota beta. rewrite E. reflexivity.
Qed.

Lemma reads_bridge b v : b <> Unstated -> v_version v = Some VERSION -> v_table v = Top -> v_bridge v = None ->
  reads (assign (txt "bridge") (match b with Required => txt "true" | _ => txt "false" end)) v
        {v with v_bridge := Some b}.
Proof.
  intros Hb Hv Ht Hn.
  set (tok := match b with Required => txt "true" | _ => txt "false" end).
  assert (Hc : content_ok (assign (txt "bridge") tok))
    by (destruct b; (apply assign_content; [done|repeat constructor; done|done|done])).
  apply literal_content; [done|]. intros n tr st Hte Hst.
  rewrite (parse_line_assign _ _ _ _ _ VERSION) by (done || by eapply view_version).
  rewrite (view_table st v Hst), Ht.
  exists {st with p_bridge := Some (b, n)}. split; [|by same_view].
  assert (E : value (32 :: tok ++ tail_of tr) n = Ok (tok, Bare)).
  { destruct b; (apply value_bare; [done|done|done|done| |by repeat constructor]); intros c r [= <- _]; done. }
  assert (Hbr : p_bridge st = None) by (subst v; cbn in Hn; by destruct (p_bridge st)).
  unfold parse_top.
  change (text_eqb (txt "bridge") (txt "version")) with false.
  change (text_eqb (txt "bridge") (txt "name")) with false.
  change (text_eqb (txt "bridge") (txt "bridge")) with true. cbv iota.
  rewrite Hbr, E. by destruct b.
Qed.

Lemma header_line_reads h l n tr : tail_ok tr ->
  (l, h) = (txt "[settings]", Settings) \/ (l, h) = (txt "[[check]]", CheckTable) ->
  table_header (l ++ tail_of tr) n = Ok (Some h).
Proof.
  intros Ht Hl. pose proof (comment_tail tr Ht) as Hc.
  destruct Hl as [[= -> ->]|[= -> ->]]; unfold table_header.
  - change (split_once_str [93] (txt "[settings]" ++ tail_of tr)) with (Some (txt "[settings", tail_of tr)).
    cbn. by rewrite Hc.
  - change (split_once_str [93; 93] (txt "[[check]]" ++ tail_of tr)) with (Some (txt "[[check", tail_of tr)).
    cbn. by rewrite Hc.
Qed.

Lemma reads_settings_header v : v_version v = Some VERSION -> v_open v = false ->
  reads (txt "[settings]") v {v with v_open := true; v_table := Settings}.
Proof.
  intros Hv Ho. apply literal_content.
  { split_and!; [by repeat constructor| |done]. by eexists _, _. }
  intros n tr st Ht Hst. exists {st with settings_at := Some n; table := Settings}. split; [|by same_view].
  rewrite (parse_line_content _ _ _ _ VERSION); [|split_and!; [by repeat constructor|by eexists _, _|done]|done|by eapply view_version].
  rewrite (header_line_reads Settings) by auto. cbn [mbind result_bind open_table].
  subst v. cbn in Ho. by destruct (settings_at st).
Qed.

Lemma reads_check_header v : v_version v = Some VERSION ->
  reads (txt "[[check]]") v {v with v_drafts := v_drafts v ++ [replicate 5 None]; v_table := CheckTable}.
Proof.
  intros Hv. apply literal_content.
  { split_and!; [by repeat constructor| |done]. by eexists _, _. }
  intros n tr st Ht Hst. exists {st with drafts := drafts st ++ [new_draft n]; table := CheckTable}. split; [|by same_view].
  rewrite (parse_line_content _ _ _ _ VERSION); [|split_and!; [by repeat constructor|by eexists _, _|done]|done|by eapply view_version].
  by rewrite (header_line_reads CheckTable) by auto.
Qed.

(** ** The whole file read back *)
Inductive chain : list (Anchor * text) -> View -> View -> Prop :=
| chain_nil v : chain [] v v
| chain_cons a l ls u v w : reads l u v -> chain ls v w -> chain ((a, l) :: ls) u w.

Lemma chain_one a l v w : reads l v w -> chain [(a, l)] v w.
Proof. intros. eapply chain_cons; [done|constructor]. Qed.
Lemma chain_app ls ks u v w : chain ls u v -> chain ks v w -> chain (ls ++ ks) u w.
Proof. induction 1; [done|]. intros. eapply chain_cons; eauto. Qed.

Definition attached_ok (c : Attached) : Prop :=
  Forall comment_ok (snd <$> leading c) /\ tail_ok (trailing c) /\ Forall comment_ok (snd <$> following c).

Lemma beside_reads kept hit a l v w : Forall attached_ok kept -> reads l v w -> steps (beside kept hit a l) v w.
Proof.
  intros Hk [Hc Hl]. unfold beside. apply (steps_app _ _ v v w).
  { destruct (opens_table a); [by apply steps_skip|apply steps_nil]. }
  assert (Hsk : forall ls u, Forall comment_ok ls -> steps ls u u).
  { intros ls u H. apply steps_skips. eapply Forall_impl; [done|apply comment_skipped]. }
  destruct (hit ≫= _) as [c|] eqn:E.
  - assert (Ha : attached_ok c).
    { destruct hit as [i|]; [|done]. by eapply Forall_lookup_1. }
    destruct Ha as (H1 & H2 & H3). apply (steps_app _ _ v v w).
    { apply Hsk. unfold leading_lines. rewrite list.Forall_forall in *. intros t Ht.
      apply H1. apply list_elem_of_In in Ht. apply List.filter_In in Ht as [Ht _]. by apply list_elem_of_In. }
    apply (steps_app _ _ v w w); [by apply Hl|by apply Hsk].
  - rewrite <- (app_nil_r l). by apply (Hl None).
Qed.

Lemma render_reads kept used ls v w : Forall attached_ok kept -> chain ls v w ->
  steps (render_from kept used ls).2 v w.
Proof.
  intros Hk H. revert used. induction H as [v|a l ls u v w Hr _ IH]; intros used; [apply steps_nil|].
  cbn [render_from]. specialize (IH (mark_used (find_unused used kept a) used)).
  destruct (render_from kept (mark_used _ used) ls) as [u' rest]. cbn [snd] in *.
  by apply (steps_app _ _ u v w); [apply beside_reads|].
Qed.

(** ** Profiles that have a file *)
Definition check_ok (c : Check) : Prop :=
  check_path (path c) 0 = Ok tt /\ format_from_name (format_as_str (format c)) = format c
  /\ format_as_str (format c) <> [].
Definition profile_ok (p : Profile) : Prop :=
  NoDup (settings p).*1 /\ Forall (fun kv => key_ok kv.1) (settings p) /\ Forall check_ok (checks p).

Lemma check_path_line p l m : check_path p l = Ok tt -> check_path p m = Ok tt.
Proof. unfold check_path. by repeat case_match. Qed.

Definition check_slots (c : Check) : list (option text) :=
  Some <$> [format_as_str (format c); path c; setting c; wants c; tell c].

Ltac slot_step i get put :=
  eapply (reads_slot _ i get put);
  [done|done|done|reflexivity|by intros []|by intros ? []|done|done|reflexivity|reflexivity].

Lemma chain_check c v : check_ok c -> v_version v = Some VERSION ->
  chain (check_lines c) v {v with v_drafts := v_drafts v ++ [check_slots c]; v_table := CheckTable}.
Proof.
  intros (Hp & Hf & Hn) Hv. eapply chain_cons; [by apply reads_check_header|].
  destruct v as [ver nm br ss op ds tb]. cbn in Hv. subst ver. with_strategy opaque [assign txt] cbn.
  eapply chain_cons.
  { eapply (reads_slot _ 0 d_format (fun s d => {d with d_format := s}));
      [done|done|done|reflexivity|by intros []|by intros ? []|done| |reflexivity|reflexivity].
    unfold text_eqb at 2. by rewrite bool_decide_eq_false_2. }
  eapply chain_cons.
  { eapply (reads_slot _ 1 d_path (fun s d => {d with d_path := s}));
      [done|done|done|reflexivity|by intros []|by intros ? []| |done|reflexivity|reflexivity].
    intros n. by eapply check_path_line. }
  eapply chain_cons; [slot_step 2%nat d_setting (fun s d => {d with d_setting := s})|].
  eapply chain_cons; [slot_step 3%nat d_wants (fun s d => {d with d_wants := s})|].
  eapply chain_cons; [slot_step 4%nat d_tell (fun s d => {d with d_tell := s})|]. apply chain_nil.
Qed.

Lemma chain_checks cs v : Forall check_ok cs -> v_version v = Some VERSION ->
  exists t, chain (cs ≫= check_lines) v {v with v_drafts := v_drafts v ++ (check_slots <$> cs); v_table := t}.
Proof.
  intros H. revert v. induction H as [|c cs Hc _ IH]; intros v Hv.
  { exists (v_table v). destruct v. cbn. rewrite app_nil_r. constructor. }
  destruct (IH {v with v_drafts := v_drafts v ++ [check_slots c]; v_table := CheckTable}) as (t & Ht); [by destruct v|].
  exists t. change ((c :: cs) ≫= check_lines) with (check_lines c ++ (cs ≫= check_lines)).
  eapply chain_app; [by apply chain_check|]. destruct v. cbn in *. by rewrite <- app_assoc in Ht.
Qed.

Lemma chain_settings ss v : v_version v = Some VERSION -> v_table v = Settings ->
  NoDup ((v_settings v ++ ss).*1) -> Forall (fun kv => key_ok kv.1) ss ->
  chain ((fun kv : text * text => (ASetting kv.1, assign kv.1 (quote kv.2))) <$> ss) v
        {v with v_settings := v_settings v ++ ss}.
Proof.
  intros Hv Ht Hd H. revert v Hv Ht Hd. induction H as [|[k x] ss Hk _ IH]; intros v Hv Ht Hd.
  { destruct v. cbn. rewrite app_nil_r. constructor. }
  rewrite fmap_cons. eapply chain_cons.
  - apply reads_setting; [done|done|done|]. rewrite fmap_app, fmap_cons in Hd. apply NoDup_app in Hd as (_ & Hd & _).
    intros Hin. apply (Hd _ Hin). apply list_elem_of_here.
  - specialize (IH {v with v_settings := v_settings v ++ [(k, x)] }). destruct v. cbn in *.
    rewrite <- app_assoc in IH. by apply IH.
Qed.

Definition stated (b : Bridge) : option Bridge := match b with Unstated => None | b => Some b end.
Definition profile_view (p : Profile) (t : Table) : View :=
  {| v_version := Some VERSION; v_name := name p;
     v_bridge := stated (bridge p);
     v_settings := settings p; v_open := match settings p with [] => false | _ => true end;
     v_drafts := check_slots <$> checks p; v_table := t |}.

Lemma chain_profile p : profile_ok p -> exists t, chain (profile_lines p) (view parsing0) (profile_view p t).
Proof.
  intros (Hd & Hk & Hc). destruct p as [nm br ss cs]. cbn in Hd, Hk, Hc. unfold profile_lines, profile_view. cbn [name bridge settings checks].
  set (v1 := {| v_version := Some VERSION; v_name := nm; v_bridge := None; v_settings := []; v_open := false;
                v_drafts := []; v_table := Top |}).
  set (v2 := {v1 with v_bridge := stated br}).
  set (v3 := {v2 with v_settings := ss; v_open := match ss with [] => false | _ => true end;
                      v_table := match ss with [] => Top | _ => Settings end}).
  destruct (chain_checks cs v3 Hc eq_refl) as (t & Ht). exists t.
  eapply chain_cons; [by apply reads_version|].
  eapply (chain_app _ _ _ v1).
  { destruct nm as [n|]; [|constructor]. eapply chain_one. by apply reads_name. }
  apply (chain_app _ _ v1 v2).
  { destruct br; [constructor| |]; eapply chain_one.
    - by apply (reads_bridge Required).
    - by apply (reads_bridge NotNeeded). }
  apply (chain_app _ _ v2 v3); [|exact Ht].
  destruct ss as [|kv ss]; [constructor|].
  eapply chain_cons; [by apply reads_settings_header|].
  exact (chain_settings (kv :: ss) {v2 with v_open := true; v_table := Settings} eq_refl eq_refl Hd Hk).
Qed.

(** ** The end of the file *)
Lemma fst_of {A B} (s : option (A * B)) v : fst <$> s = Some v -> exists n, s = Some (v, n).
Proof. destruct s as [[x n]|]; simpl; [|done]. intros [= ->]. eauto. Qed.

Lemma finish_slots d c : slots d = check_slots c -> format_from_name (format_as_str (format c)) = format c ->
  finish d = Ok c.
Proof.
  destruct d as [n f p s w t], c as [cf cp cs cw ct]. unfold slots, check_slots. cbn. intros H Hf.
  injection H as (n1 & ->)%fst_of (n2 & ->)%fst_of (n3 & ->)%fst_of (n4 & ->)%fst_of (n5 & ->)%fst_of.
  unfold finish, need. cbn. by rewrite Hf.
Qed.
Lemma finish_all_slots ds cs : slots <$> ds = check_slots <$> cs ->
  Forall check_ok cs -> finish_all ds = Ok cs.
Proof.
  revert cs. induction ds as [|d ds IH]; intros [|c cs]; try done. rewrite !fmap_cons. intros Heq Hc.
  assert (slots d = check_slots c /\ slots <$> ds = check_slots <$> cs) as [H1 H2] by (split; congruence).
  inversion Hc as [|? ? (_ & Hf & _) Hcs]. subst. cbn [finish_all].
  rewrite (finish_slots d c) by done. cbn [mbind result_bind]. by rewrite (IH cs).
Qed.
Lemma finish_view st p t : view st = profile_view p t -> profile_ok p -> finish_profile st = Ok p.
Proof.
  intros H (_ & _ & Hc). destruct st as [ver nm br ss sa ds tb], p as [pn pb ps pc].
  unfold view, profile_view in H. cbn in *. injection H as -> Hn Hb Hs _ Hd _.
  unfold finish_profile. cbn. rewrite (finish_all_slots ds pc) by done. cbn [mbind result_bind].
  f_equal. f_equal; [done| |done]. destruct br as [[b n]|]; cbn in Hb; destruct pb; cbn in Hb; by simplify_eq.
Qed.

Lemma comment_line c : comment_ok c -> one_line c /\ back_ok (Z.eqb 13) c.
Proof.
  intros (H1 & (r & ->) & Hb). split; [done|]. unfold back_ok, front_ok in *.
  destruct (rev (35 :: r)) as [|x xs]; [done|]. destruct (Z.eqb_spec 13 x); [by subst|done].
Qed.
Lemma content_line l tr : content_ok l -> tail_ok tr -> one_line (l ++ tail_of tr) /\ back_ok (Z.eqb 13) (l ++ tail_of tr).
Proof.
  intros (H1 & (c & r & -> & _) & Hb) Ht. destruct tr as [t|]; simpl tail_of.
  - destruct (comment_line t Ht) as [Ho Hc]. split; [by apply Forall_app; split; [|constructor]|].
    apply back_ok_app; [done|]. apply (back_ok_app _ [32]); [|done]. destruct Ht as (_ & (? & ->) & _). done.
  - rewrite app_nil_r. split; [done|]. unfold back_ok, front_ok in *.
    destruct (rev (c :: r)) as [|x xs]; [done|]. destruct (Z.eqb_spec 13 x); [by subst|done].
Qed.

Definition line_ok (l : text) : Prop := one_line l /\ back_ok (Z.eqb 13) l.
Lemma beside_lines kept hit a l : Forall attached_ok kept -> content_ok l -> Forall line_ok (beside kept hit a l).
Proof.
  intros Hk Hl. unfold beside. apply Forall_app. split; [destruct (opens_table a); by repeat constructor|].
  destruct (hit ≫= _) as [c|] eqn:E.
  - assert (Ha : attached_ok c) by (destruct hit as [i|]; [|done]; by eapply Forall_lookup_1).
    destruct Ha as (H1 & H2 & H3). rewrite !Forall_app. split_and!.
    + unfold leading_lines. rewrite list.Forall_forall in *. intros t Ht. apply comment_line, H1.
      apply list_elem_of_In in Ht. apply List.filter_In in Ht as [Ht _]. by apply list_elem_of_In.
    + constructor; [by apply content_line|constructor].
    + eapply Forall_impl; [done|apply comment_line].
  - constructor; [|constructor]. rewrite <- (app_nil_r l). by apply (content_line l None).
Qed.
Lemma chain_content ls v w : chain ls v w -> Forall (fun al => content_ok al.2) ls.
Proof. induction 1 as [|a l ls u v w [Hc _] _ IH]; constructor; done. Qed.
Lemma render_from_lines kept used ls : Forall attached_ok kept -> Forall (fun al => content_ok al.2) ls ->
  Forall line_ok (render_from kept used ls).2.
Proof.
  intros Hk H. revert used. induction H as [|[a l] ls Hl _ IH]; intros used; [constructor|].
  cbn [render_from]. specialize (IH (mark_used (find_unused used kept a) used)).
  destruct (render_from kept (mark_used _ used) ls) as [u' rest]. cbn [snd] in *.
  apply Forall_app. split; [by apply beside_lines|done].
Qed.

Lemma header_comment : comment_ok HEADER.
Proof. split_and!; [by repeat constructor|by eexists|done]. Qed.

(** The file [render] writes reads back as the profile, whatever comments it keeps. *)
Lemma parse_render p kept : profile_ok p -> Forall attached_ok kept -> parse (render p kept).1 = Ok p.
Proof.
  intros Hp Hk. destruct (chain_profile p Hp) as (t & Hc).
  unfold render. pose proof (render_reads kept ((fun _ => false) <$> kept) _ _ _ Hk Hc) as Hs.
  pose proof (render_from_lines kept ((fun _ => false) <$> kept) _ Hk (chain_content _ _ _ Hc)) as Hl.
  unfold render_lines. destruct (render_from _ _ _) as [used ls]. cbn [fst snd] in *.
  assert (Hall : Forall line_ok (HEADER :: ls)) by (constructor; [apply comment_line, header_comment|done]).
  unfold parse. change (strip_bom ((HEADER :: ls) ≫= newline)) with ((HEADER :: ls) ≫= newline).
  rewrite lines_newlines by (eapply Forall_impl; [done|by intros ? []]).
  apply (steps_app [HEADER] ls _ _ _ (steps_skip _ _ (comment_skipped _ header_comment))) in Hs.
  destruct (Hs 1 parsing0 eq_refl) as (st & E & Hv). cbn [app] in E. rewrite E. cbn [mbind result_bind].
  by eapply finish_view.
Qed.

(** ** What the parser accepts *)
Lemma slot_of_cases key get put : slot_of key = Some (get, put) ->
  In (key, (get, put))
     [(txt "format", (d_format, fun s d => {d with d_format := s})); (txt "path", (d_path, fun s d => {d with d_path := s}));
      (txt "setting", (d_setting, fun s d => {d with d_setting := s})); (txt "wants", (d_wants, fun s d => {d with d_wants := s}));
      (txt "tell", (d_tell, fun s d => {d with d_tell := s}))].
Proof.
  unfold slot_of, text_eqb.
  repeat match goal with |- context [bool_decide (key = ?k)] => destruct (bool_decide_reflect (key = k)) as [->|_] end;
    intros [= <- <-]; simpl; tauto.
Qed.

Definition draft_ok (d : Draft) : Prop :=
  (forall v n, d_format d = Some (v, n) -> v <> [])
  /\ (forall v n, d_path d = Some (v, n) -> check_path v 0 = Ok tt).
Definition parsing_ok (st : Parsing) : Prop :=
  NoDup (p_settings st).*1.*1 /\ Forall (fun e => key_ok e.1.1) (p_settings st) /\ Forall draft_ok (drafts st)
  /\ (table st = CheckTable -> drafts st <> []).

Lemma split_key_ok t n k rest : split_key t n = Ok (k, rest) -> key_ok k.
Proof.
  unfold split_key. destruct (split_once _ t) as [[a b]|]; [|done]. destruct (trim a) as [|c r] eqn:E; [done|].
  destruct (forallb key_char (c :: r)) eqn:F; [|done]. cbn [negb]. intros [= <- <-]. by split.
Qed.
Lemma find_none_not_in k l : List.find (fun e : text * text * Z => text_eqb e.1.1 k) l = None -> k ∉ l.*1.*1.
Proof.
  intros H Hin. apply list_elem_of_fmap in Hin as ([a x] & -> & Hin).
  apply list_elem_of_fmap in Hin as ([[a' x'] n] & [= -> ->] & Hin). apply list_elem_of_In in Hin.
  apply (List.find_none _ _ H) in Hin. simpl in Hin. by rewrite text_eqb_refl in Hin.
Qed.

Lemma parse_check_ok n k rest st st' : parsing_ok st -> table st = CheckTable ->
  parse_check n k rest st = Ok st' -> parsing_ok st'.
Proof.
  intros (H1 & H2 & H3 & H4) Ht. unfold parse_check.
  intros ([v kd] & _ & E)%result_bind_inv. destruct (slot_of k) as [[get put]|] eqn:Hs; [|done].
  apply slot_of_cases in Hs. destruct (get (last_draft st)) as [[]|] eqn:Hg; [done|].
  apply result_bind_inv in E as (u & Hp & E).
  destruct (text_eqb k (txt "format") && text_eqb v []) eqn:Hf; [done|]. injection E as <-.
  destruct (exists_last (H4 Ht)) as (front & d & Ed). rewrite Ed in *.
  unfold last_draft in *. rewrite Ed, last_snoc in *. cbn [from_option id] in *. rewrite removelast_last.
  split_and!; [by destruct st|by destruct st| |by destruct st, front].
  replace (drafts _) with (front ++ [put (Some (v, n)) d]) by (by destruct st).
  apply Forall_app in H3 as [H3 Hd]. apply Forall_app. split; [done|]. constructor; [|constructor].
  inversion Hd as [|? ? [Df Dp] _]. subst.
  repeat destruct Hs as [[= <- <- <-]|Hs]; [..|done]; destruct d; cbn in *; split; try done; cbn.
  - intros ? ? [= -> ->] ->. done.
  - intros ? ? [= -> ->]. destruct u.
    eapply check_path_line. exact Hp.
Qed.

Lemma parse_line_ok n l st st' : parsing_ok st -> parse_line n l st = Ok st' -> parsing_ok st'.
Proof.
  intros Hok. unfold parse_line.
  assert (Hgo : match version st with
      | None => parse_version n (trim l) st
      | Some _ => h ← table_header (trim l) n;
          match h with
          | Some h => open_table n h st
          | None => '(key, rest) ← split_key (trim l) n;
              match table st with
              | Top => parse_top n key rest st
              | Settings => parse_setting n key rest st
              | CheckTable => parse_check n key rest st
              end
          end end = Ok st' -> parsing_ok st').
  { destruct (version st) eqn:Hv.
    - intros (h & _ & E)%result_bind_inv. destruct h as [h|].
      + destruct Hok as (H1 & H2 & H3 & H4). destruct h; cbn in E; [by simplify_eq| |].
        * destruct (settings_at st); [done|]. injection E as <-. by destruct st.
        * injection E as <-. destruct st. split_and!; cbn in *; try done; [|by destruct drafts0].
          apply Forall_app. split; [done|]. by repeat constructor.
      + apply result_bind_inv in E as ([k rest] & Hk%split_key_ok & E).
        destruct (table st) eqn:Ht; [| |by eapply parse_check_ok].
        * unfold parse_top in E. repeat case_match; simplify_eq; try (by destruct st).
          all: apply result_bind_inv in E as ([v kd] & _ & E); repeat case_match; simplify_eq; by destruct st.
        * unfold parse_setting in E. destruct (List.find _ _) as [[[]]|] eqn:Hf; [done|].
          apply result_bind_inv in E as ([v kd] & _ & [= <-]). apply find_none_not_in in Hf.
          destruct Hok as (H1 & H2 & H3 & H4). destruct st. split_and!; cbn in *; try done.
          -- rewrite !fmap_app. apply NoDup_app. split_and!; [done| |by apply NoDup_singleton].
             intros x Hx ->%list_elem_of_singleton. done.
          -- apply Forall_app. split; [done|]. by constructor.
    - unfold parse_version. repeat case_match; try done. intros [= <-]. by destruct st. }
  destruct (trim l) as [|c r] eqn:El; [by intros [= <-]|].
  destruct c as [|p|p]; try exact Hgo. do 6 (destruct p; try exact Hgo). by intros [= <-].
Qed.

Lemma parse_lines_ok n ls st st' : parsing_ok st -> parse_lines n ls st = Ok st' -> parsing_ok st'.
Proof.
  revert n st. induction ls as [|l ls IH]; intros n st Hok; simpl; [by intros [= <-]|].
  intros (st1 & E1 & E2)%result_bind_inv. eapply IH; [|done]. by eapply parse_line_ok.
Qed.

Lemma format_named v : format_as_str (format_from_name v) = v.
Proof.
  unfold format_from_name, text_eqb. by repeat case_bool_decide.
Qed.
Lemma need_inv at_ s k v : need at_ s k = Ok v -> exists n, s = Some (v, n).
Proof. unfold need. destruct s as [[x n]|]; [|done]. intros [= ->]. eauto. Qed.
Lemma finish_check_ok d c : draft_ok d -> finish d = Ok c -> check_ok c.
Proof.
  intros [Hf Hp] H. unfold finish in H.
  apply result_bind_inv in H as (f & (n1 & Ef)%need_inv & H).
  apply result_bind_inv in H as (p & (n2 & Ep)%need_inv & H).
  apply result_bind_inv in H as (s & _ & H). apply result_bind_inv in H as (w & _ & H).
  apply result_bind_inv in H as (t & _ & [= <-]). unfold check_ok. cbn.
  rewrite format_named. split_and!; [by eapply Hp|done|by eapply Hf].
Qed.
Lemma finish_all_ok ds cs : Forall draft_ok ds -> finish_all ds = Ok cs -> Forall check_ok cs.
Proof.
  intros H. revert cs. induction H as [|d ds Hd _ IH]; intros cs; simpl; [by intros [= <-]|].
  intros (c & Hc & (cs' & Hcs & [= <-])%result_bind_inv)%result_bind_inv.
  constructor; [by eapply finish_check_ok|by apply IH].
Qed.

Lemma parse_profile_ok s p : parse s = Ok p -> profile_ok p.
Proof.
  unfold parse. intros (st & Hp & Hf)%result_bind_inv.
  apply parse_lines_ok in Hp as (H1 & H2 & H3 & _); [|by split_and!; try constructor].
  unfold finish_profile in Hf. destruct (version st); [|done].
  apply result_bind_inv in Hf as (cs & Hcs & [= <-]).
  split_and!; cbn; [done| |by eapply finish_all_ok].
  apply Forall_fmap. eapply Forall_impl; [done|]. by intros [[k x] n].
Qed.

(** C31: A profile whose setting keys are distinct words, whose check paths are relative and
    whose formats have names is read back from the file [to_toml] writes, whatever
    characters its strings hold; no other profile is. *)
Theorem profile_file_roundtrip p : profile_ok p <-> parse (to_toml p) = Ok p.
Proof. split; [intros; by apply parse_render|apply parse_profile_ok]. Qed.

(** C32: The keys of the settings of a parsed profile are distinct, every check path has the
    shape that keeps it relative, and every format has a name. *)
Theorem parsed_profiles_well_formed s p : parse s = Ok p -> profile_ok p.
Proof. apply parse_profile_ok. Qed.

(** A profile with everything in it, strings with quotes, controls and line breaks included. *)
Definition sample_profile : Profile :=
  {| name := Some (txt "Elite " ++ [34; 92; 10; 9; 7; 0x85; 0x1f680]);
     bridge := Required;
     settings := [(txt "output", txt "joystick"); (txt "gaze-gain", txt "1.5 # not a comment")];
     checks := [{| format := BindsDir; path := txt "drive_c/users/Bindings"; setting := txt "YawAxis";
                   wants := txt "Joy_RX"; tell := [34] |};
                {| format := Unknown (txt "ini-file"); path := txt "dosdevices/z:/x"; setting := [];
                   wants := []; tell := txt "]" |}] |}.
Lemma parsed_profiles_well_formed_witness : parse (to_toml sample_profile) = Ok sample_profile /\ profile_ok sample_profile.
Proof.
  assert (H : parse (to_toml sample_profile) = Ok sample_profile) by (vm_compute; reflexivity).
  split; [exact H|]. exact (parsed_profiles_well_formed _ _ H).
Defined.
