(* ===== verification/ProfileEdit.v ===== *)
(** * ProfileEdit: writing a profile over a file somebody edited (crates/tobii-config/src/profiles.rs)

    [to_toml_over] puts every comment of the old file back beside the thing it was
    beside, or hands it back as an orphan. The theorems: the file still says exactly
    the profile, and no comment is lost or duplicated. *)
From stdpp Require Import sorting.
From S2P Require Import Prelude F64 Floats Text Decimal Profiles.

(** ** Finding the comments of a file *)
Definition prepend (cs : text) (r : text * option text) : text * option text := (cs ++ r.1, r.2).

(** [split_comment]: the text before the first number sign outside a string, and the comment. *)
Fixpoint split_comment_at (in_string : bool) (s : text) : text * option text :=
  match s with
  | [] => ([], None)
  | c :: r =>
      if c =? 34 then prepend [c] (split_comment_at (negb in_string) r)
      else if (c =? 92) && in_string then
        match r with
        | [] => ([c], None)
        | e :: r => prepend [c; e] (split_comment_at in_string r)
        end
      else if (c =? 35) && negb in_string then ([], Some s)
      else prepend [c] (split_comment_at in_string r)
  end.
Definition split_comment (raw : text) : text * option text := split_comment_at false raw.

Record Walk := {
  out : Comments;
  pending : list (Z * text);
  w_table : Table;
  seen : nat;
  w_id : CheckId;
  w_last : option (Anchor * Z);
}.
Definition walk0 : Walk :=
  {| out := []; pending := []; w_table := Top; seen := 0; w_id := id_default; w_last := None |}.

(** The anchor of a line that holds something, and the state of the walk after it. *)
Definition anchor_line (cs : list Check) (t : text) (st : Walk) : Anchor * Walk :=
  if starts_with [91; 91] t then
    let id := default id_default (check_id <$> cs !! seen st) in
    (ACheck id, {st with w_table := CheckTable; w_id := id; seen := S (seen st)})
  else if starts_with [91] t then (ASettings, {st with w_table := Settings})
  else
    let key := match split_once (Z.eqb 61) t with Some (k, _) => trim k | None => t end in
    (match w_table st with
     | Top => ATop key
     | Settings => ASetting key
     | CheckTable => ACheckKey (w_id st) key
     end, st).

Definition walk_line (cs : list Check) (line : Z) (raw : text) (st : Walk) : Walk :=
  let '(content, comment) := split_comment raw in
  let comment := trim_end <$> comment in
  let t := trim content in
  match t with
  | [] => match comment with Some c => {st with pending := pending st ++ [(line, c)] } | None => st end
  | _ =>
      let '(anchor_, st) := anchor_line cs t st in
      let entry := {| anchor := anchor_; at_line := line; leading := pending st; trailing := comment; following := [] |} in
      let keep := match pending st, comment with [], None => false | _, _ => true end in
      {st with out := if keep then out st ++ [entry] else out st; pending := []; w_last := Some (anchor_, line)}
  end.
Fixpoint walk_lines (cs : list Check) (line : Z) (ls : list text) (st : Walk) : Walk :=
  match ls with
  | [] => st
  | l :: ls => walk_lines cs (line + 1) ls (walk_line cs line l st)
  end.

(** The comments after the last line that holds something. *)
Definition close_walk (st : Walk) : Comments :=
  match pending st, w_last st with
  | _ :: _, Some (a, line) =>
      let fresh := {| anchor := a; at_line := line; leading := []; trailing := None; following := pending st |} in
      match last (out st) with
      | Some e => if at_line e =? line then removelast (out st) ++ [{e with following := pending st}]
                  else out st ++ [fresh]
      | None => [fresh]
      end
  | _, _ => out st
  end.
Definition comments_of (s : text) (cs : list Check) : Comments :=
  close_walk (walk_lines cs 1 (lines (strip_bom s)) walk0).

(** ** Writing over *)
Record Unreadable := { u_line : Z; u_comment : text }.

Fixpoint first_comment (line : Z) (ls : list text) : option Unreadable :=
  match ls with
  | [] => None
  | l :: ls =>
      match (split_comment l).2 with
      | Some c => Some {| u_line := line; u_comment := trim_end c |}
      | None => first_comment (line + 1) ls
      end
  end.

(** [rewrite_over] *)
Definition rewrite_over (p : Profile) (existing : text) : result Unreadable (text * list Orphan) :=
  match parse existing with
  | Ok was => Ok (render p (comments_of existing (checks was)))
  | Err _ => match first_comment 1 (lines existing) with
             | Some u => Err u
             | None => Ok (to_toml p, [])
             end
  end.
Definition to_toml_over (p : Profile) (existing : text) : result Unreadable text :=
  fst <$> rewrite_over p existing.

(** ** Where a line's comment starts *)
Lemma split_comment_parts b s : s = (split_comment_at b s).1 ++ default [] (split_comment_at b s).2
  /\ (forall c, (split_comment_at b s).2 = Some c -> exists r, c = 35 :: r).
Proof.
  revert b. induction s as [s IH] using (induction_ltof1 _ (@length Z)). intros b. unfold ltof in IH.
  destruct s as [|c r]; [done|]. cbn [split_comment_at].
  assert (Hr : forall b', r = (split_comment_at b' r).1 ++ default [] (split_comment_at b' r).2
      /\ (forall x, (split_comment_at b' r).2 = Some x -> exists r', x = 35 :: r'))
    by (intros b'; apply IH; simpl; lia).
  destruct (c =? 34); [destruct (Hr (negb b)) as [E H]; split; [simpl; by f_equal|exact H]|].
  destruct ((c =? 92) && b).
  { destruct r as [|e r]; [done|]. destruct (IH r ltac:(simpl; lia) b) as [E H]. split; [simpl; by do 2 f_equal|exact H]. }
  destruct ((c =? 35) && negb b) eqn:E35.
  - split; [done|]. intros x [= <-]. apply andb_true_iff in E35 as [->%Z.eqb_eq _]. eauto.
  - destruct (Hr b) as [E H]. split; [simpl; by f_equal|exact H].
Qed.

Lemma split_comment_some s c : (split_comment s).2 = Some c -> exists a r, s = a ++ c /\ c = 35 :: r.
Proof.
  intros H. destruct (split_comment_parts false s) as [E Hc]. fold (split_comment s) in *.
  destruct (Hc c H) as [r ->]. rewrite H in E. eauto.
Qed.

Lemma trim_end_comment r : exists r', trim_end (35 :: r) = 35 :: r'.
Proof.
  destruct (trim_end_prefix is_whitespace (35 :: r)) as (w & E & Hw). unfold trim_end.
  destruct (trim_end_by is_whitespace (35 :: r)) as [|c k]; [|injection E as <- _; eauto].
  exfalso. simpl in E. subst w. inversion Hw. done.
Qed.

Lemma comment_of_line_ok s c : one_line s -> (split_comment s).2 = Some c -> comment_ok (trim_end c).
Proof.
  intros Hs (a & r & -> & ->)%split_comment_some. apply one_line_app in Hs as [_ Hs].
  destruct (trim_end_comment r) as [r' E]. split_and!; [|eauto|apply trim_end_back].
  destruct (trim_end_prefix is_whitespace (35 :: r)) as (w & Ew & _). rewrite Ew in Hs.
  by apply one_line_app in Hs as [Hs _].
Qed.

(** ** The walk *)
Definition kept_comments (c : Attached) : list text :=
  (snd <$> leading c) ++ option_list (trailing c) ++ (snd <$> following c).
Definition all_comments (k : Comments) : list text := k ≫= kept_comments.
Definition line_comment (raw : text) : list text := option_list (trim_end <$> (split_comment raw).2).
(** The comments of a file, in order. *)
Definition comments_in (ls : list text) : list text := ls ≫= line_comment.

Definition walk_ok (st : Walk) : Prop :=
  Forall (fun c => attached_ok c /\ following c = []) (out st) /\ Forall comment_ok (snd <$> pending st).

Lemma anchor_line_state cs t st : let st' := (anchor_line cs t st).2 in out st' = out st /\ pending st' = pending st.
Proof. unfold anchor_line. repeat case_match; by destruct st. Qed.

Lemma all_comments_app k l : all_comments (k ++ l) = all_comments k ++ all_comments l.
Proof. unfold all_comments. by rewrite bind_app. Qed.
Lemma all_comments_one c : all_comments [c] = kept_comments c.
Proof. unfold all_comments. simpl. apply app_nil_r. Qed.

Lemma walk_line_spec cs n raw st : one_line raw -> walk_ok st ->
  walk_ok (walk_line cs n raw st)
  /\ all_comments (out (walk_line cs n raw st)) ++ (snd <$> pending (walk_line cs n raw st))
     = all_comments (out st) ++ (snd <$> pending st) ++ line_comment raw.
Proof.
  intros Hraw [Ho Hp]. unfold walk_line, line_comment.
  pose proof (comment_of_line_ok raw) as Hc. destruct (split_comment raw) as [content cm]. cbn [snd] in *.
  destruct (trim content) as [|x t].
  - destruct cm as [c|]; simpl; [|by rewrite app_nil_r].
    specialize (Hc c Hraw eq_refl). destruct st. unfold walk_ok. cbn [out pending] in *. split.
    + split; [done|]. rewrite fmap_app. apply Forall_app. split; [done|]. by constructor.
    + by rewrite fmap_app.
  - pose proof (anchor_line_state cs (x :: t) st) as Ha.
    destruct (anchor_line cs (x :: t) st) as [an st1]. cbn [snd] in Ha. destruct Ha as [E1 E2].
    destruct st1, st. cbn in *. subst. set (e := {| anchor := an; at_line := n; leading := _; trailing := _; following := _ |}).
    assert (He : attached_ok e).
    { split_and!; cbn; [done| |constructor]. destruct cm as [c|]; cbn; [|done]. by apply Hc. }
    assert (Hk : kept_comments e = (snd <$> pending1) ++ option_list (trim_end <$> cm))
      by (unfold kept_comments; cbn; by rewrite app_nil_r).
    assert (Hfin : Forall (fun c => attached_ok c /\ following c = []) (out1 ++ [e]))
      by (apply Forall_app; split; [done|]; by constructor).
    assert (Hcm : all_comments (out1 ++ [e]) ++ [] = all_comments out1 ++ (snd <$> pending1) ++ option_list (trim_end <$> cm))
      by (by rewrite app_nil_r, all_comments_app, all_comments_one, Hk).
    destruct pending1 as [|p ps]; [destruct cm as [c|]|]; cbn;
      (split; [split; [done|by constructor]|]); try exact Hcm. done.
Qed.

Lemma walk_lines_spec cs n ls st : Forall one_line ls -> walk_ok st ->
  walk_ok (walk_lines cs n ls st)
  /\ all_comments (out (walk_lines cs n ls st)) ++ (snd <$> pending (walk_lines cs n ls st))
     = all_comments (out st) ++ (snd <$> pending st) ++ comments_in ls.
Proof.
  intros Hl. revert n st. induction Hl as [|l ls Hl _ IH]; intros n st Hst; simpl.
  { unfold comments_in. simpl. by rewrite app_nil_r. }
  destruct (walk_line_spec cs n l st Hl Hst) as [H1 E1]. destruct (IH (n + 1) _ H1) as [H2 E2].
  split; [done|]. rewrite E2, app_assoc, E1. unfold comments_in. simpl. by rewrite <- !app_assoc.
Qed.

Lemma close_walk_spec st : walk_ok st -> (w_last st = None -> pending st = []) ->
  Forall attached_ok (close_walk st)
  /\ all_comments (close_walk st) = all_comments (out st) ++ (snd <$> pending st).
Proof.
  intros [Ho Hp] Hl. unfold close_walk.
  assert (Ho' : Forall attached_ok (out st)) by (eapply Forall_impl; [done|by intros ? []]).
  destruct (pending st) as [|p ps] eqn:Ep; [by rewrite app_nil_r|].
  destruct (w_last st) as [[a n]|]; [|by specialize (Hl eq_refl)]. clear Hl.
  set (fresh := {| anchor := a; at_line := n; leading := []; trailing := None; following := p :: ps |}).
  assert (Hf : attached_ok fresh) by (split_and!; cbn; [constructor|done|done]).
  assert (Hk : kept_comments fresh = snd <$> p :: ps) by done.
  destruct (last (out st)) as [e|] eqn:El.
  - apply last_Some in El as [front Ef]. rewrite Ef in *. rewrite removelast_last.
    apply Forall_app in Ho as [Ho [[He Hfe] _]%Forall_cons]. apply Forall_app in Ho' as [Ho' _].
    destruct (at_line e =? n).
    + split.
      * apply Forall_app. split; [done|]. constructor; [|constructor]. destruct e, He as (? & ? & _). by split_and!.
      * rewrite !all_comments_app, !all_comments_one, <- app_assoc. f_equal.
        destruct e. cbn in Hfe. subst. unfold kept_comments. cbn. by rewrite app_nil_r, <- app_assoc.
    + split.
      * apply Forall_app. split; [apply Forall_app; split; [done|by constructor]|by constructor].
      * by rewrite all_comments_app, all_comments_one, Hk.
  - apply last_None in El. rewrite El. split; [by constructor|]. by rewrite all_comments_one, Hk.
Qed.

(** A line with nothing but a comment on it is one the parser skips. *)
Lemma content_empty_skipped raw : trim (split_comment raw).1 = [] -> skipped raw.
Proof.
  intros H. destruct (split_comment_parts false raw) as [E Hc]. fold (split_comment raw) in *.
  destruct (split_comment raw) as [content cm]. cbn [fst snd] in *.
  assert (Hw : Forall (fun c => is_whitespace c = true) content).
  { unfold trim, trim_by in H. destruct (trim_start_suffix is_whitespace content) as (w & Ew & Hw).
    destruct (trim_end_prefix is_whitespace (trim_start_by is_whitespace content)) as (w2 & Ew2 & Hw2).
    rewrite H in Ew2. simpl in Ew2. rewrite Ew, Ew2. apply Forall_app. by split. }
  unfold skipped, trim, trim_by. rewrite E, trim_start_all by done.
  destruct cm as [c|]; simpl; [|done]. destruct (Hc c eq_refl) as [r ->].
  change (trim_start_by is_whitespace (35 :: r)) with (35 :: r).
  destruct (trim_end_comment r) as [r' Er]. unfold trim_end in Er. by rewrite Er.
Qed.
Lemma anchor_line_last cs t st : w_last (anchor_line cs t st).2 = w_last st.
Proof. unfold anchor_line. repeat case_match; by destruct st. Qed.
Lemma walk_line_last cs n l st : w_last (walk_line cs n l st) = None -> w_last st = None /\ skipped l.
Proof.
  unfold walk_line. destruct (split_comment l) as [content cm] eqn:Es.
  destruct (trim content) as [|x t] eqn:Et.
  - intros H. split; [destruct cm; by destruct st|]. apply content_empty_skipped. by rewrite Es.
  - destruct (anchor_line cs (x :: t) st) as [an st1]. by destruct st1.
Qed.
Lemma walk_lines_last cs n ls st : w_last (walk_lines cs n ls st) = None -> w_last st = None /\ Forall skipped ls.
Proof.
  revert n st. induction ls as [|l ls IH]; intros n st; simpl; [done|].
  intros H. apply IH in H as [H Hs]. apply walk_line_last in H as [H Hl]. split; [done|by constructor].
Qed.

Lemma parse_has_content cs s p : parse s = Ok p -> w_last (walk_lines cs 1 (lines (strip_bom s)) walk0) <> None.
Proof.
  intros Hp Hn. apply walk_lines_last in Hn as [_ Hs].
  destruct (steps_skips _ (view parsing0) Hs 1 parsing0 eq_refl) as (st & E & Hv).
  unfold parse in Hp. rewrite E in Hp. cbn [mbind result_bind] in Hp. unfold finish_profile in Hp.
  assert (Hver : version st = None) by (by inversion Hv). by rewrite Hver in Hp.
Qed.

(** The comments found in a readable file are exactly its comments, in order. *)
Lemma comments_of_spec s p : parse s = Ok p ->
  Forall attached_ok (comments_of s (checks p))
  /\ all_comments (comments_of s (checks p)) = comments_in (lines (strip_bom s)).
Proof.
  intros Hp. unfold comments_of. pose proof (parse_has_content (checks p) s p Hp) as Hl.
  destruct (walk_lines_spec (checks p) 1 (lines (strip_bom s)) walk0 (lines_one_line _)) as [Hok E].
  { split; constructor. }
  destruct (close_walk_spec _ Hok) as [H1 H2]; [done|]. split; [done|]. by rewrite H2, E.
Qed.

(** ** Comments of a written file *)
Definition quiet (l : text) : Prop :=
  forall t, split_comment_at false (l ++ t) = prepend l (split_comment_at false t).

Lemma prepend_app a b r : prepend (a ++ b) r = prepend a (prepend b r).
Proof. unfold prepend. simpl. by rewrite app_assoc. Qed.
Lemma quiet_app a b : quiet a -> quiet b -> quiet (a ++ b).
Proof. intros Ha Hb t. by rewrite <- app_assoc, Ha, Hb, prepend_app. Qed.
Lemma quiet_plain l : Forall (fun c => c <> 34 /\ c <> 35) l -> quiet l.
Proof.
  induction 1 as [|c l [H1 H2] _ IH]; intros t; [simpl; by destruct (split_comment_at false t)|].
  change ((c :: l) ++ t) with (c :: (l ++ t)). cbn [split_comment_at].
  rewrite (proj2 (Z.eqb_neq c 34)), (proj2 (Z.eqb_neq c 35)), andb_false_r, IH by done. done.
Qed.

(** Inside a string. *)
Lemma inside_plain c t : c <> 34 -> c <> 92 -> split_comment_at true (c :: t) = prepend [c] (split_comment_at true t).
Proof. intros. cbn [split_comment_at]. zcompare. by rewrite andb_false_r. Qed.
Lemma inside_escape e t : split_comment_at true (92 :: e :: t) = prepend [92; e] (split_comment_at true t).
Proof. done. Qed.
Lemma hex_upper_plain d : 0 <= d -> hex_upper d <> 34 /\ hex_upper d <> 92 \/ 16 <= d.
Proof. unfold hex_upper. destruct (Z.ltb_spec d 10); lia. Qed.
Lemma inside_quote_char c t :
  split_comment_at true (quote_char_of c ++ t) = prepend (quote_char_of c) (split_comment_at true t).
Proof.
  unfold quote_char_of.
  destruct (Z.eqb_spec c 34); [apply inside_escape|]. destruct (Z.eqb_spec c 92); [apply inside_escape|].
  destruct (Z.eqb_spec c 10); [apply inside_escape|]. destruct (Z.eqb_spec c 9); [apply inside_escape|].
  destruct (Z.eqb_spec c 13); [apply inside_escape|].
  destruct (is_control c); [|by apply inside_plain].
  cbn [app]. rewrite inside_escape.
  rewrite !inside_plain by (match goal with |- hex_upper ?d <> _ => destruct (hex_upper_plain d); zlia end).
  done.
Qed.
Lemma inside_quote s t :
  split_comment_at true ((s ≫= quote_char_of) ++ t) = prepend (s ≫= quote_char_of) (split_comment_at true t).
Proof.
  induction s as [|c s IH]; [simpl; by destruct (split_comment_at true t)|].
  change ((c :: s) ≫= quote_char_of) with (quote_char_of c ++ (s ≫= quote_char_of)).
  by rewrite <- app_assoc, inside_quote_char, IH, <- prepend_app.
Qed.
Lemma quote_quiet s : quiet (quote s).
Proof.
  intros t. unfold quote. cbn [app]. rewrite <- app_assoc. cbn [app].
  change (split_comment_at false (34 :: ((s ≫= quote_char_of) ++ 34 :: t)))
    with (prepend [34] (split_comment_at true ((s ≫= quote_char_of) ++ 34 :: t))).
  rewrite inside_quote.
  change (split_comment_at true (34 :: t)) with (prepend [34] (split_comment_at false t)).
  by rewrite <- !prepend_app.
Qed.
Lemma assign_quiet k v : key_ok k -> quiet v -> quiet (assign k v).
Proof.
  intros [_ Hk] Hv. unfold assign. apply quiet_app; [|apply quiet_app; [apply quiet_plain; by repeat constructor|done]].
  apply quiet_plain. eapply Forall_impl; [by apply key_chars|]. intros c Hc%key_char_range. lia.
Qed.

Lemma check_lines_quiet c : Forall (fun al => quiet al.2) (check_lines c).
Proof.
  unfold check_lines. constructor; [apply quiet_plain; by repeat constructor|].
  cbn [fmap list_fmap]. repeat constructor; cbn [fst snd]; apply assign_quiet; try apply quote_quiet; done.
Qed.
Lemma profile_lines_quiet p : profile_ok p -> Forall (fun al => quiet al.2) (profile_lines p).
Proof.
  intros (_ & Hk & _). unfold profile_lines.
  constructor; [apply assign_quiet; [done|]; apply quiet_plain; by repeat constructor|].
  repeat (apply Forall_app; split).
  - destruct (name p); repeat constructor. apply assign_quiet; [done|apply quote_quiet].
  - destruct (bridge p); repeat constructor; apply quiet_plain; by repeat constructor.
  - destruct (settings p) as [|kv ss] eqn:E; [constructor|]. rewrite <- E in *. clear E.
    constructor; [apply quiet_plain; by repeat constructor|].
    apply Forall_fmap. eapply Forall_impl; [done|]. intros [k v] H. by apply assign_quiet, quote_quiet.
  - induction (checks p) as [|c cs IH]; [constructor|]. apply Forall_app. split; [apply check_lines_quiet|done].
Qed.

Lemma line_comment_comment c : comment_ok c -> line_comment c = [c].
Proof.
  intros (_ & (r & ->) & Hb). unfold line_comment, split_comment. cbn [split_comment_at]. simpl.
  f_equal. by apply trim_end_id.
Qed.
Lemma line_comment_content l tr : quiet l -> tail_ok tr -> line_comment (l ++ tail_of tr) = option_list tr.
Proof.
  intros Hq Ht. unfold line_comment, split_comment. rewrite Hq. destruct tr as [c|]; [|done].
  destruct Ht as (_ & (r & ->) & Hb). simpl. f_equal. by apply trim_end_id.
Qed.
Lemma comments_in_app a b : comments_in (a ++ b) = comments_in a ++ comments_in b.
Proof. unfold comments_in. by rewrite bind_app. Qed.
Lemma comments_in_comments cs : Forall comment_ok cs -> comments_in cs = cs.
Proof.
  induction 1 as [|c cs Hc _ IH]; [done|].
  change (comments_in (c :: cs)) with (line_comment c ++ comments_in cs). by rewrite line_comment_comment, IH.
Qed.

(** Every comment but copies of the header line, which a written file has once. *)
Definition ordinary (cs : list text) : list text := List.filter (fun t => negb (text_eqb t HEADER)) cs.
Lemma ordinary_app a b : ordinary (a ++ b) = ordinary a ++ ordinary b.
Proof. apply List.filter_app. Qed.
Lemma ordinary_twice a : ordinary (ordinary a) = ordinary a.
Proof.
  induction a as [|c a IH]; [done|]. unfold ordinary in *. simpl.
  destruct (negb (text_eqb c HEADER)) eqn:E; simpl; [by rewrite E, IH|done].
Qed.
Lemma ordinary_perm a b : a ≡ₚ b -> ordinary a ≡ₚ ordinary b.
Proof.
  unfold ordinary. induction 1 as [|x a b _ IH|x y a|a b c _ IH1 _ IH2]; simpl; [done| | |by rewrite IH1].
  - destruct (negb _); [by rewrite IH|done].
  - repeat destruct (negb _); try done. constructor.
Qed.

Lemma comments_beside kept c a l i : kept !! i = Some c -> attached_ok c -> quiet l ->
  ordinary (comments_in (beside kept (Some i) a l)) = ordinary (kept_comments c).
Proof.
  intros Hi (H1 & H2 & H3) Hq. unfold beside. cbn [mbind option_bind]. rewrite Hi, !comments_in_app.
  assert (Hb : comments_in (if opens_table a then [[]] else []) = []) by (by destruct (opens_table a)).
  assert (Hlead : comments_in (leading_lines c) = ordinary (snd <$> leading c)).
  { unfold leading_lines. apply comments_in_comments. rewrite list.Forall_forall in *. intros t Ht.
    apply H1. apply list_elem_of_In in Ht. apply List.filter_In in Ht as [Ht _]. by apply list_elem_of_In. }
  rewrite Hb, Hlead, (comments_in_comments (snd <$> following c)) by done.
  replace (comments_in [l ++ tail_of (trailing c)]) with (option_list (trailing c)).
  - unfold kept_comments. rewrite !ordinary_app, ordinary_twice. done.
  - unfold comments_in. simpl. by rewrite app_nil_r, line_comment_content.
Qed.
Lemma comments_beside_none kept a l : quiet l -> comments_in (beside kept None a l) = [].
Proof.
  intros Hq. unfold beside. rewrite comments_in_app. simpl.
  replace (comments_in (if opens_table a then [[]] else [])) with (@nil text) by (by destruct (opens_table a)).
  unfold comments_in. simpl. rewrite app_nil_r, <- (app_nil_r l). by apply (line_comment_content l None).
Qed.

(** ** What is taken and what is left *)
Lemma find_unused_spec used kept a i : find_unused used kept a = Some i ->
  exists c, kept !! i = Some c /\ anchor c = a
            /\ unused used kept ≡ₚ c :: unused (<[i := true]> used) kept.
Proof.
  revert kept i. induction used as [|u used IH]; intros [|k kept] i; simpl; try done.
  destruct (negb u && bool_decide (anchor k = a)) eqn:E.
  - intros [= <-]. apply andb_true_iff in E as [Hu Ha%bool_decide_eq_true]. exists k. destruct u; [done|].
    by split_and!.
  - destruct (find_unused used kept a) as [j|] eqn:Ef; simpl; [|done]. intros [= <-].
    destruct (IH kept j Ef) as (c & Hc & Ha & Hp). exists c. split_and!; [done|done|].
    simpl. destruct u; simpl; [done|]. rewrite Hp. constructor.
Qed.

Lemma all_comments_perm a b : a ≡ₚ b -> all_comments a ≡ₚ all_comments b.
Proof. intros H. unfold all_comments. by rewrite H. Qed.

Lemma render_conserves kept used ls : Forall attached_ok kept -> Forall (fun al => quiet al.2) ls ->
  let '(used', body) := render_from kept used ls in
  ordinary (comments_in body) ++ ordinary (all_comments (unused used' kept))
  ≡ₚ ordinary (all_comments (unused used kept)).
Proof.
  intros Hk H. revert used. induction H as [|[a l] ls Hl _ IH]; intros used; [cbn; done|]. cbn [render_from].
  specialize (IH (mark_used (find_unused used kept a) used)).
  destruct (render_from kept (mark_used _ used) ls) as [used' rest].
  rewrite comments_in_app, ordinary_app, <- app_assoc, IH. clear IH.
  destruct (find_unused used kept a) as [i|] eqn:E; simpl mark_used.
  - destruct (find_unused_spec _ _ _ _ E) as (c & Hc & _ & Hp).
    rewrite (comments_beside kept c a l i) by (done || by eapply Forall_lookup_1).
    rewrite (ordinary_perm _ _ (all_comments_perm _ _ Hp)).
    unfold all_comments. rewrite bind_cons, ordinary_app. done.
  - rewrite comments_beside_none by done. done.
Qed.

Lemma unused_all kept : unused ((fun _ => false) <$> kept) kept = kept.
Proof. induction kept as [|k kept IH]; [done|]. rewrite fmap_cons. cbn [unused app]. by rewrite IH. Qed.
Lemma orphan_comments kept : o_comment <$> (kept ≫= orphans_of) = all_comments kept.
Proof.
  induction kept as [|k kept IH]; [done|]. unfold all_comments in *. rewrite !bind_cons, fmap_app, IH. f_equal.
  unfold orphans_of, kept_comments. rewrite !fmap_app, <- !list_fmap_compose.
  f_equal. f_equal. by destruct (trailing k).
Qed.

Lemma render_lines_of p kept : profile_ok p -> Forall attached_ok kept ->
  lines (render p kept).1 = HEADER :: (render_lines p kept).2.
Proof.
  intros Hp Hk. destruct (chain_profile p Hp) as (t & Hc).
  pose proof (render_from_lines kept ((fun _ => false) <$> kept) _ Hk (chain_content _ _ _ Hc)) as Hl.
  unfold render, render_lines. destruct (render_from _ _ _) as [used ls]. cbn [fst snd] in *.
  assert (Hall : Forall line_ok (HEADER :: ls)) by (constructor; [exact (comment_line _ header_comment)|exact Hl]).
  rewrite lines_newlines; [done| |]; (eapply Forall_impl; [exact Hall|by intros ? []]).
Qed.

Lemma rewrite_over_reads_back p existing new orphans :
  profile_ok p -> rewrite_over p existing = Ok (new, orphans) -> parse new = Ok p.
Proof.
  intros Hp. unfold rewrite_over. destruct (parse existing) as [was|e] eqn:E.
  - destruct (comments_of_spec existing was E) as [Hk _]. intros H. injection H as H.
    change new with (new, orphans).1. rewrite <- H. by apply parse_render.
  - destruct (first_comment 1 (lines existing)); [done|]. intros. simplify_eq. apply parse_render; [done|constructor].
Qed.

(** C33: Writing a profile over a readable file keeps it a file of exactly that profile, and
    loses no comment: what the new file holds and what is handed back as orphans are,
    together, every comment the old file held, each as often as it held it. (Copies of the
    header line are left out of the count: a written file has it once.) *)
Theorem rewriting_keeps_comments p was existing :
  profile_ok p -> parse existing = Ok was ->
  exists new orphans, rewrite_over p existing = Ok (new, orphans) /\ parse new = Ok p
    /\ ordinary (comments_in (lines new)) ++ ordinary (o_comment <$> orphans)
       ≡ₚ ordinary (comments_in (lines (strip_bom existing))).
Proof.
  intros Hp He. destruct (comments_of_spec existing was He) as [Hk Hc].
  set (kept := comments_of existing (checks was)) in *.
  exists (render p kept).1, (render p kept).2. split_and!.
  - unfold rewrite_over. rewrite He. fold kept. by destruct (render p kept).
  - by apply parse_render.
  - rewrite render_lines_of by done.
    pose proof (render_conserves kept ((fun _ => false) <$> kept) (profile_lines p) Hk (profile_lines_quiet p Hp)) as H.
    unfold render, render_lines. destruct (render_from _ _ _) as [used ls]. cbn [fst snd].
    rewrite unused_all, Hc in H. rewrite orphan_comments, <- H. done.
Qed.

(** A file with a note beside each thing, over which a profile without the check is written. *)
Definition edited_file : text :=
  ([txt "# measured 2026-10-01"; txt "version = 1 # one"; txt "  # about the name";
   assign (txt "name") (quote (txt "a # b")) ++ txt "   # trailing"; txt "[settings]"; txt "# gain"; assign (txt "gain") (txt "2");
   txt "[[check]]"] ++ (snd <$> drop 1 (check_lines {| format := BindsDir; path := txt "p"; setting := txt "s"; wants := []; tell := [] |}))
  ++ [txt "# the end"]) ≫= newline.
Definition edited_profile : Profile :=
  {| name := Some (txt "b"); bridge := Required; settings := [(txt "gain", txt "3")]; checks := [] |}.

Example edited_orphans :
  match rewrite_over edited_profile edited_file with Ok (_, os) => map o_comment os | Err _ => [] end = [txt "# the end"].
Proof. vm_compute. reflexivity. Qed.

Lemma rewriting_keeps_comments_witness :
  exists was new orphans, parse edited_file = Ok was
    /\ rewrite_over edited_profile edited_file = Ok (new, orphans) /\ parse new = Ok edited_profile.
Proof.
  assert (Hp : profile_ok edited_profile) by (apply (parse_profile_ok (to_toml edited_profile)); vm_compute; reflexivity).
  destruct (parse edited_file) as [was|e] eqn:E; [|exfalso; revert E; vm_compute; discriminate].
  destruct (rewriting_keeps_comments edited_profile was edited_file Hp E) as (new & orphans & H1 & H2 & _).
  exists was, new, orphans. split; [reflexivity|]. split; [exact H1|exact H2].
Defined.
