(* ===== verification/ProfileStore.v ===== *)
(** * ProfileStore: the profiles directory (crates/tobii-config/src/profiles.rs)

    One file per game, named by its app id. Which names are this program's, reading one
    profile and listing them all, with the built-in ones behind, and saving one over what
    is there. *)
From stdpp Require Import gmap.
From S2P Require Import Prelude F64 Floats Utf8 Text Decimal Paths Disk KeyVal Commands Store Profiles ProfileEdit.

(** ** Names *)
Definition is_appid (s : text) : bool :=
  match s with
  | c :: cs => is_ascii_digit c && negb (c =? 48) && forallb is_ascii_digit cs && (zlen s <=? 10)
  | [] => false
  end.
Definition is_profile_file (name : text) : bool :=
  match strip_suffix FILE_SUFFIX (default name (strip_suffix ATOMIC_TMP_SUFFIX name)) with
  | Some base => is_appid base
  | None => false
  end.
Definition path_in (d appid : text) : text := path_join d (appid ++ FILE_SUFFIX).
Definition profiles_dir (env : text -> option text) : text := path_join (config_dir env) PROFILES_DIR.
Definition profile_path (env : text -> option text) (appid : text) : text := path_in (profiles_dir env) appid.

(** ** Reading *)
Inductive Origin := File (path : text) | Builtin.
Record Loaded := { origin : Origin; profile : Profile }.
Inductive LoadError :=
| Unreadable (o : Origin) (why : text)
| Malformed (o : Origin) (error : ParseError)
| NotAnAppId (s : text).

Section Dir.
(** [io::Error]'s [Display], and the game profiles built into the program. *)
Context (why : io_error -> text).

Definition find_builtin (builtin : list (text * text)) (appid : text) : option text :=
  snd <$> List.find (fun b => text_eqb b.1 appid) builtin.
Definition load_from (f : Fs) (d : text) (builtin : list (text * text)) (appid : text) : result LoadError (option Loaded) :=
  if negb (is_appid appid) then Err (NotAnAppId appid)
  else
    let path := path_in d appid in
    match read_to_string f path with
    | Ok s => match parse s with
              | Ok p => Ok (Some {| origin := File path; profile := p |})
              | Err e => Err (Malformed (File path) e)
              end
    | Err NotFound =>
        match find_builtin builtin appid with
        | Some s => match parse s with
                    | Ok p => Ok (Some {| origin := Builtin; profile := p |})
                    | Err e => Err (Malformed Builtin e)
                    end
        | None => Ok None
        end
    | Err e => Err (Unreadable (File path) (why e))
    end.

Record Listing := {
  profiles : list (text * Loaded);
  problems : list LoadError;
  strays : list text;
  leftovers : list text;
}.
Definition listing0 : Listing := {| profiles := []; problems := []; strays := []; leftovers := [] |}.

Definition appid_le (a b : text) : bool :=
  match (zlen a ?= zlen b) with Lt => true | Gt => false | Eq => match text_cmp a b with Gt => false | _ => true end end.
Definition text_le (a b : text) : bool := match text_cmp a b with Gt => false | _ => true end.
Definition sorted (l : Listing) : Listing :=
  {| profiles := sort_by (fun a b => appid_le a.1 b.1) (profiles l);
     problems := problems l;
     strays := sort_by text_le (strays l);
     leftovers := sort_by text_le (leftovers l) |}.

(** The loop over [builtin]. *)
Definition list_builtin (out : Listing) (b : text * text) : Listing :=
  match parse b.2 with
  | Ok p => {out with profiles := profiles out ++ [(b.1, {| origin := Builtin; profile := p |})] }
  | Err e => {out with problems := problems out ++ [Malformed Builtin e] }
  end.
(** [iter_mut().find(..)]: the entry of this game, replaced, or a new one. *)
Fixpoint put_profile (appid : text) (l : Loaded) (ps : list (text * Loaded)) : list (text * Loaded) :=
  match ps with
  | [] => [(appid, l)]
  | (id, old) :: ps => if text_eqb id appid then (id, l) :: ps else (id, old) :: put_profile appid l ps
  end.
(** The app id a name stands for. *)
Definition appid_of (name : text) : option text :=
  a ← strip_suffix FILE_SUFFIX name; if is_appid a then Some a else None.
Definition list_name (f : Fs) (d : text) (out : Listing) (name : text) : Listing :=
  match appid_of name with
  | None => if is_profile_file name then {out with leftovers := leftovers out ++ [name] }
            else {out with strays := strays out ++ [name] }
  | Some appid =>
      match load_from f d [] appid with
      | Ok (Some l) => {out with profiles := put_profile appid l (profiles out)}
      | Ok None => out
      | Err e => {out with problems := problems out ++ [e] }
      end
  end.
(** [entries] is what [read_dir] gives, in any order. *)
Definition list_from (f : Fs) (d : text) (entries : result io_error (list text)) (builtin : list (text * text)) : Listing :=
  let out := foldl list_builtin listing0 builtin in
  match entries with
  | Ok names => sorted (foldl (list_name f d) out (sort_by text_le names))
  | Err NotFound => sorted out
  | Err e => sorted {out with problems := problems out ++ [Unreadable (File d) (why e)] }
  end.

(** ** Saving *)
Definition save_to (os : nat -> outcome) (d appid : text) (p : Profile) : Io (list Orphan) := fun w =>
  if negb (is_appid appid) then (Err InvalidInput, w)
  else
    let path := path_in d appid in
    match match read_to_string (fs w) path with
          | Ok t => match rewrite_over p t with
                    | Ok r => Ok r
                    | Err _ => Err InvalidInput
                    end
          | Err NotFound => Ok (to_toml p, [])
          | Err e => Err e
          end with
    | Err e => (Err e, w)
    | Ok (body, orphans) => (_ ← write_atomic os path (utf8_encode body); mret orphans) w
    end.
End Dir.

(** ** Everything written is text *)
Definition profile_text (p : Profile) : Prop :=
  match name p with Some n => scalars n | None => True end /\
  Forall (fun kv => scalars kv.1 /\ scalars kv.2) (settings p) /\
  Forall (fun c => scalars (format_as_str (format c)) /\ scalars (path c) /\ scalars (setting c) /\ scalars (wants c) /\
                   scalars (tell c)) (checks p).

Lemma quote_char_text c : is_char c = true -> scalars (quote_char_of c).
Proof.
  intros Hc. unfold quote_char_of. repeat (case_match; [by apply scalars_dec|]). destruct (is_control c); [|by constructor].
  assert (Hh : forall d, is_char (hex_upper (d mod 16)) = true).
  { intros d. pose proof (Z.mod_pos_bound d 16 ltac:(lia)). unfold hex_upper, is_char. destruct (Z.ltb_spec (d mod 16) 10); lia. }
  do 2 (constructor; [done|]). do 4 (constructor; [apply Hh|]). constructor.
Qed.
Lemma quote_text s : scalars s -> scalars (quote s).
Proof.
  intros H. unfold quote. constructor; [done|]. apply scalars_app. split; [|by constructor].
  induction H as [|c s Hc _ IH]; [constructor|]. apply scalars_app. split; [by apply quote_char_text|done].
Qed.
Lemma assign_text k v : scalars k -> scalars v -> scalars (assign k v).
Proof. intros Hk Hv. apply scalars_app. split; [done|]. apply scalars_app. split; [by apply scalars_dec|done]. Qed.

Lemma profile_lines_text p : profile_text p -> Forall (fun al => scalars al.2) (profile_lines p).
Proof.
  intros (Hn & Hs & Hc). unfold profile_lines. constructor; [by apply scalars_dec|].
  repeat apply Forall_app_2.
  - destruct (name p); [|constructor]. constructor; [|constructor]. apply assign_text; [by apply scalars_dec|by apply quote_text].
  - destruct (bridge p); [constructor|..]; (constructor; [by apply scalars_dec|constructor]).
  - destruct (settings p) as [|kv ss] eqn:E; [constructor|]. rewrite <- E in *. constructor; [by apply scalars_dec|].
    apply Forall_fmap. eapply Forall_impl; [exact Hs|]. intros [k v] [? ?]. by apply assign_text, quote_text.
  - induction Hc as [|c cs (H1 & H2 & H3 & H4 & H5) _ IH]; [constructor|]. apply Forall_app. split; [|done].
    constructor; [by apply scalars_dec|]. cbn [fmap list_fmap].
    repeat (constructor; [apply assign_text; [by apply scalars_dec|by apply quote_text]|]). constructor.
Qed.

Lemma beside_text kept hit a line : Forall scalars (all_comments kept) -> scalars line ->
  Forall scalars (beside kept hit a line).
Proof.
  intros Hk Hl. unfold beside. apply Forall_app. split; [destruct (opens_table a); repeat constructor|].
  destruct (hit ≫= _) as [c|] eqn:E; [|by repeat constructor].
  assert (Hc : Forall scalars (kept_comments c)).
  { destruct hit as [i|]; [|done]. cbn in E. apply list_elem_of_lookup_2 in E.
    apply elem_of_Permutation in E as [k' E]. unfold all_comments in Hk. rewrite E in Hk. by apply Forall_app in Hk as [Hk _]. }
  unfold kept_comments in Hc. rewrite !Forall_app in Hc. destruct Hc as (H1 & H2 & H3). repeat apply Forall_app_2.
  - unfold leading_lines. clear -H1. induction H1 as [|x l Hx _ IH]; [constructor|]. cbn. destruct (negb _); [by constructor|done].
  - constructor; [|constructor]. apply scalars_app. split; [done|]. destruct (trailing c); [|constructor].
    constructor; [done|]. by inversion H2.
  - done.
Qed.
Lemma render_from_text kept used ls : Forall scalars (all_comments kept) -> Forall (fun al => scalars al.2) ls ->
  Forall scalars (render_from kept used ls).2.
Proof.
  intros Hk Hl. revert used. induction Hl as [|[a line] ls Hl _ IH]; intros used; [constructor|]. cbn [render_from].
  specialize (IH (mark_used (find_unused used kept a) used)). destruct (render_from _ _ ls) as [u rest]. cbn [snd] in *.
  apply Forall_app. split; [by apply beside_text|done].
Qed.
Lemma render_text p kept : profile_text p -> Forall scalars (all_comments kept) -> scalars (render p kept).1.
Proof.
  intros Hp Hk. unfold render, render_lines.
  pose proof (render_from_text kept ((fun _ => false) <$> kept) _ Hk (profile_lines_text p Hp)) as H.
  destruct (render_from _ _ _) as [u ls]. cbn [fst snd] in *. apply scalars_lines. constructor; [by apply scalars_dec|done].
Qed.
Lemma comments_in_text ls : Forall scalars ls -> Forall scalars (comments_in ls).
Proof.
  induction 1 as [|l ls Hl _ IH]; [constructor|]. apply Forall_app. split; [|done]. unfold line_comment.
  destruct (split_comment_parts false l) as [E _]. fold (split_comment l) in E. destruct (split_comment l) as [a [c|]]; [|constructor].
  cbn in *. constructor; [|constructor]. apply trim_end_piece. rewrite E in Hl. by apply Forall_app in Hl as [_ Hl].
Qed.
Lemma rewrite_over_text p existing new orphans : profile_text p -> scalars existing ->
  rewrite_over p existing = Ok (new, orphans) -> scalars new.
Proof.
  intros Hp He. unfold rewrite_over. destruct (parse existing) as [was|e] eqn:E.
  - destruct (comments_of_spec existing was E) as [_ Hc]. intros H. injection H as H.
    change new with (new, orphans).1. rewrite <- H. apply render_text; [done|]. rewrite Hc.
    apply comments_in_text, lines_pieces. unfold strip_bom. destruct (strip_prefix [BOM] existing) as [r|] eqn:Er; [|done].
    apply strip_prefix_some in Er. rewrite Er in He. by apply Forall_app in He as [_ He].
  - destruct (first_comment 1 (lines existing)); [done|]. intros. simplify_eq. apply render_text; [done|constructor].
Qed.

(** ** The order of app ids is the order of the numbers *)
Lemma number_bounds s v : digits_value 10 s = Some v -> 0 <= v < 10 ^ zlen s.
Proof.
  intros H. split; [by eapply digits_value_nonneg|]. revert v H. induction s as [|c s IH] using rev_ind; intros v H.
  { injection H as <-. done. }
  unfold digits_value in *. rewrite foldl_snoc in H. destruct (foldl _ _ s) as [n|] eqn:E; [|done].
  specialize (IH n eq_refl). cbn in H. destruct (to_digit 10 c) as [d|] eqn:Ed; [|done]. cbn in H. injection H as <-.
  assert (Hd : d < 10). { unfold to_digit in Ed. repeat case_match; simplify_eq; lia. }
  rewrite zlen_app. change (zlen [c]) with 1. rewrite Z.pow_add_r by (lia || apply zlen_nonneg). lia.
Qed.
Lemma digit_step c s v : is_ascii_digit c = true -> digits_value 10 (c :: s) = Some v ->
  exists u, digits_value 10 s = Some u /\ v = (c - 48) * 10 ^ zlen s + u.
Proof.
  intros Hc. revert v. induction s as [|x s IH] using rev_ind; intros v H.
  - exists 0. split; [done|]. change (zlen []) with 0. unfold digits_value in H. cbn [foldl mbind option_bind] in H.
    replace c with (48 + (c - 48)) in H by lia. rewrite to_digit_dec in H by (unfold is_ascii_digit, between in Hc; lia).
    injection H as <-. lia.
  - rewrite app_comm_cons in H. unfold digits_value in H. rewrite foldl_snoc in H.
    destruct (foldl _ _ (c :: s)) as [n|] eqn:E; [|done]. destruct (IH n E) as (u & Hu & ->).
    cbn in H. destruct (to_digit 10 x) as [d|] eqn:Ed; [|done]. cbn in H. injection H as <-.
    exists (u * 10 + d). split; [by apply digits_value_snoc|]. rewrite zlen_app. change (zlen [x]) with 1.
    rewrite Z.pow_add_r by (lia || apply zlen_nonneg). lia.
Qed.

Lemma appid_digits s : is_appid s = true -> exists c r, s = c :: r /\ 49 <= c <= 57 /\ all_digits s.
Proof.
  destruct s as [|c r]; [done|]. intros (((Hc & H0)%andb_true_iff & Hr)%andb_true_iff & _)%andb_true_iff.
  exists c, r. apply negb_true_iff, Z.eqb_neq in H0. unfold is_ascii_digit, between in Hc.
  split_and!; [done|lia|lia|]. constructor; [unfold is_ascii_digit, between; lia|].
  apply List.Forall_forall. by rewrite forallb_forall in Hr.
Qed.

(** Digit strings of one length compare as their numbers do. *)
Lemma text_cmp_digits a b u v : zlen a = zlen b -> all_digits a -> all_digits b ->
  digits_value 10 a = Some u -> digits_value 10 b = Some v -> text_cmp a b = (u ?= v).
Proof.
  revert b u v. induction a as [|x a IH]; intros [|y b] u v Hl Ha Hb Hu Hv; rewrite ?zlen_nil, ?zlen_cons in Hl;
    try (pose proof (zlen_nonneg a); lia); try (pose proof (zlen_nonneg b); lia).
  { injection Hu as <-. injection Hv as <-. done. }
  inversion Ha as [|? ? Hx Ha']; inversion Hb as [|? ? Hy Hb']; subst.
  destruct (digit_step x a u Hx Hu) as (u' & Hu' & ->). destruct (digit_step y b v Hy Hv) as (v' & Hv' & ->).
  assert (Hab : zlen a = zlen b) by lia. cbn. rewrite (IH b u' v') by done.
  pose proof (number_bounds a u' Hu'). pose proof (number_bounds b v' Hv'). rewrite <- Hab in *.
  destruct (Z.compare_spec x y) as [->|Hxy|Hxy].
  - destruct (Z.compare_spec u' v'); symmetry; [apply Z.compare_eq_iff|apply Z.compare_lt_iff|apply Z.compare_gt_iff]; lia.
  - symmetry. apply Z.compare_lt_iff. nia.
  - symmetry. apply Z.compare_gt_iff. nia.
Qed.
Lemma appid_le_numeric a b : is_appid a = true -> is_appid b = true ->
  exists u v, digits_value 10 a = Some u /\ digits_value 10 b = Some v /\ appid_le a b = (u <=? v).
Proof.
  intros (x & a' & -> & Hx & Ha)%appid_digits (y & b' & -> & Hy & Hb)%appid_digits.
  destruct (digits_defined _ Ha) as [u Hu]. destruct (digits_defined _ Hb) as [v Hv]. exists u, v. split_and!; [done..|].
  assert (Dx : is_ascii_digit x = true) by (by inversion Ha). assert (Dy : is_ascii_digit y = true) by (by inversion Hb).
  destruct (digit_step x a' u Dx Hu) as (u' & Hu' & Eu). destruct (digit_step y b' v Dy Hv) as (v' & Hv' & Ev).
  pose proof (number_bounds _ u Hu). pose proof (number_bounds _ v Hv).
  pose proof (number_bounds _ u' Hu'). pose proof (number_bounds _ v' Hv').
  assert (Hlow : forall (n m : Z), 0 <= n < m -> 10 ^ (1 + n) <= 10 ^ m) by (intros; apply Z.pow_le_mono_r; lia).
  unfold appid_le. rewrite !zlen_cons in *. pose proof (zlen_nonneg a'). pose proof (zlen_nonneg b').
  destruct (Z.compare_spec (1 + zlen a') (1 + zlen b')) as [E|E|E].
  - rewrite (text_cmp_digits (x :: a') (y :: b') u v) by (done || rewrite !zlen_cons; lia).
    unfold Z.leb. by destruct (u ?= v).
  - symmetry. apply Z.leb_le. pose proof (Hlow (zlen a') (zlen b') ltac:(lia)). nia.
  - symmetry. apply Z.leb_gt. pose proof (Hlow (zlen b') (zlen a') ltac:(lia)). nia.
Qed.

(** ** Listing *)
Lemma appid_of_profile_file name a : appid_of name = Some a -> is_appid a = true /\ is_profile_file name = true.
Proof.
  unfold appid_of. destruct (strip_suffix FILE_SUFFIX name) as [b|] eqn:E; [|done]. cbn [mbind option_bind].
  destruct (is_appid b) eqn:Eb; [|done]. intros H. assert (a = b) as -> by congruence. split; [done|].
  assert (Ht : strip_suffix ATOMIC_TMP_SUFFIX name = None).
  { unfold strip_suffix in *. destruct (strip_prefix (rev FILE_SUFFIX) (rev name)) as [r|] eqn:Er; [|done].
    apply strip_prefix_some in Er. rewrite Er. reflexivity. }
  unfold is_profile_file. rewrite Ht. cbn [from_option Datatypes.id]. by rewrite E.
Qed.

Section Listing.
Context (why : io_error -> text) (f : Fs) (d : text).

Definition listed (out : Listing) (names : list text) : Prop :=
  strays out = List.filter (fun n => negb (is_profile_file n)) names /\
  leftovers out = List.filter (fun n => is_profile_file n && bool_decide (appid_of n = None)) names /\
  Forall (fun e => is_appid e.1 = true) (profiles out).

Lemma put_profile_ids a l ps : is_appid a = true -> Forall (fun e => is_appid e.1 = true) ps ->
  Forall (fun e => is_appid e.1 = true) (put_profile a l ps).
Proof.
  intros Ha. induction 1 as [|[i o] ps Hi Hps IH]; cbn; [by constructor|]. destruct (text_eqb i a); by constructor.
Qed.
Lemma filter_snoc {A} (p : A -> bool) l x : List.filter p (l ++ [x]) = List.filter p l ++ (if p x then [x] else []).
Proof. by rewrite List.filter_app. Qed.
Lemma list_name_listed out names n : listed out names -> listed (list_name why f d out n) (names ++ [n]).
Proof.
  intros (H1 & H2 & H3). unfold list_name, listed. rewrite !filter_snoc, <- H1, <- H2.
  destruct (appid_of n) as [a|] eqn:E.
  - destruct (appid_of_profile_file n a E) as [Ha Hn]. assert (Hd : bool_decide (Some a = None) = false) by (by apply bool_decide_eq_false).
    rewrite Hn, Hd. cbn [negb andb]. rewrite !app_nil_r. destruct out. destruct (load_from _ _ _ _ _) as [[l|]|]; cbn in *; split_and!; try done.
    by apply put_profile_ids.
  - destruct out. destruct (is_profile_file n); cbn in *; rewrite ?bool_decide_eq_true_2, ?app_nil_r by done; done.
Qed.
Lemma list_names_listed names out seen : listed out seen -> listed (foldl (list_name why f d) out names) (seen ++ names).
Proof.
  revert out seen. induction names as [|n names IH]; intros out seen H; [by rewrite app_nil_r|].
  cbn [foldl]. rewrite cons_middle, app_assoc. by apply IH, list_name_listed.
Qed.
Lemma list_builtin_listed builtin out : Forall (fun b => is_appid b.1 = true) builtin -> listed out [] ->
  listed (foldl list_builtin out builtin) [].
Proof.
  intros Hb. revert out. induction Hb as [|b builtin Hb _ IH]; intros out (H1 & H2 & H3); [done|]. cbn [foldl]. apply IH.
  unfold list_builtin. destruct out. destruct (parse b.2); cbn in *; split_and!; try done.
  apply Forall_app. split; [done|]. by repeat constructor.
Qed.
End Listing.

Lemma text_le_total a b : text_le a b = false -> text_le b a = true.
Proof. unfold text_le. rewrite (text_cmp_antisym a b). by destruct (text_cmp a b). Qed.
Lemma appid_le_total a b : appid_le a b = false -> appid_le b a = true.
Proof.
  unfold appid_le. rewrite (Z.compare_antisym (zlen a) (zlen b)), (text_cmp_antisym a b).
  destruct (zlen a ?= zlen b); [|done..]. by destruct (text_cmp a b).
Qed.
Lemma filter_perm {A} (p : A -> bool) l k : l ≡ₚ k -> List.filter p l ≡ₚ List.filter p k.
Proof.
  induction 1 as [|x l k _ IH|x y l|l k m _ IH1 _ IH2]; cbn; [done| | |by etrans].
  - destruct (p x); [by apply perm_skip|done].
  - destruct (p x), (p y); try done. apply perm_swap.
Qed.
(** The number an app id is. *)
Definition appid_number (s : text) : Z := default 0 (digits_value 10 s).

(** A listing accounts for every name of the directory: what another program wrote is a
    stray, a temporary file of this program's is a leftover, everything else is read as the
    profile of a game; and the games come in the order of their numbers. *)
Theorem listing_accounts_for_names (why : io_error -> text) (f : Fs) (d : text) (names : list text)
    (builtin : list (text * text)) :
  Forall (fun b => is_appid b.1 = true) builtin ->
  let l := list_from why f d (Ok names) builtin in
  strays l ≡ₚ List.filter (fun n => negb (is_profile_file n)) names /\
  leftovers l ≡ₚ List.filter (fun n => is_profile_file n && bool_decide (appid_of n = None)) names /\
  Sorted (fun a b => appid_number a.1 <= appid_number b.1) (profiles l).
Proof.
  intros Hb l. subst l. unfold list_from.
  assert (H0 : listed (foldl list_builtin listing0 builtin) []) by (apply list_builtin_listed; [done|]; by split_and!).
  pose proof (list_names_listed why f d (sort_by text_le names) _ _ H0) as (H1 & H2 & H3). cbn [app] in *.
  set (out := foldl (list_name why f d) _ _) in *. cbn [strays leftovers profiles sorted]. rewrite H1, H2. split_and!.
  - etrans; [apply sort_by_perm|apply filter_perm, sort_by_perm].
  - etrans; [apply sort_by_perm|apply filter_perm, sort_by_perm].
  - set (le := fun a b : text * Loaded => appid_le a.1 b.1).
    pose proof (sort_by_sorted le (profiles out) (fun a b => appid_le_total a.1 b.1)) as Hs.
    assert (Ha : Forall (fun e => is_appid e.1 = true) (sort_by le (profiles out))).
    { eapply Permutation_Forall; [symmetry; apply sort_by_perm|done]. }
    induction Hs as [|x k Hs IH Hx]; [constructor|]. inversion Ha as [|? ? Hx' Hk']; subst. constructor; [by apply IH|].
    destruct Hx as [|y k Hy]; constructor. inversion Hk' as [|? ? Hy' _]; subst.
    destruct (appid_le_numeric x.1 y.1 Hx' Hy') as (u & v & Hu & Hv & E).
    unfold ordered, le in Hy. rewrite E in Hy. unfold appid_number. rewrite Hu, Hv. cbn. by apply Z.leb_le.
Qed.

Definition shipped : list (text * text) := [(txt "359320", to_toml edited_profile)].
Lemma listing_accounts_for_names_witness :
  let names := [txt "999.toml"; txt "0999.toml"; txt "12.toml.tmp"; txt "12.toml~"] in
  let l := list_from (fun _ => []) empty_disk (txt "/p") (Ok names) shipped in
  strays l ≡ₚ [txt "0999.toml"; txt "12.toml~"] /\ leftovers l ≡ₚ [txt "12.toml.tmp"] /\
  Sorted (fun a b => appid_number a.1 <= appid_number b.1) (profiles l).
Proof.
  apply (listing_accounts_for_names (fun _ => []) empty_disk (txt "/p")
           [txt "999.toml"; txt "0999.toml"; txt "12.toml.tmp"; txt "12.toml~"] shipped).
  constructor; [vm_compute; reflexivity|constructor].
Defined.

(** A profile that was saved is the one that is loaded, over a file that was there or not,
    built-in profile or not: the new file decodes, parses, and says exactly the profile. *)
Theorem saved_profile_is_loaded (why : io_error -> text) (os : nat -> outcome) (d appid : text)
    (builtin : list (text * text)) (p : Profile) (w w' : World) (orphans : list Orphan) :
  profile_ok p -> profile_text p -> tidy (fs w) -> save_to os d appid p w = (Ok orphans, w') ->
  load_from why (fs w') d builtin appid = Ok (Some {| origin := File (path_in d appid); profile := p |}).
Proof.
  intros Hp Ht T E. unfold save_to in E. unfold load_from. destruct (is_appid appid); [cbn [negb] in *|done].
  set (path := path_in d appid) in *.
  assert (Hw : forall body os', parse body = Ok p -> scalars body ->
            (_ ← write_atomic os path (utf8_encode body); mret os') w = (Ok orphans, w') ->
            read_to_string (fs w') path = Ok body).
  { intros body os' _ Hb H. apply M_bind_inv in H as ([] & w1 & H1 & H2). unfold mret, M_ret in H2. simplify_eq.
    destruct (write_atomic_result _ _ _ _ _ _ T H1) as (_ & _ & V). unfold read_to_string, read_file. rewrite V by done.
    cbn. by rewrite decode_encode. }
  assert (Hend : exists body, read_to_string (fs w') path = Ok body /\ parse body = Ok p).
  { destruct (read_to_string (fs w) path) as [t|e] eqn:Er.
    - destruct (rewrite_over p t) as [[body os']|u] eqn:Eo; [|done]. exists body.
      assert (Hb : parse body = Ok p) by (by eapply rewrite_over_reads_back). split; [|done].
      eapply Hw; [done| |exact E]. eapply rewrite_over_text; [done| |done].
      unfold read_to_string in Er. destruct (read_file (fs w) path) as [b|]; [|done]. cbn in Er.
      destruct (utf8_decode b) as [s|] eqn:Ed; [|done]. injection Er as ->. by eapply decode_scalars.
    - destruct e; try done. exists (to_toml p).
      assert (Hb : parse (to_toml p) = Ok p) by (apply parse_render; [done|constructor]). split; [|done].
      eapply Hw; [done| |exact E]. apply render_text; [done|constructor]. }
  destruct Hend as (body & -> & ->). done.
Qed.

Lemma saved_profile_is_loaded_witness :
  let r := save_to (fun _ => Completes) (txt "/p") (txt "359320") edited_profile (start empty_disk) in
  load_from (fun _ => []) (fs r.2) (txt "/p") shipped (txt "359320") =
  Ok (Some {| origin := File (txt "/p/359320.toml"); profile := edited_profile |}).
Proof.
  intros r. apply (saved_profile_is_loaded (fun _ => []) (fun _ => Completes) (txt "/p") (txt "359320") shipped
                     edited_profile (start empty_disk) r.2 []).
  - apply (parse_profile_ok (to_toml edited_profile)). vm_compute. reflexivity.
  - split_and!; [by apply scalars_dec| |constructor]. constructor; [|constructor]. split; by apply scalars_dec.
  - exact empty_disk_tidy.
  - vm_compute. reflexivity.
Defined.
