(* ===== verification/ModelStore.v ===== *)
(** * ModelStore: the head-pose models the user may fetch (crates/tobii-headpose/src/model_store.rs)

    What is installed, fetching and installing on the file system of Disk, and the question
    whether upstream has something newer. [fetched_model_is_pinned]: whatever fails, the file
    a model is loaded from is what it was or has the pinned digest.
    [installed_is_not_verified] is where a doc comment promises more. *)
From stdpp Require Import gmap.
From S2P Require Import Prelude Utf8 Text Bytelines Paths Disk Store Sha256.

Record ModelSource := {
  name : text; file : text; url : text; commit : text; repo_path : text; blob_sha : text; sha256 : text; size : Z }.
Definition HEAD_POSE : ModelSource := {|
  name := txt "opentrack head-pose (small)"; file := txt "head-pose-0.5-small.onnx";
  url := txt "https://raw.githubusercontent.com/opentrack/opentrack/03a0e69b02a11c425e2f07c728686ff7f2d6517a/tracker-neuralnet/models/head-pose-0.5-small.onnx";
  commit := txt "03a0e69b02a11c425e2f07c728686ff7f2d6517a"; repo_path := txt "tracker-neuralnet/models/head-pose-0.5-small.onnx";
  blob_sha := txt "52f4c5f3da0110bb4862610051fdbad5cb3195ff";
  sha256 := txt "7c14f84114fb9eca89759d8a36350c6faae2b4187258cae07afb77a93c2d7eec"; size := 12919981 |}.
Definition HEAD_LOCALIZER : ModelSource := {|
  name := txt "opentrack head localizer"; file := txt "head-localizer.onnx";
  url := txt "https://raw.githubusercontent.com/opentrack/opentrack/03a0e69b02a11c425e2f07c728686ff7f2d6517a/tracker-neuralnet/models/head-localizer.onnx";
  commit := txt "03a0e69b02a11c425e2f07c728686ff7f2d6517a"; repo_path := txt "tracker-neuralnet/models/head-localizer.onnx"; blob_sha := [];
  sha256 := txt "f26679fe5e01a08dab0b3b9b586b613c68622775e0b8e14ddae53f30391f7402"; size := 279403 |}.
Definition SOURCES : list ModelSource := [HEAD_POSE; HEAD_LOCALIZER].
Definition partial_name (s : ModelSource) : text := file s ++ txt ".partial".
Definition download_name (s : ModelSource) : text := file s ++ txt ".download".
Definition file_names : list text := SOURCES ≫= fun s => [file s; partial_name s; download_name s].

Inductive Status := Missing | Ready | Corrupt (found : text).
#[global] Instance status_eq_dec : EqDecision Status. Proof. solve_decision. Defined.
Inductive StoreError := StoreIo (e : io_error) | Digest (expected found : text) | NoFetcher | FetchFailed (e : text).
(** How a process ended, as a value and as [ExitStatus] shows it, and what it printed. *)
Record Output := { success : bool; status_text : text; stdout : bytes; stderr : bytes }.
(** What a fetcher does: it may write the file it is given, and it ends. *)
Record Reply := { reply : result io_error Output; wrote : option bytes }.

Section Store.
(** [env] are the variables [config_dir] reads. *)
Context (env : text -> option text) (os : nat -> outcome) (io_message : io_error -> text).
Context (fetcher : nat -> text -> list text -> Reply).

Definition model_dir : text := path_join (config_dir env) (txt "models").
Definition path_of (s : ModelSource) : text := path_join model_dir (file s).
Definition download_path (s : ModelSource) : text := path_join model_dir (download_name s).
Definition partial_path (s : ModelSource) : text := path_join model_dir (partial_name s).

(** ** What is installed *)
Definition status (f : Fs) (s : ModelSource) : Status :=
  match visible f (path_of s) with
  | None => Missing
  | Some b => let found := hex_digest b in if text_eqb found (sha256 s) then Ready else Corrupt found
  end.
(** [metadata].len() *)
Definition status_quick (f : Fs) (s : ModelSource) : Status :=
  match visible f (path_of s) with
  | None => Missing
  | Some b => if zlen b =? size s then Ready else status f s
  end.
(** The path in the configuration [installed] answers with. *)
Definition installed (f : Fs) (s : ModelSource) : option text :=
  match status_quick f s with Ready => Some (path_of s) | _ => None end.

(** ** Fetching *)
Definition attempt {A} (m : Io A) : Io (result io_error A) := fun w => let '(r, w) := m w in (Ok r, w).
(** [?] on an I/O error, which becomes [StoreError::Io]. *)
Definition or_store {A B} (m : Io A) (k : A -> Io (result StoreError B)) : Io (result StoreError B) :=
  r ← attempt m; match r with Ok a => k a | Err e => mret (Err (StoreIo e)) end.
(** [std::fs::read], [std::fs::write] *)
Definition read_bytes (p : text) : Io bytes := syscall os (fun f => (read_file f p, f)) unchanged.
Definition write_file (p : text) (b : bytes) : Io unit := i ← file_create os p; write_all os i b.

Definition install (s : ModelSource) (b : bytes) : Io (result StoreError text) :=
  let found := hex_digest b in
  if negb (text_eqb found (sha256 s)) then mret (Err (Digest (sha256 s) found))
  else or_store (_ ← create_dir_all os model_dir; _ ← write_file (partial_path s) b; rename os (partial_path s) (path_of s))
         (fun _ => mret (Ok (path_of s))).
Definition install_from_file (s : ModelSource) (p : text) : Io (result StoreError text) := or_store (read_bytes p) (install s).

Definition curl_args (s : ModelSource) (dest : text) : list text :=
  [txt "-L"; txt "--fail"; txt "--silent"; txt "--show-error"; txt "-o"; dest; url s].
Definition wget_args (s : ModelSource) (dest : text) : list text := [txt "-q"; txt "-O"; dest; url s].
Definition run_fetcher (prog : text) (args : list text) (dest : text) : Io (result io_error Output) := fun w =>
  let r := fetcher (calls w) prog args in
  (Ok (reply r), match wrote r with Some b => (write_file dest b w).2 | None => w end).
(** The loop: [Ok None] when no program was found, an error's text, or a success. *)
Fixpoint attempts_loop (attempts : list (text * list text)) (dest : text) : Io (option (result text unit)) :=
  match attempts with
  | [] => mret None
  | (prog, args) :: attempts =>
      r ← run_fetcher prog args dest;
      match r with
      | Err NotFound => attempts_loop attempts dest
      | Err e => mret (Some (Err (io_message e)))
      | Ok out => mret (Some (if success out then Ok tt else Err (trim (lossy_text (stderr out)))))
      end
  end.
Definition download_to (s : ModelSource) (dest : text) : Io (result StoreError unit) :=
  r ← attempts_loop [(txt "curl", curl_args s dest); (txt "wget", wget_args s dest)] dest;
  match r with
  | None => mret (Err NoFetcher)
  | Some (Ok _) => mret (Ok tt)
  | Some (Err e) => _ ← ignore (remove_file os dest); mret (Err (FetchFailed e))
  end.
Definition fetch (s : ModelSource) : Io (result StoreError text) :=
  or_store (create_dir_all os model_dir) (fun _ =>
    let tmp := download_path s in
    r ← download_to s tmp;
    match r with
    | Err e => mret (Err e)
    | Ok _ => or_store (read_bytes tmp) (fun b => _ ← ignore (remove_file os tmp); install s b)
    end).

(** ** What upstream has *)
Inductive Update := UpToDate | Newer (sha date : text) | Unknown (why : text).
Definition json_first_string (body key : text) : option text :=
  '(_, rest) ← split_once_str (34 :: key ++ [34]) body;
  rest ← strip_prefix [58] (trim_start rest);
  rest ← strip_prefix [34] (trim_start rest);
  '(v, _) ← split_once (Z.eqb 34) rest;
  Some v.
Definition update_args (s : ModelSource) : list text :=
  [txt "-sL"; txt "--fail"; txt "-H"; txt "Accept: application/vnd.github+json"; txt "-H"; txt "User-Agent: tobii-linux";
   txt "https://api.github.com/repos/opentrack/opentrack/contents/" ++ repo_path s].
Definition check_update (n : nat) (s : ModelSource) : Update :=
  if bool_decide (blob_sha s = []) then Unknown (txt "no pinned blob hash to compare against")
  else match reply (fetcher n (txt "curl") (update_args s)) with
       | Err e => Unknown (txt "could not run curl: " ++ io_message e)
       | Ok o =>
           if negb (success o) then
             match trim (lossy_text (stderr o)) with
             | [] => Unknown (txt "GitHub request failed (" ++ status_text o ++ txt ")")
             | e => Unknown (txt "GitHub request failed: " ++ e)
             end
           else match json_first_string (lossy_text (stdout o)) (txt "sha") with
                | Some sha => if text_eqb sha (blob_sha s) then UpToDate else Newer sha []
                | None => Unknown (txt "could not read a blob hash from the reply")
                end
       end.

(** ** The model's file *)
#[local] Opaque hex_digest path_join.
Section Run.
Context (s : ModelSource) (f0 : Fs) (bare_file : bare (file s)).
Definition pinned (b : bytes) : Prop := hex_digest b = sha256 s.
(** Nothing but a rename of a file with the pinned digest touches the model's name. *)
Definition old_or_pinned (f : Fs) : Prop :=
  visible f (path_of s) = visible f0 (path_of s) \/ exists b, visible f (path_of s) = Some b /\ pinned b.
Definition waiting (f : Fs) : Prop := tidy f /\ visible f (path_of s) = visible f0 (path_of s).
Definition has_file (p : text) (n : bytes) (i : nat) (f : Fs) : Prop :=
  waiting f /\ dir f !! p = Some i /\ inodes f !! i = Some {| content := n; synced := false |}.
Definition done_with (f : Fs) : Prop := tidy f /\ exists b, visible f (path_of s) = Some b /\ pinned b.

Lemma waiting_safe f : waiting f -> old_or_pinned f. Proof. intros [_ H]. by left. Qed.
Hint Resolve waiting_safe : core.
Lemma has_file_waiting p n i f : has_file p n i f -> waiting f. Proof. by intros []. Qed.
Hint Resolve has_file_waiting : core.
Lemma set_file p n m i f : p <> path_of s -> waiting f -> dir f !! p = Some i -> has_file p m i (set_inode i {| content := m; synced := n |} f) \/ n = true.
Proof.
  intros Hp [T V] Hi. destruct n; [by right|left]. split_and!; [split; [done|]|done|apply lookup_insert_eq].
  rewrite <- V. apply visible_set_inode. intros E. by apply Hp, (proj2 T _ _ _ Hi E).
Qed.
Lemma make_file p : p <> path_of s -> triple old_or_pinned waiting (file_create os p) (has_file p []) waiting.
Proof.
  intros Hp. apply triple_syscall; [auto| |done]. intros f W. destruct (dir f !! p) as [i|] eqn:E; cbn [fst snd].
  - by destruct (set_file p false [] i f Hp W E).
  - destruct W as [T V]. split_and!; [split|apply lookup_insert_eq..]; [by apply tidy_fresh|].
    rewrite <- V, visible_set_inode; [by apply visible_insert_ne|].
    intros H. apply (lookup_insert_Some (dir f)) in H as [[? _]|[_ H]]; [done|]. apply (proj1 T) in H. lia.
Qed.
Lemma fill_file p b : p <> path_of s -> triple old_or_pinned waiting (write_file p b) (fun _ f => exists i, has_file p b i f) waiting.
Proof.
  intros Hp. eapply triple_bind; [by apply make_file|]. intros i.
  assert (H : forall m f, has_file p [] i f -> has_file p m i (append_to i m f)).
  { intros m f (W & Hi & Hn). unfold append_to. rewrite Hn. cbn. by destruct (set_file p false m i f Hp W Hi). }
  apply triple_syscall; [eauto| |].
  - intros f Hf. exists i. by apply H.
  - intros f n Hf. eapply has_file_waiting. by apply H.
Qed.
Lemma forget p : p <> path_of s -> triple old_or_pinned waiting (ignore (remove_file os p)) (fun _ => waiting) waiting.
Proof.
  intros Hp. apply triple_ignore, triple_syscall; [auto| |done]. intros f [T V].
  destruct (dir f !! p) eqn:E; cbn [fst snd]; [|done]. split; [by apply tidy_delete|]. rewrite <- V. by apply visible_delete_ne.
Qed.
Lemma to_its_place p b : p <> path_of s -> pinned b ->
  triple old_or_pinned (fun f => exists i, has_file p b i f) (rename os p (path_of s)) (fun _ => done_with) waiting.
Proof.
  intros Hp Hb. apply triple_syscall; [by intros f (i & [W _]); apply waiting_safe| |by intros f n (i & [W _])].
  intros f (i & (T & V) & Hi & Hn). unfold rename_effect. rewrite Hi, bool_decide_eq_false_2.
  2:{ intros E. by apply Hp, (proj2 T _ _ _ Hi E). }
  split; [by apply tidy_move|]. exists b. split; [|done].
  unfold visible. cbn [fst snd dir inodes set_dir]. rewrite lookup_insert_eq. cbn. by rewrite Hn.
Qed.

(** The result of a step that answers with an error as a value. *)
Definition answered {A} (ok : A -> Fs -> Prop) (r : result StoreError A) (f : Fs) : Prop :=
  match r with Ok a => ok a f | Err _ => waiting f end.
Lemma triple_or_store {A B} P (m : Io A) (Q : A -> Fs -> Prop) (k : A -> Io (result StoreError B)) ok E :
  triple old_or_pinned P m Q waiting -> (forall a, triple old_or_pinned (Q a) (k a) (answered ok) E) ->
  triple old_or_pinned P (or_store m k) (answered ok) E.
Proof.
  intros Hm Hk. unfold or_store. apply triple_bind with (fun r f => match r with Ok a => Q a f | Err _ => waiting f end).
  - intros w Hp Hs. destruct (Hm w Hp Hs) as [H1 H2]. unfold attempt. by destruct (m w) as [[a|e] w1].
  - intros [a|e]; [apply Hk|]. by intros w Hw Hs.
Qed.
Lemma names_apart : partial_path s <> path_of s /\ download_path s <> path_of s.
Proof.
  pose proof (bare_relative _ bare_file) as Ha. destruct bare_file as (Hne & _).
  assert (H : forall x, is_absolute (file s ++ x) = false) by (intros x; by destruct (file s)).
  unfold partial_path, download_path, path_of, partial_name, download_name.
  split; intros E%join_inj; try (by apply H || done); apply (f_equal length) in E; rewrite length_app in E; cbn in E; lia.
Qed.
Lemma install_ok b : triple old_or_pinned waiting (install s b) (answered (fun p f => p = path_of s /\ done_with f)) (fun _ => False).
Proof.
  destruct names_apart as [Hp _]. unfold install. destruct (text_eqb (hex_digest b) (sha256 s)) eqn:Eh; cbn [negb]; [|by intros w Hw Hs].
  assert (Hb : pinned b) by (by apply bool_decide_eq_true in Eh).
  apply triple_or_store with (fun _ => done_with); [|by intros [] w Hw Hs].
  apply triple_bind with (fun _ => waiting); [by apply triple_syscall; [auto| |]|]. intros [].
  eapply triple_bind; [by apply fill_file|]. intros []. by apply to_its_place.
Qed.
Lemma fetcher_ok prog args p : p <> path_of s -> triple old_or_pinned waiting (run_fetcher prog args p) (fun _ => waiting) (fun _ => False).
Proof.
  intros Hp w Hw Hs. unfold run_fetcher. destruct (wrote _) as [b|]; [|done].
  destruct (fill_file p b Hp w Hw Hs) as [H1 H2]. destruct (write_file p b w) as [[u|e] w1]; cbn in *; [|done].
  split; [done|]. destruct H2 as (i & W & _). exact W.
Qed.
Lemma attempts_ok p : p <> path_of s -> forall l, triple old_or_pinned waiting (attempts_loop l p) (fun _ => waiting) (fun _ => False).
Proof.
  intros Hp. induction l as [|[prog args] l IH]; [by intros w Hw Hs|]. cbn [attempts_loop].
  eapply triple_bind; [by apply fetcher_ok|]. intros [o|[]]; [by intros w Hw Hs|exact IH|by intros w Hw Hs..].
Qed.
Lemma download_ok p : p <> path_of s -> triple old_or_pinned waiting (download_to s p) (answered (fun _ => waiting)) (fun _ => False).
Proof.
  intros Hp. eapply triple_bind; [by apply attempts_ok|]. intros [[[]|e]|]; [by intros w Hw Hs| |by intros w Hw Hs].
  intros w Hw Hs. destruct (forget p Hp w Hw Hs) as [H1 H2]. unfold mbind, M_bind, ignore in *. destruct (remove_file os p w) as [r w1]. done.
Qed.
Lemma fetch_ok : triple old_or_pinned waiting (fetch s) (answered (fun p f => p = path_of s /\ done_with f)) (fun _ => False).
Proof.
  destruct names_apart as [_ Hp]. apply triple_or_store with (fun _ => waiting); [by apply triple_syscall; [auto| |]|]. intros [].
  eapply triple_bind; [by apply download_ok|]. intros [[]|e]; [|by intros w Hw Hs].
  apply triple_or_store with (fun _ => waiting).
  - apply triple_syscall; [auto| |done]. intros f W. cbn. by destruct (read_file f (download_path s)).
  - intros b. apply triple_bind with (fun _ => waiting); [|intros []; apply install_ok].
    intros w Hw Hs. destruct (forget _ Hp w Hw Hs) as [H1 H2]. unfold ignore in *. destruct (remove_file os _ w) as [r w1]. done.
Qed.
End Run.

(** C40: The model that is loaded is never a half-written one and never another one. Whatever
    calls fail, and whatever the fetcher downloads, at every moment of a fetch the model's
    file is as it was or holds bytes with the pinned digest; a fetch that succeeds leaves the
    latter and both checks then say so, and one that fails leaves the file as it was. *)
Theorem fetched_model_is_pinned (s : ModelSource) (f0 : Fs) : bare (file s) -> tidy f0 ->
  let '(r, w) := fetch s (start f0) in
  Forall (old_or_pinned s f0) (fs w :: past w) /\
  match r with
  | Ok (Ok p) => p = path_of s /\ (exists b, visible (fs w) p = Some b /\ hex_digest b = sha256 s) /\
      status (fs w) s = Ready /\ installed (fs w) s = Some p
  | Ok (Err _) => visible (fs w) (path_of s) = visible f0 (path_of s)
  | Err _ => False
  end.
Proof.
  intros Hb Ht. pose proof (run_triple _ _ _ _ _ f0 (fetch_ok s f0 Hb) (conj Ht eq_refl)) as [Hp H].
  destruct (fetch s (start f0)) as [[[p|e]|e] w]; cbn [fst snd answered] in *; [|by split; [constructor; [left; apply H|]|apply H]|done].
  destruct H as (-> & _ & b & Hv & Hd). split; [constructor; [right; eauto|done]|]. unfold installed, status_quick, status. rewrite Hv.
  assert (Et : text_eqb (hex_digest b) (sha256 s) = true) by (by apply bool_decide_eq_true). rewrite Et.
  split_and!; [done|eauto|done|by destruct (zlen b =? size s)].
Qed.
End Store.

(** A small model, on an empty disk, from a curl that delivers it and one that does not. *)
Definition abc : bytes := [x61; x62; x63].
Definition small_model : ModelSource := {|
  name := txt "small"; file := txt "small.onnx"; url := txt "https://example"; commit := []; repo_path := []; blob_sha := [];
  sha256 := hex_digest abc; size := 3 |}.
Definition no_fs : Fs := {| dir := ∅; older := []; inodes := ∅; next_ino := 0 |}.
Definition curl_gives (b : bytes) (n : nat) (prog : text) (args : list text) : Reply :=
  if text_eqb prog (txt "curl") then {| reply := Ok {| success := true; status_text := []; stdout := []; stderr := [] |}; wrote := Some b |}
  else {| reply := Err NotFound; wrote := None |}.
Definition no_env (v : text) : option text := None.
Lemma fetched_model_is_pinned_witness :
  let '(r, w) := fetch no_env (fun _ => Completes) (fun _ => []) (curl_gives abc) small_model (start no_fs) in
  r = Ok (Ok (path_of no_env small_model)) /\ status no_env (fs w) small_model = Ready.
Proof.
  pose proof (fetched_model_is_pinned no_env (fun _ => Completes) (fun _ => []) (curl_gives abc) small_model no_fs) as H.
  assert (E : (fetch no_env (fun _ => Completes) (fun _ => []) (curl_gives abc) small_model (start no_fs)).1 = Ok (Ok (path_of no_env small_model)))
    by (vm_compute; reflexivity).
  destruct (fetch no_env (fun _ => Completes) (fun _ => []) (curl_gives abc) small_model (start no_fs)) as [r w]. cbn [fst] in E. subst r.
  destruct H as (_ & _ & _ & Hs & _); [apply bare_dec; vm_compute; reflexivity| |split; [reflexivity|exact Hs]].
  split; intros p; [intros i H|intros q i H]; change ((∅ : gmap text nat) !! p = Some i) in H; rewrite lookup_empty in H; discriminate H.
Defined.
Example a_wrong_download_is_refused :
  (fetch no_env (fun _ => Completes) (fun _ => []) (curl_gives [x00; x61; x62]) small_model (start no_fs)).1 =
  Ok (Err (Digest (hex_digest abc) (hex_digest [x00; x61; x62]))).
Proof. vm_compute. reflexivity. Qed.

(** What counts as installed is the size alone: of a file of the right length with other
    bytes, [status] says that it is corrupt and [installed] that it may be loaded. *)
Definition wrong_model : Fs :=
  {| dir := {[ path_of no_env small_model := 0%nat ]}; older := []; inodes := {[ 0%nat := {| content := [x00; x61; x62]; synced := true |} ]}; next_ino := 1 |}.
Example installed_is_not_verified :
  status no_env wrong_model small_model = Corrupt (hex_digest [x00; x61; x62]) /\
  installed no_env wrong_model small_model = Some (path_of no_env small_model).
Proof. vm_compute. auto. Qed.
(** And the rename is not enough against a power loss, since nothing is synced before it:
    the name may then lead to anything. *)
Example a_power_loss_after_the_rename :
  let '(r, w) := install no_env (fun _ => Completes) small_model abc (start no_fs) in
  r = Ok (Ok (path_of no_env small_model)) /\ may_find (fs w) (path_of no_env small_model) (Some []).
Proof.
  assert (E : (install no_env (fun _ => Completes) small_model abc (start no_fs)).1 = Ok (Ok (path_of no_env small_model))) by (vm_compute; reflexivity).
  assert (Ed : dir (fs (install no_env (fun _ => Completes) small_model abc (start no_fs)).2) !! path_of no_env small_model = Some 0%nat) by (vm_compute; reflexivity).
  assert (Ei : inodes (fs (install no_env (fun _ => Completes) small_model abc (start no_fs)).2) !! 0%nat = Some {| content := abc; synced := false |}) by (vm_compute; reflexivity).
  destruct (install no_env _ small_model abc (start no_fs)) as [r w]. cbn [fst snd] in *. split; [done|].
  exists (dir (fs w)). split; [apply list_elem_of_here|]. rewrite Ed. exists {| content := abc; synced := false |}. split; [done|]. cbn. by eexists.
Qed.
Example sha_of_a_reply :
  json_first_string (txt "{ 'name': 'x', 'sha' : '52f4', 'sha': 'no' }") (txt "sha") = None /\
  json_first_string ((fun c => if c =? 39 then 34 else c) <$> txt "{ 'name': 'x', 'sha' : '52f4', 'sha': 'no' }") (txt "sha") = Some (txt "52f4").
Proof. vm_compute. auto. Qed.
