(* ===== verification/Games.v ===== *)
(** * Games: the output settings and their file (crates/tobii-output/src/games.rs)

    [OutputConfig], the setter [apply_key] that both the file and the command line go
    through, the writer and the reader. Whatever a file holds, the settings read from it
    are ones that are written and read back unchanged, and that no later stage panics on. *)
From S2P Require Import Prelude F64 Floats Utf8 Text Decimal KeyVal Paths Disk Tlv Commands HeadPose Fusion Store.

Definition DEFAULT_OPENTRACK_ADDR : text := txt "127.0.0.1:4242".
Definition DEFAULT_BRIDGE_PORT : Z := 4243.
Definition DEFAULT_RATE_HZ : f64 := of_int 60.

Record OutputConfig := {
  enabled : bool;
  keep_awake : bool;
  rate_hz : f64;
  filter_alpha : f64;
  filter_max_step_mm : f64;
  opentrack : option text;
  wake_for_opentrack : bool;
  bridge_port : option Z;
  joystick_full_deg : vec3;
  joystick : bool;
  wake_for_joystick : bool;
  cfg_view : ExtendedView;
}.

(** [OutputConfig::default()] *)
Definition default_config : OutputConfig :=
  {| enabled := false; keep_awake := false; rate_hz := DEFAULT_RATE_HZ; filter_alpha := DEFAULT_ALPHA;
     filter_max_step_mm := DEFAULT_MAX_STEP_MM; opentrack := Some DEFAULT_OPENTRACK_ADDR; wake_for_opentrack := true;
     bridge_port := Some DEFAULT_BRIDGE_PORT; joystick_full_deg := (of_int 70, of_int 35, of_int 20);
     joystick := true; wake_for_joystick := true; cfg_view := default_view |}.

(** ** Curves *)
Definition positive (v : f64) : bool := is_finite v && flt f64_zero v.
Definition curve_parse (s : text) : option Curve :=
  let s := trim s in
  if text_eqb s (txt "linear") then Some Linear
  else if text_eqb s (txt "smoothstep") then Some Smoothstep
  else r ← strip_prefix (txt "power:") s; p ← parse_f64 (trim r); if positive p then Some (Power p) else None.
Definition to_config_string (c : Curve) : text :=
  match c with
  | Linear => txt "linear"
  | Smoothstep => txt "smoothstep"
  | Power p => txt "power:" ++ show_f64 p
  end.

(** ** Setting one key *)
(** [value.parse::<bool>().ok()] *)
Definition parse_bool (v : text) : option bool :=
  if text_eqb v (txt "true") then Some true else if text_eqb v (txt "false") then Some false else None.
Definition show_bool (b : bool) : text := if b then txt "true" else txt "false".
(** The closure [f], and its filters. *)
Definition finite (v : text) : option f64 := x ← parse_f64 v; if is_finite x then Some x else None.
Definition finite_if (p : f64 -> bool) (v : text) : option f64 := x ← finite v; if p x then Some x else None.
Definition above_zero (v : f64) : bool := flt f64_zero v.
Definition not_below_zero (v : f64) : bool := fle f64_zero v.
Definition unit_range (v : f64) : bool := fle f64_zero v && fle v (of_int 1).

(** [value.contains(['\n', '\r'])] *)
Definition breaks_line (v : text) : bool := existsb (fun ch => (ch =? 10) || (ch =? 13)) v.

(** Port 0 is how the file spells no port. *)
Definition port_of (p : Z) : option Z := if p =? 0 then None else Some p.

Definition apply_axis (rest value : text) (a : AxisResponse) : option AxisResponse :=
  if text_eqb rest (txt "deadzone_deg") then (fun v => {a with deadzone_deg := v}) <$> finite_if not_below_zero value
  else if text_eqb rest (txt "input_max_deg") then (fun v => {a with input_max_deg := v}) <$> finite_if above_zero value
  else if text_eqb rest (txt "output_max_deg") then (fun v => {a with output_max_deg := v}) <$> finite value
  else if text_eqb rest (txt "clamp_deg") then (fun v => {a with clamp_deg := v}) <$> finite_if not_below_zero value
  else if text_eqb rest (txt "curve") then (fun c => {a with curve := c}) <$> curve_parse value
  else None.
Definition set_yaw (a : AxisResponse) (c : OutputConfig) : OutputConfig :=
  {c with cfg_view := {cfg_view c with ev_yaw := a} }.
Definition set_pitch (a : AxisResponse) (c : OutputConfig) : OutputConfig :=
  {c with cfg_view := {cfg_view c with ev_pitch := a} }.

(** [apply_key]: the new settings, or [None] where the key or the value is refused. *)
Definition apply_key (c : OutputConfig) (key value : text) : option OutputConfig :=
  let named k := text_eqb key (txt k) in
  if named "enabled"%string then (fun b => {c with enabled := b}) <$> parse_bool value
  else if named "keep_awake"%string then (fun b => {c with keep_awake := b}) <$> parse_bool value
  else if named "rate_hz"%string then (fun v => {c with rate_hz := v}) <$> finite_if above_zero value
  else if named "filter_alpha"%string then (fun v => {c with filter_alpha := v}) <$> finite_if unit_range value
  else if named "filter_max_step_mm"%string then (fun v => {c with filter_max_step_mm := v}) <$> finite_if above_zero value
  else if named "opentrack"%string then
    if breaks_line value then None
    else Some {c with opentrack := match value with [] => None | _ => Some value end}
  else if named "wake_for_opentrack"%string then (fun b => {c with wake_for_opentrack := b}) <$> parse_bool value
  else if named "bridge_port"%string then
    (fun p => {c with bridge_port := port_of p}) <$> parse_uint 16 10 value
  else if named "joystick"%string then (fun b => {c with joystick := b}) <$> parse_bool value
  else if named "wake_for_joystick"%string then (fun b => {c with wake_for_joystick := b}) <$> parse_bool value
  else if named "joystick_yaw_full_deg"%string then
    (fun v => let '(_, p, r) := joystick_full_deg c in {c with joystick_full_deg := (v, p, r)}) <$> finite_if above_zero value
  else if named "joystick_pitch_full_deg"%string then
    (fun v => let '(y, _, r) := joystick_full_deg c in {c with joystick_full_deg := (y, v, r)}) <$> finite_if above_zero value
  else if named "joystick_roll_full_deg"%string then
    (fun v => let '(y, p, _) := joystick_full_deg c in {c with joystick_full_deg := (y, p, v)}) <$> finite_if above_zero value
  else if named "extended_view"%string then (fun b => {c with cfg_view := {cfg_view c with ev_enabled := b} }) <$> parse_bool value
  else if named "ev_hold_ms"%string then (fun v => {c with cfg_view := {cfg_view c with hold_ms := v} }) <$> parse_uint 64 10 value
  else match strip_prefix (txt "ev_yaw_") key with
       | Some r => (fun a => set_yaw a c) <$> apply_axis r value (ev_yaw (cfg_view c))
       | None => match strip_prefix (txt "ev_pitch_") key with
                 | Some r => (fun a => set_pitch a c) <$> apply_axis r value (ev_pitch (cfg_view c))
                 | None => None
                 end
       end.

(** ** The file *)
Definition entry (key value : text) : text := key ++ 32 :: 61 :: 32 :: value.
Definition quoted (s : text) : text := 34 :: s ++ [34].
Definition axis_lines (prefix : text) (a : AxisResponse) : list text :=
  [entry (prefix ++ txt "_deadzone_deg") (show_f64 (deadzone_deg a));
   entry (prefix ++ txt "_input_max_deg") (show_f64 (input_max_deg a));
   entry (prefix ++ txt "_output_max_deg") (show_f64 (output_max_deg a));
   entry (prefix ++ txt "_curve") (quoted (to_config_string (curve a)));
   entry (prefix ++ txt "_clamp_deg") (show_f64 (clamp_deg a))].
Definition banner : list text :=
  [txt "# tobii-linux game output — edit with `tobii games set KEY VALUE`";
   txt "#";
   txt "# keep_awake = true switches standby OFF: the tracker stays on, and";
   txt "#                 its illuminators lit, for as long as the hub runs.";
   txt "#                 Not a game-output setting — it is here because this";
   txt "#                 is the file the hub re-reads once a second.";
   txt "# opentrack = " ++ quoted [] ++ txt "  disables the opentrack sink";
   txt "# bridge_port = 0 disables the Wine-bridge sink";
   txt "# wake_for_opentrack = false stops a program bound to the opentrack";
   txt "#                 address from switching the tracker on by itself";
   txt "# wake_for_joystick = false stops the virtual joystick from doing the";
   txt "#                 same. With it off, a game reading those axes sees";
   txt "#                 them frozen at centre once the hub loses focus."].
Definition config_lines (c : OutputConfig) : list text :=
  let '(y, p, r) := joystick_full_deg c in
  [entry (txt "enabled") (show_bool (enabled c));
   entry (txt "keep_awake") (show_bool (keep_awake c));
   entry (txt "rate_hz") (show_f64 (rate_hz c));
   entry (txt "filter_alpha") (show_f64 (filter_alpha c));
   entry (txt "filter_max_step_mm") (show_f64 (filter_max_step_mm c));
   entry (txt "opentrack") (quoted (default [] (opentrack c)));
   entry (txt "wake_for_opentrack") (show_bool (wake_for_opentrack c));
   entry (txt "bridge_port") (show_uint (default 0 (bridge_port c)));
   entry (txt "joystick") (show_bool (joystick c));
   entry (txt "wake_for_joystick") (show_bool (wake_for_joystick c));
   entry (txt "joystick_yaw_full_deg") (show_f64 y);
   entry (txt "joystick_pitch_full_deg") (show_f64 p);
   entry (txt "joystick_roll_full_deg") (show_f64 r);
   entry (txt "extended_view") (show_bool (ev_enabled (cfg_view c)));
   entry (txt "ev_hold_ms") (show_uint (hold_ms (cfg_view c)))]
  ++ axis_lines (txt "ev_yaw") (ev_yaw (cfg_view c)) ++ axis_lines (txt "ev_pitch") (ev_pitch (cfg_view c)).
Definition config_to_toml (c : OutputConfig) : text := (banner ++ txt "[games]" :: config_lines c) ≫= newline.

Definition config_unquote (s : text) : text :=
  default s (r ← strip_prefix [34] s; strip_suffix [34] r).
(** One turn of [from_toml]'s loop: [in_games], and the settings so far. *)
Definition config_read_line (st : bool * OutputConfig) (line : text) : bool * OutputConfig :=
  let '(in_games, c) := st in
  let line := trim line in
  if match line with [] => true | ch :: _ => ch =? 35 end then st
  else if starts_with [91] line then (text_eqb line (txt "[games]"), c)
  else if negb in_games then st
  else match split_once (Z.eqb 61) line with
       | None => st
       | Some (key, val) =>
           let raw := trim val in
           let raw := if starts_with [34] raw then raw else trim (default [] (head (split_char 35 raw))) in
           (in_games, default c (apply_key c (trim key) (trim (config_unquote raw))))
       end.
Definition config_from_toml (s : text) : OutputConfig :=
  (foldl config_read_line (false, default_config) (lines s)).2.

Definition games_path (env : text -> option text) : text := beside_config env GAMES_TOML.
Definition save_output_config_to (os : nat -> outcome) (p : text) (c : OutputConfig) : Io unit :=
  write_atomic os p (utf8_encode (config_to_toml c)).
Definition load_output_config_from (f : Fs) (p : text) : OutputConfig :=
  match read_file f p with
  | Ok b => match utf8_decode b with
            | Some s => config_from_toml s
            | None => default_config
            end
  | Err _ => default_config
  end.

(** ** What the settings are kept to *)
Definition curve_ok (c : Curve) : Prop := match c with Power p => keeps p /\ above_zero p = true | _ => True end.
Record axis_ok (a : AxisResponse) : Prop := {
  ao_deadzone : keeps (deadzone_deg a) /\ not_below_zero (deadzone_deg a) = true;
  ao_input : keeps (input_max_deg a) /\ above_zero (input_max_deg a) = true;
  ao_output : keeps (output_max_deg a);
  ao_clamp : keeps (clamp_deg a) /\ not_below_zero (clamp_deg a) = true;
  ao_curve : curve_ok (curve a);
}.
Definition trimmed (s : text) : Prop := front_ok is_whitespace s /\ back_ok is_whitespace s.
Definition address_ok (a : text) : Prop := a <> [] /\ Forall (fun c => c <> 10 /\ c <> 13) a /\ trimmed a.
Record config_ok (c : OutputConfig) : Prop := {
  co_rate : keeps (rate_hz c) /\ above_zero (rate_hz c) = true;
  co_alpha : keeps (filter_alpha c) /\ unit_range (filter_alpha c) = true;
  co_step : keeps (filter_max_step_mm c) /\ above_zero (filter_max_step_mm c) = true;
  co_opentrack : match opentrack c with Some a => address_ok a | None => True end;
  co_port : match bridge_port c with Some p => 0 < p < 2 ^ 16 | None => True end;
  co_joystick : let '(y, p, r) := joystick_full_deg c in
    (keeps y /\ above_zero y = true) /\ (keeps p /\ above_zero p = true) /\ (keeps r /\ above_zero r = true);
  co_hold : is_u 64 (hold_ms (cfg_view c));
  co_yaw : axis_ok (ev_yaw (cfg_view c));
  co_pitch : axis_ok (ev_pitch (cfg_view c));
}.

(** *** Values read as they were written *)
Lemma finite_show v : keeps v -> finite (show_f64 v) = Some v.
Proof. intros [Hv Hf]. unfold finite. rewrite show_f64_reads_back by done. cbn. by rewrite Hf. Qed.
Lemma finite_if_show p v : keeps v -> p v = true -> finite_if p (show_f64 v) = Some v.
Proof. intros Hv Hp. unfold finite_if. rewrite finite_show by done. cbn. by rewrite Hp. Qed.
Lemma parse_show_bool b : parse_bool (show_bool b) = Some b.
Proof. by destruct b. Qed.
Lemma trim_trimmed s : trimmed s -> trim s = s.
Proof. intros []. by apply trim_id. Qed.
Lemma token_trimmed s : token s -> trimmed s.
Proof. intros H. by apply token_ends. Qed.
Lemma curve_text_trimmed c : curve_ok c -> trimmed (to_config_string c) /\ to_config_string c <> [] /\ one_line (to_config_string c).
Proof.
  destruct c as [|p|]; [by split; [|split; [|apply one_line_dec]]| |by split; [|split; [|apply one_line_dec]]].
  intros [[Hp _] _]. apply show_f64_token in Hp. split; [|split; [done|]].
  - split; [done|]. apply back_ok_app; [by destruct Hp|by apply token_trimmed].
  - apply one_line_app. split; [by apply one_line_dec|]. destruct Hp as [_ Hp]. eapply Forall_impl; [exact Hp|]. by intros x [].
Qed.
Lemma curve_reads_back c : curve_ok c -> curve_parse (to_config_string c) = Some c.
Proof.
  intros Hc. destruct (curve_text_trimmed c Hc) as (Ht & _ & _). unfold curve_parse. rewrite trim_trimmed by done.
  destruct c as [|p|]; [done| |done]. destruct Hc as [Hp Ha].
  change (to_config_string (Power p)) with (txt "power:" ++ show_f64 p).
  assert (Hne : forall w, match w with 112 :: _ => False | _ => True end -> text_eqb (txt "power:" ++ show_f64 p) w = false).
  { intros w Hw. apply bool_decide_eq_false. intros <-. exact Hw. }
  rewrite !Hne by exact I. rewrite strip_prefix_app. cbn [mbind option_bind].
  destruct Hp as [Hv Hf]. rewrite trim_trimmed by (apply token_trimmed; by apply show_f64_token).
  rewrite show_f64_reads_back by done. cbn [mbind option_bind]. unfold positive, above_zero in *. by rewrite Hf, Ha.
Qed.

(** One line, from the file to [apply_key]. *)
Lemma entry_token c c' k v ls r : plain_key k = true -> token v -> apply_key c k v = Some c' ->
  foldl config_read_line (true, c') ls = r -> foldl config_read_line (true, c) (entry k v :: ls) = r.
Proof.
  intros Hk Hv Ha Hr. cbn [foldl]. destruct (pair_line k (32 :: v) Hk) as (E1 & E2 & E3 & E4 & E5); [by apply token_back|].
  unfold config_read_line at 2, entry. rewrite E1, E2, E3. cbn [negb]. rewrite E4, E5. rewrite trim_space by done.
  assert (Hq : starts_with [34] v = false).
  { destruct Hv as [Hn Hv]. destruct Hv as [|x v (_ & _ & Hx & _)]; [done|]. unfold starts_with. cbn [strip_prefix]. by rewrite Hx. }
  rewrite Hq, token_no_hash by done. cbn [from_option Datatypes.id].
  assert (Hu : config_unquote v = v).
  { unfold config_unquote. unfold starts_with in Hq. by destruct (strip_prefix [34] v). }
  assert (Ht : trim v = v) by (by apply trim_trimmed, token_trimmed). rewrite Ht, Hu, Ht, Ha. exact Hr.
Qed.
Lemma entry_quoted c c' k v ls r : plain_key k = true -> trimmed v -> apply_key c k v = Some c' ->
  foldl config_read_line (true, c') ls = r -> foldl config_read_line (true, c) (entry k (quoted v) :: ls) = r.
Proof.
  intros Hk Hv Ha Hr. cbn [foldl]. destruct (pair_line k (32 :: quoted v) Hk) as (E1 & E2 & E3 & E4 & E5); [by apply quoted_back|].
  unfold config_read_line at 2, entry. rewrite E1, E2, E3. cbn [negb]. rewrite E4, E5.
  unfold quoted. rewrite trim_quotes. change (starts_with [34] (34 :: v ++ [34])) with true. cbv iota.
  assert (Hu : config_unquote (34 :: v ++ [34]) = v).
  { unfold config_unquote. change (strip_prefix [34] (34 :: v ++ [34])) with (Some (v ++ [34])). cbn [mbind option_bind].
    by rewrite strip_suffix_app. }
  rewrite Hu, trim_trimmed, Ha by done. exact Hr.
Qed.

Lemma show_bool_token b : token (show_bool b).
Proof. destruct b; (apply token_dec; [by vm_compute|done]). Qed.

(** The fields of explicit settings; what a key makes of a value written for it. *)
Ltac fields :=
  cbn [enabled keep_awake rate_hz filter_alpha filter_max_step_mm opentrack wake_for_opentrack bridge_port joystick_full_deg
       joystick wake_for_joystick cfg_view ev_enabled ev_yaw ev_pitch hold_ms deadzone_deg input_max_deg output_max_deg curve
       clamp_deg] in *.
Lemma keeps_f64 x : keeps x -> is_f64 x. Proof. by intros []. Qed.
(** What the file says of an address and of a port, and what is made of it. *)
Lemma address_written ot : match ot with Some a => address_ok a | None => True end ->
  exists a, default [] ot = a /\ trimmed a /\ breaks_line a = false /\
            match a with [] => None | _ => Some a end = ot.
Proof.
  intros H. exists (default [] ot). destruct ot as [a|]; [|done]. destruct H as (Hn & Hc & Ht).
  split; [done|]. split; [done|]. split; [|by destruct a]. cbn [from_option Datatypes.id]. clear -Hc. unfold breaks_line.
  induction Hc as [|x l [H1 H2] _ IH]; [done|]. cbn [existsb].
  by rewrite (proj2 (Z.eqb_neq _ _) H1), (proj2 (Z.eqb_neq _ _) H2).
Qed.
Lemma port_written bp : match bp with Some p => 0 < p < 2 ^ 16 | None => True end ->
  exists n, default 0 bp = n /\ is_u 16 n /\ port_of n = bp.
Proof.
  intros H. exists (default 0 bp). destruct bp as [p|]; [|done]. cbn [from_option Datatypes.id].
  split; [done|]. split; [unfold is_u; lia|]. unfold port_of. by rewrite (proj2 (Z.eqb_neq p 0)) by lia.
Qed.
Ltac open_key :=
  lazy -[finite_if finite above_zero not_below_zero unit_range parse_bool parse_uint curve_parse show_f64 show_uint show_bool
         to_config_string breaks_line port_of].
Ltac same_key :=
  open_key; rewrite ?finite_if_show, ?finite_show, ?parse_show_bool, ?parse_show_uint, ?curve_reads_back by (assumption || done);
  reflexivity.
Ltac next_token :=
  eapply entry_token;
  [done|first [apply show_bool_token|apply show_f64_token; by apply keeps_f64|apply show_uint_token; unfold is_u in *; lia]|same_key|].

Definition whole_line (l : text) : Prop := one_line l /\ back_ok (Z.eqb 13) l.
Lemma token_entry k v : plain_key k = true -> token v -> whole_line (entry k v).
Proof. intros Hk Hv. split; [apply token_line; [by apply plain_key_line|done]|apply token_back; [apply not_cr|done]]. Qed.
Lemma quoted_entry k v : plain_key k = true -> one_line v -> whole_line (entry k (quoted v)).
Proof. intros Hk Hv. split; [apply quoted_line; [by apply plain_key_line|done]|by apply quoted_back]. Qed.
Lemma number_entry k v : plain_key k = true -> keeps v -> whole_line (entry k (show_f64 v)).
Proof. intros Hk [Hv _]. by apply token_entry, show_f64_token. Qed.
Lemma flag_entry k b : plain_key k = true -> whole_line (entry k (show_bool b)).
Proof. intros Hk. apply token_entry; [done|apply show_bool_token]. Qed.
Lemma axis_lines_ok p a : plain_key (p ++ txt "_deadzone_deg") = true -> plain_key (p ++ txt "_input_max_deg") = true ->
  plain_key (p ++ txt "_output_max_deg") = true -> plain_key (p ++ txt "_curve") = true ->
  plain_key (p ++ txt "_clamp_deg") = true -> axis_ok a -> Forall whole_line (axis_lines p a).
Proof.
  intros H1 H2 H3 H4 H5 [[] [] ? [] ?]. unfold axis_lines.
  do 3 (constructor; [by apply number_entry|]). constructor; [by apply quoted_entry; [|apply curve_text_trimmed]|].
  constructor; [by apply number_entry|constructor].
Qed.
Lemma config_lines_ok c : config_ok c -> Forall whole_line (config_lines c).
Proof.
  intros Hc. pose proof (axis_lines_ok (txt "ev_yaw") _ eq_refl eq_refl eq_refl eq_refl eq_refl (co_yaw _ Hc)) as Hy.
  pose proof (axis_lines_ok (txt "ev_pitch") _ eq_refl eq_refl eq_refl eq_refl eq_refl (co_pitch _ Hc)) as Hp.
  destruct Hc as [[] [] [] Ho Hport Hj Hh _ _]. destruct (port_written _ Hport) as (n & En & [Hn _] & _).
  assert (Ha : one_line (default [] (opentrack c))).
  { destruct (opentrack c) as [a|]; [|constructor]. destruct Ho as (_ & Ho & _). eapply Forall_impl; [exact Ho|]. by intros x []. }
  unfold config_lines. destruct (joystick_full_deg c) as [[y p] r]. destruct Hj as ([] & [] & []).
  rewrite En. destruct Hh as [Hh _]. apply Forall_app. split; [|by apply Forall_app].
  do 2 (constructor; [by apply flag_entry|]). do 3 (constructor; [by apply number_entry|]).
  constructor; [by apply quoted_entry|]. constructor; [by apply flag_entry|].
  constructor; [by apply token_entry; [|apply show_uint_token]|]. do 2 (constructor; [by apply flag_entry|]).
  do 3 (constructor; [by apply number_entry|]). constructor; [by apply flag_entry|].
  constructor; [by apply token_entry; [|apply show_uint_token]|constructor].
Qed.

Lemma config_file_reads_back c : config_ok c -> config_from_toml (config_to_toml c) = c.
Proof.
  intros Hc. unfold config_from_toml, config_to_toml. rewrite lines_newlines.
  - change (foldl config_read_line (false, default_config) (banner ++ txt "[games]" :: config_lines c))
      with (foldl config_read_line (true, default_config) (config_lines c)).
    assert (E : foldl config_read_line (true, default_config) (config_lines c) = (true, c)); [|by rewrite E].
    destruct Hc as [[Hr1 Hr2] [Ha1 Ha2] [Hs1 Hs2] Ho Hp Hj Hh [[] [] ? [] ?] [[] [] ? [] ?]].
    destruct c as [? ? rate al st ot ? bp [[jy jp] jr] ? ? [? [] [] ?]]. fields.
    destruct Hj as ([] & [] & []). unfold config_lines, axis_lines. fields.
    destruct (address_written ot Ho) as (a & Ea & Hat & Hex & Hback). destruct (port_written bp Hp) as (n & En & Hn & Hport).
    rewrite Ea, En. cbn [app].
    do 5 next_token. eapply entry_quoted; [done|done|open_key; rewrite Hex; reflexivity|]. do 9 next_token.
    do 3 next_token. eapply entry_quoted; [done|by apply curve_text_trimmed|same_key|].
    do 4 next_token. eapply entry_quoted; [done|by apply curve_text_trimmed|same_key|]. next_token.
    cbn [foldl]. by rewrite Hback, Hport.
  - apply Forall_app. split; [by repeat (constructor; [by apply one_line_dec|])|]. constructor; [by apply one_line_dec|].
    eapply Forall_impl; [by apply config_lines_ok|]. by intros l [].
  - apply Forall_app. split; [by repeat constructor|]. constructor; [done|].
    eapply Forall_impl; [by apply config_lines_ok|]. by intros l [].
Qed.

(** ** Whatever a file holds *)
Lemma finite_inv v x : finite v = Some x -> keeps x.
Proof.
  unfold finite. destruct (parse_f64 v) as [y|] eqn:E; [|done]. cbn. destruct (is_finite y) eqn:Ef; [|done].
  intros [= <-]. split; [by eapply parse_f64_valid|done].
Qed.
Lemma finite_if_inv p v x : finite_if p v = Some x -> keeps x /\ p x = true.
Proof.
  unfold finite_if. destruct (finite v) as [y|] eqn:E; [|done]. cbn. destruct (p y) eqn:Ep; [|done].
  intros [= <-]. split; [by eapply finite_inv|done].
Qed.
Lemma curve_parse_ok v c : curve_parse v = Some c -> curve_ok c.
Proof.
  unfold curve_parse. destruct (text_eqb _ _); [by intros [= <-]|]. destruct (text_eqb _ _); [by intros [= <-]|].
  destruct (strip_prefix _ _) as [r|]; [|done]. cbn [mbind option_bind]. destruct (parse_f64 (trim r)) as [p|] eqn:E; [|done].
  cbn [mbind option_bind]. unfold positive. destruct (is_finite p) eqn:Ef; [|done]. cbn [andb].
  destruct (flt f64_zero p) eqn:Ep; [|done]. intros [= <-]. split; [split; [by eapply parse_f64_valid|done]|done].
Qed.
Lemma parse_uint_range w v n : parse_uint w 10 v = Some n -> is_u w n.
Proof.
  unfold parse_uint. set (ds := match v with 43 :: ((_ :: _) as r) => r | _ => v end). destruct ds as [|c ds]; [done|].
  destruct (digits_value 10 (c :: ds)) as [m|] eqn:E; [|done]. cbn [mbind option_bind].
  destruct (m <? 2 ^ w) eqn:El; [|done]. intros [= <-]. apply digits_value_nonneg in E. apply Z.ltb_lt in El. done.
Qed.
Lemma fmap_inv {A B} (f : A -> B) (o : option A) y : f <$> o = Some y -> exists x, o = Some x /\ f x = y.
Proof. destruct o as [x|]; [|done]. intros [= <-]. eauto. Qed.
Lemma breaks_line_false v : breaks_line v = false -> Forall (fun c => c <> 10 /\ c <> 13) v.
Proof.
  unfold breaks_line. induction v as [|c v IH]; [constructor|]. cbn [existsb].
  intros [[H1%Z.eqb_neq H2%Z.eqb_neq]%orb_false_iff Hv]%orb_false_iff. constructor; [done|by apply IH].
Qed.

Lemma apply_axis_ok r v a a' : axis_ok a -> apply_axis r v a = Some a' -> axis_ok a'.
Proof.
  intros [] H. destruct a. unfold apply_axis in H.
  repeat (destruct (text_eqb r _); [apply fmap_inv in H as (x & Hx & <-);
    constructor; fields; try done; first [by apply finite_if_inv in Hx|by apply finite_inv in Hx|by apply curve_parse_ok in Hx]|]).
  done.
Qed.
Lemma apply_key_ok c k v c' : config_ok c -> trimmed v -> apply_key c k v = Some c' -> config_ok c'.
Proof.
  intros Hc Hv H. destruct c as [? ? ? ? ? ? ? ? [[jy jp] jr] ? ? [? ay ap ?]]. destruct Hc. fields. unfold apply_key in H. fields.
  destruct co_joystick0 as (? & ? & ?).
  repeat (destruct (text_eqb k _); [first
    [ apply fmap_inv in H as (x & Hx & <-); constructor; fields; try done;
      first [by apply finite_if_inv in Hx|by apply parse_uint_range in Hx|idtac]
    | destruct (breaks_line v) eqn:Eb; [done|]; injection H as <-; constructor; fields; try done ]|]).
  - destruct v as [|x v]; [done|]. split; [done|]. split; [by apply breaks_line_false|done].
  - apply parse_uint_range in Hx as [Hx0 Hx1]. unfold port_of. destruct (Z.eqb_spec x 0); [done|]. cbn. lia.
  - destruct (strip_prefix (txt "ev_yaw_") k) as [r|].
    + apply fmap_inv in H as (x & Hx & <-). constructor; fields; try done. exact (apply_axis_ok r v ay x co_yaw0 Hx).
    + destruct (strip_prefix (txt "ev_pitch_") k) as [r|]; [|done].
      apply fmap_inv in H as (x & Hx & <-). constructor; fields; try done. exact (apply_axis_ok r v ap x co_pitch0 Hx).
Qed.

Lemma trim_is_trimmed s : trimmed (trim s).
Proof. apply trim_ends. Qed.
Lemma config_read_line_ok st line : config_ok st.2 -> config_ok (config_read_line st line).2.
Proof.
  intros Hc. destruct st as [g c]. cbn [snd] in Hc. unfold config_read_line. destruct (match trim line with [] => true | ch :: _ => ch =? 35 end); [done|].
  destruct (starts_with [91] (trim line)); [done|]. destruct (negb g); [done|]. destruct (split_once _ _) as [[k v]|]; [|done].
  cbn [snd]. set (raw := if starts_with [34] (trim v) then _ else _).
  destruct (apply_key c (trim k) (trim (config_unquote raw))) as [c'|] eqn:E; [|done]. cbn [from_option Datatypes.id].
  eapply apply_key_ok; [exact Hc|apply trim_is_trimmed|exact E].
Qed.
Lemma default_config_ok : config_ok default_config.
Proof.
  constructor; cbn [default_config rate_hz filter_alpha filter_max_step_mm opentrack bridge_port joystick_full_deg cfg_view
                    default_view hold_ms ev_yaw ev_pitch]; try (by vm_compute); try (by constructor; vm_compute).
  split; [by vm_compute|]. split; [|done]. by apply breaks_line_false.
Qed.
Lemma config_from_toml_ok s : config_ok (config_from_toml s).
Proof.
  unfold config_from_toml. assert (H : config_ok (false, default_config).2) by exact default_config_ok. revert H.
  generalize (false, default_config). induction (lines s) as [|l ls IH]; intros st H; [done|]. by apply IH, config_read_line_ok.
Qed.
Lemma loaded_config_ok f p : config_ok (load_output_config_from f p).
Proof.
  unfold load_output_config_from. destruct (read_file f p) as [b|]; [|apply default_config_ok].
  destruct (utf8_decode b); [apply config_from_toml_ok|apply default_config_ok].
Qed.

(** The output settings survive their file: exactly the settings [apply_key] lets through are
    written so that they read back the same, in every field and every digit; and whatever a
    file holds, what is read from it is such settings, so that saving it again keeps them. *)
Theorem config_file_roundtrip (c : OutputConfig) (s : text) :
  (config_ok c <-> config_from_toml (config_to_toml c) = c) /\
  config_from_toml (config_to_toml (config_from_toml s)) = config_from_toml s.
Proof.
  split; [|apply config_file_reads_back, config_from_toml_ok].
  split; [apply config_file_reads_back|]. intros <-. apply config_from_toml_ok.
Qed.

Definition tuned_config : OutputConfig :=
  {default_config with enabled := true; rate_hz := of_int 120; opentrack := Some (txt "192.168.1.7:4242");
     bridge_port := None; joystick_full_deg := (of_int 55, lit 301 10, of_int 18)}.
Example tuned_config_file : config_from_toml (config_to_toml tuned_config) = tuned_config.
Proof. vm_compute. reflexivity. Qed.
(** What a file may not say is left as it was. *)
Example refused_keys :
  config_from_toml ([txt "[games]"; txt "rate_hz = 0"; txt "filter_alpha = NaN"; txt "bridge_port = 70000"] ≫= newline) = default_config.
Proof. vm_compute. reflexivity. Qed.
