(* ===== verification/Pipeline.v ===== *)
(** * Pipeline: one gaze sample in, one tracking frame out (crates/tobii-output/src/pipeline.rs)

    [offer] composes a frame: the pose supplied or derived, Extended View against the
    screen, the neutral position, the rotation reference, the smoothing filter; and what is
    forgotten once tracking has been gone for a second. A panic of the code is [None]. *)
From S2P Require Import Prelude F64 Floats Decimal Tlv Commands Gaze HeadPose Fusion Output Paths Disk Games.

Definition TRACKING_LOSS_RESET : Z := millis 1000.
Definition RECENTRE_WINDOW : Z := millis 1000.
Definition RECENTRE_MIN_POSES : nat := 10.
Definition RECENTRE_MAX_SPREAD_DEG : f64 := MOVED_SPREAD_DEG.

Inductive RecentreOutcome :=
| Applied (yaw_deg roll_deg spread_deg : f64)
| Moved (spread_deg : f64)
| NoHead (poses : nat)
| Interrupted (poses : nat).

Record SuppliedPose := { sp_pose : HeadPose; rotation_at : Z }.
Record RecentreRun := { started : Z; run_yaw : list f64; run_roll : list f64 }.
Record FallbackStats := { both_eyes : Z; reconstructed : Z; active : bool }.

Record FramePipeline := {
  filter : PoseFilter;
  last_ev : option (f64 * f64);
  gaze_lost_since : option Z;
  last_tracked : option Z;
  neutral : option vec3;
  pair : PairOffset;
  stats : FallbackStats;
  rot_ref : option (f64 * f64);
  last_rotation_at : option Z;
  recentre : option RecentreRun;
  last_recentre : option RecentreOutcome;
}.

(** [FramePipeline::new] *)
Definition new_pipeline (cfg : OutputConfig) : FramePipeline :=
  {| filter := with_max_step_mm (filter_alpha cfg) (filter_max_step_mm cfg);
     last_ev := None; gaze_lost_since := None; last_tracked := None; neutral := None; pair := pair0;
     stats := {| both_eyes := 0; reconstructed := 0; active := false |};
     rot_ref := None; last_rotation_at := None; recentre := None; last_recentre := None |}.

Definition begin_recentre (now : Z) (p : FramePipeline) : FramePipeline :=
  {p with recentre := Some {| started := now; run_yaw := []; run_roll := [] |} }.
Definition recentring (p : FramePipeline) : bool := match recentre p with Some _ => true | None => false end.
Definition take_recentre (p : FramePipeline) : option RecentreOutcome * FramePipeline :=
  (last_recentre p, {p with last_recentre := None}).
Definition rotation_reference (p : FramePipeline) : option (f64 * f64) := rot_ref p.
Definition fallback_stats (p : FramePipeline) : FallbackStats := stats p.
Definition set_filter (cfg : OutputConfig) (p : FramePipeline) : FramePipeline :=
  {p with filter := with_max_step_mm (filter_alpha cfg) (filter_max_step_mm cfg)}.

(** [settle]: what a finished run measured, and the pipeline it leaves. *)
Definition settle (run : RecentreRun) (p : FramePipeline) : option (RecentreOutcome * FramePipeline) :=
  if (length (run_yaw run) <? RECENTRE_MIN_POSES)%nat then Some (NoHead (length (run_yaw run)), p)
  else
    '(yaw, yaw_spread) ← median_and_spread (run_yaw run);
    '(roll, roll_spread) ← median_and_spread (run_roll run);
    let spread := fmax yaw_spread roll_spread in
    if flt RECENTRE_MAX_SPREAD_DEG spread then Some (Moved spread, p)
    else Some (Applied yaw roll spread, {p with rot_ref := Some (yaw, roll)}).

(** The run with this frame's angles, unless they were held or are not numbers. *)
Definition sampled (head : HeadPose) (rotation_held : bool) (run : RecentreRun) : RecentreRun :=
  if negb rotation_held && is_finite (yaw_deg head) && is_finite (roll_deg head)
  then {run with run_yaw := run_yaw run ++ [yaw_deg head]; run_roll := run_roll run ++ [roll_deg head] }
  else run.

Definition measure_recentre (head : HeadPose) (rotation_held : bool) (now : Z) (p : FramePipeline)
    : option FramePipeline :=
  match recentre p with
  | None => Some p
  | Some run =>
      let run := sampled head rotation_held run in
      if RECENTRE_WINDOW <=? saturating_duration_since now (started run)
      then '(o, p) ← settle run {p with recentre := None}; Some {p with last_recentre := Some o}
      else Some {p with recentre := Some run}
  end.

Definition referenced (p : FramePipeline) (head : HeadPose) : HeadPose :=
  match rot_ref p with
  | Some (yaw, roll) => {head with yaw_deg := fsub (yaw_deg head) yaw; roll_deg := fsub (roll_deg head) roll}
  | None => head
  end.

Definition rereference (head : HeadPose) (rotation_held : bool) (now : Z) (p : FramePipeline)
    : option (HeadPose * FramePipeline) :=
  p ← measure_recentre head rotation_held now p; Some (referenced p head, p).

(** The gaze point, when an eye is tracked. *)
Definition gaze_of (s : GazeSample) : option vec2 :=
  let tracked := (validity_l s =? 0) || (validity_r s =? 0) in
  if has s present.GAZE_2D && tracked then Some (gaze_point_2d s) else None.

Section Pipeline.
Context `{Libm}.

Definition count_source (source : option PoseSource) (st : FallbackStats) : FallbackStats :=
  match source with
  | Some BothEyes => {st with both_eyes := saturating_inc u64_max (both_eyes st)}
  | Some Reconstructed => {st with reconstructed := saturating_inc u64_max (reconstructed st)}
  | None => st
  end.

(** The Extended View offset for this frame. *)
Definition view_offset (cfg : OutputConfig) (corners : option DisplayCorners) (gaze : option vec2)
    (raw : HeadPose) (now : Z) (p : FramePipeline) : option ((f64 * f64) * FramePipeline) :=
  match ev_enabled (cfg_view cfg), corners, gaze with
  | true, Some c, Some g =>
      ev ← extended_view (cfg_view cfg) c (x_mm raw, y_mm raw, z_mm raw) g;
      Some (ev, {p with last_ev := Some ev; gaze_lost_since := None})
  | true, Some _, None =>
      let since := default now (gaze_lost_since p) in
      let p := {p with gaze_lost_since := Some since} in
      Some (hold_through_blink (cfg_view cfg) (last_ev p) (saturating_duration_since now since / 1000000), p)
  | _, _, _ => Some ((f64_zero, f64_zero), p)
  end.

(** The position against the neutral, which the first pose sets. *)
Definition recentred (raw : HeadPose) (p : FramePipeline) : HeadPose * FramePipeline :=
  let n := default (x_mm raw, y_mm raw, z_mm raw) (neutral p) in
  let '(nx, ny, nz) := n in
  ({raw with x_mm := fsub (x_mm raw) nx; y_mm := fsub (y_mm raw) ny; z_mm := fsub (z_mm raw) nz},
   {p with neutral := Some n}).

(** The closure over the incoming pose. *)
Definition compose_frame (cfg : OutputConfig) (corners : option DisplayCorners) (gaze : option vec2)
    (rotation_held : bool) (raw : HeadPose) (now : Z) (p : FramePipeline) : option (HeadPose * FramePipeline) :=
  '((yaw, pitch), p) ← view_offset cfg corners gaze raw now p;
  let '(centred, p) := recentred raw p in
  '(centred, p) ← rereference centred rotation_held now p;
  let '(o, f) := update (filter p) (compose centred yaw pitch) in
  Some (o, {p with filter := f}).

(** The end of [offer]: note a pose, or forget once it has been gone long enough. *)
Definition abandon_recentre (p : FramePipeline) : FramePipeline :=
  match recentre p with
  | Some run => {p with recentre := None; last_recentre := Some (Interrupted (length (run_yaw run)))}
  | None => p
  end.
Definition gone (now : Z) (p : FramePipeline) : bool :=
  match last_tracked p with
  | None => true
  | Some t => TRACKING_LOSS_RESET <=? saturating_duration_since now t
  end.
Definition note_tracking (tracked : bool) (now : Z) (p : FramePipeline) : FramePipeline :=
  if tracked then {p with last_tracked := Some now}
  else if gone now p
       then abandon_recentre {p with filter ::= reset_filter; last_tracked := None; last_ev := None;
                                     neutral := None; pair := pair0}
       else p.

Definition offer (sample : GazeSample) (pose_in : option SuppliedPose) (cfg : OutputConfig)
    (corners : option DisplayCorners) (now : Z) (p : FramePipeline) : option (TrackingFrame * FramePipeline) :=
  let presence_ := from_validity (validity_l sample) (validity_r sample) in
  let gaze := gaze_of sample in
  let '(geometric, pr) := pair_pose_from_sample (pair p) sample now in
  let src := source <$> geometric in
  let st := count_source src (stats p) in
  let is_reconstructed := match pose_in, src with None, Some Reconstructed => true | _, _ => false end in
  let p := {p with pair := pr; stats := {st with active := is_reconstructed} } in
  let rotation_held :=
    is_reconstructed
    || match pose_in with Some q => bool_decide (last_rotation_at p = Some (rotation_at q)) | None => false end in
  let p := match pose_in with Some q => {p with last_rotation_at := Some (rotation_at q)} | None => p end in
  let incoming := match pose_in with Some q => Some (sp_pose q) | None => pose <$> geometric end in
  '(out, p) ← match incoming with
              | Some raw => '(o, p) ← compose_frame cfg corners gaze rotation_held raw now p; Some (Some o, p)
              | None => Some (None, p)
              end;
  Some ({| f_timestamp_us := timestamp_us sample; f_pose := out; f_gaze := gaze; presence := presence_ |},
        note_tracking (match out with Some _ => true | None => false end) now p).
End Pipeline.

(** ** Runs *)
Section Theorems.
Context `{Libm}.

(** One call of [offer]. *)
Record Input := {
  i_sample : GazeSample; i_pose : option SuppliedPose; i_cfg : OutputConfig;
  i_corners : option DisplayCorners; i_now : Z }.
Definition step (i : Input) (p : FramePipeline) : option (TrackingFrame * FramePipeline) :=
  offer (i_sample i) (i_pose i) (i_cfg i) (i_corners i) (i_now i) p.

(** What callers do: frames, and recentre requests between them. *)
Inductive event := Frame_ (i : Input) | Recentre_ (now : Z).
Fixpoint run (es : list event) (p : FramePipeline) : option FramePipeline :=
  match es with
  | [] => Some p
  | Frame_ i :: es => '(_, p) ← step i p; run es p
  | Recentre_ now :: es => run es (begin_recentre now p)
  end.

(** What [compose_frame] does to each part of the state. *)
Lemma compose_frame_inv cfg corners gaze heldr raw now p o p' :
  compose_frame cfg corners gaze heldr raw now p = Some (o, p') ->
  exists ev p1 p2, view_offset cfg corners gaze raw now p = Some (ev, p1)
  /\ measure_recentre (recentred raw p1).1 heldr now (recentred raw p1).2 = Some p2
  /\ update (filter p2) (compose (referenced p2 (recentred raw p1).1) ev.1 ev.2) = (o, filter p')
  /\ p' = {p2 with filter := filter p'}.
Proof.
  unfold compose_frame, rereference. destruct (view_offset _ _ _ _ _ _) as [[[y pt] p1]|]; [|done]. simpl.
  destruct (recentred raw p1) as [ce p1'] eqn:Er. simpl.
  destruct (measure_recentre _ _ _ _) as [p2|] eqn:Em; [|done]. simpl.
  destruct (update _ _) as [o' f] eqn:Eu. intros [= <- <-]. exists (y, pt), p1, p2.
  rewrite Er. simpl. split_and!; [done|done| |]; by destruct p2.
Qed.

(** The parts of the state that say where the head is. *)
Definition head_state (p : FramePipeline) :=
  (last_tracked p, neutral p, pair p, stats p, rot_ref p, last_rotation_at p, recentre p, last_recentre p).

Ltac same_head := unfold head_state in *; cbn in *; simplify_eq; done.

Lemma view_offset_head cfg corners gaze raw now p ev p' :
  view_offset cfg corners gaze raw now p = Some (ev, p') -> head_state p' = head_state p /\ filter p' = filter p.
Proof.
  unfold view_offset. destruct (ev_enabled _), corners, gaze; try (by intros [= <- <-]).
  destruct (extended_view _ _ _ _); [|done]. by intros [= <- <-].
Qed.

Lemma recentred_head raw p p' : head_state p = head_state p' ->
  (recentred raw p).1 = (recentred raw p').1 /\ head_state (recentred raw p).2 = head_state (recentred raw p').2.
Proof.
  destruct p, p'. unfold head_state, recentred. simpl. intros [= -> -> -> -> -> -> -> ->].
  by destruct (default _ _) as [[? ?] ?].
Qed.

Lemma settle_head r p p' : head_state p = head_state p' ->
  (fun '(o, q) => (o, head_state q)) <$> settle r p = (fun '(o, q) => (o, head_state q)) <$> settle r p'.
Proof.
  unfold settle. intros E. destruct (_ <? _)%nat; [simpl; by rewrite E|].
  destruct (median_and_spread (run_yaw r)) as [[y ys]|]; [|done]. simpl.
  destruct (median_and_spread (run_roll r)) as [[rl rs]|]; [|done]. simpl.
  destruct (flt _ _); simpl; [by rewrite E|].
  destruct p, p'. same_head.
Qed.

Lemma measure_head ce heldr now p p' q q' : head_state p = head_state p' ->
  measure_recentre ce heldr now p = Some q -> measure_recentre ce heldr now p' = Some q' -> head_state q = head_state q'.
Proof.
  intros E. unfold measure_recentre. replace (recentre p') with (recentre p) by (unfold head_state in E; congruence).
  destruct (recentre p) as [r|]; [|congruence]. destruct (_ <=? _).
  - assert (E' : head_state {p with recentre := None} = head_state {p' with recentre := None}).
    { destruct p, p'. same_head. }
    pose proof (settle_head (sampled ce heldr r) _ _ E') as Hs.
    destruct (settle _ {p with recentre := None}) as [[o s]|]; [|done].
    destruct (settle _ {p' with recentre := None}) as [[o' s']|]; [|done]. simpl in *. injection Hs as <- Hs.
    intros [= <-] [= <-]. destruct s, s'. same_head.
  - intros [= <-] [= <-]. destruct p, p'. same_head.
Qed.

Lemma compose_head cfg cfg' co co' g g' heldr raw now p p' o o' q q' : head_state p = head_state p' ->
  compose_frame cfg co g heldr raw now p = Some (o, q) -> compose_frame cfg' co' g' heldr raw now p' = Some (o', q') ->
  head_state q = head_state q'.
Proof.
  intros E (ev & p1 & p2 & Hv & Hm & _ & ->)%compose_frame_inv (ev' & p1' & p2' & Hv' & Hm' & _ & ->)%compose_frame_inv.
  apply view_offset_head in Hv as [Hv _], Hv' as [Hv' _].
  assert (E1 : head_state p1 = head_state p1') by congruence.
  destruct (recentred_head raw p1 p1' E1) as [Ec Eh]. rewrite <- Ec in Hm'.
  pose proof (measure_head _ _ _ _ _ _ _ Eh Hm Hm') as E2. destruct p2, p2'. exact E2.
Qed.
(** The parts of [offer] before the pose is composed. *)
Definition derived (i : Input) (p : FramePipeline) : option SourcedPose * PairOffset :=
  pair_pose_from_sample (pair p) (i_sample i) (i_now i).
Definition guessed (i : Input) (p : FramePipeline) : bool :=
  match i_pose i, source <$> (derived i p).1 with None, Some Reconstructed => true | _, _ => false end.
Definition rot_held (i : Input) (p : FramePipeline) : bool :=
  guessed i p
  || match i_pose i with Some q => bool_decide (last_rotation_at p = Some (rotation_at q)) | None => false end.
Definition entered (i : Input) (p : FramePipeline) : FramePipeline :=
  let p1 := {p with pair := (derived i p).2;
               stats := {count_source (source <$> (derived i p).1) (stats p) with active := guessed i p} } in
  match i_pose i with Some q => {p1 with last_rotation_at := Some (rotation_at q)} | None => p1 end.
Definition incoming (i : Input) (p : FramePipeline) : option HeadPose :=
  match i_pose i with Some q => Some (sp_pose q) | None => pose <$> (derived i p).1 end.
Definition frame_of (i : Input) (o : option HeadPose) : TrackingFrame :=
  {| f_timestamp_us := timestamp_us (i_sample i); f_pose := o; f_gaze := gaze_of (i_sample i);
     presence := from_validity (validity_l (i_sample i)) (validity_r (i_sample i)) |}.

Lemma step_unfold i p :
  step i p = match incoming i p with
             | Some raw =>
                 '(o, q) ← compose_frame (i_cfg i) (i_corners i) (gaze_of (i_sample i)) (rot_held i p) raw (i_now i) (entered i p);
                 Some (frame_of i (Some o), note_tracking true (i_now i) q)
             | None => Some (frame_of i None, note_tracking false (i_now i) (entered i p))
             end.
Proof.
  unfold step, offer, incoming, entered, rot_held, guessed, derived.
  destruct (pair_pose_from_sample _ _ _) as [g pr]. cbn [fst snd].
  destruct (i_pose i) as [q|]; [|destruct g as [g|]]; try done; cbn [fmap option_fmap option_map].
  - by destruct (compose_frame _ _ _ _ _ _ _) as [[o p1]|].
  - destruct (compose_frame _ _ _ _ _ _ _) as [[o p1]|]; done.
Qed.

Lemma step_inv i p fr p' : step i p = Some (fr, p') ->
  (incoming i p = None /\ fr = frame_of i None /\ p' = note_tracking false (i_now i) (entered i p))
  \/ (exists raw o q, incoming i p = Some raw
       /\ compose_frame (i_cfg i) (i_corners i) (gaze_of (i_sample i)) (rot_held i p) raw (i_now i) (entered i p) = Some (o, q)
       /\ fr = frame_of i (Some o) /\ p' = note_tracking true (i_now i) q).
Proof.
  rewrite step_unfold. destruct (incoming i p) as [raw|]; [|intros [= <- <-]; by left].
  destruct (compose_frame _ _ _ _ _ _ _) as [[o q]|] eqn:E; [|done]. intros [= <- <-]. right. by exists raw, o, q.
Qed.

(** ** Gaze and the head *)

(** What of a sample says where the head is. *)
Definition head_inputs (s : GazeSample) :=
  (validity_l s, validity_r s, eye_origin_l_mm s, eye_origin_r_mm s, device_clock s,
   (has s present.VALIDITY_L, has s present.VALIDITY_R, has s present.EYE_ORIGIN_L, has s present.EYE_ORIGIN_R)).

(** Inputs that may differ in gaze, in the screen, and in every setting. *)
Definition same_head (i j : Input) : Prop :=
  head_inputs (i_sample i) = head_inputs (i_sample j) /\ i_pose i = i_pose j /\ i_now i = i_now j.
Definition same_event (e f : event) : Prop :=
  match e, f with
  | Frame_ i, Frame_ j => same_head i j
  | Recentre_ t, Recentre_ u => t = u
  | _, _ => False
  end.

Lemma derived_same i j p p' : same_head i j -> pair p = pair p' -> derived i p = derived j p'.
Proof.
  intros (Hs & _ & Hn) Hp. unfold derived. rewrite Hp, Hn. unfold head_inputs in Hs. injection Hs as H1 H2 H3 H4 H5 H6 H7 H8 H9.
  rewrite !pair_unfold. unfold eyes, left_seen, right_seen. rewrite H1, H2, H6, H7, H8, H9.
  destruct (_ || _); [done|]. destruct (_ && _), (_ && _); rewrite ?H3, ?H4; try done;
    unfold measure; cbn [fst snd]; rewrite ?H3, ?H4, ?H5; try done;
    unfold reconstruct, eye_of, stale; rewrite ?H3, ?H4, ?H5; done.
Qed.

Lemma entered_same i j p p' : same_head i j -> head_state p = head_state p' ->
  incoming i p = incoming j p' /\ rot_held i p = rot_held j p' /\ head_state (entered i p) = head_state (entered j p').
Proof.
  intros Hij E. assert (Hd : derived i p = derived j p') by (apply derived_same; [done|]; unfold head_state in E; congruence).
  destruct Hij as (_ & Hp & _). unfold incoming, rot_held, entered, guessed. rewrite Hd, Hp.
  assert (Hl : last_rotation_at p = last_rotation_at p') by (unfold head_state in E; congruence). rewrite Hl.
  split_and!; [done|done|]. destruct p, p', (i_pose j); same_head.
Qed.

Lemma note_same t now p p' : head_state p = head_state p' ->
  head_state (note_tracking t now p) = head_state (note_tracking t now p').
Proof.
  intros E. unfold note_tracking. destruct t; [destruct p, p'; same_head|].
  assert (Hg : gone now p = gone now p') by (unfold gone; unfold head_state in E; by replace (last_tracked p') with (last_tracked p) by congruence).
  rewrite Hg. destruct (gone now p'); [|done]. unfold abandon_recentre.
  destruct p as [? ? ? ? ? ? ? ? ? rc ?], p' as [? ? ? ? ? ? ? ? ? rc' ?].
  assert (rc = rc') as -> by (unfold head_state in E; cbn in E; congruence). destruct rc'; same_head.
Qed.

Lemma step_same i j p p' fr fr' q q' : same_head i j -> head_state p = head_state p' ->
  step i p = Some (fr, q) -> step j p' = Some (fr', q') -> head_state q = head_state q'.
Proof.
  intros Hij E Hi Hj. destruct (entered_same i j p p' Hij E) as (H1 & H2 & H3). pose proof Hij as (_ & _ & Hn).
  apply step_inv in Hi as [(Ei & _ & ->)|(raw & o & r & Ei & Hc & _ & ->)];
    apply step_inv in Hj as [(Ej & _ & ->)|(raw' & o' & r' & Ej & Hc' & _ & ->)]; try congruence; rewrite Hn.
  - by apply note_same.
  - assert (raw = raw') as <- by congruence. rewrite H2, Hn in Hc. apply note_same. by eapply compose_head.
Qed.

(** C2: Where the eyes look never leaks into where the head is: take two runs of a
    pipeline fed the same head (eye origins, validity, clock, supplied poses) at the same
    times with the same recentre requests, but with any gaze, any screen and any
    settings; the rotation reference, the neutral position, the settle window and its
    outcome, the pair's offset and the loss tracking come out the same. *)
Theorem gaze_never_moves_the_reference es es' cfg cfg' p q
    (Hes : Forall2 same_event es es')
    (Hp : run es (new_pipeline cfg) = Some p) (Hq : run es' (new_pipeline cfg') = Some q) :
  head_state p = head_state q.
Proof.
  assert (G : forall a b, head_state a = head_state b -> run es a = Some p -> run es' b = Some q -> head_state p = head_state q).
  { clear Hp Hq. induction Hes as [|e f es es' He _ IH]; intros a b E; cbn [run]; [congruence|].
    destruct e as [i|t], f as [j|u]; try done.
    - destruct (step i a) as [[fr a']|] eqn:Ei; [|done]. destruct (step j b) as [[fr' b']|] eqn:Ej; [|done]. simpl.
      apply IH. eapply step_same; eauto.
    - cbn in He. subst u. apply IH. destruct a, b. same_head. }
  by apply (G (new_pipeline cfg) (new_pipeline cfg')).
Qed.
(** ** No panic *)

(** Ceilings that are numbers: all the configuration lets through. *)
Definition cfg_ok (cfg : OutputConfig) : Prop :=
  is_nan (clamp_deg (ev_yaw (cfg_view cfg))) = false /\ is_nan (clamp_deg (ev_pitch (cfg_view cfg))) = false.

(** Whatever the settings file holds. *)
Lemma stored_cfg_ok f p : cfg_ok (load_output_config_from f p).
Proof.
  destruct (loaded_config_ok f p) as [_ _ _ _ _ _ _ [_ _ _ [[_ Hy] _] _] [_ _ _ [[_ Hp] _] _]].
  split; [by destruct (clamp_deg (ev_yaw _))|by destruct (clamp_deg (ev_pitch _))].
Qed.

(** The settle window's samples come in pairs. *)
Definition pipeline_ok (p : FramePipeline) : Prop :=
  forall r, recentre p = Some r -> length (run_yaw r) = length (run_roll r).

Lemma shape_some a raw : is_nan (clamp_deg a) = false -> is_Some (shape a raw).
Proof.
  intros Hc. unfold shape. destruct (negb _); [eauto|]. destruct (fle _ _); [eauto|]. unfold fclamp.
  rewrite opp_abs_le by done. eauto.
Qed.

Lemma view_offset_some cfg corners gaze raw now p : cfg_ok cfg -> is_Some (view_offset cfg corners gaze raw now p).
Proof.
  intros [Hy Hp]. unfold view_offset. destruct (ev_enabled _), corners, gaze; eauto.
  unfold extended_view. destruct (negb _); [simpl; eauto|]. destruct (gaze_angles_deg _ _ _) as [[y pt]|]; [|simpl; eauto].
  destruct (shape_some _ y Hy) as [? ->], (shape_some _ pt Hp) as [? ->]. simpl. eauto.
Qed.

Lemma sampled_ok head heldr r : length (run_yaw r) = length (run_roll r) ->
  length (run_yaw (sampled head heldr r)) = length (run_roll (sampled head heldr r)).
Proof. intros E. unfold sampled. destruct (_ && _); [|done]. destruct r. simpl in *. rewrite !length_app, E. done. Qed.

Lemma sampled_started head heldr r : started (sampled head heldr r) = started r.
Proof. unfold sampled. destruct (_ && _); by destruct r. Qed.

Lemma settle_some r p : length (run_yaw r) = length (run_roll r) ->
  exists o q, settle r p = Some (o, q) /\ recentre q = recentre p.
Proof.
  intros E. unfold settle. destruct (Nat.ltb_spec (length (run_yaw r)) RECENTRE_MIN_POSES) as [|Hge]; [eauto|].
  unfold RECENTRE_MIN_POSES in Hge.
  destruct (median_some (run_yaw r)) as (m & sp & -> & _); [by destruct (run_yaw r); simpl in *; [lia|]|].
  destruct (median_some (run_roll r)) as (m' & sp' & -> & _); [by destruct (run_roll r); simpl in *; [lia|]|].
  simpl. destruct (flt _ _); [eauto|]. eexists _, _. split; [done|]. by destruct p.
Qed.

Lemma measure_some ce heldr now p : pipeline_ok p ->
  exists q, measure_recentre ce heldr now p = Some q /\ pipeline_ok q.
Proof.
  intros Hp. unfold measure_recentre. destruct (recentre p) as [r|] eqn:Er; [|by exists p].
  pose proof (sampled_ok ce heldr r (Hp r Er)) as Hs. destruct (_ <=? _).
  - destruct (settle_some (sampled ce heldr r) {p with recentre := None} Hs) as (o & q & -> & Hq). simpl.
    eexists. split; [done|]. intros r' Hr'. destruct p, q. cbn in *. congruence.
  - eexists. split; [done|]. intros r' Hr'. destruct p. cbn in *. congruence.
Qed.

Lemma head_ok p q : recentre p = recentre q -> pipeline_ok p -> pipeline_ok q.
Proof. unfold pipeline_ok. by intros ->. Qed.

Lemma compose_some cfg co g heldr raw now p : cfg_ok cfg -> pipeline_ok p ->
  exists o q, compose_frame cfg co g heldr raw now p = Some (o, q) /\ pipeline_ok q.
Proof.
  intros Hc Hp. unfold compose_frame, rereference. destruct (view_offset_some cfg co g raw now p Hc) as [[[y pt] p1] Ev].
  rewrite Ev. simpl. destruct (view_offset_head _ _ _ _ _ _ _ _ Ev) as [Hv _].
  assert (Hp1 : pipeline_ok (recentred raw p1).2).
  { apply (head_ok p); [|done]. unfold head_state in Hv. unfold recentred. destruct (default _ _) as [[? ?] ?].
    destruct p1. cbn in *. congruence. }
  destruct (recentred raw p1) as [ce p1']. destruct (measure_some ce heldr now p1' Hp1) as (q & -> & Hq). simpl.
  destruct (update _ _) as [o f]. eexists _, _. split; [done|]. by destruct q.
Qed.

Lemma note_ok t now p : pipeline_ok p -> pipeline_ok (note_tracking t now p).
Proof.
  intros Hp. unfold note_tracking. destruct t; [by destruct p|]. destruct (gone now p); [|done].
  unfold abandon_recentre. destruct p as [? ? ? ? ? ? ? ? ? [r|] ?]; [|done]. by intros ? ?.
Qed.

Lemma step_some i p : cfg_ok (i_cfg i) -> pipeline_ok p -> exists fr q, step i p = Some (fr, q) /\ pipeline_ok q.
Proof.
  intros Hc Hp. rewrite step_unfold. assert (He : pipeline_ok (entered i p)).
  { unfold entered. destruct p, (i_pose i); exact Hp. }
  destruct (incoming i p) as [raw|]; [|eexists _, _; split; [done|by apply note_ok]].
  destruct (compose_some (i_cfg i) (i_corners i) (gaze_of (i_sample i)) (rot_held i p) raw (i_now i) (entered i p) Hc He)
    as (o & q & -> & Hq). exists (frame_of i (Some o)), (note_tracking true (i_now i) q). split; [done|by apply note_ok].
Qed.

Lemma begin_ok t p : pipeline_ok (begin_recentre t p).
Proof. intros r Hr. destruct p. cbn in Hr. by injection Hr as <-. Qed.

(** C27: The pipeline never panics: as long as each Extended View ceiling is a number,
    whatever samples, poses and times come in, NaNs, infinities and clocks going backwards
    included, and whenever recentres are asked for, every frame is composed. *)
Theorem pipeline_never_panics es cfg
    (Hes : Forall (fun e => match e with Frame_ i => cfg_ok (i_cfg i) | Recentre_ _ => True end) es) :
  exists p, run es (new_pipeline cfg) = Some p.
Proof.
  assert (G : forall p, pipeline_ok p -> exists q, run es p = Some q).
  { induction Hes as [|e es He _ IH]; intros p Hp; cbn [run]; [eauto|]. destruct e as [i|t].
    - destruct (step_some i p He Hp) as (fr & q & -> & Hq). simpl. by apply IH.
    - apply IH, begin_ok. }
  apply G. by intros r ?.
Qed.

(** ** The rotation reference *)

(** What a frame adds to a settle window: the turn of the pose it came with, unless that
    was measured before or is not made of numbers. *)
Definition turn (i : Input) (p : FramePipeline) : list (f64 * f64) :=
  match incoming i p with
  | Some raw => if negb (rot_held i p) && is_finite (yaw_deg raw) && is_finite (roll_deg raw)
                then [(yaw_deg raw, roll_deg raw)] else []
  | None => []
  end.

(** Of a history: when a recentre was last asked for, and the turns measured since. *)
Fixpoint since_request (es : list event) (p : FramePipeline) (acc : option (Z * list (f64 * f64)))
    : option (Z * list (f64 * f64)) :=
  match es with
  | [] => acc
  | Frame_ i :: es =>
      match step i p with
      | Some (_, p') => since_request es p' ((fun '(t, l) => (t, l ++ turn i p)) <$> acc)
      | None => acc
      end
  | Recentre_ now :: es => since_request es (begin_recentre now p) (Some (now, []))
  end.

(** The middle of the samples, and what lies between their first and last tenth, in
    whatever order they came. *)
Definition middle_and_spread (l : list f64) (m spread : f64) : Prop :=
  exists t lo hi, Permutation t l /\ StronglySorted fle' t
  /\ t !! (length l / 2)%nat = Some m
  /\ t !! (length l / 10)%nat = Some lo /\ t !! (length l * 9 / 10)%nat = Some hi /\ spread = fsub hi lo.

Lemma middle_and_spread_of l m sp : Forall (fun y => is_finite y = true) l -> median_and_spread l = Some (m, sp) ->
  middle_and_spread l m sp /\ is_nan sp = false.
Proof.
  intros Hf E. unfold median_and_spread in E. rewrite (Permutation_length (sort_perm l)) in E.
  destruct (sort_f64 l !! (length l / 2)%nat) as [m'|] eqn:Em; [|done]. cbn [mbind option_bind] in E.
  destruct (sort_f64 l !! (length l * 9 / 10)%nat) as [hi|] eqn:Ehi; [|done]. cbn [mbind option_bind] in E.
  destruct (sort_f64 l !! (length l / 10)%nat) as [lo|] eqn:Elo; [|done]. injection E as <- <-.
  assert (Hs : Forall (fun y => is_finite y = true) (sort_f64 l)) by (by rewrite sort_perm). split.
  - exists (sort_f64 l), lo, hi. split_and!; try done; [apply sort_perm|]. apply sort_sorted.
    eapply Forall_impl; [exact Hf|]. apply is_finite_num.
  - apply sub_num; [by eapply (Forall_lookup_1 _ _ _ _ Hs)|by eapply (Forall_lookup_1 _ _ _ _ Hs)].
Qed.

(** The running window holds the turns since its request. *)
Definition window_is (acc : option (Z * list (f64 * f64))) (r : option RecentreRun) : Prop :=
  match r with
  | Some r => exists l, acc = Some (started r, l) /\ run_yaw r = l.*1 /\ run_roll r = l.*2
                /\ Forall (fun y => is_finite y = true) (run_yaw r) /\ Forall (fun y => is_finite y = true) (run_roll r)
  | None => True
  end.

Lemma turn_sampled i p raw ce r acc : incoming i p = Some raw ->
  yaw_deg ce = yaw_deg raw -> roll_deg ce = roll_deg raw -> window_is acc (Some r) ->
  window_is ((fun '(t, l) => (t, l ++ turn i p)) <$> acc) (Some (sampled ce (rot_held i p) r)).
Proof.
  intros Hi Hy Hr (l & -> & E1 & E2 & F1 & F2). unfold turn, sampled. rewrite Hi, <- Hy, <- Hr.
  cbn [window_is fmap option_fmap option_map]. destruct (negb _ && _ && _) eqn:E.
  - apply andb_true_iff in E as [[_ Ey]%andb_true_iff Er]. destruct r. cbn in *. subst.
    eexists. split; [done|]. rewrite !fmap_app. split_and!; try done; apply Forall_app; split; try done; by apply Forall_singleton.
  - rewrite app_nil_r. eauto 10.
Qed.
Lemma recentred_turn raw p : yaw_deg (recentred raw p).1 = yaw_deg raw /\ roll_deg (recentred raw p).1 = roll_deg raw.
Proof. unfold recentred. destruct (default _ _) as [[? ?] ?]. by destruct raw. Qed.

(** A frame with a pose reaches the window with it. *)
Lemma frame_measures i p raw o q :
  compose_frame (i_cfg i) (i_corners i) (gaze_of (i_sample i)) (rot_held i p) raw (i_now i) (entered i p) = Some (o, q) ->
  exists ce p1 p2, yaw_deg ce = yaw_deg raw /\ roll_deg ce = roll_deg raw /\ recentre p1 = recentre p /\ rot_ref p1 = rot_ref p
  /\ measure_recentre ce (rot_held i p) (i_now i) p1 = Some p2 /\ recentre q = recentre p2 /\ rot_ref q = rot_ref p2
  /\ last_recentre q = last_recentre p2.
Proof.
  intros (ev & p1 & p2 & Hv & Hm & _ & ->)%compose_frame_inv. apply view_offset_head in Hv as [Hv _].
  exists (recentred raw p1).1, (recentred raw p1).2, p2. destruct (recentred_turn raw p1). split_and!; try done.
  1,2: unfold recentred, entered in *; destruct p1, p, (i_pose i), (default _ _) as [[? ?] ?];
    unfold head_state in Hv; cbn in *; congruence.
  all: by destruct p2.
Qed.

Lemma untracked_window acc i p :
  incoming i p = None -> window_is acc (recentre p) ->
  window_is ((fun '(t, l) => (t, l ++ turn i p)) <$> acc) (recentre (note_tracking false (i_now i) (entered i p))).
Proof.
  intros Hi Hw. assert (E : recentre (note_tracking false (i_now i) (entered i p)) = None
    \/ recentre (note_tracking false (i_now i) (entered i p)) = recentre p).
  { unfold note_tracking. destruct (gone _ _); unfold abandon_recentre, entered; destruct p as [? ? ? ? ? ? ? ? ? [r|] ?], (i_pose i); auto. }
  destruct E as [-> | ->]; [done|]. destruct (recentre p) as [r|]; [|done]. destruct Hw as (l & -> & Hw).
  unfold turn. rewrite Hi. cbn. rewrite app_nil_r. by exists l.
Qed.
Lemma step_window acc i p fr q : step i p = Some (fr, q) -> window_is acc (recentre p) ->
  window_is ((fun '(t, l) => (t, l ++ turn i p)) <$> acc) (recentre q).
Proof.
  intros [(Hi & _ & ->)|(raw & o & q' & Hi & Hc & _ & ->)]%step_inv Hw; [by apply untracked_window|].
  apply frame_measures in Hc as (ce & p1 & p2 & Hy & Hr & E1 & _ & Hm & E2 & _).
  replace (recentre (note_tracking true (i_now i) q')) with (recentre p2) by (rewrite <- E2; by destruct q').
  unfold measure_recentre in Hm. rewrite E1 in Hm. destruct (recentre p) as [r|] eqn:Er; [|injection Hm as <-; by rewrite E1].
  destruct (_ <=? _).
  - destruct (settle _ _) as [[out s]|] eqn:Es; [|done]. cbn in Hm. injection Hm as <-.
    assert (recentre s = None) as Hs; [|by destruct s; cbn in *; rewrite Hs].
    revert Es. unfold settle. destruct (_ <? _)%nat; [intros [= _ <-]; by destruct p1|].
    destruct (median_and_spread (run_yaw _)) as [[? ?]|]; [|done]. cbn.
    destruct (median_and_spread (run_roll _)) as [[? ?]|]; [|done]. cbn.
    destruct (flt _ _); intros [= _ <-]; by destruct p1.
  - injection Hm as <-. destruct p1. cbn. by eapply turn_sampled.
Qed.
Lemma run_window es p q acc : run es p = Some q -> window_is acc (recentre p) -> window_is (since_request es p acc) (recentre q).
Proof.
  revert p acc. induction es as [|[i|t] es IH]; intros p acc; cbn [run since_request]; [by intros [= ->]| |].
  - destruct (step i p) as [[fr p']|] eqn:Es; [|done]. cbn. intros Hr Hw. eapply IH; [done|]. by eapply step_window.
  - intros Hr _. eapply IH; [done|]. destruct p. cbn. exists []. by split_and!.
Qed.

Lemma fmax_within x y b : is_nan x = false -> is_nan y = false -> is_nan b = false ->
  flt b (fmax x y) = false -> fle x b = true /\ fle y b = true.
Proof.
  intros Hx Hy Hb Hm. unfold fmax in Hm. rewrite Hx in Hm. unfold fle, flt in *.
  destruct (SFltb x y) eqn:E.
  - assert (Hyb : SFleb y b = true) by (by rewrite fle_iff_not_lt, Hm). split; [|done].
    eapply fle_trans; [|exact Hyb]. by apply flt_fle.
  - assert (Hxb : SFleb x b = true) by (by rewrite fle_iff_not_lt, Hm). split; [done|].
    eapply fle_trans; [|exact Hxb]. unfold fle. by rewrite fle_iff_not_lt, E.
Qed.

(** C8: The reference moves only when asked, and never silently. At any time a frame
    leaves it alone, unless a recentre was asked for at least a second before, and the
    window it opened closes on this frame with a reported outcome [Applied]. The samples
    are then exactly the turns measured by the frames since that request, this one
    included, leaving out held rotations and angles that are not numbers; there are at
    least ten; the new reference is the middle yaw and the middle roll of them; and of
    each angle what lies between the first and the last tenth is at most 8 degrees, the
    larger of the two being the spread reported. In particular losing the user never
    drops the reference. *)
Theorem reference_moves_only_when_asked es cfg p i fr q
    (Hp : run es (new_pipeline cfg) = Some p) (Hs : step i p = Some (fr, q)) :
  rot_ref q = rot_ref p
  \/ (exists t0 before y rl ys rs, since_request es (new_pipeline cfg) None = Some (t0, before)
      /\ RECENTRE_WINDOW <= saturating_duration_since (i_now i) t0
      /\ recentre q = None /\ last_recentre q = Some (Applied y rl (fmax ys rs)) /\ rot_ref q = Some (y, rl)
      /\ let samples := before ++ turn i p in
         (10 <= length samples)%nat /\ middle_and_spread samples.*1 y ys /\ middle_and_spread samples.*2 rl rs
         /\ fle ys (of_int 8) = true /\ fle rs (of_int 8) = true).
Proof.
  pose proof (run_window es _ _ None Hp I) as Hw. clear Hp.
  apply step_inv in Hs as [(_ & _ & ->)|(raw & o & q' & Hi & Hc & _ & ->)].
  { left. unfold note_tracking. destruct (gone _ _); unfold abandon_recentre, entered; destruct p, (i_pose i); cbn;
      destruct (recentre0); done. }
  apply frame_measures in Hc as (ce & p1 & p2 & Hy & Hr & E1 & Er1 & Hm & E2 & Er2 & El2).
  assert (Hn : rot_ref (note_tracking true (i_now i) q') = rot_ref p2
    /\ recentre (note_tracking true (i_now i) q') = recentre p2
    /\ last_recentre (note_tracking true (i_now i) q') = last_recentre p2) by (by destruct q').
  destruct Hn as (-> & -> & ->). clear E2 Er2 El2 q' o. unfold measure_recentre in Hm. rewrite E1 in Hm.
  destruct (recentre p) as [r|] eqn:Er; [|left; by injection Hm as <-].
  eapply turn_sampled in Hw as (l & Hl & Ey & Erl & Fy & Fr); [|exact Hi|exact Hy|exact Hr].
  destruct (RECENTRE_WINDOW <=? _) eqn:Ew; [|left; injection Hm as <-; destruct p1; exact Er1].
  apply Z.leb_le in Ew. unfold settle in Hm. rewrite Ey, Erl in *. rewrite length_fmap in Hm.
  destruct (Nat.ltb_spec (length l) RECENTRE_MIN_POSES) as [|Hge]; [left; injection Hm as <-; by destruct p1|].
  destruct (median_and_spread l.*1) as [[y ys]|] eqn:My; [|done]. cbn [mbind option_bind] in Hm.
  destruct (median_and_spread l.*2) as [[rl rs]|] eqn:Mr; [|done]. cbn [mbind option_bind] in Hm.
  apply middle_and_spread_of in My as [My Ny], Mr as [Mr Nr]; [|done..].
  destruct (flt RECENTRE_MAX_SPREAD_DEG (fmax ys rs)) eqn:Esp; cbn [mbind option_bind] in Hm; injection Hm as <-;
    [left; by destruct p1|right].
  destruct (since_request _ _ _) as [[t0 before]|] eqn:Eb; [|done]. cbn in Hl. injection Hl as -> <-.
  exists (started (sampled ce (rot_held i p) r)), before, y, rl, ys, rs. destruct p1. cbn.
  apply fmax_within in Esp as [? ?]; [|done..]. split_and!; done.
Qed.
(** ** Leaving and coming back *)
Lemma settle_filter r p o q : settle r p = Some (o, q) -> filter q = filter p.
Proof.
  unfold settle. destruct (_ <? _)%nat; [by intros [= _ <-]|].
  destruct (median_and_spread (run_yaw r)) as [[y ys]|]; [|done]. cbn [mbind option_bind].
  destruct (median_and_spread (run_roll r)) as [[rl rs]|]; [|done]. cbn [mbind option_bind].
  destruct (flt _ _); intros [= _ <-]; by destruct p.
Qed.

Lemma measure_filter ce heldr now p q : measure_recentre ce heldr now p = Some q -> filter q = filter p.
Proof.
  unfold measure_recentre. destruct (recentre p) as [r|]; [|by intros [= <-]].
  destruct (_ <=? _); [|intros [= <-]; by destruct p].
  destruct (settle _ _) as [[o s]|] eqn:Es; [|done]. cbn [mbind option_bind]. intros [= <-].
  apply settle_filter in Es. destruct s, p. exact Es.
Qed.

Lemma recentred_fresh raw p : neutral p = None ->
  x_mm (recentred raw p).1 = fsub (x_mm raw) (x_mm raw) /\ y_mm (recentred raw p).1 = fsub (y_mm raw) (y_mm raw)
  /\ z_mm (recentred raw p).1 = fsub (z_mm raw) (z_mm raw).
Proof. unfold recentred. intros ->. by destruct raw. Qed.

(** C9: Whoever comes back starts centred. If a frame finds nobody, with tracking gone
    for a second or never there, then the next frame with a pose, whatever the pose, puts
    out exactly zero translation, with nothing of the old smoothing or of a held gaze
    offset in it; a settle window that was running is reported as interrupted; and the
    rotation reference is kept. *)
Theorem returning_user_is_centred i j p f1 p1 f2 p2 o
    (H1 : step i p = Some (f1, p1)) (Hn : f_pose f1 = None) (Hg : gone (i_now i) p = true)
    (H2 : step j p1 = Some (f2, p2)) (Ho : f_pose f2 = Some o) :
  (x_mm o, y_mm o, z_mm o) = (f64_zero, f64_zero, f64_zero)
  /\ filter p1 = reset_filter (filter p) /\ last_ev p1 = None /\ pair p1 = pair0 /\ rot_ref p1 = rot_ref p
  /\ recentre p1 = None
  /\ (forall r, recentre p = Some r -> last_recentre p1 = Some (Interrupted (length (run_yaw r)))).
Proof.
  apply step_inv in H1 as [(_ & _ & ->)|(raw & o' & q & _ & _ & -> & _)]; [|done].
  assert (Hp1 : let q := note_tracking false (i_now i) (entered i p) in
    neutral q = None /\ filter q = reset_filter (filter p) /\ last_ev q = None /\ pair q = pair0 /\ rot_ref q = rot_ref p
    /\ recentre q = None /\ (forall r, recentre p = Some r -> last_recentre q = Some (Interrupted (length (run_yaw r))))).
  { cbv zeta. unfold note_tracking. assert (Hg' : gone (i_now i) (entered i p) = true).
    { rewrite <- Hg. unfold gone, entered. destruct p, (i_pose i); reflexivity. }
    rewrite Hg'. unfold abandon_recentre, entered. destruct p as [? ? ? ? ? ? ? ? ? [r|] ?], (i_pose i); cbn;
      split_and!; try done; by intros ? [= ->]. }
  cbv zeta in Hp1. set (p1 := note_tracking _ _ _) in *. destruct Hp1 as (Hneu & Hfil & Hrest). split; [|done].
  apply step_inv in H2 as [(_ & -> & _)|(raw & o' & q & _ & Hc & -> & _)]; [done|]. injection Ho as ->.
  apply compose_frame_inv in Hc as (ev & q1 & q2 & Hv & Hm & Hu & _). apply view_offset_head in Hv as [Hv Hvf].
  assert (Hn1 : neutral q1 = None).
  { transitivity (neutral (entered j p1)); [unfold head_state in Hv; congruence|].
    rewrite <- Hneu. unfold entered. destruct p1, (i_pose j); reflexivity. }
  assert (Hf2 : filter q2 = reset_filter (filter p)).
  { transitivity (filter (recentred raw q1).2).
    - by eapply measure_filter.
    - rewrite <- Hfil. transitivity (filter (entered j p1)); [|unfold entered; destruct p1, (i_pose j); reflexivity].
      rewrite <- Hvf. unfold recentred. destruct (default _ _) as [[? ?] ?]. by destruct q1. }
  revert Hu. unfold update. rewrite Hf2. unfold current, reset_filter. cbn [last_accepted].
  destruct (negb _) eqn:Efin; [by intros [= <- _]|]. intros [= <- _].
  apply negb_false_iff in Efin. destruct (recentred_fresh raw q1 Hn1) as (Ex & Ey & Ez).
  set (ce := (recentred raw q1).1) in *. clearbody ce.
  assert (Hxyz : x_mm (compose (referenced q2 ce) ev.1 ev.2) = x_mm ce /\ y_mm (compose (referenced q2 ce) ev.1 ev.2) = y_mm ce
                 /\ z_mm (compose (referenced q2 ce) ev.1 ev.2) = z_mm ce).
  { unfold referenced, compose. destruct (rot_ref q2) as [[? ?]|]; by destruct ce. }
  destruct Hxyz as (-> & -> & ->). unfold pose_is_finite in Efin.
  assert (Hxyz : is_finite (x_mm ce) = true /\ is_finite (y_mm ce) = true /\ is_finite (z_mm ce) = true).
  { unfold referenced, compose in Efin. destruct (rot_ref q2) as [[? ?]|], ce; cbn in *;
      repeat (apply andb_prop in Efin as [Efin ?]); done. }
  destruct Hxyz as (F1 & F2 & F3). rewrite Ex in *. rewrite Ey in *. rewrite Ez in *.
  by rewrite !fsub_self_finite.
Qed.
(** ** Blinks *)

(** The offsets of frames whose gaze is away, each with its head and its instant. *)
Fixpoint blink (cfg : OutputConfig) (c : DisplayCorners) (fs : list (HeadPose * Z)) (p : FramePipeline)
    : option (list (f64 * f64)) :=
  match fs with
  | [] => Some []
  | (raw, now) :: fs =>
      '(ev, p) ← view_offset cfg (Some c) None raw now p; evs ← blink cfg c fs p; Some (ev :: evs)
  end.

Definition held_offset (cfg : OutputConfig) (ev : f64 * f64) (t0 : Z) (f : HeadPose * Z) : f64 * f64 :=
  if saturating_duration_since f.2 t0 / 1000000 <? hold_ms (cfg_view cfg) then ev else (f64_zero, f64_zero).

Lemma blink_running cfg c ev t0 fs q : ev_enabled (cfg_view cfg) = true ->
  last_ev q = Some ev -> gaze_lost_since q = Some t0 -> blink cfg c fs q = Some (held_offset cfg ev t0 <$> fs).
Proof.
  intros He. revert q. induction fs as [|[r t] fs IH]; intros q Hl Hs; [done|]. cbn [blink]. unfold view_offset.
  rewrite He, Hs. cbn [default mbind option_bind]. rewrite IH by (by destruct q). cbn [mbind option_bind].
  rewrite fmap_cons. unfold hold_through_blink, held_offset. destruct q. cbn in Hl. by subst.
Qed.

(** A blink does not jolt the camera: after a frame that gave an Extended View offset,
    the frames without gaze that follow keep contributing exactly that offset while less
    than [hold_ms] has passed since the first of them, and exactly nothing from then on,
    however the head moves meanwhile. *)
Theorem blink_holds_then_releases cfg c g raw now p ev p1 raw0 t0 fs
    (He : ev_enabled (cfg_view cfg) = true)
    (Hv : view_offset cfg (Some c) (Some g) raw now p = Some (ev, p1)) :
  blink cfg c ((raw0, t0) :: fs) p1
  = Some (held_offset cfg ev t0 <$> (raw0, t0) :: fs).
Proof.
  assert (H1 : last_ev p1 = Some ev /\ gaze_lost_since p1 = None).
  { revert Hv. unfold view_offset. rewrite He. destruct (extended_view _ _ _ _); [|done]. by intros [= <- <-]. }
  destruct H1 as [Hl Hs]. clear Hv. cbn [blink]. unfold view_offset. rewrite He, Hs. cbn [default mbind option_bind].
  rewrite (blink_running _ _ ev t0) by (destruct p1; done). cbn [mbind option_bind]. rewrite fmap_cons.
  unfold hold_through_blink, held_offset. destruct p1. cbn in Hl. by subst.
Qed.
End Theorems.

(** ** Witnesses *)

#[local] Existing Instance small_angles.

Definition cfg0 : OutputConfig := {default_config with filter_alpha := of_int 1}.
Definition screen : DisplayCorners :=
  {| tl := (of_int (-300), of_int 340, f64_zero); tr := (of_int 300, of_int 340, f64_zero); bl := (of_int (-300), of_int 4, f64_zero) |}.
Definition head_at (x yaw : Z) : HeadPose :=
  {| x_mm := of_int x; y_mm := of_int 100; z_mm := of_int 680; yaw_deg := of_int yaw; pitch_deg := f64_zero; roll_deg := f64_zero |}.
(** A frame of a tracked user looking at [g]; one with nobody. *)
Definition looking (g : option vec2) (x yaw : Z) (corners : option DisplayCorners) (ms : Z) : Input :=
  {| i_sample := {sample0 with present_mask := Z.lor present.GAZE_2D (Z.lor present.VALIDITY_L present.VALIDITY_R);
                     validity_l := match g with Some _ => 0 | None => 4 end; validity_r := 4;
                     gaze_point_2d := default zero2 g};
     i_pose := Some {| sp_pose := head_at x yaw; rotation_at := millis ms |};
     i_cfg := cfg0; i_corners := corners; i_now := millis ms |}.
Definition nobody (ms : Z) : Input :=
  {| i_sample := {sample0 with validity_l := 4; validity_r := 4}; i_pose := None; i_cfg := cfg0; i_corners := None;
     i_now := millis ms |}.
Definition edge : vec2 := (of_int 1, lit 1 2).

Lemma pipeline_never_panics_witness :
  Forall (fun e => match e with Frame_ i => cfg_ok (i_cfg i) | Recentre_ _ => True end)
    [Frame_ (looking (Some edge) 10 5 (Some screen) 0); Recentre_ 3; Frame_ (nobody 2000)]
  /\ exists p, run [Frame_ (looking (Some edge) 10 5 (Some screen) 0); Recentre_ 3; Frame_ (nobody 2000)] (new_pipeline cfg0) = Some p.
Proof.
  assert (H : Forall (fun e => match e with Frame_ i => cfg_ok (i_cfg i) | Recentre_ _ => True end)
    [Frame_ (looking (Some edge) 10 5 (Some screen) 0); Recentre_ 3; Frame_ (nobody 2000)]).
  { constructor; [split; reflexivity|]. constructor; [exact I|]. constructor; [split; reflexivity|constructor]. }
  split; [exact H|]. exact (pipeline_never_panics _ cfg0 H).
Defined.

Lemma gaze_never_moves_the_reference_witness :
  let es k := [Recentre_ 0; Frame_ (looking (Some edge) 10 5 k 0); Frame_ (looking (Some edge) 12 6 k 30)] in
  let cfg' := {cfg0 with filter_alpha := half} in
  exists p q, run (es (Some screen)) (new_pipeline cfg0) = Some p /\ run (es None) (new_pipeline cfg') = Some q
  /\ head_state p = head_state q.
Proof.
  intros es cfg'.
  assert (H1 : is_Some (run (es (Some screen)) (new_pipeline cfg0))) by (vm_compute; eauto).
  assert (H2 : is_Some (run (es None) (new_pipeline cfg'))) by (vm_compute; eauto).
  destruct H1 as [p Hp], H2 as [q Hq]. exists p, q. split; [exact Hp|]. split; [exact Hq|].
  apply (gaze_never_moves_the_reference (es (Some screen)) (es None) cfg0 cfg' p q); [|exact Hp|exact Hq].
  constructor; [reflexivity|]. constructor; [repeat split|]. constructor; [repeat split|constructor].
Defined.

(** A second of a still head, with a recentre asked for at its start. *)
Definition still_history : list event :=
  Recentre_ 0 :: ((fun k => Frame_ (looking (Some edge) 10 5 None (Z.of_nat k * 30))) <$> seq 0 30).
Definition still_second : FramePipeline := default (new_pipeline cfg0) (run still_history (new_pipeline cfg0)).

Lemma reference_moves_only_when_asked_witness :
  exists fr q, step (looking (Some edge) 10 5 None 1000) still_second = Some (fr, q)
  /\ rot_ref still_second = None /\ rot_ref q = Some (of_int 5, f64_zero)
  /\ exists t0 before y rl ys rs, since_request still_history (new_pipeline cfg0) None = Some (t0, before)
     /\ last_recentre q = Some (Applied y rl (fmax ys rs)) /\ fle ys (of_int 8) = true.
Proof.
  assert (H : (fun fq => rot_ref fq.2) <$> step (looking (Some edge) 10 5 None 1000) still_second
              = Some (Some (of_int 5, f64_zero))) by (vm_compute; reflexivity).
  assert (Hn : rot_ref still_second = None) by (vm_compute; reflexivity).
  assert (Hr : run still_history (new_pipeline cfg0) = Some still_second) by (vm_compute; reflexivity).
  destruct (step (looking (Some edge) 10 5 None 1000) still_second) as [[fr q]|] eqn:E; [|discriminate H].
  exists fr, q. assert (Hq : rot_ref q = Some (of_int 5, f64_zero)) by (cbn [fmap option_fmap option_map snd] in H; congruence).
  split; [reflexivity|]. split; [exact Hn|]. split; [exact Hq|].
  destruct (reference_moves_only_when_asked _ _ _ _ _ _ Hr E)
    as [H'|(t0 & before & y & rl & ys & rs & Ha & _ & _ & Hl & _ & _ & _ & _ & Hb & _)].
  - exfalso. congruence.
  - exists t0, before, y, rl, ys, rs. split; [exact Ha|]. split; [exact Hl|exact Hb].
Defined.

(** The user leaves for a second and comes back elsewhere. *)
Lemma returning_user_is_centred_witness :
  exists f1 p1 f2 p2 o, step (nobody 3000) still_second = Some (f1, p1)
  /\ step (looking (Some edge) 400 9 (Some screen) 3030) p1 = Some (f2, p2) /\ f_pose f2 = Some o
  /\ (x_mm o, y_mm o, z_mm o) = (f64_zero, f64_zero, f64_zero).
Proof.
  assert (H1 : (fun fq => f_pose fq.1) <$> step (nobody 3000) still_second = Some None) by (vm_compute; reflexivity).
  assert (H2 : is_Some ('(_, p1) ← step (nobody 3000) still_second;
                        '(f2, _) ← step (looking (Some edge) 400 9 (Some screen) 3030) p1; f_pose f2)) by (vm_compute; eauto).
  assert (Hg : gone (i_now (nobody 3000)) still_second = true) by (vm_compute; reflexivity).
  destruct H2 as [o Ho]. apply bind_Some in Ho as ([f1 p1] & E1 & Ho). apply bind_Some in Ho as ([f2 p2] & E2 & Ho).
  rewrite E1 in H1. exists f1, p1, f2, p2, o.
  split; [exact E1|]. split; [exact E2|]. split; [exact Ho|].
  assert (Hf : f_pose f1 = None) by (cbn [fmap option_fmap option_map fst] in H1; congruence).
  apply (returning_user_is_centred _ _ _ _ _ _ _ _ E1 Hf Hg E2 Ho).
Defined.

Lemma blink_holds_then_releases_witness :
  exists ev p1, view_offset cfg0 (Some screen) (Some edge) (head_at 0 0) 0 (new_pipeline cfg0) = Some (ev, p1)
  /\ blink cfg0 screen [(head_at 1 0, millis 30); (head_at 2 0, millis 200); (head_at 3 0, millis 230)] p1
     = Some [ev; ev; (f64_zero, f64_zero)] /\ ev <> (f64_zero, f64_zero).
Proof.
  assert (H : (fun e => SFltb f64_zero e.1.1) <$> view_offset cfg0 (Some screen) (Some edge) (head_at 0 0) 0 (new_pipeline cfg0)
              = Some true) by (vm_compute; reflexivity).
  destruct (view_offset cfg0 (Some screen) (Some edge) (head_at 0 0) 0 (new_pipeline cfg0)) as [[ev p1]|] eqn:E; [|discriminate H].
  exists ev, p1. split; [reflexivity|]. split.
  - exact (blink_holds_then_releases cfg0 screen edge (head_at 0 0) 0 _ ev p1 (head_at 1 0) (millis 30)
      [(head_at 2 0, millis 200); (head_at 3 0, millis 230)] eq_refl E).
  - intros ->. discriminate H.
Defined.
