(* ===== verification/CargoRecord.v ===== *)
(** * CargoRecord: what Cargo says it installed (crates/tobii-cli/src/uninstall.rs)

    The reader of [.crates.toml] and [.crates2.json], and the binaries it makes of them that
    are left to Cargo. [record_reads_back]: what Cargo writes is read as it was written;
    [value_enough]: the fuel is enough for any text. *)
From S2P Require Import Prelude Utf8 Text Bytelines Paths Install CustomGames.

(** ** The reader: the bytes not read yet *)
#[local] Set Warnings "-register-all".
Inductive Value := Str (s : text) | List (l : list Value) | Map (m : list (text * Value)) | Other.
Definition eat (c : Z) (s : bytes) : option bytes := match s with b :: s => if u8 b =? c then Some s else None | [] => None end.
(** To the end of the line. *)
Fixpoint line (s : bytes) : bytes := match s with b :: s' => if u8 b =? 10 then s else line s' | [] => [] end.
Fixpoint blank_from (comment : bool) (s : bytes) : bytes :=
  match s with
  | [] => []
  | b :: s' =>
      if comment then (if u8 b =? 10 then blank_from false s' else blank_from true s')
      else if (u8 b =? 32) || (u8 b =? 9) || (u8 b =? 13) || (u8 b =? 10) then blank_from false s'
      else if u8 b =? 35 then blank_from true s' else s
  end.
Definition blank (s : bytes) : bytes := blank_from false s.
(** To the next quote or backslash. *)
Fixpoint plain (s : bytes) : bytes * bytes :=
  match s with
  | [] => ([], [])
  | b :: s' => if (u8 b =? 34) || (u8 b =? 92) then ([], s) else let '(p, r) := plain s' in (b :: p, r)
  end.
Definition escape (e : byte) (s : bytes) : option (text * bytes) :=
  match u8 e with
  | 110 => Some ([10], s)
  | 116 => Some ([9], s)
  | 114 => Some ([13], s)
  | 98 => Some ([8], s)
  | 102 => Some ([12], s)
  | 117 =>
      if (length s <? 4)%nat then None
      else hex ← utf8_decode (take 4 s);
           Some ([default 0xfffd (v ← parse_uint 32 16 hex; char_from_u32 v)], drop 4 s)
  | c => Some ([c], s)
  end.
Fixpoint string_loop (fuel : nat) (s : bytes) (out : text) : option (text * bytes) :=
  match fuel with
  | O => None
  | S fuel =>
      let '(p, s) := plain s in
      p ← utf8_decode p;
      let out := out ++ p in
      match s with
      | [] => None
      | b :: s =>
          if u8 b =? 34 then Some (out, s)
          else match s with
               | [] => None
               | e :: s => '(c, s) ← escape e s; string_loop fuel s (out ++ c)
               end
      end
  end.
Definition string (s : bytes) : option (text * bytes) := s ← eat 34 s; string_loop (S (length s)) s [].
Definition word_byte (b : byte) : bool := is_ascii_alphanumeric (u8 b) || (u8 b =? 43) || (u8 b =? 45) || (u8 b =? 46).
Fixpoint word_end (s : bytes) : bytes := match s with b :: s' => if word_byte b then word_end s' else s | [] => [] end.
Definition close_of (open : Z) : Z := if open =? 91 then 93 else 125.
Definition closed (open : Z) (l : list Value) (m : list (text * Value)) : Value := if open =? 91 then List l else Map m.
(** A value, and the items of an array or a table from the place after one. *)
Fixpoint value_from (fuel : nat) (depth : Z) (s : bytes) : option (Value * bytes) :=
  match fuel with
  | O => None
  | S fuel =>
      let s := blank s in
      if 32 <? depth then None
      else match s with
           | [] => None
           | b :: rest =>
               if u8 b =? 34 then '(t, s) ← string s; Some (Str t, s)
               else if (u8 b =? 91) || (u8 b =? 123) then items_from fuel depth (u8 b) rest [] []
               else if word_byte b then Some (Other, word_end s) else None
           end
  end
with items_from (fuel : nat) (depth open : Z) (s : bytes) (l : list Value) (m : list (text * Value)) : option (Value * bytes) :=
  match fuel with
  | O => None
  | S fuel =>
      let s := blank s in
      match eat (close_of open) s with
      | Some s => Some (closed open l m, s)
      | None =>
          '(l, m, s) ←
            (if open =? 91 then '(v, s) ← value_from fuel (depth + 1) s; Some (l ++ [v], m, s)
             else '(k, s) ← string s; s ← eat 58 (blank s); '(v, s) ← value_from fuel (depth + 1) s; Some (l, m ++ [(k, v)], s));
          let s := blank s in
          match eat 44 s with
          | Some s => items_from fuel depth open s l m
          | None => s ← eat (close_of open) (blank s); Some (closed open l m, s)
          end
      end
  end.
Definition value (depth : Z) (s : bytes) : option (Value * bytes) := value_from (S (2 * length s)) depth s.

(** ** The two records *)
Definition strings (l : list Value) : list text := omap (fun v => match v with Str s => Some s | _ => None end) l.
Definition v1_header (header : bytes) : bool :=
  bool_decide (trim (default [] (head (split_char 35 (lossy_text header)))) = txt "[v1]").
Fixpoint crates_toml_from (fuel : nat) (s : bytes) (in_v1 : bool) (out : list (text * list text)) : list (text * list text) :=
  match fuel with
  | O => out
  | S fuel =>
      let s := blank s in
      match s with
      | [] => out
      | b :: _ =>
          if u8 b =? 91 then
            let after := line s in
            crates_toml_from fuel after (v1_header (take (length s - length after) s)) out
          else if (u8 b =? 34) && in_v1 then
            match ('(key, s) ← string s; s ← eat 61 (blank s); '(v, s) ← value 0 s; Some (key, v, s)) with
            | Some (key, List bins, s) => crates_toml_from fuel s in_v1 (out ++ [(key, strings bins)])
            | Some (_, _, s) => crates_toml_from fuel s in_v1 out
            | None => out
            end
          else crates_toml_from fuel (line s) in_v1 out
      end
  end.
Definition crates_toml (t : text) : list (text * list text) := let s := utf8_encode t in crates_toml_from (S (length s)) s false [].
Definition map_at (key : text) (m : list (text * Value)) : option (list (text * Value)) :=
  head (omap (fun kv => match snd kv with Map m => if text_eqb (fst kv) key then Some m else None | _ => None end) m).
Definition list_at (key : text) (m : list (text * Value)) : option (list Value) :=
  head (omap (fun kv => match snd kv with List l => if text_eqb (fst kv) key then Some l else None | _ => None end) m).
Definition install_of (kv : text * Value) : option (text * list text) :=
  match snd kv with Map fields => bins ← list_at (txt "bins") fields; Some (fst kv, strings bins) | _ => None end.
Definition crates2_json (t : text) : list (text * list text) :=
  match value 0 (utf8_encode t) with
  | Some (Map top, _) => omap install_of (default [] (map_at (txt "installs") top))
  | _ => []
  end.

(** ** What is left to Cargo *)
Definition CARGO_PACKAGES : list text := [txt "tobii-cli"; txt "tobii-gtk"].
Definition package_of (key : text) : option text :=
  find (fun p => match strip_prefix p key with Some r => starts_with [32] r | None => false end) CARGO_PACKAGES.
Definition listed_in (b : text) (e : text * list text) : option (text * text) :=
  p ← package_of (fst e); if existsb (text_eqb b) (snd e) then Some (b, p) else None.
Definition cargo_of (entries : list (text * list text)) (present : list text) : list (text * text) :=
  omap (fun b => head (omap (listed_in b) entries)) present.
Section Files.
(** The first so many bytes of a regular file, as text. *)
Context (read_regular : text -> option text).
Definition cargo_listed (dir : text) (present : list text) : list (text * text) :=
  if negb (bool_decide (file_name dir = Some (txt "bin"))) then []
  else match path_parent dir with
       | None => []
       | Some root =>
           cargo_of (match read_regular (path_join root (txt ".crates.toml")) with Some t => crates_toml t | None => [] end ++
                     match read_regular (path_join root (txt ".crates2.json")) with Some t => crates2_json t | None => [] end) present
       end.
End Files.
Definition cargo_package_list (listed : list (text * text)) : text :=
  join [32] (foldl (fun packages (e : text * text) => if existsb (text_eqb (snd e)) packages then packages else packages ++ [snd e]) [] listed).
Definition cargo_uninstall (dir packages : text) : text :=
  txt "cargo uninstall --root " ++ shell_word (default dir (path_parent dir)) ++ [32] ++ packages.
Definition cargo_hint (dir : text) (listed : list (text * text)) : text :=
  let bins := fst <$> listed in
  let '(it, it_is) := if (length bins =? 1)%nat then (txt "it", txt "it is") else (txt "them", txt "they are") in
  join (txt " and ") bins ++ txt " in " ++ dir ++ txt " came from `cargo install`, and Cargo's record beside it lists " ++ it ++ txt ", so " ++ it_is ++
  txt " left to Cargo — removed behind its back, that record would be wrong. Remove " ++ it ++ txt " with:
    " ++ cargo_uninstall dir (cargo_package_list listed).

(** ** Every text is read *)
Lemma eat_shorter c s s' : eat c s = Some s' -> (length s' < length s)%nat.
Proof. destruct s as [|b s]; [done|]. cbn. destruct (_ =? c); [|done]. intros [= ->]. lia. Qed.
Lemma line_shorter s : (length (line s) <= length s)%nat.
Proof. induction s as [|b s IH]; [done|]. cbn. destruct (_ =? 10); cbn; lia. Qed.
Lemma blank_shorter s : (length (blank s) <= length s)%nat.
Proof.
  unfold blank. generalize false as c. induction s as [|b s IH]; intros c; [done|]. cbn. pose proof (IH true). pose proof (IH false).
  repeat case_match; cbn; lia.
Qed.
Lemma plain_shorter s : (length (plain s).2 <= length s)%nat.
Proof. induction s as [|b s IH]; [done|]. cbn. destruct (_ || _); [done|]. destruct (plain s). cbn in *. lia. Qed.
Lemma escape_shorter e s c s' : escape e s = Some (c, s') -> (length s' <= length s)%nat.
Proof.
  unfold escape. assert (H : forall c0, Some (c0, s) = Some (c, s') -> (length s' <= length s)%nat) by (by intros ? [= _ ->]).
  repeat case_match; try done; try apply H. destruct (utf8_decode _); [|done]. cbn [mbind option_bind]. intros [= _ <-]. rewrite length_drop. lia.
Qed.
Lemma string_loop_shorter fuel s out t s' : string_loop fuel s out = Some (t, s') -> (length s' <= length s)%nat.
Proof.
  revert s out. induction fuel as [|fuel IH]; intros s out; [done|]. cbn [string_loop]. pose proof (plain_shorter s) as Hp.
  destruct (plain s) as [p s1]. cbn [snd] in Hp. destruct (utf8_decode p); [|done]. cbn [mbind option_bind].
  destruct s1 as [|b s1]; [done|]. destruct (_ =? 34); [intros [= _ ->]; cbn in Hp; lia|]. destruct s1 as [|e s1]; [done|].
  destruct (escape e s1) as [[c s2]|] eqn:Ee; [|done]. cbn [mbind option_bind]. intros H%IH. apply escape_shorter in Ee. cbn in Hp. lia.
Qed.
Lemma string_shorter s t s' : string s = Some (t, s') -> (length s' < length s)%nat.
Proof. unfold string. destruct (eat 34 s) as [s1|] eqn:E; [|done]. cbn [mbind option_bind]. apply eat_shorter in E. intros H%string_loop_shorter. lia. Qed.
Lemma word_shorter s : (length (word_end s) <= length s)%nat.
Proof. induction s as [|b s IH]; [done|]. cbn. destruct (word_byte b); cbn; lia. Qed.
Lemma value_shorter fuel : (forall d s v s', value_from fuel d s = Some (v, s') -> (length s' < length s)%nat) /\
  (forall d o s l m v s', items_from fuel d o s l m = Some (v, s') -> (length s' < length s)%nat).
Proof.
  induction fuel as [|fuel [IHv IHi]]; [done|]. split.
  - intros d s v s'. cbn [value_from]. pose proof (blank_shorter s). destruct (32 <? d); [done|]. destruct (blank s) as [|b r] eqn:E; [done|]. cbn [length] in *.
    destruct (_ =? 34) eqn:Eq.
    + destruct (string (b :: r)) as [[t s1]|] eqn:Es; [|done]. cbn [mbind option_bind]. intros [= _ ->]. apply string_shorter in Es. cbn [length] in Es. lia.
    + destruct (_ || _); [intros Hi%IHi; lia|]. destruct (word_byte b) eqn:Ew; [|done]. intros [= _ <-]. cbn [word_end]. rewrite Ew. pose proof (word_shorter r). lia.
  - intros d o s l m v s'. cbn [items_from]. pose proof (blank_shorter s). destruct (eat (close_of o) (blank s)) as [s1|] eqn:E.
    { intros [= _ ->]. apply eat_shorter in E. lia. }
    destruct (if o =? 91 then _ else _) as [[[l' m'] s1]|] eqn:Ee; [|done]. cbn [mbind option_bind].
    assert (Hs : (length s1 < length s)%nat).
    { destruct (o =? 91).
      - destruct (value_from fuel (d + 1) (blank s)) as [[v1 s2]|] eqn:Ev; [|done]. injection Ee as _ _ ->. apply IHv in Ev. lia.
      - destruct (string (blank s)) as [[k s2]|] eqn:Es; [|done]. cbn [mbind option_bind] in Ee. apply string_shorter in Es. pose proof (blank_shorter s2).
        destruct (eat 58 (blank s2)) as [s3|] eqn:E3; [|done]. cbn [mbind option_bind] in Ee. apply eat_shorter in E3.
        destruct (value_from fuel (d + 1) s3) as [[v1 s4]|] eqn:Ev; [|done]. injection Ee as _ _ ->. apply IHv in Ev. lia. }
    pose proof (blank_shorter s1). destruct (eat 44 (blank s1)) as [s2|] eqn:E2; [intros Hi%IHi; apply eat_shorter in E2; lia|].
    pose proof (blank_shorter (blank s1)). destruct (eat (close_of o) (blank (blank s1))) as [s2|] eqn:E3; [|done]. cbn [mbind option_bind]. intros [= _ ->].
    apply eat_shorter in E3. lia.
Qed.
(** More fuel than the reader takes changes nothing. *)
Lemma value_more fuel : (forall d s k, (2 * length s < fuel)%nat -> value_from (fuel + k) d s = value_from fuel d s) /\
  (forall d o s l m k, (2 * length s + 1 < fuel)%nat -> items_from (fuel + k) d o s l m = items_from fuel d o s l m).
Proof.
  induction fuel as [|fuel [IHv IHi]]; [split; intros; lia|]. split; intros.
  - cbn [value_from Nat.add]. pose proof (blank_shorter s). destruct (32 <? d); [done|]. destruct (blank s) as [|b r]; [done|]. cbn [length] in *.
    destruct (_ =? 34); [done|]. destruct (_ || _); [|done]. apply IHi. lia.
  - cbn [items_from Nat.add]. pose proof (blank_shorter s). destruct (eat (close_of o) (blank s)) as [s1|]; [done|].
    assert (Hv : forall s1, (length s1 <= length s)%nat -> value_from (fuel + k) (d + 1) s1 = value_from fuel (d + 1) s1) by (intros; apply IHv; lia).
    assert (Ee : (if o =? 91 then '(v, s1) ← value_from (fuel + k) (d + 1) (blank s); Some (l ++ [v], m, s1)
        else '(k0, s1) ← string (blank s); s1 ← eat 58 (blank s1); '(v, s1) ← value_from (fuel + k) (d + 1) s1; Some (l, m ++ [(k0, v)], s1)) =
      (if o =? 91 then '(v, s1) ← value_from fuel (d + 1) (blank s); Some (l ++ [v], m, s1)
        else '(k0, s1) ← string (blank s); s1 ← eat 58 (blank s1); '(v, s1) ← value_from fuel (d + 1) s1; Some (l, m ++ [(k0, v)], s1))).
    { destruct (o =? 91); [rewrite Hv by lia; done|]. destruct (string (blank s)) as [[k0 s1]|] eqn:Es; [|done]. cbn [mbind option_bind]. apply string_shorter in Es.
      destruct (eat 58 (blank s1)) as [s2|] eqn:E2; [|done]. cbn [mbind option_bind]. apply eat_shorter in E2. pose proof (blank_shorter s1). rewrite Hv by lia. done. }
    rewrite Ee. match goal with |- ?x ≫= _ = _ => destruct x as [[[l' m'] s1]|] eqn:Er; [|reflexivity] end. cbn [mbind option_bind].
    assert (Hs : (length s1 < length s)%nat).
    { clear Ee. destruct (o =? 91).
      - destruct (value_from fuel (d + 1) (blank s)) as [[v1 s2]|] eqn:Ev; [|done]. injection Er as _ _ ->. apply value_shorter in Ev. lia.
      - destruct (string (blank s)) as [[k0 s2]|] eqn:Es; [|done]. cbn [mbind option_bind] in Er. apply string_shorter in Es. pose proof (blank_shorter s2).
        destruct (eat 58 (blank s2)) as [s3|] eqn:E3; [|done]. cbn [mbind option_bind] in Er. apply eat_shorter in E3.
        destruct (value_from fuel (d + 1) s3) as [[v1 s4]|] eqn:Ev; [|done]. injection Er as _ _ ->. apply value_shorter in Ev. lia. }
    pose proof (blank_shorter s1). destruct (eat 44 (blank s1)) as [s2|] eqn:E2; [|done]. apply eat_shorter in E2. apply IHi. lia.
Qed.
(** The fuel a value is read with is enough. *)
Theorem value_enough (depth : Z) (s : bytes) (k : nat) : value_from (S (2 * length s) + k) depth s = value depth s.
Proof. apply value_more. lia. Qed.

(** ** What Cargo writes is read back *)
Definition special (c : char) : bool := (c =? 34) || (c =? 92).
Definition escaped (t : text) : text := t ≫= fun c => if special c then [92; c] else [c].
Definition quoted (t : text) : text := 34 :: escaped t ++ [34].
Definition bins_text (bins : list text) : text := 91 :: join (txt ", ") (quoted <$> bins) ++ [93].
Definition toml_entry (e : text * list text) : text := quoted e.1 ++ txt " = " ++ bins_text e.2 ++ [10].
Definition toml_record (entries : list (text * list text)) : text := txt "[v1]" ++ 10 :: (entries ≫= toml_entry).
Definition entry_chars (e : text * list text) : Prop := scalars e.1 /\ Forall scalars e.2.

Lemma plain_piece (p r : bytes) : Forall (fun b => u8 b <> 34 /\ u8 b <> 92) p -> match r with b :: _ => (u8 b =? 34) || (u8 b =? 92) = true | [] => True end ->
  plain (p ++ r) = (p, r).
Proof.
  intros Hp Hr. induction Hp as [|b p [H1 H2] _ IH]; cbn [app plain].
  - destruct r as [|b r]; [done|]. cbn [plain]. by rewrite Hr.
  - rewrite (proj2 (Z.eqb_neq _ _) H1), (proj2 (Z.eqb_neq _ _) H2). cbn [orb]. by rewrite IH.
Qed.
Lemma plain_text t r : scalars t -> Forall (fun c => special c = false) t -> match r with b :: _ => (u8 b =? 34) || (u8 b =? 92) = true | [] => True end ->
  plain (utf8_encode t ++ r) = (utf8_encode t, r).
Proof.
  intros Hs Ht. apply plain_piece. apply Forall_and. split; apply encode_text_low; (done || lia || idtac);
    eapply Forall_impl; try exact Ht; intros c [H1 H2]%orb_false_iff; lia.
Qed.
Lemma special_split t : Forall (fun c => special c = false) t \/ exists p c r, t = p ++ c :: r /\ Forall (fun c => special c = false) p /\ special c = true.
Proof.
  induction t as [|c t [IH|(p & x & r & -> & Hp & Hx)]]; [left; constructor| |].
  - destruct (special c) eqn:E; [right; exists [], c, t; split_and!; [done|constructor|done]|left; by constructor].
  - destruct (special c) eqn:E; [right; exists [], c, (p ++ x :: r); split_and!; [done|constructor|done]|right; exists (c :: p), x, r; split_and!; [done|by constructor|done]].
Qed.
Lemma escaped_plain t : Forall (fun c => special c = false) t -> escaped t = t.
Proof. induction 1 as [|c t Hc _ IH]; [done|]. unfold escaped in *. cbn. by rewrite Hc, IH. Qed.
Lemma encode_app a b : utf8_encode (a ++ b) = utf8_encode a ++ utf8_encode b.
Proof. unfold utf8_encode. by rewrite bind_app. Qed.
Lemma special_byte c : special c = true -> exists b, utf8_encode [c] = [b] /\ u8 b = c /\ (u8 b =? 34) || (u8 b =? 92) = true /\ escape b = fun s => Some ([c], s).
Proof. unfold special. intros [-> %Z.eqb_eq | -> %Z.eqb_eq]%orb_true_iff; eexists; split_and!; reflexivity. Qed.
Lemma string_loop_reads fuel t out s : (length t < fuel)%nat -> scalars t ->
  string_loop fuel (utf8_encode (escaped t ++ [34]) ++ s) out = Some (out ++ t, s).
Proof.
  revert t out. induction fuel as [|fuel IH]; intros t out Hf Hs; [lia|]. cbn [string_loop].
  destruct (special_split t) as [Hp|(p & c & r & -> & Hp & Hc)].
  - rewrite escaped_plain, encode_app, <- app_assoc, plain_text by (done || reflexivity). rewrite decode_encode by done. reflexivity.
  - apply Forall_app in Hs as [Hs1 [Hc1 Hs2]%Forall_cons]. assert (E : escaped (p ++ c :: r) = p ++ [92] ++ [c] ++ escaped r).
    { unfold escaped at 1. rewrite bind_app. fold (escaped p). rewrite (escaped_plain p Hp). cbn. by rewrite Hc. }
    destruct (special_byte c Hc) as (b & Eb & _ & _ & Ee). rewrite E, !encode_app, Eb, <- !app_assoc.
    rewrite plain_text by (done || reflexivity). rewrite decode_encode by done. cbn [mbind option_bind]. change (utf8_encode [92]) with [x5c]. cbn [app].
    change (u8 x5c =? 34) with false. cbn iota. rewrite Ee. cbn [mbind option_bind]. rewrite app_assoc, <- encode_app, IH by (done || rewrite length_app in Hf; cbn in Hf; lia).
    by rewrite <- !app_assoc.
Qed.
Lemma encode_length t : scalars t -> (length t <= length (utf8_encode t))%nat.
Proof.
  induction 1 as [|c t Hc _ IH]; [done|]. change (utf8_encode (c :: t)) with (encode_char c ++ utf8_encode t). rewrite length_app.
  destruct (step_encoded c [] Hc) as (b & l & -> & _). cbn. lia.
Qed.
Lemma escaped_length t : (length t <= length (escaped t))%nat.
Proof. induction t as [|c t IH]; [done|]. unfold escaped in *. cbn. destruct (special c); cbn; lia. Qed.
Lemma escaped_scalars t : scalars t -> scalars (escaped t).
Proof. induction 1 as [|c t Hc _ IH]; [constructor|]. unfold escaped in *. cbn. destruct (special c); by repeat (apply Forall_cons_2; [done|]). Qed.
Lemma string_reads t s : scalars t -> string (utf8_encode (quoted t) ++ s) = Some (t, s).
Proof.
  intros Hs. unfold string, quoted. change (utf8_encode (34 :: escaped t ++ [34])) with (x22 :: utf8_encode (escaped t ++ [34])). cbn [app eat].
  change (u8 x22 =? 34) with true. cbn [mbind option_bind]. apply (string_loop_reads _ t []); [|done].
  rewrite length_app, encode_app, length_app. pose proof (encode_length _ (escaped_scalars t Hs)). pose proof (escaped_length t). lia.
Qed.
Lemma quoted_front t s : exists r, utf8_encode (quoted t) ++ s = x22 :: r.
Proof. unfold quoted. eexists. change (utf8_encode (34 :: ?x)) with (x22 :: utf8_encode x). reflexivity. Qed.
Lemma blank_quoted t s : blank (utf8_encode (quoted t) ++ s) = utf8_encode (quoted t) ++ s.
Proof. destruct (quoted_front t s) as [r ->]. reflexivity. Qed.
Lemma value_reads_text fuel d t s s0 : (0 < fuel)%nat -> d <= 32 -> scalars t -> blank s0 = utf8_encode (quoted t) ++ s ->
  value_from fuel d s0 = Some (Str t, s).
Proof.
  intros Hf Hd Ht Hb. destruct fuel as [|fuel]; [lia|]. cbn [value_from]. rewrite Hb. destruct (Z.ltb_spec 32 d); [lia|].
  destruct (quoted_front t s) as [r E]. rewrite E. change (u8 x22 =? 34) with true. cbn iota. rewrite <- E, string_reads by done. reflexivity.
Qed.
Definition listed_text (bins : list text) : text := join (txt ", ") (quoted <$> bins) ++ [93].
Lemma items_read fuel d bins acc s s0 : (length bins < fuel)%nat -> (1 < fuel)%nat -> d < 32 -> Forall scalars bins -> blank s0 = utf8_encode (listed_text bins) ++ s ->
  items_from fuel d 91 s0 acc [] = Some (List (acc ++ (Str <$> bins)), s).
Proof.
  intros Hf _ Hd Hb. revert fuel acc s0 Hf. induction Hb as [|t bins Ht Hb IH]; intros fuel acc s0 Hf E; (destruct fuel as [|fuel]; [cbn in Hf; lia|]); cbn [items_from]; rewrite E.
  - change (utf8_encode (listed_text []) ++ s) with (x5d :: s). cbn. by rewrite app_nil_r.
  - assert (Es : exists tail, utf8_encode (listed_text (t :: bins)) ++ s = utf8_encode (quoted t) ++ tail /\
      tail = match bins with [] => x5d :: s | _ => x2c :: x20 :: utf8_encode (listed_text bins) ++ s end).
    { eexists. split; [|reflexivity]. unfold listed_text. destruct bins as [|t' bins].
      - cbn [fmap list_fmap join]. rewrite encode_app, <- app_assoc. reflexivity.
      - change (join (txt ", ") (quoted <$> t :: t' :: bins)) with (quoted t ++ txt ", " ++ join (txt ", ") (quoted <$> t' :: bins)).
        rewrite <- !app_assoc, !encode_app, <- !app_assoc. reflexivity. }
    destruct Es as (tail & Es & Et). rewrite Es. destruct (quoted_front t tail) as [r Er].
    assert (Hc : eat (close_of 91) (utf8_encode (quoted t) ++ tail) = None) by (by rewrite Er). rewrite Hc. change (91 =? 91) with true. cbn iota.
    assert (Hv : (0 < fuel)%nat -> value_from fuel (d + 1) (utf8_encode (quoted t) ++ tail) = Some (Str t, tail)).
    { intros ?. apply value_reads_text; [done|lia|done|apply blank_quoted]. }
    rewrite Hv by (cbn in Hf; lia). cbn [mbind option_bind]. subst tail. destruct bins as [|t' bins].
    + reflexivity.
    + change (blank (x2c :: ?x)) with (x2c :: x). cbn [eat]. change (u8 x2c =? 44) with true. cbn iota. rewrite IH.
      * by rewrite <- app_assoc.
      * cbn in Hf |- *. lia.
      * unfold listed_text. destruct (quoted_front t' (match bins with [] => x5d :: s | _ => x2c :: x20 :: utf8_encode (listed_text bins) ++ s end)) as [r' Er'].
        assert (E1 : exists r1, utf8_encode (join (txt ", ") (quoted <$> t' :: bins) ++ [93]) ++ s = x22 :: r1).
        { destruct bins as [|t2 bins]; [|change (join (txt ", ") (quoted <$> t' :: t2 :: bins)) with (quoted t' ++ txt ", " ++ join (txt ", ") (quoted <$> t2 :: bins)); rewrite <- app_assoc].
          all: rewrite encode_app, <- app_assoc; apply quoted_front. }
        destruct E1 as [r1 E1]. by rewrite E1.
Qed.
Lemma bins_read bins s : Forall scalars bins -> value 0 (x20 :: utf8_encode (bins_text bins) ++ s) = Some (List (Str <$> bins), s).
Proof.
  intros Hb. unfold value, bins_text. change (utf8_encode (91 :: ?x)) with (x5b :: utf8_encode x). cbn [app].
  cbn [value_from]. change (blank (x20 :: x5b :: ?x)) with (x5b :: x). change (32 <? 0) with false. cbn iota. change (u8 x5b =? 34) with false. change ((u8 x5b =? 91) || _) with true. cbn iota.
  change (u8 x5b) with 91. apply (items_read _ 0 bins [] s); [|cbn; lia|lia|done|].
  - cbn [length]. rewrite length_app. assert (H : (length bins <= length (utf8_encode (join (txt ", ") (quoted <$> bins) ++ [93%Z])))%nat); [|lia].
    clear Hb. induction bins as [|t [|t' bins] IH]; [cbn; lia| |].
    + cbn [fmap list_fmap join]. rewrite encode_app, length_app. change (length (utf8_encode [93])) with 1%nat. cbn. lia.
    + change (join (txt ", ") (quoted <$> t :: t' :: bins)) with (quoted t ++ txt ", " ++ join (txt ", ") (quoted <$> t' :: bins)).
      rewrite <- app_assoc, <- app_assoc, encode_app, encode_app, !length_app. change (length (utf8_encode (txt ", "))) with 2%nat. cbn [length] in *. lia.
  - unfold listed_text. destruct bins as [|t bins]; [reflexivity|].
    assert (E1 : exists r1, utf8_encode (join (txt ", ") (quoted <$> t :: bins) ++ [93]) ++ s = x22 :: r1).
    { destruct bins as [|t2 bins]; [|change (join (txt ", ") (quoted <$> t :: t2 :: bins)) with (quoted t ++ txt ", " ++ join (txt ", ") (quoted <$> t2 :: bins)); rewrite <- app_assoc].
      all: rewrite encode_app, <- app_assoc; apply quoted_front. }
    destruct E1 as [r1 E1]. by rewrite E1.
Qed.
Lemma strings_back bins : strings (Str <$> bins) = bins.
Proof. unfold strings. induction bins as [|b bins IH]; [done|]. cbn. by rewrite IH. Qed.
Lemma toml_from_newline fuel s in_v1 out : crates_toml_from fuel (x0a :: s) in_v1 out = crates_toml_from fuel s in_v1 out.
Proof. destruct fuel; reflexivity. Qed.
Lemma entry_read fuel e s out : entry_chars e -> crates_toml_from (S fuel) (utf8_encode (toml_entry e) ++ s) true out = crates_toml_from fuel s true (out ++ [e]).
Proof.
  intros [Hk Hb]. destruct e as [key bins]. cbn [fst snd] in *.
  set (rest := utf8_encode (bins_text bins) ++ x0a :: s).
  assert (E : utf8_encode (toml_entry (key, bins)) ++ s = utf8_encode (quoted key) ++ x20 :: x3d :: x20 :: rest).
  { unfold toml_entry, rest. cbn [fst snd]. rewrite !encode_app, <- !app_assoc. reflexivity. }
  rewrite E. cbn [crates_toml_from]. rewrite blank_quoted. destruct (quoted_front key (x20 :: x3d :: x20 :: rest)) as [r Er]. rewrite Er.
  change (u8 x22 =? 91) with false. change ((u8 x22 =? 34) && true) with true. cbn iota. rewrite <- Er, string_reads by done. cbn [mbind option_bind].
  change (eat 61 (blank (x20 :: x3d :: x20 :: rest))) with (Some (x20 :: rest)). cbn [mbind option_bind]. unfold rest at 1. rewrite bins_read by done.
  cbn [mbind option_bind]. by rewrite strings_back, toml_from_newline.
Qed.
Lemma entries_read fuel entries out : (length entries < fuel)%nat -> Forall entry_chars entries ->
  crates_toml_from fuel (utf8_encode (entries ≫= toml_entry)) true out = out ++ entries.
Proof.
  intros Hf He. revert fuel out Hf. induction He as [|e entries He _ IH]; intros fuel out Hf; (destruct fuel as [|fuel]; [cbn in Hf; lia|]).
  - cbn. by rewrite app_nil_r.
  - change ((e :: entries) ≫= toml_entry) with (toml_entry e ++ (entries ≫= toml_entry)). rewrite encode_app, entry_read by done.
    rewrite IH by (cbn in Hf; lia). by rewrite <- app_assoc.
Qed.
Lemma record_length entries : (length entries <= length (utf8_encode (entries ≫= toml_entry)))%nat.
Proof.
  induction entries as [|e entries IH]; [done|]. change ((e :: entries) ≫= toml_entry) with (toml_entry e ++ (entries ≫= toml_entry)).
  assert (He : (0 < length (utf8_encode (toml_entry e)))%nat).
  { unfold toml_entry. destruct (quoted_front e.1 []) as [r Er]. rewrite app_nil_r in Er. rewrite encode_app, length_app, Er. cbn [length]. lia. }
  rewrite encode_app, length_app. cbn [length]. lia.
Qed.
(** The record Cargo writes of what it installed is read as it was written. *)
Theorem record_reads_back (entries : list (text * list text)) : Forall entry_chars entries -> crates_toml (toml_record entries) = entries.
Proof.
  intros He. unfold crates_toml, toml_record. set (s := utf8_encode (entries ≫= toml_entry)).
  assert (E : utf8_encode (txt "[v1]" ++ 10 :: (entries ≫= toml_entry)) = x5b :: x76 :: x31 :: x5d :: x0a :: s) by reflexivity.
  rewrite E. pose proof (record_length entries). fold s in H. cbn [length].
  change (crates_toml_from (S ?f) (x5b :: x76 :: x31 :: x5d :: x0a :: s) false []) with
    (crates_toml_from f (x0a :: s) (v1_header (take (S (S (S (S (S (length s))))) - S (length s))%nat (x5b :: x76 :: x31 :: x5d :: x0a :: s))) []).
  replace (S (S (S (S (S (length s))))) - S (length s))%nat with 4%nat by lia.
  change (take 4 (x5b :: x76 :: x31 :: x5d :: x0a :: s)) with [x5b; x76; x31; x5d].
  assert (Ev : v1_header [x5b; x76; x31; x5d] = true) by (vm_compute; reflexivity). rewrite Ev, toml_from_newline. apply entries_read; [lia|done].
Qed.
Lemma record_reads_back_witness :
  let entries := [(txt "tobii-cli 0.1.0 (path+file:///src)", [txt "tobii"; txt "tobiid"]); (txt "a" ++ [34; 92; 8212], [])] in
  crates_toml (toml_record entries) = entries.
Proof. apply (record_reads_back [(txt "tobii-cli 0.1.0 (path+file:///src)", [txt "tobii"; txt "tobiid"]); (txt "a" ++ [34; 92; 8212], [])]). repeat (constructor; [split; cbn; repeat constructor; vm_compute; auto|]). constructor. Defined.

(** ** What is Cargo's *)
Lemma head_omap {A B} (f : A -> option B) l x : head (omap f l) = Some x <-> exists pre a post, l = pre ++ a :: post /\ f a = Some x /\ Forall (fun e => f e = None) pre.
Proof.
  induction l as [|a l IH]; cbn; [split; [done|intros ([] & ? & ? & ? & _); done]|]. destruct (f a) as [y|] eqn:E; cbn.
  - split; [intros [= ->]; exists [], a, l; auto|]. intros ([|b pre] & c & post & [= -> ->] & Hc & Hp); [congruence|]. apply Forall_inv in Hp. congruence.
  - rewrite IH. split; [intros (pre & c & post & -> & Hc & Hp); exists (a :: pre), c, post; auto|].
    intros ([|b pre] & c & post & [= -> ->] & Hc & Hp); [congruence|]. apply Forall_inv_tail in Hp. by exists pre, c, post.
Qed.
Lemma package_says key p : package_of key = Some p -> p ∈ CARGO_PACKAGES /\ exists r, key = p ++ 32 :: r.
Proof.
  unfold package_of. intros [Hin Hs]%find_some. split; [by apply list_elem_of_In|].
  destruct (strip_prefix p key) as [r|] eqn:E; [|done]. apply strip_prefix_some in E as ->. unfold starts_with in Hs.
  destruct (strip_prefix [32] r) as [r'|] eqn:Er; [|done]. apply strip_prefix_some in Er as ->. by exists r'.
Qed.
Lemma listed_says b e x : listed_in b e = Some x <-> exists p, x = (b, p) /\ package_of e.1 = Some p /\ b ∈ e.2.
Proof.
  unfold listed_in. destruct (package_of e.1) as [p|]; cbn; [|split; [done|intros (? & _ & ? & _); done]].
  destruct (existsb (text_eqb b) e.2) eqn:E.
  - apply existsb_exists in E as (c & Hc & ->%bool_decide_eq_true). split; [intros [= <-]; exists p; split_and!; auto; by apply list_elem_of_In|].
    by intros (q & -> & [= ->] & _).
  - split; [done|]. intros (q & _ & _ & Hb). apply list_elem_of_In in Hb. rewrite <- not_true_iff_false in E. destruct E.
    apply existsb_exists. exists b. split; [done|]. by apply bool_decide_eq_true.
Qed.
(** A binary is left to Cargo as of the first entry of this program's that lists it, and of no
    other program's entry. *)
Theorem left_to_cargo (entries : list (text * list text)) (present : list text) (b p : text) :
  (b, p) ∈ cargo_of entries present <->
  b ∈ present /\ exists pre key bins post, entries = pre ++ (key, bins) :: post /\ package_of key = Some p /\ b ∈ bins /\
    Forall (fun e => package_of e.1 = None \/ b ∉ e.2) pre.
Proof.
  unfold cargo_of. rewrite list_elem_of_omap. setoid_rewrite head_omap. split.
  - intros (b' & Hb & pre & [key bins] & post & -> & (q & [= <- <-] & Hk & Hi)%listed_says & Hp). split; [done|]. exists pre, key, bins, post. split_and!; [done..|].
    eapply Forall_impl; [exact Hp|]. intros e He. destruct (package_of e.1) as [q'|] eqn:Eq; [right|by left]. intros Hx.
    assert (H : listed_in b e = Some (b, q')) by (apply listed_says; eauto). congruence.
  - intros (Hb & pre & key & bins & post & -> & Hk & Hi & Hp). exists b. split; [done|]. exists pre, (key, bins), post. split_and!; [done|apply listed_says; by exists p|].
    eapply Forall_impl; [exact Hp|]. intros e He. destruct (listed_in b e) as [x|] eqn:E; [|done]. apply listed_says in E as (q & -> & Hq & Hin).
    destruct He as [He|He]; [congruence|done].
Qed.
(** A folder Cargo only ever put other programs in keeps nothing. *)
Corollary other_programs_are_not_ours (entries : list (text * list text)) (present : list text) :
  Forall (fun e => package_of e.1 = None) entries -> cargo_of entries present = [].
Proof.
  intros H. destruct (cargo_of entries present) as [|[b p] l] eqn:E; [done|]. assert (Hb : (b, p) ∈ cargo_of entries present) by (rewrite E; left).
  apply left_to_cargo in Hb as (_ & pre & key & bins & post & -> & Hk & _). apply Forall_app in H as [_ [Hk' _]%Forall_cons]. change (package_of key = None) in Hk'. congruence.
Qed.
Definition the_json : text := txt "{" ++ [34] ++ txt "installs" ++ [34] ++ txt ": {" ++ [34] ++ txt "tobii-cli 0.1.0 (x)" ++ [34] ++ txt ": {" ++ [34] ++ txt "version_req" ++ [34] ++
  txt ": null, " ++ [34] ++ txt "bins" ++ [34] ++ txt ": [" ++ [34] ++ txt "tobii" ++ [34] ++ txt "]}}}".
Example read_and_left :
  crates2_json the_json = [(txt "tobii-cli 0.1.0 (x)", [txt "tobii"])] /\
  cargo_of (crates2_json the_json) [txt "tobii"; txt "tobii-gtk"] = [(txt "tobii", txt "tobii-cli")] /\
  crates_toml (txt "# note
[v1] # keys
a = b
" ++ [34; 97; 34] ++ txt "=[true," ++ [34; 98; 34] ++ txt ",]") = [(txt "a", [txt "b"])].
Proof. vm_compute. done. Qed.
