(* ===== verification/Uninstall.v ===== *)
(** * Uninstall: what may be looked at, run and judged (crates/tobii-cli/src/uninstall.rs)

    The uninstaller's view of the system, with everything it asks in the class [Os]; which
    program may be run to ask what it is ([vet], [root_may_run], [listed_check]); which folder
    is no install; what a desktop entry runs and whether the entry goes. The root folder is
    the system's. [vetted_is_ours_alone]: what is let through, no other account can swap, whichever
    links a lookup of its name goes through ([on_the_way]);
    [entry_goes_with_its_program]: an entry goes only with the program it runs. *)
From stdpp Require Import relations.
From S2P Require Import Prelude F64 Utf8 Text Bytelines Paths Net Install Steam Store Autostart Folder.

(** ** What the system answers *)
Inductive ErrorKind := NotFound | NotADirectory | PermissionDenied | OtherKind.
Record IoError := { error_kind : ErrorKind; message : text }.
Inductive FileType := Regular | Directory | Symlink | Special.
#[export] Instance file_type_eq_dec : EqDecision FileType. Proof. solve_decision. Defined.
Record Stat := { st_uid : Z; st_gid : Z; st_mode : Z; file_type : FileType }.
Definition meta_of (m : Stat) : Meta := {| uid := st_uid m; gid := st_gid m; mode := st_mode m; is_dir := bool_decide (file_type m = Directory) |}.
(** [open_file]: opened not following a link nor waiting for a writer, with what fstat says of
    it and what is read from it. *)
Class Os := {
  symlink_metadata : text -> result IoError Stat;
  metadata : text -> result IoError Stat;
  canonicalize : text -> result IoError text;
  read_link : text -> option text;
  read_dir : text -> option (list text);
  read_to_string : text -> option text;
  open_file : text -> result IoError (result IoError Stat * result IoError bytes)
}.
Definition same (a b : text) : bool := same_path a b.
Definition has (l : list text) (p : text) : bool := lists l p.
Definition map_err {E F A} (f : E -> F) (r : result E A) : result F A := match r with Ok a => Ok a | Err e => Err (f e) end.
Definition is_gone (e : IoError) : bool := match error_kind e with NotFound | NotADirectory => true | _ => false end.
Definition is_regular (m : Stat) : bool := bool_decide (file_type m = Regular).
(** A directory with the sticky bit has no writers: an entry of it is looked at on its own. *)
Definition foreign_writer (m : Stat) (private_group : Z -> bool) : option text :=
  if bool_decide (file_type m = Directory) && has_bit (meta_of m) STICKY then None else Folder.foreign_writer (meta_of m) private_group.
Inductive Unvetted := Refused (short why : text) | NotAsRoot (why : text).
Inductive Presence := There | Gone | UnknownPresence (e : text).

Section Fs.
Context {os : Os}.
(** Under the root folder, what is left of a path is joined to it again. *)
Definition at_ (p : text) : text := path_join [47] p.
Definition logical (real : text) : text := real.
Definition exists_ (p : text) : bool := is_ok (symlink_metadata (at_ p)).
Definition of_type (p : text) (types : list FileType) : bool := match symlink_metadata (at_ p) with Ok m => bool_decide (file_type m ∈ types) | Err _ => false end.
Definition is_file_or_link (p : text) : bool := of_type p [Regular; Symlink].
Definition is_real_dir (p : text) : bool := of_type p [Directory].
Definition executable (m : Stat) : bool := negb (Z.land (st_mode m) 0x49 =? 0).
Definition is_executable_file (p : text) : bool := match metadata (at_ p) with Ok m => is_regular m && executable m | Err _ => false end.
Definition presence (p : text) : Presence :=
  match canonicalize (at_ p) with Ok _ => There | Err e => if is_gone e then Gone else UnknownPresence (message e) end.
Definition canon (p : text) : option text := ok (canonicalize (at_ p)).
Definition canon_or (p : text) : text := default p (canon p).
(** The name a removal unlinks. *)
Definition unlinked_name (p : text) : text :=
  match path_parent p, file_name p with
  | Some d, Some n => match canon d with Some d => path_join d n | None => p end
  | _, _ => p
  end.
(** Every name on the way to the file, at most the forty links the kernel follows. *)
Fixpoint link_chain_from (links : nat) (chain : list text) (last : text) : list text :=
  match links with
  | O => chain
  | S links =>
      match read_link (at_ last) with
      | None => chain
      | Some target =>
          let next := match path_parent (at_ last) with Some d => path_join d target | None => target end in
          let next := unlinked_name (logical next) in
          if has chain next then chain else link_chain_from links (chain ++ [next]) next
      end
  end.
Definition link_chain (p : text) : list text := link_chain_from 40 [unlinked_name p] (unlinked_name p).

(** ** Opening *)
Definition cannot_look (e : IoError) : text := txt "it cannot be looked at (" ++ message e ++ txt ")".
Definition open_regular (real : text) : result text (Stat * result IoError bytes) :=
  before ← map_err cannot_look (symlink_metadata real);
  if negb (is_regular before) then Err (txt "it is not a regular file")
  else f ← map_err (fun e => txt "it cannot be opened (" ++ message e ++ txt ")") (open_file real);
       m ← map_err cannot_look (fst f);
       if negb (is_regular m) then Err (txt "it is not a regular file") else Ok (m, snd f).
(** The first so many bytes. *)
Fixpoint limited (limit : Z) (b : bytes) : bytes := match b with x :: b => if limit <=? 0 then [] else x :: limited (limit - 1) b | [] => [] end.
Definition read_regular (p : text) (limit : Z) : option text :=
  f ← ok (open_regular (at_ p)); b ← ok (snd f); Some (lossy_text (limited limit b)).
Definition ELF : bytes := [x7f; x45; x4c; x46].
Definition cannot_read (m : text) : text := txt "it cannot be read (" ++ m ++ txt ")".
Definition read_magic (r : result IoError bytes) : result text bytes :=
  b ← map_err (fun e => cannot_read (message e)) r;
  if (length b <? 4)%nat then Err (cannot_read (txt "failed to fill whole buffer")) else Ok (take 4 b).
Definition program_check (real : text) : result text unit :=
  f ← open_regular real;
  if negb (executable (fst f)) then Err (txt "it is not executable")
  else magic ← read_magic (snd f);
       if bool_decide (magic = ELF) then Ok tt
       else if bool_decide (take 2 magic = [x23; x21]) then Err (txt "it is a script, not a build of this program — a wrapper of yours?")
       else Err (txt "it is not an ELF program").

(** ** Who may swap it *)
Definition uid_at (real : text) (link : bool) : result text Z :=
  match (if link then symlink_metadata real else metadata real) with
  | Ok m => Ok (st_uid m)
  | Err e => Err (logical real ++ txt " cannot be looked at (" ++ message e ++ txt ")")
  end.
Definition owned_by_us (real : text) (link : bool) (euid : Z) : result (text * text) unit :=
  u ← map_err (fun e => (txt "not looked at", e)) (uid_at real link);
  if (u =? euid) || (u =? 0) then Ok tt
  else Err (txt "owned by uid " ++ show_uint u, logical real ++ txt " is owned by uid " ++ show_uint u ++ txt " — they can run tobii uninstall themselves").
(** Root may run only what nobody else can change. *)
Fixpoint only_roots (ps : list text) : result text unit :=
  match ps with
  | [] => Ok tt
  | p :: ps =>
      match metadata p with
      | Err _ => Err (logical p ++ txt " cannot be looked at")
      | Ok m =>
          if negb (st_uid m =? 0) then Err (logical p ++ txt " is owned by uid " ++ show_uint (st_uid m) ++ txt ", not by root")
          else if negb (Z.land (st_mode m) 0x12 =? 0) then Err (logical p ++ txt " can be written by its group or by anyone")
          else only_roots ps
      end
  end.
Definition name_dirs (file : text) : list text := at_ <$> omap path_parent (link_chain file).
Definition root_may_run (file : text) : result text text :=
  real ← map_err (fun e => file ++ txt " cannot be resolved (" ++ message e ++ txt ")") (canonicalize (at_ file));
  _ ← only_roots ((name_dirs file ≫= ancestors) ++ ancestors real);
  Ok real.

Context (private_group : Z -> bool).
Definition not_a_program (why : text) : Unvetted := Refused (if contains (txt "a script") why then txt "a script" else txt "not a program") why.
Definition others (m : Stat) (p what : text) : result Unvetted unit :=
  match foreign_writer m private_group with
  | Some who => Err (Refused what (what ++ txt ": " ++ logical p ++ txt " can be written by " ++ who ++ txt ", so what runs there is not yours alone to choose"))
  | None => Ok tt
  end.
Fixpoint all_ours (euid : Z) (ps : list (text * bool)) : result Unvetted unit :=
  match ps with
  | [] => Ok tt
  | (p, link) :: ps => _ ← map_err (fun e => Refused (fst e) (snd e)) (owned_by_us p link euid); all_ours euid ps
  end.
Definition shared_dir : text := txt "in a directory others can write".
Definition look (d : text) : result Unvetted Stat :=
  map_err (fun e => Refused (txt "not looked at") (logical d ++ txt " cannot be looked at (" ++ message e ++ txt ")")) (metadata d).
Definition belongs_to (d : text) (u : Z) : Unvetted :=
  Refused shared_dir (shared_dir ++ txt ": " ++ logical d ++ txt " belongs to uid " ++ show_uint u ++ txt ", so what runs there is not yours alone to choose").
(** The directories, each with whether it is one a name or the file is in. *)
Fixpoint check_dirs (euid : Z) (seen : list text) (ds : list (text * bool)) : result Unvetted unit :=
  match ds with
  | [] => Ok tt
  | (d, near) :: ds =>
      if has seen d then check_dirs euid seen ds
      else m ← look d;
           if negb ((st_uid m =? euid) || (st_uid m =? 0)) && (near || negb (st_uid m =? OVERFLOW_UID)) then Err (belongs_to d (st_uid m))
           else _ ← others m d shared_dir; check_dirs euid (seen ++ [d]) ds
  end.
Definition near_dirs (chain : list text) (real : text) : list text := omap path_parent chain ++ option_list (path_parent real).
Definition dirs_of (near : list text) : list (text * bool) :=
  ((fun d => (d, true)) <$> near) ++ ((fun d => (d, false)) <$> (near ≫= fun d => tail (ancestors d))).
(** May it be run to ask what it is? The file that was checked, and so the one to run. *)
Definition vet (file : text) (euid : Z) : result Unvetted text :=
  if euid =? 0 then
    real ← map_err NotAsRoot (root_may_run file);
    _ ← map_err not_a_program (program_check real);
    Ok real
  else
    real ← map_err (fun e => Refused (txt "not resolved") (txt "it cannot be resolved (" ++ message e ++ txt ")")) (canonicalize (at_ file));
    _ ← map_err not_a_program (program_check real);
    let chain := at_ <$> link_chain file in
    _ ← all_ours euid (((fun n => (n, true)) <$> chain) ++ [(real, false)]);
    m ← map_err (fun e => Refused (txt "not looked at") (cannot_look e)) (metadata real);
    _ ← others m real (txt "a file others can change");
    _ ← check_dirs euid [] (dirs_of (near_dirs chain real));
    Ok real.
End Fs.

(** ** The install manifest *)
Definition absolute_path (v : text) : option text := if is_absolute v then Some v else None.
Definition manifest_bindirs (t : text) : list text :=
  omap (fun l => v ← strip_prefix (txt "bindir=") (trim l); absolute_path (trim v)) (lines t).
Definition manifest_line_survives (dropped : text -> bool) (line : text) : bool :=
  let t := trim line in
  if bool_decide (t = []) || starts_with [35] t then false
  else match strip_prefix (txt "bindir=") t with Some v => negb (dropped (trim v)) | None => true end.

(** ** What is no install *)
Definition component_name (c : component) : text := match c with RootDir => [47] | CurDir => [46] | ParentDir => [46; 46] | Normal s => s end.
Definition is_build_tree (dir : text) : bool :=
  match rev (component_name <$> components dir) with
  | a :: b :: _ => (text_eqb a (txt "release") || text_eqb a (txt "debug")) && text_eqb b (txt "target")
  | _ => false
  end.
Inductive Ident :=
| Me (answer : text) | Listed | ListedNotProgram | Answered (answer : option text) | NotRun | RefusedAs (what : text).
Inductive ExecTarget := PathTarget (p : text) | Bare (name : text) (hits : list text) | UnknownTarget (why : text).
Inductive Decision := Absent | Remove (why : text) | Keep (why : text).
Definition sanitize (s : text) : text := (fun c => if is_control c then 63 else c) <$> s.

Section Judge.
Context {os : Os}.
Definition tagged (may_read : bool) (a : text) : bool :=
  may_read && match read_regular (path_join a (txt "CACHEDIR.TAG")) 1024 with Some t => contains (txt "created by cargo") t | None => false end.
Definition not_an_install (dir : text) (may_read : bool) : option text :=
  if is_build_tree dir || existsb (tagged may_read) (take 2 (tail (ancestors dir))) then Some (txt "a Cargo build directory")
  else if is_file_or_link (path_join dir (txt "install.sh")) && is_file_or_link (path_join dir (txt "assets/install-payload.sh")) then
    Some (txt "an unpacked release archive (install.sh and assets/install-payload.sh are beside it)")
  else None.

Definition listed_but (why : text) : text :=
  txt "its directory is listed in the install manifest, but " ++ why ++
  txt " — the manifest says where to look, and this is not a program that was installed there".
Definition owned_or_kept (p : text) (link : bool) (euid : Z) : result (Ident * text) unit :=
  map_err (fun e => (RefusedAs (fst e), txt "its directory is listed in the install manifest, but " ++ snd e)) (owned_by_us p link euid).
Definition listed_check (path : text) (euid : Z) : result (Ident * text) unit :=
  real ← (if euid =? 0 then
            map_err (fun why => (NotRun, txt "its directory is listed in the install manifest, but nothing there is opened or removed as root: " ++ why ++
              txt ", so whoever that is chooses what is there")) (root_may_run path)
          else map_err (fun e => (ListedNotProgram, listed_but (txt "it cannot be resolved (" ++ message e ++ txt ")"))) (canonicalize (at_ path)));
  _ ← map_err (fun why => (ListedNotProgram, listed_but why)) (program_check real);
  _ ← owned_or_kept (at_ (unlinked_name path)) true euid;
  owned_or_kept real false euid.

(** ** Desktop entries *)
(** The first word that is an option, or no assignment. *)
Definition env_word (w : text) : bool := starts_with [45] w || negb (contains [61] w).
Definition env_target (words : list text) : result text text :=
  match find env_word words with
  | Some w => if starts_with [45] w then Err (txt "it runs `env " ++ sanitize w ++ txt " …`, and env's options are not read here") else Ok w
  | None => Err (txt "it runs `env` with no program after it")
  end.
Definition add_hit (prog : text) (hits : list text) (d : text) : list text :=
  let c := path_join d prog in
  if is_absolute d && is_executable_file c then
    let c := unlinked_name c in if has hits c then hits else hits ++ [c]
  else hits.
Definition program_of (args : list text) : result text text :=
  let prog := default [] (head args) in if bool_decide (file_name prog = Some (txt "env")) then env_target (tail args) else Ok prog.
Definition exec_target (t : text) (path : list text) : ExecTarget :=
  match exec_arguments t with
  | None => UnknownTarget (txt "its Exec line cannot be read here (there is none, there are two, or it is quoted in a way launchers read differently)")
  | Some args =>
      match program_of args with
      | Err why => UnknownTarget why
      | Ok prog =>
          if is_absolute prog then PathTarget prog
          else if contains [47] prog then UnknownTarget (txt "it runs `" ++ sanitize prog ++ txt "`, a relative path, which depends on where it is started from")
          else Bare prog (foldl (add_hit prog) [] path)
      end
  end.
Definition unknown (why : text) : Decision := Keep (why ++ txt ", so whether it runs a copy that stays cannot be told — left as it is").
Definition stays (what prog : text) : Decision :=
  Keep (txt "it runs " ++ prog ++ txt ", which is not being removed — deleting it would silently switch " ++ what ++ txt " off for that copy").
Definition entry_decision (entry : text) (removing : text -> bool) (path : list text) (what : text) : Decision :=
  if negb (exists_ entry) then Absent
  else match read_to_string (at_ entry) with
       | None => unknown (txt "it could not be read")
       | Some t =>
           match exec_target t path with
           | UnknownTarget why => unknown why
           | PathTarget prog =>
               match presence prog with
               | Gone => Remove (txt "it runs " ++ prog ++ txt ", which no longer exists")
               | UnknownPresence e => unknown (txt "it runs " ++ prog ++ txt ", which cannot be looked at (" ++ e ++ txt ")")
               | There => if removing prog then Remove (txt "it runs " ++ prog ++ txt ", which is being removed") else stays what prog
               end
           | Bare name hits =>
               match find (fun h => negb (removing h)) hits with
               | Some stay => stays what stay
               | None =>
                   if bool_decide (hits = []) then
                     unknown (txt "it runs a bare `" ++ sanitize name ++ txt "`, which is not on this PATH (the session that starts it may have another)")
                   else Remove (txt "it runs `" ++ sanitize name ++ txt "`, which PATH finds only at " ++ join (txt " and ") hits ++ txt " — being removed")
               end
           end
       end.
End Judge.

(** ** Who can swap what was let through *)
Lemma map_err_ok {E F A} (f : E -> F) (r : result E A) a : map_err f r = Ok a <-> r = Ok a.
Proof. destruct r; cbn; split; congruence. Qed.
Lemma has_says l p : has l p = true <-> exists q, q ∈ l /\ components p = components q.
Proof.
  unfold has, lists. rewrite existsb_exists. setoid_rewrite list_elem_of_In. unfold same_path. by setoid_rewrite bool_decide_eq_true.
Qed.
Lemma no_bits m a b : Z.land m (Z.lor a b) = 0 -> Z.land m a = 0 /\ Z.land m b = 0.
Proof. rewrite Z.land_lor_distr_r. by intros H%Z.lor_eq_0_iff. Qed.

Section Swap.
Context {os : Os} (me : Z) (passwd group : text) (unique : NoDup (name <$> accounts passwd)).
Abbreviation private := (fun g => private_group_in passwd group g me).
(** No account of these but the user and root, nor of [except], can rename an entry of the folder. *)
Definition kept_from_others (except : Z -> Prop) (d : text) : Prop :=
  exists d' m, components d = components d' /\ metadata d' = Ok m /\
    forall user, user <> me -> user <> 0 -> ~ except user -> ~ can_move user (belongs passwd group user) (meta_of m).
(** Nor write the file. *)
Definition written_by_us (m : Stat) : Prop :=
  (st_uid m = me \/ st_uid m = 0) /\ has_bit (meta_of m) WORLD_WRITE = false /\
  forall user, user <> me -> has_bit (meta_of m) GROUP_WRITE = true -> ~ belongs passwd group user (st_gid m).
Definition good_dir (near : bool) (d : text) : Prop :=
  exists m, metadata d = Ok m /\ (st_uid m = me \/ st_uid m = 0 \/ near = false /\ st_uid m = OVERFLOW_UID) /\ foreign_writer m private = None.

Lemma good_kept near d d' : components d = components d' -> good_dir near d' -> kept_from_others (fun u => near = false /\ u = OVERFLOW_UID) d.
Proof.
  intros Hs (m & Em & Ho & Hf). exists d', m. split_and!; [done..|]. intros user Hm H0 He Hc. unfold foreign_writer in Hf.
  destruct Hc as [->|[Hs' Hc]]; [change (uid (meta_of m)) with (st_uid m) in *; destruct Ho as [?|[?|?]]; [done|done|by apply He]|]. rewrite Hs' in Hf. rewrite andb_false_r in Hf.
  apply (no_foreign_writer me passwd group unique) in Hf as [Hw Hg]. destruct Hc as [Hc|[Hc Hb]]; [congruence|]. by apply (Hg user).
Qed.
Lemma checked_dirs near l rest seen : Forall (good_dir near) seen -> check_dirs private me seen (((fun d => (d, near)) <$> l) ++ rest) = Ok tt ->
  (forall d, d ∈ l -> exists d', components d = components d' /\ good_dir near d') /\
  exists seen, Forall (good_dir near) seen /\ check_dirs private me seen rest = Ok tt.
Proof.
  revert seen. induction l as [|d l IH]; intros seen Hs H; [split; [by intros d ?%elem_of_nil|by exists seen]|].
  cbn [fmap list_fmap app check_dirs] in H. destruct (has seen d) eqn:Eh.
  - destruct (IH seen Hs H) as [Hl Hr]. split; [|done]. intros x [->|Hx]%elem_of_cons; [|by apply Hl].
    apply has_says in Eh as (d' & Hd' & Ec). rewrite Forall_forall in Hs. eauto.
  - apply result_bind_inv in H as (m & Em%map_err_ok & H). destruct (negb _ && _) eqn:Eo; [done|].
    apply result_bind_inv in H as ([] & Ew & H). unfold others in Ew. destruct (foreign_writer m _) as [who|] eqn:Ef; [done|].
    assert (Hd : good_dir near d).
    { exists m. split_and!; [done| |done]. apply andb_false_iff in Eo as [E|E].
      - apply negb_false_iff, orb_true_iff in E. lia.
      - apply orb_false_iff in E as [-> E]. apply negb_false_iff in E. lia. }
    destruct (IH (seen ++ [d])) as [Hl Hr]; [by apply Forall_app_2; [|constructor]|done|]. split; [|done]. intros x [->|Hx]%elem_of_cons; [|by apply Hl]. eauto.
Qed.
Lemma all_ours_says ps : all_ours me ps = Ok tt ->
  forall p link, (p, link) ∈ ps -> exists m, (if (link : bool) then symlink_metadata p else metadata p) = Ok m /\ (st_uid m = me \/ st_uid m = 0).
Proof.
  induction ps as [|[q l] ps IH]; [by intros _ p link ?%elem_of_nil|]. cbn [all_ours]. intros ([] & H%map_err_ok & Hr)%result_bind_inv p link.
  intros [[= -> ->]|Hin]%elem_of_cons; [|by apply IH]. unfold owned_by_us in H. apply result_bind_inv in H as (u & Hu%map_err_ok & H).
  unfold uid_at in Hu. destruct (if l then _ else _) as [m|e]; [|done]. injection Hu as <-. exists m. split; [done|].
  destruct (_ || _) eqn:E; [|done]. apply orb_true_iff in E. lia.
Qed.
Lemma only_roots_says ps : only_roots ps = Ok tt <->
  Forall (fun p => exists m, metadata p = Ok m /\ st_uid m = 0 /\ Z.land (st_mode m) 0x12 = 0) ps.
Proof.
  induction ps as [|p ps IH]; [split; [constructor|done]|]. cbn [only_roots]. rewrite Forall_cons, <- IH. destruct (metadata p) as [m|e].
  - destruct (Z.eqb_spec (st_uid m) 0) as [Eu|Eu]; cbn [negb]; [|split; [done|]; intros [(m' & [= <-] & ? & _) _]; done].
    destruct (Z.eqb_spec (Z.land (st_mode m) 0x12) 0) as [Ew|Ew]; cbn [negb]; [|split; [done|]; intros [(m' & [= <-] & _ & ?) _]; done].
    split; [intros H; split; [by exists m|done]|by intros [_ ?]].
  - split; [done|]. by intros [(m & ? & _) _].
Qed.
Theorem root_may_run_says file real : root_may_run file = Ok real <->
  canonicalize (at_ file) = Ok real /\
  Forall (fun p => exists m, metadata p = Ok m /\ st_uid m = 0 /\ Z.land (st_mode m) 0x12 = 0) ((name_dirs file ≫= ancestors) ++ ancestors real).
Proof.
  unfold root_may_run. destruct (canonicalize (at_ file)) as [r|e]; cbn [map_err mbind result_bind]; [|split; [done|by intros [? _]]].
  rewrite <- only_roots_says. destruct (only_roots _) as [[]|e] eqn:E; cbn [mbind result_bind].
  - split; [intros [= ->]; by rewrite E|by intros [[= ->] _]].
  - split; [done|]. intros [[= ->] H]. congruence.
Qed.
Lemma roots_kept except d : me = 0 -> (exists m, metadata d = Ok m /\ st_uid m = 0 /\ Z.land (st_mode m) 0x12 = 0) -> kept_from_others except d.
Proof.
  intros Hme (m & Em & Hu & Hw). exists d, m. split_and!; [done..|]. intros user H1 H0 _. change 0x12 with (Z.lor WORLD_WRITE GROUP_WRITE) in Hw.
  apply no_bits in Hw as [H2 H3]. intros [E|[_ [E|[E _]]]]; [cbn in E; lia|..]; unfold has_bit in E; cbn in E; [by rewrite H2 in E|by rewrite H3 in E].
Qed.

(** What a name that was let through leads to. *)
Definition is_program (real : text) : Prop :=
  exists m rest, open_file real = Ok (Ok m, Ok (ELF ++ rest)) /\ file_type m = Regular /\ executable m = true.
Lemma program_says real : program_check real = Ok tt -> is_program real.
Proof.
  unfold program_check, open_regular. intros ([m b] & H & Hb)%result_bind_inv. apply result_bind_inv in H as (before & _ & H).
  destruct (negb (is_regular before)); [done|]. apply result_bind_inv in H as ([fm fb] & Ho%map_err_ok & H). apply result_bind_inv in H as (m' & Em%map_err_ok & H).
  cbn [fst snd] in *. subst fm. destruct (is_regular m') eqn:Er; [|done]. injection H as -> ->. destruct (executable m) eqn:Ex; [|done]. cbn [negb] in Hb.
  apply result_bind_inv in Hb as (magic & Hm & Hb). unfold read_magic in Hm. apply result_bind_inv in Hm as (b' & ->%map_err_ok & Hm).
  destruct (length b' <? 4)%nat; [done|]. injection Hm as <-. destruct (bool_decide (take 4 b' = ELF)) eqn:E; cbn iota in Hb; [|exfalso; by destruct (bool_decide (_ = [x23; x21]))].
  apply bool_decide_eq_true in E. exists m, (drop 4 b'). split_and!; [|by apply bool_decide_eq_true in Er|done]. rewrite Ho, <- E, take_drop. reflexivity.
Qed.
Lemma ancestors_self p : p ∈ ancestors p.
Proof. unfold ancestors. cbn. left. Qed.
Lemma above_in d p : d ∈ tail (ancestors p) -> d ∈ ancestors p.
Proof. destruct (ancestors p); [done|]. by right. Qed.
Definition near (file real : text) : list text := near_dirs (at_ <$> link_chain file) real.
Lemma vet_user file real : me <> 0 -> vet private file me = Ok real ->
  canonicalize (at_ file) = Ok real /\ is_program real /\
  (exists m, metadata real = Ok m /\ (file_type m <> Directory -> written_by_us m)) /\
  (forall n, n ∈ at_ <$> link_chain file -> exists m, symlink_metadata n = Ok m /\ (st_uid m = me \/ st_uid m = 0)) /\
  (forall d, d ∈ near file real -> kept_from_others (fun _ => False) d) /\
  (forall d, d ∈ near file real ≫= (fun d => tail (ancestors d)) -> kept_from_others (fun u => u = OVERFLOW_UID) d).
Proof.
  intros Hme. unfold vet. rewrite (proj2 (Z.eqb_neq _ _) Hme). intros (r & Er%map_err_ok & H)%result_bind_inv.
  apply result_bind_inv in H as ([] & Hp%map_err_ok%program_says & H). apply result_bind_inv in H as ([] & Ho & H).
  apply result_bind_inv in H as (m & Em%map_err_ok & H). apply result_bind_inv in H as ([] & Ew & H). apply result_bind_inv in H as ([] & Ed & H). injection H as ->.
  pose proof (all_ours_says _ Ho) as Hours. unfold dirs_of in Ed. apply (checked_dirs true _ _ []) in Ed as [Hnear (seen & Hs & Ed)]; [|constructor].
  rewrite <- (app_nil_r (_ <$> (_ ≫= _))) in Ed. apply (checked_dirs false) in Ed as [Habove _].
  2: { eapply Forall_impl; [exact Hs|]. intros d (m' & E1 & E2 & E3). exists m'. split_and!; [done| |done]. destruct E2 as [?|[?|[? _]]]; [by left|by right; left|done]. }
  split_and!; [done|done| | | |].
  - exists m. split; [done|]. destruct (Hours real false) as (m' & Em' & Hm'); [apply elem_of_app; right; left|]. assert (m' = m) as -> by congruence. intros Hd.
    unfold others in Ew. destruct (foreign_writer m _) as [who|] eqn:Ef; [done|]. unfold foreign_writer in Ef.
    rewrite bool_decide_eq_false_2 in Ef by done. apply (no_foreign_writer me passwd group unique) in Ef as [Hw Hg]. by split_and!.
  - intros n Hn. apply (Hours n true). apply elem_of_app. left. apply list_elem_of_fmap. by exists n.
  - intros d Hd. destruct (Hnear d Hd) as (d' & Hc & Hg). destruct (good_kept _ _ _ Hc Hg) as (e & m' & ? & ? & Hk). exists e, m'. split_and!; [done..|].
    intros user H1 H2 _. apply (Hk user H1 H2). by intros [? _].
  - intros d Hd. destruct (Habove d Hd) as (d' & Hc & Hg). destruct (good_kept _ _ _ Hc Hg) as (e & m' & ? & ? & Hk). exists e, m'. split_and!; [done..|].
    intros user H1 H2 H3. apply (Hk user H1 H2). by intros [_ ?].
Qed.
Lemma ancestors_trans p x d : x ∈ ancestors p -> d ∈ ancestors x -> d ∈ ancestors p.
Proof.
  unfold ancestors at 2. generalize (S (length x)) as fuel. intros fuel. revert x. induction fuel as [|fuel IH]; intros x Hx; cbn [ancestors_from].
  - by intros ->%list_elem_of_singleton.
  - intros [->|Hd]%elem_of_cons; [done|]. destruct (path_parent x) as [y|] eqn:E; [|by apply elem_of_nil in Hd].
    apply (IH y); [by eapply ancestors_closed|done].
Qed.
Lemma in_option {A} (x : A) o : x ∈ option_list o <-> o = Some x.
Proof. destruct o as [y|]; cbn; [rewrite list_elem_of_singleton; split; congruence|rewrite elem_of_nil; split; done]. Qed.
Lemma parent_above p d : path_parent p = Some d -> d ∈ ancestors p.
Proof. intros H. unfold ancestors. cbn [ancestors_from]. rewrite H. right. destruct (length p); left. Qed.
(** *** The names on the way
    An entry: a name in its folder, every link of the folder followed. One leads to another
    when it is a link to it. These say what a lookup goes through, not how it is listed. *)
Definition entry_of (q n : text) : Prop := exists d b d',
  path_parent q = Some d /\ file_name q = Some b /\ canonicalize (at_ d) = Ok d' /\ is_absolute d' = true /\ n = path_join d' b.
Definition leads_to (n n' : text) : Prop := exists target d,
  read_link (at_ n) = Some target /\ path_parent (at_ n) = Some d /\ entry_of (path_join d target) n'.
Definition on_the_way (file n : text) : Prop := exists n0, entry_of file n0 /\ rtc leads_to n0 n.
(** A lookup follows at most forty links, and one that comes back to a name never ends. *)
Definition lookup_ends (file : text) : Prop := forall n0 k n, entry_of file n0 -> nsteps leads_to k n0 n ->
  (k <= 40)%nat /\ forall i m, (i < k)%nat -> nsteps leads_to i n0 m -> components m <> components n.

Lemma entry_unlinked q n : entry_of q n -> unlinked_name q = n.
Proof. intros (d & b & d' & Ep & En & Ec & _ & ->). unfold unlinked_name, canon. by rewrite Ep, En, Ec. Qed.
Lemma entry_absolute q n : entry_of q n -> is_absolute n = true.
Proof.
  intros (d & b & d' & _ & _ & _ & Ha & ->). unfold path_join. destruct (is_absolute b) eqn:E; [done|]. destruct (last d') as [z|] eqn:El.
  - destruct d'; [done|]. by destruct (z =? 47).
  - apply last_None in El as ->. done.
Qed.
Lemma chain_kept links chain last n : n ∈ chain -> n ∈ link_chain_from links chain last.
Proof.
  revert chain last. induction links as [|links IH]; intros chain last Hn; cbn [link_chain_from]; [done|].
  destruct (read_link _); [|done]. destruct (has chain _); [done|]. apply IH, elem_of_app. by left.
Qed.
Lemma chain_goes_on file n0 m j chain last n : lookup_ends file -> entry_of file n0 -> nsteps leads_to j n0 last -> nsteps leads_to m last n ->
  last ∈ chain -> (forall x, x ∈ chain -> exists i, (i <= j)%nat /\ nsteps leads_to i n0 x) -> n ∈ link_chain_from (40 - j) chain last.
Proof.
  intros Hl He. revert j chain last. induction m as [|m IH]; intros j chain last Hj Hm Hin Hch.
  - inversion Hm; subst. by apply chain_kept.
  - inversion Hm as [|? ? x ? Hx Hm']; subst. assert (Hj' : nsteps leads_to (S j) n0 x) by (by eapply nsteps_r).
    destruct (Hl n0 (S j) x He Hj') as [H40 Hnew]. destruct (40 - j)%nat as [|links] eqn:El; [lia|]. cbn [link_chain_from].
    destruct Hx as (target & d & Er & Ed & Hx). rewrite Er, Ed. unfold logical. rewrite (entry_unlinked _ _ Hx).
    destruct (has chain x) eqn:Eh.
    + apply has_says in Eh as (y & Hy & Ey). destruct (Hch y Hy) as (i & Hi & Hiy). by destruct (Hnew i y ltac:(lia) Hiy).
    + replace links with (40 - S j)%nat by lia. apply IH; [done|done|apply elem_of_app; right; by apply list_elem_of_singleton|].
      intros y [Hy|Hy]%elem_of_app; [destruct (Hch y Hy) as (i & ? & ?); exists i; split; [lia|done]|].
      apply list_elem_of_singleton in Hy as ->. by exists (S j).
Qed.
Lemma on_the_way_listed file n : lookup_ends file -> on_the_way file n -> n ∈ link_chain file /\ is_absolute n = true.
Proof.
  intros Hl (n0 & He & [m Hm]%rtc_nsteps). split.
  - unfold link_chain. rewrite (entry_unlinked _ _ He). apply (chain_goes_on file n0 m 0); [done..|apply nsteps_O|done|by left|].
    intros x ->%list_elem_of_singleton. exists 0%nat. split; [done|apply nsteps_O].
  - destruct m as [|m]; [inversion Hm; subst; by eapply entry_absolute|].
    apply nsteps_inv_r in Hm as (x & _ & target & d & _ & _ & Hx). by eapply entry_absolute.
Qed.
Lemma at_absolute p : is_absolute p = true -> at_ p = p.
Proof. unfold at_, path_join. by intros ->. Qed.
Lemma split_once_finds p s c : c ∈ s -> p c = true -> split_once p s <> None.
Proof.
  induction s as [|x s IH]; [by intros ?%elem_of_nil|]. intros [<-|Hc]%elem_of_cons Hp; cbn [split_once]; [by rewrite Hp|].
  destruct (p x); [done|]. specialize (IH Hc Hp). by destruct (split_once p s) as [[? ?]|].
Qed.
Lemma parent_absolute p d : is_absolute p = true -> path_parent p = Some d -> is_absolute d = true.
Proof.
  intros Ha. unfold path_parent. pose proof (trim_end_prefix (Z.eqb 47) p) as (r & Er & _). destruct (trim_end_by (Z.eqb 47) p) as [|c t] eqn:Et; [done|].
  assert (Hc : c = 47) by (rewrite Er in Ha; cbn in Ha; lia). subst c. destruct (split_once (Z.eqb 47) (rev (47 :: t))) as [[back front]|] eqn:Es.
  - pose proof (trim_end_prefix (Z.eqb 47) (rev front)) as (r' & Er' & _). destruct (trim_end_by _ (rev front)) as [|c d']; intros [= <-]; [done|].
    apply split_once_some in Es as (_ & c' & _ & Eb). apply (f_equal (@rev Z)) in Eb. rewrite rev_involutive, rev_app_distr in Eb. cbn [rev] in Eb.
    rewrite Er' in Eb. rewrite <- !app_assoc in Eb. injection Eb as <- _. done.
  - exfalso. apply (split_once_finds (Z.eqb 47) (rev (47 :: t)) 47); [|done|done]. apply list_elem_of_In, in_rev. rewrite rev_involutive. by left.
Qed.
(** The folders that decide which file a name leads to: that of each name on the way, and
    the file's own. *)
Definition decides (file real d : text) : Prop := (exists n, on_the_way file n /\ path_parent n = Some d) \/ path_parent real = Some d.
Lemma decides_near file real d : lookup_ends file -> decides file real d -> d ∈ near file real.
Proof.
  intros Hl [(n & Hn & Hd)|Hd]; apply elem_of_app; [left|right; by rewrite Hd; left].
  apply on_the_way_listed in Hn as [Hn Ha]; [|done]. apply list_elem_of_omap. exists (at_ n). split; [by apply list_elem_of_fmap_2|by rewrite at_absolute].
Qed.
Lemma decides_roots file real d x : lookup_ends file -> decides file real d -> x ∈ ancestors d -> x ∈ (name_dirs file ≫= ancestors) ++ ancestors real.
Proof.
  intros Hl [(n & Hn & Hd)|Hd] Hx; apply elem_of_app; [left|right].
  - apply on_the_way_listed in Hn as [Hn Ha]; [|done]. apply list_elem_of_bind. exists d. split; [done|]. unfold name_dirs.
    apply list_elem_of_fmap. exists d. split; [by rewrite at_absolute by (by eapply parent_absolute)|]. apply list_elem_of_omap. by exists n.
  - eapply ancestors_trans; [by apply parent_above|done].
Qed.
Lemma root_owns file real : me = 0 -> root_may_run file = Ok real ->
  canonicalize (at_ file) = Ok real /\ (exists m, metadata real = Ok m /\ written_by_us m) /\
  (forall d except, d ∈ (name_dirs file ≫= ancestors) ++ ancestors real -> kept_from_others except d).
Proof.
  intros Hme [Hc Hr]%root_may_run_says. split; [done|]. rewrite Forall_forall in Hr. split.
  - destruct (Hr real) as (m & Em & Hu & Hw); [apply elem_of_app; right; apply ancestors_self|]. exists m. split; [done|].
    change 0x12 with (Z.lor WORLD_WRITE GROUP_WRITE) in Hw. apply no_bits in Hw as [H1 H2]. unfold written_by_us, has_bit. cbn [mode meta_of].
    rewrite H1, H2. split_and!; [by right|done|done].
  - intros d except Hd. by apply roots_kept, Hr.
Qed.
End Swap.

(** C22: What is let through is a program no other account can swap or change: not the file it
    resolves to; nor the folder of any name on the way to it, link by link, nor the file's own,
    nor any folder above one of those, by an entry of theirs being renamed. Above the first
    ones the account that stands for no account may own; for root, nobody else at all. For a
    user, every name on the way is a link (or the file) of the user's or of root's. That a
    lookup follows at most forty links and never comes back to a name is the system's. *)
Theorem vetted_is_ours_alone {os : Os} (me : Z) (passwd group file real : text) :
  NoDup (name <$> accounts passwd) -> lookup_ends file ->
  vet (fun g => private_group_in passwd group g me) file me = Ok real ->
  canonicalize (at_ file) = Ok real /\ is_program real /\
  (exists m, metadata real = Ok m /\ (file_type m <> Directory -> written_by_us me passwd group m)) /\
  (forall d, decides file real d -> kept_from_others me passwd group (fun _ => False) d) /\
  (forall d x, decides file real d -> x ∈ ancestors d -> kept_from_others me passwd group (fun u => me <> 0 /\ u = OVERFLOW_UID) x) /\
  (forall n, on_the_way file n -> me <> 0 -> exists m, symlink_metadata n = Ok m /\ (st_uid m = me \/ st_uid m = 0)).
Proof.
  intros Hu Hl Hv. destruct (Z.eqb_spec me 0) as [->|Hme].
  - unfold vet in Hv. cbn [Z.eqb] in Hv. apply result_bind_inv in Hv as (r & Hr%map_err_ok & Hv). apply result_bind_inv in Hv as ([] & Hp%map_err_ok%program_says & Hv).
    injection Hv as ->. apply (root_owns 0 passwd group) in Hr as (Hc & (m & Em & Hm) & Hk); [|done..]. split_and!; [done|done|by exists m| | |done].
    + intros d Hd. apply Hk. eapply decides_roots; [done|done|apply ancestors_self].
    + intros d x Hd Hx. apply Hk. by eapply decides_roots.
  - apply vet_user in Hv as (Hc & Hp & Hm & Ho & Hn & Ha); [|done..]. split_and!; [done..| | |].
    + intros d Hd. by apply Hn, decides_near.
    + intros d x Hd Hx. assert (Hk : forall except y, kept_from_others me passwd group (fun u => u = OVERFLOW_UID) y -> (forall u, u = OVERFLOW_UID -> except u) ->
        kept_from_others me passwd group except y).
      { intros except y (e & m & ? & ? & Hk) He. exists e, m. split_and!; [done..|]. intros user H1 H2 H3. apply (Hk user H1 H2). intros ->. by apply H3, He. }
      apply (decides_near _ _ _ Hl) in Hd. destruct (base.decide (x ∈ tail (ancestors d))) as [Hx'|Hx'].
      * apply Hk; [|by intros u ->]. apply Ha. apply list_elem_of_bind. by exists d.
      * assert (x = d) as -> by (unfold ancestors in *; cbn [ancestors_from tail] in *; by apply elem_of_cons in Hx as [?|?]).
        destruct (Hn d Hd) as (e & m & ? & ? & Hk'). exists e, m. split_and!; [done..|]. intros user H1 H2 _. apply (Hk' user H1 H2). by intros [].
    + intros n Hn' _. apply on_the_way_listed in Hn' as [Hn' Hab]; [|done]. destruct (Ho (at_ n)) as (m & Em & ?); [by apply list_elem_of_fmap_2|].
      rewrite at_absolute in Em by done. by exists m.
Qed.

(** ** What is listed *)
Lemma owned_says {os : Os} p link me : owned_by_us p link me = Ok tt ->
  exists m, (if (link : bool) then symlink_metadata p else metadata p) = Ok m /\ (st_uid m = me \/ st_uid m = 0).
Proof.
  intros H. apply (all_ours_says me [(p, link)]); [|by left]. cbn [all_ours]. by rewrite H.
Qed.
(** What the manifest lists goes unasked, but only a program under a name of the user's or
    root's own, and for root only what nobody else can swap. *)
Theorem listed_file_says {os : Os} (me : Z) (path : text) : listed_check path me = Ok tt ->
  exists real, canonicalize (at_ path) = Ok real /\ is_program real /\
    (exists m, symlink_metadata (at_ (unlinked_name path)) = Ok m /\ (st_uid m = me \/ st_uid m = 0)) /\
    (exists m, metadata real = Ok m /\ (st_uid m = me \/ st_uid m = 0)) /\
    (me = 0 -> root_may_run path = Ok real).
Proof.
  unfold listed_check. intros (real & Hr & H)%result_bind_inv. apply result_bind_inv in H as ([] & Hp%map_err_ok%program_says & H).
  apply result_bind_inv in H as ([] & Hn%map_err_ok%owned_says & Hf%map_err_ok%owned_says). exists real.
  destruct (Z.eqb_spec me 0) as [->|Hme]; apply map_err_ok in Hr.
  - split_and!; [by apply root_may_run_says in Hr as [? _]|done..].
  - by split_and!.
Qed.

(** ** Which entries go *)
Section Entries.
Context {os : Os}.
Definition finds (prog d : text) : Prop := is_absolute d = true /\ is_executable_file (path_join d prog) = true.
Lemma hits_say prog path hits :
  (forall h, h ∈ hits -> h ∈ foldl (add_hit prog) hits path) /\
  (forall d, d ∈ path -> finds prog d -> exists h, h ∈ foldl (add_hit prog) hits path /\ components (unlinked_name (path_join d prog)) = components h) /\
  (forall h, h ∈ foldl (add_hit prog) hits path -> h ∈ hits \/ exists d, d ∈ path /\ finds prog d /\ h = unlinked_name (path_join d prog)).
Proof.
  revert hits. induction path as [|d path IH]; intros hits; [split_and!; [done|by intros d ?%elem_of_nil|by left]|]. cbn [foldl].
  destruct (IH (add_hit prog hits d)) as (H1 & H2 & H3). unfold add_hit in H1, H3 |- *. unfold add_hit in H2.
  set (hits' := if is_absolute d && is_executable_file (path_join d prog) then _ else _) in *.
  assert (Hm : forall h, h ∈ hits -> h ∈ hits'). { intros h Hh. unfold hits'. destruct (_ && _); [|done]. destruct (has _ _); [done|]. apply elem_of_app. by left. }
  split_and!; [auto| |].
  - intros x [->|Hx]%elem_of_cons Hf; [|by apply H2]. destruct Hf as [Ha He]. assert (Hh : has hits' (unlinked_name (path_join d prog)) = true).
    { unfold hits'. rewrite Ha, He. cbn [andb]. destruct (has hits _) eqn:E; [done|]. apply has_says. eexists. split; [apply elem_of_app; right; left|done]. }
    apply has_says in Hh as (q & Hq & Ec). exists q. split; [by apply H1|done].
  - intros h Hh. destruct (H3 h Hh) as [Hh'|(x & Hx & ? & ?)]; [|right; exists x; split_and!; [by right|done..]]. unfold hits' in Hh'.
    destruct (is_absolute d && _) eqn:E; [|by left]. apply andb_true_iff in E. destruct (has _ _); [by left|].
    apply elem_of_app in Hh' as [? | ->%list_elem_of_singleton]; [by left|right; exists d; split_and!; [left|done..]].
Qed.
(** What an entry starts, as far as the words of its line and the search path say: where it
    was before, the name is gone, or every copy is among the removed. *)
Inductive started_by (removing : text -> bool) (path : list text) : text -> Prop :=
| started_path prog : is_absolute prog = true -> presence prog = Gone \/ removing prog = true -> started_by removing path prog
| started_bare prog : contains [47] prog = false -> (exists d, d ∈ path /\ finds prog d) ->
    (forall d, d ∈ path -> finds prog d -> exists h, components (unlinked_name (path_join d prog)) = components h /\ removing h = true) -> started_by removing path prog.
Theorem entry_goes_with_its_program (entry : text) (removing : text -> bool) (path : list text) (what why : text) :
  entry_decision entry removing path what = Remove why ->
  exists t args prog, read_to_string (at_ entry) = Some t /\ exec_arguments t = Some args /\ program_of args = Ok prog /\ started_by removing path prog.
Proof.
  unfold entry_decision. destruct (negb (exists_ entry)); [done|]. destruct (read_to_string (at_ entry)) as [t|] eqn:Et; [|done].
  unfold exec_target. destruct (exec_arguments t) as [args|] eqn:Ea; [|done]. destruct (program_of args) as [prog|] eqn:Ep; [|done].
  intros H. exists t, args, prog. split_and!; [done..|]. destruct (is_absolute prog) eqn:Eabs.
  - apply started_path; [done|]. destruct (presence prog) eqn:Epr; [|by left|done]. destruct (removing prog); [by right|done].
  - destruct (contains [47] prog) eqn:Ec; [done|]. destruct (hits_say prog path []) as (_ & H2 & H3). set (hits := foldl _ _ _) in *.
    destruct (find _ hits) eqn:Ef; [done|]. destruct (bool_decide (hits = [])) eqn:En; [done|]. apply bool_decide_eq_false in En. apply started_bare; [done| |].
    + destruct hits as [|h hits]; [done|]. destruct (H3 h) as [?%elem_of_nil|(d & ? & ? & _)]; [left|done|by exists d].
    + intros d Hd Hf. destruct (H2 d Hd Hf) as (h & Hh & Hc). exists h. split; [done|]. apply list_elem_of_In in Hh.
      apply (find_none _ _ Ef) in Hh. by apply negb_false_iff.
Qed.
End Entries.

(** ** One system *)
Definition bin_dir : text := txt "/home/u/.local/bin".
Definition the_dirs : list text :=
  [txt "/"; txt "/home"; txt "/home/u"; txt "/home/u/.local"; bin_dir; txt "/home/u/.local/share"; txt "/home/u/.local/share/tobii-linux";
   txt "/home/u/.local/share/applications"; txt "/home/u/.config"; txt "/home/u/.config/tobii-linux"].
Definition the_files : list (text * text) :=
  [(path_join bin_dir (txt "tobii"), txt "ELF"); (path_join bin_dir (txt "tobii-gtk"), txt "ELF"); (path_join bin_dir (txt ".tobii.old-12"), []); (path_join bin_dir (txt "rg"), []);
   (manifest_in (txt "/home/u/.local/share"), txt "# installs
bindir=/home/u/.local/bin
"); (desktop_entry_in (txt "/home/u/.local/share"), txt "[Desktop Entry]
Exec=/home/u/.local/bin/tobii-gtk
"); (txt "/home/u/.config/tobii-linux/config.toml", []); (txt "/home/u/.config/tobii-linux/notes", [])].
Definition the_stat (p : text) : result IoError Stat :=
  if existsb (text_eqb p) the_dirs then Ok {| st_uid := if existsb (text_eqb p) (take 2 the_dirs) then 0 else 1000; st_gid := 0; st_mode := 0x1ed; file_type := Directory |}
  else if existsb (text_eqb p) (fst <$> the_files) then Ok {| st_uid := 1000; st_gid := 1000; st_mode := 0x1ed; file_type := Regular |}
  else Err {| error_kind := NotFound; message := txt "not found" |}.
Definition the_text (p : text) : option text := snd <$> find (fun f => text_eqb (fst f) p) the_files.
Definition names_in (d : text) : list text := omap (fun f => match path_parent (fst f), file_name (fst f) with Some d', Some n => if text_eqb d d' then Some n else None | _, _ => None end) the_files.
Definition the_os : Os := {|
  symlink_metadata := the_stat; metadata := the_stat;
  canonicalize := fun p => m ← the_stat p; Ok p;
  read_link := fun _ => None;
  read_dir := fun d => if existsb (text_eqb d) the_dirs then Some (names_in d) else None;
  read_to_string := the_text;
  open_file := fun p => m ← the_stat p; Ok (Ok m, Ok (x7f :: utf8_encode (default [] (the_text p))))
|}.
(** There, a link beside the program. *)
Definition linked : text := path_join bin_dir (txt "tb").
Definition linked_os : Os := {|
  symlink_metadata := fun p => if text_eqb p linked then Ok {| st_uid := 1000; st_gid := 1000; st_mode := 0x1ff; file_type := Symlink |} else the_stat p;
  metadata := fun p => if text_eqb p linked then the_stat (path_join bin_dir (txt "tobii")) else the_stat p;
  canonicalize := fun p => if text_eqb p linked then Ok (path_join bin_dir (txt "tobii")) else canonicalize (Os := the_os) p;
  read_link := fun p => if text_eqb p linked then Some (txt "tobii") else None;
  read_dir := read_dir (Os := the_os); read_to_string := read_to_string (Os := the_os); open_file := open_file (Os := the_os)
|}.
Lemma linked_leads n : leads_to (os := linked_os) linked n -> n = path_join bin_dir (txt "tobii").
Proof.
  intros (target & d & Er & Ed & He%entry_unlinked). vm_compute in Er. injection Er as <-. vm_compute in Ed. injection Ed as <-.
  vm_compute in He. subst n. vm_compute. reflexivity.
Qed.
Lemma linked_ends : lookup_ends (os := linked_os) linked.
Proof.
  intros n0 k n He%entry_unlinked Hn. vm_compute in He. assert (E0 : n0 = linked) by (subst n0; vm_compute; reflexivity). clear He. subst n0.
  assert (Hstop : forall m x, nsteps (leads_to (os := linked_os)) m (path_join bin_dir (txt "tobii")) x -> m = 0%nat).
  { intros [|m] x Hx; [done|]. inversion Hx as [|? ? y ? (target & d & Er & _) _]; subst. vm_compute in Er. discriminate Er. }
  destruct k as [|k]; [split; [lia|intros i m Hi; lia]|]. inversion Hn as [|? ? y ? Hy Hk]; subst. apply linked_leads in Hy as ->.
  pose proof (Hstop _ _ Hk) as ->. inversion Hk; subst. split; [lia|]. intros i m Hi Hm. assert (i = 0%nat) as -> by lia. inversion Hm; subst.
  vm_compute. discriminate.
Qed.
Lemma vetted_is_ours_alone_witness : let file := path_join bin_dir (txt "tobii") in
  vet (os := linked_os) (fun g => private_group_in the_passwd the_group g 1000) linked 1000 = Ok file /\
  on_the_way (os := linked_os) linked file /\ path_parent file = Some bin_dir /\
  kept_from_others (os := linked_os) 1000 the_passwd the_group (fun _ => False) bin_dir /\
  exists m, symlink_metadata (Os := linked_os) linked = Ok m /\ (st_uid m = 1000 \/ st_uid m = 0).
Proof.
  assert (E : vet (os := linked_os) (fun g => private_group_in the_passwd the_group g 1000) linked 1000 = Ok (path_join bin_dir (txt "tobii")))
    by (vm_compute; reflexivity).
  assert (Hw : forall n, n = linked -> entry_of (os := linked_os) linked n).
  { intros n ->. exists bin_dir, (txt "tb"), bin_dir. split; [vm_compute; reflexivity|]. split; [vm_compute; reflexivity|].
    split; [vm_compute; reflexivity|]. split; vm_compute; reflexivity. }
  destruct (vetted_is_ours_alone (os := linked_os) 1000 the_passwd the_group linked (path_join bin_dir (txt "tobii"))) as (_ & _ & _ & Hd & _ & Hn); [|exact linked_ends|exact E|].
  { vm_compute. repeat constructor; repeat (rewrite not_elem_of_cons; split; [discriminate|]); apply not_elem_of_nil. }
  split; [exact E|]. split; [|split; [vm_compute; reflexivity|split]].
  - exists linked. split; [by apply Hw|]. apply rtc_once. exists (txt "tobii"), bin_dir. split; [vm_compute; reflexivity|]. split; [vm_compute; reflexivity|].
    exists bin_dir, (txt "tobii"), bin_dir. split; [vm_compute; reflexivity|]. split; [vm_compute; reflexivity|]. split; [vm_compute; reflexivity|]. split; vm_compute; reflexivity.
  - apply Hd. right. vm_compute. reflexivity.
  - apply Hn; [|discriminate]. exists linked. split; [by apply Hw|apply rtc_refl].
Defined.
