(* ===== verification/UninstallPlan.v ===== *)
(** * UninstallPlan: everything an uninstall would do (crates/tobii-cli/src/uninstall.rs)

    The options, the plan and how it is made: where to look, what each place is, which files
    go with the binaries, and what is only reported. The package managers, a binary's own
    answer, write permission and the processes are arguments. [plan_with_fs] is one function
    of them, in the order of the source. *)
From S2P Require Import Prelude Text Paths Order Install Steam Store Autostart Disk Proton ProfileStore ModelStore Folder Uninstall CargoRecord.

(** ** Options *)
Record Options := { dry_run : bool; yes : bool; purge : bool; udev : bool; system : bool; bindirs : list text }.
#[export] Instance options_eq_dec : EqDecision Options. Proof. solve_decision. Defined.
Definition options0 : Options := {| dry_run := false; yes := false; purge := false; udev := false; system := false; bindirs := [] |}.
Definition USAGE : text := txt "usage: tobii uninstall [--dry-run] [--yes] [--purge] [--udev] [--system] [--bindir DIR]

  --dry-run    print the plan and change nothing (do this first)
  --yes        do not ask; required when there is no terminal to ask on.
               --yes also stops running copies with SIGTERM if they do not quit
  --purge      also delete your settings, calibration, models, profiles and log
  --udev       also remove the udev rule from /etc/udev/rules.d (uses sudo)
  --system     remove a `sudo ./install.sh --system` install (run with sudo)
  --bindir DIR also look in DIR for an install (absolute path; repeatable)".
Definition absolute_dir (d : text) : result text text :=
  if is_absolute d then Ok d else Err (txt "--bindir needs an absolute path, not `" ++ d ++ txt "`").
Definition is_one_of (a : text) (names : list text) : bool := existsb (text_eqb a) names.
Fixpoint parse_from (o : Options) (args : list text) : result text (option Options) :=
  match args with
  | [] => Ok (Some o)
  | a :: args =>
      if is_one_of a [txt "--dry-run"; txt "-n"] then parse_from {o with dry_run := true} args
      else if is_one_of a [txt "--yes"; txt "-y"] then parse_from {o with yes := true} args
      else if is_one_of a [txt "--purge"] then parse_from {o with purge := true} args
      else if is_one_of a [txt "--udev"] then parse_from {o with udev := true} args
      else if is_one_of a [txt "--system"] then parse_from {o with system := true} args
      else if is_one_of a [txt "--bindir"] then
        match args with
        | [] => Err (txt "--bindir needs a directory")
        | d :: args => d ← absolute_dir d; parse_from {o with bindirs := bindirs o ++ [d] } args
        end
      else if is_one_of a [txt "-h"; txt "--help"] then Ok None
      else match strip_prefix (txt "--bindir=") a with
           | Some d => d ← absolute_dir d; parse_from {o with bindirs := bindirs o ++ [d] } args
           | None => Err (txt "unknown option `" ++ a ++ txt "`

" ++ USAGE)
           end
  end.
Definition parse_options (args : list text) : result text (option Options) := parse_from options0 args.

(** ** The environment and the processes *)
Record Env := {
  home : option text; xdg_config_home : option text; xdg_data_home : option text; xdg_state_home : option text; xdg_runtime_dir : option text;
  log_file : option text; search_path : list text; wineprefix : option text; euid : Z; sudo_user : option text; current_exe : option text; pid : Z; ppid : Z
}.
Definition config_home (e : Env) : text := xdg_dir (xdg_config_home e) (home e) (txt ".config").
Definition data_home (e : Env) : text := xdg_dir (xdg_data_home e) (home e) (txt ".local/share").
Definition state_home (e : Env) : text := xdg_dir (xdg_state_home e) (home e) (txt ".local/state").
Record Proc := { proc_pid : Z; proc_uid : Z; exe : text; proc_args : list text; start_time : option Z }.
#[export] Instance proc_eq_dec : EqDecision Proc. Proof. solve_decision. Defined.
(** The effective user and the parent, out of [/proc/self/status]. *)
Definition status_field (status key : text) : option text := trim <$> head (omap (strip_prefix key) (lines status)).
Definition euid_in (status : text) : option Z := v ← status_field status (txt "Uid:"); w ← split_whitespace v !! 1%nat; parse_uint 32 10 w.
Definition ppid_in (status : text) : Z := default 0 (v ← status_field status (txt "PPid:"); parse_uint 32 10 v).
(** Field 22 of a stat line, counted from the last closing parenthesis. *)
Definition parse_start_time (stat : text) : option Z :=
  '(after, _) ← split_once (Z.eqb 41) (rev stat); w ← split_whitespace (rev after) !! 19%nat; parse_uint 64 10 w.
Lemma start_time_of_any_name (front rest : text) : Forall (fun c => (41 =? c) = false) rest ->
  parse_start_time (front ++ 41 :: rest) = (w ← split_whitespace rest !! 19%nat; parse_uint 64 10 w).
Proof.
  intros H. unfold parse_start_time. rewrite rev_app_distr. cbn [rev]. rewrite <- app_assoc. cbn [app].
  rewrite (split_once_app _ (rev rest) 41); [cbn [mbind option_bind]; by rewrite rev_involutive|by apply Forall_rev|done].
Qed.

(** ** The plan *)
Inductive Via := Manifest | SystemManifest | MenuEntry | AutostartEntry | ThisProgram | DefaultDir | Bindir.
#[export] Instance via_eq_dec : EqDecision Via. Proof. solve_decision. Defined.
Inductive Verdict :=
| VRemove | NothingThere | VPackage (manager package : text) | SystemInstall | VNotWritable | NotOurs (uid : Z)
| Unidentified | NotAnInstall (why : text) | NotRunAsRoot (why : text).
Record Binary := { bin_name : text; ident : Ident; planned : bool }.
Record Location := { dir : text; via : list Via; verdict : Verdict; binaries : list Binary }.
Record Removal := { gone_path : text; what : text; tree : bool }.
Record Kept := { kept_path : text; why : text }.
Record ManifestEdit := { file : text; drop_dirs : list text; then_empty : bool }.
Record Plan := {
  plan_euid : Z; refusal : option text; locations : list Location; stop : list Proc; other_hubs : list Proc; orphan_hubs : list Proc;
  remove : list Removal; self_exe : option text; running : option text; manifests : list ManifestEdit; rmdirs : list text;
  icon_caches : list text; kept : list Kept; hints : list text; warnings : list text; udev_rules : list text; udev_notes : list text;
  bridge_prefixes : list text
}.
Definition plan0 (e : Z) : Plan := {|
  plan_euid := e; refusal := None; locations := []; stop := []; other_hubs := []; orphan_hubs := []; remove := []; self_exe := None;
  running := None; manifests := []; rmdirs := []; icon_caches := []; kept := []; hints := []; warnings := []; udev_rules := [];
  udev_notes := []; bridge_prefixes := [] |}.
Definition is_nil {A} (l : list A) : bool := match l with [] => true | _ => false end.
Definition is_empty (p : Plan) : bool := is_nil (remove p) && is_nil (option_list (self_exe p)) && is_nil (manifests p) && is_nil (rmdirs p).
Definition NEVER_REMOVE : list text := [txt "icon-theme.cache"; txt "mimeinfo.cache"].
Definition push_remove (path what : text) (tree : bool) (p : Plan) : Plan :=
  if match file_name path with Some n => is_one_of n NEVER_REMOVE | None => false end then p
  else if existsb (fun r => same_path (gone_path r) path) (remove p) then p
  else {p with remove := remove p ++ [{| gone_path := path; what := what; tree := tree |}] }.
Definition keep (path why : text) (p : Plan) : Plan := {p with kept := kept p ++ [{| kept_path := path; why := why |}] }.
Definition hint (t : text) (p : Plan) : Plan := {p with hints := hints p ++ [t] }.
Definition locate (l : Location) (p : Plan) : Plan := {p with locations := locations p ++ [l] }.
(** Whether the entry stays. *)
Definition settle_entry (entry label : text) (d : Decision) (p : Plan) : bool * Plan :=
  match d with
  | Absent => (false, p)
  | Remove why => (false, push_remove entry (label ++ txt " — " ++ why) false p)
  | Keep why => (true, keep entry why p)
  end.

(** ** What is said *)
Definition q (p : text) : text := shell_word p.
Definition package_remove_command (manager package : text) : text :=
  if text_eqb manager (txt "pacman") then txt "sudo pacman -R " ++ package
  else if text_eqb manager (txt "dpkg") then txt "sudo apt remove " ++ package
  else if text_eqb manager (txt "rpm") then txt "sudo dnf remove " ++ package ++ txt "    (openSUSE: sudo zypper remove " ++ package ++ txt ")"
  else txt "remove the package " ++ package ++ txt " with " ++ manager.
Definition package_hint (dir manager package : text) : text :=
  dir ++ txt " belongs to " ++ manager ++ txt ", as the package " ++ package ++ txt ", so nothing is removed there. Remove it with:
    " ++ package_remove_command manager package ++ txt "
  That removes the packaged copy only. Copies in your home directory are `tobii uninstall`'s job — this run includes any it found.".
Definition system_hint (dir exe : text) (self_removed : bool) : text :=
  dir ++ txt " is a system-wide install (you cannot write to it, no package owns it, and what is there is this program). Remove it with:
    sudo " ++ shell_word exe ++ txt " uninstall --system --bindir " ++ q dir ++
  if self_removed then txt "
  Do that first, or with a copy of tobii that stays: this run removes " ++ exe ++ txt "." else [].
Definition chmod_hint (dir : text) : text :=
  dir ++ txt " holds this program and is yours, but you cannot write to it, so nothing there is removed. It is not root's, so sudo would not help. Make it writable, then run this again:
    chmod u+w " ++ q dir.
Definition chown_hint (dir : text) (euid : Z) : text :=
  dir ++ txt " holds this program and belongs to another account — an older `sudo ./install.sh` made it, probably. It is inside your home, so `sudo tobii uninstall --system` refuses it too, and nothing there is removed. Give that one folder back to yourself, then run this again:
    sudo chown " ++ show_uint euid ++ txt " " ++ q dir.
Definition root_refusal (e : Env) : text :=
  txt "this is running as root" ++ match sudo_user e with Some u => txt " through sudo (as " ++ u ++ txt ")" | None => [] end ++
  txt ". Under sudo HOME is " ++ default (txt "unset") (home e) ++ txt " — root's home, not yours — so it would look for root's install and miss yours entirely.
  Run `tobii uninstall` without sudo: it removes files in your home and needs no root.
  For an install made with `sudo ./install.sh --system`, run `sudo tobii uninstall --system`.".
Definition root_leftovers : list text :=
  [txt "/root/.local/bin/tobii"; txt "/root/.local/bin/tobii-gtk"; desktop_entry_in (txt "/root/.local/share"); icon_in (txt "/root/.local/share")].
Definition CALIBRATION_WARNING : text := txt "calibration.bin is the tracker's calibration. Everything else --purge deletes is quick to set up again; redoing the calibration is the costly part — a full follow-the-dot run at this screen.".

Definition MODELS_DIR : text := txt "models".
Definition SYSTEM_DATA_DIR : text := txt "/usr/local/share".
Definition UDEV_RULES : list text := [txt "/etc/udev/rules.d/60-tobii.rules"; txt "/etc/udev/rules.d/99-tobii.rules"].
Definition PACKAGE_UDEV_RULE : text := txt "/usr/lib/udev/rules.d/60-tobii.rules".
Record Candidate := { place : text; ways : list Via }.
(** What is gathered while the places are gone through. *)
Record St := { plan : Plan; removing : list text; cleared : list text; system_dirs : list text }.
Definition on_plan (f : Plan -> Plan) (s : St) : St := {s with plan := f (plan s)}.

(** Whether anything may be done at all. *)
Definition guards (e : Env) (o : Options) : option text :=
  if system o then
    if negb (euid e =? 0) then Some (txt "--system removes a system-wide install and needs root: sudo tobii uninstall --system")
    else if purge o then Some (txt "--purge deletes one person's settings and calibration, which live in their home — run it as that person, without sudo and without --system")
    else None
  else if euid e =? 0 then Some (root_refusal e)
  else match absolute (home e) with Some _ => None | None => Some (txt "HOME is not set, so there is no home install to find") end.
Definition data_of (e : Env) (o : Options) : text := if system o then SYSTEM_DATA_DIR else data_home e.
Definition autostart_entry (e : Env) : text := path_join (autostart_dir_in (config_home e)) ENTRY_NAME.

Section Plan.
Context {os : Os} (owner : text -> Ownership) (identify : text -> option text) (writable : text -> bool) (private_group : Z -> bool).
(** The version of this program, and how Rust prints a string for debugging. *)
Context (version : text) (debug : text -> text).

(** ** Where to look *)
Definition read_bindirs (file : text) : list text := match read_to_string (at_ file) with Some t => manifest_bindirs t | None => [] end.
Fixpoint note_via (dir : text) (v : Via) (found : list Candidate) : list Candidate :=
  match found with
  | [] => [{| place := dir; ways := [v] |}]
  | c :: found => if same_path (place c) dir then (if bool_decide (v ∈ ways c) then c else {c with ways := ways c ++ [v] }) :: found else c :: note_via dir v found
  end.
Definition add (v : Via) (found : list Candidate) (dir : text) : list Candidate := note_via (canon_or dir) v found.
Definition holds_ours (d : text) : bool := existsb (fun b => is_file_or_link (path_join d b)) BINARIES.
Definition exec_dir (e : Env) (entry : text) : option text :=
  t ← read_to_string (at_ entry); match exec_target t (search_path e) with PathTarget prog => path_parent prog | _ => None end.
Definition manifest_of (e : Env) (o : Options) : text := manifest_in (data_of e o).
Definition system_listed (o : Options) : list text := if system o then [] else canon_or <$> read_bindirs (manifest_in SYSTEM_DATA_DIR).
Definition found_in_home (e : Env) (o : Options) (found : list Candidate) : list Candidate :=
  if system o then found
  else
    let found := foldl (add SystemManifest) found (system_listed o) in
    let found := foldl (add MenuEntry) found (option_list (exec_dir e (desktop_entry_in (data_of e o)))) in
    let found := foldl (add AutostartEntry) found (option_list (exec_dir e (autostart_entry e))) in
    let found := foldl (add ThisProgram) found (option_list (x ← current_exe e; path_parent x)) in
    match absolute (home e) with
    | Some h => let d := path_join h (txt ".local/bin") in if holds_ours d then add DefaultDir found d else found
    | None => found
    end.
Definition discover (e : Env) (o : Options) : list Candidate :=
  let found := foldl (add Manifest) [] (read_bindirs (manifest_of e o)) in
  foldl (add Bindir) (found_in_home e o found) (bindirs o).

(** ** What each place is *)
Definition me_of (e : Env) : option text := canon_or <$> current_exe e.
Definition present_in (dir : text) : list text := List.filter (fun b => is_file_or_link (path_join dir b)) BINARIES.
(** Why a name there cannot be looked at. *)
Definition hidden_name (dir b : text) : option IoError := match symlink_metadata (at_ (path_join dir b)) with Err e => if is_gone e then None else Some e | Ok _ => None end.
Definition hidden (dir : text) : option IoError := head (omap (hidden_name dir) BINARIES).
Definition is_me (me : option text) (path : text) : bool := match me, canon path with Some m, Some c => same_path c m | _, _ => false end.
Definition me_answer : Ident := Me (txt "tobii " ++ version).
Definition judge_listed (e : Env) (dir path : text) : Ident * option text :=
  match listed_check path (euid e) with
  | Ok _ => (if is_me (me_of e) path then me_answer else Listed, None)
  | Err (NotRun, why) => (NotRun, Some (why ++ txt ". If it is an install of this program, remove it as that user: tobii uninstall --bindir " ++ q dir))
  | Err (i, why) => (i, Some why)
  end.
Definition not_answered (b : text) (answer : option text) : text :=
  txt "found by inference, and it did not answer --version with " ++ [34] ++ b ++ txt " …" ++ [34] ++ txt " (" ++
  match answer with Some a => txt "it said " ++ debug (sanitize a) | None => txt "it gave no answer" end ++ txt ") — it may not be this program's".
Definition judge_inferred (e : Env) (dir b path : text) : Ident * option text :=
  match vet private_group path (euid e) with
  | Err (Refused short why) => (RefusedAs short, Some (txt "found by inference, and " ++ why))
  | Err (NotAsRoot why) =>
      (NotRun, Some (txt "not run as root to ask what it is: " ++ why ++
        txt ", so whoever that is chooses what it would run. If it is an install of this program, remove it as that user: tobii uninstall --bindir " ++ q dir))
  | Ok vetted =>
      if is_me (me_of e) path then (me_answer, None)
      else let answer := identify vetted in
           (Answered answer, if match answer with Some a => starts_with (b ++ [32]) a | None => false end then None else Some (not_answered b answer))
  end.
(** A binary, and why it is kept. *)
Definition judge (e : Env) (dir : text) (listed : bool) (cargo : list (text * text)) (b : text) : text * Ident * option text :=
  match find (fun x => text_eqb (fst x) b) cargo with
  | Some (_, package) =>
      (b, RefusedAs (txt "cargo install's"),
       Some (txt "`cargo install` put it here from " ++ package ++ txt ", and Cargo's record lists it — left to Cargo (the command is below)"))
  | None => let '(i, why) := (if listed then judge_listed e dir (path_join dir b) else judge_inferred e dir b (path_join dir b)) in (b, i, why)
  end.
Definition kept_why (j : text * Ident * option text) : option text := snd j.
Definition first_not_run (js : list (text * Ident * option text)) : option text := head (omap (fun j => match snd (fst j) with NotRun => kept_why j | _ => None end) js).
(** One binary's fate. *)
Definition settle (can_write : bool) (dir : text) (s : St * list Binary) (j : text * Ident * option text) : St * list Binary :=
  let '(s, bins) := s in
  let '(b, i, w) := j in
  let path := path_join dir b in
  match w with
  | Some w => (on_plan (keep path w) s, bins ++ [{| bin_name := b; ident := i; planned := false |}])
  | None =>
      if can_write then ({s with removing := removing s ++ [path] }, bins ++ [{| bin_name := b; ident := i; planned := true |}])
      else (s, bins ++ [{| bin_name := b; ident := i; planned := false |}])
  end.
Definition locate_as (c : Candidate) (v : Verdict) (bins : list Binary) (s : St) : St :=
  on_plan (locate {| dir := place c; via := ways c; verdict := v; binaries := bins |}) s.
(** Whose a folder is that cannot be written. *)
Definition unwritable (e : Env) (c : Candidate) (bins : list Binary) (s : St) : St :=
  let mine := match uid_at (at_ (place c)) false with Ok u => u =? euid e | Err _ => false end in
  if mine then locate_as c VNotWritable bins (on_plan (hint (chmod_hint (place c))) s)
  else if match home e with Some h => bool_decide (take (length (components h)) (components (place c)) = components h) | None => false end then
    locate_as c (NotOurs (euid e)) bins (on_plan (hint (chown_hint (place c) (euid e))) s)
  else locate_as c SystemInstall bins {s with system_dirs := system_dirs s ++ [place c] }.
Definition sweep (dir : text) (p : Plan) (n : text) : Plan :=
  match scratch_of n with
  | Some _ => push_remove (path_join dir n) (txt "a temporary left by the updater or installer") (is_real_dir (path_join dir n)) p
  | None => p
  end.
Definition entries (dir : text) : list text := default [] (sort_by (not_after text_cmp) <$> read_dir (at_ dir)).
Definition settle_place (e : Env) (c : Candidate) (listed : bool) (cargo : list (text * text)) (present : list text) (s : St) : St :=
  let js := judge e (place c) listed cargo <$> present in
  let can_write := writable (at_ (place c)) in
  let '(s, bins) := foldl (settle can_write (place c)) (s, []) js in
  if negb can_write && existsb (fun j => match kept_why j with None => true | Some _ => false end) js then unwritable e c bins s
  else if negb (existsb planned bins) then
    locate_as c (match first_not_run js with Some w => NotRunAsRoot w | None => Unidentified end) bins s
  else
    let s := if forallb planned bins then {s with cleared := cleared s ++ [place c] } else s in
    locate_as c VRemove bins (on_plan (fun p => foldl (sweep (place c)) p (entries (place c))) s).
Definition owner_unknown (dir manager why : text) : text :=
  manager ++ txt " could not be asked whether it owns the copy in " ++ dir ++ txt " (" ++ why ++
  txt "), so nothing was changed. A package-managed file has to be removed by its package manager, and this cannot rule that out. Fix " ++ manager ++ txt " and run this again.".
Definition RECORD_LIMIT : Z := Z.shiftl 4 20.
(** One place. [Err]: the plan is refused there. *)
Definition classify (e : Env) (o : Options) (s : St) (c : Candidate) : result Plan St :=
  let d := place c in
  let listed := bool_decide (Manifest ∈ ways c) in
  let may_read := negb (euid e =? 0) || is_ok (root_may_run d) in
  match (if listed then None else not_an_install d may_read) with
  | Some why => Ok (locate_as c (NotAnInstall why) [] s)
  | None =>
      let present := present_in d in
      if is_nil present then
        match hidden d with
        | Some err => Ok (locate_as c Unidentified [] (on_plan (keep d (txt "it cannot be looked at (" ++ message err ++
            txt "), so whether this program is there cannot be told — left as it is")) s))
        | None => Ok (locate_as c NothingThere [] {s with cleared := cleared s ++ [d] })
        end
      else if negb (system o) && lists (system_listed o) d && forallb (fun b => is_ok (root_may_run (path_join d b))) present then
        Ok (locate_as c SystemInstall [] {s with system_dirs := system_dirs s ++ [d] })
      else
        let cargo := if listed || negb may_read then [] else cargo_listed (fun f => read_regular f RECORD_LIMIT) d present in
        let s := if is_nil cargo then s else on_plan (hint (cargo_hint d cargo)) s in
        if negb (is_nil cargo) && (length cargo =? length present)%nat then Ok (locate_as c (VPackage (txt "cargo") (cargo_package_list cargo)) [] s)
        else match owner (at_ d) with
             | Install.Package manager package => Ok (locate_as c (VPackage manager package) [] (on_plan (hint (package_hint d manager package)) s))
             | Install.Unknown manager why => Err (plan (locate_as c NothingThere [] (on_plan (fun p => {p with refusal := Some (owner_unknown d manager why)}) s)))
             | Nobody => Ok (settle_place e c listed cargo present s)
             end
  end.
Fixpoint classify_all (e : Env) (o : Options) (s : St) (found : list Candidate) : result Plan St :=
  match found with
  | [] => Ok s
  | c :: found => s ← classify e o s c; classify_all e o s found
  end.

(** ** What goes with them *)
(** The binaries first, the running one apart. *)
Definition split_self (me : option text) (p : Plan) (b : text) : Plan :=
  if match me with Some m => same_path m b | None => false end then {p with self_exe := Some b}
  else {p with remove := remove p ++ [{| gone_path := b; what := txt "binary"; tree := false |}] }.
Definition binaries_first (e : Env) (s : St) : Plan :=
  let scratch := remove (plan s) in
  let p := foldl (split_self (me_of e)) {(plan s) with remove := [] } (removing s) in
  let p := {p with remove := remove p ++ scratch} in
  foldl (fun p d => hint (system_hint d (default (txt "tobii") (me_of e)) (match self_exe p with Some _ => true | None => false end)) p) p (system_dirs s).
Definition is_removed (removing : list text) (x : text) : bool := existsb (fun n => lists removing n) (link_chain x).
Definition icon_goes (data : text) (entry_kept : bool) (p : Plan) : Plan :=
  let icon := icon_in data in
  if negb (exists_ icon) then p
  else if entry_kept then keep icon (txt "the menu entry that stays shows it") p
  else let p := push_remove icon (txt "the menu entry's icon") false p in
       if is_file_or_link (path_join (hicolor_in data) (txt "icon-theme.cache")) then {p with icon_caches := icon_caches p ++ [hicolor_in data] } else p.
Definition remove_entries (what : text) (dir : text) (ours : text -> bool) (p : Plan) : Plan :=
  foldl (fun p n => if ours n then push_remove (path_join dir n) what false p else p) p (entries dir).
Definition entry_files (e : Env) (o : Options) (removing : list text) (p : Plan) : Plan :=
  let data := data_of e o in
  let entry := desktop_entry_in data in
  let '(entry_kept, p) := settle_entry entry (txt "the menu entry") (entry_decision entry (is_removed removing) (search_path e) (txt "the menu entry")) p in
  let p := icon_goes data entry_kept p in
  if system o then p
  else let d := entry_decision (autostart_entry e) (is_removed removing) (search_path e) (txt "start-at-login") in
       let '(_, p) := settle_entry (autostart_entry e) (txt "the start-at-login entry") d p in
       remove_entries (txt "a temporary left by the hub's start-at-login switch") (autostart_dir_in (config_home e)) is_scratch_name p.
Definition edit_manifest (e : Env) (o : Options) (cleared : list text) (p : Plan) : Plan :=
  let manifest := manifest_of e o in
  let drop := List.filter (fun d => lists cleared (canon_or d)) (read_bindirs manifest) in
  if is_nil drop then p
  else
    let t := default [] (read_to_string (at_ manifest)) in
    let then_empty := negb (existsb (manifest_line_survives (lists drop)) (lines t)) in
    let p := if then_empty then
               match path_parent manifest with
               | Some dir =>
                   let p := remove_entries (txt "a temporary left by the installer's manifest write") dir (is_scratch_of MANIFEST_FILE) p in
                   {p with rmdirs := rmdirs p ++ [dir] }
               | None => p
               end
             else p in
    {p with manifests := manifests p ++ [{| file := manifest; drop_dirs := drop; then_empty := then_empty |}] }.
(** ** Purging *)
Definition purge_name (dir : text) (ours : text -> bool) (subdirs : list text) (p : Plan) (n : text) : Plan :=
  let path := path_join dir n in
  if is_one_of n subdirs && is_real_dir path then p
  else if ours n && is_file_or_link path then push_remove path (txt "--purge") false p
  else keep path (txt "not written by this program, so --purge leaves it") p.
Definition purge_dir (dir : text) (ours : text -> bool) (subdirs : list text) (p : Plan) : Plan :=
  match read_dir (at_ dir) with
  | None => p
  | Some _ => let p := foldl (purge_name dir ours subdirs) p (entries dir) in {p with rmdirs := rmdirs p ++ [dir] }
  end.
Definition cfg_known : list text := CONFIG_FILES ≫= fun n => [n; n ++ ATOMIC_TMP_SUFFIX].
Definition cfg_of (e : Env) : text := path_join (config_home e) APP_DIR.
Definition purge_all (e : Env) (p : Plan) : Plan :=
  let cfg := cfg_of e in
  let p := purge_dir (path_join cfg MODELS_DIR) (fun n => is_one_of n file_names) [] p in
  let p := purge_dir (path_join cfg PROFILES_DIR) is_profile_file [] p in
  let p := purge_dir cfg (fun n => is_one_of n cfg_known) [MODELS_DIR; PROFILES_DIR] p in
  let p := purge_dir (path_join (state_home e) APP_DIR) (fun n => is_one_of n STATE_FILES) [] p in
  let p := if existsb (fun r => same_path (gone_path r) (path_join cfg CALIBRATION_BIN)) (remove p) then {p with warnings := warnings p ++ [CALIBRATION_WARNING] } else p in
  match log_file e with Some log => keep log (txt "TOBII_LOG_FILE sends the log here — a path you chose, so it is not deleted") p | None => p end.
Definition runtime_dir (e : Env) (o : Options) (p : Plan) : Plan :=
  match xdg_runtime_dir e with
  | Some rt =>
      let sock := path_join rt APP_DIR in
      if negb (system o) && exists_ sock then keep sock (txt "the hub's socket directory, on a tmpfs that is cleared when you log out") p else p
  | None => p
  end.
(** ** What is left to others *)
Definition udev_note (t : text) (p : Plan) : Plan := {p with udev_notes := udev_notes p ++ [t] }.
Definition udev_step (p : Plan) : Plan :=
  let p := {p with udev_rules := udev_rules p ++ List.filter exists_ UDEV_RULES} in
  let p := if is_nil (udev_rules p) then udev_note (txt "there is no udev rule of this program's in /etc/udev/rules.d") p else p in
  let package := existsb (fun l => match verdict l with VPackage manager _ => negb (text_eqb manager (txt "cargo")) | _ => false end) (locations p) in
  if package || exists_ PACKAGE_UDEV_RULE then
    udev_note (txt "a package install is still here, and it ships its own rule at " ++ PACKAGE_UDEV_RULE ++
      txt ", which the /etc copy was overriding. Removing the /etc copy puts the package's rule in charge; that one is not touched.") p
  else if negb (is_nil (udev_rules p)) then
    udev_note (txt "without a udev rule the tracker can only be opened as root, by any copy of this program that remains") p
  else p.
Definition left_behind (b : text) : option bool :=
  match symlink_metadata (at_ b) with Ok _ => Some true | Err e => match error_kind e with PermissionDenied => Some false | _ => None end end.
Definition root_hint : option text :=
  let answers := omap left_behind (take 2 root_leftovers) in
  let list := join [32] (q <$> root_leftovers) in
  if existsb id answers then
    Some (txt "A past `sudo ./install.sh` left a copy in root's home, which this run does not touch. Remove exactly those four files with:
    sudo rm -f " ++ list)
  else if negb (is_nil answers) then
    Some (txt "/root cannot be read from here. A past `sudo ./install.sh` may have left these four files there: " ++ list)
  else None.
(** Paths in the order of their components. *)
Definition component_rank (c : component) : Z := match c with RootDir => 0 | CurDir => 1 | ParentDir => 2 | Normal _ => 3 end.
Definition component_cmp : component -> component -> comparison := cmp_both (cmp_by component_rank Z.compare) (cmp_by component_name text_cmp).
Definition path_cmp : text -> text -> comparison := cmp_by components (cmp_list component_cmp).
Definition is_dir_there (p : text) : bool := match metadata p with Ok m => bool_decide (file_type m = Directory) | Err _ => false end.
Definition in_library (lib : text) : list text :=
  let dir := path_join lib (txt "steamapps/compatdata") in
  omap (fun n => let pfx := path_join (path_join dir n) (txt "pfx") in
                 if is_dir_there (path_join pfx INSTALL_SUBDIR) then Some (logical pfx) else None) (default [] (read_dir dir)).
Definition wine_prefixes (home : text) (wineprefix : option text) : list text :=
  let libraries := (scan is_dir_there (fun p => ok (canonicalize p)) read_to_string (at_ home)).1 in
  let defaults := option_list (absolute wineprefix) ++ [path_join home (txt ".wine")] in
  let out := (libraries ≫= in_library) ++ omap (fun w => if is_real_dir (path_join w INSTALL_SUBDIR) then Some (canon_or w) else None) defaults in
  dedup_by (fun kept x => if same_path kept x then Some kept else None) (sort_by (not_after path_cmp) out).
(** ** Processes *)
Definition DELETED : text := txt " (deleted)".
Definition sort_proc (e : Env) (o : Options) (targets : list text) (p : Plan) (pr : Proc) : Plan :=
  if (proc_pid pr =? pid e) || (proc_pid pr =? ppid e) then p
  else if negb (system o) && negb (proc_uid pr =? euid e) then p
  else
    let '(x, deleted) := match strip_suffix DELETED (exe pr) with Some x => (x, true) | None => (exe pr, false) end in
    if is_one_of x targets then {p with stop := stop p ++ [pr] }
    else if bool_decide (file_name x = Some (txt "tobii-gtk")) then
      if deleted && match presence x with Gone => true | _ => false end then
        if system o then p else {p with orphan_hubs := orphan_hubs p ++ [pr] }
      else {p with other_hubs := other_hubs p ++ [pr] }
    else p.

Definition with_places (e : Env) (o : Options) (procs : list Proc) (s : St) : Plan :=
  let p := entry_files e o (removing s) (binaries_first e s) in
  let p := edit_manifest e o (cleared s) p in
  let p := if purge o then purge_all e p else p in
  let p := runtime_dir e o p in
  let p := if udev o then udev_step p else p in
  let p := match root_hint with Some h => hint h p | None => p end in
  let p := match absolute (home e) with
           | Some h => if system o then p else {p with bridge_prefixes := wine_prefixes h (wineprefix e)}
           | None => p
           end in
  foldl (sort_proc e o (removing s)) p procs.
Definition plan_with_fs (e : Env) (o : Options) (procs : list Proc) : Plan :=
  match guards e o with
  | Some why => {(plan0 (euid e)) with refusal := Some why}
  | None =>
      let p := {(plan0 (euid e)) with running := me_of e} in
      match classify_all e o {| plan := p; removing := []; cleared := []; system_dirs := [] |} (discover e o) with
      | Err p => p
      | Ok s => with_places e o procs s
      end
  end.
End Plan.

(** ** Only what is this program's *)
Section Safe.
Context {os : Os} (owner : text -> Ownership) (identify : text -> option text) (writable : text -> bool) (private_group : Z -> bool).
Context (version : text) (debug : text -> text) (e : Env) (o : Options).
Abbreviation judged := (judge identify private_group version debug e).
Abbreviation classified := (classify owner identify writable private_group version debug e o).

(** Why a binary may go: nobody else's, in a folder that can be written and no package owns,
    and either where the manifest says and a program of the user's, or let through by [vet]
    and this program by its own word. *)
Record may_go (c : Candidate) (b : text) : Prop := {
  may_name : b ∈ BINARIES;
  may_there : is_file_or_link (path_join (place c) b) = true;
  may_write : writable (at_ (place c)) = true;
  may_owner : owner (at_ (place c)) = Nobody;
  may_judged :
    (Manifest ∈ ways c /\ listed_check (path_join (place c) b) (euid e) = Ok tt) \/
    ((Manifest ∉ ways c) /\ not_an_install (place c) (negb (euid e =? 0) || is_ok (root_may_run (place c))) = None /\
     exists real, vet private_group (path_join (place c) b) (euid e) = Ok real /\
       (is_me (me_of e) (path_join (place c) b) = true \/ exists a, identify real = Some a /\ starts_with (b ++ [32]) a = true))
}.

Lemma judged_name d listed cargo b : (judged d listed cargo b).1.1 = b.
Proof. unfold judge. destruct (find _ cargo) as [[x package]|]; [done|]. destruct (if listed then _ else _). done. Qed.
Lemma judged_listed d cargo b : kept_why (judged d true cargo b) = None -> listed_check (path_join d b) (euid e) = Ok tt.
Proof.
  unfold judge. destruct (find _ cargo) as [[x package]|]; [done|]. unfold judge_listed. destruct (listed_check _ _) as [[]|[[] w]]; done.
Qed.
Lemma judged_inferred d cargo b : kept_why (judged d false cargo b) = None ->
  exists real, vet private_group (path_join d b) (euid e) = Ok real /\
    (is_me (me_of e) (path_join d b) = true \/ exists a, identify real = Some a /\ starts_with (b ++ [32]) a = true).
Proof.
  unfold judge. destruct (find _ cargo) as [[x package]|]; [done|]. unfold judge_inferred. destruct (vet _ _ _) as [real|[]]; [|done..].
  intros H. exists real. split; [done|]. destruct (is_me _ _); [by left|right]. cbn [kept_why snd] in H. destruct (identify real) as [a|]; [|done].
  exists a. split; [done|]. by destruct (starts_with _ a).
Qed.
(** What the settling of a place adds. *)
Definition goes (cw : bool) (j : text * Ident * option text) : bool := cw && match kept_why j with None => true | Some _ => false end.
Definition binary_of (cw : bool) (j : text * Ident * option text) : Binary := {| bin_name := j.1.1; ident := j.1.2; planned := goes cw j |}.
Lemma settle_one cw d s bins j : let r := settle cw d (s, bins) j in
  removing r.1 = removing s ++ ((fun j => path_join d j.1.1) <$> List.filter (goes cw) [j]) /\ remove (plan r.1) = remove (plan s) /\
  cleared r.1 = cleared s /\ r.2 = bins ++ [binary_of cw j].
Proof.
  destruct j as [[b i] [w|]]; cbn zeta; unfold settle, binary_of, goes, kept_why; cbn [fst snd List.filter].
  - rewrite andb_false_r. cbn. by rewrite app_nil_r.
  - rewrite andb_true_r. destruct cw; cbn; [done|]. by rewrite app_nil_r.
Qed.
Lemma settle_adds cw d js s bins : let r := foldl (settle cw d) (s, bins) js in
  removing r.1 = removing s ++ ((fun j => path_join d j.1.1) <$> List.filter (goes cw) js) /\
  remove (plan r.1) = remove (plan s) /\ cleared r.1 = cleared s /\ r.2 = bins ++ (binary_of cw <$> js).
Proof.
  revert s bins. induction js as [|j js IH]; intros s bins; [by rewrite !app_nil_r|]. cbn [foldl]. cbn zeta in IH |- *.
  destruct (settle_one cw d s bins j) as (H1 & H2 & H3 & H4). destruct (settle cw d (s, bins) j) as [s1 bins1]. cbn [fst snd] in *.
  destruct (IH s1 bins1) as (K1 & K2 & K3 & K4). rewrite K1, K2, K3, K4, H1, H2, H3, H4, <- !app_assoc. split_and!; [|done..].
  change (j :: js) with ([j] ++ js). by rewrite List.filter_app, fmap_app.
Qed.

Definition never (path : text) : bool := match file_name path with Some n => is_one_of n NEVER_REMOVE | None => false end.
Lemma push_remove_in r path w tr p : r ∈ remove (push_remove path w tr p) -> r ∈ remove p \/ (gone_path r = path /\ tree r = tr /\ never path = false).
Proof.
  unfold push_remove, never. destruct (match file_name path with Some n => _ | None => _ end); [by left|]. destruct (existsb _ _); [by left|].
  cbn. intros [?|Hr]%elem_of_app; [by left|]. apply list_elem_of_singleton in Hr as ->. by right.
Qed.
Lemma fold_remove_in {A} (P : Removal -> Prop) (f : Plan -> A -> Plan) l p r :
  (forall p x, x ∈ l -> r ∈ remove (f p x) -> r ∈ remove p \/ P r) -> r ∈ remove (foldl f p l) -> r ∈ remove p \/ P r.
Proof.
  revert p. induction l as [|x l IH]; intros p H Hr; [by left|]. cbn [foldl] in Hr.
  destruct (IH (f p x)) as [Hx|]; [intros p' y Hy; apply H; by right|done| |by right]. apply (H p x); [left|done].
Qed.
Definition swept (c : Candidate) (r : Removal) : Prop :=
  exists n k, gone_path r = path_join (place c) n /\ tree r = is_real_dir (path_join (place c) n) /\ scratch_of n = Some k /\ never (gone_path r) = false.
Lemma sweep_in c r p : r ∈ remove (foldl (sweep (place c)) p (entries (place c))) -> r ∈ remove p \/ swept c r.
Proof.
  apply fold_remove_in. intros p' n _. unfold sweep. destruct (scratch_of n) as [k|] eqn:E; [|by left].
  intros [?|(H1 & H2 & H3)]%push_remove_in; [by left|right]. exists n, k. split_and!; congruence.
Qed.
(** A folder leaves the manifest only with every binary there. *)
Definition emptied (removing : list text) (d : text) : Prop := forall b, b ∈ BINARIES -> is_file_or_link (path_join d b) = true -> path_join d b ∈ removing.
Record adds (c : Candidate) (s s' : St) : Prop := {
  adds_kept : forall x, x ∈ removing s -> x ∈ removing s';
  adds_removing : forall x, x ∈ removing s' -> x ∈ removing s \/ exists b, x = path_join (place c) b /\ may_go c b;
  adds_remove : forall r, r ∈ remove (plan s') -> r ∈ remove (plan s) \/ (swept c r /\ exists b, may_go c b);
  adds_cleared : forall d, d ∈ cleared s' -> d ∈ cleared s \/ (d = place c /\ emptied (removing s') d)
}.
Lemma places_nothing c s s' : removing s' = removing s -> remove (plan s') = remove (plan s) -> cleared s' = cleared s -> adds c s s'.
Proof. intros E1 E2 E3. split; rewrite ?E1, ?E2, ?E3; auto. Qed.
Lemma present_says d b : b ∈ present_in d <-> b ∈ BINARIES /\ is_file_or_link (path_join d b) = true.
Proof. unfold present_in. rewrite !list_elem_of_In, filter_In. done. Qed.

Section Place.
Context (c : Candidate) (listed : bool) (cargo : list (text * text)) (Hl : listed = bool_decide (Manifest ∈ ways c)) (Ho : owner (at_ (place c)) = Nobody).
Context (Hn : listed = false -> not_an_install (place c) (negb (euid e =? 0) || is_ok (root_may_run (place c))) = None).
Abbreviation js := (judged (place c) listed cargo <$> present_in (place c)).
Lemma settled_may_go j : j ∈ js -> goes (writable (at_ (place c))) j = true -> j.1.1 ∈ present_in (place c) /\ may_go c j.1.1.
Proof.
  intros (b & -> & [Hb Ht]%present_says)%list_elem_of_fmap [Hw Hk]%andb_true_iff. rewrite judged_name.
  assert (Hnone : kept_why (judged (place c) listed cargo b) = None) by (by destruct (kept_why _)).
  split; [by apply present_says|]. split; [done..|]. destruct (base.decide (Manifest ∈ ways c)) as [Hm|Hm].
  - left. split; [done|]. rewrite bool_decide_eq_true_2 in Hl by done. rewrite Hl in Hnone. by eapply judged_listed.
  - right. rewrite bool_decide_eq_false_2 in Hl by done. split_and!; [done|by apply Hn|]. rewrite Hl in Hnone. by eapply judged_inferred.
Qed.
Lemma settled_adds s s1 s2 bins : foldl (settle (writable (at_ (place c))) (place c)) (s, []) js = (s1, bins) ->
  removing s2 = removing s1 -> remove (plan s2) = remove (plan s1) -> cleared s2 = cleared s1 -> adds c s s2.
Proof.
  intros Ef E1 E2 E3. pose proof (settle_adds (writable (at_ (place c))) (place c) js s []) as H. cbn zeta in H. rewrite Ef in H. cbn [fst snd] in H.
  destruct H as (H1 & H2 & H3 & _). split; rewrite ?E1, ?E2, ?E3, ?H1, ?H2, ?H3.
  - intros x Hx. apply elem_of_app. by left.
  - intros x [?|Hx]%elem_of_app; [by left|right]. apply list_elem_of_fmap in Hx as (j & -> & Hj). apply list_elem_of_In, filter_In in Hj as [Hj Hg].
    apply list_elem_of_In in Hj. destruct (settled_may_go j Hj Hg) as [_ Hm]. by eexists.
  - by left.
  - by left.
Qed.
Lemma unwritable_same bins s : let s' := unwritable e c bins s in removing s' = removing s /\ remove (plan s') = remove (plan s) /\ cleared s' = cleared s.
Proof. cbn zeta. unfold unwritable. repeat case_match; done. Qed.
Lemma settle_place_adds s : adds c s (settle_place identify writable private_group version debug e c listed cargo (present_in (place c)) s).
Proof.
  unfold settle_place. set (cw := writable (at_ (place c))) in *. destruct (foldl (settle cw (place c)) (s, []) js) as [s1 bins] eqn:Ef.
  pose proof (settle_adds cw (place c) js s []) as H. cbn zeta in H. rewrite Ef in H. cbn [fst snd] in H. destruct H as (H1 & H2 & H3 & H4). cbn [app] in H4.
  destruct (negb cw && _).
  { destruct (unwritable_same bins s1) as (? & ? & ?). by eapply settled_adds. }
  destruct (existsb planned bins) eqn:Ep; cbn [negb]; [|by eapply settled_adds].
  assert (Hgo : exists b, may_go c b).
  { apply existsb_exists in Ep as (x & Hx & Hp). apply list_elem_of_In in Hx. rewrite H4 in Hx. apply list_elem_of_fmap in Hx as (j & -> & Hj).
    destruct (settled_may_go j Hj Hp) as [_ ?]. by eexists. }
  set (s2 := if forallb planned bins then _ else s1). assert (K : removing s2 = removing s1 /\ remove (plan s2) = remove (plan s1) /\
    (cleared s2 = cleared s1 \/ (forallb planned bins = true /\ cleared s2 = cleared s1 ++ [place c]))) by (unfold s2; destruct (forallb planned bins); split_and!; auto).
  destruct K as (K1 & K2 & K3). destruct (settled_adds s s1 s1 bins Ef eq_refl eq_refl eq_refl) as [A1 A2 A3 A4].
  split.
  - intros x Hx. change (x ∈ removing s2). rewrite K1. by apply A1.
  - intros x Hx. change (x ∈ removing s2) in Hx. rewrite K1 in Hx. by apply A2.
  - intros r Hr. change (r ∈ remove (foldl (sweep (place c)) (plan s2) (entries (place c)))) in Hr. apply sweep_in in Hr as [Hr|Hr]; [|by right]. rewrite K2 in Hr. by apply A3.
  - intros d Hd. change (d ∈ cleared s2) in Hd. destruct K3 as [K3|[Hall K3]]; rewrite K3 in Hd.
    { destruct (A4 d Hd) as [?|[? He]]; [by left|right]. split; [done|]. intros b Hb Ht. change (path_join d b ∈ removing s2). rewrite K1. by apply He. }
    apply elem_of_app in Hd as [Hd|Hd].
    { destruct (A4 d Hd) as [?|[? He]]; [by left|right]. split; [done|]. intros b Hb Ht. change (path_join d b ∈ removing s2). rewrite K1. by apply He. } apply list_elem_of_singleton in Hd as ->. right. split; [done|]. intros b Hb Ht.
    change (path_join (place c) b ∈ removing s2). rewrite K1, H1. apply elem_of_app. right. apply list_elem_of_fmap. exists (judged (place c) listed cargo b).
    rewrite judged_name. split; [done|]. assert (Hj : judged (place c) listed cargo b ∈ js) by (apply list_elem_of_fmap; exists b; split; [done|by apply present_says]).
    apply list_elem_of_In, filter_In. split; [by apply list_elem_of_In|]. rewrite forallb_forall in Hall.
    apply (Hall (binary_of cw (judged (place c) listed cargo b))). apply list_elem_of_In. rewrite H4. by apply list_elem_of_fmap_2.
Qed.
End Place.

Lemma hinted_adds c s s' cargo : adds c (if is_nil cargo then s else on_plan (hint (cargo_hint (place c) cargo)) s) s' -> adds c s s'.
Proof. destruct (is_nil cargo); [done|]. intros [? ? ? ?]. by split. Qed.
Lemma classify_adds c s s' : classified s c = Ok s' -> adds c s s'.
Proof.
  unfold classify. set (listed := bool_decide (Manifest ∈ ways c)). destruct (if listed then _ else _) as [w|] eqn:En.
  { intros [= <-]. by apply places_nothing. }
  destruct (is_nil (present_in (place c))) eqn:Ep.
  { destruct (hidden (place c)) as [err|]; intros [= <-]; [by apply places_nothing|]. split; cbn; [auto..|]. intros d [?|Hd]%elem_of_app; [by left|].
    apply list_elem_of_singleton in Hd as ->. right. split; [done|]. intros b Hb Ht. assert (Hp : b ∈ present_in (place c)) by (by apply present_says).
    destruct (present_in (place c)); [by apply elem_of_nil in Hp|done]. }
  destruct (negb (system o) && _ && _); [intros [= <-]; by apply places_nothing|].
  set (cargo := if listed || _ then [] else _). destruct (negb (is_nil cargo) && _).
  { intros [= <-]. apply (hinted_adds _ _ _ cargo). by apply places_nothing. }
  destruct (owner (at_ (place c))) as [manager package| |manager w] eqn:Eo; intros [= <-]; apply (hinted_adds _ _ _ cargo); [by apply places_nothing|].
  apply settle_place_adds; [done|done|]. intros El. by rewrite El in En.
Qed.
Definition candidate_goes (found : list Candidate) (x : text) : Prop := exists c b, c ∈ found /\ x = path_join (place c) b /\ may_go c b.
Record gathered (found : list Candidate) (s : St) : Prop := {
  gathered_removing : forall x, x ∈ removing s -> candidate_goes found x;
  gathered_remove : forall r, r ∈ remove (plan s) -> exists c, c ∈ found /\ swept c r /\ exists b, may_go c b;
  gathered_cleared : forall d, d ∈ cleared s -> emptied (removing s) d
}.
Lemma classify_all_gathers found1 found2 s s' : gathered found1 s -> classify_all owner identify writable private_group version debug e o s found2 = Ok s' ->
  gathered (found1 ++ found2) s'.
Proof.
  revert found1 s. induction found2 as [|c found IH]; intros found1 s Hg; cbn [classify_all]; [intros [= <-]; by rewrite app_nil_r|].
  intros (s1 & H1%classify_adds & H2)%result_bind_inv. change (c :: found) with ([c] ++ found). rewrite app_assoc. apply (IH _ s1); [|done].
  destruct Hg as [G1 G2 G3], H1 as [A1 A2 A3 A4]. split.
  - intros x [Hx|(b & -> & Hm)]%A2.
    + destruct (G1 x Hx) as (c' & b & Hc & -> & Hm). exists c', b. split_and!; [apply elem_of_app; by left|done|done].
    + exists c, b. split_and!; [apply elem_of_app; right; left|done|done].
  - intros r [Hr|[Hs Hm]]%A3.
    + destruct (G2 r Hr) as (c' & Hc & ?). exists c'. split; [apply elem_of_app; by left|done].
    + exists c. split; [apply elem_of_app; right; left|done].
  - intros d [Hd|[-> He]]%A4; [|done]. intros b Hb Ht. by apply A1, (G3 d).
Qed.

(** ** The rest of the plan *)
Abbreviation found := (discover e o).
(** The folders [--purge] goes through, and the names in them that are this program's. *)
Definition purged : list (text * (text -> bool)) :=
  [(path_join (cfg_of e) MODELS_DIR, fun n => is_one_of n file_names); (path_join (cfg_of e) PROFILES_DIR, is_profile_file);
   (cfg_of e, fun n => is_one_of n cfg_known); (path_join (state_home e) APP_DIR, fun n => is_one_of n STATE_FILES)].
Definition menu_decision (R : list text) : Decision := entry_decision (desktop_entry_in (data_of e o)) (is_removed R) (search_path e) (txt "the menu entry").
Definition login_decision (R : list text) : Decision := entry_decision (autostart_entry e) (is_removed R) (search_path e) (txt "start-at-login").
(** What may be deleted when the binaries [R] go, and whether as a tree. *)
Inductive removable (R : list text) : text -> bool -> Prop :=
| removable_binary x : x ∈ R -> removable R x false
| removable_scratch c b n k : c ∈ found -> may_go c b -> scratch_of n = Some k -> removable R (path_join (place c) n) (is_real_dir (path_join (place c) n))
| removable_entry w : menu_decision R = Remove w -> removable R (desktop_entry_in (data_of e o)) false
| removable_icon : (forall w, menu_decision R <> Keep w) -> removable R (icon_in (data_of e o)) false
| removable_login w : system o = false -> login_decision R = Remove w -> removable R (autostart_entry e) false
| removable_switch n : system o = false -> is_scratch_name n = true -> removable R (path_join (autostart_dir_in (config_home e)) n) false
| removable_list dir n : path_parent (manifest_of e o) = Some dir -> is_scratch_of MANIFEST_FILE n = true -> removable R (path_join dir n) false
| removable_purged dir known n : purge o = true -> (dir, known) ∈ purged -> known n = true -> is_file_or_link (path_join dir n) = true -> removable R (path_join dir n) false.

Record extends (R : list text) (p p' : Plan) : Prop := {
  extends_remove : forall r, r ∈ remove p -> r ∈ remove p';
  extends_self : self_exe p' = self_exe p;
  extends_manifests : manifests p' = manifests p;
  extends_new : forall r, r ∈ remove p' -> r ∈ remove p \/ (removable R (gone_path r) (tree r) /\ never (gone_path r) = false)
}.
#[local] Instance extends_refl R : Reflexive (extends R).
Proof. intros p. split; auto. Qed.
#[local] Instance extends_trans R : Transitive (extends R).
Proof.
  intros p1 p2 p3 [A1 A2 A3 A4] [B1 B2 B3 B4]. split; [auto|congruence|congruence|]. intros r [Hr|?]%B4; [by apply A4|by right].
Qed.
Lemma same_extends R p p' : remove p' = remove p -> self_exe p' = self_exe p -> manifests p' = manifests p -> extends R p p'.
Proof. intros E1 E2 E3. split; rewrite ?E1; auto. Qed.
Lemma push_extends R path w tr p : removable R path tr -> extends R p (push_remove path w tr p).
Proof.
  intros H. split.
  - intros r Hr. unfold push_remove. repeat case_match; try done. all: by apply elem_of_app; left.
  - unfold push_remove. by repeat case_match.
  - unfold push_remove. by repeat case_match.
  - intros r [?|(E1 & E2 & E3)]%push_remove_in; [by left|right]. by rewrite E1, E2.
Qed.
Lemma fold_extends {A} R (f : Plan -> A -> Plan) l p : (forall p x, x ∈ l -> extends R p (f p x)) -> extends R p (foldl f p l).
Proof.
  revert p. induction l as [|x l IH]; intros p H; [done|]. cbn [foldl]. transitivity (f p x); [apply H; left|]. apply IH. intros p' y Hy. apply H. by right.
Qed.
Lemma entries_extend R w dir ours p : (forall n, ours n = true -> removable R (path_join dir n) false) -> extends R p (remove_entries w dir ours p).
Proof. intros H. apply fold_extends. intros p' n _. destruct (ours n) eqn:E; [|done]. by apply push_extends, H. Qed.
Lemma purge_extends R dir known subdirs p : purge o = true -> (dir, known) ∈ purged -> extends R p (purge_dir dir known subdirs p).
Proof.
  intros Hp Hd. unfold purge_dir. destruct (read_dir (at_ dir)); [|done]. transitivity (foldl (purge_name dir known subdirs) p (entries dir)); [|by apply same_extends].
  apply fold_extends. intros p' n _. unfold purge_name. destruct (is_one_of n subdirs && _); [done|]. destruct (known n && _) eqn:E; [|by apply same_extends].
  apply andb_true_iff in E as [? ?]. apply push_extends. by eapply removable_purged.
Qed.
Lemma purge_all_extends R p : purge o = true -> extends R p (purge_all e p).
Proof.
  intros Hp. unfold purge_all. set (p1 := purge_dir (path_join (cfg_of e) MODELS_DIR) _ _ p). set (p2 := purge_dir _ _ _ p1). set (p3 := purge_dir _ _ _ p2). set (p4 := purge_dir _ _ _ p3).
  assert (H1 : extends R p p1) by (apply purge_extends; [done|left]). assert (H2 : extends R p1 p2) by (apply purge_extends; [done|right; left]).
  assert (H3 : extends R p2 p3) by (apply purge_extends; [done|right; right; left]). assert (H4 : extends R p3 p4) by (apply purge_extends; [done|right; right; right; left]).
  transitivity p4; [by transitivity p3; [transitivity p2; [transitivity p1|]|]|]. destruct (existsb _ (remove p4)), (log_file e); by apply same_extends.
Qed.
Lemma settle_extends R entry label d p : (forall w, d = Remove w -> removable R entry false) -> extends R p (settle_entry entry label d p).2.
Proof. intros H. destruct d as [|w|w]; cbn; [done|by apply push_extends, (H w)|by apply same_extends]. Qed.
Lemma entry_files_extends R p : extends R p (entry_files e o R p).
Proof.
  unfold entry_files. fold (menu_decision R). fold (login_decision R). set (st := settle_entry _ _ (menu_decision R) p). destruct st as [k p1] eqn:E1.
  assert (H1 : extends R p p1). { change p1 with (k, p1).2. rewrite <- E1. apply settle_extends. intros w Hw. by eapply removable_entry. }
  assert (Hk : k = false -> forall w, menu_decision R <> Keep w). { intros -> w Hw. unfold st in E1. by rewrite Hw in E1. }
  assert (H2 : extends R p1 (icon_goes (data_of e o) k p1)).
  { unfold icon_goes. destruct (negb _); [done|]. destruct k; [by apply same_extends|]. destruct (is_file_or_link _); [|by apply push_extends, removable_icon, Hk].
    etransitivity; [by eapply push_extends, removable_icon, Hk|by apply same_extends]. }
  destruct (system o) eqn:Es; [by transitivity p1|]. destruct (settle_entry _ _ (login_decision R) _) as [k' p2] eqn:E2.
  transitivity p1; [done|]. transitivity (icon_goes (data_of e o) k p1); [done|]. transitivity p2.
  - change p2 with (k', p2).2. rewrite <- E2. apply settle_extends. intros w Hw. by eapply removable_login.
  - apply entries_extend. intros n Hn. by apply removable_switch.
Qed.

(** Until then nothing is said of the manifest, the running program or a refusal. *)
Definition still (p p' : Plan) : Prop := manifests p' = manifests p /\ self_exe p' = self_exe p /\ refusal p' = refusal p.
#[local] Instance still_refl : Reflexive still.
Proof. done. Qed.
#[local] Instance still_trans : Transitive still.
Proof. intros p1 p2 p3 (? & ? & ?) (? & ? & ?). split_and!; congruence. Qed.
Lemma fold_still {A} (f : Plan -> A -> Plan) l p : (forall p x, still p (f p x)) -> still p (foldl f p l).
Proof. intros H. revert p. induction l as [|x l IH]; intros p; [done|]. cbn [foldl]. transitivity (f p x); [apply H|apply IH]. Qed.
Lemma push_still path w tr p : still p (push_remove path w tr p).
Proof. unfold push_remove. by repeat case_match. Qed.
Lemma sweep_still d p : still p (foldl (sweep d) p (entries d)).
Proof. apply fold_still. intros p' n. unfold sweep. destruct (scratch_of n); [apply push_still|done]. Qed.
Lemma settle_still cw d js s bins : still (plan s) (plan (foldl (settle cw d) (s, bins) js).1).
Proof.
  revert s bins. induction js as [|[[b i] w] js IH]; intros s bins; [done|]. cbn [foldl settle]. destruct w as [w|]; [|destruct cw].
  - transitivity (plan (on_plan (keep (path_join d b) w) s)); [done|apply IH].
  - transitivity (plan {s with removing := removing s ++ [path_join d b] }); [done|apply IH].
  - apply IH.
Qed.
Lemma settle_place_still c listed cargo present s : still (plan s) (plan (settle_place identify writable private_group version debug e c listed cargo present s)).
Proof.
  unfold settle_place. pose proof (settle_still (writable (at_ (place c))) (place c) (judged (place c) listed cargo <$> present) s []) as H.
  destruct (foldl _ _ _) as [s1 bins]. cbn [fst] in H. transitivity (plan s1); [done|]. destruct (negb _ && _); [unfold unwritable; by repeat case_match|].
  destruct (negb _); [done|]. destruct (sweep_still (place c) (plan s1)) as (? & ? & ?). destruct (forallb planned bins); done.
Qed.
Lemma classify_still s c s' : classified s c = Ok s' -> still (plan s) (plan s').
Proof.
  unfold classify. destruct (if bool_decide _ then _ else _) as [w|]; [by intros [= <-]|]. destruct (is_nil (present_in _)); [by destruct (hidden _); intros [= <-]|].
  destruct (negb (system o) && _ && _); [by intros [= <-]|]. set (cargo := if _ || _ then [] else _). set (s1 := if is_nil cargo then s else _).
  assert (H1 : still (plan s) (plan s1)) by (unfold s1; by destruct (is_nil cargo)). destruct (negb (is_nil cargo) && _); [by intros [= <-]|].
  destruct (owner _); intros [= <-]; [done|]. transitivity (plan s1); [done|]. apply settle_place_still.
Qed.
Lemma classify_all_still found s s' : classify_all owner identify writable private_group version debug e o s found = Ok s' -> still (plan s) (plan s').
Proof.
  revert s. induction found as [|c found IH]; intros s; cbn [classify_all]; [by intros [= <-]|]. intros (s1 & H1%classify_still & H2)%result_bind_inv.
  transitivity (plan s1); [done|by apply IH].
Qed.

(** The binaries, with the running one apart. *)
Definition going (p : Plan) (x : text) : Prop := (exists r, r ∈ remove p /\ gone_path r = x /\ tree r = false) \/ exists y, self_exe p = Some y /\ components y = components x.
Definition same_me (x : text) : Prop := exists m, me_of e = Some m /\ components m = components x.
Record splits (R : list text) (p p' : Plan) : Prop := {
  splits_keep : forall r, r ∈ remove p -> r ∈ remove p';
  splits_new : forall r, r ∈ remove p' -> r ∈ remove p \/ (gone_path r ∈ R /\ tree r = false);
  splits_self : forall x, self_exe p' = Some x -> self_exe p = Some x \/ x ∈ R;
  splits_me : forall x, self_exe p = Some x -> same_me x -> exists y, self_exe p' = Some y /\ same_me y;
  splits_going : forall x, x ∈ R -> (exists r, r ∈ remove p' /\ gone_path r = x /\ tree r = false) \/ (same_me x /\ exists y, self_exe p' = Some y /\ same_me y);
  splits_manifests : manifests p' = manifests p;
  splits_refusal : refusal p' = refusal p
}.
Lemma split_one b p : splits [b] p (split_self (me_of e) p b).
Proof.
  unfold split_self. destruct (match me_of e with Some m => _ | None => _ end) eqn:E.
  - assert (Hb : same_me b). { destruct (me_of e) as [m|] eqn:Em; [|done]. exists m. split; [done|]. by apply bool_decide_eq_true in E. }
    split; cbn; auto.
    + intros x [= <-]. right. left.
    + intros x _ _. by exists b.
    + intros x ->%list_elem_of_singleton. right. split; [done|]. by exists b.
  - split; cbn; auto.
    + intros r Hr. apply elem_of_app. by left.
    + intros r [?|Hr]%elem_of_app; [by left|right]. apply list_elem_of_singleton in Hr as ->. split; [left|done].
    + intros x Hx Hm. by exists x.
    + intros x ->%list_elem_of_singleton. left. eexists. split; [apply elem_of_app; right; left|done].
Qed.
Lemma splits_app R1 R2 p p1 p2 : splits R1 p p1 -> splits R2 p1 p2 -> splits (R1 ++ R2) p p2.
Proof.
  intros [A1 A2 A3 A4 A5 A6 A7] [B1 B2 B3 B4 B5 B6 B7]. split; try congruence.
  - auto.
  - intros r [[?|[? ?]]%A2|[? ?]]%B2; [by left|right; split; [apply elem_of_app; by left|done]|right; split; [apply elem_of_app; by right|done]].
  - intros x [[?|?]%A3|?]%B3; [by left|right; apply elem_of_app; by left|right; apply elem_of_app; by right].
  - intros x Hx Hm. destruct (A4 x Hx Hm) as (y & Hy & Hmy). by apply (B4 y).
  - intros x [Hx|Hx]%elem_of_app; [|by apply B5]. destruct (A5 x Hx) as [(r & Hr & ? & ?)|(Hm & y & Hy & Hmy)]; [left; exists r; auto|right]. split; [done|]. by apply (B4 y).
Qed.
Lemma split_all R p : splits R p (foldl (split_self (me_of e)) p R).
Proof.
  revert p. induction R as [|b R IH]; intros p.
  - split; cbn; auto; [by intros x Hx Hm; exists x|by intros x ?%elem_of_nil].
  - change (b :: R) with ([b] ++ R). cbn [app foldl]. eapply (splits_app [b]); [apply split_one|apply IH].
Qed.
Lemma never_binary c b : b ∈ BINARIES -> never (path_join (place c) b) = false.
Proof.
  intros Hb. unfold never. assert (Hbare : bare b) by (apply bare_dec; unfold BINARIES in Hb; repeat (apply elem_of_cons in Hb as [->|Hb]; [by vm_compute|]); by apply elem_of_nil in Hb).
  rewrite file_name_join by done. unfold BINARIES in Hb. repeat (apply elem_of_cons in Hb as [->|Hb]; [by vm_compute|]). by apply elem_of_nil in Hb.
Qed.
(** The binaries and scratch files that were gathered, in the plan. *)
Record first_plan (R : list text) (p : Plan) : Prop := {
  first_removable : forall r, r ∈ remove p -> removable R (gone_path r) (tree r) /\ never (gone_path r) = false;
  first_going : forall x, x ∈ R -> going p x;
  first_self : forall x, self_exe p = Some x -> x ∈ R;
  first_manifests : manifests p = []
}.
Lemma binaries_first_says s : gathered found s -> self_exe (plan s) = None -> manifests (plan s) = [] -> first_plan (removing s) (binaries_first e s).
Proof.
  intros [G1 G2 G3] Hself Hman. unfold binaries_first. destruct (split_all (removing s) {(plan s) with remove := [] }) as [S1 S2 S3 S4 S5 S6 S7].
  set (p1 := foldl (split_self (me_of e)) _ _) in *. set (p2 := {p1 with remove := remove p1 ++ remove (plan s)}).
  match goal with |- first_plan _ (foldl ?f p2 _) => assert (H : forall ds p, remove (foldl f p ds) = remove p /\ self_exe (foldl f p ds) = self_exe p /\ manifests (foldl f p ds) = manifests p) end.
  { induction ds as [|d ds IH]; intros p; [done|]. cbn [foldl]. destruct (IH (hint (system_hint d (default (txt "tobii") (me_of e)) match self_exe p with Some _ => true | None => false end) p)) as (? & ? & ?). by split_and!. }
  destruct (H (system_dirs s) p2) as (E1 & E2 & E3). split; rewrite ?E1, ?E2, ?E3.
  - intros r [Hr|Hr]%elem_of_app.
    + apply S2 in Hr as [Hr|[Hr Ht]]; [by apply elem_of_nil in Hr|]. rewrite Ht. split; [by apply removable_binary|].
      destruct (G1 _ Hr) as (c & b & _ & -> & Hm). apply never_binary, Hm.
    + destruct (G2 r Hr) as (c & Hc & (n & k & En & Et & Ek & Hv) & (b & Hm)). split; [|done]. rewrite En, Et. by eapply removable_scratch.
  - intros x Hx. unfold going. rewrite E1, E2. destruct (S5 x Hx) as [(r & Hr & ? & ?)|((m & Em & Ec) & y & Hy & (m' & Em' & Ey))].
    + left. exists r. split; [apply elem_of_app; by left|done].
    + right. exists y. split; [done|]. rewrite <- Ey, <- Ec. congruence.
  - intros x Hx. destruct (S3 x Hx) as [Hx'|]; [|done]. change (self_exe (plan s) = Some x) in Hx'. congruence.
  - change (manifests p1 = []). rewrite S6. exact Hman.
Qed.

Lemma classify_refused s c p : classified s c = Err p -> refusal p <> None.
Proof.
  unfold classify. destruct (if bool_decide _ then _ else _) as [w|]; [done|]. destruct (is_nil (present_in _)); [by destruct (hidden _)|].
  destruct (negb (system o) && _ && _); [done|]. destruct (negb (is_nil _) && _); [done|]. destruct (owner _); [done..|]. by intros [= <-].
Qed.
Lemma classify_all_refused found s p : classify_all owner identify writable private_group version debug e o s found = Err p -> refusal p <> None.
Proof.
  revert s. induction found as [|c found IH]; intros s; cbn [classify_all]; [done|].
  destruct (classified s c) as [s'|p'] eqn:E; cbn [mbind result_bind]; [apply IH|]. intros [= <-]. by eapply classify_refused.
Qed.
(** The folders the manifest may lose: each with every binary there going. *)
Definition edits_ok (R : list text) (p : Plan) : Prop :=
  forall m, m ∈ manifests p -> file m = manifest_of e o /\ forall d, d ∈ drop_dirs m -> exists d', components (canon_or d) = components d' /\ emptied R d'.
Lemma edit_manifest_says R cleared p : (forall d, d ∈ cleared -> emptied R d) ->
  let p' := edit_manifest e o cleared p in extends R p {p' with manifests := manifests p} /\ (edits_ok R p -> edits_ok R p').
Proof.
  intros Hc. cbn zeta. unfold edit_manifest. set (drop := List.filter _ _). destruct (is_nil drop); [split; [by apply same_extends|done]|].
  set (gone := negb _). assert (Hd : forall d, d ∈ drop -> exists d', components (canon_or d) = components d' /\ emptied R d').
  { intros d [_ Hl]%list_elem_of_In%filter_In. apply has_says in Hl as (d' & Hd' & E). exists d'. split; [done|by apply Hc]. }
  assert (Hsame : forall p1, extends R p p1 -> extends R p {p1 with manifests := manifests p}).
  { intros p1 [A1 A2 A3 A4]. split; auto. }
  set (p1 := if gone then _ else p). assert (H1 : extends R p p1).
  { unfold p1. destruct gone; [|done]. destruct (path_parent (manifest_of e o)) as [dir|] eqn:Ed; [|done].
    etransitivity; [eapply entries_extend; intros n Hn; by eapply removable_list|by apply same_extends]. }
  split; [exact (Hsame p1 H1)|]. intros Hp m Hm. change (m ∈ manifests p1 ++ [{| file := manifest_of e o; drop_dirs := drop; then_empty := gone |}]) in Hm.
  rewrite (extends_manifests _ _ _ H1) in Hm. apply elem_of_app in Hm as [Hm|Hm]; [by apply Hp|]. by apply list_elem_of_singleton in Hm as ->.
Qed.
Record sound (R : list text) (p : Plan) : Prop := {
  sound_removable : forall r, r ∈ remove p -> removable R (gone_path r) (tree r) /\ never (gone_path r) = false;
  sound_going : forall x, x ∈ R -> going p x;
  sound_self : forall x, self_exe p = Some x -> x ∈ R;
  sound_edits : edits_ok R p
}.
Lemma extends_sound R p p' : extends R p p' -> sound R p -> sound R p'.
Proof.
  intros [A1 A2 A3 A4] [B1 B2 B3 B4]. split.
  - intros r [?|?]%A4; [by apply B1|done].
  - intros x [(r & ? & ? & ?)|?]%B2; [left; exists r; auto|right; by rewrite A2].
  - intros x. rewrite A2. apply B3.
  - unfold edits_ok. rewrite A3. exact B4.
Qed.
Lemma procs_extend R R' procs p : extends R p (foldl (sort_proc e o R') p procs).
Proof.
  apply fold_extends. intros p' pr _. unfold sort_proc. destruct (_ || _); [done|]. destruct (_ && _); [done|]. destruct (match strip_suffix DELETED (exe pr) with Some x => _ | None => _ end) as [x del].
  destruct (is_one_of x R'); [by apply same_extends|]. destruct (bool_decide _); [|done]. destruct (del && _); [destruct (system o); [done|]|]; by apply same_extends.
Qed.
Lemma udev_extends R p : extends R p (udev_step p).
Proof.
  unfold udev_step. set (p1 := {p with udev_rules := _}). assert (H1 : extends R p p1) by (by apply same_extends).
  set (p2 := if is_nil (udev_rules p1) then _ else p1). assert (H2 : extends R p p2). { unfold p2. destruct (is_nil _); [|done]. transitivity p1; [done|by apply same_extends]. }
  transitivity p2; [done|]. destruct (_ || _); [by apply same_extends|]. destruct (negb _); by apply same_extends.
Qed.
Lemma with_places_sound procs s : gathered found s -> self_exe (plan s) = None -> manifests (plan s) = [] -> sound (removing s) (with_places e o procs s).
Proof.
  intros Hg Hs Hm. unfold with_places. destruct (binaries_first_says s Hg Hs Hm) as [F1 F2 F3 F4].
  assert (S0 : sound (removing s) (binaries_first e s)) by (split; [done..|]; intros m; rewrite F4; by intros ?%elem_of_nil).
  apply (extends_sound _ _ _ (entry_files_extends (removing s) _)) in S0. set (p1 := entry_files _ _ _ _) in *.
  destruct (edit_manifest_says (removing s) (cleared s) p1 (gathered_cleared _ _ Hg)) as [E1 E2]. set (p2 := edit_manifest _ _ _ p1) in *.
  assert (S2 : sound (removing s) p2). { destruct (extends_sound _ _ _ E1 S0) as [B1 B2 B3 B4]. split; [exact B1|exact B2|exact B3|apply E2, S0]. }
  set (p3 := if purge o then _ else p2). assert (S3 : sound (removing s) p3). { unfold p3. destruct (purge o) eqn:Ep; [|done]. by eapply extends_sound; [apply purge_all_extends|]. }
  set (p4 := runtime_dir e o p3). assert (S4 : sound (removing s) p4).
  { apply (extends_sound _ p3); [|done]. unfold p4, runtime_dir. destruct (xdg_runtime_dir e); [|done]. destruct (_ && _); [by apply same_extends|done]. }
  set (p5 := if udev o then _ else p4). assert (S5 : sound (removing s) p5). { unfold p5. destruct (udev o); [|done]. by eapply extends_sound; [apply udev_extends|]. }
  set (p6 := match root_hint with Some h => _ | None => p5 end). assert (S6 : sound (removing s) p6).
  { apply (extends_sound _ p5); [|done]. unfold p6. destruct root_hint; [by apply same_extends|done]. }
  set (p7 := match absolute (home e) with Some h => _ | None => p6 end). assert (S7 : sound (removing s) p7).
  { apply (extends_sound _ p6); [|done]. unfold p7. destruct (absolute (home e)); [|done]. destruct (system o); [done|by apply same_extends]. }
  by eapply extends_sound; [apply procs_extend|].
Qed.
End Safe.

(** C19: What a plan that is not refused deletes is this program's: binaries that may go, each for
    its own reasons; scratch files beside them; the entry, icon and switch of a program that
    goes or is gone; scratch files with the names this program gives them; and with [--purge]
    the files it writes. Every such binary is in the plan, the manifest only loses folders
    all of whose binaries are, and the shared caches are never named. *)
Theorem plan_removes_only_ours {os : Os} owner identify writable private_group version debug (e : Env) (o : Options) (procs : list Proc) :
  let p := plan_with_fs owner identify writable private_group version debug e o procs in
  refusal p = None ->
  exists R, (forall x, x ∈ R -> going p x /\ exists c b, c ∈ discover e o /\ x = path_join (place c) b /\ may_go owner identify writable private_group e c b) /\
    (forall x, self_exe p = Some x -> x ∈ R) /\
    (forall r, r ∈ remove p -> removable owner identify writable private_group e o R (gone_path r) (tree r) /\ never (gone_path r) = false) /\
    (forall m, m ∈ manifests p -> file m = manifest_of e o /\
       forall d, d ∈ drop_dirs m -> exists d', components (canon_or d) = components d' /\ emptied R d').
Proof.
  cbn zeta. unfold plan_with_fs. destruct (guards e o); [done|].
  destruct (classify_all _ _ _ _ _ _ _ _ _ _) as [s|p] eqn:E.
  - intros _. pose proof (classify_all_still _ _ _ _ _ _ _ _ _ _ _ E) as (Hm & Hs & _).
    assert (Hg : gathered owner identify writable private_group e (discover e o) s).
    { eapply (classify_all_gathers _ _ _ _ _ _ _ _ []); [|exact E]. split; cbn; by intros x ?%elem_of_nil. }
    destruct (with_places_sound owner identify writable private_group e o procs s Hg Hs Hm) as [S1 S2 S3 S4]. exists (removing s). split_and!; [|done..].
    intros x Hx. split; [by apply S2|]. by apply (gathered_removing _ _ _ _ _ _ _ Hg).
  - intros Hr. by apply classify_all_refused in E.
Qed.

(** What root deletes, nobody but root can put anything else in the place of. *)
Corollary root_deletes_only_roots {os : Os} owner identify writable private_group (e : Env) (c : Candidate) (b : text) :
  euid e = 0 -> may_go owner identify writable private_group e c b -> exists real, root_may_run (path_join (place c) b) = Ok real.
Proof.
  intros He [_ _ _ _ Hj]. destruct Hj as [[_ Hl]|(_ & _ & real & Hv & _)].
  - apply listed_file_says in Hl as (real & _ & _ & _ & _ & Hr). exists real. by apply Hr.
  - exists real. unfold vet in Hv. rewrite He in Hv. cbn [Z.eqb] in Hv. apply result_bind_inv in Hv as (r & Hr%map_err_ok & Hv).
    apply result_bind_inv in Hv as ([] & _ & Hv). by injection Hv as ->.
Qed.

(** ** One plan *)
#[local] Existing Instance the_os.
Definition the_env : Env := {|
  home := Some (txt "/home/u"); xdg_config_home := None; xdg_data_home := None; xdg_state_home := None; xdg_runtime_dir := None; log_file := None;
  search_path := [bin_dir]; wineprefix := None; euid := 1000; sudo_user := None; current_exe := Some (path_join bin_dir (txt "tobii")); pid := 7; ppid := 6 |}.
Definition the_plan (o : Options) : Plan := plan_with_fs (fun _ => Nobody) (fun _ => None) (fun _ => true) (fun _ => false) (txt "0.4.0") id the_env o [].
Example the_plan_says : let p := the_plan {options0 with purge := true} in
  gone_path <$> remove p = [path_join bin_dir (txt "tobii-gtk"); path_join bin_dir (txt ".tobii.old-12"); desktop_entry_in (txt "/home/u/.local/share");
                            txt "/home/u/.config/tobii-linux/config.toml"] /\
  self_exe p = Some (path_join bin_dir (txt "tobii")) /\ (drop_dirs <$> manifests p) = [[bin_dir]] /\
  kept_path <$> kept p = [txt "/home/u/.config/tobii-linux/notes"] /\
  rmdirs p = [txt "/home/u/.local/share/tobii-linux"; txt "/home/u/.config/tobii-linux"] /\ refusal p = None.
Proof. vm_compute. done. Qed.
Lemma plan_removes_only_ours_witness : let o := {options0 with purge := true} in
  let p := the_plan o in
  refusal p = None /\
  exists R, (forall x, x ∈ R -> going p x /\ exists c b, c ∈ discover the_env o /\ x = path_join (place c) b /\
                 may_go (fun _ => Nobody) (fun _ => None) (fun _ => true) (fun _ => false) the_env c b) /\
    (forall x, self_exe p = Some x -> x ∈ R) /\
    (forall r, r ∈ remove p -> removable (fun _ => Nobody) (fun _ => None) (fun _ => true) (fun _ => false) the_env o R (gone_path r) (tree r) /\ never (gone_path r) = false) /\
    (forall m, m ∈ manifests p -> file m = manifest_of the_env o /\
       forall d, d ∈ drop_dirs m -> exists d', components (canon_or d) = components d' /\ emptied R d').
Proof.
  split; [vm_compute; reflexivity|].
  apply (plan_removes_only_ours (fun _ => Nobody) (fun _ => None) (fun _ => true) (fun _ => false) (txt "0.4.0") id the_env {options0 with purge := true} []).
  vm_compute. reflexivity.
Defined.
