(* ===== verification/UninstallRun.v ===== *)
(** * UninstallRun: doing what was planned (crates/tobii-cli/src/uninstall.rs)

    [execute] and [apply_manifest] over a system every call of which may fail, and the command
    around them: what is asked, which processes are stopped, when nothing is touched. What is
    changed is a list of [Change]s. [execution_keeps_to_the_plan], [self_goes_last] and
    [nothing_without_consent]. *)
From S2P Require Import Prelude Text Paths Install Steam Store Disk Folder Uninstall CargoRecord UninstallPlan.

(** ** The system while it is changed *)
Inductive Change := Unlinked (p : text) | TreeRemoved (p : text) | DirRemoved (p : text) | Replaced (p : text) (b : bytes) | CacheRefreshed (p : text)
(** What else is recorded: a question and its answer, a signal, a command that was run. *)
| Asked (question : text) (line : option text) | Signalled (pr : Proc) | HubAsked | Ran (args : list text).
(** [view]: what is seen at that moment. The calls that change something give what came of them. *)
Class Machine (W : Type) := {
  view : W -> Os;
  change : Change -> W -> result IoError unit * W;
  (** The tools that refresh an icon cache: [None] is one that is not installed. *)
  refresh : text -> text -> W -> option (result text (result text unit)) * W;
  (** The person at the terminal, who may answer nothing. *)
  answer : text -> W -> option text * W;
  (** Is it still the process it was; the call that asks the hub to quit; SIGTERM. *)
  still_running : W -> Proc -> bool;
  ask_hub_to_quit : W -> result text unit * W;
  terminate : Proc -> W -> result text unit * W;
  run_command : list text -> W -> bool * W;
  now : W -> Z;
  nap : Z -> W -> W
}.
Record Outcome := { removed : list text; failed : list (text * text); not_empty : list (text * list text); self_kept : option text; notes : list text }.
Definition outcome0 : Outcome := {| removed := []; failed := []; not_empty := []; self_kept := None; notes := [] |}.
Definition gone (p : text) (out : Outcome) : Outcome := {out with removed := removed out ++ [p] }.
Definition fails (p e : text) (out : Outcome) : Outcome := {out with failed := failed out ++ [(p, e)] }.
Definition note (t : text) (out : Outcome) : Outcome := {out with notes := notes out ++ [t] }.

Section Execute.
Context {W : Type} `{Machine W}.
Definition outcome_of (p : text) (r : result IoError unit) (out : Outcome) : Outcome :=
  match r with Ok _ => gone p out | Err e => fails p (message e) out end.
Definition do_change (p : text) (c : Change) (s : Outcome * W) : Outcome * W := let '(r, w) := change c (snd s) in (outcome_of p r (fst s), w).
Definition remove_one (r : Removal) (s : Outcome * W) : Outcome * W :=
  let real := at_ (gone_path r) in
  match symlink_metadata (Os := view (snd s)) real with
  | Err e => match error_kind e with NotFound => s | _ => (fails (gone_path r) (message e) (fst s), snd s) end
  | Ok m =>
      if bool_decide (file_type m = Directory) then
        if tree r then do_change (gone_path r) (TreeRemoved real) s else (fails (gone_path r) (txt "it is a directory") (fst s), snd s)
      else do_change (gone_path r) (Unlinked real) s
  end.
(** There, as far as can be told. *)
Definition there (os : Os) (f : text) : bool := match symlink_metadata (Os := os) (at_ f) with Ok _ => true | Err e => negb (is_gone e) end.
Definition remains (os : Os) (self_going : option text) (d : text) : bool :=
  existsb (fun b => let f := path_join d b in
    there os f && negb (match self_going with Some s => same_path s (unlinked_name (os := os) f) | None => false end)) BINARIES.
Definition still_listed (os : Os) (drop : list text) (self_going : option text) (l : text) : bool :=
  match strip_prefix (txt "bindir=") (trim l) with
  | Some v => negb (existsb (same_path (trim v)) drop && negb (remains os self_going (trim v)))
  | None => true
  end.
Definition apply_manifest (self_going : option text) (s : Outcome * W) (m : ManifestEdit) : Outcome * W :=
  let os := view (snd s) in
  match read_to_string (Os := os) (at_ (file m)) with
  | None => s
  | Some t =>
      let kept := List.filter (still_listed os (drop_dirs m) self_going) (lines t) in
      let real := at_ (file m) in
      if existsb (manifest_line_survives (fun _ => false)) kept then
        let '(r, w) := change (Replaced real (utf8_encode (join [10] kept ++ [10]))) (snd s) in
        (match r with Ok _ => note (txt "updated " ++ file m) (fst s) | Err e => fails (file m) (message e) (fst s) end, w)
      else do_change (file m) (Unlinked real) s
  end.
Definition remove_dir (s : Outcome * W) (d : text) : Outcome * W :=
  let '(r, w) := change (DirRemoved (at_ d)) (snd s) in
  match r with
  | Ok _ => (gone d (fst s), w)
  | Err e => match error_kind e with
             | NotFound => (fst s, w)
             | _ => ({(fst s) with not_empty := not_empty (fst s) ++ [(d, entries (os := view w) d)] }, w)
             end
  end.
Definition cache_of (hicolor : text) : text := path_join hicolor (txt "icon-theme.cache").
Definition is_file_at (os : Os) (p : text) : bool := match metadata (Os := os) p with Ok m => is_regular m | Err _ => false end.
Fixpoint try_tools (hicolor : text) (tools : list text) (s : Outcome * W) : Outcome * W :=
  match tools with
  | [] => (note (txt "no icon-cache tool is installed, so the cache in " ++ hicolor ++ txt " still lists the removed icon until something refreshes it") (fst s), snd s)
  | tool :: tools =>
      match refresh tool hicolor (snd s) with
      | (None, w) => try_tools hicolor tools (fst s, w)
      | (Some (Err e), w) => (note (txt "could not refresh " ++ hicolor ++ txt ": " ++ e) (fst s), w)
      | (Some (Ok (Ok _)), w) =>
          (note (if is_ok (metadata (Os := view w) (cache_of hicolor)) then txt "refreshed the icon cache in " ++ hicolor
                 else tool ++ txt " removed the icon cache in " ++ hicolor ++ txt ": no icons are left under it, and an empty theme needs none") (fst s), w)
      | (Some (Ok (Err status)), w) => (note (tool ++ txt " failed on " ++ hicolor ++ txt " (" ++ status ++ txt ")") (fst s), w)
      end
  end.
Definition refresh_icon_cache (s : Outcome * W) (hicolor : text) : Outcome * W :=
  if is_file_at (view (snd s)) (cache_of hicolor) then try_tools hicolor [txt "gtk4-update-icon-cache"; txt "gtk-update-icon-cache"] s else s.
Definition self_going (p : Plan) (out : Outcome) : option text := if is_nil (failed out) then self_exe p else None.
Definition remove_self (p : Plan) (s : Outcome * W) : Outcome * W :=
  match self_exe p with
  | None => s
  | Some me =>
      if is_nil (failed (fst s)) then
        let s := remove_one {| gone_path := me; what := txt "this program"; tree := false |} s in
        if existsb (fun f => same_path (fst f) me) (failed (fst s)) then
          (note (me ++ txt " could not remove itself; run `" ++ q me ++ txt " uninstall` again once the reason above is fixed") (fst s), snd s)
        else s
      else ({(fst s) with self_kept := Some me}, snd s)
  end.
Definition execute (p : Plan) (w : W) : Outcome * W :=
  let s := foldl (fun s r => remove_one r s) (outcome0, w) (remove p) in
  let s := foldl (apply_manifest (self_going p (fst s))) s (manifests p) in
  let s := foldl remove_dir s (rmdirs p) in
  let s := foldl refresh_icon_cache s ((fun h => at_ h) <$> icon_caches p) in
  remove_self p s.
End Execute.

(** ** The command *)
Definition is_hub (p : Proc) : bool := contains (txt "/tobii-gtk") (exe p).
Definition bridge_question (p : Plan) : option text :=
  if is_nil (bridge_prefixes p) || match self_exe p with None => true | Some _ => false end then None
  else let n := zlen (bridge_prefixes p) in
       Some (txt "The bridge is still in " ++ show_uint n ++ txt " Wine prefix" ++ (if n =? 1 then [] else txt "es") ++
             txt ", and removing it needs this program. Stop here so you can remove it first?").
Definition udev_commands (p : Plan) : list (list text) :=
  if is_nil (udev_rules p) then []
  else let sudo := if plan_euid p =? 0 then [] else [txt "sudo"] in
       [sudo ++ [txt "rm"; txt "-f"] ++ udev_rules p; sudo ++ [txt "udevadm"; txt "control"; txt "--reload"];
        sudo ++ [txt "udevadm"; txt "trigger"; txt "--subsystem-match=usb"]; sudo ++ [txt "udevadm"; txt "trigger"; txt "--subsystem-match=misc"]].
Definition stop_msg : text := txt "Nothing was removed. Quit them first — the hub's Quit is in its cogwheel menu — and run this again.".
Definition quit_question (p : Plan) : text :=
  match stop p, orphan_hubs p with
  | _ :: _, [] => txt "Ask the running copies to quit now?"
  | [], _ => txt "Ask the hub whose program was deleted to quit now?"
  | _ :: _, _ :: _ => txt "Ask the running copies, and the hub whose program was deleted, to quit now?"
  end.
Definition REMOVE_QUESTION : text := txt "Remove everything listed under “Will remove”?".

Section Command.
Context {W : Type} `{Machine W}.
Definition is_yes (default_yes : bool) (line : text) : bool :=
  let a := trim line in if bool_decide (a = []) then default_yes else eq_ignore_ascii_case a (txt "y") || eq_ignore_ascii_case a (txt "yes").
Definition ask (question : text) (default_yes : bool) (w : W) : bool * W :=
  let '(a, w) := answer question w in (match a with Some line => is_yes default_yes line | None => false end, w).
(** Only what is provably still the process of the plan. *)
Definition safe_to_signal (w : W) (p : Proc) : bool := match start_time p with Some _ => still_running w p | None => false end.
Definition signal_one (s : list Proc * W) (p : Proc) : list Proc * W :=
  let '(signalled, w) := s in
  if safe_to_signal w p then let '(r, w) := terminate p w in (match r with Ok _ => signalled ++ [p] | Err _ => signalled end, w) else (signalled, w).
Definition signal_each (procs : list Proc) (w : W) : list Proc * W := foldl signal_one ([], w) procs.
(** [None]: out of fuel. *)
Fixpoint wait_from (fuel : nat) (procs : list Proc) (deadline : Z) (w : W) : option (list Proc * W) :=
  let left := List.filter (still_running w) procs in
  if is_nil left || (deadline <=? now w) then Some (left, w)
  else match fuel with O => None | S fuel => wait_from fuel procs deadline (nap 100_000_000 w) end.
Definition wait_gone (fuel : nat) (procs : list Proc) (limit : Z) (w : W) : option (list Proc * W) := wait_from fuel procs (now w + limit) w.
Definition ours_left (p : Plan) (set : list Proc) : bool := existsb (fun x => bool_decide (x ∈ stop p)) set.
Definition consents (o : Options) (interactive : bool) (question : text) (default_yes : bool) (w : W) : bool * W :=
  if yes o then (true, w) else if interactive then ask question default_yes w else (false, w).
Definition still_there (pids : list Proc) : text :=
  txt "still running after SIGTERM: " ++ join (txt ", ") ((fun p => show_uint (proc_pid p)) <$> pids) ++ txt ". Nothing was removed.".
Definition stop_running (fuel : nat) (p : Plan) (o : Options) (interactive : bool) (w : W) : option (result text unit * W) :=
  let all := stop p ++ orphan_hubs p in
  if is_nil all then Some (Ok tt, w)
  else
    let '(go, w) := consents o interactive (quit_question p) true w in
    if negb go then Some (if is_nil (stop p) then Ok tt else Err stop_msg, w)
    else
      let w := if existsb is_hub all && is_nil (other_hubs p) then snd (ask_hub_to_quit w) else w in
      '(rest, w) ← wait_gone fuel all 5_000_000_000 w;
      if is_nil rest then Some (Ok tt, w)
      else
        let '(go, w) := consents o interactive (txt "Send them SIGTERM?") false w in
        if negb go then Some (if ours_left p rest then Err stop_msg else Ok tt, w)
        else
          let '(_, w) := signal_each rest w in
          '(still, w) ← wait_gone fuel rest 3_000_000_000 w;
          Some (if ours_left p still then Err (still_there still) else Ok tt, w).
Fixpoint run_until_failure (cmds : list (list text)) (w : W) : W :=
  match cmds with
  | [] => w
  | c :: cmds => let '(ok, w) := run_command c w in if ok then run_until_failure cmds w else w
  end.
Definition run_udev (p : Plan) (interactive yes : bool) (w : W) : W :=
  let cmds := udev_commands p in
  if is_nil cmds || negb interactive then w
  else
    let question := if plan_euid p =? 0 then txt "Remove the udev rule now?" else txt "Remove the udev rule now? This uses sudo." in
    let '(go, w) := if yes then (true, w) else ask question false w in
    if go then run_until_failure cmds w else w.
(** May it go on? [Err]: the command ends, with this. *)
Definition may_proceed (p : Plan) (o : Options) (interactive : bool) (w : W) : result (result text unit) unit * W :=
  if yes o then (Ok tt, w)
  else if negb interactive then
    (Err (Err (txt "there is no terminal to ask on, so nothing was changed. Read the plan above, then re-run with --yes to go ahead.")), w)
  else
    let '(stop_here, w) := match bridge_question p with Some question => ask question true w | None => (false, w) end in
    if stop_here then (Err (Ok tt), w)
    else let '(go, w) := ask REMOVE_QUESTION false w in if go then (Ok tt, w) else (Err (Ok tt), w).
Definition udev_if (p : Plan) (o : Options) (interactive : bool) (w : W) : W := if udev o then run_udev p interactive (yes o) w else w.
Definition run (fuel : nat) (p : Plan) (o : Options) (interactive : bool) (w : W) : option (result text unit * W) :=
  match refusal p with
  | Some r => Some (Err r, w)
  | None =>
      if dry_run o then Some (Ok tt, w)
      else if is_empty p then
        '(r, w) ← stop_running fuel p o interactive w;
        match r with Err e => Some (Err e, w) | Ok _ => Some (Ok tt, udev_if p o interactive w) end
      else
        match may_proceed p o interactive w with
        | (Err r, w) => Some (r, w)
        | (Ok _, w) =>
            '(r, w) ← stop_running fuel p o interactive w;
            match r with
            | Err e => Some (Err e, w)
            | Ok _ =>
                let '(out, w) := execute p w in
                Some (if is_nil (failed out) then Ok tt else Err (show_uint (zlen (failed out)) ++ txt " item(s) could not be removed"), udev_if p o interactive w)
            end
        end
  end.
End Command.

(** ** Every change, and whether it was made *)
#[export] Instance logged {W} `{Machine W} : Machine (W * list (Change * bool)) := {|
  view := fun s => view (fst s);
  change := fun c s => let '(r, w) := change c (fst s) in (r, (w, snd s ++ [(c, is_ok r)]));
  refresh := fun tool h s => let '(r, w) := refresh tool h (fst s) in
    (r, (w, snd s ++ match r with Some (Ok r) => [(CacheRefreshed h, is_ok r)] | Some (Err _) => [(CacheRefreshed h, false)] | None => [] end));
  answer := fun t s => let '(a, w) := answer t (fst s) in (a, (w, snd s ++ [(Asked t a, true)]));
  still_running := fun s pr => still_running (fst s) pr;
  ask_hub_to_quit := fun s => let '(r, w) := ask_hub_to_quit (fst s) in (r, (w, snd s ++ [(HubAsked, is_ok r)]));
  terminate := fun pr s => let '(r, w) := terminate pr (fst s) in (r, (w, snd s ++ [(Signalled pr, is_ok r)]));
  run_command := fun args s => let '(r, w) := run_command args (fst s) in (r, (w, snd s ++ [(Ran args, r)]));
  now := fun s => now (fst s);
  nap := fun n s => (nap n (fst s), snd s)
|}.

Section Log.
Context {W : Type} `{Machine W}.
Abbreviation State := (Outcome * (W * list (Change * bool)))%type.
Definition log_of (s : State) : list (Change * bool) := snd (snd s).
(** A change that was made, or one whose failure only leaves a folder or a cache as it is. *)
Definition soft (c : Change) : bool := match c with DirRemoved _ | CacheRefreshed _ => true | _ => false end.
Definition made (c : Change * bool) : Prop := c.2 = true \/ soft c.1 = true.
(** From one state to another by changes of a kind, with every other failure on record. *)
Definition through (P : Change * bool -> Prop) (s s' : State) : Prop :=
  exists l, log_of s' = log_of s ++ l /\ Forall P l /\ (failed (fst s') = [] -> failed (fst s) = [] /\ Forall made l).
#[local] Instance through_refl P : Reflexive (through P).
Proof. intros s. exists []. by rewrite app_nil_r. Qed.
#[local] Instance through_trans P : Transitive (through P).
Proof.
  intros s1 s2 s3 (l1 & E1 & H1 & F1) (l2 & E2 & H2 & F2). exists (l1 ++ l2). rewrite E2, E1, app_assoc. split_and!; [done|by apply Forall_app|].
  intros [[? ?]%F1 ?]%F2. split; [done|by apply Forall_app].
Qed.
Lemma through_same P (s s' : State) : log_of s' = log_of s -> (failed (fst s') = [] -> failed (fst s) = []) -> through P s s'.
Proof. intros E F. exists []. rewrite E, app_nil_r. split_and!; [done..|]. intros Hf. by split; [apply F|]. Qed.
Lemma failing_same P p x (s s' : State) : log_of s' = log_of s -> fst s' = fails p x (fst s) -> through P s s'.
Proof. intros E Ef. apply through_same; [done|]. rewrite Ef. cbn. by destruct (failed (fst s)). Qed.
Lemma through_one (P : Change * bool -> Prop) c b (s s' : State) : log_of s' = log_of s ++ [(c, b)] -> P (c, b) ->
  (failed (fst s') = [] -> failed (fst s) = [] /\ made (c, b)) -> through P s s'.
Proof. intros E Hp Hf. exists [(c, b)]. split_and!; [done|by constructor|]. intros [? ?]%Hf. split; [done|by constructor]. Qed.
Lemma through_fold {A} P (f : State -> A -> State) l s : (forall s x, x ∈ l -> through P s (f s x)) -> through P s (foldl f s l).
Proof.
  revert s. induction l as [|x l IH]; intros s Hf; [done|]. cbn [foldl]. transitivity (f s x); [apply Hf; left|]. apply IH. intros s' y Hy. apply Hf. by right.
Qed.
Lemma fails_not_empty p x out : failed (fails p x out) <> [].
Proof. cbn. by destruct (failed out). Qed.
Lemma through_change (P : Change * bool -> Prop) p c s : (forall b, P (c, b)) -> through P s (do_change p c s).
Proof.
  intros Hp. unfold do_change. cbn [change logged]. destruct (change c (fst (snd s))) as [r w]. eapply (through_one P c (is_ok r)); [done|apply Hp|].
  destruct r as [u|x]; cbn [fst outcome_of]; [intros Hf; split; [exact Hf|by left]|by intros ?%fails_not_empty].
Qed.
Lemma through_removal P r s : (forall b, P (Unlinked (at_ (gone_path r)), b)) -> (tree r = true -> forall b, P (TreeRemoved (at_ (gone_path r)), b)) ->
  through P s (remove_one r s).
Proof.
  intros H1 H2. unfold remove_one. destruct (symlink_metadata _) as [m|x].
  - destruct (bool_decide _); [|by apply through_change]. destruct (tree r); [apply through_change, H2; done|by eapply failing_same].
  - destruct (error_kind x); [done|by eapply failing_same..].
Qed.
(** What is written over a manifest: its lines but those of the folders in the plan. *)
Definition without (drop : list text) (t : text) (b : bytes) : Prop :=
  exists keeps, b = utf8_encode (join [10] (List.filter keeps (lines t)) ++ [10]) /\
    forall l, l ∈ lines t -> keeps l = false -> exists v, strip_prefix (txt "bindir=") (trim l) = Some v /\ has drop (trim v) = true.
Inductive in_plan (p : Plan) : Change -> Prop :=
| plan_unlinks r : r ∈ remove p -> in_plan p (Unlinked (at_ (gone_path r)))
| plan_removes r : r ∈ remove p -> tree r = true -> in_plan p (TreeRemoved (at_ (gone_path r)))
| plan_drops m : m ∈ manifests p -> in_plan p (Unlinked (at_ (file m)))
| plan_edits m t b : m ∈ manifests p -> without (drop_dirs m) t b -> in_plan p (Replaced (at_ (file m)) b)
| plan_rmdirs d : d ∈ rmdirs p -> in_plan p (DirRemoved (at_ d))
| plan_refreshes h : h ∈ icon_caches p -> in_plan p (CacheRefreshed (at_ h)).
Lemma manifest_through p going m s : m ∈ manifests p -> through (fun c => in_plan p c.1) s (apply_manifest going s m).
Proof.
  intros Hm. unfold apply_manifest. destruct (read_to_string _) as [t|]; [|done]. set (keeps := still_listed _ _ _).
  destruct (existsb _ _); [|apply through_change; intros b; by apply plan_drops].
  set (c := Replaced _ _). cbn [change logged]. destruct (change c (fst (snd s))) as [r w]. eapply (through_one _ c (is_ok r)); [by destruct r| |].
  - apply (plan_edits p m t); [done|]. exists keeps. split; [done|]. intros l _. unfold keeps, still_listed.
    destruct (strip_prefix _ _) as [v|]; [|done]. intros Hl. apply negb_false_iff, andb_true_iff in Hl as [Hl _]. by exists v.
  - destruct r as [u|x]; cbn [fst]; [intros Hf; split; [exact Hf|by left]|by intros ?%fails_not_empty].
Qed.
Lemma rmdir_through p d s : d ∈ rmdirs p -> through (fun c => in_plan p c.1) s (remove_dir s d).
Proof.
  intros Hd. unfold remove_dir. cbn [change logged]. destruct (change (DirRemoved (at_ d)) (fst (snd s))) as [r w]. eapply (through_one _ (DirRemoved (at_ d)) (is_ok r)).
  - destruct r as [|x]; [done|]. by destruct (error_kind x).
  - by apply plan_rmdirs.
  - intros Hf. split; [|by right]. destruct r as [|x]; [exact Hf|]. by destruct (error_kind x).
Qed.
Lemma tools_through p h tools s : h ∈ icon_caches p -> through (fun c => in_plan p c.1) s (try_tools (at_ h) tools s).
Proof.
  intros Hh. revert s. induction tools as [|tool tools IH]; intros s; cbn [try_tools]; [by apply through_same|].
  cbn [refresh logged]. destruct (refresh tool (at_ h) (fst (snd s))) as [[[[[]|st]|er]|] w].
  1-3: eapply through_one; [reflexivity|by apply plan_refreshes|intros Hf; split; [exact Hf|by right]].
  transitivity (fst s, (w, snd (snd s) ++ [])); [apply through_same; [by unfold log_of; cbn; rewrite app_nil_r|done]|apply IH].
Qed.
Definition before_self {W} `{Machine W} (p : Plan) (w : W) : Outcome * W :=
  let s := foldl (fun s r => remove_one r s) (outcome0, w) (remove p) in
  let s := foldl (apply_manifest (self_going p (fst s))) s (manifests p) in
  let s := foldl remove_dir s (rmdirs p) in
  foldl refresh_icon_cache s ((fun h => at_ h) <$> icon_caches p).
Lemma execute_self {W'} `{Machine W'} (p : Plan) (w : W') : execute p w = remove_self p (before_self p w).
Proof. reflexivity. Qed.
Lemma before_self_through p s0 : through (fun c => in_plan p c.1) (outcome0, s0) (before_self p s0).
Proof.
  unfold before_self. set (s1 := foldl _ (outcome0, s0) (remove p)). set (s2 := foldl _ s1 (manifests p)). set (s3 := foldl _ s2 (rmdirs p)).
  transitivity s1; [apply through_fold; intros s r Hr; apply through_removal; [intros b; by apply plan_unlinks|intros Ht b; by apply plan_removes]|].
  transitivity s2; [apply through_fold; intros s m Hm; by apply manifest_through|].
  transitivity s3; [apply through_fold; intros s d Hd; by apply rmdir_through|].
  apply through_fold. intros s h (x & -> & Hx)%list_elem_of_fmap. unfold refresh_icon_cache. destruct (is_file_at _ _); [by apply tools_through|done].
Qed.
(** C21: Every change is one the plan names; the running program is deleted after all else, and only
    if nothing before it failed: otherwise it is kept and nothing more is touched. *)
Theorem execution_keeps_to_the_plan (p : Plan) (w : W) :
  let s1 := before_self p (w, []) in
  let s := execute p (w, []) in
  Forall (fun c => in_plan p c.1) (log_of s1) /\
  match self_exe p with
  | None => s = s1
  | Some me =>
      (failed (fst s1) <> [] -> snd s = snd s1 /\ failed (fst s) = failed (fst s1) /\ self_kept (fst s) = Some me) /\
      (failed (fst s1) = [] -> Forall made (log_of s1) /\ (log_of s = log_of s1 \/ exists b, log_of s = log_of s1 ++ [(Unlinked (at_ me), b)]))
  end.
Proof.
  cbn zeta. rewrite execute_self. destruct (before_self_through p (w, [])) as (l & El & Hl & Hf). cbn [log_of snd app] in El. set (s1 := before_self p (w, [])) in *.
  split; [by rewrite El|]. unfold remove_self. destruct (self_exe p) as [me|]; [|done]. destruct (failed (fst s1)) as [|f fs] eqn:Ef; cbn [is_nil].
  - split; [done|]. intros _. split; [rewrite El; by apply Hf|]. set (r := {| gone_path := me; what := _; tree := false |}).
    match goal with |- context [if ?b then (?n, snd (remove_one r s1)) else _] => assert (Hs : forall st, st = (if b then (n, snd (remove_one r s1)) else remove_one r s1) -> log_of st = log_of (remove_one r s1)) by (intros st ->; by destruct b) end.
    rewrite (Hs _ eq_refl). unfold remove_one. destruct (symlink_metadata _) as [m|x]; [|left; by destruct (error_kind x)].
    destruct (bool_decide _); [by left|right]. unfold do_change. cbn [change logged gone_path r]. destruct (change (Unlinked (at_ me)) (fst (snd s1))) as [rr w']. by eexists.
  - split; [|done]. intros _. cbn. by split_and!.
Qed.
(** The same from any state. *)
Definition deleted_self (p : Plan) (c : Change) : Prop := exists me, self_exe p = Some me /\ c = Unlinked (at_ me).
Lemma execute_adds p (s0 : W * list (Change * bool)) : exists l, snd (execute p s0).2 = snd s0 ++ l /\ Forall (fun c => in_plan p c.1 \/ deleted_self p c.1) l.
Proof.
  rewrite execute_self. destruct (before_self_through p s0) as (l & El & Hl & _). unfold log_of in El. cbn [snd] in El. set (s1 := before_self p s0) in *.
  assert (Hl' : Forall (fun c => in_plan p c.1 \/ deleted_self p c.1) l) by (eapply Forall_impl; [exact Hl|by left]).
  unfold remove_self. destruct (self_exe p) as [me|] eqn:Eme; [|by exists l]. destruct (is_nil _); [|by exists l].
  set (r := {| gone_path := me; what := _; tree := false |}). set (s2 := remove_one r s1).
  assert (H2 : through (fun c => deleted_self p c.1) s1 s2) by (apply through_removal; [intros b; by exists me|done]).
  destruct H2 as (l2 & E2 & H2 & _). exists (l ++ l2). split.
  - rewrite (app_assoc (snd s0)), <- El. destruct (existsb _ _); exact E2.
  - apply Forall_app. split; [done|]. eapply Forall_impl; [exact H2|by right].
Qed.
End Log.

(** ** Nothing without consent *)
(** A process that has ended does not come back. *)
Class Departs (W : Type) `{Machine W} := {
  departs_answer : forall t w p, still_running w p = false -> still_running (snd (answer t w)) p = false;
  departs_hub : forall w p, still_running w p = false -> still_running (snd (ask_hub_to_quit w)) p = false;
  departs_signal : forall pr w p, still_running w p = false -> still_running (snd (terminate pr w)) p = false;
  departs_nap : forall n w p, still_running w p = false -> still_running (nap n w) p = false
}.
Section Consent.
Context {W : Type} `{Machine W} `{!Departs W}.
Abbreviation Logged := (W * list (Change * bool))%type.
(** Adding events of a kind, while what has ended stays so. *)
Definition passes (P : Change -> Prop) (s s' : Logged) : Prop :=
  (exists l, snd s' = snd s ++ l /\ Forall (fun c => P c.1) l) /\ forall p, still_running (fst s) p = false -> still_running (fst s') p = false.
#[local] Instance passes_refl P : Reflexive (passes P).
Proof. intros s. split; [exists []; by rewrite app_nil_r|done]. Qed.
#[local] Instance passes_trans P : Transitive (passes P).
Proof.
  intros s1 s2 s3 [(l1 & E1 & H1) D1] [(l2 & E2 & H2) D2]. split; [exists (l1 ++ l2)|auto]. rewrite E2, E1, app_assoc. split; [done|by apply Forall_app].
Qed.
Lemma passes_weaken (P Q : Change -> Prop) s s' : (forall c, P c -> Q c) -> passes P s s' -> passes Q s s'.
Proof. intros Hpq [(l & E & Hl) D]. split; [exists l; split; [done|]|done]. eapply Forall_impl; [exact Hl|]. cbn. auto. Qed.
(** What is done before anything is deleted. *)
Inductive before (p : Plan) : Change -> Prop :=
| before_asks t line : before p (Asked t line)
| before_hub : before p HubAsked
| before_signal pr : pr ∈ stop p ++ orphan_hubs p -> start_time pr <> None -> before p (Signalled pr).
Lemma ask_passes P t d s : (forall line, P (Asked t line)) -> passes P s (ask t d s).2 /\
  ((ask t d s).1 = true -> exists line, (Asked t (Some line), true) ∈ snd (ask t d s).2 /\ is_yes d line = true).
Proof.
  intros Hp. unfold ask. cbn [answer logged]. pose proof (departs_answer t (fst s)) as D. destruct (answer t (fst s)) as [a w]. cbn [fst snd] in *. split.
  - split; [exists [(Asked t a, true)]; split; [done|constructor; [apply Hp|done]]|exact D].
  - destruct a as [line|]; [|done]. intros Hy. exists line. split; [apply elem_of_app; right; left|done].
Qed.
Lemma consents_passes P o i t d s : (forall line, P (Asked t line)) -> passes P s (consents o i t d s).2.
Proof. intros Hp. unfold consents. destruct (yes o); [done|]. destruct i; [by apply ask_passes|done]. Qed.
Lemma wait_says fuel procs deadline s rest s' P : wait_from fuel procs deadline s = Some (rest, s') ->
  passes P s s' /\ rest = List.filter (still_running s') procs.
Proof.
  revert s. induction fuel as [|fuel IH]; intros s; cbn [wait_from]; (destruct (_ || _); [by intros [= <- <-]|]); [done|].
  intros [Hp ->]%IH. split; [|done]. etransitivity; [|exact Hp]. split; [exists []; cbn; by rewrite app_nil_r|]. intros p. apply departs_nap.
Qed.
Lemma signals_pass p procs s signalled : (forall pr, pr ∈ procs -> pr ∈ stop p ++ orphan_hubs p) ->
  passes (before p) s (foldl signal_one (signalled, s) procs).2.
Proof.
  revert s signalled. induction procs as [|pr procs IH]; intros s signalled Hin; [done|]. cbn [foldl]. unfold signal_one at 2.
  assert (Hin' : forall x, x ∈ procs -> x ∈ stop p ++ orphan_hubs p) by (intros x Hx; apply Hin; by right).
  destruct (safe_to_signal s pr) eqn:E; [|by apply IH]. cbn [terminate logged]. pose proof (departs_signal pr (fst s)) as D.
  destruct (terminate pr (fst s)) as [r w]. etransitivity; [|by apply IH]. split; [|exact D]. exists [(Signalled pr, is_ok r)]. split; [done|].
  constructor; [|done]. apply before_signal; [apply Hin; left|]. unfold safe_to_signal in E. by destruct (start_time pr).
Qed.
Lemma filter_sub {A} (f : A -> bool) l x : x ∈ List.filter f l -> x ∈ l.
Proof. intros Hx. apply list_elem_of_In, filter_In in Hx as [Hx _]. by apply list_elem_of_In. Qed.
Lemma stop_says fuel p o i s r s' : stop_running fuel p o i s = Some (r, s') ->
  passes (before p) s s' /\ (r = Ok tt -> forall pr, pr ∈ stop p -> still_running s' pr = false).
Proof.
  unfold stop_running. set (all := stop p ++ orphan_hubs p). destruct (is_nil all) eqn:Ea.
  { intros [= <- <-]. split; [done|]. intros _ pr Hpr. assert (Hin : pr ∈ all) by (apply elem_of_app; by left). destruct all; [by apply elem_of_nil in Hin|done]. }
  pose proof (consents_passes (before p) o i (quit_question p) true s ltac:(constructor)) as P1. destruct (consents o i _ true s) as [go1 s1]. cbn [snd] in P1.
  destruct go1; cbn [negb].
  2: { intros [= <- <-]. split; [done|]. destruct (stop p) as [|x l]; [by intros _ pr ?%elem_of_nil|done]. }
  set (s2 := if _ && _ then _ else s1). assert (P2 : passes (before p) s1 s2).
  { unfold s2. destruct (_ && _); [|done]. cbn [ask_hub_to_quit logged]. pose proof (departs_hub (fst s1)) as D. destruct (ask_hub_to_quit (fst s1)) as [hr w].
    split; [exists [(HubAsked, is_ok hr)]; split; [done|constructor; [apply before_hub|done]]|exact D]. }
  unfold wait_gone. destruct (wait_from fuel all _ s2) as [[rest s3]|] eqn:E3; [|done]. cbn [mbind option_bind].
  apply (wait_says _ _ _ _ _ _ (before p)) in E3 as [P3 ->]. assert (P13 : passes (before p) s s3) by (transitivity s1; [done|by transitivity s2]).
  assert (Hgone : forall set s4, set = List.filter (still_running s4) all -> ours_left p set = false -> forall pr, pr ∈ stop p -> still_running s4 pr = false).
  { intros set s4 -> Ho pr Hpr. apply not_true_is_false. intros Hr. unfold ours_left in Ho. rewrite <- not_true_iff_false in Ho. apply Ho, existsb_exists. exists pr.
    split; [apply filter_In; split; [apply list_elem_of_In, elem_of_app; by left|done]|by apply bool_decide_eq_true]. }
  destruct (is_nil (List.filter _ all)) eqn:En.
  { intros [= <- <-]. split; [done|]. intros _. eapply Hgone; [reflexivity|]. destruct (List.filter _ all); [done|done]. }
  pose proof (consents_passes (before p) o i (txt "Send them SIGTERM?") false s3 ltac:(constructor)) as P4. destruct (consents o i _ false s3) as [go2 s4]. cbn [snd] in P4.
  assert (P14 : passes (before p) s s4) by (by transitivity s3). destruct go2; cbn [negb].
  2: { intros [= <- <-]. split; [done|]. destruct (ours_left p _) eqn:Eo; [done|]. intros _ pr Hpr. apply P4. by eapply Hgone. }
  pose proof (signals_pass p (List.filter (still_running s3) all) s4 [] ltac:(intros pr; apply filter_sub)) as P5. unfold signal_each. destruct (foldl signal_one _ _) as [sg s5]. cbn [snd] in P5.
  destruct (wait_from fuel _ _ s5) as [[still s6]|] eqn:E6; [|done]. cbn [mbind option_bind]. apply (wait_says _ _ _ _ _ _ (before p)) in E6 as [P6 ->].
  intros [= <- <-]. split; [transitivity s4; [done|by transitivity s5]|]. destruct (ours_left p _) eqn:Eo; [done|]. intros _ pr Hpr.
  destruct (still_running s3 pr) eqn:E3r.
  - apply not_true_is_false. intros Hr. unfold ours_left in Eo. rewrite <- not_true_iff_false in Eo. apply Eo, existsb_exists. exists pr. split; [|by apply bool_decide_eq_true].
    apply filter_In. split; [|done]. apply filter_In. split; [apply list_elem_of_In, elem_of_app; by left|done].
  - apply P6, P5, P4, E3r.
Qed.
(** The yes that was given: on the command line, or in answer to the question. *)
Definition consented (o : Options) (i : bool) (s : Logged) : Prop :=
  yes o = true \/ (i = true /\ exists line, (Asked REMOVE_QUESTION (Some line), true) ∈ snd s /\ is_yes false line = true).
Lemma proceed_says p o i s : passes (before p) s (may_proceed p o i s).2 /\
  ((may_proceed p o i s).1 = Ok tt -> consented o i (may_proceed p o i s).2).
Proof.
  unfold may_proceed, consented. destruct (yes o); [split; [done|by left]|]. destruct i; cbn [negb]; [|done].
  set (st := match bridge_question p with Some question => _ | None => _ end). assert (P1 : passes (before p) s st.2).
  { unfold st. destruct (bridge_question p); [|done]. apply ask_passes. constructor. }
  destruct st as [[] s1]; [done|]. cbn [snd] in P1. destruct (ask_passes (before p) REMOVE_QUESTION false s1 ltac:(constructor)) as [P2 Hy].
  destruct (ask REMOVE_QUESTION false s1) as [[] s2]; (split; [by transitivity s1|]); [|done]. intros _. right. split; [done|by apply Hy].
Qed.
Lemma consented_later P o i s s' : passes P s s' -> consented o i s -> consented o i s'.
Proof. intros [(l & E & _) _] [?|[? (line & Hin & ?)]]; [by left|right]. split; [done|]. exists line. split; [rewrite E; apply elem_of_app; by left|done]. Qed.
Definition udev_event (p : Plan) (o : Options) (i : bool) (c : Change) : Prop :=
  udev o = true /\ i = true /\ ((exists args, c = Ran args /\ args ∈ udev_commands p) \/ exists t line, c = Asked t line).
Lemma udev_adds p o i s : exists l, snd (udev_if p o i s) = snd s ++ l /\ Forall (fun c => udev_event p o i c.1) l.
Proof.
  unfold udev_if, run_udev. destruct (udev o) eqn:Eu; [|exists []; by rewrite app_nil_r]. destruct (is_nil _); [exists []; by rewrite app_nil_r|].
  destruct i; cbn [negb orb]; [|exists []; by rewrite app_nil_r].
  set (st := if yes o then (true, s) else _). assert (H1 : exists l, snd st.2 = snd s ++ l /\ Forall (fun c => udev_event p o true c.1) l).
  { unfold st. destruct (yes o); [exists []; by rewrite app_nil_r|]. apply (proj1 (ask_passes (fun c => udev_event p o true c) _ false s ltac:(intros line; split_and!; eauto))). }
  destruct st as [[] s1]; [|done]. destruct H1 as (l1 & E1 & Hl1). cbn [snd] in E1.
  assert (H2 : forall cmds s, (forall c, c ∈ cmds -> c ∈ udev_commands p) -> exists l, snd (run_until_failure cmds s) = snd s ++ l /\ Forall (fun c => udev_event p o true c.1) l).
  { clear -Eu. induction cmds as [|c cmds IH]; intros s Hin; [exists []; by rewrite app_nil_r|]. cbn [run_until_failure run_command logged]. destruct (run_command c (fst s)) as [ok w].
    assert (Hc : udev_event p o true (Ran c)). { split_and!; [exact Eu|done|]. left. exists c. split; [done|]. apply Hin. left. }
    destruct ok; [|exists [(Ran c, false)]; split; [done|by constructor]]. destruct (IH (w, snd s ++ [(Ran c, true)])) as (l & E & Hl); [intros x Hx; apply Hin; by right|].
    exists ((Ran c, true) :: l). split; [rewrite E; cbn; by rewrite <- app_assoc|by constructor]. }
  destruct (H2 (udev_commands p) s1 ltac:(done)) as (l2 & E2 & Hl2). exists (l1 ++ l2). rewrite E2, E1, app_assoc. split; [done|by apply Forall_app].
Qed.
(** Everything that is ever done is one of these. *)
Definition accounted (p : Plan) (o : Options) (i : bool) (c : Change) : Prop :=
  before p c \/ in_plan p c \/ deleted_self p c \/ udev_event p o i c.
Lemma run_says fuel p o i w r s' : run fuel p o i (w, []) = Some (r, s') ->
  (exists s1 l, passes (before p) (w, []) s1 /\ snd s' = snd s1 ++ l /\ Forall (fun c => udev_event p o i c.1) l) \/
  exists s1, passes (before p) (w, []) s1 /\ refusal p = None /\ dry_run o = false /\ consented o i s1 /\ (forall pr, pr ∈ stop p -> still_running s1 pr = false) /\
    s' = udev_if p o i (snd (execute p s1)).
Proof.
  unfold run. destruct (refusal p); [intros [= <- <-]; left; exists (w, []), []; done|]. destruct (dry_run o); [intros [= <- <-]; left; exists (w, []), []; done|].
  destruct (is_empty p).
  - destruct (stop_running fuel p o i (w, [])) as [[r1 s1]|] eqn:E; [|done]. cbn [mbind option_bind]. apply stop_says in E as [P1 _]. intros Hr. left. destruct r1 as [u|e]; injection Hr as <- <-.
    + destruct (udev_adds p o i s1) as (l & El & Hl). by exists s1, l.
    + exists s1, []. by rewrite app_nil_r.
  - destruct (proceed_says p o i (w, [])) as [P1 Hc]. destruct (may_proceed p o i (w, [])) as [r0 s1]. cbn [fst snd] in *.
    destruct r0 as [u|e]; [destruct u|intros [= <- <-]; left; exists s1, []; by rewrite app_nil_r].
    destruct (stop_running fuel p o i s1) as [[r1 s2]|] eqn:E; [|done]. cbn [mbind option_bind]. apply stop_says in E as [P2 Hgone].
    assert (P12 : passes (before p) (w, []) s2) by (by transitivity s1). destruct r1 as [u|e]; [destruct u|intros [= <- <-]; left; exists s2, []; by rewrite app_nil_r].
    destruct (execute p s2) as [out s3] eqn:Ee. intros [= <- <-]. right. exists s2. split_and!; [done|done|done|by eapply consented_later, Hc|by apply Hgone|]. by rewrite Ee.
Qed.
End Consent.

Definition deletes (c : Change) : bool := match c with Unlinked _ | TreeRemoved _ | DirRemoved _ | Replaced _ _ | CacheRefreshed _ => true | _ => false end.
(** C20: Everything the command does is asking, stopping the processes of the plan that are provably
    those, what the plan names, or the commands for the udev rule that were asked for. And
    nothing is deleted or written unless the plan is not refused, it is no dry run, a yes was
    given, on the command line or at a terminal, and no copy that goes is running any more. *)
Theorem nothing_without_consent {W} `{Machine W} `{!Departs W} (fuel : nat) (p : Plan) (o : Options) (interactive : bool) (w : W) r s' :
  run fuel p o interactive (w, []) = Some (r, s') ->
  Forall (fun c => accounted p o interactive c.1) (snd s') /\
  (Exists (fun c => deletes c.1 = true) (snd s') ->
   exists s1 later, snd s' = snd s1 ++ later /\ Forall (fun c => before p c.1) (snd s1) /\
     refusal p = None /\ dry_run o = false /\ consented o interactive s1 /\ forall pr, pr ∈ stop p -> still_running s1 pr = false).
Proof.
  intros [(s1 & l & [(l1 & E1 & Hl1) _] & E & Hl)|(s1 & [(l1 & E1 & Hl1) _] & Hr & Hd & Hc & Hg & ->)]%run_says; cbn [snd app] in E1.
  - assert (Hall : Forall (fun c => before p c.1 \/ udev_event p o interactive c.1) (snd s')).
    { rewrite E, E1. apply Forall_app. split; [eapply Forall_impl; [exact Hl1|by left]|eapply Forall_impl; [exact Hl|by right]]. }
    split; [eapply Forall_impl; [exact Hall|]; intros c [?|?]; [by left|by right; right; right]|]. intros (c & Hin & Hdel)%Exists_exists. exfalso.
    rewrite Forall_forall in Hall. destruct (Hall c Hin) as [Hb|(_ & _ & [(args & Ec & _)|(t & line & Ec)])]; [by destruct Hb|by rewrite Ec in Hdel..].
  - destruct (execute_adds p s1) as (l2 & E2 & Hl2). destruct (udev_adds p o interactive (snd (execute p s1))) as (l3 & E3 & Hl3). split.
    + rewrite E3, E2, E1. repeat (apply Forall_app; split).
      * eapply Forall_impl; [exact Hl1|by left].
      * eapply Forall_impl; [exact Hl2|]. intros c [?|?]; [by right; left|by right; right; left].
      * eapply Forall_impl; [exact Hl3|by right; right; right].
    + intros _. exists s1, (l2 ++ l3). split_and!; [by rewrite E3, E2, app_assoc|by rewrite E1|done..].
Qed.

(** ** It comes to an end *)
(** A sleep takes at least as long as it was asked for. *)
Class Sleeps (W : Type) `{Machine W} := sleeps : forall n w, now w + n <= now (nap n w).
Lemma wait_returns {W} `{Machine W} `{!Sleeps W} fuel procs deadline w : deadline <= now w + 100_000_000 * Z.of_nat fuel -> is_Some (wait_from fuel procs deadline w).
Proof.
  revert w. induction fuel as [|fuel IH]; intros w Hd; cbn [wait_from]; destruct (is_nil _ || (deadline <=? now w)) eqn:E; [by eexists| |by eexists|].
  - apply orb_false_iff in E. lia.
  - apply IH. pose proof (sleeps 100_000_000 w). lia.
Qed.
Lemma stop_returns {W} `{Machine W} `{!Sleeps W} fuel p o i w : (50 <= fuel)%nat -> is_Some (stop_running fuel p o i w).
Proof.
  intros Hf. unfold stop_running. destruct (is_nil _); [by eexists|]. destruct (consents _ _ _ _ w) as [[] w1]; cbn [negb]; [|by eexists].
  set (w2 := if _ && _ then _ else w1). unfold wait_gone. destruct (wait_returns fuel (stop p ++ orphan_hubs p) (now w2 + 5_000_000_000) w2) as [[rest w3] ->]; [lia|].
  cbn [mbind option_bind]. destruct (is_nil rest); [by eexists|]. destruct (consents _ _ _ _ w3) as [[] w4]; cbn [negb]; [|by eexists].
  destruct (signal_each rest w4) as [sg w5]. destruct (wait_returns fuel rest (now w5 + 3_000_000_000) w5) as [[still w6] ->]; [lia|]. by eexists.
Qed.
(** Fifty looks at the processes are enough: the command returns. *)
Theorem run_returns {W} `{Machine W} `{!Sleeps W} (fuel : nat) (p : Plan) (o : Options) (interactive : bool) (w : W) :
  (50 <= fuel)%nat -> is_Some (run fuel p o interactive w).
Proof.
  intros Hf. unfold run. destruct (refusal p); [by eexists|]. destruct (dry_run o); [by eexists|]. destruct (is_empty p).
  - destruct (stop_returns fuel p o interactive w Hf) as [[[] w1] ->]; by eexists.
  - destruct (may_proceed p o interactive w) as [[u|r] w1]; [|by eexists]. destruct (stop_returns fuel p o interactive w1 Hf) as [[[] w2] ->]; cbn [mbind option_bind]; [|by eexists].
    destruct (execute p w2). by eexists.
Qed.

(** ** One run *)
(** The system of [the_os] without what was deleted, and a person who always says yes. *)
Definition without_these (w : list text) (f : text -> result IoError Stat) (p : text) : result IoError Stat :=
  if is_one_of p w then Err {| error_kind := NotFound; message := txt "not found" |} else f p.
Definition path_of (c : Change) : text := match c with Unlinked p | TreeRemoved p | DirRemoved p | CacheRefreshed p => p | Replaced _ _ => [] | _ => [] end.
#[local] Instance the_machine : Machine (list text) := {|
  view := fun w => {| symlink_metadata := without_these w the_stat; metadata := without_these w the_stat; canonicalize := canonicalize (Os := the_os);
                      read_link := fun _ => None; read_dir := read_dir (Os := the_os); read_to_string := the_text; open_file := open_file (Os := the_os) |};
  change := fun c w => (Ok tt, w ++ [path_of c]);
  refresh := fun _ _ w => (None, w);
  answer := fun _ w => (Some (txt "y"), w);
  still_running := fun _ _ => false;
  ask_hub_to_quit := fun w => (Ok tt, w);
  terminate := fun _ w => (Ok tt, w);
  run_command := fun _ w => (true, w);
  now := fun w => 0;
  nap := fun _ w => w
|}.
#[local] Instance the_machine_departs : Departs (list text).
Proof. by split. Qed.
Definition purging : Options := {options0 with purge := true}.
Example the_run : (fun x => (fst x, fst (snd x))) <$> run 0 (the_plan purging) purging true ([], []) =
  Some (Ok tt, [path_join bin_dir (txt "tobii-gtk"); path_join bin_dir (txt ".tobii.old-12"); desktop_entry_in (txt "/home/u/.local/share");
    txt "/home/u/.config/tobii-linux/config.toml"; manifest_in (txt "/home/u/.local/share"); txt "/home/u/.local/share/tobii-linux";
    txt "/home/u/.config/tobii-linux"; path_join bin_dir (txt "tobii")]).
Proof. vm_compute. reflexivity. Qed.
Lemma nothing_without_consent_witness : exists r s', run 0 (the_plan purging) purging true ([], []) = Some (r, s') /\
  Forall (fun c => accounted (the_plan purging) purging true c.1) (snd s') /\
  exists s1 later, snd s' = snd s1 ++ later /\ Forall (fun c => before (the_plan purging) c.1) (snd s1) /\
     refusal (the_plan purging) = None /\ dry_run purging = false /\ consented purging true s1 /\ forall pr, pr ∈ stop (the_plan purging) -> still_running s1 pr = false.
Proof.
  assert (E : exists r s', run 0 (the_plan purging) purging true ([], []) = Some (r, s') /\ existsb (fun c => deletes c.1) (snd s') = true)
    by (vm_compute; eexists _, _; split; reflexivity).
  destruct E as (r & s' & E & D). exists r, s'. destruct (nothing_without_consent 0 (the_plan purging) purging true [] r s' E) as [A B].
  split; [exact E|]. split; [exact A|]. apply B. apply existsb_exists in D as (c & Hc & Hd). apply Exists_exists. exists c. split; [by apply list_elem_of_In|exact Hd].
Defined.
