(* ===== verification/SockAddr.v ===== *)
(** * SockAddr: internet addresses

    [IpAddr] and [SocketAddr] of the standard library, as far as the program uses them, and how
    one is read from a setting ([s.parse::<SocketAddr>()]). The zone and flow label of the larger
    family are dropped: nothing here looks at them. [dotted_reads_back] is the round trip of the
    family the settings use. *)
From S2P Require Import Prelude Text Hex KeyVal.

(** The octets, in the order they are written. *)
Inductive IpAddr := V4 (b : bytes) | V6 (b : bytes).
#[export] Instance ip_eq_dec : EqDecision IpAddr. Proof. solve_decision. Defined.
Record SocketAddr := { ip : IpAddr; port : Z }.
#[export] Instance socket_addr_eq_dec : EqDecision SocketAddr. Proof. solve_decision. Defined.
Definition octets (i : IpAddr) : bytes := match i with V4 b | V6 b => b end.
Definition is_unspecified (i : IpAddr) : bool := forallb (fun b => u8 b =? 0) (octets i).
Definition is_loopback (i : IpAddr) : bool :=
  match i with V4 b => match b with x :: _ => u8 x =? 127 | [] => false end | V6 b => bool_decide (b = replicate 15 x00 ++ [x01]) end.
(** [IpAddr::to_canonical]: an address mapped into the larger family as itself. *)
Definition to_canonical (i : IpAddr) : IpAddr :=
  match i with V6 b => if bool_decide (take 12 b = replicate 10 x00 ++ [xff; xff]) then V4 (drop 12 b) else V6 b | v4 => v4 end.

(** ** Reading one: each reader takes from the front, or nothing *)
Definition given (c : char) (s : text) : option text := match s with x :: r => if x =? c then Some r else None | [] => None end.
Fixpoint take_digits (radix : Z) (s : text) : text * text :=
  match s with
  | c :: r => match to_digit radix c with Some _ => let '(ds, r) := take_digits radix r in (c :: ds, r) | None => ([], s) end
  | [] => ([], [])
  end.
Definition read_number (w radix : Z) (max : option nat) (zeros : bool) (s : text) : option (Z * text) :=
  let '(ds, r) := take_digits radix s in
  if match max with Some m => (m <? length ds)%nat | None => false end then None
  else match ds with
       | [] => None
       | 48 :: _ :: _ => if zeros then v ← digits_value radix ds; if v <? 2 ^ w then Some (v, r) else None else None
       | _ => v ← digits_value radix ds; if v <? 2 ^ w then Some (v, r) else None
       end.
(** The [i]-th of a row: not the first, and a separator comes before it. *)
Definition separated {A} (sep : char) (i : nat) (inner : text -> option (A * text)) (s : text) : option (A * text) :=
  match i with O => inner s | S _ => s ← given sep s; inner s end.
Definition octet_at (i : nat) : text -> option (Z * text) := separated 46 i (read_number 8 10 (Some 3%nat) false).
Definition read_ipv4 (s : text) : option (bytes * text) :=
  '(a, s) ← octet_at 0 s; '(b, s) ← octet_at 1 s; '(c, s) ← octet_at 2 s; '(d, s) ← octet_at 3 s;
  Some (byte.of_Z <$> [a; b; c; d], s).
(** Up to [limit] groups, from the [i]-th on: the octets, and whether the last four were dotted. *)
Fixpoint read_groups (todo i : nat) (s : text) : bytes * bool * text :=
  match todo with
  | O => ([], false, s)
  | S todo' =>
      match (if (1 <? todo)%nat then separated 58 i read_ipv4 s else None) with
      | Some (b, s) => (b, true, s)
      | None =>
          match separated 58 i (read_number 16 16 (Some 4%nat) true) s with
          | Some (g, s) => let '(b, dotted, s) := read_groups todo' (S i) s in (to_be 2 g ++ b, dotted, s)
          | None => ([], false, s)
          end
      end
  end.
Definition read_ipv6 (s : text) : option (bytes * text) :=
  let '(head, dotted, s) := read_groups 8 0 s in
  if (length head =? 16)%nat then Some (head, s)
  else if dotted : bool then None
  else s ← given 58 s; s ← given 58 s;
    let '(tail, _, s) := read_groups (8 - (length head / 2 + 1)) 0 s in
    Some (head ++ replicate (16 - length head - length tail) x00 ++ tail, s).
Definition read_port (s : text) : option (Z * text) := s ← given 58 s; read_number 16 10 None true s.
Definition read_v4 (s : text) : option (SocketAddr * text) :=
  '(b, s) ← read_ipv4 s; '(p, s) ← read_port s; Some ({| ip := V4 b; port := p |}, s).
Definition skip_scope (s : text) : text :=
  match given 37 s with Some r => match read_number 32 10 None true r with Some (_, r) => r | None => s end | None => s end.
Definition read_v6 (s : text) : option (SocketAddr * text) :=
  s ← given 91 s; '(b, s) ← read_ipv6 s; s ← given 93 (skip_scope s); '(p, s) ← read_port s; Some ({| ip := V6 b; port := p |}, s).
Definition parse_socket_addr (s : text) : option SocketAddr :=
  match (match read_v4 s with Some r => Some r | None => read_v6 s end) with Some (a, []) => Some a | _ => None end.

Example reads_addresses :
  parse_socket_addr (txt "127.0.0.1:4242") = Some {| ip := V4 [x7f; x00; x00; x01]; port := 4242 |} /\
  parse_socket_addr (txt "[::1]:80") = Some {| ip := V6 (replicate 15 x00 ++ [x01]); port := 80 |} /\
  parse_socket_addr (txt "[::ffff:1.2.3.4]:80") = Some {| ip := V6 (replicate 10 x00 ++ [xff; xff; x01; x02; x03; x04]); port := 80 |} /\
  parse_socket_addr (txt "[1:2:3:4:5:6:7:8%3]:1") = Some {| ip := V6 (([1; 2; 3; 4; 5; 6; 7; 8] : list Z) ≫= to_be 2); port := 1 |} /\
  parse_socket_addr (txt "127.0.0.01:4242") = None /\ parse_socket_addr (txt "127.0.0.1") = None /\
  parse_socket_addr (txt "127.0.0.1:65536") = None /\ parse_socket_addr (txt "localhost:4242") = None /\
  parse_socket_addr (txt "[1:2:3:4:5:6:7::8]:1") = None.
Proof. vm_compute. done. Qed.

(** ** The round trip *)
Definition show_dotted (b : bytes) : text :=
  match b with a :: r => show_uint (u8 a) ++ (r ≫= fun x => 46 :: show_uint (u8 x)) | [] => [] end.
Definition show_socket_addr (b : bytes) (p : Z) : text := show_dotted b ++ 58 :: show_uint p.
Definition ends_number (s : text) : Prop := match s with [] => True | c :: _ => to_digit 10 c = None end.
Lemma read_digits_app ds s : all_digits ds -> ends_number s -> take_digits 10 (ds ++ s) = (ds, s).
Proof.
  intros H Hs. induction H as [|d ds Hd _ IH]; cbn [app take_digits]; [by destruct s as [|c s]; [|cbn in *; rewrite Hs]|].
  cbn beta in Hd. assert (E : to_digit 10 d = Some (d - 48)).
  { unfold to_digit. rewrite Hd. unfold is_ascii_digit, between in Hd. by rewrite (proj2 (Z.ltb_lt _ _)) by lia. }
  by rewrite E, IH.
Qed.
Lemma no_needless_zero n : 0 <= n -> match show_uint n with 48 :: _ :: _ => False | _ => True end.
Proof.
  intros H. destruct (Z.eq_dec n 0) as [->|Hn]; [done|]. unfold show_uint.
  assert (Hd : forall fuel k c r, 0 < k < 2 ^ (Z.of_nat fuel + 1) -> dec_from fuel k [] = c :: r -> c <> 48).
  { induction fuel as [|fuel IH]; intros k c r Hk.
    - cbn. destruct (Z.ltb_spec k 10); intros [= <- _]; cbn in Hk; try lia. pose proof (Z.mod_small k 10). lia.
    - cbn [dec_from]. destruct (Z.ltb_spec k 10); [intros [= <- _]; pose proof (Z.mod_small k 10); lia|].
      rewrite dec_from_app. destruct (dec_from fuel (k / 10) []) as [|x l] eqn:E.
      { exfalso. assert (0 <= k / 10) by (apply Z.div_pos; lia). pose proof (dec_from_spec fuel (k / 10)) as Hs.
        destruct Hs as (_ & Hne & _); [done| |done]. apply Z.div_lt_upper_bound; [lia|].
        replace (Z.of_nat (S fuel) + 1) with (Z.succ (Z.of_nat fuel + 1)) in Hk by lia. rewrite Z.pow_succ_r in Hk by lia. lia. }
      intros [= <- _]. apply (IH (k / 10) x l); [|done]. split; [apply Z.div_str_pos; lia|].
      apply Z.div_lt_upper_bound; [lia|]. replace (Z.of_nat (S fuel) + 1) with (Z.succ (Z.of_nat fuel + 1)) in Hk by lia.
      rewrite Z.pow_succ_r in Hk by lia. lia. }
  destruct (dec_from _ n []) as [|c r] eqn:E; [done|].
  assert (c <> 48); [|by repeat case_match].
  eapply Hd, E. split; [lia|]. rewrite Z2Nat.id by apply Z.log2_nonneg. rewrite Z.add_1_r. apply Z.log2_spec. lia.
Qed.
Lemma read_shown w max zeros n s : is_u w n -> (forall m, max = Some m -> (length (show_uint n) <= m)%nat) -> ends_number s ->
  read_number w 10 max zeros (show_uint n ++ s) = Some (n, s).
Proof.
  intros Hn Hm Hs. destruct (show_uint_spec n) as (Hv & Hne & Hd); [apply Hn|]. pose proof (no_needless_zero n (proj1 Hn)) as Hz.
  unfold read_number. rewrite read_digits_app by done.
  assert (Em : match max with Some m => (m <? length (show_uint n))%nat | None => false end = false).
  { destruct max as [m|]; [|done]. apply Nat.ltb_ge. by apply Hm. }
  rewrite Em. assert (E : (v ← digits_value 10 (show_uint n); if v <? 2 ^ w then Some (v, s) else None) = Some (n, s)).
  { rewrite Hv. cbn [mbind option_bind]. by rewrite (proj2 (Z.ltb_lt _ _)) by apply Hn. }
  rewrite E. by repeat case_match.
Qed.
Lemma short_octets b : (length (show_uint (u8 b)) <= 3)%nat.
Proof. destruct b; vm_compute; lia. Qed.
Lemma octet_is_u8 b : is_u 8 (u8 b).
Proof. pose proof (u8_range b). split; lia. Qed.
Lemma read_octet i b s : ends_number s ->
  octet_at i ((match i with O => [] | S _ => [46] end) ++ show_uint (u8 b) ++ s) = Some (u8 b, s).
Proof.
  intros Hs. assert (E : read_number 8 10 (Some 3%nat) false (show_uint (u8 b) ++ s) = Some (u8 b, s)).
  { apply read_shown; [apply octet_is_u8|intros m [= <-]; apply short_octets|done]. }
  unfold octet_at, separated. destruct i; cbn [app]; [done|]. unfold given. by rewrite Z.eqb_refl.
Qed.
(** An address and port written with dots is read as itself. *)
Theorem dotted_reads_back (b : bytes) (p : Z) : length b = 4%nat -> is_u 16 p ->
  parse_socket_addr (show_socket_addr b p) = Some {| ip := V4 b; port := p |}.
Proof.
  intros Hb Hp. destruct b as [|b0 [|b1 [|b2 [|b3 [|? ?] ] ] ] ]; try done.
  unfold parse_socket_addr, read_v4, show_socket_addr, show_dotted, read_ipv4. cbn [mbind list_bind].
  repeat (rewrite <- ?app_assoc, <- ?app_comm_cons; cbn [app]).
  pose proof (read_octet 0 b0) as E0. cbn [app] in E0. rewrite E0 by done.
  pose proof (fun k s => read_octet (S k) b1 s) as E1. cbn [app] in E1. cbn [mbind option_bind]. rewrite E1 by done.
  pose proof (fun k s => read_octet (S k) b2 s) as E2. cbn [app] in E2. cbn [mbind option_bind]. rewrite E2 by done.
  pose proof (fun k s => read_octet (S k) b3 s) as E3. cbn [app] in E3. cbn [mbind option_bind]. rewrite E3 by done.
  cbn [mbind option_bind]. unfold read_port, given. rewrite Z.eqb_refl. cbn [mbind option_bind].
  rewrite <- (app_nil_r (show_uint p)), read_shown by done. cbn [mbind option_bind fmap list_fmap].
  by rewrite !byte.of_Z_unsigned.
Qed.
