(* ===== verification/Listener.v ===== *)
(** * Listener: is anything bound where the output is sent (crates/tobii-output/src/listener.rs)

    The two kernel tables of UDP sockets, read line by line, and the answer made of them. What
    the kernel prints for a socket is a specification here ([socket_row]): [kernel_rows_are_read]
    says each row is read as its socket, and [listener_is_found] that the answer over whole
    tables is whether some other program's unconnected socket would get the datagram. *)
From S2P Require Import Prelude Utf8 Text Hex SockAddr.

Inductive Listening := Yes | No | Unknown (why : text).
Definition NOT_LOCAL : text := txt "only sockets on this machine can be seen".
Definition NO_PROC : text := txt "/proc/net/udp could not be read".
(** An address mapped into the larger family as itself. *)
Definition canonical (i : IpAddr) : IpAddr := match i with V6 b => to_canonical (V6 b) | v4 => v4 end.
Definition is_visible_here (i : IpAddr) : bool := is_loopback (canonical i) || is_unspecified (canonical i).
Definition would_receive (bound want : SocketAddr) : bool :=
  if negb (port bound =? port want) then false
  else let b := canonical (ip bound) in let w := canonical (ip want) in is_unspecified b || bool_decide (b = w).

(** A number the kernel printed through a little-endian host. *)
Definition word_at (b : bytes) (i : nat) : option bytes :=
  piece ← utf8_decode (take 8 (drop (i * 8) b)); v ← parse_uint 32 16 piece; Some (to_le 4 v).
Definition parse_ip (addr : text) : option IpAddr :=
  let b := utf8_encode addr in
  if (length b =? 8)%nat then V4 <$> word_at b 0
  else if (length b =? 32)%nat then
    w0 ← word_at b 0; w1 ← word_at b 1; w2 ← word_at b 2; w3 ← word_at b 3; Some (V6 (w0 ++ w1 ++ w2 ++ w3))
  else None.
Definition parse_local (field : text) : option SocketAddr :=
  '(addr, port) ← split_once (Z.eqb 58) field;
  p ← parse_uint 16 16 port;
  i ← parse_ip addr;
  Some {| ip := i; port := p |}.

Record Bound := { local : SocketAddr; connected : bool; inode : Z }.
Definition bound_socket (line : text) : option Bound :=
  let fields := split_whitespace line in
  l ← fields !! 1%nat; local ← parse_local l;
  Some {| local := local;
          connected := match (f ← fields !! 2%nat; parse_local f) with Some peer => negb (port peer =? 0) | None => false end;
          inode := default 0 (f ← fields !! 9%nat; parse_uint 64 10 f) |}.
Definition bound_sockets (t : text) : list Bound := omap bound_socket (lines t).
Definition is_our_sender (s : Bound) (ours : list Z) : bool := is_unspecified (ip (local s)) && existsb (Z.eqb (inode s)) ours.
Definition counts (want : SocketAddr) (ours : list Z) (s : Bound) : bool :=
  negb (connected s) && negb (is_our_sender s ours) && would_receive (local s) want.
Definition scan (udp udp6 : text) (want : SocketAddr) (ours : list Z) : Listening :=
  if existsb (counts want ours) (bound_sockets udp ++ bound_sockets udp6) then Yes else No.

(** The links under [/proc/self/fd]. *)
Definition socket_inode (link : text) : option Z := r ← strip_prefix (txt "socket:[") link; n ← strip_suffix [93] r; parse_uint 64 10 n.
Section Probe.
Context (read_to_string : text -> option text) (fd_links : option (list text)).
Definition own_socket_inodes : list Z := match fd_links with Some links => omap socket_inode links | None => [] end.
Definition look (want : SocketAddr) (ours : list Z) : Listening :=
  if negb (is_visible_here (ip want)) then Unknown NOT_LOCAL
  else match read_to_string (txt "/proc/net/udp"), read_to_string (txt "/proc/net/udp6") with
       | None, None => Unknown NO_PROC
       | udp, udp6 => scan (default [] udp) (default [] udp6) want ours
       end.
Definition probe (want : SocketAddr) : Listening := look want own_socket_inodes.
End Probe.

(** ** What the kernel prints *)
(** [%0nX] *)
Fixpoint hex_pad (n : nat) (v : Z) : text := match n with O => [] | S n => hex_pad n (v / 16) ++ [hex_upper (v mod 16)] end.
Definition words_of (b : bytes) : list Z := (fun i => of_le (take 4 (drop (i * 4) b))) <$> seq 0 (length b / 4).
Definition show_ip (i : IpAddr) : text := words_of (octets i) ≫= hex_pad 8.
Definition show_addr (a : SocketAddr) : text := show_ip (ip a) ++ 58 :: hex_pad 4 (port a).
(** A column, moved to the right by some blanks. *)
Definition padded (c : nat * text) : text := replicate (S c.1) 32 ++ c.2.
(** One socket: the columns nobody reads ([slot], and the state, queues, timer, retransmits,
    owner and timeout), and after the number of the node whatever follows. *)
Record Socket := { bound_to : SocketAddr; peer : SocketAddr; node : Z; slot : nat * text; columns : list (nat * text); gap : nat; rest : text }.
Definition socket_row (s : Socket) : text :=
  padded (slot s) ++ padded (0%nat, show_addr (bound_to s)) ++ padded (0%nat, show_addr (peer s)) ++
  (columns s ≫= padded) ++ padded (gap s, show_uint (node s)) ++ 32 :: rest s.
Definition addr_ok (a : SocketAddr) : Prop := is_u 16 (port a) /\ match ip a with V4 b => length b = 4%nat | V6 b => length b = 16%nat end.
Record socket_ok (s : Socket) : Prop := {
  ok_bound : addr_ok (bound_to s);
  ok_peer : addr_ok (peer s);
  ok_node : is_u 64 (node s);
  ok_words : word (slot s).2 /\ length (columns s) = 6%nat /\ Forall (fun c => word c.2) (columns s);
  ok_line : one_line (rest s) /\ back_ok (Z.eqb 13) (32 :: rest s)
}.
Definition HEADER : text := txt "  sl  local_address rem_address   st tx_queue rx_queue tr tm->when retrnsmt   uid  timeout inode ref pointer drops".
Definition table (sockets : list Socket) : text := (HEADER :: (socket_row <$> sockets)) ≫= newline.
(** What a row says. *)
Definition as_bound (s : Socket) : Bound := {| local := bound_to s; connected := negb (port (peer s) =? 0); inode := node s |}.

Lemma hex_upper_read d : 0 <= d < 16 -> to_digit 16 (hex_upper d) = Some d /\ (is_ascii_digit (hex_upper d) || between 65 70 (hex_upper d)) = true.
Proof.
  intros H. assert (Hd : In d [0; 1; 2; 3; 4; 5; 6; 7; 8; 9; 10; 11; 12; 13; 14; 15]) by (cbn; lia).
  cbn in Hd. destruct_or!; subst; try done.
Qed.
Definition hex_char (c : char) : Prop := (is_ascii_digit c || between 65 70 c) = true.
Lemma hex_pad_spec n v : 0 <= v < 16 ^ Z.of_nat n -> digits_value 16 (hex_pad n v) = Some v /\ length (hex_pad n v) = n /\ Forall hex_char (hex_pad n v).
Proof.
  revert v. induction n as [|n IH]; intros v Hv; [cbn in *; split_and!; [f_equal; lia|done|constructor]|]. cbn [hex_pad].
  rewrite Nat2Z.inj_succ, Z.pow_succ_r in Hv by lia.
  destruct (IH (v / 16)) as (E & El & Hc); [split; [apply Z.div_pos; lia|apply Z.div_lt_upper_bound; lia]|].
  destruct (hex_upper_read (v mod 16)) as [Er Hr]; [apply Z.mod_pos_bound; lia|]. split_and!.
  - rewrite (digits_value_snoc _ _ _ _ _ E Er). f_equal. pose proof (Z.div_mod v 16). lia.
  - rewrite length_app, El. cbn. lia.
  - apply Forall_app. split; [done|by constructor].
Qed.
Lemma hex_pad_parsed w n v : (0 < n)%nat -> 0 <= v < 16 ^ Z.of_nat n -> v < 2 ^ w -> parse_uint w 16 (hex_pad n v) = Some v.
Proof.
  intros Hn Hv Hw. destruct (hex_pad_spec n v Hv) as (E & El & Hc). apply digits_parsed; [by destruct (hex_pad n v); [cbn in El; lia|]| |done|done].
  destruct Hc as [|c l Hc _]; [done|]. cbn. intros [= ->]. done.
Qed.

Lemma hex_char_facts c : hex_char c -> 0 <= c < 128 /\ is_whitespace c = false /\ (58 =? c) = false.
Proof. unfold hex_char, is_ascii_digit, between, is_whitespace, between. lia. Qed.
Lemma encode_hex_chars s : Forall hex_char s -> utf8_encode s = byte.of_Z <$> s.
Proof.
  induction 1 as [|c s Hc _ IH]; [done|]. change (utf8_encode (c :: s)) with (encode_char c ++ utf8_encode s).
  rewrite IH. destruct (hex_char_facts c Hc) as [H _]. unfold encode_char. by rewrite (proj2 (Z.ltb_lt c 0x80)) by lia.
Qed.
Lemma length_encode s : Forall hex_char s -> length (utf8_encode s) = length s.
Proof. intros H. by rewrite encode_hex_chars, length_fmap. Qed.
Lemma hex_scalars s : Forall hex_char s -> scalars s.
Proof. intros H. eapply Forall_impl; [exact H|]. intros c Hc. destruct (hex_char_facts c Hc) as [Hr _]. unfold is_char, between. lia. Qed.
Lemma word_at_shown a r i w : Forall hex_char a -> length a = (i * 8)%nat -> length w = 4%nat ->
  word_at (utf8_encode (a ++ hex_pad 8 (of_le w) ++ r)) i = Some w.
Proof.
  intros Ha Hl Hw. assert (Hv : is_u 32 (of_le w)) by (pose proof (of_le_range w) as H; unfold zlen in H; rewrite Hw in H; exact H).
  destruct (hex_pad_spec 8 (of_le w)) as (_ & Hpl & Hpc); [exact Hv|].
  unfold word_at. unfold utf8_encode at 1. rewrite !bind_app. fold (utf8_encode a) (utf8_encode (hex_pad 8 (of_le w))).
  rewrite drop_app_length' by (rewrite length_encode by done; lia). rewrite take_app_length' by (rewrite length_encode by done; lia).
  rewrite decode_encode by (by apply hex_scalars). cbn [mbind option_bind].
  rewrite hex_pad_parsed by (lia || apply Hv). cbn [mbind option_bind]. rewrite <- Hw. by rewrite to_le_of_le.
Qed.

Lemma pads_hex ws : Forall (fun w => 0 <= w < 2 ^ 32) ws -> Forall hex_char (ws ≫= hex_pad 8) /\ length (ws ≫= hex_pad 8) = (length ws * 8)%nat.
Proof.
  induction 1 as [|w ws Hw _ [IHc IHl]]; [by split; [constructor|]|]. destruct (hex_pad_spec 8 w Hw) as (_ & Hl & Hc).
  cbn [mbind list_bind]. split; [by apply Forall_app|]. rewrite length_app, Hl, IHl. done.
Qed.
Lemma words_range b : Forall (fun w => 0 <= w < 2 ^ 32) (words_of b).
Proof.
  unfold words_of. apply Forall_fmap, List.Forall_forall. intros i _. cbn. pose proof (of_le_range (take 4 (drop (i * 4) b))) as [H1 H2].
  split; [done|]. eapply Z.lt_le_trans; [exact H2|]. apply Z.pow_le_mono_r; [done|]. unfold zlen. rewrite length_take. lia.
Qed.
Lemma ip_shown i : Forall hex_char (show_ip i) /\ length (show_ip i) = (length (octets i) / 4 * 8)%nat.
Proof. unfold show_ip. destruct (pads_hex _ (words_range (octets i))) as [Hc Hl]. split; [done|]. rewrite Hl. unfold words_of. by rewrite length_fmap, length_seq. Qed.
Lemma of_le_words ws : Forall (fun w => length w = 4%nat) ws -> Forall (fun w => 0 <= w < 2 ^ 32) (of_le <$> ws).
Proof.
  intros H. apply Forall_fmap. eapply Forall_impl; [exact H|]. intros w Hw. cbn beta in Hw. pose proof (of_le_range w) as Hr.
  unfold zlen in Hr. rewrite Hw in Hr. exact Hr.
Qed.
Lemma word_at_nth ws i w : Forall (fun w => length w = 4%nat) ws -> ws !! i = Some w ->
  word_at (utf8_encode ((of_le <$> ws) ≫= hex_pad 8)) i = Some w.
Proof.
  intros H Hi. assert (Hl := lookup_lt_Some _ _ _ Hi). rewrite <- (take_drop_middle ws i w Hi) in H |- *. apply Forall_app in H as [Ha H].
  apply Forall_cons in H as [Hw _]. destruct (pads_hex _ (of_le_words _ Ha)) as [Hc Hn].
  rewrite fmap_app, bind_app. apply word_at_shown; [done| |done]. rewrite Hn, length_fmap, length_take. lia.
Qed.
Lemma parse_ip_shown a : addr_ok a -> parse_ip (show_ip (ip a)) = Some (ip a).
Proof.
  intros [_ H]. destruct (ip_shown (ip a)) as [Hc Hl]. unfold parse_ip. rewrite (length_encode _ Hc), Hl. clear Hc Hl. unfold show_ip.
  destruct (ip a) as [b|b]; cbn [octets] in *; rewrite H; cbn [Nat.div Nat.divmod Nat.mul Nat.add fst Nat.eqb Nat.sub].
  - assert (E : words_of b = of_le <$> [b]) by (by destruct b as [|? [|? [|? [|? [|? ?] ] ] ] ]). rewrite E. clear E.
    by rewrite (word_at_nth [b] 0 b) by (done || by repeat constructor).
  - do 17 (destruct b as [|? b]; try done). clear H.
    match goal with |- context [words_of [?a0; ?a1; ?a2; ?a3; ?b0; ?b1; ?b2; ?b3; ?c0; ?c1; ?c2; ?c3; ?d0; ?d1; ?d2; ?d3] ] =>
      change (words_of [a0; a1; a2; a3; b0; b1; b2; b3; c0; c1; c2; c3; d0; d1; d2; d3]) with (of_le <$> [ [a0; a1; a2; a3]; [b0; b1; b2; b3]; [c0; c1; c2; c3]; [d0; d1; d2; d3] ]);
      assert (Hw := fun i w => word_at_nth [ [a0; a1; a2; a3]; [b0; b1; b2; b3]; [c0; c1; c2; c3]; [d0; d1; d2; d3] ] i w ltac:(by repeat constructor))
    end.
    by rewrite (Hw 0%nat _ eq_refl), (Hw 1%nat _ eq_refl), (Hw 2%nat _ eq_refl), (Hw 3%nat _ eq_refl).
Qed.
Lemma addr_shown a : addr_ok a -> parse_local (show_addr a) = Some a /\ word (show_addr a).
Proof.
  intros H. destruct (ip_shown (ip a)) as [Hc _]. pose proof (parse_ip_shown a H) as Ei. destruct H as [Hp _].
  destruct (hex_pad_spec 4 (port a) Hp) as (_ & Hl & Hpc). unfold parse_local, show_addr. split.
  - rewrite split_once_app; [|eapply Forall_impl; [exact Hc|]; intros c H; apply (hex_char_facts c H)|done].
    cbn [mbind option_bind]. rewrite hex_pad_parsed by (lia || apply Hp). cbn [mbind option_bind]. rewrite Ei. by destruct a.
  - split; [by destruct (show_ip (ip a))|]. apply Forall_app. split; [|apply Forall_cons; split; [done|] ];
      (eapply Forall_impl; [eassumption|]; intros c H; apply (hex_char_facts c H)).
Qed.

(** ** A row *)
Lemma split_padded c x s : word c.2 -> is_whitespace x = true -> split_whitespace (padded c ++ x :: s) = c.2 :: split_whitespace (x :: s).
Proof.
  intros Hw Hx. unfold padded. rewrite <- app_assoc. induction (S c.1) as [|n IH].
  - cbn [replicate app]. by rewrite split_whitespace_word, (split_whitespace_blank x) by done.
  - cbn [replicate app]. by rewrite split_whitespace_blank.
Qed.
Lemma padded_front c s : exists t, padded c ++ s = 32 :: t.
Proof. by exists (replicate c.1 32 ++ c.2 ++ s); unfold padded; rewrite <- app_assoc. Qed.
Lemma split_columns cs x s : Forall (fun c : nat * text => word c.2) cs -> is_whitespace x = true ->
  split_whitespace ((cs ≫= padded) ++ x :: s) = (snd <$> cs) ++ split_whitespace (x :: s).
Proof.
  intros Hc Hx. induction Hc as [|c cs Hw Hc IH]; [done|]. cbn [mbind list_bind fmap list_fmap app]. rewrite <- app_assoc.
  rewrite <- IH. destruct cs as [|d cs]; [by apply split_padded|].
  change ((d :: cs) ≫= padded) with (padded d ++ (cs ≫= padded)). rewrite <- app_assoc.
  destruct (padded_front d ((cs ≫= padded) ++ x :: s)) as [t Et]. rewrite Et. by apply split_padded.
Qed.
Lemma show_uint_word n : 0 <= n -> word (show_uint n).
Proof.
  intros H. destruct (show_uint_spec n H) as (_ & Hn & Hd). split; [done|]. eapply Forall_impl; [exact Hd|].
  intros c Hc. cbn beta in Hc. unfold is_ascii_digit, between in Hc. unfold is_whitespace, between. lia.
Qed.
Definition row_columns (s : Socket) : list (nat * text) :=
  slot s :: (0%nat, show_addr (bound_to s)) :: (0%nat, show_addr (peer s)) :: columns s ++ [(gap s, show_uint (node s))].
Lemma row_is_columns s : socket_row s = (row_columns s ≫= padded) ++ 32 :: rest s.
Proof.
  unfold socket_row, row_columns. cbn [mbind list_bind]. change (list_bind ?A) with (mbind (M := list)). rewrite bind_app. cbn [mbind list_bind]. 
  rewrite app_nil_r. by rewrite <- !app_assoc.
Qed.
Lemma row_words s : socket_ok s -> Forall (fun c => word c.2) (row_columns s).
Proof.
  intros [Hb Hp Hn (Hs & _ & Hc) _]. apply addr_shown in Hb as [_ Hb]. apply addr_shown in Hp as [_ Hp].
  unfold row_columns. repeat (apply Forall_cons; split; [done|]). apply Forall_app. split; [done|]. constructor; [|done]. apply show_uint_word, Hn.
Qed.
Lemma row_fields s : socket_ok s -> exists more, split_whitespace (socket_row s) =
  ((slot s).2 :: show_addr (bound_to s) :: show_addr (peer s) :: (snd <$> columns s)) ++ show_uint (node s) :: more.
Proof.
  intros H. exists (split_whitespace (32 :: rest s)). rewrite row_is_columns, split_columns by (done || by apply row_words).
  unfold row_columns. rewrite !fmap_cons, fmap_app, <- !app_comm_cons, <- app_assoc. done.
Qed.
(** A row of the kernel's table is read as its socket: the address and port it is bound to,
    whether it has a peer, and its node. *)
Theorem kernel_rows_are_read (s : Socket) : socket_ok s -> bound_socket (socket_row s) = Some (as_bound s).
Proof.
  intros H. destruct (row_fields s H) as [more E]. destruct H as [Hb Hp Hn (_ & Hl & _) _]. unfold bound_socket. rewrite E.
  assert (Hk : (((slot s).2 :: show_addr (bound_to s) :: show_addr (peer s) :: (snd <$> columns s)) ++ show_uint (node s) :: more) !! 9%nat = Some (show_uint (node s))).
  { rewrite lookup_app_r; cbn [length]; rewrite length_fmap, Hl; done. }
  rewrite Hk. cbn [lookup list_lookup app mbind option_bind].
  rewrite (proj1 (addr_shown _ Hb)), (proj1 (addr_shown _ Hp)). cbn [mbind option_bind]. by rewrite parse_show_uint by done.
Qed.
Lemma words_one_line cs : Forall (fun c : nat * text => word c.2) cs -> one_line (cs ≫= padded).
Proof.
  induction 1 as [|c cs [_ Hw] _ IH]; [constructor|]. change ((c :: cs) ≫= padded) with (padded c ++ (cs ≫= padded)).
  apply one_line_app. split; [|done]. apply one_line_app. split; [by apply Forall_replicate|].
  eapply Forall_impl; [exact Hw|]. intros x Hx ->. done.
Qed.
Lemma row_line s : socket_ok s -> one_line (socket_row s) /\ back_ok (Z.eqb 13) (socket_row s).
Proof.
  intros H. rewrite row_is_columns. split.
  - apply one_line_app. split; [by apply words_one_line, row_words|]. apply Forall_cons. split; [done|]. apply H.
  - apply back_ok_app; [done|]. apply H.
Qed.
Lemma table_read ss : Forall socket_ok ss -> bound_sockets (table ss) = as_bound <$> ss.
Proof.
  intros H. unfold bound_sockets, table. rewrite lines_newlines.
  - assert (E : bound_socket HEADER = None) by (vm_compute; reflexivity). cbn [omap list_omap]. rewrite E.
    induction H as [|s ss Hs _ IH]; [done|]. cbn [fmap list_fmap omap list_omap]. rewrite kernel_rows_are_read by done. by f_equal.
  - apply Forall_cons. split; [by apply one_line_dec|]. apply Forall_fmap. eapply Forall_impl; [exact H|]. intros s Hs. by apply row_line.
  - apply Forall_cons. split; [vm_compute; reflexivity|]. apply Forall_fmap. eapply Forall_impl; [exact H|]. intros s Hs. by apply row_line.
Qed.

(** ** The answer *)
Definition socket_link (n : Z) : text := txt "socket:[" ++ show_uint n ++ [93].
(** A link of an open file: of a socket, with its node, or of something else. *)
Definition fd_link (l : text) : Prop := (exists n, is_u 64 n /\ l = socket_link n) \/ strip_prefix (txt "socket:[") l = None.
Lemma own_inodes links n : Forall fd_link links -> is_u 64 n -> In n (own_socket_inodes (Some links)) <-> In (socket_link n) links.
Proof.
  intros Hl Hn. assert (E : forall m, is_u 64 m -> socket_inode (socket_link m) = Some m).
  { intros m Hm. unfold socket_inode, socket_link. rewrite strip_prefix_app. cbn [mbind option_bind]. rewrite strip_suffix_app.
    cbn [mbind option_bind]. by rewrite parse_show_uint. }
  cbn [own_socket_inodes]. rewrite <- !list_elem_of_In, list_elem_of_omap. split.
  - intros (l & Hin & Hs). rewrite Forall_forall in Hl. destruct (Hl l Hin) as [(m & Hm & ->)|Hno].
    + rewrite E in Hs by done. by injection Hs as ->.
    + unfold socket_inode in Hs. by rewrite Hno in Hs.
  - intros Hin. exists (socket_link n). split; [done|]. by apply E.
Qed.
(** That a datagram to [want] reaches this socket, and that it is not one this program sends from:
    no peer, not a wildcard bind of our own, the port, and the address or a wildcard. *)
Record hears (links : list text) (want : SocketAddr) (s : Socket) : Prop := {
  no_peer : port (peer s) = 0;
  not_ours : ~ (is_unspecified (ip (bound_to s)) = true /\ In (socket_link (node s)) links);
  same_port : port (bound_to s) = port want;
  same_host : is_unspecified (canonical (ip (bound_to s))) = true \/ canonical (ip (bound_to s)) = canonical (ip want)
}.
Lemma counts_hears links want s : Forall fd_link links -> socket_ok s ->
  counts want (own_socket_inodes (Some links)) (as_bound s) = true <-> hears links want s.
Proof.
  intros Hl Hs. pose proof (own_inodes links (node s) Hl (ok_node s Hs)) as Hi.
  assert (Ho : is_our_sender (as_bound s) (own_socket_inodes (Some links)) = true <->
    is_unspecified (ip (bound_to s)) = true /\ In (socket_link (node s)) links).
  { unfold is_our_sender. cbn [local inode as_bound]. rewrite andb_true_iff, <- Hi, existsb_exists. split; [|by intros [? ?]; eauto using Z.eqb_refl].
    intros [? (m & Hm & E)]. apply Z.eqb_eq in E. by subst. }
  unfold counts, would_receive. cbn [connected local as_bound]. rewrite negb_involutive, !andb_true_iff, Z.eqb_eq, negb_true_iff, <- not_true_iff_false, Ho.
  split.
  - intros [[Hp Hn] Hw]. destruct (Z.eqb_spec (port (bound_to s)) (port want)) as [E|]; [|done]. split; [done..|].
    cbn [negb] in Hw. by rewrite orb_true_iff, bool_decide_eq_true in Hw.
  - intros [Hp Hn E Hh]. split; [done|]. rewrite (proj2 (Z.eqb_eq _ _) E). cbn [negb]. by rewrite orb_true_iff, bool_decide_eq_true.
Qed.

(** Asked about an address on this machine, with the kernel's tables readable, the port watch
    answers Yes exactly when some socket of either table has no peer, is bound to that port at
    that address or a wildcard, and is not a wildcard socket of this process; it answers No
    exactly when there is none. *)
Theorem listener_is_found (read : text -> option text) (links : list text) (a b : list Socket) (want : SocketAddr) :
  read (txt "/proc/net/udp") = Some (table a) -> read (txt "/proc/net/udp6") = Some (table b) ->
  Forall socket_ok (a ++ b) -> Forall fd_link links -> is_visible_here (ip want) = true ->
  (probe read (Some links) want = Yes <-> Exists (hears links want) (a ++ b)) /\
  (probe read (Some links) want = No <-> ~ Exists (hears links want) (a ++ b)).
Proof.
  intros Ha Hb Hs Hl Hv. apply Forall_app in Hs as Hab. destruct Hab as [Hsa Hsb].
  unfold probe, look. rewrite Hv, Ha, Hb. cbn [negb from_option id]. unfold scan. rewrite !table_read, <- fmap_app by done.
  assert (E : existsb (counts want (own_socket_inodes (Some links))) (as_bound <$> a ++ b) = true <-> Exists (hears links want) (a ++ b)).
  { rewrite existsb_exists, List.Exists_exists. split.
    - intros (k & Hk & Hc). apply in_map_iff in Hk as (s & <- & Hin). exists s. split; [done|].
      apply counts_hears; [done| |done]. by apply (proj1 (List.Forall_forall _ _) Hs).
    - intros (s & Hin & Hh). exists (as_bound s). split; [by apply in_map|]. apply counts_hears; [done| |done].
      by apply (proj1 (List.Forall_forall _ _) Hs). }
  rewrite <- E. destruct (existsb _ _); split; split; done.
Qed.
(** A capture: the resolver's socket, the listener, and one of ours on a wildcard. *)
Definition ours_wild : Socket :=
  {| bound_to := {| ip := V4 [x00; x00; x00; x00]; port := 4444 |}; peer := {| ip := V4 [x00; x00; x00; x00]; port := 0 |}; node := 45015;
     slot := (0%nat, txt "14912:"); gap := 0%nat; rest := txt "2 0000000000000000 0";
     columns := [(0%nat, txt "07"); (0%nat, txt "00000000:00000000"); (0%nat, txt "00:00000000"); (0%nat, txt "00000000"); (2%nat, txt "1000"); (7%nat, txt "0")] |}.
Definition opentrack : Socket :=
  {| bound_to := {| ip := V4 [x7f; x00; x00; x01]; port := 4242 |}; peer := peer ours_wild; node := 45013;
     slot := (0%nat, txt "14710:"); gap := 0%nat; rest := rest ours_wild; columns := columns ours_wild |}.
Lemma rows_ok : Forall socket_ok [ours_wild; opentrack].
Proof.
  repeat apply Forall_cons_2; [..|constructor]; split; try done.
  all: repeat (split || apply Forall_cons_2 || apply Forall_nil_2); try done.
Qed.
Example listener_is_found_witness :
  let read p := if text_eqb p (txt "/proc/net/udp") then Some (table [ours_wild; opentrack]) else Some (table []) in
  probe read (Some [socket_link 45015]) {| ip := V4 [x7f; x00; x00; x01]; port := 4242 |} = Yes /\
  probe read (Some [socket_link 45015]) {| ip := V4 [x7f; x00; x00; x01]; port := 4444 |} = No.
Proof.
  set (ws := [ours_wild; opentrack]). assert (Hl : Forall fd_link [socket_link 45015]) by (constructor; [left; exists 45015; split; [split; lia|done]|constructor]).
  split.
  - apply (listener_is_found _ _ ws []); [vm_compute; reflexivity|vm_compute; reflexivity|exact rows_ok|exact Hl|reflexivity|].
    right. left. split; [reflexivity|by intros []|reflexivity|by right].
  - apply (listener_is_found _ _ ws []); [vm_compute; reflexivity|vm_compute; reflexivity|exact rows_ok|exact Hl|reflexivity|].
    intros H. apply Exists_cons in H as [H|H]; [apply (not_ours _ _ _ H); split; [reflexivity|by left]|].
    apply Exists_cons in H as [H|H]; [by destruct H|by inversion H].
Defined.
