(* ===== verification/HubDemand.v ===== *)
(** * HubDemand: who wants the tracker (tobii-gtk/src/device.rs and outputs.rs)

    [Demand] counts the reasons to keep the tracker running, and everything that wants it holds a
    guard: a window of the hub, a client of the socket ([Holds]), a program bound where the output
    is sent ([PortWatch]), and the two standing claims of the settings ([latch]). An operation
    is the list of what it does to the count, since each is a call under the lock of its own and
    those of other threads come in between.

    [demand_counts_the_guards] says the count is that of the guards alive through every
    interleaving of the three threads, and [wanted_throughout] that the tracker is wanted without
    a moment's gap while a client's subscriptions are changed. *)
From stdpp Require Import gmap gmultiset sorting.
From S2P Require Import Prelude IpcCodec Text Order SockAddr Listener Games.

(** ** The count *)
Abbreviation Demand := (gmap text nat).
Definition hold (r : text) (d : Demand) : Demand := <[r := S (default 0%nat (d !! r))]> d.
(** [DemandGuard::drop] *)
Definition drop_guard (r : text) (d : Demand) : Demand :=
  match d !! r with Some n => if (n - 1 =? 0)%nat then delete r d else <[r := (n - 1)%nat]> d | None => d end.
Definition active (d : Demand) : bool := negb (bool_decide (d = ∅)).
(** In the order of the map: by the text. *)
Definition reasons (d : Demand) : list text := sort_by (not_after text_cmp) (map_to_list d).*1.

Definition EXCLUSIVE : list text := [txt "calibration"; txt "display setup"].
Definition JOYSTICK_REASON : text := txt "the virtual joystick".
Definition KEEP_AWAKE_REASON : text := txt "standby turned off in the settings".
Definition LISTENER_REASON : text := txt "a program listening on the opentrack port".
Definition wants_exclusive (rs : list text) : bool := existsb (fun r => existsb (text_eqb r) EXCLUSIVE) rs.
Definition busy_with (rs : list text) : text :=
  txt "the hub is busy with " ++ join (txt " and ") rs ++ txt " — try again when it has finished".

(** What is done to the count, one call at a time. *)
Inductive claim := Hold (r : text) | Drop (r : text).
Definition on_demand (d : Demand) (e : claim) : Demand := match e with Hold r => hold r d | Drop r => drop_guard r d end.
Definition let_go (slot : option text) : list claim := match slot with Some r => [Drop r] | None => [] end.

(** ** The standing claims of the settings *)
Definition latch (slot : option text) (want : bool) (reason : text) : list claim * option text :=
  if want then match slot with Some r => ([], Some r) | None => ([Hold reason], Some reason) end
  else (let_go slot, None).
Definition wants_joystick (cfg : OutputConfig) : bool := Games.enabled cfg && joystick cfg.
Definition wants_joystick_wake (cfg : OutputConfig) (have_device : bool) : bool :=
  have_device && wake_for_joystick cfg && wants_joystick cfg.

(** ** The clients of the socket *)
Definition reason_for (bits : Z) : option text :=
  if negb (Z.land bits IpcCodec.subs.POSE =? 0) then Some (txt "head tracking for another program")
  else if negb (Z.land bits IpcCodec.subs.GAZE =? 0) then Some (txt "another program watching your gaze")
  else if negb (Z.land bits IpcCodec.subs.CAMERA =? 0) then Some (txt "another program watching the eye camera")
  else None.
(** The guards held for clients, by client. *)
Abbreviation Holds := (gmap Z text).
(** Taken before the old one is let go. *)
Definition hello (id bits : Z) (held : Holds) : list claim * Holds :=
  match reason_for bits with
  | Some reason => (Hold reason :: let_go (held !! id), <[id := reason]> held)
  | None => (let_go (held !! id), delete id held)
  end.
Definition is_live (live : list Z) (e : Z * text) : bool := existsb (Z.eqb e.1) live.
Definition reap (live : list Z) (held : Holds) : list claim * Holds :=
  (Drop <$> (filter (fun e => ~ is_live live e = true) (map_to_list held)).*2,
   filter (fun e => is_live live e = true) held).

(** ** The port watch *)
Definition LISTENER_POLL : Z := 1000000000.
Definition watch_target (cfg : OutputConfig) : option SocketAddr :=
  if negb (Games.enabled cfg) || negb (wake_for_opentrack cfg) then None
  else a ← opentrack cfg; parse_socket_addr a.
Record PortWatch := { w_held : option text; last_looked : option Z }.
Definition not_due (period : Z) (last : option Z) (now : Z) : bool :=
  match last with Some t => Z.max 0 (now - t) <? period | None => false end.
(** [settings] and [look] are what reading them gives; the settings are handed on. *)
Definition watch_poll (now : Z) (settings : OutputConfig) (look : SocketAddr -> Listening) (w : PortWatch)
    : list claim * PortWatch * option OutputConfig :=
  if not_due LISTENER_POLL (last_looked w) now then ([], w, None)
  else
    let '(evs, held) :=
      match watch_target settings with
      | None => (let_go (w_held w), None)
      | Some addr => latch (w_held w) (match look addr with Yes => true | _ => false end) LISTENER_REASON
      end in
    (evs, {| w_held := held; last_looked := Some now |}, Some settings).

(** ** The three threads *)

(** What a thread of the hub does to the count: the windows take and drop guards, the socket
    thread serves clients and watches the port, the device thread follows the settings. *)
Inductive ui_op := Take (r : text) | Leave (r : text).
Inductive socket_op :=
| Hello (id bits : Z)
| Reap (live : list Z)
| Watch (now : Z) (settings : OutputConfig) (look : SocketAddr -> Listening).
Definition device_claims (cfg : OutputConfig) (have_device : bool) (wake awake : option text)
    : list claim * (option text * option text) :=
  let '(e1, wake) := latch wake (wants_joystick_wake cfg have_device) JOYSTICK_REASON in
  let '(e2, awake) := latch awake (keep_awake cfg) KEEP_AWAKE_REASON in
  (e1 ++ e2, (wake, awake)).
Record Socket := { holds : Holds; watch : PortWatch }.
Definition serve (o : socket_op) (s : Socket) : list claim * Socket :=
  match o with
  | Hello id bits => let '(es, h) := hello id bits (holds s) in (es, {| holds := h; watch := watch s |})
  | Reap live => let '(es, h) := reap live (holds s) in (es, {| holds := h; watch := watch s |})
  | Watch now settings look => let '(es, w, _) := watch_poll now settings look (watch s) in (es, {| holds := holds s; watch := w |})
  end.
(** A thread: what it holds once it is done with what it is doing, and the calls left of that. *)
Record Hub := {
  demand : Demand;
  windows : gmultiset text;
  socket : Socket; socket_todo : list claim;
  claims : option text * option text; device_todo : list claim
}.
Definition hub0 : Hub :=
  {| demand := ∅; windows := ∅; socket := {| holds := ∅; watch := {| w_held := None; last_looked := None |} |}; socket_todo := [];
     claims := (None, None); device_todo := [] |}.
Inductive hub_step : Hub -> Hub -> Prop :=
| ui_takes r h : hub_step h {h with demand := hold r (demand h); windows := windows h ⊎ {[+ r +]} }
| ui_leaves r h : r ∈ windows h -> hub_step h {h with demand := drop_guard r (demand h); windows := windows h ∖ {[+ r +]} }
| socket_begins o es s h : socket_todo h = [] -> serve o (socket h) = (es, s) -> hub_step h {h with socket := s; socket_todo := es}
| socket_calls e es h : socket_todo h = e :: es -> hub_step h {h with demand := on_demand (demand h) e; socket_todo := es}
| device_begins cfg have es cl h : device_todo h = [] -> device_claims cfg have (claims h).1 (claims h).2 = (es, cl) ->
    hub_step h {h with claims := cl; device_todo := es}
| device_calls e es h : device_todo h = e :: es -> hub_step h {h with demand := on_demand (demand h) e; device_todo := es}.

(** ** The guards alive *)
Abbreviation guards := (gmultiset text).
Definition slot_guards (o : option text) : guards := match o with Some r => {[+ r +]} | None => ∅ end.
Definition hold_guards (h : Holds) : guards := list_to_set_disj (map_to_list h).*2.
Definition socket_guards (s : Socket) : guards := hold_guards (holds s) ⊎ slot_guards (w_held (watch s)).
Definition claim_guards (c : option text * option text) : guards := slot_guards c.1 ⊎ slot_guards c.2.
Definition after (g : guards) (e : claim) : guards := match e with Hold r => g ⊎ {[+ r +]} | Drop r => g ∖ {[+ r +]} end.
(** A guard is dropped only by who has it. *)
Fixpoint legal (g : guards) (es : list claim) : Prop :=
  match es with [] => True | e :: es => match e with Hold _ => True | Drop r => r ∈ g end /\ legal (after g e) es end.
(** The count says how often each reason is held, and knows no reason that is not. *)
Definition counts_guards (d : Demand) (g : guards) : Prop :=
  forall r, d !! r = match multiplicity r g with O => None | S n => Some (S n) end.

Lemma hold_counts r d g : counts_guards d g -> counts_guards (hold r d) (g ⊎ {[+ r +]}).
Proof.
  intros H x. specialize (H x) as Hx. specialize (H r). unfold hold. rewrite multiplicity_disj_union, multiplicity_singleton.
  destruct (base.decide (x = r)) as [->|Hn].
  - rewrite lookup_insert_eq, H. destruct (multiplicity r g); cbn; [done|by rewrite Nat.add_1_r].
  - by rewrite lookup_insert_ne, Nat.add_0_r.
Qed.
Lemma drop_counts r d g : counts_guards d g -> r ∈ g -> counts_guards (drop_guard r d) (g ∖ {[+ r +]}).
Proof.
  intros H Hr x. specialize (H x) as Hx. specialize (H r). unfold drop_guard. rewrite elem_of_multiplicity in Hr.
  rewrite multiplicity_difference, multiplicity_singleton.
  destruct (multiplicity r g) as [|n] eqn:E; [lia|]. rewrite H. destruct (base.decide (x = r)) as [->|Hn].
  - rewrite E. destruct n; cbn; [by rewrite lookup_delete_eq|]. by rewrite lookup_insert_eq.
  - rewrite Nat.sub_0_r. by destruct (Nat.eqb_spec (S n - 1) 0); [rewrite lookup_delete_ne|rewrite lookup_insert_ne].
Qed.
Lemma claim_counts e d g : counts_guards d g -> legal g [e] -> counts_guards (on_demand d e) (after g e).
Proof. intros H [Hl _]. destruct e; cbn in *; [by apply hold_counts|by apply drop_counts]. Qed.
Lemma counts_active d g : counts_guards d g -> active d = true <-> g <> ∅.
Proof.
  intros H. unfold active. rewrite negb_true_iff, bool_decide_eq_false. split; intros Hn E; apply Hn.
  - apply map_eq. intros r. rewrite H, E, multiplicity_empty. by rewrite lookup_empty.
  - apply gmultiset_eq. intros r. rewrite multiplicity_empty. specialize (H r). rewrite E, lookup_empty in H. by destruct (multiplicity r g).
Qed.
Lemma counts_reasons d g r : counts_guards d g -> r ∈ reasons d <-> r ∈ g.
Proof.
  intros H. unfold reasons. rewrite sort_by_perm, elem_of_multiplicity. specialize (H r). split.
  - intros ([x n] & E & Hin%elem_of_map_to_list)%list_elem_of_fmap. cbn in *. subst x. rewrite H in Hin. destruct (multiplicity r g); [done|lia].
  - intros Hp. destruct (multiplicity r g) as [|n] eqn:E; [lia|]. apply list_elem_of_fmap. exists (r, S n). split; [done|]. by apply elem_of_map_to_list.
Qed.

(** ** What each operation leaves is what it says *)
Lemma legal_app g a b : legal g (a ++ b) <-> legal g a /\ legal (foldl after g a) b.
Proof. revert g. induction a as [|e a IH]; intros g; cbn; [tauto|]. rewrite IH. tauto. Qed.
Lemma legal_more g k es : legal g es -> legal (g ⊎ k) es /\ foldl after (g ⊎ k) es = foldl after g es ⊎ k.
Proof.
  revert g. induction es as [|e es IH]; intros g; [done|]. cbn. intros [He Hl]. destruct (IH _ Hl) as [H1 H2]. clear IH.
  assert (E : after (g ⊎ k) e = after g e ⊎ k) by (destruct e; cbn in *; multiset_solver).
  rewrite E. split; [|done]. split; [destruct e; [done|multiset_solver]|done].
Qed.
Lemma drop_own r : r ∈ ({[+ r +]} : guards) /\ ({[+ r +]} : guards) ∖ {[+ r +]} = ∅.
Proof. split; multiset_solver. Qed.
Lemma let_go_spec slot : legal (slot_guards slot) (let_go slot) /\ foldl after (slot_guards slot) (let_go slot) = ∅.
Proof. destruct slot as [r|]; [|done]. cbn. destruct (drop_own r) as [H1 H2]. done. Qed.
Lemma latch_spec slot want reason es slot' : latch slot want reason = (es, slot') ->
  legal (slot_guards slot) es /\ foldl after (slot_guards slot) es = slot_guards slot'.
Proof.
  unfold latch. destruct want; [|intros [= <- <-]; apply let_go_spec].
  destruct slot; intros [= <- <-]; [done|]. split; [done|]. cbn [foldl after slot_guards]. multiset_solver.
Qed.
Lemma hold_guards_insert id r h : h !! id = None -> hold_guards (<[id := r]> h) = {[+ r +]} ⊎ hold_guards h.
Proof. intros H. unfold hold_guards. rewrite map_to_list_insert by done. cbn. done. Qed.
Lemma hold_guards_delete id h : hold_guards h = slot_guards (h !! id) ⊎ hold_guards (delete id h).
Proof.
  destruct (h !! id) as [r|] eqn:E; cbn [slot_guards]; [|rewrite delete_id by done; multiset_solver].
  rewrite <- (insert_delete_id h id r E) at 1. apply hold_guards_insert. by rewrite lookup_delete_eq.
Qed.
Lemma legal_drops l g : list_to_set_disj l ⊆ g -> legal g (Drop <$> l) /\ foldl after g (Drop <$> l) = g ∖ list_to_set_disj l.
Proof.
  revert g. induction l as [|r l IH]; intros g H; cbn [fmap list_fmap foldl legal].
  - split; [done|]. rewrite list_to_set_disj_nil. multiset_solver.
  - rewrite list_to_set_disj_cons in *. destruct (IH (g ∖ {[+ r +]})) as [H1 H2]; clear IH; [multiset_solver|].
    split; [split; [multiset_solver|exact H1]|]. cbn [after]. rewrite H2. multiset_solver.
Qed.
Lemma hello_spec id bits h es h' : hello id bits h = (es, h') -> legal (hold_guards h) es /\ foldl after (hold_guards h) es = hold_guards h'.
Proof.
  unfold hello. rewrite (hold_guards_delete id h). destruct (let_go_spec (h !! id)) as [H1 H2].
  destruct (reason_for bits) as [r|]; intros [= <- <-].
  - cbn [legal foldl after]. rewrite <- (insert_delete_eq h id r), hold_guards_insert by (by rewrite lookup_delete_eq).
    destruct (legal_more (slot_guards (h !! id)) (hold_guards (delete id h) ⊎ {[+ r +]}) _ H1) as [H3 H4].
    rewrite <- (assoc_L (⊎)). rewrite H4, H2. split; [by split|multiset_solver].
  - destruct (legal_more (slot_guards (h !! id)) (hold_guards (delete id h)) _ H1) as [H3 H4]. rewrite H4, H2. split; [done|multiset_solver].
Qed.
Lemma filter_map_to_list (P : Z * text -> Prop) `{!forall x, Decision (P x)} (h : Holds) : map_to_list (filter P h) ≡ₚ filter P (map_to_list h).
Proof.
  apply NoDup_Permutation; [apply NoDup_map_to_list|apply NoDup_filter, NoDup_map_to_list|]. intros [i r].
  rewrite list_elem_of_filter, !elem_of_map_to_list, map_lookup_filter_Some. tauto.
Qed.
Lemma reap_spec live h es h' : reap live h = (es, h') -> legal (hold_guards h) es /\ foldl after (hold_guards h) es = hold_guards h'.
Proof.
  unfold reap. intros [= <- <-]. set (gone := filter (fun e => ~ is_live live e = true) (map_to_list h)).
  assert (E : hold_guards h = hold_guards (filter (fun e => is_live live e = true) h) ⊎ list_to_set_disj gone.*2).
  { unfold hold_guards. rewrite <- list_to_set_disj_app, <- fmap_app. apply list_to_set_disj_perm, fmap_Permutation.
    rewrite filter_map_to_list. symmetry. apply filter_app_complement. }
  rewrite E. destruct (legal_drops gone.*2 (hold_guards (filter (fun e => is_live live e = true) h) ⊎ list_to_set_disj gone.*2)) as [H1 H2].
  { multiset_solver. }
  split; [done|]. rewrite H2. multiset_solver.
Qed.
Lemma watch_spec now settings look w es w' cfg : watch_poll now settings look w = (es, w', cfg) ->
  legal (slot_guards (w_held w)) es /\ foldl after (slot_guards (w_held w)) es = slot_guards (w_held w').
Proof.
  unfold watch_poll. destruct (not_due _ _ _); [by intros [= <- <- _]|].
  destruct (watch_target settings) as [a|].
  - destruct (latch _ _ _) as [es' slot'] eqn:E. intros [= <- <- _]. exact (latch_spec _ _ _ _ _ E).
  - intros [= <- <- _]. apply let_go_spec.
Qed.
Lemma serve_spec o s es s' : serve o s = (es, s') -> legal (socket_guards s) es /\ foldl after (socket_guards s) es = socket_guards s'.
Proof.
  unfold socket_guards. destruct o as [id bits|live|now settings look]; cbn [serve].
  - destruct (hello id bits (holds s)) as [es0 h] eqn:E. intros [= <- <-]. destruct (hello_spec _ _ _ _ _ E) as [H1 H2].
    destruct (legal_more _ (slot_guards (w_held (watch s))) _ H1) as [H3 H4]. by rewrite H4, H2.
  - destruct (reap live (holds s)) as [es0 h] eqn:E. intros [= <- <-]. destruct (reap_spec _ _ _ _ E) as [H1 H2].
    destruct (legal_more _ (slot_guards (w_held (watch s))) _ H1) as [H3 H4]. by rewrite H4, H2.
  - destruct (watch_poll now settings look (watch s)) as [ [es0 w] cfg] eqn:E. intros [= <- <-]. destruct (watch_spec _ _ _ _ _ _ _ E) as [H1 H2].
    rewrite (comm_L (⊎) (hold_guards (holds s))), (comm_L (⊎) (hold_guards (holds s))).
    destruct (legal_more _ (hold_guards (holds s)) _ H1) as [H3 H4]. by rewrite H4, H2.
Qed.
Lemma device_spec cfg have wake awake es cl : device_claims cfg have wake awake = (es, cl) ->
  legal (claim_guards (wake, awake)) es /\ foldl after (claim_guards (wake, awake)) es = claim_guards cl.
Proof.
  unfold device_claims, claim_guards. destruct (latch wake _ _) as [e1 w1] eqn:E1, (latch awake _ _) as [e2 w2] eqn:E2.
  intros [= <- <-]. cbn [fst snd]. apply latch_spec in E1 as [L1 F1], E2 as [L2 F2].
  destruct (legal_more _ (slot_guards awake) _ L1) as [L3 F3]. destruct (legal_more _ (slot_guards w1) _ L2) as [L4 F4].
  rewrite (comm_L (⊎) (slot_guards awake)) in L4, F4. rewrite legal_app, foldl_app, F3, F1, F4, F2.
  split; [done|]. apply (comm_L (⊎)).
Qed.

(** ** Every interleaving *)
Record hub_inv (h : Hub) (gs gd : guards) : Prop := {
  inv_counts : counts_guards (demand h) (windows h ⊎ gs ⊎ gd);
  inv_socket : legal gs (socket_todo h) /\ foldl after gs (socket_todo h) = socket_guards (socket h);
  inv_device : legal gd (device_todo h) /\ foldl after gd (device_todo h) = claim_guards (claims h)
}.
Lemma call_counts d e g k : counts_guards d (g ⊎ k) -> match e with Hold _ => True | Drop r => r ∈ g end ->
  counts_guards (on_demand d e) (after g e ⊎ k).
Proof.
  intros Hc He. replace (after g e ⊎ k) with (after (g ⊎ k) e) by (destruct e; cbn [after]; multiset_solver).
  apply claim_counts; [done|]. split; [|done]. destruct e; [done|multiset_solver].
Qed.
(** One step, and what the two threads hold after it. *)
Lemma hub_step_inv h h' gs gd : hub_inv h gs gd -> hub_step h h' ->
  exists gs' gd', hub_inv h' gs' gd' /\
    (socket_todo h' = socket_todo h /\ gs' = gs \/ socket_todo h = [] /\ (exists o, serve o (socket h) = (socket_todo h', socket h')) /\ gs' = gs \/
     exists e, socket_todo h = e :: socket_todo h' /\ gs' = after gs e).
Proof.
  intros [Hc [Ls Fs] [Ld Fd] ] Hs. destruct Hs as [r h|r h Hr|o es s h Ht Es|e es h Ht|cfg have es cl h Ht Ec|e es h Ht].
  - exists gs, gd. split; [|auto]. split; [cbn|done..].
    replace (windows h ⊎ {[+ r +]} ⊎ gs ⊎ gd) with ((windows h ⊎ gs ⊎ gd) ⊎ {[+ r +]}) by multiset_solver. by apply hold_counts.
  - exists gs, gd. split; [|auto]. split; [cbn|done..].
    replace (windows h ∖ {[+ r +]} ⊎ gs ⊎ gd) with ((windows h ⊎ gs ⊎ gd) ∖ {[+ r +]}) by multiset_solver. apply drop_counts; [done|multiset_solver].
  - rewrite Ht in *. cbn in Fs. subst gs. exists (socket_guards (socket h)), gd. split; [|right; left; eauto].
    destruct (serve_spec _ _ _ _ Es) as [H1 H2]. by split.
  - rewrite Ht in *. destruct Ls as [Le Ls]. exists (after gs e), gd. split; [|right; right; eauto]. split; [cbn|done..].
    replace (windows h ⊎ after gs e ⊎ gd) with (after gs e ⊎ (windows h ⊎ gd)) by multiset_solver. apply call_counts; [|done].
    by replace (gs ⊎ (windows h ⊎ gd)) with (windows h ⊎ gs ⊎ gd) by multiset_solver.
  - rewrite Ht in *. cbn in Fd. subst gd. exists gs, (claim_guards (claims h)). split; [|auto].
    destruct (claims h) as [wake awake]. destruct (device_spec _ _ _ _ _ _ Ec) as [H1 H2]. by split.
  - rewrite Ht in *. destruct Ld as [Le Ld]. exists gs, (after gd e). split; [|auto]. split; [cbn|done..].
    replace (windows h ⊎ gs ⊎ after gd e) with (after gd e ⊎ (windows h ⊎ gs)) by multiset_solver. apply call_counts; [|done].
    by replace (gd ⊎ (windows h ⊎ gs)) with (windows h ⊎ gs ⊎ gd) by multiset_solver.
Qed.
Lemma hub0_inv : hub_inv hub0 ∅ ∅.
Proof. split; [|done..]. intros r. cbn. by rewrite lookup_empty. Qed.
Lemma reachable_inv h : rtc hub_step hub0 h -> exists gs gd, hub_inv h gs gd.
Proof.
  intros H. assert (Hi : exists gs gd, hub_inv hub0 gs gd) by eauto using hub0_inv. revert Hi.
  induction H as [h|h1 h2 h3 Hs _ IH]; [done|]. intros (gs & gd & Hi). apply IH. destruct (hub_step_inv _ _ _ _ Hi Hs) as (gs' & gd' & Hi' & _). eauto.
Qed.
(** However the windows, the socket thread and the device thread take and let go of their guards,
    the count of a reason is the number of guards alive for it, so the tracker is wanted exactly
    while there is one. Between operations those are the guards of the windows, of the clients,
    of the port watch and of the two settings. *)
Theorem demand_counts_the_guards (h : Hub) : rtc hub_step hub0 h ->
  exists gs gd, counts_guards (demand h) (windows h ⊎ gs ⊎ gd) /\
    (active (demand h) = true <-> windows h ⊎ gs ⊎ gd <> ∅) /\
    (forall r, r ∈ reasons (demand h) <-> r ∈ windows h ⊎ gs ⊎ gd) /\
    (socket_todo h = [] -> gs = hold_guards (holds (socket h)) ⊎ slot_guards (w_held (watch (socket h)))) /\
    (device_todo h = [] -> gd = slot_guards (claims h).1 ⊎ slot_guards (claims h).2).
Proof.
  intros H. destruct (reachable_inv h H) as (gs & gd & [Hc [_ Fs] [_ Fd] ]). exists gs, gd. split_and!.
  - done.
  - by apply counts_active.
  - intros r. by apply counts_reasons.
  - intros E. rewrite E in Fs. exact Fs.
  - intros E. rewrite E in Fd. exact Fd.
Qed.

(** ** Never let go in between *)
Definition never_empty (g : guards) (es : list claim) : Prop := forall a b, es = a ++ b -> foldl after g a <> ∅.
Lemma holds_grow g l : g ⊆ foldl after g (Hold <$> l).
Proof. revert g. induction l as [|r l IH]; intros g; cbn; [done|]. etrans; [|apply IH]. clear IH. cbn [after]. multiset_solver. Qed.
Lemma drops_shrink g l : foldl after g (Drop <$> l) ⊆ g.
Proof. revert g. induction l as [|r l IH]; intros g; cbn; [done|]. etrans; [apply IH|]. clear IH. cbn [after]. multiset_solver. Qed.
Lemma nonempty_above (g k : guards) : g ⊆ k -> g <> ∅ -> k <> ∅.
Proof. intros H Hg ->. apply Hg. multiset_solver. Qed.
Lemma hold_then_drop g l k : g <> ∅ -> foldl after g ((Hold <$> l) ++ (Drop <$> k)) <> ∅ -> never_empty g ((Hold <$> l) ++ (Drop <$> k)).
Proof.
  intros Hg Hf a b E. apply app_eq_inv in E as [(m & Ea & Eb)|(m & Ea & Eb)].
  - apply fmap_app_inv in Ea as (l1 & l2 & -> & -> & ->). eapply nonempty_above; [apply holds_grow|done].
  - apply fmap_app_inv in Eb as (k1 & k2 & -> & -> & ->). subst a. rewrite fmap_app, app_assoc, foldl_app in Hf.
    eapply nonempty_above; [apply drops_shrink|exact Hf].
Qed.
Lemma serve_shape o s es s' : serve o s = (es, s') -> exists l k, es = (Hold <$> l) ++ (Drop <$> k).
Proof.
  assert (Hg : forall slot, exists k, let_go slot = (Hold <$> []) ++ (Drop <$> k)) by (intros [r|]; [by exists [r]|by exists []]).
  destruct o as [id bits|live|now settings look]; cbn [serve].
  - unfold hello. destruct (Hg (holds s !! id)) as [k Ek]. destruct (reason_for bits) as [r|]; intros [= <- <-]; [exists [r], k|exists [], k]; by rewrite Ek.
  - unfold reap. intros [= <- <-]. by eexists [], _.
  - unfold watch_poll. destruct (not_due _ _ _); [intros [= <- <-]; by exists [], []|]. destruct (watch_target settings) as [a|].
    + unfold latch. destruct (match look a with Yes => true | _ => false end); [destruct (w_held (watch s))|];
        intros [= <- <-]; [by exists [], []|by exists [LISTENER_REASON], []|]. destruct (Hg (w_held (watch s))) as [k Ek]. by exists [], k.
    + intros [= <- <-]. destruct (Hg (w_held (watch s))) as [k Ek]. by exists [], k.
Qed.
Definition has_hold (id : Z) (h : Hub) : Prop := is_Some (holds (socket h) !! id).
Lemma held_guards id s r : holds s !! id = Some r -> socket_guards s <> ∅.
Proof. intros E. unfold socket_guards. rewrite (hold_guards_delete id), E. cbn [slot_guards]. multiset_solver. Qed.
Lemma serve_never_empty o s es s' id : serve o s = (es, s') -> is_Some (holds s !! id) -> is_Some (holds s' !! id) -> never_empty (socket_guards s) es.
Proof.
  intros E [r Hr] [r' Hr']. destruct (serve_spec _ _ _ _ E) as [_ H2]. destruct (serve_shape _ _ _ _ E) as (l & k & ->).
  apply hold_then_drop; [by eapply held_guards|]. rewrite H2. by eapply held_guards.
Qed.
Definition keeping (id : Z) (h h' : Hub) : Prop := hub_step h h' /\ has_hold id h'.
(** C16: From a moment the socket thread is between two operations and has a guard for a client, the
    tracker is wanted at every moment, also between the calls of one operation, for as long as
    no operation ends with the client's guard gone. *)
Theorem wanted_throughout (id : Z) (h h' : Hub) : rtc hub_step hub0 h -> socket_todo h = [] -> has_hold id h ->
  rtc (keeping id) h h' -> active (demand h') = true.
Proof.
  intros Hr Ht Hid Hk. destruct (reachable_inv h Hr) as (gs & gd & Hi).
  assert (Hn : never_empty gs (socket_todo h)).
  { rewrite Ht. intros a b E. symmetry in E. apply app_eq_nil in E as [-> _]. cbn. destruct Hi as [_ [_ Fs] _]. rewrite Ht in Fs. cbn in Fs. subst.
    destruct Hid as [r Hid]. by eapply held_guards. }
  clear Hr Ht. revert gs gd Hi Hn. induction Hk as [h|h1 h2 h3 [Hs Hid2] _ IH]; intros gs gd Hi Hn.
  - apply (counts_active _ _ (inv_counts _ _ _ Hi)). specialize (Hn [] _ eq_refl). cbn in Hn. multiset_solver.
  - destruct (hub_step_inv _ _ _ _ Hi Hs) as (gs' & gd' & Hi' & Hcase). apply (IH Hid2 gs' gd' Hi'). clear IH.
    destruct Hcase as [[E ->]|[(Ht & (o & Es) & ->)|(e & Ht & ->)] ].
    + by rewrite E.
    + pose proof (inv_socket _ _ _ Hi) as [_ Fs]. rewrite Ht in Fs. cbn in Fs. subst gs. by eapply serve_never_empty.
    + intros a b E. apply (Hn (e :: a) b). by rewrite Ht, E.
Qed.

(** ** What the clients said *)
(** The last subscriptions of a client, unless it was gone since. *)
Definition said (id : Z) (last : option Z) (o : socket_op) : option Z :=
  match o with
  | Hello i bits => if i =? id then Some bits else last
  | Reap live => if existsb (Z.eqb id) live then last else None
  | Watch _ _ _ => last
  end.
Definition serve_all (os : list socket_op) (s : Socket) : Socket := foldl (fun s o => (serve o s).2) s os.
(** After any operations of the socket thread a client is held for exactly the reason its last
    Hello gives, if it gave one and the client was alive whenever the list of clients was read. *)
Theorem holds_follow_the_clients (os : list socket_op) (id : Z) :
  holds (serve_all os (socket hub0)) !! id = foldl (said id) None os ≫= reason_for.
Proof.
  unfold serve_all. induction os as [|o os IH] using rev_ind; [done|]. rewrite !foldl_snoc.
  set (s := foldl _ _ os) in *. set (l := foldl _ None os) in *. destruct o as [i bits|live|now settings look]; cbn [serve said].
  - unfold hello. destruct (Z.eqb_spec i id) as [->|Hn], (reason_for bits) as [r|] eqn:Er; cbn [snd holds mbind option_bind]; rewrite ?Er.
    + by rewrite lookup_insert_eq.
    + by rewrite lookup_delete_eq.
    + by rewrite lookup_insert_ne.
    + by rewrite lookup_delete_ne.
  - unfold reap. cbn [snd holds]. rewrite map_lookup_filter, IH. destruct (l ≫= reason_for) as [r|] eqn:E; cbn [mbind option_bind].
    + unfold is_live. cbn [fst]. destruct (existsb (Z.eqb id) live) eqn:El; cbn; [by rewrite E|done].
    + by destruct (existsb (Z.eqb id) live).
  - destruct (watch_poll now settings look (watch s)) as [ [es w] c]. exact IH.
Qed.
(** A look that is due leaves a guard exactly if there is something to watch and it listens. *)
Theorem watch_follows_the_port (now : Z) (settings : OutputConfig) (look : SocketAddr -> Listening) (w : PortWatch) :
  let '(_, w', read) := watch_poll now settings look w in
  if not_due LISTENER_POLL (last_looked w) now then w' = w /\ read = None
  else read = Some settings /\ last_looked w' = Some now /\
    (is_Some (w_held w') <-> exists a, watch_target settings = Some a /\ look a = Yes).
Proof.
  unfold watch_poll. destruct (not_due _ _ _) eqn:E; [done|]. destruct (watch_target settings) as [a|]; cbn.
  - unfold latch. destruct (look a) eqn:El; [destruct (w_held w)|..]; cbn; (split; [done|split; [done|] ]); split; try by eauto.
    all: try (intros [? [=] ]). all: intros (? & [= <-] & ?); congruence.
  - split; [done|]. split; [done|]. split; [intros [? [=] ]|by intros (? & [=] & _)].
Qed.

(** ** Recentring *)
Record Recentring := { asked_at : option Z; last_said : option (Z * text) }.
Definition REQUEST_MAX_AGE : Z := 2000000000.
Definition MESSAGE_SHOWN_FOR : Z := 6000000000.
Definition request (now : Z) (s : Recentring) : Recentring := {| asked_at := Some now; last_said := last_said s |}.
Definition take (now : Z) (s : Recentring) : bool * Recentring :=
  (match asked_at s with Some at_ => Z.max 0 (now - at_) <=? REQUEST_MAX_AGE | None => false end, {| asked_at := None; last_said := last_said s |}).
Definition report (t : text) (now : Z) (s : Recentring) : Recentring := {| asked_at := asked_at s; last_said := Some (now, t) |}.
Definition message (now : Z) (s : Recentring) : option text :=
  match last_said s with Some (at_, t) => if Z.max 0 (now - at_) <? MESSAGE_SHOWN_FOR then Some t else None | None => None end.
Definition composing (cfg : OutputConfig) : bool :=
  Games.enabled cfg && (joystick cfg || match opentrack cfg with Some _ => true | None => false end || match bridge_port cfg with Some _ => true | None => false end).
Definition recentre_decision (rs : list text) (tracking composing : bool) : result text unit :=
  if wants_exclusive rs then Err (busy_with rs)
  else if negb tracking then Err (txt "the tracker is not running, so there is no head pose to recentre — start what you are recentring first")
  else if negb composing then Err (txt "nothing is composing a head pose to recentre — turn on head tracking for games, and give it somewhere to send to")
  else Ok tt.
Inductive recentre_op := Asked (now : Z) | Taken (now : Z) | Said (t : text) (now : Z).
Definition recentre_step (s : Recentring) (o : recentre_op) : Recentring :=
  match o with Asked now => request now s | Taken now => (take now s).2 | Said t now => report t now s end.
Definition recentre0 : Recentring := {| asked_at := None; last_said := None |}.
(** A request is taken once, and only while it is fresh: the answer is yes exactly if the last
    of the requests and takings before was a request, no more than two seconds ago. *)
Theorem request_taken_once (os : list recentre_op) (now : Z) :
  (take now (foldl recentre_step recentre0 os)).1 = true <->
  exists a t b, os = a ++ Asked t :: b /\ now - t <= REQUEST_MAX_AGE /\
    Forall (fun o => match o with Said _ _ => True | _ => False end) b.
Proof.
  cbn [take fst]. assert (H : forall t, asked_at (foldl recentre_step recentre0 os) = Some t <->
    exists a b, os = a ++ Asked t :: b /\ Forall (fun o => match o with Said _ _ => True | _ => False end) b).
  { intros t. induction os as [|o os IH] using rev_ind; [split; [done|by intros ([|? ?] & b & [=] & _)]|]. rewrite foldl_snoc. split.
    - destruct o as [t'|t'|m t']; cbn; [|done|].
      + intros [= ->]. by exists os, [].
      + intros E. apply IH in E as (a & b & -> & Hb). exists a, (b ++ [Said m t']). split; [by rewrite <- app_assoc|]. apply Forall_app. by split; [|constructor].
    - intros (a & b & E & Hb). destruct b as [|o' b _] using rev_ind.
      + apply app_inj_tail in E as [_ ->]. done.
      + rewrite app_comm_cons, app_assoc in E. apply app_inj_tail in E as [-> ->]. apply Forall_app in Hb as [Hb Ho].
        inversion Ho as [|? ? Ho']. destruct o'; try done. cbn. apply IH. by exists a, b. }
  split.
  - destruct (asked_at _) as [t|]; [|done]. intros Hle%Z.leb_le. destruct (proj1 (H t) eq_refl) as (a & b & -> & Hb).
    exists a, t, b. split; [done|]. split; [lia|done].
  - intros (a & t & b & E & Hle & Hb). rewrite (proj2 (H t)) by eauto. apply Z.leb_le. unfold REQUEST_MAX_AGE in *. lia.
Qed.

(** ** Witnesses *)
(** A client that watches the gaze asks for the pose instead: the state between the two calls. *)
Definition asks (bits : Z) (h : Hub) : Hub := let '(es, s) := serve (Hello 7 bits) (socket h) in {h with socket := s; socket_todo := es}.
Definition calls (h : Hub) : Hub := match socket_todo h with e :: es => {h with demand := on_demand (demand h) e; socket_todo := es} | [] => h end.
Lemma asks_step bits h : socket_todo h = [] -> hub_step h (asks bits h).
Proof. intros Ht. unfold asks. destruct (serve (Hello 7 bits) (socket h)) as [es s] eqn:E. by eapply socket_begins. Qed.
Lemma calls_step h e es : socket_todo h = e :: es -> hub_step h (calls h).
Proof. intros Ht. unfold calls. rewrite Ht. by apply socket_calls. Qed.
Example wanted_throughout_witness :
  let h := calls (asks 1 hub0) in
  rtc (keeping 7) h (calls (asks 4 h)) /\ active (demand (calls (asks 4 h))) = true /\ length (reasons (demand (calls (asks 4 h)))) = 2%nat.
Proof.
  set (h := calls (asks 1 hub0)).
  assert (Hk : rtc (keeping 7) h (calls (asks 4 h))).
  { eapply rtc_l; [split; [apply (asks_step 4); reflexivity|vm_compute; by eexists]|]. eapply rtc_l; [split; [eapply calls_step; reflexivity|vm_compute; by eexists]|]. apply rtc_refl. }
  split; [exact Hk|]. split; [|vm_compute; reflexivity]. apply (wanted_throughout 7 h).
  - eapply rtc_l; [apply (asks_step 1 hub0); reflexivity|]. eapply rtc_l; [eapply calls_step; reflexivity|]. apply rtc_refl.
  - reflexivity.
  - vm_compute. by eexists.
  - exact Hk.
Defined.
