(* ===== verification/HubLease.v ===== *)
(** * HubLease: who has the device (tobii-gtk/src/device.rs and outputs.rs)

    One thread of the hub owns the tracker and another serves the socket; a client may be given
    the whole device. Both threads are step relations over the state they share, one step for
    each call under a lock, each read of a shared value, and each message, so that every
    interleaving is a run. What a thread reads of the demand, which clients are alive and what
    the device does are chosen freely at each step.

    [lease_excludes_the_hub]: from the moment a client was told yes until its lease ends, the hub
    does not have the device open. [request_is_bounded]: a requested lease waits for a bounded
    number of steps of the device thread, and the step that ends the wait hands it over. [commands_in_order]: no command is lost or overtaken. *)
From stdpp Require Import relations.
From S2P Require Import Prelude IpcCodec Text Order SockAddr Listener Games HubDemand.

(** ** The lease *)
Inductive Lease := Free | Requested (by_ : Z) (name : text) | Held (by_ : Z) (name : text).
Definition holder (l : Lease) : option (Z * text) := match l with Free => None | Requested b n | Held b n => Some (b, n) end.
Definition client (l : Lease) : option Z := fst <$> holder l.
Definition hub_must_not_open (l : Lease) : bool := match l with Free => false | _ => true end.
Inductive LeaseDecision := Grant | Refuse (why : text) | Released | NotHeld.
Definition lease_decision (holder : option (Z * text)) (requester : Z) (action : LeaseAction) : LeaseDecision :=
  match action, holder with
  | Acquire, None => Grant
  | Acquire, Some (id, name) => if id =? requester then Grant else Refuse (txt "the tracker is leased by " ++ name)
  | Release, Some (id, _) => if id =? requester then Released else NotHeld
  | Release, None => NotHeld
  end.
Definition must_wait (demand_active pending_empty lease_blocks : bool) : bool := (negb demand_active && pending_empty) || lease_blocks.
Definition announce_release (l : Lease) : Lease := match l with Requested b n => Held b n | _ => l end.

(** ** What is seen from outside *)
Inductive event :=
| Granted (c : Z)
| Refused (c : Z) (why : text)
| GaveBack (c : Z)
| Reaped (c : Z)
| HubOpens
| HubCloses.
(** The client that was told yes and whose lease has not ended. *)
Definition granted_after (g : option Z) (e : event) : option Z :=
  match e with Granted c => Some c | GaveBack _ | Reaped _ => None | _ => g end.
Definition granted (log : list event) : option Z := foldl granted_after None log.
Definition open_after (o : bool) (e : event) : bool := match e with HubOpens => true | HubCloses => false | _ => o end.
Definition hub_open (log : list event) : bool := foldl open_after false log.

(** ** The socket thread: one pass of [Serving::tick], as far as the lease *)
Definition push_new (x : Z) (l : list Z) : list Z := if existsb (Z.eqb x) l then l else l ++ [x].
Definition handle_lease (rs : list text) (l : Lease) (awaiting : list Z) (from : Z) (name : text) (action : LeaseAction)
    : Lease * list Z * list event :=
  match lease_decision (holder l) from action with
  | Grant => if wants_exclusive rs then (l, awaiting, [Refused from (busy_with rs)]) else (Requested from name, push_new from awaiting, [])
  | Refuse why => (l, awaiting, [Refused from why])
  | Released => (Free, awaiting, [GaveBack from])
  | NotHeld => (l, awaiting, [])
  end.
Definition alive (live : list Z) (c : Z) : bool := existsb (Z.eqb c) live.
Definition reap_lease (live : list Z) (l : Lease) : Lease * list event :=
  match client l with Some c => if alive live c then (l, []) else (Free, [Reaped c]) | None => (l, []) end.
Definition reconcile (live : list Z) (l : Lease) (awaiting : list Z) : list Z :=
  List.filter (fun c => alive live c && bool_decide (client l = Some c)) awaiting.
Definition answer (h : Lease) (awaiting : list Z) : list Z * list event :=
  match h with
  | Held b _ => (List.filter (fun c => negb (c =? b)) awaiting, Granted <$> List.filter (fun c => c =? b) awaiting)
  | _ => (awaiting, [])
  end.
Inductive socket_pc :=
| SWaits
| SServes (msgs : list (Z * option LeaseAction))
| SReaps (live : list Z)
| SReconciles (live : list Z)
| SReads
| SAnswers (h : Lease).

(** ** The device thread *)
Inductive device_pc :=
| DDrains
| DAnnounces
| DAsksDemand
| DAsksQueue (wanted : bool)
| DAsksLease (wanted queue_empty : bool)
| DIdles
| DOpens
| DFails
| DApplies
| DChecksDemand
| DChecksLease
| DTakes
| DReads
| DDrops
| DLeaves.
(** From the first attempt to open it until the connection is dropped. *)
Definition has_device (p : device_pc) : bool :=
  match p with DOpens | DApplies | DChecksDemand | DChecksLease | DTakes | DReads | DDrops => true | _ => false end.

Section Hub.
Context {Command : Type}.
Record World := {
  lease : Lease; awaiting : list Z; spc : socket_pc;
  dpc : device_pc; queue : list Command; pending : list Command;
  sent : list Command; handled : list Command;
  log : list event
}.
Definition world0 : World :=
  {| lease := Free; awaiting := []; spc := SWaits; dpc := DDrains; queue := []; pending := []; sent := []; handled := []; log := [] |}.
Definition at_d (p : device_pc) (w : World) : World := {w with dpc := p}.
Definition at_s (p : socket_pc) (w : World) : World := {w with spc := p}.
Definition says (es : list event) (w : World) : World := {w with log := log w ++ es}.

Inductive socket_step : World -> World -> Prop :=
| s_polls msgs w : spc w = SWaits -> socket_step w (at_s (SServes msgs) w)
| s_passes c ms w : spc w = SServes ((c, None) :: ms) -> socket_step w (at_s (SServes ms) w)
| s_leases c a ms name rs l q es w : spc w = SServes ((c, Some a) :: ms) ->
    handle_lease rs (lease w) (awaiting w) c name a = (l, q, es) ->
    socket_step w (says es (at_s (SServes ms) {w with lease := l; awaiting := q}))
| s_lists live w : spc w = SServes [] -> socket_step w (at_s (SReaps live) w)
| s_reaps live l es w : spc w = SReaps live -> reap_lease live (lease w) = (l, es) ->
    socket_step w (says es (at_s (SReconciles live) {w with lease := l}))
| s_reconciles live w : spc w = SReconciles live ->
    socket_step w (at_s SReads {w with awaiting := reconcile live (lease w) (awaiting w)})
| s_reads w : spc w = SReads -> socket_step w (at_s (SAnswers (lease w)) w)
| s_answers h q es w : spc w = SAnswers h -> answer h (awaiting w) = (q, es) ->
    socket_step w (says es (at_s SWaits {w with awaiting := q})).

Inductive device_step : World -> World -> Prop :=
(* stand_by *)
| d_drains c q w : dpc w = DDrains -> queue w = c :: q -> device_step w {w with queue := q; pending := pending w ++ [c] }
| d_drained w : dpc w = DDrains -> queue w = [] -> device_step w (at_d DAnnounces w)
| d_announces w : dpc w = DAnnounces -> device_step w (at_d DAsksDemand {w with lease := announce_release (lease w)})
| d_asks_demand b w : dpc w = DAsksDemand -> device_step w (at_d (DAsksQueue b) w)
| d_asks_queue b w : dpc w = DAsksQueue b -> device_step w (at_d (DAsksLease b (match pending w with [] => true | _ => false end)) w)
| d_waits b e w : dpc w = DAsksLease b e -> must_wait b e (hub_must_not_open (lease w)) = true -> device_step w (at_d DIdles w)
| d_starts b e w : dpc w = DAsksLease b e -> must_wait b e (hub_must_not_open (lease w)) = false -> device_step w (says [HubOpens] (at_d DOpens w))
| d_idled w : dpc w = DIdles -> device_step w (at_d DDrains w)
(* device_session *)
| d_opened w : dpc w = DOpens -> device_step w (at_d DApplies w)
| d_not_opened w : dpc w = DOpens -> device_step w (says [HubCloses] (at_d DFails w))
| d_fails c q w : dpc w = DFails -> pending w = c :: q -> device_step w {w with pending := q; handled := handled w ++ [c] }
| d_failed w : dpc w = DFails -> pending w = [] -> device_step w (at_d DLeaves w)
| d_applies c q w : dpc w = DApplies -> pending w = c :: q -> device_step w {w with pending := q; handled := handled w ++ [c] }
| d_applied w : dpc w = DApplies -> pending w = [] -> device_step w (at_d DChecksDemand w)
| d_still_wanted w : dpc w = DChecksDemand -> device_step w (at_d DChecksLease w)
| d_unwanted w : dpc w = DChecksDemand -> device_step w (at_d DDrops w)
| d_lets_go w : dpc w = DChecksLease -> hub_must_not_open (lease w) = true -> device_step w (at_d DDrops w)
| d_goes_on w : dpc w = DChecksLease -> hub_must_not_open (lease w) = false -> device_step w (at_d DTakes w)
| d_takes c q w : dpc w = DTakes -> queue w = c :: q -> device_step w {w with queue := q; handled := handled w ++ [c] }
| d_took w : dpc w = DTakes -> queue w = [] -> device_step w (at_d DReads w)
| d_read w : dpc w = DReads -> device_step w (at_d DChecksDemand w)
| d_silent w : dpc w = DReads -> device_step w (at_d DDrops w)
| d_drops w : dpc w = DDrops -> device_step w (says [HubCloses] (at_d DLeaves w))
| d_leaves w : dpc w = DLeaves -> device_step w (at_d DDrains {w with lease := announce_release (lease w)}).

(** Any part of the hub sends a command. *)
Inductive ui_step : World -> World -> Prop :=
| u_sends c w : ui_step w {w with queue := queue w ++ [c]; sent := sent w ++ [c] }.
Definition step (w w' : World) : Prop := socket_step w w' \/ device_step w w' \/ ui_step w w'.

(** ** The invariant *)
Definition drained (p : device_pc) : bool := match p with DChecksDemand | DChecksLease | DTakes | DReads | DDrops | DLeaves => true | _ => false end.
Record hub_ok (w : World) : Prop := {
  ok_open : hub_open (log w) = has_device (dpc w);
  ok_held : (exists b n, lease w = Held b n) -> has_device (dpc w) = false;
  ok_granted : forall c, granted (log w) = Some c -> client (lease w) = Some c /\ has_device (dpc w) = false;
  ok_answers : forall b n, spc w = SAnswers (Held b n) -> lease w = Held b n;
  ok_awaited : forall c, client (lease w) = Some c -> granted (log w) = Some c \/ c ∈ awaiting w;
  ok_alive : forall live c, spc w = SReconciles live -> client (lease w) = Some c -> alive live c = true;
  ok_pending : drained (dpc w) = true -> pending w = [];
  ok_order : sent w = handled w ++ pending w ++ queue w
}.
Lemma world0_ok : hub_ok world0.
Proof. split; done. Qed.
Lemma granted_app a b : granted (a ++ b) = foldl granted_after (granted a) b.
Proof. apply foldl_app. Qed.
Lemma hub_open_app a b : hub_open (a ++ b) = foldl open_after (hub_open a) b.
Proof. apply foldl_app. Qed.
Lemma announce_client l : client (announce_release l) = client l.
Proof. by destruct l. Qed.

(** A step of the device thread that leaves the lease as it is. *)
Lemma device_keeps w w' es : hub_ok w -> log w' = log w ++ es -> lease w' = lease w -> spc w' = spc w -> awaiting w' = awaiting w ->
  (forall g, foldl granted_after g es = g) -> foldl open_after (has_device (dpc w)) es = has_device (dpc w') ->
  (has_device (dpc w') = true -> has_device (dpc w) = true \/ lease w = Free) ->
  (drained (dpc w') = true -> pending w' = []) -> sent w' = handled w' ++ pending w' ++ queue w' -> hub_ok w'.
Proof.
  intros [H1 H2 H3 H4 H5 H6 H7 H8] El Ll Es Ea Hg Ho Hd Hp Hs. split; rewrite ?El, ?Ll, ?Es, ?Ea; try done.
  - by rewrite hub_open_app, H1.
  - intros (b & n & E). destruct (has_device (dpc w')); [|done]. destruct (Hd eq_refl) as [Hx|Hx]; [rewrite H2 in Hx by eauto; done|congruence].
  - intros c. rewrite granted_app, Hg. intros E. destruct (H3 c E) as [Hc Hn]. split; [done|].
    destruct (has_device (dpc w')); [|done]. destruct (Hd eq_refl) as [Hx|Hx]; [congruence|]. by rewrite Hx in Hc.
  - intros c. rewrite granted_app, Hg. apply H5.
Qed.
Lemma announced_ok w p : hub_ok w -> has_device (dpc w) = false -> has_device p = false -> drained p = false -> hub_ok (at_d p {w with lease := announce_release (lease w)}).
Proof.
  intros [H1 H2 H3 H4 H5 H6 H7 H8] Hd Hp Hn. destruct w. split; cbn -[has_device drained announce_release client granted hub_open] in *; rewrite ?announce_client; try done.
  - congruence.
  - intros c Hc. split; [by apply H3|done].
  - intros b n E. by rewrite (H4 b n E).
  - congruence.
Qed.
Lemma device_step_ok w w' : hub_ok w -> device_step w w' -> hub_ok w'.
Proof.
  intros Hw Hs. pose proof (ok_order _ Hw) as Ho. pose proof (ok_pending _ Hw) as Hp. destruct Hs; match goal with H : dpc w = _ |- _ => rename H into Hd; rewrite Hd in Hp end; destruct w; cbn in Hd; subst.
  all: try (apply announced_ok; by rewrite ?Hd).
  all: match goal with |- hub_ok (says ?es _) => apply (device_keeps _ _ es Hw) | |- _ => apply (device_keeps _ _ [] Hw) end;
    cbn; rewrite ?app_nil_r, ?Hd; try done.
  all: try (intros _; by left).
  all: cbn in *; subst; try (by rewrite <- !app_assoc).
  - intros _. right. destruct lease0; [done|..]; cbn in *; unfold must_wait in *; rewrite orb_true_r in *; done.
  - rewrite (Hp eq_refl). cbn. by rewrite <- app_assoc.
Qed.

(** A step of the socket thread: what it does to the lease, the waiting clients and the log. *)
Lemma socket_keeps w w' es : hub_ok w -> log w' = log w ++ es -> dpc w' = dpc w -> foldl open_after (has_device (dpc w)) es = has_device (dpc w) ->
  pending w' = pending w -> queue w' = queue w -> sent w' = sent w -> handled w' = handled w ->
  (forall b n, lease w' = Held b n -> lease w = Held b n) ->
  (forall c, foldl granted_after (granted (log w)) es = Some c -> client (lease w') = Some c /\ has_device (dpc w) = false) ->
  (forall b n, spc w' = SAnswers (Held b n) -> lease w' = Held b n) ->
  (forall c, client (lease w') = Some c -> foldl granted_after (granted (log w)) es = Some c \/ c ∈ awaiting w') ->
  (forall live c, spc w' = SReconciles live -> client (lease w') = Some c -> alive live c = true) -> hub_ok w'.
Proof.
  intros [H1 H2 H3 H4 H5 H6 H7 H8] El Ed Eo Ep Eq Es Eh Hl Hg Ha Hw Hr. split; rewrite ?El, ?Ed, ?Ep, ?Eq, ?Es, ?Eh, ?granted_app, ?hub_open_app, ?H1; try done.
  intros (b & n & E). apply H2. eauto.
Qed.
Lemma push_new_in x l : x ∈ push_new x l.
Proof.
  unfold push_new. destruct (existsb (Z.eqb x) l) eqn:E; [|apply elem_of_app; right; by apply list_elem_of_singleton].
  apply existsb_exists in E as (y & Hy & ->%Z.eqb_eq). by apply list_elem_of_In.
Qed.
Lemma push_new_sub x y l : y ∈ l -> y ∈ push_new x l.
Proof. unfold push_new. destruct (existsb (Z.eqb x) l); [done|]. intros H. apply elem_of_app. by left. Qed.
(** What a request does, in the terms of the invariant. *)
Lemma handle_lease_ok rs l q c name a l' q' es :
  handle_lease rs l q c name a = (l', q', es) ->
  (l' = l /\ q' = q /\ (es = [] \/ exists why, es = [Refused c why])) \/
  ((client l = None \/ client l = Some c) /\ l' = Requested c name /\ q' = push_new c q /\ es = []) \/
  (client l = Some c /\ l' = Free /\ q' = q /\ es = [GaveBack c]).
Proof.
  unfold handle_lease, lease_decision, client. destruct a, (holder l) as [ [b n]|]; cbn.
  - destruct (Z.eqb_spec b c) as [->|]; [destruct (wants_exclusive rs)|]; intros [= <- <- <-]; naive_solver.
  - destruct (wants_exclusive rs); intros [= <- <- <-]; naive_solver.
  - destruct (Z.eqb_spec b c) as [->|]; intros [= <- <- <-]; naive_solver.
  - intros [= <- <- <-]; naive_solver.
Qed.
Lemma leases_ok w c a ms name rs l q es : hub_ok w -> spc w = SServes ((c, Some a) :: ms) ->
  handle_lease rs (lease w) (awaiting w) c name a = (l, q, es) -> hub_ok (says es (at_s (SServes ms) {w with lease := l; awaiting := q})).
Proof.
  intros Hw Hs E. pose proof Hw as [H1 H2 H3 H4 H5 H6 H7 H8].
  destruct (handle_lease_ok _ _ _ _ _ _ _ _ _ E) as [(-> & -> & Hes)|[(Hc & -> & -> & ->)|(Hc & -> & -> & ->)] ]; destruct w; cbn in *.
  - apply (socket_keeps _ _ es Hw); try done; destruct Hes as [->|[why ->] ]; done.
  - apply (socket_keeps _ _ [] Hw); try done; cbn.
    + intros x Hx. destruct (H3 x Hx) as [Hx' Hd]. split; [|done]. destruct Hc as [Hc|Hc]; congruence.
    + intros x [= <-]. right. apply push_new_in.
  - by apply (socket_keeps _ _ [GaveBack c] Hw).
Qed.
Lemma answers_ok w h q es : hub_ok w -> spc w = SAnswers h -> answer h (awaiting w) = (q, es) -> hub_ok (says es (at_s SWaits {w with awaiting := q})).
Proof.
  intros Hw Hs E. pose proof Hw as [H1 H2 H3 H4 H5 H6 H7 H8]. destruct h as [|b n|b n]; cbn in E; injection E as <- <-.
  1, 2: destruct w; cbn in *; by apply (socket_keeps _ _ [] Hw).
  assert (El := H4 b n Hs). assert (Hd := H2 (ex_intro _ b (ex_intro _ n El))). remember (Granted <$> List.filter (fun c => c =? b) (awaiting w)) as es eqn:Ees.
  assert (Hes : (es = [] /\ b ∉ awaiting w) \/ forall g, foldl granted_after g es = Some b).
  { subst es. generalize (awaiting w). induction l as [|x l IH] using rev_ind; [left; split; [done|apply not_elem_of_nil]|].
    rewrite List.filter_app, fmap_app. cbn. destruct (Z.eqb_spec x b) as [->|Hx].
    - right. intros g. by rewrite foldl_app.
    - cbn. rewrite app_nil_r. destruct IH as [[IH Hb]|IH]; [left; split; [done|]|by right]. rewrite not_elem_of_app, list_elem_of_singleton. by split; [|intros ->]. }
  assert (Ho : foldl open_after (has_device (dpc w)) es = has_device (dpc w)).
  { subst es. generalize (List.filter (fun c => c =? b) (awaiting w)). intros l. by induction l. }
  clear Ees. destruct w; cbn in *. subst lease0. apply (socket_keeps _ _ es Hw); try done; cbn.
  - intros c Hc. destruct Hes as [[-> _]|Hes]; [by apply H3|]. rewrite Hes in Hc. injection Hc as <-. done.
  - intros c [= <-]. left. destruct Hes as [[-> Hb]|Hes]; [|apply Hes]. cbn. destruct (H5 b eq_refl) as [Hg|Hb']; [done|]. done.
Qed.
Lemma socket_step_ok w w' : hub_ok w -> socket_step w w' -> hub_ok w'.
Proof.
  intros Hw Hs. destruct Hs as [msgs w Hp|c ms w Hp|c a ms name rs l q es w Hp E|live w Hp|live l es w Hp E|live w Hp|w Hp|h q es w Hp E].
  - pose proof Hw as []. destruct w; cbn in *. apply (socket_keeps _ _ [] Hw); cbn; by rewrite ?app_nil_r.
  - pose proof Hw as []. destruct w; cbn in *. apply (socket_keeps _ _ [] Hw); cbn; by rewrite ?app_nil_r.
  - by eapply leases_ok.
  - pose proof Hw as []. destruct w; cbn in *. apply (socket_keeps _ _ [] Hw); cbn; by rewrite ?app_nil_r.
  - unfold reap_lease in E. destruct (client (lease w)) as [c|] eqn:Ec.
    + destruct (alive live c) eqn:Ea; injection E as <- <-; pose proof Hw as []; destruct w; cbn in *.
      * apply (socket_keeps _ _ [] Hw); cbn; try done; try by rewrite ?app_nil_r. intros live' c' [= <-]. congruence.
      * by apply (socket_keeps _ _ [Reaped c] Hw).
    + injection E as <- <-. pose proof Hw as []. destruct w; cbn in *. apply (socket_keeps _ _ [] Hw); cbn; try done; try by rewrite ?app_nil_r. congruence.
  - pose proof Hw as [H1 H2 H3 H4 H5 H6 H7 H8]. destruct w; cbn in *. apply (socket_keeps _ _ [] Hw); cbn; try done; try by rewrite ?app_nil_r.
    intros c Hc. destruct (H5 c Hc) as [Hg|Hi]; [by left|right]. unfold reconcile. apply list_elem_of_In, filter_In.
    split; [by apply list_elem_of_In|]. rewrite (H6 live c Hp Hc). by rewrite bool_decide_true.
  - pose proof Hw as []. destruct w; cbn in *. apply (socket_keeps _ _ [] Hw); cbn; try done; try by rewrite ?app_nil_r. by intros b n [= <-].
  - by eapply answers_ok.
Qed.
Lemma step_ok w w' : hub_ok w -> step w w' -> hub_ok w'.
Proof.
  intros Hw [Hs|[Hs|Hs] ]; [by eapply socket_step_ok|by eapply device_step_ok|].
  destruct Hs as [c w]. destruct Hw as [H1 H2 H3 H4 H5 H6 H7 H8]. destruct w; cbn in *. split; try done. cbn. by rewrite H8, <- !app_assoc.
Qed.
Lemma reachable_ok w : rtc step world0 w -> hub_ok w.
Proof.
  intros H. assert (Hi := world0_ok). revert Hi. induction H as [w|w1 w2 w3 Hs _ IH]; [done|]. intros Hi. apply IH. by eapply step_ok.
Qed.

(** ** The theorems *)

(** C15: From the moment a client was told yes until its lease ends (it gives it back, or is found
    gone) the hub does not have the device, and the lease is that client's. *)
Theorem lease_excludes_the_hub (w : World) (c : Z) : rtc step world0 w -> granted (log w) = Some c ->
  hub_open (log w) = false /\ has_device (dpc w) = false /\ client (lease w) = Some c.
Proof.
  intros Hr Hg. pose proof (reachable_ok w Hr) as Hw. destruct (ok_granted _ Hw c Hg) as [Hc Hd]. by rewrite (ok_open _ Hw).
Qed.
(** No command is lost, and none overtakes another: those handled so far, those waiting for the
    device and those still in the channel are the commands sent, in the order they were sent. *)
Theorem commands_in_order (w : World) : rtc step world0 w -> sent w = handled w ++ pending w ++ queue w.
Proof. intros Hr. apply (ok_order _ (reachable_ok w Hr)). Qed.
(** The client a lease is for has been told so or is on the list of those to be told; and a pass
    that saw the lease held ends with its client told. *)
Theorem held_is_answered (w : World) (c : Z) : rtc step world0 w ->
  (client (lease w) = Some c -> granted (log w) = Some c \/ c ∈ awaiting w) /\
  (forall n w', spc w = SAnswers (Held c n) -> socket_step w w' -> granted (log w') = Some c).
Proof.
  intros Hr. pose proof (reachable_ok w Hr) as Hw. split; [apply (ok_awaited _ Hw)|]. intros n w' Hs Hstep.
  pose proof (socket_step_ok _ _ Hw Hstep) as Hw'. assert (El := ok_answers _ Hw c n Hs).
  destruct Hstep as [msgs w Hp|x ms w Hp|x a ms name rs l q es w Hp E|live w Hp|live l es w Hp E|live w Hp|w Hp|h q es w Hp E]; rewrite Hp in Hs; try done.
  injection Hs as ->. cbn in E. injection E as <- <-. pose proof (ok_awaited _ Hw' c) as Ha. destruct w; cbn in *. subst lease0.
  destruct (Ha eq_refl) as [Hg|Hi]; [done|]. apply list_elem_of_In, filter_In in Hi as [_ Hi]. by rewrite Z.eqb_refl in Hi.
Qed.

(** ** How long a request waits *)
Definition steps_left (w : World) : nat :=
  (let q := length (queue w) in let p := length (pending w) in
  match dpc w with
  | DLeaves | DAnnounces => 1 | DDrops => 2 | DChecksLease => 3 | DChecksDemand => 4 | DReads => 5 | DTakes => 6 + q
  | DApplies => 5 + p | DFails => 2 + p | DOpens => 6 + p
  | DDrains => 2 + q | DIdles => 3 + q | DAsksLease _ _ => 4 + q | DAsksQueue _ => 5 + q | DAsksDemand => 6 + q
  end)%nat.
Lemma steps_left_bound w : (1 <= steps_left w <= 6 + length (queue w) + length (pending w))%nat.
Proof. unfold steps_left. destruct (dpc w); lia. Qed.
Lemma device_can_step w : exists w', device_step w w'.
Proof.
  destruct (dpc w) eqn:E; try (by eexists; apply (d_asks_demand true)); try (eexists; by econstructor).
  - destruct (queue w) eqn:Eq; eexists; [by apply d_drained|by eapply d_drains].
  - destruct (must_wait wanted queue_empty (hub_must_not_open (lease w))) eqn:Em; eexists; [by eapply d_waits|by eapply d_starts].
  - destruct (pending w) eqn:Eq; eexists; [by apply d_failed|by eapply d_fails].
  - destruct (pending w) eqn:Eq; eexists; [by apply d_applied|by eapply d_applies].
  - destruct (hub_must_not_open (lease w)) eqn:Em; eexists; [by apply d_lets_go|by apply d_goes_on].
  - destruct (queue w) eqn:Eq; eexists; [by apply d_took|by eapply d_takes].
Qed.
Definition requested (b : Z) (w : World) : Prop := exists n, lease w = Requested b n.
Lemma device_nears w w' b : requested b w -> device_step w w' -> requested b w' -> (steps_left w' < steps_left w)%nat.
Proof.
  intros [n El] Hs [n' El']. destruct Hs; unfold steps_left; destruct w; cbn in *; subst; cbn in *; rewrite ?length_app in *; cbn; try lia; try done.
  unfold must_wait in *. by rewrite orb_true_r in *.
Qed.
(** A stretch in which the lease stays requested by a client: the steps of the device thread,
    and the commands sent meanwhile. *)
Inductive waiting (b : Z) : nat -> nat -> World -> World -> Prop :=
| waits_now w : requested b w -> waiting b 0 0 w w
| waits_device d k w w1 w' : requested b w -> device_step w w1 -> waiting b d k w1 w' -> waiting b (S d) k w w'
| waits_socket d k w w1 w' : requested b w -> socket_step w w1 -> waiting b d k w1 w' -> waiting b d k w w'
| waits_send d k w w1 w' : requested b w -> ui_step w w1 -> waiting b d k w1 w' -> waiting b d (S k) w w'.
Lemma waiting_starts b d k w w' : waiting b d k w w' -> requested b w.
Proof. by destruct 1. Qed.
Lemma waiting_ends b d k w w' : waiting b d k w w' -> requested b w' /\ rtc step w w'.
Proof.
  induction 1 as [w El|d k w w1 w' El Hs _ [? IH]|d k w w1 w' El Hs _ [? IH]|d k w w1 w' El Hs _ [? IH]]; (split; [done|]); [done|..];
    (eapply rtc_l; [|exact IH]); unfold step; auto.
Qed.
(** How the wait of a request ends, if a step ends it. *)
Lemma device_lets_go w w' b n : lease w = Requested b n -> device_step w w' -> lease w' = Requested b n \/ lease w' = Held b n.
Proof. intros El Hs. destruct Hs; destruct w; cbn in *; subst; auto. Qed.
Lemma socket_gives_up w w' b : requested b w -> socket_step w w' ->
  requested b w' \/ lease w' = Free /\ exists new, log w' = log w ++ new /\ (GaveBack b ∈ new \/ Reaped b ∈ new).
Proof.
  intros [n El] Hs. destruct Hs as [msgs w _|c ms w _|c a ms name rs l q es w _ E|live w _|live l es w _ E|live w _|w _|h q es w _ _];
    try (left; by exists n).
  - destruct w. cbn in *. subst lease0. unfold handle_lease, lease_decision in E. cbn [holder] in E. destruct a.
    + destruct (Z.eqb_spec b c) as [<-|_]; [destruct (wants_exclusive rs)|]; injection E as <- <- <-; left; by eexists.
    + destruct (Z.eqb_spec b c) as [<-|_]; injection E as <- <- <-; [right|left; by eexists].
      split; [done|]. eexists. split; [done|]. left. apply list_elem_of_here.
  - destruct w. cbn in *. subst lease0. unfold reap_lease in E. cbn in E. destruct (alive live b); injection E as <- <-; [left; by eexists|right].
    split; [done|]. eexists. split; [done|]. right. apply list_elem_of_here.
Qed.

(** C17: A requested lease is not left waiting: as long as a client's request stands the device
    thread has taken fewer steps than six, the commands it has to deal with, and those sent
    meanwhile; and it can always take another. The step that ends the wait is one of the device
    thread, after which the lease is held by that very client and the hub does not have the
    device open; or it is the client itself giving the request back, or going away. *)
Theorem request_is_bounded (b : Z) (d k : nat) (w w' : World) : rtc step world0 w -> waiting b d k w w' ->
  (d < 6 + length (queue w) + length (pending w) + k)%nat /\ (exists w'', device_step w' w'') /\
  forall w'', step w' w'' ->
    requested b w''
    \/ (device_step w' w'' /\ (exists n, lease w' = Requested b n /\ lease w'' = Held b n) /\ hub_open (log w'') = false /\ has_device (dpc w'') = false)
    \/ (socket_step w' w'' /\ lease w'' = Free /\ exists new, log w'' = log w' ++ new /\ (GaveBack b ∈ new \/ Reaped b ∈ new)).
Proof.
  intros Hr H. pose proof (steps_left_bound w) as Hw. destruct (waiting_ends _ _ _ _ _ H) as [[n El] Hw']. split_and!; [|apply device_can_step|].
  - assert (Hd : (d + steps_left w' <= steps_left w + k)%nat).
    { clear Hw El Hw' Hr. induction H as [w El|d k w w1 w' El Hs H IH|d k w w1 w' El Hs H IH|d k w w1 w' El Hs H IH]; [lia|..].
      - pose proof (device_nears _ _ _ El Hs (waiting_starts _ _ _ _ _ H)). lia.
      - assert (E : steps_left w1 = steps_left w) by (destruct Hs; by destruct w). lia.
      - assert (E : (steps_left w1 <= S (steps_left w))%nat); [|lia]. destruct Hs as [c w]. destruct w; unfold steps_left; cbn. rewrite length_app. cbn. destruct dpc0; lia. }
    pose proof (steps_left_bound w'). lia.
  - intros w'' Hs. pose proof (reachable_ok w'' ltac:(eapply rtc_r; [by etrans|done])) as Hok. destruct Hs as [Hs|[Hs|Hs]].
    + destruct (socket_gives_up _ _ b (ex_intro _ n El) Hs) as [?|[? ?]]; auto.
    + destruct (device_lets_go _ _ _ _ El Hs) as [?|Eh]; [left; by exists n|right; left].
      pose proof (ok_held _ Hok (ex_intro _ b (ex_intro _ n Eh))) as Hd. rewrite (ok_open _ Hok), Hd. eauto 10.
    + left. destruct Hs as [c w']. exists n. by destruct w'.
Qed.
End Hub.

(** ** How long a session outlives its last guard *)
Definition LINGER : Z := 3000000000.
Definition SILENCE : Z := 2000000000.
(** What one pass of the session's loop makes of the demand: the moment it was first seen gone, and
    whether to close. The clock is read twice. *)
Definition idle_check (wanted : bool) (now later : Z) (idle_since : option Z) : option Z * bool :=
  if wanted then (None, false)
  else let since := default now idle_since in (Some since, LINGER <=? Z.max 0 (later - since)).
(** And of what was read: sustained silence is taken for a disconnect, except in a calibration. *)
Definition quiet_check (published calibrating : bool) (now later quiet_since : Z) : Z * bool :=
  if published || calibrating then (now, false) else (quiet_since, SILENCE <=? Z.max 0 (later - quiet_since)).
Definition idle_since (passes : list (bool * Z * Z)) : option Z :=
  foldl (fun s p => (idle_check p.1.1 p.1.2 p.2 s).1) None passes.
Definition unwanted (p : bool * Z * Z) : Prop := p.1.1 = false.
Lemma idle_since_spec passes t : idle_since passes = Some t <->
  exists a l b, passes = a ++ (false, t, l) :: b /\ Forall unwanted b /\ (a = [] \/ exists a' n l', a = a' ++ [(true, n, l')]).
Proof.
  unfold idle_since. revert t. induction passes as [|[ [w n] l] ps IH] using rev_ind; intros t.
  - split; [done|]. by intros ([|? ?] & k & b & [=] & _).
  - rewrite foldl_snoc. cbn [fst snd]. destruct w; cbn [idle_check fst].
    + split; [done|]. intros (a & l' & b & E & Hb & _). destruct b as [|p b _] using rev_ind; [by apply app_inj_tail in E as [_ [=] ]|].
      rewrite app_comm_cons, app_assoc in E. apply app_inj_tail in E as [_ <-]. apply Forall_app in Hb as [_ Hb]. rewrite Forall_singleton in Hb. discriminate Hb.
    + destruct (foldl _ None ps) as [s|] eqn:Es; cbn [default from_option id].
      * split.
        -- intros [= <-]. destruct (proj1 (IH s) eq_refl) as (a & l' & b & -> & Hb & Ha). exists a, l', (b ++ [(false, n, l)]).
           split; [by rewrite <- app_assoc|]. split; [|done]. apply Forall_app. split; [done|by constructor].
        -- intros (a & l' & b & E & Hb & Ha). destruct b as [|p b _] using rev_ind.
           ++ apply app_inj_tail in E as [-> Et]. injection Et as E1 E2. subst. destruct Ha as [->|(a' & n' & l'' & ->)]; [done|]. by rewrite foldl_snoc in Es.
           ++ rewrite app_comm_cons, app_assoc in E. apply app_inj_tail in E as [-> <-]. apply IH. exists a, l', b.
              split; [done|]. by apply Forall_app in Hb as [Hb _].
      * split.
        -- intros [= <-]. exists ps, l, []. split; [done|]. split; [done|]. destruct ps as [|p ps _] using rev_ind; [by left|right].
           rewrite foldl_snoc in Es. destruct p as [ [[] ?] ?]; [by eauto|done].
        -- intros (a & l' & b & E & Hb & Ha). destruct b as [|p b _] using rev_ind; [apply app_inj_tail in E as [_ Et]; injection Et as E1 E2; by subst|].
           rewrite app_comm_cons, app_assoc in E. apply app_inj_tail in E as [-> <-]. exfalso.
           assert (Hx : None = Some t); [|done]. apply IH. exists a, l', b. split; [done|]. by apply Forall_app in Hb as [Hb _].
Qed.
(** A session is closed for want of demand exactly at a pass that finds none, as every pass before
    it did back to one at least three seconds ago. *)
Theorem session_lingers (passes : list (bool * Z * Z)) (wanted : bool) (now later : Z) : now <= later ->
  (idle_check wanted now later (idle_since passes)).2 = true <->
  wanted = false /\
  ((exists a t l b, passes = a ++ (false, t, l) :: b /\ Forall unwanted b /\ (a = [] \/ exists a' n l', a = a' ++ [(true, n, l')]) /\ LINGER <= later - t) \/
   (idle_since passes = None /\ LINGER <= later - now)).
Proof.
  intros Hn. unfold idle_check. destruct wanted; [split; [done|by intros [[=] _] ]|]. cbn [snd]. rewrite Z.leb_le.
  destruct (idle_since passes) as [t|] eqn:E; cbn [default from_option id].
  - split.
    + intros Hl. split; [done|left]. destruct (proj1 (idle_since_spec passes t) E) as (a & l & b & Hp & Hb & Ha). exists a, t, l, b. unfold LINGER in *. split_and!; [done..|lia].
    + intros [_ [(a & t' & l & b & Hp & Hb & Ha & Hl)|[ [=] _] ] ]. assert (Et : idle_since passes = Some t') by (apply idle_since_spec; eauto 10).
      rewrite E in Et. injection Et as <-. unfold LINGER in *. lia.
  - split.
    + intros Hl. split; [done|right]. unfold LINGER in *. split; [done|lia].
    + intros [_ [(a & t' & l & b & Hp & Hb & Ha & Hl)|[_ Hl] ] ]; [|unfold LINGER in *; lia].
      assert (Et : idle_since passes = Some t') by (apply idle_since_spec; eauto 10). congruence.
Qed.

(** ** A client that is refused what it has *)
(** Asking again for a lease one holds is meant to be harmless. While a calibration or a display
    setup is under way it is answered with a refusal, and the lease stays the client's. *)
Theorem holder_is_refused (rs : list text) (b : Z) (n name : text) (q : list Z) : wants_exclusive rs = true ->
  handle_lease rs (Held b n) q b name Acquire = (Held b n, q, [Refused b (busy_with rs)]).
Proof. intros H. unfold handle_lease, lease_decision. cbn. by rewrite Z.eqb_refl, H. Qed.

(** ** Witnesses *)
(** The hub has the device open with a setting queued; a client asks for it and is told yes. *)
Ltac by_step rule := eapply rtc_l; [first [left; eapply rule; reflexivity | right; left; eapply rule; reflexivity | right; right; eapply rule] |].
Definition asked_for : World (Command := nat) :=
  {| lease := Requested 5 (txt "game"); awaiting := [5]; spc := SReaps [5]; dpc := DChecksLease; queue := []; pending := []; sent := [1%nat]; handled := [1%nat]; log := [HubOpens] |}.
Lemma asks_for : rtc step world0 asked_for.
Proof.
  eapply rtc_l; [right; right; apply (u_sends 1%nat)|].
  by_step @d_drains. by_step @d_drained. by_step @d_announces. eapply rtc_l; [right; left; apply (d_asks_demand false); reflexivity|]. by_step @d_asks_queue. by_step @d_starts.
  by_step @d_opened. by_step @d_applies. eapply rtc_l; [left; apply (s_polls [(5, Some Acquire)]); reflexivity|].
  eapply rtc_l; [left; eapply (s_leases 5 Acquire [] (txt "game") []); reflexivity|]. eapply rtc_l; [left; apply (s_lists [5]); reflexivity|].
  by_step @d_applied. by_step @d_still_wanted. apply rtc_refl.
Qed.
Definition told_yes : World (Command := nat) :=
  {| lease := Held 5 (txt "game"); awaiting := []; spc := SWaits; dpc := DDrains; queue := []; pending := []; sent := [1%nat]; handled := [1%nat]; log := [HubOpens; HubCloses; Granted 5] |}.
Lemma tells_yes : rtc step asked_for told_yes.
Proof.
  by_step @d_lets_go. by_step @d_drops. by_step @d_leaves. by_step @s_reaps. by_step @s_reconciles. by_step @s_reads. by_step @s_answers. apply rtc_refl.
Qed.
Example lease_excludes_the_hub_witness : rtc step world0 told_yes /\ granted (log told_yes) = Some 5 /\ hub_open (log told_yes) = false.
Proof.
  assert (Hr : rtc step world0 told_yes) by (etrans; [apply asks_for|apply tells_yes]).
  split; [exact Hr|]. split; [reflexivity|]. apply (lease_excludes_the_hub told_yes 5); [exact Hr|reflexivity].
Defined.
Example request_is_bounded_witness : exists w w', rtc step world0 w /\ waiting 5 2 0 asked_for w /\ step w w' /\ lease w' = Held 5 (txt "game") /\ hub_open (log w') = false.
Proof.
  set (w := says [HubCloses] (at_d DLeaves (at_d DDrops asked_for))).
  assert (Hw : waiting 5 2 0 asked_for w).
  { eapply waits_device; [by eexists|apply d_lets_go; reflexivity|]. eapply waits_device; [by eexists|apply d_drops; reflexivity|]. apply waits_now. by eexists. }
  assert (Hs : step w (at_d DDrains {w with lease := announce_release (lease w)})) by (right; left; apply d_leaves; reflexivity).
  destruct (request_is_bounded 5 2 0 asked_for w asks_for Hw) as (_ & _ & Hends).
  exists w, (at_d DDrains {w with lease := announce_release (lease w)}).
  split; [etrans; [apply asks_for|apply (waiting_ends _ _ _ _ _ Hw)]|]. split; [exact Hw|]. split; [exact Hs|]. split; [reflexivity|].
  destruct (Hends _ Hs) as [[n E]|[(_ & _ & Ho & _)|(_ & E & _)]]; [discriminate E|exact Ho|discriminate E].
Defined.
